(* ===== verification/_CoqProject ===== *)
-Q . S2P
Prelude.v
GoLib.v
Index.v
SessionCtx.v
Permissions.v
Policy.v
Registry.v
RegistryProps.v
Mutation.v
Execution.v
Bridge.v
BridgeProps.v
BridgeTheorems.v
Surface.v
SurfaceProps.v
SurfaceTheorems.v
SurfaceCalls.v
Confirmation.v
ConfirmationProps.v
SessionScopes.v
SessionScopesProps.v
SessionCoordinator.v
SessionCoordinatorProps.v
SessionCoordinatorRuns.v
LifecycleLock.v
LifecycleLockProps.v
ResourceTable.v
ResourceTableProps.v
ResourceTableTheorems.v
Background.v
BackgroundProps.v
Encoding.v
Lease.v
LeaseProps.v
Json.v
JsonProps.v
JsonText.v
JsonPrint.v
CanonicalJson.v
CanonicalSize.v
CanonicalTheorems.v
Ipc.v
IpcProps.v
SemanticIpc.v
SemanticIpcProps.v
Secrets.v
SecretsProps.v
Observability.v
ObservabilityProps.v
AuditDetails.v
AuditJournal.v
AuditJournalProps.v
SecurityMutation.v
Manager.v
ManagerProps.v
ManagerRevoke.v
ManagerCalls.v
WebSocket.v
NetIP.v
Connectivity.v
ConnectivityProps.v
ConnectivityGrants.v
UdpLimiter.v
UdpLimiterProps.v
JsonNumbers.v
Redaction.v
Admission.v
BoundedRead.v
ConnectionStore.v
ConnectionAuthority.v
ConnectionRuns.v
Paths.v
Manifest.v
ManifestChecks.v
Presentation.v
ManifestValidate.v
ManifestProps.v
PresentationProps.v
IntervalStore.v
IntervalHost.v
