(* ===== verification/Prelude.v ===== *)
(** * ReDevPlugin: a verification library for the plugin platform

    ReDevPlugin is a Go platform that runs third-party plugins for the users
    of an environment. The host keeps a registry of installed plugins with
    their permission grants and security policies, hands out short-lived tokens
    to the surfaces (browser frames) of a plugin, asks the user to confirm
    dangerous calls, tears a session down when its user leaves, and runs the
    plugin's workers in a runtime process that accepts signed, single-use
    leases. This library models the components that decide who may do what,
    and those whose correctness depends on the interleaving of goroutines.

    ** The parts and the files that model them

    - [GoLib], [Encoding]: what the sources use of Go's standard library
      (trimming, ordering of strings, time, uint64, hex, base64, the text of
      [json.Marshal]). [Index]: the secondary indices of the in-memory stores.
    - [SessionCtx]: [pkg/sessionctx], the scopes that every other part compares.
    - [Permissions], [Policy]: [pkg/permissions], [pkg/security/policy.go], grant
      records and policies. [Registry] with [RegistryProps]: [pkg/registry], the
      memory store, its writes and [Authorize], which calls both.
    - [Bridge], [BridgeProps], [BridgeTheorems]: [pkg/bridge/bridge.go], the token
      manager. [Surface], [SurfaceProps], [SurfaceTheorems], [SurfaceCalls]:
      [pkg/bridge/surface.go], the surface sessions, which are built on the manager.
    - [Confirmation], [ConfirmationProps]: [pkg/security/confirmation.go], the
      intents that wait for a confirmation.
    - [SessionScopes], [SessionScopesProps]: the store of
      [pkg/sessionscope/sessionscope.go], the fences of a session teardown.
      [SessionCoordinator], [SessionCoordinatorProps], [SessionCoordinatorRuns]: the
      coordinator of the same file, which lets calls reserve a session and a
      teardown wait for them; it is proved against the interface of the store.
    - [Execution]: [pkg/execution], the record of a running call and its event
      log. [Mutation]: [pkg/mutation], the outcome an error carries.
    - [LifecycleLock], [LifecycleLockProps]: [pkg/host/plugin_lifecycle_lock.go], the
      fair locks that order installs, updates and calls of a plugin.
    - [ResourceTable], [ResourceTableProps], [ResourceTableTheorems]:
      [internal/resourceio/table.go], the handles to files and connections.
    - [Background], [BackgroundProps]: [pkg/background/manager.go], the long-running
      workers.
    - [Lease], [LeaseProps]: [internal/runtimeclient/lease_signature.go] and
      [lease_replay.go], the leases the runtime accepts.
    - [Json], [JsonProps], [JsonText], [JsonPrint]: what the sources use of
      [encoding/json]: UTF-8, the decoder into untyped values, the token stream
      and the printer, with the theorems that tie them together.
    - [CanonicalJson], [CanonicalSize], [CanonicalTheorems]:
      [internal/canonicaljson], the text that is hashed and signed.
    - [Ipc], [IpcProps]: [internal/runtimeclient/codec.go], the binary frames
      between the host and the runtime process. [SemanticIpc],
      [SemanticIpcProps]: [semantic_ipc.go] beside it, the
      JSON messages that are cut into frames; proved against the class [Writer]
      of anything bytes can be written to.
    - [Manager], [ManagerProps], [ManagerRevoke], [ManagerCalls]:
      [internal/runtimeclient/manager.go], the shards of the runtime: binding,
      start and stop, routing, calls and revocations. [Admission]: [admission.go]
      beside it, the queue in front of a shard.
    - [Secrets], [SecretsProps]: [pkg/secrets/secrets.go], the memory store of
      secret references.
    - [Observability], [ObservabilityProps], [AuditDetails]:
      [pkg/observability/observability.go], diagnostics, audit events and the
      details they carry. [AuditJournal], [AuditJournalProps]:
      [audit_journal.go] beside it, the journal of security audits;
      [SecurityMutation]: [pkg/host/security_audit.go], the mutations that are on
      its record.
    - [JsonNumbers]: the number literals of
      [internal/jsonvalue]. [Redaction]:
      [pkg/capability/redaction.go] and [risk.go], what a capability may answer.
    - [NetIP]: what the sources use of [net/netip], [net] and [strings] on
      addresses. [Connectivity], [ConnectivityProps], [ConnectivityGrants]:
      [pkg/connectivity], destinations, policies, grants and the guarded
      resolution. [WebSocket]: the frames of its executor;
      [BoundedRead]: its readers of responses; [UdpLimiter],
      [UdpLimiterProps]: [container/heap] and the limiter of UDP round trips.
    - [ConnectionStore], [ConnectionAuthority],
      [ConnectionRuns]: [internal/controlstore/connections.go] and
      [pkg/host/connections.go], the approval of connections and their leases;
      the last composes them with the grants of [Connectivity].
    - [Manifest], [ManifestChecks], [Presentation],
      [ManifestValidate], [ManifestProps], [PresentationProps]: [pkg/manifest],
      the data of a manifest, its validation part by part in the order of the
      source, and its localized texts. [Paths]: versions of
      [pkg/version/semver.go], and what these use of [path], [strings] and [strconv].
    - [IntervalStore], [IntervalHost]:
      [internal/controlstore/background_interval.go] and
      [pkg/host/background_interval.go], the plans of periodic workers, the
      scheduler that claims them, and the job, which validates the manifest of
      its package ([ManifestValidate]) before it runs a method.

    ** How the code is modelled

    A struct is a [Record] with the source's fields, a Go map a [gmap], a string
    a byte string, an error an inductive type with the package's error values,
    [(T, error)] the type [Result]; [let? x := r in k] is the usual test of the
    error. Integers are [Z]; where the width matters the wrap-around of uint64 is
    written out ([u64], [incr64]). A method of a store is a function from the
    store to the new store and its result, the whole method with its guards and
    early returns; since the method runs under the mutex of the store, a run is
    a list of calls. Where goroutines interleave inside a method, the component
    is a step relation: the coordinator and the locks on program counters and
    queues, the resource table, the surface token service and the background
    manager on trees of atomic actions ([Prog]), one tree per method, over the
    shared state. Where the result of a loop over a map depends on its order, the
    order is a free choice of the step. The clock, random
    bytes, hashes, signatures, the resources, the runner of the workers, the
    processes of the runtime, the journal and sink of the audit, the parser of
    URLs, the tables of Unicode beyond ASCII, language tags, normal forms and
    versions of [golang.org/x], the compiler of JSON schemas, the resolver of host
    names, the reader of a response and the answers of the database are parameters
    or free choices of a step.

    ** What the theorems show

    - Authorization: the decision is exact, equals the evaluation of the whole
      snapshot, is refused after a revocation and at old revisions, writes keep
      the store well formed and stay inside their environment.
    - Tokens and intents: the invariants of the stores with all their limits,
      single use, revocation by every key, closed epochs that stay closed, and
      exact acceptance.
    - Surfaces: the invariant of the service in every interleaving, a closed
      surface that stays closed, the one gateway token a surface accepts, what
      closing a surface or a session removes, a retry of a closing that gives
      the same answer, and a handshake transcript that binds every field.
    - Sessions: no reservation of a fenced session under any interleaving, one
      owner per gate, no lost wake-up, and the life of a fence.
    - Locks, resources and workers: exclusion, first come first served, progress
      and freedom from deadlock; an operation is inside a resource only for its
      owner and never after its close has returned; a resource is closed exactly
      once; a worker is started once.
    - Leases: signed leases verify, and a lease is accepted once.
    - The shards of the runtime: a start leaves all shards or none, a call runs
      only in the generation it was bound to, a session is revoked in every
      shard or the shards are stopped; the admitted calls are bounded and no
      wake-up is lost.
    - Secrets and audit: a secret is seen and changed by its owner only; a
      record of the journal stays until it is exported, and a mutation runs
      only on record.
    - Network: grants come from a policy and an allowed destination, a resolved
      address is outside the blocked ranges or approved, a lease in use is under
      the approval as it is stored, in every interleaving and with every answer
      of the database; the limiter refines one without a heap, and its rate is
      bounded; frames of WebSocket are read as they were written; a response is
      read within its limit.
    - Periodic jobs: two claims of a package lie apart by its interval, a claim
      ends once, and a job runs only the method its valid manifest names, under
      its current claim and with the policy and grants checked again.
    - Answers of capabilities: nothing sensitive is shown, numbers beyond the
      safe range are recognised exactly, a risk plan asks for what its flags do.
    - Manifests: what a validated package guarantees to the rest of the system:
      unique ids, references that resolve, authority that is declared and
      bounded by the effect of a method, one scope of a secret, unattended
      methods that are never interactive, and a label for every text.
    - Canonical JSON: which documents have a canonical text and which it is,
      and that the text stands for the value.
    - Messages to the runtime: exact acceptance of a frame, no frame from a
      broken write, and messages that arrive as they were sent.
    - Executions: the log is gap-free, terminal states are final, and cursors
      are exact up to the wrap-around at 2^64-1.

    Some runs show behaviour the code does not intend; they are proved as
    lemmas next to the component: [events_after_full_log_diverges] in [Execution],
    [stale_fence_refuses_reservation] in [SessionCoordinatorRuns],
    [shutdown_leaves_started_session] and [stop_forgets_newer_session] in
    [BackgroundProps], [ipc_aborted_write] in [IpcProps], [zoned_literal_gap] in
    [ConnectivityProps], and [nul_names_share_a_key] in [SecretsProps].

    ** Bounds and fuel

    Every definition is total. Loops over strings take the length of the string
    as fuel, which is enough because each round removes a byte ([strip_done]).
    The walk of a method schema takes the depth the source allows, and the
    shortening of a language tag the number of its parts.
    The JSON readers take twice the length of the text and two more, which is
    enough for every text ([parse_fuel_enough], [walk_fuel_enough]); the loops
    that write bytes and lines take the number of bytes ([write_loop_fuel],
    [drain_fuel]).
    The frames of WebSocket take the bytes of the stream and one more; the
    shortening of an IPv6 address eight rounds; pruning the limiter the length
    of its heap; the readers of responses one round per byte and one more, for
    every reader that gives a byte or an error ([bounded_response]).
    [EventsAfter] takes the number of rounds as fuel and its theorem gives the
    number that suffices, or shows that none does. The loops that evict closures
    take the number of closures and one more round ([evictClosures_spec]). The loop that draws a handle
    of the resource table consumes the list of random draws it is given and has
    no result when they run out. Counters of goroutines in the coordinator are
    natural numbers.

    ** What is not modelled

    The SQL versions of the stores, except for the tables of connections and of
    periodic plans; the
    HTTP adapter, the process supervisor, package archives and downloads, plugin
    data, and the file and network resources, whose behaviour is that of the
    systems they call; the authoring tools; the test host. Of the host, the
    transactions that install, enable and remove a plugin and the dispatch of
    methods, which compose the modelled parts. The decoding of manifests and
    the checks of settings, whose values hold floating point numbers; the walk of
    [internal/jsonvalue] over Go values by reflection. Nil receivers and nil
    callbacks are left out everywhere. *)

From Stdlib Require Export ZArith Lia.
From stdpp Require Export base tactics option list gmap strings sorting sets fin_maps.
From stdpp Require Export relations.

(** ** Results

    A Go function that returns [(T, error)] is a function into [Result E T];
    [E] is the inductive type of the error values its package declares. *)
Inductive Result (E A : Type) : Type :=
| Ok (a : A)
| Err (e : E).

Arguments Ok {E A} a.
Arguments Err {E A} e.

#[export] Instance Result_eq_dec {E A} `{EqDecision E, EqDecision A} : EqDecision (Result E A).
Proof. solve_decision. Defined.

Definition rbind {E A B} (r : Result E A) (k : A → Result E B) : Result E B :=
  match r with
  | Ok a => k a
  | Err e => Err e
  end.

Definition rmap {E A B} (f : A → B) (r : Result E A) : Result E B :=
  match r with
  | Ok a => Ok (f a)
  | Err e => Err e
  end.

Definition is_ok {E A} (r : Result E A) : bool :=
  match r with Ok _ => true | Err _ => false end.

Declare Scope go_scope.
Delimit Scope go_scope with go.

(** [let? x := r in k] is [x, err := r; if err != nil { return err }; k]. *)
Notation "'let?' x ':=' r 'in' k" := (rbind r (λ x, k))
  (at level 10, x name, r at level 100, k at level 200) : go_scope.

(** [guard! b else e in k] is [if !b { return e }; k]. *)
Notation "'guard!' b 'else' e 'in' k" := (if (b : bool) then k else Err e)
  (at level 10, b at level 100, e at level 100, k at level 200) : go_scope.

(** ** Tactics *)

(** Split every conditional and match of the goal or the hypothesis, and use
    the constructor equations this gives. *)
Ltac go_cases :=
  repeat (case_match; simplify_eq/=).

(** Turn boolean tests into propositions. *)
Ltac go_bools :=
  repeat match goal with
  | H : context [bool_decide _] |- _ => progress (rewrite ?bool_decide_eq_true, ?bool_decide_eq_false in H)
  | H : _ && _ = true |- _ => apply andb_true_iff in H; destruct H
  | H : _ || _ = false |- _ => apply orb_false_iff in H; destruct H
  | H : negb _ = true |- _ => apply negb_true_iff in H
  | H : negb _ = false |- _ => apply negb_false_iff in H
  | H : (_ <? _)%Z = true |- _ => apply Z.ltb_lt in H
  | H : (_ <? _)%Z = false |- _ => apply Z.ltb_ge in H
  | H : (_ <=? _)%Z = true |- _ => apply Z.leb_le in H
  | H : (_ <=? _)%Z = false |- _ => apply Z.leb_gt in H
  | H : (_ =? _)%Z = true |- _ => apply Z.eqb_eq in H
  | H : (_ =? _)%Z = false |- _ => apply Z.eqb_neq in H
  end.

(** The hint database of the library: lemmas that close the common side
    conditions of the components' proofs. *)
Create HintDb redev.
Create Rewrite HintDb redev.

(** ** Generic lemmas *)

Section results.
Context {E A B : Type}.
Implicit Types (r : Result E A) (k : A → Result E B).

Lemma rbind_ok r k b : rbind r k = Ok b ↔ ∃ a, r = Ok a ∧ k a = Ok b.
Proof. destruct r as [a|e]; simpl; split; [eauto|intros (?&?&?)|done|intros (?&?&?)]; by simplify_eq. Qed.

Lemma rbind_err r k e :
  rbind r k = Err e ↔ r = Err e ∨ ∃ a, r = Ok a ∧ k a = Err e.
Proof.
  destruct r as [a|e']; simpl; split; intros Hr; eauto.
  - destruct Hr as [|(?&?&?)]; by simplify_eq.
  - left. by simplify_eq.
  - destruct Hr as [|(?&?&?)]; by simplify_eq.
Qed.

Lemma guard_ok (b : bool) (e : E) r a :
  (if b then r else Err e) = Ok a ↔ b = true ∧ r = Ok a.
Proof. destruct b; split; [done|by intros [_ ?]|done|by intros [? _]]. Qed.

End results.

Section lists.
Context {A : Type}.

(** A sort with a total order is determined by the multiset of its input. *)
Lemma merge_sort_perm_unique (R : relation A) `{!RelDecision R, !Transitive R, !Total R,
    !AntiSymm (=) R} (l k : list A) :
  l ≡ₚ k → merge_sort R l = merge_sort R k.
Proof.
  intros Hlk. apply (Sorted_unique R).
  - by apply Sorted_merge_sort.
  - by apply Sorted_merge_sort.
  - by rewrite !merge_sort_Permutation.
Qed.

Lemma merge_sort_elem_of (R : relation A) `{!RelDecision R} (l : list A) x :
  x ∈ merge_sort R l ↔ x ∈ l.
Proof. by rewrite merge_sort_Permutation. Qed.

Lemma merge_sort_sorted_id (R : relation A) `{!RelDecision R, !Transitive R, !Total R,
    !AntiSymm (=) R} (l : list A) :
  Sorted R l → merge_sort R l = l.
Proof.
  intros Hl. apply (Sorted_unique R); [by apply Sorted_merge_sort|done|].
  apply merge_sort_Permutation.
Qed.

Lemma NoDup_merge_sort (R : relation A) `{!RelDecision R} (l : list A) :
  NoDup l → NoDup (merge_sort R l).
Proof. by rewrite merge_sort_Permutation. Qed.

End lists.

Section keyed.
Context {A K : Type} (key : A → K) (R : relation K) `{!RelDecision R, !Transitive R, !Total R, !AntiSymm (=) R}.

#[export] Instance keyed_dec : RelDecision (λ x y, R (key x) (key y)).
Proof. intros x y. apply _. Defined.

Lemma NoDup_keys_inj (l : list A) x y :
  NoDup (key <$> l) → x ∈ l → y ∈ l → key x = key y → x = y.
Proof.
  intros Hnd [i Hi]%list_elem_of_lookup [j Hj]%list_elem_of_lookup Heq.
  assert (i = j) as ->; [|congruence].
  apply (NoDup_lookup _ i j (key x) Hnd); rewrite list_lookup_fmap, ?Hi, ?Hj; simpl; congruence.
Qed.

(** A sort by a key that tells the elements apart is determined by the
    multiset of its input. *)
Lemma merge_sort_keyed (l k : list A) :
  l ≡ₚ k → NoDup (key <$> l) →
  merge_sort (λ x y, R (key x) (key y)) l = merge_sort (λ x y, R (key x) (key y)) k.
Proof.
  intros Hlk Hnd. set (ms := merge_sort _).
  assert (∀ l, Sorted R (key <$> ms l)) as Hs.
  { intros m. apply (Sorted_fmap key (λ x y, R (key x) (key y))); [done|]. apply Sorted_merge_sort. intros x y. apply total, _. }
  assert (ms l ≡ₚ ms k) as Hp by (unfold ms; by rewrite !merge_sort_Permutation).
  assert (NoDup (key <$> ms l)) as Hnd' by (unfold ms; by rewrite merge_sort_Permutation).
  assert (key <$> ms l = key <$> ms k) as Heq.
  { apply (Sorted_unique R); [done..|]. by rewrite Hp. }
  apply list_eq. intros i. destruct (ms l !! i) as [x|] eqn:Hx.
  - pose proof (f_equal (.!! i) Heq) as Hi. rewrite !list_lookup_fmap, Hx in Hi. simpl in Hi.
    destruct (ms k !! i) as [y|] eqn:Hy; simplify_eq/=. f_equal. apply (NoDup_keys_inj (ms l)); [done|..|done].
    + by eapply list_elem_of_lookup_2.
    + rewrite Hp. by eapply list_elem_of_lookup_2.
  - apply lookup_ge_None in Hx. symmetry. apply lookup_ge_None. by rewrite <- Hp.
Qed.
End keyed.

(** ** Lexicographic order *)

Section lex.
Context {A B : Type} (R : relation A) (S : relation B).

Definition lex : relation (A * B) := λ x y, R x.1 y.1 ∧ (x.1 = y.1 → S x.2 y.2).

#[export] Instance lex_dec `{!EqDecision A, !RelDecision R, !RelDecision S} : RelDecision lex.
Proof. intros x y. unfold lex. apply _. Defined.

#[export] Instance lex_total `{!Total R, !Total S, !AntiSymm (=) R, !EqDecision A} : Total lex.
Proof.
  intros [a b] [c d]. unfold lex. simpl. destruct (decide (a = c)) as [->|Hne].
  - destruct (total R c c), (total S b d); auto.
  - destruct (total R a c); [left|right]; split; congruence.
Qed.

#[export] Instance lex_trans `{!Transitive R, !Transitive S, !AntiSymm (=) R} : Transitive lex.
Proof.
  intros [a b] [c d] [e f]. unfold lex. simpl. intros [H1 H2] [H3 H4]. split; [by etrans|].
  intros ->. assert (e = c) as -> by (by apply (anti_symm R)). etrans; eauto.
Qed.

#[export] Instance lex_antisymm `{!AntiSymm (=) R, !AntiSymm (=) S} : AntiSymm (=) lex.
Proof.
  intros [a b] [c d]. unfold lex. simpl. intros [H1 H2] [H3 H4].
  assert (a = c) as -> by (by apply (anti_symm R)). f_equal. apply (anti_symm S); auto.
Qed.
End lex.

Lemma map_size_delete_le {K A} `{Countable K} (m : gmap K A) i : size (delete i m) ≤ size m.
Proof. rewrite <- !size_dom. apply subseteq_size. rewrite dom_delete_L. set_solver. Qed.

(** ** Counting the entries of a map *)

Definition b2n (b : bool) : nat := if b then 1 else 0.

Section counting.
Context {K A : Type} `{Countable K} (p : A → bool).
Implicit Types m : gmap K A.

Definition count (m : gmap K A) : nat := size (filter (λ kv, p kv.2 = true) m).

Lemma count_insert_fresh m i x : m !! i = None → count (<[i := x]> m) = count m + b2n (p x).
Proof.
  intros Hi. unfold count. destruct (p x) eqn:Hp; cbn.
  - rewrite map_filter_insert_True by done. rewrite map_size_insert_None; [lia|].
    apply map_lookup_filter_None. by left.
  - rewrite map_filter_insert_False by (cbn; congruence). rewrite delete_id by done. lia.
Qed.

Lemma count_insert m i x y :
  m !! i = Some y → count (<[i := x]> m) + b2n (p y) = count m + b2n (p x).
Proof.
  intros Hi. rewrite <- (insert_delete_id m i y Hi) at 2. rewrite <- (insert_delete_eq m i x).
  rewrite !count_insert_fresh by apply lookup_delete_eq. lia.
Qed.

Lemma count_delete m i x : m !! i = Some x → count (delete i m) + b2n (p x) = count m.
Proof.
  intros Hi. rewrite <- (insert_delete_id m i x Hi) at 2.
  by rewrite count_insert_fresh by apply lookup_delete_eq.
Qed.

Lemma count_pos m i x : m !! i = Some x → p x = true → 0 < count m.
Proof.
  intros Hi Hp. unfold count. destruct (size (filter _ m)) eqn:Hs; [|lia].
  apply map_size_empty_iff in Hs. exfalso.
  assert (filter (λ kv, p kv.2 = true) m !! i = Some x) as Hf by (by apply map_lookup_filter_Some).
  by rewrite Hs, lookup_empty in Hf.
Qed.

Lemma count_two m i j x y :
  m !! i = Some x → m !! j = Some y → p x = true → p y = true → count m ≤ 1 → i = j.
Proof.
  intros Hi Hj Hx Hy Hc. destruct (decide (i = j)) as [|Hne]; [done|exfalso].
  rewrite <- (insert_delete_id m i x Hi), count_insert_fresh, Hx in Hc by apply lookup_delete_eq.
  assert (0 < count (delete i m)); [|cbn in Hc; lia].
  apply (count_pos _ j y); [by rewrite lookup_delete_ne|done].
Qed.

Lemma count_subseteq m m' : m ⊆ m' → count m ≤ count m'.
Proof. intros Hsub. by apply map_subseteq_size, map_filter_subseteq_mono. Qed.

Lemma count_zero m : count m = 0 ↔ ∀ i x, m !! i = Some x → p x = false.
Proof.
  split.
  - intros Hz i x Hi. destruct (p x) eqn:Hp; [|done]. pose proof (count_pos m i x Hi Hp). lia.
  - intros Hall. unfold count. apply map_size_empty_iff, map_empty. intros i.
    apply map_lookup_filter_None. right. intros x Hx. cbn. by rewrite (Hall i x Hx).
Qed.

End counting.

Lemma count_ext {K A} `{Countable K} (p q : A → bool) (m : gmap K A) :
  (∀ i x, m !! i = Some x → p x = q x) → count p m = count q m.
Proof.
  intros Hpq. unfold count. f_equal. apply map_filter_ext. intros i x Hx. cbn. by rewrite (Hpq i x Hx).
Qed.

(** ** Transition systems

    A concurrent component is a step relation on a state type; a property of
    all its runs is an invariant of the reachable states. *)
Section transition_systems.
Context {S : Type} (init : S → Prop) (step : S → S → Prop).

Definition reachable (s : S) : Prop := ∃ s0, init s0 ∧ rtc step s0 s.

Lemma reachable_invariant (Inv : S → Prop) :
  (∀ s, init s → Inv s) →
  (∀ s s', Inv s → step s s' → Inv s') →
  ∀ s, reachable s → Inv s.
Proof.
  intros Hinit Hstep s (s0 & H0 & Hrun).
  apply Hinit in H0. induction Hrun as [|x y z Hxy _ IH]; eauto.
Qed.

Lemma reachable_step s s' : reachable s → step s s' → reachable s'.
Proof.
  intros (s0 & H0 & Hrun) Hs. exists s0. split; [done|]. by eapply rtc_r.
Qed.

End transition_systems.

#[export] Hint Resolve reachable_step : redev.
