(* ===== verification/GoLib.v ===== *)
(** * Go's standard library, as far as the components use it

    [strings.TrimSpace], string concatenation and ordering, [sort.Strings],
    [time.Time] with its zero value, [Time.Sub] with its saturation,
    64-bit unsigned integers with wrap-around, and [context.Context]'s
    cancellation error. Strings are byte strings, as in Go. *)

From S2P Require Import Prelude.

Open Scope go_scope.

(** ** Strings *)

(** The byte [n] as a character. *)
Definition byte (n : nat) : Ascii.ascii := Ascii.ascii_of_nat n.

Definition is_byte (n : nat) (c : Ascii.ascii) : bool := bool_decide (Ascii.nat_of_ascii c = n).

Definition byte_in (lo hi : nat) (c : Ascii.ascii) : bool :=
  bool_decide (lo ≤ Ascii.nat_of_ascii c) && bool_decide (Ascii.nat_of_ascii c ≤ hi).

(** The one-byte white space of [unicode.IsSpace]: tab, newline, vertical
    tab, form feed, carriage return, space. *)
Definition space1 (c : Ascii.ascii) : bool := byte_in 9 13 c || is_byte 32 c.

(** U+0085 and U+00A0 in UTF-8. *)
Definition space2 (c1 c2 : Ascii.ascii) : bool :=
  is_byte 194 c1 && (is_byte 133 c2 || is_byte 160 c2).

(** U+1680, U+2000 to U+200A, U+2028, U+2029, U+202F, U+205F and U+3000 in
    UTF-8. *)
Definition space3 (c1 c2 c3 : Ascii.ascii) : bool :=
  (is_byte 225 c1 && is_byte 154 c2 && is_byte 128 c3) ||
  (is_byte 226 c1 && is_byte 128 c2 &&
     (byte_in 128 138 c3 || is_byte 168 c3 || is_byte 169 c3 || is_byte 175 c3)) ||
  (is_byte 226 c1 && is_byte 129 c2 && is_byte 159 c3) ||
  (is_byte 227 c1 && is_byte 128 c2 && is_byte 128 c3).

(** The length in bytes of the white-space rune the byte list starts with, 0
    when it starts with none. *)
Definition lead_space (s : list Ascii.ascii) : nat :=
  match s with
  | c1 :: r1 =>
     if space1 c1 then 1
     else match r1 with
          | c2 :: r2 =>
             if space2 c1 c2 then 2
             else match r2 with
                  | c3 :: _ => if space3 c1 c2 c3 then 3 else 0
                  | [] => 0
                  end
          | [] => 0
          end
  | [] => 0
  end.

(** The same at the end of the string, read on the reversed bytes.
    [utf8.DecodeLastRune] goes back to the last byte that can start a rune,
    which for these sequences is their first byte. *)
Definition last_space (s : list Ascii.ascii) : nat :=
  match s with
  | c1 :: r1 =>
     if space1 c1 then 1
     else match r1 with
          | c2 :: r2 =>
             if space2 c2 c1 then 2
             else match r2 with
                  | c3 :: _ => if space3 c3 c2 c1 then 3 else 0
                  | [] => 0
                  end
          | [] => 0
          end
  | [] => 0
  end.

(** Drop leading runes, as measured by [w], while there are some; the fuel is
    the number of bytes. *)
Fixpoint strip (w : list Ascii.ascii → nat) (fuel : nat) (s : list Ascii.ascii) :
    list Ascii.ascii :=
  match fuel with
  | O => s
  | S fuel' => match w s with O => s | S n => strip w fuel' (drop (S n) s) end
  end.

Definition trim_left (s : list Ascii.ascii) : list Ascii.ascii := strip lead_space (length s) s.

Definition trim_right (s : list Ascii.ascii) : list Ascii.ascii :=
  reverse (strip last_space (length s) (reverse s)).

(** [strings.TrimSpace]. *)
Definition TrimSpace (s : string) : string :=
  String.string_of_list_ascii (trim_right (trim_left (String.list_ascii_of_string s))).

(** [len(s)]. *)
Definition len (s : string) : Z := Z.of_nat (String.length s).

(** The byte ["\x00"], the separator of the composite map keys. *)
Definition nul : string := String.String (byte 0) String.EmptyString.

(** No NUL byte occurs in the string. *)
Definition nul_free (s : string) : bool :=
  forallb (λ c, negb (is_byte 0 c)) (String.list_ascii_of_string s).

(** [sort.Strings]: Go orders strings by bytes. *)
Definition sort_strings : list string → list string := merge_sort String.le.

(** The loop that keeps the first occurrence of every trimmed, non-empty
    value, with the set of the values already seen. *)
Fixpoint distinct_trimmed (values : list string) (seen : gset string) : list string :=
  match values with
  | [] => []
  | value :: rest =>
     let value := TrimSpace value in
     if bool_decide (value = "") then distinct_trimmed rest seen
     else if bool_decide (value ∈ seen) then distinct_trimmed rest seen
     else value :: distinct_trimmed rest ({[value]} ∪ seen)
  end.

(** [encoding/hex.EncodeToString]. *)
Definition hex_digit (n : nat) : Ascii.ascii := byte (if n <? 10 then 48 + n else 87 + n).

Definition hex_encode (s : string) : string :=
  String.string_of_list_ascii
    (flat_map (λ c, let n := Ascii.nat_of_ascii c in [hex_digit (n / 16); hex_digit (n mod 16)])
       (String.list_ascii_of_string s)).

(** [base64.RawURLEncoding]: the URL alphabet, no padding. *)
Definition b64_digit (n : nat) : Ascii.ascii :=
  byte (if n <? 26 then 65 + n else if n <? 52 then 71 + n else if n <? 62 then n - 4
        else if n =? 62 then 45 else 95).

Fixpoint b64_digits (s : list Ascii.ascii) : list Ascii.ascii :=
  let n := Ascii.nat_of_ascii in
  match s with
  | a :: b :: c :: rest =>
     b64_digit (n a / 4) :: b64_digit (n a mod 4 * 16 + n b / 16) ::
     b64_digit (n b mod 16 * 4 + n c / 64) :: b64_digit (n c mod 64) :: b64_digits rest
  | [a; b] => [b64_digit (n a / 4); b64_digit (n a mod 4 * 16 + n b / 16); b64_digit (n b mod 16 * 4)]
  | [a] => [b64_digit (n a / 4); b64_digit (n a mod 4 * 16)]
  | [] => []
  end.

Definition base64_raw_url (s : string) : string :=
  String.string_of_list_ascii (b64_digits (String.list_ascii_of_string s)).

(** ** Time *)

(** A [time.Time] is its instant, in nanoseconds since 1 January of year 1;
    the zero value of the type is that instant. The location is not part of
    the model, so [UTC] is the identity. *)
Definition time := Z.
Bind Scope Z_scope with time.

Definition IsZero (t : time) : bool := (t =? 0)%Z.
Definition After (t u : time) : bool := (u <? t)%Z.
Definition Before (t u : time) : bool := (t <? u)%Z.
Definition UTC (t : time) : time := t.

Definition max_int64 : Z := 2 ^ 63 - 1.
Definition min_int64 : Z := - 2 ^ 63.

(** [t.Sub(u)]: a [Duration] is an int64 and the difference saturates. *)
Definition Sub (t u : time) : Z := Z.max min_int64 (Z.min max_int64 (t - u)).

Definition Second : Z := 1000000000.
Definition Minute : Z := 60 * Second.

(** [if now.IsZero() { now = time.Now().UTC() }]; [wall] is the reading of the
    clock. *)
Definition or_wall (wall now : time) : time := if IsZero now then wall else UTC now.

(** ** Unsigned 64-bit integers *)

Definition uint64_max : Z := 2 ^ 64 - 1.
Definition u64 (x : Z) : Z := x mod 2 ^ 64.

(** [x++] on a uint64. *)
Definition incr64 (x : Z) : Z := u64 (x + 1).

(** [jsonvalue.MaxSafeInteger]. *)
Definition MaxSafeInteger : Z := 2 ^ 53 - 1.

Definition IsSafeUnsignedInteger (value : Z) : bool := (value <=? MaxSafeInteger)%Z.

Definition IsPositiveSafeUnsignedInteger (value : Z) : bool :=
  (0 <? value)%Z && IsSafeUnsignedInteger value.

(** ** Contexts *)

(** The errors of a finished [context.Context]. *)
Inductive CtxErr := Canceled | DeadlineExceeded.

#[export] Instance CtxErr_eq_dec : EqDecision CtxErr.
Proof. solve_decision. Defined.

#[global] Arguments TrimSpace : simpl never.
#[global] Arguments bool_decide _ !_ : simpl nomatch.
#[global] Arguments or_wall : simpl never.

(** ** Lemmas *)

Lemma list_ascii_of_list (l : list Ascii.ascii) :
  String.list_ascii_of_string (String.string_of_list_ascii l) = l.
Proof. induction l; simpl; congruence. Qed.

Lemma list_ascii_inj (s t : string) :
  String.list_ascii_of_string s = String.list_ascii_of_string t → s = t.
Proof.
  intros Heq. rewrite <- (String.string_of_list_ascii_of_string s), Heq.
  apply String.string_of_list_ascii_of_string.
Qed.

Lemma list_ascii_app (s t : string) :
  String.list_ascii_of_string (s +:+ t) =
  String.list_ascii_of_string s ++ String.list_ascii_of_string t.
Proof. induction s; simpl; [done|by f_equal]. Qed.

Section strip.
Context (w : list Ascii.ascii → nat).

Lemma strip_fix fuel s : w s = 0 → strip w fuel s = s.
Proof. destruct fuel; simpl; [done|]. by intros ->. Qed.

Lemma strip_done fuel s :
  w [] = 0 → length s ≤ fuel → w (strip w fuel s) = 0.
Proof.
  intros Hnil. revert s. induction fuel as [|fuel IH]; intros s Hlen; simpl.
  { destruct s; simpl in *; [done|lia]. }
  destruct (w s) as [|n] eqn:Hw; [done|].
  apply IH. rewrite length_skipn. destruct s; simpl in *; [by rewrite Hnil in Hw|lia].
Qed.

Lemma strip_drop fuel s : ∃ k, strip w fuel s = drop k s.
Proof.
  revert s. induction fuel as [|fuel IH]; intros s; simpl; [by exists 0|].
  destruct (w s) as [|n]; [by exists 0|].
  destruct (IH (drop (S n) s)) as [k ->]. eexists. by rewrite drop_drop.
Qed.

End strip.

Lemma trim_left_done s : lead_space (trim_left s) = 0.
Proof. by apply strip_done. Qed.

Lemma trim_left_fix s : lead_space s = 0 → trim_left s = s.
Proof. apply strip_fix. Qed.

Lemma trim_right_done s : last_space (reverse (trim_right s)) = 0.
Proof.
  unfold trim_right. rewrite reverse_involutive.
  apply strip_done; [done|]. by rewrite length_reverse.
Qed.

Lemma trim_right_fix s : last_space (reverse s) = 0 → trim_right s = s.
Proof. intros Hs. unfold trim_right. rewrite strip_fix by done. apply reverse_involutive. Qed.

Lemma trim_right_prefix s : ∃ t, s = trim_right s ++ t.
Proof.
  unfold trim_right. destruct (strip_drop last_space (length s) (reverse s)) as [k ->].
  exists (reverse (take k (reverse s))).
  rewrite <- reverse_app, take_drop. by rewrite reverse_involutive.
Qed.

(** A string that starts with no white space has no prefix that does. *)
Lemma lead_space_prefix p t : lead_space (p ++ t) = 0 → lead_space p = 0.
Proof.
  destruct p as [|c1 [|c2 [|c3 p]]]; simpl; [done| | |done];
    go_cases; done.
Qed.

Lemma TrimSpace_idemp s : TrimSpace (TrimSpace s) = TrimSpace s.
Proof.
  unfold TrimSpace. rewrite list_ascii_of_list. f_equal.
  set (l := trim_left (String.list_ascii_of_string s)).
  rewrite (trim_left_fix (trim_right l)).
  - apply trim_right_fix, trim_right_done.
  - destruct (trim_right_prefix l) as [t Ht]. apply (lead_space_prefix _ t).
    rewrite <- Ht. apply trim_left_done.
Qed.

Lemma TrimSpace_empty : TrimSpace "" = "".
Proof. done. Qed.

#[export] Hint Rewrite TrimSpace_idemp TrimSpace_empty : redev.

Lemma elem_of_trim c s :
  c ∈ String.list_ascii_of_string (TrimSpace s) → c ∈ String.list_ascii_of_string s.
Proof.
  unfold TrimSpace. rewrite list_ascii_of_list. intros Hc.
  assert (c ∈ trim_left (String.list_ascii_of_string s)) as Hl.
  { destruct (trim_right_prefix (trim_left (String.list_ascii_of_string s))) as [t Ht].
    rewrite Ht. apply elem_of_app. by left. }
  unfold trim_left in Hl. destruct (strip_drop lead_space
    (length (String.list_ascii_of_string s)) (String.list_ascii_of_string s)) as [k Hk].
  rewrite Hk in Hl. rewrite <- (take_drop k (String.list_ascii_of_string s)).
  apply elem_of_app. by right.
Qed.

(** ** Composite keys: a NUL-separated prefix is determined by the key when
    it has no NUL byte of its own. *)

Lemma nul_free_spec s :
  nul_free s = true ↔ byte 0 ∉ String.list_ascii_of_string s.
Proof.
  unfold nul_free. rewrite forallb_forall. split.
  - intros Hall Hin. apply list_elem_of_In, Hall in Hin. done.
  - intros Hnin c Hin. unfold is_byte. apply negb_true_iff, bool_decide_eq_false.
    intros Hc. apply Hnin. apply list_elem_of_In. unfold byte. rewrite <- Hc.
    by rewrite Ascii.ascii_nat_embedding.
Qed.

Lemma app_sep_inj {A} (x : A) (a b c d : list A) :
  x ∉ a → x ∉ c → a ++ x :: b = c ++ x :: d → a = c ∧ b = d.
Proof.
  revert c. induction a as [|y a IH]; intros [|z c] Ha Hc Heq; simplify_eq/=; [done| | |].
  - exfalso. apply Hc. by left.
  - exfalso. apply Ha. by left.
  - destruct (IH c) as [-> ->]; [|set_solver..|done]. set_solver.
Qed.

Lemma nul_join_inj a b c d :
  nul_free a = true → nul_free c = true →
  a +:+ nul +:+ b = c +:+ nul +:+ d → a = c ∧ b = d.
Proof.
  rewrite !nul_free_spec. intros Ha Hc Heq.
  apply (f_equal String.list_ascii_of_string) in Heq. rewrite !list_ascii_app in Heq.
  simpl in Heq. apply app_sep_inj in Heq as [H1 H2]; [|done..].
  by split; apply list_ascii_inj.
Qed.

Lemma nul_free_trim s : nul_free s = true → nul_free (TrimSpace s) = true.
Proof. rewrite !nul_free_spec. eauto using elem_of_trim. Qed.

#[export] Hint Resolve nul_free_trim : redev.

(** ** Sorting *)

Lemma sort_strings_elem_of l x : x ∈ sort_strings l ↔ x ∈ l.
Proof. apply merge_sort_elem_of. Qed.

Lemma sort_strings_sorted l : Sorted String.le (sort_strings l).
Proof. apply Sorted_merge_sort, _. Qed.

Lemma sort_strings_NoDup l : NoDup l → NoDup (sort_strings l).
Proof. apply NoDup_merge_sort. Qed.

Lemma sort_strings_id l : Sorted String.le l → sort_strings l = l.
Proof. apply merge_sort_sorted_id; apply _. Qed.

(** ** The distinct-trimmed loop *)

Lemma distinct_trimmed_elem_of values seen x :
  x ∈ distinct_trimmed values seen ↔
  x ∉ seen ∧ x ≠ "" ∧ ∃ v, v ∈ values ∧ TrimSpace v = x.
Proof.
  revert seen. induction values as [|v values IH]; intros seen; simpl.
  { split; [by intros ?%elem_of_nil|]. intros (_&_&?&?%elem_of_nil&_). done. }
  case_bool_decide as Hv; [rewrite IH|case_bool_decide as Hs; [rewrite IH|rewrite elem_of_cons, IH]].
  - set_solver.
  - set_solver.
  - destruct (decide (x = TrimSpace v)) as [->|]; set_solver.
Qed.

Lemma distinct_trimmed_NoDup values seen : NoDup (distinct_trimmed values seen).
Proof.
  revert seen. induction values as [|v values IH]; intros seen; simpl; [constructor|].
  case_bool_decide; [done|]. case_bool_decide; [done|]. constructor; [|done].
  rewrite distinct_trimmed_elem_of. set_solver.
Qed.

(** On values that are already trimmed, non-empty and distinct the loop is
    the identity. *)
Lemma distinct_trimmed_fix values seen :
  NoDup values → (∀ x, x ∈ values → x ∉ seen ∧ x ≠ "" ∧ TrimSpace x = x) →
  distinct_trimmed values seen = values.
Proof.
  revert seen. induction values as [|v values IH]; intros seen Hnd Hall; simpl; [done|].
  apply NoDup_cons in Hnd as [Hv Hnd].
  destruct (Hall v) as (Hs & Hne & Ht); [by left|]. rewrite Ht.
  rewrite !bool_decide_eq_false_2 by done. f_equal. apply IH; [done|].
  intros x Hx. destruct (Hall x) as (?&?&?); [by right|]. set_solver.
Qed.

Lemma sort_distinct_trimmed_elem_of values x :
  x ∈ sort_strings (distinct_trimmed values ∅) ↔ x ≠ "" ∧ ∃ v, v ∈ values ∧ TrimSpace v = x.
Proof. rewrite sort_strings_elem_of, distinct_trimmed_elem_of. set_solver. Qed.

Lemma sort_distinct_trimmed_idemp values :
  let out := sort_strings (distinct_trimmed values ∅) in
  sort_strings (distinct_trimmed out ∅) = out.
Proof.
  intros out. rewrite distinct_trimmed_fix.
  - apply sort_strings_id, sort_strings_sorted.
  - apply sort_strings_NoDup, distinct_trimmed_NoDup.
  - intros x (Hx & v & _ & <-)%sort_distinct_trimmed_elem_of.
    rewrite TrimSpace_idemp. set_solver.
Qed.

(** ** Time and integers *)

Lemma or_wall_nonzero wall now : wall ≠ 0%Z → or_wall wall now ≠ 0%Z.
Proof. unfold or_wall, IsZero, UTC. intros. go_cases; go_bools; lia. Qed.

Lemma or_wall_id wall now : now ≠ 0%Z → or_wall wall now = now.
Proof. intros. unfold or_wall, IsZero, UTC. go_cases; go_bools; lia. Qed.

Lemma u64_range x : (0 ≤ u64 x ≤ uint64_max)%Z.
Proof. unfold u64, uint64_max. pose proof (Z.mod_pos_bound x (2 ^ 64)). lia. Qed.

Lemma incr64_small x : (0 ≤ x < uint64_max)%Z → incr64 x = (x + 1)%Z.
Proof. intros. unfold incr64, u64. apply Z.mod_small. unfold uint64_max in *. lia. Qed.

Lemma incr64_neq x : (0 ≤ x ≤ uint64_max)%Z → incr64 x ≠ x.
Proof.
  intros Hx. destruct (decide (x = uint64_max)) as [->|].
  - unfold incr64, u64, uint64_max. by vm_compute.
  - rewrite incr64_small; lia.
Qed.

#[export] Hint Resolve u64_range or_wall_nonzero : redev.

Example trim_example : TrimSpace (String.String (byte 194) (String.String (byte 160) " a b ")) = "a b".
Proof. reflexivity. Qed.

Example hex_example : hex_encode "Az" = "417a".
Proof. reflexivity. Qed.

Example base64_example : base64_raw_url "light work." = "bGlnaHQgd29yay4".
Proof. reflexivity. Qed.
