(* ===== verification/Index.v ===== *)
(** * Secondary indices

    The [map[K]map[string]struct{}] indices that several in-memory stores keep
    beside their records: the identifiers listed under a key. An entry set is
    created with its first identifier and dropped with its last one. *)

From S2P Require Import Prelude GoLib.

Open Scope go_scope.

Notation Index K := (gmap K (gset string)).

Definition index_get {K} `{Countable K} (index : Index K) (key : K) : gset string :=
  default ∅ (index !! key).

Definition index_add {K} `{Countable K} (index : Index K) (key : K) (h : string) : Index K :=
  <[key := {[h]} ∪ index_get index key]> index.

(** [delete(entries, h)], and the key with its last entry. *)
Definition index_remove {K} `{Countable K} (index : Index K) (key : K) (h : string) :
    Index K :=
  match index !! key with
  | None => index
  | Some entries =>
     let entries := entries ∖ {[h]} in
     if bool_decide (size entries = 0) then delete key index else <[key := entries]> index
  end.

(** [counts[key]++]. *)
Definition count_incr {K} `{Countable K} (counts : gmap K Z) (key : K) : gmap K Z :=
  <[key := (default 0 (counts !! key) + 1)%Z]> counts.

(** [if count := counts[key]; count <= 1 { delete } else { counts[key]-- }]. *)
Definition count_decr {K} `{Countable K} (counts : gmap K Z) (key : K) : gmap K Z :=
  let count := default 0%Z (counts !! key) in
  if (count <=? 1)%Z then delete key counts else <[key := (count - 1)%Z]> counts.

#[global] Arguments index_get : simpl never.
#[global] Arguments index_add : simpl never.
#[global] Arguments index_remove : simpl never.
#[global] Arguments count_incr : simpl never.
#[global] Arguments count_decr : simpl never.

(** ** Lemmas *)

Section index.
Context {K : Type} `{Countable K}.
Implicit Types (index : Index K) (k : K) (h : string).

(** No key is kept with an empty entry set. *)
Definition compact index : Prop := ∀ k entries, index !! k = Some entries → entries ≠ ∅.

Lemma elem_of_index_add index k h k' h' :
  h' ∈ index_get (index_add index k h) k' ↔ (k' = k ∧ h' = h) ∨ h' ∈ index_get index k'.
Proof.
  unfold index_get, index_add. destruct (decide (k = k')) as [->|Hne].
  - rewrite lookup_insert_eq. cbn. unfold index_get. set_solver.
  - rewrite lookup_insert_ne by done. naive_solver.
Qed.

Lemma elem_of_index_remove index k h k' h' :
  h' ∈ index_get (index_remove index k h) k' ↔ ¬ (k' = k ∧ h' = h) ∧ h' ∈ index_get index k'.
Proof.
  unfold index_get, index_remove. destruct (index !! k) as [entries|] eqn:Hk.
  - case_bool_decide as Hsz.
    + apply size_empty_inv in Hsz. destruct (decide (k = k')) as [->|Hne].
      * rewrite lookup_delete_eq, Hk. cbn. set_solver.
      * rewrite lookup_delete_ne by done. naive_solver.
    + destruct (decide (k = k')) as [->|Hne].
      * rewrite lookup_insert_eq, Hk. cbn. set_solver.
      * rewrite lookup_insert_ne by done. naive_solver.
  - split; [|by intros [_ ?]]. intros Hin. split; [|done]. intros [-> ->].
    rewrite Hk in Hin. cbn in Hin. by apply elem_of_empty in Hin.
Qed.

Lemma compact_add index k h : compact index → compact (index_add index k h).
Proof.
  intros Hc k' entries. unfold index_add. destruct (decide (k = k')) as [->|Hne].
  - rewrite lookup_insert_eq. intros [= <-]. set_solver.
  - rewrite lookup_insert_ne by done. apply Hc.
Qed.

Lemma compact_remove index k h : compact index → compact (index_remove index k h).
Proof.
  intros Hc k' entries. unfold index_remove. destruct (index !! k) as [e|] eqn:Hk; [|apply Hc].
  case_bool_decide as Hsz.
  - intros [_ Hl]%lookup_delete_Some. by eapply Hc.
  - intros [[-> <-]|[_ Hl]]%lookup_insert_Some; [|by eapply Hc].
    intros Heq. by rewrite Heq, size_empty in Hsz.
Qed.

Lemma index_get_remove_size index k h k' :
  size (index_get (index_remove index k h) k') ≤ size (index_get index k').
Proof.
  apply subseteq_size. intros x Hx. apply elem_of_index_remove in Hx. tauto.
Qed.

Lemma index_size_add index k h k' :
  h ∉ index_get index k →
  size (index_get (index_add index k h) k') =
  (if decide (k' = k) then S (size (index_get index k')) else size (index_get index k')).
Proof.
  intros Hh. unfold index_get at 1, index_add. case_decide; subst.
  - rewrite lookup_insert_eq. cbn. rewrite size_union, size_singleton by set_solver. done.
  - by rewrite lookup_insert_ne.
Qed.

Lemma index_size_remove index k h k' :
  h ∈ index_get index k →
  size (index_get (index_remove index k h) k') =
  (if decide (k' = k) then size (index_get index k') - 1 else size (index_get index k')).
Proof.
  intros Hh. case_decide as Hk; subst.
  - assert (index_get (index_remove index k h) k = index_get index k ∖ {[h]}) as ->.
    { apply leibniz_equiv, set_equiv. intros x. rewrite elem_of_index_remove. set_solver. }
    rewrite size_difference by set_solver. by rewrite size_singleton.
  - f_equal. apply leibniz_equiv, set_equiv. intros x. rewrite elem_of_index_remove. naive_solver.
Qed.

(** ** An index of a record map *)

Context {R : Type} (key : R → K).
Implicit Types (recs : gmap string R).

(** The index lists exactly the records with each key. *)
Definition indexes (index : Index K) (recs : gmap string R) : Prop :=
  compact index ∧ ∀ k h, h ∈ index_get index k ↔ ∃ r, recs !! h = Some r ∧ key r = k.

Lemma indexes_empty : indexes ∅ ∅.
Proof.
  split; [by intros k e; rewrite lookup_empty|]. intros k h. unfold index_get.
  rewrite !lookup_empty. cbn. set_solver.
Qed.

Lemma indexes_add index recs h r :
  indexes index recs → recs !! h = None →
  indexes (index_add index (key r) h) (<[h := r]> recs).
Proof.
  intros [Hc Hi] Hnew. split; [by apply compact_add|]. intros k h'.
  rewrite elem_of_index_add, Hi. setoid_rewrite lookup_insert_Some. naive_solver congruence.
Qed.

Lemma indexes_remove index recs h r :
  indexes index recs → recs !! h = Some r →
  indexes (index_remove index (key r) h) (delete h recs).
Proof.
  intros [Hc Hi] Hr. split; [by apply compact_remove|]. intros k h'.
  rewrite elem_of_index_remove, Hi. setoid_rewrite lookup_delete_Some. naive_solver congruence.
Qed.

(** The counter map holds the size of every entry set, and no zeros. *)
Definition counts_index (counts : gmap K Z) (index : Index K) : Prop :=
  ∀ k, counts !! k = let n := size (index_get index k) in
                     if decide (n = 0) then None else Some (Z.of_nat n).

Lemma counts_default counts index k :
  counts_index counts index → default 0%Z (counts !! k) = Z.of_nat (size (index_get index k)).
Proof. intros Hc. rewrite Hc. cbn. case_decide; cbn; lia. Qed.

Lemma counts_add counts index k h :
  counts_index counts index → h ∉ index_get index k →
  counts_index (count_incr counts k) (index_add index k h).
Proof.
  intros Hc Hh k'. unfold count_incr. rewrite (counts_default _ index) by done.
  rewrite index_size_add by done. destruct (decide (k' = k)) as [->|Hne].
  - rewrite lookup_insert_eq. cbn. f_equal. lia.
  - rewrite lookup_insert_ne by done. apply Hc.
Qed.

Lemma counts_remove counts index k h :
  counts_index counts index → h ∈ index_get index k →
  counts_index (count_decr counts k) (index_remove index k h).
Proof.
  intros Hc Hh k'. unfold count_decr. rewrite (counts_default _ index) by done. cbv zeta.
  assert (size (index_get index k) ≠ 0) as Hnz.
  { intros Hz%size_empty_inv. set_solver. }
  rewrite index_size_remove by done. destruct (decide (k' = k)) as [->|Hne].
  - destruct (Z.leb_spec (Z.of_nat (size (index_get index k))) 1).
    + rewrite lookup_delete_eq, decide_True by lia. done.
    + rewrite lookup_insert_eq, decide_False by lia. f_equal. lia.
  - case_match; rewrite ?lookup_delete_ne, ?lookup_insert_ne by done; apply Hc.
Qed.

End index.

Lemma counts_index_empty {K} `{Countable K} : counts_index (∅ : gmap K Z) ∅.
Proof. intros k. unfold index_get. by rewrite !lookup_empty. Qed.

#[export] Hint Resolve indexes_empty indexes_add indexes_remove counts_index_empty counts_add
  counts_remove : redev.
