(* ===== verification/SessionCtx.v ===== *)
(** * pkg/sessionctx: owner scopes

    [ResourceScope], the ownership boundary of persistent data,
    [SessionScope], the boundary of session capabilities, and the
    authenticated [Context] both are projected from. *)

From S2P Require Import Prelude GoLib.

Open Scope go_scope.

Inductive SessErr :=
| ErrSessionRequired
| ErrInvalidResourceScope
| ErrInvalidSessionScope.

#[export] Instance SessErr_eq_dec : EqDecision SessErr.
Proof. solve_decision. Defined.

(** [ScopeKind] is a Go string; the constants are its two legal values. *)
Definition ScopeKind := string.
Definition ScopeUser : ScopeKind := "user".
Definition ScopeEnvironment : ScopeKind := "environment".

Definition isASCIIAlphaNumeric (c : Ascii.ascii) : bool :=
  byte_in 65 90 c || byte_in 97 122 c || byte_in 48 57 c.

(** The bytes an owner hash may contain after its first one: alphanumeric,
    or one of [. _ : -]. *)
Definition ownerHashByte (c : Ascii.ascii) : bool :=
  isASCIIAlphaNumeric c || is_byte 46 c || is_byte 95 c || is_byte 58 c || is_byte 45 c.

Definition validOwnerHash (value : string) : bool :=
  match String.list_ascii_of_string value with
  | [] => false
  | c :: rest =>
     (len value <=? 256)%Z && isASCIIAlphaNumeric c && forallb ownerHashByte rest
  end.

Record ResourceScope := mkResourceScope {
  rs_Kind : ScopeKind;
  rs_OwnerEnvHash : string;
  rs_OwnerUserHash : string;
}.

#[export] Instance ResourceScope_eq_dec : EqDecision ResourceScope.
Proof. solve_decision. Defined.

Definition ResourceScope_Validate (s : ResourceScope) : Result SessErr unit :=
  if negb (bool_decide (rs_Kind s = ScopeUser)) && negb (bool_decide (rs_Kind s = ScopeEnvironment))
  then Err ErrInvalidResourceScope
  else if negb (validOwnerHash (rs_OwnerEnvHash s)) then Err ErrInvalidResourceScope
  else if bool_decide (rs_Kind s = ScopeUser) then
    if negb (validOwnerHash (rs_OwnerUserHash s)) then Err ErrInvalidResourceScope else Ok tt
  else if negb (bool_decide (TrimSpace (rs_OwnerUserHash s) = "")) then Err ErrInvalidResourceScope
  else Ok tt.

Definition ResourceScope_Valid (s : ResourceScope) : bool := is_ok (ResourceScope_Validate s).

Definition ResourceScope_Matches (s other : ResourceScope) : bool :=
  is_ok (ResourceScope_Validate s) && is_ok (ResourceScope_Validate other) &&
  bool_decide (rs_Kind s = rs_Kind other) &&
  bool_decide (rs_OwnerEnvHash s = rs_OwnerEnvHash other) &&
  bool_decide (rs_OwnerUserHash s = rs_OwnerUserHash other).

Record SessionScope := mkSessionScope {
  ss_OwnerSessionHash : string;
  ss_OwnerUserHash : string;
  ss_OwnerEnvHash : string;
  ss_SessionChannelIDHash : string;
}.

#[export] Instance SessionScope_eq_dec : EqDecision SessionScope.
Proof. solve_decision. Defined.

(** Session scopes key Go maps, so they are countable. *)
#[export] Program Instance SessionScope_countable : Countable SessionScope :=
  inj_countable'
    (λ s, (ss_OwnerSessionHash s, ss_OwnerUserHash s, ss_OwnerEnvHash s, ss_SessionChannelIDHash s))
    (λ '(a, b, c, d), mkSessionScope a b c d) _.
Next Obligation. by intros []. Qed.

Definition SessionScope_Validate (s : SessionScope) : Result SessErr unit :=
  if negb (validOwnerHash (ss_OwnerSessionHash s)) then Err ErrInvalidSessionScope
  else if negb (validOwnerHash (ss_OwnerUserHash s)) then Err ErrInvalidSessionScope
  else if negb (validOwnerHash (ss_OwnerEnvHash s)) then Err ErrInvalidSessionScope
  else if negb (validOwnerHash (ss_SessionChannelIDHash s)) then Err ErrInvalidSessionScope
  else Ok tt.

Definition SessionScope_Valid (s : SessionScope) : bool := is_ok (SessionScope_Validate s).

Definition SessionScope_Matches (s other : SessionScope) : bool :=
  SessionScope_Valid s && SessionScope_Valid other && bool_decide (s = other).

Record Context := mkContext {
  sc_OwnerSessionHash : string;
  sc_OwnerUserHash : string;
  sc_OwnerEnvHash : string;
  sc_SessionChannelIDHash : string;
  sc_CanRead : bool;
  sc_CanWrite : bool;
}.

Definition Context_Valid (s : Context) : bool :=
  validOwnerHash (sc_OwnerSessionHash s) && validOwnerHash (sc_OwnerUserHash s) &&
  validOwnerHash (sc_OwnerEnvHash s) && validOwnerHash (sc_SessionChannelIDHash s).

Definition Context_SessionScope (s : Context) : Result SessErr SessionScope :=
  if negb (Context_Valid s) then Err ErrSessionRequired
  else
    let scope := mkSessionScope (sc_OwnerSessionHash s) (sc_OwnerUserHash s)
                   (sc_OwnerEnvHash s) (sc_SessionChannelIDHash s) in
    let? _ := SessionScope_Validate scope in Ok scope.

Definition Context_ResourceScope (s : Context) (kind : ScopeKind) : Result SessErr ResourceScope :=
  if negb (Context_Valid s) then Err ErrSessionRequired
  else
    let scope := mkResourceScope kind (sc_OwnerEnvHash s)
                   (if bool_decide (kind = ScopeUser) then sc_OwnerUserHash s else "") in
    let? _ := ResourceScope_Validate scope in Ok scope.

(** The part of a Go [context.Context] the components read: its error and the
    session stored by [WithContext]. *)
Record GoCtx := mkGoCtx {
  ctx_Err : option CtxErr;
  ctx_session : option Context;
}.

Definition WithContext (ctx : GoCtx) (session : Context) : GoCtx :=
  mkGoCtx (ctx_Err ctx) (Some session).

(** [session, ok := ctx.Value(contextKey{}).(Context)]: a missing value leaves
    the zero [Context], which is not valid. *)
Definition FromContext (ctx : GoCtx) : Context * bool :=
  match ctx_session ctx with
  | Some session => (session, Context_Valid session)
  | None => (mkContext "" "" "" "" false false, false)
  end.

Definition Require_ (ctx : GoCtx) : Result SessErr Context :=
  let '(session, ok) := FromContext ctx in
  if negb ok then Err ErrSessionRequired else Ok session.

(** ** Lemmas *)

(** An owner hash has no NUL byte. *)
Lemma validOwnerHash_nul_free v : validOwnerHash v = true → nul_free v = true.
Proof.
  unfold validOwnerHash, nul_free. destruct (String.list_ascii_of_string v) as [|c rest]; [done|].
  rewrite !andb_true_iff. intros [[_ Hc] Hrest]. simpl. apply andb_true_iff. split.
  - unfold is_byte, isASCIIAlphaNumeric, byte_in in *. go_bools. by apply negb_true_iff, bool_decide_eq_false; intros Hz; rewrite Hz in Hc.
  - rewrite forallb_forall in *. intros x Hx. specialize (Hrest x Hx).
    unfold ownerHashByte, is_byte, isASCIIAlphaNumeric, byte_in in *.
    apply negb_true_iff, bool_decide_eq_false. intros Hz. by rewrite Hz in Hrest.
Qed.

Lemma validOwnerHash_length v : validOwnerHash v = true → (1 ≤ len v ≤ 256)%Z.
Proof.
  unfold validOwnerHash, len. destruct v as [|c v]; [done|]. simpl.
  intros Hv. go_bools. lia.
Qed.

(** Owner hashes contain no white space, so trimming leaves them alone. *)
Lemma ownerHashByte_not_space c : ownerHashByte c = true → (33 ≤ Ascii.nat_of_ascii c ≤ 126)%nat.
Proof.
  unfold ownerHashByte, isASCIIAlphaNumeric, byte_in, is_byte. intros Hc.
  rewrite !orb_true_iff, !andb_true_iff, !bool_decide_eq_true in Hc. lia.
Qed.

Lemma space_free_bytes (l : list Ascii.ascii) :
  Forall (λ c, (33 ≤ Ascii.nat_of_ascii c ≤ 126)%nat) l →
  lead_space l = 0 ∧ last_space l = 0.
Proof.
  intros Hl. unfold lead_space, last_space.
  destruct Hl as [|c1 l Hc1 Hl]; [done|].
  assert (space1 c1 = false) as ->.
  { unfold space1, byte_in, is_byte. rewrite !orb_false_iff, andb_false_iff, !bool_decide_eq_false. lia. }
  destruct Hl as [|c2 l Hc2 Hl]; [done|].
  assert (∀ a b, (33 ≤ Ascii.nat_of_ascii a ≤ 126)%nat → space2 a b = false) as Hs2.
  { intros a b Ha. unfold space2, is_byte. rewrite andb_false_iff, bool_decide_eq_false. lia. }
  rewrite !Hs2 by done. destruct Hl as [|c3 l Hc3 Hl]; [done|].
  assert (∀ a b c, (33 ≤ Ascii.nat_of_ascii a ≤ 126)%nat → space3 a b c = false) as Hs3.
  { intros a b c Ha. unfold space3, is_byte.
    rewrite !orb_false_iff, !andb_false_iff, !bool_decide_eq_false. lia. }
  by rewrite !Hs3.
Qed.

Lemma graphic_trim v :
  Forall (λ c, (33 ≤ Ascii.nat_of_ascii c ≤ 126)%nat) (String.list_ascii_of_string v) → TrimSpace v = v.
Proof.
  intros Hall. unfold TrimSpace. rewrite trim_left_fix by (by apply space_free_bytes).
  rewrite trim_right_fix; [apply String.string_of_list_ascii_of_string|].
  apply space_free_bytes. by apply Forall_reverse.
Qed.

Lemma isASCIIAlphaNumeric_ownerHashByte c : isASCIIAlphaNumeric c = true → ownerHashByte c = true.
Proof. unfold ownerHashByte. by intros ->. Qed.

Lemma validOwnerHash_trim v : validOwnerHash v = true → TrimSpace v = v.
Proof.
  intros Hv. assert (Forall (λ c, (33 ≤ Ascii.nat_of_ascii c ≤ 126)%nat)
    (String.list_ascii_of_string v)) as Hall.
  { unfold validOwnerHash in Hv. destruct (String.list_ascii_of_string v) as [|c rest]; [done|].
    rewrite !andb_true_iff, forallb_forall in Hv. destruct Hv as [[_ Hc] Hr]. constructor.
    - eauto using ownerHashByte_not_space, isASCIIAlphaNumeric_ownerHashByte.
    - apply Forall_forall. intros x Hx%list_elem_of_In. eauto using ownerHashByte_not_space. }
  by apply graphic_trim.
Qed.

#[export] Hint Resolve validOwnerHash_nul_free validOwnerHash_trim : redev.

Lemma SessionScope_Valid_spec s :
  SessionScope_Valid s = true ↔
  validOwnerHash (ss_OwnerSessionHash s) = true ∧ validOwnerHash (ss_OwnerUserHash s) = true ∧
  validOwnerHash (ss_OwnerEnvHash s) = true ∧ validOwnerHash (ss_SessionChannelIDHash s) = true.
Proof. unfold SessionScope_Valid, SessionScope_Validate. go_cases; go_bools; naive_solver. Qed.

Lemma SessionScope_Validate_ok s : SessionScope_Validate s = Ok tt ↔ SessionScope_Valid s = true.
Proof. unfold SessionScope_Valid. by destruct (SessionScope_Validate s) as [[]|]. Qed.

(** On valid scopes [Matches] is equality of the whole scope. *)
Lemma SessionScope_Matches_spec s t :
  SessionScope_Matches s t = true ↔ SessionScope_Valid s = true ∧ s = t.
Proof.
  unfold SessionScope_Matches. rewrite !andb_true_iff, bool_decide_eq_true. naive_solver.
Qed.

Lemma ResourceScope_Matches_spec s t :
  ResourceScope_Matches s t = true ↔ ResourceScope_Valid s = true ∧ s = t.
Proof.
  unfold ResourceScope_Matches, ResourceScope_Valid.
  rewrite !andb_true_iff, !bool_decide_eq_true. destruct s, t; simpl. naive_solver.
Qed.

(** A valid session always projects to its session scope and to both of its
    resource scopes; an invalid one to neither. *)
Lemma Context_SessionScope_valid s :
  Context_Valid s = true →
  Context_SessionScope s = Ok (mkSessionScope (sc_OwnerSessionHash s) (sc_OwnerUserHash s)
                                 (sc_OwnerEnvHash s) (sc_SessionChannelIDHash s)).
Proof.
  intros Hs. unfold Context_SessionScope. rewrite Hs. simpl.
  unfold Context_Valid in Hs. rewrite !andb_true_iff in Hs. destruct Hs as [[[H1 H2] H3] H4].
  unfold SessionScope_Validate. simpl. by rewrite H1, H2, H3, H4.
Qed.

Lemma Context_ResourceScope_env s :
  Context_Valid s = true →
  Context_ResourceScope s ScopeEnvironment = Ok (mkResourceScope ScopeEnvironment (sc_OwnerEnvHash s) "").
Proof.
  intros Hs. unfold Context_ResourceScope. rewrite Hs. simpl.
  unfold Context_Valid in Hs. rewrite !andb_true_iff in Hs. destruct Hs as [[[H1 H2] H3] H4].
  unfold ResourceScope_Validate. simpl. by rewrite H3.
Qed.

Lemma Context_ResourceScope_user s :
  Context_Valid s = true →
  Context_ResourceScope s ScopeUser = Ok (mkResourceScope ScopeUser (sc_OwnerEnvHash s) (sc_OwnerUserHash s)).
Proof.
  intros Hs. unfold Context_ResourceScope. rewrite Hs. simpl.
  unfold Context_Valid in Hs. rewrite !andb_true_iff in Hs. destruct Hs as [[[H1 H2] H3] H4].
  unfold ResourceScope_Validate. simpl. by rewrite H3, H2.
Qed.
