(* ===== verification/Permissions.v ===== *)
(** * pkg/permissions: permission grants

    Grant records, their normalisation, the check of a set of required
    permissions against the recorded grants, and the split between boolean
    grants and resource-scoped ceilings. *)

From S2P Require Import Prelude GoLib.

Open Scope go_scope.

Inductive PermErr := ErrInvalidPermission | ErrPermissionDenied | ErrGrantNotFound.

#[export] Instance PermErr_eq_dec : EqDecision PermErr.
Proof. solve_decision. Defined.

(** [Effect] is a Go string with two legal values. *)
Definition Effect := string.
Definition EffectGrant : Effect := "grant".
Definition EffectDeny : Effect := "deny".

Record GrantRecord := mkGrant {
  g_PluginInstanceID : string;
  g_PermissionID : string;
  g_Effect : Effect;
  g_GrantedBy : string;
  g_GrantedAt : time;
  g_ExpiresAt : option time;
  g_RevokedAt : option time;
  g_RevokedBy : string;
  g_RevokedReason : string;
}.

#[export] Instance GrantRecord_eq_dec : EqDecision GrantRecord.
Proof. solve_decision. Defined.

Record GrantRequest := mkGrantRequest {
  gr_PluginInstanceID : string;
  gr_PermissionID : string;
  gr_GrantedBy : string;
  gr_Now : time;
  gr_ExpiresAt : time;
}.

Record RevokeRequest := mkRevokeRequest {
  rr_PluginInstanceID : string;
  rr_PermissionID : string;
  rr_RevokedBy : string;
  rr_Reason : string;
  rr_Now : time;
}.

Record CheckRequest := mkCheckRequest {
  cr_PluginInstanceID : string;
  cr_PermissionIDs : list string;
  cr_Now : time;
}.

Definition normalizeID (value : string) : string := TrimSpace value.

Definition ResourceScoped (id : string) : bool :=
  bool_decide (id = "fs.selected.read") || bool_decide (id = "fs.selected.write").

Definition NormalizePermissionIDs (permissionIDs : list string) : list string :=
  sort_strings (distinct_trimmed permissionIDs ∅).

Definition MethodGrantIDs (ids : list string) : list string :=
  List.filter (λ id, negb (ResourceScoped id)) (NormalizePermissionIDs ids).

Definition ResourceCeilingIDs (ids : list string) : list string :=
  List.filter ResourceScoped (NormalizePermissionIDs ids).

Definition NormalizeRecord (r : GrantRecord) : GrantRecord :=
  mkGrant (normalizeID (g_PluginInstanceID r)) (normalizeID (g_PermissionID r)) (g_Effect r)
    (normalizeID (g_GrantedBy r))
    (if IsZero (g_GrantedAt r) then g_GrantedAt r else UTC (g_GrantedAt r))
    (UTC <$> g_ExpiresAt r) (UTC <$> g_RevokedAt r)
    (normalizeID (g_RevokedBy r)) (TrimSpace (g_RevokedReason r)).

(** The copy has its own [ExpiresAt] and [RevokedAt]; as a value it is the
    record. *)
Definition CloneRecord (r : GrantRecord) : GrantRecord := r.

Definition ValidateRecord (r : GrantRecord) : Result PermErr unit :=
  let r := NormalizeRecord r in
  if bool_decide (g_PluginInstanceID r = "") || bool_decide (g_PermissionID r = "") ||
     IsZero (g_GrantedAt r)
  then Err ErrInvalidPermission
  else if negb (bool_decide (g_Effect r = EffectGrant)) && negb (bool_decide (g_Effect r = EffectDeny))
  then Err ErrInvalidPermission
  else Ok tt.

Definition NewGrant (wall : time) (req : GrantRequest) : Result PermErr GrantRecord :=
  let pluginInstanceID := normalizeID (gr_PluginInstanceID req) in
  let permissionID := normalizeID (gr_PermissionID req) in
  if bool_decide (pluginInstanceID = "") || bool_decide (permissionID = "") ||
     ResourceScoped permissionID
  then Err ErrInvalidPermission
  else Ok (mkGrant pluginInstanceID permissionID EffectGrant (normalizeID (gr_GrantedBy req))
             (or_wall wall (gr_Now req))
             (if IsZero (gr_ExpiresAt req) then None else Some (UTC (gr_ExpiresAt req)))
             None "" "").

Definition ValidateRevokeRequest (req : RevokeRequest) : Result PermErr unit :=
  if bool_decide (normalizeID (rr_PluginInstanceID req) = "") ||
     bool_decide (normalizeID (rr_PermissionID req) = "")
  then Err ErrInvalidPermission
  else Ok tt.

Definition Active (wall : time) (r : GrantRecord) (now : time) : bool :=
  if negb (bool_decide (g_Effect r = EffectGrant)) || bool_decide (is_Some (g_RevokedAt r))
  then false
  else
    let now := or_wall wall now in
    match g_ExpiresAt r with
    | None => true
    | Some expiresAt => After expiresAt now
    end.

(** The loop of [Evaluate] that indexes the records. *)
Fixpoint indexGrants (pluginInstanceID : string) (records : list GrantRecord)
    (byPermissionID : gmap string GrantRecord) : Result PermErr (gmap string GrantRecord) :=
  match records with
  | [] => Ok byPermissionID
  | r :: rest =>
     let r := NormalizeRecord r in
     if negb (is_ok (ValidateRecord r)) || negb (bool_decide (g_PluginInstanceID r = pluginInstanceID))
     then Err ErrInvalidPermission
     else if bool_decide (is_Some (byPermissionID !! g_PermissionID r)) then Err ErrInvalidPermission
     else indexGrants pluginInstanceID rest (<[g_PermissionID r := r]> byPermissionID)
  end.

(** The permission is granted by the index. *)
Definition grantedIn (wall now : time) (byPermissionID : gmap string GrantRecord) (id : string) : bool :=
  match byPermissionID !! id with
  | None => false
  | Some r => Active wall r now
  end.

Definition Evaluate (wall : time) (records : list GrantRecord) (req : CheckRequest) :
    Result PermErr (bool * list string) :=
  let pluginInstanceID := normalizeID (cr_PluginInstanceID req) in
  if bool_decide (pluginInstanceID = "") then Err ErrInvalidPermission
  else
    let required := NormalizePermissionIDs (cr_PermissionIDs req) in
    if bool_decide (required = []) then Ok (true, [])
    else
      let? byPermissionID := indexGrants pluginInstanceID records ∅ in
      let now := or_wall wall (cr_Now req) in
      let missing := List.filter (λ id, negb (grantedIn wall now byPermissionID id)) required in
      Ok (bool_decide (missing = []), missing).

Definition Revoke (wall : time) (r : GrantRecord) (req : RevokeRequest) : Result PermErr GrantRecord :=
  let? _ := ValidateRevokeRequest req in
  let r := NormalizeRecord r in
  let? _ := ValidateRecord r in
  if negb (bool_decide (g_PluginInstanceID r = normalizeID (rr_PluginInstanceID req))) ||
     negb (bool_decide (g_PermissionID r = normalizeID (rr_PermissionID req)))
  then Err ErrGrantNotFound
  else Ok (mkGrant (g_PluginInstanceID r) (g_PermissionID r) (g_Effect r) (g_GrantedBy r)
             (g_GrantedAt r) (g_ExpiresAt r) (Some (or_wall wall (rr_Now req)))
             (normalizeID (rr_RevokedBy req)) (TrimSpace (rr_Reason req))).

#[global] Arguments ValidateRecord : simpl never.
#[global] Arguments NormalizeRecord : simpl never.
#[global] Arguments NormalizePermissionIDs : simpl never.
#[global] Arguments Active : simpl never.

(** ** Lemmas *)

Lemma NormalizePermissionIDs_elem_of ids x :
  x ∈ NormalizePermissionIDs ids ↔ x ≠ "" ∧ ∃ v, v ∈ ids ∧ TrimSpace v = x.
Proof. apply sort_distinct_trimmed_elem_of. Qed.

Lemma NormalizePermissionIDs_NoDup ids : NoDup (NormalizePermissionIDs ids).
Proof. apply sort_strings_NoDup, distinct_trimmed_NoDup. Qed.

Lemma NormalizePermissionIDs_sorted ids : Sorted String.le (NormalizePermissionIDs ids).
Proof. apply sort_strings_sorted. Qed.

Lemma NormalizePermissionIDs_idemp ids :
  NormalizePermissionIDs (NormalizePermissionIDs ids) = NormalizePermissionIDs ids.
Proof. apply sort_distinct_trimmed_idemp. Qed.

(** A sorted list of distinct trimmed non-empty ids is its own normal form. *)
Lemma NormalizePermissionIDs_fix ids :
  Sorted String.le ids → NoDup ids → (∀ x, x ∈ ids → x ≠ "" ∧ TrimSpace x = x) →
  NormalizePermissionIDs ids = ids.
Proof.
  intros Hs Hnd Hall. unfold NormalizePermissionIDs. rewrite distinct_trimmed_fix; [|done|].
  - by apply sort_strings_id.
  - intros x Hx. destruct (Hall x Hx). set_solver.
Qed.

(** Filtering a normal form leaves a normal form, so the grant check of a
    method sees exactly the ids [MethodGrantIDs] returns. *)
Lemma NormalizePermissionIDs_filter (f : string → bool) ids :
  NormalizePermissionIDs (List.filter f (NormalizePermissionIDs ids)) =
  List.filter f (NormalizePermissionIDs ids).
Proof.
  assert (∀ l, StronglySorted String.le l → StronglySorted String.le (List.filter f l)) as Hfilter.
  { induction 1 as [|x l Hl IH Hx]; simpl; [constructor|]. destruct (f x); [|done].
    constructor; [done|]. apply Forall_forall. intros y Hy%list_elem_of_In.
    apply filter_In in Hy as [Hy _]. rewrite Forall_forall in Hx. apply Hx.
    by apply list_elem_of_In. }
  apply NormalizePermissionIDs_fix.
  - apply StronglySorted_Sorted, Hfilter, Sorted_StronglySorted; [apply _|].
    apply NormalizePermissionIDs_sorted.
  - apply NoDup_ListNoDup, List.NoDup_filter, NoDup_ListNoDup, NormalizePermissionIDs_NoDup.
  - intros x Hx%list_elem_of_In. apply filter_In in Hx as [Hx _]. apply list_elem_of_In in Hx.
    apply NormalizePermissionIDs_elem_of in Hx as (Hne & v & _ & <-).
    by rewrite TrimSpace_idemp.
Qed.

Lemma NormalizeRecord_idemp r : NormalizeRecord (NormalizeRecord r) = NormalizeRecord r.
Proof.
  destruct r as [????? e v ??]. unfold NormalizeRecord, normalizeID, UTC. simpl.
  rewrite !TrimSpace_idemp. destruct e, v; simpl; by repeat case_match.
Qed.

Lemma NormalizeRecord_plugin r :
  g_PluginInstanceID (NormalizeRecord r) = normalizeID (g_PluginInstanceID r).
Proof. done. Qed.

Lemma NormalizeRecord_permission r :
  g_PermissionID (NormalizeRecord r) = normalizeID (g_PermissionID r).
Proof. done. Qed.

Lemma ValidateRecord_normalize r : ValidateRecord (NormalizeRecord r) = ValidateRecord r.
Proof. unfold ValidateRecord. by rewrite NormalizeRecord_idemp. Qed.

Lemma Active_normalize wall r now : Active wall (NormalizeRecord r) now = Active wall r now.
Proof. destruct r as [????? e v ??]. unfold Active. simpl. by destruct e, v. Qed.

Lemma Active_or_wall wall r now :
  wall ≠ 0%Z → Active wall r (or_wall wall now) = Active wall r now.
Proof. intros Hw. unfold Active. by rewrite (or_wall_id wall (or_wall wall now)) by auto with redev. Qed.

#[export] Hint Rewrite NormalizeRecord_idemp ValidateRecord_normalize Active_normalize : redev.

(** A record [Evaluate] accepts for a plugin. *)
Definition grant_ok (pluginInstanceID : string) (r : GrantRecord) : Prop :=
  is_ok (ValidateRecord r) = true ∧ normalizeID (g_PluginInstanceID r) = pluginInstanceID.

(** The record lists [Evaluate] accepts: every record valid, of the plugin,
    and at most one per permission. *)
Definition grants_wf (pluginInstanceID : string) (records : list GrantRecord) : Prop :=
  Forall (grant_ok pluginInstanceID) records ∧
  NoDup ((λ r, normalizeID (g_PermissionID r)) <$> records).

Lemma indexGrants_ok pid records m :
  grants_wf pid records →
  (∀ r, r ∈ records → m !! normalizeID (g_PermissionID r) = None) →
  ∃ m', indexGrants pid records m = Ok m' ∧
    ∀ id r, m' !! id = Some r ↔
      m !! id = Some r ∨
      ∃ r0, r0 ∈ records ∧ normalizeID (g_PermissionID r0) = id ∧ r = NormalizeRecord r0.
Proof.
  revert m. induction records as [|r records IH]; intros m [Hall Hnd] Hfresh; cbn [indexGrants].
  { exists m. set_solver. }
  inversion_clear Hall as [|?? [Hr Hpid] Hrest]. apply NoDup_cons in Hnd as [Hnr Hnd].
  rewrite ValidateRecord_normalize, Hr, NormalizeRecord_plugin, NormalizeRecord_permission.
  rewrite Hpid, (bool_decide_eq_true_2 (pid = pid)) by done. cbn [negb orb].
  rewrite (Hfresh r) by (by left). rewrite bool_decide_eq_false_2 by (by intros [? ?]).
  destruct (IH (<[normalizeID (g_PermissionID r) := NormalizeRecord r]> m)) as (m' & Hm' & Hlk).
  { by split. }
  { intros r' Hr'. rewrite lookup_insert_ne; [apply Hfresh; by right|].
    intros Heq. apply Hnr, list_elem_of_fmap. eauto. }
  exists m'. split; [done|]. intros id r'. rewrite Hlk, lookup_insert_Some.
  split.
  - intros [[[<- <-]|[_ ?]]|(r0 & ? & ? & ?)]; [right; exists r; set_solver|by left|].
    right. exists r0. set_solver.
  - intros [Hm|(r0 & [->|?]%elem_of_cons & <- & ->)]; [|by left; left; split|right; by exists r0].
    left. right. split; [|done]. intros <-. by rewrite Hfresh in Hm by (by left).
Qed.

Lemma indexGrants_inv pid records m m' :
  indexGrants pid records m = Ok m' →
  grants_wf pid records ∧ ∀ r, r ∈ records → m !! normalizeID (g_PermissionID r) = None.
Proof.
  revert m. induction records as [|r records IH]; intros m; cbn [indexGrants].
  { split; [|set_solver]. split; [by constructor|]. simpl. by constructor. }
  rewrite ValidateRecord_normalize, NormalizeRecord_plugin, NormalizeRecord_permission.
  destruct (is_ok (ValidateRecord r)) eqn:Hr; [|done]. cbn [negb orb].
  case_bool_decide as Hpid; [|done]. cbn [negb].
  destruct (m !! normalizeID (g_PermissionID r)) eqn:Hm; [by rewrite bool_decide_eq_true_2 by eauto|].
  rewrite bool_decide_eq_false_2 by (by intros [? ?]).
  intros Hok. destruct (IH _ Hok) as [[Hall Hnd] Hfresh].
  assert (normalizeID (g_PermissionID r) ∉ (λ r, normalizeID (g_PermissionID r)) <$> records) as Hnr.
  { intros (r' & Heq & Hin)%list_elem_of_fmap. apply Hfresh in Hin.
    by rewrite <- Heq, lookup_insert_eq in Hin. }
  split; [split|].
  - by constructor.
  - simpl. by constructor.
  - intros r' [->|Hr']%elem_of_cons; [done|]. apply Hfresh in Hr'.
    by apply lookup_insert_None in Hr' as [? _].
Qed.

Lemma Evaluate_total wall records req :
  normalizeID (cr_PluginInstanceID req) ≠ "" →
  grants_wf (normalizeID (cr_PluginInstanceID req)) records →
  ∃ missing, Evaluate wall records req = Ok (bool_decide (missing = []), missing).
Proof.
  intros Hpid Hwf. unfold Evaluate. rewrite bool_decide_eq_false_2 by done.
  case_bool_decide; [by exists []|].
  destruct (indexGrants_ok _ records ∅ Hwf) as (m & -> & _); [by intros; apply lookup_empty|].
  simpl. eauto.
Qed.

(** The index of a well-formed list grants what some active record of the
    list covers. *)
Lemma grantedIn_index wall now pid records m id :
  wall ≠ 0%Z → grants_wf pid records → indexGrants pid records ∅ = Ok m →
  grantedIn wall (or_wall wall now) m id = true ↔
  ∃ r, r ∈ records ∧ normalizeID (g_PermissionID r) = id ∧ Active wall r now = true.
Proof.
  intros Hw Hwf Hix. destruct (indexGrants_ok pid records ∅ Hwf) as (m' & Hm' & Hlk);
    [by intros; apply lookup_empty|]. rewrite Hix in Hm'. injection Hm' as <-.
  unfold grantedIn. split.
  - destruct (m !! id) as [r|] eqn:Hm; [|done].
    apply Hlk in Hm as [Hm|(r0 & Hr0 & Hid & ->)]; [by rewrite lookup_empty in Hm|].
    rewrite Active_normalize, Active_or_wall by done. eauto.
  - intros (r & Hr & Hid & Hact).
    assert (m !! id = Some (NormalizeRecord r)) as -> by (apply Hlk; eauto).
    by rewrite Active_normalize, Active_or_wall.
Qed.

(** Two well-formed lists that cover the same required permissions give the
    same answer. *)
Lemma Evaluate_ext wall l1 l2 req :
  wall ≠ 0%Z →
  grants_wf (normalizeID (cr_PluginInstanceID req)) l1 →
  grants_wf (normalizeID (cr_PluginInstanceID req)) l2 →
  (∀ id, id ∈ NormalizePermissionIDs (cr_PermissionIDs req) →
     (∃ r, r ∈ l1 ∧ normalizeID (g_PermissionID r) = id ∧ Active wall r (cr_Now req) = true) ↔
     (∃ r, r ∈ l2 ∧ normalizeID (g_PermissionID r) = id ∧ Active wall r (cr_Now req) = true)) →
  Evaluate wall l1 req = Evaluate wall l2 req.
Proof.
  intros Hw H1 H2 Hsame. unfold Evaluate. case_bool_decide; [done|]. case_bool_decide; [done|].
  destruct (indexGrants_ok _ l1 ∅ H1) as (m1 & E1 & _); [by intros; apply lookup_empty|].
  destruct (indexGrants_ok _ l2 ∅ H2) as (m2 & E2 & _); [by intros; apply lookup_empty|].
  rewrite E1, E2. cbn [rbind].
  rewrite (filter_ext_in _ (λ id, negb (grantedIn wall (or_wall wall (cr_Now req)) m2 id))); [done|].
  intros id Hid%list_elem_of_In. f_equal. apply Hsame in Hid.
  rewrite <- (grantedIn_index wall _ _ l1 m1) in Hid by done.
  rewrite <- (grantedIn_index wall _ _ l2 m2) in Hid by done.
  destruct (grantedIn wall _ m1 id), (grantedIn wall _ m2 id); naive_solver.
Qed.

(** What a successful check reports. *)
Lemma Evaluate_granted_iff wall records req b missing :
  wall ≠ 0%Z →
  normalizeID (cr_PluginInstanceID req) ≠ "" →
  grants_wf (normalizeID (cr_PluginInstanceID req)) records →
  Evaluate wall records req = Ok (b, missing) →
  b = bool_decide (missing = []) ∧
  ∀ id, id ∈ missing ↔
    id ∈ NormalizePermissionIDs (cr_PermissionIDs req) ∧
    ¬ ∃ r, r ∈ records ∧ normalizeID (g_PermissionID r) = id ∧ Active wall r (cr_Now req) = true.
Proof.
  intros Hw Hpid Hwf. unfold Evaluate. rewrite bool_decide_eq_false_2 by done.
  case_bool_decide as Hreq.
  { intros [= <- <-]. split; [done|]. rewrite Hreq. intros id. split; [by intros ?%elem_of_nil|].
    by intros [?%elem_of_nil _]. }
  destruct (indexGrants _ records ∅) as [m|] eqn:Hix; [|done].
  cbn [rbind]. intros [= <- <-]. split; [done|]. intros id.
  rewrite list_elem_of_In, filter_In, <- list_elem_of_In. apply and_iff_compat_l.
  rewrite <- (grantedIn_index wall _ _ records m) by done.
  rewrite negb_true_iff. by destruct (grantedIn _ _ _ _).
Qed.

Lemma Evaluate_err wall records req e :
  Evaluate wall records req = Err e →
  e = ErrInvalidPermission ∧
  (normalizeID (cr_PluginInstanceID req) = "" ∨
   ¬ grants_wf (normalizeID (cr_PluginInstanceID req)) records).
Proof.
  unfold Evaluate. case_bool_decide as Hpid; [naive_solver|].
  case_bool_decide; [done|]. intros Herr.
  assert (e = ErrInvalidPermission) as ->.
  { assert (∀ pid l m, indexGrants pid l m = Err e → e = ErrInvalidPermission) as Hi.
    { intros pid l. induction l as [|r l IH]; intros m; cbn [indexGrants]; [done|].
      repeat case_match; [by intros [= <-]..|apply IH]. }
    destruct (indexGrants _ records ∅) eqn:Hix; [done|]. simplify_eq/=. eauto. }
  split; [done|]. right. intros Hwf.
  destruct (indexGrants_ok _ records ∅ Hwf) as (m & Hm & _); [by intros; apply lookup_empty|].
  by rewrite Hm in Herr.
Qed.

(** the grant check decides exactly. For a well-formed record list the
    call succeeds, the permissions it reports missing are the required ones
    (trimmed, non-empty) that no active grant of the list covers, and the
    check passes when none is missing; a malformed list is refused as soon as
    something is required, and so is an empty plugin id. *)
Theorem permission_check_exact wall records req :
  wall ≠ 0%Z →
  (normalizeID (cr_PluginInstanceID req) ≠ "" →
   grants_wf (normalizeID (cr_PluginInstanceID req)) records →
   ∃ missing,
     Evaluate wall records req = Ok (bool_decide (missing = []), missing) ∧
     ∀ id, id ∈ missing ↔
       id ∈ NormalizePermissionIDs (cr_PermissionIDs req) ∧
       ¬ ∃ r, r ∈ records ∧ normalizeID (g_PermissionID r) = id ∧
              Active wall r (cr_Now req) = true) ∧
  (NormalizePermissionIDs (cr_PermissionIDs req) ≠ [] →
   ¬ grants_wf (normalizeID (cr_PluginInstanceID req)) records →
   Evaluate wall records req = Err ErrInvalidPermission) ∧
  (normalizeID (cr_PluginInstanceID req) = "" →
   Evaluate wall records req = Err ErrInvalidPermission).
Proof.
  intros Hw. split; [|split].
  - intros Hpid Hwf. destruct (Evaluate_total wall records req Hpid Hwf) as [missing Hev].
    exists missing. split; [done|]. by eapply Evaluate_granted_iff.
  - intros Hreq Hnwf. unfold Evaluate. case_bool_decide; [done|].
    rewrite bool_decide_eq_false_2 by done.
    destruct (indexGrants _ records ∅) as [m|e] eqn:Hix.
    + by apply indexGrants_inv in Hix as [? _].
    + cbn [rbind]. f_equal. assert (Evaluate wall records req = Err e) as Hev.
      { unfold Evaluate. rewrite !bool_decide_eq_false_2 by done. by rewrite Hix. }
      by apply Evaluate_err in Hev as [? _].
  - intros Hpid. unfold Evaluate. by rewrite bool_decide_eq_true_2.
Qed.

(** What a successful revocation returns. *)
Lemma Revoke_facts wall r req r' :
  Revoke wall r req = Ok r' →
  (∀ wall' now, Active wall' r' now = false) ∧
  g_PluginInstanceID r' = normalizeID (rr_PluginInstanceID req) ∧
  g_PermissionID r' = normalizeID (rr_PermissionID req) ∧
  is_ok (ValidateRecord r') = true ∧
  normalizeID (g_PluginInstanceID r) = normalizeID (rr_PluginInstanceID req).
Proof.
  unfold Revoke. intros (_ & _ & H)%rbind_ok. cbn [rbind] in H.
  apply rbind_ok in H as ([] & Hval & H). case_bool_decide as H1; [|done].
  case_bool_decide as H2; [|done]. cbn [negb orb] in H. simplify_eq. split; [|split; [|split; [|split]]].
  - intros wall' now. unfold Active. cbn [g_Effect g_RevokedAt].
    rewrite (bool_decide_eq_true_2 (is_Some _)) by eauto. by rewrite orb_true_r.
  - done.
  - done.
  - unfold ValidateRecord in *. rewrite NormalizeRecord_idemp in Hval.
    destruct r as [a b c d e f g h i]. unfold NormalizeRecord, normalizeID, UTC in *.
    cbn [g_PluginInstanceID g_PermissionID g_Effect g_GrantedAt] in *.
    rewrite !TrimSpace_idemp. revert Hval. destruct (IsZero e) eqn:He; rewrite ?He; [by repeat case_match|].
    by repeat case_match.
  - done.
Qed.

(** Revoking is final for the record: a revoked grant is active at no
    time, whatever the clock, and keeps its plugin and permission. *)
Theorem revoked_grant_never_active wall r req r' :
  Revoke wall r req = Ok r' →
  (∀ wall' now, Active wall' r' now = false) ∧
  g_PluginInstanceID r' = normalizeID (rr_PluginInstanceID req) ∧
  g_PermissionID r' = normalizeID (rr_PermissionID req) ∧
  is_ok (ValidateRecord r') = true.
Proof. intros H%Revoke_facts. naive_solver. Qed.

(** A grant of ["p1"] for ["net"], and one that has expired. *)
Definition sample_grant : GrantRecord :=
  mkGrant "p1" "net" EffectGrant "admin" 100 None None "" "".
Definition sample_expired : GrantRecord :=
  mkGrant "p1" "fs" EffectGrant "admin" 100 (Some 150%Z) None "" "".

Lemma permission_check_exact_witness :
  ∃ missing,
    Evaluate 1000 [sample_grant; sample_expired] (mkCheckRequest "p1" [" net"; "fs"; "net"] 200) =
      Ok (bool_decide (missing = []), missing) ∧ missing = ["fs"].
Proof.
  assert (grants_wf "p1" [sample_grant; sample_expired]) as Hwf.
  { split; [by repeat constructor|]. by apply (bool_decide_unpack (NoDup _)). }
  destruct (permission_check_exact 1000 [sample_grant; sample_expired]
              (mkCheckRequest "p1" [" net"; "fs"; "net"] 200)) as (H & _ & _); [done|].
  destruct (H ltac:(done) Hwf) as (missing & Heq & _). exists missing. split; [exact Heq|].
  vm_compute in Heq. congruence.
Defined.

Lemma revoked_grant_never_active_witness :
  ∃ r', Revoke 1000 sample_grant (mkRevokeRequest " p1" "net " "admin" "left" 0) = Ok r' ∧
        Active 1 r' 5 = false.
Proof.
  eexists. split; [vm_compute; reflexivity|].
  apply (revoked_grant_never_active 1000 sample_grant (mkRevokeRequest " p1" "net " "admin" "left" 0)).
  vm_compute; reflexivity.
Defined.
