(* ===== verification/Policy.v ===== *)
(** * pkg/security/policy.go: per-plugin security policies

    A policy denies methods and, when its permission list is not empty, caps
    the permissions a call may require. *)

From S2P Require Import Prelude GoLib.

Open Scope go_scope.

Inductive PolicyErr := ErrInvalidPolicy | ErrPolicyNotFound | ErrPolicyDenied.

#[export] Instance PolicyErr_eq_dec : EqDecision PolicyErr.
Proof. solve_decision. Defined.

Definition PolicyDenyReasonMethodDenied : string := "method_denied".
Definition PolicyDenyReasonPermissionNotAllowed : string := "permission_not_allowed".

Record PolicyRecord := mkPolicy {
  p_PluginInstanceID : string;
  p_AllowedPermissions : list string;
  p_DeniedMethods : list string;
  p_UpdatedAt : time;
}.

Record PutPolicyRequest := mkPutPolicy {
  pp_PluginInstanceID : string;
  pp_AllowedPermissions : list string;
  pp_DeniedMethods : list string;
  pp_Now : time;
}.

Record EvaluatePolicyRequest := mkEvaluatePolicy {
  ep_PluginInstanceID : string;
  ep_Method : string;
  ep_RequiredPermissions : list string;
}.

Record PolicyEvaluation := mkPolicyEvaluation {
  pe_Allowed : bool;
  pe_Reason : string;
  pe_DeniedMethod : string;
  pe_MissingPermissions : list string;
}.

(** [PolicyEvaluation{Allowed: true}]. *)
Definition policyAllowed : PolicyEvaluation := mkPolicyEvaluation true "" "" [].

Definition normalizePolicyID (value : string) : string := TrimSpace value.

Definition normalizePolicyValues (values : list string) : list string :=
  sort_strings (distinct_trimmed values ∅).

(** [stringSet(values)], the set of the values. *)
Definition stringSet (values : list string) : gset string := list_to_set values.

Definition NormalizePolicy (r : PolicyRecord) : PolicyRecord :=
  mkPolicy (normalizePolicyID (p_PluginInstanceID r))
    (normalizePolicyValues (p_AllowedPermissions r)) (normalizePolicyValues (p_DeniedMethods r))
    (if IsZero (p_UpdatedAt r) then p_UpdatedAt r else UTC (p_UpdatedAt r)).

(** The copy owns its slices; as a value it is the record. *)
Definition ClonePolicy (r : PolicyRecord) : PolicyRecord := r.

Definition NewPolicy (wall : time) (req : PutPolicyRequest) : Result PolicyErr PolicyRecord :=
  let pluginInstanceID := normalizePolicyID (pp_PluginInstanceID req) in
  if bool_decide (pluginInstanceID = "") then Err ErrInvalidPolicy
  else Ok (mkPolicy pluginInstanceID (normalizePolicyValues (pp_AllowedPermissions req))
             (normalizePolicyValues (pp_DeniedMethods req)) (or_wall wall (pp_Now req))).

Definition ValidatePolicy (r : PolicyRecord) : Result PolicyErr unit :=
  let r := NormalizePolicy r in
  if bool_decide (p_PluginInstanceID r = "") || IsZero (p_UpdatedAt r)
  then Err ErrInvalidPolicy else Ok tt.

Definition ValidatePolicyID (pluginInstanceID : string) : Result PolicyErr unit :=
  if bool_decide (normalizePolicyID pluginInstanceID = "") then Err ErrInvalidPolicy else Ok tt.

Definition ValidatePolicyEvaluationRequest (req : EvaluatePolicyRequest) : Result PolicyErr unit :=
  if bool_decide (normalizePolicyID (ep_PluginInstanceID req) = "") ||
     bool_decide (normalizePolicyID (ep_Method req) = "")
  then Err ErrInvalidPolicy else Ok tt.

Definition EvaluatePermissionCeiling (policy : option PolicyRecord) (pluginInstanceID : string)
    (required : list string) : Result PolicyErr PolicyEvaluation :=
  if bool_decide (normalizePolicyID pluginInstanceID = "") then Err ErrInvalidPolicy
  else match policy with
  | None => Ok policyAllowed
  | Some p =>
     let r := NormalizePolicy p in
     if negb (is_ok (ValidatePolicy r)) ||
        negb (bool_decide (p_PluginInstanceID r = normalizePolicyID pluginInstanceID))
     then Err ErrInvalidPolicy
     else if bool_decide (p_AllowedPermissions r = []) then Ok policyAllowed
     else
       let allowedPermissions := stringSet (p_AllowedPermissions r) in
       let missing := List.filter (λ id, negb (bool_decide (id ∈ allowedPermissions)))
                        (normalizePolicyValues required) in
       if bool_decide (missing = []) then Ok policyAllowed
       else Ok (mkPolicyEvaluation false PolicyDenyReasonPermissionNotAllowed "" missing)
  end.

Definition EvaluatePolicy (policy : option PolicyRecord) (req : EvaluatePolicyRequest) :
    Result PolicyErr PolicyEvaluation :=
  let? _ := ValidatePolicyEvaluationRequest req in
  match policy with
  | None => Ok policyAllowed
  | Some p =>
     let r := NormalizePolicy p in
     if negb (is_ok (ValidatePolicy r)) ||
        negb (bool_decide (p_PluginInstanceID r = normalizePolicyID (ep_PluginInstanceID req)))
     then Err ErrInvalidPolicy
     else
       let method := normalizePolicyID (ep_Method req) in
       if bool_decide (method ∈ stringSet (p_DeniedMethods r))
       then Ok (mkPolicyEvaluation false PolicyDenyReasonMethodDenied method [])
       else EvaluatePermissionCeiling policy (ep_PluginInstanceID req) (ep_RequiredPermissions req)
  end.

#[global] Arguments NormalizePolicy : simpl never.
#[global] Arguments ValidatePolicy : simpl never.
#[global] Arguments normalizePolicyValues : simpl never.

(** ** Lemmas *)

Lemma normalizePolicyValues_elem_of values x :
  x ∈ normalizePolicyValues values ↔ x ≠ "" ∧ ∃ v, v ∈ values ∧ TrimSpace v = x.
Proof. apply sort_distinct_trimmed_elem_of. Qed.

Lemma normalizePolicyValues_idemp values :
  normalizePolicyValues (normalizePolicyValues values) = normalizePolicyValues values.
Proof. apply sort_distinct_trimmed_idemp. Qed.

Lemma NormalizePolicy_idemp r : NormalizePolicy (NormalizePolicy r) = NormalizePolicy r.
Proof.
  destruct r. unfold NormalizePolicy, normalizePolicyID, UTC.
  cbn [p_PluginInstanceID p_AllowedPermissions p_DeniedMethods p_UpdatedAt].
  rewrite TrimSpace_idemp, !normalizePolicyValues_idemp. by repeat case_match.
Qed.

Lemma ValidatePolicy_normalize r : ValidatePolicy (NormalizePolicy r) = ValidatePolicy r.
Proof. unfold ValidatePolicy. by rewrite NormalizePolicy_idemp. Qed.

#[export] Hint Rewrite NormalizePolicy_idemp ValidatePolicy_normalize : redev.

(** A policy [Evaluate] accepts for a plugin. *)
Definition policy_wf (pluginInstanceID : string) (p : PolicyRecord) : Prop :=
  is_ok (ValidatePolicy p) = true ∧ normalizePolicyID (p_PluginInstanceID p) = pluginInstanceID.

(** The permission list of a policy, empty meaning no cap. *)
Definition permits (p : PolicyRecord) (id : string) : Prop :=
  normalizePolicyValues (p_AllowedPermissions p) = [] ∨
  id ∈ normalizePolicyValues (p_AllowedPermissions p).

Lemma filter_nil_iff {A} (f : A → bool) (l : list A) :
  List.filter f l = [] ↔ ∀ x, x ∈ l → f x = false.
Proof.
  split.
  - intros Hnil x Hx%list_elem_of_In. destruct (f x) eqn:Hf; [|done].
    assert (In x (List.filter f l)) as Hin by (by apply filter_In). by rewrite Hnil in Hin.
  - intros Hall. induction l as [|x l IH]; simpl; [done|].
    rewrite Hall by (by left). apply IH. intros y Hy. apply Hall. by right.
Qed.

Lemma EvaluatePermissionCeiling_spec p pid required :
  normalizePolicyID pid ≠ "" → policy_wf (normalizePolicyID pid) p →
  ∃ ev, EvaluatePermissionCeiling (Some p) pid required = Ok ev ∧
    (pe_Allowed ev = true ↔ ∀ id, id ∈ normalizePolicyValues required → permits p id) ∧
    (∀ id, id ∈ pe_MissingPermissions ev ↔
       id ∈ normalizePolicyValues required ∧ ¬ permits p id).
Proof.
  intros Hpid [Hval Hp]. unfold EvaluatePermissionCeiling.
  rewrite bool_decide_eq_false_2 by done. rewrite ValidatePolicy_normalize, Hval.
  change (p_PluginInstanceID (NormalizePolicy p)) with (normalizePolicyID (p_PluginInstanceID p)).
  rewrite Hp, bool_decide_eq_true_2 by done. cbn [negb orb].
  change (p_AllowedPermissions (NormalizePolicy p)) with
    (normalizePolicyValues (p_AllowedPermissions p)).
  unfold permits. case_bool_decide as Hnil.
  { eexists. split; [done|]. rewrite Hnil. cbn [pe_Allowed pe_MissingPermissions policyAllowed].
    split; [naive_solver|]. intros id. split; [by intros ?%elem_of_nil|]. naive_solver. }
  set (allowed := normalizePolicyValues (p_AllowedPermissions p)) in *.
  set (f := λ id, negb (bool_decide (id ∈ stringSet allowed))).
  assert (∀ id, f id = true ↔ ¬ (allowed = [] ∨ id ∈ allowed)) as Hf.
  { intros id. unfold f, stringSet. rewrite negb_true_iff, bool_decide_eq_false, elem_of_list_to_set.
    naive_solver. }
  assert (∀ id, id ∈ List.filter f (normalizePolicyValues required) ↔
    id ∈ normalizePolicyValues required ∧ ¬ (allowed = [] ∨ id ∈ allowed)) as Hin.
  { intros id. rewrite list_elem_of_In, filter_In, <- list_elem_of_In. by rewrite Hf. }
  case_bool_decide as Hmiss; eexists; (split; [done|]);
    cbn [pe_Allowed pe_MissingPermissions policyAllowed].
  - rewrite Hmiss in Hin. split; [|done]. split; [|done]. intros _ id Hid.
    destruct (decide (id ∈ allowed)); [by right|]. exfalso.
    apply (not_elem_of_nil id), Hin. split; [done|]. intros [?|?]; done.
  - split; [|done]. split; [done|]. intros Hall. exfalso. apply Hmiss, filter_nil_iff.
    intros id Hid. destruct (f id) eqn:Hfid; [|done]. apply Hf in Hfid. by apply Hall in Hid.
Qed.

(** The decision of an accepted policy. *)
Lemma EvaluatePolicy_spec p req :
  normalizePolicyID (ep_PluginInstanceID req) ≠ "" →
  normalizePolicyID (ep_Method req) ≠ "" →
  policy_wf (normalizePolicyID (ep_PluginInstanceID req)) p →
  ∃ ev, EvaluatePolicy (Some p) req = Ok ev ∧
    (pe_Allowed ev = true ↔
       normalizePolicyID (ep_Method req) ∉ normalizePolicyValues (p_DeniedMethods p) ∧
       ∀ id, id ∈ normalizePolicyValues (ep_RequiredPermissions req) → permits p id) ∧
    (pe_Reason ev ≠ PolicyDenyReasonMethodDenied →
       ∀ id, id ∈ pe_MissingPermissions ev ↔
         id ∈ normalizePolicyValues (ep_RequiredPermissions req) ∧ ¬ permits p id).
Proof.
  intros Hpid Hm Hwf. unfold EvaluatePolicy, ValidatePolicyEvaluationRequest.
  rewrite !bool_decide_eq_false_2 by done. cbn [orb rbind].
  rewrite ValidatePolicy_normalize.
  change (p_PluginInstanceID (NormalizePolicy p)) with (normalizePolicyID (p_PluginInstanceID p)).
  change (p_DeniedMethods (NormalizePolicy p)) with (normalizePolicyValues (p_DeniedMethods p)).
  pose proof Hwf as [Hval Hp]. rewrite Hval, bool_decide_eq_true_2 by done.
  cbn [negb orb]. unfold stringSet. case_bool_decide as Hden; rewrite elem_of_list_to_set in Hden.
  - eexists. split; [done|]. cbn [pe_Allowed pe_Reason]. naive_solver.
  - destruct (EvaluatePermissionCeiling_spec p (ep_PluginInstanceID req)
      (ep_RequiredPermissions req) Hpid Hwf) as (ev & -> & Hall & Hmiss).
    exists ev. split; [done|]. rewrite Hall. naive_solver.
Qed.

(** a security policy decides a call exactly. For a well-formed request:
    without a policy every call is allowed; with a policy of the plugin the
    call is allowed exactly when its method is not among the denied methods
    and every required permission is inside the permission ceiling (an empty
    ceiling caps nothing), and the permissions reported missing are the ones
    outside it; a policy that is invalid or of another plugin is an error,
    never an allowance. *)
Theorem policy_decision_exact p req :
  normalizePolicyID (ep_PluginInstanceID req) ≠ "" →
  normalizePolicyID (ep_Method req) ≠ "" →
  EvaluatePolicy None req = Ok policyAllowed ∧
  (policy_wf (normalizePolicyID (ep_PluginInstanceID req)) p →
   ∃ ev, EvaluatePolicy (Some p) req = Ok ev ∧
     (pe_Allowed ev = true ↔
        normalizePolicyID (ep_Method req) ∉ normalizePolicyValues (p_DeniedMethods p) ∧
        ∀ id, id ∈ normalizePolicyValues (ep_RequiredPermissions req) → permits p id) ∧
     (pe_Reason ev ≠ PolicyDenyReasonMethodDenied →
        ∀ id, id ∈ pe_MissingPermissions ev ↔
          id ∈ normalizePolicyValues (ep_RequiredPermissions req) ∧ ¬ permits p id)) ∧
  (¬ policy_wf (normalizePolicyID (ep_PluginInstanceID req)) p →
   EvaluatePolicy (Some p) req = Err ErrInvalidPolicy).
Proof.
  intros Hpid Hm. split; [|split].
  - unfold EvaluatePolicy, ValidatePolicyEvaluationRequest. by rewrite !bool_decide_eq_false_2.
  - by apply EvaluatePolicy_spec.
  - intros Hnwf. unfold EvaluatePolicy, ValidatePolicyEvaluationRequest.
    rewrite !bool_decide_eq_false_2 by done. cbn [orb rbind]. rewrite ValidatePolicy_normalize.
    destruct (is_ok (ValidatePolicy p)) eqn:Hval; [|done].
    case_bool_decide; [|done]. exfalso. by apply Hnwf.
Qed.

Definition sample_policy : PolicyRecord := mkPolicy "p1" ["net"; "kv "] ["danger"] 7.

Lemma policy_decision_exact_witness :
  ∃ ev, EvaluatePolicy (Some sample_policy) (mkEvaluatePolicy "p1" "run" ["net"; "fs"]) = Ok ev ∧
        pe_Allowed ev = false ∧ ("fs" ∈ pe_MissingPermissions ev).
Proof.
  destruct (policy_decision_exact sample_policy (mkEvaluatePolicy "p1" "run" ["net"; "fs"]))
    as (_ & H & _); [done..|].
  destruct H as (ev & Hev & _); [by split|]. exists ev. split; [exact Hev|].
  vm_compute in Hev. injection Hev as <-. split; [reflexivity|]. cbn. by left.
Defined.
