(* ===== verification/Registry.v ===== *)
(** * pkg/registry: plugin records and the authorization store

    [MemoryStore] of registry.go with the authorization operations of
    authorization.go: permission grants, security policies, the three
    revision counters every mutation is guarded by, and the authorization
    decision. The pure [Prepare...] functions are the ones the durable control
    store runs inside its transactions.

    A plugin record carries the fields these operations read or write; the
    manifest, the package entries, the version history and the rest of the
    descriptive fields are one value of the type [Rest]. [cloneRest] stands
    for the JSON round trip of those fields in [clonePluginRecord], which can
    fail. *)

From S2P Require Import Prelude GoLib SessionCtx Permissions Policy.

Open Scope go_scope.

Definition EnableState := string.
Definition EnableEnabled : EnableState := "enabled".
Definition EnableDisabledByUser : EnableState := "disabled_by_user".

Record AuthorizationRevisions := mkRevisions {
  PolicyRevision : Z;
  ManagementRevision : Z;
  RevokeEpoch : Z;
}.

#[export] Instance AuthorizationRevisions_eq_dec : EqDecision AuthorizationRevisions.
Proof. solve_decision. Defined.

(** The errors of the operations: the packages' sentinels, the two conflict
    errors with their payload, and a failed JSON clone. *)
Inductive RegErr :=
| RegSession (e : SessErr)
| RegPermission (e : PermErr)
| RegPolicy (e : PolicyErr)
| ErrNotFound
| ErrInvalidEnableState
| ErrInvalidAuthorizationRevisions
| AuthorizationRevisionConflict (pluginInstanceID : string)
    (expected actual : AuthorizationRevisions)
| ManagementRevisionConflict (pluginInstanceID : string) (expected actual : Z)
| ErrCloneRecord.

Definition lift_err {E A} (f : E → RegErr) (r : Result E A) : Result RegErr A :=
  match r with Ok a => Ok a | Err e => Err (f e) end.

Definition ExecutionApprovalStatus := string.
Definition ExecutionApprovalPending : ExecutionApprovalStatus := "pending".
Definition ExecutionApprovalUserApproved : ExecutionApprovalStatus := "user_approved".
Definition ExecutionApprovalPolicyApproved : ExecutionApprovalStatus := "policy_approved".
Definition ExecutionApprovalPolicyBlocked : ExecutionApprovalStatus := "policy_blocked".

Record ExecutionApproval := mkApproval {
  ea_Status : ExecutionApprovalStatus;
  ea_OwnerEnvHash : string;
  ea_PackageSHA256 : string;
  ea_ReasonCodes : list string;
  ea_EvidenceReference : string;
  ea_PolicyEpoch : string;
  ea_AssessedAt : time;
  ea_ApprovedAt : time;
}.

Definition PackageSourceKind := string.

Definition validPackageSourceKind (kind : PackageSourceKind) : bool :=
  bool_decide (kind = "github_repository") || bool_decide (kind = "package_url") ||
  bool_decide (kind = "package_upload") || bool_decide (kind = "local_package").

Definition validExecutionApprovalStatus (status : ExecutionApprovalStatus) : bool :=
  bool_decide (status = ExecutionApprovalPending) ||
  bool_decide (status = ExecutionApprovalUserApproved) ||
  bool_decide (status = ExecutionApprovalPolicyApproved) ||
  bool_decide (status = ExecutionApprovalPolicyBlocked).

Definition ValidateEnableState (state : EnableState) : Result RegErr unit :=
  if negb (bool_decide (state = EnableEnabled)) && negb (bool_decide (state = EnableDisabledByUser))
  then Err ErrInvalidEnableState else Ok tt.

(** [plugindata.Binding], which uninstalling retains or deletes. *)
Definition BindingRetained : string := "retained".

Record Binding := mkBinding {
  b_PluginInstanceID : string;
  b_GenerationID : string;
  b_State : string;
  b_Revision : Z;
  b_ShapeHash : string;
  b_RetainedAt : option time;
  b_ExpiresAt : option time;
}.

Definition environmentRecordKey (ownerEnvHash pluginInstanceID : string) : string :=
  TrimSpace ownerEnvHash +:+ nul +:+ TrimSpace pluginInstanceID.

Definition resourceOwner (ctx : GoCtx) (kind : ScopeKind) : Result SessErr ResourceScope :=
  let? session := Require_ ctx in Context_ResourceScope session kind.

Definition environmentOwner (ctx : GoCtx) : Result SessErr string :=
  let? scope := resourceOwner ctx ScopeEnvironment in Ok (rs_OwnerEnvHash scope).

Definition validateAuthorizationRevisions (expected : AuthorizationRevisions) : Result RegErr unit :=
  if (PolicyRevision expected =? 0)%Z || (ManagementRevision expected =? 0)%Z
  then Err ErrInvalidAuthorizationRevisions else Ok tt.

Record AuthorizeRequest := mkAuthorize {
  ar_PluginInstanceID : string;
  ar_Method : string;
  ar_PermissionIDs : list string;
  ar_Expected : AuthorizationRevisions;
  ar_Now : time;
}.

Record AuthorizationState := mkAuthState {
  as_PluginInstanceID : string;
  as_PluginVersion : string;
  as_ActiveFingerprint : string;
  as_PackageSourceKind : PackageSourceKind;
  as_ExecutionApproval : ExecutionApproval;
  as_EnableState : EnableState;
  as_Revisions : AuthorizationRevisions;
}.

Definition RunnableAuthorizationState (state : AuthorizationState) : bool :=
  if negb (validPackageSourceKind (as_PackageSourceKind state)) ||
     negb (validExecutionApprovalStatus (ea_Status (as_ExecutionApproval state)))
  then false
  else bool_decide (ea_Status (as_ExecutionApproval state) = ExecutionApprovalUserApproved) ||
       bool_decide (ea_Status (as_ExecutionApproval state) = ExecutionApprovalPolicyApproved).

Record AuthorizationDecision := mkDecision {
  ad_State : AuthorizationState;
  ad_Allowed : bool;
  ad_MissingPermissions : list string;
  ad_PolicyEvaluation : PolicyEvaluation;
}.

Record CommitUninstallRequest := mkUninstall {
  cu_PluginInstanceID : string;
  cu_DeleteData : bool;
  cu_ExpectedManagementRevision : Z;
  cu_RetainUntil : option time;
  cu_Now : time;
}.

Record CommitUninstallResult := mkUninstalled {
  cur_ManagementRevision : Z;
  cur_RevokeEpoch : Z;
  cur_DeletedAt : time;
}.

Definition evaluateAuthorizationDecision (wall : time) (state : AuthorizationState)
    (grants : list GrantRecord) (policyEvaluation : PolicyEvaluation) (req : AuthorizeRequest) :
    Result RegErr AuthorizationDecision :=
  let? gm := lift_err RegPermission
    (Evaluate wall grants
      (mkCheckRequest (as_PluginInstanceID state) (MethodGrantIDs (ar_PermissionIDs req)) (ar_Now req))) in
  Ok (mkDecision state (pe_Allowed policyEvaluation && gm.1) gm.2 policyEvaluation).

Definition evaluateAuthorization (wall : time) (state : AuthorizationState) (grants : list GrantRecord)
    (policy : option PolicyRecord) (req : AuthorizeRequest) : Result RegErr AuthorizationDecision :=
  let? policyEvaluation := lift_err RegPolicy
    (EvaluatePolicy policy
      (mkEvaluatePolicy (as_PluginInstanceID state) (ar_Method req) (ar_PermissionIDs req))) in
  evaluateAuthorizationDecision wall state grants policyEvaluation req.

(** Grants are listed by permission id. *)
Definition grant_le (a b : GrantRecord) : Prop := String.le (g_PermissionID a) (g_PermissionID b).

#[export] Instance grant_le_dec : RelDecision grant_le.
Proof. intros a b. unfold grant_le. apply _. Defined.

Definition clonePermissionRecordsFromMap (records : gmap string GrantRecord) : list GrantRecord :=
  merge_sort grant_le (CloneRecord <$> (map_to_list records).*2).

Section store.
Context {Rest : Type}.

Record PluginRecord := mkPlugin {
  pr_OwnerEnvHash : string;
  pr_PluginInstanceID : string;
  pr_PluginID : string;
  pr_Version : string;
  pr_ActiveFingerprint : string;
  pr_SourceKind : PackageSourceKind;
  pr_ExecutionApproval : ExecutionApproval;
  pr_EnableState : EnableState;
  pr_DisabledReason : string;
  pr_Revisions : AuthorizationRevisions;
  pr_InstalledAt : time;
  pr_EnabledAt : option time;
  pr_UpdatedAt : time;
  pr_DeletedAt : option time;
  pr_Rest : Rest;
}.

Record AuthorizationSnapshot := mkSnapshot {
  sn_Plugin : PluginRecord;
  sn_Grants : list GrantRecord;
  sn_Policy : option PolicyRecord;
}.

Record MemoryStore := mkStore {
  st_records : gmap string PluginRecord;
  st_permissionGrants : gmap string (gmap string GrantRecord);
  st_securityPolicies : gmap string PolicyRecord;
  st_dataBindings : gmap string Binding;
}.

Definition NewMemoryStore : MemoryStore := mkStore ∅ ∅ ∅ ∅.

(** [record.PolicyRevision++], [record.ManagementRevision++] and
    [record.RevokeEpoch++], each where its flag is set, then
    [record.UpdatedAt = now]. *)
Definition bump (policy management revoke : bool) (now : time) (r : PluginRecord) : PluginRecord :=
  let inc (b : bool) (x : Z) := if b then incr64 x else x in
  let v := pr_Revisions r in
  mkPlugin (pr_OwnerEnvHash r) (pr_PluginInstanceID r) (pr_PluginID r) (pr_Version r)
    (pr_ActiveFingerprint r) (pr_SourceKind r) (pr_ExecutionApproval r) (pr_EnableState r)
    (pr_DisabledReason r)
    (mkRevisions (inc policy (PolicyRevision v)) (inc management (ManagementRevision v))
       (inc revoke (RevokeEpoch v)))
    (pr_InstalledAt r) (pr_EnabledAt r) now (pr_DeletedAt r) (pr_Rest r).

(** The record with its enable state, reason and enable time replaced. *)
Definition set_enable (state : EnableState) (reason : string) (at_ : option time)
    (r : PluginRecord) : PluginRecord :=
  mkPlugin (pr_OwnerEnvHash r) (pr_PluginInstanceID r) (pr_PluginID r) (pr_Version r)
    (pr_ActiveFingerprint r) (pr_SourceKind r) (pr_ExecutionApproval r) state reason
    (pr_Revisions r) (pr_InstalledAt r) at_ (pr_UpdatedAt r) (pr_DeletedAt r) (pr_Rest r).

(** The record marked deleted: [DeletedAt = &now; EnabledAt = nil]. *)
Definition set_deleted (now : time) (r : PluginRecord) : PluginRecord :=
  mkPlugin (pr_OwnerEnvHash r) (pr_PluginInstanceID r) (pr_PluginID r) (pr_Version r)
    (pr_ActiveFingerprint r) (pr_SourceKind r) (pr_ExecutionApproval r) (pr_EnableState r)
    (pr_DisabledReason r) (pr_Revisions r) (pr_InstalledAt r) None (pr_UpdatedAt r)
    (Some now) (pr_Rest r).

Definition AuthorizationRevisionsFromRecord (r : PluginRecord) : AuthorizationRevisions :=
  pr_Revisions r.

Definition authorizationStateFromRecord (r : PluginRecord) : AuthorizationState :=
  mkAuthState (pr_PluginInstanceID r) (pr_Version r) (pr_ActiveFingerprint r) (pr_SourceKind r)
    (pr_ExecutionApproval r) (pr_EnableState r) (AuthorizationRevisionsFromRecord r).

Definition ensureAuthorizationRevisions (pluginInstanceID : string)
    (expected : AuthorizationRevisions) (r : PluginRecord) : Result RegErr unit :=
  let? _ := validateAuthorizationRevisions expected in
  let actual := AuthorizationRevisionsFromRecord r in
  if bool_decide (expected = actual) then Ok tt
  else Err (AuthorizationRevisionConflict pluginInstanceID expected actual).

(** A record a lookup returns: present and not deleted. *)
Definition live (s : MemoryStore) (key : string) : Result RegErr PluginRecord :=
  match st_records s !! key with
  | Some r => match pr_DeletedAt r with None => Ok r | Some _ => Err ErrNotFound end
  | None => Err ErrNotFound
  end.

Definition requireAuthorizationMutationLocked (s : MemoryStore) (key pluginInstanceID : string)
    (expected : AuthorizationRevisions) : Result RegErr PluginRecord :=
  let? r := live s key in
  let? _ := ensureAuthorizationRevisions pluginInstanceID expected r in
  Ok r.

(** ** The pure transitions the durable store applies *)

Definition EvaluateAuthorizationSnapshot (wall : time) (snapshot : AuthorizationSnapshot)
    (req : AuthorizeRequest) : Result RegErr AuthorizationDecision :=
  let? _ := ensureAuthorizationRevisions (pr_PluginInstanceID (sn_Plugin snapshot))
              (ar_Expected req) (sn_Plugin snapshot) in
  evaluateAuthorization wall (authorizationStateFromRecord (sn_Plugin snapshot))
    (sn_Grants snapshot) (sn_Policy snapshot) req.

Definition PrepareGrantPermission (wall : time) (snapshot : AuthorizationSnapshot)
    (req : GrantRequest) (expected : AuthorizationRevisions) : Result RegErr AuthorizationSnapshot :=
  let? _ := ensureAuthorizationRevisions (gr_PluginInstanceID req) expected (sn_Plugin snapshot) in
  let? grant := lift_err RegPermission (NewGrant wall req) in
  let same g := bool_decide (g_PermissionID g = g_PermissionID grant) in
  let replaced := (λ g, if same g then grant else g) <$> sn_Grants snapshot in
  let grants := if existsb same (sn_Grants snapshot) then replaced else replaced ++ [grant] in
  Ok (mkSnapshot (bump true false false (g_GrantedAt grant) (sn_Plugin snapshot)) grants
        (sn_Policy snapshot)).

(** The loop of [PrepareRevokePermission]: the first grant of the permission
    is replaced by its revocation, which also gives the new update time. *)
Fixpoint revokeFirst (wall : time) (req : RevokeRequest) (grants : list GrantRecord) :
    Result RegErr (list GrantRecord * time) :=
  match grants with
  | [] => Err (RegPermission ErrGrantNotFound)
  | current :: rest =>
     if negb (bool_decide (g_PermissionID current = TrimSpace (rr_PermissionID req)))
     then let? out := revokeFirst wall req rest in Ok (current :: out.1, out.2)
     else
       let? revoked := lift_err RegPermission (Revoke wall current req) in
       Ok (revoked :: rest, default 0%Z (g_RevokedAt revoked))
  end.

Definition PrepareRevokePermission (wall : time) (snapshot : AuthorizationSnapshot)
    (req : RevokeRequest) (expected : AuthorizationRevisions) : Result RegErr AuthorizationSnapshot :=
  let? _ := ensureAuthorizationRevisions (rr_PluginInstanceID req) expected (sn_Plugin snapshot) in
  let? out := revokeFirst wall req (sn_Grants snapshot) in
  Ok (mkSnapshot (bump true false true out.2 (sn_Plugin snapshot)) out.1 (sn_Policy snapshot)).

Definition PrepareSecurityPolicy (wall : time) (snapshot : AuthorizationSnapshot)
    (req : PutPolicyRequest) (expected : AuthorizationRevisions) : Result RegErr AuthorizationSnapshot :=
  let? _ := ensureAuthorizationRevisions (pp_PluginInstanceID req) expected (sn_Plugin snapshot) in
  let? policy := lift_err RegPolicy (NewPolicy wall req) in
  Ok (mkSnapshot (bump true false true (p_UpdatedAt policy) (sn_Plugin snapshot))
        (sn_Grants snapshot) (Some policy)).

Definition PrepareDeleteSecurityPolicy (wall : time) (snapshot : AuthorizationSnapshot)
    (pluginInstanceID : string) (now : time) (expected : AuthorizationRevisions) :
    Result RegErr AuthorizationSnapshot :=
  let? _ := lift_err RegPolicy (ValidatePolicyID pluginInstanceID) in
  let? _ := ensureAuthorizationRevisions pluginInstanceID expected (sn_Plugin snapshot) in
  Ok (mkSnapshot (bump true false true (or_wall wall now) (sn_Plugin snapshot))
        (sn_Grants snapshot) None).

Definition PrepareEnableState (wall : time) (r : PluginRecord) (state : EnableState)
    (reason : string) (now : time) : Result RegErr PluginRecord :=
  let? _ := ValidateEnableState state in
  let now := or_wall wall now in
  Ok (set_enable state reason (if bool_decide (state = EnableEnabled) then Some now else None)
        (bump false true true now r)).

(** ** The memory store *)

Context (cloneRest : Rest → option Rest).

Definition clonePluginRecord (r : PluginRecord) : Result RegErr PluginRecord :=
  match cloneRest (pr_Rest r) with
  | None => Err ErrCloneRecord
  | Some rest =>
     Ok (mkPlugin (pr_OwnerEnvHash r) (pr_PluginInstanceID r) (pr_PluginID r) (pr_Version r)
           (pr_ActiveFingerprint r) (pr_SourceKind r) (pr_ExecutionApproval r) (pr_EnableState r)
           (pr_DisabledReason r) (pr_Revisions r) (pr_InstalledAt r) (pr_EnabledAt r)
           (pr_UpdatedAt r) (pr_DeletedAt r) rest)
  end.

Definition authorizationSnapshotLocked (s : MemoryStore) (r : PluginRecord) :
    Result RegErr AuthorizationSnapshot :=
  let? plugin := clonePluginRecord r in
  let key := environmentRecordKey (pr_OwnerEnvHash r) (pr_PluginInstanceID r) in
  Ok (mkSnapshot plugin (clonePermissionRecordsFromMap (default ∅ (st_permissionGrants s !! key)))
        (ClonePolicy <$> st_securityPolicies s !! key)).

(** An operation that may write returns the new store with its result. *)
Definition fail {A} (s : MemoryStore) (e : RegErr) : MemoryStore * Result RegErr A := (s, Err e).

Notation "'try' x ':=' r 'on' s 'in' k" := (match r with Ok x => k | Err e => fail s e end)
  (at level 10, x name, r at level 100, s at level 100, k at level 200).

Definition put_record (s : MemoryStore) (key : string) (r : PluginRecord) : MemoryStore :=
  mkStore (<[key := r]> (st_records s)) (st_permissionGrants s) (st_securityPolicies s)
    (st_dataBindings s).

Definition GrantPermission (wall : time) (ctx : GoCtx) (s : MemoryStore) (req : GrantRequest)
    (expected : AuthorizationRevisions) : MemoryStore * Result RegErr AuthorizationSnapshot :=
  try ownerEnvHash := lift_err RegSession (environmentOwner ctx) on s in
  try grant := lift_err RegPermission (NewGrant wall req) on s in
  let key := environmentRecordKey ownerEnvHash (g_PluginInstanceID grant) in
  try record := requireAuthorizationMutationLocked s key (g_PluginInstanceID grant) expected on s in
  let grants := default ∅ (st_permissionGrants s !! key) in
  let record := bump true false false (g_GrantedAt grant) record in
  let s' := mkStore (<[key := record]> (st_records s))
              (<[key := <[g_PermissionID grant := CloneRecord grant]> grants]> (st_permissionGrants s))
              (st_securityPolicies s) (st_dataBindings s) in
  (s', authorizationSnapshotLocked s' record).

Definition RevokePermission (wall : time) (ctx : GoCtx) (s : MemoryStore) (req : RevokeRequest)
    (expected : AuthorizationRevisions) : MemoryStore * Result RegErr AuthorizationSnapshot :=
  try ownerEnvHash := lift_err RegSession (environmentOwner ctx) on s in
  try _u := lift_err RegPermission (ValidateRevokeRequest req) on s in
  let pluginInstanceID := TrimSpace (rr_PluginInstanceID req) in
  let key := environmentRecordKey ownerEnvHash pluginInstanceID in
  try record := requireAuthorizationMutationLocked s key pluginInstanceID expected on s in
  let grants := default ∅ (st_permissionGrants s !! key) in
  match grants !! TrimSpace (rr_PermissionID req) with
  | None => fail s (RegPermission ErrGrantNotFound)
  | Some existing =>
     try revoked := lift_err RegPermission (Revoke wall existing req) on s in
     let record := bump true false true (default 0%Z (g_RevokedAt revoked)) record in
     let s' := mkStore (<[key := record]> (st_records s))
                 (<[key := <[g_PermissionID revoked := CloneRecord revoked]> grants]>
                    (st_permissionGrants s))
                 (st_securityPolicies s) (st_dataBindings s) in
     (s', authorizationSnapshotLocked s' record)
  end.

Definition PutSecurityPolicy (wall : time) (ctx : GoCtx) (s : MemoryStore) (req : PutPolicyRequest)
    (expected : AuthorizationRevisions) : MemoryStore * Result RegErr AuthorizationSnapshot :=
  try ownerEnvHash := lift_err RegSession (environmentOwner ctx) on s in
  try policy := lift_err RegPolicy (NewPolicy wall req) on s in
  let key := environmentRecordKey ownerEnvHash (p_PluginInstanceID policy) in
  try record := requireAuthorizationMutationLocked s key (p_PluginInstanceID policy) expected on s in
  let record := bump true false true (p_UpdatedAt policy) record in
  let s' := mkStore (<[key := record]> (st_records s)) (st_permissionGrants s)
              (<[key := ClonePolicy policy]> (st_securityPolicies s)) (st_dataBindings s) in
  (s', authorizationSnapshotLocked s' record).

Definition DeleteSecurityPolicy (wall : time) (ctx : GoCtx) (s : MemoryStore)
    (pluginInstanceID : string) (now : time) (expected : AuthorizationRevisions) :
    MemoryStore * Result RegErr AuthorizationSnapshot :=
  try ownerEnvHash := lift_err RegSession (environmentOwner ctx) on s in
  try _u := lift_err RegPolicy (ValidatePolicyID pluginInstanceID) on s in
  let pluginInstanceID := TrimSpace pluginInstanceID in
  let now := or_wall wall now in
  let key := environmentRecordKey ownerEnvHash pluginInstanceID in
  try record := requireAuthorizationMutationLocked s key pluginInstanceID expected on s in
  let record := bump true false true now record in
  let s' := mkStore (<[key := record]> (st_records s)) (st_permissionGrants s)
              (delete key (st_securityPolicies s)) (st_dataBindings s) in
  (s', authorizationSnapshotLocked s' record).

Definition GetAuthorization (ctx : GoCtx) (s : MemoryStore) (pluginInstanceID : string) :
    Result RegErr AuthorizationSnapshot :=
  let? ownerEnvHash := lift_err RegSession (environmentOwner ctx) in
  let? record := live s (environmentRecordKey ownerEnvHash pluginInstanceID) in
  authorizationSnapshotLocked s record.

Definition Authorize (wall : time) (ctx : GoCtx) (s : MemoryStore) (req : AuthorizeRequest) :
    Result RegErr AuthorizationDecision :=
  let? ownerEnvHash := lift_err RegSession (environmentOwner ctx) in
  let pluginInstanceID := TrimSpace (ar_PluginInstanceID req) in
  let? _ := lift_err RegPolicy (ValidatePolicyEvaluationRequest
              (mkEvaluatePolicy pluginInstanceID (ar_Method req) (ar_PermissionIDs req))) in
  let key := environmentRecordKey ownerEnvHash pluginInstanceID in
  let? record := live s key in
  let? _ := ensureAuthorizationRevisions pluginInstanceID (ar_Expected req) record in
  let state := authorizationStateFromRecord record in
  let requiredPermissionIDs := NormalizePermissionIDs (ar_PermissionIDs req) in
  let grantsByPermissionID := default ∅ (st_permissionGrants s !! key) in
  let grants := CloneRecord <$> omap (λ id, grantsByPermissionID !! id) requiredPermissionIDs in
  let policy := ClonePolicy <$> st_securityPolicies s !! key in
  evaluateAuthorization wall state grants policy req.

Definition GetPlugin (ctx : GoCtx) (s : MemoryStore) (pluginInstanceID : string) :
    Result RegErr PluginRecord :=
  let? ownerEnvHash := lift_err RegSession (environmentOwner ctx) in
  let? record := live s (environmentRecordKey ownerEnvHash pluginInstanceID) in
  clonePluginRecord record.

Definition SetEnableState (wall : time) (ctx : GoCtx) (s : MemoryStore) (pluginInstanceID : string)
    (state : EnableState) (reason : string) (now : time) : MemoryStore * Result RegErr PluginRecord :=
  try _u := ValidateEnableState state on s in
  try ownerEnvHash := lift_err RegSession (environmentOwner ctx) on s in
  let key := environmentRecordKey ownerEnvHash pluginInstanceID in
  try record := live s key on s in
  try record := PrepareEnableState wall record state reason (or_wall wall now) on s in
  (put_record s key record, clonePluginRecord record).

Definition CommitUninstall (wall : time) (ctx : GoCtx) (s : MemoryStore)
    (req : CommitUninstallRequest) : MemoryStore * Result RegErr CommitUninstallResult :=
  try ownerEnvHash := lift_err RegSession (environmentOwner ctx) on s in
  let key := environmentRecordKey ownerEnvHash (cu_PluginInstanceID req) in
  try record := live s key on s in
  let actual := ManagementRevision (pr_Revisions record) in
  if (cu_ExpectedManagementRevision req =? 0)%Z ||
     negb (actual =? cu_ExpectedManagementRevision req)%Z
  then fail s (ManagementRevisionConflict (cu_PluginInstanceID req)
                 (cu_ExpectedManagementRevision req) actual)
  else
    let now := or_wall wall (cu_Now req) in
    let record := set_deleted now (bump false true true now record) in
    let bindings := match st_dataBindings s !! key with
                    | None => st_dataBindings s
                    | Some b =>
                       if cu_DeleteData req then delete key (st_dataBindings s)
                       else <[key := mkBinding (b_PluginInstanceID b) (b_GenerationID b)
                                BindingRetained (incr64 (b_Revision b)) (b_ShapeHash b)
                                (Some now) (cu_RetainUntil req)]> (st_dataBindings s)
                    end in
    (mkStore (<[key := record]> (st_records s)) (delete key (st_permissionGrants s))
       (delete key (st_securityPolicies s)) bindings,
     Ok (mkUninstalled (ManagementRevision (pr_Revisions record)) (RevokeEpoch (pr_Revisions record)) now)).

Definition AbortInstall (ctx : GoCtx) (s : MemoryStore) (pluginInstanceID : string) :
    MemoryStore * Result RegErr unit :=
  try ownerEnvHash := lift_err RegSession (environmentOwner ctx) on s in
  let key := environmentRecordKey ownerEnvHash pluginInstanceID in
  match st_records s !! key with
  | None => fail s ErrNotFound
  | Some _ =>
     (mkStore (delete key (st_records s)) (delete key (st_permissionGrants s))
        (delete key (st_securityPolicies s)) (delete key (st_dataBindings s)), Ok tt)
  end.

End store.
