(* ===== verification/RegistryProps.v ===== *)
(** * Properties of the authorization store

    The store invariant and its preservation, the optimistic-concurrency
    contract of the revision counters, the end-to-end effect of a revocation,
    isolation between environments, and the equality of the memory store's
    decision with the reference evaluation of a snapshot. *)

From S2P Require Import Prelude GoLib SessionCtx Permissions Policy Registry.

Open Scope go_scope.

Section registry.
Context {Rest : Type} (cloneRest : Rest → option Rest).
Local Notation store := (@MemoryStore Rest).
Implicit Types (s : store) (ctx : GoCtx) (key env : string).

(** A write of the authorization state, guarded by expected revisions. *)
Inductive AuthMutation :=
| MGrant (req : GrantRequest)
| MRevoke (req : RevokeRequest)
| MPutPolicy (req : PutPolicyRequest)
| MDeletePolicy (pluginInstanceID : string) (now : time).

Definition mutate (wall : time) ctx s (m : AuthMutation) (expected : AuthorizationRevisions) :
    store * Result RegErr AuthorizationSnapshot :=
  match m with
  | MGrant req => GrantPermission cloneRest wall ctx s req expected
  | MRevoke req => RevokePermission cloneRest wall ctx s req expected
  | MPutPolicy req => PutSecurityPolicy cloneRest wall ctx s req expected
  | MDeletePolicy pid now => DeleteSecurityPolicy cloneRest wall ctx s pid now expected
  end.

(** The plugin a mutation is about. *)
Definition target (m : AuthMutation) : string :=
  TrimSpace match m with
            | MGrant req => gr_PluginInstanceID req
            | MRevoke req => rr_PluginInstanceID req
            | MPutPolicy req => pp_PluginInstanceID req
            | MDeletePolicy pid _ => pid
            end.

(** ** Lemmas on the guards *)

Lemma environmentOwner_valid ctx env :
  environmentOwner ctx = Ok env → validOwnerHash env = true.
Proof.
  unfold environmentOwner, resourceOwner, Require_, FromContext.
  destruct (ctx_session ctx) as [c|]; [|done]. destruct (Context_Valid c) eqn:Hc; [|done].
  cbn [negb rbind]. rewrite Context_ResourceScope_env by done. cbn [rbind rs_OwnerEnvHash].
  intros [= <-]. unfold Context_Valid in Hc. rewrite !andb_true_iff in Hc. naive_solver.
Qed.

Lemma lift_err_ok {E A} (f : E → RegErr) (r : Result E A) a :
  lift_err f r = Ok a ↔ r = Ok a.
Proof. destruct r; simpl; naive_solver. Qed.

Lemma live_ok s key r :
  live s key = Ok r ↔ st_records s !! key = Some r ∧ pr_DeletedAt r = None.
Proof.
  unfold live. destruct (st_records s !! key) as [r'|]; [|naive_solver].
  destruct (pr_DeletedAt r') eqn:Hd; split.
  - done.
  - intros [[= ->] ?]. congruence.
  - by intros [= ->].
  - by intros [[= ->] _].
Qed.

Lemma ensure_ok pid e (r : @PluginRecord Rest) :
  ensureAuthorizationRevisions pid e r = Ok tt ↔
  pr_Revisions r = e ∧ PolicyRevision e ≠ 0%Z ∧ ManagementRevision e ≠ 0%Z.
Proof.
  unfold ensureAuthorizationRevisions, validateAuthorizationRevisions, AuthorizationRevisionsFromRecord.
  destruct (PolicyRevision e =? 0)%Z eqn:H1; [go_bools; naive_solver|].
  destruct (ManagementRevision e =? 0)%Z eqn:H2; [go_bools; naive_solver|].
  cbn [orb rbind]. go_bools. case_bool_decide; naive_solver.
Qed.

Lemma require_ok s key pid e r :
  requireAuthorizationMutationLocked s key pid e = Ok r ↔
  st_records s !! key = Some r ∧ pr_DeletedAt r = None ∧ pr_Revisions r = e ∧
  PolicyRevision e ≠ 0%Z ∧ ManagementRevision e ≠ 0%Z.
Proof.
  unfold requireAuthorizationMutationLocked. rewrite rbind_ok. split.
  - intros (r' & [Hlk Hd]%live_ok & Hr). apply rbind_ok in Hr as ([] & He%ensure_ok & [= ->]). naive_solver.
  - intros (Hlk & Hd & He). exists r. rewrite live_ok. split; [done|].
    apply rbind_ok. exists tt. by rewrite ensure_ok.
Qed.

Lemma NewGrant_ok wall req g :
  NewGrant wall req = Ok g →
  g_PluginInstanceID g = TrimSpace (gr_PluginInstanceID req) ∧
  g_PermissionID g = TrimSpace (gr_PermissionID req) ∧ g_PluginInstanceID g ≠ "" ∧
  g_PermissionID g ≠ "" ∧ ResourceScoped (g_PermissionID g) = false ∧
  g_Effect g = EffectGrant ∧ g_GrantedAt g = or_wall wall (gr_Now req).
Proof.
  unfold NewGrant, normalizeID. case_bool_decide; [done|]. case_bool_decide; [done|].
  destruct (ResourceScoped _) eqn:Hs; [done|]. cbn [orb]. intros [= <-]. naive_solver.
Qed.

Lemma NewPolicy_ok wall req p :
  NewPolicy wall req = Ok p →
  p_PluginInstanceID p = TrimSpace (pp_PluginInstanceID req) ∧ p_PluginInstanceID p ≠ "" ∧
  p_UpdatedAt p = or_wall wall (pp_Now req).
Proof.
  unfold NewPolicy, normalizePolicyID. case_bool_decide; [done|]. intros [= <-]. naive_solver.
Qed.

(** The key of a plugin determines its environment and its trimmed id. *)
Lemma environmentRecordKey_inj env env' pid pid' :
  validOwnerHash env = true → validOwnerHash env' = true →
  environmentRecordKey env pid = environmentRecordKey env' pid' →
  env = env' ∧ TrimSpace pid = TrimSpace pid'.
Proof.
  unfold environmentRecordKey. intros H1 H2 Heq.
  rewrite (validOwnerHash_trim env), (validOwnerHash_trim env') in Heq by done.
  apply nul_join_inj in Heq; auto with redev.
Qed.

Lemma environmentRecordKey_trim env pid :
  environmentRecordKey env (TrimSpace pid) = environmentRecordKey env pid.
Proof. unfold environmentRecordKey. by rewrite TrimSpace_idemp. Qed.

(** ** What a mutation does *)

(** The commit of a mutation: the live record of the plugin is the one the
    caller expected, its policy revision (and its revoke epoch, where the
    flag is set) is bumped, and nothing is written at another key. *)
Definition commits ctx s (m : AuthMutation) (e : AuthorizationRevisions) (revoke : bool) s' : Prop :=
  ∃ env r now,
    let key := environmentRecordKey env (target m) in
    environmentOwner ctx = Ok env ∧
    st_records s !! key = Some r ∧ pr_DeletedAt r = None ∧ pr_Revisions r = e ∧
    PolicyRevision e ≠ 0%Z ∧ ManagementRevision e ≠ 0%Z ∧
    st_records s' = <[key := bump true false revoke now r]> (st_records s) ∧
    (∀ k, k ≠ key → st_permissionGrants s' !! k = st_permissionGrants s !! k ∧
                    st_securityPolicies s' !! k = st_securityPolicies s !! k) ∧
    st_dataBindings s' = st_dataBindings s.

(** Whether the mutation withdraws authority. *)
Definition revoking (m : AuthMutation) : bool :=
  match m with MGrant _ => false | _ => true end.

(** The guards of a mutation, one after the other. *)
Ltac mutate_guards :=
  repeat match goal with
  | |- context [lift_err _ ?r] =>
     let E := fresh "Hg" in destruct r eqn:E; cbn [lift_err]; [|by left; split; eauto]
  | |- context [requireAuthorizationMutationLocked ?s ?k ?p ?e] =>
     let E := fresh "Hreq" in
     destruct (requireAuthorizationMutationLocked s k p e) as [?r|] eqn:E; [|by left; split; eauto];
     apply require_ok in E as (?&?&?&?&?)
  end.

Lemma mutate_cases wall ctx s m e :
  let out := mutate wall ctx s m e in
  (out.1 = s ∧ ∃ err, out.2 = Err err) ∨ commits ctx s m e (revoking m) out.1.
Proof.
  destruct m as [req|req|req|pid now]; cbn [mutate revoking target];
    unfold GrantPermission, RevokePermission, PutSecurityPolicy, DeleteSecurityPolicy, fail;
    mutate_guards.
  - right. apply NewGrant_ok in Hg0 as (Hp & _). cbn [fst]. rewrite Hp in *.
    eexists _, r, _. repeat split; try done; by intros; cbn; rewrite ?lookup_insert_ne.
  - destruct (default ∅ _ !! _) as [g|]; [|by left; eauto].
    mutate_guards. right. cbn [fst]. eexists _, r, _.
    repeat split; try done; by intros; cbn; rewrite ?lookup_insert_ne.
  - right. apply NewPolicy_ok in Hg0 as (Hp & _). cbn [fst]. rewrite Hp in *.
    eexists _, r, _. repeat split; try done; by intros; cbn; rewrite ?lookup_insert_ne.
  - right. cbn [fst]. eexists _, r, _.
    repeat split; try done; by intros; cbn; rewrite ?lookup_delete_ne.
Qed.

Lemma mutate_ok wall ctx s m e s' snap :
  mutate wall ctx s m e = (s', Ok snap) → commits ctx s m e (revoking m) s'.
Proof.
  intros Hm. pose proof (mutate_cases wall ctx s m e) as H. rewrite Hm in H. cbn [fst snd] in H.
  destruct H as [[_ [? ?]]|?]; [done|done].
Qed.

(** Every record's counters are 64-bit values. *)
Definition revisions_in_range (v : AuthorizationRevisions) : Prop :=
  (0 ≤ PolicyRevision v ≤ uint64_max)%Z ∧ (0 ≤ ManagementRevision v ≤ uint64_max)%Z ∧
  (0 ≤ RevokeEpoch v ≤ uint64_max)%Z.

Lemma bump_policy_neq management revoke now (r : @PluginRecord Rest) :
  revisions_in_range (pr_Revisions r) →
  pr_Revisions (bump true management revoke now r) ≠ pr_Revisions r.
Proof.
  intros [Hp _] Heq. apply (f_equal PolicyRevision) in Heq. cbn in Heq. by apply incr64_neq in Heq.
Qed.

(** C10: the revision counters make authorization writes optimistic: of two
    writes (grant, revoke, put or delete policy) of one plugin that expect
    the same revisions, at most one commits. After the first succeeds the
    second changes nothing and fails, and a decision requested with the old
    revisions is refused as a conflict that reports the new ones. *)
Theorem no_lost_authorization_update wall1 wall2 ctx s m1 m2 e s1 snap :
  (∀ key r, st_records s !! key = Some r → revisions_in_range (pr_Revisions r)) →
  target m1 = target m2 →
  mutate wall1 ctx s m1 e = (s1, Ok snap) →
  (∃ err, mutate wall2 ctx s1 m2 e = (s1, Err err)) ∧
  ∀ wall method ids now, TrimSpace method ≠ "" → target m1 ≠ "" →
    ∃ actual, actual ≠ e ∧
      Authorize wall ctx s1 (mkAuthorize (target m1) method ids e now) =
        Err (AuthorizationRevisionConflict (target m1) e actual).
Proof.
  intros Hrange Htgt (env & r & now1 & He & Hr & Hd & Hrev & Hp & Hmg & Hrecs & _)%mutate_ok.
  pose proof (bump_policy_neq false (revoking m1) now1 r (Hrange _ _ Hr)) as Hne.
  set (r1 := bump true false (revoking m1) now1 r) in *. split.
  - pose proof (mutate_cases wall2 ctx s1 m2 e) as [[Hs (err & Herr)]|Hc].
    + exists err. destruct (mutate wall2 ctx s1 m2 e); cbn in *; congruence.
    + exfalso. destruct Hc as (env' & r' & ? & He' & Hr' & _ & Hrev' & _).
      rewrite He in He'. injection He' as <-. rewrite <- Htgt, Hrecs, lookup_insert_eq in Hr'.
      injection Hr' as <-. congruence.
  - intros wall method ids now Hmeth Hpid. exists (pr_Revisions r1). split; [congruence|].
    unfold Authorize. rewrite He. cbn [lift_err rbind ar_PluginInstanceID ar_Method ar_PermissionIDs ar_Expected].
    assert (TrimSpace (target m1) = target m1) as Ht by apply TrimSpace_idemp.
    unfold ValidatePolicyEvaluationRequest, normalizePolicyID.
    cbn [ep_PluginInstanceID ep_Method]. rewrite !Ht.
    rewrite !bool_decide_eq_false_2 by done. cbn [orb lift_err rbind].
    assert (live s1 (environmentRecordKey env (target m1)) = Ok r1) as ->.
    { apply live_ok. rewrite Hrecs, lookup_insert_eq. done. }
    cbn [rbind]. unfold ensureAuthorizationRevisions, validateAuthorizationRevisions,
      AuthorizationRevisionsFromRecord.
    rewrite (proj2 (Z.eqb_neq _ _) Hp), (proj2 (Z.eqb_neq _ _) Hmg). cbn [orb rbind].
    rewrite bool_decide_eq_false_2 by congruence. done.
Qed.

(** ** The store invariant *)

Record store_wf s : Prop := {
  wf_records : ∀ key r, st_records s !! key = Some r →
    validOwnerHash (pr_OwnerEnvHash r) = true ∧ TrimSpace (pr_PluginInstanceID r) ≠ "" ∧
    key = environmentRecordKey (pr_OwnerEnvHash r) (pr_PluginInstanceID r) ∧
    revisions_in_range (pr_Revisions r);
  wf_grants : ∀ key gs id g, st_permissionGrants s !! key = Some gs → gs !! id = Some g →
    g_PermissionID g = id ∧ TrimSpace id = id ∧ ResourceScoped id = false ∧
    is_ok (ValidateRecord g) = true ∧
    ∃ env, validOwnerHash env = true ∧ key = environmentRecordKey env (g_PluginInstanceID g);
  wf_policies : ∀ key p, st_securityPolicies s !! key = Some p →
    is_ok (ValidatePolicy p) = true ∧
    ∃ env, validOwnerHash env = true ∧ key = environmentRecordKey env (p_PluginInstanceID p);
}.

Lemma bump_range policy management revoke now (r : @PluginRecord Rest) :
  revisions_in_range (pr_Revisions r) →
  revisions_in_range (pr_Revisions (bump policy management revoke now r)).
Proof.
  intros (?&?&?). unfold revisions_in_range, bump, incr64. cbn.
  repeat split; case_match; try apply u64_range; lia.
Qed.

Lemma NewGrant_valid wall req g :
  wall ≠ 0%Z → NewGrant wall req = Ok g → is_ok (ValidateRecord g) = true.
Proof.
  intros Hw (Hp & Hid & Hpne & Hidne & _ & Heff & Hat)%NewGrant_ok.
  unfold ValidateRecord, NormalizeRecord, normalizeID, UTC.
  cbn [g_PluginInstanceID g_PermissionID g_Effect g_GrantedAt].
  rewrite Hp, Hid, !TrimSpace_idemp. rewrite <- Hp, <- Hid.
  rewrite !bool_decide_eq_false_2 by done. rewrite Heff, Hat.
  assert (IsZero (or_wall wall (gr_Now req)) = false) as Hz.
  { apply Z.eqb_neq. auto with redev. }
  by rewrite !Hz.
Qed.

Lemma NewPolicy_valid wall req p :
  wall ≠ 0%Z → NewPolicy wall req = Ok p → is_ok (ValidatePolicy p) = true.
Proof.
  intros Hw (Hp & Hpne & Hat)%NewPolicy_ok.
  unfold ValidatePolicy, NormalizePolicy, normalizePolicyID, UTC. cbn [p_PluginInstanceID p_UpdatedAt].
  rewrite Hp, TrimSpace_idemp, <- Hp, bool_decide_eq_false_2 by done. rewrite Hat.
  assert (IsZero (or_wall wall (pp_Now req)) = false) as Hz by (apply Z.eqb_neq; auto with redev).
  by rewrite !Hz.
Qed.

Section wf_updates.
Context s (Hwf : store_wf s).

Lemma wf_put_record key r r' :
  st_records s !! key = Some r →
  pr_OwnerEnvHash r' = pr_OwnerEnvHash r → pr_PluginInstanceID r' = pr_PluginInstanceID r →
  revisions_in_range (pr_Revisions r') →
  ∀ k v, <[key := r']> (st_records s) !! k = Some v →
    validOwnerHash (pr_OwnerEnvHash v) = true ∧ TrimSpace (pr_PluginInstanceID v) ≠ "" ∧
    k = environmentRecordKey (pr_OwnerEnvHash v) (pr_PluginInstanceID v) ∧
    revisions_in_range (pr_Revisions v).
Proof using Hwf.
  intros Hr Ho Hp Hrange k v [[<- <-]|[_ Hk]]%lookup_insert_Some; [|by eapply wf_records].
  rewrite Ho, Hp. destruct (wf_records _ Hwf _ _ Hr) as (?&?&?&_). done.
Qed.

Lemma wf_grants_of key id g :
  default ∅ (st_permissionGrants s !! key) !! id = Some g →
  g_PermissionID g = id ∧ TrimSpace id = id ∧ ResourceScoped id = false ∧
  is_ok (ValidateRecord g) = true ∧
  ∃ env, validOwnerHash env = true ∧ key = environmentRecordKey env (g_PluginInstanceID g).
Proof using Hwf.
  destruct (st_permissionGrants s !! key) as [gs|] eqn:Hgs; cbn; [|by rewrite lookup_empty].
  intros Hg. by eapply wf_grants.
Qed.

Lemma wf_insert_grant key id0 g0 :
  g_PermissionID g0 = id0 → TrimSpace id0 = id0 → ResourceScoped id0 = false →
  is_ok (ValidateRecord g0) = true →
  (∃ env, validOwnerHash env = true ∧ key = environmentRecordKey env (g_PluginInstanceID g0)) →
  ∀ k gs id g,
    <[key := <[id0 := g0]> (default ∅ (st_permissionGrants s !! key))]> (st_permissionGrants s) !! k
      = Some gs → gs !! id = Some g →
    g_PermissionID g = id ∧ TrimSpace id = id ∧ ResourceScoped id = false ∧
    is_ok (ValidateRecord g) = true ∧
    ∃ env, validOwnerHash env = true ∧ k = environmentRecordKey env (g_PluginInstanceID g).
Proof using Hwf.
  intros ? ? ? ? ? k gs id g [[<- <-]|[_ Hk]]%lookup_insert_Some Hg; [|by eapply wf_grants].
  apply lookup_insert_Some in Hg as [[<- <-]|[_ Hg]]; [done|]. by apply wf_grants_of.
Qed.

End wf_updates.

(** ** Every operation preserves the invariant *)

(** The writes of the store. *)
Inductive RegOp :=
| OpMutate (m : AuthMutation) (expected : AuthorizationRevisions)
| OpEnable (pluginInstanceID : string) (state : EnableState) (reason : string) (now : time)
| OpUninstall (req : CommitUninstallRequest)
| OpAbort (pluginInstanceID : string).

Definition run_op (wall : time) ctx s (op : RegOp) : store :=
  match op with
  | OpMutate m e => (mutate wall ctx s m e).1
  | OpEnable pid state reason now => (SetEnableState cloneRest wall ctx s pid state reason now).1
  | OpUninstall req => (CommitUninstall wall ctx s req).1
  | OpAbort pid => (AbortInstall ctx s pid).1
  end.

(** Split the guards of an operation; a failed one leaves the store. *)
Ltac op_guards :=
  repeat match goal with
  | |- context [lift_err _ ?r] => let E := fresh "Hg" in destruct r eqn:E; cbn [lift_err fail fst]; [|done]
  | |- context [requireAuthorizationMutationLocked ?s ?k ?p ?e] =>
     let E := fresh "Hreq" in
     destruct (requireAuthorizationMutationLocked s k p e) as [?r|] eqn:E; cbn [fail fst]; [|done];
     apply require_ok in E as (?&?&?&?&?)
  | |- context [live ?s ?k] =>
     let E := fresh "Hlive" in
     destruct (live s k) as [?r|] eqn:E; cbn [fail fst]; [|done]; apply live_ok in E as [? ?]
  | |- context [ValidateEnableState ?st] =>
     let E := fresh "Hst" in destruct (ValidateEnableState st) eqn:E; cbn [fail fst]; [|done]
  end.

Lemma mutate_wf wall ctx s m e :
  wall ≠ 0%Z → store_wf s → store_wf (mutate wall ctx s m e).1.
Proof.
  intros Hw Hwf. destruct m as [req|req|req|pid now]; cbn [mutate];
    unfold GrantPermission, RevokePermission, PutSecurityPolicy, DeleteSecurityPolicy,
      CloneRecord, ClonePolicy; op_guards.
  - rename a into env, a0 into g. pose proof (NewGrant_ok _ _ _ Hg0) as (Hp & Hid & _ & _ & Hrs & _).
    split; cbn; [eapply wf_put_record; eauto using bump_range| |by apply wf_policies].
    { apply bump_range. by eapply wf_records. }
    apply wf_insert_grant; eauto using NewGrant_valid, environmentOwner_valid.
    rewrite Hid. apply TrimSpace_idemp.
  - rename a into env. destruct (default ∅ _ !! _) as [g|] eqn:Hgr; [|done]. op_guards.
    apply Revoke_facts in Hg1 as (_ & Hp & Hid & Hv & Hpg). unfold normalizeID in *.
    apply wf_grants_of in Hgr as (_ & Ht & Hrs & _); [|done].
    split; cbn; [eapply wf_put_record; eauto| |by apply wf_policies].
    { apply bump_range. by eapply wf_records. }
    rewrite Hid. apply wf_insert_grant; try done.
    exists env. split; [by eapply environmentOwner_valid|]. by rewrite Hp.
  - rename a into env, a0 into pol. pose proof (NewPolicy_ok _ _ _ Hg0) as (Hp & _).
    split; cbn; [eapply wf_put_record; eauto|by apply wf_grants|].
    { apply bump_range. by eapply wf_records. }
    intros k p [[<- <-]|[_ Hk]]%lookup_insert_Some; [|by eapply wf_policies].
    split; [exact (NewPolicy_valid _ _ _ Hw Hg0)|]. eauto using environmentOwner_valid.
  - split; cbn; [eapply wf_put_record; eauto|by apply wf_grants|].
    { apply bump_range. by eapply wf_records. }
    intros k p [_ Hk]%lookup_delete_Some. by eapply wf_policies.
Qed.


(** environments are isolated: no write made in the context of one
    environment changes the record, the grants, the policy or the data
    binding of a plugin of another environment. *)
Theorem environments_isolated wall ctx s op env env' pid' :
  environmentOwner ctx = Ok env → validOwnerHash env' = true → env' ≠ env →
  let key' := environmentRecordKey env' pid' in
  st_records (run_op wall ctx s op) !! key' = st_records s !! key' ∧
  st_permissionGrants (run_op wall ctx s op) !! key' = st_permissionGrants s !! key' ∧
  st_securityPolicies (run_op wall ctx s op) !! key' = st_securityPolicies s !! key' ∧
  st_dataBindings (run_op wall ctx s op) !! key' = st_dataBindings s !! key'.
Proof.
  intros He He' Hne key'.
  assert (∀ pid, environmentRecordKey env pid ≠ key') as Hk.
  { intros pid Heq. apply environmentRecordKey_inj in Heq as [-> _]; eauto using environmentOwner_valid. }
  destruct op as [m e|pid state reason now|req|pid]; cbn [run_op].
  - destruct (mutate_cases wall ctx s m e) as [[-> _]|(env0 & r & now & He0 & _ & _ & _ & _ & _ & Hr & Hgp & Hb)];
      [done|]. rewrite He in He0. injection He0 as <-. rewrite Hr, Hb, lookup_insert_ne by done.
    split; [done|]. destruct (Hgp key') as [-> ->]; done.
  - unfold SetEnableState. rewrite He; cbn [lift_err]; op_guards. unfold PrepareEnableState. rewrite Hst.
    cbn. by rewrite lookup_insert_ne.
  - unfold CommitUninstall. rewrite He; cbn [lift_err]; op_guards. case_match; cbn [fst]; [done|]. cbn.
    rewrite lookup_insert_ne, !lookup_delete_ne by done. repeat split; try done.
    repeat case_match; rewrite ?lookup_delete_ne, ?lookup_insert_ne by done; done.
  - unfold AbortInstall. rewrite He; cbn [lift_err]; op_guards. case_match; cbn [fst]; [|done]. cbn.
    by rewrite !lookup_delete_ne.
Qed.

(** ** The decision *)

(** The store holds an active grant of the permission for the key. *)
Definition granted_at s key (wall now : time) (id : string) : Prop :=
  ∃ g, default ∅ (st_permissionGrants s !! key) !! id = Some g ∧ Active wall g now = true.

(** The policy at the key, if any, lets the call through. *)
Definition policy_admits s key (method : string) (ids : list string) : Prop :=
  match st_securityPolicies s !! key with
  | None => True
  | Some p =>
     TrimSpace method ∉ normalizePolicyValues (p_DeniedMethods p) ∧
     ∀ id, id ∈ normalizePolicyValues ids → permits p id
  end.

Section decision.
Context s (Hwf : store_wf s) env (pid : string) (Henv : validOwnerHash env = true).
Context (Hpid : TrimSpace pid ≠ "").
Local Notation key := (environmentRecordKey env pid).

Lemma grant_at_key_ok id g :
  default ∅ (st_permissionGrants s !! key) !! id = Some g →
  grant_ok (TrimSpace pid) g ∧ normalizeID (g_PermissionID g) = id.
Proof using Hwf Henv.
  intros (Hid & Ht & _ & Hv & env' & He' & Hk)%wf_grants_of; [|done].
  apply environmentRecordKey_inj in Hk as [_ Hp]; [|done..].
  unfold grant_ok, normalizeID. rewrite Hid. done.
Qed.

(** The grants of the key for some ids, as a list. *)
Lemma grants_omap_wf ids :
  NoDup ids →
  grants_wf (TrimSpace pid) (omap (λ id, default ∅ (st_permissionGrants s !! key) !! id) ids).
Proof using Hwf Henv.
  induction 1 as [|id ids Hid Hnd [IHa IHn]]; cbn; [split; cbn; constructor|].
  destruct (default ∅ (st_permissionGrants s !! key) !! id) as [g|] eqn:Hg; [|by split].
  destruct (grant_at_key_ok _ _ Hg) as [Hok Hperm]. split; [by constructor|].
  cbn [fmap list_fmap]. constructor; [|done].
  rewrite Hperm. intros (g' & Heq & (id' & Hin & Hlk)%list_elem_of_omap)%list_elem_of_fmap.
  destruct (grant_at_key_ok _ _ Hlk) as [_ Hperm']. congruence.
Qed.

(** What the listed grants cover is what the store grants. *)
Lemma granted_omap_iff wall now (ids : list string) id :
  id ∈ ids →
  (∃ g, g ∈ omap (λ id, default ∅ (st_permissionGrants s !! key) !! id) ids ∧
        normalizeID (g_PermissionID g) = id ∧ Active wall g now = true) ↔
  granted_at s key wall now id.
Proof using Hwf Henv.
  intros Hid. split.
  - intros (g & (id' & _ & Hlk)%list_elem_of_omap & Hperm & Hact).
    destruct (grant_at_key_ok _ _ Hlk) as [_ Hperm'].
    exists g. rewrite <- Hperm, Hperm'. done.
  - intros (g & Hlk & Hact). destruct (grant_at_key_ok _ _ Hlk) as [_ Hperm].
    exists g. split; [|done]. apply list_elem_of_omap. eauto.
Qed.

(** The full sorted list of the grants of the key. *)
Lemma clonePermissionRecords_elem_of (m : gmap string GrantRecord) g :
  g ∈ clonePermissionRecordsFromMap m ↔ ∃ id, m !! id = Some g.
Proof.
  unfold clonePermissionRecordsFromMap, CloneRecord. rewrite merge_sort_elem_of, list_fmap_id.
  rewrite list_elem_of_fmap. split.
  - intros ([id g'] & -> & Hin%elem_of_map_to_list). eauto.
  - intros (id & Hlk). exists (id, g). by rewrite elem_of_map_to_list.
Qed.

Lemma grants_all_wf :
  grants_wf (TrimSpace pid)
    (clonePermissionRecordsFromMap (default ∅ (st_permissionGrants s !! key))).
Proof using Hwf Henv.
  split.
  - apply Forall_forall. intros g (id & Hlk)%clonePermissionRecords_elem_of.
    by destruct (grant_at_key_ok _ _ Hlk).
  - unfold clonePermissionRecordsFromMap, CloneRecord. rewrite list_fmap_id, merge_sort_Permutation.
    set (m := default ∅ (st_permissionGrants s !! key)).
    assert ((λ g, normalizeID (g_PermissionID g)) <$> (map_to_list m).*2 = (map_to_list m).*1) as ->.
    { rewrite <- list_fmap_compose. apply list_fmap_ext. intros i [id g] Hi.
      apply list_elem_of_lookup_2, elem_of_map_to_list in Hi. cbn.
      by destruct (grant_at_key_ok _ _ Hi). }
    apply NoDup_fst_map_to_list.
Qed.

Lemma granted_all_iff wall now id :
  (∃ g, g ∈ clonePermissionRecordsFromMap (default ∅ (st_permissionGrants s !! key)) ∧
        normalizeID (g_PermissionID g) = id ∧ Active wall g now = true) ↔
  granted_at s key wall now id.
Proof using Hwf Henv.
  split.
  - intros (g & (id' & Hlk)%clonePermissionRecords_elem_of & Hperm & Hact).
    destruct (grant_at_key_ok _ _ Hlk) as [_ Hperm'].
    exists g. rewrite <- Hperm, Hperm'. done.
  - intros (g & Hlk & Hact). destruct (grant_at_key_ok _ _ Hlk) as [_ Hperm].
    exists g. split; [|done]. apply clonePermissionRecords_elem_of. eauto.
Qed.

Lemma policy_at_key_wf p :
  st_securityPolicies s !! key = Some p → policy_wf (TrimSpace pid) p.
Proof using Hwf Henv.
  intros (Hv & env' & He' & Hk)%wf_policies; [|done].
  apply environmentRecordKey_inj in Hk as [_ Hp]; [|done..]. by split.
Qed.

Lemma policy_at_key_decides method ids :
  TrimSpace method ≠ "" →
  ∃ ev, EvaluatePolicy (st_securityPolicies s !! key) (mkEvaluatePolicy pid method ids) = Ok ev ∧
    (pe_Allowed ev = true ↔ policy_admits s key method ids).
Proof using Hwf Henv Hpid.
  intros Hm. unfold policy_admits. destruct (st_securityPolicies s !! key) as [p|] eqn:Hp.
  - destruct (EvaluatePolicy_spec p (mkEvaluatePolicy pid method ids)) as (ev & He & Ha & _);
      [done..|by apply policy_at_key_wf|]. eauto.
  - exists policyAllowed. split; [|done]. unfold EvaluatePolicy, ValidatePolicyEvaluationRequest.
    cbn [ep_PluginInstanceID ep_Method]. unfold normalizePolicyID. by rewrite !bool_decide_eq_false_2.
Qed.

End decision.

Lemma elem_of_MethodGrantIDs ids id :
  id ∈ MethodGrantIDs ids ↔ id ∈ NormalizePermissionIDs ids ∧ ResourceScoped id = false.
Proof.
  unfold MethodGrantIDs. rewrite list_elem_of_In, filter_In, <- list_elem_of_In, negb_true_iff. done.
Qed.

(** The live record at a key is the record of the plugin. *)
Lemma live_plugin s env pid r :
  store_wf s → validOwnerHash env = true → live s (environmentRecordKey env pid) = Ok r →
  TrimSpace (pr_PluginInstanceID r) = TrimSpace pid ∧ TrimSpace pid ≠ "".
Proof.
  intros Hwf Henv [Hr _]%live_ok. destruct (wf_records _ Hwf _ _ Hr) as (Ho & Hne & Hk & _).
  apply environmentRecordKey_inj in Hk as [_ Hp]; [|done..]. by rewrite Hp.
Qed.

Lemma Evaluate_norm_pid wall grants a b ids now :
  normalizeID a = normalizeID b →
  Evaluate wall grants (mkCheckRequest a ids now) = Evaluate wall grants (mkCheckRequest b ids now).
Proof. intros Hab. unfold Evaluate. cbn [cr_PluginInstanceID cr_PermissionIDs cr_Now]. by rewrite Hab. Qed.

Lemma EvaluatePolicy_norm_pid policy a b method ids :
  normalizePolicyID a = normalizePolicyID b →
  EvaluatePolicy policy (mkEvaluatePolicy a method ids) =
  EvaluatePolicy policy (mkEvaluatePolicy b method ids).
Proof.
  intros Hab. unfold EvaluatePolicy, ValidatePolicyEvaluationRequest, EvaluatePermissionCeiling.
  cbn [ep_PluginInstanceID ep_Method ep_RequiredPermissions]. by rewrite Hab.
Qed.

(** The decision of [Authorize] at the current revisions. *)
Lemma Authorize_decides wall ctx s env r req :
  wall ≠ 0%Z → store_wf s → environmentOwner ctx = Ok env →
  live s (environmentRecordKey env (ar_PluginInstanceID req)) = Ok r →
  ensureAuthorizationRevisions (TrimSpace (ar_PluginInstanceID req)) (ar_Expected req) r = Ok tt →
  TrimSpace (ar_Method req) ≠ "" →
  let key := environmentRecordKey env (ar_PluginInstanceID req) in
  ∃ d, Authorize wall ctx s req = Ok d ∧ ad_State d = authorizationStateFromRecord r ∧
    (ad_Allowed d = true ↔
       policy_admits s key (ar_Method req) (ar_PermissionIDs req) ∧
       ∀ id, id ∈ MethodGrantIDs (ar_PermissionIDs req) → granted_at s key wall (ar_Now req) id) ∧
    ∀ id, id ∈ ad_MissingPermissions d ↔
      id ∈ MethodGrantIDs (ar_PermissionIDs req) ∧ ¬ granted_at s key wall (ar_Now req) id.
Proof.
  intros Hw Hwf He Hlive Hens Hm key. pose proof (environmentOwner_valid _ _ He) as Henv.
  destruct (live_plugin _ _ _ _ Hwf Henv Hlive) as [Hp Hpne].
  unfold Authorize. rewrite He. cbn [lift_err rbind]. rewrite environmentRecordKey_trim, Hlive.
  unfold ValidatePolicyEvaluationRequest, normalizePolicyID. cbn [ep_PluginInstanceID ep_Method].
  rewrite TrimSpace_idemp, !bool_decide_eq_false_2 by done. cbn [orb lift_err rbind].
  rewrite Hens. cbn [rbind]. unfold evaluateAuthorization, evaluateAuthorizationDecision.
  cbn [authorizationStateFromRecord as_PluginInstanceID]. fold key.
  rewrite (EvaluatePolicy_norm_pid _ _ (ar_PluginInstanceID req)) by done.
  rewrite option_fmap_id.
  destruct (policy_at_key_decides s Hwf env (ar_PluginInstanceID req) Henv Hpne (ar_Method req)
    (ar_PermissionIDs req) Hm) as (ev & Hev & Hadm). fold key in Hev, Hadm. rewrite Hev.
  cbn [lift_err rbind]. unfold CloneRecord. rewrite list_fmap_id.
  set (grants := omap _ _). set (q := mkCheckRequest _ _ _).
  assert (grants_wf (normalizeID (cr_PluginInstanceID q)) grants) as Hgwf.
  { cbn. unfold normalizeID. rewrite Hp.
    apply grants_omap_wf; [done..|apply NormalizePermissionIDs_NoDup]. }
  destruct (Evaluate_total wall grants q) as [missing Hmiss]; [cbn; unfold normalizeID; by rewrite Hp|done|].
  rewrite Hmiss. cbn [lift_err rbind fst snd].
  eapply Evaluate_granted_iff in Hmiss as [_ Hmiss]; [|done|cbn; unfold normalizeID; by rewrite Hp|done].
  cbn [cr_PermissionIDs cr_Now q] in Hmiss. unfold MethodGrantIDs in Hmiss at 1.
  rewrite NormalizePermissionIDs_filter in Hmiss. fold (MethodGrantIDs (ar_PermissionIDs req)) in Hmiss.
  eexists. split; [done|]. cbn [ad_State ad_Allowed ad_MissingPermissions]. split; [done|].
  assert (∀ id, id ∈ missing ↔ id ∈ MethodGrantIDs (ar_PermissionIDs req) ∧
    ¬ granted_at s key wall (ar_Now req) id) as Hm'.
  { intros id. rewrite Hmiss. split; intros [Hin Hn]; (split; [done|]); pose proof Hin as Hin';
      apply elem_of_MethodGrantIDs in Hin' as [Hin' _]; intros Hg; apply Hn;
      by apply (granted_omap_iff s Hwf _ _ Henv wall (ar_Now req) _ id Hin'). }
  split; [|done]. rewrite andb_true_iff, Hadm, bool_decide_eq_true. apply and_iff_compat_l. split.
  - intros Hnil id Hid.
    destruct (default ∅ (st_permissionGrants s !! key) !! id) as [g|] eqn:Hg;
      [destruct (Active wall g (ar_Now req)) eqn:Hact; [by exists g|]|];
      exfalso; apply (not_elem_of_nil id); rewrite <- Hnil; apply Hm'; (split; [done|]);
      intros (g' & ? & ?); congruence.
  - intros Hall. destruct missing as [|id rest]; [done|]. exfalso.
    destruct (proj1 (Hm' id)) as [Hin Hn]; [by left|]. by apply Hn, Hall.
Qed.

(** C1: the authorization decision is exact. In a well-formed store, for a
    live plugin of the caller's environment at its current revisions,
    [Authorize] returns a decision; it allows the call exactly when the
    policy admits the method and all required permissions and every required
    permission that is not resource-scoped has an active grant, and the
    permissions it reports missing are exactly those without one. *)
Theorem authorization_decision_exact wall ctx s env r req :
  wall ≠ 0%Z → store_wf s → environmentOwner ctx = Ok env →
  live s (environmentRecordKey env (ar_PluginInstanceID req)) = Ok r →
  ensureAuthorizationRevisions (TrimSpace (ar_PluginInstanceID req)) (ar_Expected req) r = Ok tt →
  TrimSpace (ar_Method req) ≠ "" →
  let key := environmentRecordKey env (ar_PluginInstanceID req) in
  ∃ d, Authorize wall ctx s req = Ok d ∧ ad_State d = authorizationStateFromRecord r ∧
    (ad_Allowed d = true ↔
       policy_admits s key (ar_Method req) (ar_PermissionIDs req) ∧
       ∀ id, id ∈ MethodGrantIDs (ar_PermissionIDs req) → granted_at s key wall (ar_Now req) id) ∧
    ∀ id, id ∈ ad_MissingPermissions d ↔
      id ∈ MethodGrantIDs (ar_PermissionIDs req) ∧ ¬ granted_at s key wall (ar_Now req) id.
Proof. apply Authorize_decides. Qed.

(** What a successful revocation leaves in the store. *)
Lemma RevokePermission_effect wall ctx s req e s' snap env :
  store_wf s → environmentOwner ctx = Ok env →
  RevokePermission cloneRest wall ctx s req e = (s', Ok snap) →
  let key := environmentRecordKey env (rr_PluginInstanceID req) in
  ResourceScoped (TrimSpace (rr_PermissionID req)) = false ∧
  (∃ r', live s' key = Ok r') ∧
  ∀ wall' now, ¬ granted_at s' key wall' now (TrimSpace (rr_PermissionID req)).
Proof.
  intros Hwf He Hrun key.
  unfold RevokePermission in Hrun. rewrite He in Hrun. cbn [lift_err] in Hrun.
  destruct (ValidateRevokeRequest req); [|done]. cbn [lift_err] in Hrun.
  rewrite environmentRecordKey_trim in Hrun. fold key in Hrun.
  destruct (requireAuthorizationMutationLocked _ _ _ _) as [r|] eqn:Hreq; [|done].
  apply require_ok in Hreq as (Hr & Hd & _).
  destruct (default ∅ _ !! _) as [g|] eqn:Hg; [|done].
  apply wf_grants_of in Hg as (_ & _ & Hrs & _); [|done].
  destruct (Revoke wall g req) as [g'|] eqn:Hrev; [|done]. cbn [lift_err] in Hrun.
  apply Revoke_facts in Hrev as (Hinact & _ & Hid & _). unfold normalizeID in Hid.
  injection Hrun as <- _. split; [done|]. split.
  - eexists. apply live_ok. cbn. by rewrite lookup_insert_eq.
  - intros wall' now (g0 & Hlk & Hact). cbn in Hlk. rewrite lookup_insert_eq in Hlk. cbn in Hlk.
    rewrite Hid, lookup_insert_eq in Hlk. injection Hlk as <-. unfold CloneRecord in Hact. congruence.
Qed.

(** C2: a revocation takes effect end to end: after [RevokePermission]
    succeeds, every decision that requires the permission, asked at the new
    revisions and at whatever time, is a denial that reports the permission
    missing. *)
Theorem revoked_permission_denied wall ctx s req e s' snap env :
  wall ≠ 0%Z → store_wf s → environmentOwner ctx = Ok env →
  RevokePermission cloneRest wall ctx s req e = (s', Ok snap) →
  ∃ r', live s' (environmentRecordKey env (rr_PluginInstanceID req)) = Ok r' ∧
  ∀ wall' method ids now,
    wall' ≠ 0%Z → TrimSpace method ≠ "" →
    TrimSpace (rr_PermissionID req) ∈ NormalizePermissionIDs ids →
    ensureAuthorizationRevisions (TrimSpace (rr_PluginInstanceID req)) (pr_Revisions r') r' = Ok tt →
    ∃ d, Authorize wall' ctx s' (mkAuthorize (rr_PluginInstanceID req) method ids (pr_Revisions r') now) = Ok d ∧
      ad_Allowed d = false ∧ TrimSpace (rr_PermissionID req) ∈ ad_MissingPermissions d.
Proof.
  intros Hw Hwf He Hrun. pose proof (mutate_wf wall ctx s (MRevoke req) e Hw Hwf) as Hwf'.
  cbn [mutate] in Hwf'. rewrite Hrun in Hwf'. cbn [fst] in Hwf'.
  destruct (RevokePermission_effect _ _ _ _ _ _ _ _ Hwf He Hrun) as (Hrs & (r' & Hlive) & Hng).
  exists r'. split; [done|]. intros wall' method ids now Hw' Hm Hin Hens.
  destruct (Authorize_decides wall' ctx s' env r'
    (mkAuthorize (rr_PluginInstanceID req) method ids (pr_Revisions r') now) Hw' Hwf' He Hlive Hens Hm)
    as (d & Hd' & _ & Hall & Hmiss).
  assert (TrimSpace (rr_PermissionID req) ∈ MethodGrantIDs ids) as Hmg by by apply elem_of_MethodGrantIDs.
  exists d. split; [done|]. split.
  - destruct (ad_Allowed d); [|done]. exfalso. by eapply Hng, Hall.
  - by apply Hmiss.
Qed.

(** the memory store and the durable store decide alike. [Authorize]
    reads only the grants of the required permissions; it returns what
    [EvaluateAuthorizationSnapshot], the evaluation the durable store uses,
    returns on the complete snapshot of the plugin, errors included, where
    the JSON clone is faithful and plugin ids are stored trimmed. *)
Theorem authorize_equals_snapshot_evaluation wall ctx s req :
  wall ≠ 0%Z → store_wf s →
  (∀ x, cloneRest x = Some x) →
  (∀ key r, st_records s !! key = Some r → TrimSpace (pr_PluginInstanceID r) = pr_PluginInstanceID r) →
  TrimSpace (ar_PluginInstanceID req) ≠ "" → TrimSpace (ar_Method req) ≠ "" →
  Authorize wall ctx s req =
  rbind (GetAuthorization cloneRest ctx s (ar_PluginInstanceID req))
    (λ snapshot, EvaluateAuthorizationSnapshot wall snapshot req).
Proof.
  intros Hw Hwf Hclone Htrim Hpne Hm. unfold Authorize, GetAuthorization.
  destruct (environmentOwner ctx) as [env|e] eqn:He; [|done]. cbn [lift_err rbind].
  pose proof (environmentOwner_valid _ _ He) as Henv.
  unfold ValidatePolicyEvaluationRequest, normalizePolicyID. cbn [ep_PluginInstanceID ep_Method].
  rewrite TrimSpace_idemp, !bool_decide_eq_false_2 by done. cbn [orb lift_err rbind].
  rewrite environmentRecordKey_trim. set (key := environmentRecordKey env (ar_PluginInstanceID req)).
  destruct (live s key) as [r|e] eqn:Hlive; [|done]. cbn [rbind].
  destruct (live_plugin _ _ _ _ Hwf Henv Hlive) as [Hp _].
  pose proof Hlive as [Hr _]%live_ok. pose proof (Htrim _ _ Hr) as Hpr.
  destruct (wf_records _ Hwf _ _ Hr) as (_ & _ & Hkey & _).
  unfold authorizationSnapshotLocked, clonePluginRecord. rewrite Hclone, <- Hkey. cbn [rbind].
  unfold EvaluateAuthorizationSnapshot. cbn [sn_Plugin sn_Grants sn_Policy pr_PluginInstanceID].
  destruct r as [o p i v f k a en dr rev ia ea ua da rest].
  cbn [pr_OwnerEnvHash pr_PluginInstanceID pr_Rest pr_Revisions pr_PluginID pr_Version pr_ActiveFingerprint
       pr_SourceKind pr_ExecutionApproval pr_EnableState pr_DisabledReason pr_InstalledAt pr_EnabledAt
       pr_UpdatedAt pr_DeletedAt] in *.
  rewrite Hpr in Hp. subst p.
  destruct (ensureAuthorizationRevisions _ _ _) as [[]|]; [|done]. cbn [rbind].
  unfold evaluateAuthorization. destruct (EvaluatePolicy _ _) as [ev|]; [|done]. cbn [lift_err rbind].
  unfold evaluateAuthorizationDecision, CloneRecord. rewrite list_fmap_id. f_equal. f_equal.
  apply Evaluate_ext; [done| | |];
    cbn [cr_PluginInstanceID cr_PermissionIDs authorizationStateFromRecord as_PluginInstanceID
         pr_PluginInstanceID cr_Now]; unfold normalizeID; rewrite ?TrimSpace_idemp.
  - apply grants_omap_wf; [done..|]. apply NormalizePermissionIDs_NoDup.
  - by apply grants_all_wf.
  - intros id. unfold MethodGrantIDs. rewrite NormalizePermissionIDs_filter.
    intros [Hid _]%elem_of_MethodGrantIDs.
    transitivity (granted_at s key wall (ar_Now req) id);
      [by apply granted_omap_iff|symmetry; by apply granted_all_iff].
Qed.

End registry.

(** ** Witnesses *)

Definition sample_session : Context := mkContext "s1" "u1" "e1" "c1" true true.
Definition sample_ctx : GoCtx := mkGoCtx None (Some sample_session).
Definition sample_approval : ExecutionApproval :=
  mkApproval ExecutionApprovalUserApproved "e1" "sha" [] "" "" 1 1.
Definition sample_plugin : @PluginRecord unit :=
  mkPlugin "e1" "p1" "pub.plug" "1.0.0" "fp" "local_package" sample_approval EnableEnabled ""
    (mkRevisions 1 1 0) 5 (Some 5%Z) 5 None tt.
Definition sample_key : string := environmentRecordKey "e1" "p1".
Definition sample_store : @MemoryStore unit :=
  mkStore {[sample_key := sample_plugin]} {[sample_key := {["net" := sample_grant]}]} ∅ ∅.
Definition sample_revoke : RevokeRequest := mkRevokeRequest "p1" " net " "admin" "" 20.
Definition clone_unit (x : unit) : option unit := Some x.

Lemma sample_store_wf : store_wf sample_store.
Proof.
  split; cbn.
  - intros key r [<- <-]%lookup_singleton_Some. repeat split; done.
  - intros key gs id g [<- <-]%lookup_singleton_Some [<- <-]%lookup_singleton_Some.
    repeat split; try done. by exists "e1".
  - intros key p Hp. by rewrite lookup_empty in Hp.
Qed.

Lemma no_lost_authorization_update_witness :
  ∃ s1 snap err,
    mutate clone_unit 10 sample_ctx sample_store (MRevoke sample_revoke) (mkRevisions 1 1 0) =
      (s1, Ok snap) ∧
    mutate clone_unit 11 sample_ctx s1 (MGrant (mkGrantRequest "p1" "net" "" 12 0)) (mkRevisions 1 1 0) =
      (s1, Err err).
Proof.
  destruct (mutate clone_unit 10 sample_ctx sample_store (MRevoke sample_revoke) (mkRevisions 1 1 0))
    as [s1 [snap|e]] eqn:Hm.
  - destruct (no_lost_authorization_update clone_unit 10 11 sample_ctx sample_store
      (MRevoke sample_revoke) (MGrant (mkGrantRequest "p1" "net" "" 12 0)) (mkRevisions 1 1 0) s1 snap)
      as [[err Herr] _]; [|reflexivity|exact Hm|exists s1, snap, err; split; [reflexivity|exact Herr]].
    intros key r Hr. by apply (wf_records _ sample_store_wf) in Hr as (_ & _ & _ & ?).
  - exfalso. vm_compute in Hm. discriminate.
Defined.


Lemma environments_isolated_witness :
  st_records (run_op clone_unit 10 (mkGoCtx None (Some (mkContext "s1" "u1" "e2" "c1" true true)))
                sample_store (OpAbort "p1")) !! sample_key = Some sample_plugin.
Proof.
  destruct (environments_isolated clone_unit 10
    (mkGoCtx None (Some (mkContext "s1" "u1" "e2" "c1" true true))) sample_store (OpAbort "p1")
    "e2" "e1" "p1") as [H _]; [reflexivity|reflexivity|done|].
  etransitivity; [exact H|]. vm_compute. reflexivity.
Defined.

Lemma authorization_decision_exact_witness :
  ∃ d, Authorize 10 sample_ctx sample_store
         (mkAuthorize "p1" "run" ["net"; "fs.selected.read"] (mkRevisions 1 1 0) 50) = Ok d ∧
       ad_Allowed d = true.
Proof.
  destruct (authorization_decision_exact 10 sample_ctx sample_store "e1" sample_plugin
    (mkAuthorize "p1" "run" ["net"; "fs.selected.read"] (mkRevisions 1 1 0) 50)) as (d & Hd & _);
    [done|apply sample_store_wf|reflexivity|vm_compute; reflexivity|reflexivity|done|].
  exists d. split; [exact Hd|]. vm_compute in Hd. injection Hd as <-. reflexivity.
Defined.

Lemma revoked_permission_denied_witness :
  ∃ s' snap (r' : @PluginRecord unit) d,
    RevokePermission clone_unit 10 sample_ctx sample_store sample_revoke (mkRevisions 1 1 0) = (s', Ok snap) ∧
    Authorize 30 sample_ctx s' (mkAuthorize "p1" "run" ["net"] (pr_Revisions r') 50) = Ok d ∧
    ad_Allowed d = false.
Proof.
  destruct (RevokePermission clone_unit 10 sample_ctx sample_store sample_revoke (mkRevisions 1 1 0))
    as [s' [snap|e]] eqn:Hr; [|exfalso; vm_compute in Hr; discriminate].
  destruct (revoked_permission_denied clone_unit 10 sample_ctx sample_store sample_revoke
    (mkRevisions 1 1 0) s' snap "e1") as (r' & Hlive & Hall);
    [done|apply sample_store_wf|reflexivity|exact Hr|].
  destruct (Hall 30%Z "run" ["net"] 50%Z) as (d & Hd & Hden & _); [done|done|..].
  - vm_compute. by left.
  - vm_compute in Hr. injection Hr as <- _. vm_compute in Hlive. injection Hlive as <-. reflexivity.
  - exists s', snap, r', d. split; [reflexivity|]. split; [exact Hd|exact Hden].
Defined.

Lemma authorize_equals_snapshot_evaluation_witness :
  Authorize 10 sample_ctx sample_store (mkAuthorize "p1" "run" ["net"] (mkRevisions 1 1 0) 50) =
  rbind (GetAuthorization clone_unit sample_ctx sample_store "p1")
    (λ snapshot, EvaluateAuthorizationSnapshot 10 snapshot
       (mkAuthorize "p1" "run" ["net"] (mkRevisions 1 1 0) 50)).
Proof.
  apply (authorize_equals_snapshot_evaluation clone_unit 10 sample_ctx sample_store
    (mkAuthorize "p1" "run" ["net"] (mkRevisions 1 1 0) 50));
    [done|apply sample_store_wf|done| |done|done].
  intros key r Hr. cbn in Hr. apply lookup_singleton_Some in Hr as [<- <-]. reflexivity.
Defined.
