(* ===== verification/Mutation.v ===== *)
(** * pkg/mutation: outcomes of durable writes carried by errors

    A Go error value is a tree: a leaf, an error wrapped by [fmt.Errorf] with
    [%w], a [mutation.Error] around another error, or the [errors.Join] of
    several. [errors.As] walks it in pre-order. *)

From S2P Require Import Prelude GoLib.

Definition Outcome := string.
Definition OutcomeCommitted : Outcome := "committed".
Definition OutcomeNotCommitted : Outcome := "not_committed".
Definition OutcomeUnknown : Outcome := "unknown".

(** A non-nil error. *)
Inductive goerror :=
| Leaf (message : string)
| Wrapped (message : string) (inner : goerror)
| MutationError (outcome : Outcome) (inner : option goerror)
| Joined (errs : list goerror).

(** [errors.As(err, &mutationErr)]: the first [mutation.Error] of the tree in
    pre-order, through [Unwrap] and the members of a join. *)
Fixpoint asMutationError (err : goerror) : option (Outcome * option goerror) :=
  match err with
  | Leaf _ => None
  | Wrapped _ inner => asMutationError inner
  | MutationError outcome inner => Some (outcome, inner)
  | Joined errs =>
     (fix go (l : list goerror) :=
        match l with
        | [] => None
        | e :: rest => match asMutationError e with Some r => Some r | None => go rest end
        end) errs
  end.

Definition Explicit (err : option goerror) : Outcome * bool :=
  match err ≫= asMutationError with
  | Some (outcome, _) =>
     if bool_decide (outcome = OutcomeCommitted) || bool_decide (outcome = OutcomeNotCommitted) ||
        bool_decide (outcome = OutcomeUnknown)
     then (outcome, true) else ("", false)
  | None => ("", false)
  end.

Definition Committed (err : option goerror) : option goerror :=
  match err with
  | None => None
  | Some e => if (Explicit err).2 then err else Some (MutationError OutcomeCommitted (Some e))
  end.

Definition ForceCommitted (err : option goerror) : option goerror :=
  match err with
  | None => None
  | Some e =>
     let '(outcome, explicit) := Explicit err in
     if explicit && bool_decide (outcome = OutcomeCommitted) then err
     else Some (MutationError OutcomeCommitted (Some e))
  end.

Definition ForError (err : option goerror) : Outcome :=
  let '(outcome, ok) := Explicit err in if ok then outcome else OutcomeNotCommitted.

Definition Unknown (err : option goerror) : option goerror :=
  match err with
  | None => None
  | Some e => if (Explicit err).2 then err else Some (MutationError OutcomeUnknown (Some e))
  end.

(** The methods [Error] and [Unwrap] of the error types. *)
Fixpoint Error_string (err : goerror) : string :=
  match err with
  | Leaf m => m
  | Wrapped m _ => m
  | MutationError _ None => "mutation failed"
  | MutationError _ (Some inner) => Error_string inner
  | Joined errs =>
     (fix go (l : list goerror) :=
        match l with
        | [] => ""
        | [e] => Error_string e
        | e :: rest => Error_string e +:+ String.String (byte 10) "" +:+ go rest
        end) errs
  end.

Definition Unwrap (err : goerror) : option goerror :=
  match err with
  | Leaf _ | Joined _ => None
  | Wrapped _ inner => Some inner
  | MutationError _ inner => inner
  end.

Lemma Explicit_mark outcome inner :
  outcome ∈ [OutcomeCommitted; OutcomeNotCommitted; OutcomeUnknown] →
  Explicit (Some (MutationError outcome inner)) = (outcome, true).
Proof. intros H. repeat (apply elem_of_cons in H as [->|H]; [done|]). by apply elem_of_nil in H. Qed.

(** Marking an error never loses a known outcome. [Committed] and
    [Unknown] keep an outcome already recorded anywhere in the error tree and
    otherwise record their own; [ForceCommitted] records a commit over any
    outcome; an unmarked error reads as not committed; all three keep nil as
    nil and are idempotent. *)
Theorem mutation_outcome_laws (err : goerror) :
  ForError (Committed (Some err)) =
    (if (Explicit (Some err)).2 then ForError (Some err) else OutcomeCommitted) ∧
  ForError (Unknown (Some err)) =
    (if (Explicit (Some err)).2 then ForError (Some err) else OutcomeUnknown) ∧
  ForError (ForceCommitted (Some err)) = OutcomeCommitted ∧
  (asMutationError err = None → ForError (Some err) = OutcomeNotCommitted) ∧
  (∀ e, Committed (Committed e) = Committed e ∧ Unknown (Unknown e) = Unknown e ∧
        ForceCommitted (ForceCommitted e) = ForceCommitted e) ∧
  Committed None = None ∧ Unknown None = None ∧ ForceCommitted None = None.
Proof.
  assert (∀ e, (Explicit (Committed (Some e))).2 = true ∧ (Explicit (Unknown (Some e))).2 = true ∧
    Explicit (ForceCommitted (Some e)) = (OutcomeCommitted, true)) as Hmark.
  { intros e. unfold Committed, Unknown, ForceCommitted.
    destruct (Explicit (Some e)) as [o b] eqn:He. cbn [snd]. destruct b; cbn [andb].
    - case_bool_decide as Ho; [subst o|]; rewrite ?He; cbn [snd]; repeat split; try done.
    - done. }
  split; [|split; [|split; [|split; [|split]]]]; [| | | | |done].
  - unfold Committed. destruct (Explicit (Some err)).2 eqn:He; [done|]. done.
  - unfold Unknown. destruct (Explicit (Some err)).2 eqn:He; [done|]. done.
  - unfold ForError. by destruct (Hmark err) as (_ & _ & ->).
  - intros Hn. unfold ForError, Explicit. cbn [mbind option_bind]. by rewrite Hn.
  - intros [e|]; [|done]. destruct (Hmark e) as (H1 & H2 & H3).
    destruct (Committed (Some e)) as [c|] eqn:Hc; [|done].
    destruct (Unknown (Some e)) as [u|] eqn:Hu; [|done].
    destruct (ForceCommitted (Some e)) as [f|] eqn:Hf; [|done].
    repeat split.
    + unfold Committed at 1. by rewrite H1.
    + unfold Unknown at 1. by rewrite H2.
    + unfold ForceCommitted at 1. by rewrite H3.
Qed.
