(* ===== verification/Execution.v ===== *)
(** * pkg/execution: the execution state machine and its event log

    An execution moves from running, optionally through cancel-requested, to
    one terminal status, and carries a gap-free log of events whose last
    entry is the terminal event. Sequence numbers are uint64; the payload of
    an event is opaque. *)

From stdpp Require Import list_numbers.
From S2P Require Import Prelude GoLib.

Open Scope go_scope.

Definition KindSync : string := "sync".
Definition KindOperation : string := "operation".
Definition KindSubscription : string := "subscription".
Definition StatusRunning : string := "running".
Definition StatusCancelRequested : string := "cancel_requested".
Definition StatusCompleted : string := "completed".
Definition StatusCanceled : string := "canceled".
Definition StatusFailed : string := "failed".
Definition StatusOrphaned : string := "orphaned".
Definition EventProgress : string := "progress".
Definition EventData : string := "data".
Definition EventDiagnostic : string := "diagnostic".
Definition EventTerminal : string := "terminal".

(** The sentinels, and the messages [Validate] builds with [fmt.Errorf]. *)
Inductive ExecErr :=
| ErrSequenceConflict
| ErrInvalidTransition
| ErrNotCancelable
| ErrTerminal
| ErrIdentityRequired
| ErrUnknownKind (kind : string)
| ErrUnknownStatus (status : string)
| ErrSyncCancelable.

Definition validEventKind (kind : string) : bool :=
  bool_decide (kind = EventProgress) || bool_decide (kind = EventData) ||
  bool_decide (kind = EventDiagnostic) || bool_decide (kind = EventTerminal).

Definition terminalStatus (status : string) : bool :=
  bool_decide (status = StatusCompleted) || bool_decide (status = StatusCanceled) ||
  bool_decide (status = StatusFailed) || bool_decide (status = StatusOrphaned).

Record PublicError := mkPublicError { pe_Code : string; pe_Message : string }.

Section execution.
Context {Payload : Type}.

Record Event := mkEvent {
  ev_ExecutionID : string;
  ev_Sequence : Z;
  ev_Kind : string;
  ev_Payload : Payload;
  ev_Error : option PublicError;
}.

Record Execution := mkExecution {
  ex_ID : string;
  ex_PluginInstanceID : string;
  ex_Kind : string;
  ex_Status : string;
  ex_Cursor : Z;
  ex_FailureCode : string;
  ex_Cancelable : bool;
  ex_CreatedAt : time;
  ex_UpdatedAt : time;
  ex_CancelRequestedAt : option time;
  ex_TerminalAt : option time;
  ex_events : gmap Z Event;
}.

Definition NewEvent (exec : Execution) (sequence : Z) (kind : string) (payload : Payload) :
    Result ExecErr Event :=
  if bool_decide (ex_ID exec = "") || (sequence =? 0)%Z || negb (validEventKind kind)
  then Err ErrSequenceConflict
  else Ok (mkEvent (ex_ID exec) sequence kind payload None).

(** The unexported [append]. *)
Definition append (e : Execution) (event : Event) : Result ExecErr Execution :=
  if terminalStatus (ex_Status e) then Err ErrTerminal
  else if negb (bool_decide (ev_ExecutionID event = ex_ID e)) || (ev_Sequence event =? 0)%Z ||
          negb (ev_Sequence event =? incr64 (ex_Cursor e))%Z
  then Err ErrSequenceConflict
  else if bool_decide (is_Some (ex_events e !! ev_Sequence event)) then Err ErrSequenceConflict
  else Ok (mkExecution (ex_ID e) (ex_PluginInstanceID e) (ex_Kind e) (ex_Status e)
             (ev_Sequence event) (ex_FailureCode e) (ex_Cancelable e) (ex_CreatedAt e)
             (ex_UpdatedAt e) (ex_CancelRequestedAt e) (ex_TerminalAt e)
             (<[ev_Sequence event := event]> (ex_events e))).

Definition Append (e : Execution) (event : Event) : Result ExecErr Execution :=
  if bool_decide (ev_Kind event = EventTerminal) then Err ErrInvalidTransition
  else append e event.

Definition Validate (e : Execution) : Result ExecErr unit :=
  if bool_decide (ex_ID e = "") || bool_decide (ex_PluginInstanceID e = "") then Err ErrIdentityRequired
  else if negb (bool_decide (ex_Kind e = KindSync) || bool_decide (ex_Kind e = KindOperation) ||
                bool_decide (ex_Kind e = KindSubscription))
  then Err (ErrUnknownKind (ex_Kind e))
  else if negb (bool_decide (ex_Status e = StatusRunning) ||
                bool_decide (ex_Status e = StatusCancelRequested) || terminalStatus (ex_Status e))
  then Err (ErrUnknownStatus (ex_Status e))
  else if bool_decide (ex_Kind e = KindSync) && ex_Cancelable e then Err ErrSyncCancelable
  else if bool_decide (ex_Status e = StatusCancelRequested) &&
          (negb (ex_Cancelable e) || bool_decide (ex_CancelRequestedAt e = None))
  then Err ErrInvalidTransition
  else if terminalStatus (ex_Status e) && bool_decide (ex_TerminalAt e = None)
  then Err ErrInvalidTransition
  else Ok tt.

(** [New] resets the events but keeps the caller's cursor. *)
Definition New (wall : time) (value : Execution) : Result ExecErr Execution :=
  let createdAt := or_wall wall (ex_CreatedAt value) in
  let value := mkExecution (ex_ID value) (ex_PluginInstanceID value) (ex_Kind value)
                 (if bool_decide (ex_Status value = "") then StatusRunning else ex_Status value)
                 (ex_Cursor value) (ex_FailureCode value) (ex_Cancelable value) createdAt
                 (if IsZero (ex_UpdatedAt value) then createdAt else UTC (ex_UpdatedAt value))
                 (ex_CancelRequestedAt value) (ex_TerminalAt value) ∅ in
  let? _ := Validate value in
  Ok value.

Definition RequestCancel (wall : time) (e : Execution) (now : time) : Result ExecErr Execution :=
  if negb (bool_decide (ex_Status e = StatusRunning)) then Err ErrInvalidTransition
  else if negb (ex_Cancelable e) then Err ErrNotCancelable
  else
    let now := or_wall wall now in
    Ok (mkExecution (ex_ID e) (ex_PluginInstanceID e) (ex_Kind e) StatusCancelRequested
          (ex_Cursor e) (ex_FailureCode e) (ex_Cancelable e) (ex_CreatedAt e) now (Some now)
          (ex_TerminalAt e) (ex_events e)).

Definition Finish (wall : time) (e : Execution) (status failureCode : string) (event : Event)
    (now : time) : Result ExecErr Execution :=
  if terminalStatus (ex_Status e) || negb (terminalStatus status) ||
     negb (bool_decide (ev_Kind event = EventTerminal)) ||
     negb (bool_decide (ev_ExecutionID event = ex_ID e)) ||
     negb (ev_Sequence event =? incr64 (ex_Cursor e))%Z
  then Err ErrInvalidTransition
  else if bool_decide (status = StatusCanceled) && negb (bool_decide (ex_Status e = StatusCancelRequested))
  then Err ErrInvalidTransition
  else if negb (bool_decide (status = StatusCanceled)) &&
          negb (bool_decide (ex_Status e = StatusRunning)) &&
          negb (bool_decide (ex_Status e = StatusCancelRequested))
  then Err ErrInvalidTransition
  else
    let? e := append e event in
    let now := or_wall wall now in
    Ok (mkExecution (ex_ID e) (ex_PluginInstanceID e) (ex_Kind e) status (ex_Cursor e) failureCode
          (ex_Cancelable e) (ex_CreatedAt e) now (ex_CancelRequestedAt e) (Some now) (ex_events e)).

(** The loop of [EventsAfter]; [sequence++] wraps. [None] is a loop that has
    not ended within the fuel. *)
Fixpoint eventsLoop (fuel : nat) (events : gmap Z Event) (sequence last : Z) : option (list Event) :=
  match fuel with
  | O => None
  | S fuel' =>
     if (sequence <=? last)%Z then
       rest ← eventsLoop fuel' events (incr64 sequence) last;
       Some (match events !! sequence with Some event => event :: rest | None => rest end)
     else Some []
  end.

Definition EventsAfter (fuel : nat) (e : Execution) (cursor : Z) : option (list Event) :=
  eventsLoop fuel (ex_events e) (incr64 cursor) (ex_Cursor e).

(** ** The log invariant *)

(** [base] is the cursor the execution was created with. *)
Record exec_inv (base : Z) (e : Execution) : Prop := {
  inv_base : (0 ≤ base ≤ ex_Cursor e ∧ ex_Cursor e ≤ uint64_max)%Z;
  inv_dom : ∀ seq, is_Some (ex_events e !! seq) ↔ (base < seq ≤ ex_Cursor e)%Z;
  inv_event : ∀ seq ev, ex_events e !! seq = Some ev →
    ev_Sequence ev = seq ∧ ev_ExecutionID ev = ex_ID e ∧
    (ev_Kind ev = EventTerminal → terminalStatus (ex_Status e) = true ∧ seq = ex_Cursor e);
  inv_terminal : terminalStatus (ex_Status e) = true → (base < ex_Cursor e)%Z →
    ∃ ev, ex_events e !! ex_Cursor e = Some ev ∧ ev_Kind ev = EventTerminal;
  inv_valid : Validate e = Ok tt;
}.

(** The calls a holder of an execution can make. *)
Inductive ExecOp :=
| OpAppend (event : Event)
| OpRequestCancel (now : time)
| OpFinish (status failureCode : string) (event : Event) (now : time).

Definition exec_call (wall : time) (e : Execution) (op : ExecOp) : Result ExecErr Execution :=
  match op with
  | OpAppend event => Append e event
  | OpRequestCancel now => RequestCancel wall e now
  | OpFinish status code event now => Finish wall e status code event now
  end.

(** A failed call leaves the execution as it was. *)
Definition exec_step (wall : time) (e : Execution) (op : ExecOp) : Execution :=
  match exec_call wall e op with Ok e' => e' | Err _ => e end.

Lemma append_ok e event e' :
  append e event = Ok e' →
  terminalStatus (ex_Status e) = false ∧ ev_ExecutionID event = ex_ID e ∧
  ev_Sequence event ≠ 0%Z ∧ ev_Sequence event = incr64 (ex_Cursor e) ∧
  ex_events e !! ev_Sequence event = None ∧
  e' = mkExecution (ex_ID e) (ex_PluginInstanceID e) (ex_Kind e) (ex_Status e)
         (ev_Sequence event) (ex_FailureCode e) (ex_Cancelable e) (ex_CreatedAt e)
         (ex_UpdatedAt e) (ex_CancelRequestedAt e) (ex_TerminalAt e)
         (<[ev_Sequence event := event]> (ex_events e)).
Proof.
  unfold append. destruct (terminalStatus (ex_Status e)); [done|].
  case_bool_decide as Hid; [|done]. destruct (ev_Sequence event =? 0)%Z eqn:H0; [done|].
  destruct (ev_Sequence event =? incr64 (ex_Cursor e))%Z eqn:Hs; [|done]. cbn [negb orb].
  case_bool_decide as Hn; [done|]. intros [= <-]. go_bools.
  apply eq_None_not_Some in Hn. done.
Qed.

(** A successful append moves the cursor by one, without wrapping. *)
Lemma append_next base e event e' :
  exec_inv base e → append e event = Ok e' → ev_Sequence event = (ex_Cursor e + 1)%Z ∧
  (ex_Cursor e + 1 ≤ uint64_max)%Z.
Proof.
  intros Hinv (_ & _ & H0 & Hs & _)%append_ok. destruct (inv_base _ _ Hinv) as [[??]?].
  destruct (decide (ex_Cursor e = uint64_max)) as [Heq|].
  - rewrite Heq in Hs. exfalso. apply H0. rewrite Hs. by vm_compute.
  - rewrite incr64_small in Hs by lia. lia.
Qed.

(** The log after an append, whatever status the caller gives it. *)
Lemma append_log base e event e' (status : string) :
  exec_inv base e → append e event = Ok e' →
  (ev_Kind event = EventTerminal → terminalStatus status = true) →
  (∀ seq, is_Some (ex_events e' !! seq) ↔ (base < seq ≤ ex_Cursor e')%Z) ∧
  (∀ seq ev, ex_events e' !! seq = Some ev →
     ev_Sequence ev = seq ∧ ev_ExecutionID ev = ex_ID e' ∧
     (ev_Kind ev = EventTerminal → terminalStatus status = true ∧ seq = ex_Cursor e')) ∧
  (0 ≤ base ≤ ex_Cursor e' ∧ ex_Cursor e' ≤ uint64_max)%Z ∧
  ex_events e' !! ex_Cursor e' = Some event.
Proof.
  intros Hinv Happ Hterm. destruct (append_next _ _ _ _ Hinv Happ) as [Hseq Hmax].
  apply append_ok in Happ as (Hnt & Hid & _ & _ & Hfresh & ->). cbn.
  destruct (inv_base _ _ Hinv) as [Hb1 Hb2]. split; [|split; [|split]].
  - intros seq. destruct (decide (seq = ev_Sequence event)) as [->|Hne].
    + rewrite lookup_insert_eq. split; [lia|eauto].
    + rewrite lookup_insert_ne by done. rewrite (inv_dom _ _ Hinv). lia.
  - intros seq ev [[<- <-]|[Hne Hlk]]%lookup_insert_Some; [by eauto|].
    destruct (inv_event _ _ Hinv _ _ Hlk) as (?&?&Ht). split; [done|]. split; [done|].
    intros Hk. destruct (Ht Hk). congruence.
  - lia.
  - apply lookup_insert_eq.
Qed.

Lemma exec_inv_New wall v e :
  (0 ≤ ex_Cursor v ≤ uint64_max)%Z → New wall v = Ok e → exec_inv (ex_Cursor v) e.
Proof.
  intros Hc Hnew. unfold New in Hnew. apply rbind_ok in Hnew as ([] & Hval & [= <-]).
  split; cbn; [lia| | |lia|done].
  - intros seq. rewrite lookup_empty. split; [by intros [? ?]|lia].
  - intros seq ev Hlk. by rewrite lookup_empty in Hlk.
Qed.

Lemma exec_inv_Append base e event e' :
  exec_inv base e → Append e event = Ok e' → exec_inv base e'.
Proof.
  intros Hinv. unfold Append. case_bool_decide as Hk; [done|]. intros Happ.
  pose proof (append_ok _ _ _ Happ) as (Hnt & _ & _ & _ & _ & He').
  destruct (append_log _ _ _ _ (ex_Status e) Hinv Happ) as (Hd & Hev & Hb & _); [done|].
  assert (ex_Status e' = ex_Status e) as Hst by (by rewrite He').
  split; [done|done|by rewrite Hst|rewrite Hst, Hnt; done|].
  rewrite He'. exact (inv_valid _ _ Hinv).
Qed.

Lemma exec_inv_RequestCancel wall base e now e' :
  exec_inv base e → RequestCancel wall e now = Ok e' → exec_inv base e'.
Proof.
  intros Hinv. unfold RequestCancel. case_bool_decide as Hs; [|done].
  destruct (ex_Cancelable e) eqn:Hc; [|done]. cbn [negb]. intros [= <-].
  pose proof (inv_valid _ _ Hinv) as Hval. split; cbn.
  - by apply inv_base.
  - by apply inv_dom.
  - intros seq ev Hlk. destruct (inv_event _ _ Hinv _ _ Hlk) as (?&?&Ht).
    split; [done|]. split; [done|]. intros Hk. destruct (Ht Hk) as [Hterm _]. by rewrite Hs in Hterm.
  - done.
  - revert Hval. unfold Validate. cbn. rewrite Hs, Hc. repeat case_match; try done.
Qed.

Lemma exec_inv_Finish wall base e status code event now e' :
  exec_inv base e → Finish wall e status code event now = Ok e' → exec_inv base e'.
Proof.
  intros Hinv. unfold Finish. destruct (terminalStatus (ex_Status e)) eqn:Ht; [done|].
  destruct (terminalStatus status) eqn:Hst; [|done]. case_bool_decide as Hk; [|done].
  case_bool_decide; [|done]. destruct (ev_Sequence event =? incr64 (ex_Cursor e))%Z; [|done]. cbn [negb orb].
  case_match; [done|]. case_match; [done|].
  intros (e1 & Happ & [= <-])%rbind_ok.
  destruct (append_log _ _ _ _ status Hinv Happ) as (Hd & Hev & Hb & Hlast); [done|].
  pose proof (append_ok _ _ _ Happ) as (_ & _ & _ & _ & _ & He1).
  split; cbn; [done|done|done|eauto|].
  pose proof (inv_valid _ _ Hinv) as Hval. revert Hval. rewrite He1. unfold Validate. cbn.
  rewrite Ht, Hst. repeat case_match; try done; go_bools; subst; try done.
Qed.

Lemma exec_inv_step wall base e op : exec_inv base e → exec_inv base (exec_step wall e op).
Proof.
  intros Hinv. unfold exec_step. destruct (exec_call wall e op) as [e'|] eqn:Hc; [|done].
  destruct op; cbn in Hc;
    eauto using exec_inv_Append, exec_inv_RequestCancel, exec_inv_Finish.
Qed.

(** the log of an execution is gap-free and its terminal event is last.
    Whatever calls are made on an execution [New] returned, failed ones
    included, the recorded sequence numbers are exactly those above the
    initial cursor up to the current one, each event sits at its own number
    and names the execution, a terminal event is only ever the last one and
    only on a terminal status, a status reached through [Finish] has its
    terminal event, and the execution stays valid. *)
Theorem execution_log_invariant wall v e ops :
  (0 ≤ ex_Cursor v ≤ uint64_max)%Z → New wall v = Ok e →
  exec_inv (ex_Cursor v) (foldl (exec_step wall) e ops).
Proof.
  intros Hc Hnew. pose proof (exec_inv_New _ _ _ Hc Hnew) as Hinv. revert Hinv. clear Hnew.
  generalize (ex_Cursor v). intros base. revert e.
  induction ops as [|op ops IH]; intros e Hinv; cbn; [done|]. by apply IH, exec_inv_step.
Qed.

(** terminal statuses are final: once an execution has one, every append,
    cancel request and finish fails with its own error and changes nothing;
    and an execution becomes canceled only after a cancel was requested. *)
Theorem terminal_status_final wall e op :
  (terminalStatus (ex_Status e) = true →
     exec_step wall e op = e ∧ ∃ err, exec_call wall e op = Err err ∧
       (err = ErrTerminal ∨ err = ErrInvalidTransition)) ∧
  (ex_Status (exec_step wall e op) = StatusCanceled → ex_Status e ≠ StatusCanceled →
     ex_Status e = StatusCancelRequested).
Proof.
  split.
  - intros Ht. assert (∃ err, exec_call wall e op = Err err ∧
      (err = ErrTerminal ∨ err = ErrInvalidTransition)) as (err & Herr & Hor).
    { destruct op as [event|now|status code event now]; cbn [exec_call].
      - unfold Append, append. rewrite Ht. case_bool_decide; eauto.
      - unfold RequestCancel. case_bool_decide as Hs; [|by eauto]. by rewrite Hs in Ht.
      - unfold Finish. rewrite Ht. eauto. }
    split; [|eauto]. unfold exec_step. by rewrite Herr.
  - unfold exec_step. destruct op as [event|now|status code event now]; cbn [exec_call].
    + unfold Append. case_bool_decide; [done|]. destruct (append e event) as [e'|] eqn:Happ; [|done].
      apply append_ok in Happ as (_ & _ & _ & _ & _ & ->). done.
    + unfold RequestCancel. case_bool_decide; [|done]. by destruct (ex_Cancelable e).
    + destruct (Finish wall e status code event now) as [e'|] eqn:Hf; [|done]. intros Hst _.
      unfold Finish in Hf. case_match; [done|]. case_bool_decide as Hc.
      * case_bool_decide as Hr; [done|]. done.
      * exfalso. apply Hc. cbn in Hf. case_match; [done|].
        destruct (append e event); [|done]. cbn in Hf. by simplify_eq/=.
Qed.

Section events_after.
Context (base : Z) (e : Execution) (Hinv : exec_inv base e).

(** The loop from a sequence number in range returns the events from there
    on, and ends when there is fuel for one more turn than there are numbers
    left. *)
Lemma eventsLoop_spec n seq fuel :
  (ex_Cursor e < uint64_max)%Z → (0 ≤ seq)%Z →
  n = Z.to_nat (ex_Cursor e + 1 - seq) → n < fuel →
  ∃ l, eventsLoop fuel (ex_events e) seq (ex_Cursor e) = Some l ∧
    ev_Sequence <$> l = seqZ (Z.max (base + 1) seq) (ex_Cursor e + 1 - Z.max (base + 1) seq) ∧
    ∀ ev, ev ∈ l ↔ ex_events e !! ev_Sequence ev = Some ev ∧ (seq ≤ ev_Sequence ev)%Z.
Proof using Hinv.
  intros Hmax. revert seq fuel. destruct (inv_base _ _ Hinv) as [[Hb1 Hb2] _].
  induction n as [|n IH]; intros seq fuel Hs1 Hn Hfuel; (destruct fuel as [|fuel]; [lia|]); cbn.
  - rewrite (proj2 (Z.leb_gt _ _)) by lia. exists []. split; [done|]. split.
    + rewrite seqZ_nil by lia. done.
    + intros ev. split; [by intros ?%elem_of_nil|]. intros [Hlk Hge].
      assert (is_Some (ex_events e !! ev_Sequence ev)) as Hi by eauto.
      apply (inv_dom _ _ Hinv) in Hi. lia.
  - rewrite (proj2 (Z.leb_le _ _)) by lia. rewrite incr64_small by lia.
    destruct (IH (seq + 1)%Z fuel) as (l & -> & Hseq & Hin); [lia..|]. cbn.
    destruct (ex_events e !! seq) as [ev0|] eqn:Hev.
    + assert (base < seq ≤ ex_Cursor e)%Z as Hr by (apply (inv_dom _ _ Hinv); eauto).
      destruct (inv_event _ _ Hinv _ _ Hev) as (Hs & _ & _).
      exists (ev0 :: l). split; [done|]. split.
      * cbn. rewrite Hseq, Hs. rewrite !Z.max_r by lia. rewrite (seqZ_cons seq) by lia.
        f_equal. f_equal; lia.
      * intros ev. rewrite elem_of_cons, Hin. split.
        -- intros [->|[? ?]]; [rewrite Hs; split; [done|lia]|split; [done|lia]].
        -- intros [Hlk Hge]. destruct (decide (ev_Sequence ev = seq)) as [Heq|].
           ++ left. rewrite Heq in Hlk. congruence.
           ++ right. split; [done|lia].
    + assert (¬ (base < seq ≤ ex_Cursor e))%Z as Hr.
      { rewrite <- (inv_dom _ _ Hinv). rewrite Hev. by intros [? ?]. }
      exists l. split; [done|]. split.
      * rewrite Hseq. rewrite !Z.max_l by lia. done.
      * intros ev. rewrite Hin. split; intros [Hlk Hge]; (split; [done|]); [lia|].
        destruct (decide (ev_Sequence ev = seq)); [congruence|lia].
Qed.

End events_after.


(** With the sequence numbers used up the loop never ends. *)
Lemma events_after_full_log_diverges fuel (events : gmap Z Event) seq :
  (0 ≤ seq ≤ uint64_max)%Z → eventsLoop fuel events seq uint64_max = None.
Proof.
  revert seq. induction fuel as [|fuel IH]; intros seq Hs; cbn; [done|].
  rewrite (proj2 (Z.leb_le _ _)) by lia. by rewrite IH by apply u64_range.
Qed.

End execution.

(** ** Witnesses *)

Definition sample_value : @Execution unit :=
  mkExecution "x1" "p1" KindOperation "" 0 "" true 10 0 None None ∅.
Definition sample_event (seq : Z) (kind : string) : @Event unit := mkEvent "x1" seq kind tt None.
Definition sample_exec : @Execution unit :=
  match New 5 sample_value with
  | Ok e => foldl (exec_step 5) e
              [OpAppend (sample_event 1 EventData); OpAppend (sample_event 7 EventData);
               OpRequestCancel 20; OpFinish StatusCanceled "" (sample_event 2 EventTerminal) 30]
  | Err _ => sample_value
  end.

Lemma sample_exec_inv : exec_inv 0 sample_exec.
Proof.
  unfold sample_exec. destruct (New 5 sample_value) as [e|] eqn:Hn; [|vm_compute in Hn; discriminate].
  repeat (apply exec_inv_step; fold (@foldl (@Execution unit))).
  apply (exec_inv_New 5 sample_value); [vm_compute; split; discriminate|exact Hn].
Qed.

Lemma execution_log_invariant_witness :
  exec_inv 0 sample_exec ∧ ex_Status sample_exec = StatusCanceled ∧ ex_Cursor sample_exec = 2%Z.
Proof.
  split; [|vm_compute; done].
  unfold sample_exec. destruct (New 5 sample_value) as [e|] eqn:Hn; [|vm_compute in Hn; discriminate].
  apply (execution_log_invariant 5 sample_value e); [vm_compute; split; discriminate|exact Hn].
Defined.

