(* ===== verification/Bridge.v ===== *)
(** * pkg/bridge/bridge.go: the token manager

    The manager mints asset tickets, asset sessions, gateway tokens,
    confirmation tokens and handle grants, keeps only their hashes, and
    validates, consumes and revokes them. Its state is the record map with
    four secondary indices (token id, plugin, surface, session), the revoke
    floors of the plugins and the saturation flag. SHA-256, the bytes of
    [crypto/rand] and the readings of [time.Now] are arguments. *)

From S2P Require Import Prelude GoLib Index SessionCtx.

Open Scope go_scope.

(** [TokenKind] and [TokenUse] are Go strings. *)
Definition TokenKind := string.
Definition TokenKindAssetTicket : TokenKind := "asset_ticket".
Definition TokenKindAssetSession : TokenKind := "asset_session".
Definition TokenKindPluginGatewayToken : TokenKind := "plugin_gateway_token".
Definition TokenKindConfirmationToken : TokenKind := "confirmation_token".
Definition TokenKindHandleGrant : TokenKind := "handle_grant".

Definition TokenUse := string.
Definition TokenUseSingleUse : TokenUse := "single_use".
Definition TokenUseReusable : TokenUse := "reusable".

(** The errors: the package's variables, then the ones built in place (the
    use mismatch of [validateMintRequest], its missing expiry, the collisions
    and the entropy failure of [Mint], the consumption of a reusable token)
    and the error of [ResourceScope.Validate], which is passed through. *)
Inductive TokErr :=
| ErrTokenInvalid | ErrTokenExpired | ErrTokenReplay | ErrTokenAudience | ErrTokenKind
| ErrTokenRevoked | ErrTokenAlreadyBound | ErrMissingTokenAudience | ErrTokenCapacity
| ErrTokenPluginCapacity | ErrTokenTTLExceeded | ErrTokenRevokeFloorCapacity
| ErrTokenRevision | ErrTokenLimits
| TokenUseMismatch | ExpiresAtRequired | HashCollision | IDCollision | RandomFailed
| NotSingleUse | TokenScopeError (e : SessErr).

#[export] Instance TokErr_eq_dec : EqDecision TokErr.
Proof. solve_decision. Defined.

Definition DefaultMaxTokenRecords : Z := 16384.
Definition DefaultMaxTokenRecordsPerPlugin : Z := 2048.
Definition DefaultMaxTokenRevokeFloors : Z := 4096.
Definition DefaultMaxTokenTTL : Z := 15 * Minute.

Record Audience := mkAudience {
  au_PluginID : string;
  au_PluginInstanceID : string;
  au_PluginVersion : string;
  au_ActiveFingerprint : string;
  au_SurfaceID : string;
  au_SurfaceInstanceID : string;
  au_EntryPath : string;
  au_EntrySHA256 : string;
  au_AssetSessionNonce : string;
  au_RouteRole : string;
  au_OwnerSessionHash : string;
  au_OwnerUserHash : string;
  au_OwnerEnvHash : string;
  au_SessionChannelIDHash : string;
  au_BridgeChannelID : string;
  au_RuntimeInstanceID : string;
  au_RuntimeGenerationID : string;
  au_RuntimeShardID : string;
  au_IPCChannelID : string;
  au_ConnectionNonce : string;
  au_AuditCorrelationID : string;
  au_HandleID : string;
  au_ConfirmationID : string;
  au_Method : string;
  au_RequestHash : string;
  au_PlanHash : string;
  au_TargetDescriptorSHA256 : string;
  au_ResourceScope : ResourceScope;
}.

#[export] Instance Audience_eq_dec : EqDecision Audience.
Proof. solve_decision. Defined.

Record RevisionBinding := mkRevisionBinding {
  rv_PolicyRevision : Z;
  rv_ManagementRevision : Z;
  rv_RevokeEpoch : Z;
}.

#[export] Instance RevisionBinding_eq_dec : EqDecision RevisionBinding.
Proof. solve_decision. Defined.

Record Limits := mkLimits {
  lm_MaxBytesPerSecond : Z;
  lm_MaxTotalBytes : Z;
}.

#[export] Instance Limits_eq_dec : EqDecision Limits.
Proof. solve_decision. Defined.

Record SurfaceSession := mkSurfaceSession {
  sf_PluginID : string;
  sf_PluginInstanceID : string;
  sf_PluginVersion : string;
  sf_SurfaceInstanceID : string;
  sf_SurfaceID : string;
  sf_ActiveFingerprint : string;
  sf_EntryPath : string;
  sf_EntrySHA256 : string;
  sf_AssetSessionNonce : string;
  sf_RouteRole : string;
  sf_RuntimeGenerationID : string;
  sf_OwnerSessionHash : string;
  sf_OwnerUserHash : string;
  sf_OwnerEnvHash : string;
  sf_SessionChannelIDHash : string;
  sf_BridgeNonce : string;
  sf_PolicyRevision : Z;
  sf_ManagementRevision : Z;
  sf_RevokeEpoch : Z;
  sf_CreatedAt : time;
  sf_ExpiresAt : time;
}.

Record MintRequest := mkMintRequest {
  mr_Kind : TokenKind;
  mr_Use : TokenUse;
  mr_Audience : Audience;
  mr_Revision : RevisionBinding;
  mr_ExpiresAt : time;
  mr_Now : time;
  mr_Limits : Limits;
}.

Record MintedToken := mkMintedToken {
  mt_Kind : TokenKind;
  mt_TokenID : string;
  mt_Token : string;
  mt_Audience : Audience;
  mt_Revision : RevisionBinding;
  mt_IssuedAt : time;
  mt_ExpiresAt : time;
  mt_Nonce : string;
  mt_Use : TokenUse;
  mt_Limits : Limits;
}.

Record ChannelBinding := mkChannelBinding {
  cb_BridgeChannelID : string;
}.

#[export] Instance ChannelBinding_eq_dec : EqDecision ChannelBinding.
Proof. solve_decision. Defined.

Record ValidateRequest := mkValidateRequest {
  vr_Kind : TokenKind;
  vr_Token : string;
  vr_Audience : Audience;
  vr_Revision : RevisionBinding;
  vr_Now : time;
  vr_Consume : bool;
  vr_Bind : option ChannelBinding;
}.

Record ValidateTokenIDRequest := mkValidateTokenIDRequest {
  vi_Kind : TokenKind;
  vi_TokenID : string;
  vi_Audience : Audience;
  vi_Revision : RevisionBinding;
  vi_Now : time;
  vi_Consume : bool;
}.

Record InspectRequest := mkInspectRequest {
  ir_Kind : TokenKind;
  ir_Token : string;
  ir_Now : time;
}.

Record TokenRecord := mkTokenRecord {
  tr_Kind : TokenKind;
  tr_TokenID : string;
  tr_TokenHash : string;
  tr_Audience : Audience;
  tr_Revision : RevisionBinding;
  tr_IssuedAt : time;
  tr_ExpiresAt : time;
  tr_Nonce : string;
  tr_Use : TokenUse;
  tr_Limits : Limits;
  tr_Consumed : bool;
  tr_ConsumedAt : option time;
  tr_Revoked : bool;
  tr_RevokedAt : option time;
  tr_BoundBridgeChannelID : string;
}.

#[export] Instance TokenRecord_eq_dec : EqDecision TokenRecord.
Proof. solve_decision. Defined.

Definition set_Revoked (revoked : bool) (at_ : option time) (r : TokenRecord) : TokenRecord :=
    mkTokenRecord (tr_Kind r) (tr_TokenID r) (tr_TokenHash r) (tr_Audience r) (tr_Revision r)
    (tr_IssuedAt r) (tr_ExpiresAt r) (tr_Nonce r) (tr_Use r) (tr_Limits r) (tr_Consumed r)
    (tr_ConsumedAt r) revoked at_ (tr_BoundBridgeChannelID r).

Definition set_Consumed (consumed : bool) (at_ : option time) (r : TokenRecord) : TokenRecord :=
    mkTokenRecord (tr_Kind r) (tr_TokenID r) (tr_TokenHash r) (tr_Audience r) (tr_Revision r)
    (tr_IssuedAt r) (tr_ExpiresAt r) (tr_Nonce r) (tr_Use r) (tr_Limits r) consumed at_
    (tr_Revoked r) (tr_RevokedAt r) (tr_BoundBridgeChannelID r).

Definition set_Bound (channel : string) (r : TokenRecord) : TokenRecord :=
    mkTokenRecord (tr_Kind r) (tr_TokenID r) (tr_TokenHash r) (tr_Audience r) (tr_Revision r)
    (tr_IssuedAt r) (tr_ExpiresAt r) (tr_Nonce r) (tr_Use r) (tr_Limits r) (tr_Consumed r)
    (tr_ConsumedAt r) (tr_Revoked r) (tr_RevokedAt r) channel.

Record TokenManagerOptions := mkTokenManagerOptions {
  to_MaxRecords : Z;
  to_MaxRecordsPerPlugin : Z;
  to_MaxRevokeFloors : Z;
  to_MaxTTL : Z;
}.

Record SessionTokenRevocationCounts := mkSessionTokenRevocationCounts {
  sc_AssetTickets : Z;
  sc_AssetSessions : Z;
  sc_PluginGatewayTokens : Z;
  sc_ConfirmationTokens : Z;
  sc_HandleGrants : Z;
}.

#[export] Instance SessionTokenRevocationCounts_eq_dec : EqDecision SessionTokenRevocationCounts.
Proof. solve_decision. Defined.

Record TokenManager := mkTokenManager {
  tm_options : TokenManagerOptions;
  tm_records : gmap string TokenRecord;
  tm_idIndex : gmap string string;
  tm_pluginIndex : Index string;
  tm_surfaceIndex : Index string;
  tm_sessionIndex : Index SessionScope;
  tm_pluginRevokeFloors : gmap string Z;
  tm_revokeFloorsSaturated : bool;
  tm_sessionRevokeScanned : Z;
}.

Definition set_records (records : gmap string TokenRecord) (m : TokenManager) : TokenManager :=
  mkTokenManager (tm_options m) records (tm_idIndex m) (tm_pluginIndex m) (tm_surfaceIndex m)
    (tm_sessionIndex m) (tm_pluginRevokeFloors m) (tm_revokeFloorsSaturated m)
    (tm_sessionRevokeScanned m).

Definition normalizeTokenManagerOptions (options : TokenManagerOptions) : TokenManagerOptions :=
  let maxRecords :=
    if (to_MaxRecords options <=? 0)%Z then DefaultMaxTokenRecords else to_MaxRecords options in
  let perPlugin :=
    if (to_MaxRecordsPerPlugin options <=? 0)%Z then DefaultMaxTokenRecordsPerPlugin
    else to_MaxRecordsPerPlugin options in
  let perPlugin := if (maxRecords <? perPlugin)%Z then maxRecords else perPlugin in
  let floors :=
    if (to_MaxRevokeFloors options <=? 0)%Z then DefaultMaxTokenRevokeFloors
    else to_MaxRevokeFloors options in
  let ttl := if (to_MaxTTL options <=? 0)%Z then DefaultMaxTokenTTL else to_MaxTTL options in
  mkTokenManagerOptions maxRecords perPlugin floors ttl.

Definition NewTokenManager (options : list TokenManagerOptions) : TokenManager :=
  let configured :=
    match options with [] => mkTokenManagerOptions 0 0 0 0 | configured :: _ => configured end in
  mkTokenManager (normalizeTokenManagerOptions configured) ∅ ∅ ∅ ∅ ∅ ∅ false 0.

(** ** Index keys *)

Definition tokenIDIndexKey (kind : TokenKind) (tokenID : string) : string :=
  kind +:+ nul +:+ tokenID.

Definition ownerPluginIndexKey (ownerEnvHash pluginInstanceID : string) : Result TokErr string :=
  let ownerEnvHash := TrimSpace ownerEnvHash in
  let pluginInstanceID := TrimSpace pluginInstanceID in
  if bool_decide (ownerEnvHash = "") || bool_decide (pluginInstanceID = "")
  then Err ErrMissingTokenAudience
  else Ok (ownerEnvHash +:+ nul +:+ pluginInstanceID).

Definition ownerSurfaceIndexKey (ownerEnvHash pluginInstanceID surfaceInstanceID : string) :
    Result TokErr string :=
  let? pluginKey := ownerPluginIndexKey ownerEnvHash pluginInstanceID in
  let surfaceInstanceID := TrimSpace surfaceInstanceID in
  if bool_decide (surfaceInstanceID = "") then Err ErrMissingTokenAudience
  else Ok (pluginKey +:+ nul +:+ surfaceInstanceID).

Definition zeroResourceScope : ResourceScope := mkResourceScope "" "" "".

Definition tokenAudienceOwnerEnvHash (kind : TokenKind) (audience : Audience) :
    Result TokErr string :=
  if bool_decide (kind = TokenKindHandleGrant) then
    match ResourceScope_Validate (au_ResourceScope audience) with
    | Err e => Err (TokenScopeError e)
    | Ok _ => Ok (rs_OwnerEnvHash (au_ResourceScope audience))
    end
  else if bool_decide (kind = TokenKindAssetTicket) || bool_decide (kind = TokenKindAssetSession) ||
          bool_decide (kind = TokenKindPluginGatewayToken) ||
          bool_decide (kind = TokenKindConfirmationToken) then
    if negb (bool_decide (au_ResourceScope audience = zeroResourceScope)) then Err ErrTokenAudience
    else Ok (TrimSpace (au_OwnerEnvHash audience))
  else Err ErrTokenKind.

Definition tokenPluginIndexKey (kind : TokenKind) (audience : Audience) : Result TokErr string :=
  let? ownerEnvHash := tokenAudienceOwnerEnvHash kind audience in
  ownerPluginIndexKey ownerEnvHash (au_PluginInstanceID audience).

(** The zero value of the key when the function fails: [key, _ := f(...)]. *)
Definition or_empty (r : Result TokErr string) : string :=
  match r with Ok key => key | Err _ => "" end.

Definition tokenSurfaceIndexKey (audience : Audience) : string :=
  or_empty (ownerSurfaceIndexKey (au_OwnerEnvHash audience) (au_PluginInstanceID audience)
              (au_SurfaceInstanceID audience)).

Definition zeroSessionScope : SessionScope := mkSessionScope "" "" "" "".

Definition tokenAudienceSessionScope (audience : Audience) : Result TokErr SessionScope :=
  let scope := mkSessionScope (au_OwnerSessionHash audience) (au_OwnerUserHash audience)
                 (au_OwnerEnvHash audience) (au_SessionChannelIDHash audience) in
  match SessionScope_Validate scope with
  | Err _ => Err ErrTokenAudience
  | Ok _ => Ok scope
  end.

Definition or_zero_scope (r : Result TokErr SessionScope) : SessionScope :=
  match r with Ok scope => scope | Err _ => zeroSessionScope end.

(** ** The indices *)

Definition addTokenIndexEntry (index : Index string) (key tokenHash : string) : Index string :=
  if bool_decide (TrimSpace key = "") then index else index_add index key tokenHash.

Definition removeTokenIndexEntry (index : Index string) (key tokenHash : string) : Index string :=
  index_remove index key tokenHash.

Definition addTokenSessionIndexEntry (index : Index SessionScope) (scope : SessionScope)
    (tokenHash : string) : Index SessionScope :=
  if negb (SessionScope_Valid scope) then index else index_add index scope tokenHash.

Definition removeTokenSessionIndexEntry (index : Index SessionScope) (scope : SessionScope)
    (tokenHash : string) : Index SessionScope :=
  index_remove index scope tokenHash.

Definition addRecordLocked (record : TokenRecord) (m : TokenManager) : TokenManager :=
  let h := tr_TokenHash record in
  let pluginKey := or_empty (tokenPluginIndexKey (tr_Kind record) (tr_Audience record)) in
  let scope := or_zero_scope (tokenAudienceSessionScope (tr_Audience record)) in
  mkTokenManager (tm_options m)
    (<[h := record]> (tm_records m))
    (<[tokenIDIndexKey (tr_Kind record) (tr_TokenID record) := h]> (tm_idIndex m))
    (addTokenIndexEntry (tm_pluginIndex m) pluginKey h)
    (addTokenIndexEntry (tm_surfaceIndex m) (tokenSurfaceIndexKey (tr_Audience record)) h)
    (addTokenSessionIndexEntry (tm_sessionIndex m) scope h)
    (tm_pluginRevokeFloors m) (tm_revokeFloorsSaturated m) (tm_sessionRevokeScanned m).

Definition removeRecordLocked (tokenHash : string) (record : TokenRecord) (m : TokenManager) :
    TokenManager :=
  let pluginKey := or_empty (tokenPluginIndexKey (tr_Kind record) (tr_Audience record)) in
  let scope := or_zero_scope (tokenAudienceSessionScope (tr_Audience record)) in
  mkTokenManager (tm_options m)
    (delete tokenHash (tm_records m))
    (delete (tokenIDIndexKey (tr_Kind record) (tr_TokenID record)) (tm_idIndex m))
    (removeTokenIndexEntry (tm_pluginIndex m) pluginKey tokenHash)
    (removeTokenIndexEntry (tm_surfaceIndex m) (tokenSurfaceIndexKey (tr_Audience record)) tokenHash)
    (removeTokenSessionIndexEntry (tm_sessionIndex m) scope tokenHash)
    (tm_pluginRevokeFloors m) (tm_revokeFloorsSaturated m) (tm_sessionRevokeScanned m).

(** The loop over the record map; an entry it removes is not met again. *)
Definition pruneExpiredRecordsLocked (now : time) (m : TokenManager) : TokenManager :=
  foldl (λ m '(tokenHash, record),
           if negb (Before now (tr_ExpiresAt record)) then removeRecordLocked tokenHash record m
           else m)
    m (map_to_list (tm_records m)).

(** ** Minting *)

Definition defaultTokenUse (kind : TokenKind) : TokenUse :=
  if bool_decide (kind = TokenKindAssetTicket) || bool_decide (kind = TokenKindConfirmationToken)
  then TokenUseSingleUse else TokenUseReusable.

Definition validTokenKind (kind : TokenKind) : bool :=
  bool_decide (kind = TokenKindAssetTicket) || bool_decide (kind = TokenKindAssetSession) ||
  bool_decide (kind = TokenKindPluginGatewayToken) ||
  bool_decide (kind = TokenKindConfirmationToken) || bool_decide (kind = TokenKindHandleGrant).

(** [int64] to [uint64] conversion keeps the bits. *)
Definition validNonnegativeSafeInt64 (value : Z) : bool :=
  (0 <=? value)%Z && (u64 value <=? MaxSafeInteger)%Z.

Definition validateRevisionBinding (revision : RevisionBinding) : Result TokErr unit :=
  if negb (IsSafeUnsignedInteger (rv_PolicyRevision revision)) ||
     negb (IsSafeUnsignedInteger (rv_ManagementRevision revision)) ||
     negb (IsPositiveSafeUnsignedInteger (rv_RevokeEpoch revision))
  then Err ErrTokenRevision else Ok tt.

(** The closure of [validateTokenAudience]. *)
Fixpoint require (values : list string) : Result TokErr unit :=
  match values with
  | [] => Ok tt
  | value :: rest => if bool_decide (TrimSpace value = "") then Err ErrMissingTokenAudience
                     else require rest
  end.

Definition validateTokenAudience (kind : TokenKind) (a : Audience) : Result TokErr unit :=
  let? _owner := tokenAudienceOwnerEnvHash kind a in
  let? _user :=
    if negb (bool_decide (TrimSpace (au_OwnerUserHash a) = "")) &&
       negb (bool_decide (TrimSpace (au_OwnerEnvHash a) = "")) then
      match ResourceScope_Validate
              (mkResourceScope ScopeUser (au_OwnerEnvHash a) (au_OwnerUserHash a)) with
      | Err _ => Err ErrTokenAudience
      | Ok _ => Ok tt
      end
    else Ok tt in
  if bool_decide (kind = TokenKindAssetTicket) || bool_decide (kind = TokenKindAssetSession) then
    require [au_PluginID a; au_PluginVersion a; au_SurfaceID a; au_SurfaceInstanceID a;
      au_EntryPath a; au_EntrySHA256 a; au_AssetSessionNonce a; au_RouteRole a;
      au_OwnerSessionHash a; au_OwnerUserHash a; au_OwnerEnvHash a; au_SessionChannelIDHash a;
      au_RuntimeGenerationID a]
  else if bool_decide (kind = TokenKindPluginGatewayToken) then
    require [au_PluginID a; au_PluginVersion a; au_SurfaceID a; au_SurfaceInstanceID a;
      au_EntryPath a; au_EntrySHA256 a; au_AssetSessionNonce a; au_RouteRole a;
      au_OwnerSessionHash a; au_OwnerUserHash a; au_OwnerEnvHash a; au_SessionChannelIDHash a;
      au_BridgeChannelID a; au_RuntimeGenerationID a]
  else if bool_decide (kind = TokenKindConfirmationToken) then
    require [au_PluginID a; au_PluginVersion a; au_SurfaceID a; au_SurfaceInstanceID a;
      au_EntryPath a; au_EntrySHA256 a; au_AssetSessionNonce a; au_RouteRole a;
      au_OwnerSessionHash a; au_OwnerUserHash a; au_OwnerEnvHash a; au_SessionChannelIDHash a;
      au_BridgeChannelID a; au_ConfirmationID a; au_Method a; au_RequestHash a; au_PlanHash a;
      au_TargetDescriptorSHA256 a; au_RuntimeGenerationID a]
  else if bool_decide (kind = TokenKindHandleGrant) then
    let? _fields := require [au_RuntimeGenerationID a; au_OwnerSessionHash a; au_OwnerUserHash a;
      au_OwnerEnvHash a; au_SessionChannelIDHash a; au_HandleID a; au_Method a] in
    if negb (bool_decide (rs_OwnerEnvHash (au_ResourceScope a) = au_OwnerEnvHash a)) ||
       (bool_decide (rs_Kind (au_ResourceScope a) = ScopeUser) &&
        negb (bool_decide (rs_OwnerUserHash (au_ResourceScope a) = au_OwnerUserHash a)))
    then Err ErrTokenAudience else Ok tt
  else Err ErrTokenKind.

(** [wall] is the clock this call reads when the request has no time. *)
Definition validateMintRequest (wall : time) (req : MintRequest) : Result TokErr unit :=
  if negb (validTokenKind (mr_Kind req)) then Err ErrTokenKind
  else
  let expectedUse := defaultTokenUse (mr_Kind req) in
  if negb (bool_decide (mr_Use req = "")) && negb (bool_decide (mr_Use req = expectedUse))
  then Err TokenUseMismatch
  else if bool_decide (TrimSpace (au_PluginInstanceID (mr_Audience req)) = "") ||
          bool_decide (TrimSpace (au_ActiveFingerprint (mr_Audience req)) = "")
  then Err ErrMissingTokenAudience
  else
  let? _audience := validateTokenAudience (mr_Kind req) (mr_Audience req) in
  let? _revision := validateRevisionBinding (mr_Revision req) in
  if negb (validNonnegativeSafeInt64 (lm_MaxBytesPerSecond (mr_Limits req))) ||
     negb (validNonnegativeSafeInt64 (lm_MaxTotalBytes (mr_Limits req)))
  then Err ErrTokenLimits
  else if IsZero (mr_ExpiresAt req) then Err ExpiresAtRequired
  else if negb (After (mr_ExpiresAt req) (or_wall wall (mr_Now req))) then Err ErrTokenExpired
  else Ok tt.

(** What one call of [Mint] takes from its environment: the two readings of
    the clock and the three reads of [crypto/rand] ([None] when a read
    fails). *)
Record MintEnv := mkMintEnv {
  me_wall_validate : time;
  me_wall_prepare : time;
  me_rand_id : option string;
  me_rand_nonce : option string;
  me_rand_secret : option string;
}.

Definition randomString (raw : option string) : Result TokErr string :=
  match raw with None => Err RandomFailed | Some raw => Ok (base64_raw_url raw) end.

Definition prefixedID (raw : option string) (kind : TokenKind) : Result TokErr string :=
  let? suffix := randomString raw in
  Ok ((if bool_decide (kind = TokenKindAssetTicket) then "at_"
       else if bool_decide (kind = TokenKindAssetSession) then "as_"
       else if bool_decide (kind = TokenKindPluginGatewayToken) then "pgt_"
       else if bool_decide (kind = TokenKindConfirmationToken) then "ct_"
       else if bool_decide (kind = TokenKindHandleGrant) then "hg_"
       else "tok_") +:+ suffix).

Section token_manager.
Context (sha256 : string → string).

Definition hashToken (token : string) : string := "sha256:" +:+ hex_encode (sha256 token).

Definition prepareMint (env : MintEnv) (m : TokenManager) (req : MintRequest) :
    Result TokErr (TokenRecord * string) :=
  let? _valid := validateMintRequest (me_wall_validate env) req in
  let now := or_wall (me_wall_prepare env) (mr_Now req) in
  if (to_MaxTTL (tm_options m) <? Sub (mr_ExpiresAt req) now)%Z then Err ErrTokenTTLExceeded
  else
  let? tokenID := prefixedID (me_rand_id env) (mr_Kind req) in
  let? nonce := randomString (me_rand_nonce env) in
  let? secret := randomString (me_rand_secret env) in
  let cleartext := mr_Kind req +:+ "." +:+ tokenID +:+ "." +:+ secret in
  Ok (mkTokenRecord (mr_Kind req) tokenID (hashToken cleartext) (mr_Audience req) (mr_Revision req)
        now (UTC (mr_ExpiresAt req)) nonce (defaultTokenUse (mr_Kind req)) (mr_Limits req)
        false None false None "", cleartext).

Definition mintedToken (record : TokenRecord) (cleartext : string) : MintedToken :=
  mkMintedToken (tr_Kind record) (tr_TokenID record) cleartext (tr_Audience record)
    (tr_Revision record) (tr_IssuedAt record) (tr_ExpiresAt record) (tr_Nonce record)
    (tr_Use record) (tr_Limits record).

(** The part of [Mint] that runs under the lock. *)
Definition mintLocked (pluginKey : string) (record : TokenRecord) (cleartext : string)
    (m : TokenManager) : TokenManager * Result TokErr MintedToken :=
  let m := pruneExpiredRecordsLocked (tr_IssuedAt record) m in
  let floor := default 0%Z (tm_pluginRevokeFloors m !! pluginKey) in
  if tm_revokeFloorsSaturated m && bool_decide (tm_pluginRevokeFloors m !! pluginKey = None)
  then (m, Err ErrTokenRevokeFloorCapacity)
  else if (0 <? floor)%Z && (rv_RevokeEpoch (tr_Revision record) <? floor)%Z
  then (m, Err ErrTokenRevoked)
  else if (to_MaxRecords (tm_options m) <=? Z.of_nat (size (tm_records m)))%Z
  then (m, Err ErrTokenCapacity)
  else if (to_MaxRecordsPerPlugin (tm_options m) <=?
             Z.of_nat (size (index_get (tm_pluginIndex m) pluginKey)))%Z
  then (m, Err ErrTokenPluginCapacity)
  else if negb (bool_decide (tm_records m !! tr_TokenHash record = None))
  then (m, Err HashCollision)
  else if negb (bool_decide (tm_idIndex m !! tokenIDIndexKey (tr_Kind record) (tr_TokenID record) = None))
  then (m, Err IDCollision)
  else (addRecordLocked record m, Ok (mintedToken record cleartext)).

Definition Mint (env : MintEnv) (m : TokenManager) (req : MintRequest) :
    TokenManager * Result TokErr MintedToken :=
  match prepareMint env m req with
  | Err e => (m, Err e)
  | Ok (record, cleartext) =>
     match tokenPluginIndexKey (tr_Kind record) (tr_Audience record) with
     | Err e => (m, Err e)
     | Ok pluginKey => mintLocked pluginKey record cleartext m
     end
  end.

(** ** Validation *)

Definition audienceMatches (expected got : Audience) : bool :=
  bool_decide (au_PluginID expected = au_PluginID got) &&
  bool_decide (au_PluginInstanceID expected = au_PluginInstanceID got) &&
  bool_decide (au_PluginVersion expected = au_PluginVersion got) &&
  bool_decide (au_ActiveFingerprint expected = au_ActiveFingerprint got) &&
  bool_decide (au_SurfaceID expected = au_SurfaceID got) &&
  bool_decide (au_SurfaceInstanceID expected = au_SurfaceInstanceID got) &&
  bool_decide (au_EntryPath expected = au_EntryPath got) &&
  bool_decide (au_EntrySHA256 expected = au_EntrySHA256 got) &&
  bool_decide (au_AssetSessionNonce expected = au_AssetSessionNonce got) &&
  bool_decide (au_RouteRole expected = au_RouteRole got) &&
  bool_decide (au_OwnerSessionHash expected = au_OwnerSessionHash got) &&
  bool_decide (au_OwnerUserHash expected = au_OwnerUserHash got) &&
  bool_decide (au_OwnerEnvHash expected = au_OwnerEnvHash got) &&
  bool_decide (au_SessionChannelIDHash expected = au_SessionChannelIDHash got) &&
  bool_decide (au_BridgeChannelID expected = au_BridgeChannelID got) &&
  bool_decide (au_RuntimeInstanceID expected = au_RuntimeInstanceID got) &&
  bool_decide (au_RuntimeGenerationID expected = au_RuntimeGenerationID got) &&
  bool_decide (au_RuntimeShardID expected = au_RuntimeShardID got) &&
  bool_decide (au_IPCChannelID expected = au_IPCChannelID got) &&
  bool_decide (au_ConnectionNonce expected = au_ConnectionNonce got) &&
  bool_decide (au_AuditCorrelationID expected = au_AuditCorrelationID got) &&
  bool_decide (au_HandleID expected = au_HandleID got) &&
  bool_decide (au_ConfirmationID expected = au_ConfirmationID got) &&
  bool_decide (au_Method expected = au_Method got) &&
  bool_decide (au_RequestHash expected = au_RequestHash got) &&
  bool_decide (au_PlanHash expected = au_PlanHash got) &&
  bool_decide (au_TargetDescriptorSHA256 expected = au_TargetDescriptorSHA256 got) &&
  bool_decide (au_ResourceScope expected = au_ResourceScope got).

(** The checks both loads make on the record they find. *)
Definition liveRecord (kind : TokenKind) (now : time) (record : TokenRecord) :
    Result TokErr TokenRecord :=
  if negb (bool_decide (tr_Kind record = kind)) then Err ErrTokenKind
  else if tr_Revoked record then Err ErrTokenRevoked
  else if negb (Before now (tr_ExpiresAt record)) then Err ErrTokenExpired
  else if tr_Consumed record then Err ErrTokenReplay
  else Ok record.

Definition loadTokenRecordLocked (m : TokenManager) (req : InspectRequest) (tokenHash : string) :
    Result TokErr TokenRecord :=
  match tm_records m !! tokenHash with
  | None => Err ErrTokenInvalid
  | Some record => liveRecord (ir_Kind req) (ir_Now req) record
  end.

(** A dangling id is dropped from the index. *)
Definition loadTokenRecordByIDLocked (m : TokenManager) (kind : TokenKind) (tokenID : string)
    (now : time) : TokenManager * Result TokErr (string * TokenRecord) :=
  match tm_idIndex m !! tokenIDIndexKey kind tokenID with
  | None => (m, Err ErrTokenInvalid)
  | Some tokenHash =>
     match tm_records m !! tokenHash with
     | None =>
        (mkTokenManager (tm_options m) (tm_records m)
           (delete (tokenIDIndexKey kind tokenID) (tm_idIndex m)) (tm_pluginIndex m)
           (tm_surfaceIndex m) (tm_sessionIndex m) (tm_pluginRevokeFloors m)
           (tm_revokeFloorsSaturated m) (tm_sessionRevokeScanned m), Err ErrTokenInvalid)
     | Some record => (m, rmap (λ record, (tokenHash, record)) (liveRecord kind now record))
     end
  end.

(** [if req.Bind != nil { ... }]. *)
Definition bindRecord (bind : option ChannelBinding) (record : TokenRecord) :
    Result TokErr TokenRecord :=
  match bind with
  | None => Ok record
  | Some bind =>
     if bool_decide (cb_BridgeChannelID bind = "") then Err ErrMissingTokenAudience
     else if negb (bool_decide (tr_BoundBridgeChannelID record = "")) &&
             negb (bool_decide (tr_BoundBridgeChannelID record = cb_BridgeChannelID bind))
     then Err ErrTokenAlreadyBound
     else Ok (set_Bound (cb_BridgeChannelID bind) record)
  end.

(** [if req.Consume { ... }]. *)
Definition consumeRecord (consume : bool) (now : time) (record : TokenRecord) :
    Result TokErr TokenRecord :=
  if consume then
    if negb (bool_decide (tr_Use record = TokenUseSingleUse)) then Err NotSingleUse
    else Ok (set_Consumed true (Some now) record)
  else Ok record.

Definition audienceAndRevision (audience : Audience) (revision : RevisionBinding)
    (record : TokenRecord) : Result TokErr unit :=
  if negb (audienceMatches (tr_Audience record) audience) then Err ErrTokenAudience
  else if negb (bool_decide (tr_Revision record = revision)) then Err ErrTokenRevoked
  else Ok tt.

(** The first check on [Bind], before the audience is compared. *)
Definition bindConflict (bind : option ChannelBinding) (record : TokenRecord) : bool :=
  match bind with
  | None => false
  | Some bind =>
     negb (bool_decide (au_BridgeChannelID (tr_Audience record) = "")) &&
     negb (bool_decide (cb_BridgeChannelID bind = "")) &&
     negb (bool_decide (au_BridgeChannelID (tr_Audience record) = cb_BridgeChannelID bind))
  end.

Definition Validate (wall : time) (m : TokenManager) (req : ValidateRequest) :
    TokenManager * Result TokErr TokenRecord :=
  let now := or_wall wall (vr_Now req) in
  let tokenHash := hashToken (vr_Token req) in
  let result :=
    let? record := loadTokenRecordLocked m (mkInspectRequest (vr_Kind req) (vr_Token req) now)
                     tokenHash in
    if bindConflict (vr_Bind req) record then Err ErrTokenAlreadyBound
    else
    let? _match := audienceAndRevision (vr_Audience req) (vr_Revision req) record in
    let? record := bindRecord (vr_Bind req) record in
    consumeRecord (vr_Consume req) now record in
  match result with
  | Err e => (m, Err e)
  | Ok record => (set_records (<[tokenHash := record]> (tm_records m)) m, Ok record)
  end.

Definition ValidateID (wall : time) (m : TokenManager) (req : ValidateTokenIDRequest) :
    TokenManager * Result TokErr TokenRecord :=
  let tokenID := TrimSpace (vi_TokenID req) in
  if bool_decide (tokenID = "") then (m, Err ErrTokenInvalid)
  else
  let now := or_wall wall (vi_Now req) in
  let '(m, loaded) := loadTokenRecordByIDLocked m (vi_Kind req) tokenID now in
  match loaded with
  | Err e => (m, Err e)
  | Ok (tokenHash, record) =>
     let result :=
       let? _match := audienceAndRevision (vi_Audience req) (vi_Revision req) record in
       consumeRecord (vi_Consume req) now record in
     match result with
     | Err e => (m, Err e)
     | Ok record => (set_records (<[tokenHash := record]> (tm_records m)) m, Ok record)
     end
  end.

Definition Inspect_ (wall : time) (m : TokenManager) (req : InspectRequest) :
    Result TokErr TokenRecord :=
  if bool_decide (TrimSpace (ir_Token req) = "") then Err ErrTokenInvalid
  else loadTokenRecordLocked m
         (mkInspectRequest (ir_Kind req) (ir_Token req) (or_wall wall (ir_Now req)))
         (hashToken (ir_Token req)).

End token_manager.

(** ** Revocation *)

Definition increment (kind : TokenKind) (c : SessionTokenRevocationCounts) :
    SessionTokenRevocationCounts :=
  let '(mkSessionTokenRevocationCounts a b g t h) := c in
  if bool_decide (kind = TokenKindAssetTicket) then mkSessionTokenRevocationCounts (incr64 a) b g t h
  else if bool_decide (kind = TokenKindAssetSession) then
    mkSessionTokenRevocationCounts a (incr64 b) g t h
  else if bool_decide (kind = TokenKindPluginGatewayToken) then
    mkSessionTokenRevocationCounts a b (incr64 g) t h
  else if bool_decide (kind = TokenKindConfirmationToken) then
    mkSessionTokenRevocationCounts a b g (incr64 t) h
  else if bool_decide (kind = TokenKindHandleGrant) then
    mkSessionTokenRevocationCounts a b g t (incr64 h)
  else c.

Definition zeroCounts : SessionTokenRevocationCounts := mkSessionTokenRevocationCounts 0 0 0 0 0.

(** One iteration of the loop of [RevokeSessionScope]. *)
Definition revokeSessionStep (scope : SessionScope) (now : time)
    (acc : TokenManager * SessionTokenRevocationCounts) (tokenHash : string) :
    TokenManager * SessionTokenRevocationCounts :=
  let '(m, counts) := acc in
  let unindexed records :=
    mkTokenManager (tm_options m) records (tm_idIndex m) (tm_pluginIndex m) (tm_surfaceIndex m)
      (removeTokenSessionIndexEntry (tm_sessionIndex m) scope tokenHash)
      (tm_pluginRevokeFloors m) (tm_revokeFloorsSaturated m) (incr64 (tm_sessionRevokeScanned m)) in
  match tm_records m !! tokenHash with
  | None => (unindexed (tm_records m), counts)
  | Some record =>
     if tr_Revoked record then (unindexed (tm_records m), counts)
     else (unindexed (<[tokenHash := set_Revoked true (Some now) record]> (tm_records m)),
           increment (tr_Kind record) counts)
  end.

Definition RevokeSessionScope (wall : time) (m : TokenManager) (scope : SessionScope) (now : time) :
    TokenManager * Result TokErr SessionTokenRevocationCounts :=
  match SessionScope_Validate scope with
  | Err _ => (m, Err ErrTokenAudience)
  | Ok _ =>
     let now := or_wall wall now in
     let m := mkTokenManager (tm_options m) (tm_records m) (tm_idIndex m) (tm_pluginIndex m)
                (tm_surfaceIndex m) (tm_sessionIndex m) (tm_pluginRevokeFloors m)
                (tm_revokeFloorsSaturated m) 0 in
     let '(m, counts) := foldl (revokeSessionStep scope now) (m, zeroCounts)
                           (elements (index_get (tm_sessionIndex m) scope)) in
     (m, Ok counts)
  end.

Definition PreviewSessionScopeRevocation (m : TokenManager) (scope : SessionScope) :
    Result TokErr SessionTokenRevocationCounts :=
  match SessionScope_Validate scope with
  | Err _ => Err ErrTokenAudience
  | Ok _ =>
     Ok (foldl (λ counts tokenHash,
                  match tm_records m !! tokenHash with
                  | Some record => if tr_Revoked record then counts
                                   else increment (tr_Kind record) counts
                  | None => counts
                  end)
           zeroCounts (elements (index_get (tm_sessionIndex m) scope)))
  end.

(** One iteration of the loops of [RevokePlugin], [RevokeSurface] and
    [RevokeSurfaceGeneration], which differ in the records they select. *)
Definition revokeStep (select : TokenRecord → bool) (now : time)
    (acc : gmap string TokenRecord * Z) (key : string) : gmap string TokenRecord * Z :=
  let '(records, count) := acc in
  match records !! key with
  | None => acc
  | Some record =>
     if negb (select record) || tr_Revoked record then acc
     else (<[key := set_Revoked true (Some now) record]> records, (count + 1)%Z)
  end.

Definition revokeLoop (select : TokenRecord → bool) (now : time) (keys : gset string)
    (m : TokenManager) : TokenManager * Z :=
  let '(records, count) := foldl (revokeStep select now) (tm_records m, 0%Z) (elements keys) in
  (set_records records m, count).

(** The floor update of [RevokePlugin]. *)
Definition raiseFloor (pluginKey : string) (minimumRevokeEpoch : Z) (m : TokenManager) :
    TokenManager * option TokErr :=
  let set floors saturated :=
    mkTokenManager (tm_options m) (tm_records m) (tm_idIndex m) (tm_pluginIndex m)
      (tm_surfaceIndex m) (tm_sessionIndex m) floors saturated (tm_sessionRevokeScanned m) in
  if (default 0 (tm_pluginRevokeFloors m !! pluginKey) <? minimumRevokeEpoch)%Z then
    if bool_decide (tm_pluginRevokeFloors m !! pluginKey = None) &&
       (to_MaxRevokeFloors (tm_options m) <=? Z.of_nat (size (tm_pluginRevokeFloors m)))%Z
    then (set (tm_pluginRevokeFloors m) true, Some ErrTokenRevokeFloorCapacity)
    else (set (<[pluginKey := minimumRevokeEpoch]> (tm_pluginRevokeFloors m))
            (tm_revokeFloorsSaturated m), None)
  else (m, None).

(** Go returns the count next to the error, so the result is a pair. *)
Definition RevokePlugin (wall : time) (m : TokenManager) (ownerEnvHash pluginInstanceID : string)
    (minimumRevokeEpoch : Z) (now : time) : TokenManager * (Z * option TokErr) :=
  match ownerPluginIndexKey ownerEnvHash pluginInstanceID with
  | Err e => (m, (0%Z, Some e))
  | Ok pluginKey =>
     if negb (IsPositiveSafeUnsignedInteger minimumRevokeEpoch)
     then (m, (0%Z, Some ErrTokenRevision))
     else
     let now := or_wall wall now in
     let '(m, floorErr) := raiseFloor pluginKey minimumRevokeEpoch m in
     let '(m, count) :=
       revokeLoop (λ record, (rv_RevokeEpoch (tr_Revision record) <? minimumRevokeEpoch)%Z) now
         (index_get (tm_pluginIndex m) pluginKey) m in
     (m, (count, floorErr))
  end.

Definition RevokeSurface (wall : time) (m : TokenManager)
    (ownerEnvHash pluginInstanceID surfaceInstanceID : string) (now : time) : TokenManager * Z :=
  match ownerSurfaceIndexKey ownerEnvHash pluginInstanceID surfaceInstanceID with
  | Err _ => (m, 0%Z)
  | Ok surfaceKey =>
     revokeLoop (λ _, true) (or_wall wall now) (index_get (tm_surfaceIndex m) surfaceKey) m
  end.

Definition audience (s : SurfaceSession) (bridgeChannelID : string) : Audience :=
  mkAudience (sf_PluginID s) (sf_PluginInstanceID s) (sf_PluginVersion s) (sf_ActiveFingerprint s)
    (sf_SurfaceID s) (sf_SurfaceInstanceID s) (sf_EntryPath s) (sf_EntrySHA256 s)
    (sf_AssetSessionNonce s) (sf_RouteRole s) (sf_OwnerSessionHash s) (sf_OwnerUserHash s)
    (sf_OwnerEnvHash s) (sf_SessionChannelIDHash s) bridgeChannelID "" (sf_RuntimeGenerationID s)
    "" "" "" "" "" "" "" "" "" "" zeroResourceScope.

Definition revision (s : SurfaceSession) : RevisionBinding :=
  mkRevisionBinding (sf_PolicyRevision s) (sf_ManagementRevision s) (sf_RevokeEpoch s).

Definition tokenMatchesSurfaceGeneration (record : TokenRecord) (expected : Audience)
    (revision : RevisionBinding) : bool :=
  let actual := tr_Audience record in
  bool_decide (tr_Revision record = revision) &&
  bool_decide (au_PluginID actual = au_PluginID expected) &&
  bool_decide (au_PluginInstanceID actual = au_PluginInstanceID expected) &&
  bool_decide (au_PluginVersion actual = au_PluginVersion expected) &&
  bool_decide (au_ActiveFingerprint actual = au_ActiveFingerprint expected) &&
  bool_decide (au_SurfaceID actual = au_SurfaceID expected) &&
  bool_decide (au_SurfaceInstanceID actual = au_SurfaceInstanceID expected) &&
  bool_decide (au_EntryPath actual = au_EntryPath expected) &&
  bool_decide (au_EntrySHA256 actual = au_EntrySHA256 expected) &&
  bool_decide (au_AssetSessionNonce actual = au_AssetSessionNonce expected) &&
  bool_decide (au_RouteRole actual = au_RouteRole expected) &&
  bool_decide (au_OwnerSessionHash actual = au_OwnerSessionHash expected) &&
  bool_decide (au_OwnerUserHash actual = au_OwnerUserHash expected) &&
  bool_decide (au_OwnerEnvHash actual = au_OwnerEnvHash expected) &&
  bool_decide (au_SessionChannelIDHash actual = au_SessionChannelIDHash expected) &&
  bool_decide (au_RuntimeGenerationID actual = au_RuntimeGenerationID expected).

Definition RevokeSurfaceGeneration (wall : time) (m : TokenManager) (session : SurfaceSession)
    (now : time) : TokenManager * Z :=
  match ownerSurfaceIndexKey (sf_OwnerEnvHash session) (sf_PluginInstanceID session)
          (sf_SurfaceInstanceID session) with
  | Err _ => (m, 0%Z)
  | Ok surfaceKey =>
     if bool_decide (TrimSpace (sf_AssetSessionNonce session) = "") then (m, 0%Z)
     else
     let expectedAudience := audience session "" in
     let expectedRevision := revision session in
     revokeLoop (λ record, tokenMatchesSurfaceGeneration record expectedAudience expectedRevision)
       (or_wall wall now) (index_get (tm_surfaceIndex m) surfaceKey) m
  end.

Definition RevokeTokenID (wall : time) (m : TokenManager) (kind : TokenKind) (tokenID : string)
    (now : time) : TokenManager * bool :=
  if bool_decide (TrimSpace tokenID = "") then (m, false)
  else
  let now := or_wall wall now in
  match tm_idIndex m !! tokenIDIndexKey kind tokenID with
  | None => (m, false)
  | Some key =>
     match tm_records m !! key with
     | None => (m, false)
     | Some record =>
        if negb (bool_decide (tr_Kind record = kind)) ||
           negb (bool_decide (tr_TokenID record = tokenID)) || tr_Revoked record
        then (m, false)
        else (set_records (<[key := set_Revoked true (Some now) record]> (tm_records m)) m, true)
     end
  end.

(** The records in the order of the map iteration. *)
Definition Snapshot (m : TokenManager) : list TokenRecord := (map_to_list (tm_records m)).*2.
