(* ===== verification/BridgeProps.v ===== *)
(** * Theorems on the token manager

    The invariant that ties the record map to its four indices, its capacity
    bounds and its revoke floors, kept by every operation; what a validation
    accepts; and the three permanence results: a consumed token stays spent,
    a revoked plugin epoch stays closed, a revoked session stays revoked. *)

From S2P Require Import Prelude GoLib Index SessionCtx Bridge.

Open Scope go_scope.

(** ** A key with a NUL byte is not blank *)

Lemma strip_keeps w fuel s :
  (∀ l, byte 0 ∈ l → byte 0 ∈ drop (w l) l) → byte 0 ∈ s → byte 0 ∈ strip w fuel s.
Proof.
  intros Hw. revert s. induction fuel as [|fuel IH]; intros s Hs; cbn; [done|].
  destruct (w s) as [|n] eqn:Hn; [done|]. apply IH. rewrite <- Hn. by apply Hw.
Qed.

(** No white-space rune has a NUL byte. *)
Lemma space_nul c d :
  space1 (byte 0) = false ∧ space2 (byte 0) c = false ∧ space2 c (byte 0) = false ∧
  space3 (byte 0) c d = false ∧ space3 c (byte 0) d = false ∧ space3 c d (byte 0) = false.
Proof.
  unfold space3, space2, space1, byte_in.
  assert (∀ n, n ≠ 0 → is_byte n (byte 0) = false) as Hb.
  { intros n Hn. unfold is_byte, byte. by apply bool_decide_eq_false. }
  rewrite !Hb by done. rewrite ?andb_false_r, ?andb_false_l, ?orb_false_r.
  by split_and!.
Qed.

Ltac nul_space :=
  repeat match goal with
  | H : _ ∈ _ :: _ |- _ => apply elem_of_cons in H as [?|H]; [subst|]
  end; try (by rewrite ?elem_of_cons; eauto); exfalso;
  repeat match goal with
  | H : _ ∈ [] |- _ => by apply elem_of_nil in H
  | H : space1 _ = true |- _ => by rewrite (proj1 (space_nul (byte 0) (byte 0))) in H
  | H : space2 _ ?c = true |- _ => by rewrite ?(proj1 (proj2 (space_nul c c))) in H
  | H : space2 ?c _ = true |- _ => by rewrite ?(proj1 (proj2 (proj2 (space_nul c c)))) in H
  | H : space3 ?c ?d ?e = true |- _ =>
     first [by rewrite (proj1 (proj2 (proj2 (proj2 (space_nul d e))))) in H
           |by rewrite (proj1 (proj2 (proj2 (proj2 (proj2 (space_nul c e)))))) in H
           |by rewrite (proj2 (proj2 (proj2 (proj2 (proj2 (space_nul c d)))))) in H]
  end.

Lemma lead_space_keeps l : byte 0 ∈ l → byte 0 ∈ drop (lead_space l) l.
Proof.
  intros Hl. destruct l as [|c1 [|c2 [|c3 l]]]; cbn [lead_space]; [done|..];
    repeat case_match; try done; cbn [drop]; nul_space.
Qed.

Lemma last_space_keeps l : byte 0 ∈ l → byte 0 ∈ drop (last_space l) l.
Proof.
  intros Hl. destruct l as [|c1 [|c2 [|c3 l]]]; cbn [last_space]; [done|..];
    repeat case_match; try done; cbn [drop]; nul_space.
Qed.

Lemma TrimSpace_nul s : byte 0 ∈ String.list_ascii_of_string s → TrimSpace s ≠ "".
Proof.
  intros Hs Ht. unfold TrimSpace in Ht. apply (f_equal String.list_ascii_of_string) in Ht.
  rewrite list_ascii_of_list in Ht. cbn in Ht. unfold trim_right, trim_left in Ht.
  apply (f_equal reverse) in Ht. rewrite reverse_involutive in Ht.
  assert (byte 0 ∈ @nil Ascii.ascii) as Hn; [|by apply elem_of_nil in Hn].
  rewrite <- (reverse_nil (A:=Ascii.ascii)), <- Ht.
  apply strip_keeps; [apply last_space_keeps|]. rewrite elem_of_reverse.
  apply strip_keeps; [apply lead_space_keeps|done].
Qed.

Lemma TrimSpace_nul_join a b : TrimSpace (a +:+ nul +:+ b) ≠ "".
Proof.
  apply TrimSpace_nul. rewrite !list_ascii_app. apply elem_of_app. right.
  apply elem_of_app. left. by apply list_elem_of_singleton.
Qed.

(** ** The keys of a record *)

Definition id_key (r : TokenRecord) : string := tokenIDIndexKey (tr_Kind r) (tr_TokenID r).
Definition plugin_key (r : TokenRecord) : string :=
  or_empty (tokenPluginIndexKey (tr_Kind r) (tr_Audience r)).
Definition surface_key (r : TokenRecord) : string := tokenSurfaceIndexKey (tr_Audience r).
Definition epoch (r : TokenRecord) : Z := rv_RevokeEpoch (tr_Revision r).

(** The session a token belongs to, if its audience names a valid one. *)
Definition in_session (r : TokenRecord) (scope : SessionScope) : Prop :=
  tokenAudienceSessionScope (tr_Audience r) = Ok scope.

#[export] Instance in_session_dec r scope : Decision (in_session r scope).
Proof.
  unfold in_session. destruct (tokenAudienceSessionScope (tr_Audience r)) as [s|e]; [|by right].
  destruct (decide (s = scope)) as [->|]; [by left|right; congruence].
Defined.

Lemma plugin_key_ok r key :
  tokenPluginIndexKey (tr_Kind r) (tr_Audience r) = Ok key → plugin_key r = key ∧ TrimSpace key ≠ "".
Proof.
  intros Hk. unfold plugin_key. rewrite Hk. split; [done|].
  unfold tokenPluginIndexKey in Hk. apply rbind_ok in Hk as (env & _ & Hk).
  unfold ownerPluginIndexKey in Hk. case_match; [done|]. injection Hk as <-.
  apply TrimSpace_nul_join.
Qed.

Lemma ownerPluginIndexKey_nonempty e p key : ownerPluginIndexKey e p = Ok key → TrimSpace key ≠ "".
Proof.
  unfold ownerPluginIndexKey. case_match; [done|]. intros [= <-]. apply TrimSpace_nul_join.
Qed.

Lemma ownerSurfaceIndexKey_nonempty e p s key :
  ownerSurfaceIndexKey e p s = Ok key → TrimSpace key ≠ "".
Proof.
  unfold ownerSurfaceIndexKey. intros Hk. apply rbind_ok in Hk as (pk & _ & Hk). cbn in Hk.
  case_bool_decide; [done|]. injection Hk as <-. apply TrimSpace_nul_join.
Qed.

(** The surface key is blank only when there is none. *)
Lemma surface_key_blank r : TrimSpace (surface_key r) = "" ↔ surface_key r = "".
Proof.
  split; [|by intros ->]. unfold surface_key, tokenSurfaceIndexKey.
  destruct (ownerSurfaceIndexKey _ _ _) as [key|] eqn:Hk; [|done]. cbn.
  by apply ownerSurfaceIndexKey_nonempty in Hk.
Qed.

Lemma session_scope_valid a scope :
  tokenAudienceSessionScope a = Ok scope → SessionScope_Valid scope = true.
Proof.
  unfold tokenAudienceSessionScope, SessionScope_Valid. intros Hs.
  destruct (SessionScope_Validate _) eqn:Hv; [|done]. injection Hs as <-. by rewrite Hv.
Qed.

Lemma zero_scope_invalid : SessionScope_Valid zeroSessionScope = false.
Proof. done. Qed.

Lemma in_session_or_zero r scope :
  SessionScope_Valid scope = true →
  or_zero_scope (tokenAudienceSessionScope (tr_Audience r)) = scope ↔ in_session r scope.
Proof.
  unfold in_session. intros Hv. destruct (tokenAudienceSessionScope _) as [s|]; cbn.
  - split; [by intros ->|congruence].
  - split; [|done]. intros <-. by rewrite zero_scope_invalid in Hv.
Qed.

(** ** The invariant *)

(** What is true of every record: it was minted through the checks. *)
Record record_ok (o : TokenManagerOptions) (r : TokenRecord) : Prop := {
  rok_kind : validTokenKind (tr_Kind r) = true;
  rok_key : ∃ key, tokenPluginIndexKey (tr_Kind r) (tr_Audience r) = Ok key;
  rok_audience : validateTokenAudience (tr_Kind r) (tr_Audience r) = Ok tt;
  rok_use : tr_Use r = defaultTokenUse (tr_Kind r);
  rok_revision : validateRevisionBinding (tr_Revision r) = Ok tt;
  rok_ttl : (Sub (tr_ExpiresAt r) (tr_IssuedAt r) ≤ to_MaxTTL o)%Z;
  rok_consumed : tr_Consumed r = true → tr_Use r = TokenUseSingleUse;
}.

(** The four indices agree with the records. The session index may drop a
    revoked record. *)
Record tok_core (m : TokenManager) : Prop := {
  core_rec : ∀ h r, tm_records m !! h = Some r → tr_TokenHash r = h ∧ record_ok (tm_options m) r;
  core_id : ∀ key h, tm_idIndex m !! key = Some h ↔
              ∃ r, tm_records m !! h = Some r ∧ id_key r = key;
  core_plugin : ∀ key h, h ∈ index_get (tm_pluginIndex m) key ↔
              ∃ r, tm_records m !! h = Some r ∧ plugin_key r = key;
  core_surface : ∀ key h, h ∈ index_get (tm_surfaceIndex m) key ↔
              key ≠ "" ∧ ∃ r, tm_records m !! h = Some r ∧ surface_key r = key;
  core_session : ∀ scope h, h ∈ index_get (tm_sessionIndex m) scope →
              ∃ r, tm_records m !! h = Some r ∧ in_session r scope;
  core_live : ∀ h r scope, tm_records m !! h = Some r → tr_Revoked r = false →
              in_session r scope → h ∈ index_get (tm_sessionIndex m) scope;
  core_compact : compact (tm_pluginIndex m) ∧ compact (tm_surfaceIndex m) ∧
                 compact (tm_sessionIndex m);
}.

(** The bounds, and the revoke floors: they only admit newer tokens, and
    saturation means they are full. *)
Record tok_bounds (m : TokenManager) : Prop := {
  bnd_records : (Z.of_nat (size (tm_records m)) ≤ to_MaxRecords (tm_options m))%Z;
  bnd_plugin : ∀ key, (Z.of_nat (size (index_get (tm_pluginIndex m) key)) ≤
                       to_MaxRecordsPerPlugin (tm_options m))%Z;
  bnd_floors : (Z.of_nat (size (tm_pluginRevokeFloors m)) ≤ to_MaxRevokeFloors (tm_options m))%Z;
  bnd_saturated : tm_revokeFloorsSaturated m = true →
    (to_MaxRevokeFloors (tm_options m) ≤ Z.of_nat (size (tm_pluginRevokeFloors m)))%Z;
  bnd_positive : ∀ key floor, tm_pluginRevokeFloors m !! key = Some floor → (0 < floor)%Z;
}.

Definition floors_respected (m : TokenManager) : Prop :=
  ∀ h r floor, tm_records m !! h = Some r → tr_Revoked r = false →
    tm_pluginRevokeFloors m !! plugin_key r = Some floor → (floor ≤ epoch r)%Z.

Definition tok_wf (m : TokenManager) : Prop := tok_core m ∧ tok_bounds m ∧ floors_respected m.

(** ** How a record may change in place *)

Record evolves (r r' : TokenRecord) : Prop := {
  evo_hash : tr_TokenHash r' = tr_TokenHash r;
  evo_kind : tr_Kind r' = tr_Kind r;
  evo_id : tr_TokenID r' = tr_TokenID r;
  evo_audience : tr_Audience r' = tr_Audience r;
  evo_revision : tr_Revision r' = tr_Revision r;
  evo_issued : tr_IssuedAt r' = tr_IssuedAt r;
  evo_expires : tr_ExpiresAt r' = tr_ExpiresAt r;
  evo_use : tr_Use r' = tr_Use r;
  evo_revoked : tr_Revoked r = true → tr_Revoked r' = true;
  evo_consumed : tr_Consumed r = true → tr_Consumed r' = true;
  evo_consumed_ok : tr_Consumed r' = true → tr_Consumed r = true ∨ tr_Use r = TokenUseSingleUse;
}.

#[export] Instance evolves_refl : Reflexive evolves.
Proof. intros r. by constructor; auto. Qed.

#[export] Instance evolves_trans : Transitive evolves.
Proof.
  intros r1 r2 r3 [] []. constructor; try congruence; auto.
  intros [H1|H1]%evo_consumed_ok1; [auto|]. right. congruence.
Qed.

Lemma evolves_revoked at_ r : evolves r (set_Revoked true at_ r).
Proof. by constructor; auto. Qed.

Lemma evolves_consumed at_ r : tr_Use r = TokenUseSingleUse → evolves r (set_Consumed true at_ r).
Proof. by constructor; auto. Qed.

Lemma evolves_bound c r : evolves r (set_Bound c r).
Proof. by constructor; auto. Qed.

#[export] Hint Resolve evolves_revoked evolves_consumed evolves_bound : redev.

(** Two record maps with the same hashes, each record changed in place. *)
Definition recs_evolve (recs recs' : gmap string TokenRecord) : Prop :=
  ∀ h, option_Forall2 evolves (recs !! h) (recs' !! h).

#[export] Instance recs_evolve_refl : Reflexive recs_evolve.
Proof. intros recs h. reflexivity. Qed.

#[export] Instance recs_evolve_trans : Transitive recs_evolve.
Proof. intros r1 r2 r3 H1 H2 h. etrans; [apply H1|apply H2]. Qed.

Lemma recs_evolve_insert recs h r r' :
  recs !! h = Some r → evolves r r' → recs_evolve recs (<[h := r']> recs).
Proof.
  intros Hr He h'. destruct (decide (h = h')) as [->|Hne].
  - rewrite lookup_insert_eq, Hr. by constructor.
  - by rewrite lookup_insert_ne.
Qed.

Lemma recs_evolve_fwd recs recs' h r :
  recs_evolve recs recs' → recs !! h = Some r → ∃ r', recs' !! h = Some r' ∧ evolves r r'.
Proof. intros He Hr. specialize (He h). rewrite Hr in He. inversion He; eauto. Qed.

Lemma recs_evolve_bwd recs recs' h r' :
  recs_evolve recs recs' → recs' !! h = Some r' → ∃ r, recs !! h = Some r ∧ evolves r r'.
Proof. intros He Hr. specialize (He h). rewrite Hr in He. inversion He; eauto. Qed.

Lemma recs_evolve_size recs recs' : recs_evolve recs recs' → size recs' = size recs.
Proof.
  intros He. rewrite <- !size_dom. f_equal. apply leibniz_equiv, set_equiv. intros h.
  rewrite !elem_of_dom. specialize (He h). inversion He; by rewrite !is_Some_alt.
Qed.

Section evolve_keys.
Context (r r' : TokenRecord) (He : evolves r r').

Lemma evolves_id_key : id_key r' = id_key r.
Proof using He. unfold id_key. by rewrite (evo_kind _ _ He), (evo_id _ _ He). Qed.

Lemma evolves_plugin_key : plugin_key r' = plugin_key r.
Proof using He. unfold plugin_key. by rewrite (evo_kind _ _ He), (evo_audience _ _ He). Qed.

Lemma evolves_surface_key : surface_key r' = surface_key r.
Proof using He. unfold surface_key. by rewrite (evo_audience _ _ He). Qed.

Lemma evolves_in_session scope : in_session r' scope ↔ in_session r scope.
Proof using He. unfold in_session. by rewrite (evo_audience _ _ He). Qed.

Lemma evolves_epoch : epoch r' = epoch r.
Proof using He. unfold epoch. by rewrite (evo_revision _ _ He). Qed.

Lemma evolves_record_ok o : record_ok o r → record_ok o r'.
Proof using He.
  destruct He. intros []. constructor; try (by simplify_eq; congruence).
  - destruct rok_key0 as [key ?]. exists key. congruence.
  - rewrite evo_use0. intros [?|?]%evo_consumed_ok0; auto.
Qed.

End evolve_keys.

(** An in-place change of records keeps the indices. *)
Lemma exists_evolve recs recs' h (f : TokenRecord → string) key :
  recs_evolve recs recs' → (∀ r r', evolves r r' → f r' = f r) →
  (∃ r, recs !! h = Some r ∧ f r = key) ↔ (∃ r, recs' !! h = Some r ∧ f r = key).
Proof.
  intros He Hf. split; intros (r & Hr & Hk).
  - destruct (recs_evolve_fwd _ _ _ _ He Hr) as (r' & ? & Hev). exists r'. split; [done|].
    by rewrite (Hf _ _ Hev).
  - destruct (recs_evolve_bwd _ _ _ _ He Hr) as (r' & ? & Hev). exists r'. split; [done|].
    by rewrite <- (Hf _ _ Hev).
Qed.

Lemma core_evolve m recs' :
  tok_core m → recs_evolve (tm_records m) recs' → tok_core (set_records recs' m).
Proof.
  intros Hm He. constructor; cbn.
  - intros h r Hr. destruct (recs_evolve_bwd _ _ _ _ He Hr) as (r0 & Hr0 & Hev).
    destruct (core_rec _ Hm _ _ Hr0) as [<- Hok]. split; [apply (evo_hash _ _ Hev)|].
    by eapply evolves_record_ok.
  - intros key h. rewrite (core_id _ Hm). apply exists_evolve; [done|apply evolves_id_key].
  - intros key h. rewrite (core_plugin _ Hm). apply exists_evolve; [done|apply evolves_plugin_key].
  - intros key h. rewrite (core_surface _ Hm). apply and_iff_compat_l.
    apply exists_evolve; [done|apply evolves_surface_key].
  - intros scope h Hin. destruct (core_session _ Hm _ _ Hin) as (r & Hr & Hs).
    destruct (recs_evolve_fwd _ _ _ _ He Hr) as (r' & ? & Hev). exists r'. split; [done|].
    by apply (evolves_in_session _ _ Hev).
  - intros h r scope Hr Hrev Hs. destruct (recs_evolve_bwd _ _ _ _ He Hr) as (r0 & Hr0 & Hev).
    apply (core_live _ Hm _ r0); [done| |by apply (evolves_in_session _ _ Hev)].
    destruct (tr_Revoked r0) eqn:Hr0v; [|done]. by rewrite (evo_revoked _ _ Hev) in Hrev.
  - apply (core_compact _ Hm).
Qed.

Lemma bounds_evolve m recs' :
  tok_bounds m → recs_evolve (tm_records m) recs' → tok_bounds (set_records recs' m).
Proof.
  intros [] He. constructor; cbn; [|done..]. by rewrite (recs_evolve_size _ _ He).
Qed.

Lemma floors_evolve m recs' :
  floors_respected m → recs_evolve (tm_records m) recs' → floors_respected (set_records recs' m).
Proof.
  intros Hm He h r floor Hr Hrev Hf. cbn in *.
  destruct (recs_evolve_bwd _ _ _ _ He Hr) as (r0 & Hr0 & Hev).
  rewrite (evolves_epoch _ _ Hev). rewrite (evolves_plugin_key _ _ Hev) in Hf.
  apply (Hm h r0); [done| |done].
  destruct (tr_Revoked r0) eqn:Hr0v; [|done]. by rewrite (evo_revoked _ _ Hev) in Hrev.
Qed.

Lemma wf_evolve m recs' :
  tok_wf m → recs_evolve (tm_records m) recs' → tok_wf (set_records recs' m).
Proof. intros (?&?&?) He. split_and!; eauto using core_evolve, bounds_evolve, floors_evolve. Qed.

#[export] Hint Resolve wf_evolve recs_evolve_insert : redev.

(** ** Removing and adding a record *)

Lemma core_remove m h r :
  tok_core m → tm_records m !! h = Some r → tok_core (removeRecordLocked h r m).
Proof.
  intros Hm Hr. destruct (core_rec _ Hm _ _ Hr) as [Hh Hok].
  destruct (rok_key _ _ Hok) as [pk Hpk]. apply plugin_key_ok in Hpk as [Hpk _].
  unfold removeRecordLocked. fold (plugin_key r) (surface_key r) (id_key r).
  constructor; cbn; unfold removeTokenIndexEntry, removeTokenSessionIndexEntry.
  - intros h' r' [_ Hr']%lookup_delete_Some. by apply (core_rec _ Hm).
  - intros key h'. rewrite lookup_delete_Some, (core_id _ Hm). split.
    + intros (Hne & r' & Hr' & <-). exists r'. split; [|done]. apply lookup_delete_Some.
      split; [|done]. intros ->. congruence.
    + intros (r' & [Hne Hr']%lookup_delete_Some & <-). split; [|eauto]. intros Hk.
      assert (tm_idIndex m !! id_key r = Some h) as H1 by (apply (core_id _ Hm); eauto).
      assert (tm_idIndex m !! id_key r' = Some h') as H2 by (apply (core_id _ Hm); eauto).
      congruence.
  - intros key h'. rewrite elem_of_index_remove, (core_plugin _ Hm).
    setoid_rewrite lookup_delete_Some. naive_solver congruence.
  - intros key h'. rewrite elem_of_index_remove, (core_surface _ Hm).
    setoid_rewrite lookup_delete_Some. naive_solver congruence.
  - intros scope h' [Hne Hin]%elem_of_index_remove.
    destruct (core_session _ Hm _ _ Hin) as (r' & Hr' & Hs). exists r'. split; [|done].
    apply lookup_delete_Some. split; [|done]. intros ->. apply Hne. split; [|done].
    rewrite Hr in Hr'. injection Hr' as <-. symmetry.
    apply in_session_or_zero; [by eapply session_scope_valid|done].
  - intros h' r' scope [Hne Hr']%lookup_delete_Some Hrev Hs. apply elem_of_index_remove.
    split; [by intros [_ ->]|]. by eapply (core_live _ Hm).
  - destruct (core_compact _ Hm) as (?&?&?). split_and!; by apply compact_remove.
Qed.

Lemma bounds_remove m h r : tok_bounds m → tok_bounds (removeRecordLocked h r m).
Proof.
  intros []. constructor; cbn; try done.
  - pose proof (map_size_delete_le (tm_records m) h). lia.
  - intros key. unfold removeTokenIndexEntry.
    pose proof (index_get_remove_size (tm_pluginIndex m)
      (or_empty (tokenPluginIndexKey (tr_Kind r) (tr_Audience r))) h key).
    specialize (bnd_plugin0 key). lia.
Qed.

Lemma floors_remove m h r : floors_respected m → floors_respected (removeRecordLocked h r m).
Proof.
  intros Hm h' r' floor Hr. cbn in *. apply lookup_delete_Some in Hr as [_ Hr]. by apply (Hm h').
Qed.

Lemma wf_remove m h r :
  tok_wf m → tm_records m !! h = Some r → tok_wf (removeRecordLocked h r m).
Proof. intros (?&?&?) ?. split_and!; auto using core_remove, bounds_remove, floors_remove. Qed.

(** Pruning drops exactly the expired records. *)
Definition unexpired (now : time) (recs : gmap string TokenRecord) : gmap string TokenRecord :=
  filter (λ hr, Before now (tr_ExpiresAt hr.2) = true) recs.

Lemma prune_loop now l m :
  tok_wf m → NoDup l.*1 → (∀ h r, (h, r) ∈ l → tm_records m !! h = Some r) →
  let m' := foldl (λ m '(h, r), if negb (Before now (tr_ExpiresAt r))
                                 then removeRecordLocked h r m else m) m l in
  tok_wf m' ∧ tm_options m' = tm_options m ∧
  tm_pluginRevokeFloors m' = tm_pluginRevokeFloors m ∧
  tm_revokeFloorsSaturated m' = tm_revokeFloorsSaturated m ∧
  ∀ h r, tm_records m' !! h = Some r ↔
    tm_records m !! h = Some r ∧ (Before now (tr_ExpiresAt r) = true ∨ (h, r) ∉ l).
Proof.
  revert m. induction l as [|[h r] l IH]; intros m Hm Hnd Hl; cbn.
  { split_and!; try done. intros h r. rewrite elem_of_nil. tauto. }
  apply NoDup_cons in Hnd as [Hh Hnd].
  assert (tm_records m !! h = Some r) as Hr by (apply Hl; left).
  destruct (Before now (tr_ExpiresAt r)) eqn:Hb; cbn.
  - destruct (IH m Hm Hnd) as (?&?&?&?&Hrec); [intros; apply Hl; by right|].
    split_and!; try done. intros h' r'. rewrite Hrec, not_elem_of_cons.
    split; intros [Ha Hc]; (split; [done|]); [|tauto].
    destruct (decide ((h', r') = (h, r))) as [[= -> ->]|]; [by left|]. tauto.
  - destruct (IH (removeRecordLocked h r m)) as (?&?&?&?&Hrec).
    + by apply wf_remove.
    + done.
    + intros h' r' Hin. cbn. apply lookup_delete_Some. split; [|by apply Hl; right].
      intros ->. apply Hh. apply list_elem_of_fmap. by exists (h', r').
    + split_and!; try done. intros h' r'. rewrite Hrec. cbn [tm_records removeRecordLocked].
      rewrite lookup_delete_Some, not_elem_of_cons. split.
      * intros [[Hne Ha] Hc]. split; [done|]. destruct Hc; [by left|right]. split; [|done].
        congruence.
      * intros [Ha Hc]. assert (h ≠ h') as Hne.
        { intros ->. rewrite Hr in Ha. injection Ha as <-. destruct Hc as [?|[? _]]; [congruence|done]. }
        split; [done|]. tauto.
Qed.

Lemma prune_spec now m :
  tok_wf m →
  let m' := pruneExpiredRecordsLocked now m in
  tok_wf m' ∧ tm_options m' = tm_options m ∧
  tm_pluginRevokeFloors m' = tm_pluginRevokeFloors m ∧
  tm_revokeFloorsSaturated m' = tm_revokeFloorsSaturated m ∧
  tm_records m' = unexpired now (tm_records m).
Proof.
  intros Hm. destruct (prune_loop now (map_to_list (tm_records m)) m) as (?&?&?&?&Hrec).
  - done.
  - apply NoDup_fst_map_to_list.
  - intros h r. apply elem_of_map_to_list.
  - split_and!; try done. apply map_eq. intros h. apply option_eq. intros r.
    unfold pruneExpiredRecordsLocked, unexpired.
    rewrite Hrec, map_lookup_filter_Some, elem_of_map_to_list. cbn. tauto.
Qed.

(** Adding a record whose hash and id are new. *)
Lemma core_add m r :
  tok_core m → record_ok (tm_options m) r → tm_records m !! tr_TokenHash r = None →
  tm_idIndex m !! id_key r = None → tok_core (addRecordLocked r m).
Proof.
  intros Hm Hok Hnew Hid. destruct (rok_key _ _ Hok) as [pk Hpk].
  apply plugin_key_ok in Hpk as [Hpk Hblank]. unfold addRecordLocked.
  fold (plugin_key r) (surface_key r) (id_key r).
  constructor; cbn; unfold addTokenIndexEntry, addTokenSessionIndexEntry.
  - intros h' r' [[<- <-]|[_ Hr']]%lookup_insert_Some; [done|]. by apply (core_rec _ Hm).
  - intros key h'. setoid_rewrite lookup_insert_Some. rewrite (core_id _ Hm). split.
    + intros [[<- <-]|[Hne (r' & Hr' & Hk)]]; [eauto|]. exists r'. split; [|done].
      right. split; [|done]. congruence.
    + intros (r' & [[<- <-]|[Hne Hr']] & <-); [eauto|]. right. split; [|eauto].
      intros Hk. assert (tm_idIndex m !! id_key r' = Some h') by (apply (core_id _ Hm); eauto).
      congruence.
  - intros key h'. rewrite bool_decide_eq_false_2 by (by rewrite Hpk). setoid_rewrite lookup_insert_Some.
    rewrite elem_of_index_add, (core_plugin _ Hm). naive_solver congruence.
  - intros key h'. setoid_rewrite lookup_insert_Some. case_bool_decide as Hb.
    + apply surface_key_blank in Hb. rewrite (core_surface _ Hm). naive_solver congruence.
    + rewrite elem_of_index_add, (core_surface _ Hm). rewrite surface_key_blank in Hb.
      naive_solver congruence.
  - intros scope h' Hin. setoid_rewrite lookup_insert_Some.
    assert (h' ∈ index_get (tm_sessionIndex m) scope ∨ (in_session r scope ∧ h' = tr_TokenHash r)) as [Hold|[Hs ->]].
    { case_match eqn:Hv; [by left|]. apply negb_false_iff in Hv.
      apply elem_of_index_add in Hin as [[-> ->]|?]; [right|by left]. split; [|done].
      by apply in_session_or_zero. }
    + destruct (core_session _ Hm _ _ Hold) as (r' & Hr' & Hs). exists r'. split; [|done].
      right. split; [|done]. congruence.
    + eauto.
  - intros h' r' scope Hl Hrev Hs. assert (SessionScope_Valid scope = true) as Hv
      by (by eapply session_scope_valid).
    apply lookup_insert_Some in Hl as [[<- <-]|[_ Hr']].
    + apply (in_session_or_zero _ _ Hv) in Hs. rewrite Hs, Hv. cbn.
      apply elem_of_index_add. by left.
    + pose proof (core_live _ Hm _ _ _ Hr' Hrev Hs). case_match; [done|].
      apply elem_of_index_add. by right.
  - destruct (core_compact _ Hm) as (?&?&?).
    split_and!; repeat case_match; auto using compact_add.
Qed.

Lemma bounds_add m r :
  tok_core m → tok_bounds m → record_ok (tm_options m) r → tm_records m !! tr_TokenHash r = None →
  (Z.of_nat (size (tm_records m)) < to_MaxRecords (tm_options m))%Z →
  (Z.of_nat (size (index_get (tm_pluginIndex m) (plugin_key r))) <
     to_MaxRecordsPerPlugin (tm_options m))%Z →
  tok_bounds (addRecordLocked r m).
Proof.
  intros Hc [] Hok Hnew Hsz Hpl. constructor; cbn; try done.
  - rewrite map_size_insert_None by done. lia.
  - intros key. fold (plugin_key r). unfold addTokenIndexEntry. case_bool_decide; [done|].
    destruct (decide (key = plugin_key r)) as [->|Hne].
    + unfold index_get at 1, index_add. rewrite lookup_insert_eq. cbn.
      rewrite size_union_alt, size_singleton.
      assert (size (index_get (tm_pluginIndex m) (plugin_key r) ∖ {[tr_TokenHash r]}) ≤
              size (index_get (tm_pluginIndex m) (plugin_key r))) by (apply subseteq_size; set_solver).
      lia.
    + unfold index_get at 1, index_add. rewrite lookup_insert_ne by done. apply bnd_plugin0.
Qed.

Section mint.
Context (sha256 : string → string).

(** What a prepared mint holds. *)
Lemma prepareMint_ok env m req r cleartext :
  prepareMint sha256 env m req = Ok (r, cleartext) →
  validateMintRequest (me_wall_validate env) req = Ok tt ∧
  tr_Kind r = mr_Kind req ∧ tr_Audience r = mr_Audience req ∧ tr_Revision r = mr_Revision req ∧
  tr_IssuedAt r = or_wall (me_wall_prepare env) (mr_Now req) ∧ tr_ExpiresAt r = mr_ExpiresAt req ∧
  tr_Use r = defaultTokenUse (mr_Kind req) ∧ tr_Consumed r = false ∧ tr_Revoked r = false ∧
  tr_BoundBridgeChannelID r = "" ∧ tr_TokenHash r = hashToken sha256 cleartext ∧
  (Sub (tr_ExpiresAt r) (tr_IssuedAt r) ≤ to_MaxTTL (tm_options m))%Z.
Proof.
  unfold prepareMint. intros Hp. apply rbind_ok in Hp as ([] & Hv & Hp).
  case_match eqn:Httl; [done|]. go_bools.
  apply rbind_ok in Hp as (tid & _ & Hp). apply rbind_ok in Hp as (nonce & _ & Hp).
  apply rbind_ok in Hp as (secret & _ & Hp). injection Hp as <- <-.
  split; [done|]. cbn [tr_Kind tr_Audience tr_Revision tr_IssuedAt tr_ExpiresAt tr_Use tr_Consumed
    tr_Revoked tr_BoundBridgeChannelID tr_TokenHash]. split_and!; try reflexivity. exact Httl.
Qed.

Lemma validateMintRequest_ok wall req :
  validateMintRequest wall req = Ok tt →
  validTokenKind (mr_Kind req) = true ∧ validateTokenAudience (mr_Kind req) (mr_Audience req) = Ok tt ∧
  validateRevisionBinding (mr_Revision req) = Ok tt.
Proof.
  unfold validateMintRequest. intros Hv. case_match eqn:Hk; [done|]. apply negb_false_iff in Hk.
  case_match; [done|]. case_match; [done|]. apply rbind_ok in Hv as ([] & Ha & Hv).
  apply rbind_ok in Hv as ([] & Hr & Hv). done.
Qed.

Lemma prepared_record_ok env m req r cleartext key :
  prepareMint sha256 env m req = Ok (r, cleartext) →
  tokenPluginIndexKey (tr_Kind r) (tr_Audience r) = Ok key → record_ok (tm_options m) r.
Proof.
  intros Hp Hk. apply prepareMint_ok in Hp as (Hv & HK & HA & HR & _ & _ & HU & HC & _ & _ & _ & HT).
  apply validateMintRequest_ok in Hv as (?&?&?).
  constructor; rewrite ?HK, ?HA, ?HR; [done| |done|done|done|done|].
  - exists key. by rewrite <- HK, <- HA.
  - by rewrite HC.
Qed.

(** The two outcomes of a mint: a prune and an error, or a prune and the new
    record, past every guard. *)
Lemma mint_cases env m req m' res :
  tok_wf m → Mint sha256 env m req = (m', res) →
  (∃ e, res = Err e ∧
     (m' = m ∨ m' = pruneExpiredRecordsLocked (or_wall (me_wall_prepare env) (mr_Now req)) m)) ∨
  ∃ r cleartext, res = Ok (mintedToken r cleartext) ∧
    prepareMint sha256 env m req = Ok (r, cleartext) ∧
    let m1 := pruneExpiredRecordsLocked (tr_IssuedAt r) m in
    m' = addRecordLocked r m1 ∧ record_ok (tm_options m1) r ∧
    tm_records m1 !! tr_TokenHash r = None ∧ tm_idIndex m1 !! id_key r = None ∧
    (Z.of_nat (size (tm_records m1)) < to_MaxRecords (tm_options m1))%Z ∧
    (Z.of_nat (size (index_get (tm_pluginIndex m1) (plugin_key r))) <
       to_MaxRecordsPerPlugin (tm_options m1))%Z ∧
    (∀ floor, tm_pluginRevokeFloors m !! plugin_key r = Some floor → (floor ≤ epoch r)%Z) ∧
    (tm_revokeFloorsSaturated m = true → tm_pluginRevokeFloors m !! plugin_key r ≠ None).
Proof.
  intros Hm. unfold Mint. destruct (prepareMint _ env m req) as [[r cleartext]|e] eqn:Hp.
  2: { intros [= <- <-]. eauto. }
  destruct (tokenPluginIndexKey _ _) as [key|e] eqn:Hk; [|intros [= <- <-]; eauto].
  pose proof (prepared_record_ok _ _ _ _ _ _ Hp Hk) as Hok.
  pose proof (prepareMint_ok _ _ _ _ _ Hp) as (_&_&_&_&Hi&_).
  apply plugin_key_ok in Hk as [Hk _]. subst key.
  destruct (prune_spec (tr_IssuedAt r) m Hm) as (Hwf & Ho & Hf & Hs & _).
  unfold mintLocked. rewrite Hf, Hs, <- Hi.
  intros Hres. repeat (case_match; [injection Hres as <- <-; eauto|]). injection Hres as <- <-.
  right. exists r, cleartext. go_bools. rewrite Ho in *. split_and!; try done.
  - intros floor Hfl. unfold epoch. rewrite Hfl in H0. cbn in H0.
    pose proof (bnd_positive _ (proj1 (proj2 Hm)) _ _ Hfl).
    apply andb_false_iff in H0 as [?|?]; go_bools; lia.
  - intros Hsat Hn. rewrite Hsat, Hn in H. done.
Qed.

Lemma wf_mint env m req : tok_wf m → tok_wf (Mint sha256 env m req).1.
Proof.
  intros Hm. destruct (Mint sha256 env m req) as [m' res] eqn:Hmint. cbn.
  destruct (mint_cases _ _ _ _ _ Hm Hmint) as [(e & _ & [->| ->])|(r & c & _ & _ & Hadd)]; [done| |].
  { by apply prune_spec. }
  destruct Hadd as (-> & Hok & Hnew & Hid & Hsz & Hpl & Hfl & _).
  destruct (prune_spec (tr_IssuedAt r) m Hm) as ((Hc & Hb & Hresp) & _ & Hf & _).
  split_and!; auto using core_add, bounds_add. intros h r' floor Hr Hrev Hfloor. cbn in *.
  rewrite Hf in Hfloor. apply lookup_insert_Some in Hr as [[_ <-]|[_ Hr]]; [by apply Hfl|].
  rewrite <- Hf in Hfloor. by apply (Hresp h).
Qed.

End mint.

(** ** The revocation loops *)

Definition revoke_if (select : TokenRecord → bool) (now : time) (r : TokenRecord) : TokenRecord :=
  if select r && negb (tr_Revoked r) then set_Revoked true (Some now) r else r.

Lemma revoke_if_evolves select now r : evolves r (revoke_if select now r).
Proof. unfold revoke_if. case_match; [apply evolves_revoked|reflexivity]. Qed.

Lemma revokeStep_lookup select now recs count key h :
  (revokeStep select now (recs, count) key).1 !! h =
  if decide (h = key) then revoke_if select now <$> recs !! h else recs !! h.
Proof.
  unfold revokeStep, revoke_if. destruct (recs !! key) as [r|] eqn:Hr.
  - destruct (select r) eqn:Hs, (tr_Revoked r) eqn:Hv; cbn; case_decide as Hh; subst;
      rewrite ?Hr; cbn; rewrite ?Hs, ?Hv; cbn; try done.
    + by rewrite lookup_insert_eq.
    + by rewrite lookup_insert_ne.
  - cbn. case_decide; [|done]. subst. by rewrite Hr.
Qed.

Lemma revoke_fold_lookup select now l recs count h :
  NoDup l →
  (foldl (revokeStep select now) (recs, count) l).1 !! h =
  if decide (h ∈ l) then revoke_if select now <$> recs !! h else recs !! h.
Proof.
  revert recs count. induction l as [|key l IH]; intros recs count Hnd; cbn [foldl].
  { case_decide as Hin; [by apply elem_of_nil in Hin|done]. }
  apply NoDup_cons in Hnd as [Hk Hnd].
  destruct (revokeStep select now (recs, count) key) as [recs1 c1] eqn:Hs.
  rewrite IH by done. pose proof (revokeStep_lookup select now recs count key h) as H1.
  rewrite Hs in H1. cbn in H1. rewrite H1.
  repeat case_decide; subst; try done; exfalso; set_solver.
Qed.

(** The loop revokes exactly the selected live records under the keys. *)
Lemma revokeLoop_spec select now keys m :
  let res := revokeLoop select now keys m in
  ∃ recs', res.1 = set_records recs' m ∧ recs_evolve (tm_records m) recs' ∧
    ∀ h, recs' !! h = if decide (h ∈ keys) then revoke_if select now <$> tm_records m !! h
                      else tm_records m !! h.
Proof.
  cbn. unfold revokeLoop.
  pose proof (revoke_fold_lookup select now (elements keys) (tm_records m) 0) as Hl.
  destruct (foldl _ _ _) as [recs' count]. cbn in *. exists recs'. split; [done|].
  assert (∀ h, recs' !! h = if decide (h ∈ keys) then revoke_if select now <$> tm_records m !! h
                            else tm_records m !! h) as Hlk.
  { intros h. rewrite Hl by apply NoDup_elements. repeat case_decide; try done; set_solver. }
  split; [|done]. intros h. rewrite Hlk. case_decide; [|done].
  destruct (tm_records m !! h); cbn; constructor. apply revoke_if_evolves.
Qed.

Lemma wf_revokeLoop select now keys m : tok_wf m → tok_wf (revokeLoop select now keys m).1.
Proof.
  intros Hm. destruct (revokeLoop_spec select now keys m) as (recs' & -> & He & _).
  by apply wf_evolve.
Qed.

(** Dropping a session-index entry whose record is revoked (or gone). *)
Lemma wf_unindex m scope h scanned :
  tok_wf m → (∀ r, tm_records m !! h = Some r → tr_Revoked r = true) →
  tok_wf (mkTokenManager (tm_options m) (tm_records m) (tm_idIndex m) (tm_pluginIndex m)
            (tm_surfaceIndex m) (removeTokenSessionIndexEntry (tm_sessionIndex m) scope h)
            (tm_pluginRevokeFloors m) (tm_revokeFloorsSaturated m) scanned).
Proof.
  intros (Hc & Hb & Hf) Hrev. split_and!; [|by destruct Hb; constructor|done].
  destruct Hc. constructor; cbn; unfold removeTokenSessionIndexEntry; try done.
  - intros scope' h' [_ Hin]%elem_of_index_remove. by apply core_session0.
  - intros h' r scope' Hr Hv Hs. apply elem_of_index_remove. split; [|by eapply core_live0].
    intros [_ ->]. rewrite (Hrev _ Hr) in Hv. done.
  - destruct core_compact0 as (?&?&?). split_and!; try done. by apply compact_remove.
Qed.

Lemma revokeSessionStep_spec scope now m counts h :
  tok_wf m →
  let res := revokeSessionStep scope now (m, counts) h in
  tok_wf res.1 ∧ recs_evolve (tm_records m) (tm_records res.1) ∧
  tm_pluginRevokeFloors res.1 = tm_pluginRevokeFloors m ∧
  tm_revokeFloorsSaturated res.1 = tm_revokeFloorsSaturated m ∧
  tm_options res.1 = tm_options m ∧
  (∀ h', tm_records res.1 !! h' =
     if decide (h' = h) then revoke_if (λ _, true) now <$> tm_records m !! h'
     else tm_records m !! h') ∧
  res.2 = match tm_records m !! h with
          | Some r => if tr_Revoked r then counts else increment (tr_Kind r) counts
          | None => counts
          end.
Proof.
  intros Hm. unfold revokeSessionStep. destruct (tm_records m !! h) as [r|] eqn:Hr; cbn.
  2: { split_and!; try done.
       - apply wf_unindex; [done|]. congruence.
       - intros h'. case_decide; [subst; by rewrite Hr|done]. }
  destruct (tr_Revoked r) eqn:Hv; cbn.
  - split_and!; try done.
    + apply wf_unindex; [done|]. congruence.
    + intros h'. case_decide; [|done]. subst. rewrite Hr. cbn. unfold revoke_if. by rewrite Hv.
  - pose proof (recs_evolve_insert _ _ _ _ Hr (evolves_revoked (Some now) r)) as He.
    split_and!; try done.
    + refine (wf_unindex (set_records (<[h := set_Revoked true (Some now) r]> (tm_records m)) m)
                scope h (incr64 (tm_sessionRevokeScanned m)) _ _); [by apply wf_evolve|]. cbn. intros r'. rewrite lookup_insert_eq. by intros [= <-].
    + intros h'. case_decide; subst.
      * rewrite lookup_insert_eq, Hr. cbn. unfold revoke_if. by rewrite Hv.
      * by rewrite lookup_insert_ne.
Qed.

(** The count a live record adds. *)
Definition count_live (recs : gmap string TokenRecord) (counts : SessionTokenRevocationCounts)
    (h : string) : SessionTokenRevocationCounts :=
  match recs !! h with
  | Some r => if tr_Revoked r then counts else increment (tr_Kind r) counts
  | None => counts
  end.

Lemma count_live_ext recs recs' l counts :
  (∀ h, h ∈ l → recs !! h = recs' !! h) →
  foldl (count_live recs) counts l = foldl (count_live recs') counts l.
Proof.
  revert counts. induction l as [|h l IH]; intros counts Hl; cbn; [done|].
  unfold count_live at 2 4. rewrite (Hl h) by left. apply IH. intros. apply Hl. by right.
Qed.

(** What does not change in a revocation of a session. *)
Definition same_floors (m m' : TokenManager) : Prop :=
  tm_pluginRevokeFloors m' = tm_pluginRevokeFloors m ∧
  tm_revokeFloorsSaturated m' = tm_revokeFloorsSaturated m ∧ tm_options m' = tm_options m.

Lemma revokeSessionStep_index scope now m counts h :
  tm_sessionIndex (revokeSessionStep scope now (m, counts) h).1 =
  removeTokenSessionIndexEntry (tm_sessionIndex m) scope h.
Proof. unfold revokeSessionStep. by repeat case_match. Qed.

Lemma revokeSession_fold scope now l m counts :
  tok_wf m → NoDup l →
  let res := foldl (revokeSessionStep scope now) (m, counts) l in
  tok_wf res.1 ∧ recs_evolve (tm_records m) (tm_records res.1) ∧ same_floors m res.1 ∧
  (∀ h, tm_records res.1 !! h = if decide (h ∈ l) then revoke_if (λ _, true) now <$> tm_records m !! h
                                else tm_records m !! h) ∧
  (∀ scope' h, h ∈ index_get (tm_sessionIndex res.1) scope' ↔
     ¬ (scope' = scope ∧ h ∈ l) ∧ h ∈ index_get (tm_sessionIndex m) scope') ∧
  res.2 = foldl (count_live (tm_records m)) counts l.
Proof.
  revert m counts. induction l as [|h l IH]; intros m counts Hm Hnd; cbn [foldl].
  { split_and!; try done. intros scope' h. rewrite elem_of_nil. tauto. }
  apply NoDup_cons in Hnd as [Hh Hnd].
  destruct (revokeSessionStep_spec scope now m counts h Hm) as (Hw & He & Hf & Hs & Ho & Hl & Hc).
  pose proof (revokeSessionStep_index scope now m counts h) as Hi.
  destruct (revokeSessionStep scope now (m, counts) h) as [m1 c1]. cbn in Hw, He, Hf, Hs, Ho, Hl, Hc, Hi.
  destruct (IH m1 c1 Hw Hnd) as (Hw' & He' & (Hf' & Hs' & Ho') & Hl' & Hi' & Hc').
  split_and!.
  - done.
  - by etrans.
  - split_and!; congruence.
  - intros h'. rewrite Hl'. rewrite Hl. repeat case_decide; subst; try done; exfalso; set_solver.
  - intros scope' h'. rewrite Hi', Hi. unfold removeTokenSessionIndexEntry.
    rewrite elem_of_index_remove, elem_of_cons. naive_solver.
  - rewrite Hc'. unfold count_live at 3. rewrite Hc. apply count_live_ext. intros h' Hin.
    rewrite Hl. case_decide; [by subst|done].
Qed.

Lemma RevokeSessionScope_spec wall m scope now :
  tok_wf m → SessionScope_Valid scope = true →
  let res := RevokeSessionScope wall m scope now in
  tok_wf res.1 ∧ recs_evolve (tm_records m) (tm_records res.1) ∧ same_floors m res.1 ∧
  (∀ h, tm_records res.1 !! h =
     if decide (h ∈ index_get (tm_sessionIndex m) scope)
     then revoke_if (λ _, true) (or_wall wall now) <$> tm_records m !! h else tm_records m !! h) ∧
  (∀ scope' h, h ∈ index_get (tm_sessionIndex res.1) scope' ↔
     scope' ≠ scope ∧ h ∈ index_get (tm_sessionIndex m) scope') ∧
  res.2 = PreviewSessionScopeRevocation m scope.
Proof.
  intros Hm Hv. unfold RevokeSessionScope, PreviewSessionScopeRevocation, SessionScope_Valid in *.
  destruct (SessionScope_Validate scope); [|done].
  set (m0 := mkTokenManager _ _ _ _ _ _ _ _ 0).
  assert (tok_wf m0) as Hm0.
  { destruct Hm as ([] & [] & Hf). split_and!; [by constructor|by constructor|apply Hf]. }
  destruct (revokeSession_fold scope (or_wall wall now)
    (elements (index_get (tm_sessionIndex m0) scope)) m0 zeroCounts Hm0 (NoDup_elements _))
    as (Hw & He & Hf & Hl & Hi & Hc).
  destruct (foldl (revokeSessionStep _ _) _ _) as [m' counts]. cbn in *.
  split_and!; try done.
  - intros h. rewrite Hl. repeat case_decide; set_solver.
  - intros scope' h. rewrite Hi, elem_of_elements. naive_solver.
  - rewrite Hc. done.
Qed.

(** ** Validation *)

Lemma audienceMatches_eq a b : audienceMatches a b = true ↔ a = b.
Proof.
  split; [|intros ->; unfold audienceMatches; by rewrite !bool_decide_eq_true_2].
  unfold audienceMatches. rewrite !andb_true_iff, !bool_decide_eq_true.
  destruct a, b; cbn. intros. by destruct_and!; subst.
Qed.

Lemma liveRecord_ok kind now r r' :
  liveRecord kind now r = Ok r' ↔
  r' = r ∧ tr_Kind r = kind ∧ tr_Revoked r = false ∧ (now < tr_ExpiresAt r)%Z ∧
  tr_Consumed r = false.
Proof.
  unfold liveRecord, Before. destruct (bool_decide _) eqn:Hk; cbn; go_bools.
  2: { split; [done|]. by intros (_&?&_). }
  destruct (tr_Revoked r); [split; [done|by intros (_&_&?&_)]|].
  destruct (Z.ltb_spec now (tr_ExpiresAt r)); cbn.
  2: { split; [done|]. intros (_&_&_&?&_). lia. }
  destruct (tr_Consumed r); [split; [done|by intros (_&_&_&_&?)]|].
  split; [by intros [= <-]|by intros (-> & _)].
Qed.

Lemma audienceAndRevision_ok a v r :
  audienceAndRevision a v r = Ok tt ↔ tr_Audience r = a ∧ tr_Revision r = v.
Proof.
  unfold audienceAndRevision. destruct (audienceMatches _ _) eqn:Ha; cbn.
  - apply audienceMatches_eq in Ha. case_bool_decide; cbn; naive_solver.
  - split; [done|]. intros [Heq _]. apply audienceMatches_eq in Heq. congruence.
Qed.

Lemma consumeRecord_ok c now r r' :
  consumeRecord c now r = Ok r' ↔
  (c = true → tr_Use r = TokenUseSingleUse) ∧
  r' = if c then set_Consumed true (Some now) r else r.
Proof.
  unfold consumeRecord. destruct c; [|naive_solver].
  case_bool_decide as Hu; cbn; [naive_solver|]. split; [done|]. by intros [Hs _]; specialize (Hs eq_refl).
Qed.

(** Binding succeeds on a non-empty channel that does not contradict an
    earlier binding; the record remembers it. *)
Lemma bindRecord_ok b r r' :
  bindRecord b r = Ok r' ↔
  (∀ c, b = Some c → cb_BridgeChannelID c ≠ "" ∧
     (tr_BoundBridgeChannelID r = "" ∨ tr_BoundBridgeChannelID r = cb_BridgeChannelID c)) ∧
  r' = match b with None => r | Some c => set_Bound (cb_BridgeChannelID c) r end.
Proof.
  unfold bindRecord. destruct b as [c|]; [|naive_solver].
  case_bool_decide as Hc; [split; [done|]; intros [Hb _]; by destruct (Hb c)|].
  repeat case_bool_decide; cbn; try naive_solver.
Qed.

Section validate.
Context (sha256 : string → string).

(** The record a successful validation stores and returns. *)
Definition validated (now : time) (bind : option ChannelBinding) (consume : bool)
    (r : TokenRecord) : TokenRecord :=
  let r := match bind with None => r | Some c => set_Bound (cb_BridgeChannelID c) r end in
  if consume then set_Consumed true (Some now) r else r.

Lemma validated_evolves now bind consume r :
  (consume = true → tr_Use r = TokenUseSingleUse) → evolves r (validated now bind consume r).
Proof.
  intros Hu. unfold validated. destruct bind, consume; constructor; cbn; auto.
Qed.

(** A record that would pass [Validate]. *)
Definition acceptable (now : time) (req : ValidateRequest) (r : TokenRecord) : Prop :=
  tr_Kind r = vr_Kind req ∧ tr_Revoked r = false ∧ (now < tr_ExpiresAt r)%Z ∧
  tr_Consumed r = false ∧ tr_Audience r = vr_Audience req ∧ tr_Revision r = vr_Revision req ∧
  (vr_Consume req = true → tr_Use r = TokenUseSingleUse) ∧
  (∀ c, vr_Bind req = Some c → cb_BridgeChannelID c ≠ "" ∧
     (au_BridgeChannelID (tr_Audience r) = "" ∨ au_BridgeChannelID (tr_Audience r) = cb_BridgeChannelID c) ∧
     (tr_BoundBridgeChannelID r = "" ∨ tr_BoundBridgeChannelID r = cb_BridgeChannelID c)).

Lemma bindConflict_false b r :
  bindConflict b r = false ↔ ∀ c, b = Some c → cb_BridgeChannelID c ≠ "" →
    au_BridgeChannelID (tr_Audience r) = "" ∨ au_BridgeChannelID (tr_Audience r) = cb_BridgeChannelID c.
Proof.
  unfold bindConflict. destruct b as [c|]; [|naive_solver].
  repeat case_bool_decide; cbn; naive_solver.
Qed.

Lemma validate_cases wall m req :
  let now := or_wall wall (vr_Now req) in
  let h := hashToken sha256 (vr_Token req) in
  (∃ r, tm_records m !! h = Some r ∧ acceptable now req r ∧
     Validate sha256 wall m req =
       (set_records (<[h := validated now (vr_Bind req) (vr_Consume req) r]> (tm_records m)) m,
        Ok (validated now (vr_Bind req) (vr_Consume req) r))) ∨
  ((∀ r, tm_records m !! h = Some r → ¬ acceptable now req r) ∧
   ∃ e, Validate sha256 wall m req = (m, Err e)).
Proof.
  cbn. unfold Validate. set (now := or_wall _ _). set (h := hashToken _ _).
  set (result := rbind _ _).
  assert (∀ r', result = Ok r' ↔ ∃ r, tm_records m !! h = Some r ∧ acceptable now req r ∧
            r' = validated now (vr_Bind req) (vr_Consume req) r) as Hres.
  { intros r'. subst result. rewrite rbind_ok. unfold loadTokenRecordLocked; cbn.
    destruct (tm_records m !! h) as [r|]; [|split; [by intros (?&?&_)|by intros (?&?&_)]].
    unfold acceptable, validated. split.
    - intros (? & (-> & ? & ? & ? & ?)%liveRecord_ok & Hk). destruct (bindConflict _ r) eqn:Hbc; [done|].
      rewrite bindConflict_false in Hbc. apply rbind_ok in Hk as ([] & [? ?]%audienceAndRevision_ok & Hk).
      apply rbind_ok in Hk as (r1 & [Hb ->]%bindRecord_ok & [Hu ->]%consumeRecord_ok).
      exists r. split; [done|]. split_and!; try done.
      + intros Hc. specialize (Hu Hc). by destruct (vr_Bind req).
      + intros c Hc. destruct (Hb c Hc). naive_solver.
    - intros (? & [= <-] & (? & ? & ? & ? & ? & ? & Hu & Hb) & ->).
      exists r. split; [by apply liveRecord_ok|].
      rewrite (proj2 (bindConflict_false _ r)) by (intros c Hc; destruct (Hb c Hc); naive_solver).
      apply rbind_ok. exists tt. rewrite audienceAndRevision_ok. split; [done|].
      apply rbind_ok. eexists. rewrite bindRecord_ok. split; [split; [|reflexivity]|].
      + intros c Hc. destruct (Hb c Hc). naive_solver.
      + apply consumeRecord_ok. split; [|done]. intros Hc. specialize (Hu Hc). by destruct (vr_Bind req). }
  destruct result as [r'|e] eqn:Hr.
  - left. destruct (proj1 (Hres r') eq_refl) as (r & Hlk & Ha & ->). by exists r.
  - right. split; [|eauto]. intros r Hlk Ha. specialize (Hres (validated now (vr_Bind req) (vr_Consume req) r)).
    destruct Hres as [_ Hres]. by discriminate Hres; eauto.
Qed.

End validate.
