(* ===== verification/BridgeTheorems.v ===== *)
(** * Security theorems of the token manager

    Runs of the manager as sequences of calls, and what holds after any of
    them. SHA-256 is an argument and nothing is assumed of it. *)

From S2P Require Import Prelude GoLib Index SessionCtx Bridge BridgeProps.

Open Scope go_scope.

(** ** Runs *)

Inductive TokenOp :=
| OpMint (env : MintEnv) (req : MintRequest)
| OpValidate (wall : time) (req : ValidateRequest)
| OpValidateID (wall : time) (req : ValidateTokenIDRequest)
| OpInspect (wall : time) (req : InspectRequest)
| OpRevokePlugin (wall : time) (ownerEnvHash pluginInstanceID : string) (minimum : Z) (now : time)
| OpRevokeSurface (wall : time) (ownerEnvHash pluginInstanceID surfaceInstanceID : string) (now : time)
| OpRevokeSurfaceGeneration (wall : time) (session : SurfaceSession) (now : time)
| OpRevokeTokenID (wall : time) (kind : TokenKind) (tokenID : string) (now : time)
| OpRevokeSessionScope (wall : time) (scope : SessionScope) (now : time).

Section runs.
Context (sha256 : string → string).

Definition tok_step (m : TokenManager) (op : TokenOp) : TokenManager :=
  match op with
  | OpMint env req => (Mint sha256 env m req).1
  | OpValidate wall req => (Validate sha256 wall m req).1
  | OpValidateID wall req => (ValidateID wall m req).1
  | OpInspect wall req => m
  | OpRevokePlugin wall e p minimum now => (RevokePlugin wall m e p minimum now).1
  | OpRevokeSurface wall e p s now => (RevokeSurface wall m e p s now).1
  | OpRevokeSurfaceGeneration wall session now => (RevokeSurfaceGeneration wall m session now).1
  | OpRevokeTokenID wall kind id now => (RevokeTokenID wall m kind id now).1
  | OpRevokeSessionScope wall scope now => (RevokeSessionScope wall m scope now).1
  end.

Definition tok_run (m : TokenManager) (ops : list TokenOp) : TokenManager := foldl tok_step m ops.

(** The record a step creates, if it is a mint that succeeds. *)
Definition mints (m : TokenManager) (op : TokenOp) (r : TokenRecord) : Prop :=
  ∃ env req c, op = OpMint env req ∧ prepareMint sha256 env m req = Ok (r, c) ∧
    (Mint sha256 env m req).2 = Ok (mintedToken r c).

(** How a step changes records and floors. *)
Record advance (m m' : TokenManager) (fresh : TokenRecord → Prop) : Prop := {
  adv_recs : ∀ h r', tm_records m' !! h = Some r' →
    (∃ r, tm_records m !! h = Some r ∧ evolves r r') ∨ (fresh r' ∧ tr_TokenHash r' = h);
  adv_floor : ∀ k f, tm_pluginRevokeFloors m !! k = Some f →
    ∃ f', tm_pluginRevokeFloors m' !! k = Some f' ∧ (f ≤ f')%Z;
  adv_saturated : tm_revokeFloorsSaturated m = true → tm_revokeFloorsSaturated m' = true;
  adv_untracked : ∀ k, tm_revokeFloorsSaturated m = true → tm_pluginRevokeFloors m !! k = None →
    tm_pluginRevokeFloors m' !! k = None;
}.

Lemma advance_evolve m recs' fresh :
  recs_evolve (tm_records m) recs' → advance m (set_records recs' m) fresh.
Proof.
  intros He. constructor; cbn; [|eauto with lia|done|done].
  intros h r' Hr. left. by apply (recs_evolve_bwd _ _ _ _ He).
Qed.

Lemma advance_refl m fresh : advance m m fresh.
Proof. constructor; [|eauto with lia|done|done]. intros h r' Hr. left. eauto using evolves_refl. Qed.

Lemma advance_prune now m fresh :
  tok_wf m → advance m (pruneExpiredRecordsLocked now m) fresh.
Proof.
  intros Hm. destruct (prune_spec now m Hm) as (_ & _ & Hf & Hs & Hr).
  constructor; rewrite ?Hf, ?Hs; [|eauto with lia|done|done].
  rewrite Hr. unfold unexpired. intros h r' [H' _]%map_lookup_filter_Some. left. eauto using evolves_refl.
Qed.

Lemma advance_mint env m req :
  tok_wf m → advance m (Mint sha256 env m req).1 (mints m (OpMint env req)).
Proof.
  intros Hm. destruct (Mint sha256 env m req) as [m' res] eqn:Hmint.
  destruct (mint_cases _ _ _ _ _ _ Hm Hmint) as [(e & _ & [->| ->])|(r & c & Hres & Hp & Hadd)].
  - apply advance_refl.
  - by apply advance_prune.
  - destruct Hadd as (-> & _). destruct (advance_prune (tr_IssuedAt r) m (λ _, False) Hm) as [Hr Hf Hs Hu].
    constructor; cbn; [|done|done|done].
    intros h r' [[Hh <-]|[_ Hl]]%lookup_insert_Some.
    + right. split; [|done]. exists env, req, c. split_and!; [done|done|]. by rewrite Hmint, Hres.
    + destruct (Hr _ _ Hl) as [?|[[] _]]. by left.
Qed.

Lemma load_by_id_wf m kind tid now :
  tok_core m → (loadTokenRecordByIDLocked m kind tid now).1 = m.
Proof.
  intros Hm. unfold loadTokenRecordByIDLocked. destruct (tm_idIndex m !! _) as [h|] eqn:Hi; [|done].
  apply (core_id _ Hm) in Hi as (r & Hr & _). by rewrite Hr.
Qed.

(** What a validation by token id does. *)
Lemma validate_id_cases wall m req :
  tok_core m →
  let now := or_wall wall (vi_Now req) in
  (∃ h r, tm_idIndex m !! tokenIDIndexKey (vi_Kind req) (TrimSpace (vi_TokenID req)) = Some h ∧
     tm_records m !! h = Some r ∧ tr_Kind r = vi_Kind req ∧ tr_Revoked r = false ∧
     (now < tr_ExpiresAt r)%Z ∧ tr_Consumed r = false ∧ tr_Audience r = vi_Audience req ∧
     tr_Revision r = vi_Revision req ∧ (vi_Consume req = true → tr_Use r = TokenUseSingleUse) ∧
     ValidateID wall m req =
       (set_records (<[h := validated now None (vi_Consume req) r]> (tm_records m)) m,
        Ok (validated now None (vi_Consume req) r))) ∨
  ∃ e, ValidateID wall m req = (m, Err e).
Proof.
  intros Hm now. unfold ValidateID. case_bool_decide; [eauto|].
  pose proof (load_by_id_wf m (vi_Kind req) (TrimSpace (vi_TokenID req)) now Hm) as Hw.
  fold now. destruct (loadTokenRecordByIDLocked m _ _ now) as [m' loaded] eqn:Hload. cbn in Hw. subst m'.
  destruct loaded as [[h r]|e]; [|eauto].
  destruct (rbind _ _) as [r'|e] eqn:Hres; [|eauto]. left.
  apply rbind_ok in Hres as ([] & [Ha Hr]%audienceAndRevision_ok & [Hu ->]%consumeRecord_ok).
  unfold loadTokenRecordByIDLocked in Hload. destruct (tm_idIndex m !! _) as [h0|] eqn:Hi; [|done].
  destruct (tm_records m !! h0) as [r0|] eqn:Hr0; [|done]. injection Hload as Hload.
  destruct (liveRecord _ _ r0) as [r1|] eqn:Hl; [|done]. injection Hload as -> ->.
  apply liveRecord_ok in Hl as (-> & ? & ? & ? & ?). exists h, r0. split_and!; done.
Qed.

Lemma revoke_id_evolves wall m kind id now :
  ∃ recs', (RevokeTokenID wall m kind id now).1 = set_records recs' m ∧
    recs_evolve (tm_records m) recs'.
Proof.
  assert (∃ recs', m = set_records recs' m ∧ recs_evolve (tm_records m) recs') as Hid.
  { exists (tm_records m). by destruct m. }
  unfold RevokeTokenID. case_bool_decide; [done|]. destruct (tm_idIndex m !! _) as [h|]; [|done].
  destruct (tm_records m !! h) as [r|] eqn:Hr; [|done]. case_match; [done|].
  eexists. split; [reflexivity|]. eauto using recs_evolve_insert, evolves_revoked.
Qed.

(** ** Revoking a plugin *)

Lemma raiseFloor_spec key minimum m :
  tok_wf m → (0 < minimum)%Z →
  let m1 := (raiseFloor key minimum m).1 in
  tok_core m1 ∧ tok_bounds m1 ∧ tm_records m1 = tm_records m ∧
  tm_pluginIndex m1 = tm_pluginIndex m ∧ advance m m1 (λ _, False) ∧
  (∀ k, k ≠ key → tm_pluginRevokeFloors m1 !! k = tm_pluginRevokeFloors m !! k) ∧
  ((∃ f, tm_pluginRevokeFloors m1 !! key = Some f ∧ (minimum ≤ f)%Z ∧
      (tm_pluginRevokeFloors m !! key = Some f ∨ f = minimum)) ∨
   (tm_revokeFloorsSaturated m1 = true ∧ tm_pluginRevokeFloors m1 !! key = None ∧
    (raiseFloor key minimum m).2 = Some ErrTokenRevokeFloorCapacity)).
Proof.
  intros (Hc & Hb & Hf) Hpos. unfold raiseFloor.
  assert (∀ h r', tm_records m !! h = Some r' →
    (∃ r, tm_records m !! h = Some r ∧ evolves r r') ∨ (False ∧ tr_TokenHash r' = h)) as Hid
    by eauto using evolves_refl.
  destruct (Z.ltb_spec (default 0%Z (tm_pluginRevokeFloors m !! key)) minimum) as [Hlt|Hge]; cbn.
  2: { split_and!; try done; [apply advance_refl|]. left.
       destruct (tm_pluginRevokeFloors m !! key) as [f|]; cbn in Hge; [|lia]. eauto. }
  destruct (tm_pluginRevokeFloors m !! key) as [f|] eqn:Hk; cbn in *.
  - split_and!; [by destruct Hc; constructor| |done|done| | |].
    + destruct Hb. constructor; cbn; try done; rewrite ?map_size_insert_Some by eauto; try done.
      intros k g [[_ <-]|[_ Hg]]%lookup_insert_Some; eauto.
    + constructor; cbn; [done| |done|].
      * intros k g Hg. destruct (decide (key = k)) as [->|Hne].
        -- rewrite lookup_insert_eq. eexists. split; [done|]. rewrite Hk in Hg. injection Hg as <-. lia.
        -- rewrite lookup_insert_ne by done. eauto with lia.
      * intros k Hs Hn. rewrite lookup_insert_ne; [done|congruence].
    + intros k Hne. cbn. by rewrite lookup_insert_ne.
    + left. exists minimum. cbn. rewrite lookup_insert_eq. auto with lia.
  - destruct (Z.leb_spec (to_MaxRevokeFloors (tm_options m)) (Z.of_nat (size (tm_pluginRevokeFloors m)))) as [Hfull|Hroom]; cbn.
    + split_and!; [by destruct Hc; constructor|by destruct Hb; constructor|done|done| |done|by right].
      constructor; cbn; [done|eauto with lia|done|done].
    + split_and!; [by destruct Hc; constructor| |done|done| | |].
      * constructor; cbn; rewrite ?map_size_insert_None by done;
          [apply (bnd_records _ Hb)|apply (bnd_plugin _ Hb)|lia| |].
        -- intros Hs. pose proof (bnd_saturated _ Hb Hs). lia.
        -- intros k g [[_ <-]|[_ Hg]]%lookup_insert_Some; [lia|by apply (bnd_positive _ Hb k)].
      * constructor; cbn; [done| |done|].
        -- intros k g Hg. rewrite lookup_insert_ne by congruence. eauto with lia.
        -- intros k Hs _. exfalso. pose proof (bnd_saturated _ Hb Hs). lia.
      * intros k Hne. cbn. by rewrite lookup_insert_ne.
      * left. exists minimum. cbn. rewrite lookup_insert_eq. auto with lia.
Qed.

(** No token of the plugin below the epoch is live, and none can be minted. *)
Definition closed_below (key : string) (minimum : Z) (m : TokenManager) : Prop :=
  (∀ h r, tm_records m !! h = Some r → plugin_key r = key → (epoch r < minimum)%Z →
     tr_Revoked r = true) ∧
  ((∃ f, tm_pluginRevokeFloors m !! key = Some f ∧ (minimum ≤ f)%Z) ∨
   (tm_revokeFloorsSaturated m = true ∧ tm_pluginRevokeFloors m !! key = None)).

Lemma revoke_plugin_spec wall m e p minimum now :
  tok_wf m →
  let m' := (RevokePlugin wall m e p minimum now).1 in
  tok_wf m' ∧ advance m m' (λ _, False) ∧
  (∀ key, ownerPluginIndexKey e p = Ok key → IsPositiveSafeUnsignedInteger minimum = true →
     closed_below key minimum m').
Proof.
  intros Hm. unfold RevokePlugin. destruct (ownerPluginIndexKey e p) as [key|err] eqn:Hk.
  2: { cbn. split_and!; [done|apply advance_refl|done]. }
  destruct (IsPositiveSafeUnsignedInteger minimum) eqn:Hsafe; cbn.
  2: { split_and!; [done|apply advance_refl|done]. }
  assert (0 < minimum)%Z as Hpos by (unfold IsPositiveSafeUnsignedInteger in Hsafe; go_bools; lia).
  destruct (raiseFloor_spec key minimum m Hm Hpos) as (Hc & Hb & Hr & Hi & Ha & Hoth & Hkey).
  destruct (raiseFloor key minimum m) as [m1 ferr]. cbn in Hc, Hb, Hr, Hi, Ha, Hoth, Hkey.
  set (sel := λ record, (rv_RevokeEpoch (tr_Revision record) <? minimum)%Z).
  destruct (revokeLoop_spec sel (or_wall wall now) (index_get (tm_pluginIndex m1) key) m1)
    as (recs' & Hloop & He & Hlk).
  destruct (revokeLoop _ _ _ m1) as [m2 count]. cbn in Hloop |- *. subst m2.
  assert (∀ h r, recs' !! h = Some r → plugin_key r = key → (epoch r < minimum)%Z →
    tr_Revoked r = true) as Hclosed.
  { intros h r Hr' Hpk Hep. destruct (recs_evolve_bwd _ _ _ _ He Hr') as (r0 & Hr0 & Hev).
    rewrite (evolves_plugin_key _ _ Hev) in Hpk. rewrite (evolves_epoch _ _ Hev) in Hep.
    rewrite Hlk, decide_True, Hr0 in Hr' by (apply (core_plugin _ Hc); eauto).
    cbn in Hr'. injection Hr' as <-. unfold revoke_if, sel. fold (epoch r0).
    rewrite (proj2 (Z.ltb_lt _ _) Hep). by destruct (tr_Revoked r0) eqn:Hv. }
  split_and!.
  - split_and!; [by apply core_evolve|by apply bounds_evolve|].
    intros h r floor Hr' Hrev Hfl. cbn in *.
    destruct (recs_evolve_bwd _ _ _ _ He Hr') as (r0 & Hr0 & Hev).
    destruct (decide (plugin_key r = key)) as [Hpk|Hpk].
    + destruct (Z.lt_ge_cases (epoch r) minimum) as [Hlt|Hge]; [by rewrite (Hclosed h r) in Hrev|].
      subst key. destruct Hkey as [(f & Hf & Hmin & [Hold| ->])|(_ & Hn & _)]; [|congruence|congruence].
      rewrite Hf in Hfl. injection Hfl as <-. rewrite (evolves_epoch _ _ Hev).
      rewrite (evolves_plugin_key _ _ Hev) in Hold.
      apply (proj2 (proj2 Hm) h r0); [congruence| |done].
      destruct (tr_Revoked r0) eqn:Hv; [|done]. by rewrite (evo_revoked _ _ Hev Hv) in Hrev.
    + rewrite Hoth in Hfl by done. rewrite (evolves_epoch _ _ Hev).
      rewrite (evolves_plugin_key _ _ Hev) in Hfl. apply (proj2 (proj2 Hm) h r0); [congruence| |done].
      destruct (tr_Revoked r0) eqn:Hv; [|done]. by rewrite (evo_revoked _ _ Hev Hv) in Hrev.
  - destruct Ha. constructor; cbn; try done.
    intros h r' Hr'. left. rewrite <- Hr. by apply (recs_evolve_bwd _ _ _ _ He).
  - intros key' [= <-] _. split; [done|]. destruct Hkey as [(f & ? & ? & _)|(?&?&_)]; eauto.
Qed.

(** ** Every step *)

Lemma step_spec m op :
  tok_wf m → tok_wf (tok_step m op) ∧ advance m (tok_step m op) (mints m op).
Proof.
  intros Hm. assert (tok_wf m ∧ advance m m (mints m op)) as Hsame by (split; [done|apply advance_refl]).
  assert (∀ recs', recs_evolve (tm_records m) recs' →
    tok_wf (set_records recs' m) ∧ advance m (set_records recs' m) (mints m op)) as Hev
    by eauto using wf_evolve, advance_evolve.
  assert (∀ sel now keys, tok_wf (revokeLoop sel now keys m).1 ∧
    advance m (revokeLoop sel now keys m).1 (mints m op)) as Hloop.
  { intros sel now keys. destruct (revokeLoop_spec sel now keys m) as (recs' & -> & He & _). auto. }
  destruct op as [env req|wall req|wall req|wall req|wall e p n now|wall e p sf now|wall sess now
                 |wall kind tid now|wall scope now]; cbn [tok_step].
  - split; [by apply wf_mint|by apply advance_mint].
  - destruct (validate_cases sha256 wall m req) as [(r & Hr & Ha & ->)|(_ & e & ->)]; [|done].
    apply Hev. apply (recs_evolve_insert _ _ r); [done|]. apply validated_evolves, Ha.
  - destruct (validate_id_cases wall m req (proj1 Hm)) as
      [(h & r & _ & Hr & _ & _ & _ & _ & _ & _ & Hu & ->)|(e & ->)]; [|done].
    apply Hev. apply (recs_evolve_insert _ _ r); [done|]. by apply validated_evolves.
  - done.
  - destruct (revoke_plugin_spec wall m e p n now Hm) as (? & [] & _). split; [done|].
    constructor; try done. intros h r' Hr'. destruct (adv_recs0 h r' Hr') as [?|[[] _]]. by left.
  - unfold RevokeSurface. case_match; [apply Hloop|done].
  - unfold RevokeSurfaceGeneration. case_match; [|done]. case_bool_decide; [done|apply Hloop].
  - destruct (revoke_id_evolves wall m kind tid now) as (recs' & -> & He). auto.
  - destruct (SessionScope_Valid scope) eqn:Hv.
    + destruct (RevokeSessionScope_spec wall m scope now Hm Hv) as (? & He & (Hf & Hs & _) & _).
      split; [done|]. constructor; rewrite ?Hf, ?Hs; [|eauto with lia|done|done].
      intros h r' Hr'. left. by apply (recs_evolve_bwd _ _ _ _ He).
    + unfold RevokeSessionScope, SessionScope_Valid in *. by destruct (SessionScope_Validate scope).
Qed.

Lemma run_wf m ops : tok_wf m → tok_wf (tok_run m ops).
Proof.
  revert m. induction ops as [|op ops IH]; intros m Hm; cbn; [done|]. apply IH, step_spec, Hm.
Qed.

Lemma new_wf options : tok_wf (NewTokenManager options).
Proof.
  assert (∀ o, (0 < to_MaxRecords (normalizeTokenManagerOptions o) ∧
    0 < to_MaxRecordsPerPlugin (normalizeTokenManagerOptions o) ∧
    0 < to_MaxRevokeFloors (normalizeTokenManagerOptions o))%Z) as Ho.
  { intros o. unfold normalizeTokenManagerOptions, DefaultMaxTokenRecords,
      DefaultMaxTokenRecordsPerPlugin, DefaultMaxTokenRevokeFloors. cbn.
    repeat case_match; go_bools; lia. }
  unfold NewTokenManager. specialize (Ho (match options with [] => mkTokenManagerOptions 0 0 0 0
    | configured :: _ => configured end)).
  set (o := normalizeTokenManagerOptions _) in *. clearbody o. unfold index_get.
  assert (∀ (A : Type) (P : A → Prop), (∃ r, @None A = Some r ∧ P r) ↔ False) as Hno.
  { intros A P. split; [by intros (? & ? & _)|done]. }
  split_and!; [constructor|constructor|]; cbn; unfold index_get, compact.
  - intros h r. by rewrite lookup_empty.
  - intros key h. rewrite !lookup_empty, Hno. by split.
  - intros key h. rewrite !lookup_empty, Hno. cbn. set_solver.
  - intros key h. rewrite !lookup_empty, Hno. cbn. set_solver.
  - intros key h. rewrite !lookup_empty. cbn. set_solver.
  - intros h r scope. by rewrite lookup_empty.
  - split_and!; intros k entries; by rewrite lookup_empty.
  - rewrite map_size_empty. lia.
  - intros key. rewrite lookup_empty. cbn. rewrite size_empty. lia.
  - rewrite map_size_empty. lia.
  - done.
  - intros key floor. by rewrite lookup_empty.
  - intros h r floor. cbn. by rewrite lookup_empty.
Qed.

(** C12: the token manager's indices, bounds and floors. After any sequence
    of calls on a new manager, whatever its options, the id, plugin and
    surface indices list exactly the records with that key, the session index
    lists every live record of the session and only records of the session,
    no index keeps an empty entry, the records stay within the total and the
    per-plugin limits, every record respects the TTL limit and carries the use
    of its kind, the revoke floors stay within their limit, and no live record
    is below its plugin's floor. *)
Theorem token_manager_invariant options ops : tok_wf (tok_run (NewTokenManager options) ops).
Proof. apply run_wf, new_wf. Qed.

(** ** Permanence *)

(** The hash has no record that would validate. *)
Definition spent (h : string) (m : TokenManager) : Prop :=
  ∀ r, tm_records m !! h = Some r → tr_Revoked r = true ∨ tr_Consumed r = true.

(** No mint of the run creates the hash. *)
Fixpoint no_mint_of (h : string) (m : TokenManager) (ops : list TokenOp) : Prop :=
  match ops with
  | [] => True
  | op :: ops => (∀ r, mints m op r → tr_TokenHash r ≠ h) ∧ no_mint_of h (tok_step m op) ops
  end.

Lemma spent_step h m op :
  tok_wf m → spent h m → (∀ r, mints m op r → tr_TokenHash r ≠ h) → spent h (tok_step m op).
Proof.
  intros Hm Hs Hn r' Hr'. destruct (step_spec m op Hm) as (_ & Ha).
  destruct (adv_recs _ _ _ Ha _ _ Hr') as [(r & Hr & Hev)|[Hmint Hh]]; [|by destruct (Hn _ Hmint)].
  destruct (Hs r Hr); [left; by apply (evo_revoked _ _ Hev)|right; by apply (evo_consumed _ _ Hev)].
Qed.

Lemma spent_run h m ops :
  tok_wf m → spent h m → no_mint_of h m ops → spent h (tok_run m ops).
Proof.
  revert m. induction ops as [|op ops IH]; intros m Hm Hs Hn; cbn; [done|].
  destruct Hn as [Hn Hrest]. apply IH; [by apply step_spec|by apply spent_step|done].
Qed.

(** A spent hash passes no check, by token or by id. *)
Lemma spent_rejected h m :
  tok_wf m → spent h m →
  (∀ wall req, hashToken sha256 (vr_Token req) = h → is_ok (Validate sha256 wall m req).2 = false) ∧
  (∀ wall req r, (ValidateID wall m req).2 = Ok r → tr_TokenHash r ≠ h) ∧
  (∀ wall req, hashToken sha256 (ir_Token req) = h → is_ok (Inspect_ sha256 wall m req) = false).
Proof.
  intros Hm Hs. split_and!.
  - intros wall req Hh. destruct (validate_cases sha256 wall m req) as [(r & Hr & Ha & _)|(_ & e & ->)]; [|done].
    rewrite Hh in Hr. destruct Ha as (_ & ? & _ & ? & _). destruct (Hs r Hr); congruence.
  - intros wall req r Hres. destruct (validate_id_cases wall m req (proj1 Hm)) as
      [(h' & r0 & _ & Hr & _ & Hv & _ & Hc & _ & _ & Hu & Heq)|(e & Heq)]; rewrite Heq in Hres; [|done].
    cbn in Hres. injection Hres as <-. intros Hh.
    rewrite (evo_hash _ _ (validated_evolves _ None _ _ Hu)) in Hh.
    destruct (core_rec _ (proj1 Hm) _ _ Hr) as [Hh' _]. rewrite Hh' in Hh. subst h'.
    destruct (Hs r0 Hr); congruence.
  - intros wall req Hh. unfold Inspect_. case_bool_decide; [done|]. unfold loadTokenRecordLocked.
    rewrite Hh. destruct (tm_records m !! h) as [r|] eqn:Hr; [|done].
    destruct (liveRecord _ _ r) as [r'|] eqn:Hl; [|done]. apply liveRecord_ok in Hl as (_ & _ & ? & _ & ?).
    destruct (Hs r Hr); congruence.
Qed.


Lemma closed_step key minimum m op :
  tok_wf m → closed_below key minimum m → closed_below key minimum (tok_step m op).
Proof.
  intros Hm [Hrec Hfl]. destruct (step_spec m op Hm) as (_ & Ha). split.
  - intros h r' Hr' Hk Hep. destruct (adv_recs _ _ _ Ha _ _ Hr') as [(r & Hr & Hev)|[Hmint _]].
    + apply (evo_revoked _ _ Hev). apply (Hrec h r Hr).
      * by rewrite <- (evolves_plugin_key _ _ Hev).
      * by rewrite <- (evolves_epoch _ _ Hev).
    + exfalso. destruct Hmint as (env & req & c & -> & Hp & Hres).
      destruct (Mint sha256 env m req) as [m' res] eqn:Hmint. cbn in Hres. subst res.
      destruct (mint_cases _ _ _ _ _ _ Hm Hmint) as [(e & ? & _)|(r0 & c0 & _ & Hp0 & _ & _ & _ & _ & _ & _ & Hf & Hs)];
        [done|].
      rewrite Hp in Hp0. injection Hp0 as <- <-. subst key.
      destruct Hfl as [(f & Hfk & ?)|[Hsat Hnone]]; [specialize (Hf f Hfk); lia|]. by apply Hs.
  - destruct Hfl as [(f & Hf & ?)|[Hsat Hnone]].
    + destruct (adv_floor _ _ _ Ha _ _ Hf) as (f' & ? & ?). left. exists f'. split; [done|lia].
    + right. split; [by apply (adv_saturated _ _ _ Ha)|by apply (adv_untracked _ _ _ Ha)].
Qed.

Lemma closed_run key minimum m ops :
  tok_wf m → closed_below key minimum m → closed_below key minimum (tok_run m ops).
Proof.
  revert m. induction ops as [|op ops IH]; intros m Hm Hc; cbn; [done|].
  apply IH; [by apply step_spec|by apply closed_step].
Qed.

(** C4: a plugin revocation is permanent. After [RevokePlugin] with a valid
    plugin and epoch, even when it reports that the floor table is full, no
    later call ever validates, inspects or mints a token of that plugin whose
    revoke epoch is below the requested one. *)
Theorem revoked_epoch_stays_closed options ops wall e p minimum now later key :
  ownerPluginIndexKey e p = Ok key → IsPositiveSafeUnsignedInteger minimum = true →
  let m' := tok_run (RevokePlugin wall (tok_run (NewTokenManager options) ops) e p minimum now).1 later in
  (∀ wall' req r, (Validate sha256 wall' m' req).2 = Ok r → plugin_key r = key → (minimum ≤ epoch r)%Z) ∧
  (∀ wall' req r, (ValidateID wall' m' req).2 = Ok r → plugin_key r = key → (minimum ≤ epoch r)%Z) ∧
  (∀ wall' req r, Inspect_ sha256 wall' m' req = Ok r → plugin_key r = key → (minimum ≤ epoch r)%Z) ∧
  (∀ env req t, (Mint sha256 env m' req).2 = Ok t →
     tokenPluginIndexKey (mr_Kind req) (mr_Audience req) = Ok key →
     (minimum ≤ rv_RevokeEpoch (mr_Revision req))%Z).
Proof.
  intros Hk Hmin m'. assert (tok_wf (tok_run (NewTokenManager options) ops)) as Hm by (apply run_wf, new_wf).
  destruct (revoke_plugin_spec wall _ e p minimum now Hm) as (Hm1 & _ & Hcl).
  assert (tok_wf m') as Hm' by (by apply run_wf).
  assert (closed_below key minimum m') as [Hrec Hfl] by (apply closed_run; auto).
  assert (∀ h r r', tm_records m' !! h = Some r → tr_Revoked r = false → evolves r r' →
    plugin_key r' = key → (minimum ≤ epoch r')%Z) as Hlive.
  { intros h r r' Hr Hv Hev Hpk. rewrite (evolves_epoch _ _ Hev).
    rewrite (evolves_plugin_key _ _ Hev) in Hpk.
    destruct (Z.lt_ge_cases (epoch r) minimum); [|done]. rewrite (Hrec h r) in Hv; done. }
  split_and!.
  - intros wall' req r Hres. destruct (validate_cases sha256 wall' m' req) as [(r0 & Hr & Ha & Heq)|(_ & ? & Heq)];
      rewrite Heq in Hres; [|done]. injection Hres as <-.
    apply (Hlive _ _ _ Hr); [apply Ha|apply validated_evolves, Ha].
  - intros wall' req r Hres. destruct (validate_id_cases wall' m' req (proj1 Hm')) as
      [(h' & r0 & _ & Hr & _ & Hv & _ & Hc & _ & _ & Hu & Heq)|(? & Heq)]; rewrite Heq in Hres; [|done].
    injection Hres as <-. apply (Hlive _ _ _ Hr); [done|by apply validated_evolves].
  - intros wall' req r. unfold Inspect_, loadTokenRecordLocked. case_bool_decide; [done|].
    destruct (tm_records m' !! _) as [r0|] eqn:Hr; [|done].
    intros (-> & _ & ? & _)%liveRecord_ok. by apply (Hlive _ _ _ Hr).
  - intros env req t Hres Hpk. destruct (Mint sha256 env m' req) as [m2 res] eqn:Hmint. cbn in Hres. subst res.
    destruct (mint_cases _ _ _ _ _ _ Hm' Hmint) as [(err & ? & _)|(r0 & c0 & _ & Hp & _ & _ & _ & _ & _ & _ & Hf & Hs)];
      [done|].
    apply prepareMint_ok in Hp as (_ & HK & HA & HR & _). rewrite <- HK, <- HA in Hpk.
    apply plugin_key_ok in Hpk as [Hpk _]. rewrite <- HR. fold (epoch r0). rewrite Hpk in *.
    destruct Hfl as [(f & Hfk & ?)|[Hsat Hnone]]; [specialize (Hf f Hfk); lia|]. by destruct (Hs Hsat).
Qed.

(** C13: what [Validate] accepts. It succeeds exactly when the presented token
    has a record of the requested kind that is neither revoked nor consumed nor
    expired, whose whole audience and revision binding equal the request's,
    that is single-use if the call consumes it, and whose channel bindings do
    not contradict the requested one; it then stores and returns the record
    with the binding and the consumption added. Otherwise it reports an error
    and changes nothing. *)
Theorem validate_exact wall m req :
  let now := or_wall wall (vr_Now req) in
  let h := hashToken sha256 (vr_Token req) in
  (∀ r', (Validate sha256 wall m req).2 = Ok r' ↔
     ∃ r, tm_records m !! h = Some r ∧ acceptable now req r ∧
       r' = validated now (vr_Bind req) (vr_Consume req) r) ∧
  (∀ r', (Validate sha256 wall m req).2 = Ok r' →
     (Validate sha256 wall m req).1 = set_records (<[h := r']> (tm_records m)) m) ∧
  (∀ e, (Validate sha256 wall m req).2 = Err e → (Validate sha256 wall m req).1 = m).
Proof.
  intros now h. destruct (validate_cases sha256 wall m req) as [(r & Hr & Ha & ->)|(Hno & e & ->)]; cbn.
  - split_and!; [|by intros r' [= <-]|done]. intros r'. split; [intros [= <-]; eauto|].
    intros (r0 & Hr0 & _ & ->). fold h in Hr. rewrite Hr in Hr0. by injection Hr0 as <-.
  - split_and!; [|done|done]. intros r'. split; [done|]. intros (r & Hr & Ha & _). by destruct (Hno r Hr).
Qed.

(** minting and validating agree: a token that [Mint] returns is accepted
    by [Validate] with the audience and the revision it was minted for, at any
    time before its expiry, and the record carries its id and use. *)
Theorem minted_token_validates options ops env req t wall now :
  let m := tok_run (NewTokenManager options) ops in
  (Mint sha256 env m req).2 = Ok t → now ≠ 0%Z → (now < mt_ExpiresAt t)%Z →
  ∃ r, (Validate sha256 wall (Mint sha256 env m req).1
          (mkValidateRequest (mt_Kind t) (mt_Token t) (mt_Audience t) (mt_Revision t) now false None)).2
       = Ok r ∧ tr_TokenID r = mt_TokenID t ∧ tr_Use r = defaultTokenUse (mr_Kind req) ∧
       mt_Audience t = mr_Audience req ∧ mt_Revision t = mr_Revision req.
Proof.
  intros m Hres Hnz Hexp. assert (tok_wf m) as Hm by (apply run_wf, new_wf).
  destruct (Mint sha256 env m req) as [m' res] eqn:Hmint. cbn in Hres. subst res.
  destruct (mint_cases _ _ _ _ _ _ Hm Hmint) as [(e & ? & _)|(r & c & [= ->] & Hp & -> & _)]; [done|].
  apply prepareMint_ok in Hp as (_ & HK & HA & HR & _ & _ & HU & HC & HV & HB & HH & _). cbn in Hexp.
  exists r. split; [|split_and!; try done; congruence].
  match goal with |- (Validate _ _ ?m' ?q).2 = _ =>
    destruct (validate_cases sha256 wall m' q) as [(r' & Hr' & Ha & ->)|(Hno & e & ->)] end.
  - cbn in Hr'. rewrite <- HH, lookup_insert_eq in Hr'. by injection Hr' as <-.
  - exfalso. cbn in Hno. apply (Hno r); [rewrite <- HH; apply lookup_insert_eq|].
    unfold acceptable; cbn. rewrite or_wall_id by done. split_and!; done.
Qed.

(** ** Sessions *)

Definition count_of (kind : TokenKind) (c : SessionTokenRevocationCounts) : Z :=
  if bool_decide (kind = TokenKindAssetTicket) then sc_AssetTickets c
  else if bool_decide (kind = TokenKindAssetSession) then sc_AssetSessions c
  else if bool_decide (kind = TokenKindPluginGatewayToken) then sc_PluginGatewayTokens c
  else if bool_decide (kind = TokenKindConfirmationToken) then sc_ConfirmationTokens c
  else sc_HandleGrants c.

Lemma validTokenKind_cases kind :
  validTokenKind kind = true ↔
  kind = TokenKindAssetTicket ∨ kind = TokenKindAssetSession ∨ kind = TokenKindPluginGatewayToken ∨
  kind = TokenKindConfirmationToken ∨ kind = TokenKindHandleGrant.
Proof. unfold validTokenKind. rewrite !orb_true_iff, !bool_decide_eq_true. tauto. Qed.

Lemma count_of_increment kind kind' c :
  validTokenKind kind = true → validTokenKind kind' = true →
  count_of kind (increment kind' c) =
  if decide (kind = kind') then incr64 (count_of kind c) else count_of kind c.
Proof.
  rewrite !validTokenKind_cases. intros Hk Hk'. destruct c.
  destruct_or!; subst; reflexivity.
Qed.

(** The live records of a session, by kind. *)
Definition live_in_session (scope : SessionScope) (kind : TokenKind) (m : TokenManager) :
    gmap string TokenRecord :=
  filter (λ hr, tr_Revoked hr.2 = false ∧ in_session hr.2 scope ∧ tr_Kind hr.2 = kind) (tm_records m).

Definition live_hash (kind : TokenKind) (m : TokenManager) (h : string) : Prop :=
  match tm_records m !! h with
  | Some r => tr_Revoked r = false ∧ tr_Kind r = kind
  | None => False
  end.

#[local] Instance live_hash_dec kind m h : Decision (live_hash kind m h).
Proof. unfold live_hash. destruct (tm_records m !! h); apply _. Defined.

Lemma count_fold m kind l c :
  tok_wf m → validTokenKind kind = true → (0 ≤ count_of kind c ≤ uint64_max)%Z →
  count_of kind (foldl (count_live (tm_records m)) c l) =
  u64 (count_of kind c + Z.of_nat (length (filter (live_hash kind m) l)))%Z.
Proof.
  intros Hm Hk. revert c. induction l as [|h l IH]; intros c Hc; cbn [foldl].
  { rewrite filter_nil. cbn. rewrite Z.add_0_r. symmetry. apply Z.mod_small.
    unfold uint64_max in Hc. lia. }
  rewrite filter_cons. unfold count_live at 2. destruct (tm_records m !! h) as [r|] eqn:Hr.
  2: { rewrite decide_False by (unfold live_hash; rewrite Hr; tauto). by apply IH. }
  assert (live_hash kind m h ↔ tr_Revoked r = false ∧ tr_Kind r = kind) as Hlive
    by (unfold live_hash; by rewrite Hr).
  destruct (tr_Revoked r) eqn:Hv; [rewrite decide_False by naive_solver; by apply IH|].
  destruct (core_rec _ (proj1 Hm) _ _ Hr) as [_ Hok]. pose proof (rok_kind _ _ Hok) as Hrk.
  rewrite IH; rewrite (count_of_increment kind _ _ Hk Hrk).
  - destruct (decide (kind = tr_Kind r)) as [Heq|Hne].
    + rewrite decide_True by naive_solver. cbn [length]. unfold incr64, u64.
      rewrite Zplus_mod_idemp_l. f_equal. lia.
    + rewrite decide_False by naive_solver. done.
  - case_decide; [apply u64_range|done].
Qed.

Lemma preview_counts m scope kind c :
  tok_wf m → validTokenKind kind = true → PreviewSessionScopeRevocation m scope = Ok c →
  count_of kind c = u64 (Z.of_nat (size (live_in_session scope kind m))).
Proof.
  intros Hm Hk. unfold PreviewSessionScopeRevocation. destruct (SessionScope_Validate scope); [|done].
  intros [= <-]. rewrite (count_fold m kind _ zeroCounts Hm Hk).
  2: { apply validTokenKind_cases in Hk. destruct_or!; subst; by vm_compute. }
  assert (count_of kind zeroCounts = 0%Z) as ->.
  { unfold count_of, zeroCounts. by repeat case_bool_decide. }
  rewrite Z.add_0_l. do 2 f_equal. rewrite <- size_dom. unfold size at 1, set_size. cbn.
  apply Permutation_length, NoDup_Permutation.
  - apply NoDup_filter, NoDup_elements.
  - apply NoDup_elements.
  - intros h. rewrite list_elem_of_filter, !elem_of_elements, elem_of_dom. split.
    + unfold live_hash. intros [Hl Hin]. destruct (tm_records m !! h) as [r|] eqn:Hr; [|done].
      destruct Hl as [Hv Hkind]. exists r. unfold live_in_session. apply map_lookup_filter_Some. split_and!; try done. cbn.
      destruct (core_session _ (proj1 Hm) _ _ Hin) as (r' & Hr' & Hs). congruence.
    + intros [r [Hr (Hv & Hs & Hkind)]%map_lookup_filter_Some]. cbn in *.
      split; [unfold live_hash; by rewrite Hr|].
      by eapply (core_live _ (proj1 Hm)).
Qed.

(** Revoking a session is exact and idempotent. [RevokeSessionScope]
    revokes every live token of the session and touches no other record; the
    counts it returns are the ones the preview announced, which count the live
    tokens of the session kind by kind; afterwards the preview is zero. *)
Theorem session_revocation_exact options ops wall scope now :
  let m := tok_run (NewTokenManager options) ops in
  SessionScope_Valid scope = true →
  let res := RevokeSessionScope wall m scope now in
  (∃ c, res.2 = Ok c ∧ PreviewSessionScopeRevocation m scope = Ok c ∧
     ∀ kind, validTokenKind kind = true →
       count_of kind c = u64 (Z.of_nat (size (live_in_session scope kind m)))) ∧
  (∀ h, tm_records res.1 !! h =
     (λ r, if decide (in_session r scope ∧ tr_Revoked r = false)
           then set_Revoked true (Some (or_wall wall now)) r else r) <$> tm_records m !! h) ∧
  PreviewSessionScopeRevocation res.1 scope = Ok zeroCounts.
Proof.
  intros m Hv. assert (tok_wf m) as Hm by (apply run_wf, new_wf).
  destruct (RevokeSessionScope_spec wall m scope now Hm Hv) as (Hw & _ & _ & Hl & Hi & Hc).
  cbv zeta. set (res := RevokeSessionScope wall m scope now) in *. split_and!.
  - rewrite Hc. destruct (PreviewSessionScopeRevocation m scope) as [c|e] eqn:Hp.
    + exists c. split_and!; try done. intros kind Hk. by apply preview_counts.
    + exfalso. unfold PreviewSessionScopeRevocation, SessionScope_Valid in *.
      by destruct (SessionScope_Validate scope).
  - intros h. rewrite Hl. destruct (tm_records m !! h) as [r|] eqn:Hr; [|by case_decide].
    unfold revoke_if; cbn. destruct (tr_Revoked r) eqn:Hrv; cbn.
    + rewrite (decide_False (P:=_ ∧ _)) by naive_solver. by case_decide.
    + destruct (decide (in_session r scope)) as [Hs|Hs].
      * rewrite !decide_True; [done|done|]. by eapply (core_live _ (proj1 Hm)).
      * rewrite !decide_False; [done|naive_solver|]. intros Hin.
        destruct (core_session _ (proj1 Hm) _ _ Hin) as (r' & Hr' & Hs'). congruence.
  - unfold PreviewSessionScopeRevocation, SessionScope_Valid in *.
    destruct (SessionScope_Validate scope); [|done].
    assert (index_get (tm_sessionIndex res.1) scope = ∅) as ->; [|done].
    apply leibniz_equiv, set_equiv. intros h. rewrite Hi. set_solver.
Qed.

(** The loop over the entries of a surface. *)
Lemma surface_loop m key now sel h :
  tok_wf m → key ≠ "" →
  tm_records (revokeLoop sel now (index_get (tm_surfaceIndex m) key) m).1 !! h =
  (λ r, revoke_if (λ r, bool_decide (surface_key r = key) && sel r) now r) <$> tm_records m !! h.
Proof.
  intros Hm Hne. destruct (revokeLoop_spec sel now (index_get (tm_surfaceIndex m) key) m)
    as (recs' & -> & _ & Hl). cbn. rewrite Hl.
  destruct (tm_records m !! h) as [r|] eqn:Hr; [|by case_decide]. cbn. unfold revoke_if.
  case_decide as Hin; rewrite (core_surface _ (proj1 Hm)) in Hin; case_bool_decide; cbn; try done;
    exfalso; naive_solver congruence.
Qed.

Lemma surface_revocation_loop wall m s now key :
  tok_wf m →
  ownerSurfaceIndexKey (sf_OwnerEnvHash s) (sf_PluginInstanceID s) (sf_SurfaceInstanceID s) = Ok key →
  (∀ h, tm_records (RevokeSurface wall m (sf_OwnerEnvHash s) (sf_PluginInstanceID s)
                      (sf_SurfaceInstanceID s) now).1 !! h =
     (λ r, revoke_if (λ r, bool_decide (surface_key r = key)) (or_wall wall now) r) <$>
       tm_records m !! h) ∧
  (TrimSpace (sf_AssetSessionNonce s) ≠ "" →
   ∀ h, tm_records (RevokeSurfaceGeneration wall m s now).1 !! h =
     (λ r, revoke_if (λ r, bool_decide (surface_key r = key) &&
                           tokenMatchesSurfaceGeneration r (audience s "") (revision s))
             (or_wall wall now) r) <$> tm_records m !! h).
Proof.
  intros Hm Hk. assert (key ≠ "") as Hne. { intros ->. by apply ownerSurfaceIndexKey_nonempty in Hk. }
  unfold RevokeSurface, RevokeSurfaceGeneration. rewrite Hk. split.
  - intros h. rewrite surface_loop by done. destruct (tm_records m !! h); [|done]. cbn. unfold revoke_if.
    by rewrite andb_true_r.
  - intros Hn h. rewrite bool_decide_eq_false_2 by done. by apply surface_loop.
Qed.

(** Revoking a surface is exact: [RevokeSurface] revokes every token of
    the surface and no other, and [RevokeSurfaceGeneration] of those only the
    tokens minted for that generation, so a replacement under the same surface
    id keeps its tokens. *)
Theorem surface_revocation_exact options ops wall s now key :
  let m := tok_run (NewTokenManager options) ops in
  ownerSurfaceIndexKey (sf_OwnerEnvHash s) (sf_PluginInstanceID s) (sf_SurfaceInstanceID s) = Ok key →
  (∀ h, tm_records (RevokeSurface wall m (sf_OwnerEnvHash s) (sf_PluginInstanceID s)
                      (sf_SurfaceInstanceID s) now).1 !! h =
     (λ r, revoke_if (λ r, bool_decide (surface_key r = key)) (or_wall wall now) r) <$>
       tm_records m !! h) ∧
  (TrimSpace (sf_AssetSessionNonce s) ≠ "" →
   ∀ h, tm_records (RevokeSurfaceGeneration wall m s now).1 !! h =
     (λ r, revoke_if (λ r, bool_decide (surface_key r = key) &&
                           tokenMatchesSurfaceGeneration r (audience s "") (revision s))
             (or_wall wall now) r) <$> tm_records m !! h).
Proof. intros m. apply surface_revocation_loop, run_wf, new_wf. Qed.

End runs.

(** ** Witnesses *)

Definition sample_sha (s : string) : string := s.
Definition sample_audience : Audience :=
  mkAudience "p" "inst" "1.0" "fp" "sf" "sfi" "/e" "s256" "nonce" "trusted_parent" "sess" "user" "env"
    "chan" "" "" "gen" "" "" "" "" "" "" "" "" "" "" zeroResourceScope.
Definition sample_revision : RevisionBinding := mkRevisionBinding 1 1 3.
Definition sample_mint : MintRequest :=
  mkMintRequest TokenKindAssetTicket "" sample_audience sample_revision 1000 10 (mkLimits 0 0).
Definition sample_env : MintEnv := mkMintEnv 1 1 (Some "id") (Some "nonce") (Some "secret").
Definition sample_token : string := "asset_ticket.at_aWQ.c2VjcmV0".
Definition sample_validate (consume : bool) : ValidateRequest :=
  mkValidateRequest TokenKindAssetTicket sample_token sample_audience sample_revision 20 consume None.
Definition sample_scope : SessionScope := mkSessionScope "sess" "user" "env" "chan".
Definition sample_session : SurfaceSession :=
  mkSurfaceSession "p" "inst" "1.0" "sfi" "sf" "fp" "/e" "s256" "nonce" "trusted_parent" "gen" "sess"
    "user" "env" "chan" "bn" 1 1 3 5 900.


Lemma revoked_epoch_stays_closed_witness :
  is_ok (Mint sample_sha sample_env (NewTokenManager []) sample_mint).2 = true ∧
  is_ok (Mint sample_sha sample_env
    (tok_run sample_sha (RevokePlugin 7 (NewTokenManager []) "env" "inst" 4 20).1 []) sample_mint).2 = false.
Proof.
  split; [vm_compute; reflexivity|].
  destruct (revoked_epoch_stays_closed sample_sha [] [] 7 "env" "inst" 4 20 []
    ("env" +:+ nul +:+ "inst")) as (_ & _ & _ & Hm); [vm_compute; reflexivity|vm_compute; reflexivity|].
  specialize (Hm sample_env sample_mint). cbn [tok_run foldl] in Hm |- *.
  destruct ((Mint _ _ _ _).2) as [t|e]; [|reflexivity].
  exfalso. specialize (Hm t eq_refl eq_refl). vm_compute in Hm. by apply Hm.
Defined.

Lemma minted_token_validates_witness :
  ∃ t r, (Mint sample_sha sample_env (NewTokenManager []) sample_mint).2 = Ok t ∧
    (Validate sample_sha 7 (Mint sample_sha sample_env (NewTokenManager []) sample_mint).1
       (mkValidateRequest (mt_Kind t) (mt_Token t) (mt_Audience t) (mt_Revision t) 20 false None)).2 = Ok r.
Proof.
  destruct ((Mint sample_sha sample_env (NewTokenManager []) sample_mint).2) as [t|e] eqn:Ht;
    [|vm_compute in Ht; discriminate].
  destruct (minted_token_validates sample_sha [] [] sample_env sample_mint t 7 20) as (r & Hr & _);
    [exact Ht|discriminate|vm_compute in Ht; injection Ht as <-; vm_compute; reflexivity|].
  exists t, r. split; [reflexivity|exact Hr].
Defined.

Lemma session_revocation_exact_witness :
  (RevokeSessionScope 7 (tok_run sample_sha (NewTokenManager []) [OpMint sample_env sample_mint])
     sample_scope 30).2 = Ok (mkSessionTokenRevocationCounts 1 0 0 0 0) ∧
  PreviewSessionScopeRevocation
    (RevokeSessionScope 7 (tok_run sample_sha (NewTokenManager []) [OpMint sample_env sample_mint])
       sample_scope 30).1 sample_scope = Ok zeroCounts.
Proof.
  split; [vm_compute; reflexivity|].
  apply (session_revocation_exact sample_sha [] [OpMint sample_env sample_mint] 7 sample_scope 30).
  vm_compute. reflexivity.
Defined.

Lemma surface_revocation_exact_witness :
  ∃ r, tm_records (RevokeSurfaceGeneration 7
         (tok_run sample_sha (NewTokenManager []) [OpMint sample_env sample_mint]) sample_session 30).1
         !! hashToken sample_sha sample_token = Some r ∧ tr_Revoked r = true.
Proof.
  destruct (surface_revocation_exact sample_sha [] [OpMint sample_env sample_mint] 7 sample_session 30
    ("env" +:+ nul +:+ "inst" +:+ nul +:+ "sfi")) as [_ Hgen]; [vm_compute; reflexivity|].
  rewrite Hgen by (vm_compute; discriminate). eexists. split; vm_compute; reflexivity.
Defined.
