(* ===== verification/Surface.v ===== *)
(** * pkg/bridge/surface.go: the surface token service

    A surface is a browser frame of a plugin. The service keeps the open
    surface sessions of the environment, hands each of them an asset ticket, an
    asset session and a gateway token from the token manager of [Bridge], and
    takes them back when the surface closes. It has a mutex of its own, which it
    releases between the calls of the manager, so that methods interleave. A
    method is a [Prog]: a tree of atomic actions, each a section under
    [service.mu] or a call of the manager. A section that calls the manager does
    so once, and is one action: what it has done to the sessions before the call
    is not visible before the unlock.

    Go ranges over a map in an order it does not specify; an action takes a
    [Choice] that picks the order of every loop. The random bytes and the readings
    of the clock are arguments of the methods, SHA-256 is a parameter. *)

From stdpp Require Import pretty.
From S2P Require Import Prelude GoLib Index SessionCtx Bridge.

Open Scope go_scope.

Definition DefaultAssetTicketTTL : Z := 15 * Second.
Definition MaxAssetTicketTTL : Z := 60 * Second.
Definition DefaultAssetSessionTTL : Z := 10 * Minute.
Definition MaxAssetSessionTTL : Z := 15 * Minute.
Definition DefaultGatewayTokenTTL : Z := 10 * Minute.
Definition MaxGatewayTokenTTL : Z := 15 * Minute.
Definition DefaultMaxActiveSurfaceSessions : Z := 4096.
Definition DefaultMaxActiveSurfaceSessionsPerOwner : Z := 64.
Definition DefaultSurfaceClosureTTL : Z := 15 * Minute.
Definition DefaultConfirmationTTL : Z := 2 * Minute.
Definition MaxConfirmationTTL : Z := 5 * Minute.
Definition DefaultRuntimeLeaseTTL : Z := 30 * Second.
Definition MaxRuntimeLeaseTTL : Z := 5 * Minute.
Definition DefaultHandleGrantTTL : Z := 30 * Second.
Definition MaxHandleGrantTTL : Z := 60 * Second.

(** The errors of the service: its own, and those of the token manager. *)
Inductive SurfErr :=
| ErrSurfaceSessionNotFound | ErrSurfaceSessionExpired | ErrSurfaceSessionAlreadyExists
| ErrSurfaceSessionLimitReached | ErrHandshakeMismatch | ErrAssetSessionRequired
| TokenError (e : TokErr).

#[export] Instance SurfErr_eq_dec : EqDecision SurfErr.
Proof. solve_decision. Defined.

#[export] Instance SurfaceSession_eq_dec : EqDecision SurfaceSession.
Proof. solve_decision. Defined.

(** ** State *)

Record SurfaceTokenOptions := mkSurfaceTokenOptions {
  so_AssetTicketTTL : Z;
  so_AssetSessionTTL : Z;
  so_GatewayTokenTTL : Z;
  so_MaxActiveSessions : Z;
  so_MaxActiveSessionsPerOwner : Z;
}.

Record surfaceState := mkSurfaceState {
  st_session : SurfaceSession;
  st_assetSessionIssued : bool;
  st_assetSessionTokenID : string;
  st_surfacePrepared : bool;
  st_liveBridgeChannelID : string;
  st_liveGatewayTokenID : string;
}.

#[export] Instance surfaceState_eq_dec : EqDecision surfaceState.
Proof. solve_decision. Defined.

Record surfaceClosure := mkSurfaceClosure {
  cl_bridgeNonce : string;
  cl_ownerSessionHash : string;
  cl_ownerUserHash : string;
  cl_ownerEnvHash : string;
  cl_sessionChannelIDHash : string;
  cl_expiresAt : time;
}.

#[export] Instance surfaceClosure_eq_dec : EqDecision surfaceClosure.
Proof. solve_decision. Defined.

Record SurfaceTokenService := mkService {
  sv_tokens : TokenManager;
  sv_options : SurfaceTokenOptions;
  sv_sessions : gmap string surfaceState;
  sv_closures : gmap string surfaceClosure;
  sv_sessionIndex : Index SessionScope;
  sv_sessionRevokeScanned : Z;
}.

Definition set_tokens (tokens : TokenManager) (s : SurfaceTokenService) : SurfaceTokenService :=
  mkService tokens (sv_options s) (sv_sessions s) (sv_closures s) (sv_sessionIndex s)
    (sv_sessionRevokeScanned s).

Definition set_sessions (sessions : gmap string surfaceState) (s : SurfaceTokenService) : SurfaceTokenService :=
  mkService (sv_tokens s) (sv_options s) sessions (sv_closures s) (sv_sessionIndex s)
    (sv_sessionRevokeScanned s).

Definition set_closures (closures : gmap string surfaceClosure) (s : SurfaceTokenService) : SurfaceTokenService :=
  mkService (sv_tokens s) (sv_options s) (sv_sessions s) closures (sv_sessionIndex s)
    (sv_sessionRevokeScanned s).

(** [if ttl <= 0 { ttl = default }; if ttl > max { ttl = max }]. *)
Definition clampTTL (ttl default_ max : Z) : Z :=
  let ttl := if (ttl <=? 0)%Z then default_ else ttl in
  if (max <? ttl)%Z then max else ttl.

Definition NewSurfaceTokenService (tokens : option TokenManager) (options : SurfaceTokenOptions) :
    SurfaceTokenService :=
  let tokens := match tokens with None => NewTokenManager [] | Some tokens => tokens end in
  let maxActive :=
    if (so_MaxActiveSessions options <=? 0)%Z then DefaultMaxActiveSurfaceSessions
    else so_MaxActiveSessions options in
  let perOwner :=
    if (so_MaxActiveSessionsPerOwner options <=? 0)%Z then DefaultMaxActiveSurfaceSessionsPerOwner
    else so_MaxActiveSessionsPerOwner options in
  let perOwner := if (maxActive <? perOwner)%Z then maxActive else perOwner in
  mkService tokens
    (mkSurfaceTokenOptions
       (clampTTL (so_AssetTicketTTL options) DefaultAssetTicketTTL MaxAssetTicketTTL)
       (clampTTL (so_AssetSessionTTL options) DefaultAssetSessionTTL MaxAssetSessionTTL)
       (clampTTL (so_GatewayTokenTTL options) DefaultGatewayTokenTTL MaxGatewayTokenTTL)
       maxActive perOwner)
    ∅ ∅ ∅ 0.

(** ** Programs *)

(** The order of each map iteration of an action: the [i]-th loop uses the
    permutation number [c i] of the entries. *)
Definition Choice := nat → nat.

Definition iterate {A} (n : nat) (m : gmap string A) : list (string * A) :=
  default (map_to_list m) (permutations (map_to_list m) !! n).

Inductive Prog (A : Type) : Type :=
| Ret (a : A)
| Atomic (f : Choice → SurfaceTokenService → SurfaceTokenService * Prog A).

Arguments Ret {A} a.
Arguments Atomic {A} f.

#[export] Instance prog_ret : MRet Prog := @Ret.

Fixpoint pbind {A B} (k : A → Prog B) (p : Prog A) : Prog B :=
  match p with
  | Ret a => k a
  | Atomic f => Atomic (λ c s, let '(s', p') := f c s in (s', pbind k p'))
  end.

#[export] Instance prog_bind : MBind Prog := @pbind.

(** A section under [service.mu], and a call of the token manager. *)
Definition locked {A} (f : Choice → SurfaceTokenService → SurfaceTokenService * A) : Prog A :=
  Atomic (λ c s, let '(s', a) := f c s in (s', Ret a)).

Definition tokens {A} (f : TokenManager → TokenManager * A) : Prog A :=
  Atomic (λ _ s, let '(m, a) := f (sv_tokens s) in (set_tokens m s, Ret a)).

(** [x, err := p; if err != nil { return err }; k]. *)
Notation "'try' x ':=' p 'in' k" :=
  (pbind (λ r, match r with Err e => Ret (Err e) | Ok x => k end) p)
  (at level 10, x name, p at level 100, k at level 200) : go_scope.

Definition liftTok {A} (r : Result TokErr A) : Result SurfErr A :=
  match r with Ok a => Ok a | Err e => Err (TokenError e) end.

(** The calls of the manager. [wall] is only read when the time is zero. *)
Section service.
Context (sha256 : string → string).

Definition tokens_Mint (env : MintEnv) (req : MintRequest) : Prog (Result SurfErr MintedToken) :=
  tokens (λ m, let '(m, r) := Mint sha256 env m req in (m, liftTok r)).

Definition tokens_Validate (wall : time) (req : ValidateRequest) : Prog (Result SurfErr TokenRecord) :=
  tokens (λ m, let '(m, r) := Validate sha256 wall m req in (m, liftTok r)).

Definition tokens_ValidateID (wall : time) (req : ValidateTokenIDRequest) : Prog (Result SurfErr TokenRecord) :=
  tokens (λ m, let '(m, r) := ValidateID wall m req in (m, liftTok r)).

Definition tokens_Inspect (wall : time) (req : InspectRequest) : Prog (Result SurfErr TokenRecord) :=
  tokens (λ m, (m, liftTok (Inspect_ sha256 wall m req))).

Definition tokens_RevokeTokenID (wall : time) (kind : TokenKind) (tokenID : string) (now : time) : Prog bool :=
  tokens (λ m, RevokeTokenID wall m kind tokenID now).

Definition revokeSurfaceTokens (wall : time) (session : SurfaceSession) (now : time) : Prog Z :=
  tokens (λ m, RevokeSurfaceGeneration wall m session now).

Fixpoint revokeSessions (wall : time) (sessions : list SurfaceSession) (now : time) : Prog unit :=
  match sessions with
  | [] => mret tt
  | session :: rest => _ ← revokeSurfaceTokens wall session now; revokeSessions wall rest now
  end.

(** ** Sessions *)

Definition matchesScope (s : SurfaceSession) (ownerSessionHash ownerUserHash ownerEnvHash
    sessionChannelIDHash : string) : bool :=
  bool_decide (sf_OwnerSessionHash s = ownerSessionHash) &&
  bool_decide (sf_OwnerUserHash s = ownerUserHash) &&
  bool_decide (sf_OwnerEnvHash s = ownerEnvHash) &&
  bool_decide (sf_SessionChannelIDHash s = sessionChannelIDHash).

Definition sessionScope (s : SurfaceSession) : SessionScope :=
  mkSessionScope (sf_OwnerSessionHash s) (sf_OwnerUserHash s) (sf_OwnerEnvHash s)
    (sf_SessionChannelIDHash s).

Definition addSurfaceStateLocked (state : surfaceState) (s : SurfaceTokenService) : SurfaceTokenService :=
  let id := sf_SurfaceInstanceID (st_session state) in
  mkService (sv_tokens s) (sv_options s) (<[id := state]> (sv_sessions s)) (sv_closures s)
    (index_add (sv_sessionIndex s) (sessionScope (st_session state)) id)
    (sv_sessionRevokeScanned s).

Definition deleteSurfaceStateLocked (surfaceInstanceID : string) (s : SurfaceTokenService) :
    SurfaceTokenService * option surfaceState :=
  match sv_sessions s !! surfaceInstanceID with
  | None => (s, None)
  | Some state =>
     (mkService (sv_tokens s) (sv_options s) (delete surfaceInstanceID (sv_sessions s)) (sv_closures s)
        (index_remove (sv_sessionIndex s) (sessionScope (st_session state)) surfaceInstanceID)
        (sv_sessionRevokeScanned s), Some state)
  end.

(** The loops that delete the selected sessions and collect them. *)
Definition deleteStep (select : surfaceState → bool) (acc : SurfaceTokenService * list SurfaceSession)
    (entry : string * surfaceState) : SurfaceTokenService * list SurfaceSession :=
  let '(s, deleted) := acc in
  let '(id, state) := entry in
  if select state then ((deleteSurfaceStateLocked id s).1, deleted ++ [st_session state])
  else (s, deleted).

Definition deleteSelected (select : surfaceState → bool) (order : list (string * surfaceState))
    (s : SurfaceTokenService) : SurfaceTokenService * list SurfaceSession :=
  foldl (deleteStep select) (s, []) order.

Definition expired (now : time) (state : surfaceState) : bool :=
  negb (Before now (sf_ExpiresAt (st_session state))).

Definition surfaceSessionCanReplaceStaleBinding (current next : SurfaceSession) : bool :=
  if negb (bool_decide (sf_PluginInstanceID current = sf_PluginInstanceID next)) ||
     negb (bool_decide (sf_SurfaceID current = sf_SurfaceID next)) ||
     negb (bool_decide (sf_OwnerSessionHash current = sf_OwnerSessionHash next)) ||
     negb (bool_decide (sf_OwnerUserHash current = sf_OwnerUserHash next)) ||
     negb (bool_decide (sf_OwnerEnvHash current = sf_OwnerEnvHash next)) ||
     negb (bool_decide (sf_SessionChannelIDHash current = sf_SessionChannelIDHash next))
  then false
  else negb (bool_decide (sf_ActiveFingerprint current = sf_ActiveFingerprint next)) ||
       negb (bool_decide (sf_EntryPath current = sf_EntryPath next)) ||
       negb (bool_decide (sf_EntrySHA256 current = sf_EntrySHA256 next)) ||
       negb (bool_decide (sf_RuntimeGenerationID current = sf_RuntimeGenerationID next)) ||
       negb (bool_decide (revision current = revision next)).

Definition newState (session : SurfaceSession) : surfaceState :=
  mkSurfaceState session false "" false "" "".

(** The sessions that count against the limit of an owner. *)
Definition owned (owner : string) (state : surfaceState) : bool :=
  bool_decide (sf_OwnerSessionHash (st_session state) = owner).

(** The section of [reserveSurfaceSession]: the sessions to revoke, and the
    error. *)
Definition reserveLocked (session : SurfaceSession) (now : time) (c : Choice) (s : SurfaceTokenService) :
    SurfaceTokenService * (list SurfaceSession * option SurfErr) :=
  let '(s, revoked) := deleteSelected (expired now) (iterate (c 0) (sv_sessions s)) s in
  let '(s, revoked, reserveErr) :=
    match sv_sessions s !! sf_SurfaceInstanceID session with
    | None => (s, revoked, None)
    | Some existing =>
       if surfaceSessionCanReplaceStaleBinding (st_session existing) session
       then ((deleteSurfaceStateLocked (sf_SurfaceInstanceID session) s).1,
             revoked ++ [st_session existing], None)
       else (s, revoked, Some ErrSurfaceSessionAlreadyExists)
    end in
  match reserveErr with
  | Some e => (s, (revoked, Some e))
  | None =>
     if (so_MaxActiveSessions (sv_options s) <=? Z.of_nat (size (sv_sessions s)))%Z
     then (s, (revoked, Some ErrSurfaceSessionLimitReached))
     else
     let ownerSessions := count (owned (sf_OwnerSessionHash session)) (sv_sessions s) in
     if (so_MaxActiveSessionsPerOwner (sv_options s) <=? Z.of_nat ownerSessions)%Z
     then (s, (revoked, Some ErrSurfaceSessionLimitReached))
     else (addSurfaceStateLocked (newState session) s, (revoked, None))
  end.

Definition reserveSurfaceSession (wall : time) (session : SurfaceSession) (now : time) :
    Prog (Result SurfErr unit) :=
  '(revoked, reserveErr) ← locked (reserveLocked session now);
  _ ← revokeSessions wall revoked now;
  mret (match reserveErr with Some e => Err e | None => Ok tt end).

Definition releaseLocked (session : SurfaceSession) (_ : Choice) (s : SurfaceTokenService) :
    SurfaceTokenService * unit :=
  match sv_sessions s !! sf_SurfaceInstanceID session with
  | Some state =>
     if bool_decide (state = newState session)
     then ((deleteSurfaceStateLocked (sf_SurfaceInstanceID session) s).1, tt) else (s, tt)
  | None => (s, tt)
  end.

Definition releaseSurfaceReservation (session : SurfaceSession) : Prog unit :=
  locked (releaseLocked session).

(** [getState] revokes the tokens of an expired session before it unlocks. *)
Definition getStateLocked (wall : time) (surfaceInstanceID : string) (now : time) (_ : Choice)
    (s : SurfaceTokenService) : SurfaceTokenService * Result SurfErr surfaceState :=
  match sv_sessions s !! surfaceInstanceID with
  | None => (s, Err ErrSurfaceSessionNotFound)
  | Some state =>
     if expired now state then
       let s := (deleteSurfaceStateLocked surfaceInstanceID s).1 in
       (set_tokens (RevokeSurfaceGeneration wall (sv_tokens s) (st_session state) now).1 s,
        Err ErrSurfaceSessionExpired)
     else (s, Ok state)
  end.

Definition getState (wall : time) (surfaceInstanceID : string) (now : time) : Prog (Result SurfErr surfaceState) :=
  locked (getStateLocked wall surfaceInstanceID now).

(** ** Opening a surface *)

Record OpenSurfaceRequest := mkOpenSurfaceRequest {
  os_PluginID : string;
  os_PluginInstanceID : string;
  os_PluginVersion : string;
  os_SurfaceID : string;
  os_SurfaceInstanceID : string;
  os_ActiveFingerprint : string;
  os_EntryPath : string;
  os_EntrySHA256 : string;
  os_RouteRole : string;
  os_RuntimeGenerationID : string;
  os_OwnerSessionHash : string;
  os_OwnerUserHash : string;
  os_OwnerEnvHash : string;
  os_SessionChannelIDHash : string;
  os_Revision : RevisionBinding;
  os_Now : time;
}.

Record SurfaceBootstrap := mkSurfaceBootstrap {
  bs_PluginID : string;
  bs_PluginInstanceID : string;
  bs_PluginVersion : string;
  bs_SurfaceID : string;
  bs_SurfaceInstanceID : string;
  bs_ActiveFingerprint : string;
  bs_EntryPath : string;
  bs_EntrySHA256 : string;
  bs_AssetSessionNonce : string;
  bs_ManagementRevision : Z;
  bs_RevokeEpoch : Z;
  bs_RuntimeGenerationID : string;
  bs_OwnerSessionHash : string;
  bs_OwnerUserHash : string;
  bs_OwnerEnvHash : string;
  bs_SessionChannelIDHash : string;
  bs_AssetTicket : string;
  bs_AssetTicketID : string;
  bs_BridgeNonce : string;
  bs_IssuedAt : time;
  bs_ExpiresAt : time;
}.

(** The clock, the bytes of the two nonces and what the mint takes. *)
Record OpenEnv := mkOpenEnv {
  oe_wall : time;
  oe_bridgeNonce : option string;
  oe_assetSessionNonce : option string;
  oe_mint : MintEnv;
}.

Definition anyBlank (values : list string) : bool :=
  existsb (λ value, bool_decide (TrimSpace value = "")) values.

(** The session that a request opens. *)
Definition openedSession (req : OpenSurfaceRequest) (bridgeNonce assetSessionNonce : string)
    (now expiresAt : time) : SurfaceSession :=
  mkSurfaceSession (os_PluginID req) (os_PluginInstanceID req) (os_PluginVersion req)
    (os_SurfaceInstanceID req) (os_SurfaceID req) (os_ActiveFingerprint req) (os_EntryPath req)
    (os_EntrySHA256 req) assetSessionNonce (os_RouteRole req) (os_RuntimeGenerationID req)
    (os_OwnerSessionHash req) (os_OwnerUserHash req) (os_OwnerEnvHash req)
    (os_SessionChannelIDHash req) bridgeNonce (rv_PolicyRevision (os_Revision req))
    (rv_ManagementRevision (os_Revision req)) (rv_RevokeEpoch (os_Revision req)) now expiresAt.

Definition openedAudience (req : OpenSurfaceRequest) (assetSessionNonce : string) : Audience :=
  mkAudience (os_PluginID req) (os_PluginInstanceID req) (os_PluginVersion req)
    (os_ActiveFingerprint req) (os_SurfaceID req) (os_SurfaceInstanceID req) (os_EntryPath req)
    (os_EntrySHA256 req) assetSessionNonce (os_RouteRole req) (os_OwnerSessionHash req)
    (os_OwnerUserHash req) (os_OwnerEnvHash req) (os_SessionChannelIDHash req) "" ""
    (os_RuntimeGenerationID req) "" "" "" "" "" "" "" "" "" "" zeroResourceScope.

Definition noLimits : Limits := mkLimits 0 0.

(** A read of the options, which never change. *)
Definition options : Prog SurfaceTokenOptions := locked (λ _ s, (s, sv_options s)).

Definition OpenSurface (env : OpenEnv) (req : OpenSurfaceRequest) : Prog (Result SurfErr SurfaceBootstrap) :=
  if anyBlank [os_PluginID req; os_PluginInstanceID req; os_PluginVersion req; os_SurfaceID req;
       os_SurfaceInstanceID req; os_ActiveFingerprint req; os_EntryPath req; os_EntrySHA256 req;
       os_RouteRole req; os_RuntimeGenerationID req; os_OwnerSessionHash req; os_OwnerUserHash req;
       os_OwnerEnvHash req; os_SessionChannelIDHash req]
  then mret (Err (TokenError ErrMissingTokenAudience))
  else
  let wall := oe_wall env in
  let now := or_wall wall (os_Now req) in
  match randomString (oe_bridgeNonce env) with
  | Err e => mret (Err (TokenError e))
  | Ok bridgeNonce =>
  match randomString (oe_assetSessionNonce env) with
  | Err e => mret (Err (TokenError e))
  | Ok assetSessionNonce =>
  options ← options;
  let session := openedSession req bridgeNonce assetSessionNonce now
                   (now + so_AssetSessionTTL options)%Z in
  try _reserved := reserveSurfaceSession wall session now in
  minted ← tokens_Mint (oe_mint env)
    (mkMintRequest TokenKindAssetTicket "" (openedAudience req assetSessionNonce) (os_Revision req)
       (now + so_AssetTicketTTL options)%Z now noLimits);
  match minted with
  | Err e => _ ← releaseSurfaceReservation session; mret (Err e)
  | Ok minted =>
     mret (Ok (mkSurfaceBootstrap (os_PluginID req) (os_PluginInstanceID req) (os_PluginVersion req)
       (os_SurfaceID req) (os_SurfaceInstanceID req) (os_ActiveFingerprint req) (os_EntryPath req)
       (os_EntrySHA256 req) assetSessionNonce (rv_ManagementRevision (os_Revision req))
       (rv_RevokeEpoch (os_Revision req)) (os_RuntimeGenerationID req) (os_OwnerSessionHash req)
       (os_OwnerUserHash req) (os_OwnerEnvHash req) (os_SessionChannelIDHash req)
       (mt_Token minted) (mt_TokenID minted) bridgeNonce (mt_IssuedAt minted) (mt_ExpiresAt minted)))
  end
  end
  end.

(** ** Asset sessions *)

Record ExchangeAssetTicketRequest := mkExchange {
  xr_SurfaceInstanceID : string;
  xr_AssetTicket : string;
  xr_OwnerSessionHash : string;
  xr_OwnerUserHash : string;
  xr_OwnerEnvHash : string;
  xr_SessionChannelIDHash : string;
  xr_Now : time;
}.

Record AssetSessionResult := mkAssetSessionResult {
  ar_AssetSession : string;
  ar_AssetSessionID : string;
  ar_AssetSessionNonce : string;
  ar_EntryPath : string;
  ar_EntrySHA256 : string;
  ar_ManagementRevision : Z;
  ar_RevokeEpoch : Z;
  ar_IssuedAt : time;
  ar_ExpiresAt : time;
}.

(** The state with the asset session of the exchange. *)
Definition issueAssetSession (tokenID : string) (state : surfaceState) : surfaceState :=
  mkSurfaceState (st_session state) true tokenID (st_surfacePrepared state)
    (st_liveBridgeChannelID state) (st_liveGatewayTokenID state).

(** The last section of [ExchangeAssetTicket] and of [MintGatewayToken]: store
    the new state unless the session has changed since it was read. *)
Definition storeIfCurrent (surfaceInstanceID : string) (state state' : surfaceState) (_ : Choice)
    (s : SurfaceTokenService) : SurfaceTokenService * bool :=
  if bool_decide (sv_sessions s !! surfaceInstanceID = Some state)
  then (set_sessions (<[surfaceInstanceID := state']> (sv_sessions s)) s, true)
  else (s, false).

Definition ExchangeAssetTicket (wall : time) (env : MintEnv) (req : ExchangeAssetTicketRequest) :
    Prog (Result SurfErr AssetSessionResult) :=
  let now := or_wall wall (xr_Now req) in
  try state := getState wall (xr_SurfaceInstanceID req) now in
  if negb (matchesScope (st_session state) (xr_OwnerSessionHash req) (xr_OwnerUserHash req)
             (xr_OwnerEnvHash req) (xr_SessionChannelIDHash req))
  then mret (Err (TokenError ErrTokenAudience))
  else
  let aud := audience (st_session state) "" in
  let rev := revision (st_session state) in
  try _ticket := tokens_Validate wall
    (mkValidateRequest TokenKindAssetTicket (xr_AssetTicket req) aud rev now true None) in
  options ← options;
  try assetSession := tokens_Mint env
    (mkMintRequest TokenKindAssetSession "" aud rev (now + so_AssetSessionTTL options)%Z now noLimits) in
  stored ← locked (storeIfCurrent (xr_SurfaceInstanceID req) state
                     (issueAssetSession (mt_TokenID assetSession) state));
  if negb (stored : bool) then
    _ ← revokeSurfaceTokens wall (st_session state) now;
    mret (Err (TokenError ErrTokenRevoked))
  else
  mret (Ok (mkAssetSessionResult (mt_Token assetSession) (mt_TokenID assetSession)
    (sf_AssetSessionNonce (st_session state)) (sf_EntryPath (st_session state))
    (sf_EntrySHA256 (st_session state)) (sf_ManagementRevision (st_session state))
    (sf_RevokeEpoch (st_session state)) (mt_IssuedAt assetSession) (mt_ExpiresAt assetSession))).

Record ValidateAssetSessionRequest := mkValidateAssetSession {
  va_AssetSession : string;
  va_AssetSessionID : string;
  va_OwnerSessionHash : string;
  va_OwnerUserHash : string;
  va_OwnerEnvHash : string;
  va_SessionChannelIDHash : string;
  va_Now : time;
}.

Record AssetSessionValidation := mkAssetSessionValidation {
  av_Session : SurfaceSession;
  av_TokenID : string;
}.

Definition ValidateAssetSession (wall : time) (req : ValidateAssetSessionRequest) :
    Prog (Result SurfErr AssetSessionValidation) :=
  if bool_decide (TrimSpace (va_AssetSessionID req) = "")
  then mret (Err (TokenError ErrMissingTokenAudience))
  else
  let now := or_wall wall (va_Now req) in
  try record := tokens_Inspect wall (mkInspectRequest TokenKindAssetSession (va_AssetSession req) now) in
  if negb (bool_decide (va_AssetSessionID req = tr_TokenID record))
  then mret (Err (TokenError ErrTokenAudience))
  else
  try state := getState wall (au_SurfaceInstanceID (tr_Audience record)) now in
  mret (
    if negb (st_assetSessionIssued state) then Err ErrAssetSessionRequired
    else if negb (bool_decide (st_assetSessionTokenID state = tr_TokenID record))
    then Err (TokenError ErrTokenRevoked)
    else if negb (bool_decide (audience (st_session state) "" = tr_Audience record))
    then Err (TokenError ErrTokenAudience)
    else if negb (matchesScope (st_session state) (va_OwnerSessionHash req) (va_OwnerUserHash req)
                    (va_OwnerEnvHash req) (va_SessionChannelIDHash req))
    then Err (TokenError ErrTokenAudience)
    else if negb (bool_decide (revision (st_session state) = tr_Revision record))
    then Err (TokenError ErrTokenRevoked)
    else Ok (mkAssetSessionValidation (st_session state) (tr_TokenID record))).

Record MarkSurfacePreparedRequest := mkMarkPrepared {
  mp_SurfaceInstanceID : string;
  mp_AssetSessionID : string;
  mp_BridgeNonce : string;
  mp_OwnerSessionHash : string;
  mp_OwnerUserHash : string;
  mp_OwnerEnvHash : string;
  mp_SessionChannelIDHash : string;
  mp_Now : time;
}.

Definition prepareState (state : surfaceState) : surfaceState :=
  mkSurfaceState (st_session state) (st_assetSessionIssued state) (st_assetSessionTokenID state) true
    (st_liveBridgeChannelID state) (st_liveGatewayTokenID state).

(** The section of [MarkSurfacePrepared]; an expired session is returned for
    the revocation of its tokens. *)
Definition markPreparedLocked (req : MarkSurfacePreparedRequest) (now : time) (_ : Choice)
    (s : SurfaceTokenService) : SurfaceTokenService * (list SurfaceSession * Result SurfErr unit) :=
  match sv_sessions s !! mp_SurfaceInstanceID req with
  | None => (s, ([], Err ErrSurfaceSessionNotFound))
  | Some state =>
     if expired now state
     then ((deleteSurfaceStateLocked (mp_SurfaceInstanceID req) s).1,
           ([st_session state], Err ErrSurfaceSessionExpired))
     else if negb (st_assetSessionIssued state) ||
             negb (bool_decide (st_assetSessionTokenID state = mp_AssetSessionID req))
     then (s, ([], Err ErrAssetSessionRequired))
     else if negb (bool_decide (sf_BridgeNonce (st_session state) = mp_BridgeNonce req)) ||
             negb (matchesScope (st_session state) (mp_OwnerSessionHash req) (mp_OwnerUserHash req)
                     (mp_OwnerEnvHash req) (mp_SessionChannelIDHash req))
     then (s, ([], Err (TokenError ErrTokenAudience)))
     else (set_sessions (<[mp_SurfaceInstanceID req := prepareState state]> (sv_sessions s)) s, ([], Ok tt))
  end.

Definition MarkSurfacePrepared (wall : time) (req : MarkSurfacePreparedRequest) : Prog (Result SurfErr unit) :=
  if anyBlank [mp_SurfaceInstanceID req; mp_AssetSessionID req; mp_BridgeNonce req;
       mp_OwnerSessionHash req; mp_OwnerUserHash req; mp_OwnerEnvHash req; mp_SessionChannelIDHash req]
  then mret (Err (TokenError ErrMissingTokenAudience))
  else
  let now := or_wall wall (mp_Now req) in
  '(revoked, result) ← locked (markPreparedLocked req now);
  _ ← revokeSessions wall revoked now;
  mret result.

(** ** The handshake and the gateway token *)

Record Handshake := mkHandshake {
  hs_PluginID : string;
  hs_SurfaceID : string;
  hs_SurfaceInstanceID : string;
  hs_ActiveFingerprint : string;
  hs_BridgeNonce : string;
  hs_AssetSessionNonce : string;
  hs_ManagementRevision : Z;
  hs_RevokeEpoch : Z;
}.

(** One field of the transcript: its length in decimal, a colon, its bytes and
    a NUL byte. *)
Definition transcriptField (field : string) : string :=
  pretty (Z.of_nat (String.length field)) +:+ ":" +:+ field +:+ nul.

Definition transcriptFields (handshake : Handshake) (bridgeChannelID : string) : list string :=
  ["redevplugin.bridge.handshake.v3"; hs_PluginID handshake; hs_SurfaceID handshake;
   hs_SurfaceInstanceID handshake; hs_ActiveFingerprint handshake; hs_BridgeNonce handshake;
   hs_AssetSessionNonce handshake; pretty (hs_ManagementRevision handshake);
   pretty (hs_RevokeEpoch handshake); bridgeChannelID].

(** The bytes written to the hash. *)
Definition transcript (handshake : Handshake) (bridgeChannelID : string) : string :=
  foldr (λ field rest, transcriptField field +:+ rest) "" (transcriptFields handshake bridgeChannelID).

Definition HandshakeTranscriptSHA256 (handshake : Handshake) (bridgeChannelID : string) : string :=
  "sha256:" +:+ hex_encode (sha256 (transcript handshake bridgeChannelID)).

Definition validateHandshake (s : SurfaceSession) (handshake : Handshake) : Result SurfErr unit :=
  if negb (bool_decide (hs_PluginID handshake = sf_PluginID s)) ||
     negb (bool_decide (hs_SurfaceID handshake = sf_SurfaceID s)) ||
     negb (bool_decide (hs_SurfaceInstanceID handshake = sf_SurfaceInstanceID s)) ||
     negb (bool_decide (hs_ActiveFingerprint handshake = sf_ActiveFingerprint s)) ||
     negb (bool_decide (hs_BridgeNonce handshake = sf_BridgeNonce s)) ||
     negb (bool_decide (hs_AssetSessionNonce handshake = sf_AssetSessionNonce s)) ||
     negb (bool_decide (hs_ManagementRevision handshake = sf_ManagementRevision s)) ||
     negb (bool_decide (hs_RevokeEpoch handshake = sf_RevokeEpoch s))
  then Err ErrHandshakeMismatch else Ok tt.

Record MintGatewayTokenRequest := mkMintGateway {
  mg_Handshake : Handshake;
  mg_BridgeChannelID : string;
  mg_HandshakeTranscriptSHA256 : string;
  mg_PreviousGatewayToken : string;
  mg_Now : time;
}.

Definition validateBridgeHandshake (wall : time) (req : MintGatewayTokenRequest) :
    Prog (Result SurfErr (surfaceState * time)) :=
  if bool_decide (TrimSpace (mg_BridgeChannelID req) = "")
  then mret (Err (TokenError ErrMissingTokenAudience))
  else if bool_decide (TrimSpace (mg_HandshakeTranscriptSHA256 req) = "")
  then mret (Err (TokenError ErrMissingTokenAudience))
  else if negb (bool_decide (mg_HandshakeTranscriptSHA256 req =
                             HandshakeTranscriptSHA256 (mg_Handshake req) (mg_BridgeChannelID req)))
  then mret (Err (TokenError ErrTokenAudience))
  else
  let now := or_wall wall (mg_Now req) in
  try state := getState wall (hs_SurfaceInstanceID (mg_Handshake req)) now in
  if negb (st_assetSessionIssued state) || negb (st_surfacePrepared state)
  then mret (Err ErrAssetSessionRequired)
  else
  match validateHandshake (st_session state) (mg_Handshake req) with
  | Err e => mret (Err e)
  | Ok _ =>
  if bool_decide (st_liveBridgeChannelID state = "") then
    if negb (bool_decide (TrimSpace (mg_PreviousGatewayToken req) = ""))
    then mret (Err (TokenError ErrTokenAudience))
    else mret (Ok (state, now))
  else if negb (bool_decide (st_liveBridgeChannelID state = mg_BridgeChannelID req)) ||
          bool_decide (TrimSpace (mg_PreviousGatewayToken req) = "")
  then mret (Err (TokenError ErrTokenAlreadyBound))
  else
  try previous := tokens_Inspect wall
    (mkInspectRequest TokenKindPluginGatewayToken (mg_PreviousGatewayToken req) now) in
  if negb (bool_decide (tr_TokenID previous = st_liveGatewayTokenID state)) ||
     negb (bool_decide (tr_Audience previous = audience (st_session state) (mg_BridgeChannelID req))) ||
     negb (bool_decide (tr_Revision previous = revision (st_session state)))
  then mret (Err (TokenError ErrTokenAudience))
  else mret (Ok (state, now))
  end.

Definition ValidateBridgeHandshake (wall : time) (req : MintGatewayTokenRequest) :
    Prog (Result SurfErr SurfaceSession) :=
  try validated := validateBridgeHandshake wall req in
  mret (Ok (st_session validated.1)).

Record GatewayTokenResult := mkGatewayTokenResult {
  gt_GatewayToken : string;
  gt_GatewayTokenID : string;
  gt_AssetSession : string;
  gt_AssetSessionID : string;
  gt_IssuedAt : time;
  gt_ExpiresAt : time;
}.

Definition set_ExpiresAt (expiresAt : time) (s : SurfaceSession) : SurfaceSession :=
  mkSurfaceSession (sf_PluginID s) (sf_PluginInstanceID s) (sf_PluginVersion s)
    (sf_SurfaceInstanceID s) (sf_SurfaceID s) (sf_ActiveFingerprint s) (sf_EntryPath s)
    (sf_EntrySHA256 s) (sf_AssetSessionNonce s) (sf_RouteRole s) (sf_RuntimeGenerationID s)
    (sf_OwnerSessionHash s) (sf_OwnerUserHash s) (sf_OwnerEnvHash s) (sf_SessionChannelIDHash s)
    (sf_BridgeNonce s) (sf_PolicyRevision s) (sf_ManagementRevision s) (sf_RevokeEpoch s)
    (sf_CreatedAt s) expiresAt.

(** The state with the new asset session and gateway token. *)
Definition bindGateway (expiresAt : time) (assetSessionID bridgeChannelID gatewayID : string)
    (state : surfaceState) : surfaceState :=
  mkSurfaceState (set_ExpiresAt expiresAt (st_session state)) true assetSessionID
    (st_surfacePrepared state) bridgeChannelID gatewayID.

Definition MintGatewayToken (wall : time) (assetEnv gatewayEnv : MintEnv) (req : MintGatewayTokenRequest) :
    Prog (Result SurfErr GatewayTokenResult) :=
  try validated := validateBridgeHandshake wall req in
  let '(state, now) := validated in
  options ← options;
  let leaseTTL := if (so_GatewayTokenTTL options <? so_AssetSessionTTL options)%Z
                  then so_GatewayTokenTTL options else so_AssetSessionTTL options in
  let expiresAt := (now + leaseTTL)%Z in
  try assetSession := tokens_Mint assetEnv
    (mkMintRequest TokenKindAssetSession "" (audience (st_session state) "")
       (revision (st_session state)) expiresAt now noLimits) in
  minted ← tokens_Mint gatewayEnv
    (mkMintRequest TokenKindPluginGatewayToken "" (audience (st_session state) (mg_BridgeChannelID req))
       (revision (st_session state)) expiresAt now noLimits);
  match minted with
  | Err e =>
     _ ← tokens_RevokeTokenID wall TokenKindAssetSession (mt_TokenID assetSession) now;
     mret (Err e)
  | Ok minted =>
     stored ← locked (storeIfCurrent (hs_SurfaceInstanceID (mg_Handshake req)) state
       (bindGateway expiresAt (mt_TokenID assetSession) (mg_BridgeChannelID req) (mt_TokenID minted) state));
     if negb (stored : bool) then
       _ ← tokens_RevokeTokenID wall TokenKindAssetSession (mt_TokenID assetSession) now;
       _ ← tokens_RevokeTokenID wall TokenKindPluginGatewayToken (mt_TokenID minted) now;
       mret (Err (TokenError ErrTokenRevoked))
     else
       _ ← tokens_RevokeTokenID wall TokenKindAssetSession (st_assetSessionTokenID state) now;
       _ ← tokens_RevokeTokenID wall TokenKindPluginGatewayToken (st_liveGatewayTokenID state) now;
       mret (Ok (mkGatewayTokenResult (mt_Token minted) (mt_TokenID minted) (mt_Token assetSession)
         (mt_TokenID assetSession) (mt_IssuedAt minted) (mt_ExpiresAt minted)))
  end.

(** The clock [s.tokens.Validate] reads when [now] is zero is [wall]. *)
Definition ValidateGatewayToken (wall : time) (token : string) (aud : Audience) (rev : RevisionBinding)
    (now : time) : Prog (Result SurfErr TokenRecord) :=
  tokens_Validate wall (mkValidateRequest TokenKindPluginGatewayToken token aud rev now false
    (Some (mkChannelBinding (au_BridgeChannelID aud)))).

Record ValidateSurfaceGatewayTokenRequest := mkValidateSurfaceGateway {
  vg_GatewayToken : string;
  vg_PluginInstanceID : string;
  vg_SurfaceInstanceID : string;
  vg_OwnerSessionHash : string;
  vg_OwnerUserHash : string;
  vg_OwnerEnvHash : string;
  vg_SessionChannelIDHash : string;
  vg_BridgeChannelID : string;
  vg_Revision : RevisionBinding;
  vg_Now : time;
}.

(** The comparison of the token's audience with the request. *)
Definition gatewayAudienceMatches (req : ValidateSurfaceGatewayTokenRequest) (a : Audience) : bool :=
  bool_decide (au_PluginInstanceID a = vg_PluginInstanceID req) &&
  bool_decide (au_SurfaceInstanceID a = vg_SurfaceInstanceID req) &&
  bool_decide (au_OwnerSessionHash a = vg_OwnerSessionHash req) &&
  bool_decide (au_OwnerUserHash a = vg_OwnerUserHash req) &&
  bool_decide (au_OwnerEnvHash a = vg_OwnerEnvHash req) &&
  bool_decide (au_SessionChannelIDHash a = vg_SessionChannelIDHash req) &&
  bool_decide (au_BridgeChannelID a = vg_BridgeChannelID req).

(** The checks on the session of the surface. *)
Definition gatewayStateCheck (req : ValidateSurfaceGatewayTokenRequest) (tokenID : string)
    (state : surfaceState) : Result SurfErr unit :=
  if negb (bool_decide (revision (st_session state) = vg_Revision req))
  then Err (TokenError ErrTokenRevoked)
  else if negb (bool_decide (st_liveBridgeChannelID state = vg_BridgeChannelID req)) ||
          negb (bool_decide (st_liveGatewayTokenID state = tokenID))
  then Err (TokenError ErrTokenRevoked)
  else if negb (bool_decide (sf_PluginInstanceID (st_session state) = vg_PluginInstanceID req)) ||
          negb (matchesScope (st_session state) (vg_OwnerSessionHash req) (vg_OwnerUserHash req)
                  (vg_OwnerEnvHash req) (vg_SessionChannelIDHash req))
  then Err (TokenError ErrTokenAudience)
  else Ok tt.

Definition ValidateSurfaceGatewayToken (wall : time) (req : ValidateSurfaceGatewayTokenRequest) :
    Prog (Result SurfErr TokenRecord) :=
  if anyBlank [vg_GatewayToken req; vg_PluginInstanceID req; vg_SurfaceInstanceID req; vg_BridgeChannelID req]
  then mret (Err (TokenError ErrMissingTokenAudience))
  else
  let now := or_wall wall (vg_Now req) in
  try record := tokens_Inspect wall (mkInspectRequest TokenKindPluginGatewayToken (vg_GatewayToken req) now) in
  if negb (bool_decide (tr_Revision record = vg_Revision req))
  then mret (Err (TokenError ErrTokenRevoked))
  else if negb (gatewayAudienceMatches req (tr_Audience record))
  then mret (Err (TokenError ErrTokenAudience))
  else
  found ← getState wall (vg_SurfaceInstanceID req) now;
  match found with
  | Err ErrSurfaceSessionNotFound | Err ErrSurfaceSessionExpired => mret (Err (TokenError ErrTokenRevoked))
  | Err e => mret (Err e)
  | Ok state =>
     match gatewayStateCheck req (tr_TokenID record) state with
     | Err e => mret (Err e)
     | Ok _ => ValidateGatewayToken wall (vg_GatewayToken req)
                 (audience (st_session state) (vg_BridgeChannelID req)) (vg_Revision req) now
     end
  end.

Record InspectBoundSurfaceRequest := mkInspectBound {
  ib_SurfaceInstanceID : string;
  ib_BridgeChannelID : string;
  ib_OwnerSessionHash : string;
  ib_OwnerUserHash : string;
  ib_OwnerEnvHash : string;
  ib_SessionChannelIDHash : string;
  ib_Now : time;
}.

Record BoundSurfaceSession := mkBoundSurfaceSession {
  bd_Audience : Audience;
  bd_Revision : RevisionBinding;
  bd_PluginInstanceID : string;
  bd_PluginVersion : string;
  bd_ActiveFingerprint : string;
}.

Definition InspectBoundSurface (wall : time) (req : InspectBoundSurfaceRequest) :
    Prog (Result SurfErr BoundSurfaceSession) :=
  if anyBlank [ib_SurfaceInstanceID req; ib_BridgeChannelID req; ib_OwnerSessionHash req;
       ib_OwnerUserHash req; ib_OwnerEnvHash req; ib_SessionChannelIDHash req]
  then mret (Err (TokenError ErrMissingTokenAudience))
  else
  let now := or_wall wall (ib_Now req) in
  try state := getState wall (ib_SurfaceInstanceID req) now in
  mret (
    if negb (matchesScope (st_session state) (ib_OwnerSessionHash req) (ib_OwnerUserHash req)
               (ib_OwnerEnvHash req) (ib_SessionChannelIDHash req)) ||
       negb (st_surfacePrepared state) ||
       negb (bool_decide (st_liveBridgeChannelID state = ib_BridgeChannelID req)) ||
       bool_decide (st_liveGatewayTokenID state = "")
    then Err (TokenError ErrTokenAudience)
    else Ok (mkBoundSurfaceSession (audience (st_session state) (ib_BridgeChannelID req))
      (revision (st_session state)) (sf_PluginInstanceID (st_session state))
      (sf_PluginVersion (st_session state)) (sf_ActiveFingerprint (st_session state)))).

(** ** Confirmation tokens and handle grants *)

(** [if expiresAt.IsZero() { ... }; if expiresAt.After(now.Add(max)) { ... }]. *)
Definition boundedExpiry (expiresAt now : time) (ttl max : Z) : time :=
  let expiresAt := if IsZero expiresAt then (now + ttl)%Z else expiresAt in
  if After expiresAt (now + max)%Z then (now + max)%Z else expiresAt.

(** [^sha256:[0-9a-f]{64}$]. *)
Definition requestHashPattern (s : string) : bool :=
  let l := String.list_ascii_of_string s in
  bool_decide (take 7 l = String.list_ascii_of_string "sha256:") &&
  bool_decide (length (drop 7 l) = 64) &&
  forallb (λ c, byte_in 48 57 c || byte_in 97 102 c) (drop 7 l).

Record MintConfirmationTokenRequest := mkMintConfirmation {
  mc_PluginID : string;
  mc_PluginInstanceID : string;
  mc_PluginVersion : string;
  mc_ActiveFingerprint : string;
  mc_SurfaceID : string;
  mc_SurfaceInstanceID : string;
  mc_EntryPath : string;
  mc_EntrySHA256 : string;
  mc_AssetSessionNonce : string;
  mc_RouteRole : string;
  mc_ConfirmationID : string;
  mc_OwnerSessionHash : string;
  mc_OwnerUserHash : string;
  mc_OwnerEnvHash : string;
  mc_SessionChannelIDHash : string;
  mc_BridgeChannelID : string;
  mc_RuntimeGenerationID : string;
  mc_Method : string;
  mc_RequestHash : string;
  mc_PlanHash : string;
  mc_TargetDescriptorSHA256 : string;
  mc_Revision : RevisionBinding;
  mc_Now : time;
  mc_ExpiresAt : time;
}.

Definition confirmationAudience (req : MintConfirmationTokenRequest) : Audience :=
  mkAudience (mc_PluginID req) (mc_PluginInstanceID req) (mc_PluginVersion req)
    (mc_ActiveFingerprint req) (mc_SurfaceID req) (mc_SurfaceInstanceID req) (mc_EntryPath req)
    (mc_EntrySHA256 req) (mc_AssetSessionNonce req) (mc_RouteRole req) (mc_OwnerSessionHash req)
    (mc_OwnerUserHash req) (mc_OwnerEnvHash req) (mc_SessionChannelIDHash req)
    (mc_BridgeChannelID req) "" (mc_RuntimeGenerationID req) "" "" "" "" "" (mc_ConfirmationID req)
    (mc_Method req) (mc_RequestHash req) (mc_PlanHash req) (mc_TargetDescriptorSHA256 req)
    zeroResourceScope.

Record ConfirmationTokenResult := mkConfirmationTokenResult {
  ct_ConfirmationToken : string;
  ct_ConfirmationTokenID : string;
  ct_RequestHash : string;
  ct_PlanHash : string;
  ct_IssuedAt : time;
  ct_ExpiresAt : time;
}.

Definition MintConfirmationToken (wall : time) (env : MintEnv) (req : MintConfirmationTokenRequest) :
    Prog (Result SurfErr ConfirmationTokenResult) :=
  if anyBlank [mc_SurfaceInstanceID req; mc_ConfirmationID req; mc_BridgeChannelID req; mc_Method req]
  then mret (Err (TokenError ErrMissingTokenAudience))
  else if negb (requestHashPattern (mc_RequestHash req)) || negb (requestHashPattern (mc_PlanHash req)) ||
          negb (requestHashPattern (mc_TargetDescriptorSHA256 req))
  then mret (Err (TokenError ErrTokenAudience))
  else
  let now := or_wall wall (mc_Now req) in
  let expiresAt := boundedExpiry (mc_ExpiresAt req) now DefaultConfirmationTTL MaxConfirmationTTL in
  try minted := tokens_Mint env
    (mkMintRequest TokenKindConfirmationToken "" (confirmationAudience req) (mc_Revision req)
       expiresAt now noLimits) in
  mret (Ok (mkConfirmationTokenResult (mt_Token minted) (mt_TokenID minted) (mc_RequestHash req)
    (mc_PlanHash req) (mt_IssuedAt minted) (mt_ExpiresAt minted))).

Record ValidateConfirmationTokenRequest := mkValidateConfirmation {
  vc_ConfirmationToken : string;
  vc_Audience : Audience;
  vc_Revision : RevisionBinding;
  vc_Now : time;
}.

Definition ValidateConfirmationToken (wall : time) (req : ValidateConfirmationTokenRequest) :
    Prog (Result SurfErr TokenRecord) :=
  tokens_Validate wall (mkValidateRequest TokenKindConfirmationToken (vc_ConfirmationToken req)
    (vc_Audience req) (vc_Revision req) (vc_Now req) true None).

Record ValidateConfirmationTokenIDRequest := mkValidateConfirmationID {
  vci_ConfirmationTokenID : string;
  vci_Audience : Audience;
  vci_Revision : RevisionBinding;
  vci_Now : time;
}.

Definition ValidateConfirmationTokenID (wall : time) (req : ValidateConfirmationTokenIDRequest) :
    Prog (Result SurfErr TokenRecord) :=
  tokens_ValidateID wall (mkValidateTokenIDRequest TokenKindConfirmationToken
    (vci_ConfirmationTokenID req) (vci_Audience req) (vci_Revision req) (vci_Now req) true).

Record MintHandleGrantRequest := mkMintHandleGrant {
  hg_PluginInstanceID : string;
  hg_ActiveFingerprint : string;
  hg_RuntimeInstanceID : string;
  hg_RuntimeGenerationID : string;
  hg_RuntimeShardID : string;
  hg_OwnerSessionHash : string;
  hg_OwnerUserHash : string;
  hg_OwnerEnvHash : string;
  hg_SessionChannelIDHash : string;
  hg_HandleID : string;
  hg_Method : string;
  hg_ResourceScope : ResourceScope;
  hg_Revision : RevisionBinding;
  hg_Limits : Limits;
  hg_Now : time;
  hg_ExpiresAt : time;
}.

Definition handleAudience (req : MintHandleGrantRequest) : Audience :=
  mkAudience "" (hg_PluginInstanceID req) "" (hg_ActiveFingerprint req) "" "" "" "" "" ""
    (hg_OwnerSessionHash req) (hg_OwnerUserHash req) (hg_OwnerEnvHash req)
    (hg_SessionChannelIDHash req) "" (hg_RuntimeInstanceID req) (hg_RuntimeGenerationID req)
    (hg_RuntimeShardID req) "" "" "" (hg_HandleID req) "" (hg_Method req) "" "" ""
    (hg_ResourceScope req).

Record HandleGrantResult := mkHandleGrantResult {
  hr_HandleGrantToken : string;
  hr_HandleGrantID : string;
  hr_RuntimeGenerationID : string;
  hr_HandleID : string;
  hr_ResourceScope : ResourceScope;
  hr_Limits : Limits;
  hr_IssuedAt : time;
  hr_ExpiresAt : time;
}.

Definition MintHandleGrant (wall : time) (env : MintEnv) (req : MintHandleGrantRequest) :
    Prog (Result SurfErr HandleGrantResult) :=
  if anyBlank [hg_PluginInstanceID req; hg_ActiveFingerprint req; hg_RuntimeGenerationID req;
       hg_OwnerSessionHash req; hg_OwnerUserHash req; hg_OwnerEnvHash req;
       hg_SessionChannelIDHash req; hg_HandleID req; hg_Method req] ||
     negb (is_ok (ResourceScope_Validate (hg_ResourceScope req)))
  then mret (Err (TokenError ErrMissingTokenAudience))
  else
  match validateRevisionBinding (hg_Revision req) with
  | Err e => mret (Err (TokenError e))
  | Ok _ =>
  let now := or_wall wall (hg_Now req) in
  let expiresAt := boundedExpiry (hg_ExpiresAt req) now DefaultHandleGrantTTL MaxHandleGrantTTL in
  try minted := tokens_Mint env
    (mkMintRequest TokenKindHandleGrant "" (handleAudience req) (hg_Revision req) expiresAt now
       (hg_Limits req)) in
  mret (Ok (mkHandleGrantResult (mt_Token minted) (mt_TokenID minted) (hg_RuntimeGenerationID req)
    (hg_HandleID req) (hg_ResourceScope req) (mt_Limits minted) (mt_IssuedAt minted)
    (mt_ExpiresAt minted)))
  end.

Record ValidateHandleGrantRequest := mkValidateHandleGrant {
  vh_HandleGrantToken : string;
  vh_Audience : Audience;
  vh_Revision : RevisionBinding;
  vh_Now : time;
}.

Definition ValidateHandleGrant (wall : time) (req : ValidateHandleGrantRequest) :
    Prog (Result SurfErr TokenRecord) :=
  let a := vh_Audience req in
  if anyBlank [au_PluginInstanceID a; au_ActiveFingerprint a; au_RuntimeGenerationID a;
       au_OwnerSessionHash a; au_OwnerUserHash a; au_OwnerEnvHash a; au_SessionChannelIDHash a;
       au_HandleID a; au_Method a] ||
     negb (is_ok (ResourceScope_Validate (au_ResourceScope a)))
  then mret (Err (TokenError ErrMissingTokenAudience))
  else tokens_Validate wall (mkValidateRequest TokenKindHandleGrant (vh_HandleGrantToken req) a
         (vh_Revision req) (vh_Now req) false None).

(** ** Runtime execution leases, which do not touch the state *)

Record RuntimeExecutionLeaseLimits := mkRuntimeLeaseLimits {
  rl_TimeoutMillis : Z;
  rl_MemoryBytes : Z;
  rl_MaxPayloadBytes : Z;
  rl_MaxStreamBytesPerSecond : Z;
}.

Record MintRuntimeExecutionLeaseRequest := mkMintLease {
  ml_PluginInstanceID : string;
  ml_PluginID : string;
  ml_PluginVersion : string;
  ml_ActiveFingerprint : string;
  ml_SurfaceInstanceID : string;
  ml_OwnerSessionHash : string;
  ml_OwnerUserHash : string;
  ml_OwnerEnvHash : string;
  ml_SessionChannelIDHash : string;
  ml_BridgeChannelID : string;
  ml_RuntimeInstanceID : string;
  ml_RuntimeGenerationID : string;
  ml_RuntimeShardID : string;
  ml_IPCChannelID : string;
  ml_ConnectionNonce : string;
  ml_Method : string;
  ml_Effect : string;
  ml_Execution : string;
  ml_ExecutionID : string;
  ml_AuditCorrelationID : string;
  ml_TargetDescriptorHashes : list string;
  ml_Limits : RuntimeExecutionLeaseLimits;
  ml_Revision : RevisionBinding;
  ml_Now : time;
  ml_ExpiresAt : time;
}.

Record RuntimeExecutionLeaseResult := mkLeaseResult {
  lr_TokenID : string;
  lr_LeaseID : string;
  lr_LeaseNonce : string;
  lr_PluginInstanceID : string;
  lr_PluginID : string;
  lr_PluginVersion : string;
  lr_ActiveFingerprint : string;
  lr_SurfaceInstanceID : string;
  lr_OwnerSessionHash : string;
  lr_OwnerUserHash : string;
  lr_OwnerEnvHash : string;
  lr_SessionChannelIDHash : string;
  lr_BridgeChannelID : string;
  lr_RuntimeInstanceID : string;
  lr_RuntimeGenerationID : string;
  lr_RuntimeShardID : string;
  lr_IPCChannelID : string;
  lr_ConnectionNonce : string;
  lr_Method : string;
  lr_Effect : string;
  lr_Execution : string;
  lr_ExecutionID : string;
  lr_AuditCorrelationID : string;
  lr_TargetDescriptorHashes : list string;
  lr_Limits : RuntimeExecutionLeaseLimits;
  lr_PolicyRevision : Z;
  lr_ManagementRevision : Z;
  lr_RevokeEpoch : Z;
  lr_IssuedAt : time;
  lr_IssuedAtUnixMillis : Z;
  lr_ExpiresAt : time;
  lr_ExpiresAtUnixMillis : Z;
}.

Definition normalizeStringSlice (values : list string) : list string := distinct_trimmed values ∅.

(** The instant of the Unix epoch, and [int64] arithmetic. *)
Definition unixEpoch : time := (62135596800 * Second)%Z.
Definition i64 (x : Z) : Z := ((x + 2 ^ 63) mod 2 ^ 64 - 2 ^ 63)%Z.

Definition unixMillis (value : time) : Z :=
  if IsZero value then 0%Z
  else i64 (i64 ((value - unixEpoch) / Second) * 1000 + (value - unixEpoch) mod Second / 1000000)%Z.

Definition runtimeExecutionLeaseID (raw : option string) : Result TokErr string :=
  let? suffix := randomString raw in Ok ("lease_" +:+ suffix).

Definition runtimeExecutionTokenID (raw : option string) : Result TokErr string :=
  let? suffix := randomString raw in Ok ("rel_" +:+ suffix).

(** The switch on the execution mode. *)
Definition executionCheck (req : MintRuntimeExecutionLeaseRequest) : Result TokErr unit :=
  let execution := TrimSpace (ml_Execution req) in
  let executionID := TrimSpace (ml_ExecutionID req) in
  if bool_decide (execution = "sync") then
    if negb (bool_decide (executionID = "")) then Err ErrTokenAudience else Ok tt
  else if bool_decide (execution = "operation") || bool_decide (execution = "subscription") then
    if bool_decide (executionID = "") then Err ErrMissingTokenAudience else Ok tt
  else Err ErrTokenAudience.

Definition leaseLimitsCheck (limits : RuntimeExecutionLeaseLimits) : Result TokErr unit :=
  if negb (validNonnegativeSafeInt64 (rl_TimeoutMillis limits)) ||
     negb (validNonnegativeSafeInt64 (rl_MaxPayloadBytes limits)) ||
     negb (validNonnegativeSafeInt64 (rl_MaxStreamBytesPerSecond limits)) ||
     (MaxSafeInteger <? u64 (rl_MemoryBytes limits))%Z
  then Err ErrTokenLimits else Ok tt.

(** The three arguments are the reads of [crypto/rand] for the lease id, the
    token id and the nonce. *)
Definition MintRuntimeExecutionLease (wall : time) (randLease randToken randNonce : option string)
    (req : MintRuntimeExecutionLeaseRequest) : Result TokErr RuntimeExecutionLeaseResult :=
  if anyBlank [ml_PluginInstanceID req; ml_PluginID req; ml_PluginVersion req; ml_ActiveFingerprint req;
       ml_OwnerSessionHash req; ml_OwnerUserHash req; ml_OwnerEnvHash req; ml_SessionChannelIDHash req;
       ml_RuntimeInstanceID req; ml_RuntimeGenerationID req; ml_RuntimeShardID req; ml_IPCChannelID req;
       ml_ConnectionNonce req; ml_AuditCorrelationID req; ml_Method req; ml_Effect req] ||
     bool_decide (length (normalizeStringSlice (ml_TargetDescriptorHashes req)) = 0) ||
     (rl_MemoryBytes (ml_Limits req) <=? 0)%Z
  then Err ErrMissingTokenAudience
  else
  let? _revision := validateRevisionBinding (ml_Revision req) in
  let? _limits := leaseLimitsCheck (ml_Limits req) in
  let? _execution := executionCheck req in
  let now := or_wall wall (ml_Now req) in
  let expiresAt := boundedExpiry (ml_ExpiresAt req) now DefaultRuntimeLeaseTTL MaxRuntimeLeaseTTL in
  let? leaseID := runtimeExecutionLeaseID randLease in
  let? tokenID := runtimeExecutionTokenID randToken in
  let? leaseNonce := randomString randNonce in
  Ok (mkLeaseResult tokenID leaseID leaseNonce (TrimSpace (ml_PluginInstanceID req))
    (TrimSpace (ml_PluginID req)) (TrimSpace (ml_PluginVersion req))
    (TrimSpace (ml_ActiveFingerprint req)) (TrimSpace (ml_SurfaceInstanceID req))
    (TrimSpace (ml_OwnerSessionHash req)) (TrimSpace (ml_OwnerUserHash req))
    (TrimSpace (ml_OwnerEnvHash req)) (TrimSpace (ml_SessionChannelIDHash req))
    (TrimSpace (ml_BridgeChannelID req)) (TrimSpace (ml_RuntimeInstanceID req))
    (TrimSpace (ml_RuntimeGenerationID req)) (TrimSpace (ml_RuntimeShardID req))
    (TrimSpace (ml_IPCChannelID req)) (TrimSpace (ml_ConnectionNonce req)) (TrimSpace (ml_Method req))
    (TrimSpace (ml_Effect req)) (TrimSpace (ml_Execution req)) (TrimSpace (ml_ExecutionID req))
    (TrimSpace (ml_AuditCorrelationID req)) (normalizeStringSlice (ml_TargetDescriptorHashes req))
    (ml_Limits req) (rv_PolicyRevision (ml_Revision req)) (rv_ManagementRevision (ml_Revision req))
    (rv_RevokeEpoch (ml_Revision req)) now (unixMillis now) expiresAt (unixMillis expiresAt)).

(** ** Closing surfaces *)

Definition disposeLocked (surfaceInstanceID : string) (_ : Choice) (s : SurfaceTokenService) :
    SurfaceTokenService * option SurfaceSession :=
  let '(s, state) := deleteSurfaceStateLocked surfaceInstanceID s in (s, st_session <$> state).

Definition DisposeSurface (wall : time) (surfaceInstanceID : string) (now : time) : Prog bool :=
  let now := or_wall wall now in
  session ← locked (disposeLocked surfaceInstanceID);
  match session with
  | None => mret false
  | Some session => _ ← revokeSurfaceTokens wall session now; mret true
  end.

Record DisposeSurfaceRequest := mkDispose {
  ds_SurfaceInstanceID : string;
  ds_BridgeNonce : string;
  ds_OwnerSessionHash : string;
  ds_OwnerUserHash : string;
  ds_OwnerEnvHash : string;
  ds_SessionChannelIDHash : string;
  ds_Now : time;
}.

Definition disposeBlank (req : DisposeSurfaceRequest) : bool :=
  anyBlank [ds_SurfaceInstanceID req; ds_BridgeNonce req; ds_OwnerSessionHash req;
    ds_OwnerUserHash req; ds_OwnerEnvHash req; ds_SessionChannelIDHash req].

(** The request names the session by its bridge nonce and its owner. *)
Definition disposeMatches (req : DisposeSurfaceRequest) (state : surfaceState) : bool :=
  bool_decide (sf_BridgeNonce (st_session state) = ds_BridgeNonce req) &&
  matchesScope (st_session state) (ds_OwnerSessionHash req) (ds_OwnerUserHash req)
    (ds_OwnerEnvHash req) (ds_SessionChannelIDHash req).

Definition disposeBoundLocked (req : DisposeSurfaceRequest) (now : time) (_ : Choice)
    (s : SurfaceTokenService) : SurfaceTokenService * (list SurfaceSession * Result SurfErr unit) :=
  match sv_sessions s !! ds_SurfaceInstanceID req with
  | None => (s, ([], Err ErrSurfaceSessionNotFound))
  | Some state =>
     if expired now state
     then ((deleteSurfaceStateLocked (ds_SurfaceInstanceID req) s).1,
           ([st_session state], Err ErrSurfaceSessionExpired))
     else if negb (disposeMatches req state) then (s, ([], Err (TokenError ErrTokenAudience)))
     else ((deleteSurfaceStateLocked (ds_SurfaceInstanceID req) s).1, ([st_session state], Ok tt))
  end.

Definition DisposeBoundSurface (wall : time) (req : DisposeSurfaceRequest) : Prog (Result SurfErr unit) :=
  if disposeBlank req then mret (Err (TokenError ErrMissingTokenAudience))
  else
  let now := or_wall wall (ds_Now req) in
  '(revoked, result) ← locked (disposeBoundLocked req now);
  _ ← revokeSessions wall revoked now;
  mret result.

Inductive SurfaceRevocationState :=
| SurfaceRevocationStateActive | SurfaceRevocationStateClosed | SurfaceRevocationStateAbsent.

#[export] Instance SurfaceRevocationState_eq_dec : EqDecision SurfaceRevocationState.
Proof. solve_decision. Defined.

Record ReconcileSurfaceRevocationResult := mkReconcileResult {
  rc_State : SurfaceRevocationState;
  rc_PreviousState : SurfaceRevocationState;
  rc_Revoked : bool;
}.

#[export] Instance ReconcileSurfaceRevocationResult_eq_dec : EqDecision ReconcileSurfaceRevocationResult.
Proof. solve_decision. Defined.

(** A scan of the closures: how many are selected, and the one that expires
    first, with its expiry. *)
Definition oldestStep (select : surfaceClosure → bool) (acc : Z * string * time)
    (entry : string * surfaceClosure) : Z * string * time :=
  let '(n, oldest, expiry) := acc in
  let '(id, candidate) := entry in
  if negb (select candidate) then (n, oldest, expiry)
  else if bool_decide (oldest = "") || Before (cl_expiresAt candidate) expiry
  then ((n + 1)%Z, id, cl_expiresAt candidate)
  else ((n + 1)%Z, oldest, expiry).

Definition oldestClosure (select : surfaceClosure → bool) (order : list (string * surfaceClosure)) :
    Z * string * time :=
  foldl (oldestStep select) (0%Z, "", 0%Z) order.

(** The two loops of [retainSurfaceClosureLocked]: delete the oldest selected
    closure while there are [limit] of them or more. *)
Fixpoint evictClosures (fuel : nat) (select : surfaceClosure → bool) (limit : Z) (c : Choice) (i : nat)
    (closures : gmap string surfaceClosure) : gmap string surfaceClosure :=
  match fuel with
  | O => closures
  | S fuel =>
     let '(n, oldest, _) := oldestClosure select (iterate (c i) closures) in
     if (n <? limit)%Z || bool_decide (oldest = "") then closures
     else evictClosures fuel select limit c (S i) (delete oldest closures)
  end.

Definition closure_of (owner : string) (closure : surfaceClosure) : bool :=
  bool_decide (cl_ownerSessionHash closure = owner).

Definition retainSurfaceClosureLocked (surfaceInstanceID : string) (closure : surfaceClosure) (c : Choice)
    (s : SurfaceTokenService) : SurfaceTokenService :=
  let rounds := S (size (sv_closures s)) in
  let closures := evictClosures rounds
    (closure_of (cl_ownerSessionHash closure))
    (so_MaxActiveSessionsPerOwner (sv_options s)) c 0 (sv_closures s) in
  let closures := evictClosures rounds (λ _, true) (so_MaxActiveSessions (sv_options s)) c rounds closures in
  set_closures (<[surfaceInstanceID := closure]> closures) s.

Definition pruneClosures (now : time) (s : SurfaceTokenService) : SurfaceTokenService :=
  set_closures (filter (λ '(_, closure), Before now (cl_expiresAt closure) = true) (sv_closures s)) s.

Definition closureMatches (req : DisposeSurfaceRequest) (closure : surfaceClosure) : bool :=
  bool_decide (cl_bridgeNonce closure = ds_BridgeNonce req) &&
  bool_decide (cl_ownerSessionHash closure = ds_OwnerSessionHash req) &&
  bool_decide (cl_ownerUserHash closure = ds_OwnerUserHash req) &&
  bool_decide (cl_ownerEnvHash closure = ds_OwnerEnvHash req) &&
  bool_decide (cl_sessionChannelIDHash closure = ds_SessionChannelIDHash req).

(** The section of [ReconcileSurfaceRevocation]; the tokens of the session it
    closes are revoked before the unlock, those of an expired one after it. *)
Definition reconcileLocked (wall : time) (req : DisposeSurfaceRequest) (now : time) (c : Choice)
    (s : SurfaceTokenService) :
    SurfaceTokenService * (list SurfaceSession * Result SurfErr ReconcileSurfaceRevocationResult) :=
  let id := ds_SurfaceInstanceID req in
  let absent := mkReconcileResult SurfaceRevocationStateAbsent SurfaceRevocationStateAbsent false in
  let s := pruneClosures now s in
  match sv_sessions s !! id with
  | Some state =>
     if expired now state
     then ((deleteSurfaceStateLocked id s).1, ([st_session state], Ok absent))
     else if negb (disposeMatches req state) then (s, ([], Err (TokenError ErrTokenAudience)))
     else
     let s := (deleteSurfaceStateLocked id s).1 in
     let s := set_tokens (RevokeSurfaceGeneration wall (sv_tokens s) (st_session state) now).1 s in
     let s := retainSurfaceClosureLocked id
       (mkSurfaceClosure (ds_BridgeNonce req) (ds_OwnerSessionHash req) (ds_OwnerUserHash req)
          (ds_OwnerEnvHash req) (ds_SessionChannelIDHash req) (now + DefaultSurfaceClosureTTL)%Z) c s in
     (s, ([], Ok (mkReconcileResult SurfaceRevocationStateClosed SurfaceRevocationStateActive true)))
  | None =>
     match sv_closures s !! id with
     | Some closure =>
        if negb (closureMatches req closure) then (s, ([], Err (TokenError ErrTokenAudience)))
        else (s, ([], Ok (mkReconcileResult SurfaceRevocationStateClosed SurfaceRevocationStateClosed false)))
     | None => (s, ([], Ok absent))
     end
  end.

Definition ReconcileSurfaceRevocation (wall : time) (req : DisposeSurfaceRequest) :
    Prog (Result SurfErr ReconcileSurfaceRevocationResult) :=
  if disposeBlank req then mret (Err (TokenError ErrMissingTokenAudience))
  else
  let now := or_wall wall (ds_Now req) in
  '(revoked, result) ← locked (reconcileLocked wall req now);
  _ ← revokeSessions wall revoked now;
  mret result.

Definition disposeAssetLocked (validation : AssetSessionValidation) (_ : Choice) (s : SurfaceTokenService) :
    SurfaceTokenService * bool :=
  let id := sf_SurfaceInstanceID (av_Session validation) in
  match sv_sessions s !! id with
  | None => (s, false)
  | Some state =>
     if negb (bool_decide (st_session state = av_Session validation)) ||
        negb (bool_decide (st_assetSessionTokenID state = av_TokenID validation))
     then (s, false)
     else ((deleteSurfaceStateLocked id s).1, true)
  end.

(** [wall] is read by the validation, [wall'] after it. *)
Definition DisposeAssetSession (wall wall' : time) (req : ValidateAssetSessionRequest) :
    Prog (Result SurfErr unit) :=
  try validation := ValidateAssetSession wall req in
  let now := or_wall wall' (va_Now req) in
  disposed ← locked (disposeAssetLocked validation);
  if negb (disposed : bool) then mret (Err (TokenError ErrTokenRevoked))
  else
  _ ← revokeSurfaceTokens wall' (av_Session validation) now;
  mret (Ok tt).

(** ** Revocation by scope *)

Record SessionScopeRevocation := mkSessionScopeRevocation {
  sr_Surfaces : Z;
  sr_Tokens : SessionTokenRevocationCounts;
}.

(** The loop over the index entries of the session. *)
Definition revokeScopeStep (acc : SurfaceTokenService * Z) (surfaceInstanceID : string) :
    SurfaceTokenService * Z :=
  let '(s, surfaces) := acc in
  let s := mkService (sv_tokens s) (sv_options s) (sv_sessions s) (sv_closures s) (sv_sessionIndex s)
             (incr64 (sv_sessionRevokeScanned s)) in
  match deleteSurfaceStateLocked surfaceInstanceID s with
  | (s, Some _) => (s, incr64 surfaces)
  | (s, None) => (s, surfaces)
  end.

Definition revokeScopeLocked (wall : time) (scope : SessionScope) (now : time) (_ : Choice)
    (s : SurfaceTokenService) : SurfaceTokenService * Result SurfErr SessionScopeRevocation :=
  let s := mkService (sv_tokens s) (sv_options s) (sv_sessions s) (sv_closures s) (sv_sessionIndex s) 0 in
  let '(s, surfaces) := foldl revokeScopeStep (s, 0%Z) (elements (index_get (sv_sessionIndex s) scope)) in
  match RevokeSessionScope wall (sv_tokens s) scope now with
  | (m, Err e) => (set_tokens m s, Err (TokenError e))
  | (m, Ok counts) => (set_tokens m s, Ok (mkSessionScopeRevocation surfaces counts))
  end.

Definition Service_RevokeSessionScope (wall : time) (scope : SessionScope) (now : time) :
    Prog (Result SurfErr SessionScopeRevocation) :=
  match SessionScope_Validate scope with
  | Err _ => mret (Err (TokenError ErrMissingTokenAudience))
  | Ok _ => locked (revokeScopeLocked wall scope (or_wall wall now))
  end.

Definition previewScopeLocked (scope : SessionScope) (_ : Choice) (s : SurfaceTokenService) :
    SurfaceTokenService * Result SurfErr SessionScopeRevocation :=
  let surfaces :=
    foldl (λ surfaces id, if bool_decide (sv_sessions s !! id = None) then surfaces else incr64 surfaces)
      0%Z (elements (index_get (sv_sessionIndex s) scope)) in
  (s, match PreviewSessionScopeRevocation (sv_tokens s) scope with
      | Err e => Err (TokenError e)
      | Ok counts => Ok (mkSessionScopeRevocation surfaces counts)
      end).

Definition Service_PreviewSessionScopeRevocation (scope : SessionScope) :
    Prog (Result SurfErr SessionScopeRevocation) :=
  match SessionScope_Validate scope with
  | Err _ => mret (Err (TokenError ErrMissingTokenAudience))
  | Ok _ => locked (previewScopeLocked scope)
  end.

Definition RevokeAllSurfaces (wall now : time) : Prog Z :=
  let now := or_wall wall now in
  revoked ← locked (λ c s, deleteSelected (λ _, true) (iterate (c 0) (sv_sessions s)) s);
  _ ← revokeSessions wall revoked now;
  mret (Z.of_nat (length revoked)).

Definition RevokeSurfacesExceptGeneration (wall : time) (preservedGenerationID : string) (now : time) : Prog Z :=
  if bool_decide (TrimSpace preservedGenerationID = "") then mret 0%Z
  else
  let now := or_wall wall now in
  revoked ← locked (λ c s,
    deleteSelected (λ state, negb (bool_decide (sf_RuntimeGenerationID (st_session state) =
      preservedGenerationID))) (iterate (c 0) (sv_sessions s)) s);
  _ ← revokeSessions wall revoked now;
  mret (Z.of_nat (length revoked)).

(** The sessions go first; the manager revokes the tokens below the epoch. *)
Definition Service_RevokePlugin (wall : time) (ownerEnvHash pluginInstanceID : string)
    (minimumRevokeEpoch : Z) (now : time) : Prog (Z * option TokErr) :=
  let now := or_wall wall now in
  _ ← locked (λ c s,
    deleteSelected (λ state, bool_decide (sf_OwnerEnvHash (st_session state) = ownerEnvHash) &&
      bool_decide (sf_PluginInstanceID (st_session state) = pluginInstanceID))
      (iterate (c 0) (sv_sessions s)) s);
  tokens (λ m, RevokePlugin wall m ownerEnvHash pluginInstanceID minimumRevokeEpoch now).

(** ** Calls and goroutines *)

(** A call of the service with what it takes from its environment. *)
Inductive Request :=
| ReqOpenSurface (env : OpenEnv) (req : OpenSurfaceRequest)
| ReqExchangeAssetTicket (wall : time) (env : MintEnv) (req : ExchangeAssetTicketRequest)
| ReqValidateAssetSession (wall : time) (req : ValidateAssetSessionRequest)
| ReqMarkSurfacePrepared (wall : time) (req : MarkSurfacePreparedRequest)
| ReqMintGatewayToken (wall : time) (assetEnv gatewayEnv : MintEnv) (req : MintGatewayTokenRequest)
| ReqValidateBridgeHandshake (wall : time) (req : MintGatewayTokenRequest)
| ReqValidateGatewayToken (wall : time) (token : string) (aud : Audience) (rev : RevisionBinding) (now : time)
| ReqValidateSurfaceGatewayToken (wall : time) (req : ValidateSurfaceGatewayTokenRequest)
| ReqInspectBoundSurface (wall : time) (req : InspectBoundSurfaceRequest)
| ReqMintConfirmationToken (wall : time) (env : MintEnv) (req : MintConfirmationTokenRequest)
| ReqValidateConfirmationToken (wall : time) (req : ValidateConfirmationTokenRequest)
| ReqValidateConfirmationTokenID (wall : time) (req : ValidateConfirmationTokenIDRequest)
| ReqMintHandleGrant (wall : time) (env : MintEnv) (req : MintHandleGrantRequest)
| ReqValidateHandleGrant (wall : time) (req : ValidateHandleGrantRequest)
| ReqDisposeSurface (wall : time) (surfaceInstanceID : string) (now : time)
| ReqDisposeBoundSurface (wall : time) (req : DisposeSurfaceRequest)
| ReqReconcileSurfaceRevocation (wall : time) (req : DisposeSurfaceRequest)
| ReqDisposeAssetSession (wall wall' : time) (req : ValidateAssetSessionRequest)
| ReqRevokeSessionScope (wall : time) (scope : SessionScope) (now : time)
| ReqPreviewSessionScopeRevocation (scope : SessionScope)
| ReqRevokeAllSurfaces (wall now : time)
| ReqRevokeSurfacesExceptGeneration (wall : time) (preservedGenerationID : string) (now : time)
| ReqRevokePlugin (wall : time) (ownerEnvHash pluginInstanceID : string) (minimumRevokeEpoch : Z) (now : time).

(** What a call returns; the tokens and sessions a caller obtains. *)
Inductive Reply :=
| ReplyBootstrap (r : Result SurfErr SurfaceBootstrap)
| ReplyAssetSession (r : Result SurfErr AssetSessionResult)
| ReplyValidation (r : Result SurfErr AssetSessionValidation)
| ReplyGateway (r : Result SurfErr GatewayTokenResult)
| ReplySession (r : Result SurfErr SurfaceSession)
| ReplyGatewayRecord (r : Result SurfErr TokenRecord)
| ReplyRecord (r : Result SurfErr TokenRecord)
| ReplyBound (r : Result SurfErr BoundSurfaceSession)
| ReplyConfirmation (r : Result SurfErr ConfirmationTokenResult)
| ReplyHandle (r : Result SurfErr HandleGrantResult)
| ReplyUnit (r : Result SurfErr unit)
| ReplyBool (b : bool)
| ReplyReconcile (r : Result SurfErr ReconcileSurfaceRevocationResult)
| ReplyScope (r : Result SurfErr SessionScopeRevocation)
| ReplyCount (n : Z) (err : option TokErr).

Definition program (q : Request) : Prog Reply :=
  match q with
  | ReqOpenSurface env req => r ← OpenSurface env req; mret (ReplyBootstrap r)
  | ReqExchangeAssetTicket wall env req => r ← ExchangeAssetTicket wall env req; mret (ReplyAssetSession r)
  | ReqValidateAssetSession wall req => r ← ValidateAssetSession wall req; mret (ReplyValidation r)
  | ReqMarkSurfacePrepared wall req => r ← MarkSurfacePrepared wall req; mret (ReplyUnit r)
  | ReqMintGatewayToken wall e1 e2 req => r ← MintGatewayToken wall e1 e2 req; mret (ReplyGateway r)
  | ReqValidateBridgeHandshake wall req => r ← ValidateBridgeHandshake wall req; mret (ReplySession r)
  | ReqValidateGatewayToken wall token aud rev now =>
     r ← ValidateGatewayToken wall token aud rev now; mret (ReplyRecord r)
  | ReqValidateSurfaceGatewayToken wall req =>
     r ← ValidateSurfaceGatewayToken wall req; mret (ReplyGatewayRecord r)
  | ReqInspectBoundSurface wall req => r ← InspectBoundSurface wall req; mret (ReplyBound r)
  | ReqMintConfirmationToken wall env req => r ← MintConfirmationToken wall env req; mret (ReplyConfirmation r)
  | ReqValidateConfirmationToken wall req => r ← ValidateConfirmationToken wall req; mret (ReplyRecord r)
  | ReqValidateConfirmationTokenID wall req => r ← ValidateConfirmationTokenID wall req; mret (ReplyRecord r)
  | ReqMintHandleGrant wall env req => r ← MintHandleGrant wall env req; mret (ReplyHandle r)
  | ReqValidateHandleGrant wall req => r ← ValidateHandleGrant wall req; mret (ReplyRecord r)
  | ReqDisposeSurface wall id now => r ← DisposeSurface wall id now; mret (ReplyBool r)
  | ReqDisposeBoundSurface wall req => r ← DisposeBoundSurface wall req; mret (ReplyUnit r)
  | ReqReconcileSurfaceRevocation wall req => r ← ReconcileSurfaceRevocation wall req; mret (ReplyReconcile r)
  | ReqDisposeAssetSession wall wall' req => r ← DisposeAssetSession wall wall' req; mret (ReplyUnit r)
  | ReqRevokeSessionScope wall scope now => r ← Service_RevokeSessionScope wall scope now; mret (ReplyScope r)
  | ReqPreviewSessionScopeRevocation scope =>
     r ← Service_PreviewSessionScopeRevocation scope; mret (ReplyScope r)
  | ReqRevokeAllSurfaces wall now => r ← RevokeAllSurfaces wall now; mret (ReplyCount r None)
  | ReqRevokeSurfacesExceptGeneration wall id now =>
     r ← RevokeSurfacesExceptGeneration wall id now; mret (ReplyCount r None)
  | ReqRevokePlugin wall e p n now =>
     r ← Service_RevokePlugin wall e p n now; mret (ReplyCount r.1 r.2)
  end.

(** A method that runs alone, with the same choices in all its actions. *)
Fixpoint run {A} (c : Choice) (p : Prog A) (s : SurfaceTokenService) : SurfaceTokenService * A :=
  match p with
  | Ret a => (s, a)
  | Atomic f => let '(s', p') := f c s in run c p' s'
  end.

(** The service with the goroutines that are inside a call. *)
Record System := mkSystem {
  sy_service : SurfaceTokenService;
  sy_threads : gmap nat (Prog Reply);
}.

Inductive Event :=
| EvCall (t : nat) (q : Request)
| EvAct (t : nat) (c : Choice)
| EvReturn (t : nat) (r : Reply).

Inductive SysStep : System → Event → System → Prop :=
| step_call s threads t q :
    threads !! t = None →
    SysStep (mkSystem s threads) (EvCall t q) (mkSystem s (<[t := program q]> threads))
| step_act s threads t c f s' p' :
    threads !! t = Some (Atomic f) → f c s = (s', p') →
    SysStep (mkSystem s threads) (EvAct t c) (mkSystem s' (<[t := p']> threads))
| step_return s threads t r :
    threads !! t = Some (Ret r) →
    SysStep (mkSystem s threads) (EvReturn t r) (mkSystem s (delete t threads)).

Inductive Run : System → list Event → System → Prop :=
| run_nil sys : Run sys [] sys
| run_cons sys e sys1 events sys2 :
    SysStep sys e sys1 → Run sys1 events sys2 → Run sys (e :: events) sys2.

End service.
