(* ===== verification/SurfaceProps.v ===== *)
(** * The surface token service: its invariant under interleaving

    A small program logic for the trees of [Surface]: [post I G Q p] says that
    every action of [p] keeps the invariant [I] of the service, whatever the
    other goroutines do between its actions as long as they keep [I] too, that
    its actions change the service as [G] allows, and that [p] returns a value
    in [Q]. The invariant is then shown for every
    method, and with it what a method can return. *)

From S2P Require Import Prelude GoLib Index SessionCtx Bridge BridgeProps BridgeTheorems Surface.

Open Scope go_scope.

(** ** The program logic *)

(** [G] is what the actions guarantee to the other goroutines. *)
Inductive post {A} (I : SurfaceTokenService → Prop) (G : SurfaceTokenService → SurfaceTokenService → Prop)
    (Q : A → Prop) : Prog A → Prop :=
| post_ret a : Q a → post I G Q (Ret a)
| post_atomic f :
    (∀ c s, I s → I (f c s).1) → (∀ c s, I s → G s (f c s).1) →
    (∀ c s, I s → post I G Q (f c s).2) → post I G Q (Atomic f).

Section logic.
Context (I : SurfaceTokenService → Prop) (G : SurfaceTokenService → SurfaceTokenService → Prop).

Lemma post_bind {A B} (P : A → Prop) (Q : B → Prop) (k : A → Prog B) p :
  post I G P p → (∀ a, P a → post I G Q (k a)) → post I G Q (pbind k p).
Proof.
  intros Hp Hk. induction Hp as [a Ha|f Hi Hg _ IH]; cbn; [by apply Hk|].
  constructor; intros c s Hs; specialize (Hi c s Hs); specialize (Hg c s Hs); specialize (IH c s Hs);
    by destruct (f c s).
Qed.

Lemma post_weaken {A} (P Q : A → Prop) p : post I G P p → (∀ a, P a → Q a) → post I G Q p.
Proof. intros Hp HPQ. induction Hp; constructor; auto. Qed.

Lemma post_locked {A} (P : A → Prop) f :
  (∀ c s, I s → I (f c s).1 ∧ G s (f c s).1 ∧ P (f c s).2) → post I G P (locked f).
Proof.
  intros Hf. constructor; intros c s Hs; destruct (Hf c s Hs) as (? & ? & ?); destruct (f c s); [done..|].
  by constructor.
Qed.

Lemma post_tokens {A} (P : A → Prop) (f : TokenManager → TokenManager * A) :
  (∀ m s, G s (set_tokens m s)) →
  (∀ s, I s → I (set_tokens (f (sv_tokens s)).1 s) ∧ P (f (sv_tokens s)).2) → post I G P (tokens f).
Proof.
  intros HG Hf. constructor; intros c s Hs; destruct (Hf s Hs); destruct (f (sv_tokens s)); [done|apply HG|].
  by constructor.
Qed.

(** A value in [P] when the call succeeds. *)
Definition ok_in {E A} (P : A → Prop) (r : Result E A) : Prop :=
  match r with Ok a => P a | Err _ => True end.

Lemma post_try {A B} (P : A → Prop) (Q : Result SurfErr B → Prop) (k : A → Prog (Result SurfErr B)) p :
  post I G (ok_in P) p → (∀ e, Q (Err e)) → (∀ a, P a → post I G Q (k a)) →
  post I G Q (try x := p in k x).
Proof.
  intros Hp He Hk. apply (post_bind (ok_in P)); [done|]. intros [a|e] Ha; [by apply Hk|].
  by constructor.
Qed.

End logic.

(** ** The invariant *)

(** What holds of a session under its key: its identifiers are not blank, and
    it goes through its stages in order: asset session, prepared, bound to a
    channel with a gateway token. *)
Record state_ok (id : string) (st : surfaceState) : Prop := {
  sok_key : sf_SurfaceInstanceID (st_session st) = id;
  sok_blank : anyBlank [sf_PluginInstanceID (st_session st); sf_SurfaceInstanceID (st_session st);
                sf_OwnerSessionHash (st_session st); sf_OwnerUserHash (st_session st);
                sf_OwnerEnvHash (st_session st); sf_SessionChannelIDHash (st_session st)] = false;
  sok_issued : st_assetSessionIssued st = true ↔ st_assetSessionTokenID st ≠ "";
  sok_prepared : st_surfacePrepared st = true → st_assetSessionIssued st = true;
  sok_bound : st_liveGatewayTokenID st ≠ "" ↔ st_liveBridgeChannelID st ≠ "";
  sok_live : st_liveGatewayTokenID st ≠ "" → st_surfacePrepared st = true;
}.

Record options_ok (o : SurfaceTokenOptions) : Prop := {
  oo_ticket : (0 < so_AssetTicketTTL o ≤ MaxAssetTicketTTL)%Z;
  oo_session : (0 < so_AssetSessionTTL o ≤ MaxAssetSessionTTL)%Z;
  oo_gateway : (0 < so_GatewayTokenTTL o ≤ MaxGatewayTokenTTL)%Z;
  oo_limits : (0 < so_MaxActiveSessionsPerOwner o ≤ so_MaxActiveSessions o)%Z;
}.

(** The invariant. [N] holds of the asset session nonces that no open session
    has. *)
Record svc_ok (N : string → Prop) (s : SurfaceTokenService) : Prop := {
  ok_tokens : tok_wf (sv_tokens s);
  ok_options : options_ok (sv_options s);
  ok_state : ∀ id st, sv_sessions s !! id = Some st →
    state_ok id st ∧ ¬ N (sf_AssetSessionNonce (st_session st));
  ok_index : indexes (λ st, sessionScope (st_session st)) (sv_sessionIndex s) (sv_sessions s);
  ok_total : (Z.of_nat (size (sv_sessions s)) ≤ so_MaxActiveSessions (sv_options s))%Z;
  ok_owner : ∀ owner, (Z.of_nat (count (owned owner) (sv_sessions s)) ≤
    so_MaxActiveSessionsPerOwner (sv_options s))%Z;
  ok_closures : (Z.of_nat (size (sv_closures s)) ≤ so_MaxActiveSessions (sv_options s))%Z;
  ok_closures_owner : ∀ owner, (Z.of_nat (count (closure_of owner) (sv_closures s)) ≤
    so_MaxActiveSessionsPerOwner (sv_options s))%Z;
  ok_closure_ids : sv_closures s !! "" = None;
}.

Lemma clampTTL_range ttl d max : (0 < d ≤ max)%Z → (0 < clampTTL ttl d max ≤ max)%Z.
Proof.
  intros Hd. unfold clampTTL. destruct (Z.leb_spec ttl 0); cbn.
  - destruct (Z.ltb_spec max d); lia.
  - destruct (Z.ltb_spec max ttl); lia.
Qed.

Lemma new_service_ok N tokens options :
  (∀ m, tokens = Some m → tok_wf m) → svc_ok N (NewSurfaceTokenService tokens options).
Proof.
  intros Ht. unfold NewSurfaceTokenService. constructor; cbn.
  - destruct tokens as [m|]; [by apply Ht|apply (new_wf id)].
  - constructor; cbn; [by apply clampTTL_range..|].
    unfold DefaultMaxActiveSurfaceSessions, DefaultMaxActiveSurfaceSessionsPerOwner.
    repeat match goal with |- context [(?a <=? ?b)%Z] => destruct (Z.leb_spec a b) end;
    (match goal with |- context [(?a <? ?b)%Z] => destruct (Z.ltb_spec a b) end; lia).
  - intros id st. by rewrite lookup_empty.
  - apply indexes_empty.
  - rewrite map_size_empty. unfold DefaultMaxActiveSurfaceSessions. case_match; go_bools; lia.
  - intros owner. rewrite (proj2 (count_zero _ _)); [|by intros i x; rewrite lookup_empty].
    unfold DefaultMaxActiveSurfaceSessions, DefaultMaxActiveSurfaceSessionsPerOwner.
    repeat case_match; go_bools; lia.
  - rewrite map_size_empty. unfold DefaultMaxActiveSurfaceSessions. case_match; go_bools; lia.
  - intros owner. rewrite (proj2 (count_zero _ _)); [|by intros i x; rewrite lookup_empty].
    unfold DefaultMaxActiveSurfaceSessions, DefaultMaxActiveSurfaceSessionsPerOwner.
    repeat case_match; go_bools; lia.
  - apply lookup_empty.
Qed.

(** ** The changes a section makes *)

Section changes.
Context (N : string → Prop).
Notation ok := (svc_ok N).

Lemma ok_set_tokens m s : tok_wf m → ok s → ok (set_tokens m s).
Proof. intros Hm []. by constructor. Qed.

Lemma ok_scanned n s :
  ok s → ok (mkService (sv_tokens s) (sv_options s) (sv_sessions s) (sv_closures s) (sv_sessionIndex s) n).
Proof. intros []. by constructor. Qed.

Lemma ok_delete_session id s : ok s → ok (deleteSurfaceStateLocked id s).1.
Proof.
  intros Hs. unfold deleteSurfaceStateLocked. destruct (sv_sessions s !! id) as [st|] eqn:Hid; [|done].
  destruct Hs. constructor; cbn; try done.
  - intros id' st' [_ ?]%lookup_delete_Some. auto.
  - by apply (indexes_remove (λ st, sessionScope (st_session st))).
  - pose proof (map_size_delete_le (sv_sessions s) id). lia.
  - intros owner. specialize (ok_owner0 owner).
    pose proof (count_delete (owned owner) _ _ _ Hid). lia.
Qed.

Lemma ok_add st s :
  ok s → sv_sessions s !! sf_SurfaceInstanceID (st_session st) = None →
  state_ok (sf_SurfaceInstanceID (st_session st)) st → ¬ N (sf_AssetSessionNonce (st_session st)) →
  (Z.of_nat (size (sv_sessions s)) < so_MaxActiveSessions (sv_options s))%Z →
  (Z.of_nat (count (owned (sf_OwnerSessionHash (st_session st))) (sv_sessions s)) <
     so_MaxActiveSessionsPerOwner (sv_options s))%Z →
  ok (addSurfaceStateLocked st s).
Proof.
  intros [] Hnew Hst HN Htotal Howner. constructor; cbn; try done.
  - intros id st' [[<- <-]|[_ ?]]%lookup_insert_Some; auto.
  - by apply (indexes_add (λ st, sessionScope (st_session st))).
  - rewrite map_size_insert_None by done. lia.
  - intros owner. rewrite count_insert_fresh by done. unfold owned at 2.
    case_bool_decide; cbn; [subst; lia|]. specialize (ok_owner0 owner). lia.
Qed.

(** A session is replaced by one with the same identity. *)
Definition same_identity (s1 s2 : SurfaceSession) : Prop :=
  sessionScope s2 = sessionScope s1 ∧ sf_AssetSessionNonce s2 = sf_AssetSessionNonce s1.

Lemma ok_update id st st' s :
  ok s → sv_sessions s !! id = Some st → state_ok id st' →
  same_identity (st_session st) (st_session st') →
  ok (set_sessions (<[id := st']> (sv_sessions s)) s).
Proof.
  intros [] Hid Hst [Hscope Hnonce]. constructor; cbn; try done.
  - intros id' st'' [[<- <-]|[_ ?]]%lookup_insert_Some; [|auto]. rewrite Hnonce.
    split; [done|]. by destruct (ok_state0 _ _ Hid).
  - destruct ok_index0 as [Hc Hi]. split; [done|]. intros k h. rewrite Hi.
    setoid_rewrite lookup_insert_Some. split.
    + intros (r & Hr & Hk). destruct (decide (id = h)) as [->|]; [|naive_solver].
      exists st'. split; [by left|]. rewrite Hscope. congruence.
    + intros (r & [[-> <-]|[? ?]] & Hk); [|naive_solver]. exists st. split; [done|]. congruence.
  - rewrite map_size_insert_Some by eauto. done.
  - intros owner. specialize (ok_owner0 owner).
    pose proof (count_insert (owned owner) _ id st' st Hid) as Hc.
    unfold owned in *. injection Hscope as Ho _ _ _. rewrite Ho in Hc. lia.
Qed.

Lemma ok_deleteSelected select order s : ok s → ok (deleteSelected select order s).1.
Proof.
  unfold deleteSelected. generalize (@nil SurfaceSession). revert s.
  induction order as [|[id st] order IH]; intros s deleted Hs; cbn [foldl]; [done|].
  cbn [deleteStep]. case_match; apply IH; [by apply ok_delete_session|done].
Qed.

(** A loop over closures that reaches its limit. *)
Lemma iterate_perm {A} n (m : gmap string A) : iterate n m ≡ₚ map_to_list m.
Proof.
  unfold iterate. destruct (permutations _ !! n) as [l|] eqn:Hl; cbn; [|done].
  symmetry. apply permutations_Permutation. by eapply list_elem_of_lookup_2.
Qed.

End changes.

(** ** Evicting closures *)

(** The scan counts the selected entries and names one of them. *)
Lemma oldestClosure_spec select l :
  (∀ id x, (id, x) ∈ l → id ≠ "") →
  let '(n, oldest, _) := oldestClosure select l in
  n = Z.of_nat (length (filter (λ kv : string * surfaceClosure, select kv.2 = true) l)) ∧
  (if decide (n = 0%Z) then oldest = "" else ∃ x, (oldest, x) ∈ l ∧ select x = true).
Proof.
  intros Hl. unfold oldestClosure.
  induction l as [|[id x] l IH] using rev_ind; [done|].
  rewrite foldl_app, filter_app, length_app. cbn [foldl].
  assert (∀ id x, (id, x) ∈ l → id ≠ "") as Hl' by (intros; eapply Hl, elem_of_app; eauto).
  specialize (IH Hl'). assert (id ≠ "") as Hid by (eapply Hl, elem_of_app; right; by left).
  destruct (foldl (oldestStep select) _ l) as [[n oldest] expiry]. destruct IH as [Hn Hold]. cbn [oldestStep].
  destruct (select x) eqn:Hs; cbn.
  - rewrite (decide_True (P := select x = true)) by done.
    destruct (bool_decide (oldest = "") || _) eqn:Hb; (split; [cbn; lia|]).
    + rewrite decide_False by lia. exists x. split; [apply elem_of_app; right; by left|done].
    + rewrite decide_False by lia. rewrite decide_False in Hold.
      * destruct Hold as (y & ? & ?). exists y. split; [apply elem_of_app; by left|done].
      * intros ->. cbn in Hold. subst. by rewrite bool_decide_eq_true_2 in Hb.
  - rewrite (decide_False (P := select x = true)) by congruence. cbn. split; [lia|].
    case_decide; [done|]. destruct Hold as (y & ? & ?). exists y. split; [apply elem_of_app; by left|done].
Qed.

Lemma count_filter_list {A} (p : A → bool) (m : gmap string A) l :
  l ≡ₚ map_to_list m → length (filter (λ kv : string * A, p kv.2 = true) l) = count p m.
Proof.
  intros ->. induction m as [|i x m Hi IH] using map_ind.
  { rewrite map_to_list_empty. done. }
  rewrite map_to_list_insert, count_insert_fresh, <- IH by done.
  destruct (p x) eqn:Hp; [rewrite filter_cons_True|rewrite filter_cons_False]; cbn; congruence || lia.
Qed.

(** The loop ends below the limit, and only removes entries. *)
Lemma evictClosures_spec fuel select limit c i m :
  (0 < limit)%Z → m !! "" = None → count select m < fuel →
  let m' := evictClosures fuel select limit c i m in
  m' ⊆ m ∧ (Z.of_nat (count select m') < limit)%Z.
Proof.
  intros Hlim. revert i m. induction fuel as [|fuel IH]; intros i m Hid Hfuel; [lia|]. cbn.
  pose proof (iterate_perm (c i) m) as Hperm.
  pose proof (oldestClosure_spec select (iterate (c i) m)) as Hold.
  destruct (oldestClosure select _) as [[n oldest] expiry].
  destruct Hold as [Hn Hold].
  { intros id x Hin Heq. subst id. rewrite Hperm in Hin. apply elem_of_map_to_list in Hin. congruence. }
  rewrite (count_filter_list _ _ _ Hperm) in Hn.
  destruct (Z.ltb_spec n limit); cbn; [split; [done|lia]|]. rewrite decide_False in Hold by lia.
  destruct Hold as (x & Hin & Hx). rewrite Hperm in Hin. apply elem_of_map_to_list in Hin.
  rewrite bool_decide_eq_false_2 by congruence.
  pose proof (count_delete select _ _ _ Hin) as Hc. rewrite Hx in Hc. cbn in Hc.
  destruct (IH (S i) (delete oldest m)) as [Hsub Hlt].
  - by rewrite lookup_delete_None; right.
  - lia.
  - split; [|done]. etrans; [done|apply delete_subseteq].
Qed.

Lemma count_insert_le {A} (p : A → bool) (m : gmap string A) i x :
  count p (<[i := x]> m) ≤ count p m + b2n (p x).
Proof.
  destruct (m !! i) as [y|] eqn:Hi.
  - pose proof (count_insert p _ _ x _ Hi). lia.
  - rewrite count_insert_fresh by done. lia.
Qed.

Lemma count_all {A} (m : gmap string A) : count (λ _, true) m = size m.
Proof.
  induction m as [|i x m Hi IH] using map_ind; [done|].
  rewrite count_insert_fresh, map_size_insert_None by done. cbn. lia.
Qed.

Lemma count_le_size {A} (p : A → bool) (m : gmap string A) : count p m ≤ size m.
Proof.
  induction m as [|i x m Hi IH] using map_ind; [done|].
  rewrite count_insert_fresh, map_size_insert_None by done. destruct (p x); cbn; lia.
Qed.

Section sections.
Context (N : string → Prop).
Notation ok := (svc_ok N).

Lemma ok_closures_subseteq m s : ok s → m ⊆ sv_closures s → ok (set_closures m s).
Proof.
  intros [] Hm. pose proof (map_subseteq_size _ _ Hm). constructor; cbn; try done.
  - lia.
  - intros owner. specialize (ok_closures_owner0 owner).
    pose proof (count_subseteq (closure_of owner) _ _ Hm). lia.
  - by eapply lookup_weaken_None.
Qed.

Lemma ok_retain id closure c s :
  ok s → id ≠ "" → ok (retainSurfaceClosureLocked id closure c s).
Proof.
  intros Hs Hid. unfold retainSurfaceClosureLocked. cbn zeta.
  pose proof (oo_limits _ (ok_options _ _ Hs)) as Hlim.
  destruct (evictClosures_spec (S (size (sv_closures s))) (closure_of (cl_ownerSessionHash closure))
    (so_MaxActiveSessionsPerOwner (sv_options s)) c 0 (sv_closures s)) as [Hsub1 Hlt1].
  { lia. } { apply Hs. } { pose proof (count_le_size (closure_of (cl_ownerSessionHash closure)) (sv_closures s)). lia. }
  set (m1 := evictClosures _ _ _ _ 0 _) in *.
  destruct (evictClosures_spec (S (size (sv_closures s))) (λ _, true)
    (so_MaxActiveSessions (sv_options s)) c (S (size (sv_closures s))) m1) as [Hsub2 Hlt2].
  { lia. } { by eapply lookup_weaken_None; [apply Hs|]. }
  { rewrite count_all. pose proof (map_subseteq_size _ _ Hsub1). lia. }
  set (m2 := evictClosures _ _ _ _ _ m1) in *. rewrite count_all in Hlt2.
  assert (m2 ⊆ sv_closures s) as Hsub by by etrans. clearbody m1 m2.
  destruct Hs. constructor; cbn; try done.
  - pose proof (count_insert_le (λ _, true) m2 id closure) as Hc. rewrite !count_all in Hc. cbn in Hc. lia.
  - intros owner. pose proof (count_insert_le (closure_of owner) m2 id closure) as Hc.
    unfold closure_of at 3 in Hc. case_bool_decide as Ho; cbn in Hc.
    + subst owner. pose proof (count_subseteq (closure_of (cl_ownerSessionHash closure)) _ _ Hsub2). lia.
    + pose proof (count_subseteq (closure_of owner) _ _ Hsub). specialize (ok_closures_owner0 owner). lia.
  - rewrite lookup_insert_ne by done. by eapply lookup_weaken_None.
Qed.

Lemma retain_fields id closure c s :
  let s' := retainSurfaceClosureLocked id closure c s in
  sv_tokens s' = sv_tokens s ∧ sv_options s' = sv_options s ∧ sv_sessions s' = sv_sessions s ∧
  sv_closures s' !! id = Some closure.
Proof. cbn. split_and!; try done. apply lookup_insert_eq. Qed.

(** What a lookup of an open session gives. *)
Definition good (id : string) (st : surfaceState) : Prop :=
  state_ok id st ∧ ¬ N (sf_AssetSessionNonce (st_session st)).

Lemma ok_revokeGeneration wall session now s :
  ok s → ok (set_tokens (RevokeSurfaceGeneration wall (sv_tokens s) session now).1 s).
Proof.
  intros Hs. apply ok_set_tokens; [|done].
  apply (step_spec id _ (OpRevokeSurfaceGeneration wall session now)), Hs.
Qed.

Lemma delete_tokens id s : sv_tokens (deleteSurfaceStateLocked id s).1 = sv_tokens s.
Proof. unfold deleteSurfaceStateLocked. by case_match. Qed.

Lemma delete_options id s : sv_options (deleteSurfaceStateLocked id s).1 = sv_options s.
Proof. unfold deleteSurfaceStateLocked. by case_match. Qed.

Lemma delete_closures id s : sv_closures (deleteSurfaceStateLocked id s).1 = sv_closures s.
Proof. unfold deleteSurfaceStateLocked. by case_match. Qed.

Lemma delete_sessions id s :
  sv_sessions (deleteSurfaceStateLocked id s).1 = delete id (sv_sessions s).
Proof.
  unfold deleteSurfaceStateLocked. case_match eqn:Hid; [done|]. cbn. by rewrite delete_id.
Qed.

Lemma getStateLocked_post wall id now c s :
  ok s → ok (getStateLocked wall id now c s).1 ∧ ok_in (good id) (getStateLocked wall id now c s).2.
Proof.
  intros Hs. unfold getStateLocked. destruct (sv_sessions s !! id) as [st|] eqn:Hid; [|done].
  case_match; [|split; [done|by apply Hs]]. split; [|done].
  apply ok_revokeGeneration. by apply ok_delete_session.
Qed.

(** A state that may be stored over [st]. *)
Definition successor (id : string) (st st' : surfaceState) : Prop :=
  state_ok id st' ∧ same_identity (st_session st) (st_session st').

Lemma storeIfCurrent_ok id st st' c s :
  ok s → (state_ok id st → successor id st st') → ok (storeIfCurrent id st st' c s).1.
Proof.
  intros Hs Hst. unfold storeIfCurrent. case_bool_decide as Hid; [|done].
  destruct Hst; [by apply Hs|]. by eapply ok_update.
Qed.

Lemma new_state_ok session :
  anyBlank [sf_PluginInstanceID session; sf_SurfaceInstanceID session; sf_OwnerSessionHash session;
    sf_OwnerUserHash session; sf_OwnerEnvHash session; sf_SessionChannelIDHash session] = false →
  state_ok (sf_SurfaceInstanceID session) (newState session).
Proof. intros Hb. by constructor. Qed.

Lemma reserveLocked_ok session now c s :
  ok s → state_ok (sf_SurfaceInstanceID session) (newState session) →
  ¬ N (sf_AssetSessionNonce session) → ok (reserveLocked session now c s).1.
Proof.
  intros Hs Hst HN. unfold reserveLocked.
  pose proof (ok_deleteSelected N (expired now) (iterate (c 0) (sv_sessions s)) s Hs) as Hs1.
  destruct (deleteSelected _ _ s) as [s1 revoked]. cbn in Hs1.
  assert (∀ s2 rev2, ok s2 → sv_sessions s2 !! sf_SurfaceInstanceID session = None →
    ok (if (so_MaxActiveSessions (sv_options s2) <=? Z.of_nat (size (sv_sessions s2)))%Z
        then (s2, (rev2, Some ErrSurfaceSessionLimitReached))
        else if (so_MaxActiveSessionsPerOwner (sv_options s2) <=?
                 Z.of_nat (count (owned (sf_OwnerSessionHash session)) (sv_sessions s2)))%Z
        then (s2, (rev2 : list SurfaceSession, Some ErrSurfaceSessionLimitReached))
        else (addSurfaceStateLocked (newState session) s2, (rev2, None))).1) as Hadd.
  { intros s2 rev2 Hs2 Hnew. repeat (case_match; [done|]). go_bools. by apply ok_add. }
  destruct (sv_sessions s1 !! _) as [existing|] eqn:Hex; [|by apply Hadd].
  destruct (surfaceSessionCanReplaceStaleBinding _ _); [|done].
  apply Hadd; [by apply ok_delete_session|]. rewrite delete_sessions. apply lookup_delete_eq.
Qed.

Lemma releaseLocked_ok session c s : ok s → ok (releaseLocked session c s).1.
Proof. intros Hs. unfold releaseLocked. repeat case_match; try done. by apply ok_delete_session. Qed.

Lemma markPreparedLocked_ok req now c s : ok s → ok (markPreparedLocked req now c s).1.
Proof.
  intros Hs. unfold markPreparedLocked. destruct (sv_sessions s !! _) as [st|] eqn:Hid; [|done].
  case_match; [by apply ok_delete_session|]. case_match eqn:Hi; [done|]. case_match; [done|]. go_bools.
  eapply ok_update; [done|done| |done]. destruct (ok_state _ _ Hs _ _ Hid) as [[] _]. by constructor.
Qed.

Lemma disposeBoundLocked_ok req now c s : ok s → ok (disposeBoundLocked req now c s).1.
Proof. intros Hs. unfold disposeBoundLocked. repeat case_match; try done; by apply ok_delete_session. Qed.

Lemma disposeLocked_ok id c s : ok s → ok (disposeLocked id c s).1.
Proof.
  intros Hs. unfold disposeLocked. pose proof (ok_delete_session N id s Hs).
  by destruct (deleteSurfaceStateLocked id s).
Qed.

Lemma disposeAssetLocked_ok v c s : ok s → ok (disposeAssetLocked v c s).1.
Proof. intros Hs. unfold disposeAssetLocked. repeat case_match; try done. by apply ok_delete_session. Qed.

Lemma pruneClosures_ok now s : ok s → ok (pruneClosures now s).
Proof. intros Hs. apply ok_closures_subseteq; [done|]. apply map_filter_subseteq. Qed.

Lemma anyBlank_false l x : anyBlank l = false → x ∈ l → TrimSpace x ≠ "".
Proof.
  unfold anyBlank. intros Hl Hx Ht. apply not_true_iff_false in Hl. apply Hl, existsb_exists.
  exists x. rewrite <- list_elem_of_In. split; [done|]. by apply bool_decide_eq_true.
Qed.

Lemma reconcileLocked_ok wall req now c s :
  ok s → disposeBlank req = false → ok (reconcileLocked wall req now c s).1.
Proof.
  intros Hs Hb. unfold reconcileLocked. pose proof (pruneClosures_ok now s Hs) as Hs1.
  set (s1 := pruneClosures now s) in *. clearbody s1.
  destruct (sv_sessions s1 !! _) as [st|] eqn:Hid; [|by repeat case_match].
  case_match; [by apply ok_delete_session|]. case_match; [done|].
  apply ok_retain; [by apply ok_revokeGeneration, ok_delete_session|].
  intros Heq. apply (anyBlank_false _ (ds_SurfaceInstanceID req)) in Hb; [|by left].
  by rewrite Heq in Hb.
Qed.

Lemma revokeScopeLocked_ok wall scope now c s :
  ok s → ok (revokeScopeLocked wall scope now c s).1.
Proof.
  intros Hs. unfold revokeScopeLocked. cbn zeta.
  apply (ok_scanned N 0) in Hs. set (s0 := mkService _ _ _ _ _ 0) in *. clearbody s0.
  set (l := elements _). clearbody l.
  assert (∀ l s n, ok s → ok (foldl revokeScopeStep (s, n) l).1) as Hloop.
  { clear. intros l. induction l as [|id l IH]; intros s n Hs; cbn [foldl]; [done|].
    unfold revokeScopeStep at 2. apply (ok_scanned N (incr64 (sv_sessionRevokeScanned s))) in Hs.
    pose proof (ok_delete_session N id _ Hs) as Hd.
    destruct (deleteSurfaceStateLocked id _) as [s' [st|]]; by apply IH. }
  specialize (Hloop l s0 0%Z Hs). destruct (foldl _ _ _) as [s1 n]. cbn in Hloop.
  pose proof (proj1 (step_spec id (sv_tokens s1) (OpRevokeSessionScope wall scope now) (ok_tokens _ _ Hloop))) as Hw.
  cbn [tok_step] in Hw. destruct (RevokeSessionScope wall (sv_tokens s1) scope now) as [m [counts|e]];
    by apply ok_set_tokens.
Qed.

End sections.

(** ** The sessions an action adds *)

Definition has_nonce (nonce : string) (s : SurfaceTokenService) : Prop :=
  ∃ id st, sv_sessions s !! id = Some st ∧ sf_AssetSessionNonce (st_session st) = nonce.

(** Every open session was open before, or has a nonce in [D]. *)
Definition adds (D : string → Prop) (s s' : SurfaceTokenService) : Prop :=
  ∀ nonce, has_nonce nonce s' → D nonce ∨ has_nonce nonce s.

Section adds.
Context (D : string → Prop).

Lemma adds_subseteq s s' : sv_sessions s' ⊆ sv_sessions s → adds D s s'.
Proof. intros Hs nonce (id & st & Hid & Hn). right. exists id, st. split; [by eapply lookup_weaken|done]. Qed.

Lemma adds_update id st st' s :
  sv_sessions s !! id = Some st → same_identity (st_session st) (st_session st') →
  adds D s (set_sessions (<[id := st']> (sv_sessions s)) s).
Proof.
  intros Hid [_ Hnonce] nonce (id' & st1 & Hl & Hn). cbn in Hl. right.
  apply lookup_insert_Some in Hl as [[<- <-]|[_ Hl]]; [exists id, st|exists id', st1]; by rewrite <- ?Hnonce.
Qed.

Lemma adds_add st s s1 :
  D (sf_AssetSessionNonce (st_session st)) → sv_sessions s1 ⊆ sv_sessions s →
  adds D s (addSurfaceStateLocked st s1).
Proof.
  intros HD Hs nonce (id' & st1 & Hl & Hn). cbn in Hl.
  apply lookup_insert_Some in Hl as [[<- <-]|[_ Hl]]; [left; by rewrite <- Hn|right].
  exists id', st1. split; [by eapply lookup_weaken|done].
Qed.

Lemma delete_sub id s : sv_sessions (deleteSurfaceStateLocked id s).1 ⊆ sv_sessions s.
Proof. rewrite delete_sessions. apply delete_subseteq. Qed.

Lemma deleteSelected_sub select order s :
  sv_sessions (deleteSelected select order s).1 ⊆ sv_sessions s.
Proof.
  unfold deleteSelected. generalize (@nil SurfaceSession). revert s.
  induction order as [|[id st] order IH]; intros s deleted; cbn [foldl]; [done|].
  cbn [deleteStep]. case_match; [|apply IH]. etrans; [apply IH|apply delete_sub].
Qed.

Lemma getStateLocked_sub wall id now c s :
  sv_sessions (getStateLocked wall id now c s).1 ⊆ sv_sessions s.
Proof. unfold getStateLocked. repeat case_match; try done. apply delete_sub. Qed.

Lemma storeIfCurrent_adds N id st st' c s :
  svc_ok N s → (state_ok id st → successor id st st') →
  adds D s (storeIfCurrent id st st' c s).1.
Proof.
  intros Hs Hst. unfold storeIfCurrent. case_bool_decide as Hid; [|by apply adds_subseteq].
  destruct Hst; [by apply (ok_state _ _ Hs)|]. by eapply adds_update.
Qed.

Lemma reserveLocked_adds session now c s :
  D (sf_AssetSessionNonce session) → adds D s (reserveLocked session now c s).1.
Proof.
  intros HD. unfold reserveLocked.
  pose proof (deleteSelected_sub (expired now) (iterate (c 0) (sv_sessions s)) s) as Hs1.
  destruct (deleteSelected _ _ s) as [s1 revoked]. cbn in Hs1.
  assert (∀ s2 rev2, sv_sessions s2 ⊆ sv_sessions s →
    adds D s (if (so_MaxActiveSessions (sv_options s2) <=? Z.of_nat (size (sv_sessions s2)))%Z
        then (s2, (rev2, Some ErrSurfaceSessionLimitReached))
        else if (so_MaxActiveSessionsPerOwner (sv_options s2) <=?
                 Z.of_nat (count (owned (sf_OwnerSessionHash session)) (sv_sessions s2)))%Z
        then (s2, (rev2 : list SurfaceSession, Some ErrSurfaceSessionLimitReached))
        else (addSurfaceStateLocked (newState session) s2, (rev2, None))).1) as Hadd.
  { intros s2 rev2 Hs2. repeat (case_match; [by apply adds_subseteq|]). by apply adds_add. }
  destruct (sv_sessions s1 !! _) as [existing|] eqn:Hex; [|by apply Hadd].
  destruct (surfaceSessionCanReplaceStaleBinding _ _); [|by apply adds_subseteq].
  apply Hadd. etrans; [apply delete_sub|done].
Qed.

Lemma markPreparedLocked_adds req now c s : adds D s (markPreparedLocked req now c s).1.
Proof.
  unfold markPreparedLocked. destruct (sv_sessions s !! _) as [st|] eqn:Hid; [|by apply adds_subseteq].
  case_match; [apply adds_subseteq, delete_sub|]. case_match; [by apply adds_subseteq|].
  case_match; [by apply adds_subseteq|]. by eapply adds_update.
Qed.

Lemma releaseLocked_sub session c s : sv_sessions (releaseLocked session c s).1 ⊆ sv_sessions s.
Proof. unfold releaseLocked. repeat case_match; try done. apply delete_sub. Qed.

Lemma disposeLocked_sub id c s : sv_sessions (disposeLocked id c s).1 ⊆ sv_sessions s.
Proof.
  unfold disposeLocked. pose proof (delete_sub id s). by destruct (deleteSurfaceStateLocked id s).
Qed.

Lemma disposeBoundLocked_sub req now c s : sv_sessions (disposeBoundLocked req now c s).1 ⊆ sv_sessions s.
Proof. unfold disposeBoundLocked. repeat case_match; try done; apply delete_sub. Qed.

Lemma disposeAssetLocked_sub v c s : sv_sessions (disposeAssetLocked v c s).1 ⊆ sv_sessions s.
Proof. unfold disposeAssetLocked. repeat case_match; try done. apply delete_sub. Qed.

Lemma reconcileLocked_sub wall req now c s :
  sv_sessions (reconcileLocked wall req now c s).1 ⊆ sv_sessions s.
Proof.
  unfold reconcileLocked. change (sv_sessions s) with (sv_sessions (pruneClosures now s)).
  generalize (pruneClosures now s). clear s. intros s.
  destruct (sv_sessions s !! _) as [st|]; [|by repeat case_match].
  case_match; [apply delete_sub|]. case_match; [done|]. apply delete_sub.
Qed.

Lemma revokeScopeLocked_sub wall scope now c s :
  sv_sessions (revokeScopeLocked wall scope now c s).1 ⊆ sv_sessions s.
Proof.
  unfold revokeScopeLocked. cbv zeta.
  assert (∀ l s n, sv_sessions (foldl revokeScopeStep (s, n) l).1 ⊆ sv_sessions s) as Hloop.
  { clear. intros l. induction l as [|id l IH]; intros s n; cbn [foldl]; [done|].
    unfold revokeScopeStep at 2. set (s0 := mkService _ _ _ _ _ _).
    pose proof (delete_sub id s0) as Hd.
    destruct (deleteSurfaceStateLocked id s0) as [s' [st|]]; (etrans; [apply IH|exact Hd]). }
  set (s0 := mkService _ _ _ _ _ 0). specialize (Hloop (elements (index_get (sv_sessionIndex s0) scope)) s0 0%Z).
  destruct (foldl _ _ _) as [s1 n]. destruct (RevokeSessionScope _ _ _ _) as [m [|]]; exact Hloop.
Qed.

End adds.

(** ** The methods *)

(** A reply that gives its caller access to the session with the nonce. *)
Definition grants (nonce : string) (q : Request) (r : Reply) : Prop :=
  match r with
  | ReplyAssetSession (Ok a) => ar_AssetSessionNonce a = nonce
  | ReplyValidation (Ok v) => sf_AssetSessionNonce (av_Session v) = nonce
  | ReplyGateway (Ok _) =>
     match q with
     | ReqMintGatewayToken _ _ _ req => hs_AssetSessionNonce (mg_Handshake req) = nonce
     | _ => False
     end
  | ReplySession (Ok s) => sf_AssetSessionNonce s = nonce
  | ReplyGatewayRecord (Ok record) => au_AssetSessionNonce (tr_Audience record) = nonce
  | ReplyBound (Ok b) => au_AssetSessionNonce (bd_Audience b) = nonce
  | _ => False
  end.

(** The nonce that a call draws for the session it opens. *)
Definition draws (q : Request) : option string :=
  match q with
  | ReqOpenSurface env _ =>
     match randomString (oe_assetSessionNonce env) with Ok nonce => Some nonce | Err _ => None end
  | _ => None
  end.

Section methods.
Context (sha256 : string → string) (N D : string → Prop).
Notation ok := (svc_ok N).
Notation post_ok := (post ok (adds D)).

Lemma adds_tokens m s : adds D s (set_tokens m s).
Proof. by apply adds_subseteq. Qed.

Lemma mint_token_id env m req t :
  tok_wf m → (Mint sha256 env m req).2 = Ok t → mt_TokenID t ≠ "".
Proof.
  intros Hm Hr. destruct (Mint sha256 env m req) as [m' res] eqn:Hmint. cbn in Hr. subst res.
  destruct (mint_cases _ _ _ _ _ _ Hm Hmint) as [(e & ? & _)|(r & c & Ht & Hp & _)]; [done|].
  injection Ht as ->. cbn. unfold prepareMint in Hp. apply rbind_ok in Hp as ([] & _ & Hp).
  case_match; [done|]. apply rbind_ok in Hp as (tid & Hid & Hp).
  apply rbind_ok in Hp as (nonce & _ & Hp). apply rbind_ok in Hp as (secret & _ & Hp).
  injection Hp as <- _. cbn. unfold prefixedID in Hid. apply rbind_ok in Hid as (suffix & _ & Hid).
  injection Hid as <-. by repeat case_bool_decide.
Qed.

Lemma post_mint env req : post_ok (ok_in (λ t, mt_TokenID t ≠ "")) (tokens_Mint sha256 env req).
Proof.
  apply post_tokens; [apply adds_tokens|]. intros s Hs. pose proof (ok_tokens _ _ Hs) as Hm.
  pose proof (wf_mint sha256 env _ req Hm) as Hw. pose proof (λ t, mint_token_id env _ req t Hm) as Hid.
  destruct (Mint _ _ _ _) as [m r]. cbn in *. split; [by apply ok_set_tokens|].
  destruct r as [t|e]; cbn; eauto.
Qed.

Lemma post_validate wall req :
  post_ok (ok_in (λ r, tr_Audience r = vr_Audience req)) (tokens_Validate sha256 wall req).
Proof.
  apply post_tokens; [apply adds_tokens|]. intros s Hs.
  pose proof (proj1 (step_spec sha256 (sv_tokens s) (OpValidate wall req) (ok_tokens _ _ Hs))) as Hw.
  cbn [tok_step] in Hw.
  destruct (validate_cases sha256 wall (sv_tokens s) req) as [(r & _ & Ha & Hv)|(_ & e & Hv)];
    rewrite Hv in Hw |- *; cbn in *; (split; [by apply ok_set_tokens|]); [|done].
  destruct Ha as (_ & _ & _ & _ & Ha & _ & Hu & _).
  by rewrite (evo_audience _ _ (validated_evolves _ _ _ _ Hu)).
Qed.

Lemma post_validate_id wall req : post_ok (λ _, True) (tokens_ValidateID wall req).
Proof.
  apply post_tokens; [apply adds_tokens|]. intros s Hs.
  pose proof (proj1 (step_spec sha256 (sv_tokens s) (OpValidateID wall req) (ok_tokens _ _ Hs))) as Hw.
  cbn [tok_step] in Hw. destruct (ValidateID _ _ _) as [m r]. split; [by apply ok_set_tokens|done].
Qed.

Lemma post_inspect wall req : post_ok (ok_in (λ _, True)) (tokens_Inspect sha256 wall req).
Proof.
  apply post_tokens; [apply adds_tokens|]. intros s Hs. split; [apply ok_set_tokens; [apply Hs|done]|].
  cbn. by destruct (Inspect_ _ _ _ _).
Qed.

Lemma post_revoke_id wall kind id now : post_ok (λ _, True) (tokens_RevokeTokenID wall kind id now).
Proof.
  apply post_tokens; [apply adds_tokens|]. intros s Hs. split; [|done]. apply ok_set_tokens; [|done].
  apply (step_spec sha256 _ (OpRevokeTokenID wall kind id now)), Hs.
Qed.

Lemma post_revokeSurfaceTokens wall session now : post_ok (λ _, True) (revokeSurfaceTokens wall session now).
Proof. apply post_tokens; [apply adds_tokens|]. intros s Hs. split; [by apply ok_revokeGeneration|done]. Qed.

Lemma post_revokeSessions wall sessions now : post_ok (λ _, True) (revokeSessions wall sessions now).
Proof.
  induction sessions as [|session sessions IH]; [by constructor|].
  by eapply post_bind; [apply post_revokeSurfaceTokens|].
Qed.

Lemma post_getState wall id now : post_ok (ok_in (good N id)) (getState wall id now).
Proof.
  apply post_locked. intros c s Hs. destruct (getStateLocked_post N wall id now c s Hs).
  split_and!; [done|apply adds_subseteq, getStateLocked_sub|done].
Qed.

Lemma post_options : post_ok (λ _, True) options.
Proof. apply post_locked. intros c s Hs. split_and!; [done|by apply adds_subseteq|done]. Qed.

(** A section of which only the state matters, and one with the sessions to
    revoke. *)
Lemma post_section {A} (f : Choice → SurfaceTokenService → SurfaceTokenService * A) :
  (∀ c s, ok s → ok (f c s).1) → (∀ c s, ok s → adds D s (f c s).1) → post_ok (λ _, True) (locked f).
Proof. intros Hf Ha. apply post_locked. auto. Qed.

(** A section that only removes sessions. *)
Lemma post_removal {A} (f : Choice → SurfaceTokenService → SurfaceTokenService * A) :
  (∀ c s, ok s → ok (f c s).1) → (∀ c s, sv_sessions (f c s).1 ⊆ sv_sessions s) →
  post_ok (λ _, True) (locked f).
Proof. intros Hf Hs. apply post_section; [done|]. intros. by apply adds_subseteq. Qed.

Lemma post_then_revoke {A} wall now (f : Choice → SurfaceTokenService → SurfaceTokenService * (list SurfaceSession * A)) :
  (∀ c s, ok s → ok (f c s).1) → (∀ c s, ok s → adds D s (f c s).1) →
  post_ok (λ _, True) ('(revoked, r) ← locked f; _ ← revokeSessions wall revoked now; mret r).
Proof.
  intros Hf Ha. eapply post_bind; [by apply post_section|]. intros [revoked r] _.
  eapply post_bind; [apply post_revokeSessions|]. intros. by constructor.
Qed.

Lemma post_store id st st' :
  (state_ok id st → successor id st st') → post_ok (λ _, True) (locked (storeIfCurrent id st st')).
Proof.
  intros Hst. apply post_section; intros; [by apply storeIfCurrent_ok|by eapply storeIfCurrent_adds].
Qed.

Lemma good_successor_issue id st tid :
  tid ≠ "" → state_ok id st → successor id st (issueAssetSession tid st).
Proof. intros Ht []. split; [|done]. by constructor; cbn. Qed.

Lemma post_ExchangeAssetTicket wall env req :
  post_ok (ok_in (λ a, ¬ N (ar_AssetSessionNonce a))) (ExchangeAssetTicket sha256 wall env req).
Proof.
  unfold ExchangeAssetTicket. cbv zeta.
  eapply post_try; [apply post_getState|done|]. intros st [Hst HN].
  case_match; [by constructor|].
  eapply post_try; [apply post_validate|done|]. intros _ _.
  eapply post_bind; [apply post_options|]. intros o _.
  eapply post_try; [apply post_mint|done|]. intros t Ht.
  eapply post_bind; [apply post_store; by apply good_successor_issue|].
  intros [] _; cbn [negb]; [by constructor|].
  eapply post_bind; [apply post_revokeSurfaceTokens|]. intros. by constructor.
Qed.

Lemma post_ValidateAssetSession wall req :
  post_ok (ok_in (λ v, ¬ N (sf_AssetSessionNonce (av_Session v)))) (ValidateAssetSession sha256 wall req).
Proof.
  unfold ValidateAssetSession. cbv zeta. case_match; [by constructor|].
  eapply post_try; [apply post_inspect|done|]. intros r _. case_match; [by constructor|].
  eapply post_try; [apply post_getState|done|]. intros st [_ HN]. constructor.
  by repeat case_match.
Qed.

Lemma post_MarkSurfacePrepared wall req : post_ok (λ _, True) (MarkSurfacePrepared wall req).
Proof.
  unfold MarkSurfacePrepared. case_match; [by constructor|].
  apply post_then_revoke; intros; [by apply markPreparedLocked_ok|apply markPreparedLocked_adds].
Qed.

(** A handshake is accepted for a prepared session and its nonce. *)
Definition shaken (req : MintGatewayTokenRequest) (st : surfaceState) : Prop :=
  good N (hs_SurfaceInstanceID (mg_Handshake req)) st ∧ st_surfacePrepared st = true ∧
  sf_AssetSessionNonce (st_session st) = hs_AssetSessionNonce (mg_Handshake req) ∧
  TrimSpace (mg_BridgeChannelID req) ≠ "".

Lemma validateHandshake_ok session h :
  validateHandshake session h = Ok tt → sf_AssetSessionNonce session = hs_AssetSessionNonce h.
Proof. unfold validateHandshake. case_match eqn:Hb; [done|]. intros _. go_bools. done. Qed.

Lemma post_validateBridgeHandshake wall req :
  post_ok (ok_in (λ v, shaken req v.1)) (validateBridgeHandshake sha256 wall req).
Proof.
  unfold validateBridgeHandshake. case_match eqn:Hch; [by constructor|]. go_bools.
  do 2 (case_match; [by constructor|]). cbv zeta.
  eapply post_try; [apply post_getState|done|]. intros st Hst.
  case_match eqn:Hprep; [by constructor|]. go_bools.
  case_match eqn:Hh; [|by constructor]. destruct a. apply validateHandshake_ok in Hh.
  assert (shaken req st) as Hsh by by split.
  case_match; [case_match; by constructor|]. case_match; [by constructor|].
  eapply post_try; [apply post_inspect|done|]. intros r _. case_match; by constructor.
Qed.

Lemma post_ValidateBridgeHandshake wall req :
  post_ok (ok_in (λ s, ¬ N (sf_AssetSessionNonce s))) (ValidateBridgeHandshake sha256 wall req).
Proof.
  unfold ValidateBridgeHandshake. eapply post_try; [apply post_validateBridgeHandshake|done|].
  intros [st now] [[_ HN] _]. by constructor.
Qed.

Lemma successor_gateway expiresAt aid ch gid id st :
  aid ≠ "" → gid ≠ "" → ch ≠ "" → st_surfacePrepared st = true → state_ok id st →
  successor id st (bindGateway expiresAt aid ch gid st).
Proof. intros ? ? ? ? []. split; [|done]. by constructor; cbn. Qed.

Lemma post_MintGatewayToken wall e1 e2 req :
  post_ok (ok_in (λ _, ¬ N (hs_AssetSessionNonce (mg_Handshake req)))) (MintGatewayToken sha256 wall e1 e2 req).
Proof.
  unfold MintGatewayToken. eapply post_try; [apply post_validateBridgeHandshake|done|].
  intros [st now] ([Hst HN] & Hprep & Hnonce & Hch). rewrite Hnonce in HN.
  eapply post_bind; [apply post_options|]. intros o _.
  eapply post_try; [apply post_mint|done|]. intros a Ha.
  eapply post_bind; [apply post_mint|]. intros [t|e] Ht.
  2: { eapply post_bind; [apply post_revoke_id|]. intros. by constructor. }
  eapply post_bind.
  { apply post_store.
    apply successor_gateway; try done. intros Heq. by rewrite Heq in Hch. }
  intros [] _; cbn [negb];
    (eapply post_bind; [apply post_revoke_id|]; intros; eapply post_bind; [apply post_revoke_id|];
     intros; by constructor).
Qed.

Lemma post_ValidateGatewayToken wall token aud rev now :
  post_ok (ok_in (λ r, tr_Audience r = aud)) (ValidateGatewayToken sha256 wall token aud rev now).
Proof. unfold ValidateGatewayToken. eapply post_weaken; [apply post_validate|done]. Qed.

Lemma post_ValidateSurfaceGatewayToken wall req :
  post_ok (ok_in (λ r, ¬ N (au_AssetSessionNonce (tr_Audience r))))
    (ValidateSurfaceGatewayToken sha256 wall req).
Proof.
  unfold ValidateSurfaceGatewayToken. case_match; [by constructor|]. cbv zeta.
  eapply post_try; [apply post_inspect|done|]. intros r _. do 2 (case_match; [by constructor|]).
  eapply post_bind; [apply post_getState|]. intros [st|e] Hst.
  2: { destruct e; by constructor. }
  case_match; [|by constructor]. eapply post_weaken; [apply post_ValidateGatewayToken|].
  intros [r'|e] Hr; [|done]. cbn in Hr |- *. rewrite Hr. apply Hst.
Qed.

Lemma post_InspectBoundSurface wall req :
  post_ok (ok_in (λ b, ¬ N (au_AssetSessionNonce (bd_Audience b)))) (InspectBoundSurface wall req).
Proof.
  unfold InspectBoundSurface. case_match; [by constructor|]. cbv zeta.
  eapply post_try; [apply post_getState|done|]. intros st [_ HN]. constructor. by case_match.
Qed.

Lemma post_reserve wall session now :
  state_ok (sf_SurfaceInstanceID session) (newState session) → ¬ N (sf_AssetSessionNonce session) →
  D (sf_AssetSessionNonce session) → post_ok (ok_in (λ _, True)) (reserveSurfaceSession wall session now).
Proof.
  intros Hst HN HD. eapply post_bind.
  { apply post_section; intros; [by apply reserveLocked_ok|by apply reserveLocked_adds]. }
  intros [revoked err] _. eapply post_bind; [apply post_revokeSessions|]. intros _ _. constructor.
  by destruct err.
Qed.

Lemma opened_ok req bridgeNonce nonce now expiresAt :
  anyBlank [os_PluginID req; os_PluginInstanceID req; os_PluginVersion req; os_SurfaceID req;
    os_SurfaceInstanceID req; os_ActiveFingerprint req; os_EntryPath req; os_EntrySHA256 req;
    os_RouteRole req; os_RuntimeGenerationID req; os_OwnerSessionHash req; os_OwnerUserHash req;
    os_OwnerEnvHash req; os_SessionChannelIDHash req] = false →
  let session := openedSession req bridgeNonce nonce now expiresAt in
  state_ok (sf_SurfaceInstanceID session) (newState session).
Proof.
  intros Hb. apply new_state_ok. cbn. unfold anyBlank in *. cbn in Hb |- *.
  repeat (apply orb_false_iff in Hb as [? Hb]). by repeat (apply orb_false_iff; split).
Qed.

Lemma post_OpenSurface env req :
  (∀ nonce, draws (ReqOpenSurface env req) = Some nonce → ¬ N nonce ∧ D nonce) →
  post_ok (λ _, True) (OpenSurface sha256 env req).
Proof.
  intros HN. unfold OpenSurface. case_match eqn:Hb; [by constructor|]. cbv zeta.
  destruct (randomString (oe_bridgeNonce env)) as [bn|]; [|by constructor].
  cbn in HN. destruct (randomString (oe_assetSessionNonce env)) as [nonce|]; [|by constructor].
  eapply post_bind; [apply post_options|]. intros o _.
  eapply post_try; [apply post_reserve; [by apply opened_ok|by apply HN..]|done|]. intros _ _.
  eapply post_bind; [apply post_mint|]. intros [t|e] _; [by constructor|].
  eapply post_bind; [apply post_removal; intros; [by apply releaseLocked_ok|apply releaseLocked_sub]|]. intros. by constructor.
Qed.

Lemma post_MintConfirmationToken wall env req : post_ok (λ _, True) (MintConfirmationToken sha256 wall env req).
Proof.
  unfold MintConfirmationToken. do 2 (case_match; [by constructor|]). cbv zeta.
  eapply post_try; [apply post_mint|done|]. intros. by constructor.
Qed.

Lemma post_MintHandleGrant wall env req : post_ok (λ _, True) (MintHandleGrant sha256 wall env req).
Proof.
  unfold MintHandleGrant. case_match; [by constructor|]. case_match; [|by constructor].
  eapply post_try; [apply post_mint|done|]. intros. by constructor.
Qed.

Lemma post_ValidateHandleGrant wall req : post_ok (λ _, True) (ValidateHandleGrant sha256 wall req).
Proof.
  unfold ValidateHandleGrant. cbv zeta. case_match; [by constructor|].
  eapply post_weaken; [apply post_validate|done].
Qed.

Lemma post_DisposeSurface wall id now : post_ok (λ _, True) (DisposeSurface wall id now).
Proof.
  unfold DisposeSurface. cbv zeta. eapply post_bind; [apply post_removal; intros; [by apply disposeLocked_ok|apply disposeLocked_sub]|].
  intros [session|] _; [|by constructor]. eapply post_bind; [apply post_revokeSurfaceTokens|].
  intros. by constructor.
Qed.

Lemma post_DisposeBoundSurface wall req : post_ok (λ _, True) (DisposeBoundSurface wall req).
Proof.
  unfold DisposeBoundSurface. case_match; [by constructor|].
  apply post_then_revoke; intros; [by apply disposeBoundLocked_ok|apply adds_subseteq, disposeBoundLocked_sub].
Qed.

Lemma post_ReconcileSurfaceRevocation wall req : post_ok (λ _, True) (ReconcileSurfaceRevocation wall req).
Proof.
  unfold ReconcileSurfaceRevocation. case_match; [by constructor|].
  apply post_then_revoke; intros; [by apply reconcileLocked_ok|apply adds_subseteq, reconcileLocked_sub].
Qed.

Lemma post_DisposeAssetSession wall wall' req : post_ok (λ _, True) (DisposeAssetSession sha256 wall wall' req).
Proof.
  unfold DisposeAssetSession. eapply post_try; [apply post_ValidateAssetSession|done|]. intros v _.
  eapply post_bind; [apply post_removal; intros; [by apply disposeAssetLocked_ok|apply disposeAssetLocked_sub]|]. intros [] _; cbn [negb].
  - eapply post_bind; [apply post_revokeSurfaceTokens|]. intros. by constructor.
  - by constructor.
Qed.

(** The bulk revocations delete the selected sessions and revoke each. *)
Lemma post_bulk wall now select :
  post_ok (λ _, True)
    (revoked ← locked (λ c s, deleteSelected select (iterate (c 0) (sv_sessions s)) s);
     _ ← revokeSessions wall revoked now; mret (Z.of_nat (length revoked))).
Proof.
  eapply post_bind; [apply post_removal; intros; [by apply ok_deleteSelected|apply deleteSelected_sub]|]. intros revoked _.
  eapply post_bind; [apply post_revokeSessions|]. intros. by constructor.
Qed.

Lemma post_Service_RevokePlugin wall e p n now : post_ok (λ _, True) (Service_RevokePlugin wall e p n now).
Proof.
  unfold Service_RevokePlugin. cbv zeta.
  eapply post_bind; [apply post_removal; intros; [by apply ok_deleteSelected|apply deleteSelected_sub]|]. intros _ _.
  apply post_tokens; [apply adds_tokens|]. intros s Hs. split; [|done]. apply ok_set_tokens; [|done].
  apply (step_spec sha256 _ (OpRevokePlugin wall e p n (or_wall wall now))), Hs.
Qed.

Lemma post_Service_RevokeSessionScope wall scope now :
  post_ok (λ _, True) (Service_RevokeSessionScope wall scope now).
Proof.
  unfold Service_RevokeSessionScope. case_match; [|by constructor].
  apply post_removal; intros; [by apply revokeScopeLocked_ok|apply revokeScopeLocked_sub].
Qed.

Lemma post_Service_Preview scope : post_ok (λ _, True) (Service_PreviewSessionScopeRevocation scope).
Proof.
  unfold Service_PreviewSessionScopeRevocation. case_match; [|by constructor]. by apply post_removal.
Qed.

Lemma post_ValidateConfirmationToken wall req : post_ok (λ _, True) (ValidateConfirmationToken sha256 wall req).
Proof. unfold ValidateConfirmationToken. eapply post_weaken; [apply post_validate|done]. Qed.

Lemma post_ValidateConfirmationTokenID wall req : post_ok (λ _, True) (ValidateConfirmationTokenID wall req).
Proof. apply post_validate_id. Qed.

Lemma post_RevokeAllSurfaces wall now : post_ok (λ _, True) (RevokeAllSurfaces wall now).
Proof. apply post_bulk. Qed.

Lemma post_RevokeSurfacesExceptGeneration wall id now :
  post_ok (λ _, True) (RevokeSurfacesExceptGeneration wall id now).
Proof. unfold RevokeSurfacesExceptGeneration. case_match; [by constructor|apply post_bulk]. Qed.

(** Every call keeps the invariant and gives no access to a forbidden session. *)
Lemma program_post q :
  (∀ nonce, draws q = Some nonce → ¬ N nonce ∧ D nonce) →
  post_ok (λ r, ∀ nonce, N nonce → ¬ grants nonce q r) (program sha256 q).
Proof.
  intros HN.
  assert (∀ A (P : A → Prop) (p : Prog A) (f : A → Reply),
    post_ok P p → (∀ a nonce, P a → N nonce → ¬ grants nonce q (f a)) →
    post_ok (λ r, ∀ nonce, N nonce → ¬ grants nonce q r) (a ← p; mret (f a))) as Hret.
  { intros A P p f Hp Hf. eapply post_bind; [done|]. intros a Ha. constructor. eauto. }
  destruct q; cbn [program].
  - eapply Hret; [by apply post_OpenSurface|intros ? ? _ _ []].
  - eapply Hret; [apply post_ExchangeAssetTicket|intros [a|e] nonce Ha Hn; cbn in *; [by intros <-|tauto]].
  - eapply Hret; [apply post_ValidateAssetSession|intros [a|e] nonce Ha Hn; cbn in *; [by intros <-|tauto]].
  - eapply Hret; [apply post_MarkSurfacePrepared|intros ? ? _ _ []].
  - eapply Hret; [apply post_MintGatewayToken|intros [a|e] nonce Ha Hn; cbn in *; [by intros <-|tauto]].
  - eapply Hret; [apply post_ValidateBridgeHandshake|intros [a|e] nonce Ha Hn; cbn in *; [by intros <-|tauto]].
  - eapply Hret; [apply post_ValidateGatewayToken|intros ? ? _ _ []].
  - eapply Hret; [apply post_ValidateSurfaceGatewayToken|intros [a|e] nonce Ha Hn; cbn in *; [by intros <-|tauto]].
  - eapply Hret; [apply post_InspectBoundSurface|intros [a|e] nonce Ha Hn; cbn in *; [by intros <-|tauto]].
  - eapply Hret; [apply post_MintConfirmationToken|intros ? ? _ _ []].
  - eapply Hret; [apply post_ValidateConfirmationToken|intros ? ? _ _ []].
  - eapply Hret; [apply post_ValidateConfirmationTokenID|intros ? ? _ _ []].
  - eapply Hret; [apply post_MintHandleGrant|intros ? ? _ _ []].
  - eapply Hret; [apply post_ValidateHandleGrant|intros ? ? _ _ []].
  - eapply Hret; [apply post_DisposeSurface|intros ? ? _ _ []].
  - eapply Hret; [apply post_DisposeBoundSurface|intros ? ? _ _ []].
  - eapply Hret; [apply post_ReconcileSurfaceRevocation|intros ? ? _ _ []].
  - eapply Hret; [apply post_DisposeAssetSession|intros ? ? _ _ []].
  - eapply Hret; [apply post_Service_RevokeSessionScope|intros ? ? _ _ []].
  - eapply Hret; [apply post_Service_Preview|intros ? ? _ _ []].
  - eapply Hret; [apply post_RevokeAllSurfaces|intros ? ? _ _ []].
  - eapply Hret; [apply post_RevokeSurfacesExceptGeneration|intros ? ? _ _ []].
  - eapply Hret; [apply post_Service_RevokePlugin|intros ? ? _ _ []].
Qed.

End methods.
