(* ===== verification/SurfaceTheorems.v ===== *)
(** * Theorems on the surface token service

    The invariant of the service in every interleaving of its calls; a closed
    surface stays closed; the exact condition under which a gateway token is
    accepted; what closing a surface and revoking a session do; and the
    injectivity of the handshake transcript. *)

From stdpp Require Import pretty.
From S2P Require Import Prelude GoLib Index SessionCtx Bridge BridgeProps BridgeTheorems Surface SurfaceProps.

Open Scope go_scope.

(** ** Runs *)

Definition nobody (_ : string) : Prop := False.

Section runs.
Context (sha256 : string → string).
Notation Run := (Run sha256).
Notation SysStep := (SysStep sha256).

(** The goroutines of a system with what holds of each of them. *)
Definition threads_are (P : nat → Prog Reply → Prop) (sys : System) : Prop :=
  ∀ t p, sy_threads sys !! t = Some p → P t p.

(** A goroutine that keeps the invariant and only adds nonces in [D]. *)
Definition within (D : string → Prop) (p : Prog Reply) : Prop :=
  post (svc_ok nobody) (adds D) (λ _, True) p.

Lemma program_within D q : (∀ nonce, draws q = Some nonce → D nonce) → within D (program sha256 q).
Proof.
  intros HD. eapply post_weaken; [apply (program_post sha256 nobody D)|done].
  intros nonce Hn. split; [by intros []|auto].
Qed.

(** A step keeps the invariant, and what holds of the goroutines that stay. *)
Lemma step_within D sys e sys' :
  SysStep sys e sys' → svc_ok nobody (sy_service sys) → threads_are (λ _, within D) sys →
  (∀ t q nonce, e = EvCall t q → draws q = Some nonce → D nonce) →
  svc_ok nobody (sy_service sys') ∧ threads_are (λ _, within D) sys' ∧
  adds D (sy_service sys) (sy_service sys').
Proof.
  unfold threads_are. intros Hstep Hs Hth HD.
  destruct Hstep as [s threads t q Hnew|s threads t c f s' p' Hp Hf|s threads t r Hp]; cbn in *.
  - split_and!; [done| |by apply adds_subseteq]. intros t' p [[<- <-]|[_ ?]]%lookup_insert_Some; [|by eapply Hth].
    apply program_within. eauto.
  - specialize (Hth t _ Hp) as Hpost. inversion Hpost as [|? Hi Hg Hk]; subst.
    specialize (Hi c s Hs). specialize (Hg c s Hs). specialize (Hk c s Hs). rewrite Hf in Hi, Hg, Hk.
    split_and!; [done| |done]. by intros t' p [[<- <-]|[_ ?]]%lookup_insert_Some; [|eapply Hth].
  - split_and!; [done| |by apply adds_subseteq]. intros t' p [_ ?]%lookup_delete_Some. by eapply Hth.
Qed.

Lemma run_within D sys events sys' :
  Run sys events sys' → svc_ok nobody (sy_service sys) → threads_are (λ _, within D) sys →
  (∀ t q nonce, EvCall t q ∈ events → draws q = Some nonce → D nonce) →
  svc_ok nobody (sy_service sys') ∧ threads_are (λ _, within D) sys'.
Proof.
  induction 1 as [sys|sys e sys1 events sys2 Hstep _ IH]; intros Hs Hth HD; [done|].
  destruct (step_within D _ _ _ Hstep Hs Hth) as (? & ? & _).
  { intros t q nonce -> ?. by apply (HD t q); [left|]. }
  apply IH; [done|done|]. intros t q nonce ? ?. apply (HD t q); [by right|done].
Qed.

(** A new service with no goroutine. *)
Definition initial (tokens : option TokenManager) (options : SurfaceTokenOptions) : System :=
  mkSystem (NewSurfaceTokenService tokens options) ∅.

(** C14: the invariant of the surface token service. In every interleaving of
    any calls of a new service, on a token manager that satisfies its own
    invariant, whatever the options: the token manager keeps its invariant, the
    session index lists exactly the open sessions of every session scope, the
    sessions and the retained closures stay within the total limit and the
    limit per owner, and every session is stored under its identifier and has
    gone through its stages in order: asset session, prepared, bound to a
    channel together with a gateway token. *)
Theorem surface_service_invariant tokens options events sys :
  (∀ m, tokens = Some m → tok_wf m) → Run (initial tokens options) events sys →
  svc_ok nobody (sy_service sys).
Proof.
  intros Ht Hrun. eapply (run_within (λ _, True)); [done|by apply new_service_ok| |done].
  intros t p. cbn. by rewrite lookup_empty.
Qed.

(** ** A closed surface *)

(** A goroutine that may open a session with the nonce, at most once. *)
Inductive once {A} (nonce : string) : Prog A → Prop :=
| once_quiet p : post (svc_ok nobody) (adds (λ n, n ≠ nonce)) (λ _, True) p → once nonce p
| once_wait f :
    (∀ c s, svc_ok nobody s → svc_ok nobody (f c s).1) →
    (∀ c s, svc_ok nobody s → adds (λ n, n ≠ nonce) s (f c s).1) →
    (∀ c s, svc_ok nobody s → once nonce (f c s).2) → once nonce (Atomic f)
| once_last f :
    (∀ c s, svc_ok nobody s → svc_ok nobody (f c s).1) →
    (∀ c s, svc_ok nobody s → post (svc_ok nobody) (adds (λ n, n ≠ nonce)) (λ _, True) (f c s).2) →
    once nonce (Atomic f).

Lemma once_bind {A B} nonce (k : A → Prog B) p :
  once nonce p → (∀ a, post (svc_ok nobody) (adds (λ n, n ≠ nonce)) (λ _, True) (k a)) →
  once nonce (pbind k p).
Proof.
  intros Hp Hk. induction Hp as [p Hp|f Hi Hg _ IH|f Hi Hp]; cbn.
  - apply once_quiet. by eapply post_bind.
  - apply once_wait; intros c s Hs; specialize (Hi c s Hs); specialize (Hg c s Hs);
      specialize (IH c s Hs); by destruct (f c s).
  - apply once_last; intros c s Hs; specialize (Hi c s Hs); specialize (Hp c s Hs);
      destruct (f c s); [done|]. by eapply post_bind.
Qed.

Lemma once_bind_after {A B} nonce (P : A → Prop) (k : A → Prog B) p :
  post (svc_ok nobody) (adds (λ n, n ≠ nonce)) P p → (∀ a, P a → once nonce (k a)) →
  once nonce (pbind k p).
Proof.
  intros Hp Hk. induction Hp as [a Ha|f Hi Hg _ IH]; cbn; [by apply Hk|].
  apply once_wait; intros c s Hs; specialize (Hi c s Hs); specialize (Hg c s Hs);
    specialize (IH c s Hs); by destruct (f c s).
Qed.

Lemma once_OpenSurface nonce env req : once nonce (OpenSurface sha256 env req).
Proof.
  unfold OpenSurface. case_match eqn:Hb; [by apply once_quiet, post_ret|]. cbv zeta.
  destruct (randomString (oe_bridgeNonce env)) as [bn|]; [|by apply once_quiet, post_ret].
  destruct (randomString (oe_assetSessionNonce env)) as [n|]; [|by apply once_quiet, post_ret].
  eapply once_bind_after; [apply post_options|]. intros o _.
  apply once_bind.
  2: { intros [[]|e]; [|by apply post_ret]. eapply post_bind; [apply post_mint|].
       intros [t|e] _; [by apply post_ret|].
       eapply post_bind; [apply post_removal; intros; [by apply releaseLocked_ok|apply releaseLocked_sub]|].
       intros. by apply post_ret. }
  apply once_bind.
  2: { intros [revoked err]. eapply post_bind; [apply post_revokeSessions|]. intros. by apply post_ret. }
  apply once_last; intros c s Hs.
  - pose proof (reserveLocked_ok nobody (openedSession req bn n (or_wall (oe_wall env) (os_Now req))
      (or_wall (oe_wall env) (os_Now req) + so_AssetSessionTTL o)%Z) (or_wall (oe_wall env) (os_Now req))
      c s Hs (opened_ok req _ _ _ _ Hb)) as Hr.
    destruct (reserveLocked _ _ c s). apply Hr. by intros [].
  - destruct (reserveLocked _ _ c s). by apply post_ret.
Qed.

Lemma once_program nonce q : once nonce (program sha256 q).
Proof.
  destruct (decide (draws q = Some nonce)) as [Hd|Hd].
  - destruct q; try done. cbn [program]. apply once_bind; [apply once_OpenSurface|].
    intros. by apply post_ret.
  - apply once_quiet, program_within. intros n Hn ->. by rewrite Hn in Hd.
Qed.

(** The nonce a call event draws, and how often a run draws it. *)
Definition event_draws (e : Event) : option string :=
  match e with EvCall _ q => draws q | _ => None end.

Definition drawn (nonce : string) (events : list Event) : nat :=
  length (filter (λ e, event_draws e = Some nonce) events).

Notation quiet nonce := (within (λ n, n ≠ nonce)).

(** After [n] draws of the nonce: every goroutine is quiet, or it is not open
    yet and one goroutine may open it. *)
Definition staged (nonce : string) (n : nat) (sys : System) : Prop :=
  svc_ok nobody (sy_service sys) ∧
  ((threads_are (λ _, quiet nonce) sys ∧ (n = 0 → ¬ has_nonce nonce (sy_service sys))) ∨
   (0 < n ∧ ¬ has_nonce nonce (sy_service sys) ∧
    ∃ t0, threads_are (λ t p, if decide (t = t0) then once nonce p else quiet nonce p) sys)).

Lemma not_has_step nonce s s' :
  adds (λ n, n ≠ nonce) s s' → ¬ has_nonce nonce s → ¬ has_nonce nonce s'.
Proof. intros Ha Hn Hs. by destruct (Ha _ Hs). Qed.

Lemma within_step D f c s s' p' :
  within D (Atomic f) → svc_ok nobody s → f c s = (s', p') →
  svc_ok nobody s' ∧ adds D s s' ∧ within D p'.
Proof.
  intros Hpost Hs Hf. inversion Hpost as [|? Hi Hg Hk]; subst.
  specialize (Hi c s Hs). specialize (Hg c s Hs). specialize (Hk c s Hs). by rewrite Hf in Hi, Hg, Hk.
Qed.

Lemma once_step nonce f c s s' p' :
  once nonce (Atomic f) → svc_ok nobody s → f c s = (s', p') →
  svc_ok nobody s' ∧ ((adds (λ n, n ≠ nonce) s s' ∧ once nonce p') ∨ quiet nonce p').
Proof.
  intros Honce Hs Hf. inversion Honce as [p1 Hq|f1 Hi Hg Hk|f1 Hi Hk]; subst.
  - destruct (within_step _ _ _ _ _ _ Hq Hs Hf) as (? & ? & ?). auto.
  - specialize (Hi c s Hs). specialize (Hg c s Hs). specialize (Hk c s Hs). rewrite Hf in Hi, Hg, Hk. auto.
  - specialize (Hi c s Hs). specialize (Hk c s Hs). rewrite Hf in Hi, Hk. auto.
Qed.

(** A step that does not draw the nonce, before it is open. *)
Lemma opening_step nonce t0 sys e sys' :
  SysStep sys e sys' → event_draws e ≠ Some nonce →
  svc_ok nobody (sy_service sys) → ¬ has_nonce nonce (sy_service sys) →
  threads_are (λ t p, if decide (t = t0) then once nonce p else quiet nonce p) sys →
  svc_ok nobody (sy_service sys') ∧
  (threads_are (λ _, quiet nonce) sys' ∨
   (¬ has_nonce nonce (sy_service sys') ∧
    threads_are (λ t p, if decide (t = t0) then once nonce p else quiet nonce p) sys')).
Proof.
  unfold threads_are. intros Hstep He Hs Hn Hth.
  destruct Hstep as [s threads t q Hnew|s threads t c f s' p' Hp Hf|s threads t r Hp]; cbn in *.
  - split; [done|]. right. split; [done|]. intros t' p [[<- <-]|[Hne Hp]]%lookup_insert_Some; [|by apply Hth].
    assert (quiet nonce (program sha256 q)) as Hq.
    { apply program_within. intros n' Hn' ->. by rewrite Hn' in He. }
    case_decide; [by apply once_quiet|done].
  - pose proof (Hth t _ Hp) as Hpost. case_decide as Ht0.
    + destruct (once_step _ _ _ _ _ _ Hpost Hs Hf) as (? & [[Ha Ho]|Hq]); (split; [done|]); [right|left].
      * split; [by eapply not_has_step|]. intros t1 p1 [[<- <-]|[Hne Hp1]]%lookup_insert_Some; [|by apply Hth].
        by rewrite decide_True.
      * intros t1 p1 [[<- <-]|[Hne Hp1]]%lookup_insert_Some; [done|].
        specialize (Hth t1 p1 Hp1). by rewrite decide_False in Hth by congruence.
    + destruct (within_step _ _ _ _ _ _ Hpost Hs Hf) as (? & Ha & Hq). split; [done|]. right.
      split; [by eapply not_has_step|]. intros t1 p1 [[<- <-]|[Hne Hp1]]%lookup_insert_Some; [|by apply Hth].
      by rewrite decide_False.
  - split; [done|]. right. split; [done|]. intros t1 p1 [_ Hp1]%lookup_delete_Some. by apply Hth.
Qed.

Lemma staged_step nonce n sys e sys' :
  SysStep sys e sys' → staged nonce n sys → (event_draws e = Some nonce → n = 0) →
  staged nonce (n + (if decide (event_draws e = Some nonce) then 1 else 0)) sys'.
Proof.
  intros Hstep [Hs Hst] Hd. case_decide as He.
  - specialize (Hd He). subst n. destruct Hst as [[Hq Hn]|[? _]]; [|lia].
    destruct Hstep as [s threads t q Hnew| |]; try done. split; [done|]. right.
    split_and!; [lia|by apply Hn|]. exists t. unfold threads_are. cbn.
    intros t' p [[<- <-]|[Hne Hp]]%lookup_insert_Some.
    + rewrite decide_True by done. apply once_program.
    + rewrite decide_False by done. by eapply Hq.
  - rewrite Nat.add_0_r. destruct Hst as [[Hq Hn]|(Hpos & Hn & t0 & Hth)].
    + destruct (step_within _ _ _ _ Hstep Hs Hq) as (? & ? & Ha).
      { intros t q n' -> Hn' ->. by rewrite <- Hn' in He. }
      split; [done|]. left. split; [done|]. intros Hz. by apply (not_has_step _ _ _ Ha), Hn.
    + destruct (opening_step _ _ _ _ _ Hstep He Hs Hn Hth) as (? & [?|[? ?]]); (split; [done|]).
      * left. split; [done|lia].
      * right. eauto.
Qed.

Lemma staged_run nonce sys events sys' n :
  Run sys events sys' → staged nonce n sys → n + drawn nonce events ≤ 1 →
  staged nonce (n + drawn nonce events) sys'.
Proof.
  intros Hrun. revert n. induction Hrun as [sys|sys e sys1 events sys2 Hstep _ IH]; intros n Hst Hn.
  { by rewrite Nat.add_0_r. }
  unfold drawn in *. rewrite filter_cons in Hn |- *.
  assert (staged nonce (n + (if decide (event_draws e = Some nonce) then 1 else 0)) sys1) as Hst1.
  { apply (staged_step _ _ _ _ _ Hstep Hst). intros He. rewrite decide_True in Hn by done. cbn in Hn. lia. }
  case_decide; cbn [length] in *.
  - replace (n + S _) with (n + 1 + length (filter (λ e, event_draws e = Some nonce) events)) by lia.
    apply IH; [done|lia].
  - rewrite Nat.add_0_r in Hst1. by apply IH.
Qed.

(** Once every goroutine is quiet and the nonce is not open, it stays so. *)
Definition shut (nonce : string) (sys : System) : Prop :=
  svc_ok nobody (sy_service sys) ∧ threads_are (λ _, quiet nonce) sys ∧
  ¬ has_nonce nonce (sy_service sys).

Lemma shut_step nonce sys e sys' :
  SysStep sys e sys' → event_draws e ≠ Some nonce → shut nonce sys → shut nonce sys'.
Proof.
  intros Hstep He (Hs & Hq & Hn). destruct (step_within _ _ _ _ Hstep Hs Hq) as (? & ? & Ha).
  { intros t q n' -> Hn' ->. by rewrite <- Hn' in He. }
  split_and!; [done|done|by eapply not_has_step].
Qed.

Lemma drawn_cons nonce e events :
  drawn nonce (e :: events) = 0 → event_draws e ≠ Some nonce ∧ drawn nonce events = 0.
Proof. unfold drawn. rewrite filter_cons. case_decide; cbn; [lia|done]. Qed.

Lemma drawn_app nonce l1 l2 : drawn nonce (l1 ++ l2) = drawn nonce l1 + drawn nonce l2.
Proof. unfold drawn. by rewrite filter_app, length_app. Qed.

Lemma shut_run nonce sys events sys' :
  Run sys events sys' → drawn nonce events = 0 → shut nonce sys → shut nonce sys'.
Proof.
  induction 1 as [sys|sys e sys1 events sys2 Hstep _ IH]; intros Hd Hs; [done|].
  apply drawn_cons in Hd as [He Hd]. apply IH; [done|]. by eapply shut_step.
Qed.

Lemma svc_ok_nonce nonce s : svc_ok nobody s → ¬ has_nonce nonce s → svc_ok (eq nonce) s.
Proof.
  intros Hs Hn. constructor; [apply Hs..| |apply Hs|apply Hs|apply Hs|apply Hs|apply Hs|apply Hs].
  intros id st Hid. split; [by apply (ok_state _ _ Hs)|]. intros ->. apply Hn. by exists id, st.
Qed.

(** A call that starts after the session is closed gives no access to it. *)
Lemma shut_reply nonce sys events sys' t p Q :
  Run sys events sys' → drawn nonce events = 0 → shut nonce sys →
  sy_threads sys !! t = Some p → post (svc_ok (eq nonce)) (adds (λ n, n ≠ nonce)) Q p →
  (∀ r, EvReturn t r ∉ events) →
  ∃ p', sy_threads sys' !! t = Some p' ∧ post (svc_ok (eq nonce)) (adds (λ n, n ≠ nonce)) Q p'.
Proof.
  intros Hrun. revert p. induction Hrun as [sys|sys e sys1 events sys2 Hstep _ IH];
    intros p Hd Hs Hp Hpost Hret; [eauto|].
  apply drawn_cons in Hd as [He Hd].
  assert (∃ p1, sy_threads sys1 !! t = Some p1 ∧ post (svc_ok (eq nonce)) (adds (λ n, n ≠ nonce)) Q p1)
    as (p1 & Hp1 & Hpost1).
  { destruct Hstep as [s threads t' q Hnew|s threads t' c f s' p' Hp' Hf|s threads t' r Hp']; cbn in *.
    - exists p. split; [|done]. rewrite lookup_insert_ne; [done|congruence].
    - destruct (decide (t' = t)) as [->|]; [|exists p; by rewrite lookup_insert_ne].
      rewrite Hp in Hp'. injection Hp' as ->. exists p'. split; [by rewrite lookup_insert_eq|].
      inversion Hpost as [|? _ _ Hk]; subst. destruct Hs as (Hs & _ & Hn).
      specialize (Hk c s (svc_ok_nonce _ _ Hs Hn)). by rewrite Hf in Hk.
    - exists p. split; [|done]. rewrite lookup_delete_ne; [done|]. intros ->. apply (Hret r). by left. }
  eapply IH; [done|by eapply shut_step|done|done|]. intros r Hin. apply (Hret r). by right.
Qed.

Lemma run_app sys l1 l2 sys' : Run sys (l1 ++ l2) sys' → ∃ sys1, Run sys l1 sys1 ∧ Run sys1 l2 sys'.
Proof.
  revert sys. induction l1 as [|e l1 IH]; intros sys Hrun; [eexists; split; [constructor|done]|].
  inversion Hrun as [|? ? sys1 ? ? Hstep Hrest]; subst.
  destruct (IH _ Hrest) as (sys2 & ? & ?). exists sys2. split; [by econstructor|done].
Qed.


End runs.

(** ** Playing a schedule *)

(** A schedule chooses the next goroutine; it is the executable form of [Run]. *)
Inductive Move :=
| Call (t : nat) (q : Request)
| Act (t : nat) (c : Choice)
| Return (t : nat).

Section play.
Context (sha256 : string → string).

Definition move (m : Move) (sys : System) : option (Event * System) :=
  match m with
  | Call t q =>
     match sy_threads sys !! t with
     | None => Some (EvCall t q, mkSystem (sy_service sys) (<[t := program sha256 q]> (sy_threads sys)))
     | Some _ => None
     end
  | Act t c =>
     match sy_threads sys !! t with
     | Some (Atomic f) =>
        let '(s', p') := f c (sy_service sys) in
        Some (EvAct t c, mkSystem s' (<[t := p']> (sy_threads sys)))
     | _ => None
     end
  | Return t =>
     match sy_threads sys !! t with
     | Some (Ret r) => Some (EvReturn t r, mkSystem (sy_service sys) (delete t (sy_threads sys)))
     | _ => None
     end
  end.

(** Moves that are not possible are skipped. *)
Fixpoint play (sys : System) (moves : list Move) : list Event * System :=
  match moves with
  | [] => ([], sys)
  | m :: moves =>
     match move m sys with
     | None => play sys moves
     | Some (e, sys1) => let '(events, sys2) := play sys1 moves in (e :: events, sys2)
     end
  end.

Lemma move_step m sys e sys' : move m sys = Some (e, sys') → SysStep sha256 sys e sys'.
Proof.
  destruct sys as [s threads], m as [t q|t c|t]; cbn; destruct (threads !! t) as [[r|f]|] eqn:Ht; try done.
  - intros [= <- <-]. by constructor.
  - destruct (f c s) as [s' p'] eqn:Hf. intros [= <- <-]. by econstructor.
  - intros [= <- <-]. by constructor.
Qed.

Lemma play_run sys moves : Run sha256 sys (play sys moves).1 (play sys moves).2.
Proof.
  revert sys. induction moves as [|m moves IH]; intros sys; cbn; [constructor|].
  destruct (move m sys) as [[e sys1]|] eqn:Hm; [|apply IH].
  specialize (IH sys1). destruct (play sys1 moves) as [events sys2]. econstructor; [by eapply move_step|done].
Qed.

End play.

(** ** Witnesses *)

Definition first (_ : nat) : nat := 0.
Definition surface_options : SurfaceTokenOptions := mkSurfaceTokenOptions 0 0 0 2 1.

Definition surface_open : OpenSurfaceRequest :=
  mkOpenSurfaceRequest "p" "inst" "1.0" "sf" "sfi" "fp" "/e" "s256" "trusted_parent" "gen" "sess" "user" "env"
    "chan" sample_revision 100.
Definition surface_env : OpenEnv := mkOpenEnv 1 (Some "bridge") (Some "asset") sample_env.
Definition surface_nonce : string := base64_raw_url "asset".

(** A surface is reserved while it is disposed of by another goroutine. *)
Definition reserving : list Event * System :=
  play sample_sha (initial None surface_options)
    [Call 1 (ReqOpenSurface surface_env surface_open); Act 1 first; Act 1 first].
Definition disposing : list Event * System :=
  play sample_sha reserving.2 [Call 2 (ReqDisposeSurface 1 "sfi" 110); Act 2 first].
Definition inspecting : list Event * System :=
  play sample_sha disposing.2
    [Act 1 first; Return 1;
     Call 3 (ReqInspectBoundSurface 1 (mkInspectBound "sfi" "ch" "sess" "user" "env" "chan" 120));
     Act 3 first; Return 3].

Lemma surface_service_invariant_witness :
  size (sv_sessions (sy_service reserving.2)) = 1 ∧ svc_ok nobody (sy_service reserving.2).
Proof.
  split; [vm_compute; reflexivity|].
  apply (surface_service_invariant sample_sha None surface_options reserving.1 reserving.2);
    [intros m Hm; discriminate Hm|apply play_run].
Defined.

Lemma has_nonce_at s id :
  sf_AssetSessionNonce ∘ st_session <$> sv_sessions s !! id = Some surface_nonce → has_nonce surface_nonce s.
Proof.
  destruct (sv_sessions s !! id) as [st|] eqn:Hst; cbn; [|done]. intros [= Hn]. by exists id, st.
Qed.

Lemma no_sessions nonce s : sv_sessions s = ∅ → ¬ has_nonce nonce s.
Proof. intros Hs (id & st & Hl & _). by rewrite Hs in Hl. Qed.

