(* ===== verification/SurfaceCalls.v ===== *)
(** * Single calls of the surface token service

    What a call does when no other goroutine interferes: the exact condition
    under which a gateway token is accepted, the effect of closing a surface
    with [ReconcileSurfaceRevocation] and of a retry of that call, the effect
    of revoking a session, and the injectivity of the handshake transcript. *)

From stdpp Require Import pretty.
From S2P Require Import Prelude GoLib Index SessionCtx Bridge BridgeProps BridgeTheorems.
From S2P Require Import Surface SurfaceProps SurfaceTheorems.

Open Scope go_scope.

(** ** Running a method alone *)

Lemma prog_induction {A} (P : Prog A → Prop) :
  (∀ a, P (Ret a)) → (∀ f, (∀ c s, P (f c s).2) → P (Atomic f)) → ∀ p, P p.
Proof.
  intros Hret Hact. fix IH 1. intros [a|f]; [apply Hret|]. apply Hact. intros c s.
  destruct (f c s) as [s' p']. apply IH.
Qed.

Lemma run_bind {A B} c (k : A → Prog B) p s :
  run c (pbind k p) s = let '(s', a) := run c p s in run c (k a) s'.
Proof.
  revert s. induction p as [a|f IH] using prog_induction; intros s; cbn; [done|].
  specialize (IH c s). destruct (f c s) as [s' p']. apply IH.
Qed.

Lemma run_mbind {A B} c (k : A → Prog B) p s :
  run c (p ≫= k) s = let '(s', a) := run c p s in run c (k a) s'.
Proof. apply run_bind. Qed.

Lemma run_locked {A} c (f : Choice → SurfaceTokenService → SurfaceTokenService * A) s :
  run c (locked f) s = f c s.
Proof. cbn. by destruct (f c s). Qed.

Lemma run_tokens {A} c (f : TokenManager → TokenManager * A) s :
  run c (tokens f) s = (set_tokens (f (sv_tokens s)).1 s, (f (sv_tokens s)).2).
Proof. cbn. by destruct (f (sv_tokens s)). Qed.

Lemma or_wall_idemp wall now : or_wall wall (or_wall wall now) = or_wall wall now.
Proof. unfold or_wall, UTC. destruct (IsZero now) eqn:Hz; [by destruct (IsZero wall)|by rewrite Hz]. Qed.

Lemma set_tokens_id s : set_tokens (sv_tokens s) s = s.
Proof. by destruct s. Qed.

(** ** Gateway tokens *)

Section calls.
Context (sha256 : string → string).

(** The token record that makes the surface accept a gateway token. *)
Record accepts (now : time) (req : ValidateSurfaceGatewayTokenRequest) (st : surfaceState)
    (r : TokenRecord) : Prop := {
  acc_kind : tr_Kind r = TokenKindPluginGatewayToken;
  acc_revoked : tr_Revoked r = false;
  acc_unexpired : (now < tr_ExpiresAt r)%Z;
  acc_consumed : tr_Consumed r = false;
  acc_audience : tr_Audience r = audience (st_session st) (vg_BridgeChannelID req);
  acc_revision : tr_Revision r = vg_Revision req;
  acc_id : tr_TokenID r = st_liveGatewayTokenID st;
  acc_bound : tr_BoundBridgeChannelID r = "" ∨ tr_BoundBridgeChannelID r = vg_BridgeChannelID req;
}.

(** The session that the request must name. *)
Record names (now : time) (req : ValidateSurfaceGatewayTokenRequest) (st : surfaceState) : Prop := {
  nm_unexpired : (now < sf_ExpiresAt (st_session st))%Z;
  nm_revision : revision (st_session st) = vg_Revision req;
  nm_channel : st_liveBridgeChannelID st = vg_BridgeChannelID req;
  nm_plugin : sf_PluginInstanceID (st_session st) = vg_PluginInstanceID req;
  nm_scope : sessionScope (st_session st) =
    mkSessionScope (vg_OwnerSessionHash req) (vg_OwnerUserHash req) (vg_OwnerEnvHash req)
      (vg_SessionChannelIDHash req);
}.

Lemma matchesScope_eq s a b c d :
  matchesScope s a b c d = true ↔ sessionScope s = mkSessionScope a b c d.
Proof.
  unfold matchesScope, sessionScope. rewrite !andb_true_iff, !bool_decide_eq_true. naive_solver.
Qed.

Lemma gatewayStateCheck_ok req tid st :
  gatewayStateCheck req tid st = Ok tt ↔
  revision (st_session st) = vg_Revision req ∧ st_liveBridgeChannelID st = vg_BridgeChannelID req ∧
  st_liveGatewayTokenID st = tid ∧ sf_PluginInstanceID (st_session st) = vg_PluginInstanceID req ∧
  sessionScope (st_session st) = mkSessionScope (vg_OwnerSessionHash req) (vg_OwnerUserHash req)
    (vg_OwnerEnvHash req) (vg_SessionChannelIDHash req).
Proof.
  unfold gatewayStateCheck. rewrite <- matchesScope_eq. destruct (matchesScope _ _ _ _ _);
    repeat case_bool_decide; cbn; naive_solver.
Qed.

Lemma Inspect_ok wall m req r :
  Inspect_ sha256 wall m req = Ok r ↔
  TrimSpace (ir_Token req) ≠ "" ∧ tm_records m !! hashToken sha256 (ir_Token req) = Some r ∧
  tr_Kind r = ir_Kind req ∧ tr_Revoked r = false ∧ (or_wall wall (ir_Now req) < tr_ExpiresAt r)%Z ∧
  tr_Consumed r = false.
Proof.
  unfold Inspect_, loadTokenRecordLocked. case_bool_decide; [naive_solver|]. cbn.
  destruct (tm_records m !! _) as [r0|]; [|naive_solver]. rewrite liveRecord_ok. naive_solver.
Qed.

Lemma gatewayAudienceMatches_ok req st ch :
  sf_SurfaceInstanceID (st_session st) = vg_SurfaceInstanceID req → ch = vg_BridgeChannelID req →
  sf_PluginInstanceID (st_session st) = vg_PluginInstanceID req →
  sessionScope (st_session st) = mkSessionScope (vg_OwnerSessionHash req) (vg_OwnerUserHash req)
    (vg_OwnerEnvHash req) (vg_SessionChannelIDHash req) →
  gatewayAudienceMatches req (audience (st_session st) ch) = true.
Proof.
  intros H1 -> H2 H3. unfold sessionScope in H3. injection H3 as ? ? ? ?.
  unfold gatewayAudienceMatches. cbn. rewrite !andb_true_iff, !bool_decide_eq_true. done.
Qed.

(** The last step: the validation by the token manager. *)
Definition gatewayValidation (now : time) (req : ValidateSurfaceGatewayTokenRequest) (st : surfaceState) :
    ValidateRequest :=
  mkValidateRequest TokenKindPluginGatewayToken (vg_GatewayToken req)
    (audience (st_session st) (vg_BridgeChannelID req)) (vg_Revision req) now false
    (Some (mkChannelBinding (vg_BridgeChannelID req))).

Lemma gateway_validation wall now req st m r :
  or_wall wall now = now → st_liveGatewayTokenID st = tr_TokenID r → vg_BridgeChannelID req ≠ "" →
  tm_records m !! hashToken sha256 (vg_GatewayToken req) = Some r →
  (∀ r', (Validate sha256 wall m (gatewayValidation now req st)).2 = Ok r' ↔
     accepts now req st r ∧ r' = set_Bound (vg_BridgeChannelID req) r).
Proof.
  intros Hnow Hid Hch Hr r'.
  destruct (validate_cases sha256 wall m (gatewayValidation now req st)) as [(r0 & Hr0 & Ha & ->)|(Hno & e & ->)];
    cbn in *; rewrite Hnow in *.
  - rewrite Hr in Hr0. injection Hr0 as <-. destruct Ha as (?&?&?&?&?&?&_&Hb). cbn in *.
    specialize (Hb _ eq_refl) as (_&_&Hb). split; [intros [= <-]|by intros [_ ->]]. split; [|done]. by constructor.
  - split; [done|]. intros [Ha _]. exfalso. apply (Hno r Hr). destruct Ha. unfold acceptable. cbn.
    split_and!; try done. intros ch [= <-]. cbn. rewrite acc_audience0. cbn. auto.
Qed.

Lemma gateway_nonblank req :
  anyBlank [vg_GatewayToken req; vg_PluginInstanceID req; vg_SurfaceInstanceID req; vg_BridgeChannelID req] = false →
  TrimSpace (vg_GatewayToken req) ≠ "" ∧ vg_BridgeChannelID req ≠ "".
Proof.
  intros Hb. split; [apply (anyBlank_false _ (vg_GatewayToken req) Hb); set_solver|].
  intros Heq. apply (anyBlank_false _ (vg_BridgeChannelID req)) in Hb; [|set_solver]. by rewrite Heq in Hb.
Qed.

Lemma gateway_accepted c wall s req st r :
  let now := or_wall wall (vg_Now req) in
  svc_ok nobody s →
  anyBlank [vg_GatewayToken req; vg_PluginInstanceID req; vg_SurfaceInstanceID req; vg_BridgeChannelID req] = false →
  sv_sessions s !! vg_SurfaceInstanceID req = Some st → names now req st →
  tm_records (sv_tokens s) !! hashToken sha256 (vg_GatewayToken req) = Some r → accepts now req st r →
  (run c (ValidateSurfaceGatewayToken sha256 wall req) s).2 = Ok (set_Bound (vg_BridgeChannelID req) r).
Proof.
  intros now Hs Hb Hst Hn Hr Ha. destruct (gateway_nonblank req Hb) as [Htok Hch].
  unfold ValidateSurfaceGatewayToken. rewrite Hb. cbv zeta. fold now.
  rewrite run_bind. unfold tokens_Inspect. rewrite run_tokens. cbn [fst snd]. rewrite set_tokens_id.
  rewrite (proj2 (Inspect_ok wall (sv_tokens s) _ r)).
  2: { cbn. unfold now. rewrite or_wall_idemp. by destruct Ha. }
  cbn [liftTok]. rewrite (bool_decide_eq_true_2 _ (acc_revision _ _ _ _ Ha)). cbn [negb].
  rewrite (acc_audience _ _ _ _ Ha), gatewayAudienceMatches_ok; [|by apply (ok_state _ _ Hs) in Hst; apply Hst|done|apply Hn..].
  cbn [negb]. rewrite run_mbind. unfold getState. rewrite run_locked. unfold getStateLocked, expired, Before.
  rewrite Hst, (proj2 (Z.ltb_lt _ _) (nm_unexpired _ _ _ Hn)). cbn [negb].
  rewrite (proj2 (gatewayStateCheck_ok req (tr_TokenID r) st)) by (destruct Hn, Ha; by split_and!).
  unfold ValidateGatewayToken, tokens_Validate. rewrite run_tokens. cbn [au_BridgeChannelID audience].
  fold (gatewayValidation now req st).
  pose proof (gateway_validation wall now req st (sv_tokens s) r (or_wall_idemp _ _)
    (eq_sym (acc_id _ _ _ _ Ha)) Hch Hr (set_Bound (vg_BridgeChannelID req) r)) as [_ Hv].
  specialize (Hv (conj Ha eq_refl)).
  destruct (Validate _ _ _ _) as [m r']. cbn in *. by rewrite Hv.
Qed.

Lemma gateway_accepts_only c wall s req r :
  let now := or_wall wall (vg_Now req) in
  (run c (ValidateSurfaceGatewayToken sha256 wall req) s).2 = Ok r →
  anyBlank [vg_GatewayToken req; vg_PluginInstanceID req; vg_SurfaceInstanceID req; vg_BridgeChannelID req] = false ∧
  ∃ st r0, sv_sessions s !! vg_SurfaceInstanceID req = Some st ∧ names now req st ∧
    tm_records (sv_tokens s) !! hashToken sha256 (vg_GatewayToken req) = Some r0 ∧
    accepts now req st r0 ∧ r = set_Bound (vg_BridgeChannelID req) r0.
Proof.
  intros now. unfold ValidateSurfaceGatewayToken.
  destruct (anyBlank _) eqn:Hb; [done|]. cbv zeta. fold now. destruct (gateway_nonblank req Hb) as [_ Hch].
  rewrite run_bind. unfold tokens_Inspect. rewrite run_tokens. cbn [fst snd]. rewrite set_tokens_id.
  destruct (Inspect_ sha256 wall (sv_tokens s) _) as [r0|e] eqn:Hins; cbn [liftTok]; [|done].
  apply Inspect_ok in Hins as (_ & Hr0 & _). cbn in Hr0.
  destruct (bool_decide (tr_Revision r0 = _)); cbn [negb]; [|done].
  destruct (gatewayAudienceMatches _ _); cbn [negb]; [|done].
  rewrite run_mbind. unfold getState. rewrite run_locked. unfold getStateLocked, expired, Before.
  destruct (sv_sessions s !! _) as [st|] eqn:Hst; [|done].
  destruct (Z.ltb_spec now (sf_ExpiresAt (st_session st))) as [Hlt|Hge]; cbn [negb]; [|done].
  destruct (gatewayStateCheck _ _ _) as [[]|e] eqn:Hck; [|done].
  apply gatewayStateCheck_ok in Hck as (? & ? & Hid & ? & ?).
  unfold ValidateGatewayToken, tokens_Validate. rewrite run_tokens. cbn [au_BridgeChannelID audience].
  fold (gatewayValidation now req st).
  pose proof (gateway_validation wall now req st (sv_tokens s) r0 (or_wall_idemp _ _) Hid Hch Hr0) as Hv.
  destruct (Validate _ _ _ _) as [m [r'|e]]; cbn in *; [|done]. intros [= <-].
  destruct (proj1 (Hv r') eq_refl) as [Ha ->]. split; [done|]. exists st, r0. by split_and!.
Qed.

(** Gateway tokens are accepted exactly. In every state that satisfies the
    invariant of the service, [ValidateSurfaceGatewayToken], running alone,
    accepts a token if and only if no required field of the request is blank,
    the named surface is open, unexpired, bound to the channel of the request
    and owned by its session, plugin and revision, and the token has a live,
    unexpired record whose audience is that session with that channel and whose
    id is the current gateway token of the session. It then returns that record
    bound to the channel. So all tokens a surface accepts at a time have the
    same id. *)
Theorem gateway_token_exact c wall s req r :
  svc_ok nobody s →
  let now := or_wall wall (vg_Now req) in
  ((run c (ValidateSurfaceGatewayToken sha256 wall req) s).2 = Ok r ↔
   anyBlank [vg_GatewayToken req; vg_PluginInstanceID req; vg_SurfaceInstanceID req; vg_BridgeChannelID req] = false ∧
   ∃ st r0, sv_sessions s !! vg_SurfaceInstanceID req = Some st ∧ names now req st ∧
     tm_records (sv_tokens s) !! hashToken sha256 (vg_GatewayToken req) = Some r0 ∧
     accepts now req st r0 ∧ r = set_Bound (vg_BridgeChannelID req) r0) ∧
  (∀ c' wall' req' r', vg_SurfaceInstanceID req' = vg_SurfaceInstanceID req →
     (run c (ValidateSurfaceGatewayToken sha256 wall req) s).2 = Ok r →
     (run c' (ValidateSurfaceGatewayToken sha256 wall' req') s).2 = Ok r' → tr_TokenID r' = tr_TokenID r).
Proof.
  intros Hs now. split; [split|].
  - apply gateway_accepts_only.
  - intros (Hb & st & r0 & ? & ? & ? & ? & ->). by apply (gateway_accepted c wall s req st r0).
  - intros c' wall' req' r' Hid (_ & st & r0 & Hst & _ & _ & Ha & ->)%gateway_accepts_only
      (_ & st' & r1 & Hst' & _ & _ & Ha' & ->)%gateway_accepts_only.
    rewrite Hid, Hst in Hst'. injection Hst' as <-. cbn. destruct Ha, Ha'. congruence.
Qed.

End calls.

(** ** Closing a surface *)

(** No token of the session, whatever its channel, is live. *)
Definition generation_dead (session : SurfaceSession) (m : TokenManager) : Prop :=
  ∀ h r, tm_records m !! h = Some r →
    tokenMatchesSurfaceGeneration r (audience session "") (revision session) = true → tr_Revoked r = true.

Lemma blank_key e p i :
  TrimSpace e ≠ "" → TrimSpace p ≠ "" → TrimSpace i ≠ "" → ∃ key, ownerSurfaceIndexKey e p i = Ok key.
Proof.
  intros He Hp Hi. unfold ownerSurfaceIndexKey, ownerPluginIndexKey. cbv zeta.
  rewrite !bool_decide_eq_false_2 by done. cbn. eauto.
Qed.

Lemma session_key id st :
  state_ok id st → ∃ key, ownerSurfaceIndexKey (sf_OwnerEnvHash (st_session st))
    (sf_PluginInstanceID (st_session st)) (sf_SurfaceInstanceID (st_session st)) = Ok key.
Proof. intros Hst. apply blank_key; apply (anyBlank_false _ _ (sok_blank _ _ Hst)); set_solver. Qed.

Lemma generation_revoked wall id st now m :
  tok_wf m → state_ok id st → TrimSpace (sf_AssetSessionNonce (st_session st)) ≠ "" →
  generation_dead (st_session st) (RevokeSurfaceGeneration wall m (st_session st) now).1.
Proof.
  intros Hm Hst Hn h r Hr Hmatch. destruct (session_key _ _ Hst) as [key Hkey].
  destruct (surface_revocation_loop (λ x, x) wall m (st_session st) now key Hm Hkey) as [_ Hl].
  rewrite (Hl Hn) in Hr. destruct (tm_records m !! h) as [r0|]; [|done]. cbn in Hr. injection Hr as Hr.
  unfold revoke_if in Hr. case_match eqn:Hsel; subst r; [done|].
  destruct (tr_Revoked r0) eqn:Hv; [done|]. rewrite Hmatch, andb_true_r, andb_true_r in Hsel.
  go_bools. exfalso. apply Hsel. unfold surface_key, tokenSurfaceIndexKey.
  unfold tokenMatchesSurfaceGeneration in Hmatch. go_bools. cbn in *.
  repeat match goal with H : _ = sf_OwnerEnvHash _ |- _ => rewrite H
    | H : _ = sf_PluginInstanceID _ |- _ => rewrite H | H : _ = sf_SurfaceInstanceID _ |- _ => rewrite H end.
  by rewrite Hkey.
Qed.

Definition retried (now : time) (req : DisposeSurfaceRequest) : DisposeSurfaceRequest :=
  mkDispose (ds_SurfaceInstanceID req) (ds_BridgeNonce req) (ds_OwnerSessionHash req)
    (ds_OwnerUserHash req) (ds_OwnerEnvHash req) (ds_SessionChannelIDHash req) now.

(** A retained closure answers a retry until it expires. *)
Lemma reconcile_retained c wall s req closure :
  let now := or_wall wall (ds_Now req) in
  disposeBlank req = false → sv_sessions s !! ds_SurfaceInstanceID req = None →
  sv_closures s !! ds_SurfaceInstanceID req = Some closure → closureMatches req closure = true →
  (now < cl_expiresAt closure)%Z →
  run c (ReconcileSurfaceRevocation wall req) s =
    (pruneClosures now s,
     Ok (mkReconcileResult SurfaceRevocationStateClosed SurfaceRevocationStateClosed false)).
Proof.
  intros now Hb Hs Hc Hm Ht. unfold ReconcileSurfaceRevocation. rewrite Hb. cbv zeta. fold now.
  rewrite run_mbind, run_locked. unfold reconcileLocked. cbn [sv_sessions pruneClosures set_closures].
  rewrite Hs. cbn [sv_closures pruneClosures set_closures].
  assert (filter (λ '(_, closure), Before now (cl_expiresAt closure) = true) (sv_closures s)
    !! ds_SurfaceInstanceID req = Some closure) as ->.
  { apply map_lookup_filter_Some. split; [done|]. by apply Z.ltb_lt. }
  by rewrite Hm.
Qed.

(** closing a surface. In a state that satisfies the invariant,
    [ReconcileSurfaceRevocation] on an open, unexpired session that its request
    names by nonce and owner reports that it closed an active surface, removes
    that session and no other, and leaves no live token of it; a retry of the
    request, at any time before the closure expires, reports that the surface
    is closed and changes no session and no token. [DisposeBoundSurface] removes
    the same session and the same tokens. *)
Theorem surface_closing c wall s req st :
  let now := or_wall wall (ds_Now req) in
  svc_ok nobody s → disposeBlank req = false →
  sv_sessions s !! ds_SurfaceInstanceID req = Some st → disposeMatches req st = true →
  (now < sf_ExpiresAt (st_session st))%Z → TrimSpace (sf_AssetSessionNonce (st_session st)) ≠ "" →
  (let '(s1, r1) := run c (ReconcileSurfaceRevocation wall req) s in
   r1 = Ok (mkReconcileResult SurfaceRevocationStateClosed SurfaceRevocationStateActive true) ∧
   sv_sessions s1 = delete (ds_SurfaceInstanceID req) (sv_sessions s) ∧
   generation_dead (st_session st) (sv_tokens s1) ∧
   ∀ c' wall' now', (or_wall wall' now' < now + DefaultSurfaceClosureTTL)%Z →
     run c' (ReconcileSurfaceRevocation wall' (retried now' req)) s1 =
       (pruneClosures (or_wall wall' now') s1,
        Ok (mkReconcileResult SurfaceRevocationStateClosed SurfaceRevocationStateClosed false))) ∧
  (let '(s1, r1) := run c (DisposeBoundSurface wall req) s in
   r1 = Ok tt ∧ sv_sessions s1 = delete (ds_SurfaceInstanceID req) (sv_sessions s) ∧
   generation_dead (st_session st) (sv_tokens s1)).
Proof.
  intros now Hs Hb Hst Hm Ht Hn. pose proof (proj1 (ok_state _ _ Hs _ _ Hst)) as Hok.
  assert (expired now st = false) as Hexp.
  { unfold expired, Before. by rewrite (proj2 (Z.ltb_lt _ _) Ht). }
  split.
  - unfold ReconcileSurfaceRevocation at 1. rewrite Hb. cbv zeta. fold now.
    rewrite run_mbind, run_locked. unfold reconcileLocked. cbn [sv_sessions pruneClosures set_closures].
    rewrite Hst, Hexp, Hm. cbn [negb]. set (closure := mkSurfaceClosure _ _ _ _ _ _).
    set (s1 := set_tokens _ _).
    destruct (retain_fields (ds_SurfaceInstanceID req) closure c s1) as (Htok & _ & Hses & Hcl).
    set (s2 := retainSurfaceClosureLocked _ _ _ s1) in *. cbn [revokeSessions mret prog_ret run].
    assert (sv_sessions s2 = delete (ds_SurfaceInstanceID req) (sv_sessions s)) as Hdel.
    { rewrite Hses. exact (delete_sessions _ (pruneClosures now s)). }
    split_and!; [done|done| |].
    + rewrite Htok. cbn. rewrite delete_tokens. eapply generation_revoked; [apply Hs|done|done].
    + intros c' wall' now' Hlt. apply (reconcile_retained c' wall' s2 (retried now' req) closure); try done.
      * rewrite Hdel. apply lookup_delete_eq.
      * unfold closureMatches. cbn. by rewrite !bool_decide_eq_true_2.
  - unfold DisposeBoundSurface. rewrite Hb. cbv zeta. fold now. rewrite run_mbind, run_locked.
    unfold disposeBoundLocked. rewrite Hst, Hexp, Hm. cbn [negb revokeSessions].
    rewrite run_mbind, run_mbind. unfold revokeSurfaceTokens. rewrite run_tokens. cbn [run mret prog_ret].
    split_and!; [done|apply delete_sessions|]. cbn. rewrite delete_tokens.
    eapply generation_revoked; [apply Hs|done|done].
Qed.


(** ** Revoking a session *)

Definition in_scope (scope : SessionScope) (st : surfaceState) : bool :=
  bool_decide (sessionScope (st_session st) = scope).

(** The preview count of a list of identifiers. *)
Definition count_open (sessions : gmap string surfaceState) (surfaces : Z) (id : string) : Z :=
  if bool_decide (sessions !! id = None) then surfaces else incr64 surfaces.

Lemma count_open_ext m m' l n :
  (∀ id, id ∈ l → m !! id = m' !! id) → foldl (count_open m) n l = foldl (count_open m') n l.
Proof.
  revert n. induction l as [|id l IH]; intros n Hl; cbn; [done|].
  unfold count_open at 2 4. rewrite (Hl id) by left. apply IH. intros. apply Hl. by right.
Qed.

Lemma revokeScopeStep_spec s n id :
  let '(s', n') := revokeScopeStep (s, n) id in
  sv_tokens s' = sv_tokens s ∧ sv_sessions s' = delete id (sv_sessions s) ∧
  n' = count_open (sv_sessions s) n id.
Proof.
  unfold revokeScopeStep, deleteSurfaceStateLocked, count_open. cbn.
  destruct (sv_sessions s !! id) eqn:Hid; cbn; [done|]. by rewrite delete_id.
Qed.

Lemma revokeScope_loop l s n :
  NoDup l →
  let '(s', n') := foldl revokeScopeStep (s, n) l in
  sv_tokens s' = sv_tokens s ∧ sv_sessions s' = filter (λ '(id, _), id ∉ l) (sv_sessions s) ∧
  n' = foldl (count_open (sv_sessions s)) n l.
Proof.
  revert s n. induction l as [|id l IH]; intros s n Hnd; cbn [foldl].
  { split_and!; [done| |done]. symmetry. apply map_filter_id. intros i x _. apply not_elem_of_nil. }
  apply NoDup_cons in Hnd as [Hid Hnd]. pose proof (revokeScopeStep_spec s n id) as Hstep.
  destruct (revokeScopeStep (s, n) id) as [s1 n1]. destruct Hstep as (Ht1 & Hs1 & Hn1).
  specialize (IH s1 n1 Hnd). destruct (foldl revokeScopeStep _ l) as [s' n']. destruct IH as (Ht & Hs & Hn).
  rewrite Ht1 in Ht. rewrite Hs1 in Hs, Hn. rewrite Hn1 in Hn. split_and!; [done| |].
  - rewrite Hs. apply map_eq. intros i. apply option_eq. intros x.
    rewrite !map_lookup_filter_Some, lookup_delete_Some, not_elem_of_cons. naive_solver.
  - rewrite Hn. apply count_open_ext. intros i Hi. rewrite lookup_delete_ne; [done|by intros ->].
Qed.

(** The records after the manager has revoked a session. *)
Lemma scope_records wall m scope now h :
  tok_wf m → SessionScope_Valid scope = true →
  tm_records (RevokeSessionScope wall m scope now).1 !! h =
  (λ r, if decide (in_session r scope) then revoke_if (λ _, true) (or_wall wall now) r else r) <$>
    tm_records m !! h.
Proof.
  intros Hm Hv. destruct (RevokeSessionScope_spec wall m scope now Hm Hv) as (_ & _ & _ & Hl & _).
  rewrite Hl. destruct (tm_records m !! h) as [r|] eqn:Hr; [|by case_decide]. cbn.
  destruct (tr_Revoked r) eqn:Hrv.
  { unfold revoke_if. rewrite Hrv. cbn. by repeat case_decide. }
  destruct (decide (in_session r scope)) as [Hs|Hs].
  - rewrite decide_True; [done|]. by eapply (core_live _ (proj1 Hm)).
  - rewrite decide_False; [done|]. intros Hin.
    destruct (core_session _ (proj1 Hm) _ _ Hin) as (r' & Hr' & Hs'). congruence.
Qed.

(** The identifiers of the index are those of the open sessions of the scope. *)
Lemma scope_sessions N s scope :
  svc_ok N s →
  filter (λ '(id, _), id ∉ elements (index_get (sv_sessionIndex s) scope)) (sv_sessions s) =
  filter (λ '(_, st), in_scope scope st = false) (sv_sessions s).
Proof.
  intros Hs. apply map_eq. intros id. apply option_eq. intros st. rewrite !map_lookup_filter_Some.
  rewrite elem_of_elements, (proj2 (ok_index _ _ Hs)). unfold in_scope. rewrite bool_decide_eq_false.
  naive_solver congruence.
Qed.

(** revoking a session closes its surfaces and tokens, exactly. In a state
    that satisfies the invariant, [RevokeSessionScope] of a valid scope removes
    the sessions of that scope and no other, revokes every token of the scope
    and leaves the other tokens as they are, and returns the counts that
    [PreviewSessionScopeRevocation] gives just before. *)
Theorem session_scope_closed c wall s scope now :
  svc_ok nobody s → SessionScope_Valid scope = true →
  let '(s', r) := run c (Service_RevokeSessionScope wall scope now) s in
  sv_sessions s' = filter (λ '(_, st), in_scope scope st = false) (sv_sessions s) ∧
  (∀ h, tm_records (sv_tokens s') !! h =
     (λ r, if decide (in_session r scope) then revoke_if (λ _, true) (or_wall wall now) r else r) <$>
       tm_records (sv_tokens s) !! h) ∧
  r = (run c (Service_PreviewSessionScopeRevocation scope) s).2.
Proof.
  intros Hs Hv. unfold Service_RevokeSessionScope, Service_PreviewSessionScopeRevocation.
  pose proof Hv as Hv'. unfold SessionScope_Valid in Hv'. destruct (SessionScope_Validate scope) as [[]|]; [|done].
  rewrite !run_locked. unfold revokeScopeLocked, previewScopeLocked. cbv zeta.
  set (s0 := mkService _ _ _ _ _ 0). change (sv_sessionIndex s0) with (sv_sessionIndex s).
  set (l := elements (index_get (sv_sessionIndex s) scope)).
  pose proof (revokeScope_loop l s0 0 (NoDup_elements _)) as Hloop.
  destruct (foldl revokeScopeStep _ l) as [s1 n]. destruct Hloop as (Ht & Hses & Hn). cbn in Ht, Hses, Hn.
  pose proof (λ h, scope_records wall (sv_tokens s) scope (or_wall wall now) h (ok_tokens _ _ Hs) Hv) as Hrec.
  destruct (RevokeSessionScope_spec wall (sv_tokens s) scope (or_wall wall now) (ok_tokens _ _ Hs) Hv)
    as (_ & _ & _ & _ & _ & Hcount). rewrite or_wall_idemp in Hrec. rewrite Ht, <- Hcount.
  unfold l in Hses. rewrite (scope_sessions _ _ _ Hs) in Hses.
  destruct (RevokeSessionScope wall (sv_tokens s) scope _) as [m [counts|e]]; cbn in *;
    (split_and!; [done|done|]); [|done]. subst n. done.
Qed.

(** ** The handshake transcript *)

Definition colon : Ascii.ascii := byte 58.

Lemma pretty_N_go_colon x s :
  colon ∈ String.list_ascii_of_string (pretty_N_go x s) → colon ∈ String.list_ascii_of_string s.
Proof.
  revert s. induction (N.lt_wf_0 x) as [x _ IH]; intros s.
  assert (x = 0 ∨ 0 < x)%N as [->|Hx] by lia; [by rewrite pretty_N_go_0|].
  rewrite pretty_N_go_step by done. intros Hc%IH; [|by apply N.div_lt]. cbn in Hc.
  apply elem_of_cons in Hc as [Hc|?]; [|done]. exfalso. revert Hc. unfold pretty_N_char. by repeat case_match.
Qed.

(** A length in decimal has no colon. *)
Lemma pretty_length_colon n : colon ∉ String.list_ascii_of_string (pretty (Z.of_nat n)).
Proof.
  destruct n as [|n]; cbn.
  - intros Hc. apply elem_of_cons in Hc as [?|Hc]; [done|]. by apply elem_of_nil in Hc.
  - unfold pretty, pretty_positive, pretty, pretty_N. cbn. intros Hc%pretty_N_go_colon. cbn in Hc.
    by apply elem_of_nil in Hc.
Qed.

Lemma length_list_ascii s : length (String.list_ascii_of_string s) = String.length s.
Proof. induction s; cbn; congruence. Qed.

Lemma transcriptField_inj f1 f2 r1 r2 :
  transcriptField f1 +:+ r1 = transcriptField f2 +:+ r2 → f1 = f2 ∧ r1 = r2.
Proof.
  intros Heq. apply (f_equal String.list_ascii_of_string) in Heq. unfold transcriptField in Heq.
  rewrite !list_ascii_app in Heq. cbn in Heq. rewrite <- !app_assoc in Heq. cbn in Heq. fold colon in Heq.
  apply app_sep_inj in Heq as [Hlen Heq]; [|apply pretty_length_colon..].
  apply list_ascii_inj, (inj pretty), Nat2Z.inj in Hlen. rewrite <- !app_assoc in Heq.
  apply app_inj_1 in Heq as [Hf Hr]; [|by rewrite !length_list_ascii]. cbn in Hr. injection Hr as Hr.
  split; by apply list_ascii_inj.
Qed.

Lemma transcript_fields_inj l1 l2 :
  length l1 = length l2 →
  foldr (λ field rest, transcriptField field +:+ rest) "" l1 =
  foldr (λ field rest, transcriptField field +:+ rest) "" l2 → l1 = l2.
Proof.
  revert l2. induction l1 as [|f1 l1 IH]; intros [|f2 l2] Hlen Heq; try done.
  apply transcriptField_inj in Heq as [-> Heq]. f_equal. apply IH; [by injection Hlen|done].
Qed.

Lemma transcript_inj h1 c1 h2 c2 : transcript h1 c1 = transcript h2 c2 → h1 = h2 ∧ c1 = c2.
Proof.
  intros Heq. apply transcript_fields_inj in Heq; [|done]. destruct h1, h2. unfold transcriptFields in Heq.
  cbn in Heq. injection Heq as -> -> -> -> -> -> Hm Hr ->.
  apply (inj pretty) in Hm as ->. by apply (inj pretty) in Hr as ->.
Qed.

Lemma hex_digit_inj n m : n < 16 → m < 16 → hex_digit n = hex_digit m → n = m.
Proof.
  intros Hn Hm Heq. apply (f_equal Ascii.nat_of_ascii) in Heq. unfold hex_digit, byte in Heq.
  revert Heq. destruct (Nat.ltb_spec n 10), (Nat.ltb_spec m 10); rewrite !Ascii.nat_ascii_embedding; lia.
Qed.

Lemma hex_encode_inj x y : hex_encode x = hex_encode y → x = y.
Proof.
  intros Heq. apply (f_equal String.list_ascii_of_string) in Heq. unfold hex_encode in Heq.
  rewrite !list_ascii_of_list in Heq. apply list_ascii_inj. revert Heq.
  generalize (String.list_ascii_of_string x) (String.list_ascii_of_string y). clear.
  intros l1. induction l1 as [|a l1 IH]; intros [|b l2] Heq; try done. cbn [flat_map app] in Heq.
  injection Heq as Hhi Hlo Heq.
  assert (Ascii.nat_of_ascii a < 256 ∧ Ascii.nat_of_ascii b < 256) as [Ha Hb]
    by (split; apply Ascii.nat_ascii_bounded).
  apply (hex_digit_inj (Ascii.nat_of_ascii a / 16) (Ascii.nat_of_ascii b / 16)) in Hhi;
    [|by apply Nat.Div0.div_lt_upper_bound..].
  apply (hex_digit_inj (Ascii.nat_of_ascii a mod 16) (Ascii.nat_of_ascii b mod 16)) in Hlo;
    [|by apply Nat.mod_upper_bound..].
  assert (Ascii.nat_of_ascii a = Ascii.nat_of_ascii b) as Hab.
  { rewrite (Nat.div_mod_eq (Ascii.nat_of_ascii a) 16), (Nat.div_mod_eq (Ascii.nat_of_ascii b) 16). lia. }
  apply (f_equal Ascii.ascii_of_nat) in Hab. rewrite !Ascii.ascii_nat_embedding in Hab. subst b.
  f_equal. by apply IH.
Qed.

(** the handshake transcript binds every field. Two handshakes with their
    channels have the same transcript hash only if all their fields and the
    channels are equal, or else their transcripts are a collision of SHA-256.
    The transcript itself is injective: no byte of one field can be read as part
    of another. *)
Theorem handshake_transcript_binding sha256 h1 c1 h2 c2 :
  (transcript h1 c1 = transcript h2 c2 ↔ h1 = h2 ∧ c1 = c2) ∧
  (HandshakeTranscriptSHA256 sha256 h1 c1 = HandshakeTranscriptSHA256 sha256 h2 c2 →
   (h1 = h2 ∧ c1 = c2) ∨
   (transcript h1 c1 ≠ transcript h2 c2 ∧ sha256 (transcript h1 c1) = sha256 (transcript h2 c2))).
Proof.
  split; [split; [apply transcript_inj|by intros [-> ->]]|].
  unfold HandshakeTranscriptSHA256. intros Heq.
  assert (sha256 (transcript h1 c1) = sha256 (transcript h2 c2)) as Hsha.
  { apply hex_encode_inj, list_ascii_inj. apply (f_equal String.list_ascii_of_string) in Heq.
    rewrite !list_ascii_app in Heq. by apply app_inv_head in Heq. }
  destruct (decide (transcript h1 c1 = transcript h2 c2)) as [Ht|]; [left; by apply transcript_inj|by right].
Qed.

(** ** Witnesses *)

(** Calls one after the other. *)
Definition serve (s : SurfaceTokenService) (calls : list Request) : SurfaceTokenService :=
  foldl (λ s q, (run first (program sample_sha q) s).1) s calls.

Lemma run_keeps {A} N D (Q : A → Prop) c p s :
  post (svc_ok N) (adds D) Q p → svc_ok N s → svc_ok N (run c p s).1.
Proof.
  intros Hp. revert s. induction Hp as [a Ha|f Hi _ _ IH]; intros s Hs; cbn; [done|].
  specialize (Hi c s Hs). specialize (IH c s Hs). destruct (f c s). by apply IH.
Qed.

Lemma serve_ok s calls : svc_ok nobody s → svc_ok nobody (serve s calls).
Proof.
  revert s. induction calls as [|q calls IH]; intros s Hs; cbn; [done|]. apply IH.
  eapply run_keeps; [|done]. by apply (program_within sample_sha (λ _, True)).
Qed.

(** A surface that is opened, prepared and bound to a channel. *)
Definition env_of (id : string) : MintEnv := mkMintEnv 1 1 (Some id) (Some "nonce") (Some "secret").

Definition opened : SurfaceTokenService :=
  serve (NewSurfaceTokenService None surface_options)
    [ReqOpenSurface (mkOpenEnv 1 (Some "bridge") (Some "asset") (env_of "t")) surface_open].

Definition ticket : string := "asset_ticket.at_dA.c2VjcmV0".
Definition asset_session_id : string := "as_YQ".
Definition gateway_token : string := "plugin_gateway_token.pgt_Zw.c2VjcmV0".

Definition surface_handshake : Handshake :=
  mkHandshake "p" "sf" "sfi" "fp" (base64_raw_url "bridge") (base64_raw_url "asset") 1 3.

Definition bound : SurfaceTokenService :=
  serve opened
    [ReqExchangeAssetTicket 1 (env_of "a") (mkExchange "sfi" ticket "sess" "user" "env" "chan" 200);
     ReqMarkSurfacePrepared 1 (mkMarkPrepared "sfi" asset_session_id (base64_raw_url "bridge") "sess" "user"
       "env" "chan" 300);
     ReqMintGatewayToken 1 (env_of "b") (env_of "g")
       (mkMintGateway surface_handshake "ch" (HandshakeTranscriptSHA256 sample_sha surface_handshake "ch") ""
          400)].

Definition gateway_request : ValidateSurfaceGatewayTokenRequest :=
  mkValidateSurfaceGateway gateway_token "inst" "sfi" "sess" "user" "env" "chan" "ch" sample_revision 500.

Lemma bound_ok : svc_ok nobody bound.
Proof. apply serve_ok, serve_ok, new_service_ok. intros m Hm. discriminate Hm. Qed.

Lemma gateway_token_exact_witness :
  ∃ r st r0, (run first (ValidateSurfaceGatewayToken sample_sha 1 gateway_request) bound).2 = Ok r ∧
    sv_sessions bound !! "sfi" = Some st ∧ accepts 500 gateway_request st r0 ∧ r = set_Bound "ch" r0.
Proof.
  destruct ((run first (ValidateSurfaceGatewayToken sample_sha 1 gateway_request) bound).2) as [r|e] eqn:Hr.
  2: { vm_compute in Hr. discriminate Hr. }
  destruct (gateway_token_exact sample_sha first 1 bound gateway_request r bound_ok) as [[Hiff _] _].
  destruct (Hiff Hr) as (_ & st & r0 & Hst & _ & _ & Ha & Heq). exists r, st, r0. split_and!; [done|done| |done].
  exact Ha.
Defined.

Definition surface_dispose : DisposeSurfaceRequest :=
  mkDispose "sfi" (base64_raw_url "bridge") "sess" "user" "env" "chan" 600.

Lemma surface_closing_witness :
  (run first (ReconcileSurfaceRevocation 1 surface_dispose) bound).2 =
    Ok (mkReconcileResult SurfaceRevocationStateClosed SurfaceRevocationStateActive true) ∧
  (run first (DisposeBoundSurface 1 surface_dispose) bound).2 = Ok tt.
Proof.
  destruct (sv_sessions bound !! "sfi") as [st|] eqn:Hst; [|vm_compute in Hst; discriminate Hst].
  assert (Some st = sv_sessions bound !! "sfi") as Hval by by rewrite Hst.
  vm_compute in Hval. injection Hval as Hval.
  destruct (surface_closing first 1 bound surface_dispose st) as [H1 H2].
  - exact bound_ok.
  - vm_compute. reflexivity.
  - exact Hst.
  - rewrite Hval. vm_compute. reflexivity.
  - rewrite Hval. vm_compute. reflexivity.
  - rewrite Hval. vm_compute. discriminate.
  - destruct (run first (ReconcileSurfaceRevocation 1 surface_dispose) bound) as [s1 r1].
    destruct (run first (DisposeBoundSurface 1 surface_dispose) bound) as [s2 r2].
    split; [exact (proj1 H1)|exact (proj1 H2)].
Defined.

Lemma session_scope_closed_witness :
  size (sv_sessions bound) = 1 ∧
  sv_sessions (run first (Service_RevokeSessionScope 1 sample_scope 700) bound).1 =
    filter (λ '(_, st), in_scope sample_scope st = false) (sv_sessions bound).
Proof.
  split; [vm_compute; reflexivity|].
  pose proof (session_scope_closed first 1 bound sample_scope 700 bound_ok) as H.
  destruct (run first (Service_RevokeSessionScope 1 sample_scope 700) bound) as [s' r].
  apply H. vm_compute. reflexivity.
Defined.

Lemma handshake_transcript_binding_witness :
  transcript (mkHandshake "p1" "sf" "sfi" "fp" "bn" "an" 1 3) "ch" ≠
  transcript (mkHandshake "p" "1sf" "sfi" "fp" "bn" "an" 1 3) "ch".
Proof.
  destruct (handshake_transcript_binding sample_sha (mkHandshake "p1" "sf" "sfi" "fp" "bn" "an" 1 3) "ch"
    (mkHandshake "p" "1sf" "sfi" "fp" "bn" "an" 1 3) "ch") as [[H _] _].
  intros Heq. destruct (H Heq) as [Hh _]. discriminate Hh.
Defined.
