(* ===== verification/Confirmation.v ===== *)
(** * pkg/security/confirmation.go: pending confirmation intents

    The in-memory store of the intents a user has still to confirm: put under
    three capacity limits, consumed or rejected once, revoked by plugin or by
    session. It keeps the records, an index and a counter per (environment,
    plugin) and per session, and the counts of the session revocations that
    are not finalized yet. The store's clock [s.now] is the argument [wall]. *)

From S2P Require Import Prelude GoLib Index SessionCtx.

Open Scope go_scope.

Definition DefaultMaxPendingConfirmationIntents : Z := 4096.
Definition DefaultMaxPendingConfirmationIntentsPerOwnerPlugin : Z := 64.
Definition DefaultMaxPendingConfirmationIntentsPerSession : Z := 16.
Definition HardMaxPendingConfirmationIntents : Z := 65536.
Definition HardMaxPendingConfirmationIntentsPerOwnerPlugin : Z := 1024.
Definition HardMaxPendingConfirmationIntentsPerSession : Z := 64.
Definition DefaultMaxConfirmationSessionRevocations : Z := 4096.
Definition HardMaxConfirmationSessionRevocations : Z := 65536.

Inductive ConfErr :=
| ErrInvalidConfirmationIntent
| ErrConfirmationStoreSchema
| ErrConfirmationIntentNotFound
| ErrConfirmationIntentExpired
| ErrConfirmationIntentScopeMismatch
| ErrConfirmationIntentCapacity.

#[export] Instance ConfErr_eq_dec : EqDecision ConfErr.
Proof. solve_decision. Defined.

Record ConfirmationScope := mkConfirmationScope {
  cfs_ActiveFingerprint : string;
  cfs_OwnerSessionHash : string;
  cfs_OwnerUserHash : string;
  cfs_OwnerEnvHash : string;
  cfs_SessionChannelIDHash : string;
  cfs_PolicyRevision : Z;
  cfs_ManagementRevision : Z;
  cfs_RevokeEpoch : Z;
  cfs_TargetDescriptorSHA256 : string;
}.

#[export] Instance ConfirmationScope_eq_dec : EqDecision ConfirmationScope.
Proof. solve_decision. Defined.

Record ConfirmationIntentRecord := mkConfirmationIntentRecord {
  ci_ConfirmationID : string;
  ci_ConfirmationTokenID : string;
  ci_PluginID : string;
  ci_PluginInstanceID : string;
  ci_SurfaceInstanceID : string;
  ci_BridgeChannelID : string;
  ci_Method : string;
  ci_RequestHash : string;
  ci_PlanHash : string;
  ci_Scope : ConfirmationScope;
  ci_IssuedAt : time;
  ci_ExpiresAt : time;
}.

#[export] Instance ConfirmationIntentRecord_eq_dec : EqDecision ConfirmationIntentRecord.
Proof. solve_decision. Defined.

Record PutConfirmationIntentRequest := mkPutConfirmationIntentRequest {
  pc_ConfirmationID : string;
  pc_ConfirmationTokenID : string;
  pc_PluginID : string;
  pc_PluginInstanceID : string;
  pc_SurfaceInstanceID : string;
  pc_BridgeChannelID : string;
  pc_Method : string;
  pc_RequestHash : string;
  pc_PlanHash : string;
  pc_Scope : ConfirmationScope;
  pc_IssuedAt : time;
  pc_ExpiresAt : time;
  pc_Now : time;
}.

Record ConsumeConfirmationIntentRequest := mkConsumeConfirmationIntentRequest {
  cc_ConfirmationID : string;
  cc_SessionScope : SessionScope;
  cc_Now : time;
}.

Record RejectConfirmationIntentRequest := mkRejectConfirmationIntentRequest {
  rc_ConfirmationID : string;
  rc_PluginInstanceID : string;
  rc_SurfaceInstanceID : string;
  rc_BridgeChannelID : string;
  rc_ActiveFingerprint : string;
  rc_OwnerSessionHash : string;
  rc_OwnerUserHash : string;
  rc_OwnerEnvHash : string;
  rc_SessionChannelIDHash : string;
  rc_PolicyRevision : Z;
  rc_ManagementRevision : Z;
  rc_RevokeEpoch : Z;
  rc_Now : time;
}.

Record RevokePluginConfirmationIntentsRequest := mkRevokePluginConfirmationIntentsRequest {
  rpc_PluginInstanceID : string;
  rpc_OwnerEnvHash : string;
  rpc_Now : time;
}.

Record RevokeSessionConfirmationIntentsRequest := mkRevokeSessionConfirmationIntentsRequest {
  rsc_SessionScope : SessionScope;
  rsc_TeardownOperationID : string;
  rsc_Now : time;
}.

Record FinalizeSessionConfirmationRevocationRequest :=
  mkFinalizeSessionConfirmationRevocationRequest {
  fsc_SessionScope : SessionScope;
  fsc_TeardownOperationID : string;
}.

Record ConfirmationIntentStoreOptions := mkConfirmationIntentStoreOptions {
  co_MaxTotal : Z;
  co_MaxPerOwnerPlugin : Z;
  co_MaxPerSession : Z;
  co_MaxSessionRevocations : Z;
}.

Definition or_default (default_ value : Z) : Z := if (value =? 0)%Z then default_ else value.

Definition normalizeConfirmationIntentStoreOptions (options : ConfirmationIntentStoreOptions) :
    Result ConfErr ConfirmationIntentStoreOptions :=
  let total := or_default DefaultMaxPendingConfirmationIntents (co_MaxTotal options) in
  let plugin :=
    or_default DefaultMaxPendingConfirmationIntentsPerOwnerPlugin (co_MaxPerOwnerPlugin options) in
  let session :=
    or_default DefaultMaxPendingConfirmationIntentsPerSession (co_MaxPerSession options) in
  let revocations :=
    or_default DefaultMaxConfirmationSessionRevocations (co_MaxSessionRevocations options) in
  if ((total <? 1) || (HardMaxPendingConfirmationIntents <? total) ||
      (plugin <? 1) || (HardMaxPendingConfirmationIntentsPerOwnerPlugin <? plugin) ||
      (session <? 1) || (HardMaxPendingConfirmationIntentsPerSession <? session) ||
      (revocations <? 1) || (HardMaxConfirmationSessionRevocations <? revocations) ||
      (total <? plugin) || (plugin <? session))%Z
  then Err ErrConfirmationIntentCapacity
  else Ok (mkConfirmationIntentStoreOptions total plugin session revocations).

(** Struct keys of Go maps: the environment hash and the plugin instance; the
    session scope and the teardown operation. *)
Definition confirmationOwnerPluginKey : Type := string * string.
Definition confirmationSessionRevocationKey : Type := SessionScope * string.

Record MemoryConfirmationIntentStore := mkConfStore {
  cst_options : ConfirmationIntentStoreOptions;
  cst_records : gmap string ConfirmationIntentRecord;
  cst_ownerPluginCount : gmap (string * string) Z;
  cst_ownerPluginIndex : Index (string * string);
  cst_sessionCount : gmap SessionScope Z;
  cst_sessionIndex : Index SessionScope;
  cst_sessionRevocations : gmap (SessionScope * string) Z;
}.

Definition NewMemoryConfirmationIntentStoreWithOptions (options : ConfirmationIntentStoreOptions) :
    Result ConfErr MemoryConfirmationIntentStore :=
  let? normalized := normalizeConfirmationIntentStoreOptions options in
  Ok (mkConfStore normalized ∅ ∅ ∅ ∅ ∅ ∅).

(** ** Keys and matching *)

Definition confirmationSessionScope (scope : ConfirmationScope) : SessionScope :=
  mkSessionScope (cfs_OwnerSessionHash scope) (cfs_OwnerUserHash scope) (cfs_OwnerEnvHash scope)
    (cfs_SessionChannelIDHash scope).

(** [confirmationOwnerPluginKey{scope.OwnerEnvHash, record.PluginInstanceID}]. *)
Definition owner_plugin (record : ConfirmationIntentRecord) : confirmationOwnerPluginKey :=
  (ss_OwnerEnvHash (confirmationSessionScope (ci_Scope record)), ci_PluginInstanceID record).

Definition session_of (record : ConfirmationIntentRecord) : SessionScope :=
  confirmationSessionScope (ci_Scope record).

Definition confirmationIntentMatchesSessionScope (record : ConfirmationIntentRecord)
    (scope : SessionScope) : bool :=
  SessionScope_Valid scope &&
  bool_decide (cfs_OwnerSessionHash (ci_Scope record) = ss_OwnerSessionHash scope) &&
  bool_decide (cfs_OwnerUserHash (ci_Scope record) = ss_OwnerUserHash scope) &&
  bool_decide (cfs_OwnerEnvHash (ci_Scope record) = ss_OwnerEnvHash scope) &&
  bool_decide (cfs_SessionChannelIDHash (ci_Scope record) = ss_SessionChannelIDHash scope).

Definition confirmationIntentMatchesRejection (record : ConfirmationIntentRecord)
    (req : RejectConfirmationIntentRequest) : bool :=
  bool_decide (ci_PluginInstanceID record = rc_PluginInstanceID req) &&
  bool_decide (ci_SurfaceInstanceID record = rc_SurfaceInstanceID req) &&
  bool_decide (ci_BridgeChannelID record = rc_BridgeChannelID req) &&
  bool_decide (cfs_ActiveFingerprint (ci_Scope record) = rc_ActiveFingerprint req) &&
  bool_decide (cfs_OwnerSessionHash (ci_Scope record) = rc_OwnerSessionHash req) &&
  bool_decide (cfs_OwnerUserHash (ci_Scope record) = rc_OwnerUserHash req) &&
  bool_decide (cfs_OwnerEnvHash (ci_Scope record) = rc_OwnerEnvHash req) &&
  bool_decide (cfs_SessionChannelIDHash (ci_Scope record) = rc_SessionChannelIDHash req) &&
  bool_decide (cfs_PolicyRevision (ci_Scope record) = rc_PolicyRevision req) &&
  bool_decide (cfs_ManagementRevision (ci_Scope record) = rc_ManagementRevision req) &&
  bool_decide (cfs_RevokeEpoch (ci_Scope record) = rc_RevokeEpoch req).

Definition normalizeRejectConfirmationIntentRequest (req : RejectConfirmationIntentRequest) :
    Result ConfErr RejectConfirmationIntentRequest :=
  let req := mkRejectConfirmationIntentRequest (TrimSpace (rc_ConfirmationID req))
    (TrimSpace (rc_PluginInstanceID req)) (TrimSpace (rc_SurfaceInstanceID req))
    (TrimSpace (rc_BridgeChannelID req)) (TrimSpace (rc_ActiveFingerprint req))
    (TrimSpace (rc_OwnerSessionHash req)) (TrimSpace (rc_OwnerUserHash req))
    (TrimSpace (rc_OwnerEnvHash req)) (TrimSpace (rc_SessionChannelIDHash req))
    (rc_PolicyRevision req) (rc_ManagementRevision req) (rc_RevokeEpoch req) (rc_Now req) in
  if bool_decide (rc_ConfirmationID req = "") || bool_decide (rc_PluginInstanceID req = "") ||
     bool_decide (rc_SurfaceInstanceID req = "") || bool_decide (rc_BridgeChannelID req = "") ||
     bool_decide (rc_ActiveFingerprint req = "") || bool_decide (rc_OwnerSessionHash req = "") ||
     bool_decide (rc_OwnerUserHash req = "") || bool_decide (rc_OwnerEnvHash req = "") ||
     bool_decide (rc_SessionChannelIDHash req = "") ||
     (rc_PolicyRevision req =? 0)%Z || (rc_ManagementRevision req =? 0)%Z
  then Err ErrInvalidConfirmationIntent else Ok req.

Definition confirmationIntentFromPut (req : PutConfirmationIntentRequest) (now : time) :
    Result ConfErr ConfirmationIntentRecord :=
  let issued := if IsZero (pc_IssuedAt req) then now else pc_IssuedAt req in
  let record := mkConfirmationIntentRecord (TrimSpace (pc_ConfirmationID req))
    (TrimSpace (pc_ConfirmationTokenID req)) (TrimSpace (pc_PluginID req))
    (TrimSpace (pc_PluginInstanceID req)) (TrimSpace (pc_SurfaceInstanceID req))
    (TrimSpace (pc_BridgeChannelID req)) (TrimSpace (pc_Method req))
    (TrimSpace (pc_RequestHash req)) (TrimSpace (pc_PlanHash req)) (pc_Scope req) issued
    (pc_ExpiresAt req) in
  if bool_decide (ci_ConfirmationID record = "") || bool_decide (ci_ConfirmationTokenID record = "") ||
     bool_decide (ci_PluginID record = "") || bool_decide (ci_PluginInstanceID record = "") ||
     bool_decide (ci_SurfaceInstanceID record = "") || bool_decide (ci_BridgeChannelID record = "") ||
     bool_decide (ci_Method record = "") || bool_decide (ci_RequestHash record = "") ||
     bool_decide (ci_PlanHash record = "") ||
     bool_decide (TrimSpace (cfs_ActiveFingerprint (ci_Scope record)) = "") ||
     bool_decide (TrimSpace (cfs_OwnerSessionHash (ci_Scope record)) = "") ||
     bool_decide (TrimSpace (cfs_OwnerUserHash (ci_Scope record)) = "") ||
     bool_decide (TrimSpace (cfs_OwnerEnvHash (ci_Scope record)) = "") ||
     bool_decide (TrimSpace (cfs_SessionChannelIDHash (ci_Scope record)) = "") ||
     (cfs_PolicyRevision (ci_Scope record) =? 0)%Z ||
     (cfs_ManagementRevision (ci_Scope record) =? 0)%Z ||
     bool_decide (TrimSpace (cfs_TargetDescriptorSHA256 (ci_Scope record)) = "") ||
     IsZero (ci_ExpiresAt record) || negb (After (ci_ExpiresAt record) now)
  then Err ErrInvalidConfirmationIntent else Ok record.

(** ** The store *)

Definition addRecordLocked (record : ConfirmationIntentRecord) (s : MemoryConfirmationIntentStore) : MemoryConfirmationIntentStore :=
  let scope := confirmationSessionScope (ci_Scope record) in
  let ownerPlugin := (ss_OwnerEnvHash scope, ci_PluginInstanceID record) in
  mkConfStore (cst_options s)
    (<[ci_ConfirmationID record := record]> (cst_records s))
    (count_incr (cst_ownerPluginCount s) ownerPlugin)
    (index_add (cst_ownerPluginIndex s) ownerPlugin (ci_ConfirmationID record))
    (count_incr (cst_sessionCount s) scope)
    (index_add (cst_sessionIndex s) scope (ci_ConfirmationID record))
    (cst_sessionRevocations s).

Definition removeRecordLocked (record : ConfirmationIntentRecord) (s : MemoryConfirmationIntentStore) : MemoryConfirmationIntentStore :=
  let scope := confirmationSessionScope (ci_Scope record) in
  let ownerPlugin := (ss_OwnerEnvHash scope, ci_PluginInstanceID record) in
  mkConfStore (cst_options s)
    (delete (ci_ConfirmationID record) (cst_records s))
    (count_decr (cst_ownerPluginCount s) ownerPlugin)
    (index_remove (cst_ownerPluginIndex s) ownerPlugin (ci_ConfirmationID record))
    (count_decr (cst_sessionCount s) scope)
    (index_remove (cst_sessionIndex s) scope (ci_ConfirmationID record))
    (cst_sessionRevocations s).

Definition expired (now : time) (record : ConfirmationIntentRecord) : bool :=
  negb (IsZero (ci_ExpiresAt record)) && negb (After (ci_ExpiresAt record) now).

Definition deleteExpiredLocked (now : time) (s : MemoryConfirmationIntentStore) : MemoryConfirmationIntentStore :=
  foldl (λ s '(_, record), if expired now record then removeRecordLocked record s else s)
    s (map_to_list (cst_records s)).

(** [now := req.Now; if now.IsZero() { now = s.now() }]: the request's time is
    not converted. *)
Definition store_now (wall now : time) : time := if IsZero now then wall else now.

Definition PutConfirmationIntent (wall : time) (s : MemoryConfirmationIntentStore) (req : PutConfirmationIntentRequest) :
    MemoryConfirmationIntentStore * Result ConfErr ConfirmationIntentRecord :=
  let now := store_now wall (pc_Now req) in
  match confirmationIntentFromPut req now with
  | Err e => (s, Err e)
  | Ok record =>
     let s := deleteExpiredLocked now s in
     if negb (bool_decide (cst_records s !! ci_ConfirmationID record = None))
     then (s, Err ErrInvalidConfirmationIntent)
     else
     let scope := confirmationSessionScope (ci_Scope record) in
     let ownerPlugin := (ss_OwnerEnvHash scope, ci_PluginInstanceID record) in
     if (co_MaxTotal (cst_options s) <=? Z.of_nat (size (cst_records s)))%Z ||
        (co_MaxPerOwnerPlugin (cst_options s) <=? default 0 (cst_ownerPluginCount s !! ownerPlugin))%Z ||
        (co_MaxPerSession (cst_options s) <=? default 0 (cst_sessionCount s !! scope))%Z
     then (s, Err ErrConfirmationIntentCapacity)
     else (addRecordLocked record s, Ok record)
  end.

Definition ConsumeConfirmationIntent (wall : time) (s : MemoryConfirmationIntentStore)
    (req : ConsumeConfirmationIntentRequest) : MemoryConfirmationIntentStore * Result ConfErr ConfirmationIntentRecord :=
  let confirmationID := TrimSpace (cc_ConfirmationID req) in
  if bool_decide (confirmationID = "") then (s, Err ErrInvalidConfirmationIntent)
  else
  let now := store_now wall (cc_Now req) in
  match cst_records s !! confirmationID with
  | None => (s, Err ErrConfirmationIntentNotFound)
  | Some record =>
     if negb (confirmationIntentMatchesSessionScope record (cc_SessionScope req))
     then (s, Err ErrConfirmationIntentScopeMismatch)
     else
     let s := removeRecordLocked record s in
     if negb (After (ci_ExpiresAt record) now) then (s, Err ErrConfirmationIntentExpired)
     else (s, Ok record)
  end.

Definition RejectConfirmationIntent (wall : time) (s : MemoryConfirmationIntentStore)
    (req : RejectConfirmationIntentRequest) : MemoryConfirmationIntentStore * Result ConfErr ConfirmationIntentRecord :=
  match normalizeRejectConfirmationIntentRequest req with
  | Err e => (s, Err e)
  | Ok normalized =>
     let now := store_now wall (rc_Now normalized) in
     match cst_records s !! rc_ConfirmationID normalized with
     | None => (s, Err ErrConfirmationIntentNotFound)
     | Some record =>
        if negb (After (ci_ExpiresAt record) now)
        then (removeRecordLocked record s, Err ErrConfirmationIntentExpired)
        else if negb (confirmationIntentMatchesRejection record normalized)
        then (s, Err ErrConfirmationIntentScopeMismatch)
        else (removeRecordLocked record s, Ok record)
     end
  end.

(** The order of [sortConfirmationIntentRecords]: issue time, then id. *)
Definition intent_le (a b : ConfirmationIntentRecord) : Prop :=
  if bool_decide (ci_IssuedAt a = ci_IssuedAt b)
  then String.le (ci_ConfirmationID a) (ci_ConfirmationID b)
  else Before (ci_IssuedAt a) (ci_IssuedAt b) = true.

#[export] Instance intent_le_dec : RelDecision intent_le.
Proof. intros a b. unfold intent_le. case_bool_decide; apply _. Defined.

Definition sortConfirmationIntentRecords : list ConfirmationIntentRecord → list ConfirmationIntentRecord :=
  merge_sort intent_le.

Definition ListConfirmationIntents (s : MemoryConfirmationIntentStore) (plugin : string) : list ConfirmationIntentRecord :=
  let pluginInstanceID := TrimSpace plugin in
  sortConfirmationIntentRecords
    (filter (λ record, negb (negb (bool_decide (pluginInstanceID = "")) &&
                             negb (bool_decide (ci_PluginInstanceID record = pluginInstanceID))) = true)
       (map_to_list (cst_records s)).*2).

(** The removal loops of the two revocations. *)
Definition removeListed (acc : MemoryConfirmationIntentStore * Z) (id : string) : MemoryConfirmationIntentStore * Z :=
  let '(s, count) := acc in
  match cst_records s !! id with
  | Some record => (removeRecordLocked record s, (count + 1)%Z)
  | None => (s, count)
  end.

Definition RevokePluginConfirmationIntents (s : MemoryConfirmationIntentStore)
    (req : RevokePluginConfirmationIntentsRequest) : MemoryConfirmationIntentStore * Result ConfErr Z :=
  let pluginInstanceID := TrimSpace (rpc_PluginInstanceID req) in
  let ownerEnvHash := TrimSpace (rpc_OwnerEnvHash req) in
  if bool_decide (pluginInstanceID = "") ||
     negb (ResourceScope_Valid (mkResourceScope ScopeEnvironment ownerEnvHash ""))
  then (s, Err ErrInvalidConfirmationIntent)
  else
  let '(s, count) := foldl removeListed (s, 0%Z)
    (elements (index_get (cst_ownerPluginIndex s) (ownerEnvHash, pluginInstanceID))) in
  (s, Ok count).

Definition RevokeSessionConfirmationIntents (s : MemoryConfirmationIntentStore)
    (req : RevokeSessionConfirmationIntentsRequest) : MemoryConfirmationIntentStore * Result ConfErr Z :=
  match SessionScope_Validate (rsc_SessionScope req) with
  | Err _ => (s, Err ErrInvalidConfirmationIntent)
  | Ok _ =>
     let operationID := TrimSpace (rsc_TeardownOperationID req) in
     if bool_decide (operationID = "") || (256 <? len operationID)%Z
     then (s, Err ErrInvalidConfirmationIntent)
     else
     let key := (rsc_SessionScope req, operationID) in
     match cst_sessionRevocations s !! key with
     | Some previous => (s, Ok previous)
     | None =>
        if (co_MaxSessionRevocations (cst_options s) <=? Z.of_nat (size (cst_sessionRevocations s)))%Z
        then (s, Err ErrConfirmationIntentCapacity)
        else
        let '(s, count) := foldl removeListed (s, 0%Z)
          (elements (index_get (cst_sessionIndex s) (rsc_SessionScope req))) in
        (mkConfStore (cst_options s) (cst_records s) (cst_ownerPluginCount s)
           (cst_ownerPluginIndex s) (cst_sessionCount s) (cst_sessionIndex s)
           (<[key := count]> (cst_sessionRevocations s)), Ok count)
     end
  end.

Definition FinalizeSessionConfirmationRevocation (s : MemoryConfirmationIntentStore)
    (req : FinalizeSessionConfirmationRevocationRequest) : MemoryConfirmationIntentStore * Result ConfErr unit :=
  match SessionScope_Validate (fsc_SessionScope req) with
  | Err _ => (s, Err ErrInvalidConfirmationIntent)
  | Ok _ =>
     let operationID := TrimSpace (fsc_TeardownOperationID req) in
     if bool_decide (operationID = "") || (256 <? len operationID)%Z
     then (s, Err ErrInvalidConfirmationIntent)
     else
     (mkConfStore (cst_options s) (cst_records s) (cst_ownerPluginCount s)
        (cst_ownerPluginIndex s) (cst_sessionCount s) (cst_sessionIndex s)
        (delete (fsc_SessionScope req, operationID) (cst_sessionRevocations s)), Ok tt)
  end.
