(* ===== verification/ConfirmationProps.v ===== *)
(** * Theorems on the confirmation store

    Its invariant, the single use of an intent, and the two revocations. *)

From S2P Require Import Prelude GoLib Index SessionCtx Confirmation.

Open Scope go_scope.

Notation Store := MemoryConfirmationIntentStore.

(** ** The invariant *)

Record conf_wf (s : Store) : Prop := {
  cwf_id : ∀ id r, cst_records s !! id = Some r → ci_ConfirmationID r = id;
  cwf_plugin : indexes owner_plugin (cst_ownerPluginIndex s) (cst_records s);
  cwf_session : indexes session_of (cst_sessionIndex s) (cst_records s);
  cwf_plugin_count : counts_index (cst_ownerPluginCount s) (cst_ownerPluginIndex s);
  cwf_session_count : counts_index (cst_sessionCount s) (cst_sessionIndex s);
  cwf_total : (Z.of_nat (size (cst_records s)) ≤ co_MaxTotal (cst_options s))%Z;
  cwf_per_plugin : ∀ k, (Z.of_nat (size (index_get (cst_ownerPluginIndex s) k)) ≤
                         co_MaxPerOwnerPlugin (cst_options s))%Z;
  cwf_per_session : ∀ k, (Z.of_nat (size (index_get (cst_sessionIndex s) k)) ≤
                          co_MaxPerSession (cst_options s))%Z;
  cwf_revocations : (Z.of_nat (size (cst_sessionRevocations s)) ≤
                     co_MaxSessionRevocations (cst_options s))%Z;
}.

Lemma conf_wf_remove s r :
  conf_wf s → cst_records s !! ci_ConfirmationID r = Some r → conf_wf (removeRecordLocked r s).
Proof.
  intros [] Hr. assert (ci_ConfirmationID r ∈ index_get (cst_ownerPluginIndex s) (owner_plugin r))
    as Hp by (apply cwf_plugin0; eauto).
  assert (ci_ConfirmationID r ∈ index_get (cst_sessionIndex s) (session_of r)) as Hs
    by (apply cwf_session0; eauto).
  constructor; cbn; fold (session_of r); try done.
  - intros id r' [_ H']%lookup_delete_Some. auto.
  - by apply (indexes_remove owner_plugin).
  - by apply (indexes_remove session_of).
  - by apply (counts_remove _ _ (owner_plugin r)).
  - by apply counts_remove.
  - pose proof (map_size_delete_le (cst_records s) (ci_ConfirmationID r)). lia.
  - intros k. etrans; [|apply cwf_per_plugin0]. apply Nat2Z.inj_le, index_get_remove_size.
  - intros k. etrans; [|apply cwf_per_session0]. apply Nat2Z.inj_le, index_get_remove_size.
Qed.

Lemma conf_wf_add s r :
  conf_wf s → cst_records s !! ci_ConfirmationID r = None →
  (Z.of_nat (size (cst_records s)) < co_MaxTotal (cst_options s))%Z →
  (Z.of_nat (size (index_get (cst_ownerPluginIndex s) (owner_plugin r))) <
     co_MaxPerOwnerPlugin (cst_options s))%Z →
  (Z.of_nat (size (index_get (cst_sessionIndex s) (session_of r))) <
     co_MaxPerSession (cst_options s))%Z →
  conf_wf (addRecordLocked r s).
Proof.
  intros [] Hnew Htot Hpl Hse.
  assert (ci_ConfirmationID r ∉ index_get (cst_ownerPluginIndex s) (owner_plugin r)) as Hp
    by (intros (? & ? & _)%cwf_plugin0; congruence).
  assert (ci_ConfirmationID r ∉ index_get (cst_sessionIndex s) (session_of r)) as Hs
    by (intros (? & ? & _)%cwf_session0; congruence).
  constructor; cbn; fold (session_of r); try done.
  - intros id r' [[<- <-]|[_ H']]%lookup_insert_Some; auto.
  - by apply (indexes_add owner_plugin).
  - by apply (indexes_add session_of).
  - by apply (counts_add _ _ (owner_plugin r)).
  - by apply counts_add.
  - rewrite map_size_insert_None by done. lia.
  - intros k. change (_, ci_PluginInstanceID r) with (owner_plugin r).
    rewrite index_size_add by done. case_decide; [subst; lia|apply cwf_per_plugin0].
  - intros k. rewrite index_size_add by done. case_decide; [subst; lia|apply cwf_per_session0].
Qed.

(** Removing a list of distinct ids. *)
Lemma removeListed_fold l s count :
  conf_wf s → NoDup l → (∀ id, id ∈ l → is_Some (cst_records s !! id)) →
  let res := foldl removeListed (s, count) l in
  conf_wf res.1 ∧ cst_options res.1 = cst_options s ∧
  cst_sessionRevocations res.1 = cst_sessionRevocations s ∧
  (∀ id, cst_records res.1 !! id = if decide (id ∈ l) then None else cst_records s !! id) ∧
  res.2 = (count + Z.of_nat (length l))%Z.
Proof.
  revert s count. induction l as [|id l IH]; intros s count Hs Hnd Hl; cbn [foldl length].
  { split_and!; try done; cbn. lia. }
  apply NoDup_cons in Hnd as [Hid Hnd]. destruct (Hl id) as [r Hr]; [by left|].
  assert (removeListed (s, count) id = (removeRecordLocked r s, count + 1)%Z) as ->
    by (cbn; by rewrite Hr). pose proof (cwf_id _ Hs _ _ Hr) as Hidr.
  destruct (IH (removeRecordLocked r s) (count + 1)%Z) as (? & ? & ? & Hrec & Hcnt).
  - apply conf_wf_remove; [done|congruence].
  - done.
  - intros id' Hin. cbn. rewrite Hidr, lookup_delete_ne by (by intros ->). apply Hl. by right.
  - split_and!; try done; [|rewrite Hcnt; lia]. intros id'. rewrite Hrec. cbn. rewrite Hidr.
    destruct (decide (id' = id)) as [->|Hne].
    + rewrite lookup_delete_eq. rewrite (decide_True (P := id ∈ id :: l)) by left. by case_decide.
    + rewrite lookup_delete_ne by done. repeat case_decide; try done; set_solver.
Qed.

Lemma deleteExpired_loop now l s :
  conf_wf s → NoDup l.*1 → (∀ id r, (id, r) ∈ l → cst_records s !! id = Some r) →
  let s' := foldl (λ s '(_, r), if expired now r then removeRecordLocked r s else s) s l in
  conf_wf s' ∧ cst_options s' = cst_options s ∧
  cst_sessionRevocations s' = cst_sessionRevocations s ∧
  ∀ id r, cst_records s' !! id = Some r ↔
    cst_records s !! id = Some r ∧ (expired now r = false ∨ (id, r) ∉ l).
Proof.
  revert s. induction l as [|[id r] l IH]; intros s Hs Hnd Hl; cbn.
  { split_and!; try done. intros id r. rewrite elem_of_nil. tauto. }
  apply NoDup_cons in Hnd as [Hid Hnd].
  assert (cst_records s !! id = Some r) as Hr by (apply Hl; left).
  pose proof (cwf_id _ Hs _ _ Hr) as Hidr.
  destruct (expired now r) eqn:Hx.
  - destruct (IH (removeRecordLocked r s)) as (?&?&?&Hrec).
    + apply conf_wf_remove; [done|congruence].
    + done.
    + intros id' r' Hin. cbn. rewrite Hidr. apply lookup_delete_Some. split; [|by apply Hl; right].
      intros ->. apply Hid. apply list_elem_of_fmap. by exists (id', r').
    + split_and!; try done. intros id' r'. rewrite Hrec. cbn [cst_records removeRecordLocked].
      rewrite Hidr, lookup_delete_Some, not_elem_of_cons. split.
      * intros [[Hne Ha] Hc]. split; [done|]. destruct Hc; [by left|right]. split; [|done]. congruence.
      * intros [Ha Hc]. assert (id ≠ id') as Hne.
        { intros ->. rewrite Hr in Ha. injection Ha as <-. destruct Hc as [?|[? _]]; [congruence|done]. }
        split; [done|]. tauto.
  - destruct (IH s Hs Hnd) as (?&?&?&Hrec); [intros; apply Hl; by right|].
    split_and!; try done. intros id' r'. rewrite Hrec, not_elem_of_cons.
    split; intros [Ha Hc]; (split; [done|]); [|tauto].
    destruct (decide ((id', r').1 = id)) as [Hi|Hi]; cbn in Hi.
    + subst id'. rewrite Hr in Ha. injection Ha as <-. by left.
    + destruct Hc; [by left|right]. split; [congruence|done].
Qed.

Lemma deleteExpired_spec now s :
  conf_wf s →
  let s' := deleteExpiredLocked now s in
  conf_wf s' ∧ cst_options s' = cst_options s ∧
  cst_sessionRevocations s' = cst_sessionRevocations s ∧
  cst_records s' = filter (λ ir, expired now ir.2 = false) (cst_records s).
Proof.
  intros Hs. destruct (deleteExpired_loop now (map_to_list (cst_records s)) s) as (?&?&?&Hrec).
  - done.
  - apply NoDup_fst_map_to_list.
  - intros id r. apply elem_of_map_to_list.
  - split_and!; try done. apply map_eq. intros id. apply option_eq. intros r.
    unfold deleteExpiredLocked. rewrite Hrec, map_lookup_filter_Some, elem_of_map_to_list. cbn. tauto.
Qed.

(** ** Runs *)

Inductive ConfOp :=
| OpPut (wall : time) (req : PutConfirmationIntentRequest)
| OpConsume (wall : time) (req : ConsumeConfirmationIntentRequest)
| OpReject (wall : time) (req : RejectConfirmationIntentRequest)
| OpRevokePluginIntents (req : RevokePluginConfirmationIntentsRequest)
| OpRevokeSessionIntents (req : RevokeSessionConfirmationIntentsRequest)
| OpFinalizeRevocation (req : FinalizeSessionConfirmationRevocationRequest).

Definition conf_step (s : Store) (op : ConfOp) : Store :=
  match op with
  | OpPut wall req => (PutConfirmationIntent wall s req).1
  | OpConsume wall req => (ConsumeConfirmationIntent wall s req).1
  | OpReject wall req => (RejectConfirmationIntent wall s req).1
  | OpRevokePluginIntents req => (RevokePluginConfirmationIntents s req).1
  | OpRevokeSessionIntents req => (RevokeSessionConfirmationIntents s req).1
  | OpFinalizeRevocation req => (FinalizeSessionConfirmationRevocation s req).1
  end.

(** The two outcomes of a put: an error after pruning, or the new record,
    inside every limit. *)
Lemma put_cases wall s req s' res :
  conf_wf s → PutConfirmationIntent wall s req = (s', res) →
  let s1 := deleteExpiredLocked (store_now wall (pc_Now req)) s in
  (∃ e, res = Err e ∧ (s' = s ∨ s' = s1)) ∨
  ∃ r, res = Ok r ∧ confirmationIntentFromPut req (store_now wall (pc_Now req)) = Ok r ∧
    cst_records s1 !! ci_ConfirmationID r = None ∧ s' = addRecordLocked r s1 ∧ conf_wf s'.
Proof.
  intros Hs. unfold PutConfirmationIntent. set (now := store_now wall (pc_Now req)).
  destruct (confirmationIntentFromPut req now) as [r|e]; [|intros [= <- <-]; eauto].
  destruct (deleteExpired_spec now s Hs) as (Hs1 & _). set (s1 := deleteExpiredLocked now s) in *.
  case_bool_decide as Hnew; cbn [negb]; [|intros [= <- <-]; eauto].
  fold (session_of r) (owner_plugin r). case_match eqn:Hcap; [intros [= <- <-]; eauto|].
  intros [= <- <-]. right. exists r. split_and!; try done. go_bools.
  change (ss_OwnerEnvHash (session_of r), ci_PluginInstanceID r) with (owner_plugin r) in *.
  rewrite (counts_default _ _ _ (cwf_plugin_count _ Hs1)), (counts_default _ _ _ (cwf_session_count _ Hs1)) in *.
  by apply conf_wf_add.
Qed.

(** The two outcomes of the calls that take one intent out. *)
Lemma consume_cases wall s req s' res :
  conf_wf s → ConsumeConfirmationIntent wall s req = (s', res) →
  let id := TrimSpace (cc_ConfirmationID req) in
  (s' = s ∧ ∃ e, res = Err e ∧ e ≠ ErrConfirmationIntentExpired ∧
     (id = "" ∨ ∀ r, cst_records s !! id = Some r → ¬ (SessionScope_Valid (cc_SessionScope req) = true ∧
                                            session_of r = cc_SessionScope req))) ∨
  ∃ r, id ≠ "" ∧ cst_records s !! id = Some r ∧ ci_ConfirmationID r = id ∧
    SessionScope_Valid (cc_SessionScope req) = true ∧ session_of r = cc_SessionScope req ∧
    s' = removeRecordLocked r s ∧
    res = if (store_now wall (cc_Now req) <? ci_ExpiresAt r)%Z then Ok r else Err ErrConfirmationIntentExpired.
Proof.
  intros Hs. unfold ConsumeConfirmationIntent. case_bool_decide as Hid.
  { intros [= <- <-]. left. split; [done|]. eexists. split_and!; [done|done|by left]. }
  destruct (cst_records s !! _) as [r|] eqn:Hr; [|intros [= <- <-]; left; split; [done|]; eexists; split_and!; [done|done|by right]].
  assert (confirmationIntentMatchesSessionScope r (cc_SessionScope req) = true ↔
    SessionScope_Valid (cc_SessionScope req) = true ∧ session_of r = cc_SessionScope req) as Hm.
  { unfold confirmationIntentMatchesSessionScope, session_of, confirmationSessionScope.
    rewrite !andb_true_iff, !bool_decide_eq_true. destruct (cc_SessionScope req); cbn. naive_solver. }
  destruct (confirmationIntentMatchesSessionScope _ _) eqn:Hmm; cbn [negb].
  - intros Hres. right. exists r. pose proof (cwf_id _ Hs _ _ Hr). destruct Hm as [[? ?] _]; [done|].
    unfold After in Hres. destruct (_ <? _)%Z; cbn in Hres; injection Hres as <- <-; split_and!; done.
  - intros [= <- <-]. left. split; [done|]. eexists. split_and!; [done|done|]. right.
    intros r' [= <-] Hb. apply Hm in Hb. done.
Qed.

Lemma reject_cases wall s req s' res :
  conf_wf s → RejectConfirmationIntent wall s req = (s', res) →
  s' = s ∨ ∃ r, cst_records s !! ci_ConfirmationID r = Some r ∧ s' = removeRecordLocked r s.
Proof.
  intros Hs. unfold RejectConfirmationIntent. destruct (normalizeRejectConfirmationIntentRequest req) as [n|];
    [|intros [= <- <-]; by left].
  destruct (cst_records s !! _) as [r|] eqn:Hr; [|intros [= <- <-]; by left].
  pose proof (cwf_id _ Hs _ _ Hr) as Hid. rewrite <- Hid in Hr.
  repeat case_match; intros [= <- <-]; eauto.
Qed.

(** The ids of an exact index have records, one each. *)
Lemma indexed_some {K} `{Countable K} (key : ConfirmationIntentRecord → K) index recs k :
  indexes key index recs → ∀ id, id ∈ elements (index_get index k) → is_Some (recs !! id).
Proof. intros [_ Hi] id. rewrite elem_of_elements, Hi. intros (r & Hr & _). eauto. Qed.

(** A removal loop over an exact index takes out exactly the records with the
    key and counts them. *)
Lemma removeIndexed {K} `{Countable K} (key : ConfirmationIntentRecord → K) index s k s' count :
  conf_wf s → indexes key index (cst_records s) →
  foldl removeListed (s, 0%Z) (elements (index_get index k)) = (s', count) →
  conf_wf s' ∧ cst_options s' = cst_options s ∧
  cst_sessionRevocations s' = cst_sessionRevocations s ∧
  cst_records s' = filter (λ ir, key ir.2 ≠ k) (cst_records s) ∧
  count = Z.of_nat (size (filter (λ ir, key ir.2 = k) (cst_records s))).
Proof.
  intros Hs Hi Hf. destruct (removeListed_fold (elements (index_get index k)) s 0 Hs) as
    (Hw & Ho & Hr & Hrec & Hc); [apply NoDup_elements|by eapply indexed_some|].
  rewrite Hf in *. cbn in Hw, Ho, Hr, Hrec, Hc. split_and!; try done.
  - apply map_eq. intros id. rewrite Hrec. apply option_eq. intros r.
    rewrite map_lookup_filter_Some. destruct Hi as [_ Hi]. case_decide as Hin.
    + rewrite elem_of_elements, Hi in Hin. destruct Hin as (r' & Hr' & Hk). split; [done|]. cbn. naive_solver.
    + rewrite elem_of_elements, Hi in Hin. cbn. naive_solver.
  - subst count. rewrite Z.add_0_l. f_equal. rewrite <- size_dom. unfold size, set_size. cbn.
    apply Permutation_length, NoDup_Permutation; [apply NoDup_elements..|]. intros id.
    rewrite !elem_of_elements, elem_of_dom. destruct Hi as [_ Hi]. rewrite Hi. unfold is_Some.
    by setoid_rewrite map_lookup_filter_Some.
Qed.

Lemma wf_revocations s revs :
  conf_wf s → (Z.of_nat (size revs) ≤ co_MaxSessionRevocations (cst_options s))%Z →
  conf_wf (mkConfStore (cst_options s) (cst_records s) (cst_ownerPluginCount s)
    (cst_ownerPluginIndex s) (cst_sessionCount s) (cst_sessionIndex s) revs).
Proof. intros [] ?. by constructor. Qed.

Lemma conf_step_spec s op id :
  conf_wf s →
  conf_wf (conf_step s op) ∧
  (cst_records s !! id = None →
   (∀ wall req, op = OpPut wall req → TrimSpace (pc_ConfirmationID req) ≠ id) →
   cst_records (conf_step s op) !! id = None).
Proof.
  intros Hs. assert (∀ s', conf_wf s' ∧ (∀ r, cst_records s' !! id = Some r → cst_records s !! id = Some r) →
    conf_wf s' ∧ (cst_records s !! id = None → (∀ wall req, op = OpPut wall req →
      TrimSpace (pc_ConfirmationID req) ≠ id) → cst_records s' !! id = None)) as Hsub.
  { intros s' [Hw Hr]. split; [done|]. intros Hn _. destruct (cst_records s' !! id) as [r|]; [|done].
    by rewrite (Hr r eq_refl) in Hn. }
  assert (∀ r, cst_records s !! ci_ConfirmationID r = Some r → conf_wf (removeRecordLocked r s) ∧
    (∀ r', cst_records (removeRecordLocked r s) !! id = Some r' → cst_records s !! id = Some r')) as Hrm.
  { intros r Hr. split; [by apply conf_wf_remove|]. cbn. by intros r' [_ ?]%lookup_delete_Some. }
  destruct op as [wall req|wall req|wall req|req|req|req]; cbn [conf_step].
  - destruct (PutConfirmationIntent wall s req) as [s' res] eqn:Hput. cbn [fst].
    destruct (deleteExpired_spec (store_now wall (pc_Now req)) s Hs) as (Hw & _ & _ & Hrec).
    assert (∀ r, cst_records (deleteExpiredLocked (store_now wall (pc_Now req)) s) !! id = Some r →
      cst_records s !! id = Some r) as Hold.
    { rewrite Hrec. by intros r [? _]%map_lookup_filter_Some. }
    destruct (put_cases _ _ _ _ _ Hs Hput) as [(e & _ & [->| ->])|(r & _ & Hfrom & _ & -> & Hw')];
      [by apply Hsub|by apply Hsub|].
    split; [done|]. intros Hn Hop. cbn. rewrite lookup_insert_ne.
    + destruct (cst_records (deleteExpiredLocked _ s) !! id) as [r'|] eqn:Hx; [|done].
      by rewrite (Hold r' eq_refl) in Hn.
    + unfold confirmationIntentFromPut in Hfrom. case_match; [done|]. injection Hfrom as <-. cbn.
      by apply (Hop wall req).
  - destruct (ConsumeConfirmationIntent wall s req) as [s' res] eqn:Hc.
    destruct (consume_cases _ _ _ _ _ Hs Hc) as [(-> & _)|(r & _ & Hr & Hid & _ & _ & -> & _)]; [by apply Hsub|].
    apply Hsub, Hrm. congruence.
  - destruct (RejectConfirmationIntent wall s req) as [s' res] eqn:Hc.
    destruct (reject_cases _ _ _ _ _ Hs Hc) as [->|(r & Hr & ->)]; [by apply Hsub|by apply Hsub, Hrm].
  - unfold RevokePluginConfirmationIntents. case_match; [by apply Hsub|].
    destruct (foldl _ _ _) as [s' count] eqn:Hf. apply Hsub.
    destruct (removeIndexed owner_plugin _ _ _ _ _ Hs (cwf_plugin _ Hs) Hf) as (? & _ & _ & Hrec & _).
    split; [done|]. cbn. rewrite Hrec. by intros r [? _]%map_lookup_filter_Some.
  - unfold RevokeSessionConfirmationIntents. destruct (SessionScope_Validate _); [|by apply Hsub].
    case_match; [by apply Hsub|]. destruct (cst_sessionRevocations s !! _) eqn:Hk; [by apply Hsub|].
    case_match eqn:Hcap; [by apply Hsub|]. destruct (foldl _ _ _) as [s' count] eqn:Hf. go_bools. apply Hsub.
    destruct (removeIndexed session_of _ _ _ _ _ Hs (cwf_session _ Hs) Hf) as (? & Ho & Hr & Hrec & _).
    split; [|cbn; rewrite Hrec; by intros r [? _]%map_lookup_filter_Some].
    apply wf_revocations; [done|]. rewrite Ho, Hr, map_size_insert_None by done. lia.
  - unfold FinalizeSessionConfirmationRevocation. destruct (SessionScope_Validate _); [|by apply Hsub].
    case_match; [by apply Hsub|]. apply Hsub. split; [|done]. apply wf_revocations; [done|].
    pose proof (cwf_revocations _ Hs).
    pose proof (map_size_delete_le (cst_sessionRevocations s)
      (fsc_SessionScope req, TrimSpace (fsc_TeardownOperationID req))). lia.
Qed.

Lemma conf_run_wf s ops : conf_wf s → conf_wf (foldl conf_step s ops).
Proof.
  revert s. induction ops as [|op ops IH]; intros s Hs; cbn; [done|].
  apply IH. by apply (conf_step_spec s op "").
Qed.

Lemma conf_new_wf options s :
  NewMemoryConfirmationIntentStoreWithOptions options = Ok s → conf_wf s.
Proof.
  unfold NewMemoryConfirmationIntentStoreWithOptions. intros (o & Hn & [= <-])%rbind_ok.
  unfold normalizeConfirmationIntentStoreOptions in Hn. case_match eqn:Hb; [done|]. injection Hn as <-.
  go_bools. constructor; cbn [cst_records cst_ownerPluginIndex cst_sessionIndex cst_ownerPluginCount
    cst_sessionCount cst_options cst_sessionRevocations co_MaxTotal co_MaxPerOwnerPlugin co_MaxPerSession
    co_MaxSessionRevocations]; auto with redev; rewrite ?map_size_empty; try lia.
  - intros id r. by rewrite lookup_empty.
  - intros k. unfold index_get. rewrite lookup_empty. change (size (default ∅ None)) with 0. lia.
  - intros k. unfold index_get. rewrite lookup_empty. change (size (default ∅ None)) with 0. lia.
Qed.

(** the confirmation store keeps its books. After any sequence of calls
    on a new store, both indices list exactly the pending intents of each
    plugin and of each session, both counters are the sizes of those lists with
    no zero entries, and the pending intents stay within the total, the
    per-plugin and the per-session limit, the open revocations within theirs. *)
Theorem confirmation_store_invariant options s ops :
  NewMemoryConfirmationIntentStoreWithOptions options = Ok s → conf_wf (foldl conf_step s ops).
Proof. intros Hn. by eapply conf_run_wf, conf_new_wf. Qed.

Lemma absent_run s ops id :
  conf_wf s → cst_records s !! id = None →
  (∀ wall req, OpPut wall req ∈ ops → TrimSpace (pc_ConfirmationID req) ≠ id) →
  cst_records (foldl conf_step s ops) !! id = None.
Proof.
  revert s. induction ops as [|op ops IH]; intros s Hs Hn Hop; cbn; [done|].
  destruct (conf_step_spec s op id Hs) as [Hw Ha]. apply IH; [done| |set_solver].
  apply Ha; [done|]. intros wall req ->. apply (Hop wall). left.
Qed.


(** Revoking intents is exact and retryable. Revoking a plugin's or a
    session's intents removes exactly them and returns their number; after a
    session revocation a retry with the same operation returns the same number
    and changes nothing, until the operation is finalized; and the session has
    no intent left to consume. *)
Theorem intent_revocation_exact options s0 ops :
  NewMemoryConfirmationIntentStoreWithOptions options = Ok s0 →
  let s := foldl conf_step s0 ops in
  (∀ req s' n, RevokePluginConfirmationIntents s req = (s', Ok n) →
     let key := (TrimSpace (rpc_OwnerEnvHash req), TrimSpace (rpc_PluginInstanceID req)) in
     cst_records s' = filter (λ ir, owner_plugin ir.2 ≠ key) (cst_records s) ∧
     n = Z.of_nat (size (filter (λ ir, owner_plugin ir.2 = key) (cst_records s)))) ∧
  (∀ req s' n, RevokeSessionConfirmationIntents s req = (s', Ok n) →
     RevokeSessionConfirmationIntents s' req = (s', Ok n) ∧
     (cst_sessionRevocations s !! (rsc_SessionScope req, TrimSpace (rsc_TeardownOperationID req)) = None →
      cst_records s' = filter (λ ir, session_of ir.2 ≠ rsc_SessionScope req) (cst_records s) ∧
      n = Z.of_nat (size (filter (λ ir, session_of ir.2 = rsc_SessionScope req) (cst_records s))) ∧
      ∀ wall creq, cc_SessionScope creq = rsc_SessionScope req →
        is_ok (ConsumeConfirmationIntent wall s' creq).2 = false)).
Proof.
  intros Hnew s. assert (conf_wf s) as Hs by (by eapply conf_run_wf, conf_new_wf). split.
  - intros req s' n. unfold RevokePluginConfirmationIntents. case_match; [done|].
    destruct (foldl removeListed _ _) as [s1 count] eqn:Hf. intros [= <- <-].
    by destruct (removeIndexed owner_plugin _ _ _ _ _ Hs (cwf_plugin _ Hs) Hf) as (_ & _ & _ & Hrec & Hn).
  - intros req s' n. unfold RevokeSessionConfirmationIntents.
    destruct (SessionScope_Validate _) eqn:Hv; [|done]. case_match eqn:Hop; [done|].
    destruct (cst_sessionRevocations s !! _) as [prev|] eqn:Hk.
    { intros [= <- <-]. rewrite Hk. done. }
    case_match; [done|]. destruct (foldl removeListed _ _) as [s1 count] eqn:Hf. intros [= <- <-].
    cbn [cst_sessionRevocations cst_records]. rewrite lookup_insert_eq. split; [done|]. intros _.
    destruct (removeIndexed session_of _ _ _ _ _ Hs (cwf_session _ Hs) Hf) as (Hw & _ & _ & Hrec & Hn).
    split_and!; try done. intros wall creq Hsc. unfold ConsumeConfirmationIntent.
    destruct (bool_decide (TrimSpace (cc_ConfirmationID creq) = "")); [done|].
    cbn [cst_records]. rewrite Hrec.
    destruct (filter _ _ !! _) as [r|] eqn:Hr; [|done]. apply map_lookup_filter_Some in Hr as [_ Hne].
    cbn in Hne. destruct (confirmationIntentMatchesSessionScope _ _) eqn:Hm; [|done]. exfalso. apply Hne.
    unfold confirmationIntentMatchesSessionScope in Hm. rewrite !andb_true_iff, !bool_decide_eq_true in Hm.
    rewrite <- Hsc. unfold session_of, confirmationSessionScope. destruct (cc_SessionScope creq); cbn in *.
    naive_solver.
Qed.

(** ** Listing: sorted by issue time and id, exact. *)

#[export] Instance intent_le_total : Total intent_le.
Proof.
  intros a b. unfold intent_le, Before. repeat case_bool_decide; try congruence.
  - apply (total String.le).
  - rewrite !Z.ltb_lt. lia.
Qed.

Lemma intents_listed s plugin :
  Sorted intent_le (ListConfirmationIntents s plugin) ∧
  ∀ r, r ∈ ListConfirmationIntents s plugin ↔
    (∃ id, cst_records s !! id = Some r) ∧
    (TrimSpace plugin = "" ∨ ci_PluginInstanceID r = TrimSpace plugin).
Proof.
  unfold ListConfirmationIntents, sortConfirmationIntentRecords. split; [apply Sorted_merge_sort, _|].
  intros r. rewrite merge_sort_elem_of, list_elem_of_filter, list_elem_of_fmap.
  setoid_rewrite elem_of_map_to_list'. rewrite negb_true_iff, andb_false_iff, !negb_false_iff, !bool_decide_eq_true.
  split.
  - intros [Hf ([id r'] & -> & Hr)]. eauto.
  - intros [(id & Hr) Hf]. split; [done|]. by exists (id, r).
Qed.

(** ** Witnesses *)

Definition sample_options : ConfirmationIntentStoreOptions := mkConfirmationIntentStoreOptions 0 0 0 0.
Definition sample_store : Store :=
  mkConfStore (mkConfirmationIntentStoreOptions 4096 64 16 4096) ∅ ∅ ∅ ∅ ∅ ∅.
Definition sample_cscope : ConfirmationScope := mkConfirmationScope "fp" "sess" "user" "env" "chan" 1 1 1 "t".
Definition sample_sscope : SessionScope := mkSessionScope "sess" "user" "env" "chan".
Definition sample_put : PutConfirmationIntentRequest :=
  mkPutConfirmationIntentRequest "c1" "tok" "p" "inst" "sf" "ch" "m" "rh" "ph" sample_cscope 0 100 10.
Definition sample_consume : ConsumeConfirmationIntentRequest :=
  mkConsumeConfirmationIntentRequest " c1" sample_sscope 20.

Lemma confirmation_store_invariant_witness :
  conf_wf (foldl conf_step sample_store [OpPut 5 sample_put; OpConsume 5 sample_consume]) ∧
  size (cst_records (foldl conf_step sample_store [OpPut 5 sample_put])) = 1.
Proof.
  split; [|vm_compute; reflexivity]. apply (confirmation_store_invariant sample_options). reflexivity.
Defined.


Lemma intent_revocation_exact_witness :
  ∃ s', RevokeSessionConfirmationIntents (foldl conf_step sample_store [OpPut 5 sample_put])
          (mkRevokeSessionConfirmationIntentsRequest sample_sscope "op1" 20) = (s', Ok 1%Z) ∧
    RevokeSessionConfirmationIntents s' (mkRevokeSessionConfirmationIntentsRequest sample_sscope "op1" 20)
      = (s', Ok 1%Z).
Proof.
  destruct (RevokeSessionConfirmationIntents (foldl conf_step sample_store [OpPut 5 sample_put])
    (mkRevokeSessionConfirmationIntentsRequest sample_sscope "op1" 20)) as [s' res] eqn:Hr.
  assert (res = Ok 1%Z) as -> by (vm_compute in Hr; congruence).
  exists s'. split; [reflexivity|].
  apply (intent_revocation_exact sample_options sample_store [OpPut 5 sample_put] eq_refl). exact Hr.
Defined.
