(* ===== verification/SessionScopes.v ===== *)
(** * pkg/sessionscope: the durable session fences

    The record of a session teardown, its state machine, its counts, the
    teardown identity, and the in-memory store of the fences. The [Store]
    interface is a class here; the coordinator that uses it is in
    SessionCoordinator. SHA-256 is an argument; a digest is its byte string. *)

From S2P Require Import Prelude GoLib SessionCtx.

Open Scope go_scope.

Definition DefaultMaxScopes : Z := 4096.
Definition HardMaxScopes : Z := 65536.
Definition MinProofBytes : Z := 32.
Definition MaxProofBytes : Z := MinProofBytes.

(** The package's errors, and the two [validateStoreCall] passes on. *)
Inductive ScopeErr :=
| ErrInvalidState | ErrInvalidCounts | ErrSessionRevoked | ErrFenceCapacity | ErrScopeNotFound
| ErrClosedSessionProofInvalid | ErrTeardownIdentityInvalid | ErrTeardownIdentityMismatch
| ErrStoreRequired | ErrSchemaVersion
| CtxDone (e : CtxErr) | ScopeInvalid (e : SessErr).

#[export] Instance ScopeErr_eq_dec : EqDecision ScopeErr.
Proof. solve_decision. Defined.

(** [^[A-Za-z0-9][A-Za-z0-9._:-]{0,255}$] *)
Definition teardownOperationIDPattern (s : string) : bool :=
  match String.list_ascii_of_string s with
  | [] => false
  | c :: rest => isASCIIAlphaNumeric c && forallb ownerHashByte rest &&
                 bool_decide (length rest ≤ 255)
  end.

Definition State := string.
Definition StateActive : State := "active".
Definition StateDraining : State := "draining".
Definition StateIncomplete : State := "incomplete".
Definition StateComplete : State := "complete".

Definition State_Valid (state : State) : bool :=
  bool_decide (state = StateActive) || bool_decide (state = StateDraining) ||
  bool_decide (state = StateIncomplete) || bool_decide (state = StateComplete).

Record Counts := mkCounts {
  ct_Surfaces : Z;
  ct_AssetTickets : Z;
  ct_AssetSessions : Z;
  ct_PluginGatewayTokens : Z;
  ct_ConfirmationTokens : Z;
  ct_HandleGrants : Z;
  ct_Confirmations : Z;
  ct_Executions : Z;
  ct_ActiveNetworkRequests : Z;
  ct_Sockets : Z;
  ct_NetworkStreams : Z;
  ct_StorageHostcalls : Z;
}.

#[export] Instance Counts_eq_dec : EqDecision Counts.
Proof. solve_decision. Defined.

Definition zeroCounts : Counts := mkCounts 0 0 0 0 0 0 0 0 0 0 0 0.

Definition Phase := string.
Definition PhaseBridge : Phase := "bridge".
Definition PhaseConfirmation : Phase := "confirmation".
Definition PhaseExecution : Phase := "execution".
Definition PhaseRuntime : Phase := "runtime".

Definition Phase_Valid (phase : Phase) : bool :=
  bool_decide (phase = PhaseBridge) || bool_decide (phase = PhaseConfirmation) ||
  bool_decide (phase = PhaseExecution) || bool_decide (phase = PhaseRuntime).

(** The fields in declaration order, which is the order reflection visits. *)
Definition fields (c : Counts) : list Z :=
  [ct_Surfaces c; ct_AssetTickets c; ct_AssetSessions c; ct_PluginGatewayTokens c;
   ct_ConfirmationTokens c; ct_HandleGrants c; ct_Confirmations c; ct_Executions c;
   ct_ActiveNetworkRequests c; ct_Sockets c; ct_NetworkStreams c; ct_StorageHostcalls c].

(** One iteration of the loop of [Counts.Add], on uint64 fields. *)
Definition addField (current increase : Z) : Result ScopeErr Z :=
  if (MaxSafeInteger <? increase)%Z || (u64 (MaxSafeInteger - increase) <? current)%Z
  then Err ErrInvalidCounts
  else Ok (u64 (current + increase)).

Definition Counts_Add (counts delta : Counts) : Result ScopeErr Counts :=
  let? a := addField (ct_Surfaces counts) (ct_Surfaces delta) in
  let? b := addField (ct_AssetTickets counts) (ct_AssetTickets delta) in
  let? c := addField (ct_AssetSessions counts) (ct_AssetSessions delta) in
  let? d := addField (ct_PluginGatewayTokens counts) (ct_PluginGatewayTokens delta) in
  let? e := addField (ct_ConfirmationTokens counts) (ct_ConfirmationTokens delta) in
  let? f := addField (ct_HandleGrants counts) (ct_HandleGrants delta) in
  let? g := addField (ct_Confirmations counts) (ct_Confirmations delta) in
  let? h := addField (ct_Executions counts) (ct_Executions delta) in
  let? i := addField (ct_ActiveNetworkRequests counts) (ct_ActiveNetworkRequests delta) in
  let? j := addField (ct_Sockets counts) (ct_Sockets delta) in
  let? k := addField (ct_NetworkStreams counts) (ct_NetworkStreams delta) in
  let? l := addField (ct_StorageHostcalls counts) (ct_StorageHostcalls delta) in
  Ok (mkCounts a b c d e f g h i j k l).

Definition Counts_Valid (counts : Counts) : bool :=
  forallb (λ value, negb (MaxSafeInteger <? value)%Z) (fields counts).

Record Snapshot := mkSnapshot {
  sn_State : State;
  sn_Fenced : bool;
  sn_Complete : bool;
  sn_Counts : Counts;
}.

(** The [Phases] map is only ever written through the store, so a copy of a
    record can share it without being observed. *)
Record record := mkrecord {
  sr_Scope : SessionScope;
  sr_State : State;
  sr_Counts : Counts;
  sr_TeardownOperationID : string;
  sr_ProofSHA256 : string;
  sr_HasProof : bool;
  sr_CreatedAt : time;
  sr_UpdatedAt : time;
  sr_Phases : gmap Phase Counts;
}.

Definition set_state (state : State) (r : record) : record :=
  mkrecord (sr_Scope r) state (sr_Counts r) (sr_TeardownOperationID r) (sr_ProofSHA256 r)
    (sr_HasProof r) (sr_CreatedAt r) (sr_UpdatedAt r) (sr_Phases r).

Definition set_counts (counts : Counts) (phases : gmap Phase Counts) (r : record) : record :=
  mkrecord (sr_Scope r) (sr_State r) counts (sr_TeardownOperationID r) (sr_ProofSHA256 r)
    (sr_HasProof r) (sr_CreatedAt r) (sr_UpdatedAt r) phases.

Definition set_updated (at_ : time) (r : record) : record :=
  mkrecord (sr_Scope r) (sr_State r) (sr_Counts r) (sr_TeardownOperationID r) (sr_ProofSHA256 r)
    (sr_HasProof r) (sr_CreatedAt r) at_ (sr_Phases r).

Definition snapshot (r : record) : Snapshot :=
  mkSnapshot (sr_State r) (negb (bool_decide (sr_State r = StateActive)))
    (bool_decide (sr_State r = StateComplete)) (sr_Counts r).

Record RetainedScope := mkRetainedScope {
  rt_SessionScope : SessionScope;
  rt_Snapshot : Snapshot;
  rt_identityHash : string;
  rt_hasIdentity : bool;
}.

(** ** Teardown identities *)

Definition validTeardownOperationID (operationID : string) : bool :=
  bool_decide (operationID = TrimSpace operationID) && teardownOperationIDPattern operationID.

(** A proof is its bytes. *)
Definition ClosedSessionProof := string.

Definition proof_Valid (proof : ClosedSessionProof) : bool :=
  (MinProofBytes <=? len proof)%Z && (len proof <=? MaxProofBytes)%Z.

Definition NewClosedSessionProof (value : string) : Result ScopeErr ClosedSessionProof :=
  if (len value <? MinProofBytes)%Z || (MaxProofBytes <? len value)%Z
  then Err ErrClosedSessionProofInvalid else Ok value.

(** [raw] is the 32 bytes [crypto/rand] returned, [None] when it failed. *)
Definition GenerateClosedSessionProof (raw : option string) : option ClosedSessionProof := raw.

Definition BytesForDurableStorage (proof : ClosedSessionProof) : Result ScopeErr string :=
  if negb (proof_Valid proof) then Err ErrClosedSessionProofInvalid else Ok proof.

Record TeardownIdentity := mkTeardownIdentity {
  ti_OperationID : string;
  ti_proof : ClosedSessionProof;
}.

Definition NewTeardownIdentity (operationID : string) (proof : ClosedSessionProof) :
    Result ScopeErr TeardownIdentity :=
  let operationID := TrimSpace operationID in
  if negb (validTeardownOperationID operationID) || negb (proof_Valid proof)
  then Err ErrTeardownIdentityInvalid else Ok (mkTeardownIdentity operationID proof).

Definition identity_Valid (identity : TeardownIdentity) : bool :=
  validTeardownOperationID (ti_OperationID identity) && proof_Valid (ti_proof identity).

Section digests.
Context (sha256 : string → string).

Definition proof_digest (proof : ClosedSessionProof) : Result ScopeErr string :=
  if negb (proof_Valid proof) then Err ErrClosedSessionProofInvalid else Ok (sha256 proof).

Definition identity_digest (identity : TeardownIdentity) : Result ScopeErr string :=
  if negb (identity_Valid identity) then Err ErrTeardownIdentityInvalid
  else proof_digest (ti_proof identity).

Definition identity_Matches (identity other : TeardownIdentity) : bool :=
  if negb (identity_Valid identity) || negb (identity_Valid other) ||
     negb (bool_decide (ti_OperationID identity = ti_OperationID other))
  then false
  else match identity_digest identity, identity_digest other with
       | Ok d, Ok d' => bool_decide (d = d')
       | _, _ => false
       end.

Definition retainedIdentityHash (operationID proofSHA256 : string) : string :=
  sha256 ("redevplugin-session-scope-retained-identity-v1" +:+ nul +:+ operationID +:+ nul +:+
          proofSHA256).

Definition MatchesIdentity (retained : RetainedScope) (identity : TeardownIdentity) : bool :=
  match identity_digest identity with
  | Err _ => false
  | Ok digest =>
     if negb (rt_hasIdentity retained) then false
     else bool_decide (rt_identityHash retained = retainedIdentityHash (ti_OperationID identity) digest)
  end.

(** The owner-private view of a record. *)
Definition retained_view (current : record) (hasIdentity : bool) : RetainedScope :=
  mkRetainedScope (sr_Scope current) (snapshot current)
    (retainedIdentityHash (sr_TeardownOperationID current) (sr_ProofSHA256 current)) hasIdentity.

(** [Coordinator.ListRetained] on the records the store listed. *)
Fixpoint retained_list (records : list record) : Result ScopeErr (list RetainedScope) :=
  match records with
  | [] => Ok []
  | current :: rest =>
     if negb (SessionScope_Valid (sr_Scope current)) || negb (State_Valid (sr_State current)) ||
        bool_decide (sr_State current = StateActive) || negb (Counts_Valid (sr_Counts current))
     then Err ErrInvalidState
     else let? result := retained_list rest in
          Ok (retained_view current (sr_HasProof current) :: result)
  end.

(** [Coordinator.InspectRetained] on what the store returned for the scope. *)
Definition inspect_retained (scope : SessionScope) (found : Result ScopeErr record) :
    Result ScopeErr RetainedScope :=
  let? current := found in
  if negb (bool_decide (sr_Scope current = scope)) || negb (State_Valid (sr_State current)) ||
     bool_decide (sr_State current = StateActive) || negb (Counts_Valid (sr_Counts current)) ||
     negb (sr_HasProof current)
  then Err ErrInvalidState
  else Ok (retained_view current true).

End digests.

Definition recordMatchesTeardownIdentity (current : record) (operationID proof : string) : bool :=
  sr_HasProof current && bool_decide (sr_TeardownOperationID current = operationID) &&
  bool_decide (sr_ProofSHA256 current = proof).

(** ** The memory store *)

Definition normalizeStoreOptions (maxScopes : Z) : Result ScopeErr Z :=
  let maxScopes := if (maxScopes =? 0)%Z then DefaultMaxScopes else maxScopes in
  if (maxScopes <? 1)%Z || (HardMaxScopes <? maxScopes)%Z then Err ErrFenceCapacity else Ok maxScopes.

Record MemoryStore := mkMemoryStore {
  ms_MaxScopes : Z;
  ms_records : gmap SessionScope record;
}.

Definition NewMemoryStore (maxScopes : Z) : Result ScopeErr MemoryStore :=
  let? normalized := normalizeStoreOptions maxScopes in
  Ok (mkMemoryStore normalized ∅).

(** [None] is the nil context. *)
Definition validateStoreCall (ctx : option GoCtx) (scope : SessionScope) : Result ScopeErr unit :=
  match ctx with
  | None => Err (CtxDone Canceled)
  | Some ctx =>
     match ctx_Err ctx with
     | Some e => Err (CtxDone e)
     | None => match SessionScope_Validate scope with
               | Err e => Err (ScopeInvalid e)
               | Ok _ => Ok tt
               end
     end
  end.

Definition Get (s : MemoryStore) (ctx : option GoCtx) (scope : SessionScope) : Result ScopeErr record :=
  let? _valid := validateStoreCall ctx scope in
  match ms_records s !! scope with
  | None => Err ErrScopeNotFound
  | Some current => Ok current
  end.

(** The lexicographic order of [ListRetained]. *)
Definition scope_le (a b : SessionScope) : Prop :=
  if negb (bool_decide (ss_OwnerSessionHash a = ss_OwnerSessionHash b))
  then String.le (ss_OwnerSessionHash a) (ss_OwnerSessionHash b)
  else if negb (bool_decide (ss_OwnerUserHash a = ss_OwnerUserHash b))
  then String.le (ss_OwnerUserHash a) (ss_OwnerUserHash b)
  else if negb (bool_decide (ss_OwnerEnvHash a = ss_OwnerEnvHash b))
  then String.le (ss_OwnerEnvHash a) (ss_OwnerEnvHash b)
  else String.le (ss_SessionChannelIDHash a) (ss_SessionChannelIDHash b).

Definition record_le (a b : record) : Prop := scope_le (sr_Scope a) (sr_Scope b).

#[export] Instance record_le_dec : RelDecision record_le.
Proof. intros a b. unfold record_le, scope_le. repeat case_match; apply _. Defined.

Definition ListRetained (s : MemoryStore) (ctx : GoCtx) : Result ScopeErr (list record) :=
  match ctx_Err ctx with
  | Some e => Err (CtxDone e)
  | None => Ok (merge_sort record_le (map_to_list (ms_records s)).*2)
  end.

Definition BeginTeardown (wall : time) (s : MemoryStore) (ctx : option GoCtx) (scope : SessionScope)
    (operationID proof : string) (now : time) : MemoryStore * Result ScopeErr record :=
  match validateStoreCall ctx scope with
  | Err e => (s, Err e)
  | Ok _ =>
     if negb (validTeardownOperationID operationID) then (s, Err ErrTeardownIdentityInvalid)
     else
     let now := or_wall wall now in
     let put current := (mkMemoryStore (ms_MaxScopes s) (<[scope := current]> (ms_records s)), Ok current) in
     match ms_records s !! scope with
     | None =>
        if (ms_MaxScopes s <=? Z.of_nat (size (ms_records s)))%Z then (s, Err ErrFenceCapacity)
        else put (mkrecord scope StateDraining zeroCounts operationID proof true (UTC now) (UTC now) ∅)
     | Some current =>
        if negb (recordMatchesTeardownIdentity current operationID proof)
        then (s, Err ErrTeardownIdentityMismatch)
        else if bool_decide (sr_State current = StateIncomplete) ||
                bool_decide (sr_State current = StateDraining)
        then put (set_updated (UTC now) (set_state StateDraining current))
        else if bool_decide (sr_State current = StateComplete) then put current
        else (s, Err ErrInvalidState)
     end
  end.

Definition transition (wall : time) (s : MemoryStore) (ctx : option GoCtx) (scope : SessionScope)
    (now : time) (apply : record → Result ScopeErr record) : MemoryStore * Result ScopeErr record :=
  match validateStoreCall ctx scope with
  | Err e => (s, Err e)
  | Ok _ =>
     let now := or_wall wall now in
     match ms_records s !! scope with
     | None => (s, Err ErrScopeNotFound)
     | Some current =>
        match apply current with
        | Err e => (s, Err e)
        | Ok current =>
           let current := set_updated (UTC now) current in
           (mkMemoryStore (ms_MaxScopes s) (<[scope := current]> (ms_records s)), Ok current)
        end
     end
  end.

Definition Accumulate (wall : time) (s : MemoryStore) (ctx : option GoCtx) (scope : SessionScope)
    (delta : Counts) (now : time) : MemoryStore * Result ScopeErr record :=
  if negb (Counts_Valid delta) then (s, Err ErrInvalidCounts)
  else transition wall s ctx scope now (λ current,
    if negb (bool_decide (sr_State current = StateDraining)) then Err ErrInvalidState
    else
    let? counts := Counts_Add (sr_Counts current) delta in
    Ok (set_counts counts (sr_Phases current) current)).

Definition AccumulatePhase (wall : time) (s : MemoryStore) (ctx : option GoCtx) (scope : SessionScope)
    (phase : Phase) (delta : Counts) (now : time) : MemoryStore * Result ScopeErr record :=
  if negb (Phase_Valid phase) || negb (Counts_Valid delta) then (s, Err ErrInvalidCounts)
  else transition wall s ctx scope now (λ current,
    if negb (bool_decide (sr_State current = StateDraining)) then Err ErrInvalidState
    else match sr_Phases current !! phase with
    | Some _ => Ok current
    | None =>
       let? counts := Counts_Add (sr_Counts current) delta in
       Ok (set_counts counts (<[phase := delta]> (sr_Phases current)) current)
    end).

Definition MarkIncomplete (wall : time) (s : MemoryStore) (ctx : option GoCtx) (scope : SessionScope)
    (now : time) : MemoryStore * Result ScopeErr record :=
  transition wall s ctx scope now (λ current,
    if negb (bool_decide (sr_State current = StateDraining)) &&
       negb (bool_decide (sr_State current = StateIncomplete)) then Err ErrInvalidState
    else Ok (set_state StateIncomplete current)).

Definition MarkComplete (wall : time) (s : MemoryStore) (ctx : option GoCtx) (scope : SessionScope)
    (now : time) : MemoryStore * Result ScopeErr record :=
  transition wall s ctx scope now (λ current,
    if bool_decide (sr_State current = StateComplete) then Ok current
    else if negb (bool_decide (sr_State current = StateDraining)) then Err ErrInvalidState
    else Ok (set_state StateComplete current)).

Definition Finalize (s : MemoryStore) (ctx : option GoCtx) (scope : SessionScope)
    (operationID proof : string) : MemoryStore * Result ScopeErr unit :=
  match validateStoreCall ctx scope with
  | Err e => (s, Err e)
  | Ok _ =>
     match ms_records s !! scope with
     | None => (s, Err ErrClosedSessionProofInvalid)
     | Some current =>
        if negb (bool_decide (sr_State current = StateComplete)) ||
           negb (recordMatchesTeardownIdentity current operationID proof)
        then (s, Err ErrClosedSessionProofInvalid)
        else (mkMemoryStore (ms_MaxScopes s) (delete scope (ms_records s)), Ok tt)
     end
  end.

(** The coordinator's read-only calls. *)
Definition Coordinator_ListRetained (sha256 : string → string) (s : MemoryStore) (ctx : GoCtx) :
    Result ScopeErr (list RetainedScope) :=
  let? records := ListRetained s ctx in retained_list sha256 records.

Definition InspectRetained (sha256 : string → string) (s : MemoryStore) (ctx : option GoCtx)
    (scope : SessionScope) : Result ScopeErr RetainedScope :=
  let? _valid := validateStoreCall ctx scope in
  inspect_retained sha256 scope (Get s ctx scope).

(** ** The interface the coordinator relies on *)

(** The four calls of [Store] that update a retained record, which a
    [Teardown] forwards. *)
Inductive StoreUpdate :=
| UpAccumulate (delta : Counts)
| UpAccumulatePhase (phase : Phase) (delta : Counts)
| UpMarkIncomplete
| UpMarkComplete.

Class ScopeStore (S : Type) := {
  store_Get : S → option GoCtx → SessionScope → Result ScopeErr record;
  store_BeginTeardown : time → S → option GoCtx → SessionScope → string → string → time →
    S * Result ScopeErr record;
  store_Update : time → S → option GoCtx → SessionScope → StoreUpdate → time →
    S * Result ScopeErr record;
  store_Finalize : S → option GoCtx → SessionScope → string → string → S * Result ScopeErr unit;
}.

(** What it promises: a fence appears only with a successful [BeginTeardown]
    of its scope, disappears only with a successful [Finalize], and [Get]
    reports it. *)
Class ScopeStoreLaws (S : Type) `{ScopeStore S} := {
  fenced : S → SessionScope → Prop;
  law_get_found : ∀ s ctx scope r, store_Get s ctx scope = Ok r →
    fenced s scope ↔ sr_State r ≠ StateActive;
  law_get_missing : ∀ s ctx scope, store_Get s ctx scope = Err ErrScopeNotFound → ¬ fenced s scope;
  law_begin_ok : ∀ wall s ctx scope op proof now r s',
    store_BeginTeardown wall s ctx scope op proof now = (s', Ok r) →
    fenced s' scope ∧ ∀ scope', scope' ≠ scope → fenced s' scope' ↔ fenced s scope';
  law_begin_err : ∀ wall s ctx scope op proof now e s',
    store_BeginTeardown wall s ctx scope op proof now = (s', Err e) →
    ∀ scope', fenced s' scope' ↔ fenced s scope';
  law_update : ∀ wall s ctx scope u now s' res,
    store_Update wall s ctx scope u now = (s', res) → ∀ scope', fenced s' scope' ↔ fenced s scope';
  law_finalize_ok : ∀ s ctx scope op proof s',
    store_Finalize s ctx scope op proof = (s', Ok tt) →
    fenced s scope ∧ ¬ fenced s' scope ∧ ∀ scope', scope' ≠ scope → fenced s' scope' ↔ fenced s scope';
  law_finalize_err : ∀ s ctx scope op proof e s',
    store_Finalize s ctx scope op proof = (s', Err e) →
    ∀ scope', fenced s' scope' ↔ fenced s scope';
}.

#[export] Instance MemoryStore_store : ScopeStore MemoryStore := {
  store_Get := Get;
  store_BeginTeardown := BeginTeardown;
  store_Update wall s ctx scope u now :=
    match u with
    | UpAccumulate delta => Accumulate wall s ctx scope delta now
    | UpAccumulatePhase phase delta => AccumulatePhase wall s ctx scope phase delta now
    | UpMarkIncomplete => MarkIncomplete wall s ctx scope now
    | UpMarkComplete => MarkComplete wall s ctx scope now
    end;
  store_Finalize := Finalize;
}.
