(* ===== verification/SessionScopesProps.v ===== *)
(** * Theorems on the session fence store

    The invariant of the store, the state machine of a fence, and the proof
    that the memory store keeps the promises of the interface. *)

From S2P Require Import Prelude GoLib SessionCtx SessionScopes.

Open Scope go_scope.

(** ** Counts *)

Lemma addField_ok a b c :
  (0 ≤ a)%Z → (0 ≤ b)%Z → addField a b = Ok c → c = (a + b)%Z ∧ (c ≤ MaxSafeInteger)%Z.
Proof.
  intros Ha Hb. unfold addField. case_match eqn:Hc; [done|]. go_bools. intros [= <-].
  unfold u64, MaxSafeInteger in *. rewrite (Z.mod_small (_ - _)) in * by lia.
  rewrite Z.mod_small by lia. lia.
Qed.

Definition nonneg (c : Counts) : Prop := Forall (λ v, (0 ≤ v)%Z) (fields c).

(** Field-wise sum. *)
Definition plus (a b : Counts) : Counts :=
  mkCounts (ct_Surfaces a + ct_Surfaces b) (ct_AssetTickets a + ct_AssetTickets b)
    (ct_AssetSessions a + ct_AssetSessions b) (ct_PluginGatewayTokens a + ct_PluginGatewayTokens b)
    (ct_ConfirmationTokens a + ct_ConfirmationTokens b) (ct_HandleGrants a + ct_HandleGrants b)
    (ct_Confirmations a + ct_Confirmations b) (ct_Executions a + ct_Executions b)
    (ct_ActiveNetworkRequests a + ct_ActiveNetworkRequests b) (ct_Sockets a + ct_Sockets b)
    (ct_NetworkStreams a + ct_NetworkStreams b) (ct_StorageHostcalls a + ct_StorageHostcalls b).

Lemma Counts_Add_ok a b c :
  nonneg a → nonneg b → Counts_Add a b = Ok c → c = plus a b ∧ nonneg c ∧ Counts_Valid c = true.
Proof.
  unfold nonneg, Counts_Add, Counts_Valid, fields. rewrite !Forall_cons. intros Ha Hb Hc.
  destruct_and!.
  repeat match goal with
  | H : rbind _ _ = Ok _ |- _ => apply rbind_ok in H as (? & [-> ?]%addField_ok & H); [|done..]
  end.
  injection Hc as <-. split; [done|]. cbn. split; [split_and!; first [lia|constructor]|].
  rewrite !andb_true_iff, !negb_true_iff, !Z.ltb_ge. split_and!; done.
Qed.

(** Adding never wraps and fails only when a field would pass the limit. *)
Lemma Counts_Add_fails a b e :
  nonneg a → nonneg b → Counts_Add a b = Err e → Counts_Valid (plus a b) = false.
Proof.
  assert (∀ x y err, addField x y = Err err → (0 ≤ x)%Z → (0 ≤ y)%Z → (MaxSafeInteger < x + y)%Z) as Hf.
  { intros x y err. unfold addField. case_match eqn:Hc; [|done]. intros _ Hx Hy.
    apply orb_true_iff in Hc as [Hc|Hc]; go_bools; [lia|].
    destruct (Z.lt_ge_cases MaxSafeInteger y); [lia|].
    unfold u64 in Hc. rewrite Z.mod_small in Hc by (unfold MaxSafeInteger in *; lia). lia. }
  unfold nonneg, Counts_Add, fields. rewrite !Forall_cons. intros Ha Hb Hc. destruct_and!.
  apply not_true_iff_false. unfold Counts_Valid, fields, plus; cbn.
  rewrite !andb_true_iff, !negb_true_iff, !Z.ltb_ge. intros Hv. destruct_and!.
  repeat match goal with
  | H : rbind _ _ = Err _ |- _ => apply rbind_err in H as [H|(? & _ & H)];
      [apply Hf in H; [lia|done..]|]
  end. done.
Qed.

(** ** The memory store keeps the promises of the interface *)

Definition mem_fenced (s : MemoryStore) (scope : SessionScope) : Prop :=
  ∃ r, ms_records s !! scope = Some r ∧ sr_State r ≠ StateActive.

Lemma mem_fenced_insert s scope r max scope' :
  mem_fenced (mkMemoryStore max (<[scope := r]> (ms_records s))) scope' ↔
  if decide (scope' = scope) then sr_State r ≠ StateActive else mem_fenced s scope'.
Proof.
  unfold mem_fenced; cbn. case_decide as Hd; subst.
  - rewrite lookup_insert_eq. naive_solver.
  - by rewrite lookup_insert_ne.
Qed.

(** The shape of every transition: an error without effect, or the record
    replaced in place. *)
Lemma transition_cases wall s ctx scope now apply s' res :
  transition wall s ctx scope now apply = (s', res) →
  (s' = s ∧ ∃ e, res = Err e) ∨
  ∃ r r', ms_records s !! scope = Some r ∧ apply r = Ok r' ∧
    let r1 := set_updated (or_wall wall now) r' in
    s' = mkMemoryStore (ms_MaxScopes s) (<[scope := r1]> (ms_records s)) ∧ res = Ok r1.
Proof.
  unfold transition. destruct (validateStoreCall ctx scope); [|intros [= <- <-]; eauto].
  destruct (ms_records s !! scope) as [r|]; [|intros [= <- <-]; eauto].
  destruct (apply r) as [r'|] eqn:Ha; [|intros [= <- <-]; eauto].
  intros [= <- <-]. right. exists r, r'. done.
Qed.

(** How an update changes a record. *)
Definition update_record (u : StoreUpdate) (r : record) : Result ScopeErr record :=
  match u with
  | UpAccumulate delta =>
     if negb (bool_decide (sr_State r = StateDraining)) then Err ErrInvalidState
     else let? counts := Counts_Add (sr_Counts r) delta in Ok (set_counts counts (sr_Phases r) r)
  | UpAccumulatePhase phase delta =>
     if negb (bool_decide (sr_State r = StateDraining)) then Err ErrInvalidState
     else match sr_Phases r !! phase with
     | Some _ => Ok r
     | None => let? counts := Counts_Add (sr_Counts r) delta in
               Ok (set_counts counts (<[phase := delta]> (sr_Phases r)) r)
     end
  | UpMarkIncomplete =>
     if negb (bool_decide (sr_State r = StateDraining)) &&
        negb (bool_decide (sr_State r = StateIncomplete)) then Err ErrInvalidState
     else Ok (set_state StateIncomplete r)
  | UpMarkComplete =>
     if bool_decide (sr_State r = StateComplete) then Ok r
     else if negb (bool_decide (sr_State r = StateDraining)) then Err ErrInvalidState
     else Ok (set_state StateComplete r)
  end.

Definition update_args_ok (u : StoreUpdate) : bool :=
  match u with
  | UpAccumulate delta => Counts_Valid delta
  | UpAccumulatePhase phase delta => Phase_Valid phase && Counts_Valid delta
  | _ => true
  end.

Lemma update_is_transition wall s ctx scope u now :
  store_Update wall s ctx scope u now =
  if update_args_ok u then transition wall s ctx scope now (update_record u)
  else (s, Err ErrInvalidCounts).
Proof.
  destruct u as [delta|phase delta| |]; cbn [store_Update MemoryStore_store update_args_ok]; try done.
  - unfold Accumulate. by destruct (Counts_Valid delta).
  - unfold AccumulatePhase. by destruct (Phase_Valid phase), (Counts_Valid delta).
Qed.

(** The states an update allows. *)
Lemma update_record_state u r r' :
  update_record u r = Ok r' →
  sr_Scope r' = sr_Scope r ∧ sr_TeardownOperationID r' = sr_TeardownOperationID r ∧
  sr_ProofSHA256 r' = sr_ProofSHA256 r ∧ sr_HasProof r' = sr_HasProof r ∧
  ((sr_State r = StateDraining ∧ sr_State r' ∈ [StateDraining; StateIncomplete; StateComplete]) ∨
   (sr_State r = StateIncomplete ∧ sr_State r' = StateIncomplete) ∨
   (sr_State r = StateComplete ∧ sr_State r' = StateComplete)).
Proof.
  intros Hu. destruct u as [delta|phase delta| |]; cbn in Hu.
  - case_bool_decide as Hs; [|done]. cbn in Hu. apply rbind_ok in Hu as (? & _ & [= <-]). cbn.
    rewrite Hs. split_and!; try done. left. set_solver.
  - case_bool_decide as Hs; [|done]. cbn in Hu.
    destruct (sr_Phases r !! phase).
    + injection Hu as <-. rewrite Hs. split_and!; try done. left. set_solver.
    + apply rbind_ok in Hu as (? & _ & [= <-]). cbn. rewrite Hs. split_and!; try done. left. set_solver.
  - repeat case_bool_decide; cbn in Hu; simplify_eq; cbn; split_and!; try done; set_solver.
  - repeat case_bool_decide; cbn in Hu; simplify_eq; cbn; split_and!; try done; set_solver.
Qed.

Lemma begin_cases wall s ctx scope op proof now s' res :
  BeginTeardown wall s ctx scope op proof now = (s', res) →
  (s' = s ∧ ∃ e, res = Err e) ∨
  ∃ r, res = Ok r ∧ s' = mkMemoryStore (ms_MaxScopes s) (<[scope := r]> (ms_records s)) ∧
    validTeardownOperationID op = true ∧ SessionScope_Valid scope = true ∧
    sr_TeardownOperationID r = op ∧ sr_ProofSHA256 r = proof ∧ sr_HasProof r = true ∧
    ((ms_records s !! scope = None ∧ (Z.of_nat (size (ms_records s)) < ms_MaxScopes s)%Z ∧
      sr_Scope r = scope ∧ sr_State r = StateDraining ∧ sr_Counts r = zeroCounts ∧ sr_Phases r = ∅) ∨
     ∃ r0, ms_records s !! scope = Some r0 ∧ sr_Scope r = sr_Scope r0 ∧ sr_Counts r = sr_Counts r0 ∧
       sr_Phases r = sr_Phases r0 ∧ sr_TeardownOperationID r0 = op ∧ sr_ProofSHA256 r0 = proof ∧
       ((sr_State r0 ∈ [StateIncomplete; StateDraining] ∧ sr_State r = StateDraining) ∨
        (sr_State r0 = StateComplete ∧ r = r0))).
Proof.
  unfold BeginTeardown. destruct (validateStoreCall ctx scope) eqn:Hv; [|intros [= <- <-]; eauto].
  assert (SessionScope_Valid scope = true) as Hvalid.
  { unfold validateStoreCall in Hv. destruct ctx as [c|]; [|done]. destruct (ctx_Err c); [done|].
    unfold SessionScope_Valid. by destruct (SessionScope_Validate scope). }
  destruct (validTeardownOperationID op) eqn:Hop; cbn [negb]; [|intros [= <- <-]; eauto].
  destruct (ms_records s !! scope) as [r0|] eqn:Hr.
  - destruct (recordMatchesTeardownIdentity r0 op proof) eqn:Hid; cbn [negb]; [|intros [= <- <-]; eauto].
    unfold recordMatchesTeardownIdentity in Hid.
    rewrite !andb_true_iff, !bool_decide_eq_true in Hid. destruct Hid as [[Hp Ho] Hsha].
    repeat case_bool_decide; cbn [orb]; intros [= <- <-]; eauto; right; eexists; split_and!;
      try done; right; exists r0; split_and!; try done; cbn; set_solver.
  - case_match eqn:Hcap; [intros [= <- <-]; eauto|]. intros [= <- <-]. right. go_bools.
    eexists. split_and!; try done. left. done.
Qed.

Lemma finalize_cases s ctx scope op proof s' res :
  Finalize s ctx scope op proof = (s', res) →
  (s' = s ∧ ∃ e, res = Err e) ∨
  ∃ r, ms_records s !! scope = Some r ∧ sr_State r = StateComplete ∧ res = Ok tt ∧
    recordMatchesTeardownIdentity r op proof = true ∧
    s' = mkMemoryStore (ms_MaxScopes s) (delete scope (ms_records s)).
Proof.
  unfold Finalize. destruct (validateStoreCall ctx scope); [|intros [= <- <-]; eauto].
  destruct (ms_records s !! scope) as [r|] eqn:Hr; [|intros [= <- <-]; eauto].
  case_match eqn:Hb; [intros [= <- <-]; eauto|]. intros [= <- <-]. right.
  apply orb_false_iff in Hb as [Hst Hid]. rewrite negb_false_iff in Hst, Hid.
  apply bool_decide_eq_true in Hst. exists r. done.
Qed.

Lemma update_cases wall s ctx scope u now s' res :
  store_Update wall s ctx scope u now = (s', res) →
  (s' = s ∧ ∃ e, res = Err e) ∨
  ∃ r r', ms_records s !! scope = Some r ∧ update_args_ok u = true ∧ update_record u r = Ok r' ∧
    let r1 := set_updated (or_wall wall now) r' in
    s' = mkMemoryStore (ms_MaxScopes s) (<[scope := r1]> (ms_records s)) ∧ res = Ok r1.
Proof.
  rewrite update_is_transition. destruct (update_args_ok u); [|intros [= <- <-]; eauto].
  intros [[-> He]|(r & r' & ? & ? & ? & ?)]%transition_cases; [by left|]. right. eauto 8.
Qed.

#[export] Program Instance MemoryStore_laws : ScopeStoreLaws MemoryStore := { fenced := mem_fenced }.
Next Obligation.
  cbn. intros s ctx scope r Hg. unfold Get in Hg. apply rbind_ok in Hg as (_ & _ & Hg).
  destruct (ms_records s !! scope) as [r'|] eqn:Hr; [|done]. injection Hg as ->.
  unfold mem_fenced. rewrite Hr. naive_solver.
Qed.
Next Obligation.
  cbn. intros s ctx scope Hg (r & Hr & _). unfold Get in Hg. rewrite Hr in Hg.
  apply rbind_err in Hg as [Hg|(? & _ & ?)]; [|done]. unfold validateStoreCall in Hg. by go_cases.
Qed.
Next Obligation.
  cbn. intros wall s ctx scope op proof now r s' [(_ & e & ?)|(r0 & [= <-] & -> & _ & _ & _ & _ & _ & Hst)]%begin_cases;
    [done|].
  assert (sr_State r ≠ StateActive) as Hne.
  { destruct Hst as [(_ & _ & _ & -> & _)|(r0 & _ & _ & _ & _ & _ & _ & [[_ ->]|[Hc ->]])]; [done|done|].
    by rewrite Hc. }
  split; [|intros scope' Hsc]; rewrite mem_fenced_insert; case_decide; done.
Qed.
Next Obligation.
  cbn. by intros wall s ctx scope op proof now e s' [(-> & _)|(r0 & ? & _)]%begin_cases.
Qed.
Next Obligation.
  intros wall s ctx scope u now s' res [(-> & _)|(r & r' & Hr & _ & Hu & -> & _)]%update_cases scope'; [done|].
  rewrite mem_fenced_insert. case_decide as Hd; [|done]. subst. cbn.
  apply update_record_state in Hu as (_ & _ & _ & _ & Hst). unfold mem_fenced. rewrite Hr.
  assert (sr_State r ≠ StateActive ∧ sr_State r' ≠ StateActive) as [? ?].
  { destruct Hst as [(-> & Hin)|[(-> & ->)|(-> & ->)]]; [|done|done]. split; [done|].
    rewrite !elem_of_cons, elem_of_nil in Hin. by destruct Hin as [->|[->|[->|[]]]]. }
  split; [intros _; eauto|done].
Qed.
Next Obligation.
  cbn. intros s ctx scope op proof s' [(_ & e & ?)|(r & Hr & Hst & _ & _ & ->)]%finalize_cases; [done|].
  split_and!.
  - exists r. split; [done|]. by rewrite Hst.
  - intros (r' & Hr' & _). cbn in Hr'. by rewrite lookup_delete_eq in Hr'.
  - intros scope' Hne. unfold mem_fenced; cbn. by rewrite lookup_delete_ne.
Qed.
Next Obligation.
  cbn. by intros s ctx scope op proof e s' [(-> & _)|(r & _ & _ & ? & _)]%finalize_cases.
Qed.

(** ** The invariant and the state machine *)

Inductive ScopeOp :=
| OpBegin (wall : time) (ctx : option GoCtx) (scope : SessionScope) (op proof : string) (now : time)
| OpUpdate (wall : time) (ctx : option GoCtx) (scope : SessionScope) (u : StoreUpdate) (now : time)
| OpFinalize (ctx : option GoCtx) (scope : SessionScope) (op proof : string).

Definition scope_step (s : MemoryStore) (op : ScopeOp) : MemoryStore :=
  match op with
  | OpBegin wall ctx scope op proof now => (BeginTeardown wall s ctx scope op proof now).1
  | OpUpdate wall ctx scope u now => (store_Update wall s ctx scope u now).1
  | OpFinalize ctx scope op proof => (Finalize s ctx scope op proof).1
  end.

(** The fields of a Go [Counts] are unsigned. *)
Definition op_typed (op : ScopeOp) : Prop :=
  match op with
  | OpUpdate _ _ _ (UpAccumulate delta) _ | OpUpdate _ _ _ (UpAccumulatePhase _ delta) _ => nonneg delta
  | _ => True
  end.

Record fence_ok (scope : SessionScope) (r : record) : Prop := {
  fok_scope : sr_Scope r = scope;
  fok_valid : SessionScope_Valid scope = true;
  fok_state : sr_State r ∈ [StateDraining; StateIncomplete; StateComplete];
  fok_proof : sr_HasProof r = true;
  fok_op : validTeardownOperationID (sr_TeardownOperationID r) = true;
  fok_nonneg : nonneg (sr_Counts r);
  fok_counts : Counts_Valid (sr_Counts r) = true;
  fok_phase : ∀ phase delta, sr_Phases r !! phase = Some delta →
    Phase_Valid phase = true ∧ Forall2 Z.le (fields delta) (fields (sr_Counts r));
}.

Definition store_wf (s : MemoryStore) : Prop :=
  (Z.of_nat (size (ms_records s)) ≤ ms_MaxScopes s)%Z ∧
  ∀ scope r, ms_records s !! scope = Some r → fence_ok scope r.

Lemma plus_dominates a b : nonneg a → nonneg b →
  Forall2 Z.le (fields a) (fields (plus a b)) ∧ Forall2 Z.le (fields b) (fields (plus a b)).
Proof.
  unfold nonneg, fields. rewrite !Forall_cons. cbn. intros Ha Hb. destruct_and!.
  split; repeat constructor; lia.
Qed.

Lemma fence_ok_counts scope r delta counts phases :
  fence_ok scope r → nonneg delta → Counts_Add (sr_Counts r) delta = Ok counts →
  (∀ phase d, phases !! phase = Some d →
     sr_Phases r !! phase = Some d ∨ (Phase_Valid phase = true ∧ d = delta)) →
  fence_ok scope (set_counts counts phases r).
Proof.
  intros [] Hd Hadd Hph. apply Counts_Add_ok in Hadd as (-> & Hn & Hv); [|done..].
  destruct (plus_dominates (sr_Counts r) delta) as [H1 H2]; [done..|].
  constructor; cbn [set_counts sr_Scope sr_State sr_HasProof sr_TeardownOperationID sr_Counts sr_Phases]; try done.
  intros phase d [Hold|[? ->]]%Hph; [|done]. destruct (fok_phase0 _ _ Hold) as [? Hle]. split; [done|].
  by etrans.
Qed.

Lemma fence_ok_same scope r r' :
  fence_ok scope r → sr_Scope r' = sr_Scope r → sr_Counts r' = sr_Counts r →
  sr_Phases r' = sr_Phases r → sr_HasProof r' = sr_HasProof r →
  sr_TeardownOperationID r' = sr_TeardownOperationID r →
  sr_State r' ∈ [StateDraining; StateIncomplete; StateComplete] → fence_ok scope r'.
Proof. intros [] H1 H2 H3 H4 H5 H6. constructor; rewrite ?H1, ?H2, ?H3, ?H4, ?H5; done. Qed.

Lemma update_record_ok scope u r r' wall ctx now :
  fence_ok scope r → update_args_ok u = true → op_typed (OpUpdate wall ctx scope u now) →
  update_record u r = Ok r' → fence_ok scope r'.
Proof.
  intros Hok Hargs Hty Hu. pose proof (update_record_state _ _ _ Hu) as (? & ? & _ & ? & Hst).
  assert (sr_State r' ∈ [StateDraining; StateIncomplete; StateComplete]) as Hin.
  { destruct Hst as [(_ & ?)|[(_ & ->)|(_ & ->)]]; [done|set_solver..]. }
  destruct u as [delta|phase delta| |]; cbn in Hu, Hty, Hargs.
  - case_bool_decide; [|done]. apply rbind_ok in Hu as (c & Hc & [= <-]).
    eapply fence_ok_counts; eauto.
  - case_bool_decide; [|done]. destruct (sr_Phases r !! phase) eqn:Hp; [by injection Hu as <-|].
    apply rbind_ok in Hu as (c & Hc & [= <-]). eapply fence_ok_counts; eauto.
    apply andb_true_iff in Hargs as [? _]. intros p d [[<- <-]|[_ ?]]%lookup_insert_Some; auto.
  - repeat case_bool_decide; cbn in Hu; simplify_eq; by eapply fence_ok_same.
  - repeat case_bool_decide; cbn in Hu; simplify_eq; by eapply fence_ok_same.
Qed.

Lemma store_wf_step s op : store_wf s → op_typed op → store_wf (scope_step s op).
Proof.
  intros [Hsz Hall] Hty. assert (∀ scope r, is_Some (ms_records s !! scope) ∨
    (Z.of_nat (size (ms_records s)) < ms_MaxScopes s)%Z → fence_ok scope r →
    store_wf (mkMemoryStore (ms_MaxScopes s) (<[scope := r]> (ms_records s)))) as Hput.
  { intros scope r Hroom Hok. split; cbn.
    - destruct (ms_records s !! scope) as [r0|] eqn:Hr.
      + by rewrite map_size_insert_Some by eauto.
      + rewrite map_size_insert_None by done. destruct Hroom as [[? ?]|?]; [done|lia].
    - intros scope' r' [[<- <-]|[_ ?]]%lookup_insert_Some; auto. }
  destruct op as [wall ctx scope op proof now|wall ctx scope u now|ctx scope op proof]; cbn [scope_step].
  - destruct (BeginTeardown _ _ _ _ _ _ _) as [s' res] eqn:Hb.
    apply begin_cases in Hb as [(-> & _)|(r & _ & -> & Hop & Hv & Ho & _ & Hp & Hst)]; [by split|].
    destruct Hst as [(Hn & Hroom & Hsc & Hs & Hc & Hph)|(r0 & Hr0 & Hsc & Hc & Hph & Ho0 & _ & Hs)].
    + apply Hput; [by right|]. constructor; rewrite ?Hs, ?Hc, ?Hph, ?Ho; try done; [set_solver|repeat constructor; done].
    + apply Hput; [left; eauto|]. pose proof (Hall _ _ Hr0) as Hok0.
      apply (fence_ok_same scope r0); try done; [by rewrite (fok_proof _ _ Hok0)|congruence|].
      destruct Hs as [[_ ->]|[_ ->]]; [set_solver|apply (fok_state _ _ Hok0)].
  - destruct (store_Update _ _ _ _ _ _) as [s' res] eqn:Hu.
    apply update_cases in Hu as [(-> & _)|(r & r' & Hr & Hargs & Hu & -> & _)]; [by split|].
    apply Hput; [left; eauto|]. pose proof (update_record_ok _ _ _ _ _ _ _ (Hall _ _ Hr) Hargs Hty Hu) as Hok.
    by apply (fence_ok_same scope r'); try done; apply Hok.
  - destruct (Finalize _ _ _ _ _) as [s' res] eqn:Hf.
    apply finalize_cases in Hf as [(-> & _)|(r & Hr & _ & _ & _ & ->)]; [by split|]. split; cbn.
    + pose proof (map_size_delete_le (ms_records s) scope). lia.
    + intros scope' r' [_ ?]%lookup_delete_Some. auto.
Qed.

Lemma new_store_wf max s : NewMemoryStore max = Ok s → store_wf s.
Proof.
  unfold NewMemoryStore. intros (m & Hn & [= <-])%rbind_ok. unfold normalizeStoreOptions in Hn.
  destruct (_ || _) eqn:Hb in Hn; [done|]. injection Hn as <-. apply orb_false_iff in Hb as [Hb _].
  split; cbn [ms_records ms_MaxScopes].
  - rewrite map_size_empty. apply Z.ltb_ge in Hb. lia.
  - intros scope r. by rewrite lookup_empty.
Qed.

Lemma store_run_wf s ops : store_wf s → Forall op_typed ops → store_wf (foldl scope_step s ops).
Proof.
  intros Hs Hty. revert s Hs. induction Hty as [|op ops Hop _ IH]; intros s Hs; cbn; [done|].
  by apply IH, store_wf_step.
Qed.

(** the fence store is bounded and its records are well formed. After any
    sequence of calls on a new store there are at most [MaxScopes] fences, each
    under its own valid scope, in one of the three fenced states, bound to a
    valid teardown operation with a proof, with counts that never pass 2^53-1
    and that include what every recorded phase reported. *)
Theorem session_fence_invariant max s ops :
  NewMemoryStore max = Ok s → Forall op_typed ops → store_wf (foldl scope_step s ops).
Proof. intros Hn. apply store_run_wf. by eapply new_store_wf. Qed.

(** What a call may do to the fence of a scope. *)
Definition fence_life (op : ScopeOp) (scope : SessionScope) (before after : option record) : Prop :=
  match before, after with
  | None, None => True
  | None, Some r' => sr_State r' = StateDraining ∧ sr_Counts r' = zeroCounts ∧
      ∃ wall ctx oid proof now, op = OpBegin wall ctx scope oid proof now ∧
        sr_TeardownOperationID r' = oid ∧ sr_ProofSHA256 r' = proof
  | Some r, None => sr_State r = StateComplete ∧
      ∃ ctx oid proof, op = OpFinalize ctx scope oid proof ∧
        sr_TeardownOperationID r = oid ∧ sr_ProofSHA256 r = proof
  | Some r, Some r' =>
      sr_TeardownOperationID r' = sr_TeardownOperationID r ∧ sr_ProofSHA256 r' = sr_ProofSHA256 r ∧
      (sr_State r' = sr_State r ∨
       (sr_State r = StateDraining ∧ ∃ wall ctx now,
          (op = OpUpdate wall ctx scope UpMarkIncomplete now ∧ sr_State r' = StateIncomplete) ∨
          (op = OpUpdate wall ctx scope UpMarkComplete now ∧ sr_State r' = StateComplete)) ∨
       (sr_State r = StateIncomplete ∧ sr_State r' = StateDraining ∧ ∃ wall ctx now,
          op = OpBegin wall ctx scope (sr_TeardownOperationID r) (sr_ProofSHA256 r) now))
  end.

Lemma fence_life_refl op scope o : fence_life op scope o o.
Proof. destruct o; cbn; auto. Qed.

(** the life of a fence. A fence appears only by [BeginTeardown], as
    draining with zero counts; while it stays its identity never changes, it
    leaves draining for incomplete or complete only by the matching mark, goes
    back from incomplete to draining only by a [BeginTeardown] with the same
    identity, and never leaves complete; it disappears only by a [Finalize] of
    a complete fence with the same operation and proof. *)
Theorem session_fence_life s op scope :
  fence_life op scope (ms_records s !! scope) (ms_records (scope_step s op) !! scope).
Proof.
  destruct op as [wall ctx sc oid proof now|wall ctx sc u now|ctx sc oid proof]; cbn [scope_step].
  - destruct (BeginTeardown _ _ _ _ _ _ _) as [s' res] eqn:Hb. cbn [fst].
    apply begin_cases in Hb as [(-> & _)|(r & _ & -> & _ & _ & Ho & Hp & _ & Hst)].
    { apply fence_life_refl. }
    cbn [ms_records]. destruct (decide (sc = scope)) as [->|Hne].
    2: { rewrite lookup_insert_ne by done. apply fence_life_refl. }
    rewrite lookup_insert_eq.
    destruct Hst as [(Hn & _ & _ & Hs & Hc & _)|(r0 & Hr0 & _ & _ & _ & Ho0 & Hp0 & Hs)].
    + rewrite Hn. split_and!; try done. by exists wall, ctx, oid, proof, now.
    + rewrite Hr0. split_and!; [congruence..|]. destruct Hs as [[Hin Hd]|[Hc ->]]; [|by left].
      rewrite !elem_of_cons, elem_of_nil in Hin. destruct Hin as [Hi|[Hi|[]]]; [|left; congruence].
      right. right. split_and!; try done. exists wall, ctx, now. cbn. congruence.
  - destruct (store_Update _ _ _ _ _ _) as [s' res] eqn:Hu. cbn [fst].
    apply update_cases in Hu as [(-> & _)|(r & r' & Hr & _ & Hu & -> & _)].
    { apply fence_life_refl. }
    cbn [ms_records]. destruct (decide (sc = scope)) as [->|Hne].
    2: { rewrite lookup_insert_ne by done. apply fence_life_refl. }
    rewrite lookup_insert_eq, Hr. pose proof (update_record_state _ _ _ Hu) as (_ & Ho & Hp & _ & _).
    cbn [set_updated sr_TeardownOperationID sr_ProofSHA256 sr_State]. split_and!; try done.
    destruct u as [delta|phase delta| |]; cbn in Hu.
    + case_bool_decide; [|done]. apply rbind_ok in Hu as (? & _ & [= <-]). by left.
    + case_bool_decide; [|done]. destruct (sr_Phases r !! phase); [by injection Hu as <-; left|].
      apply rbind_ok in Hu as (? & _ & [= <-]). by left.
    + destruct (_ && _) eqn:Hb in Hu; [done|]. injection Hu as <-.
      apply andb_false_iff in Hb as [Hb|Hb]; apply negb_false_iff, bool_decide_eq_true in Hb.
      2: { left. cbn. congruence. }
      right. left. split; [done|].
      exists wall, ctx, now. by left.
    + repeat case_bool_decide; cbn in Hu; simplify_eq; [by left|]. right. left. split; [done|].
      exists wall, ctx, now. by right.
  - destruct (Finalize _ _ _ _ _) as [s' res] eqn:Hf. cbn [fst].
    apply finalize_cases in Hf as [(-> & _)|(r & Hr & Hs & _ & Hid & ->)].
    { apply fence_life_refl. }
    cbn [ms_records]. destruct (decide (sc = scope)) as [->|Hne].
    2: { rewrite lookup_delete_ne by done. apply fence_life_refl. }
    rewrite lookup_delete_eq, Hr. split; [done|]. exists ctx, oid, proof. split; [done|].
    unfold recordMatchesTeardownIdentity in Hid. rewrite !andb_true_iff, !bool_decide_eq_true in Hid. tauto.
Qed.

(** A phase is counted once. [AccumulatePhase] succeeds only on a draining
    fence and adds the reported counts the first time a phase reports, without
    overflow; every retry for that phase, with whatever counts, succeeds and
    leaves the counts as they are. *)
Theorem phase_counted_once wall s ctx scope phase delta now s1 r1 :
  store_wf s → nonneg delta → AccumulatePhase wall s ctx scope phase delta now = (s1, Ok r1) →
  (∃ r0, ms_records s !! scope = Some r0 ∧ sr_State r0 = StateDraining ∧
     sr_Counts r1 = match sr_Phases r0 !! phase with
                    | Some _ => sr_Counts r0
                    | None => plus (sr_Counts r0) delta
                    end) ∧
  (∀ wall' now' delta', Counts_Valid delta' = true →
     ∃ s2 r2, AccumulatePhase wall' s1 ctx scope phase delta' now' = (s2, Ok r2) ∧
       sr_Counts r2 = sr_Counts r1).
Proof.
  intros [_ Hall] Hn Hacc.
  assert (validateStoreCall ctx scope = Ok tt) as Hv.
  { unfold AccumulatePhase, transition in Hacc. case_match; [done|].
    by destruct (validateStoreCall ctx scope) as [[]|]. }
  change (AccumulatePhase wall s ctx scope phase delta now) with
    (store_Update wall s ctx scope (UpAccumulatePhase phase delta) now) in Hacc.
  apply update_cases in Hacc as [(_ & e & ?)|(r0 & r & Hr0 & Hargs & Hu & -> & [= ->])]; [done|].
  cbn in Hargs. apply andb_true_iff in Hargs as [Hph _]. cbn in Hu. case_bool_decide as Hd; [|done].
  assert (sr_State r = StateDraining ∧ is_Some (sr_Phases r !! phase) ∧
    sr_Counts r = match sr_Phases r0 !! phase with Some _ => sr_Counts r0
                  | None => plus (sr_Counts r0) delta end) as (Hd' & [d Hp] & Hc).
  { cbn in Hu. destruct (sr_Phases r0 !! phase) eqn:Hp; [injection Hu as <-; by rewrite Hp|].
    apply rbind_ok in Hu as (c & Hc & [= <-]). cbn. rewrite lookup_insert_eq.
    apply Counts_Add_ok in Hc as (-> & _); [|apply (Hall _ _ Hr0)|done]. eauto. }
  split; [by exists r0|]. intros wall' now' delta' Hv'. unfold AccumulatePhase, transition.
  rewrite Hph, Hv', Hv. cbn. rewrite lookup_insert_eq. cbn. rewrite bool_decide_eq_true_2 by done. cbn.
  rewrite Hp. eauto.
Qed.

(** ** The reconciliation view *)

Lemma fence_state_valid st :
  st ∈ [StateDraining; StateIncomplete; StateComplete] → State_Valid st = true ∧ st ≠ StateActive.
Proof. rewrite !elem_of_cons, elem_of_nil. by intros [->|[->|[->|[]]]]. Qed.

(** Startup reconciliation sees every fence. On a store reached by any
    calls, [ListRetained] never reports an invalid state and returns one view
    per fence, [InspectRetained] finds the fence of every valid scope that has
    one, and a view matches the identity its teardown began with. *)
Theorem retained_fences_reconcile sha256 max s0 ops :
  NewMemoryStore max = Ok s0 → Forall op_typed ops →
  let s := foldl scope_step s0 ops in
  (∀ ctx, ctx_Err ctx = None →
     ∃ l, Coordinator_ListRetained sha256 s ctx = Ok l ∧
       ∀ v, v ∈ l ↔ ∃ scope r, ms_records s !! scope = Some r ∧ v = retained_view sha256 r true) ∧
  (∀ ctx scope r, ctx_Err ctx = None → ms_records s !! scope = Some r →
     InspectRetained sha256 s (Some ctx) scope = Ok (retained_view sha256 r true) ∧
     ∀ identity, identity_digest sha256 identity = Ok (sr_ProofSHA256 r) →
       ti_OperationID identity = sr_TeardownOperationID r →
       MatchesIdentity sha256 (retained_view sha256 r true) identity = true).
Proof.
  intros Hnew Hty s. assert (store_wf s) as [_ Hall] by (apply store_run_wf; [by eapply new_store_wf|done]).
  split.
  - intros ctx Hctx. unfold Coordinator_ListRetained, ListRetained. rewrite Hctx. cbn [rbind].
    set (records := merge_sort record_le _).
    assert (∀ r, r ∈ records ↔ ∃ scope, ms_records s !! scope = Some r) as Hrec.
    { intros r. subst records. rewrite merge_sort_elem_of, list_elem_of_fmap.
      setoid_rewrite elem_of_map_to_list'. split; [intros ([sc r'] & -> & ?); eauto|].
      intros [sc ?]. by exists (sc, r). }
    assert (∀ l, (∀ r, r ∈ l → ∃ scope, fence_ok scope r) →
      retained_list sha256 l = Ok ((λ r, retained_view sha256 r true) <$> l)) as Hl.
    { intros l. induction l as [|r l IH]; intros Hr; cbn [retained_list]; [done|].
      destruct (Hr r) as [sc Hok]; [left|]. destruct (fence_state_valid _ (fok_state _ _ Hok)) as [Hv Hna].
      rewrite (fok_scope _ _ Hok), (fok_valid _ _ Hok), Hv, bool_decide_eq_false_2, (fok_counts _ _ Hok) by done.
      cbn. rewrite IH by (intros; apply Hr; by right). cbn. by rewrite (fok_proof _ _ Hok). }
    rewrite Hl by (intros r [sc Hs]%Hrec; eauto). eexists. split; [done|]. intros v.
    rewrite list_elem_of_fmap. setoid_rewrite Hrec. naive_solver.
  - intros ctx scope r Hctx Hr. pose proof (Hall _ _ Hr) as Hok. split.
    + unfold InspectRetained, Get, validateStoreCall. rewrite Hctx, Hr.
      rewrite (proj2 (SessionScope_Validate_ok scope) (fok_valid _ _ Hok)).
      unfold inspect_retained. cbn [rbind]. destruct (fence_state_valid _ (fok_state _ _ Hok)) as [Hv Hna].
      by rewrite (fok_scope _ _ Hok), bool_decide_eq_true_2, Hv, bool_decide_eq_false_2,
        (fok_counts _ _ Hok), (fok_proof _ _ Hok) by done.
    + intros identity Hd Ho. unfold MatchesIdentity. rewrite Hd. cbn. rewrite Ho.
      by apply bool_decide_eq_true_2.
Qed.

(** ** Witnesses *)

Definition sample_ctx : option GoCtx := Some (mkGoCtx None None).
Definition sample_scope : SessionScope := mkSessionScope "sess" "user" "env" "chan".
Definition sample_counts : Counts := mkCounts 1 0 0 0 0 0 0 0 2 0 0 0.
Definition sample_store : MemoryStore := mkMemoryStore 4096 ∅.
Definition sample_ops : list ScopeOp := [OpBegin 5 sample_ctx sample_scope "op1" "digest" 10].

Lemma session_fence_invariant_witness :
  store_wf (foldl scope_step sample_store sample_ops) ∧
  size (ms_records (foldl scope_step sample_store sample_ops)) = 1.
Proof.
  split; [|vm_compute; reflexivity].
  apply (session_fence_invariant 0); [reflexivity|repeat constructor].
Defined.

Lemma sample_run_wf : store_wf (foldl scope_step sample_store sample_ops).
Proof. apply store_run_wf; [by apply (new_store_wf 0)|repeat constructor]. Qed.

Lemma phase_counted_once_witness :
  ∃ s1 r1, AccumulatePhase 5 (foldl scope_step sample_store sample_ops) sample_ctx sample_scope
             PhaseBridge sample_counts 20 = (s1, Ok r1) ∧ sr_Counts r1 = sample_counts ∧
    ∃ s2 r2, AccumulatePhase 5 s1 sample_ctx sample_scope PhaseBridge sample_counts 30 = (s2, Ok r2) ∧
      sr_Counts r2 = sr_Counts r1.
Proof.
  destruct (AccumulatePhase 5 (foldl scope_step sample_store sample_ops) sample_ctx sample_scope
    PhaseBridge sample_counts 20) as [s1 [r1|e]] eqn:Ha; [|vm_compute in Ha; discriminate].
  destruct (phase_counted_once 5 _ sample_ctx sample_scope PhaseBridge sample_counts 20 s1 r1
    sample_run_wf) as [_ H2]; [repeat constructor; vm_compute; discriminate|exact Ha|].
  exists s1, r1. split; [reflexivity|]. split; [vm_compute in Ha; injection Ha as _ <-; reflexivity|].
  apply H2. vm_compute. reflexivity.
Defined.

Lemma retained_fences_reconcile_witness :
  ∃ r, ms_records (foldl scope_step sample_store sample_ops) !! sample_scope = Some r ∧
    InspectRetained (λ s, s) (foldl scope_step sample_store sample_ops) sample_ctx sample_scope
      = Ok (retained_view (λ s, s) r true).
Proof.
  destruct (ms_records (foldl scope_step sample_store sample_ops) !! sample_scope) as [r|] eqn:Hr;
    [|vm_compute in Hr; discriminate].
  exists r. split; [reflexivity|].
  apply (retained_fences_reconcile (λ s, s) 0 sample_store sample_ops); [reflexivity|repeat constructor|reflexivity|exact Hr].
Defined.
