(* ===== verification/SessionCoordinator.v ===== *)
(** * pkg/sessionscope: the coordinator

    [Coordinator] admits session work ([Reserve]) and tears sessions down
    ([BeginTeardown], [Finalize]) through one gate per scope. The model keeps
    the gates in a heap, because the code compares and keeps gate pointers
    across critical sections: [co_gates] is the map of pointers, [co_heap] the
    gates they point to. A channel is a number, closed when it is in
    [co_closed]. Every critical section under [c.mu] is one function on the
    state, every call of the store one step, and goroutines interleave between
    them. The counters of a gate count goroutines, so they are natural
    numbers: 2^64 goroutines do not exist. *)

From S2P Require Import Prelude GoLib SessionCtx SessionScopes.

Open Scope go_scope.

Record scopeGate := mkscopeGate {
  sg_active : nat;
  sg_teardown : bool;
  sg_fenced : bool;
  sg_waiters : nat;
  sg_changed : nat;
}.

(** What an acquired gate is for. *)
Inductive Job :=
| JobBegin (operationID digest : string) (now : time)
| JobFinalize (operationID digest : string).

(** Where a goroutine stands. [TReserve] and [TAcquire] are at the top of
    their loops; the waiting states hold the channel they read before
    unlocking; [TReserved] holds a [Reservation], [TTeardown] a [Teardown]. *)
Inductive Thread :=
| TReserve (scope : SessionScope)
| TReserveWaiting (scope : SessionScope) (gate ch : nat)
| TReserveChecking (scope : SessionScope) (gate : nat)
| TReserved (scope : SessionScope) (gate : nat)
| TReserveFailing (scope : SessionScope) (gate : nat) (e : ScopeErr)
| TAcquire (job : Job) (scope : SessionScope)
| TAcquireWaiting (job : Job) (scope : SessionScope) (gate ch : nat)
| TOwned (job : Job) (scope : SessionScope) (gate : nat)
| TDraining (job : Job) (scope : SessionScope) (gate ch : nat)
| TAcquired (job : Job) (scope : SessionScope) (gate : nat)
| TBegun (scope : SessionScope) (gate : nat)
| TTeardown (scope : SessionScope) (gate : nat)
| TReleasing (scope : SessionScope) (gate : nat) (res : Result ScopeErr unit)
| TReturned (res : Result ScopeErr unit).

Section coordinator.
Context {S : Type} `{!ScopeStore S}.

Record Coordinator := mkCoordinator {
  co_store : S;
  co_gates : gmap SessionScope nat;
  co_heap : gmap nat scopeGate;
  co_closed : gset nat;
  co_next : nat;
  co_threads : gmap nat Thread;
}.

Definition NewCoordinator (store : S) : Coordinator := mkCoordinator store ∅ ∅ ∅ 0 ∅.

Definition set_gate (g : nat) (gate : scopeGate) (c : Coordinator) : Coordinator :=
  mkCoordinator (co_store c) (co_gates c) (<[g := gate]> (co_heap c)) (co_closed c) (co_next c)
    (co_threads c).

Definition set_thread (t : nat) (th : Thread) (c : Coordinator) : Coordinator :=
  mkCoordinator (co_store c) (co_gates c) (co_heap c) (co_closed c) (co_next c)
    (<[t := th]> (co_threads c)).

Definition set_store (store : S) (c : Coordinator) : Coordinator :=
  mkCoordinator store (co_gates c) (co_heap c) (co_closed c) (co_next c) (co_threads c).

(** A gate that is looked up through a pointer always exists; the default is
    never read. *)
Definition gate_at (c : Coordinator) (g : nat) : scopeGate :=
  default (mkscopeGate 0 false false 0 0) (co_heap c !! g).

(** ** Critical sections *)

Definition gateLocked (c : Coordinator) (scope : SessionScope) : Coordinator * nat :=
  match co_gates c !! scope with
  | Some g => (c, g)
  | None =>
     let g := co_next c in
     let ch := Datatypes.S g in
     (mkCoordinator (co_store c) (<[scope := g]> (co_gates c))
        (<[g := mkscopeGate 0 false false 0 ch]> (co_heap c)) (co_closed c)
        (Datatypes.S ch) (co_threads c), g)
  end.

(** [close(gate.changed); gate.changed = make(chan struct{})]. *)
Definition signalGateLocked (c : Coordinator) (g : nat) : Coordinator :=
  let gate := gate_at c g in
  mkCoordinator (co_store c) (co_gates c)
    (<[g := mkscopeGate (sg_active gate) (sg_teardown gate) (sg_fenced gate) (sg_waiters gate)
              (co_next c)]> (co_heap c))
    ({[sg_changed gate]} ∪ co_closed c) (Datatypes.S (co_next c)) (co_threads c).

Definition cleanupGateLocked (c : Coordinator) (scope : SessionScope) (g : nat) : Coordinator :=
  let gate := gate_at c g in
  if bool_decide (co_gates c !! scope = Some g) && (sg_active gate =? 0) &&
     negb (sg_teardown gate) && (sg_waiters gate =? 0)
  then mkCoordinator (co_store c) (delete scope (co_gates c)) (co_heap c) (co_closed c) (co_next c)
         (co_threads c)
  else c.

Definition with_active (n : nat) (gate : scopeGate) : scopeGate :=
  mkscopeGate n (sg_teardown gate) (sg_fenced gate) (sg_waiters gate) (sg_changed gate).
Definition with_teardown (b : bool) (gate : scopeGate) : scopeGate :=
  mkscopeGate (sg_active gate) b (sg_fenced gate) (sg_waiters gate) (sg_changed gate).
Definition with_fenced (b : bool) (gate : scopeGate) : scopeGate :=
  mkscopeGate (sg_active gate) (sg_teardown gate) b (sg_waiters gate) (sg_changed gate).
Definition with_waiters (n : nat) (gate : scopeGate) : scopeGate :=
  mkscopeGate (sg_active gate) (sg_teardown gate) (sg_fenced gate) n (sg_changed gate).

(** The first critical section of an iteration of [Reserve]: refuse a fenced
    teardown, wait behind an unfenced one, or count in. *)
Definition reserveEnter (c : Coordinator) (scope : SessionScope) : Coordinator * Thread :=
  let '(c, g) := gateLocked c scope in
  let gate := gate_at c g in
  if sg_teardown gate then
    if sg_fenced gate then (c, TReturned (Err ErrSessionRevoked))
    else (set_gate g (with_waiters (sg_waiters gate + 1) gate) c,
          TReserveWaiting scope g (sg_changed gate))
  else (set_gate g (with_active (sg_active gate + 1) gate) c, TReserveChecking scope g).

(** [gate.waiters--; c.cleanupGateLocked(scope, gate)] after a wait. *)
Definition leaveWait (c : Coordinator) (scope : SessionScope) (g : nat) : Coordinator :=
  let gate := gate_at c g in
  cleanupGateLocked (set_gate g (with_waiters (sg_waiters gate - 1) gate) c) scope g.

(** The part of an iteration of [acquireTeardown] that owns the gate. *)
Definition acquireOwned (c : Coordinator) (job : Job) (scope : SessionScope) (g : nat) :
    Coordinator * Thread :=
  let gate := gate_at c g in
  if sg_active gate =? 0 then (c, TAcquired job scope g)
  else (set_gate g (with_waiters (sg_waiters gate + 1) gate) c,
        TDraining job scope g (sg_changed gate)).

(** The first critical section of an iteration that does not own it. *)
Definition acquireEnter (c : Coordinator) (job : Job) (scope : SessionScope) : Coordinator * Thread :=
  let '(c, g) := gateLocked c scope in
  let gate := gate_at c g in
  if sg_teardown gate then
    (set_gate g (with_waiters (sg_waiters gate + 1) gate) c,
     TAcquireWaiting job scope g (sg_changed gate))
  else acquireOwned (set_gate g (with_teardown true gate) c) job scope g.

(** The critical section after a wait for the active reservations: give up
    when the wait failed. *)
Definition leaveDraining (c : Coordinator) (job : Job) (scope : SessionScope) (g : nat)
    (waitErr : option CtxErr) : Coordinator * Thread :=
  let gate := gate_at c g in
  let c := set_gate g (with_waiters (sg_waiters gate - 1) gate) c in
  match waitErr with
  | Some e =>
     let c := set_gate g (with_teardown false (gate_at c g)) c in
     (cleanupGateLocked (signalGateLocked c g) scope g, TReturned (Err (CtxDone e)))
  | None => (c, TOwned job scope g)
  end.

Definition releaseReservation (c : Coordinator) (scope : SessionScope) (g : nat) : Coordinator :=
  let gate := gate_at c g in
  if negb (bool_decide (co_gates c !! scope = Some g)) || (sg_active gate =? 0) then c
  else cleanupGateLocked (signalGateLocked (set_gate g (with_active (sg_active gate - 1) gate) c) g)
         scope g.

Definition releaseTeardown (c : Coordinator) (scope : SessionScope) (g : nat) : Coordinator :=
  let gate := gate_at c g in
  if negb (bool_decide (co_gates c !! scope = Some g)) || negb (sg_teardown gate) then c
  else cleanupGateLocked (signalGateLocked (set_gate g (with_teardown false gate) c) g) scope g.

Definition markGateFenced (c : Coordinator) (scope : SessionScope) (g : nat) : Coordinator :=
  let gate := gate_at c g in
  if negb (bool_decide (co_gates c !! scope = Some g)) || negb (sg_teardown gate) then c
  else signalGateLocked (set_gate g (with_fenced true gate) c) g.

(** ** Steps *)

Definition put_thread (t : nat) (r : Coordinator * Thread) : Coordinator := set_thread t r.2 r.1.

(** The outcome of the store lookup in [Reserve]. *)
Definition checked (scope : SessionScope) (g : nat) (r : Result ScopeErr record) : Thread :=
  match r with
  | Err ErrScopeNotFound => TReserved scope g
  | Err e => TReserveFailing scope g e
  | Ok current => if bool_decide (sr_State current = StateActive) then TReserved scope g
                  else TReserveFailing scope g ErrSessionRevoked
  end.

Inductive cstep : Coordinator → Coordinator → Prop :=
(* calls *)
| step_reserve c t ctx scope :
    co_threads c !! t = None → validateStoreCall ctx scope = Ok tt →
    cstep c (set_thread t (TReserve scope) c)
| step_acquire c t ctx scope job :
    co_threads c !! t = None → validateStoreCall ctx scope = Ok tt →
    cstep c (set_thread t (TAcquire job scope) c)
(* Reserve *)
| step_reserve_enter c t scope :
    co_threads c !! t = Some (TReserve scope) → cstep c (put_thread t (reserveEnter c scope))
| step_reserve_wake c t scope g ch :
    co_threads c !! t = Some (TReserveWaiting scope g ch) → ch ∈ co_closed c →
    cstep c (set_thread t (TReserve scope) (leaveWait c scope g))
| step_reserve_cancel c t scope g ch e :
    co_threads c !! t = Some (TReserveWaiting scope g ch) →
    cstep c (set_thread t (TReturned (Err (CtxDone e))) (leaveWait c scope g))
| step_reserve_check c t scope g ctx :
    co_threads c !! t = Some (TReserveChecking scope g) →
    cstep c (set_thread t (checked scope g (store_Get (co_store c) ctx scope)) c)
| step_reserve_fail c t scope g e :
    co_threads c !! t = Some (TReserveFailing scope g e) →
    cstep c (set_thread t (TReturned (Err e)) (releaseReservation c scope g))
| step_release_reservation c t scope g :
    co_threads c !! t = Some (TReserved scope g) →
    cstep c (set_thread t (TReturned (Ok tt)) (releaseReservation c scope g))
(* acquireTeardown *)
| step_acquire_enter c t job scope :
    co_threads c !! t = Some (TAcquire job scope) → cstep c (put_thread t (acquireEnter c job scope))
| step_acquire_wake c t job scope g ch :
    co_threads c !! t = Some (TAcquireWaiting job scope g ch) → ch ∈ co_closed c →
    cstep c (set_thread t (TAcquire job scope) (leaveWait c scope g))
| step_acquire_cancel c t job scope g ch e :
    co_threads c !! t = Some (TAcquireWaiting job scope g ch) →
    cstep c (set_thread t (TReturned (Err (CtxDone e))) (leaveWait c scope g))
| step_owned c t job scope g :
    co_threads c !! t = Some (TOwned job scope g) → cstep c (put_thread t (acquireOwned c job scope g))
| step_draining_wake c t job scope g ch :
    co_threads c !! t = Some (TDraining job scope g ch) → ch ∈ co_closed c →
    cstep c (put_thread t (leaveDraining c job scope g None))
| step_draining_cancel c t job scope g ch e :
    co_threads c !! t = Some (TDraining job scope g ch) →
    cstep c (put_thread t (leaveDraining c job scope g (Some e)))
(* BeginTeardown and the Teardown *)
| step_begin_ok c t scope g op digest now wall ctx store r :
    co_threads c !! t = Some (TAcquired (JobBegin op digest now) scope g) →
    store_BeginTeardown wall (co_store c) ctx scope op digest now = (store, Ok r) →
    cstep c (set_thread t (TBegun scope g) (set_store store c))
| step_begin_err c t scope g op digest now wall ctx store e :
    co_threads c !! t = Some (TAcquired (JobBegin op digest now) scope g) →
    store_BeginTeardown wall (co_store c) ctx scope op digest now = (store, Err e) →
    cstep c (set_thread t (TReleasing scope g (Err e)) (set_store store c))
| step_begun c t scope g :
    co_threads c !! t = Some (TBegun scope g) →
    cstep c (set_thread t (TTeardown scope g) (markGateFenced c scope g))
| step_teardown_update c t scope g wall ctx u now store res :
    co_threads c !! t = Some (TTeardown scope g) →
    store_Update wall (co_store c) ctx scope u now = (store, res) →
    cstep c (set_store store c)
| step_teardown_release c t scope g :
    co_threads c !! t = Some (TTeardown scope g) →
    cstep c (set_thread t (TReturned (Ok tt)) (releaseTeardown c scope g))
(* Finalize *)
| step_finalize c t scope g op digest ctx store res :
    co_threads c !! t = Some (TAcquired (JobFinalize op digest) scope g) →
    store_Finalize (co_store c) ctx scope op digest = (store, res) →
    cstep c (set_thread t (TReleasing scope g res) (set_store store c))
| step_releasing c t scope g res :
    co_threads c !! t = Some (TReleasing scope g res) →
    cstep c (set_thread t (TReturned res) (releaseTeardown c scope g)).

Definition initial (c : Coordinator) : Prop := ∃ store, c = NewCoordinator store.

End coordinator.

Arguments Coordinator : clear implicits.
