(* ===== verification/SessionCoordinatorProps.v ===== *)
(** * Theorems on the session coordinator

    Proved for any store that keeps the promises of [ScopeStoreLaws]: a
    teardown excludes reservations, a reservation is only held while the
    session is not fenced, gates are never stale, and no wake-up is lost. *)

From S2P Require Import Prelude GoLib SessionCtx SessionScopes SessionCoordinator.

Open Scope go_scope.

(** ** What a goroutine counts for *)

Definition tgate (th : Thread) : option (SessionScope * nat) :=
  match th with
  | TReserveWaiting s g _ | TReserveChecking s g | TReserved s g | TReserveFailing s g _
  | TAcquireWaiting _ s g _ | TOwned _ s g | TDraining _ s g _ | TAcquired _ s g | TBegun s g
  | TTeardown s g | TReleasing s g _ => Some (s, g)
  | TReserve _ | TAcquire _ _ | TReturned _ => None
  end.

(** Counted in [active]. *)
Definition is_active (th : Thread) : bool :=
  match th with TReserveChecking _ _ | TReserved _ _ | TReserveFailing _ _ _ => true | _ => false end.

(** Counted in [waiters]. *)
Definition is_waiter (th : Thread) : bool :=
  match th with
  | TReserveWaiting _ _ _ | TAcquireWaiting _ _ _ _ | TDraining _ _ _ _ => true
  | _ => false
  end.

(** Owns [teardown]. *)
Definition is_owner (th : Thread) : bool :=
  match th with
  | TOwned _ _ _ | TDraining _ _ _ _ | TAcquired _ _ _ | TBegun _ _ | TTeardown _ _
  | TReleasing _ _ _ => true
  | _ => false
  end.

(** Owns it with the reservations drained. *)
Definition is_drained (th : Thread) : bool :=
  match th with
  | TAcquired _ _ _ | TBegun _ _ | TTeardown _ _ | TReleasing _ _ _ => true
  | _ => false
  end.

Definition at_gate (g : nat) (th : Thread) : bool :=
  match tgate th with Some (_, g') => bool_decide (g' = g) | None => false end.

Definition on (p : Thread → bool) (g : nat) (th : Thread) : bool := at_gate g th && p th.

(** A waiting goroutine is woken, or what it waits for still holds. *)
Definition wait_ok (closed : gset nat) (gate : scopeGate) (th : Thread) : Prop :=
  match th with
  | TReserveWaiting _ _ ch => ch ∈ closed ∨
      (ch = sg_changed gate ∧ sg_teardown gate = true ∧ sg_fenced gate = false)
  | TAcquireWaiting _ _ _ ch => ch ∈ closed ∨ (ch = sg_changed gate ∧ sg_teardown gate = true)
  | TDraining _ _ _ ch => ch ∈ closed ∨ (ch = sg_changed gate ∧ 0 < sg_active gate)
  | _ => True
  end.

Section invariant.
Context {S : Type} `{!ScopeStore S, !ScopeStoreLaws S}.
Notation Coord := (Coordinator S).

Record coord_inv (c : Coord) : Prop := {
  inv_gate : ∀ scope g, co_gates c !! scope = Some g → g < co_next c ∧ is_Some (co_heap c !! g);
  inv_inj : ∀ s1 s2 g, co_gates c !! s1 = Some g → co_gates c !! s2 = Some g → s1 = s2;
  inv_ref : ∀ t th scope g, co_threads c !! t = Some th → tgate th = Some (scope, g) →
    co_gates c !! scope = Some g;
  inv_count : ∀ scope g gate, co_gates c !! scope = Some g → co_heap c !! g = Some gate →
    sg_active gate = count (on is_active g) (co_threads c) ∧
    sg_waiters gate = count (on is_waiter g) (co_threads c) ∧
    b2n (sg_teardown gate) = count (on is_owner g) (co_threads c);
  inv_drained : ∀ t th scope g gate, co_threads c !! t = Some th → tgate th = Some (scope, g) →
    is_drained th = true → co_heap c !! g = Some gate → sg_active gate = 0;
  inv_wait : ∀ t th scope g gate, co_threads c !! t = Some th → tgate th = Some (scope, g) →
    co_heap c !! g = Some gate → wait_ok (co_closed c) gate th;
  inv_held : ∀ t scope g, co_threads c !! t = Some (TReserved scope g) → ¬ fenced (co_store c) scope;
}.

Lemma inv_initial c : initial c → coord_inv c.
Proof.
  intros [store ->].
  constructor; cbn; intros *; try (by rewrite lookup_empty).
Qed.

Lemma at_gate_spec g th : at_gate g th = true ↔ ∃ s, tgate th = Some (s, g).
Proof.
  unfold at_gate. destruct (tgate th) as [[s g']|]; [|naive_solver].
  rewrite bool_decide_eq_true. naive_solver.
Qed.

(** A goroutine that refers to a gate is counted by it. *)
Lemma referring_counted th s g :
  tgate th = Some (s, g) → on is_active g th = true ∨ on is_waiter g th = true ∨ on is_owner g th = true.
Proof.
  intros Ht. assert (at_gate g th = true) as Ha by (apply at_gate_spec; eauto).
  unfold on. rewrite Ha. destruct th; cbn in *; try done; auto.
Qed.

Lemma wait_ok_mono closed closed' gate gate' th :
  closed ⊆ closed' →
  sg_changed gate ∈ closed' ∨
    (sg_changed gate' = sg_changed gate ∧ (sg_teardown gate = true → sg_teardown gate' = true) ∧
     sg_fenced gate' = sg_fenced gate ∧ (0 < sg_active gate → 0 < sg_active gate')) →
  wait_ok closed gate th → wait_ok closed' gate' th.
Proof.
  intros Hcl Hsig Hw.
  destruct th; try done; cbn in *;
    (destruct Hw as [Hc|Hw]; [left; by apply Hcl|]);
    (destruct Hsig as [Hc|(Hc & Htd & Hf & Ha)];
      [left; by destruct Hw as [-> _]|right; rewrite Hc, ?Hf; destruct_and!; auto]).
Qed.

(** How the counts of a gate change when one goroutine moves. *)
Lemma count_moved (p : Thread → bool) (m : gmap nat Thread) t th th' scope g g' :
  (∀ x, tgate x = None → p x = false) → m !! t = Some th →
  tgate th = None ∨ tgate th = Some (scope, g) → tgate th' = None ∨ tgate th' = Some (scope, g) →
  count (on p g') (<[t := th']> m) + (if decide (g' = g) then b2n (p th) else 0) =
  count (on p g') m + (if decide (g' = g) then b2n (p th') else 0).
Proof.
  intros Hp Ht Hth Hth'. pose proof (count_insert (on p g') m t th' th Ht) as Hc.
  assert (∀ x, tgate x = None ∨ tgate x = Some (scope, g) →
    on p g' x = if decide (g' = g) then p x else false) as Hon.
  { intros x [Hx|Hx]; unfold on, at_gate; rewrite Hx.
    - rewrite Hp by done. by case_decide.
    - case_decide; [by rewrite bool_decide_eq_true_2|by rewrite bool_decide_eq_false_2]. }
  rewrite !Hon in Hc by done. by case_decide.
Qed.

Lemma kinds_off p : p = is_active ∨ p = is_waiter ∨ p = is_owner → ∀ x, tgate x = None → p x = false.
Proof. intros [->|[->| ->]] [] ?; done. Qed.

(** The shape of every change a goroutine makes: its own state and its gate,
    which may be unlinked when nothing uses it any more. *)
Lemma inv_local (c : Coord) t th th' scope g gate gate' gates' closed' next' :
  coord_inv c → co_threads c !! t = Some th →
  co_gates c !! scope = Some g → co_heap c !! g = Some gate →
  tgate th = None ∨ tgate th = Some (scope, g) →
  tgate th' = None ∨ tgate th' = Some (scope, g) →
  sg_active gate' + b2n (is_active th) = sg_active gate + b2n (is_active th') →
  sg_waiters gate' + b2n (is_waiter th) = sg_waiters gate + b2n (is_waiter th') →
  b2n (sg_teardown gate') + b2n (is_owner th) = b2n (sg_teardown gate) + b2n (is_owner th') →
  sg_active gate' ≤ sg_active gate ∨ sg_teardown gate = false →
  (is_drained th' = true → sg_active gate' = 0) →
  sg_changed gate ∈ closed' ∨
    (sg_changed gate' = sg_changed gate ∧ (sg_teardown gate = true → sg_teardown gate' = true) ∧
     sg_fenced gate' = sg_fenced gate ∧ (0 < sg_active gate → 0 < sg_active gate')) →
  co_closed c ⊆ closed' → co_next c ≤ next' → wait_ok closed' gate' th' →
  (∀ s g', th' = TReserved s g' → ¬ fenced (co_store c) s) →
  gates' = co_gates c ∨
    (gates' = delete scope (co_gates c) ∧ sg_active gate' = 0 ∧ sg_teardown gate' = false ∧
     sg_waiters gate' = 0) →
  coord_inv (mkCoordinator (co_store c) gates' (<[g := gate']> (co_heap c)) closed' next'
               (<[t := th']> (co_threads c))).
Proof.
  intros Hinv Ht Hg Hgate Hth Hth' Hact Hwait Hown Hmono Hdr Hsig Hcl Hnx Hwok Hheld Hgates.
  assert (∀ s g', gates' !! s = Some g' → co_gates c !! s = Some g') as Hsub.
  { destruct Hgates as [->|[-> _]]; [done|]. by intros s g' [_ ?]%lookup_delete_Some. }
  assert (∀ p g', p = is_active ∨ p = is_waiter ∨ p = is_owner → _) as Hmv
    by (intros p g' Hp; exact (count_moved p (co_threads c) t th th' scope g g' (kinds_off p Hp) Ht Hth Hth')).
  destruct (inv_count _ Hinv _ _ _ Hg Hgate) as (Ca & Cw & Co).
  assert (sg_active gate' = count (on is_active g) (<[t := th']> (co_threads c)) ∧
    sg_waiters gate' = count (on is_waiter g) (<[t := th']> (co_threads c)) ∧
    b2n (sg_teardown gate') = count (on is_owner g) (<[t := th']> (co_threads c))) as Hnew.
  { pose proof (Hmv is_active g ltac:(auto)). pose proof (Hmv is_waiter g ltac:(auto)).
    pose proof (Hmv is_owner g ltac:(auto)). rewrite !decide_True in * by done. lia. }
  constructor; cbn [co_gates co_heap co_threads co_closed co_next co_store].
  - intros s g' Hs%Hsub. destruct (inv_gate _ Hinv _ _ Hs) as [? ?]. split; [lia|].
    destruct (decide (g' = g)) as [->|]; [rewrite lookup_insert_eq; eauto|by rewrite lookup_insert_ne].
  - intros s1 s2 g' H1%Hsub H2%Hsub. by eapply (inv_inj _ Hinv).
  - intros t' x s g' Hx Hr. assert (co_gates c !! s = Some g') as Hold.
    { apply lookup_insert_Some in Hx as [[_ <-]|[_ Hx]]; [|by eapply (inv_ref _ Hinv)].
      destruct Hth'; congruence. }
    destruct Hgates as [->|(-> & Z1 & Z2 & Z3)]; [done|].
    destruct (decide (scope = s)) as [->|]; [|by rewrite lookup_delete_ne]. exfalso.
    assert (g' = g) as -> by congruence.
    destruct (referring_counted _ _ _ Hr) as [Hc|[Hc|Hc]];
      apply (count_pos _ _ _ _ Hx) in Hc; rewrite ?Z2 in Hnew; cbn in Hnew; lia.
  - intros s g' gt Hs Hgt. apply Hsub in Hs. destruct (decide (g' = g)) as [->|Hne].
    + rewrite lookup_insert_eq in Hgt. by injection Hgt as <-.
    + rewrite lookup_insert_ne in Hgt by done. destruct (inv_count _ Hinv s g' gt Hs Hgt) as (? & ? & ?).
      pose proof (Hmv is_active g' ltac:(auto)). pose proof (Hmv is_waiter g' ltac:(auto)).
      pose proof (Hmv is_owner g' ltac:(auto)). rewrite !decide_False in * by done. lia.
  - intros t' x s g' gt Hx Hr Hd Hgt. destruct (decide (g' = g)) as [->|Hne].
    + rewrite lookup_insert_eq in Hgt. injection Hgt as <-.
      apply lookup_insert_Some in Hx as [[_ <-]|[Hne Hx]]; [auto|].
      destruct Hmono as [Hle|Hno]; [pose proof (inv_drained _ Hinv _ _ _ _ _ Hx Hr Hd Hgate); lia|].
      exfalso. rewrite Hno in Co. cbn in Co.
      assert (on is_owner g x = true) as Ho.
      { unfold on. rewrite (proj2 (at_gate_spec _ _)) by eauto. by destruct x. }
      apply (count_pos _ _ _ _ Hx) in Ho. lia.
    + rewrite lookup_insert_ne in Hgt by done.
      apply lookup_insert_Some in Hx as [[_ <-]|[_ Hx]]; [destruct Hth'; congruence|].
      by eapply (inv_drained _ Hinv).
  - intros t' x s g' gt Hx Hr Hgt. destruct (decide (g' = g)) as [->|Hne].
    + rewrite lookup_insert_eq in Hgt. injection Hgt as <-.
      apply lookup_insert_Some in Hx as [[_ <-]|[_ Hx]]; [done|].
      apply (wait_ok_mono (co_closed c) _ gate); [done|done|by eapply (inv_wait _ Hinv)].
    + rewrite lookup_insert_ne in Hgt by done.
      apply lookup_insert_Some in Hx as [[_ <-]|[_ Hx]]; [destruct Hth'; congruence|].
      apply (wait_ok_mono (co_closed c) _ gt); [done|by right|by eapply (inv_wait _ Hinv)].
  - intros t' s g' Hx. apply lookup_insert_Some in Hx as [[_ ->]|[_ Hx]]; [by eapply Hheld|].
    by eapply (inv_held _ Hinv).
Qed.

(** ** Every step keeps the invariant *)

Lemma gate_at_some (c : Coord) g gate : co_heap c !! g = Some gate → gate_at c g = gate.
Proof. unfold gate_at. by intros ->. Qed.

Lemma gateLocked_inv (c : Coord) scope c' g :
  coord_inv c → gateLocked c scope = (c', g) →
  coord_inv c' ∧ co_gates c' !! scope = Some g ∧ is_Some (co_heap c' !! g) ∧
  co_threads c' = co_threads c ∧ co_store c' = co_store c.
Proof.
  intros Hinv. unfold gateLocked. destruct (co_gates c !! scope) as [g0|] eqn:Hg.
  { intros [= <- <-]. split_and!; try done. by eapply (inv_gate _ Hinv). }
  intros [= <- <-]. cbn. rewrite !lookup_insert_eq. split_and!; eauto.
  assert (∀ s g', co_gates c !! s = Some g' → g' ≠ co_next c) as Hfresh.
  { intros s g' Hs. apply (inv_gate _ Hinv) in Hs as [? _]. lia. }
  assert (∀ t th s g', co_threads c !! t = Some th → tgate th = Some (s, g') → g' ≠ co_next c) as Hfth.
  { intros t th s g' Ht Hr. eapply Hfresh, (inv_ref _ Hinv); eauto. }
  constructor; cbn.
  - intros s g' [[<- <-]|[_ Hs]]%lookup_insert_Some.
    { rewrite lookup_insert_eq. split; [lia|eauto]. }
    pose proof (Hfresh _ _ Hs). destruct (inv_gate _ Hinv _ _ Hs). rewrite lookup_insert_ne by done.
    split; [lia|done].
  - intros s1 s2 g' [[<- E1]|[? H1]]%lookup_insert_Some [[<- E2]|[? H2]]%lookup_insert_Some; subst; try done.
    + by destruct (Hfresh _ _ H2).
    + by destruct (Hfresh _ _ H1).
    + by eapply (inv_inj _ Hinv).
  - intros t th s g' Ht Hr. pose proof (inv_ref _ Hinv _ _ _ _ Ht Hr).
    rewrite lookup_insert_ne; [done|congruence].
  - intros s g' gate [[<- <-]|[? Hs]]%lookup_insert_Some Hgt.
    + rewrite lookup_insert_eq in Hgt. injection Hgt as <-. cbn.
      assert (∀ p, count (on p (co_next c)) (co_threads c) = 0) as Hz; [|by rewrite !Hz].
      intros p. unfold count. apply map_size_empty_iff, map_empty. intros t.
      apply map_lookup_filter_None. right. intros th Ht. cbn. unfold on. intros Hon.
      apply andb_true_iff in Hon as [[s' Hs']%at_gate_spec _]. by destruct (Hfth _ _ _ _ Ht Hs').
    + rewrite lookup_insert_ne in Hgt by (intros <-; by destruct (Hfresh _ _ Hs)).
      by apply (inv_count _ Hinv s).
  - intros t th s g' gate Ht Hr Hd Hgt.
    rewrite lookup_insert_ne in Hgt by (intros <-; by destruct (Hfth _ _ _ _ Ht Hr)).
    by eapply (inv_drained _ Hinv).
  - intros t th s g' gate Ht Hr Hgt.
    rewrite lookup_insert_ne in Hgt by (intros <-; by destruct (Hfth _ _ _ _ Ht Hr)).
    by eapply (inv_wait _ Hinv).
  - apply (inv_held _ Hinv).
Qed.

Lemma cleanup_shape (c : Coord) scope g :
  co_gates c !! scope = Some g →
  ∃ gates', cleanupGateLocked c scope g =
      mkCoordinator (co_store c) gates' (co_heap c) (co_closed c) (co_next c) (co_threads c) ∧
    (gates' = co_gates c ∨
     (gates' = delete scope (co_gates c) ∧ sg_active (gate_at c g) = 0 ∧
      sg_teardown (gate_at c g) = false ∧ sg_waiters (gate_at c g) = 0)).
Proof.
  intros Hg. unfold cleanupGateLocked. destruct (_ && _) eqn:Hb.
  - rewrite !andb_true_iff in Hb. destruct Hb as [[[_ ?%Nat.eqb_eq] ?%negb_true_iff] ?%Nat.eqb_eq]. eexists. split; [reflexivity|]. by right.
  - exists (co_gates c). destruct c; auto.
Qed.

(** The facts a goroutine at a gate can rely on. *)
Lemma at_gate_facts (c : Coord) t th scope g :
  coord_inv c → co_threads c !! t = Some th → tgate th = Some (scope, g) →
  ∃ gate, co_gates c !! scope = Some g ∧ co_heap c !! g = Some gate ∧ gate_at c g = gate ∧
    (is_active th = true → 0 < sg_active gate) ∧ (is_waiter th = true → 0 < sg_waiters gate) ∧
    (is_owner th = true → sg_teardown gate = true) ∧ (is_drained th = true → sg_active gate = 0).
Proof.
  intros Hinv Ht Hr. pose proof (inv_ref _ Hinv _ _ _ _ Ht Hr) as Hg.
  destruct (inv_gate _ Hinv _ _ Hg) as [_ [gate Hgate]]. exists gate.
  destruct (inv_count _ Hinv _ _ _ Hg Hgate) as (Ca & Cw & Co).
  assert (∀ p, p th = true → 0 < count (on p g) (co_threads c)) as Hpos.
  { intros p Hp. apply (count_pos _ _ t th Ht). unfold on. rewrite Hp, andb_true_r.
    apply at_gate_spec. eauto. }
  split_and!; [done|done|by apply gate_at_some|..].
  - intros Hp%Hpos. lia.
  - intros Hp%Hpos. lia.
  - intros Hp%Hpos. destruct (sg_teardown gate); cbn in *; [done|lia].
  - intros Hd. by eapply (inv_drained _ Hinv).
Qed.

(** The sections that end a stay at the gate: with a signal, or by a waiter. *)
Lemma inv_leave (c : Coord) t th th' scope g gate gate' signal :
  coord_inv c → co_threads c !! t = Some th → co_gates c !! scope = Some g →
  co_heap c !! g = Some gate → tgate th = Some (scope, g) → tgate th' = None →
  sg_changed gate' = sg_changed gate →
  sg_active gate' + b2n (is_active th) = sg_active gate →
  sg_waiters gate' + b2n (is_waiter th) = sg_waiters gate →
  b2n (sg_teardown gate') + b2n (is_owner th) = b2n (sg_teardown gate) →
  (signal = false → sg_teardown gate' = sg_teardown gate ∧ sg_fenced gate' = sg_fenced gate ∧
     sg_active gate' = sg_active gate) →
  let c1 := set_gate g gate' c in
  let c2 := if (signal : bool) then signalGateLocked c1 g else c1 in
  coord_inv (set_thread t th' (cleanupGateLocked c2 scope g)).
Proof.
  intros Hinv Ht Hg Hgate Hr Hr' Hch Ha Hw Ho Hquiet c1 c2.
  assert (is_active th' = false ∧ is_waiter th' = false ∧ is_owner th' = false ∧ is_drained th' = false)
    as (Ea & Ew & Eo & Ed) by (by destruct th').
  assert (gate_at c1 g = gate') as Hg1 by (apply gate_at_some; apply lookup_insert_eq).
  set (gate2 := mkscopeGate (sg_active gate') (sg_teardown gate') (sg_fenced gate') (sg_waiters gate')
    (if signal then co_next c else sg_changed gate')).
  assert (c2 = mkCoordinator (co_store c) (co_gates c) (<[g := gate2]> (co_heap c))
    (if signal then {[sg_changed gate]} ∪ co_closed c else co_closed c)
    (if signal then Datatypes.S (co_next c) else co_next c) (co_threads c)) as ->.
  { subst c2. destruct signal.
    - unfold signalGateLocked. rewrite Hg1, Hch. subst c1 gate2. unfold set_gate. cbn.
      by rewrite insert_insert_eq.
    - subst c1 gate2. unfold set_gate. by destruct gate'. }
  match goal with |- context [cleanupGateLocked ?cc scope g] =>
    destruct (cleanup_shape cc scope g) as (gates' & -> & Hgates); [done|] end.
  rewrite (gate_at_some _ g gate2) in Hgates by apply lookup_insert_eq. cbn in Hgates.
  unfold set_thread. cbn [co_store co_gates co_heap co_closed co_next co_threads].
  apply (inv_local c t th th' scope g gate gate2); subst gate2; cbn; rewrite ?Ea, ?Ew, ?Eo; cbn; try done; auto.
  - lia.
  - lia.
  - lia.
  - left. lia.
  - congruence.
  - destruct signal; [left; set_solver|right]. destruct Hquiet as (? & ? & ?); [done|].
    split_and!; try congruence.
  - destruct signal; set_solver.
  - destruct signal; lia.
  - destruct th'; try done.
  - by intros s g' ->.
Qed.

(** A new call. *)
Lemma inv_spawn (c : Coord) t th :
  coord_inv c → co_threads c !! t = None → tgate th = None → coord_inv (set_thread t th c).
Proof.
  intros Hinv Ht Hr. assert (∀ p g, on p g th = false) as Hoff.
  { intros p g. unfold on, at_gate. by rewrite Hr. }
  constructor; cbn.
  - apply (inv_gate _ Hinv).
  - apply (inv_inj _ Hinv).
  - intros t' x s g [[_ <-]|[_ Hx]]%lookup_insert_Some; [congruence|]. by eapply (inv_ref _ Hinv).
  - intros s g gate Hs Hgt. rewrite !count_insert_fresh, !Hoff by done. cbn. rewrite !Nat.add_0_r.
    by apply (inv_count _ Hinv s).
  - intros t' x s g gate [[_ <-]|[_ Hx]]%lookup_insert_Some; [congruence|]. by eapply (inv_drained _ Hinv).
  - intros t' x s g gate [[_ <-]|[_ Hx]]%lookup_insert_Some; [congruence|]. by eapply (inv_wait _ Hinv).
  - intros t' s g [[_ ->]|[_ Hx]]%lookup_insert_Some; [done|]. by eapply (inv_held _ Hinv).
Qed.

(** A move that stays at the gate and counts for the same. *)
Lemma inv_move (c : Coord) t th th' scope g :
  coord_inv c → co_threads c !! t = Some th →
  tgate th = Some (scope, g) → tgate th' = Some (scope, g) →
  is_active th' = is_active th → is_waiter th' = false → is_waiter th = false →
  is_owner th' = is_owner th → (is_drained th' = true → is_drained th = true ∨ sg_active (gate_at c g) = 0) →
  (∀ s g', th' = TReserved s g' → ¬ fenced (co_store c) s) →
  coord_inv (set_thread t th' c).
Proof.
  intros Hinv Ht Hr Hr' Ea Ew Ew' Eo Hd Hh.
  destruct (at_gate_facts _ _ _ _ _ Hinv Ht Hr) as (gate & Hg & Hgate & Hat & _ & _ & _ & Hdr).
  unfold set_thread. rewrite <- (insert_id (co_heap c) g gate Hgate).
  apply (inv_local c t th th' scope g gate gate); rewrite ?Ea, ?Ew, ?Ew', ?Eo; auto.
  - intros [?|?]%Hd; [auto|congruence].
  - destruct th'; done.
Qed.

Lemma inv_set_store (c : Coord) store :
  coord_inv c →
  (∀ t scope g, co_threads c !! t = Some (TReserved scope g) → ¬ fenced store scope) →
  coord_inv (set_store store c).
Proof. intros [] Hh. by constructor. Qed.

(** Nothing is reserved in a scope whose gate is held for a teardown. *)
Lemma drained_excludes (c : Coord) t th t' scope g g' :
  coord_inv c → co_threads c !! t = Some th → tgate th = Some (scope, g) → is_drained th = true →
  co_threads c !! t' = Some (TReserved scope g') → False.
Proof.
  intros Hinv Ht Hr Hd Ht'. pose proof (inv_ref _ Hinv _ _ scope g' Ht' eq_refl) as Hg'.
  destruct (at_gate_facts _ _ _ _ _ Hinv Ht Hr) as (gate & Hg & Hgate & _ & _ & _ & _ & Hz).
  assert (g' = g) as -> by congruence.
  destruct (at_gate_facts _ _ _ _ _ Hinv Ht' eq_refl) as (gate' & _ & Hgate' & _ & Hpos & _).
  assert (gate' = gate) as -> by congruence. specialize (Hz Hd). specialize (Hpos eq_refl). lia.
Qed.

Lemma inv_release_reservation (c : Coord) t th th' scope g :
  coord_inv c → co_threads c !! t = Some th → tgate th = Some (scope, g) →
  is_active th = true → is_waiter th = false → is_owner th = false → tgate th' = None →
  coord_inv (set_thread t th' (releaseReservation c scope g)).
Proof.
  intros Hinv Ht Hr Ha Hw Ho Hr'.
  destruct (at_gate_facts _ _ _ _ _ Hinv Ht Hr) as (gate & Hg & Hgate & Hat & Hpos & _).
  specialize (Hpos Ha). unfold releaseReservation. rewrite Hat, bool_decide_eq_true_2 by done. cbn [negb orb].
  rewrite (proj2 (Nat.eqb_neq _ _)) by lia.
  apply (inv_leave c t th th' scope g gate (with_active (sg_active gate - 1) gate) true);
    rewrite ?Ha, ?Hw, ?Ho; cbn; try done; lia.
Qed.

Lemma inv_release_teardown (c : Coord) t th th' scope g :
  coord_inv c → co_threads c !! t = Some th → tgate th = Some (scope, g) →
  is_active th = false → is_waiter th = false → is_owner th = true → tgate th' = None →
  coord_inv (set_thread t th' (releaseTeardown c scope g)).
Proof.
  intros Hinv Ht Hr Ha Hw Ho Hr'.
  destruct (at_gate_facts _ _ _ _ _ Hinv Ht Hr) as (gate & Hg & Hgate & Hat & _ & _ & Htd & _).
  specialize (Htd Ho). unfold releaseTeardown. rewrite Hat, bool_decide_eq_true_2, Htd by done. cbn [negb orb].
  apply (inv_leave c t th th' scope g gate (with_teardown false gate) true);
    rewrite ?Ha, ?Hw, ?Ho, ?Htd; cbn; rewrite ?Htd; try done; cbn; lia.
Qed.

Lemma inv_leave_wait (c : Coord) t th th' scope g :
  coord_inv c → co_threads c !! t = Some th → tgate th = Some (scope, g) →
  is_active th = false → is_waiter th = true → is_owner th = false → tgate th' = None →
  coord_inv (set_thread t th' (leaveWait c scope g)).
Proof.
  intros Hinv Ht Hr Ha Hw Ho Hr'.
  destruct (at_gate_facts _ _ _ _ _ Hinv Ht Hr) as (gate & Hg & Hgate & Hat & _ & Hpos & _).
  specialize (Hpos Hw). unfold leaveWait. rewrite Hat.
  apply (inv_leave c t th th' scope g gate (with_waiters (sg_waiters gate - 1) gate) false);
    rewrite ?Ha, ?Hw, ?Ho; cbn; try done; lia.
Qed.

(** A move from the top of a loop onto a gate. *)
Lemma inv_enter (c : Coord) t th th' scope g gate gate' :
  coord_inv c → co_threads c !! t = Some th → co_gates c !! scope = Some g →
  co_heap c !! g = Some gate → tgate th = None → tgate th' = Some (scope, g) →
  sg_changed gate' = sg_changed gate → sg_fenced gate' = sg_fenced gate →
  sg_active gate' = sg_active gate + b2n (is_active th') →
  sg_waiters gate' = sg_waiters gate + b2n (is_waiter th') →
  b2n (sg_teardown gate') = b2n (sg_teardown gate) + b2n (is_owner th') →
  (is_active th' = true → sg_teardown gate = false) →
  (is_drained th' = true → sg_active gate' = 0) → wait_ok (co_closed c) gate' th' →
  (∀ s g', th' ≠ TReserved s g') →
  coord_inv (set_thread t th' (set_gate g gate' c)).
Proof.
  intros Hinv Ht Hg Hgate Hr Hr' Hch Hf Ha Hw Ho Hact Hd Hwok Hnr.
  assert (is_active th = false ∧ is_waiter th = false ∧ is_owner th = false) as (Ea & Ew & Eo) by (by destruct th).
  apply (inv_local c t th th' scope g gate gate'); rewrite ?Ea, ?Ew, ?Eo; cbn; auto; try lia.
  - destruct (is_active th'); [right; auto|left; cbn in Ha; lia].
  - right. split_and!; try done; [|lia]. intros Htd. rewrite Htd in Ho. by destruct (sg_teardown gate'); [|cbn in Ho; lia].
  - intros s g' ->. by destruct (Hnr s g').
Qed.

Lemma inv_reserve_enter (c : Coord) t scope :
  coord_inv c → co_threads c !! t = Some (TReserve scope) →
  coord_inv (put_thread t (reserveEnter c scope)).
Proof.
  intros Hinv Ht. unfold put_thread, reserveEnter. destruct (gateLocked c scope) as [c1 g] eqn:Hl.
  destruct (gateLocked_inv _ _ _ _ Hinv Hl) as (Hinv1 & Hg & [gate Hgate] & Hth & _).
  rewrite <- Hth in Ht. rewrite (gate_at_some _ _ _ Hgate).
  destruct (sg_teardown gate) eqn:Htd; [destruct (sg_fenced gate) eqn:Hf|]; cbn [fst snd].
  - unfold set_thread. rewrite <- (insert_id (co_heap c1) g gate Hgate).
    eapply (inv_local c1 t _ _ scope g gate gate); eauto; cbn; auto with lia; done.
  - apply (inv_enter c1 t (TReserve scope) _ scope g gate); cbn; auto; try done; lia.
  - apply (inv_enter c1 t (TReserve scope) _ scope g gate); cbn; auto; try done; try lia.
Qed.

(** Owning the gate, a goroutine is done when nothing is active and drains
    otherwise. *)
Lemma inv_owned (c : Coord) t job scope g :
  coord_inv c → co_threads c !! t = Some (TOwned job scope g) →
  coord_inv (put_thread t (acquireOwned c job scope g)).
Proof.
  intros Hinv Ht. destruct (at_gate_facts _ _ _ _ _ Hinv Ht eq_refl) as (gate & Hg & Hgate & Hat & _ & _ & Htd & _).
  unfold put_thread, acquireOwned. rewrite Hat. destruct (Nat.eqb_spec (sg_active gate) 0) as [Hz|Hz]; cbn [fst snd].
  - apply (inv_move c t (TOwned job scope g) _ scope g); try done. intros _. right. by rewrite Hat.
  - apply (inv_local c t (TOwned job scope g) _ scope g gate); cbn; auto with lia; try lia; try done.
Qed.

Lemma inv_acquire_enter (c : Coord) t job scope :
  coord_inv c → co_threads c !! t = Some (TAcquire job scope) →
  coord_inv (put_thread t (acquireEnter c job scope)).
Proof.
  intros Hinv Ht. unfold acquireEnter. destruct (gateLocked c scope) as [c1 g] eqn:Hl.
  destruct (gateLocked_inv _ _ _ _ Hinv Hl) as (Hinv1 & Hg & [gate Hgate] & Hth & _).
  rewrite <- Hth in Ht. rewrite (gate_at_some _ _ _ Hgate).
  destruct (sg_teardown gate) eqn:Htd.
  - apply (inv_enter c1 t (TAcquire job scope) _ scope g gate); cbn; auto; try done; try lia.
  - unfold put_thread, acquireOwned.
    rewrite (gate_at_some _ _ (with_teardown true gate)) by apply lookup_insert_eq. cbn [sg_active with_teardown].
    destruct (Nat.eqb_spec (sg_active gate) 0) as [Hz|Hz]; cbn [fst snd].
    + apply (inv_enter c1 t (TAcquire job scope) _ scope g gate); cbn; rewrite ?Htd; cbn; auto; try done; try lia.
    + unfold set_gate; cbn. rewrite insert_insert_eq.
      apply (inv_enter c1 t (TAcquire job scope) _ scope g gate); cbn; rewrite ?Htd; cbn; auto with lia; try done; try lia.
Qed.

Lemma inv_leave_draining (c : Coord) t job scope g ch waitErr :
  coord_inv c → co_threads c !! t = Some (TDraining job scope g ch) →
  coord_inv (put_thread t (leaveDraining c job scope g waitErr)).
Proof.
  intros Hinv Ht.
  destruct (at_gate_facts _ _ _ _ _ Hinv Ht eq_refl) as (gate & Hg & Hgate & Hat & _ & Hw & Htd & _).
  specialize (Hw eq_refl). specialize (Htd eq_refl). unfold put_thread, leaveDraining. rewrite Hat.
  destruct waitErr as [e|]; cbn [fst snd].
  - rewrite (gate_at_some _ _ (with_waiters (sg_waiters gate - 1) gate)) by apply lookup_insert_eq.
    assert (∀ a b, set_gate g a (set_gate g b c) = set_gate g a c) as ->
      by (intros a b; unfold set_gate; cbn; by rewrite insert_insert_eq).
    apply (inv_leave c t (TDraining job scope g ch) _ scope g gate
      (with_teardown false (with_waiters (sg_waiters gate - 1) gate)) true); cbn; rewrite ?Htd; try done; cbn; lia.
  - apply (inv_local c t (TDraining job scope g ch) _ scope g gate); cbn; auto; try lia; done.
Qed.

Lemma inv_begun (c : Coord) t scope g :
  coord_inv c → co_threads c !! t = Some (TBegun scope g) →
  coord_inv (set_thread t (TTeardown scope g) (markGateFenced c scope g)).
Proof.
  intros Hinv Ht.
  destruct (at_gate_facts _ _ _ _ _ Hinv Ht eq_refl) as (gate & Hg & Hgate & Hat & _ & _ & Htd & Hdr).
  specialize (Htd eq_refl). specialize (Hdr eq_refl). unfold markGateFenced.
  rewrite Hat, Htd, bool_decide_eq_true_2 by done. cbn [negb orb]. unfold signalGateLocked.
  rewrite (gate_at_some _ _ (with_fenced true gate)) by apply lookup_insert_eq.
  unfold set_thread, set_gate. cbn. rewrite insert_insert_eq.
  apply (inv_local c t (TBegun scope g) (TTeardown scope g) scope g gate); cbn; auto; try lia; try done.
  - left. set_solver.
  - set_solver.
Qed.

Lemma inv_step (c c' : Coord) : coord_inv c → cstep c c' → coord_inv c'.
Proof.
  intros Hinv Hs. destruct Hs as
    [c t ctx scope Ht _|c t ctx scope job Ht _|c t scope Ht|c t scope g ch Ht _|c t scope g ch e Ht
    |c t scope g ctx Ht|c t scope g e Ht|c t scope g Ht|c t job scope Ht|c t job scope g ch Ht _
    |c t job scope g ch e Ht|c t job scope g Ht|c t job scope g ch Ht _|c t job scope g ch e Ht
    |c t scope g op digest now wall ctx store r Ht Hst|c t scope g op digest now wall ctx store e Ht Hst
    |c t scope g Ht|c t scope g wall ctx u now store res Ht Hst|c t scope g Ht
    |c t scope g op digest ctx store res Ht Hst|c t scope g res Ht].
  - by apply inv_spawn.
  - by apply inv_spawn.
  - by apply inv_reserve_enter.
  - by apply (inv_leave_wait c t (TReserveWaiting scope g ch)).
  - by apply (inv_leave_wait c t (TReserveWaiting scope g ch)).
  - set (r := store_Get (co_store c) ctx scope). destruct r as [cur|e] eqn:Hr.
    + apply (inv_move c t (TReserveChecking scope g) _ scope g); try done; cbn; case_bool_decide as Ha; try done.
      intros s g' [= <- <-]. rewrite (law_get_found _ _ _ _ Hr). auto.
    + apply (inv_move c t (TReserveChecking scope g) _ scope g); try done; cbn; destruct e; try done.
      intros s g' [= <- <-]. by apply (law_get_missing _ ctx).
  - by apply (inv_release_reservation c t (TReserveFailing scope g e)).
  - by apply (inv_release_reservation c t (TReserved scope g)).
  - by apply inv_acquire_enter.
  - by apply (inv_leave_wait c t (TAcquireWaiting job scope g ch)).
  - by apply (inv_leave_wait c t (TAcquireWaiting job scope g ch)).
  - by apply inv_owned.
  - by apply (inv_leave_draining c t job scope g ch).
  - by apply (inv_leave_draining c t job scope g ch).
  - apply law_begin_ok in Hst as [_ Hoth].
    apply (inv_move (set_store store c) t (TAcquired (JobBegin op digest now) scope g) _ scope g); try done; [|by left].
    apply inv_set_store; [done|]. intros t' s g' Ht' Hf.
    destruct (decide (s = scope)) as [->|Hne]; [by eapply (drained_excludes c t)|].
    apply Hoth in Hf; [|done]. by eapply (inv_held _ Hinv).
  - pose proof (law_begin_err _ _ _ _ _ _ _ _ _ Hst) as Hoth.
    apply (inv_move (set_store store c) t (TAcquired (JobBegin op digest now) scope g) _ scope g); try done; [|by left].
    apply inv_set_store; [done|]. intros t' s g' Ht' Hf%Hoth. by eapply (inv_held _ Hinv).
  - by apply inv_begun.
  - pose proof (law_update _ _ _ _ _ _ _ _ Hst) as Hoth.
    apply inv_set_store; [done|]. intros t' s g' Ht' Hf%Hoth. by eapply (inv_held _ Hinv).
  - by apply (inv_release_teardown c t (TTeardown scope g)).
  - apply (inv_move (set_store store c) t (TAcquired (JobFinalize op digest) scope g) _ scope g); try done; [|by left].
    apply inv_set_store; [done|]. intros t' s g' Ht' Hf.
    destruct (decide (s = scope)) as [->|Hne]; [by eapply (drained_excludes c t)|].
    destruct res as [[]|e].
    + apply law_finalize_ok in Hst as (_ & _ & Hoth). apply Hoth in Hf; [|done]. by eapply (inv_held _ Hinv).
    + apply (law_finalize_err _ _ _ _ _ _ _ Hst) in Hf. by eapply (inv_held _ Hinv).
  - by apply (inv_release_teardown c t (TReleasing scope g res)).
Qed.

Lemma reachable_inv (c : Coord) : reachable initial cstep c → coord_inv c.
Proof. apply reachable_invariant; [apply inv_initial|eauto using inv_step]. Qed.

(** a teardown is exclusive. In every reachable state of the coordinator,
    over any store that keeps its promises and under any interleaving, at most
    one goroutine owns the gate of a scope, and while a goroutine has acquired
    it for a teardown or a finalization no reservation of the scope is held or
    being checked. *)
Theorem teardown_excludes_reservations (c : Coord) t th scope g :
  reachable initial cstep c → co_threads c !! t = Some th → tgate th = Some (scope, g) →
  (is_owner th = true →
     ∀ t' th' g', co_threads c !! t' = Some th' → tgate th' = Some (scope, g') → is_owner th' = true → t' = t) ∧
  (is_drained th = true →
     ∀ t' th' g', co_threads c !! t' = Some th' → tgate th' = Some (scope, g') → is_active th' = false).
Proof.
  intros Hinv%reachable_inv Ht Hr.
  destruct (at_gate_facts _ _ _ _ _ Hinv Ht Hr) as (gate & Hg & Hgate & _ & _ & _ & _ & Hz).
  assert (∀ t' th' g', co_threads c !! t' = Some th' → tgate th' = Some (scope, g') → g' = g) as Hsame.
  { intros t' th' g' Ht' Hr'. pose proof (inv_ref _ Hinv _ _ _ _ Ht' Hr'). congruence. }
  split.
  - intros Ho t' th' g' Ht' Hr' Ho'. rewrite (Hsame _ _ _ Ht' Hr') in Hr'.
    apply (count_two (on is_owner g) (co_threads c) t' t th' th); try done.
    + unfold on. rewrite Ho', andb_true_r. apply at_gate_spec. eauto.
    + unfold on. rewrite Ho, andb_true_r. apply at_gate_spec. eauto.
    + destruct (inv_count _ Hinv _ _ _ Hg Hgate) as (_ & _ & <-). by destruct (sg_teardown gate); cbn; lia.
  - intros Hd t' th' g' Ht' Hr'. pose proof (Hsame _ _ _ Ht' Hr') as ->.
    destruct (at_gate_facts _ _ _ _ _ Hinv Ht' Hr') as (gate' & _ & Hgate' & _ & Hpos & _).
    assert (gate' = gate) as -> by congruence. specialize (Hz Hd).
    destruct (is_active th'); [|done]. specialize (Hpos eq_refl). lia.
Qed.

(** C3: a fence is respected. In every reachable state no goroutine holds a
    reservation of a fenced session: a reservation is granted only while the
    session is not fenced, and the fence is written only after the last
    reservation is gone. *)
Theorem reservation_never_fenced (c : Coord) t scope g :
  reachable initial cstep c → co_threads c !! t = Some (TReserved scope g) →
  ¬ fenced (co_store c) scope.
Proof. intros Hinv%reachable_inv. apply (inv_held _ Hinv). Qed.

(** no wake-up is lost and no gate is stale. In every reachable state a
    goroutine that refers to a gate finds it linked under its scope; and a
    goroutine that sleeps on a channel nobody has closed waits for something
    that still holds: a teardown that is going on (and not yet fenced, for a
    reservation), or reservations that are still active. *)
Theorem no_lost_wakeup (c : Coord) t th scope g :
  reachable initial cstep c → co_threads c !! t = Some th → tgate th = Some (scope, g) →
  ∃ gate, co_gates c !! scope = Some g ∧ co_heap c !! g = Some gate ∧ wait_ok (co_closed c) gate th.
Proof.
  intros Hinv%reachable_inv Ht Hr.
  destruct (at_gate_facts _ _ _ _ _ Hinv Ht Hr) as (gate & Hg & Hgate & _).
  exists gate. split_and!; [done|done|]. by eapply (inv_wait _ Hinv).
Qed.

End invariant.
