(* ===== verification/SessionCoordinatorRuns.v ===== *)
(** * Concrete runs of the session coordinator

    An executable scheduler for the steps of the coordinator over the memory
    store, sound for the step relation, and the runs that use it: the
    witnesses of the coordinator's theorems, and the run in which the
    [fenced] flag of a gate outlives its fence. *)

From S2P Require Import Prelude GoLib SessionCtx SessionScopes SessionScopesProps.
From S2P Require Import SessionCoordinator SessionCoordinatorProps.

Open Scope go_scope.

Notation Coord := (Coordinator MemoryStore).

(** What the scheduler picks: a new call, the next step of a goroutine (a
    sleeping one must have been woken), a cancelled wait, the release of what
    a goroutine holds, or an update through a teardown. *)
Inductive Action :=
| AReserve (t : nat) (scope : SessionScope)
| AAcquire (t : nat) (job : Job) (scope : SessionScope)
| ANext (t : nat)
| ACancel (t : nat) (e : CtxErr)
| ARelease (t : nat)
| AUpdate (t : nat) (u : StoreUpdate).

Definition live_ctx : option GoCtx := Some (mkGoCtx None None).

Definition run_next (c : Coord) (t : nat) (th : Thread) : option Coord :=
  match th with
  | TReserve scope => Some (put_thread t (reserveEnter c scope))
  | TReserveWaiting scope g ch =>
     if bool_decide (ch ∈ co_closed c) then Some (set_thread t (TReserve scope) (leaveWait c scope g)) else None
  | TReserveChecking scope g =>
     Some (set_thread t (checked scope g (store_Get (co_store c) live_ctx scope)) c)
  | TReserveFailing scope g e => Some (set_thread t (TReturned (Err e)) (releaseReservation c scope g))
  | TAcquire job scope => Some (put_thread t (acquireEnter c job scope))
  | TAcquireWaiting job scope g ch =>
     if bool_decide (ch ∈ co_closed c) then Some (set_thread t (TAcquire job scope) (leaveWait c scope g)) else None
  | TOwned job scope g => Some (put_thread t (acquireOwned c job scope g))
  | TDraining job scope g ch =>
     if bool_decide (ch ∈ co_closed c) then Some (put_thread t (leaveDraining c job scope g None)) else None
  | TAcquired (JobBegin op digest now) scope g =>
     match store_BeginTeardown 1 (co_store c) live_ctx scope op digest now with
     | (store, Ok r) => Some (set_thread t (TBegun scope g) (set_store store c))
     | (store, Err e) => Some (set_thread t (TReleasing scope g (Err e)) (set_store store c))
     end
  | TAcquired (JobFinalize op digest) scope g =>
     let '(store, res) := store_Finalize (co_store c) live_ctx scope op digest in
     Some (set_thread t (TReleasing scope g res) (set_store store c))
  | TBegun scope g => Some (set_thread t (TTeardown scope g) (markGateFenced c scope g))
  | TReleasing scope g res => Some (set_thread t (TReturned res) (releaseTeardown c scope g))
  | TReserved _ _ | TTeardown _ _ | TReturned _ => None
  end.

Definition run_action (c : Coord) (a : Action) : option Coord :=
  match a with
  | AReserve t scope =>
     if bool_decide (co_threads c !! t = None) && is_ok (validateStoreCall live_ctx scope)
     then Some (set_thread t (TReserve scope) c) else None
  | AAcquire t job scope =>
     if bool_decide (co_threads c !! t = None) && is_ok (validateStoreCall live_ctx scope)
     then Some (set_thread t (TAcquire job scope) c) else None
  | ANext t => match co_threads c !! t with Some th => run_next c t th | None => None end
  | ACancel t e =>
     match co_threads c !! t with
     | Some (TReserveWaiting scope g _) | Some (TAcquireWaiting _ scope g _) =>
        Some (set_thread t (TReturned (Err (CtxDone e))) (leaveWait c scope g))
     | Some (TDraining job scope g _) => Some (put_thread t (leaveDraining c job scope g (Some e)))
     | _ => None
     end
  | ARelease t =>
     match co_threads c !! t with
     | Some (TReserved scope g) => Some (set_thread t (TReturned (Ok tt)) (releaseReservation c scope g))
     | Some (TTeardown scope g) => Some (set_thread t (TReturned (Ok tt)) (releaseTeardown c scope g))
     | _ => None
     end
  | AUpdate t u =>
     match co_threads c !! t with
     | Some (TTeardown scope g) => Some (set_store (store_Update 1 (co_store c) live_ctx scope u 5).1 c)
     | _ => None
     end
  end.

Lemma run_next_sound c t th c' :
  co_threads c !! t = Some th → run_next c t th = Some c' → cstep c c'.
Proof.
  intros Ht Hr.
  destruct th as [scope|scope g ch|scope g|scope g|scope g e|job scope|job scope g ch|job scope g
    |job scope g ch|job scope g|scope g|scope g|scope g res|res]; cbn [run_next] in Hr; try done.
  - injection Hr as <-. by econstructor.
  - case_bool_decide; [|done]. injection Hr as <-. by eapply step_reserve_wake.
  - injection Hr as <-. exact (step_reserve_check c t scope g live_ctx Ht).
  - injection Hr as <-. by econstructor.
  - injection Hr as <-. by econstructor.
  - case_bool_decide; [|done]. injection Hr as <-. by eapply step_acquire_wake.
  - injection Hr as <-. by econstructor.
  - case_bool_decide; [|done]. injection Hr as <-. by eapply step_draining_wake.
  - destruct job as [op digest now|op digest].
    + destruct (store_BeginTeardown 1 (co_store c) live_ctx scope op digest now) as [store [r|e]] eqn:Hs;
        injection Hr as <-; [by eapply step_begin_ok|by eapply step_begin_err].
    + destruct (store_Finalize (co_store c) live_ctx scope op digest) as [store res] eqn:Hs.
      injection Hr as <-. by eapply step_finalize.
  - injection Hr as <-. by econstructor.
  - injection Hr as <-. by econstructor.
Qed.

Lemma run_action_sound c a c' : run_action c a = Some c' → cstep c c'.
Proof.
  intros Hr. destruct a as [t scope|t job scope|t|t e|t|t u]; cbn [run_action] in Hr.
  - case_bool_decide as Ht; [|done]. destruct (validateStoreCall live_ctx scope) as [[]|] eqn:Hv; [|done].
    injection Hr as <-. by eapply step_reserve.
  - case_bool_decide as Ht; [|done]. destruct (validateStoreCall live_ctx scope) as [[]|] eqn:Hv; [|done].
    injection Hr as <-. by eapply step_acquire.
  - destruct (co_threads c !! t) as [th|] eqn:Ht; [|done]. by eapply run_next_sound.
  - destruct (co_threads c !! t) as [[]|] eqn:Ht; try done; injection Hr as <-;
      [by eapply step_reserve_cancel|by eapply step_acquire_cancel|by eapply step_draining_cancel].
  - destruct (co_threads c !! t) as [[]|] eqn:Ht; try done; injection Hr as <-;
      [by eapply step_release_reservation|by eapply step_teardown_release].
  - destruct (co_threads c !! t) as [[]|] eqn:Ht; try done. injection Hr as <-.
    eapply step_teardown_update; [done|]. apply surjective_pairing.
Qed.

Fixpoint run (c : Coord) (l : list Action) : option Coord :=
  match l with
  | [] => Some c
  | a :: l => match run_action c a with Some c' => run c' l | None => None end
  end.

Lemma run_sound c l c' : run c l = Some c' → rtc cstep c c'.
Proof.
  revert c. induction l as [|a l IH]; intros c; cbn; [by intros [= ->]|].
  destruct (run_action c a) as [c1|] eqn:Ha; [|done]. intros Hr.
  eapply rtc_l; [by eapply run_action_sound|by apply IH].
Qed.

Definition start : Coord := NewCoordinator (mkMemoryStore 16 ∅).

Lemma run_reachable l c : run start l = Some c → reachable initial cstep c.
Proof. intros Hr. exists start. split; [by eexists|by eapply run_sound]. Qed.

(** What is asked of the final state of a run. *)
Definition thread_after (l : list Action) (t : nat) : option Thread :=
  match run start l with Some c => co_threads c !! t | None => None end.

Lemma thread_after_reachable l t th :
  thread_after l t = Some th → ∃ c, reachable initial cstep c ∧ run start l = Some c ∧
    co_threads c !! t = Some th.
Proof.
  unfold thread_after. destruct (run start l) as [c|] eqn:Hr; [|done]. intros Ht.
  exists c. split; [by eapply run_reachable|done].
Qed.

(** ** Witnesses *)

Definition s0 : SessionScope := mkSessionScope "sess" "user" "env" "chan".
Definition begin_job : Job := JobBegin "op1" "digest" 3.

(** Goroutine 1 has a teardown, goroutine 2 waits behind it before the fence
    is marked. *)
Definition waiting_run : list Action :=
  [AAcquire 1 begin_job s0; ANext 1; AReserve 2 s0; ANext 2; ANext 1].

Lemma teardown_excludes_reservations_witness :
  ∃ c : Coord, co_threads c !! 1 = Some (TBegun s0 0) ∧
    ∀ t' th' g', co_threads c !! t' = Some th' → tgate th' = Some (s0, g') → is_active th' = false.
Proof.
  destruct (thread_after_reachable waiting_run 1 (TBegun s0 0)) as (c & Hc & _ & Ht);
    [vm_compute; reflexivity|].
  exists c. split; [exact Ht|].
  apply (teardown_excludes_reservations c 1 (TBegun s0 0) s0 0 Hc Ht eq_refl). reflexivity.
Defined.

Lemma reservation_never_fenced_witness :
  ∃ c : Coord, co_threads c !! 1 = Some (TReserved s0 0) ∧ ¬ fenced (co_store c) s0.
Proof.
  destruct (thread_after_reachable [AReserve 1 s0; ANext 1; ANext 1] 1 (TReserved s0 0)) as (c & Hc & _ & Ht);
    [vm_compute; reflexivity|].
  exists c. split; [exact Ht|]. apply (reservation_never_fenced c 1 s0 0 Hc Ht).
Defined.

Lemma no_lost_wakeup_witness :
  ∃ (c : Coord) gate, co_threads c !! 2 = Some (TReserveWaiting s0 0 1) ∧
    wait_ok (co_closed c) gate (TReserveWaiting s0 0 1).
Proof.
  destruct (thread_after_reachable waiting_run 2 (TReserveWaiting s0 0 1)) as (c & Hc & _ & Ht);
    [vm_compute; reflexivity|].
  destruct (no_lost_wakeup c 2 _ s0 0 Hc Ht eq_refl) as (gate & _ & _ & Hw).
  exists c, gate. split; [exact Ht|exact Hw].
Defined.

(** ** A flag that outlives its fence *)

(** Goroutine 1 fences the session and completes it; 2 (a finalization) and 3
    (a new teardown) wait behind it; 2 finalizes, so the session is not fenced
    any more; 4 gets a reservation through the same gate, which 3 still keeps
    alive; 3 starts to drain it; then 5 asks for a reservation. *)
Definition stale_run : list Action :=
  [AAcquire 1 begin_job s0; ANext 1; ANext 1; ANext 1; AUpdate 1 UpMarkComplete;
   AAcquire 2 (JobFinalize "op1" "digest") s0; ANext 2;
   AAcquire 3 (JobBegin "op2" "digest2" 4) s0; ANext 3;
   ARelease 1; ANext 2; ANext 2; ANext 2; ANext 2;
   AReserve 4 s0; ANext 4; ANext 4; ANext 3; ANext 3; AReserve 5 s0; ANext 5].

Definition stale_outcome : option (nat * option Thread * option Thread * option Thread) :=
  match run start stale_run with
  | Some c => Some (size (ms_records (co_store c)), co_threads c !! 3, co_threads c !! 4, co_threads c !! 5)
  | None => None
  end.

(** The new teardown has written no fence and may still give up, yet the
    reservation is refused as revoked instead of waiting. *)
Lemma stale_fence_refuses_reservation :
  ∃ (c : Coord) ch, reachable initial cstep c ∧ ms_records (co_store c) = ∅ ∧
    co_threads c !! 3 = Some (TDraining (JobBegin "op2" "digest2" 4) s0 0 ch) ∧
    co_threads c !! 4 = Some (TReserved s0 0) ∧
    co_threads c !! 5 = Some (TReturned (Err ErrSessionRevoked)).
Proof.
  assert (∃ ch, stale_outcome = Some (0, Some (TDraining (JobBegin "op2" "digest2" 4) s0 0 ch),
    Some (TReserved s0 0), Some (TReturned (Err ErrSessionRevoked)))) as [ch Ho]
    by (eexists; vm_compute; reflexivity).
  unfold stale_outcome in Ho. destruct (run start stale_run) as [c|] eqn:Hr; [|discriminate Ho].
  apply run_reachable in Hr. injection Ho as Hz H3 H4 H5. exists c, ch. split; [exact Hr|].
  split; [by apply map_size_empty_iff|done].
Qed.
