(* ===== verification/LifecycleLock.v ===== *)
(** * pkg/host/plugin_lifecycle_lock.go: the plugin lifecycle locks

    A fair reader/writer lock over sets of plugin instances: callers queue in
    arrival order, and every change of the queue or of the held locks runs
    [dispatchLocked], which grants what it can without letting anybody pass a
    queued writer of the same plugin. A waiter pointer is its number in the
    order of arrival. The waiters that were granted and not yet released are
    kept in [lk_held]; in the code each of them is known to its caller, and
    [granted] says that it is there. *)

From S2P Require Import Prelude GoLib.

Open Scope go_scope.

Inductive LockErr :=
| AtLeastOneRequired | PluginIDRequired | ReadRequiresOne | LockCtx (e : CtxErr).

Record Entry := mkEntry {
  le_readers : Z;
  le_writer : bool;
}.

Record Waiter := mkWaiter {
  lw_keys : list string;
  lw_write : bool;
}.

Record LockRegistry := mkLockRegistry {
  lk_entries : gmap string Entry;
  lk_waiters : list (nat * Waiter);
  lk_held : gmap nat Waiter;
  lk_next : nat;
}.

Definition newPluginLifecycleLockRegistry : LockRegistry := mkLockRegistry ∅ [] ∅ 0.

(** The loop of [normalizePluginLifecycleKeys]: trimmed ids as a set. *)
Fixpoint uniqueKeys (ids : list string) : Result LockErr (gset string) :=
  match ids with
  | [] => Ok ∅
  | id :: ids =>
     let id := TrimSpace id in
     if bool_decide (id = "") then Err PluginIDRequired
     else let? rest := uniqueKeys ids in Ok ({[id]} ∪ rest)
  end.

Definition normalizePluginLifecycleKeys (ids : list string) : Result LockErr (list string) :=
  if bool_decide (ids = []) then Err AtLeastOneRequired
  else let? unique := uniqueKeys ids in Ok (sort_strings (elements unique)).

Definition waiterConflictsWithReservations (waiter : Waiter) (reservations : gset string) : bool :=
  existsb (λ key, bool_decide (key ∈ reservations)) (lw_keys waiter).

Definition canGrantLocked (entries : gmap string Entry) (waiter : Waiter) : bool :=
  forallb (λ key,
    match entries !! key with
    | None => true
    | Some entry =>
       if lw_write waiter then negb (le_writer entry || (0 <? le_readers entry)%Z)
       else negb (le_writer entry)
    end) (lw_keys waiter).

(** One iteration of [grantLocked]. *)
Definition grantKey (write : bool) (entries : gmap string Entry) (key : string) : gmap string Entry :=
  let entry := default (mkEntry 0 false) (entries !! key) in
  <[key := if write then mkEntry (le_readers entry) true
           else mkEntry (le_readers entry + 1) (le_writer entry)]> entries.

Definition grantLocked (entries : gmap string Entry) (waiter : Waiter) : gmap string Entry :=
  foldl (grantKey (lw_write waiter)) entries (lw_keys waiter).

(** The loop of [dispatchLocked]. [remaining] reuses the array of the queue
    behind the position that is read, so it is a list of its own here. *)
Fixpoint dispatchLoop (waiters : list (nat * Waiter)) (reservedWriters : gset string)
    (entries : gmap string Entry) (held : gmap nat Waiter) :
    gmap string Entry * gmap nat Waiter * list (nat * Waiter) :=
  match waiters with
  | [] => (entries, held, [])
  | (id, waiter) :: rest =>
     if waiterConflictsWithReservations waiter reservedWriters || negb (canGrantLocked entries waiter)
     then
       let reservedWriters :=
         if lw_write waiter then list_to_set (lw_keys waiter) ∪ reservedWriters else reservedWriters in
       let '(entries, held, remaining) := dispatchLoop rest reservedWriters entries held in
       (entries, held, (id, waiter) :: remaining)
     else dispatchLoop rest reservedWriters (grantLocked entries waiter) (<[id := waiter]> held)
  end.

Definition dispatchLocked (r : LockRegistry) : LockRegistry :=
  let '(entries, held, remaining) := dispatchLoop (lk_waiters r) ∅ (lk_entries r) (lk_held r) in
  mkLockRegistry entries remaining held (lk_next r).

(** The critical section of [acquire]: queue the waiter and dispatch; the
    result is its number and whether it was granted at once. *)
Definition acquire (r : LockRegistry) (ctxErr : option CtxErr) (ids : list string) (write : bool) :
    LockRegistry * Result LockErr (nat * bool) :=
  match normalizePluginLifecycleKeys ids with
  | Err e => (r, Err e)
  | Ok keys =>
     if negb write && negb (bool_decide (length keys = 1)) then (r, Err ReadRequiresOne)
     else match ctxErr with
     | Some e => (r, Err (LockCtx e))
     | None =>
        let id := lk_next r in
        let r := dispatchLocked
          (mkLockRegistry (lk_entries r) (lk_waiters r ++ [(id, mkWaiter keys write)]) (lk_held r) (S id)) in
        (r, Ok (id, bool_decide (is_Some (lk_held r !! id))))
     end
  end.

(** One iteration of [release]. *)
Definition releaseKey (write : bool) (entries : gmap string Entry) (key : string) : gmap string Entry :=
  match entries !! key with
  | None => entries
  | Some entry =>
     let entry := if write then mkEntry (le_readers entry) false
                  else mkEntry (le_readers entry - 1) (le_writer entry) in
     if negb (le_writer entry) && (le_readers entry =? 0)%Z then delete key entries
     else <[key := entry]> entries
  end.

(** [release] of a granted waiter. [once.Do], and the two error paths that
    call it instead of returning the release function, make it run once per
    granted waiter. *)
Definition release (r : LockRegistry) (id : nat) : LockRegistry :=
  match lk_held r !! id with
  | None => r
  | Some waiter =>
     dispatchLocked (mkLockRegistry (foldl (releaseKey (lw_write waiter)) (lk_entries r) (lw_keys waiter))
                       (lk_waiters r) (delete id (lk_held r)) (lk_next r))
  end.

Fixpoint removeWaiter (target : nat) (waiters : list (nat * Waiter)) : list (nat * Waiter) :=
  match waiters with
  | [] => []
  | (id, waiter) :: rest => if bool_decide (id = target) then rest else (id, waiter) :: removeWaiter target rest
  end.

(** The wait of [acquire] ends with the context: give a granted lock back, or
    leave the queue. *)
Definition cancelAcquire (r : LockRegistry) (id : nat) : LockRegistry :=
  match lk_held r !! id with
  | Some _ => release r id
  | None => dispatchLocked (mkLockRegistry (lk_entries r) (removeWaiter id (lk_waiters r)) (lk_held r) (lk_next r))
  end.

(** ** Runs *)

Inductive LockStep (r : LockRegistry) : LockRegistry → Prop :=
| step_acquire ctxErr ids write : LockStep r (acquire r ctxErr ids write).1
| step_release id : LockStep r (release r id)
| step_cancel id : LockStep r (cancelAcquire r id).

Definition lock_initial (r : LockRegistry) : Prop := r = newPluginLifecycleLockRegistry.
