(* ===== verification/LifecycleLockProps.v ===== *)
(** * Theorems on the plugin lifecycle locks

    Exclusion, first-come-first-served order between conflicting callers, and
    progress: a caller only waits behind a lock that is held or a queued
    writer, so an idle registry has no queue. *)

From S2P Require Import Prelude GoLib LifecycleLock.

Open Scope go_scope.

(** ** What the entries record *)

Definition uses (key : string) (w : Waiter) : bool := bool_decide (key ∈ lw_keys w).

Definition n_writers (key : string) : gmap nat Waiter → nat := count (λ w, lw_write w && uses key w).
Definition n_readers (key : string) : gmap nat Waiter → nat :=
  count (λ w, negb (lw_write w) && uses key w).

Definition entry_of (readers writers : nat) : option Entry :=
  if (readers =? 0) && (writers =? 0) then None
  else Some (mkEntry (Z.of_nat readers) (negb (writers =? 0))).

(** The entries are the counts of the held locks; a key has one writer and no
    reader, or readers only. *)
Definition entries_ok (entries : gmap string Entry) (held : gmap nat Waiter) : Prop :=
  ∀ key, entries !! key = entry_of (n_readers key held) (n_writers key held) ∧
    n_writers key held ≤ 1 ∧ (n_writers key held = 1 → n_readers key held = 0).

Definition waiter_ok (w : Waiter) : Prop :=
  NoDup (lw_keys w) ∧ lw_keys w ≠ [] ∧ (lw_write w = false → length (lw_keys w) = 1).

(** ** Granting and releasing *)

Lemma grant_lookup write keys entries k :
  NoDup keys →
  foldl (grantKey write) entries keys !! k =
  if decide (k ∈ keys)
  then let e := default (mkEntry 0 false) (entries !! k) in
       Some (if write then mkEntry (le_readers e) true else mkEntry (le_readers e + 1) (le_writer e))
  else entries !! k.
Proof.
  revert entries. induction keys as [|k0 keys IH]; intros entries Hnd; cbn [foldl].
  { case_decide as Hk; [by apply elem_of_nil in Hk|done]. }
  apply NoDup_cons in Hnd as [Hk0 Hnd]. rewrite IH by done. unfold grantKey.
  destruct (decide (k = k0)) as [->|Hne].
  - rewrite lookup_insert_eq. rewrite decide_False by done. rewrite decide_True by left. done.
  - rewrite lookup_insert_ne by done. repeat case_decide; try done; exfalso; set_solver.
Qed.

Lemma releaseKey_ext write entries entries' k :
  entries !! k = entries' !! k → releaseKey write entries k !! k = releaseKey write entries' k !! k.
Proof.
  intros Heq. unfold releaseKey. rewrite Heq. destruct (entries' !! k) eqn:Hk; [|congruence].
  case_match; by rewrite ?lookup_delete_eq, ?lookup_insert_eq.
Qed.

Lemma release_lookup write keys entries k :
  NoDup keys →
  foldl (releaseKey write) entries keys !! k =
  if decide (k ∈ keys) then releaseKey write entries k !! k else entries !! k.
Proof.
  revert entries. induction keys as [|k0 keys IH]; intros entries Hnd; cbn [foldl].
  { case_decide as Hk; [by apply elem_of_nil in Hk|done]. }
  apply NoDup_cons in Hnd as [Hk0 Hnd]. rewrite IH by done.
  destruct (decide (k = k0)) as [->|Hne].
  - rewrite decide_False by done. by rewrite decide_True by left.
  - assert (releaseKey write entries k0 !! k = entries !! k) as Hsame.
    { unfold releaseKey. repeat case_match; rewrite ?lookup_delete_ne, ?lookup_insert_ne; done. }
    rewrite (releaseKey_ext _ _ entries k Hsame), Hsame.
    repeat case_decide; try done; exfalso; set_solver.
Qed.

Lemma canGrant_key entries w key :
  canGrantLocked entries w = true → key ∈ lw_keys w →
  ∀ e, entries !! key = Some e → le_writer e = false ∧ (lw_write w = true → (le_readers e ≤ 0)%Z).
Proof.
  unfold canGrantLocked. rewrite forallb_forall. intros Hall Hk e He.
  specialize (Hall key). rewrite He in Hall. rewrite list_elem_of_In in Hk. specialize (Hall Hk).
  destruct (lw_write w); [|split; [by apply negb_true_iff|done]].
  apply negb_true_iff, orb_false_iff in Hall as [? ?]. go_bools. done.
Qed.

(** What a lock counts for on a key. *)
Lemma counts_on w key :
  (b2n (lw_write w && uses key w) = if decide (key ∈ lw_keys w) then b2n (lw_write w) else 0) ∧
  (b2n (negb (lw_write w) && uses key w) = if decide (key ∈ lw_keys w) then b2n (negb (lw_write w)) else 0).
Proof. unfold uses. case_decide; [rewrite bool_decide_eq_true_2 by done|rewrite bool_decide_eq_false_2 by done];
  by rewrite ?andb_true_r, ?andb_false_r. Qed.

Lemma grant_entries_ok entries held id w :
  entries_ok entries held → held !! id = None → waiter_ok w → canGrantLocked entries w = true →
  entries_ok (grantLocked entries w) (<[id := w]> held).
Proof.
  intros Hok Hid (Hnd & _) Hcan key. destruct (Hok key) as (He & Hw1 & Hw0).
  destruct (counts_on w key) as [Cw Cr]. unfold grantLocked, n_readers, n_writers.
  rewrite grant_lookup, !count_insert_fresh, Cw, Cr by done.
  fold (n_readers key held) (n_writers key held). case_decide as Hk.
  2: { by rewrite !Nat.add_0_r. }
  pose proof (canGrant_key _ _ _ Hcan Hk) as Hfree. rewrite He in Hfree |- *.
  set (nr := n_readers key held) in *. set (nw := n_writers key held) in *. unfold entry_of in *.
  assert (nw = 0 ∧ (lw_write w = true → nr = 0)) as [Hnw Hnr].
  { destruct (Nat.eqb_spec nr 0) as [Hr|Hr], (Nat.eqb_spec nw 0) as [Hw|Hw]; cbn [andb] in Hfree;
      [done|destruct (Hfree _ eq_refl); done|destruct (Hfree _ eq_refl) as [_ Hle]|destruct (Hfree _ eq_refl); done].
    split; [done|]. intros Hwr. specialize (Hle Hwr). cbn in Hle. lia. }
  rewrite Hnw. destruct (lw_write w); cbn.
  - rewrite Hnr by done. cbn. split_and!; [done|lia|lia].
  - destruct (Nat.eqb_spec nr 0) as [Hr|Hr]; cbn.
    + rewrite Hr. cbn. split_and!; [done|lia|lia].
    + replace (nr + 1 =? 0) with false by (symmetry; apply Nat.eqb_neq; lia). cbn.
      split_and!; [|lia|lia]. do 2 f_equal. lia.
Qed.

Lemma release_entries_ok entries held id w :
  entries_ok entries held → held !! id = Some w → waiter_ok w →
  entries_ok (foldl (releaseKey (lw_write w)) entries (lw_keys w)) (delete id held).
Proof.
  intros Hok Hid (Hnd & _) key. destruct (Hok key) as (He & Hw1 & Hw0).
  destruct (counts_on w key) as [Cw Cr].
  pose proof (count_delete (λ w, lw_write w && uses key w) held id w Hid) as Dw.
  pose proof (count_delete (λ w, negb (lw_write w) && uses key w) held id w Hid) as Dr.
  fold (n_writers key) in Dw. fold (n_readers key) in Dr. cbn beta in Dw, Dr. rewrite Cw in Dw. rewrite Cr in Dr.
  rewrite release_lookup by done.
  set (nr := n_readers key held) in *. set (nw := n_writers key held) in *.
  set (nr' := n_readers key (delete id held)) in *. set (nw' := n_writers key (delete id held)) in *.
  case_decide as Hk.
  2: { rewrite He. replace nr' with nr by lia. replace nw' with nw by lia. done. }
  unfold releaseKey. rewrite He. unfold entry_of.
  destruct (lw_write w); cbn in Dw, Dr.
  - assert (nw = 1 ∧ nr = 0 ∧ nw' = 0 ∧ nr' = 0) as (-> & -> & -> & ->) by lia. cbn.
    change (Z.of_nat 0 =? 0)%Z with true; cbv iota. rewrite lookup_delete_eq. split_and!; [done|lia|lia].
  - assert (nr ≠ 0 ∧ nw = 0 ∧ nw' = 0) as (Hr & -> & ->) by lia.
    rewrite (proj2 (Nat.eqb_neq nr 0)) by done. cbn.
    destruct (Nat.eqb_spec nr' 0) as [Hr'|Hr']; cbn.
    + rewrite (proj2 (Z.eqb_eq _ 0)) by lia. rewrite lookup_delete_eq. split_and!; [done|lia|lia].
    + rewrite (proj2 (Z.eqb_neq _ 0)) by lia. rewrite lookup_insert_eq. split_and!; [|lia|lia].
      do 2 f_equal. lia.
Qed.

(** ** Conflicts *)

Definition share (w w' : Waiter) : Prop := ∃ key, key ∈ lw_keys w ∧ key ∈ lw_keys w'.

(** Two callers that may not hold their locks at the same time. *)
Definition conflict (w w' : Waiter) : Prop :=
  (lw_write w = true ∨ lw_write w' = true) ∧ share w w'.

Lemma entry_writers entries held key h id :
  entries_ok entries held → held !! id = Some h → key ∈ lw_keys h →
  ∃ e, entries !! key = Some e ∧ (lw_write h = true → le_writer e = true) ∧
       (lw_write h = false → (0 < le_readers e)%Z).
Proof.
  intros Hok Hid Hk. destruct (Hok key) as [-> _].
  assert (uses key h = true) as Hu by by apply bool_decide_eq_true.
  pose proof (count_pos (λ w, lw_write w && uses key w) held id h Hid) as Pw.
  pose proof (count_pos (λ w, negb (lw_write w) && uses key w) held id h Hid) as Pr.
  cbn beta in Pw, Pr. rewrite Hu, andb_true_r in Pw, Pr.
  fold (n_writers key held) in Pw. fold (n_readers key held) in Pr. unfold entry_of.
  destruct (lw_write h).
  - specialize (Pw eq_refl). rewrite (proj2 (Nat.eqb_neq (n_writers key held) 0)) by lia.
    rewrite andb_false_r. eexists. split_and!; [done|done|done].
  - specialize (Pr eq_refl). rewrite (proj2 (Nat.eqb_neq (n_readers key held) 0)) by lia.
    eexists. split_and!; [done|done|cbn; lia].
Qed.

Lemma entry_holder entries held key e :
  entries_ok entries held → entries !! key = Some e →
  (le_writer e = true → ∃ id h, held !! id = Some h ∧ key ∈ lw_keys h ∧ lw_write h = true) ∧
  ((0 < le_readers e)%Z → ∃ id h, held !! id = Some h ∧ key ∈ lw_keys h).
Proof.
  intros Hok He. destruct (Hok key) as (He' & _). rewrite He in He'. unfold entry_of in He'.
  destruct (_ && _) in He'; [done|]. injection He' as ->. cbn. split; intros H.
  - apply negb_true_iff, Nat.eqb_neq in H.
    destruct (decide (map_Exists (λ _ w, lw_write w && uses key w = true) held)) as [(i & h & Hi & Hb)|Hno].
    + apply andb_true_iff in Hb as [Hw Hu]. apply bool_decide_eq_true in Hu. eauto.
    + destruct H. apply count_zero. intros i x Hx. apply not_true_is_false. intros Hb. destruct Hno. by exists i, x.
  - destruct (decide (map_Exists (λ _ w, negb (lw_write w) && uses key w = true) held)) as [(i & h & Hi & Hb)|Hno].
    + apply andb_true_iff in Hb as [_ Hu]. apply bool_decide_eq_true in Hu. eauto.
    + assert (n_readers key held = 0); [|lia].
      apply count_zero. intros i x Hx. apply not_true_is_false. intros Hb. destruct Hno. by exists i, x.
Qed.

(** The test on the entries finds exactly the conflicts with the held locks. *)
Lemma canGrant_conflict entries held w :
  entries_ok entries held →
  canGrantLocked entries w = true ↔ ∀ id h, held !! id = Some h → ¬ conflict w h.
Proof.
  intros Hok. split.
  - intros Hcan id h Hid [Hw (key & Hk & Hk')].
    destruct (entry_writers _ _ _ _ _ Hok Hid Hk') as (e & He & Hwr & Hrd).
    destruct (canGrant_key _ _ _ Hcan Hk _ He) as [Hnw Hnr].
    destruct (lw_write h); [specialize (Hwr eq_refl); congruence|].
    specialize (Hrd eq_refl). destruct Hw as [Hw|]; [|done]. specialize (Hnr Hw). lia.
  - intros Hfree. unfold canGrantLocked. apply forallb_forall. intros key Hk. apply list_elem_of_In in Hk.
    destruct (entries !! key) as [e|] eqn:He; [|done].
    destruct (entry_holder _ _ _ _ Hok He) as [Hwr Hrd].
    assert (le_writer e = false) as ->.
    { apply not_true_is_false. intros (id & h & Hid & Hk' & Hw)%Hwr.
      apply (Hfree id h Hid). split; [by right|by exists key]. }
    destruct (lw_write w) eqn:Hw; [|done]. cbn. apply negb_true_iff, Z.ltb_ge, Z.nlt_ge.
    intros (id & h & Hid & Hk')%Hrd. apply (Hfree id h Hid). split; [by left|by exists key].
Qed.

Lemma reservation_spec w reserved :
  waiterConflictsWithReservations w reserved = true ↔ ∃ key, key ∈ lw_keys w ∧ key ∈ reserved.
Proof.
  unfold waiterConflictsWithReservations. rewrite existsb_exists.
  split; intros (key & H1 & H2); exists key; rewrite list_elem_of_In in *; by rewrite bool_decide_eq_true in *.
Qed.

(** ** Dispatching *)

Definition ids_of (ws : list (nat * Waiter)) : list nat := ws.*1.

(** What [dispatchLocked] needs of the queue it walks. *)
Record queue_ok (ws : list (nat * Waiter)) (held : gmap nat Waiter) : Prop := {
  qk_waiters : ∀ i w, (i, w) ∈ ws → waiter_ok w;
  qk_sorted : StronglySorted lt (ids_of ws);
  qk_fresh : ∀ i w, (i, w) ∈ ws → held !! i = None;
}.

Lemma queue_ok_cons i w ws held :
  queue_ok ((i, w) :: ws) held →
  waiter_ok w ∧ held !! i = None ∧ (∀ j v, (j, v) ∈ ws → i < j) ∧ queue_ok ws held ∧
  queue_ok ws (<[i := w]> held).
Proof.
  intros [Hw Hs Hf]. cbn in Hs. apply StronglySorted_inv in Hs as [Hs Hlt].
  rewrite Forall_forall in Hlt.
  assert (∀ j v, (j, v) ∈ ws → i < j) as Hij.
  { intros j v Hj. apply Hlt. apply list_elem_of_fmap. by exists (j, v). }
  split_and!; [apply (Hw i); left|apply (Hf i w); left|done| |].
  - split; [|done|]; intros j v Hj; [apply (Hw j)|apply (Hf j v)]; by right.
  - split; [|done|]; intros j v Hj; [apply (Hw j); by right|].
    specialize (Hij _ _ Hj). rewrite lookup_insert_ne by lia. apply (Hf j v). by right.
Qed.

(** Why a queued caller is not granted: a lock that is held, or a writer that
    is queued before it (or was reserved before the walk began). *)
Definition blocked (reserved : gset string) (held : gmap nat Waiter) (ahead : list (nat * Waiter))
    (w : Waiter) : Prop :=
  (∃ i h, held !! i = Some h ∧ conflict w h) ∨ (∃ key, key ∈ lw_keys w ∧ key ∈ reserved) ∨
  (∃ j q, (j, q) ∈ ahead ∧ lw_write q = true ∧ share w q).

Record dispatched (ws : list (nat * Waiter)) (reserved : gset string) (held : gmap nat Waiter)
    (entries' : gmap string Entry) (held' : gmap nat Waiter) (remaining : list (nat * Waiter)) : Prop := {
  dp_entries : entries_ok entries' held';
  dp_sub : remaining `sublist_of` ws;
  dp_kept : held ⊆ held';
  dp_new : ∀ i w, held' !! i = Some w → held !! i = Some w ∨ (i, w) ∈ ws;
  dp_waiting : ∀ i w, (i, w) ∈ remaining → held' !! i = None;
  dp_all : ∀ i w, (i, w) ∈ ws → (i, w) ∈ remaining ∨ held' !! i = Some w;
  dp_free : ∀ i w, held !! i = None → held' !! i = Some w →
    (∀ j h, held !! j = Some h → ¬ conflict w h) ∧ (∀ key, key ∈ lw_keys w → key ∉ reserved);
  dp_blocked : ∀ pre i w post, remaining = pre ++ (i, w) :: post → blocked reserved held' pre w;
  dp_order : ∀ i w j v, (i, w) ∈ remaining → held !! j = None → held' !! j = Some v → i < j →
    ¬ conflict w v;
}.

Lemma conflict_sym w v : conflict w v → conflict v w.
Proof. intros [H (k & Hk & Hk')]. split; [tauto|by exists k]. Qed.

(** A caller that is skipped keeps every later caller it conflicts with from
    being granted: a writer by its reservations, a reader, which has one key,
    by whatever blocks it. *)
Lemma skipped_not_overtaken (reserved : gset string) (held : gmap nat Waiter) w v :
  waiter_ok w →
  (∃ key, key ∈ lw_keys w ∧ key ∈ reserved) ∨ (∃ i h, held !! i = Some h ∧ conflict w h) →
  (∀ j h, held !! j = Some h → ¬ conflict v h) →
  (∀ key, key ∈ lw_keys v →
     key ∉ if lw_write w then list_to_set (lw_keys w) ∪ reserved else reserved) →
  ¬ conflict w v.
Proof.
  intros (_ & _ & Hone) Hblock Hfree Hres [Hwv (key & Hk & Hk')].
  destruct (lw_write w) eqn:Hw.
  { apply (Hres key Hk'). set_solver. }
  destruct (lw_keys w) as [|k0 [|? ?]] eqn:Hks; specialize (Hone eq_refl); [done| |done].
  apply list_elem_of_singleton in Hk as ->.
  destruct Hblock as [(k & Hk & Hkr)|(i & h & Hi & Hwh & k & Hk & Hkh)].
  - apply list_elem_of_singleton in Hk as ->. by apply (Hres k0).
  - rewrite Hks in Hk. apply list_elem_of_singleton in Hk as ->.
    apply (Hfree i h Hi). split; [|by exists k0]. rewrite Hw in Hwh. naive_solver.
Qed.

#[export] Instance conflict_dec w v : Decision (conflict w v).
Proof.
  refine (cast_if (decide ((lw_write w = true ∨ lw_write v = true) ∧
            Exists (λ key, key ∈ lw_keys v) (lw_keys w))));
    unfold conflict, share; rewrite Exists_exists in *; naive_solver.
Defined.

(** The loop skips a caller. *)
Lemma skip_case i w ws (reserved : gset string) held (res : gmap string Entry * gmap nat Waiter * list (nat * Waiter)) :
  waiter_ok w → held !! i = None → (∀ j v, (j, v) ∈ ws → i < j) →
  (∃ key, key ∈ lw_keys w ∧ key ∈ reserved) ∨ (∃ j h, held !! j = Some h ∧ conflict w h) →
  (let '(entries', held', remaining) := res in
   dispatched ws (if lw_write w then list_to_set (lw_keys w) ∪ reserved else reserved) held
     entries' held' remaining) →
  let '(entries', held', remaining) := let '(entries, held, remaining) := res in
    (entries, held, (i, w) :: remaining) in
  dispatched ((i, w) :: ws) reserved held entries' held' remaining.
Proof.
  destruct res as [[entries' held'] remaining]. intros Hw Hi Hlt Hblock [].
  set (reserved' := if lw_write w then _ else _) in *.
  assert (reserved ⊆ reserved') as Hsub by (unfold reserved'; destruct (lw_write w); set_solver).
  split; try done.
  - by constructor.
  - intros j v Hj. destruct (dp_new0 j v Hj); [by left|right; by right].
  - intros j v [[= -> ->]|Hj]%elem_of_cons; [|by apply (dp_waiting0 j v)].
    destruct (held' !! i) as [v|] eqn:Hv; [|done]. destruct (dp_new0 i v Hv) as [?|Hin]; [congruence|].
    apply Hlt in Hin. lia.
  - intros j v [[= -> ->]|Hj]%elem_of_cons; [left; left|].
    destruct (dp_all0 j v Hj); [left; by right|by right].
  - intros j v Hj Hv. destruct (dp_free0 j v Hj Hv) as [H1 H2]. split; [done|]. intros key Hk.
    specialize (H2 key Hk). set_solver.
  - intros pre j v post Heq. destruct pre as [|[i' w'] pre]; injection Heq as <- <- Heq.
    { destruct Hblock as [?|(k & h & Hk & Hc)]; [right; by left|left]. exists k, h. split; [|done].
      by apply (lookup_weaken held). }
    destruct (dp_blocked0 pre j v post Heq) as [?|[(key & Hk & Hr)|(k & q & Hq & ?)]]; [by left| |].
    + unfold reserved' in Hr. destruct (lw_write w) eqn:Hww; [|right; left; by exists key].
      apply elem_of_union in Hr as [Hr|?]; [|right; left; by exists key].
      apply elem_of_list_to_set in Hr. right. right. exists i, w. split_and!; [left|done|by exists key].
    + right. right. exists k, q. split; [by right|done].
  - intros j v k u [[= -> ->]|Hj]%elem_of_cons Hk Hu Hjk; [|by apply (dp_order0 j v k u)].
    destruct (dp_free0 k u Hk Hu) as [H1 H2]. by apply (skipped_not_overtaken reserved held).
Qed.

(** The loop grants a caller. *)
Lemma grant_case i w ws (reserved : gset string) (held : gmap nat Waiter) entries' held' remaining :
  waiter_ok w → held !! i = None → (∀ j v, (j, v) ∈ ws → i < j) →
  (∀ j h, held !! j = Some h → ¬ conflict w h) → (∀ key, key ∈ lw_keys w → key ∉ reserved) →
  dispatched ws reserved (<[i := w]> held) entries' held' remaining →
  dispatched ((i, w) :: ws) reserved held entries' held' remaining.
Proof.
  intros Hw Hi Hlt Hfree Hres [].
  assert (held' !! i = Some w) as Hi' by (eapply lookup_weaken; [apply lookup_insert_eq|done]).
  split; try done.
  - by constructor.
  - etrans; [|done]. by apply insert_subseteq.
  - intros j v Hj. destruct (dp_new0 j v Hj) as [[[<- <-]|[? ?]]%lookup_insert_Some|]; [right; left|by left|right; by right].
  - intros j v [[= -> ->]|Hj]%elem_of_cons; [by right|by apply dp_all0].
  - intros j v Hj Hv. destruct (decide (i = j)) as [<-|Hne]; [by simplify_eq|].
    destruct (dp_free0 j v) as [H1 H2]; [by rewrite lookup_insert_ne|done|]. split; [|done].
    intros k h Hk. apply (H1 k). rewrite lookup_insert_ne; [done|congruence].
  - intros j v k u Hj Hk Hu Hjk. destruct (decide (i = k)) as [<-|Hne].
    + assert ((j, v) ∈ ws) as Hin by (by eapply elem_of_sublist). apply Hlt in Hin. lia.
    + apply (dp_order0 j v k u); try done. by rewrite lookup_insert_ne.
Qed.

Lemma dispatchLoop_spec ws : ∀ reserved entries held,
  entries_ok entries held → queue_ok ws held →
  let '(entries', held', remaining) := dispatchLoop ws reserved entries held in
  dispatched ws reserved held entries' held' remaining.
Proof.
  induction ws as [|[i w] ws IH]; intros reserved entries held Hok Hq; cbn [dispatchLoop].
  { split; try done; try (intros * H; by apply elem_of_nil in H).
    - intros i w. by left.
    - intros i w. congruence.
    - intros [] *; done. }
  apply queue_ok_cons in Hq as (Hw & Hi & Hlt & Hq & Hq').
  destruct (_ || _) eqn:Hskip.
  - apply skip_case; try done.
    + apply orb_true_iff in Hskip as [H|H]; [left; by apply reservation_spec|].
      right. apply negb_true_iff in H.
      destruct (decide (map_Exists (λ _ h, conflict w h) held)) as [(j & h & Hj & Hc)|Hno]; [eauto|].
      exfalso. revert H. rewrite <- not_true_iff_false, (canGrant_conflict _ _ _ Hok).
      intros H. apply H. intros j h Hj Hc. destruct Hno. by exists j, h.
    + by apply IH.
  - apply orb_false_iff in Hskip as [Hr Hc%negb_false_iff].
    specialize (IH reserved _ _ (grant_entries_ok _ _ i w Hok Hi Hw Hc) Hq').
    destruct (dispatchLoop ws reserved _ _) as [[entries' held'] remaining].
    apply grant_case; try done.
    + by apply (canGrant_conflict _ _ _ Hok).
    + intros key Hk Hin. apply not_true_iff_false in Hr. apply Hr, reservation_spec. eauto.
Qed.

(** ** The invariant *)

Record lock_pre (r : LockRegistry) : Prop := {
  lp_entries : entries_ok (lk_entries r) (lk_held r);
  lp_queue : queue_ok (lk_waiters r) (lk_held r);
  lp_held : ∀ i w, lk_held r !! i = Some w → waiter_ok w ∧ i < lk_next r;
  lp_next : ∀ i w, (i, w) ∈ lk_waiters r → i < lk_next r;
  lp_order : ∀ i w j h, (i, w) ∈ lk_waiters r → lk_held r !! j = Some h → conflict w h → j < i;
}.

Record lock_inv (r : LockRegistry) : Prop := {
  li_pre : lock_pre r;
  li_blocked : ∀ pre i w post, lk_waiters r = pre ++ (i, w) :: post → blocked ∅ (lk_held r) pre w;
}.

Lemma StronglySorted_sublist {A} (R : relation A) (l l' : list A) :
  l `sublist_of` l' → StronglySorted R l' → StronglySorted R l.
Proof.
  induction 1 as [|x l l' Hsub IH|x l l' _ IH]; intros H; [done| |].
  - apply StronglySorted_inv in H as [H Hall]. constructor; [auto|].
    rewrite Forall_forall in Hall |- *. intros y Hy. apply Hall. by eapply elem_of_sublist.
  - apply StronglySorted_inv in H as [H _]. auto.
Qed.

Lemma sublist_queue_ok ws ws' held held' :
  ws `sublist_of` ws' → (∀ i w, (i, w) ∈ ws → held' !! i = None) → queue_ok ws' held → queue_ok ws held'.
Proof.
  intros Hsub Hfr [Hw Hs Hf]. split; [| |done].
  - intros i w Hi. apply (Hw i). by eapply elem_of_sublist.
  - eapply StronglySorted_sublist; [by apply fmap_sublist|done].
Qed.

Lemma dispatch_inv r : lock_pre r → lock_inv (dispatchLocked r).
Proof.
  intros [He Hq Hh Hn Ho]. unfold dispatchLocked.
  pose proof (dispatchLoop_spec (lk_waiters r) ∅ _ _ He Hq) as Hd.
  destruct (dispatchLoop _ _ _ _) as [[entries held] remaining]. destruct Hd.
  split; [split|]; cbn; try done.
  - by eapply sublist_queue_ok.
  - intros i w Hi. destruct (dp_new0 i w Hi) as [?|Hin]; [eauto|].
    split; [by apply (qk_waiters _ _ Hq i)|by apply (Hn i w)].
  - intros i w Hi. apply (Hn i w). by eapply elem_of_sublist.
  - intros i w j h Hi Hj Hc. assert ((i, w) ∈ lk_waiters r) as Hi' by (by eapply elem_of_sublist).
    destruct (lk_held r !! j) as [h'|] eqn:Hj'.
    + assert (h' = h) as -> by (eapply lookup_weaken in Hj'; [|done]; congruence). by apply (Ho i w j h).
    + destruct (lt_eq_lt_dec i j) as [[Hlt| ->]|?]; [|apply dp_waiting0 in Hi; congruence|done].
      by destruct (dp_order0 i w j h).
Qed.

Lemma keys_ok ids keys :
  normalizePluginLifecycleKeys ids = Ok keys → NoDup keys ∧ keys ≠ [].
Proof.
  unfold normalizePluginLifecycleKeys. case_bool_decide as Hids; [done|].
  intros (unique & Hu & [= <-])%rbind_ok. split; [apply sort_strings_NoDup, NoDup_elements|].
  destruct ids as [|id ids]; [done|]. cbn in Hu. case_bool_decide; [done|].
  apply rbind_ok in Hu as (rest & _ & [= <-]). intros Hnil.
  assert (TrimSpace id ∈ sort_strings (elements ({[TrimSpace id]} ∪ rest))) as Hin.
  { rewrite sort_strings_elem_of. set_solver. }
  rewrite Hnil in Hin. by apply elem_of_nil in Hin.
Qed.

Lemma removeWaiter_sublist id ws : removeWaiter id ws `sublist_of` ws.
Proof.
  induction ws as [|[i w] ws IH]; [done|]. cbn. case_bool_decide; [by apply sublist_cons|by constructor].
Qed.

(** The waiter goes to the end of the queue: it is behind everybody. *)
Lemma enqueue_pre r keys write :
  lock_inv r → waiter_ok (mkWaiter keys write) →
  lock_pre (mkLockRegistry (lk_entries r) (lk_waiters r ++ [(lk_next r, mkWaiter keys write)])
              (lk_held r) (S (lk_next r))).
Proof.
  intros [[He [Hw Hs Hf] Hh Hn Ho] _] Hok.
  assert (∀ i w, (i, w) ∈ lk_waiters r ++ [(lk_next r, mkWaiter keys write)] →
    (i, w) ∈ lk_waiters r ∨ i = lk_next r ∧ w = mkWaiter keys write) as Hin.
  { intros i w [?|[= -> ->]%list_elem_of_singleton]%elem_of_app; auto. }
  split; cbn; [done|split| | |].
  - intros i w [Hi|[-> ->]]%Hin; eauto.
  - unfold ids_of. rewrite fmap_app. apply StronglySorted_app_2; cbn; [|done|repeat constructor].
    intros x1 x2 Hx1 ->%list_elem_of_singleton. apply list_elem_of_fmap in Hx1 as ([i w] & -> & Hi). by apply (Hn i w).
  - intros i w [Hi|[-> ->]]%Hin; [by apply (Hf i w)|].
    destruct (lk_held r !! lk_next r) eqn:Hx; [|done]. apply Hh in Hx as [_ ?]. lia.
  - intros i w Hi. destruct (Hh i w Hi). split; [done|lia].
  - intros i w [Hi|[-> ->]]%Hin; [apply Hn in Hi; lia|lia].
  - intros i w j h [Hi|[-> ->]]%Hin Hj Hc; [by apply (Ho i w j h)|]. by apply Hh in Hj as [_ ?].
Qed.

Lemma release_pre r id w :
  lock_inv r → lk_held r !! id = Some w →
  lock_pre (mkLockRegistry (foldl (releaseKey (lw_write w)) (lk_entries r) (lw_keys w))
              (lk_waiters r) (delete id (lk_held r)) (lk_next r)).
Proof.
  intros [[He Hq Hh Hn Ho] _] Hid. destruct (Hh id w Hid) as [Hw _]. split; cbn.
  - by apply release_entries_ok.
  - eapply sublist_queue_ok; [done| |done]. intros i v Hi. apply lookup_delete_None.
    right. by apply (qk_fresh _ _ Hq i v).
  - intros i v [_ Hi]%lookup_delete_Some. eauto.
  - done.
  - intros i v j h Hi [_ Hj]%lookup_delete_Some Hc. by apply (Ho i v j h).
Qed.

Lemma remove_pre r id :
  lock_inv r →
  lock_pre (mkLockRegistry (lk_entries r) (removeWaiter id (lk_waiters r)) (lk_held r) (lk_next r)).
Proof.
  intros [[He Hq Hh Hn Ho] _]. pose proof (removeWaiter_sublist id (lk_waiters r)) as Hsub.
  split; cbn; try done.
  - eapply sublist_queue_ok; [done| |done]. intros i v Hi. apply (qk_fresh _ _ Hq i v). by eapply elem_of_sublist.
  - intros i v Hi. apply (Hn i v). by eapply elem_of_sublist.
  - intros i v j h Hi. apply (Ho i v j h). by eapply elem_of_sublist.
Qed.

Lemma lock_inv_step r r' : lock_inv r → LockStep r r' → lock_inv r'.
Proof.
  intros Hr [ctxErr ids write|id|id].
  - unfold acquire. destruct (normalizePluginLifecycleKeys ids) as [keys|] eqn:Hk; [|done].
    destruct (_ && _) eqn:Hread; [done|]. destruct ctxErr; [done|]. cbn.
    apply dispatch_inv, enqueue_pre; [done|]. apply keys_ok in Hk as [Hnd Hne].
    split_and!; [done|done|]. cbn. intros ->. cbn in Hread. apply negb_false_iff in Hread.
    by apply bool_decide_eq_true in Hread.
  - unfold release. destruct (lk_held r !! id) eqn:Hid; [|done]. by apply dispatch_inv, release_pre.
  - unfold cancelAcquire, release. destruct (lk_held r !! id) eqn:Hid.
    + by apply dispatch_inv, release_pre.
    + by apply dispatch_inv, remove_pre.
Qed.


Lemma lock_inv_reachable r : reachable lock_initial LockStep r → lock_inv r.
Proof.
  apply reachable_invariant; [|apply lock_inv_step].
  intros ? ->. split; [split; cbn|].
  - intros key. split; [done|]. change (0 ≤ 1 ∧ (0 = 1 → 0 = 0)). lia.
  - split; cbn; try (intros * H; by apply elem_of_nil in H). constructor.
  - done.
  - intros * H; by apply elem_of_nil in H.
  - done.
  - intros [] *; done.
Qed.

(** ** The theorems *)

Lemma held_exclusive r i j w v :
  lock_inv r → lk_held r !! i = Some w → lk_held r !! j = Some v → i ≠ j → ¬ conflict w v.
Proof.
  intros [[He _ _ _ _] _] Hi Hj Hij [Hwv (key & Hk & Hk')].
  destruct (He key) as (_ & Hw1 & Hw0).
  assert (uses key w = true ∧ uses key v = true) as [Uw Uv] by (split; by apply bool_decide_eq_true).
  pose proof (count_pos (λ w, lw_write w && uses key w) _ i w Hi) as Pw.
  pose proof (count_pos (λ w, lw_write w && uses key w) _ j v Hj) as Pv.
  pose proof (count_pos (λ w, negb (lw_write w) && uses key w) _ i w Hi) as Rw.
  pose proof (count_pos (λ w, negb (lw_write w) && uses key w) _ j v Hj) as Rv.
  pose proof (count_two (λ w, lw_write w && uses key w) _ i j w v Hi Hj) as P2.
  cbn beta in *. rewrite Uw, ?andb_true_r in Pw, Rw, P2. rewrite Uv, ?andb_true_r in Pv, Rv, P2.
  fold (n_writers key (lk_held r)) in *. fold (n_readers key (lk_held r)) in *.
  destruct (lw_write w), (lw_write v); cbn [negb] in *;
    repeat match goal with H : true = true → _ |- _ => specialize (H eq_refl) end;
    first [lia | naive_solver lia].
Qed.

(** C9: mutual exclusion of the lifecycle locks: whatever callers acquire,
    release and cancel, two different callers that hold locks at the same time
    on a common plugin both hold them for reading. *)
Theorem lifecycle_exclusion r i j w v :
  reachable lock_initial LockStep r → lk_held r !! i = Some w → lk_held r !! j = Some v → i ≠ j →
  ∀ key, key ∈ lw_keys w → key ∈ lw_keys v → lw_write w = false ∧ lw_write v = false.
Proof.
  intros Hr%lock_inv_reachable Hi Hj Hij key Hk Hk'.
  pose proof (held_exclusive _ _ _ _ _ Hr Hi Hj Hij) as Hno.
  destruct (lw_write w) eqn:Hw, (lw_write v) eqn:Hv; try done;
    destruct Hno; (split; [rewrite Hw, Hv; auto|by exists key]).
Qed.

(** no lost wake-up and no deadlock: a caller that waits is kept waiting
    only by callers that came before it, each of which holds a conflicting lock
    or is a writer of a common plugin still in the queue; the locks are first
    come, first served between callers that conflict, so that a reader that
    arrives while a writer waits does not pass it; and nobody waits once every
    lock is released. *)
Theorem lifecycle_progress r pre i w post :
  reachable lock_initial LockStep r → lk_waiters r = pre ++ (i, w) :: post →
  ((∃ j h, lk_held r !! j = Some h ∧ conflict w h ∧ j < i) ∨
   (∃ j q, (j, q) ∈ pre ∧ lw_write q = true ∧ share w q ∧ j < i)) ∧
  (∀ j h, lk_held r !! j = Some h → conflict w h → j < i) ∧
  lk_held r ≠ ∅.
Proof.
  intros [[_ [_ Hs _] _ _ Ho] Hb]%lock_inv_reachable Hq.
  assert (∀ j q, (j, q) ∈ pre → j < i) as Hlt.
  { intros j q Hj. rewrite Hq in Hs. unfold ids_of in Hs. rewrite fmap_app in Hs.
    eapply StronglySorted_app_1_elem_of in Hs; [done| |by left]. apply list_elem_of_fmap. by exists (j, q). }
  split_and!.
  - destruct (Hb _ _ _ _ Hq) as [(j & h & Hj & Hc)|[(key & _ & Hk)|(j & q & Hj & Hw & Hsh)]]; [left|set_solver|right].
    + exists j, h. split_and!; [done|done|]. apply (Ho i w j h); [|done|done]. rewrite Hq. set_solver.
    + exists j, q. split_and!; eauto.
  - intros j h. apply Ho. rewrite Hq. set_solver.
  - intros Hemp. destruct (lk_waiters r) as [|[i0 w0] ws] eqn:Hws; [by destruct pre|].
    destruct (Hb [] i0 w0 ws eq_refl) as [(j & h & Hj & _)|[(key & _ & Hk)|(j & q & Hj & _)]]; [|set_solver|set_solver].
    rewrite Hemp, lookup_empty in Hj. done.
Qed.

(** A run: a reader of [a], a writer of [a] and [b], a reader of [b]. *)
Definition sample_lock : LockRegistry :=
  (acquire (acquire (acquire newPluginLifecycleLockRegistry None ["a"] false).1 None ["b"; "a"] true).1
     None ["b"] false).1.

Lemma sample_lock_reachable : reachable lock_initial LockStep sample_lock.
Proof.
  exists newPluginLifecycleLockRegistry. split; [done|].
  do 3 (eapply rtc_r; [|apply step_acquire]). apply rtc_refl.
Qed.

Lemma lifecycle_exclusion_witness : lw_write (mkWaiter ["a"] false) = false.
Proof.
  apply (lifecycle_exclusion
    (acquire (acquire newPluginLifecycleLockRegistry None ["a"] false).1 None [" a"] false).1 0 1
    (mkWaiter ["a"] false) (mkWaiter ["a"] false)) with (key := "a"); [|reflexivity|reflexivity|done|left|left].
  exists newPluginLifecycleLockRegistry. split; [done|].
  do 2 (eapply rtc_r; [|apply step_acquire]). apply rtc_refl.
Defined.

Lemma lifecycle_progress_witness : lk_held sample_lock ≠ ∅.
Proof.
  apply (lifecycle_progress sample_lock [(1, mkWaiter ["a"; "b"] true)] 2 (mkWaiter ["b"] false) []);
    [apply sample_lock_reachable|reflexivity].
Defined.
