(* ===== verification/ResourceTable.v ===== *)
(** * internal/resourceio/table.go: the resource handle table

    Handles to files, connections, watches and listeners, each bound to an
    owner. A table has a mutex, and every entry has a mutex for its closed flag
    and four for the operations on its resource. Goroutines run concurrently:
    every method is a [Prog], a tree of the atomic actions the method performs,
    and the table and its entries are shared.

    The resources are code outside this file. A resource is given by the Go
    interfaces its dynamic type implements ([Resource]), and a call of one of
    its methods returns any result ([Call], [CloseResource]). A nil table and a
    nil callback are not modelled. *)

From S2P Require Import Prelude GoLib SessionCtx.

Open Scope go_scope.

(** An error value of a resource: whether [errors.Is(err, io.EOF)]. *)
Record ExtErr := mkExtErr { xe_EOF : bool; xe_message : string }.

Inductive TblErr :=
| ErrInvalidHandle | ErrResourceClosed | ErrOwnerMismatch | ErrResourceLimit
| ErrShortWrite | TblCtx (e : CtxErr) | External (e : ExtErr) | Joined (es : list ExtErr)
| EntropyErr.

#[export] Instance ExtErr_eq_dec : EqDecision ExtErr.
Proof. solve_decision. Defined.
#[export] Instance TblErr_eq_dec : EqDecision TblErr.
Proof. solve_decision. Defined.

(** ** Flags, kinds and limits *)

Definition IOFlagEOF : Z := Z.shiftl 1 0.
Definition IOFlagText : Z := Z.shiftl 1 1.
Definition IOFlagBinary : Z := Z.shiftl 1 2.
Definition IOFlagMessageEnd : Z := Z.shiftl 1 3.
Definition IOFlagDatagramEnd : Z := Z.shiftl 1 4.

Definition knownIOFlags : Z :=
  Z.lor (Z.lor (Z.lor (Z.lor IOFlagEOF IOFlagText) IOFlagBinary) IOFlagMessageEnd) IOFlagDatagramEnd.

(** [flags&^knownIOFlags != 0]. *)
Definition unknownFlags (flags : Z) : bool := negb (Z.ldiff flags knownIOFlags =? 0)%Z.

Definition KindFile := "file".
Definition KindDirectory := "directory".
Definition KindWatch := "watch".
Definition KindHTTPUpload := "http_upload".
Definition KindHTTPBody := "http_body".
Definition KindWebSocket := "websocket".
Definition KindTCP := "tcp".
Definition KindTCPListener := "tcp_listener".
Definition KindUDP := "udp".

Definition LifetimeInvocation := "invocation".
Definition LifetimeSession := "session".

Definition MinimumFileHandles : Z := 64.
Definition MinimumConnections : Z := 32.
Definition MinimumWatchesListeners : Z := 8.

Record Limits := mkLimits {
  lm_FileHandles : Z;
  lm_Connections : Z;
  lm_WatchesListeners : Z;
}.

Definition DefaultLimits : Limits :=
  mkLimits MinimumFileHandles MinimumConnections MinimumWatchesListeners.

Definition Limits_valid (limits : Limits) : bool :=
  (MinimumFileHandles <=? lm_FileHandles limits)%Z &&
  (MinimumConnections <=? lm_Connections limits)%Z &&
  (MinimumWatchesListeners <=? lm_WatchesListeners limits)%Z.

Inductive kindClass := kindClassFile | kindClassConnection | kindClassWatchListener.

#[export] Instance kindClass_eq_dec : EqDecision kindClass.
Proof. solve_decision. Defined.

Definition validKind (kind : string) : bool :=
  bool_decide (kind ∈ [KindFile; KindDirectory; KindWatch; KindHTTPUpload; KindHTTPBody;
                       KindWebSocket; KindTCP; KindTCPListener; KindUDP]).

Definition kindClassFor (kind : string) : kindClass :=
  if bool_decide (kind ∈ [KindWatch; KindTCPListener]) then kindClassWatchListener
  else if bool_decide (kind ∈ [KindHTTPUpload; KindHTTPBody; KindWebSocket; KindTCP; KindUDP])
  then kindClassConnection
  else kindClassFile.

(** ** Owners *)

Record Owner := mkOwner {
  ow_PluginInstanceID : string;
  ow_ActiveFingerprint : string;
  ow_Scope : ResourceScope;
  ow_Session : SessionScope;
  ow_RuntimeGeneration : string;
  ow_ManagementRevision : Z;
  ow_RevokeEpoch : Z;
  ow_InvocationID : string;
  ow_Lifetime : string;
}.

Definition Owner_matches (owner candidate : Owner) : bool :=
  if negb (bool_decide (ow_PluginInstanceID owner = ow_PluginInstanceID candidate)) ||
     negb (bool_decide (ow_ActiveFingerprint owner = ow_ActiveFingerprint candidate)) ||
     negb (bool_decide (ow_RuntimeGeneration owner = ow_RuntimeGeneration candidate)) ||
     negb (ow_ManagementRevision owner =? ow_ManagementRevision candidate)%Z ||
     negb (ow_RevokeEpoch owner =? ow_RevokeEpoch candidate)%Z ||
     negb (ResourceScope_Matches (ow_Scope owner) (ow_Scope candidate)) ||
     negb (SessionScope_Matches (ow_Session owner) (ow_Session candidate))
  then false
  else if bool_decide (ow_Lifetime owner = LifetimeInvocation) &&
          negb (bool_decide (ow_InvocationID owner = ow_InvocationID candidate))
  then false
  else true.

Definition Owner_valid (owner : Owner) : bool :=
  negb (bool_decide (ow_PluginInstanceID owner = "")) &&
  negb (bool_decide (ow_ActiveFingerprint owner = "")) &&
  ResourceScope_Valid (ow_Scope owner) && SessionScope_Valid (ow_Session owner) &&
  negb (bool_decide (ow_RuntimeGeneration owner = "")) &&
  (bool_decide (ow_Lifetime owner = LifetimeSession) ||
   bool_decide (ow_Lifetime owner = LifetimeInvocation)) &&
  (negb (bool_decide (ow_Lifetime owner = LifetimeInvocation)) ||
   negb (bool_decide (ow_InvocationID owner = ""))).

Definition Owner_samePrincipal (owner candidate : Owner) : bool :=
  bool_decide (ow_PluginInstanceID owner = ow_PluginInstanceID candidate) &&
  ResourceScope_Matches (ow_Scope owner) (ow_Scope candidate) &&
  SessionScope_Matches (ow_Session owner) (ow_Session candidate) &&
  bool_decide (ow_Lifetime owner = ow_Lifetime candidate) &&
  (negb (bool_decide (ow_Lifetime owner = LifetimeInvocation)) ||
   bool_decide (ow_InvocationID owner = ow_InvocationID candidate)).

(** ** Entries and the table *)

(** The interfaces a resource implements, as its type assertions see them. *)
Record Resource := mkResource {
  rr_FullDuplexResource : bool;
  rr_ChunkReader : bool;
  rr_Reader : bool;
  rr_OwnedChunkWriter : bool;
  rr_ChunkWriter : bool;
  rr_Writer : bool;
  rr_Seeker : bool;
}.

Inductive Mutex := operationMu | readMu | writeMu | controlMu.

#[export] Instance Mutex_eq_dec : EqDecision Mutex.
Proof. solve_decision. Defined.
#[export] Instance Mutex_countable : Countable Mutex.
Proof.
  apply (inj_countable' (λ m, match m with operationMu => 0 | readMu => 1 | writeMu => 2 | controlMu => 3 end)
    (λ n, match n with 0 => operationMu | 1 => readMu | 2 => writeMu | _ => controlMu end)); by intros [].
Defined.

Record Entry := mkEntry {
  en_ID : Z;
  en_Owner : Owner;
  en_Kind : string;
  en_Resource : Resource;
}.

(** The mutable part of an entry: its closed flag and the operation mutexes
    that are locked. Two history fields: how often the resource was closed, and
    the mutexes [close] has waited for, all four when it has returned. *)
Record EntryState := mkEntryState {
  es_entry : Entry;
  es_closed : bool;
  es_locked : gset Mutex;
  es_closes : nat;
  es_drained : gset Mutex;
}.

(** Entries are pointers, numbered in the order of their creation. *)
Record Table := mkTable {
  tb_entries : gmap Z nat;
  tb_limits : Limits;
  tb_heap : gmap nat EntryState;
  tb_next : nat;
}.

Definition NewTable (max : Z) : Result TblErr Table :=
  if (max <=? 0)%Z then Err ErrResourceLimit
  else Ok (mkTable ∅ (mkLimits max max max) ∅ 0).

Definition NewTableWithLimits (limits : Limits) : Result TblErr Table :=
  if negb (Limits_valid limits) then Err ErrResourceLimit
  else Ok (mkTable ∅ limits ∅ 0).

Definition limitFor (table : Table) (kind : string) : Z :=
  match kindClassFor kind with
  | kindClassConnection => lm_Connections (tb_limits table)
  | kindClassWatchListener => lm_WatchesListeners (tb_limits table)
  | kindClassFile => lm_FileHandles (tb_limits table)
  end.

(** Whether an entry counts against the limit of an owner for a class. *)
Definition countsFor (table : Table) (owner : Owner) (class : kindClass) (ptr : nat) : bool :=
  match tb_heap table !! ptr with
  | None => false
  | Some s =>
     bool_decide (ow_PluginInstanceID (en_Owner (es_entry s)) = ow_PluginInstanceID owner) &&
     ResourceScope_Matches (ow_Scope (en_Owner (es_entry s))) (ow_Scope owner) &&
     bool_decide (kindClassFor (en_Kind (es_entry s)) = class)
  end.

Definition ownerKindCountLocked (table : Table) (owner : Owner) (class : kindClass) : Z :=
  Z.of_nat (count (countsFor table owner class) (tb_entries table)).

(** ** Handles *)

(** [binary.BigEndian.Uint64]. *)
Definition BigEndianUint64 (raw : list Z) : Z := foldl (λ acc b, Z.lor (Z.shiftl acc 8) b) 0%Z raw.

Definition resourceHandleFromEntropy (raw : list Z) : Z :=
  Z.land (BigEndianUint64 raw) (Z.shiftl 1 63 - 1).

(** The loop of [Open] around [randomHandle]: a draw that gives 0 or a handle
    in use is thrown away. [draws] are the results of [rand.Read] in order; the
    loop has not ended when they run out. *)
Fixpoint freshHandle (entries : gmap Z nat) (draws : list (option (list Z))) : option (Result TblErr Z) :=
  match draws with
  | [] => None
  | None :: _ => Some (Err EntropyErr)
  | Some raw :: draws =>
     let id := resourceHandleFromEntropy raw in
     if (id =? 0)%Z then freshHandle entries draws
     else if bool_decide (is_Some (entries !! id)) then freshHandle entries draws
     else Some (Ok id)
  end.

(** [table.entries[id] = &Entry{...}]. *)
Definition addEntry (table : Table) (entry : Entry) : Table :=
  mkTable (<[en_ID entry := tb_next table]> (tb_entries table)) (tb_limits table)
    (<[tb_next table := mkEntryState entry false ∅ 0 ∅]> (tb_heap table)) (S (tb_next table)).

Definition removeEntry (table : Table) (id : Z) : Table :=
  mkTable (delete id (tb_entries table)) (tb_limits table) (tb_heap table) (tb_next table).

(** ** Programs *)

(** What a method of the table returns; [Write] has no flags, the others only
    an error. *)
Record IOResult := mkIO { io_n : Z; io_flags : Z; io_err : option TblErr }.

(** What a method of a resource, or a callback, returns. *)
Record CallResult := mkCallResult { cr_n : Z; cr_flags : Z; cr_err : option ExtErr }.

(** What the environment decides in a step. *)
Record Choice := mkChoice {
  ch_draws : list (option (list Z));
  ch_create : Result ExtErr (option Resource);
  ch_ctx : option CtxErr;
  ch_call : CallResult;
  ch_close : option ExtErr;
}.

(** A goroutine is the tree of what it still has to do: a section under
    [table.mu], one under an entry's [stateMu], the lock and the unlock of an
    operation mutex, a lock that is unlocked at once, a look at the context, a
    call of a method of the resource for a caller, and its [Close]. *)
Inductive Prog :=
| Ret (r : IOResult)
| Section_ (f : Choice → Table → option (Table * Prog))
| StateSection (ptr : nat) (f : bool → bool * Prog)
| Lock (ptr : nat) (m : Mutex) (k : Prog)
| Unlock (ptr : nat) (m : Mutex) (k : Prog)
| LockUnlock (ptr : nat) (m : Mutex) (k : Prog)
| CtxDone (k : option CtxErr → Prog)
| Call (ptr : nat) (owner : Owner) (k : CallResult → Prog)
| CloseResource (ptr : nat) (k : option ExtErr → Prog).

Definition fail (e : TblErr) : Prog := Ret (mkIO 0 0 (Some e)).

Definition external (e : option ExtErr) : option TblErr := External <$> e.

(** [entry.isClosed]. *)
Definition isClosed (ptr : nat) (k : bool → Prog) : Prog :=
  StateSection ptr (λ closed, (closed, k closed)).

(** [entry.close]. *)
Definition close (ptr : nat) (k : option ExtErr → Prog) : Prog :=
  StateSection ptr (λ closed,
    if closed then (closed, k None)
    else (true,
      CloseResource ptr (λ err,
        LockUnlock ptr operationMu (LockUnlock ptr readMu (LockUnlock ptr writeMu
          (LockUnlock ptr controlMu (k err))))))).

Inductive operationMode := operationRead | operationWrite | operationControl.

(** The mutex [entry.lockOperation] locks. *)
Definition lockOperation (resource : Resource) (mode : operationMode) : Mutex :=
  if negb (rr_FullDuplexResource resource) then operationMu
  else match mode with
       | operationWrite => writeMu
       | operationControl => controlMu
       | operationRead => readMu
       end.

(** [table.acquireMode]; [k] gets the entry and the mutex its [release]
    unlocks. *)
Definition acquireMode (id : Z) (owner : Owner) (mode : operationMode) (control : bool)
    (k : nat → Entry → Mutex → Prog) : Prog :=
  Section_ (λ _ table,
    match tb_entries table !! id with
    | None => Some (table, fail ErrResourceClosed)
    | Some ptr =>
       s ← tb_heap table !! ptr;
       let entry := es_entry s in
       if negb (Owner_matches (en_Owner entry) owner) then
         if Owner_samePrincipal (en_Owner entry) owner then
           Some (removeEntry table id, close ptr (λ _, fail ErrResourceClosed))
         else Some (table, fail ErrOwnerMismatch)
       else
         let mode := if control then operationControl else mode in
         let m := lockOperation (en_Resource entry) mode in
         Some (table,
           Lock ptr m (isClosed ptr (λ closed,
             if closed then Unlock ptr m (fail ErrResourceClosed) else k ptr entry m)))
    end).

Definition acquire (id : Z) (owner : Owner) (write : bool) (k : nat → Entry → Mutex → Prog) : Prog :=
  acquireMode id owner (if write then operationWrite else operationRead) false k.

(** ** The methods of the table *)

(** The capacity test and the insertion of [Open] and [OpenCreated], under
    [table.mu]. *)
Definition openSection (owner : Owner) (kind : string)
    (create : Choice → Result TblErr Resource) : Prog :=
  Section_ (λ c table,
    if (limitFor table kind <=? ownerKindCountLocked table owner (kindClassFor kind))%Z
    then Some (table, fail ErrResourceLimit)
    else
      drawn ← freshHandle (tb_entries table) (ch_draws c);
      match drawn with
      | Err e => Some (table, fail e)
      | Ok id =>
         match create c with
         | Err e => Some (table, fail e)
         | Ok resource => Some (addEntry table (mkEntry id owner kind resource), Ret (mkIO id 0 None))
         end
      end).

Definition Open (owner : Owner) (kind : string) (resource : Resource) : Prog :=
  if negb (Owner_valid owner) || negb (validKind kind) then fail ErrInvalidHandle
  else openSection owner kind (λ _, Ok resource).

Definition OpenCreated (owner : Owner) (kind : string) : Prog :=
  if negb (Owner_valid owner) || negb (validKind kind) then fail ErrInvalidHandle
  else openSection owner kind (λ c,
    match ch_create c with
    | Err e => Err (External e)
    | Ok None => Err ErrInvalidHandle
    | Ok (Some resource) => Ok resource
    end).

Definition Close (id : Z) (owner : Owner) : Prog :=
  Section_ (λ _ table,
    match tb_entries table !! id with
    | None => Some (table, Ret (mkIO 0 0 None))
    | Some ptr =>
       s ← tb_heap table !! ptr;
       if negb (Owner_matches (en_Owner (es_entry s)) owner) then Some (table, fail ErrOwnerMismatch)
       else Some (removeEntry table id, close ptr (λ err, Ret (mkIO 0 0 (external err))))
    end).

(** [defer release()]. *)
Definition return_ (ptr : nat) (m : Mutex) (r : IOResult) : Prog := Unlock ptr m (Ret r).

Definition ReadChunk (id : Z) (owner : Owner) (destination : Z) : Prog :=
  if (destination =? 0)%Z || (Z.shiftl 64 10 <? destination)%Z then fail ErrResourceLimit
  else acquire id owner false (λ ptr entry m,
    let refuse e := return_ ptr m (mkIO 0 0 (Some e)) in
    if rr_ChunkReader (en_Resource entry) then
      Call ptr owner (λ r, isClosed ptr (λ closed,
        if closed then refuse ErrResourceClosed
        else if (cr_n r <? 0)%Z || (destination <? cr_n r)%Z || unknownFlags (cr_flags r)
        then refuse ErrInvalidHandle
        else return_ ptr m (mkIO (cr_n r) (cr_flags r) (external (cr_err r)))))
    else if negb (rr_Reader (en_Resource entry)) then refuse ErrInvalidHandle
    else CtxDone (λ ctxErr,
      match ctxErr with
      | Some e => refuse (TblCtx e)
      | None => Call ptr owner (λ r, isClosed ptr (λ closed,
          if closed then refuse ErrResourceClosed
          else match cr_err r with
               | Some e => if xe_EOF e then return_ ptr m (mkIO (cr_n r) IOFlagEOF None)
                           else return_ ptr m (mkIO (cr_n r) 0 (Some (External e)))
               | None => return_ ptr m (mkIO (cr_n r) 0 None)
               end))
      end)).

(** The checks that [WriteChunk] makes after an owned or plain chunk write. *)
Definition finishChunkWrite (ptr : nat) (m : Mutex) (source : Z) (r : CallResult) : Prog :=
  isClosed ptr (λ closed,
    if closed then return_ ptr m (mkIO (cr_n r) 0 (Some ErrResourceClosed))
    else if (cr_n r <? 0)%Z || (source <? cr_n r)%Z then return_ ptr m (mkIO 0 0 (Some ErrShortWrite))
    else if bool_decide (cr_err r = None) && negb (cr_n r =? source)%Z
    then return_ ptr m (mkIO (cr_n r) 0 (Some ErrShortWrite))
    else return_ ptr m (mkIO (cr_n r) 0 (external (cr_err r)))).

Definition WriteChunk (id : Z) (owner : Owner) (source : Z) (flags : Z) : Prog :=
  if (Z.shiftl 64 10 <? source)%Z then fail ErrResourceLimit
  else if unknownFlags flags then fail ErrInvalidHandle
  else acquire id owner true (λ ptr entry m,
    let refuse e := return_ ptr m (mkIO 0 0 (Some e)) in
    if rr_OwnedChunkWriter (en_Resource entry) then Call ptr owner (finishChunkWrite ptr m source)
    else if rr_ChunkWriter (en_Resource entry) then Call ptr owner (finishChunkWrite ptr m source)
    else if negb (flags =? 0)%Z then refuse ErrInvalidHandle
    else if negb (rr_Writer (en_Resource entry)) then refuse ErrInvalidHandle
    else CtxDone (λ ctxErr,
      match ctxErr with
      | Some e => refuse (TblCtx e)
      | None => Call ptr owner (λ r, isClosed ptr (λ closed,
          if closed then return_ ptr m (mkIO (cr_n r) 0 (Some ErrResourceClosed))
          else if bool_decide (cr_err r = None) && negb (cr_n r =? source)%Z
          then return_ ptr m (mkIO (cr_n r) 0 (Some ErrShortWrite))
          else return_ ptr m (mkIO (cr_n r) 0 (external (cr_err r)))))
      end)).

Definition Read (id : Z) (owner : Owner) (destination : Z) : Prog := ReadChunk id owner destination.
Definition Write (id : Z) (owner : Owner) (source : Z) : Prog := WriteChunk id owner source 0.

(** [SeekContext] and [Seek] are both calls of the resource; the result is the
    position. *)
Definition Seek (id : Z) (owner : Owner) : Prog :=
  acquire id owner false (λ ptr entry m,
    if negb (rr_Seeker (en_Resource entry)) then return_ ptr m (mkIO 0 0 (Some ErrInvalidHandle))
    else Call ptr owner (λ r, isClosed ptr (λ closed,
      if closed then return_ ptr m (mkIO 0 0 (Some ErrResourceClosed))
      else return_ ptr m (mkIO (cr_n r) 0 (external (cr_err r)))))).

Definition use (id : Z) (owner : Owner) (kind : string) (control : bool) : Prog :=
  acquireMode id owner operationRead control (λ ptr entry m,
    if negb (bool_decide (en_Kind entry = kind)) then return_ ptr m (mkIO 0 0 (Some ErrInvalidHandle))
    else Call ptr owner (λ r, isClosed ptr (λ closed,
      if closed then return_ ptr m (mkIO 0 0 (Some ErrResourceClosed))
      else return_ ptr m (mkIO 0 0 (external (cr_err r)))))).

Definition Use (id : Z) (owner : Owner) (kind : string) : Prog := use id owner kind false.
Definition UseControl (id : Z) (owner : Owner) (kind : string) : Prog := use id owner kind true.

(** The entries a predicate selects, and their removal; Go's map order is any
    order, here that of the map. *)
Definition revoked (predicate : Owner → bool) (table : Table) (x : Z * nat) : bool :=
  match tb_heap table !! x.2 with
  | Some s => predicate (en_Owner (es_entry s))
  | None => false
  end.

Fixpoint closeAll (ptrs : list nat) (joined : list ExtErr) : Prog :=
  match ptrs with
  | [] => Ret (mkIO 0 0 (if bool_decide (joined = []) then None else Some (Joined joined)))
  | ptr :: ptrs => close ptr (λ err, closeAll ptrs (joined ++ option_list err))
  end.

Definition Revoke (predicate : Owner → bool) : Prog :=
  Section_ (λ _ table,
    let gone := filter (revoked predicate table) (map_to_list (tb_entries table)) in
    Some (mkTable (filter (λ x, revoked predicate table x = false) (tb_entries table))
            (tb_limits table) (tb_heap table) (tb_next table),
          closeAll gone.*2 [])).

Definition Len (table : Table) : Z := Z.of_nat (size (tb_entries table)).

(** ** Runs *)

Inductive Request :=
| ReqOpen (owner : Owner) (kind : string) (resource : Resource)
| ReqOpenCreated (owner : Owner) (kind : string)
| ReqClose (id : Z) (owner : Owner)
| ReqReadChunk (id : Z) (owner : Owner) (destination : Z)
| ReqWriteChunk (id : Z) (owner : Owner) (source flags : Z)
| ReqSeek (id : Z) (owner : Owner)
| ReqUse (id : Z) (owner : Owner) (kind : string) (control : bool)
| ReqRevoke (predicate : Owner → bool).

Definition program (q : Request) : Prog :=
  match q with
  | ReqOpen owner kind resource => Open owner kind resource
  | ReqOpenCreated owner kind => OpenCreated owner kind
  | ReqClose id owner => Close id owner
  | ReqReadChunk id owner destination => ReadChunk id owner destination
  | ReqWriteChunk id owner source flags => WriteChunk id owner source flags
  | ReqSeek id owner => Seek id owner
  | ReqUse id owner kind control => use id owner kind control
  | ReqRevoke predicate => Revoke predicate
  end.

Definition set_entry (table : Table) (ptr : nat) (s : EntryState) : Table :=
  mkTable (tb_entries table) (tb_limits table) (<[ptr := s]> (tb_heap table)) (tb_next table).

(** One action of a goroutine; [None] when it has returned or has to wait. *)
Definition act (c : Choice) (table : Table) (p : Prog) : option (Table * Prog) :=
  match p with
  | Ret _ => None
  | Section_ f => f c table
  | StateSection ptr f =>
     s ← tb_heap table !! ptr;
     let '(closed, k) := f (es_closed s) in
     Some (set_entry table ptr (mkEntryState (es_entry s) closed (es_locked s) (es_closes s) (es_drained s)), k)
  | Lock ptr m k =>
     s ← tb_heap table !! ptr;
     if bool_decide (m ∈ es_locked s) then None
     else Some (set_entry table ptr
       (mkEntryState (es_entry s) (es_closed s) ({[m]} ∪ es_locked s) (es_closes s) (es_drained s)), k)
  | Unlock ptr m k =>
     s ← tb_heap table !! ptr;
     Some (set_entry table ptr
       (mkEntryState (es_entry s) (es_closed s) (es_locked s ∖ {[m]}) (es_closes s) (es_drained s)), k)
  | LockUnlock ptr m k =>
     s ← tb_heap table !! ptr;
     if bool_decide (m ∈ es_locked s) then None
     else Some (set_entry table ptr
       (mkEntryState (es_entry s) (es_closed s) (es_locked s) (es_closes s) ({[m]} ∪ es_drained s)), k)
  | CtxDone k => Some (table, k (ch_ctx c))
  | Call _ _ k => Some (table, k (ch_call c))
  | CloseResource ptr k =>
     s ← tb_heap table !! ptr;
     Some (set_entry table ptr
       (mkEntryState (es_entry s) (es_closed s) (es_locked s) (S (es_closes s)) (es_drained s)), k (ch_close c))
  end.

Record System := mkSystem {
  sy_table : Table;
  sy_threads : gmap nat Prog;
}.

Inductive SysStep : System → System → Prop :=
| sys_call table threads t q :
    threads !! t = None →
    SysStep (mkSystem table threads) (mkSystem table (<[t := program q]> threads))
| sys_act table threads t p c table' p' :
    threads !! t = Some p → act c table p = Some (table', p') →
    SysStep (mkSystem table threads) (mkSystem table' (<[t := p']> threads)).

(** A new table and no goroutine. *)
Definition sys_initial (s : System) : Prop :=
  ((∃ max, NewTable max = Ok (sy_table s)) ∨ (∃ limits, NewTableWithLimits limits = Ok (sy_table s))) ∧
  sy_threads s = ∅.
