(* ===== verification/ResourceTableProps.v ===== *)
(** * Theorems on the resource handle table

    What a goroutine may do next depends on what it has done: it is in a
    [Mode], and [ok] says that a program behaves in its mode. Every method of
    the table is [ok], so that the invariant only has to be kept by the actions
    a mode allows. *)

From S2P Require Import Prelude GoLib SessionCtx ResourceTable.

Open Scope go_scope.

(** ** Modes *)

(** [Free owed]: no mutex held, and the entries taken out of the table that
    are still to be closed. [Closing] and [Draining] are inside [close], before
    the resource is closed and with the mutexes still to be waited for. An
    operation is [Matched] to its entry, then [Holding] its mutex, then
    [Inside] when it has seen that the entry is open. *)
Inductive Mode :=
| Free (owed : list nat)
| Closing (ptr : nat) (owed : list nat)
| Draining (ptr : nat) (todo : list Mutex) (owed : list nat)
| Matched (ptr : nat) (m : Mutex) (owner : Owner)
| Holding (ptr : nat) (m : Mutex) (owner : Owner)
| Inside (ptr : nat) (m : Mutex) (owner : Owner).

Definition after_wait (ptr : nat) (todo : list Mutex) (owed : list nat) : Mode :=
  match todo with [] => Free owed | _ => Draining ptr todo owed end.

(** The mutexes an operation on a resource may lock. *)
Definition mutex_for (resource : Resource) (m : Mutex) : Prop :=
  rr_FullDuplexResource resource = false → m = operationMu.

(** What the lookup establishes about a caller and the mutex it will lock. *)
Definition serves (entry : Entry) (owner : Owner) (m : Mutex) : Prop :=
  Owner_matches (en_Owner entry) owner = true ∧ mutex_for (en_Resource entry) m.

(** What the capacity test and the draw establish about a new entry. *)
Definition admitted (table : Table) (entry : Entry) : Prop :=
  tb_entries table !! en_ID entry = None ∧ (0 < en_ID entry < 2 ^ 63)%Z ∧
  Owner_valid (en_Owner entry) = true ∧ validKind (en_Kind entry) = true ∧
  (ownerKindCountLocked table (en_Owner entry) (kindClassFor (en_Kind entry)) <
   limitFor table (en_Kind entry))%Z.

(** The sections under [table.mu]: look an entry up, add one, or take some
    out and owe their [close]. *)
Inductive table_change (table : Table) : Table → Mode → Prop :=
| change_none : table_change table table (Free [])
| change_match ptr m owner s :
    tb_heap table !! ptr = Some s → serves (es_entry s) owner m →
    table_change table table (Matched ptr m owner)
| change_add entry : admitted table entry → table_change table (addEntry table entry) (Free [])
| change_remove entries' owed :
    entries' ⊆ tb_entries table →
    (∀ id ptr, tb_entries table !! id = Some ptr → entries' !! id = None → ptr ∈ owed) →
    (∀ ptr, ptr ∈ owed → ∃ id, tb_entries table !! id = Some ptr ∧ entries' !! id = None) →
    table_change table (mkTable entries' (tb_limits table) (tb_heap table) (tb_next table)) (Free owed).

Inductive ok : Mode → Prog → Prop :=
| ok_ret r : ok (Free []) (Ret r)
| ok_section f :
    (∀ c table table' p, f c table = Some (table', p) → ∃ md, table_change table table' md ∧ ok md p) →
    (∀ table, (∀ id ptr, tb_entries table !! id = Some ptr → is_Some (tb_heap table !! ptr)) →
       ∃ c, is_Some (f c table)) →
    ok (Free []) (Section_ f)
| ok_close ptr owed p p' :
    ∀ f, f true = (true, p) → ok (Free owed) p → f false = (true, p') → ok (Closing ptr owed) p' →
    ok (Free (ptr :: owed)) (StateSection ptr f)
| ok_close_resource ptr owed k :
    (∀ e, ok (Draining ptr [operationMu; readMu; writeMu; controlMu] owed) (k e)) →
    ok (Closing ptr owed) (CloseResource ptr k)
| ok_wait ptr m todo owed k :
    ok (after_wait ptr todo owed) k → ok (Draining ptr (m :: todo) owed) (LockUnlock ptr m k)
| ok_lock ptr m owner k : ok (Holding ptr m owner) k → ok (Matched ptr m owner) (Lock ptr m k)
| ok_check ptr m owner f p p' :
    f true = (true, p) → ok (Holding ptr m owner) p → f false = (false, p') → ok (Inside ptr m owner) p' →
    ok (Holding ptr m owner) (StateSection ptr f)
| ok_recheck ptr m owner f :
    (∀ b, (f b).1 = b ∧ ok (Inside ptr m owner) (f b).2) → ok (Inside ptr m owner) (StateSection ptr f)
| ok_unlock_holding ptr m owner k : ok (Free []) k → ok (Holding ptr m owner) (Unlock ptr m k)
| ok_unlock_inside ptr m owner k : ok (Free []) k → ok (Inside ptr m owner) (Unlock ptr m k)
| ok_ctx ptr m owner k : (∀ e, ok (Inside ptr m owner) (k e)) → ok (Inside ptr m owner) (CtxDone k)
| ok_call ptr m owner k :
    (∀ r, ok (Inside ptr m owner) (k r)) → ok (Inside ptr m owner) (Call ptr owner k).

Create HintDb table.
#[export] Hint Constructors ok table_change : table.

(** ** The methods are well behaved *)

Lemma ok_fail e : ok (Free []) (fail e).
Proof. apply ok_ret. Qed.

Lemma ok_return ptr m owner r : ok (Inside ptr m owner) (return_ ptr m r).
Proof. apply ok_unlock_inside, ok_ret. Qed.

Lemma ok_isClosed ptr m owner k :
  (∀ b, ok (Inside ptr m owner) (k b)) → ok (Inside ptr m owner) (isClosed ptr k).
Proof. intros H. apply ok_recheck. intros b. split; [done|apply H]. Qed.

#[export] Hint Resolve ok_fail ok_return : table.

Lemma ok_entry_close ptr owed k :
  (∀ e, ok (Free owed) (k e)) → ok (Free (ptr :: owed)) (close ptr k).
Proof.
  intros H. eapply ok_close; [reflexivity|apply H|reflexivity|].
  apply ok_close_resource. intros e. do 4 (apply ok_wait; cbn [after_wait]). apply H.
Qed.

Lemma ok_closeAll ptrs : ∀ joined, ok (Free ptrs) (closeAll ptrs joined).
Proof.
  induction ptrs as [|ptr ptrs IH]; intros joined; [apply ok_ret|].
  apply ok_entry_close. intros e. apply IH.
Qed.

Lemma removal table id ptr :
  tb_entries table !! id = Some ptr → table_change table (removeEntry table id) (Free [ptr]).
Proof.
  intros Hid. apply change_remove; [apply delete_subseteq| |].
  - intros id' ptr' H [->|Hn]%lookup_delete_None; [|congruence]. set_solver.
  - intros p ->%list_elem_of_singleton. exists id. by rewrite lookup_delete_eq.
Qed.

(** Some choice that every section accepts. *)
Definition anyChoice : Choice := mkChoice [None] (Ok None) None (mkCallResult 0 0 None) None.

Lemma mutex_for_lock resource mode : mutex_for resource (lockOperation resource mode).
Proof. unfold mutex_for, lockOperation. by intros ->. Qed.

Lemma ok_acquireMode id owner mode control k :
  (∀ ptr entry m, ok (Inside ptr m owner) (k ptr entry m)) →
  ok (Free []) (acquireMode id owner mode control k).
Proof.
  intros Hk. apply ok_section.
  - intros _ table table' p. destruct (tb_entries table !! id) as [ptr|] eqn:Hid.
    2: { intros [= <- <-]. eauto with table. }
    destruct (tb_heap table !! ptr) as [s|] eqn:Hs; [|done]. cbn [mbind option_bind].
    destruct (Owner_matches _ _) eqn:Hm; cbn [negb].
    + intros [= <- <-]. eexists. split; [eapply change_match; [done|split; [done|apply mutex_for_lock]]|].
      apply ok_lock. eapply ok_check; [reflexivity|apply ok_unlock_holding, ok_fail|reflexivity|apply Hk].
    + destruct (Owner_samePrincipal _ _); intros [= <- <-]; [|eauto with table].
      eexists. split; [by apply removal|]. apply ok_entry_close. eauto with table.
  - intros table Hall. exists anyChoice. destruct (tb_entries table !! id) as [ptr|] eqn:Hid; [|done].
    destruct (Hall _ _ Hid) as [s ->]. cbn [mbind option_bind]. by repeat case_match.
Qed.

(** Bits: a handle has 63 of them. *)
Lemma handle_range raw : (0 ≤ resourceHandleFromEntropy raw < 2 ^ 63)%Z.
Proof.
  unfold resourceHandleFromEntropy. change (Z.shiftl 1 63 - 1)%Z with (Z.ones 63).
  rewrite Z.land_ones by lia. apply Z.mod_pos_bound. lia.
Qed.

Lemma freshHandle_ok entries draws id :
  freshHandle entries draws = Some (Ok id) → entries !! id = None ∧ (0 < id < 2 ^ 63)%Z.
Proof.
  induction draws as [|[raw|] draws IH]; cbn; [done| |done]. pose proof (handle_range raw) as Hr.
  destruct (Z.eqb_spec (resourceHandleFromEntropy raw) 0) as [|Hne]; [done|].
  case_bool_decide as Hin; [done|]. intros [= <-]. split; [|lia].
  by apply eq_None_not_Some.
Qed.

Lemma ok_openSection owner kind create :
  Owner_valid owner = true → validKind kind = true → ok (Free []) (openSection owner kind create).
Proof.
  intros Ho Hk. apply ok_section.
  - intros c table table' p. destruct (Z.leb_spec (limitFor table kind)
      (ownerKindCountLocked table owner (kindClassFor kind))) as [|Hlt]; [intros [= <- <-]; eauto with table|].
    destruct (freshHandle _ _) as [[id|e]|] eqn:Hf; [| |done]; cbn [mbind option_bind].
    2: { intros [= <- <-]. eauto with table. }
    apply freshHandle_ok in Hf as [Hf Hr].
    destruct (create c); intros [= <- <-]; [|eauto with table].
    eexists. split; [apply change_add|apply ok_ret]. unfold admitted. cbn. tauto.
  - intros table _. exists anyChoice. cbn. case_match; by eexists.
Qed.

Lemma ok_Revoke predicate : ok (Free []) (Revoke predicate).
Proof.
  apply ok_section; [|intros; exists anyChoice; by eexists].
  intros _ table table' p [= <- <-]. eexists. split; [apply change_remove|apply ok_closeAll].
  - apply map_filter_subseteq.
  - intros id ptr Hid Hgone. apply list_elem_of_fmap. exists (id, ptr). split; [done|].
    apply list_elem_of_filter. split; [|by apply elem_of_map_to_list].
    rewrite map_lookup_filter_None in Hgone. destruct Hgone as [|Hgone]; [congruence|].
    specialize (Hgone _ Hid). by destruct (revoked _ _ _).
  - intros ptr ([id ptr'] & -> & [Hr Hin]%list_elem_of_filter)%list_elem_of_fmap. exists id.
    apply elem_of_map_to_list in Hin. split; [done|]. apply map_lookup_filter_None. right.
    intros x Hx. cbn in *. simplify_eq. by destruct (revoked _ _ _).
Qed.

Ltac ok_body := repeat first
  [ apply ok_return | apply ok_isClosed; intros [] | apply ok_call; intros ? | apply ok_ctx; intros [?|]
  | case_match | progress unfold finishChunkWrite ].

Lemma ok_program q : ok (Free []) (program q).
Proof.
  destruct q; cbn [program];
    [unfold Open|unfold OpenCreated|unfold Close|unfold ReadChunk|unfold WriteChunk|unfold Seek|unfold use|].
  - destruct (Owner_valid owner) eqn:?, (validKind kind) eqn:?; try apply ok_fail. by apply ok_openSection.
  - destruct (Owner_valid owner) eqn:?, (validKind kind) eqn:?; try apply ok_fail. by apply ok_openSection.
  - apply ok_section.
    + intros _ table table' p. destruct (tb_entries table !! id) as [ptr|] eqn:Hid.
      2: { intros [= <- <-]. eauto with table. }
      destruct (tb_heap table !! ptr) as [s|]; [|done]. cbn [mbind option_bind].
      destruct (Owner_matches _ _); intros [= <- <-]; [|eauto with table].
      eexists. split; [by apply removal|]. apply ok_entry_close. eauto with table.
    + intros table Hall. exists anyChoice. destruct (tb_entries table !! id) as [ptr|] eqn:Hid; [|done].
      destruct (Hall _ _ Hid) as [s ->]. cbn [mbind option_bind]. by repeat case_match.
  - destruct (_ || _); [apply ok_fail|]. apply ok_acquireMode. intros. ok_body.
  - destruct (_ <? _)%Z; [apply ok_fail|]. destruct (unknownFlags _); [apply ok_fail|].
    apply ok_acquireMode. intros. ok_body.
  - apply ok_acquireMode. intros. ok_body.
  - apply ok_acquireMode. intros. ok_body.
  - apply ok_Revoke.
Qed.

(** ** What a mode means for one entry *)

Record View := mkView {
  v_owner : option (Owner * Mutex);
  v_holds : option Mutex;
  v_inside : bool;
  v_owed : bool;
  v_closing : bool;
  v_todo : list Mutex;
}.

Definition view_none : View := mkView None None false false false [].

Definition all_mutexes : list Mutex := [operationMu; readMu; writeMu; controlMu].

Definition view (p : nat) (md : Mode) : View :=
  match md with
  | Free owed => mkView None None false (bool_decide (p ∈ owed)) false []
  | Closing ptr owed =>
     mkView None None false (bool_decide (p ∈ owed)) (bool_decide (p = ptr)) (if decide (p = ptr) then all_mutexes else [])
  | Draining ptr todo owed =>
     mkView None None false (bool_decide (p ∈ owed)) false (if decide (p = ptr) then todo else [])
  | Matched ptr m owner => if decide (p = ptr) then mkView (Some (owner, m)) None false false false [] else view_none
  | Holding ptr m owner =>
     if decide (p = ptr) then mkView (Some (owner, m)) (Some m) false false false [] else view_none
  | Inside ptr m owner =>
     if decide (p = ptr) then mkView (Some (owner, m)) (Some m) true false false [] else view_none
  end.

(** The invariant of one entry: [here] when it is in the table, [V] what the
    goroutines are doing with it. *)
Record entry_inv (s : EntryState) (here : Prop) (V : gmap nat View) : Prop := {
  ei_locked : ∀ m, m ∈ es_locked s ↔ ∃ t v, V !! t = Some v ∧ v_holds v = Some m;
  ei_unique : ∀ t t' v v' m, V !! t = Some v → V !! t' = Some v' →
    v_holds v = Some m → v_holds v' = Some m → t = t';
  ei_owner : ∀ t v o m, V !! t = Some v → v_owner v = Some (o, m) → serves (es_entry s) o m;
  ei_quiet : ∀ t v m, V !! t = Some v → v_inside v = true → v_holds v = Some m → m ∉ es_drained s;
  ei_drained : ∀ m, m ∈ es_drained s → es_closed s = true;
  ei_closes : es_closes s + count v_closing V = b2n (es_closed s);
  ei_gone : here ∨ es_closed s = true ∨ ∃ t v, V !! t = Some v ∧ v_owed v = true;
  ei_here : here → es_closed s = false ∧ ∀ t v, V !! t = Some v → v_owed v = false;
  ei_busy : ∀ t v, V !! t = Some v → v_todo v ≠ [] → es_closed s = true;
  ei_todo : es_closed s = true → ∀ m, m ∈ es_drained s ∨ ∃ t v, V !! t = Some v ∧ m ∈ v_todo v;
}.

Definition in_table (table : Table) (ptr : nat) : Prop := ∃ id, tb_entries table !! id = Some ptr.

Record sys_inv (s : System) (modes : gmap nat Mode) : Prop := {
  si_threads : ∀ t p, sy_threads s !! t = Some p → ∃ md, modes !! t = Some md ∧ ok md p;
  si_modes : ∀ t, sy_threads s !! t = None → modes !! t = None;
  si_heap : ∀ ptr, tb_next (sy_table s) ≤ ptr → tb_heap (sy_table s) !! ptr = None;
  si_entries : ∀ id ptr, tb_entries (sy_table s) !! id = Some ptr →
    ∃ st, tb_heap (sy_table s) !! ptr = Some st ∧ en_ID (es_entry st) = id;
  si_known : ∀ t md ptr, modes !! t = Some md → tb_heap (sy_table s) !! ptr = None → view ptr md = view_none;
  si_entry : ∀ ptr st, tb_heap (sy_table s) !! ptr = Some st →
    entry_inv st (in_table (sy_table s) ptr) (view ptr <$> modes);
}.

Lemma entry_inv_ext s here here' V : (here ↔ here') → entry_inv s here V → entry_inv s here' V.
Proof. intros Hh []. split; try done; tauto. Qed.

Lemma view_after_wait p ptr todo owed :
  view p (after_wait ptr todo owed) = view p (Draining ptr todo owed).
Proof. destruct todo; [|done]. cbn. by case_decide. Qed.

(** The views of an entry when one goroutine moves on. *)
Lemma views_insert (modes : gmap nat Mode) t md' p :
  view p <$> <[t := md']> modes = <[t := view p md']> (view p <$> modes).
Proof. apply fmap_insert. Qed.

Lemma views_same (modes : gmap nat Mode) t md md' p :
  modes !! t = Some md → view p md' = view p md → view p <$> <[t := md']> modes = view p <$> modes.
Proof. intros Ht Hv. rewrite views_insert, Hv. apply insert_id. by rewrite lookup_fmap, Ht. Qed.

(** An action on one entry: the others see no difference. *)
Lemma step_entry table threads modes t p md ptr st st' md' p' :
  sys_inv (mkSystem table threads) modes →
  threads !! t = Some p → modes !! t = Some md → tb_heap table !! ptr = Some st →
  es_entry st' = es_entry st → ok md' p' → (∀ q, q ≠ ptr → view q md' = view q md) →
  (entry_inv st (in_table table ptr) (view ptr <$> modes) →
   entry_inv st' (in_table table ptr) (<[t := view ptr md']> (view ptr <$> modes))) →
  sys_inv (mkSystem (set_entry table ptr st') (<[t := p']> threads)) (<[t := md']> modes).
Proof.
  intros [Hth Hmo Hhe Hen Hkn Hei] Ht Hm Hptr Hst Hok Hview Hinv. cbn in *. split; cbn.
  - intros t' q [[<- <-]|[Hne Hq]]%lookup_insert_Some; [exists md'; by rewrite lookup_insert_eq|].
    rewrite lookup_insert_ne by done. eauto.
  - intros t' [Ht' Hne]%lookup_insert_None. rewrite lookup_insert_ne by done. auto.
  - intros q Hq. destruct (decide (ptr = q)) as [<-|]; [rewrite Hhe in Hptr by done; done|].
    rewrite lookup_insert_ne by done. auto.
  - intros id q Hid. destruct (Hen id q Hid) as (s & Hs & Hs'). destruct (decide (ptr = q)) as [<-|].
    + exists st'. rewrite lookup_insert_eq. split; [done|]. rewrite Hst. congruence.
    + exists s. by rewrite lookup_insert_ne.
  - intros t' md0 q Hmd [Hq Hne]%lookup_insert_None. apply lookup_insert_Some in Hmd as [[<- <-]|[Hne' Hmd]].
    + rewrite Hview by congruence. eauto.
    + eauto.
  - intros q s [[<- <-]|[Hne Hq]]%lookup_insert_Some.
    + rewrite views_insert. apply Hinv. auto.
    + rewrite (views_same _ _ md) by (try done; by apply Hview). by apply Hei.
Qed.

(** The view of the moving goroutine replaced in the invariant of its entry. *)
Section moves.
Context (s : EntryState) (here : Prop) (V : gmap nat View) (t : nat) (v : View).
Hypothesis Hv : V !! t = Some v.
Hypothesis Hinv : entry_inv s here V.

Lemma entry_move v' locked' closed' closes' drained' :
  (∀ m, m ∈ locked' ↔ v_holds v' = Some m ∨ m ∈ es_locked s ∧ v_holds v ≠ Some m) →
  (∀ m, v_holds v' = Some m → v_holds v = Some m ∨ m ∉ es_locked s) →
  (∀ o m, v_owner v' = Some (o, m) → serves (es_entry s) o m) →
  (∀ m, v_inside v' = true → v_holds v' = Some m → m ∉ drained') →
  (∀ m, m ∈ drained' → m ∈ es_drained s ∨ m ∉ es_locked s) →
  es_drained s ⊆ drained' →
  (∀ m, m ∈ drained' → closed' = true) →
  (es_closed s = true → closed' = true) →
  closes' + b2n (v_closing v') + b2n (es_closed s) = es_closes s + b2n (v_closing v) + b2n closed' →
  (v_owed v = true → v_owed v' = true ∨ closed' = true) →
  (here → closed' = false ∧ v_owed v' = false) →
  (v_todo v' ≠ [] → closed' = true) →
  (closed' = true → ∀ m, (es_closed s = false ∨ m ∈ v_todo v) → m ∈ drained' ∨ m ∈ v_todo v') →
  entry_inv (mkEntryState (es_entry s) closed' locked' closes' drained') here (<[t := v']> V).
Proof.
  intros Hl Hl' Ho Hq Hd Hsub Hdc Hc Hcl Howe Hhere Hbusy Htodo. destruct Hinv. split; cbn.
  - intros m. rewrite Hl, ei_locked0. split.
    + intros [Hm|((t1 & v1 & H1 & Hm) & Hn)]; [exists t, v'; by rewrite lookup_insert_eq|].
      exists t1, v1. rewrite lookup_insert_ne; [done|]. intros <-. congruence.
    + intros (t1 & v1 & [[<- <-]|[Hne H1]]%lookup_insert_Some & Hm); [by left|].
      destruct (decide (v_holds v = Some m)) as [Hvm|Hvm].
      * destruct Hne. by eapply ei_unique0.
      * right. split; [eauto|done].
  - intros t1 t2 v1 v2 m [[<- <-]|[Hne1 H1]]%lookup_insert_Some [[<- <-]|[Hne2 H2]]%lookup_insert_Some Hm1 Hm2;
      [done| | |by eapply ei_unique0].
    + destruct (Hl' m Hm1) as [Hm|Hm]; [by eapply ei_unique0|]. destruct Hm. apply ei_locked0. eauto.
    + destruct (Hl' m Hm2) as [Hm|Hm]; [by eapply ei_unique0|]. destruct Hm. apply ei_locked0. eauto.
  - intros t1 v1 o m [[<- <-]|[Hne H1]]%lookup_insert_Some; eauto.
  - intros t1 v1 m [[<- <-]|[Hne H1]]%lookup_insert_Some Hi Hm; [by apply Hq|].
    intros [H|H]%Hd; [by eapply ei_quiet0|]. destruct H. apply ei_locked0. eauto.
  - done.
  - pose proof (count_insert v_closing V t v' v Hv) as Hcount. lia.
  - destruct ei_gone0 as [?|[?|(t1 & v1 & H1 & Hw)]]; [by left|right; left; auto|].
    destruct (decide (t = t1)) as [<-|Hne].
    + simplify_eq. destruct (Howe Hw); [|by right; left]. right. right. exists t, v'. by rewrite lookup_insert_eq.
    + right. right. exists t1, v1. by rewrite lookup_insert_ne.
  - intros Hh. destruct (Hhere Hh) as [-> Hw]. split; [done|]. destruct (ei_here0 Hh) as [_ Hall].
    intros t1 v1 [[<- <-]|[Hne H1]]%lookup_insert_Some; eauto.
  - intros t1 v1 [[<- <-]|[Hne H1]]%lookup_insert_Some; eauto.
  - intros Hcl' m. destruct (es_closed s) eqn:Hcs.
    + destruct (ei_todo0 eq_refl m) as [?|(t1 & v1 & H1 & Hm)]; [left; auto|].
      destruct (decide (t = t1)) as [<-|Hne].
      * assert (v1 = v) as -> by congruence. destruct (Htodo Hcl' m (or_intror Hm)); [by left|]. right. exists t, v'.
        by rewrite lookup_insert_eq.
      * right. exists t1, v1. by rewrite lookup_insert_ne.
    + destruct (Htodo Hcl' m (or_introl eq_refl)); [by left|]. right. exists t, v'. by rewrite lookup_insert_eq.
Qed.

End moves.

Ltac view_simpl :=
  cbn [view view_none v_owner v_holds v_inside v_owed v_closing v_todo] in *;
  rewrite ?(decide_True (P := _ = _)), ?(bool_decide_eq_true_2 (_ = _)) in * by done;
  cbn [view view_none v_owner v_holds v_inside v_owed v_closing v_todo] in *.

Lemma unheld (locked : gset Mutex) m : m ∈ locked ↔ None = Some m ∨ m ∈ locked ∧ None ≠ Some m.
Proof. split; [intros; by right|]. by intros [|[]]. Qed.

Lemma held_more (locked : gset Mutex) m m' :
  m' ∈ {[m]} ∪ locked ↔ Some m = Some m' ∨ m' ∈ locked ∧ None ≠ Some m'.
Proof. set_solver. Qed.

Lemma held_less (locked : gset Mutex) m m' :
  m' ∈ locked ∖ {[m]} ↔ None = Some m' ∨ m' ∈ locked ∧ Some m ≠ Some m'.
Proof. set_solver. Qed.

Lemma in_all_mutexes m : m ∈ all_mutexes.
Proof. destruct m; unfold all_mutexes; set_solver. Qed.

(** The moves of a goroutine on an entry, one for each kind of action. *)
Section actions.
Context (st : EntryState) (here : Prop) (V : gmap nat View) (t ptr : nat).
Hypothesis Hinv : entry_inv st here V.

Notation moved md closed locked closes drained :=
  (entry_inv (mkEntryState (es_entry st) closed locked closes drained) here (<[t := view ptr md]> V)).

Lemma move_lock m owner :
  V !! t = Some (view ptr (Matched ptr m owner)) → m ∉ es_locked st →
  moved (Holding ptr m owner) (es_closed st) ({[m]} ∪ es_locked st) (es_closes st) (es_drained st).
Proof.
  intros Ht Hm. pose proof Hinv as Hi. destruct Hi. apply (entry_move st here V t _ Ht Hinv); view_simpl; try done.
  - intros m'. apply held_more.
  - intros m' [= <-]. by right.
  - intros o m' [= <- <-]. eapply ei_owner0; [exact Ht|done].
  - by left.
  - intros Hh. by destruct (ei_here0 Hh).
  - intros Hc m' [?|Hx]; [congruence|by apply elem_of_nil in Hx].
Qed.

Lemma move_check m owner :
  V !! t = Some (view ptr (Holding ptr m owner)) → es_closed st = false →
  moved (Inside ptr m owner) (es_closed st) (es_locked st) (es_closes st) (es_drained st).
Proof.
  intros Ht Hc. pose proof Hinv as Hi. destruct Hi. apply (entry_move st here V t _ Ht Hinv); view_simpl; try done.
  - intros m'. rewrite ei_locked0. split; [|intros [[= <-]|[? _]]; [|done]; eexists _, _; by view_simpl].
    intros Hx. destruct (decide (m = m')) as [<-|Hne]; [by left|right]. split; [done|congruence].
  - auto.
  - intros o m' [= <- <-]. eapply ei_owner0; [exact Ht|done].
  - intros m' _ [= <-] Hd. apply ei_drained0 in Hd. congruence.
  - by left.
  - congruence.
Qed.

Lemma move_unlock md m owner :
  md = Holding ptr m owner ∨ md = Inside ptr m owner → V !! t = Some (view ptr md) →
  moved (Free []) (es_closed st) (es_locked st ∖ {[m]}) (es_closes st) (es_drained st).
Proof.
  intros Hmd Ht. pose proof Hinv as Hi. destruct Hi.
  assert (view ptr md = mkView (Some (owner, m)) (Some m) (v_inside (view ptr md)) false false []) as Hview
    by (destruct Hmd; subst md; by view_simpl).
  rewrite Hview in Ht. apply (entry_move st here V t _ Ht Hinv); view_simpl; try done.
  - intros m'. apply held_less.
  - by left.
  - intros Hh. by destruct (ei_here0 Hh).
  - intros Hc m' [?|Hx]; [congruence|by apply elem_of_nil in Hx].
Qed.

Lemma move_flag owed :
  V !! t = Some (view ptr (Free (ptr :: owed))) →
  moved (if es_closed st then Free owed else Closing ptr owed) true (es_locked st) (es_closes st) (es_drained st).
Proof.
  intros Ht. pose proof Hinv as Hi. destruct Hi.
  assert (here → False) as Hnot.
  { intros Hh. destruct (ei_here0 Hh) as [_ Hx]. specialize (Hx _ _ Ht). cbn in Hx.
    rewrite bool_decide_eq_false in Hx. apply Hx. left. }
  apply (entry_move st here V t _ Ht Hinv); destruct (es_closed st) eqn:Hc; view_simpl;
    try done; try (by left); try (by right); try apply unheld.
  - cbn. lia.
  - intros _ m [?|Hx]; [done|by apply elem_of_nil in Hx].
  - intros _ m _. right. apply in_all_mutexes.
Qed.

Lemma move_close owed :
  V !! t = Some (view ptr (Closing ptr owed)) →
  moved (Draining ptr all_mutexes owed) (es_closed st) (es_locked st) (S (es_closes st)) (es_drained st).
Proof.
  intros Ht. pose proof Hinv as Hi. destruct Hi.
  assert (es_closed st = true) as Hc by (eapply ei_busy0; [exact Ht|by view_simpl]).
  apply (entry_move st here V t _ Ht Hinv); view_simpl; try done; try (by left); try apply unheld.
  - cbn. lia.
  - intros Hh. destruct (ei_here0 Hh). congruence.
  - intros _ m _. right. apply in_all_mutexes.
Qed.

Lemma move_wait m todo owed :
  V !! t = Some (view ptr (Draining ptr (m :: todo) owed)) → m ∉ es_locked st →
  moved (after_wait ptr todo owed) (es_closed st) (es_locked st) (es_closes st) ({[m]} ∪ es_drained st).
Proof.
  intros Ht Hm. pose proof Hinv as Hi. destruct Hi. rewrite view_after_wait.
  assert (es_closed st = true) as Hc by (eapply ei_busy0; [exact Ht|by view_simpl]).
  apply (entry_move st here V t _ Ht Hinv); view_simpl; try done; try apply unheld.
  - intros m' [->%elem_of_singleton|?]%elem_of_union; [by right|by left].
  - set_solver.
  - by left.
  - intros Hh. destruct (ei_here0 Hh). congruence.
  - intros _ m' [?|[->|Hx]%elem_of_cons]; [congruence|left; set_solver|by right].
Qed.

End actions.

(** ** Sections under [table.mu] *)

Lemma sys_inv_thread table threads modes t p md p' :
  sys_inv (mkSystem table threads) modes → threads !! t = Some p → modes !! t = Some md → ok md p' →
  sys_inv (mkSystem table (<[t := p']> threads)) modes.
Proof.
  intros [Hth Hmo Hhe Hen Hkn Hei] Ht Hm Hok. split; cbn in *; try done.
  - intros t' q [[<- <-]|[Hne Hq]]%lookup_insert_Some; eauto.
  - intros t' [Ht' Hne]%lookup_insert_None. auto.
Qed.

(** A goroutine finds its entry. *)
Lemma sys_inv_match table threads modes t p ptr m owner st p' :
  sys_inv (mkSystem table threads) modes → threads !! t = Some p → modes !! t = Some (Free []) →
  tb_heap table !! ptr = Some st → serves (es_entry st) owner m →
  ok (Matched ptr m owner) p' →
  sys_inv (mkSystem table (<[t := p']> threads)) (<[t := Matched ptr m owner]> modes).
Proof.
  intros Hi Ht Hm Hst How Hok.
  replace table with (set_entry table ptr st) at 1 by (destruct table; unfold set_entry; cbn in *; by rewrite insert_id).
  eapply step_entry; try done.
  - intros q Hq. cbn. by rewrite decide_False.
  - intros Hei. pose proof Hei as [].
    replace st with (mkEntryState (es_entry st) (es_closed st) (es_locked st) (es_closes st) (es_drained st))
      by by destruct st.
    assert ((view ptr <$> modes) !! t = Some (view ptr (Free []))) as Hv by by rewrite lookup_fmap, Hm.
    apply (entry_move st _ _ t _ Hv Hei); view_simpl; try done; try apply unheld.
    + by intros o m' [= <- <-].
    + by left.
    + intros Hh. by destruct (ei_here0 Hh).
    + intros Hc m' [?|Hx]; [congruence|by apply elem_of_nil in Hx].
Qed.

Lemma in_table_add table entry ptr :
  ptr ≠ tb_next table → tb_entries table !! en_ID entry = None →
  in_table (addEntry table entry) ptr ↔ in_table table ptr.
Proof.
  intros Hp Hn. unfold in_table, addEntry. cbn. split; intros [id Hid]; exists id.
  - apply lookup_insert_Some in Hid as [[_ ?]|[_ ?]]; congruence.
  - rewrite lookup_insert_ne; congruence.
Qed.

Lemma fresh_entry_inv entry (V : gmap nat View) :
  (∀ t v, V !! t = Some v → v = view_none) → entry_inv (mkEntryState entry false ∅ 0 ∅) True V.
Proof.
  intros HV. assert (count v_closing V = 0) as Hc by (apply count_zero; intros t v Hv; by rewrite (HV _ _ Hv)).
  split; cbn; try done.
  - intros m. split; [set_solver|]. intros (t & v & Hv & Hh). by rewrite (HV _ _ Hv) in Hh.
  - intros t t' v v' m Hv _ Hh. by rewrite (HV _ _ Hv) in Hh.
  - intros t v o m Hv Hh. by rewrite (HV _ _ Hv) in Hh.
  - by left.
  - intros _. split; [done|]. intros t v Hv. by rewrite (HV _ _ Hv).
  - intros t v Hv Hh. by rewrite (HV _ _ Hv) in Hh.
Qed.

Lemma sys_inv_add table threads modes t p entry p' :
  sys_inv (mkSystem table threads) modes → threads !! t = Some p → modes !! t = Some (Free []) →
  admitted table entry → ok (Free []) p' →
  sys_inv (mkSystem (addEntry table entry) (<[t := p']> threads)) modes.
Proof.
  intros Hi Ht Hm (Hnew & _) Hok. eapply sys_inv_thread in Hi; [|done..].
  destruct Hi as [Hth Hmo Hhe Hen Hkn Hei]. cbn in *.
  assert (tb_heap table !! tb_next table = None) as Hfree by (by apply Hhe).
  split; cbn; try done.
  - intros ptr Hptr. rewrite lookup_insert_ne by lia. apply Hhe. lia.
  - intros id ptr [[<- <-]|[Hne Hid]]%lookup_insert_Some.
    + eexists. by rewrite lookup_insert_eq.
    + destruct (Hen _ _ Hid) as (st & Hst & ?). exists st. rewrite lookup_insert_ne; [done|congruence].
  - intros t' md ptr Hmd [Hp _]%lookup_insert_None. eauto.
  - intros ptr st [[<- <-]|[Hne Hst]]%lookup_insert_Some.
    + eapply entry_inv_ext; [|apply fresh_entry_inv].
      * split; [|done]. intros _. exists (en_ID entry). apply lookup_insert_eq.
      * intros t' v. rewrite lookup_fmap. intros (md & Hmd & ->)%fmap_Some. eauto.
    + eapply entry_inv_ext; [|by apply Hei]. symmetry. by apply in_table_add.
Qed.

(** An entry leaves the table; the goroutine that took it out owes its
    [close]. *)
Lemma take_entry st here (V : gmap nat View) t v' :
  entry_inv st here V → V !! t = Some view_none → v' = mkView None None false true false [] → here →
  entry_inv st False (<[t := v']> V).
Proof.
  intros Hei Ht -> Hh. pose proof Hei as []. destruct (ei_here0 Hh) as [Hc Howed].
  split; cbn; try done.
  - intros m. rewrite ei_locked0. split; intros (t1 & v1 & H1 & Hm).
    + exists t1, v1. rewrite lookup_insert_ne; [done|]. intros <-. rewrite Ht in H1. by simplify_eq.
    + apply lookup_insert_Some in H1 as [[<- <-]|[Hne H1]]; [done|eauto].
  - intros t1 t2 v1 v2 m [[<- <-]|[Hne1 H1]]%lookup_insert_Some [[<- <-]|[Hne2 H2]]%lookup_insert_Some; try done.
    by apply (ei_unique0 t1 t2 v1 v2).
  - intros t1 v1 o m [[<- <-]|[Hne H1]]%lookup_insert_Some; [done|eauto].
  - intros t1 v1 m [[<- <-]|[Hne H1]]%lookup_insert_Some; [done|eauto].
  - pose proof (count_insert v_closing V t (mkView None None false true false []) _ Ht) as Hcount. cbn in Hcount. lia.
  - right. right. eexists t, _. by rewrite lookup_insert_eq.
  - intros t1 v1 [[<- <-]|[Hne H1]]%lookup_insert_Some; [done|eauto].
  - congruence.
Qed.

Lemma in_table_removed table threads modes entries' id ptr :
  sys_inv (mkSystem table threads) modes → entries' ⊆ tb_entries table →
  tb_entries table !! id = Some ptr → entries' !! id = None → ¬ ∃ id', entries' !! id' = Some ptr.
Proof.
  intros [_ _ _ Hen _ _] Hsub Hid Hnone [id' Hid']. cbn in Hen.
  assert (tb_entries table !! id' = Some ptr) as Hold by (by eapply lookup_weaken).
  destruct (Hen _ _ Hid) as (st & Hst & Heq), (Hen _ _ Hold) as (st' & Hst' & Heq'). congruence.
Qed.

Lemma sys_inv_remove table threads modes t p entries' owed p' :
  sys_inv (mkSystem table threads) modes → threads !! t = Some p → modes !! t = Some (Free []) →
  entries' ⊆ tb_entries table →
  (∀ id ptr, tb_entries table !! id = Some ptr → entries' !! id = None → ptr ∈ owed) →
  (∀ ptr, ptr ∈ owed → ∃ id, tb_entries table !! id = Some ptr ∧ entries' !! id = None) →
  ok (Free owed) p' →
  sys_inv (mkSystem (mkTable entries' (tb_limits table) (tb_heap table) (tb_next table)) (<[t := p']> threads))
    (<[t := Free owed]> modes).
Proof.
  intros Hinv Ht Hm Hsub Hgone Howed Hok. pose proof Hinv as [Hth Hmo Hhe Hen Hkn Hei]. cbn in *.
  split; cbn; try done.
  - intros t' q [[<- <-]|[Hne Hq]]%lookup_insert_Some; [exists (Free owed); by rewrite lookup_insert_eq|].
    rewrite lookup_insert_ne by done. eauto.
  - intros t' [Ht' Hne]%lookup_insert_None. rewrite lookup_insert_ne by done. auto.
  - intros id ptr Hid. apply Hen. by eapply lookup_weaken.
  - intros t' md ptr [[<- <-]|[Hne Hmd]]%lookup_insert_Some Hptr; [|eauto]. cbn.
    rewrite bool_decide_eq_false_2; [done|]. intros (id & Hid & _)%Howed.
    destruct (Hen _ _ Hid) as (? & ? & _). congruence.
  - intros ptr st Hst. specialize (Hei _ _ Hst). destruct (decide (ptr ∈ owed)) as [Hin|Hnot].
    + destruct (Howed _ Hin) as (id & Hid & Hnone).
      pose proof (in_table_removed _ _ _ _ _ _ Hinv Hsub Hid Hnone) as Hno.
      apply (entry_inv_ext _ False); [split; [intros []|exact Hno]|]. rewrite views_insert.
      eapply take_entry; [exact Hei| | |by exists id].
      * by rewrite lookup_fmap, Hm.
      * cbn. by rewrite bool_decide_eq_true_2.
    + rewrite (views_same _ _ (Free [])) by (done || (cbn; by rewrite !bool_decide_eq_false_2 by set_solver)).
      eapply entry_inv_ext; [|exact Hei]. unfold in_table. cbn. split; intros [id Hid]; exists id.
      * destruct (entries' !! id) eqn:He; [|by destruct Hnot; eapply Hgone].
        eapply lookup_weaken in He; [|done]. congruence.
      * by eapply lookup_weaken.
Qed.

(** ** Every step keeps the invariant *)

Lemma view_lookup (modes : gmap nat Mode) t md ptr :
  modes !! t = Some md → (view ptr <$> modes) !! t = Some (view ptr md).
Proof. intros H. by rewrite lookup_fmap, H. Qed.

Lemma view_tail q ptr owed : q ≠ ptr → view q (Free owed) = view q (Free (ptr :: owed)).
Proof. intros H. cbn. f_equal. apply bool_decide_ext. set_solver. Qed.

Lemma view_closing q ptr owed : q ≠ ptr → view q (Closing ptr owed) = view q (Free (ptr :: owed)).
Proof.
  intros H. cbn. rewrite decide_False, (bool_decide_eq_false_2 (q = ptr)) by done. f_equal.
  apply bool_decide_ext. set_solver.
Qed.

Ltac other_entry := intros q Hq; rewrite ?view_after_wait; cbn [view];
  rewrite ?(decide_False (P := q = _)), ?(bool_decide_eq_false_2 (q = _)) by done; done.

Lemma state_step table threads modes t md ptr f st :
  sys_inv (mkSystem table threads) modes → threads !! t = Some (StateSection ptr f) →
  modes !! t = Some md → ok md (StateSection ptr f) → tb_heap table !! ptr = Some st →
  ∃ md', sys_inv (mkSystem (set_entry table ptr (mkEntryState (es_entry st) (f (es_closed st)).1
    (es_locked st) (es_closes st) (es_drained st))) (<[t := (f (es_closed st)).2]> threads)) (<[t := md']> modes).
Proof.
  intros Hinv Ht Hm Hok Hst. inversion Hok as
    [| |ptr' owed p p' f' Ht' Hp Hf' Hp'| | | |ptr' m owner f' p p' Ht' Hp Hf' Hp'|ptr' m owner f' Hf'| | | |]; subst.
  - exists (if es_closed st then Free owed else Closing ptr owed).
    eapply step_entry; try done.
    + by destruct (es_closed st); [rewrite Ht'|rewrite Hf'].
    + intros q Hq. destruct (es_closed st); [by apply view_tail|by apply view_closing].
    + intros Hei. pose proof (move_flag _ _ _ t ptr Hei owed (view_lookup _ _ _ _ Hm)) as H.
      destruct (es_closed st) eqn:Hc; [rewrite Ht'|rewrite Hf']; exact H.
  - destruct (es_closed st) eqn:Hc.
    + exists (Holding ptr m owner). rewrite Ht'. cbn [fst snd].
      eapply step_entry; try done. intros Hei. rewrite insert_id by (by apply view_lookup). rewrite <- Hc. by destruct st.
    + exists (Inside ptr m owner). rewrite Hf'. cbn [fst snd]. eapply step_entry; try done; [other_entry|].
      intros Hei. rewrite <- Hc at 1. apply move_check; [done|by apply view_lookup|done].
  - exists (Inside ptr m owner). destruct (Hf' (es_closed st)) as [Hfst Hsnd]. rewrite Hfst.
    eapply step_entry; try done. intros Hei. rewrite insert_id by (by apply view_lookup). by destruct st.
Qed.

Lemma section_step table threads modes t f md c table' p' :
  sys_inv (mkSystem table threads) modes → threads !! t = Some (Section_ f) →
  modes !! t = Some md → ok md (Section_ f) → f c table = Some (table', p') →
  ∃ modes', sys_inv (mkSystem table' (<[t := p']> threads)) modes'.
Proof.
  intros Hinv Ht Hm Hok Hf. inversion Hok as [|f' Hf' _| | | | | | | | | |]; subst.
  destruct (Hf' _ _ _ _ Hf) as (md' & Hch & Hok'). destruct Hch.
  - exists modes. by eapply sys_inv_thread.
  - exists (<[t := Matched ptr m owner]> modes). by eapply sys_inv_match.
  - exists modes. by eapply sys_inv_add.
  - exists (<[t := Free owed]> modes). by eapply sys_inv_remove.
Qed.

Lemma act_inv table threads modes t p c table' p' :
  sys_inv (mkSystem table threads) modes → threads !! t = Some p → act c table p = Some (table', p') →
  ∃ modes', sys_inv (mkSystem table' (<[t := p']> threads)) modes'.
Proof.
  intros Hinv Ht Hact. destruct (si_threads _ _ Hinv t p Ht) as (md & Hm & Hok).
  destruct p as [r|f|ptr f|ptr m k|ptr m k|ptr m k|k|ptr owner k|ptr k]; cbn [act] in Hact.
  - done.
  - by eapply section_step.
  - destruct (tb_heap table !! ptr) as [st|] eqn:Hst; [|done]. cbn [mbind option_bind] in Hact.
    destruct (state_step _ _ _ _ _ _ _ _ Hinv Ht Hm Hok Hst) as [md' Hnew].
    destruct (f (es_closed st)) as [closed q]. simplify_eq. by exists (<[t := md']> modes).
  - destruct (tb_heap table !! ptr) as [st|] eqn:Hst; [|done]. cbn [mbind option_bind] in Hact.
    case_bool_decide as Hl; [done|]. simplify_eq. inversion Hok; subst.
    eexists (<[t := Holding ptr m owner]> modes). eapply step_entry; try done; [other_entry|].
    intros Hei. apply move_lock; [done|by apply view_lookup|done].
  - destruct (tb_heap table !! ptr) as [st|] eqn:Hst; [|done]. cbn [mbind option_bind] in Hact. simplify_eq.
    exists (<[t := Free []]> modes).
    inversion Hok; subst; (eapply step_entry; try done; [other_entry|]; intros Hei; eapply move_unlock; [done| |by apply view_lookup]); eauto.
  - destruct (tb_heap table !! ptr) as [st|] eqn:Hst; [|done]. cbn [mbind option_bind] in Hact.
    case_bool_decide as Hl; [done|]. simplify_eq. inversion Hok; subst.
    eexists (<[t := after_wait ptr todo owed]> modes). eapply step_entry; try done; [other_entry|].
    intros Hei. apply move_wait; [done|by apply view_lookup|done].
  - simplify_eq. exists modes. inversion Hok; subst. by eapply sys_inv_thread.
  - simplify_eq. exists modes. inversion Hok; subst. by eapply sys_inv_thread.
  - destruct (tb_heap table !! ptr) as [st|] eqn:Hst; [|done]. cbn [mbind option_bind] in Hact. simplify_eq.
    inversion Hok as [| | |ptr' owed k' Hk| | | | | | | |]; subst.
    eexists (<[t := Draining ptr all_mutexes owed]> modes). eapply step_entry; try done; [other_entry|].
    intros Hei. apply move_close; [done|by apply view_lookup].
Qed.

(** A goroutine that has nothing to do with an entry. *)
Lemma idle_view st here (V : gmap nat View) t :
  V !! t = None → entry_inv st here V → entry_inv st here (<[t := view_none]> V).
Proof.
  intros Ht []. assert (∀ t1 v1, (<[t := view_none]> V) !! t1 = Some v1 → v1 = view_none ∨ V !! t1 = Some v1) as Hin.
  { intros t1 v1 [[<- <-]|[_ ?]]%lookup_insert_Some; auto. }
  assert (∀ t1 v1, V !! t1 = Some v1 → (<[t := view_none]> V) !! t1 = Some v1) as Hout.
  { intros t1 v1 H1. rewrite lookup_insert_ne; congruence. }
  split.
  - intros m. rewrite ei_locked0. split; intros (t1 & v1 & H1 & Hm); [eauto|].
    apply Hin in H1 as [->|]; [done|eauto].
  - intros t1 t2 v1 v2 m [->|H1]%Hin [->|H2]%Hin; try done. by apply (ei_unique0 t1 t2 v1 v2).
  - intros t1 v1 o m [->|H1]%Hin; [done|eauto].
  - intros t1 v1 m [->|H1]%Hin; [done|eauto].
  - done.
  - rewrite count_insert_fresh by done. cbn. lia.
  - destruct ei_gone0 as [?|[?|(t1 & v1 & H1 & Hw)]]; [by left|by right; left|right; right; eauto].
  - intros Hh. destruct (ei_here0 Hh) as [Hc Hw]. split; [done|]. intros t1 v1 [->|H1]%Hin; [done|eauto].
  - intros t1 v1 [->|H1]%Hin; [done|eauto].
  - intros Hc m. destruct (ei_todo0 Hc m) as [?|(t1 & v1 & H1 & Hm)]; [by left|right; eauto].
Qed.

Lemma call_inv table threads modes t q :
  sys_inv (mkSystem table threads) modes → threads !! t = None →
  sys_inv (mkSystem table (<[t := program q]> threads)) (<[t := Free []]> modes).
Proof.
  intros [Hth Hmo Hhe Hen Hkn Hei] Ht. cbn in *.
  assert (∀ p, view p (Free []) = view_none) as Hnone by (intros p; cbn; by rewrite bool_decide_eq_false_2 by set_solver).
  split; cbn; try done.
  - intros t' p [[<- <-]|[Hne Hp]]%lookup_insert_Some.
    + exists (Free []). rewrite lookup_insert_eq. split; [done|apply ok_program].
    + rewrite lookup_insert_ne by done. eauto.
  - intros t' [Ht' Hne]%lookup_insert_None. rewrite lookup_insert_ne by done. auto.
  - intros t' md ptr [[<- <-]|[Hne Hmd]]%lookup_insert_Some Hptr; [done|eauto].
  - intros ptr st Hst. rewrite views_insert, Hnone. apply idle_view; [by rewrite lookup_fmap, Hmo|eauto].
Qed.
