(* ===== verification/ResourceTableTheorems.v ===== *)
(** * What the resource handle table promises

    Isolation of the operations, the life of a resource, the limits, freedom
    from deadlock and the results of chunked reads and writes. *)

From S2P Require Import Prelude GoLib SessionCtx ResourceTable ResourceTableProps.

Open Scope go_scope.

Lemma sys_reachable_inv s : reachable sys_initial SysStep s → ∃ modes, sys_inv s modes.
Proof.
  apply (reachable_invariant _ _ (λ s, ∃ modes, sys_inv s modes)).
  - intros [table threads] [Hnew Hth]. cbn in *. subst threads. exists ∅.
    assert (tb_entries table = ∅ ∧ tb_heap table = ∅) as [He Hh].
    { destruct Hnew as [[max H]|[limits H]]; unfold NewTable, NewTableWithLimits in H; case_match; by simplify_eq. }
    split; cbn; try done; rewrite ?He, ?Hh; done.
  - intros s' s'' [modes Hinv] Hstep. destruct Hstep.
    + exists (<[t := Free []]> modes). by apply call_inv.
    + by eapply act_inv.
Qed.

(** ** Isolation *)

Lemma inside_view ptr owner k md :
  ok md (Call ptr owner k) → ∃ m, view ptr md = mkView (Some (owner, m)) (Some m) true false false [].
Proof. intros Hok. inversion Hok; subst. exists m. cbn. by rewrite decide_True. Qed.

(** A goroutine that runs a method of a resource, as the invariant sees it. *)
Lemma inside_entry s modes t ptr owner k :
  sys_inv s modes → sy_threads s !! t = Some (Call ptr owner k) →
  ∃ st m, tb_heap (sy_table s) !! ptr = Some st ∧ serves (es_entry st) owner m ∧
    (view ptr <$> modes) !! t = Some (mkView (Some (owner, m)) (Some m) true false false []) ∧
    entry_inv st (in_table (sy_table s) ptr) (view ptr <$> modes).
Proof.
  intros Hinv Ht. destruct (si_threads _ _ Hinv _ _ Ht) as (md & Hm & Hok).
  destruct (inside_view _ _ _ _ Hok) as [m Hview].
  destruct (tb_heap (sy_table s) !! ptr) as [st|] eqn:Hst.
  - exists st, m. pose proof (si_entry _ _ Hinv _ _ Hst) as Hei.
    assert ((view ptr <$> modes) !! t = Some (mkView (Some (owner, m)) (Some m) true false false [])) as Hv
      by (rewrite <- Hview; by apply view_lookup).
    split_and!; try done. by eapply (ei_owner _ _ _ Hei).
  - rewrite (si_known _ _ Hinv _ _ _ Hm Hst) in Hview. done.
Qed.

(** C7: isolation of the operations on resources, for any interleaving of the
    methods of the table: a goroutine is inside a method of a resource only for
    a caller that the owner of the handle matches; two goroutines are inside
    the same resource only when it is full duplex; and a goroutine is inside a
    resource only while the [close] of its entry still waits for one of the
    mutexes, so that nobody is inside once [close] has returned. *)
Theorem resource_operation_isolation s t ptr owner k :
  reachable sys_initial SysStep s → sy_threads s !! t = Some (Call ptr owner k) →
  ∃ st, tb_heap (sy_table s) !! ptr = Some st ∧
    Owner_matches (en_Owner (es_entry st)) owner = true ∧
    (∃ m, m ∉ es_drained st) ∧
    ∀ t' owner' k', t' ≠ t → sy_threads s !! t' = Some (Call ptr owner' k') →
      rr_FullDuplexResource (en_Resource (es_entry st)) = true.
Proof.
  intros [modes Hinv]%sys_reachable_inv Ht.
  destruct (inside_entry _ _ _ _ _ _ Hinv Ht) as (st & m & Hst & [How Hmu] & Hv & Hei).
  exists st. split_and!; [done|done| |].
  - exists m. by eapply (ei_quiet _ _ _ Hei).
  - intros t' owner' k' Hne Ht'.
    destruct (inside_entry _ _ _ _ _ _ Hinv Ht') as (st' & m' & Hst' & [_ Hmu'] & Hv' & _). simplify_eq.
    destruct (rr_FullDuplexResource _) eqn:Hfull; [done|]. destruct Hne.
    rewrite (Hmu Hfull) in Hv. rewrite (Hmu' Hfull) in Hv'. by eapply (ei_unique _ _ _ Hei).
Qed.

(** ** The life of a resource *)

Lemma returned_views s modes ptr t v :
  sys_inv s modes → (∀ t p, sy_threads s !! t = Some p → ∃ r, p = Ret r) →
  (view ptr <$> modes) !! t = Some v → v = view_none.
Proof.
  intros Hinv Hall. rewrite lookup_fmap. intros (md & Hm & ->)%fmap_Some.
  destruct (sy_threads s !! t) as [p|] eqn:Hp.
  - destruct (Hall _ _ Hp) as [r ->]. destruct (si_threads _ _ Hinv _ _ Hp) as (md' & Hm' & Hok).
    simplify_eq. inversion Hok; subst. cbn. by rewrite bool_decide_eq_false_2 by set_solver.
  - rewrite (si_modes _ _ Hinv _ Hp) in Hm. done.
Qed.

(** C15: the life of a resource: its [Close] is called at most once; a resource
    whose handle is in the table is open; and when every call of the table has
    returned, a resource is either still in the table or was closed exactly
    once by a [close] that waited for all its operations: nothing leaks and
    nothing is closed twice. *)
Theorem resource_lifecycle s ptr st :
  reachable sys_initial SysStep s → tb_heap (sy_table s) !! ptr = Some st →
  es_closes st ≤ 1 ∧
  (∀ id, tb_entries (sy_table s) !! id = Some ptr → es_closed st = false ∧ es_closes st = 0) ∧
  ((∀ t p, sy_threads s !! t = Some p → ∃ r, p = Ret r) →
   (∃ id, tb_entries (sy_table s) !! id = Some ptr) ∨
   es_closed st = true ∧ es_closes st = 1 ∧ ∀ m, m ∈ es_drained st).
Proof.
  intros [modes Hinv]%sys_reachable_inv Hst. pose proof (si_entry _ _ Hinv _ _ Hst) as [].
  split_and!.
  - destruct (es_closed st); cbn in *; lia.
  - intros id Hid. destruct ei_here as [Hc _]; [by exists id|]. rewrite Hc in ei_closes. cbn in ei_closes.
    split; [done|lia].
  - intros Hall. assert (∀ t v, (view ptr <$> modes) !! t = Some v → v = view_none) as Hnone
      by (intros t v; by eapply returned_views).
    assert (count v_closing (view ptr <$> modes) = 0) as Hcount
      by (apply count_zero; intros t v Hv; by rewrite (Hnone _ _ Hv)).
    destruct ei_gone as [?|[Hc|(t & v & Hv & Ho)]]; [by left|right|by rewrite (Hnone _ _ Hv) in Ho].
    split_and!; [done|rewrite Hc in ei_closes; cbn in ei_closes; lia|]. intros m.
    destruct (ei_todo Hc m) as [?|(t & v & Hv & Ho)]; [done|]. rewrite (Hnone _ _ Hv) in Ho.
    by apply elem_of_nil in Ho.
Qed.

(** ** Freedom from deadlock *)

Definition enabled (table : Table) (p : Prog) : Prop := ∃ c, is_Some (act c table p).

Lemma holder_enabled table ptr m owner md p st :
  md = Holding ptr m owner ∨ md = Inside ptr m owner → ok md p → tb_heap table !! ptr = Some st →
  enabled table p.
Proof.
  intros Hmd Hok Hst. exists anyChoice.
  destruct Hmd; subst md; inversion Hok; subst; cbn; rewrite ?Hst; cbn; try (by eexists);
    match goal with |- is_Some (let '(_, _) := ?x in _) => destruct x end; by eexists.
Qed.

Lemma holds_mode ptr md m :
  v_holds (view ptr md) = Some m → ∃ owner, md = Holding ptr m owner ∨ md = Inside ptr m owner.
Proof. destruct md; cbn; try done; case_decide; cbn; try done; intros [= <-]; subst; eauto. Qed.

(** Somebody can release a mutex that is locked. *)
Lemma locked_progress s modes ptr m st :
  sys_inv s modes → tb_heap (sy_table s) !! ptr = Some st → m ∈ es_locked st →
  ∃ t p, sy_threads s !! t = Some p ∧ enabled (sy_table s) p.
Proof.
  intros Hinv Hst Hm. pose proof (si_entry _ _ Hinv _ _ Hst) as Hei.
  apply (ei_locked _ _ _ Hei) in Hm as (t & v & Hv & Hh).
  rewrite lookup_fmap in Hv. apply fmap_Some in Hv as (md & Hmd & ->).
  destruct (holds_mode _ _ _ Hh) as [owner Hcase].
  destruct (sy_threads s !! t) as [p|] eqn:Hp; [|by rewrite (si_modes _ _ Hinv _ Hp) in Hmd].
  destruct (si_threads _ _ Hinv _ _ Hp) as (md' & Hmd' & Hok). simplify_eq.
  exists t, p. split; [done|]. by eapply holder_enabled.
Qed.

Lemma mode_heap s modes t md ptr :
  sys_inv s modes → modes !! t = Some md → view ptr md ≠ view_none →
  ∃ st, tb_heap (sy_table s) !! ptr = Some st.
Proof.
  intros Hinv Hm Hv. destruct (tb_heap (sy_table s) !! ptr) as [st|] eqn:Hst; [by exists st|].
  destruct Hv. by eapply (si_known _ _ Hinv).
Qed.

Lemma acts_on ptr md p :
  ok md p →
  (∃ f, p = StateSection ptr f) ∨ (∃ m k, p = Lock ptr m k) ∨ (∃ m k, p = Unlock ptr m k) ∨
  (∃ m k, p = LockUnlock ptr m k) ∨ (∃ k, p = CloseResource ptr k) → view ptr md ≠ view_none.
Proof.
  intros Hok Hp. inversion Hok; subst; destruct Hp as [(? & ?)|[(? & ? & ?)|[(? & ? & ?)|[(? & ? & ?)|(? & ?)]]]];
    simplify_eq; cbn; rewrite ?decide_True by done; try done.
  rewrite bool_decide_eq_true_2 by left. done.
Qed.

(** the table never deadlocks: as long as a call has not returned, some
    goroutine can take its next action, whatever mutexes the goroutines hold
    and wait for. *)
Theorem resource_table_deadlock_free s t p :
  reachable sys_initial SysStep s → sy_threads s !! t = Some p → (∀ r, p ≠ Ret r) →
  ∃ t' p' c s', sy_threads s !! t' = Some p' ∧
    act c (sy_table s) p' = Some s' ∧ SysStep s (mkSystem s'.1 (<[t' := s'.2]> (sy_threads s))).
Proof.
  intros [modes Hinv]%sys_reachable_inv Ht Hp.
  assert (∃ t' p', sy_threads s !! t' = Some p' ∧ enabled (sy_table s) p') as (t' & p' & Ht' & c & [table' q] & Hact).
  2: { exists t', p', c, (table', q). split_and!; [done|done|]. destruct s. by eapply sys_act. }
  destruct (si_threads _ _ Hinv _ _ Ht) as (md & Hm & Hok).
  assert (∀ ptr, view ptr md ≠ view_none → ∃ st, tb_heap (sy_table s) !! ptr = Some st) as Hheap
    by (intros ptr; by eapply mode_heap).
  destruct p as [r|f|ptr f|ptr m k|ptr m k|ptr m k|k|ptr owner k|ptr k]; [by destruct (Hp r)| | | | | | | |].
  - exists t, (Section_ f). split; [done|]. inversion Hok as [|f' _ Hen| | | | | | | | | |]; subst. apply Hen.
    intros id ptr Hid. destruct (si_entries _ _ Hinv _ _ Hid) as (st & Hst & _). by exists st.
  - destruct (Hheap ptr) as [st Hst]; [eapply acts_on; eauto|]. exists t, (StateSection ptr f). split; [done|].
    exists anyChoice. cbn. rewrite Hst. cbn. destruct (f _). by eexists.
  - destruct (Hheap ptr) as [st Hst]; [eapply acts_on; eauto 6|].
    destruct (decide (m ∈ es_locked st)) as [Hl|Hl]; [by eapply locked_progress|].
    exists t, (Lock ptr m k). split; [done|]. exists anyChoice. cbn. rewrite Hst. cbn. rewrite bool_decide_eq_false_2 by done. by eexists.
  - destruct (Hheap ptr) as [st Hst]; [eapply acts_on; eauto 6|]. exists t, (Unlock ptr m k). split; [done|].
    exists anyChoice. cbn. rewrite Hst. by eexists.
  - destruct (Hheap ptr) as [st Hst]; [eapply acts_on; eauto 7|].
    destruct (decide (m ∈ es_locked st)) as [Hl|Hl]; [by eapply locked_progress|].
    exists t, (LockUnlock ptr m k). split; [done|]. exists anyChoice. cbn. rewrite Hst. cbn. rewrite bool_decide_eq_false_2 by done. by eexists.
  - exists t, (CtxDone k). split; [done|]. exists anyChoice. by eexists.
  - exists t, (Call ptr owner k). split; [done|]. exists anyChoice. by eexists.
  - destruct (Hheap ptr) as [st Hst]; [eapply acts_on; eauto 7|]. exists t, (CloseResource ptr k). split; [done|].
    exists anyChoice. cbn. rewrite Hst. by eexists.
Qed.

(** ** Limits *)

Record table_bounded (table : Table) : Prop := {
  tbd_next : ∀ ptr, tb_next table ≤ ptr → tb_heap table !! ptr = None;
  tbd_limits : ∀ kind, (0 ≤ limitFor table kind)%Z;
  tbd_entries : ∀ id ptr, tb_entries table !! id = Some ptr →
    (0 < id < 2 ^ 63)%Z ∧ ∃ st, tb_heap table !! ptr = Some st ∧ en_ID (es_entry st) = id ∧
      Owner_valid (en_Owner (es_entry st)) = true ∧ validKind (en_Kind (es_entry st)) = true;
  tbd_count : ∀ owner kind,
    (ownerKindCountLocked table owner (kindClassFor kind) ≤ limitFor table kind)%Z;
}.

Lemma countsFor_owner table owner owner' class ptr :
  ow_PluginInstanceID owner = ow_PluginInstanceID owner' → ow_Scope owner = ow_Scope owner' →
  countsFor table owner class ptr = countsFor table owner' class ptr.
Proof. intros H1 H2. unfold countsFor. by rewrite H1, H2. Qed.

Lemma limitFor_class table kind kind' :
  kindClassFor kind = kindClassFor kind' → limitFor table kind = limitFor table kind'.
Proof. unfold limitFor. by intros ->. Qed.

(** A counted entry has the plugin, the scope and the class it is counted
    for. *)
Lemma countsFor_true table owner class ptr st :
  tb_heap table !! ptr = Some st → countsFor table owner class ptr = true →
  ow_PluginInstanceID (en_Owner (es_entry st)) = ow_PluginInstanceID owner ∧
  ow_Scope (en_Owner (es_entry st)) = ow_Scope owner ∧ kindClassFor (en_Kind (es_entry st)) = class.
Proof.
  unfold countsFor. intros ->. rewrite !andb_true_iff, !bool_decide_eq_true, ResourceScope_Matches_spec.
  naive_solver.
Qed.

Lemma count_add table entry owner class :
  table_bounded table → admitted table entry →
  ownerKindCountLocked (addEntry table entry) owner class =
  (ownerKindCountLocked table owner class +
   Z.of_nat (b2n (countsFor (addEntry table entry) owner class (tb_next table))))%Z.
Proof.
  intros [Hn _ He _] (Hnew & _). unfold ownerKindCountLocked. rewrite <- Nat2Z.inj_add. f_equal.
  change (tb_entries (addEntry table entry)) with (<[en_ID entry := tb_next table]> (tb_entries table)).
  rewrite count_insert_fresh by done. f_equal. apply count_ext. intros id ptr Hid.
  destruct (He _ _ Hid) as (_ & st & Hst & _). unfold countsFor, addEntry. cbn.
  rewrite lookup_insert_ne; [done|]. intros <-. rewrite Hn in Hst by done. done.
Qed.

Lemma bounded_add table entry :
  table_bounded table → admitted table entry → table_bounded (addEntry table entry).
Proof.
  intros Hb Hadm. pose proof Hb as [Hn Hl He Hc]. pose proof Hadm as (Hnew & Hid & How & Hk & Hlt). split.
  - intros ptr Hp. cbn in *. rewrite lookup_insert_ne by lia. apply Hn. lia.
  - done.
  - intros id ptr. cbn. intros [[<- <-]|[Hne Hin]]%lookup_insert_Some.
    + split; [done|]. eexists. by rewrite lookup_insert_eq.
    + destruct (He _ _ Hin) as (? & st & Hst & ?). split; [done|]. exists st. rewrite lookup_insert_ne; [done|].
      intros <-. rewrite Hn in Hst by done. done.
  - intros owner kind. rewrite count_add by done.
    change (limitFor (addEntry table entry) kind) with (limitFor table kind).
    destruct (countsFor _ _ _ (tb_next table)) eqn:Hcf; cbn [b2n]; [|specialize (Hc owner kind); lia].
    eapply countsFor_true in Hcf as (H1 & H2 & H3); [|cbn; apply lookup_insert_eq]. cbn in H1, H2, H3.
    rewrite (limitFor_class _ _ _ (eq_sym H3)), <- H3.
    assert (ownerKindCountLocked table owner (kindClassFor (en_Kind entry)) =
            ownerKindCountLocked table (en_Owner entry) (kindClassFor (en_Kind entry))) as ->; [|lia].
    unfold ownerKindCountLocked. f_equal. apply count_ext. intros. by apply countsFor_owner.
Qed.

Lemma bounded_remove table entries' :
  table_bounded table → entries' ⊆ tb_entries table →
  table_bounded (mkTable entries' (tb_limits table) (tb_heap table) (tb_next table)).
Proof.
  intros [Hn Hl He Hc] Hsub. split; [done|done| |].
  - intros id ptr Hid. apply He. by eapply lookup_weaken.
  - intros owner kind. etrans; [|apply (Hc owner kind)]. unfold ownerKindCountLocked.
    apply Nat2Z.inj_le. etrans; [|by apply count_subseteq]. by apply Nat.eq_le_incl, count_ext.
Qed.

Lemma bounded_set table ptr st st' :
  table_bounded table → tb_heap table !! ptr = Some st → es_entry st' = es_entry st →
  table_bounded (set_entry table ptr st').
Proof.
  intros [Hn Hl He Hc] Hst Heq. split; cbn.
  - intros q Hq. rewrite lookup_insert_ne; [by apply Hn|]. intros ->. rewrite Hn in Hst; done.
  - done.
  - intros id q Hid. destruct (He _ _ Hid) as (? & sq & Hsq & ?). split; [done|].
    destruct (decide (ptr = q)) as [<-|Hne]; [|exists sq; by rewrite lookup_insert_ne].
    simplify_eq. exists st'. rewrite lookup_insert_eq, Heq. done.
  - intros owner kind. etrans; [|apply (Hc owner kind)]. unfold ownerKindCountLocked. cbn.
    apply Nat2Z.inj_le, Nat.eq_le_incl, count_ext. intros id q _. unfold countsFor. cbn.
    destruct (decide (ptr = q)) as [<-|Hne]; [by rewrite lookup_insert_eq, Hst, Heq|by rewrite lookup_insert_ne].
Qed.

Lemma bounded_change table table' md : table_bounded table → table_change table table' md → table_bounded table'.
Proof. intros Hb []; [done|done|by apply bounded_add|by apply bounded_remove]. Qed.

Lemma bounded_act c table p md table' p' :
  table_bounded table → ok md p → act c table p = Some (table', p') → table_bounded table'.
Proof.
  intros Hb Hok Hact.
  destruct p as [r|f|ptr f|ptr m k|ptr m k|ptr m k|k|ptr owner k|ptr k]; cbn [act] in Hact; try by simplify_eq.
  { inversion Hok as [|f' Hf' _| | | | | | | | | |]; subst.
    destruct (Hf' _ _ _ _ Hact) as (md' & Hch & _). by eapply bounded_change. }
  all: destruct (tb_heap table !! ptr) as [st|] eqn:Hst; [|done]; cbn [mbind option_bind] in Hact.
  all: repeat case_match; simplify_eq; by eapply bounded_set.
Qed.

Lemma bounded_initial s : sys_initial s → table_bounded (sy_table s).
Proof.
  intros [Hnew _].
  assert (∃ limits, sy_table s = mkTable ∅ limits ∅ 0 ∧
    (0 ≤ lm_FileHandles limits ∧ 0 ≤ lm_Connections limits ∧ 0 ≤ lm_WatchesListeners limits)%Z)
    as (limits & -> & Hl).
  { destruct Hnew as [[max H]|[limits H]].
    - unfold NewTable in H. destruct (Z.leb_spec max 0); [done|]. injection H as <-. eexists. split; [done|cbn; lia].
    - unfold NewTableWithLimits in H. destruct (Limits_valid limits) eqn:Hv; [|done]. injection H as <-.
      eexists. split; [done|]. unfold Limits_valid in Hv.
      rewrite !andb_true_iff, !Z.leb_le in Hv.
      unfold MinimumFileHandles, MinimumConnections, MinimumWatchesListeners in Hv. lia. }
  assert (∀ kind, (0 ≤ limitFor (mkTable ∅ limits ∅ 0) kind)%Z) as Hlim
    by (intros kind; unfold limitFor; case_match; cbn; lia).
  by split.
Qed.

(** the limits of the table: in every reachable state, for every plugin
    and resource scope, the open handles of each class of kinds are at most the
    limit of the class; every handle is a number from 1 to 2^63-1 and names the
    entry that carries it, which has a valid owner and kind. *)
Theorem resource_table_limits s :
  reachable sys_initial SysStep s →
  (∀ owner kind, (ownerKindCountLocked (sy_table s) owner (kindClassFor kind) ≤
                  limitFor (sy_table s) kind)%Z) ∧
  ∀ id ptr, tb_entries (sy_table s) !! id = Some ptr →
    (0 < id < 2 ^ 63)%Z ∧ ∃ st, tb_heap (sy_table s) !! ptr = Some st ∧ en_ID (es_entry st) = id ∧
      Owner_valid (en_Owner (es_entry st)) = true ∧ validKind (en_Kind (es_entry st)) = true.
Proof.
  intros Hr. assert (table_bounded (sy_table s)) as [_ _ ? ?]; [|done].
  assert ((∃ modes, sys_inv s modes) ∧ table_bounded (sy_table s)) as [_ ?]; [|done].
  revert s Hr. apply (reachable_invariant _ _ (λ s, (∃ modes, sys_inv s modes) ∧ table_bounded (sy_table s))).
  - intros s Hs. split; [apply sys_reachable_inv; by exists s|by apply bounded_initial].
  - intros s s' [[modes Hinv] Hb] Hstep. split.
    + destruct Hstep; [exists (<[t := Free []]> modes); by apply call_inv|by eapply act_inv].
    + destruct Hstep; [done|]. cbn in *. destruct (si_threads _ _ Hinv _ _ H) as (md & _ & Hok).
      by eapply bounded_act.
Qed.

(** ** Results *)

(** The results a method may return, whatever the flags and contexts it meets,
    when the tables it meets and the results of the calls of the resource are
    admissible. *)
Inductive returns (tab : Table → Prop) (adm : CallResult → Prop) : Prog → IOResult → Prop :=
| returns_ret r : returns tab adm (Ret r) r
| returns_section f c table table' p r :
    tab table → f c table = Some (table', p) → returns tab adm p r → returns tab adm (Section_ f) r
| returns_state ptr f b r : returns tab adm (f b).2 r → returns tab adm (StateSection ptr f) r
| returns_lock ptr m k r : returns tab adm k r → returns tab adm (Lock ptr m k) r
| returns_unlock ptr m k r : returns tab adm k r → returns tab adm (Unlock ptr m k) r
| returns_wait ptr m k r : returns tab adm k r → returns tab adm (LockUnlock ptr m k) r
| returns_ctx k e r : returns tab adm (k e) r → returns tab adm (CtxDone k) r
| returns_call ptr owner k c r : adm c → returns tab adm (k c) r → returns tab adm (Call ptr owner k) r
| returns_close ptr k e r : returns tab adm (k e) r → returns tab adm (CloseResource ptr k) r.

(** Nothing that a goroutine can do is left out. *)
Lemma returns_act tab adm c table p table' p' r :
  tab table → adm (ch_call c) → act c table p = Some (table', p') → returns tab adm p' r → returns tab adm p r.
Proof.
  intros Htab Hadm Hact Hr. destruct p as [r'|f|ptr f|ptr m k|ptr m k|ptr m k|k|ptr owner k|ptr k]; cbn [act] in Hact.
  - done.
  - by eapply returns_section.
  - destruct (tb_heap table !! ptr) as [st|]; [|done]. cbn [mbind option_bind] in Hact.
    apply (returns_state _ _ _ _ (es_closed st)). destruct (f (es_closed st)). by simplify_eq.
  - destruct (tb_heap table !! ptr); [|done]. cbn [mbind option_bind] in Hact. case_match; simplify_eq. by constructor.
  - destruct (tb_heap table !! ptr); [|done]. cbn [mbind option_bind] in Hact. simplify_eq. by constructor.
  - destruct (tb_heap table !! ptr); [|done]. cbn [mbind option_bind] in Hact. case_match; simplify_eq. by constructor.
  - simplify_eq. by econstructor.
  - simplify_eq. by econstructor.
  - destruct (tb_heap table !! ptr); [|done]. cbn [mbind option_bind] in Hact. simplify_eq. by econstructor.
Qed.

Lemma returns_fail tab adm e r : returns tab adm (fail e) r → r = mkIO 0 0 (Some e).
Proof. inversion 1. done. Qed.

Lemma returns_return tab adm ptr m r r' : returns tab adm (return_ ptr m r) r' → r' = r.
Proof. inversion 1 as [| | | |? ? ? ? H'| | | |]; subst. by inversion H'. Qed.

Lemma returns_isClosed tab adm ptr k r : returns tab adm (isClosed ptr k) r → ∃ b, returns tab adm (k b) r.
Proof. inversion 1; subst. eauto. Qed.

Lemma returns_closing tab adm ptr k r (P : IOResult → Prop) :
  (∀ e, returns tab adm (k e) r → P r) → returns tab adm (close ptr k) r → P r.
Proof.
  intros Hk H. inversion H as [| |? ? b ? H'| | | | | |]; subst. destruct b; cbn in H'; [by eapply Hk|].
  do 5 (inversion H' as [| | | | |? ? ? ? H''|? ? ? H''|? ? ? ? ? ? H''|? ? ? ? H'']; subst; clear H'; rename H'' into H').
  by eapply Hk.
Qed.

(** What an operation returns: a failed acquisition, or what its body does. *)
Lemma returns_acquireMode tab adm id owner mode control k r (P : IOResult → Prop) :
  (∀ e, P (mkIO 0 0 (Some e))) → (∀ table ptr st m, tab table → tb_heap table !! ptr = Some st →
     returns tab adm (k ptr (es_entry st) m) r → P r) →
  returns tab adm (acquireMode id owner mode control k) r → P r.
Proof.
  intros He Hk H. inversion H as [|f c table table' p ? Htab Hf Hr| | | | | | |]; subst. clear H.
  destruct (tb_entries table !! id) as [ptr|]; [|simplify_eq; by apply returns_fail in Hr as ->].
  destruct (tb_heap table !! ptr) as [st|] eqn:Hst; [|done]. cbn [mbind option_bind] in Hf.
  destruct (Owner_matches _ _); cbn [negb] in Hf.
  - simplify_eq. inversion Hr as [| | |? ? ? ? Hr'| | | | |]; subst.
    apply returns_isClosed in Hr' as [[] Hr']; [|by eapply Hk].
    inversion Hr' as [| | | |? ? ? ? Hr''| | | |]; subst. by apply returns_fail in Hr'' as ->.
  - destruct (Owner_samePrincipal _ _); simplify_eq; [|by apply returns_fail in Hr as ->].
    eapply returns_closing; [|exact Hr]. by intros e ->%returns_fail.
Qed.

Lemma acquire_results tab adm id owner write k r (P : IOResult → Prop) :
  (∀ e, P (mkIO 0 0 (Some e))) →
  (∀ table ptr st m, tab table → tb_heap table !! ptr = Some st →
     returns tab adm (k ptr (es_entry st) m) r → P r) →
  returns tab adm (acquire id owner write k) r → P r.
Proof. apply returns_acquireMode. Qed.

Ltac invert_returns H :=
  repeat first
    [ apply returns_return in H as ->
    | apply returns_isClosed in H as [[] H]
    | progress unfold finishChunkWrite in H
    | match type of H with
      | returns _ _ (Call _ _ _) _ =>
         let Ha := fresh "Hadm" in
         inversion H as [| | | | | | |? ? ? ? ? Ha H'|]; subst; clear H; rename H' into H
      | returns _ _ (CtxDone _) _ =>
         inversion H as [| | | | | |? [] ? H'| |]; subst; clear H; rename H' into H
      | returns _ _ (if ?b then _ else _) _ => destruct b eqn:?
      | returns _ _ (match ?x with _ => _ end) _ => destruct x eqn:?
      end ].

Definition length_ok (n len : Z) : Prop := (0 ≤ n ≤ len)%Z.

(** Every resource is a [ChunkReader]. *)
Definition chunk_readers (table : Table) : Prop :=
  ∀ ptr st, tb_heap table !! ptr = Some st → rr_ChunkReader (en_Resource (es_entry st)) = true.

Lemma read_flags tab adm id owner destination r :
  returns tab adm (ReadChunk id owner destination) r → unknownFlags (io_flags r) = false.
Proof.
  unfold ReadChunk. destruct (_ || _) eqn:Hlen; [by intros ->%returns_fail|].
  apply (acquire_results _ _ _ _ _ _ _ (λ r, unknownFlags (io_flags r) = false)); [done|].
  intros table ptr st m _ _ H. invert_returns H; try done.
  all: cbn; rewrite !orb_false_iff in *; tauto.
Qed.

Lemma read_length tab adm id owner destination r :
  (0 ≤ destination)%Z →
  (∀ table, tab table → chunk_readers table) ∨ (∀ c, adm c → length_ok (cr_n c) destination) →
  returns tab adm (ReadChunk id owner destination) r → length_ok (io_n r) destination.
Proof.
  intros Hd Hcon. unfold ReadChunk. destruct (_ || _) eqn:Hlen; [intros ->%returns_fail; by split|].
  apply (acquire_results _ _ _ _ _ _ _ (λ r, length_ok (io_n r) destination)); [by split|].
  intros table ptr st m Htab Hst H.
  invert_returns H; cbn; try by split.
  - rewrite !orb_false_iff, !Z.ltb_ge in *. unfold length_ok. lia.
  - destruct Hcon as [Hcon|Hcon]; [|by apply Hcon]. rewrite (Hcon _ Htab _ _ Hst) in *. done.
  - destruct Hcon as [Hcon|Hcon]; [|by apply Hcon]. rewrite (Hcon _ Htab _ _ Hst) in *. done.
  - destruct Hcon as [Hcon|Hcon]; [|by apply Hcon]. rewrite (Hcon _ Htab _ _ Hst) in *. done.
Qed.

Lemma write_complete tab adm id owner source flags r :
  returns tab adm (WriteChunk id owner source flags) r → io_err r = None →
  io_n r = source ∧ (source ≤ 65536)%Z ∧ unknownFlags flags = false.
Proof.
  unfold WriteChunk. destruct (Z.ltb_spec (Z.shiftl 64 10) source) as [|Hs]; [by intros ->%returns_fail|].
  destruct (unknownFlags flags) eqn:Hf; [by intros ->%returns_fail|].
  apply (acquire_results _ _ _ _ _ _ _ (λ r, io_err r = None → io_n r = source ∧ (source ≤ 65536)%Z ∧ false = false));
    [done|].
  change (Z.shiftl 64 10) with 65536%Z in Hs.
  intros table ptr st m _ _ H. invert_returns H; cbn; try done.
  all: intros He; split_and!; try done.
  all: match goal with Hb : bool_decide (cr_err ?c = None) && _ = false |- _ =>
         destruct (cr_err c); [done|]; rewrite bool_decide_eq_true_2 in Hb by done; cbn in Hb;
         apply negb_false_iff, Z.eqb_eq in Hb; done end.
Qed.

(** the results of chunked input and output. Whatever a resource answers,
    [ReadChunk] returns known flags only. The number of bytes it returns fits
    the destination for every chunk reader, which is checked, and for every
    reader that keeps the contract of [io.Reader] ([adm]). [WriteChunk] without
    an error has written the whole source, of at most 64 KiB, with known
    flags. *)
Theorem chunk_results tab adm id owner destination source flags r :
  (0 ≤ destination)%Z →
  (returns tab adm (ReadChunk id owner destination) r → unknownFlags (io_flags r) = false) ∧
  ((∀ table, tab table → chunk_readers table) ∨ (∀ c, adm c → length_ok (cr_n c) destination) →
   returns tab adm (ReadChunk id owner destination) r → length_ok (io_n r) destination) ∧
  (returns tab adm (WriteChunk id owner source flags) r → io_err r = None →
   io_n r = source ∧ (source ≤ 65536)%Z ∧ unknownFlags flags = false).
Proof. intros Hd. split_and!; eauto using read_flags, read_length, write_complete. Qed.

(** ** A run

    Open a file, start a read of it, and close it while the read runs. *)

Inductive Cmd := Start (t : nat) (q : Request) | Act (t : nat) (c : Choice).

Fixpoint exec (s : System) (cmds : list Cmd) : option System :=
  match cmds with
  | [] => Some s
  | Start t q :: cmds =>
     match sy_threads s !! t with
     | Some _ => None
     | None => exec (mkSystem (sy_table s) (<[t := program q]> (sy_threads s))) cmds
     end
  | Act t c :: cmds =>
     p ← sy_threads s !! t;
     '(table', p') ← act c (sy_table s) p;
     exec (mkSystem table' (<[t := p']> (sy_threads s))) cmds
  end.

Lemma exec_sound cmds : ∀ s s', exec s cmds = Some s' → rtc SysStep s s'.
Proof.
  induction cmds as [|[t q|t c] cmds IH]; intros s s' H; cbn in H.
  - simplify_eq. apply rtc_refl.
  - destruct (sy_threads s !! t) eqn:Ht; [done|]. eapply rtc_l; [|by apply IH].
    destruct s. by apply sys_call.
  - destruct (sy_threads s !! t) as [p|] eqn:Ht; [|done]. cbn in H.
    destruct (act c (sy_table s) p) as [[table' p']|] eqn:Hact; [|done]. cbn in H.
    eapply rtc_l; [|by apply IH]. destruct s. by eapply sys_act.
Qed.

Definition file_resource : Resource := mkResource false false true false false true true.
Definition sample_owner : Owner :=
  mkOwner "p1" "fp" (mkResourceScope ScopeUser "env" "user") (mkSessionScope "sess" "user" "env" "chan")
    "g1" 1 1 "" LifetimeSession.
Definition sample_choice : Choice :=
  mkChoice [Some [0; 0; 0; 0; 0; 0; 0; 7]%Z] (Ok None) None (mkCallResult 5 0 None) None.
Definition sample_start : System := mkSystem (mkTable ∅ (mkLimits 1 1 1) ∅ 0) ∅.

Definition reading : list Cmd :=
  [Start 0 (ReqOpen sample_owner KindFile file_resource); Act 0 sample_choice;
   Start 1 (ReqReadChunk 7 sample_owner 16); Act 1 sample_choice; Act 1 sample_choice; Act 1 sample_choice;
   Act 1 sample_choice].

Definition state_after (cmds : list Cmd) : System := default sample_start (exec sample_start cmds).

Lemma state_after_reachable cmds : reachable sys_initial SysStep (state_after cmds).
Proof.
  exists sample_start. split; [split; [left; by exists 1%Z|done]|]. unfold state_after.
  destruct (exec sample_start cmds) as [s|] eqn:E; [by eapply exec_sound|apply rtc_refl].
Qed.

Lemma resource_operation_isolation_witness :
  ∃ st, tb_heap (sy_table (state_after reading)) !! 0 = Some st ∧ ∃ m, m ∉ es_drained st.
Proof.
  assert (∃ k, sy_threads (state_after reading) !! 1 = Some (Call 0 sample_owner k)) as [k Hk]
    by (vm_compute; eexists; reflexivity).
  destruct (resource_operation_isolation (state_after reading) 1 0 sample_owner k) as (st & Hst & _ & Hm & _);
    [apply state_after_reachable|exact Hk|].
  exact (ex_intro _ st (conj Hst Hm)).
Defined.

(** The close waits: its goroutine is at the lock of the operation mutex. *)
Definition closing_run : list Cmd :=
  reading ++ [Start 2 (ReqClose 7 sample_owner); Act 2 sample_choice; Act 2 sample_choice; Act 2 sample_choice].

Lemma closing_waits :
  act sample_choice (sy_table (state_after closing_run))
    (default (fail ErrInvalidHandle) (sy_threads (state_after closing_run) !! 2)) = None.
Proof. vm_compute. reflexivity. Qed.

Lemma resource_table_deadlock_free_witness :
  ∃ t' p' c s', sy_threads (state_after closing_run) !! t' = Some p' ∧
    act c (sy_table (state_after closing_run)) p' = Some s'.
Proof.
  assert (∃ ptr m k, sy_threads (state_after closing_run) !! 2 = Some (LockUnlock ptr m k)) as (ptr & m & k & Hk)
    by (vm_compute; do 3 eexists; reflexivity).
  destruct (resource_table_deadlock_free (state_after closing_run) 2 (LockUnlock ptr m k))
    as (t' & p' & c & s' & H1 & H2 & _); [apply state_after_reachable|exact Hk|done|].
  exact (ex_intro _ t' (ex_intro _ p' (ex_intro _ c (ex_intro _ s' (conj H1 H2))))).
Defined.

(** The read ends, the close goes through. *)
Definition closed_run : list Cmd :=
  closing_run ++ [Act 1 sample_choice; Act 1 sample_choice; Act 1 sample_choice;
    Act 2 sample_choice; Act 2 sample_choice; Act 2 sample_choice; Act 2 sample_choice].

Lemma resource_lifecycle_witness :
  ∃ st, tb_heap (sy_table (state_after closed_run)) !! 0 = Some st ∧ es_closes st = 1 ∧ ∀ m, m ∈ es_drained st.
Proof.
  assert (∃ st, tb_heap (sy_table (state_after closed_run)) !! 0 = Some st) as [st Hst]
    by (vm_compute; eexists; reflexivity).
  assert (tb_entries (sy_table (state_after closed_run)) = ∅) as He by (vm_compute; reflexivity).
  assert (∃ a b c, sy_threads (state_after closed_run) = {[0 := Ret a; 1 := Ret b; 2 := Ret c]}) as (a & b & c & Hth)
    by (vm_compute; do 3 eexists; reflexivity).
  destruct (resource_lifecycle (state_after closed_run) 0 st (state_after_reachable _) Hst) as (_ & _ & H).
  exists st. split; [exact Hst|]. destruct H as [[id Hid]|(_ & H)].
  - intros t p. rewrite Hth.
    intros [[_ <-]|[_ [[_ <-]|[_ [_ <-]%lookup_singleton_Some]]%lookup_insert_Some]]%lookup_insert_Some; eauto.
  - rewrite He, lookup_empty in Hid. discriminate Hid.
  - exact H.
Defined.

Lemma resource_table_limits_witness :
  (ownerKindCountLocked (sy_table (state_after reading)) sample_owner (kindClassFor KindFile) ≤
   limitFor (sy_table (state_after reading)) KindFile)%Z.
Proof. apply (resource_table_limits (state_after reading)). apply state_after_reachable. Defined.

Lemma chunk_results_witness : length_ok 0 16.
Proof.
  apply (chunk_results (λ _, True) (λ c, length_ok (cr_n c) 16) 7 sample_owner 16 0 0 (mkIO 0 0 (Some ErrResourceClosed)));
    [lia|by right|].
  eapply (returns_section _ _ _ sample_choice (sy_table sample_start)); [done|reflexivity|apply returns_ret].
Defined.
