(* ===== verification/Background.v ===== *)
(** * pkg/background/manager.go: the background worker manager

    One session per plugin, user, environment and worker: concurrent starts of
    the same worker share one attempt. Every method is a tree of the atomic
    actions it performs ([Prog]): a section under [manager.mu], the wait for a
    start attempt, and the calls of the runner, which is code outside the
    package and answers anything. A nil context is [context.Background]. *)

From S2P Require Import Prelude GoLib.

Open Scope go_scope.

Inductive BgErr :=
| ErrInvalidOwner | ErrInvalidEntry | ErrNotFound | ErrClosed | RunnerErr (message : string) | BgCtx (e : CtxErr).

Record Owner := mkOwner {
  ow_PluginInstanceID : string;
  ow_UserScope : string;
  ow_EnvironmentScope : string;
}.

#[export] Instance Owner_eq_dec : EqDecision Owner.
Proof. solve_decision. Defined.

Definition Owner_valid (owner : Owner) : bool :=
  negb (bool_decide (ow_PluginInstanceID owner = "")) && negb (bool_decide (ow_UserScope owner = "")) &&
  negb (bool_decide (ow_EnvironmentScope owner = "")).

Definition Owner_key (owner : Owner) : string :=
  ow_PluginInstanceID owner +:+ nul +:+ ow_UserScope owner +:+ nul +:+ ow_EnvironmentScope owner.

Definition RuntimeStart := "runtime_start".
Definition OnDemand := "on_demand".

Record Entry := mkEntry {
  be_WorkerID : string;
  be_Strategy : string;
}.

Record Session := mkSession {
  bs_Handle : string;
  bs_Owner : Owner;
  bs_WorkerID : string;
}.

#[export] Instance Session_eq_dec : EqDecision Session.
Proof. solve_decision. Defined.

(** [Session{}]. *)
Definition zeroSession : Session := mkSession "" (mkOwner "" "" "") "".

(** A start attempt; [sa_done] when its channel is closed. *)
Record startAttempt := mkAttempt {
  sa_done : bool;
  sa_session : Session;
  sa_err : option BgErr;
}.

(** Attempts are pointers, numbered in the order of their creation. *)
Record Manager := mkManager {
  mg_sessions : gmap string Session;
  mg_starting : gmap string nat;
  mg_closed : bool;
  mg_attempts : gmap nat startAttempt;
  mg_next : nat;
}.

Definition NewManager : Manager := mkManager ∅ ∅ false ∅ 0.

Definition validateEntry (entry : Entry) : option BgErr :=
  if bool_decide (be_WorkerID entry = "") ||
     negb (bool_decide (be_Strategy entry = RuntimeStart)) && negb (bool_decide (be_Strategy entry = OnDemand))
  then Some ErrInvalidEntry else None.

Definition sessionKey (owner : Owner) (workerID : string) : string := Owner_key owner +:+ nul +:+ workerID.

(** ** Programs *)

Record BgResult := mkBgResult { br_session : Session; br_err : option BgErr }.

Inductive Prog :=
| Ret (r : BgResult)
| Section_ (f : Manager → Manager * Prog)
(* select on the attempt's channel and the context: [None] is the channel *)
| Await (attempt : nat) (k : option CtxErr → startAttempt → Prog)
| RunnerStart (owner : Owner) (workerID : string) (k : Session → option BgErr → Prog)
| RunnerStop (session : Session) (k : option BgErr → Prog)
(* the go statement *)
| Spawn (p : Prog) (k : Prog)
(* a channel the runner returned, [false] when it is nil, otherwise closed *)
| Done (session : Session) (k : bool → Prog).

Definition set_sessions (m : Manager) (sessions : gmap string Session) : Manager :=
  mkManager sessions (mg_starting m) (mg_closed m) (mg_attempts m) (mg_next m).

Definition watchCompletion (key : string) (session : Session) : Prog :=
  Done session (λ closed,
    if negb closed then Ret (mkBgResult zeroSession None)
    else Section_ (λ m,
      (match mg_sessions m !! key with
       | Some current => if bool_decide (current = session) then set_sessions m (delete key (mg_sessions m)) else m
       | None => m
       end, Ret (mkBgResult zeroSession None)))).

(** The end of [Start]: publish the result of the runner under the lock.
    [stopSession] is a pointer to the variable [session], so that what is
    stopped is the value of [session] at the time of the call, after it was
    cleared. *)
Definition finishStart (watches : bool) (owner : Owner) (entry : Entry) (key : string) (attempt : nat)
    (k : Session → option BgErr → Prog) (session : Session) (err : option BgErr) : Prog :=
  let valid := bool_decide (err = None) && negb (bool_decide (bs_Handle session = "")) &&
               bool_decide (bs_Owner session = owner) && bool_decide (bs_WorkerID session = be_WorkerID entry) in
  let err := if bool_decide (err = None) && negb valid then Some ErrInvalidEntry else err in
  Section_ (λ m,
    let m := mkManager (mg_sessions m) (delete key (mg_starting m)) (mg_closed m) (mg_attempts m) (mg_next m) in
    let '(m, session, err, stopSession) :=
      match err with
      | Some e => (m, session, Some e, false)
      | None =>
         if mg_closed m then (m, session, Some ErrClosed, true)
         else
           let existing := default zeroSession (mg_sessions m !! key) in
           if negb (bool_decide (bs_Handle existing = "")) then (m, existing, None, false)
           else (set_sessions m (<[key := session]> (mg_sessions m)), session, None, false)
      end in
    let '(session, stopSession) :=
      if negb (bool_decide (err = None)) && negb (bool_decide (bs_Handle session = ""))
      then (zeroSession, true)
      else (session, stopSession) in
    let m := mkManager (mg_sessions m) (mg_starting m) (mg_closed m)
               (<[attempt := mkAttempt true session err]> (mg_attempts m)) (mg_next m) in
    let watch (p : Prog) :=
      if bool_decide (err = None) && watches then Spawn (watchCompletion key session) p else p in
    (m, if stopSession then RunnerStop session (λ _, watch (k session err)) else watch (k session err))).

(** [Start]; [watches]: the runner is a [CompletionWatcher]. *)
Definition Start (watches : bool) (owner : Owner) (entry : Entry) (k : Session → option BgErr → Prog) : Prog :=
  if negb (Owner_valid owner) then k zeroSession (Some ErrInvalidOwner)
  else match validateEntry entry with
  | Some e => k zeroSession (Some e)
  | None =>
     let key := sessionKey owner (be_WorkerID entry) in
     Section_ (λ m,
       if mg_closed m then (m, k zeroSession (Some ErrClosed))
       else match mg_sessions m !! key with
       | Some existing => (m, k existing None)
       | None =>
          match mg_starting m !! key with
          | Some attempt =>
             (m, Await attempt (λ ctxErr a,
                match ctxErr with
                | None => k (sa_session a) (sa_err a)
                | Some e => k zeroSession (Some (BgCtx e))
                end))
          | None =>
             let attempt := mg_next m in
             (mkManager (mg_sessions m) (<[key := attempt]> (mg_starting m)) (mg_closed m)
                (<[attempt := mkAttempt false zeroSession None]> (mg_attempts m)) (S attempt),
              RunnerStart owner (be_WorkerID entry) (finishStart watches owner entry key attempt k))
          end
       end)
  end.

Definition finish (err : option BgErr) : Prog := Ret (mkBgResult zeroSession err).

Fixpoint Recover (watches : bool) (owner : Owner) (entries : list Entry) : Prog :=
  match entries with
  | [] => finish None
  | entry :: entries =>
     if negb (bool_decide (be_Strategy entry = RuntimeStart)) then Recover watches owner entries
     else Start watches owner entry (λ _ err,
       match err with Some e => finish (Some e) | None => Recover watches owner entries end)
  end.

Definition Get (owner : Owner) (workerID : string) (k : Session → option BgErr → Prog) : Prog :=
  if negb (Owner_valid owner) || bool_decide (workerID = "") then k zeroSession (Some ErrInvalidOwner)
  else Section_ (λ m,
    (m, match mg_sessions m !! sessionKey owner workerID with
        | None => k zeroSession (Some ErrNotFound)
        | Some session => k session None
        end)).

(** [delete(manager.sessions, key)] under the lock. *)
Definition deleteSession (key : string) (k : Prog) : Prog :=
  Section_ (λ m, (set_sessions m (delete key (mg_sessions m)), k)).

Definition Stop (owner : Owner) (workerID : string) : Prog :=
  Get owner workerID (λ session err,
    match err with
    | Some e => finish (Some e)
    | None => RunnerStop session (λ err,
        match err with
        | Some e => finish (Some e)
        | None => deleteSession (sessionKey owner workerID) (finish None)
        end)
    end).

(** The loop of [StopOwner] over the sessions found under the lock. *)
Fixpoint stopOwned (owner : Owner) (sessions : list Session) : Prog :=
  match sessions with
  | [] => finish None
  | session :: sessions =>
     RunnerStop session (λ err,
       match err with
       | Some e => finish (Some e)
       | None => deleteSession (sessionKey owner (bs_WorkerID session)) (stopOwned owner sessions)
       end)
  end.

Definition StopOwner (owner : Owner) : Prog :=
  if negb (Owner_valid owner) then finish (Some ErrInvalidOwner)
  else Section_ (λ m,
    (m, stopOwned owner (filter (λ '(key, session), key = sessionKey owner (bs_WorkerID session))
                           (map_to_list (mg_sessions m))).*2)).

Fixpoint stopEnvironment (sessions : list Session) (firstErr : option BgErr) : Prog :=
  match sessions with
  | [] => finish firstErr
  | session :: sessions =>
     RunnerStop session (λ err,
       match err with
       | Some e => stopEnvironment sessions (if bool_decide (firstErr = None) then Some e else firstErr)
       | None => deleteSession (sessionKey (bs_Owner session) (bs_WorkerID session)) (stopEnvironment sessions firstErr)
       end)
  end.

Definition StopPluginEnvironment (pluginInstanceID environmentScope : string) : Prog :=
  if bool_decide (pluginInstanceID = "") || bool_decide (environmentScope = "") then finish (Some ErrInvalidOwner)
  else Section_ (λ m,
    (m, stopEnvironment (filter (λ session, ow_PluginInstanceID (bs_Owner session) = pluginInstanceID ∧
                                            ow_EnvironmentScope (bs_Owner session) = environmentScope)
                           (map_to_list (mg_sessions m)).*2) None)).

(** [Shutdown] waits for the attempts it found, then stops the sessions it
    found, then clears the table. *)
Fixpoint stopAll (sessions : list Session) (firstErr : option BgErr) : Prog :=
  match sessions with
  | [] => Section_ (λ m, (set_sessions m ∅, finish firstErr))
  | session :: sessions =>
     RunnerStop session (λ err,
       stopAll sessions (if bool_decide (firstErr = None) then err else firstErr))
  end.

Fixpoint awaitAll (attempts : list nat) (firstErr : option BgErr) (k : option BgErr → Prog) : Prog :=
  match attempts with
  | [] => k firstErr
  | attempt :: attempts =>
     Await attempt (λ ctxErr _,
       awaitAll attempts
         (match ctxErr with
          | None => firstErr
          | Some e => if bool_decide (firstErr = None) then Some (BgCtx e) else firstErr
          end) k)
  end.

Definition Shutdown : Prog :=
  Section_ (λ m,
    if mg_closed m then (m, finish None)
    else
      let sessions := (map_to_list (mg_sessions m)).*2 in
      let starting := (map_to_list (mg_starting m)).*2 in
      (mkManager (mg_sessions m) (mg_starting m) true (mg_attempts m) (mg_next m),
       awaitAll starting None (stopAll sessions))).

(** ** Runs *)

Inductive Request :=
| ReqStart (owner : Owner) (entry : Entry)
| ReqRecover (owner : Owner) (entries : list Entry)
| ReqGet (owner : Owner) (workerID : string)
| ReqStop (owner : Owner) (workerID : string)
| ReqStopOwner (owner : Owner)
| ReqStopPluginEnvironment (pluginInstanceID environmentScope : string)
| ReqShutdown.

Definition program (watches : bool) (q : Request) : Prog :=
  let return_ session err := Ret (mkBgResult session err) in
  match q with
  | ReqStart owner entry => Start watches owner entry return_
  | ReqRecover owner entries => Recover watches owner entries
  | ReqGet owner workerID => Get owner workerID return_
  | ReqStop owner workerID => Stop owner workerID
  | ReqStopOwner owner => StopOwner owner
  | ReqStopPluginEnvironment p e => StopPluginEnvironment p e
  | ReqShutdown => Shutdown
  end.

(** What the runner was asked: the sessions it returned without an error and
    the sessions it was told to stop. *)
Inductive RunnerEvent := Started (session : Session) | Stopped (session : Session).

#[export] Instance RunnerEvent_eq_dec : EqDecision RunnerEvent.
Proof. solve_decision. Defined.

Record System := mkSystem {
  sy_manager : Manager;
  sy_threads : gmap nat Prog;
  sy_log : list RunnerEvent;
}.

(** What the environment decides in a step: the answers of the runner and the
    context of a wait. *)
Record Choice := mkChoice {
  ch_ctx : option CtxErr;
  ch_session : Session;
  ch_err : option BgErr;
  ch_closed : bool;
  ch_new : nat;
}.

(** One action: the new state without the goroutine, what is left of it, and
    the goroutine it starts. [None] when it has returned or waits. *)
Definition act (c : Choice) (m : Manager) (log : list RunnerEvent) (p : Prog) :
    option (Manager * list RunnerEvent * Prog * option Prog) :=
  match p with
  | Ret _ => None
  | Section_ f => let '(m, p) := f m in Some (m, log, p, None)
  | Await attempt k =>
     a ← mg_attempts m !! attempt;
     match ch_ctx c with
     | Some e => Some (m, log, k (Some e) a, None)
     | None => if sa_done a then Some (m, log, k None a, None) else None
     end
  | RunnerStart _ _ k =>
     Some (m, if bool_decide (ch_err c = None) then log ++ [Started (ch_session c)] else log,
           k (ch_session c) (ch_err c), None)
  | RunnerStop session k => Some (m, log ++ [Stopped session], k (ch_err c), None)
  | Spawn p k => Some (m, log, k, Some p)
  | Done _ k => Some (m, log, k (ch_closed c), None)
  end.

Definition spawned (threads : gmap nat Prog) (t : nat) (child : option Prog) : option (gmap nat Prog) :=
  match child with
  | None => Some threads
  | Some p => match threads !! t with None => Some (<[t := p]> threads) | Some _ => None end
  end.

Inductive SysStep (watches : bool) : System → System → Prop :=
| sys_call m threads log t q :
    threads !! t = None →
    SysStep watches (mkSystem m threads log) (mkSystem m (<[t := program watches q]> threads) log)
| sys_act m threads log t p c m' log' p' child threads' :
    threads !! t = Some p → act c m log p = Some (m', log', p', child) →
    spawned (<[t := p']> threads) (ch_new c) child = Some threads' →
    SysStep watches (mkSystem m threads log) (mkSystem m' threads' log').

Definition sys_initial (s : System) : Prop := s = mkSystem NewManager ∅ [].
