(* ===== verification/BackgroundProps.v ===== *)
(** * Theorems on the background worker manager

    A worker is started by one goroutine at a time, the others wait for its
    attempt and are woken, and the stored sessions are those of their keys.
    Two runs show where the manager loses a session. *)

From S2P Require Import Prelude GoLib Background.

Open Scope go_scope.

(** ** Modes *)

(** [Idle known]: the attempts the goroutine may wait for. A goroutine that
    registered an attempt is [Starting], then [Publishing] its result. *)
Inductive Mode :=
| Idle (known : list nat)
| Starting (key : string) (attempt : nat)
| Publishing (key : string) (attempt : nat).

Definition session_ok (key : string) (session : Session) : Prop :=
  bs_Handle session ≠ "" ∧ key = sessionKey (bs_Owner session) (bs_WorkerID session).

(** The sections under [manager.mu]. *)
Inductive change (m : Manager) : Manager → Mode → Prop :=
| change_forget sessions closed known :
    sessions ⊆ mg_sessions m → (∀ a, a ∈ known → ∃ key, mg_starting m !! key = Some a) →
    change m (mkManager sessions (mg_starting m) closed (mg_attempts m) (mg_next m)) (Idle known)
| change_register key :
    mg_sessions m !! key = None → mg_starting m !! key = None →
    change m (mkManager (mg_sessions m) (<[key := mg_next m]> (mg_starting m)) (mg_closed m)
                (<[mg_next m := mkAttempt false zeroSession None]> (mg_attempts m)) (S (mg_next m)))
      (Starting key (mg_next m)).

Definition publishes (m m' : Manager) (key : string) (attempt : nat) : Prop :=
  ∃ sessions a, m' = mkManager sessions (delete key (mg_starting m)) (mg_closed m)
                       (<[attempt := a]> (mg_attempts m)) (mg_next m) ∧ sa_done a = true ∧
    (sessions = mg_sessions m ∨ ∃ session, session_ok key session ∧ sessions = <[key := session]> (mg_sessions m)).

Inductive ok : Mode → Prog → Prop :=
| ok_ret r : ok (Idle []) (Ret r)
| ok_section f :
    (∀ m m' p, f m = (m', p) → ∃ md, change m m' md ∧ ok md p) → ok (Idle []) (Section_ f)
| ok_await a known k : (∀ e at_, ok (Idle known) (k e at_)) → ok (Idle (a :: known)) (Await a k)
| ok_stop session k : (∀ e, ok (Idle []) (k e)) → ok (Idle []) (RunnerStop session k)
| ok_spawn p k : ok (Idle []) p → ok (Idle []) k → ok (Idle []) (Spawn p k)
| ok_done session k : (∀ b, ok (Idle []) (k b)) → ok (Idle []) (Done session k)
| ok_start owner workerID a k :
    (∀ s e, ok (Publishing (sessionKey owner workerID) a) (k s e)) →
    ok (Starting (sessionKey owner workerID) a) (RunnerStart owner workerID k)
| ok_publish key a f :
    (∀ m m' p, f m = (m', p) → publishes m m' key a ∧ ok (Idle []) p) → ok (Publishing key a) (Section_ f).

(** ** The methods are well behaved *)

Lemma change_same m : change m m (Idle []).
Proof. destruct m. apply change_forget; [done|]. intros a Ha. by apply elem_of_nil in Ha. Qed.

Lemma change_sessions m sessions : sessions ⊆ mg_sessions m → change m (set_sessions m sessions) (Idle []).
Proof. intros. apply change_forget; [done|]. intros a Ha. by apply elem_of_nil in Ha. Qed.

Lemma ok_finish err : ok (Idle []) (finish err).
Proof. apply ok_ret. Qed.

Lemma ok_delete key k : ok (Idle []) k → ok (Idle []) (deleteSession key k).
Proof.
  intros Hk. apply ok_section. intros m m' p [= <- <-]. eexists. split; [|done].
  apply change_sessions, delete_subseteq.
Qed.

Lemma ok_watch key session : ok (Idle []) (watchCompletion key session).
Proof.
  apply ok_done. intros []; cbn; [|apply ok_ret]. apply ok_section. intros m m' p [= <- <-].
  eexists. split; [|apply ok_ret]. repeat case_match; try apply change_same.
  apply change_sessions, delete_subseteq.
Qed.

Lemma finishStart_publishes watches owner entry a k session err :
  (∀ s e, ok (Idle []) (k s e)) →
  ok (Publishing (sessionKey owner (be_WorkerID entry)) a)
    (finishStart watches owner entry (sessionKey owner (be_WorkerID entry)) a k session err).
Proof.
  intros Hk. set (key := sessionKey owner (be_WorkerID entry)).
  assert (∀ s e, ok (Idle []) (if watches then Spawn (watchCompletion key s) (k s e) else k s e)) as Hw.
  { intros s e. destruct watches; [apply ok_spawn; [apply ok_watch|apply Hk]|apply Hk]. }
  unfold finishStart. apply ok_publish. intros m m' p.
  destruct (bool_decide (err = None) && _ && _ && _) eqn:Hv.
  - rewrite !andb_true_iff, negb_true_iff, !bool_decide_eq_true, bool_decide_eq_false in Hv.
    destruct Hv as (((-> & Hh) & Ho) & Hid). cbn [bool_decide andb negb mg_closed mg_sessions].
    rewrite bool_decide_eq_true_2 by done. cbn [andb negb].
    destruct (mg_closed m) eqn:Hc; cbn [mg_closed].
    + rewrite (bool_decide_eq_false_2 (bs_Handle session = "")) by done. cbn. intros [= <- <-].
      split; [|apply ok_stop; intros; apply Hk].
      exists (mg_sessions m), (mkAttempt true zeroSession (Some ErrClosed)). split_and!; [by rewrite <- Hc|done|by left].
    + case_bool_decide as He; cbn; intros [= <- <-]; (split; [|apply Hw]).
      * eexists _, _. split_and!; [by rewrite <- Hc|done|right]. exists session. split; [|done].
        split; [done|]. unfold key. by rewrite Ho, Hid.
      * eexists _, _. split_and!; [by rewrite <- Hc|done|by left].
  - cbn [negb]. rewrite andb_true_r. set (err' := if bool_decide (err = None) then Some ErrInvalidEntry else err).
    assert (∃ e, err' = Some e) as [e ->].
    { unfold err'. destruct err as [e|]; [by exists e|]. by exists ErrInvalidEntry. }
    clear Hv. cbn. destruct (bool_decide (bs_Handle session = "")); cbn; intros [= <- <-].
    + split; [|apply Hk]. eexists _, _. split_and!; [done|done|by left].
    + split; [|apply ok_stop; intros; apply Hk]. eexists _, _. split_and!; [done|done|by left].
Qed.

Lemma ok_Start watches owner entry k :
  (∀ s e, ok (Idle []) (k s e)) → ok (Idle []) (Start watches owner entry k).
Proof.
  intros Hk. unfold Start. destruct (Owner_valid owner); [cbn|apply Hk].
  destruct (validateEntry entry); [apply Hk|]. apply ok_section. intros m m' p.
  destruct (mg_closed m) eqn:Hc; [intros [= <- <-]; eauto using change_same|].
  destruct (mg_sessions m !! _) eqn:Hs; [intros [= <- <-]; eauto using change_same|].
  destruct (mg_starting m !! _) as [a|] eqn:Ha; intros [= <- <-].
  - exists (Idle [a]). split.
    + destruct m. apply change_forget; [done|]. intros a' ->%list_elem_of_singleton. eauto.
    + apply ok_await. intros [e|] at_; apply Hk.
  - eexists. split; [rewrite <- Hc at 1; by apply change_register|].
    apply ok_start. intros s e. by apply finishStart_publishes.
Qed.

Lemma ok_Recover watches owner entries : ok (Idle []) (Recover watches owner entries).
Proof.
  induction entries as [|entry entries IH]; cbn; [apply ok_finish|]. case_bool_decide; cbn; [|done].
  apply ok_Start. intros s [e|]; [apply ok_finish|done].
Qed.

Lemma ok_Get owner workerID k : (∀ s e, ok (Idle []) (k s e)) → ok (Idle []) (Get owner workerID k).
Proof.
  intros Hk. unfold Get. destruct (_ || _); [apply Hk|]. apply ok_section. intros m m' p [= <- <-].
  exists (Idle []). split; [apply change_same|]. case_match; apply Hk.
Qed.

Lemma ok_stopOwned owner sessions : ok (Idle []) (stopOwned owner sessions).
Proof.
  induction sessions as [|s sessions IH]; cbn; [apply ok_finish|].
  apply ok_stop. intros [e|]; [apply ok_finish|by apply ok_delete].
Qed.

Lemma ok_stopEnvironment sessions : ∀ err, ok (Idle []) (stopEnvironment sessions err).
Proof.
  induction sessions as [|s sessions IH]; intros err; cbn; [apply ok_finish|].
  apply ok_stop. intros [e|]; [apply IH|by apply ok_delete].
Qed.

Lemma ok_stopAll sessions : ∀ err, ok (Idle []) (stopAll sessions err).
Proof.
  induction sessions as [|s sessions IH]; intros err; cbn; [|by apply ok_stop].
  apply ok_section. intros m m' p [= <- <-]. eexists. split; [|apply ok_finish].
  apply change_sessions, map_empty_subseteq.
Qed.

Lemma ok_awaitAll attempts k : (∀ e, ok (Idle []) (k e)) → ∀ err, ok (Idle attempts) (awaitAll attempts err k).
Proof.
  intros Hk. induction attempts as [|a attempts IH]; intros err; cbn; [apply Hk|].
  apply ok_await. intros [e|] at_; apply IH.
Qed.

Lemma bg_ok_program watches q : ok (Idle []) (program watches q).
Proof.
  destruct q; cbn [program].
  - apply ok_Start. intros. apply ok_ret.
  - apply ok_Recover.
  - apply ok_Get. intros. apply ok_ret.
  - unfold Stop. apply ok_Get. intros s [e|]; [apply ok_finish|]. apply ok_stop.
    intros [e|]; [apply ok_finish|apply ok_delete, ok_finish].
  - unfold StopOwner. destruct (Owner_valid owner); cbn; [|apply ok_finish].
    apply ok_section. intros m m' p [= <- <-]. eauto using change_same, ok_stopOwned.
  - unfold StopPluginEnvironment. destruct (_ || _); [apply ok_finish|].
    apply ok_section. intros m m' p [= <- <-]. eauto using change_same, ok_stopEnvironment.
  - apply ok_section. intros m m' p. destruct (mg_closed m).
    { intros [= <- <-]. eauto using change_same, ok_finish. }
    intros [= <- <-]. eexists. split; [|apply ok_awaitAll, ok_stopAll]. apply change_forget; [done|].
    intros a ([key a'] & -> & Hin%elem_of_map_to_list)%list_elem_of_fmap. eauto.
Qed.

(** ** The invariant *)

Definition starts (md : Mode) (key : string) (a : nat) : Prop := md = Starting key a ∨ md = Publishing key a.

Record mgr_ok (m : Manager) : Prop := {
  mo_sessions : ∀ key s, mg_sessions m !! key = Some s → session_ok key s;
  mo_exclusive : ∀ key a, mg_starting m !! key = Some a → mg_sessions m !! key = None;
  mo_next : ∀ a, mg_next m ≤ a → mg_attempts m !! a = None;
  mo_running : ∀ key a, mg_starting m !! key = Some a →
    ∃ at_, mg_attempts m !! a = Some at_ ∧ sa_done at_ = false;
  mo_distinct : ∀ key key' a, mg_starting m !! key = Some a → mg_starting m !! key' = Some a → key = key';
  mo_done : ∀ a at_, mg_attempts m !! a = Some at_ → sa_done at_ = false → ∃ key, mg_starting m !! key = Some a;
}.

Record sys_inv (s : System) (modes : gmap nat Mode) : Prop := {
  si_mgr : mgr_ok (sy_manager s);
  si_threads : ∀ t p, sy_threads s !! t = Some p → ∃ md, modes !! t = Some md ∧ ok md p;
  si_modes : ∀ t, sy_threads s !! t = None → modes !! t = None;
  si_starting : ∀ key a, mg_starting (sy_manager s) !! key = Some a ↔
    ∃ t md, modes !! t = Some md ∧ starts md key a;
  si_unique : ∀ t t' md md' key a a', modes !! t = Some md → modes !! t' = Some md' →
    starts md key a → starts md' key a' → t = t';
  si_known : ∀ t known a, modes !! t = Some (Idle known) → a ∈ known →
    is_Some (mg_attempts (sy_manager s) !! a);
}.

Lemma not_starts_idle known key a : ¬ starts (Idle known) key a.
Proof. by intros [|]. Qed.

Lemma starts_inj md key a key' a' : starts md key a → starts md key' a' → key = key' ∧ a = a'.
Proof. intros [->| ->] [H|H]; by simplify_eq. Qed.

Lemma mgr_forget m sessions closed :
  mgr_ok m → sessions ⊆ mg_sessions m →
  mgr_ok (mkManager sessions (mg_starting m) closed (mg_attempts m) (mg_next m)).
Proof.
  intros [] Hsub. split; cbn; try done.
  - intros key s Hs. apply mo_sessions0. by eapply lookup_weaken.
  - intros key a Ha. destruct (sessions !! key) eqn:Hs; [|done]. eapply lookup_weaken in Hs; [|done].
    rewrite (mo_exclusive0 _ _ Ha) in Hs. done.
Qed.

Lemma mgr_register m key :
  mgr_ok m → mg_sessions m !! key = None → mg_starting m !! key = None →
  mgr_ok (mkManager (mg_sessions m) (<[key := mg_next m]> (mg_starting m)) (mg_closed m)
            (<[mg_next m := mkAttempt false zeroSession None]> (mg_attempts m)) (S (mg_next m))).
Proof.
  intros [] Hs Hk.
  assert (∀ key' a, mg_starting m !! key' = Some a → a ≠ mg_next m) as Hfresh.
  { intros key' a Ha ->. destruct (mo_running0 _ _ Ha) as (at_ & Hat & _). rewrite mo_next0 in Hat; done. }
  split; cbn; try done.
  - intros key' a [[<- <-]|[Hne Ha]]%lookup_insert_Some; eauto.
  - intros a Ha. rewrite lookup_insert_ne by lia. apply mo_next0. lia.
  - intros key' a [[<- <-]|[Hne Ha]]%lookup_insert_Some; [eexists; by rewrite lookup_insert_eq|].
    rewrite lookup_insert_ne; [eauto|]. intros Heq. by apply (Hfresh _ _ Ha).
  - intros k1 k2 a [[<- Ea]|[H1 Ha]]%lookup_insert_Some [[<- Eb]|[H2 Hb]]%lookup_insert_Some; [done| | |eauto].
    + by destruct (Hfresh _ _ Hb).
    + by destruct (Hfresh _ _ Ha).
  - intros a at_ [[<- <-]|[Hne Ha]]%lookup_insert_Some Hd; [exists key; by rewrite lookup_insert_eq|].
    destruct (mo_done0 _ _ Ha Hd) as [key' Hk']. exists key'. rewrite lookup_insert_ne; [done|]. congruence.
Qed.

Lemma mgr_publish m m' key a :
  mgr_ok m → mg_starting m !! key = Some a → publishes m m' key a → mgr_ok m'.
Proof.
  intros Hm Ha (sessions & at_ & -> & Hd & Hs). pose proof Hm as [].
  assert (∀ key' b, delete key (mg_starting m) !! key' = Some b → key' ≠ key ∧ b ≠ a ∧ mg_starting m !! key' = Some b) as Hdel.
  { intros key' b [Hne Hb]%lookup_delete_Some. split_and!; [done| |done]. intros ->. destruct Hne. eauto. }
  split; cbn.
  - intros key' s. destruct Hs as [->|(s0 & Hs0 & ->)]; [apply mo_sessions0|].
    intros [[<- <-]|[_ ?]]%lookup_insert_Some; eauto.
  - intros key' b (Hne & _ & Hb)%Hdel. destruct Hs as [->|(s0 & Hs0 & ->)]; [eauto|].
    rewrite lookup_insert_ne by done. eauto.
  - intros b Hb. rewrite lookup_insert_ne; [by apply mo_next0|]. intros <-.
    destruct (mo_running0 _ _ Ha) as (x & Hx & _). rewrite mo_next0 in Hx; done.
  - intros key' b (Hne & Hba & Hb)%Hdel. rewrite lookup_insert_ne by done. eauto.
  - intros k1 k2 b (_ & _ & H1)%Hdel (_ & _ & H2)%Hdel. eauto.
  - intros b x [[<- <-]|[Hne Hb]]%lookup_insert_Some Hx; [congruence|].
    destruct (mo_done0 _ _ Hb Hx) as [key' Hk']. exists key'. apply lookup_delete_Some. split; [|done].
    intros <-. congruence.
Qed.

(** A goroutine moves on and the table of attempts does not lose anything. *)
Lemma bg_inv_move m threads log modes t p md m' log' p' md' :
  sys_inv (mkSystem m threads log) modes → threads !! t = Some p → modes !! t = Some md → ok md' p' →
  mgr_ok m' → (∀ a, is_Some (mg_attempts m !! a) → is_Some (mg_attempts m' !! a)) →
  (∀ known a, md' = Idle known → a ∈ known → is_Some (mg_attempts m' !! a)) →
  (∀ key a, mg_starting m' !! key = Some a ↔ starts md' key a ∨ mg_starting m !! key = Some a ∧ ¬ starts md key a) →
  (∀ key a, starts md' key a → starts md key a ∨ mg_starting m !! key = None) →
  sys_inv (mkSystem m' (<[t := p']> threads) log') (<[t := md']> modes).
Proof.
  intros [Hmo Hth Hms Hst Hun Hkn] Ht Hm Hok Hmo' Hat Hkn' Hst' Hun'. cbn in *. split; cbn; [done|..].
  - intros t' q [[<- <-]|[Hne Hq]]%lookup_insert_Some; [exists md'; by rewrite lookup_insert_eq|].
    rewrite lookup_insert_ne by done. eauto.
  - intros t' [Ht' Hne]%lookup_insert_None. rewrite lookup_insert_ne by done. auto.
  - intros key a. rewrite Hst', Hst. split.
    + intros [H|((t1 & md1 & H1 & Hs) & Hn)]; [exists t, md'; by rewrite lookup_insert_eq|].
      exists t1, md1. rewrite lookup_insert_ne; [done|]. intros <-. congruence.
    + intros (t1 & md1 & [[<- <-]|[Hne H1]]%lookup_insert_Some & Hs); [by left|]. right. split; [eauto|].
      intros Hold. destruct Hne. by eapply (Hun t t1).
  - intros t1 t2 md1 md2 key a1 a2 [[<- <-]|[Hne1 H1]]%lookup_insert_Some
      [[<- <-]|[Hne2 H2]]%lookup_insert_Some Hs1 Hs2; [done| | |by eapply (Hun t1 t2)].
    + destruct (Hun' _ _ Hs1) as [Hold|Hnone]; [by eapply (Hun t t2)|].
      rewrite (proj2 (Hst key a2)) in Hnone; [done|eauto].
    + destruct (Hun' _ _ Hs2) as [Hold|Hnone]; [by eapply (Hun t1 t)|].
      rewrite (proj2 (Hst key a1)) in Hnone; [done|eauto].
  - intros t1 known a [[<- ->]|[Hne H1]]%lookup_insert_Some Ha; eauto.
Qed.

(** A new goroutine. *)
Lemma inv_call m threads log modes t p :
  sys_inv (mkSystem m threads log) modes → threads !! t = None → ok (Idle []) p →
  sys_inv (mkSystem m (<[t := p]> threads) log) (<[t := Idle []]> modes).
Proof.
  intros [Hmo Hth Hms Hst Hun Hkn] Ht Hok. cbn in *. split; cbn; [done|..].
  - intros t' q [[<- <-]|[Hne Hq]]%lookup_insert_Some; [exists (Idle []); by rewrite lookup_insert_eq|].
    rewrite lookup_insert_ne by done. eauto.
  - intros t' [Ht' Hne]%lookup_insert_None. rewrite lookup_insert_ne by done. auto.
  - intros key a. rewrite Hst. split; intros (t1 & md1 & H1 & Hs).
    + exists t1, md1. rewrite lookup_insert_ne; [done|]. intros <-. rewrite Hms in H1; done.
    + apply lookup_insert_Some in H1 as [[<- <-]|[Hne H1]]; [by apply not_starts_idle in Hs|eauto].
  - intros t1 t2 md1 md2 key a1 a2 [[<- <-]|[Hne1 H1]]%lookup_insert_Some
      [[<- <-]|[Hne2 H2]]%lookup_insert_Some Hs1 Hs2;
      [done|by apply not_starts_idle in Hs1|by apply not_starts_idle in Hs2|by eapply (Hun t1 t2)].
  - intros t1 known a [[<- [= <-]]|[Hne H1]]%lookup_insert_Some Ha; [by apply elem_of_nil in Ha|eauto].
Qed.

(** A goroutine that is idle goes on, the manager unchanged. *)
Lemma inv_idle m threads log modes t p known known' log' p' :
  sys_inv (mkSystem m threads log) modes → threads !! t = Some p → modes !! t = Some (Idle known) →
  known' ⊆ known → ok (Idle known') p' →
  sys_inv (mkSystem m (<[t := p']> threads) log') (<[t := Idle known']> modes).
Proof.
  intros Hinv Ht Hm Hsub Hok. pose proof Hinv as [Hmo _ _ _ _ Hkn]. cbn in *. eapply bg_inv_move; try done.
  - intros known0 a [= <-] Ha. eapply Hkn; [done|by apply Hsub].
  - intros key a. split; [|by intros [[|]|[? _]]]. intros ?. right. split; [done|apply not_starts_idle].
  - intros key a Hs. by apply not_starts_idle in Hs.
Qed.

Lemma section_inv m threads log modes t f md m' p' :
  sys_inv (mkSystem m threads log) modes → threads !! t = Some (Section_ f) → modes !! t = Some md →
  ok md (Section_ f) → f m = (m', p') →
  ∃ modes', sys_inv (mkSystem m' (<[t := p']> threads) log) modes'.
Proof.
  intros Hinv Ht Hm Hok Hf. pose proof Hinv as [Hmo Hth Hms Hst Hun Hkn]. cbn in *.
  inversion Hok as [|f' Hf'| | | | | |key a f' Hf']; subst.
  - destruct (Hf' _ _ _ Hf) as (md' & Hch & Hok'). exists (<[t := md']> modes). destruct Hch as [sessions closed known Hsub Hk|key Hs Hk].
    + eapply bg_inv_move; try done.
      * by apply mgr_forget.
      * intros known0 a [= <-] Ha. destruct (Hk _ Ha) as [key Hkey].
        destruct (mo_running _ Hmo _ _ Hkey) as (at_ & Hat & _). by exists at_.
      * cbn. intros key a. split; [|by intros [[|]|[? _]]]. intros ?. right. split; [done|apply not_starts_idle].
      * intros key a Hs. by apply not_starts_idle in Hs.
    + eapply bg_inv_move; try done; cbn.
      * by apply mgr_register.
      * intros a [at_ Ha]. apply lookup_insert_is_Some. destruct (decide (mg_next m = a)); eauto.
      * intros key' a. rewrite lookup_insert_Some. split.
        -- intros [[<- <-]|[Hne Ha]]; [left; by left|right]. split; [done|apply not_starts_idle].
        -- intros [[[= <- <-]|]|[Ha _]]; [by left|done|right]. split; [congruence|done].
      * intros key' a [[= <- <-]|]; [by right|done].
  - destruct (Hf' _ _ _ Hf) as [Hpub Hok']. exists (<[t := Idle []]> modes).
    assert (mg_starting m !! key = Some a) as Ha by (apply Hst; exists t, (Publishing key a); split; [done|by right]).
    eapply bg_inv_move; try done.
    + by eapply mgr_publish.
    + destruct Hpub as (sessions & at_ & -> & _). cbn. intros b [x Hb]. apply lookup_insert_is_Some.
      destruct (decide (a = b)); eauto.
    + intros known b [= <-] Hb. by apply elem_of_nil in Hb.
    + destruct Hpub as (sessions & at_ & -> & _). cbn. intros key' b. rewrite lookup_delete_Some. split.
      * intros [Hne Hb]. right. split; [done|]. intros [|[= <- <-]]; done.
      * intros [[|]|[Hb Hn]]; [done|done|]. split; [|done]. intros <-. destruct Hn. right. congruence.
    + intros key' b Hs. by apply not_starts_idle in Hs.
Qed.

Lemma bg_act_inv m threads log modes t p c m' log' p' child threads' :
  sys_inv (mkSystem m threads log) modes → threads !! t = Some p → act c m log p = Some (m', log', p', child) →
  spawned (<[t := p']> threads) (ch_new c) child = Some threads' →
  ∃ modes', sys_inv (mkSystem m' threads' log') modes'.
Proof.
  intros Hinv Ht Hact Hsp. destruct (si_threads _ _ Hinv t p Ht) as (md & Hm & Hok).
  destruct p as [r|f|a k|owner workerID k|session k|q k|session k]; cbn [act] in Hact.
  - done.
  - destruct (f m) as [m1 p1] eqn:Hf. simplify_eq. cbn in Hsp. simplify_eq. by eapply section_inv.
  - destruct (mg_attempts m !! a) as [at_|]; [|done]. cbn [mbind option_bind] in Hact.
    inversion Hok as [| |a' known k' Hk| | | | |]; subst. exists (<[t := Idle known]> modes).
    repeat case_match; simplify_eq; cbn in Hsp; simplify_eq; (eapply inv_idle; [done..| |apply Hk]; set_solver).
  - simplify_eq. cbn in Hsp. simplify_eq. inversion Hok; subst.
    exists (<[t := Publishing (sessionKey owner workerID) a]> modes). pose proof Hinv as [Hmo _ _ Hst _ _]. cbn in *.
    assert (mg_starting m' !! sessionKey owner workerID = Some a) as Ha by (apply Hst; do 2 eexists; split; [done|by left]).
    eapply bg_inv_move; try done.
    + intros key b. split.
      * intros Hb. destruct (decide (key = sessionKey owner workerID)) as [->|Hne]; [left; right; congruence|].
        right. split; [done|]. by intros [[= ? ?]|].
      * by intros [[|[= <- <-]]|[Hb _]].
    + intros key b [|[= <- <-]]; [done|]. left. by left.
  - simplify_eq. cbn in Hsp. simplify_eq. inversion Hok; subst. exists (<[t := Idle []]> modes).
    eapply inv_idle; [done..|]. eauto.
  - simplify_eq. inversion Hok; subst. cbn in Hsp. case_match; [done|]. simplify_eq.
    exists (<[ch_new c := Idle []]> (<[t := Idle []]> modes)). apply inv_call; [|done|done].
    by eapply inv_idle.
  - simplify_eq. cbn in Hsp. simplify_eq. inversion Hok; subst. exists (<[t := Idle []]> modes).
    eapply inv_idle; [done..|]. eauto.
Qed.

Lemma bg_sys_reachable_inv watches s :
  reachable sys_initial (SysStep watches) s → ∃ modes, sys_inv s modes.
Proof.
  apply (reachable_invariant _ _ (λ s, ∃ modes, sys_inv s modes)).
  - intros ? ->. exists ∅. split; cbn; [by split|done|done| |done|done].
    intros key a. rewrite lookup_empty. split; [done|]. by intros (t & md & H & _).
  - intros s' s'' [modes Hinv] Hstep.
    destruct Hstep as [m threads log t q Ht|m threads log t p c m' log' p' child threads' Ht Hact Hsp].
    + exists (<[t := Idle []]> modes). apply inv_call; [exact Hinv|exact Ht|apply bg_ok_program].
    + by eapply bg_act_inv.
Qed.

(** ** Single flight *)

(** the manager starts a worker at most once at a time, for any
    interleaving of its methods and any answers of the runner: two goroutines
    inside [Runner.Start] start workers of different keys, and no session is
    stored under a key whose worker is being started; every stored session has
    a handle and is the one of its key; and a goroutine that waits for an
    attempt is either about to be woken or waits for a goroutine that is inside
    [Runner.Start] or about to publish its result. *)
Theorem background_single_flight watches s :
  reachable sys_initial (SysStep watches) s →
  (∀ t t' owner workerID k owner' workerID' k',
     sy_threads s !! t = Some (RunnerStart owner workerID k) →
     sy_threads s !! t' = Some (RunnerStart owner' workerID' k') →
     sessionKey owner workerID = sessionKey owner' workerID' → t = t') ∧
  (∀ t owner workerID k, sy_threads s !! t = Some (RunnerStart owner workerID k) →
     mg_sessions (sy_manager s) !! sessionKey owner workerID = None) ∧
  (∀ key session, mg_sessions (sy_manager s) !! key = Some session →
     bs_Handle session ≠ "" ∧ key = sessionKey (bs_Owner session) (bs_WorkerID session)) ∧
  (∀ t a k, sy_threads s !! t = Some (Await a k) →
     ∃ at_, mg_attempts (sy_manager s) !! a = Some at_ ∧
       (sa_done at_ = true ∨
        ∃ t' key p, mg_starting (sy_manager s) !! key = Some a ∧ sy_threads s !! t' = Some p ∧
          ((∃ owner workerID k', p = RunnerStart owner workerID k' ∧ key = sessionKey owner workerID) ∨
           ∃ f, p = Section_ f))).
Proof.
  intros [modes Hinv]%bg_sys_reachable_inv. pose proof Hinv as [Hmo Hth Hms Hst Hun Hkn].
  assert (∀ t owner workerID k, sy_threads s !! t = Some (RunnerStart owner workerID k) →
    ∃ a, modes !! t = Some (Starting (sessionKey owner workerID) a)) as Hstart.
  { intros t owner workerID k Ht. destruct (Hth _ _ Ht) as (md & Hm & Hok). inversion Hok; subst. eauto. }
  split_and!.
  - intros t t' owner workerID k owner' workerID' k' [a Ha]%Hstart [a' Ha']%Hstart Heq.
    eapply (Hun t t'); [done|done|by left|rewrite Heq; by left].
  - intros t owner workerID k [a Ha]%Hstart. eapply (mo_exclusive _ Hmo), Hst.
    do 2 eexists. split; [done|by left].
  - apply (mo_sessions _ Hmo).
  - intros t a k Ht. destruct (Hth _ _ Ht) as (md & Hm & Hok). inversion Hok; subst.
    destruct (Hkn _ _ a Hm) as [at_ Hat]; [left|]. exists at_. split; [done|].
    destruct (sa_done at_) eqn:Hd; [by left|right].
    destruct (mo_done _ Hmo _ _ Hat Hd) as [key Hkey]. pose proof Hkey as Hkey'.
    apply Hst in Hkey as (t' & md & Hmd & Hs).
    destruct (sy_threads s !! t') as [p|] eqn:Hp; [|by rewrite (Hms _ Hp) in Hmd].
    exists t', key, p. split_and!; [done|done|]. destruct (Hth _ _ Hp) as (md' & Hmd' & Hok').
    assert (md' = md) as -> by congruence.
    destruct Hs as [->| ->]; inversion Hok'; subst; [left; eauto|right; eauto].
Qed.

(** ** Runs *)

Inductive Cmd := Call (t : nat) (q : Request) | Act (t : nat) (c : Choice).

Fixpoint exec (watches : bool) (s : System) (cmds : list Cmd) : option System :=
  match cmds with
  | [] => Some s
  | Call t q :: cmds =>
     match sy_threads s !! t with
     | Some _ => None
     | None =>
        exec watches (mkSystem (sy_manager s) (<[t := program watches q]> (sy_threads s)) (sy_log s)) cmds
     end
  | Act t c :: cmds =>
     p ← sy_threads s !! t;
     '(m', log', p', child) ← act c (sy_manager s) (sy_log s) p;
     threads' ← spawned (<[t := p']> (sy_threads s)) (ch_new c) child;
     exec watches (mkSystem m' threads' log') cmds
  end.

Lemma bg_exec_sound watches cmds : ∀ s s', exec watches s cmds = Some s' → rtc (SysStep watches) s s'.
Proof.
  induction cmds as [|[t q|t c] cmds IH]; intros s s' H; cbn in H.
  - simplify_eq. apply rtc_refl.
  - destruct (sy_threads s !! t) eqn:Ht; [done|]. eapply rtc_l; [|by apply IH]. destruct s. by apply sys_call.
  - destruct (sy_threads s !! t) as [p|] eqn:Ht; [|done]. cbn in H.
    destruct (act c _ _ p) as [[[[m' log'] p'] child]|] eqn:Hact; [|done]. cbn in H.
    destruct (spawned _ _ _) as [threads'|] eqn:Hsp; [|done]. cbn in H.
    eapply rtc_l; [|by apply IH]. destruct s. by eapply sys_act.
Qed.

Definition start_system : System := mkSystem NewManager ∅ [].

Definition state_after (cmds : list Cmd) : System := default start_system (exec false start_system cmds).

Lemma bg_state_after_reachable cmds : reachable sys_initial (SysStep false) (state_after cmds).
Proof.
  exists start_system. split; [done|]. unfold state_after.
  destruct (exec false start_system cmds) as [s|] eqn:E; [by eapply bg_exec_sound|apply rtc_refl].
Qed.

Definition sample_owner : Owner := mkOwner "plugin" "user" "environment".
Definition sample_entry : Entry := mkEntry "worker" OnDemand.
Definition sample_session (handle : string) : Session := mkSession handle sample_owner "worker".
Definition answer (handle : string) : Choice := mkChoice None (sample_session handle) None true 0.

Definition started_run : list Cmd :=
  [Call 0 (ReqStart sample_owner sample_entry); Act 0 (answer "a"); Act 0 (answer "a"); Act 0 (answer "a")].

Lemma background_single_flight_witness :
  bs_Handle (sample_session "a") ≠ "" ∧
  sessionKey sample_owner "worker" = sessionKey (bs_Owner (sample_session "a")) (bs_WorkerID (sample_session "a")).
Proof.
  apply (background_single_flight false (state_after started_run) (bg_state_after_reachable _)).
  vm_compute. reflexivity.
Defined.

(** A start that is inside the runner when [Shutdown] begins. *)
Definition shutdown_run : list Cmd :=
  [Call 0 (ReqStart sample_owner sample_entry); Act 0 (answer "a");
   Call 1 ReqShutdown; Act 1 (answer "");
   Act 0 (answer "a"); Act 0 (answer "a"); Act 0 (answer "a");
   Act 1 (answer ""); Act 1 (answer "")].

(** [Shutdown] waits for the start in flight, which sees that the manager is
    closed; but the runner is told to stop the zero session, because
    [stopSession] points to the variable that was cleared. Every call has
    returned, and the session the runner started was never stopped. *)
Lemma shutdown_leaves_started_session :
  ∃ s, reachable sys_initial (SysStep false) s ∧
    (∀ t p, sy_threads s !! t = Some p → ∃ r, p = Ret r) ∧
    mg_closed (sy_manager s) = true ∧ mg_sessions (sy_manager s) = ∅ ∧
    sy_log s = [Started (sample_session "a"); Stopped zeroSession].
Proof.
  exists (state_after shutdown_run). split; [apply bg_state_after_reachable|].
  assert (∃ a b, sy_threads (state_after shutdown_run) = {[0 := Ret a; 1 := Ret b]}) as (a & b & Hth)
    by (vm_compute; do 2 eexists; reflexivity).
  split_and!; [|vm_compute; reflexivity..]. intros t p. rewrite Hth.
  intros [[_ <-]|[_ [_ <-]%lookup_singleton_Some]]%lookup_insert_Some; eauto.
Qed.

(** Two calls of [Stop] find the same session; between them the worker is
    started again. *)
Definition stop_run : list Cmd :=
  [Call 0 (ReqStart sample_owner sample_entry); Act 0 (answer "a"); Act 0 (answer "a"); Act 0 (answer "a");
   Call 1 (ReqStop sample_owner "worker"); Act 1 (answer "");
   Call 2 (ReqStop sample_owner "worker"); Act 2 (answer "");
   Act 1 (answer ""); Act 1 (answer ""); Act 2 (answer "");
   Call 3 (ReqStart sample_owner sample_entry); Act 3 (answer "b"); Act 3 (answer "b"); Act 3 (answer "b");
   Act 2 (answer "")].

(** [Stop] deletes the key whatever session is stored under it by then: the
    second session is forgotten while it runs. *)
Lemma stop_forgets_newer_session :
  ∃ s, reachable sys_initial (SysStep false) s ∧
    (∀ t p, sy_threads s !! t = Some p → ∃ r, p = Ret r) ∧ mg_sessions (sy_manager s) = ∅ ∧
    sy_log s = [Started (sample_session "a"); Stopped (sample_session "a"); Stopped (sample_session "a");
                Started (sample_session "b")].
Proof.
  exists (state_after stop_run). split; [apply bg_state_after_reachable|].
  assert (∃ a b c d, sy_threads (state_after stop_run) = {[0 := Ret a; 1 := Ret b; 2 := Ret c; 3 := Ret d]})
    as (a & b & c & d & Hth) by (vm_compute; do 4 eexists; reflexivity).
  split_and!; [|vm_compute; reflexivity..]. intros t p. rewrite Hth. clear Hth.
  rewrite !lookup_insert_Some, lookup_singleton_Some. clear. naive_solver.
Qed.

(** C40: two ways to lose a worker. There is a run of one [Start] and one
    [Shutdown] after which both have returned, the manager is closed, and the
    session the runner started was never stopped: [Stop] was called with the
    zero session. And there is a run of starts and stops after which all have
    returned, the manager knows no session, and the session that was started
    last runs. *)
Theorem background_lost_sessions :
  (∃ s, reachable sys_initial (SysStep false) s ∧
    (∀ t p, sy_threads s !! t = Some p → ∃ r, p = Ret r) ∧
    mg_closed (sy_manager s) = true ∧ mg_sessions (sy_manager s) = ∅ ∧
    sy_log s = [Started (sample_session "a"); Stopped zeroSession]) ∧
  (∃ s, reachable sys_initial (SysStep false) s ∧
    (∀ t p, sy_threads s !! t = Some p → ∃ r, p = Ret r) ∧ mg_sessions (sy_manager s) = ∅ ∧
    sy_log s = [Started (sample_session "a"); Stopped (sample_session "a"); Stopped (sample_session "a");
                Started (sample_session "b")]).
Proof. split; [apply shutdown_leaves_started_session|apply stop_forgets_newer_session]. Qed.
