(* ===== verification/Encoding.v ===== *)
(** * encoding/base64 and encoding/json, as far as the components use them

    The standard base64 alphabet with padding, in both directions, and the
    text [json.Marshal] writes for a struct of strings, integers and string
    lists. *)

From Stdlib Require Import ZifyNat.
From stdpp Require Import pretty.
From S2P Require Import Prelude GoLib.

Open Scope go_scope.

Notation bytes := (list Ascii.ascii).

(** ** Base64 *)

(** The standard alphabet. *)
Definition std_digit (n : nat) : Ascii.ascii :=
  byte (if n <? 26 then 65 + n else if n <? 52 then 71 + n else if n <? 62 then n - 4
        else if n =? 62 then 43 else 47).

Definition std_value (c : Ascii.ascii) : option nat :=
  let n := Ascii.nat_of_ascii c in
  if (65 <=? n) && (n <=? 90) then Some (n - 65)
  else if (97 <=? n) && (n <=? 122) then Some (n - 71)
  else if (48 <=? n) && (n <=? 57) then Some (n + 4)
  else if n =? 43 then Some 62
  else if n =? 47 then Some 63
  else None.

Definition pad : Ascii.ascii := byte 61.

(** [base64.StdEncoding.EncodeToString]. *)
Fixpoint std_encode (s : bytes) : bytes :=
  let n := Ascii.nat_of_ascii in
  match s with
  | a :: b :: c :: rest =>
     std_digit (n a / 4) :: std_digit (n a mod 4 * 16 + n b / 16) ::
     std_digit (n b mod 16 * 4 + n c / 64) :: std_digit (n c mod 64) :: std_encode rest
  | [a; b] => [std_digit (n a / 4); std_digit (n a mod 4 * 16 + n b / 16); std_digit (n b mod 16 * 4); pad]
  | [a] => [std_digit (n a / 4); std_digit (n a mod 4 * 16); pad; pad]
  | [] => []
  end.

(** The groups of four digits of [base64.StdEncoding.DecodeString]; trailing
    bits that no byte uses are not checked. *)
Fixpoint std_groups (s : bytes) : option bytes :=
  match s with
  | [] => Some []
  | a :: b :: c :: d :: rest =>
     x ← std_value a; y ← std_value b;
     if bool_decide (rest = [] ∧ c = pad ∧ d = pad) then Some [byte (x * 4 + y / 16)]
     else
       z ← std_value c;
       if bool_decide (rest = [] ∧ d = pad) then Some [byte (x * 4 + y / 16); byte (y mod 16 * 16 + z / 4)]
       else
         w ← std_value d; out ← std_groups rest;
         Some (byte (x * 4 + y / 16) :: byte (y mod 16 * 16 + z / 4) :: byte (z mod 4 * 64 + w) :: out)
  | _ => None
  end.

(** Carriage returns and line feeds are skipped. *)
Definition std_decode (s : string) : option string :=
  String.string_of_list_ascii <$>
    std_groups (filter (λ c, ¬ (is_byte 10 c = true ∨ is_byte 13 c = true)) (String.list_ascii_of_string s)).

Definition std_encode_string (s : string) : string :=
  String.string_of_list_ascii (std_encode (String.list_ascii_of_string s)).

(** [strings.TrimPrefix] and [strings.HasPrefix]. *)
Fixpoint strip_prefix (prefix s : bytes) : option bytes :=
  match prefix, s with
  | [], _ => Some s
  | p :: prefix, c :: s => if bool_decide (p = c) then strip_prefix prefix s else None
  | _ :: _, [] => None
  end.

(** ** UTF-8 *)

Definition continuation (c : Ascii.ascii) : bool := byte_in 128 191 c.

(** The length of the rune the bytes start with, [None] when they start with
    no valid encoding; [utf8.DecodeRune] then consumes one byte. *)
Definition rune_length (s : bytes) : option nat :=
  match s with
  | [] => None
  | a :: s =>
     if byte_in 0 127 a then Some 1
     else match s with
     | [] => None
     | b :: s =>
        if byte_in 194 223 a && continuation b then Some 2
        else match s with
        | [] => None
        | c :: s =>
           if (is_byte 224 a && byte_in 160 191 b || byte_in 225 236 a && continuation b ||
               is_byte 237 a && byte_in 128 159 b || byte_in 238 239 a && continuation b) && continuation c
           then Some 3
           else match s with
           | [] => None
           | d :: _ =>
              if (is_byte 240 a && byte_in 144 191 b || byte_in 241 243 a && continuation b ||
                  is_byte 244 a && byte_in 128 143 b) && continuation c && continuation d
              then Some 4
              else None
           end
        end
     end
  end.

(** ** JSON text *)

Definition text (s : string) : bytes := String.list_ascii_of_string s.

Definition backslash : Ascii.ascii := byte 92.
Definition dquote : Ascii.ascii := byte 34.

(** A byte below 128 in a string, as [json.Marshal] writes it, with the
    characters that are special in HTML escaped. *)
Definition json_ascii (c : Ascii.ascii) : bytes :=
  let n := Ascii.nat_of_ascii c in
  if (n =? 34) || (n =? 92) then [backslash; c]
  else if n =? 8 then [backslash; byte 98]
  else if n =? 12 then [backslash; byte 102]
  else if n =? 10 then [backslash; byte 110]
  else if n =? 13 then [backslash; byte 114]
  else if n =? 9 then [backslash; byte 116]
  else if (n <? 32) || (n =? 60) || (n =? 62) || (n =? 38) then
    backslash :: text "u00" ++ [hex_digit (n / 16); hex_digit (n mod 16)]
  else [c].

(** The runes of a string; the fuel is its length. An invalid byte is written
    as U+FFFD, and U+2028 and U+2029 are escaped. *)
Fixpoint json_runes (fuel : nat) (s : bytes) : bytes :=
  match fuel, s with
  | O, _ | _, [] => []
  | S fuel, c :: rest =>
     match rune_length s with
     | None => (backslash :: text "ufffd") ++ json_runes fuel rest
     | Some 1 => json_ascii c ++ json_runes fuel rest
     | Some n =>
        (if bool_decide (take n s = [byte 226; byte 128; byte 168]) then backslash :: text "u2028"
         else if bool_decide (take n s = [byte 226; byte 128; byte 169]) then backslash :: text "u2029"
         else take n s) ++ json_runes fuel (drop n s)
     end
  end.

Definition json_string (s : string) : bytes :=
  dquote :: json_runes (String.length s) (text s) ++ [dquote].

Inductive JSONValue :=
| JString (s : string)
| JInt (n : Z)
| JStrings (l : list string)
| JStruct (fields : list (string * JSONValue)).

Fixpoint join (sep : bytes) (l : list bytes) : bytes :=
  match l with
  | [] => []
  | [x] => x
  | x :: l => x ++ sep ++ join sep l
  end.

Fixpoint json_value (v : JSONValue) : bytes :=
  match v with
  | JString s => json_string s
  | JInt n => text (pretty n)
  | JStrings l => text "[" ++ join (text ",") (json_string <$> l) ++ text "]"
  | JStruct fields =>
     let field '(name, v) := json_string name ++ text ":" ++ json_value v in
     text "{" ++ join (text ",") (map field fields) ++ text "}"
  end.

(** [json.Marshal]. *)
Definition json_marshal (v : JSONValue) : string := String.string_of_list_ascii (json_value v).

(** A field with [omitempty]. *)
Definition omit_empty (name s : string) : list (string * JSONValue) :=
  if bool_decide (s = "") then [] else [(name, JString s)].

(** ** Lemmas *)

Lemma below_64 (p : nat → bool) n : n < 64 → forallb p (seq 0 64) = true → p n = true.
Proof. intros Hn Hall. rewrite forallb_forall in Hall. apply Hall, list_elem_of_In, elem_of_seq. lia. Qed.

Lemma std_value_digit n : n < 64 → std_value (std_digit n) = Some n.
Proof.
  intros Hn. pose proof (below_64 (λ n, bool_decide (std_value (std_digit n) = Some n)) n Hn) as H.
  by rewrite bool_decide_eq_true in H; apply H; vm_compute.
Qed.

(** A printable ASCII character. *)
Definition graphic (c : Ascii.ascii) : Prop := (33 ≤ Ascii.nat_of_ascii c ≤ 126)%nat.

Lemma std_digit_graphic n : n < 64 → graphic (std_digit n) ∧ std_digit n ≠ pad.
Proof.
  intros Hn.
  pose proof (below_64 (λ n, bool_decide (33 ≤ Ascii.nat_of_ascii (std_digit n)) &&
    bool_decide (Ascii.nat_of_ascii (std_digit n) ≤ 126) && bool_decide (std_digit n ≠ pad)) n Hn) as H.
  cbn beta in H. rewrite !andb_true_iff, !bool_decide_eq_true in H. unfold graphic. tauto.
Qed.

Lemma byte_of_nat c n : n = Ascii.nat_of_ascii c → byte n = c.
Proof. intros ->. apply Ascii.ascii_nat_embedding. Qed.

Lemma nat_of_ascii_small c : Ascii.nat_of_ascii c < 256.
Proof. apply Ascii.nat_ascii_bounded. Qed.

(** The digits of three bytes are below 64 and give the bytes back. *)
Lemma triple_digits a b c :
  a < 256 → b < 256 → c < 256 →
  (a / 4 < 64 ∧ a mod 4 * 16 + b / 16 < 64 ∧ b mod 16 * 4 + c / 64 < 64 ∧ c mod 64 < 64) ∧
  a / 4 * 4 + (a mod 4 * 16 + b / 16) / 16 = a ∧
  (a mod 4 * 16 + b / 16) mod 16 * 16 + (b mod 16 * 4 + c / 64) / 4 = b ∧
  (b mod 16 * 4 + c / 64) mod 4 * 64 + c mod 64 = c.
Proof. intros. repeat split; zify; Z.to_euclidean_division_equations; lia. Qed.

Lemma bytes_triple_ind (P : bytes → Prop) :
  P [] → (∀ a, P [a]) → (∀ a b, P [a; b]) → (∀ a b c s, P s → P (a :: b :: c :: s)) → ∀ s, P s.
Proof.
  intros H0 H1 H2 H3. fix IH 1. intros [|a [|b [|c s]]]; [done|done|done|]. apply H3, IH.
Qed.

Lemma std_groups_encode s : std_groups (std_encode s) = Some s.
Proof.
  induction s as [|a|a b|a b c s IH] using bytes_triple_ind; cbn [std_encode std_groups].
  - done.
  - destruct (triple_digits (Ascii.nat_of_ascii a) 0 0) as ((H1 & H2 & _) & Ha & _);
      [apply nat_of_ascii_small|lia|lia|]. rewrite Nat.Div0.div_0_l, Nat.add_0_r in H2, Ha.
    rewrite !std_value_digit by done. cbn [mbind option_bind]. rewrite bool_decide_eq_true_2 by done.
    by rewrite (byte_of_nat a).
  - destruct (triple_digits (Ascii.nat_of_ascii a) (Ascii.nat_of_ascii b) 0) as ((H1 & H2 & H3 & _) & Ha & Hb & _);
      [apply nat_of_ascii_small..|lia|]. rewrite Nat.Div0.div_0_l, Nat.add_0_r in H3, Hb.
    destruct (std_digit_graphic _ H3) as [_ Hp].
    rewrite !std_value_digit by done. cbn [mbind option_bind].
    rewrite bool_decide_eq_false_2 by naive_solver. rewrite bool_decide_eq_true_2 by done.
    by rewrite (byte_of_nat a), (byte_of_nat b).
  - destruct (triple_digits (Ascii.nat_of_ascii a) (Ascii.nat_of_ascii b) (Ascii.nat_of_ascii c))
      as ((H1 & H2 & H3 & H4) & Ha & Hb & Hc); [apply nat_of_ascii_small..|].
    destruct (std_digit_graphic _ H3) as [_ Hp], (std_digit_graphic _ H4) as [_ Hp'].
    rewrite !std_value_digit by done. cbn [mbind option_bind].
    rewrite !bool_decide_eq_false_2 by naive_solver. rewrite IH. cbn [mbind option_bind].
    by rewrite (byte_of_nat a), (byte_of_nat b), (byte_of_nat c).
Qed.

Lemma pad_graphic : graphic pad.
Proof. unfold graphic. vm_compute. lia. Qed.

Lemma std_encode_graphic s : Forall graphic (std_encode s).
Proof.
  induction s as [|a|a b|a b c s IH] using bytes_triple_ind; cbn [std_encode].
  - done.
  - destruct (triple_digits (Ascii.nat_of_ascii a) 0 0) as ((H1 & H2 & _) & _);
      [apply nat_of_ascii_small|lia|lia|]. rewrite Nat.Div0.div_0_l, Nat.add_0_r in H2.
    rewrite !Forall_cons, Forall_nil. split_and!; try done; first [apply pad_graphic|by apply std_digit_graphic].
  - destruct (triple_digits (Ascii.nat_of_ascii a) (Ascii.nat_of_ascii b) 0) as ((H1 & H2 & H3 & _) & _);
      [apply nat_of_ascii_small..|lia|]. rewrite Nat.Div0.div_0_l, Nat.add_0_r in H3.
    rewrite !Forall_cons, Forall_nil. split_and!; try done; first [apply pad_graphic|by apply std_digit_graphic].
  - destruct (triple_digits (Ascii.nat_of_ascii a) (Ascii.nat_of_ascii b) (Ascii.nat_of_ascii c))
      as ((H1 & H2 & H3 & H4) & _); [apply nat_of_ascii_small..|].
    rewrite !Forall_cons. split_and!; try done; by apply std_digit_graphic.
Qed.

Lemma graphic_no_newline (s : bytes) :
  Forall graphic s → filter (λ c, ¬ (is_byte 10 c = true ∨ is_byte 13 c = true)) s = s.
Proof.
  induction 1 as [|c s Hc _ IH]; [done|]. rewrite filter_cons_True, IH; [done|].
  unfold is_byte, graphic in *. rewrite !bool_decide_eq_true. lia.
Qed.

(** Decoding an encoded string gives it back. *)
Lemma std_decode_encode s : std_decode (std_encode_string s) = Some s.
Proof.
  unfold std_decode, std_encode_string. rewrite list_ascii_of_list, graphic_no_newline by apply std_encode_graphic.
  rewrite std_groups_encode. cbn. f_equal. apply String.string_of_list_ascii_of_string.
Qed.

Lemma strip_prefix_app prefix s : strip_prefix prefix (prefix ++ s) = Some s.
Proof. induction prefix as [|c prefix IH]; cbn; [done|]. by rewrite bool_decide_eq_true_2. Qed.

Example json_example :
  json_marshal (JStruct [("a", JString "x<y"); ("n", JInt 12); ("l", JStrings ["p"; "q"])]) =
  String.string_of_list_ascii (text "{" ++ json_string "a" ++ text ":" ++ [dquote] ++ text "x\u003cy" ++ [dquote] ++
    text "," ++ json_string "n" ++ text ":12," ++ json_string "l" ++ text ":[" ++ json_string "p" ++ text "," ++
    json_string "q" ++ text "]}").
Proof. vm_compute. reflexivity. Qed.
