(* ===== verification/Lease.v ===== *)
(** * internal/runtimeclient: runtime execution leases

    [lease_signature.go]: the fields of a lease that are signed, the checks on
    them, signing and verification. [lease_replay.go]: the store that lets a
    lease be used once. SHA-256, Ed25519 and the keyring are parameters. *)

From S2P Require Import Prelude GoLib SessionCtx Encoding.

Open Scope go_scope.

Inductive LeaseErr :=
| ErrRuntimeLeaseInvalid | ErrRuntimeLeaseReplay
| ErrRuntimeLeaseSigningKeyNotFound | ErrRuntimeLeaseSigningKeyRevoked | ErrRuntimeLeasePublicKeyInvalid
| ErrRuntimeLeaseSignatureRequired | ErrRuntimeLeaseSignatureInvalid
| PrivateKeyInvalid | LeaseCtx (e : CtxErr).

#[export] Instance LeaseErr_eq_dec : EqDecision LeaseErr.
Proof. solve_decision. Defined.

Record LeaseLimits := mkLeaseLimits {
  ll_TimeoutMillis : Z;
  ll_MemoryBytes : Z;
  ll_MaxPayloadBytes : Z;
  ll_MaxStreamBytesPerSecond : Z;
}.

Record Lease := mkLease {
  le_LeaseID : string;
  le_TokenID : string;
  le_LeaseNonce : string;
  le_PluginID : string;
  le_PluginVersion : string;
  le_ActiveFingerprint : string;
  le_InvocationID : string;
  le_ScopeKind : string;
  le_SurfaceInstanceID : string;
  le_OwnerSessionHash : string;
  le_OwnerUserHash : string;
  le_OwnerEnvHash : string;
  le_SessionChannelIDHash : string;
  le_BridgeChannelID : string;
  le_RuntimeGenerationID : string;
  le_PluginInstanceID : string;
  le_Method : string;
  le_Effect : string;
  le_Execution : string;
  le_ExecutionID : string;
  le_AuditCorrelationID : string;
  le_TargetDescriptorHashes : list string;
  le_Limits : LeaseLimits;
  le_PolicyRevision : Z;
  le_ManagementRevision : Z;
  le_RevokeEpoch : Z;
  le_RuntimeShardID : string;
  le_RuntimeInstanceID : string;
  le_IPCChannelID : string;
  le_ConnectionNonce : string;
  le_KeyID : string;
  le_Signature : string;
  le_IssuedAtUnixMillis : Z;
  le_ExpiresAtUnixMillis : Z;
}.

Definition RuntimeLeaseSignatureSchemaVersion := "redevplugin.runtime_execution_lease.v2".
Definition RuntimeLeaseKind := "runtime_execution_lease".
Definition RuntimeLeaseSignatureAlgorithm := "ed25519".
Definition runtimeLeaseSignaturePrefix := RuntimeLeaseSignatureAlgorithm +:+ ":".
Definition maxRuntimeLeaseMemoryBytes : Z := 256 * 1024 * 1024.

(** The Unix epoch as an instant, and the milliseconds since then. *)
Definition unix_epoch : time := (62135596800 * Second)%Z.
Definition UnixMilli (ms : Z) : time := (unix_epoch + ms * 1000000)%Z.
Definition to_UnixMilli (t : time) : Z := ((t - unix_epoch) / 1000000)%Z.

(** ** The signed fields *)

Definition runtimeLeaseSignatureMethod (lease : Lease) (method : string) : string :=
  let trimmed := TrimSpace method in
  if negb (bool_decide (trimmed = "")) then trimmed else TrimSpace (le_Method lease).

(** The loop over the target descriptor hashes. *)
Fixpoint targetsValid (targets : list string) (seenTargets : gset string) : bool :=
  match targets with
  | [] => true
  | target :: targets =>
     let target := TrimSpace target in
     if bool_decide (target = "") then false
     else if bool_decide (target ∈ seenTargets) then false
     else targetsValid targets ({[target]} ∪ seenTargets)
  end.

Definition executionValid (lease : Lease) : bool :=
  let execution := TrimSpace (le_Execution lease) in
  if bool_decide (execution = "sync") then bool_decide (TrimSpace (le_ExecutionID lease) = "")
  else if bool_decide (execution ∈ ["operation"; "subscription"])
  then negb (bool_decide (TrimSpace (le_ExecutionID lease) = ""))
  else false.

(** [uint64(x) > jsonvalue.MaxSafeInteger]; the conversion of an int64. *)
Definition unsafeInteger (x : Z) : bool := (MaxSafeInteger <? u64 x)%Z.

Definition limitsInvalid (lease : Lease) : bool :=
  let limits := le_Limits lease in
  (ll_TimeoutMillis limits <? 0)%Z || unsafeInteger (ll_TimeoutMillis limits) ||
  (ll_MemoryBytes limits <=? 0)%Z || (maxRuntimeLeaseMemoryBytes <? ll_MemoryBytes limits)%Z ||
  (ll_MaxPayloadBytes limits <? 0)%Z || unsafeInteger (ll_MaxPayloadBytes limits) ||
  (ll_MaxStreamBytesPerSecond limits <? 0)%Z || unsafeInteger (ll_MaxStreamBytesPerSecond limits) ||
  (le_IssuedAtUnixMillis lease <=? 0)%Z || unsafeInteger (le_IssuedAtUnixMillis lease) ||
  (le_ExpiresAtUnixMillis lease <=? 0)%Z || unsafeInteger (le_ExpiresAtUnixMillis lease) ||
  negb (IsSafeUnsignedInteger (le_PolicyRevision lease)) ||
  negb (IsSafeUnsignedInteger (le_ManagementRevision lease)) ||
  negb (IsPositiveSafeUnsignedInteger (le_RevokeEpoch lease)) ||
  (le_ExpiresAtUnixMillis lease <=? le_IssuedAtUnixMillis lease)%Z.

Definition validateRuntimeLeaseCanonicalFields (lease : Lease) (resolvedMethod : string) : Result LeaseErr unit :=
  let leaseNonce := TrimSpace (le_LeaseNonce lease) in
  let connectionNonce := TrimSpace (le_ConnectionNonce lease) in
  let required := [le_LeaseID lease; le_TokenID lease; leaseNonce; le_PluginID lease; le_PluginVersion lease;
    le_ActiveFingerprint lease; le_InvocationID lease; le_PluginInstanceID lease; resolvedMethod;
    le_Effect lease; le_Execution lease; le_AuditCorrelationID lease; le_OwnerEnvHash lease;
    le_RuntimeShardID lease; le_RuntimeInstanceID lease; le_RuntimeGenerationID lease;
    le_IPCChannelID lease; connectionNonce; le_KeyID lease] in
  if existsb (λ value, bool_decide (TrimSpace value = "")) required then Err ErrRuntimeLeaseInvalid
  else if negb (bool_decide (le_ScopeKind lease = ScopeUser)) &&
          negb (bool_decide (le_ScopeKind lease = ScopeEnvironment)) then Err ErrRuntimeLeaseInvalid
  else if bool_decide (TrimSpace (le_OwnerUserHash lease) = "") then Err ErrRuntimeLeaseInvalid
  else if (len leaseNonce <? 16)%Z || (len connectionNonce <? 16)%Z then Err ErrRuntimeLeaseInvalid
  else if negb (bool_decide (TrimSpace (le_Effect lease) ∈ ["read"; "write"; "execute"; "delete"; "admin"]))
  then Err ErrRuntimeLeaseInvalid
  else if negb (executionValid lease) then Err ErrRuntimeLeaseInvalid
  else if bool_decide (le_TargetDescriptorHashes lease = []) then Err ErrRuntimeLeaseInvalid
  else if negb (targetsValid (le_TargetDescriptorHashes lease) ∅) then Err ErrRuntimeLeaseInvalid
  else if limitsInvalid lease then Err ErrRuntimeLeaseInvalid
  else Ok tt.

Definition limits_json (limits : LeaseLimits) : JSONValue :=
  JStruct [("timeout_ms", JInt (ll_TimeoutMillis limits)); ("memory_bytes", JInt (ll_MemoryBytes limits));
           ("max_payload_bytes", JInt (ll_MaxPayloadBytes limits));
           ("max_stream_bytes_per_sec", JInt (ll_MaxStreamBytesPerSecond limits))].

(** [runtimeLeaseSignaturePayload] with its field tags. *)
Definition signaturePayload (lease : Lease) (resolvedMethod : string) : JSONValue :=
  let str name value := (name, JString (TrimSpace value)) in
  JStruct (
    [("schema_version", JString RuntimeLeaseSignatureSchemaVersion); ("token_kind", JString RuntimeLeaseKind);
     str "lease_id" (le_LeaseID lease); str "token_id" (le_TokenID lease); str "lease_nonce" (le_LeaseNonce lease);
     str "plugin_instance_id" (le_PluginInstanceID lease); str "plugin_id" (le_PluginID lease);
     str "plugin_version" (le_PluginVersion lease); str "active_fingerprint" (le_ActiveFingerprint lease);
     str "invocation_id" (le_InvocationID lease); ("scope_kind", JString (le_ScopeKind lease));
     ("issued_at_unix_ms", JInt (le_IssuedAtUnixMillis lease)); ("method", JString resolvedMethod);
     str "effect" (le_Effect lease); str "execution" (le_Execution lease)] ++
    omit_empty "execution_id" (TrimSpace (le_ExecutionID lease)) ++
    [str "audit_correlation_id" (le_AuditCorrelationID lease)] ++
    omit_empty "surface_instance_id" (TrimSpace (le_SurfaceInstanceID lease)) ++
    omit_empty "owner_session_hash" (TrimSpace (le_OwnerSessionHash lease)) ++
    omit_empty "owner_user_hash" (TrimSpace (le_OwnerUserHash lease)) ++
    omit_empty "owner_env_hash" (TrimSpace (le_OwnerEnvHash lease)) ++
    omit_empty "session_channel_id_hash" (TrimSpace (le_SessionChannelIDHash lease)) ++
    omit_empty "bridge_channel_id" (TrimSpace (le_BridgeChannelID lease)) ++
    [("target_descriptor_hashes", JStrings (le_TargetDescriptorHashes lease));
     ("limits", limits_json (le_Limits lease)); ("policy_revision", JInt (le_PolicyRevision lease));
     ("management_revision", JInt (le_ManagementRevision lease)); ("revoke_epoch", JInt (le_RevokeEpoch lease));
     ("expires_at_unix_ms", JInt (le_ExpiresAtUnixMillis lease));
     str "runtime_shard_id" (le_RuntimeShardID lease); str "runtime_instance_id" (le_RuntimeInstanceID lease);
     str "runtime_generation_id" (le_RuntimeGenerationID lease); str "ipc_channel_id" (le_IPCChannelID lease);
     str "connection_nonce" (le_ConnectionNonce lease); str "key_id" (le_KeyID lease)]).

Definition CanonicalRuntimeLeaseSignaturePayload (lease : Lease) (method : string) : Result LeaseErr string :=
  let resolvedMethod := runtimeLeaseSignatureMethod lease method in
  if negb (bool_decide (le_Method lease = "")) && negb (bool_decide (method = "")) &&
     negb (bool_decide (TrimSpace (le_Method lease) = TrimSpace method)) then Err ErrRuntimeLeaseSignatureInvalid
  else
    let? _ := validateRuntimeLeaseCanonicalFields lease resolvedMethod in
    Ok (json_marshal (signaturePayload lease resolvedMethod)).

Definition validateRuntimeLeaseSignatureInput (lease : Lease) (method : string) (now : time) : Result LeaseErr unit :=
  if bool_decide (TrimSpace (le_Signature lease) = "") then Err ErrRuntimeLeaseSignatureRequired
  else
    let? _ := validateRuntimeLeaseCanonicalFields lease (runtimeLeaseSignatureMethod lease method) in
    if (le_ExpiresAtUnixMillis lease <=? to_UnixMilli (UTC now))%Z then Err ErrRuntimeLeaseInvalid else Ok tt.

Definition decodeRuntimeLeaseSignature (value : string) : Result LeaseErr string :=
  match strip_prefix (text runtimeLeaseSignaturePrefix) (text (TrimSpace value)) with
  | None => Err ErrRuntimeLeaseSignatureInvalid
  | Some rest =>
     match std_decode (String.string_of_list_ascii rest) with
     | None => Err ErrRuntimeLeaseSignatureInvalid
     | Some signature =>
        if negb (len signature =? 64)%Z then Err ErrRuntimeLeaseSignatureInvalid else Ok signature
     end
  end.

(** ** Keys *)

Record RuntimeLeasePublicKey := mkPublicKey {
  pk_Algorithm : string;
  pk_KeyID : string;
  pk_PublicKeyBase64 : string;
}.

Definition RuntimeLeasePublicKeyFromEd25519 (keyID publicKey : string) : Result LeaseErr RuntimeLeasePublicKey :=
  if negb (len publicKey =? 32)%Z then Err ErrRuntimeLeasePublicKeyInvalid
  else Ok (mkPublicKey RuntimeLeaseSignatureAlgorithm (TrimSpace keyID) (std_encode_string publicKey)).

Fixpoint normalizeKeys (keys : list RuntimeLeasePublicKey) (seen : gset string) :
    Result LeaseErr (list RuntimeLeasePublicKey) :=
  match keys with
  | [] => Ok []
  | key :: keys =>
     let keyID := TrimSpace (pk_KeyID key) in
     let algorithm := TrimSpace (pk_Algorithm key) in
     let algorithm := if bool_decide (algorithm = "") then RuntimeLeaseSignatureAlgorithm else algorithm in
     if bool_decide (keyID = "") || negb (bool_decide (algorithm = RuntimeLeaseSignatureAlgorithm))
     then Err ErrRuntimeLeasePublicKeyInvalid
     else if bool_decide (keyID ∈ seen) then Err ErrRuntimeLeasePublicKeyInvalid
     else match std_decode (TrimSpace (pk_PublicKeyBase64 key)) with
     | None => Err ErrRuntimeLeasePublicKeyInvalid
     | Some raw =>
        if negb (len raw =? 32)%Z then Err ErrRuntimeLeasePublicKeyInvalid
        else
          let? rest := normalizeKeys keys ({[keyID]} ∪ seen) in
          Ok (mkPublicKey algorithm keyID (std_encode_string raw) :: rest)
     end
  end.

Definition NormalizeRuntimeLeasePublicKeys (keys : list RuntimeLeasePublicKey) :
    Result LeaseErr (list RuntimeLeasePublicKey) :=
  normalizeKeys keys ∅.

Record RuntimeLeaseSigningKeyLookupRequest := mkKeyLookup {
  kl_KeyID : string;
  kl_RuntimeShardID : string;
  kl_RuntimeInstanceID : string;
  kl_RuntimeGenerationID : string;
  kl_IPCChannelID : string;
  kl_ConnectionNonce : string;
  kl_PluginInstanceID : string;
  kl_Method : string;
}.

Record RuntimeLeaseSigningKey := mkSigningKey {
  sk_KeyID : string;
  sk_PublicKey : string;
  sk_RuntimeShardID : string;
  sk_RuntimeInstanceID : string;
  sk_RuntimeGenerationID : string;
  sk_IPCChannelID : string;
  sk_ConnectionNonce : string;
  sk_Revoked : bool;
}.

(** The conditions under which the static keyring skips a key. *)
Definition keySkipped (req : RuntimeLeaseSigningKeyLookupRequest) (key : RuntimeLeaseSigningKey) : bool :=
  let differs bound value := negb (bool_decide (bound = "")) && negb (bool_decide (bound = value)) in
  negb (bool_decide (sk_KeyID key = kl_KeyID req)) ||
  differs (sk_RuntimeShardID key) (kl_RuntimeShardID req) ||
  differs (sk_RuntimeInstanceID key) (kl_RuntimeInstanceID req) ||
  differs (sk_RuntimeGenerationID key) (kl_RuntimeGenerationID req) ||
  differs (sk_IPCChannelID key) (kl_IPCChannelID req) ||
  differs (sk_ConnectionNonce key) (kl_ConnectionNonce req).

(** [StaticRuntimeLeaseSigningKeyring]. *)
Definition LookupRuntimeLeaseSigningKey (keys : list RuntimeLeaseSigningKey) (ctxErr : option CtxErr)
    (req : RuntimeLeaseSigningKeyLookupRequest) : Result LeaseErr RuntimeLeaseSigningKey :=
  match ctxErr with
  | Some e => Err (LeaseCtx e)
  | None =>
     match filter (λ key, keySkipped req key = false) keys with
     | [] => Err ErrRuntimeLeaseSigningKeyNotFound
     | key :: _ => Ok key
     end
  end.

Definition keyLookup (lease : Lease) (method : string) : RuntimeLeaseSigningKeyLookupRequest :=
  mkKeyLookup (TrimSpace (le_KeyID lease)) (TrimSpace (le_RuntimeShardID lease))
    (TrimSpace (le_RuntimeInstanceID lease)) (TrimSpace (le_RuntimeGenerationID lease))
    (TrimSpace (le_IPCChannelID lease)) (TrimSpace (le_ConnectionNonce lease))
    (TrimSpace (le_PluginInstanceID lease)) (runtimeLeaseSignatureMethod lease method).

(** ** Signing and verification *)

Definition set_key (lease : Lease) (keyID signature : string) : Lease :=
  mkLease (le_LeaseID lease) (le_TokenID lease) (le_LeaseNonce lease) (le_PluginID lease) (le_PluginVersion lease)
    (le_ActiveFingerprint lease) (le_InvocationID lease) (le_ScopeKind lease) (le_SurfaceInstanceID lease)
    (le_OwnerSessionHash lease) (le_OwnerUserHash lease) (le_OwnerEnvHash lease) (le_SessionChannelIDHash lease)
    (le_BridgeChannelID lease) (le_RuntimeGenerationID lease) (le_PluginInstanceID lease) (le_Method lease)
    (le_Effect lease) (le_Execution lease) (le_ExecutionID lease) (le_AuditCorrelationID lease)
    (le_TargetDescriptorHashes lease) (le_Limits lease) (le_PolicyRevision lease) (le_ManagementRevision lease)
    (le_RevokeEpoch lease) (le_RuntimeShardID lease) (le_RuntimeInstanceID lease) (le_IPCChannelID lease)
    (le_ConnectionNonce lease) keyID signature (le_IssuedAtUnixMillis lease) (le_ExpiresAtUnixMillis lease).

Section signatures.
Context (ed25519_Sign : string → string → string) (ed25519_Verify : string → string → string → bool).
Context (lookup_key : option CtxErr → RuntimeLeaseSigningKeyLookupRequest → Result LeaseErr RuntimeLeaseSigningKey).

Definition SignRuntimeLease (lease : Lease) (method keyID privateKey : string) : Result LeaseErr Lease :=
  if negb (len privateKey =? 64)%Z then Err PrivateKeyInvalid
  else
    let lease := set_key lease (TrimSpace keyID) "" in
    let? payload := CanonicalRuntimeLeaseSignaturePayload lease method in
    Ok (set_key lease (le_KeyID lease)
          (runtimeLeaseSignaturePrefix +:+ std_encode_string (ed25519_Sign privateKey payload))).

Definition VerifyRuntimeLease (ctxErr : option CtxErr) (wall : time) (lease : Lease) (method : string) (now : time) :
    Result LeaseErr unit :=
  match ctxErr with
  | Some e => Err (LeaseCtx e)
  | None =>
     let now := or_wall wall now in
     let? _ := validateRuntimeLeaseSignatureInput lease method now in
     let? key := lookup_key ctxErr (keyLookup lease method) in
     if sk_Revoked key then Err ErrRuntimeLeaseSigningKeyRevoked
     else if negb (len (sk_PublicKey key) =? 32)%Z then Err ErrRuntimeLeasePublicKeyInvalid
     else
       let? payload := CanonicalRuntimeLeaseSignaturePayload lease method in
       let? signature := decodeRuntimeLeaseSignature (le_Signature lease) in
       if negb (ed25519_Verify (sk_PublicKey key) payload signature) then Err ErrRuntimeLeaseSignatureInvalid
       else Ok tt
  end.

End signatures.

(** ** The replay store *)

Record RuntimeLeaseReplayRecord := mkReplayRecord {
  rp_LeaseID : string;
  rp_LeaseNonceHash : string;
  rp_PluginInstanceID : string;
  rp_RuntimeGenerationID : string;
  rp_Method : string;
  rp_PolicyRevision : Z;
  rp_ManagementRevision : Z;
  rp_RevokeEpoch : Z;
  rp_ConsumedAt : time;
  rp_ExpiresAt : time;
}.

#[export] Instance RuntimeLeaseReplayRecord_eq_dec : EqDecision RuntimeLeaseReplayRecord.
Proof. solve_decision. Defined.

Notation MemoryRuntimeLeaseReplayStore := (gmap string RuntimeLeaseReplayRecord).

Definition NewMemoryRuntimeLeaseReplayStore : MemoryRuntimeLeaseReplayStore := ∅.

Definition pruneExpiredLocked (records : MemoryRuntimeLeaseReplayStore) (now : time) : MemoryRuntimeLeaseReplayStore :=
  filter (λ '(_, record), After (rp_ExpiresAt record) now = true) records.

Section replay.
Context (sha256 : string → string).

Definition runtimeLeaseReplayHash (leaseID leaseNonce : string) : string :=
  "sha256:" +:+ hex_encode (sha256 (leaseID +:+ nul +:+ leaseNonce)).

Record RuntimeLeaseReplayConsumeRequest := mkConsume {
  cn_Lease : Lease;
  cn_Method : string;
  cn_Now : time;
}.

Definition runtimeLeaseReplayRecordFromConsume (wall : time) (req : RuntimeLeaseReplayConsumeRequest) :
    Result LeaseErr RuntimeLeaseReplayRecord :=
  let lease := cn_Lease req in
  let now := or_wall wall (cn_Now req) in
  let leaseID := TrimSpace (le_LeaseID lease) in
  let leaseNonce := TrimSpace (le_LeaseNonce lease) in
  let pluginInstanceID := TrimSpace (le_PluginInstanceID lease) in
  let runtimeGenerationID := TrimSpace (le_RuntimeGenerationID lease) in
  let method := TrimSpace (cn_Method req) in
  let method := if bool_decide (method = "") then TrimSpace (le_Method lease) else method in
  if bool_decide (leaseID = "") || bool_decide (leaseNonce = "") || bool_decide (pluginInstanceID = "") ||
     bool_decide (runtimeGenerationID = "") || bool_decide (method = "") then Err ErrRuntimeLeaseInvalid
  else
    let expiresAt := UnixMilli (le_ExpiresAtUnixMillis lease) in
    if (le_ExpiresAtUnixMillis lease <=? 0)%Z || negb (After expiresAt now) then Err ErrRuntimeLeaseInvalid
    else Ok (mkReplayRecord leaseID (runtimeLeaseReplayHash leaseID leaseNonce) pluginInstanceID
               runtimeGenerationID method (le_PolicyRevision lease) (le_ManagementRevision lease)
               (le_RevokeEpoch lease) (UTC now) expiresAt).

Definition ConsumeRuntimeLease (records : MemoryRuntimeLeaseReplayStore) (ctxErr : option CtxErr) (wall : time)
    (req : RuntimeLeaseReplayConsumeRequest) :
    MemoryRuntimeLeaseReplayStore * Result LeaseErr RuntimeLeaseReplayRecord :=
  match ctxErr with
  | Some e => (records, Err (LeaseCtx e))
  | None =>
     match runtimeLeaseReplayRecordFromConsume wall req with
     | Err e => (records, Err e)
     | Ok record =>
        let records := pruneExpiredLocked records (rp_ConsumedAt record) in
        match records !! rp_LeaseNonceHash record with
        | Some _ => (records, Err ErrRuntimeLeaseReplay)
        | None => (<[rp_LeaseNonceHash record := record]> records, Ok record)
        end
     end
  end.

(** The order of [sortRuntimeLeaseReplayRecords]. *)
Definition replay_le (r1 r2 : RuntimeLeaseReplayRecord) : Prop :=
  (rp_ConsumedAt r1 < rp_ConsumedAt r2)%Z ∨
  rp_ConsumedAt r1 = rp_ConsumedAt r2 ∧ String.le (rp_LeaseID r1) (rp_LeaseID r2).

#[export] Instance replay_le_dec : RelDecision replay_le.
Proof. intros r1 r2. unfold replay_le. apply _. Defined.

Definition ListRuntimeLeaseReplays (records : MemoryRuntimeLeaseReplayStore) (ctxErr : option CtxErr) (wall : time)
    (pluginInstanceID : string) :
    MemoryRuntimeLeaseReplayStore * Result LeaseErr (list RuntimeLeaseReplayRecord) :=
  match ctxErr with
  | Some e => (records, Err (LeaseCtx e))
  | None =>
     let pluginInstanceID := TrimSpace pluginInstanceID in
     let records := pruneExpiredLocked records wall in
     let wanted record := bool_decide (pluginInstanceID = "") ||
                          bool_decide (rp_PluginInstanceID record = pluginInstanceID) in
     (records, Ok (merge_sort replay_le (filter (λ record, wanted record = true) (map_to_list records).*2)))
  end.

End replay.
