(* ===== verification/LeaseProps.v ===== *)
(** * Theorems on runtime execution leases

    A signed lease verifies until it expires, and a lease is consumed once. *)

From S2P Require Import Prelude GoLib SessionCtx Encoding Lease.

Open Scope go_scope.

(** ** Signatures *)

Lemma prefix_graphic : Forall graphic (text runtimeLeaseSignaturePrefix).
Proof. unfold graphic. vm_compute. repeat constructor; lia. Qed.

Lemma signature_text raw :
  text (runtimeLeaseSignaturePrefix +:+ std_encode_string raw) =
  text runtimeLeaseSignaturePrefix ++ std_encode (text raw).
Proof. unfold text. rewrite list_ascii_app. f_equal. unfold std_encode_string. apply list_ascii_of_list. Qed.

Lemma signature_trim raw :
  TrimSpace (runtimeLeaseSignaturePrefix +:+ std_encode_string raw) =
  runtimeLeaseSignaturePrefix +:+ std_encode_string raw.
Proof.
  apply graphic_trim. fold (text (runtimeLeaseSignaturePrefix +:+ std_encode_string raw)).
  rewrite signature_text. apply Forall_app. split; [apply prefix_graphic|apply std_encode_graphic].
Qed.

(** The signature that [SignRuntimeLease] writes is read back. *)
Lemma decode_signature raw :
  len raw = 64%Z →
  decodeRuntimeLeaseSignature (runtimeLeaseSignaturePrefix +:+ std_encode_string raw) = Ok raw.
Proof.
  intros Hlen. unfold decodeRuntimeLeaseSignature. rewrite signature_trim, signature_text, strip_prefix_app.
  pose proof (std_decode_encode raw) as Hd. unfold std_encode_string in Hd.
  change (String.list_ascii_of_string raw) with (text raw) in Hd. rewrite Hd, Hlen. done.
Qed.

(** The signature is not among the signed fields. *)
Lemma payload_signature lease keyID signature signature' method :
  CanonicalRuntimeLeaseSignaturePayload (set_key lease keyID signature) method =
  CanonicalRuntimeLeaseSignaturePayload (set_key lease keyID signature') method.
Proof. reflexivity. Qed.

Lemma payload_valid lease method payload :
  CanonicalRuntimeLeaseSignaturePayload lease method = Ok payload →
  validateRuntimeLeaseCanonicalFields lease (runtimeLeaseSignatureMethod lease method) = Ok tt.
Proof.
  unfold CanonicalRuntimeLeaseSignaturePayload. destruct (_ && _); [done|].
  by intros ([] & H & _)%rbind_ok.
Qed.

Section signatures.
Context (sign : string → string → string) (verify : string → string → string → bool).
Context (public : string → string).
Context (lookup_key : option CtxErr → RuntimeLeaseSigningKeyLookupRequest → Result LeaseErr RuntimeLeaseSigningKey).

(** Signing and verification: when Ed25519 accepts its own signatures, of
    64 bytes, under the public key of 32 bytes, every lease that
    [SignRuntimeLease] returns passes [VerifyRuntimeLease] for the same method,
    at any time before its expiry, with a keyring that finds the unrevoked
    public key. *)
Theorem signed_lease_verifies lease method keyID privateKey lease' key wall now :
  (∀ msg, verify (public privateKey) msg (sign privateKey msg) = true) →
  (∀ msg, len (sign privateKey msg) = 64%Z) → len (public privateKey) = 32%Z →
  SignRuntimeLease sign lease method keyID privateKey = Ok lease' →
  lookup_key None (keyLookup lease' method) = Ok key →
  sk_PublicKey key = public privateKey → sk_Revoked key = false →
  (to_UnixMilli (or_wall wall now) < le_ExpiresAtUnixMillis lease)%Z →
  VerifyRuntimeLease verify lookup_key None wall lease' method now = Ok tt.
Proof.
  intros Hver Hsig Hpub Hsign Hkey Hpk Hrev Hexp. unfold SignRuntimeLease in Hsign.
  destruct (_ =? 64)%Z; [|done]. cbn [negb] in Hsign.
  apply rbind_ok in Hsign as (payload & Hpay & [= <-]).
  set (signature := runtimeLeaseSignaturePrefix +:+ _) in *.
  rewrite (payload_signature _ _ _ signature) in Hpay.
  change (set_key (set_key lease (TrimSpace keyID) "") (TrimSpace keyID) signature)
    with (set_key lease (TrimSpace keyID) signature) in *.
  pose proof (payload_valid _ _ _ Hpay) as Hvalid.
  unfold VerifyRuntimeLease, validateRuntimeLeaseSignatureInput.
  change (le_Signature (set_key lease (TrimSpace keyID) signature)) with signature.
  change (le_ExpiresAtUnixMillis (set_key lease (TrimSpace keyID) signature)) with (le_ExpiresAtUnixMillis lease).
  rewrite bool_decide_eq_false_2 by (unfold signature; by rewrite signature_trim).
  rewrite Hvalid. cbn [rbind]. unfold UTC. rewrite (proj2 (Z.leb_gt _ _)) by done. cbn [rbind].
  rewrite Hkey. cbn [rbind]. rewrite Hrev, Hpk, Hpub. cbn [negb Z.eqb Pos.eqb]. rewrite Hpay. cbn [rbind].
  unfold signature. rewrite decode_signature by done. cbn [rbind]. by rewrite Hver.
Qed.

End signatures.

(** ** Replays *)

Section replay.
Context (sha256 : string → string).

Inductive Op :=
| OpConsume (ctxErr : option CtxErr) (wall : time) (req : RuntimeLeaseReplayConsumeRequest)
| OpList (ctxErr : option CtxErr) (wall : time) (pluginInstanceID : string).

(** The time at which an operation works. *)
Definition op_time (op : Op) : time :=
  match op with
  | OpConsume _ wall req => or_wall wall (cn_Now req)
  | OpList _ wall _ => wall
  end.

Definition op_step (records : MemoryRuntimeLeaseReplayStore) (op : Op) : MemoryRuntimeLeaseReplayStore :=
  match op with
  | OpConsume ctxErr wall req => (ConsumeRuntimeLease sha256 records ctxErr wall req).1
  | OpList ctxErr wall pluginInstanceID => (ListRuntimeLeaseReplays records ctxErr wall pluginInstanceID).1
  end.

(** The clock does not go back. *)
Fixpoint forward (now : time) (ops : list Op) : Prop :=
  match ops with
  | [] => True
  | op :: ops => (now ≤ op_time op)%Z ∧ forward (op_time op) ops
  end.

Definition last_time (now : time) (ops : list Op) : time := foldl (λ _ op, op_time op) now ops.

Lemma record_fields wall req record :
  runtimeLeaseReplayRecordFromConsume sha256 wall req = Ok record →
  rp_LeaseNonceHash record =
    runtimeLeaseReplayHash sha256 (TrimSpace (le_LeaseID (cn_Lease req))) (TrimSpace (le_LeaseNonce (cn_Lease req))) ∧
  rp_ConsumedAt record = or_wall wall (cn_Now req) ∧
  rp_ExpiresAt record = UnixMilli (le_ExpiresAtUnixMillis (cn_Lease req)) ∧
  (or_wall wall (cn_Now req) < rp_ExpiresAt record)%Z.
Proof.
  unfold runtimeLeaseReplayRecordFromConsume. destruct (bool_decide _ || _ || _ || _ || _); [done|].
  destruct (_ || _) eqn:He; [done|]. intros [= <-]. cbn. unfold After in He.
  apply orb_false_iff in He as [_ He%negb_false_iff%Z.ltb_lt]. done.
Qed.

(** A record with the hash that lives at least until [expiry], unless that is
    over. *)
Definition spent (hash : string) (expiry : time) (records : MemoryRuntimeLeaseReplayStore) (now : time) : Prop :=
  (expiry ≤ now)%Z ∨ ∃ record, records !! hash = Some record ∧ (expiry ≤ rp_ExpiresAt record)%Z.

Lemma spent_prune hash expiry records now now' :
  spent hash expiry records now → (now ≤ now')%Z → spent hash expiry (pruneExpiredLocked records now') now'.
Proof.
  intros [?|(record & Hr & He)] Hle; [left; lia|].
  destruct (decide (expiry ≤ now')%Z) as [|Hlt]; [by left|]. right. exists record. split; [|done].
  apply map_lookup_filter_Some. split; [done|]. apply Z.ltb_lt. lia.
Qed.

Lemma spent_later hash expiry records now now' :
  spent hash expiry records now → (now ≤ now')%Z → spent hash expiry records now'.
Proof. intros [?|?] Hle; [left; lia|by right]. Qed.

Lemma lease_spent_step hash expiry records now op :
  spent hash expiry records now → (now ≤ op_time op)%Z → spent hash expiry (op_step records op) (op_time op).
Proof.
  intros Hs Hle. destruct op as [ctxErr wall req|ctxErr wall pid]; cbn in *.
  - unfold ConsumeRuntimeLease. destruct ctxErr; [by eapply spent_later|].
    destruct (runtimeLeaseReplayRecordFromConsume sha256 wall req) as [record|] eqn:Hr; [|by eapply spent_later].
    destruct (record_fields _ _ _ Hr) as (_ & -> & Hexp & Hlt).
    pose proof (spent_prune _ _ _ _ _ Hs Hle) as Hp. destruct (pruneExpiredLocked _ _ !! _) eqn:Hin; [done|].
    cbn. destruct Hp as [?|(r & Hr' & He)]; [by left|]. right.
    destruct (decide (rp_LeaseNonceHash record = hash)) as [<-|Hne]; [congruence|].
    exists r. by rewrite lookup_insert_ne.
  - unfold ListRuntimeLeaseReplays. destruct ctxErr; [by eapply spent_later|]. by eapply spent_prune.
Qed.

Lemma lease_spent_run hash expiry ops : ∀ records now,
  spent hash expiry records now → forward now ops →
  spent hash expiry (foldl op_step records ops) (last_time now ops).
Proof.
  induction ops as [|op ops IH]; intros records now Hs Hf; [done|]. destruct Hf as [Hle Hf].
  apply IH; [by eapply lease_spent_step|done].
Qed.

Lemma consume_ok records ctxErr wall req record :
  (ConsumeRuntimeLease sha256 records ctxErr wall req).2 = Ok record ↔
  ctxErr = None ∧ runtimeLeaseReplayRecordFromConsume sha256 wall req = Ok record ∧
  ∀ old, records !! rp_LeaseNonceHash record = Some old → (rp_ExpiresAt old ≤ rp_ConsumedAt record)%Z.
Proof.
  unfold ConsumeRuntimeLease. destruct ctxErr; [naive_solver|].
  destruct (runtimeLeaseReplayRecordFromConsume sha256 wall req) as [r|] eqn:Hr; [|naive_solver].
  destruct (pruneExpiredLocked _ _ !! _) as [old|] eqn:Hin; cbn.
  - apply map_lookup_filter_Some in Hin as [Hin Hlive%Z.ltb_lt]. split; [done|].
    intros (_ & [= ->] & Hall). specialize (Hall _ Hin). cbn in *. lia.
  - split; [|by intros (_ & [= ->] & _)]. intros [= ->]. split_and!; [done|done|]. intros old Hold.
    apply map_lookup_filter_None in Hin as [?|Hdead]; [congruence|]. specialize (Hdead _ Hold). cbn in Hdead.
    unfold After in Hdead. apply not_true_is_false, Z.ltb_ge in Hdead. done.
Qed.


End replay.

(** ** Witnesses *)

Definition sample_lease : Lease :=
  mkLease "lease" "token" "nonce-0123456789" "plugin" "1.0.0" "fp" "inv" ScopeUser "" "" "user" "env" "" ""
    "gen" "instance" "run" "read" "sync" "" "audit" ["target"] (mkLeaseLimits 1000 65536 0 0) 1 1 1
    "shard" "runtime" "ipc" "conn-0123456789a" "" "" 1000 5000.

Fixpoint repeat_string (n : nat) : string := match n with O => "" | S n => "k" +:+ repeat_string n end.

Definition sample_sign (_ _ : string) : string := repeat_string 64.
Definition sample_verify (_ _ signature : string) : bool := bool_decide (signature = repeat_string 64).
Definition sample_key : RuntimeLeaseSigningKey := mkSigningKey "key" (repeat_string 32) "" "" "" "" "" false.

Definition sample_signed : Lease :=
  match SignRuntimeLease sample_sign sample_lease "run" "key" (repeat_string 64) with
  | Ok lease => lease
  | Err _ => sample_lease
  end.

Lemma signed_lease_verifies_witness :
  VerifyRuntimeLease sample_verify (LookupRuntimeLeaseSigningKey [sample_key]) None 1 sample_signed "run"
    (UnixMilli 4999) = Ok tt.
Proof.
  apply (signed_lease_verifies sample_sign sample_verify (λ _, repeat_string 32) _ sample_lease "run" "key"
           (repeat_string 64) sample_signed sample_key);
    [intros; vm_compute; reflexivity|intros; vm_compute; reflexivity|vm_compute; reflexivity..].
Defined.

Definition sample_consume (now : time) : RuntimeLeaseReplayConsumeRequest := mkConsume sample_lease "run" now.

