(* ===== verification/Json.v ===== *)
(** * encoding/json, as far as the components use it

    The UTF-8 decoder and encoder, the scanner of [encoding/json] for strings,
    numbers and literals, [Decoder.Decode] into an [any] with [UseNumber], the
    token stream ([Decoder.Token] and [Decoder.More]) with its state and stack,
    and [json.Marshal] of an [any]. [Walk] is the loop over the token stream
    that the validators of [canonicaljson] and [runtimeclient] run. *)

From Stdlib Require Import ZifyNat.
From S2P Require Import Prelude GoLib Encoding.

Open Scope go_scope.

Notation code := Ascii.nat_of_ascii.

Definition of_text (s : bytes) : string := String.string_of_list_ascii s.

(** ** UTF-8 *)

Definition zcode (c : Ascii.ascii) : Z := Z.of_nat (code c).
Definition zbyte (z : Z) : Ascii.ascii := byte (Z.to_nat z).

(** [utf8.DecodeRune] on bytes that start with a valid encoding of [n] bytes. *)
Definition rune_value (n : nat) (s : bytes) : Z :=
  match n, s with
  | 1%nat, a :: _ => zcode a
  | 2%nat, a :: b :: _ => zcode a mod 32 * 64 + zcode b mod 64
  | 3%nat, a :: b :: c :: _ => zcode a mod 16 * 4096 + zcode b mod 64 * 64 + zcode c mod 64
  | 4%nat, a :: b :: c :: d :: _ =>
     zcode a mod 8 * 262144 + zcode b mod 64 * 4096 + zcode c mod 64 * 64 + zcode d mod 64
  | _, _ => 0
  end%Z.

Definition RuneError : Z := 65533.

(** [utf8.DecodeRune]: the rune and its width. *)
Definition DecodeRune (s : bytes) : Z * nat :=
  match s with
  | [] => (RuneError, 0)
  | _ => match rune_length s with
         | Some n => (rune_value n s, n)
         | None => (RuneError, 1)
         end
  end.

Definition surrogate (r : Z) : bool := ((55296 <=? r) && (r <? 57344))%Z.

(** [utf8.AppendRune]; a surrogate or a value above U+10FFFF is written as
    U+FFFD. *)
Definition encode_rune (r : Z) : bytes :=
  let r := if surrogate r || (1114111 <? r)%Z then RuneError else r in
  (if r <? 128 then [zbyte r]
   else if r <? 2048 then [zbyte (192 + r / 64); zbyte (128 + r mod 64)]
   else if r <? 65536 then [zbyte (224 + r / 4096); zbyte (128 + r / 64 mod 64); zbyte (128 + r mod 64)]
   else [zbyte (240 + r / 262144); zbyte (128 + r / 4096 mod 64); zbyte (128 + r / 64 mod 64);
         zbyte (128 + r mod 64)])%Z.

(** [utf8.Valid]; the fuel is the number of bytes. *)
Fixpoint valid_runes (fuel : nat) (s : bytes) : bool :=
  match fuel, s with
  | _, [] => true
  | O, _ => false
  | S fuel, _ => match rune_length s with
                 | Some n => valid_runes fuel (drop n s)
                 | None => false
                 end
  end.

Definition ValidUTF8 (s : bytes) : bool := valid_runes (length s) s.

(** ** The scanner *)

(** [isSpace] of the scanner. *)
Definition json_space (c : Ascii.ascii) : bool := is_byte 32 c || is_byte 9 c || is_byte 13 c || is_byte 10 c.

Fixpoint skip (s : bytes) : bytes :=
  match s with
  | c :: r => if json_space c then skip r else s
  | [] => []
  end.

Definition digit (c : Ascii.ascii) : bool := byte_in 48 57 c.

Fixpoint span_digits (s : bytes) : bytes * bytes :=
  match s with
  | c :: r => if digit c then let '(ds, rest) := span_digits r in (c :: ds, rest) else ([], s)
  | [] => ([], [])
  end.

(** At least one digit. *)
Definition some_digits (s : bytes) : option (bytes * bytes) :=
  match span_digits s with
  | ([], _) => None
  | r => Some r
  end.

Definition scan_sign (s : bytes) : bytes * bytes :=
  match s with
  | c :: r => if is_byte 45 c then ([c], r) else ([], s)
  | [] => ([], [])
  end.

(** ["0"] or digits that start with one to nine. *)
Definition scan_integer (s : bytes) : option (bytes * bytes) :=
  match s with
  | c :: r => if is_byte 48 c then Some ([c], r)
              else if digit c then Some (span_digits s) else None
  | [] => None
  end.

Definition scan_fraction (s : bytes) : option (bytes * bytes) :=
  match s with
  | c :: r => if is_byte 46 c then '(ds, rest) ← some_digits r; Some (c :: ds, rest) else Some ([], s)
  | [] => Some ([], [])
  end.

Definition scan_exponent (s : bytes) : option (bytes * bytes) :=
  match s with
  | c :: r =>
     if is_byte 101 c || is_byte 69 c then
       match r with
       | g :: r' => if is_byte 43 g || is_byte 45 g
                    then '(ds, rest) ← some_digits r'; Some (c :: g :: ds, rest)
                    else '(ds, rest) ← some_digits r; Some (c :: ds, rest)
       | [] => None
       end
     else Some ([], s)
  | [] => Some ([], [])
  end.

(** The longest number the bytes start with; the scanner stops at the first
    byte that does not continue it. *)
Definition scan_number (s : bytes) : option (bytes * bytes) :=
  let '(sign, s) := scan_sign s in
  '(int, s) ← scan_integer s;
  '(frac, s) ← scan_fraction s;
  '(exp, s) ← scan_exponent s;
  Some (sign ++ int ++ frac ++ exp, s).

Definition hex_value (c : Ascii.ascii) : option Z :=
  if byte_in 48 57 c then Some (zcode c - 48)%Z
  else if byte_in 97 102 c then Some (zcode c - 87)%Z
  else if byte_in 65 70 c then Some (zcode c - 55)%Z
  else None.

(** [getu4]: the value of a leading [\uXXXX]. *)
Definition getu4 (s : bytes) : option Z :=
  match s with
  | b :: u :: h1 :: h2 :: h3 :: h4 :: _ =>
     if is_byte 92 b && is_byte 117 u then
       x1 ← hex_value h1; x2 ← hex_value h2; x3 ← hex_value h3; x4 ← hex_value h4;
       Some (x1 * 4096 + x2 * 256 + x3 * 16 + x4)%Z
     else None
  | _ => None
  end.

(** [utf16.DecodeRune] on a pair of surrogates. *)
Definition surrogate_pair (r1 r2 : Z) : option Z :=
  (if (55296 <=? r1) && (r1 <? 56320) && (56320 <=? r2) && (r2 <? 57344)
   then Some (65536 + (r1 - 55296) * 1024 + (r2 - 56320)) else None)%Z.

(** The byte of a two-character escape. *)
Definition simple_escape (c : Ascii.ascii) : option Ascii.ascii :=
  if is_byte 34 c || is_byte 92 c || is_byte 47 c then Some c
  else if is_byte 98 c then Some (byte 8)
  else if is_byte 102 c then Some (byte 12)
  else if is_byte 110 c then Some (byte 10)
  else if is_byte 114 c then Some (byte 13)
  else if is_byte 116 c then Some (byte 9)
  else None.

(** One character of a string that does not start with the closing quote: the
    bytes [unquote] writes for it and the number of bytes it takes. *)
Definition string_step (s : bytes) : option (bytes * nat) :=
  match s with
  | [] => None
  | c :: r =>
     if is_byte 92 c then
       match r with
       | [] => None
       | e :: _ =>
          if is_byte 117 e then
            r1 ← getu4 s;
            if surrogate r1 then
              match r2 ← getu4 (drop 6 s); surrogate_pair r1 r2 with
              | Some rune => Some (encode_rune rune, 12)
              | None => Some (encode_rune RuneError, 6)
              end
            else Some (encode_rune r1, 6)
          else b ← simple_escape e; Some ([b], 2)
       end
     else if code c <? 32 then None
     else let '(rune, n) := DecodeRune s in Some (encode_rune rune, n)
  end.

(** The text of a string literal after its opening quote, and the bytes after
    its closing quote; the fuel is the number of bytes. *)
Fixpoint scan_string (fuel : nat) (s : bytes) : option (bytes * bytes) :=
  match fuel, s with
  | O, _ | _, [] => None
  | S fuel, c :: r =>
     if is_byte 34 c then Some ([], r)
     else '(e, n) ← string_step s;
          '(t, rest) ← scan_string fuel (drop n s);
          Some (e ++ t, rest)
  end.

(** ** Values *)

(** A value of type [any] as [Decode] makes it with [UseNumber], and also the
    tree of a document. The fields of an object are listed in the order of the
    document; those of a Go map in an order nothing depends on. *)
Inductive JSON :=
| JNull
| JBool (b : bool)
| JNumber (s : string)
| JText (s : string)
| JArray (l : list JSON)
| JObject (l : list (string * JSON)).

(** Induction with the hypothesis on every element and field. *)
Section json_ind.
Variable P : JSON → Prop.
Hypotheses (Hnull : P JNull) (Hbool : ∀ b, P (JBool b)) (Hnumber : ∀ s, P (JNumber s))
  (Htext : ∀ s, P (JText s)) (Harray : ∀ l, Forall P l → P (JArray l))
  (Hobject : ∀ l, Forall (λ kv, P kv.2) l → P (JObject l)).

Fixpoint json_ind' (v : JSON) : P v :=
  match v with
  | JNull => Hnull
  | JBool b => Hbool b
  | JNumber s => Hnumber s
  | JText s => Htext s
  | JArray l =>
     Harray l ((fix go l : Forall P l :=
       match l with [] => Forall_nil_2 _ | v :: l => Forall_cons_2 _ _ _ (json_ind' v) (go l) end) l)
  | JObject l =>
     Hobject l ((fix go l : Forall (λ kv, P kv.2) l :=
       match l with [] => Forall_nil_2 _ | kv :: l => Forall_cons_2 _ kv _ (json_ind' kv.2) (go l) end) l)
  end.
End json_ind.

(** A literal that is no container. *)
Definition scan_scalar (s : bytes) : option (JSON * bytes) :=
  match s with
  | [] => None
  | c :: r =>
     if is_byte 34 c then '(t, rest) ← scan_string (length r) r; Some (JText (of_text t), rest)
     else if is_byte 116 c then rest ← strip_prefix (text "true") s; Some (JBool true, rest)
     else if is_byte 102 c then rest ← strip_prefix (text "false") s; Some (JBool false, rest)
     else if is_byte 110 c then rest ← strip_prefix (text "null") s; Some (JNull, rest)
     else '(t, rest) ← scan_number s; Some (JNumber (of_text t), rest)
  end.

Definition starts (n : nat) (s : bytes) : bool :=
  match s with
  | c :: _ => is_byte n c
  | [] => false
  end.

(** The name of a field and the bytes after it. *)
Definition scan_name (s : bytes) : option (string * bytes) :=
  match skip s with
  | c :: r => if is_byte 34 c then '(k, rest) ← scan_string (length r) r; Some (of_text k, rest) else None
  | [] => None
  end.

(** The name, its colon and the bytes after it. *)
Definition scan_key (s : bytes) : option (string * bytes) :=
  '(k, rest) ← scan_name s;
  if starts 58 (skip rest) then Some (k, drop 1 (skip rest)) else None.

(** The comma before a field or an element that is not the first. *)
Definition separator (first : bool) (s : bytes) : option bytes :=
  if first then Some s else if starts 44 (skip s) then Some (drop 1 (skip s)) else None.

(** The value the bytes start with, as a tree, and the bytes after it. The
    fuel counts nested calls; [parse_fuel] bounds it. *)
Fixpoint parse_value (fuel : nat) (s : bytes) : option (JSON * bytes) :=
  match fuel with
  | O => None
  | S fuel =>
     let s := skip s in
     if starts 123 s then '(l, rest) ← parse_fields fuel true (drop 1 s); Some (JObject l, rest)
     else if starts 91 s then '(l, rest) ← parse_items fuel true (drop 1 s); Some (JArray l, rest)
     else scan_scalar s
  end
with parse_fields (fuel : nat) (first : bool) (s : bytes) : option (list (string * JSON) * bytes) :=
  match fuel with
  | O => None
  | S fuel =>
     if starts 125 (skip s) then Some ([], drop 1 (skip s))
     else
       s ← separator first s;
       '(k, s) ← scan_key s;
       '(v, s) ← parse_value fuel s;
       '(l, rest) ← parse_fields fuel false s;
       Some ((k, v) :: l, rest)
  end
with parse_items (fuel : nat) (first : bool) (s : bytes) : option (list JSON * bytes) :=
  match fuel with
  | O => None
  | S fuel =>
     if starts 93 (skip s) then Some ([], drop 1 (skip s))
     else
       s ← separator first s;
       '(v, s) ← parse_value fuel s;
       '(l, rest) ← parse_items fuel false s;
       Some (v :: l, rest)
  end.

Definition parse_fuel (s : bytes) : nat := 2 * length s + 2.

(** Setting a key of a Go map. *)
Fixpoint map_put {A} (m : list (string * A)) (k : string) (v : A) : list (string * A) :=
  match m with
  | [] => [(k, v)]
  | (k', v') :: m => if bool_decide (k = k') then (k, v) :: m else (k', v') :: map_put m k v
  end.

Definition map_of {A} (l : list (string * A)) : list (string * A) :=
  foldl (λ m kv, map_put m kv.1 kv.2) [] l.

(** The [any] of a tree: an object is a map, and the last field of a name
    stays. *)
Fixpoint any_of (t : JSON) : JSON :=
  match t with
  | JArray l => JArray (map any_of l)
  | JObject l => JObject (map_of (map (λ '(k, v), (k, any_of v)) l))
  | t => t
  end.

(** The number of containers around the innermost one, itself included. *)
Fixpoint nesting (t : JSON) : Z :=
  match t with
  | JArray l => 1 + foldr Z.max 0 (map nesting l)
  | JObject l => 1 + foldr Z.max 0 (map (λ '(_, t), nesting t) l)
  | _ => 0
  end%Z.

(** The limit of the scanner. *)
Definition maxNestingDepth : Z := 10000.

(** [Decoder.Decode] into an [any]: the first value and the bytes after it. *)
Definition Decode (s : bytes) : option (JSON * bytes) :=
  '(t, rest) ← parse_value (parse_fuel s) s;
  if (nesting t <=? maxNestingDepth)%Z then Some (any_of t, rest) else None.

(** ** [json.Marshal] *)

(** [sort.Strings] on the keys of a map, with the fields carried along. *)
Fixpoint insert_field {A} (kv : string * A) (l : list (string * A)) : list (string * A) :=
  match l with
  | [] => [kv]
  | kv' :: l => if bool_decide (String.le kv.1 kv'.1) then kv :: kv' :: l else kv' :: insert_field kv l
  end.

Fixpoint sort_fields {A} (l : list (string * A)) : list (string * A) :=
  match l with
  | [] => []
  | kv :: l => insert_field kv (sort_fields l)
  end.

(** [isValidNumber]. *)
Definition valid_number (s : bytes) : bool :=
  match scan_number s with
  | Some (_, []) => true
  | _ => false
  end.

Fixpoint sequence {A} (l : list (option A)) : option (list A) :=
  match l with
  | [] => Some []
  | x :: l => a ← x; r ← sequence l; Some (a :: r)
  end.

(** A [json.Number] that is no number is an error; the empty one is written as
    zero. *)
Fixpoint marshal (v : JSON) : option bytes :=
  match v with
  | JNull => Some (text "null")
  | JBool b => Some (text (if b then "true" else "false"))
  | JNumber s =>
     let s := if bool_decide (s = ""%string) then "0"%string else s in
     if valid_number (text s) then Some (text s) else None
  | JText s => Some (json_string s)
  | JArray l =>
     items ← sequence (map marshal l);
     Some (text "[" ++ join (text ",") items ++ text "]")
  | JObject l =>
     let fields := map (λ '(k, v), (k, marshal v)) l in
     items ← sequence (map (λ '(k, m), m ← m; Some (json_string k ++ text ":" ++ m)) (sort_fields fields));
     Some (text "{" ++ join (text ",") items ++ text "}")
  end.

(** ** The token stream *)

Inductive TokenState :=
| TopValue | ArrayStart | ArrayValue | ArrayComma
| ObjectStart | ObjectKey | ObjectColon | ObjectValue | ObjectComma.

#[export] Instance TokenState_eq_dec : EqDecision TokenState.
Proof. solve_decision. Defined.

(** [json.Decoder]: the unread bytes, the state and the stack of states. *)
Record Decoder := {
  unread : bytes;
  token_state : TokenState;
  token_stack : list TokenState
}.

Definition NewDecoder (raw : bytes) : Decoder :=
  {| unread := raw; token_state := TopValue; token_stack := [] |}.

Definition at_state (rest : bytes) (st : TokenState) (d : Decoder) : Decoder :=
  {| unread := rest; token_state := st; token_stack := token_stack d |}.

Definition push_state (rest : bytes) (st : TokenState) (d : Decoder) : Decoder :=
  {| unread := rest; token_state := st; token_stack := token_state d :: token_stack d |}.

(** [tokenValueAllowed]. *)
Definition value_allowed (st : TokenState) : bool :=
  match st with
  | TopValue | ArrayStart | ArrayValue | ObjectValue => true
  | _ => false
  end.

(** [tokenValueEnd]. *)
Definition value_end (st : TokenState) : TokenState :=
  match st with
  | ArrayStart | ArrayValue => ArrayComma
  | ObjectValue => ObjectComma
  | st => st
  end.

Definition pop_state (rest : bytes) (d : Decoder) : Decoder :=
  match token_stack d with
  | st :: stack => {| unread := rest; token_state := value_end st; token_stack := stack |}
  | [] => {| unread := rest; token_state := TopValue; token_stack := [] |}
  end.

Inductive Tok :=
| Delim (c : Ascii.ascii)
| Scalar (v : JSON).

(** [io.EOF], or the error of the scanner or of the state. *)
Inductive TokenError := TokenEOF | TokenSyntax.

(** [Decoder.Token]. A colon or a comma that the state allows is skipped; at
    most two rounds do that, and the fuel is three. *)
Fixpoint token_loop (fuel : nat) (d : Decoder) : Result TokenError (Tok * Decoder) :=
  match fuel with
  | O => Err TokenSyntax
  | S fuel =>
     match skip (unread d) with
     | [] => Err TokenEOF
     | c :: r =>
        let st := token_state d in
        if is_byte 91 c then
          guard! value_allowed st else TokenSyntax in Ok (Delim c, push_state r ArrayStart d)
        else if is_byte 93 c then
          guard! bool_decide (st = ArrayStart ∨ st = ArrayComma) else TokenSyntax in Ok (Delim c, pop_state r d)
        else if is_byte 123 c then
          guard! value_allowed st else TokenSyntax in Ok (Delim c, push_state r ObjectStart d)
        else if is_byte 125 c then
          guard! bool_decide (st = ObjectStart ∨ st = ObjectComma) else TokenSyntax in Ok (Delim c, pop_state r d)
        else if is_byte 58 c then
          guard! bool_decide (st = ObjectColon) else TokenSyntax in token_loop fuel (at_state r ObjectValue d)
        else if is_byte 44 c then
          match st with
          | ArrayComma => token_loop fuel (at_state r ArrayValue d)
          | ObjectComma => token_loop fuel (at_state r ObjectKey d)
          | _ => Err TokenSyntax
          end
        else if is_byte 34 c && bool_decide (st = ObjectStart ∨ st = ObjectKey) then
          match scan_scalar (c :: r) with
          | Some (v, rest) => Ok (Scalar v, at_state rest ObjectColon d)
          | None => Err TokenSyntax
          end
        else
          guard! value_allowed st else TokenSyntax in
          match scan_scalar (c :: r) with
          | Some (v, rest) => Ok (Scalar v, at_state rest (value_end st) d)
          | None => Err TokenSyntax
          end
     end
  end.

Definition Token (d : Decoder) : Result TokenError (Tok * Decoder) := token_loop 3 d.

(** [Decoder.More]. *)
Definition More (d : Decoder) : bool :=
  match skip (unread d) with
  | [] => false
  | c :: _ => negb (is_byte 93 c) && negb (is_byte 125 c)
  end.

(** ** The walk over a document

    The validators of the packages walk the token stream in the same way and
    differ in the limits, in the check of a scalar and in the errors. *)
Record Walker (E : Type) := {
  enter : Z → Z → Result E Z;         (* the depth and the nodes so far; the nodes after it *)
  scalar_ok : JSON → Result E unit;
  bad_value : E;                      (* no token where a value is expected *)
  bad_delimiter : E;
  bad_key : E;                        (* no token where a key is expected *)
  key_not_text : E;
  duplicate_key : E;
  open_object : E;
  open_array : E;
  out_of_fuel : E
}.

Arguments enter {E} w.
Arguments scalar_ok {E} w.
Arguments bad_value {E} w.
Arguments bad_delimiter {E} w.
Arguments bad_key {E} w.
Arguments key_not_text {E} w.
Arguments duplicate_key {E} w.
Arguments open_object {E} w.
Arguments open_array {E} w.
Arguments out_of_fuel {E} w.

Section walk.
Context {E : Type} (w : Walker E).

(** The closing delimiter. *)
Definition walk_end (close : nat) (e : E) (nodes : Z) (d : Decoder) : Result E (Decoder * Z) :=
  match Token d with
  | Ok (Delim c, d) => guard! is_byte close c else e in Ok (d, nodes)
  | _ => Err e
  end.

(** The key of a field, which is in no field before. *)
Definition walk_key (keys : list string) (d : Decoder) : Result E (string * Decoder) :=
  match Token d with
  | Err _ => Err (bad_key w)
  | Ok (Scalar (JText k), d) =>
     guard! negb (bool_decide (k ∈ keys)) else duplicate_key w in Ok (k, d)
  | Ok _ => Err (key_not_text w)
  end.

Fixpoint walk_value (fuel : nat) (depth nodes : Z) (d : Decoder) : Result E (Decoder * Z) :=
  match fuel with
  | O => Err (out_of_fuel w)
  | S fuel =>
     let? nodes := enter w depth nodes in
     match Token d with
     | Err _ => Err (bad_value w)
     | Ok (Scalar v, d) => let? _ := scalar_ok w v in Ok (d, nodes)
     | Ok (Delim c, d) =>
        if is_byte 123 c then walk_fields fuel [] depth nodes d
        else if is_byte 91 c then walk_items fuel depth nodes d
        else Err (bad_delimiter w)
     end
  end
with walk_fields (fuel : nat) (keys : list string) (depth nodes : Z) (d : Decoder) : Result E (Decoder * Z) :=
  match fuel with
  | O => Err (out_of_fuel w)
  | S fuel =>
     if More d then
       let? kd := walk_key keys d in
       let? dn := walk_value fuel (depth + 1) nodes kd.2 in
       walk_fields fuel (kd.1 :: keys) depth dn.2 dn.1
     else walk_end 125 (open_object w) nodes d
  end
with walk_items (fuel : nat) (depth nodes : Z) (d : Decoder) : Result E (Decoder * Z) :=
  match fuel with
  | O => Err (out_of_fuel w)
  | S fuel =>
     if More d then
       let? dn := walk_value fuel (depth + 1) nodes d in
       walk_items fuel depth dn.2 dn.1
     else walk_end 93 (open_array w) nodes d
  end.

(** The same checks on the tree of a document: what the walk is to decide. *)
Definition check_items (check : Z → JSON → Result E Z) : Z → list JSON → Result E Z :=
  fix go nodes l :=
    match l with
    | [] => Ok nodes
    | t :: l => let? nodes := check nodes t in go nodes l
    end.

Definition check_fields (check : Z → JSON → Result E Z) :
    list string → Z → list (string * JSON) → Result E Z :=
  fix go keys nodes l :=
    match l with
    | [] => Ok nodes
    | (k, t) :: l =>
       guard! negb (bool_decide (k ∈ keys)) else duplicate_key w in
       let? nodes := check nodes t in go (k :: keys) nodes l
    end.

Fixpoint check_tree (depth nodes : Z) (t : JSON) : Result E Z :=
  let? nodes := enter w depth nodes in
  match t with
  | JArray l => check_items (check_tree (depth + 1)) nodes l
  | JObject l => check_fields (check_tree (depth + 1)) [] nodes l
  | t => let? _ := scalar_ok w t in Ok nodes
  end.

(** One document: a walk and the end of the input. *)
Definition walk_document (trailing : E) (raw : bytes) : Result E unit :=
  let? dn := walk_value (parse_fuel raw) 0 0 (NewDecoder raw) in
  match Token dn.1 with
  | Err TokenEOF => Ok tt
  | _ => Err trailing
  end.
End walk.
