(* ===== verification/JsonProps.v ===== *)
(** * Lemmas on the JSON scanner, the token stream and the walk

    The scanners consume bytes, the fuel of the recursive functions is enough,
    and a walk over the token stream accepts exactly the documents whose tree
    passes its checks. *)

From Stdlib Require Import ZifyNat.
From S2P Require Import Prelude GoLib Encoding Json.

Open Scope go_scope.

(** ** What the scanners leave *)

Lemma length_skip s : length (skip s) ≤ length s.
Proof. induction s as [|c s IH]; cbn; [done|]. destruct (json_space c); cbn; lia. Qed.

Lemma skip_idemp s : skip (skip s) = skip s.
Proof.
  induction s as [|c s IH]; cbn; [done|]. destruct (json_space c) eqn:Hc; [done|]. cbn. by rewrite Hc.
Qed.

Lemma starts_cons n s : starts n s = true → ∃ c r, s = c :: r ∧ is_byte n c = true.
Proof. destruct s as [|c r]; [done|]. eauto. Qed.

Lemma length_starts n s : starts n s = true → length (drop 1 s) < length s.
Proof. intros (c & r & -> & _)%starts_cons. rewrite length_drop. cbn. lia. Qed.

Lemma strip_prefix_length p s r : strip_prefix p s = Some r → length s = length p + length r.
Proof.
  revert s. induction p as [|c p IH]; intros s Hs; cbn in *; [by simplify_eq|].
  destruct s as [|c' s]; [done|]. case_bool_decide; [|done]. cbn. rewrite (IH s) by done. lia.
Qed.

Lemma span_digits_length s ds r : span_digits s = (ds, r) → length s = length ds + length r.
Proof.
  revert ds r. induction s as [|c s IH]; intros ds r Hs; cbn in *; [by simplify_eq|].
  destruct (digit c); [|by simplify_eq]. destruct (span_digits s) as [ds' r'] eqn:Hd. simplify_eq.
  cbn. by rewrite (IH _ _ eq_refl).
Qed.

Lemma some_digits_length s ds r : some_digits s = Some (ds, r) → length s = length ds + length r.
Proof.
  unfold some_digits. destruct (span_digits s) as [[|c ds'] r'] eqn:Hs; [done|]. intros [= <- <-].
  by apply span_digits_length.
Qed.

Lemma scan_sign_length s x r : scan_sign s = (x, r) → length s = length x + length r.
Proof. destruct s as [|c s]; cbn; [by intros [= <- <-]|]. destruct (is_byte 45 c); by intros [= <- <-]. Qed.

Lemma scan_integer_length s x r :
  scan_integer s = Some (x, r) → length s = length x + length r ∧ 0 < length x.
Proof.
  destruct s as [|c s]; [done|]. unfold scan_integer. destruct (is_byte 48 c); [intros [= <- <-]; cbn; lia|].
  destruct (digit c) eqn:Hc; [|done]. intros [= Hs].
  split; [by apply span_digits_length|]. cbn in Hs. rewrite Hc in Hs.
  destruct (span_digits s). simplify_eq. cbn. lia.
Qed.

Lemma scan_fraction_length s x r : scan_fraction s = Some (x, r) → length s = length x + length r.
Proof.
  destruct s as [|c s]; cbn; [by intros [= <- <-]|]. destruct (is_byte 46 c); [|by intros [= <- <-]].
  destruct (some_digits s) as [[ds r']|] eqn:Hd; [|done]. intros [= <- <-]. cbn. by rewrite (some_digits_length _ _ _ Hd).
Qed.

Lemma scan_exponent_length s x r : scan_exponent s = Some (x, r) → length s = length x + length r.
Proof.
  destruct s as [|c s]; cbn; [by intros [= <- <-]|]. destruct (_ || _); [|by intros [= <- <-]].
  destruct s as [|g s]; [done|]. destruct (_ || _).
  - destruct (some_digits s) as [[ds r']|] eqn:Hd; [|done]. intros [= <- <-]. cbn. by rewrite (some_digits_length _ _ _ Hd).
  - destruct (some_digits (g :: s)) as [[ds r']|] eqn:Hd; [|done]. intros [= <- <-].
    apply some_digits_length in Hd. cbn in *. lia.
Qed.

Lemma scan_number_length s x r : scan_number s = Some (x, r) → length s = length x + length r ∧ 0 < length x.
Proof.
  unfold scan_number. destruct (scan_sign s) as [sg s1] eqn:H1. apply scan_sign_length in H1.
  destruct (scan_integer s1) as [[i s2]|] eqn:H2; [|done]. apply scan_integer_length in H2. cbn [mbind option_bind].
  destruct (scan_fraction s2) as [[fr s3]|] eqn:H3; [|done]. apply scan_fraction_length in H3. cbn [mbind option_bind].
  destruct (scan_exponent s3) as [[ex s4]|] eqn:H4; [|done]. apply scan_exponent_length in H4. cbn [mbind option_bind].
  intros [= <- <-]. rewrite !length_app. lia.
Qed.

Lemma rune_length_bounds s n : rune_length s = Some n → 1 ≤ n ≤ 4 ∧ n ≤ length s.
Proof. unfold rune_length. intros H. go_cases; cbn; lia. Qed.

Lemma getu4_length s r : getu4 s = Some r → 6 ≤ length s.
Proof. unfold getu4. intros H. go_cases; cbn; lia. Qed.

(** A step of a string takes at least one byte and no more than there are. *)
Lemma string_step_length s e n : string_step s = Some (e, n) → 1 ≤ n ≤ length s.
Proof.
  destruct s as [|c s]; [done|]. unfold string_step. destruct (is_byte 92 c).
  - destruct s as [|e' s]; [done|]. destruct (is_byte 117 e').
    + destruct (getu4 (c :: e' :: s)) as [r1|] eqn:H1; [|done]. apply getu4_length in H1. cbn [mbind option_bind].
      destruct (surrogate r1); [|intros [= <- <-]; lia].
      destruct (getu4 (drop 6 _)) as [r2|] eqn:H2; cbn [mbind option_bind]; [|intros [= <- <-]; lia].
      apply getu4_length in H2. rewrite length_drop in H2. destruct (surrogate_pair r1 r2); intros [= <- <-]; lia.
    + destruct (simple_escape e'); [|done]. intros [= <- <-]. cbn. lia.
  - destruct (code c <? 32); [done|]. unfold DecodeRune. destruct (rune_length (c :: s)) as [m|] eqn:Hm.
    + intros [= <- <-]. apply rune_length_bounds in Hm. lia.
    + intros [= <- <-]. cbn. lia.
Qed.

Lemma scan_string_length f s t r : scan_string f s = Some (t, r) → length r < length s.
Proof.
  revert s t r. induction f as [|f IH]; intros s t r Hs; [by destruct s|].
  destruct s as [|c s]; [done|]. cbn [scan_string] in Hs. destruct (is_byte 34 c); [simplify_eq; cbn; lia|].
  destruct (string_step (c :: s)) as [[e n]|] eqn:Hst; [|done]. cbn [mbind option_bind] in Hs.
  destruct (scan_string f _) as [[t' r']|] eqn:Hr; [|done]. cbn [mbind option_bind] in Hs. simplify_eq.
  apply IH in Hr. apply string_step_length in Hst. rewrite length_drop in Hr. lia.
Qed.

(** More fuel than bytes changes nothing. *)
Lemma scan_string_fuel f g s : length s ≤ f → length s ≤ g → scan_string f s = scan_string g s.
Proof.
  revert g s. induction f as [|f IH]; intros g s Hf Hg.
  { destruct s; [by destruct g|cbn in Hf; lia]. }
  destruct s as [|c s]; [by destruct g|]. destruct g as [|g]; [cbn in Hg; lia|].
  cbn [scan_string]. destruct (is_byte 34 c); [done|].
  destruct (string_step (c :: s)) as [[e n]|] eqn:Hst; [|done]. cbn [mbind option_bind].
  apply string_step_length in Hst. rewrite (IH g); [done|rewrite length_drop; cbn in *; lia..].
Qed.

Lemma scan_scalar_length s v r : scan_scalar s = Some (v, r) → length r < length s.
Proof.
  destruct s as [|c s]; [done|]. unfold scan_scalar. destruct (is_byte 34 c).
  { destruct (scan_string _ s) as [[t r']|] eqn:H; [|done]. intros [= <- <-]. apply scan_string_length in H. cbn. lia. }
  destruct (is_byte 116 c); [destruct (strip_prefix _ _) eqn:H; [|done]; intros [= <- <-];
    apply strip_prefix_length in H; cbn in *; lia|].
  destruct (is_byte 102 c); [destruct (strip_prefix _ _) eqn:H; [|done]; intros [= <- <-];
    apply strip_prefix_length in H; cbn in *; lia|].
  destruct (is_byte 110 c); [destruct (strip_prefix _ _) eqn:H; [|done]; intros [= <- <-];
    apply strip_prefix_length in H; cbn in *; lia|].
  destruct (scan_number (c :: s)) as [[t r']|] eqn:H; [|done]. intros [= <- <-]. apply scan_number_length in H. lia.
Qed.

Lemma scan_name_length s k r : scan_name s = Some (k, r) → length r < length s.
Proof.
  unfold scan_name. pose proof (length_skip s). destruct (skip s) as [|c s']; [done|].
  destruct (is_byte 34 c); [|done]. destruct (scan_string _ s') as [[t r']|] eqn:H'; [|done]. intros [= <- <-].
  apply scan_string_length in H'. cbn in *. lia.
Qed.

Lemma scan_key_length s k r : scan_key s = Some (k, r) → length r < length s.
Proof.
  unfold scan_key. destruct (scan_name s) as [[k' r']|] eqn:H'; [|done]. cbn [mbind option_bind].
  apply scan_name_length in H'. pose proof (length_skip r'). destruct (starts 58 _) eqn:Hs; [|done].
  intros [= <- <-]. apply length_starts in Hs. lia.
Qed.

Lemma separator_length first s r : separator first s = Some r → length r ≤ length s.
Proof.
  unfold separator. destruct first; [by intros [= <-]|]. destruct (starts 44 _) eqn:Hs; [|done].
  intros [= <-]. apply length_starts in Hs. pose proof (length_skip s). lia.
Qed.

(** ** The fuel of the parser *)

Lemma parse_length f :
  (∀ s t r, parse_value f s = Some (t, r) → length r < length s) ∧
  (∀ b s l r, parse_fields f b s = Some (l, r) → length r < length s) ∧
  (∀ b s l r, parse_items f b s = Some (l, r) → length r < length s).
Proof.
  induction f as [|f (IHv & IHf & IHi)]; [done|]. split_and!.
  - intros s t r. cbn [parse_value]. pose proof (length_skip s). destruct (starts 123 _) eqn:H1.
    { apply length_starts in H1. destruct (parse_fields f _ _) as [[l r']|] eqn:Hp; [|done]. intros [= <- <-].
      apply IHf in Hp. lia. }
    destruct (starts 91 _) eqn:H2.
    { apply length_starts in H2. destruct (parse_items f _ _) as [[l r']|] eqn:Hp; [|done]. intros [= <- <-].
      apply IHi in Hp. lia. }
    intros Hs%scan_scalar_length. lia.
  - intros b s l r. cbn [parse_fields]. pose proof (length_skip s). destruct (starts 125 _) eqn:H1.
    { apply length_starts in H1. intros [= <- <-]. lia. }
    destruct (separator b s) as [s1|] eqn:H2; [|done]. apply separator_length in H2. cbn [mbind option_bind].
    destruct (scan_key s1) as [[k s2]|] eqn:H3; [|done]. apply scan_key_length in H3. cbn [mbind option_bind].
    destruct (parse_value f s2) as [[v s3]|] eqn:H4; [|done]. apply IHv in H4. cbn [mbind option_bind].
    destruct (parse_fields f false s3) as [[l' s4]|] eqn:H5; [|done]. apply IHf in H5. intros [= <- <-]. lia.
  - intros b s l r. cbn [parse_items]. pose proof (length_skip s). destruct (starts 93 _) eqn:H1.
    { apply length_starts in H1. intros [= <- <-]. lia. }
    destruct (separator b s) as [s1|] eqn:H2; [|done]. apply separator_length in H2. cbn [mbind option_bind].
    destruct (parse_value f s1) as [[v s3]|] eqn:H4; [|done]. apply IHv in H4. cbn [mbind option_bind].
    destruct (parse_items f false s3) as [[l' s4]|] eqn:H5; [|done]. apply IHi in H5. intros [= <- <-]. lia.
Qed.

Lemma parse_value_length f s t r : parse_value f s = Some (t, r) → length r < length s.
Proof. apply parse_length. Qed.

(** Two calls of nested functions per byte are enough. *)
Lemma parse_fuel_enough f :
  (∀ g s, 2 * length s + 1 ≤ f → 2 * length s + 1 ≤ g → parse_value f s = parse_value g s) ∧
  (∀ g b s, 2 * length s + 2 ≤ f → 2 * length s + 2 ≤ g → parse_fields f b s = parse_fields g b s) ∧
  (∀ g b s, 2 * length s + 2 ≤ f → 2 * length s + 2 ≤ g → parse_items f b s = parse_items g b s).
Proof.
  induction f as [|f (IHv & IHf & IHi)]; [split_and!; intros; lia|]. split_and!.
  - intros [|g] s Hf Hg; [lia|]. cbn [parse_value]. pose proof (length_skip s).
    destruct (starts 123 _) eqn:H1; [apply length_starts in H1; rewrite (IHf g); [done|lia..]|].
    destruct (starts 91 _) eqn:H2; [apply length_starts in H2; rewrite (IHi g); [done|lia..]|done].
  - intros [|g] b s Hf Hg; [lia|]. cbn [parse_fields]. destruct (starts 125 _); [done|].
    destruct (separator b s) as [s1|] eqn:H2; [|done]. apply separator_length in H2. cbn [mbind option_bind].
    destruct (scan_key s1) as [[k s2]|] eqn:H3; [|done]. apply scan_key_length in H3. cbn [mbind option_bind].
    rewrite (IHv g) by lia. destruct (parse_value g s2) as [[v s3]|] eqn:H4; [|done].
    apply parse_value_length in H4. cbn [mbind option_bind]. rewrite (IHf g) by lia. done.
  - intros [|g] b s Hf Hg; [lia|]. cbn [parse_items]. destruct (starts 93 _); [done|].
    destruct (separator b s) as [s1|] eqn:H2; [|done]. apply separator_length in H2. cbn [mbind option_bind].
    rewrite (IHv g) by lia. destruct (parse_value g s1) as [[v s3]|] eqn:H4; [|done].
    apply parse_value_length in H4. cbn [mbind option_bind]. rewrite (IHi g) by lia. done.
Qed.

(** A document: one value, and white space after it. *)
Definition document (raw : bytes) : option JSON :=
  '(t, rest) ← parse_value (parse_fuel raw) raw;
  if bool_decide (skip rest = []) then Some t else None.

Lemma document_fuel f raw t rest :
  2 * length raw + 1 ≤ f → parse_value f raw = Some (t, rest) → skip rest = [] → document raw = Some t.
Proof.
  intros Hf Hp Hr. unfold document. destruct (parse_fuel_enough f) as [Hv _].
  rewrite <- (Hv (parse_fuel raw)) by (unfold parse_fuel; lia). rewrite Hp. cbn. by rewrite bool_decide_eq_true_2.
Qed.

(** ** The token stream *)

Definition good {E A} (r : Result E A) : option A :=
  match r with Ok a => Some a | Err _ => None end.

Lemma good_rbind {E A B} (r : Result E A) (k : A → Result E B) : good (rbind r k) = (a ← good r; good (k a)).
Proof. by destruct r. Qed.

Lemma is_byte_true n c : is_byte n c = true → c = byte n.
Proof. unfold is_byte. rewrite bool_decide_eq_true. intros <-. symmetry. apply Ascii.ascii_nat_embedding. Qed.

(** Compute the tests on known bytes. *)
Ltac known_bytes :=
  repeat match goal with
  | H : is_byte ?n ?c = true |- _ => apply is_byte_true in H; subst c
  end;
  repeat match goal with
  | |- context [is_byte ?m (byte ?n)] =>
     let v := eval vm_compute in (is_byte m (byte n)) in change (is_byte m (byte n)) with v
  | H : context [is_byte ?m (byte ?n)] |- _ =>
     let v := eval vm_compute in (is_byte m (byte n)) in change (is_byte m (byte n)) with v in H
  end; cbn [negb andb orb] in *.

(** No scalar starts with punctuation. *)
Lemma scan_scalar_punctuation c r :
  is_byte 93 c = true ∨ is_byte 125 c = true ∨ is_byte 58 c = true ∨ is_byte 44 c = true →
  scan_scalar (c :: r) = None.
Proof. by intros [H|[H|[H|H]]]; known_bytes; vm_compute. Qed.

Definition decoder_at (rest : bytes) (st : TokenState) (stack : list TokenState) : Decoder :=
  {| unread := rest; token_state := st; token_stack := stack |}.

(** The token where a value is expected and the separator is read. *)
Definition value_token (st : TokenState) (s : bytes) (stack : list TokenState) : option (Tok * Decoder) :=
  match skip s with
  | [] => None
  | c :: r =>
     if is_byte 123 c then Some (Delim c, decoder_at r ObjectStart (st :: stack))
     else if is_byte 91 c then Some (Delim c, decoder_at r ArrayStart (st :: stack))
     else '(v, rest) ← scan_scalar (c :: r); Some (Scalar v, decoder_at rest (value_end st) stack)
  end.

Lemma token_loop_value f d :
  value_allowed (token_state d) = true → (token_state d = ArrayStart → More d = true) →
  good (token_loop (S f) d) = value_token (token_state d) (unread d) (token_stack d).
Proof.
  intros Hva Hm. unfold value_token. cbn [token_loop]. unfold More in Hm.
  destruct (skip (unread d)) as [|c r]; [done|]. rewrite Hva.
  destruct (is_byte 91 c) eqn:H1; [known_bytes; done|].
  destruct (is_byte 93 c) eqn:H2.
  { rewrite scan_scalar_punctuation by auto. known_bytes.
    rewrite bool_decide_eq_false_2; [done|]. intros [He|He]; [by specialize (Hm He)|by rewrite He in Hva]. }
  destruct (is_byte 123 c) eqn:H3; [known_bytes; done|].
  destruct (is_byte 125 c) eqn:H4.
  { rewrite scan_scalar_punctuation by auto. known_bytes.
    rewrite bool_decide_eq_false_2; [done|]. by intros [He|He]; rewrite He in Hva. }
  destruct (is_byte 58 c) eqn:H5.
  { rewrite scan_scalar_punctuation by auto. known_bytes.
    rewrite bool_decide_eq_false_2; [done|]. by intros He; rewrite He in Hva. }
  destruct (is_byte 44 c) eqn:H6.
  { rewrite scan_scalar_punctuation by auto. known_bytes. by destruct (token_state d). }
  rewrite (bool_decide_eq_false_2 (_ ∨ _)) by (by intros [He|He]; rewrite He in Hva). rewrite andb_false_r.
  by destruct (scan_scalar (c :: r)) as [[v rest]|].
Qed.

(** The state after the separator of a value, and the bytes after it. *)
Definition separated (st : TokenState) (s : bytes) : option (TokenState * bytes) :=
  match st with
  | TopValue | ArrayStart => Some (st, s)
  | ArrayComma => if starts 44 (skip s) then Some (ArrayValue, drop 1 (skip s)) else None
  | ObjectColon => if starts 58 (skip s) then Some (ObjectValue, drop 1 (skip s)) else None
  | _ => None
  end.

(** The states in which the walk asks for a value. *)
Definition value_position (d : Decoder) : Prop :=
  token_state d = TopValue ∨ token_state d = ObjectColon ∨
  (token_state d = ArrayStart ∨ token_state d = ArrayComma) ∧ More d = true.

Lemma token_value d :
  value_position d →
  good (Token d) = ('(st, s) ← separated (token_state d) (unread d); value_token st s (token_stack d)).
Proof.
  unfold Token. intros [Hst|[Hst|[[Hst|Hst] Hm]]].
  - rewrite token_loop_value by (by rewrite Hst). by rewrite Hst.
  - rewrite Hst. cbn [separated]. cbn [token_loop]. rewrite Hst.
    destruct (skip (unread d)) as [|c r] eqn:Hs; [done|]. cbn [starts].
    destruct (is_byte 58 c) eqn:H; [known_bytes; cbn [bool_decide]|].
    + rewrite bool_decide_eq_true_2 by done. by apply (token_loop_value 1 (at_state r ObjectValue d)).
    + destruct (is_byte 91 c); [done|]. destruct (is_byte 93 c); [done|]. destruct (is_byte 123 c); [done|].
      destruct (is_byte 125 c); [done|]. destruct (is_byte 44 c); [done|]. by rewrite andb_false_r.
  - rewrite token_loop_value by (by rewrite ?Hst). by rewrite Hst.
  - rewrite Hst. cbn [separated]. cbn [token_loop]. rewrite Hst. unfold More in Hm.
    destruct (skip (unread d)) as [|c r] eqn:Hs; [done|]. cbn [starts].
    destruct (is_byte 44 c) eqn:H; [known_bytes|].
    + by apply (token_loop_value 1 (at_state r ArrayValue d)).
    + destruct (is_byte 91 c); [done|]. destruct (is_byte 93 c); [done|]. destruct (is_byte 123 c); [done|].
      destruct (is_byte 125 c); [done|]. destruct (is_byte 58 c); [done|]. by rewrite andb_false_r.
Qed.

(** The token where a key is expected. *)
Lemma token_key d :
  token_state d = ObjectStart ∨ token_state d = ObjectComma → More d = true →
  good (Token d) =
    (s ← separator (bool_decide (token_state d = ObjectStart)) (unread d);
     '(k, rest) ← scan_name s; Some (Scalar (JText k), decoder_at rest ObjectColon (token_stack d))).
Proof.
  intros Hst Hm. unfold Token.
  assert (∀ f d', token_state d' = ObjectStart ∧ More d' = true ∨ token_state d' = ObjectKey →
    good (token_loop (S f) d') =
      ('(k, rest) ← scan_name (unread d'); Some (Scalar (JText k), decoder_at rest ObjectColon (token_stack d'))))
    as Hkey.
  { clear. intros f d Hd. unfold scan_name. cbn [token_loop]. unfold More in Hd.
    destruct (skip (unread d)) as [|c r] eqn:Hs; [done|].
    destruct (is_byte 34 c) eqn:H.
    { known_bytes. rewrite bool_decide_eq_true_2 by tauto. unfold scan_scalar. known_bytes.
      by destruct (scan_string (length r) r) as [[k rest]|]. }
    destruct Hd as [[-> Hm]| ->]; cbn [value_allowed].
    - destruct (is_byte 91 c); [done|]. destruct (is_byte 93 c); [done|]. destruct (is_byte 123 c); [done|].
      destruct (is_byte 125 c); [done|]. destruct (is_byte 58 c); [done|]. by destruct (is_byte 44 c).
    - destruct (is_byte 91 c); [done|]. destruct (is_byte 93 c); [done|]. destruct (is_byte 123 c); [done|].
      destruct (is_byte 125 c); [done|]. destruct (is_byte 58 c); [done|]. by destruct (is_byte 44 c). }
  destruct Hst as [Hst|Hst].
  - rewrite Hkey by auto. by rewrite Hst.
  - rewrite Hst. cbn [token_loop]. rewrite Hst. rewrite (bool_decide_eq_false_2 (ObjectComma = ObjectStart)) by done. unfold separator, More in *.
    destruct (skip (unread d)) as [|c r] eqn:Hs; [done|]. cbn [starts].
    destruct (is_byte 44 c) eqn:H; [known_bytes|].
    + exact (Hkey 1 (at_state r ObjectKey d) (or_intror eq_refl)).
    + destruct (is_byte 91 c); [done|]. destruct (is_byte 93 c); [done|]. destruct (is_byte 123 c); [done|].
      destruct (is_byte 125 c); [done|]. destruct (is_byte 58 c); [done|]. by rewrite andb_false_r.
Qed.

Lemma token_loop_length f d tok d' :
  token_loop f d = Ok (tok, d') → length (unread d') < length (unread d).
Proof.
  revert d. induction f as [|f IH]; intros d; [done|]. cbn [token_loop]. pose proof (length_skip (unread d)).
  destruct (skip (unread d)) as [|c r] eqn:Hs; [done|]. intros Ht.
  repeat case_match; simplify_eq; cbn [unread push_state at_state length] in *; try lia;
    try (unfold pop_state; destruct (token_stack d); cbn; lia);
    try (apply IH in Ht; cbn in Ht; lia);
    match goal with H' : scan_scalar _ = Some _ |- _ => apply scan_scalar_length in H'; cbn in H'; lia end.
Qed.

(** A token takes at least one byte. *)
Lemma token_length d tok d' : Token d = Ok (tok, d') → length (unread d') < length (unread d).
Proof. apply token_loop_length. Qed.

(** ** The walk *)

Section walk.
Context {E : Type} (w : Walker E).

Lemma good_guard {A} (b : bool) (e : E) (r : Result E A) :
  good (if b then r else Err e) = if b then good r else None.
Proof. by destruct b. Qed.

Lemma walk_key_good keys d :
  token_state d = ObjectStart ∨ token_state d = ObjectComma → More d = true →
  good (walk_key w keys d) =
    (s ← separator (bool_decide (token_state d = ObjectStart)) (unread d);
     '(k, rest) ← scan_name s;
     if bool_decide (k ∈ keys) then None else Some (k, decoder_at rest ObjectColon (token_stack d))).
Proof.
  intros Hst Hm. pose proof (token_key d Hst Hm) as Ht. unfold walk_key.
  destruct (separator _ _) as [s|]; cbn [mbind option_bind] in *; [|by destruct (Token d)].
  destruct (scan_name s) as [[k rest]|]; cbn [mbind option_bind] in *; [|by destruct (Token d)].
  destruct (Token d) as [[tok d']|]; [|done]. cbn in Ht. simplify_eq. by destruct (bool_decide (k ∈ keys)).
Qed.

(** The closing delimiter, when there is no more. *)
Lemma walk_end_good object (e : E) nodes d :
  token_state d = (if object : bool then ObjectStart else ArrayStart) ∨
    token_state d = (if object then ObjectComma else ArrayComma) →
  More d = false →
  good (walk_end (if object then 125 else 93) e nodes d) =
    if starts (if object then 125 else 93) (skip (unread d))
    then Some (pop_state (drop 1 (skip (unread d))) d, nodes) else None.
Proof.
  intros Hst Hm. unfold walk_end, Token, More in *. cbn [token_loop].
  destruct (skip (unread d)) as [|c r]; [by destruct object|]. cbn [starts drop].
  destruct (is_byte 93 c) eqn:H1; [known_bytes|destruct (is_byte 125 c) eqn:H2; [known_bytes|done]].
  - destruct object.
    + rewrite bool_decide_eq_false_2; [by known_bytes|]. by destruct Hst as [-> | ->]; intros [?|?].
    + rewrite bool_decide_eq_true_2 by done. known_bytes. done.
  - destruct object.
    + rewrite bool_decide_eq_true_2 by done. known_bytes. done.
    + rewrite bool_decide_eq_false_2; [by known_bytes|]. by destruct Hst as [-> | ->]; intros [?|?].
Qed.

(** When there is no more and the delimiter is another, the tree has no field
    and no element either. *)
Lemma no_more_no_key b d :
  More d = false → starts 125 (skip (unread d)) = false →
  (s ← separator b (unread d); scan_key s) = None.
Proof.
  unfold More, separator, scan_key, scan_name. intros Hm Hc.
  destruct b; cbn [mbind option_bind].
  - destruct (skip (unread d)) as [|c r]; [done|]. cbn in Hc. rewrite Hc in Hm.
    destruct (is_byte 93 c) eqn:H; [|done]. by known_bytes.
  - destruct (skip (unread d)) as [|c r]; [done|]. cbn [starts] in *. rewrite Hc in Hm.
    destruct (is_byte 93 c) eqn:H; [|done]. by known_bytes.
Qed.

Lemma no_more_no_value b f d :
  More d = false → starts 93 (skip (unread d)) = false →
  (s ← separator b (unread d); parse_value f s) = None.
Proof.
  unfold More, separator. intros Hm Hc. destruct f as [|f].
  { by destruct b; cbn; [|destruct (starts 44 _)]. }
  destruct (skip (unread d)) as [|c r] eqn:Hs.
  { destruct b; cbn [mbind option_bind starts parse_value]; [by rewrite Hs|done]. }
  cbn [starts] in *. rewrite Hc in Hm. destruct (is_byte 125 c) eqn:H; [known_bytes|done].
  destruct b; cbn [mbind option_bind parse_value]; [|done]. rewrite Hs. unfold starts. known_bytes.
  by apply scan_scalar_punctuation; auto.
Qed.

(** What the three functions of the walk compute, with the fuel of the parser
    on the same bytes. *)
Definition value_spec (f : nat) : Prop :=
  ∀ depth nodes d, value_position d →
    good (walk_value w f depth nodes d) =
      ('(st, s) ← separated (token_state d) (unread d);
       '(t, rest) ← parse_value f s;
       n ← good (check_tree w depth nodes t);
       Some (decoder_at rest (value_end st) (token_stack d), n)).

Definition fields_spec (f : nat) : Prop :=
  ∀ keys depth nodes d, token_state d = ObjectStart ∨ token_state d = ObjectComma →
    good (walk_fields w f keys depth nodes d) =
      ('(l, rest) ← parse_fields f (bool_decide (token_state d = ObjectStart)) (unread d);
       n ← good (check_fields w (check_tree w (depth + 1)) keys nodes l);
       Some (pop_state rest d, n)).

Definition items_spec (f : nat) : Prop :=
  ∀ depth nodes d, token_state d = ArrayStart ∨ token_state d = ArrayComma →
    good (walk_items w f depth nodes d) =
      ('(l, rest) ← parse_items f (bool_decide (token_state d = ArrayStart)) (unread d);
       n ← good (check_items (check_tree w (depth + 1)) nodes l);
       Some (pop_state rest d, n)).

Lemma scan_scalar_scalar s v r :
  scan_scalar s = Some (v, r) →
  ∀ depth nodes, check_tree w depth nodes v =
    (let? nodes := enter w depth nodes in let? _ := scalar_ok w v in Ok nodes).
Proof.
  destruct s as [|c s]; [done|]. unfold scan_scalar. intros Hs depth nodes.
  repeat case_match; simplify_eq; cbn [mbind option_bind] in *;
    repeat match goal with
    | H : (match ?x with _ => _ end) = Some _ |- _ => destruct x; [|done]
    | H : (mbind _ ?x) = Some _ |- _ => destruct x as [[? ?]|]; [|done]; cbn [mbind option_bind] in H
    | H : (mbind _ ?x) = Some _ |- _ => destruct x as [?|]; [|done]; cbn [mbind option_bind] in H
    end; by simplify_eq.
Qed.

Lemma value_step f : fields_spec f → items_spec f → value_spec (S f).
Proof.
  intros IHf IHi depth nodes d Hpos. pose proof (token_value d Hpos) as Ht. cbn [walk_value parse_value].
  rewrite good_rbind.
  destruct (separated (token_state d) (unread d)) as [[st s]|]; cbn [mbind option_bind] in *;
    [|destruct (enter w depth nodes); cbn [good]; [|done]; by destruct (Token d)].
  unfold value_token in Ht. destruct (skip s) as [|c r] eqn:Hs; cbn [starts].
  { destruct (enter w depth nodes); cbn [good]; [|done]. by destruct (Token d). }
  destruct (is_byte 123 c) eqn:H1; [|destruct (is_byte 91 c) eqn:H2].
  - destruct (Token d) as [[tok d']|]; cbn in Ht; simplify_eq. change (drop 1 (c :: r)) with r.
    destruct (enter w depth nodes) as [n|] eqn:He; cbn [good mbind option_bind].
    + rewrite H1, IHf by (by left). cbn [unread token_state decoder_at].
      rewrite bool_decide_eq_true_2 by done.
      destruct (parse_fields f true r) as [[l rest]|]; cbn [mbind option_bind]; [|done].
      cbn [check_tree]. rewrite He. done.
    + destruct (parse_fields f true r) as [[l rest]|]; cbn [mbind option_bind]; [|done].
      cbn [check_tree]. by rewrite He.
  - destruct (Token d) as [[tok d']|]; cbn in Ht; simplify_eq. change (drop 1 (c :: r)) with r.
    destruct (enter w depth nodes) as [n|] eqn:He; cbn [good mbind option_bind].
    + rewrite H1, H2, IHi by (by left). cbn [unread token_state decoder_at].
      rewrite bool_decide_eq_true_2 by done.
      destruct (parse_items f true r) as [[l rest]|]; cbn [mbind option_bind]; [|done].
      cbn [check_tree]. rewrite He. done.
    + destruct (parse_items f true r) as [[l rest]|]; cbn [mbind option_bind]; [|done].
      cbn [check_tree]. by rewrite He.
  - destruct (scan_scalar (c :: r)) as [[v rest]|] eqn:Hv; cbn [mbind option_bind] in *.
    + rewrite (scan_scalar_scalar _ _ _ Hv). destruct (Token d) as [[tok d']|]; cbn in Ht; simplify_eq.
      destruct (enter w depth nodes); cbn; [|done]. by destruct (scalar_ok w v).
    + destruct (enter w depth nodes); cbn [good]; [|done]. by destruct (Token d).
Qed.

Lemma fields_step f : value_spec f → fields_spec f → fields_spec (S f).
Proof.
  intros IHv IHf keys depth nodes d Hst. cbn [walk_fields parse_fields]. destruct (More d) eqn:Hm.
  - assert (starts 125 (skip (unread d)) = false) as ->.
    { unfold More in Hm. destruct (skip (unread d)) as [|c r]; [done|]. cbn. go_bools. done. }
    rewrite good_rbind, walk_key_good by done.
    destruct (separator _ _) as [s|]; cbn [mbind option_bind]; [|done]. unfold scan_key.
    destruct (scan_name s) as [[k rest]|]; cbn [mbind option_bind]; [|done].
    set (d1 := decoder_at rest ObjectColon (token_stack d)).
    assert (∀ n, good (walk_value w f (depth + 1) n d1) =
      ('(t, s) ← (if starts 58 (skip rest) then parse_value f (drop 1 (skip rest)) else None);
       n ← good (check_tree w (depth + 1) n t); Some (decoder_at s ObjectComma (token_stack d), n))) as Hval.
    { intros n. rewrite IHv by (by right; left). cbn [separated token_state unread d1 decoder_at].
      by destruct (starts 58 (skip rest)). }
    destruct (bool_decide (k ∈ keys)) eqn:Hk; cbn [mbind option_bind].
    + destruct (starts 58 (skip rest)); cbn [mbind option_bind]; [|done].
      destruct (parse_value f _) as [[v s3]|]; cbn [mbind option_bind]; [|done].
      destruct (parse_fields f false s3) as [[l r']|]; cbn [mbind option_bind]; [|done].
      cbn [check_fields]. by rewrite Hk.
    + cbn [fst snd]. rewrite good_rbind, Hval. destruct (starts 58 (skip rest)); cbn [mbind option_bind]; [|done].
      destruct (parse_value f _) as [[v s3]|]; cbn [mbind option_bind]; [|done].
      destruct (check_tree w (depth + 1) nodes v) as [n|] eqn:Hc; cbn [good mbind option_bind fst snd].
      * rewrite IHf by (by right). cbn [token_state unread decoder_at].
        rewrite bool_decide_eq_false_2 by done.
        destruct (parse_fields f false s3) as [[l r']|]; cbn [mbind option_bind]; [|done].
        cbn [check_fields]. rewrite Hk. cbn [negb]. by rewrite Hc.
      * destruct (parse_fields f false s3) as [[l r']|]; cbn [mbind option_bind]; [|done].
        cbn [check_fields]. rewrite Hk. cbn [negb]. by rewrite Hc.
  - rewrite (walk_end_good true) by done. destruct (starts 125 _) eqn:Hs; [done|].
    pose proof (no_more_no_key (bool_decide (token_state d = ObjectStart)) d Hm Hs) as Hn.
    destruct (separator _ _) as [s|]; cbn [mbind option_bind] in *; [|done]. by rewrite Hn.
Qed.

Lemma items_step f : value_spec f → items_spec f → items_spec (S f).
Proof.
  intros IHv IHi depth nodes d Hst. cbn [walk_items parse_items]. destruct (More d) eqn:Hm.
  - assert (starts 93 (skip (unread d)) = false) as ->.
    { unfold More in Hm. destruct (skip (unread d)) as [|c r]; [done|]. cbn. go_bools. done. }
    assert (∀ n, good (walk_value w f (depth + 1) n d) =
      (s ← separator (bool_decide (token_state d = ArrayStart)) (unread d);
       '(t, s) ← parse_value f s; n ← good (check_tree w (depth + 1) n t);
       Some (decoder_at s ArrayComma (token_stack d), n))) as Hval.
    { intros n. rewrite IHv by (by right; right). destruct Hst as [-> | ->]; cbn [separated].
      - by rewrite bool_decide_eq_true_2.
      - rewrite bool_decide_eq_false_2 by done. unfold separator. by destruct (starts 44 _). }
    rewrite good_rbind, Hval. destruct (separator _ _) as [s|]; cbn [mbind option_bind]; [|done].
    destruct (parse_value f s) as [[v s3]|]; cbn [mbind option_bind]; [|done].
    destruct (check_tree w (depth + 1) nodes v) as [n|] eqn:Hc; cbn [good mbind option_bind fst snd].
    + rewrite IHi by (by right). cbn [token_state unread decoder_at]. rewrite bool_decide_eq_false_2 by done.
      destruct (parse_items f false s3) as [[l r']|]; cbn [mbind option_bind]; [|done].
      cbn [check_items]. by rewrite Hc.
    + destruct (parse_items f false s3) as [[l r']|]; cbn [mbind option_bind]; [|done].
      cbn [check_items]. by rewrite Hc.
  - rewrite (walk_end_good false) by done. destruct (starts 93 _) eqn:Hs; [done|].
    pose proof (no_more_no_value (bool_decide (token_state d = ArrayStart)) f d Hm Hs) as Hn.
    destruct (separator _ _) as [s|]; cbn [mbind option_bind] in *; [|done]. by rewrite Hn.
Qed.

Lemma walk_spec f : value_spec f ∧ fields_spec f ∧ items_spec f.
Proof.
  induction f as [|f (IHv & IHf & IHi)].
  - split_and!; intros ?; intros; cbn; [by destruct (separated _ _) as [[??]|]|done|done].
  - split_and!; [by apply value_step|by apply fields_step|by apply items_step].
Qed.

(** A walk accepts exactly the documents whose tree passes its checks. *)
Lemma walk_document_spec trailing raw :
  walk_document w trailing raw = Ok tt ↔ ∃ t n, document raw = Some t ∧ check_tree w 0 0 t = Ok n.
Proof.
  destruct (walk_spec (parse_fuel raw)) as [Hv _].
  specialize (Hv 0%Z 0%Z (NewDecoder raw) (or_introl eq_refl)). cbn [separated NewDecoder token_state unread] in Hv.
  unfold walk_document, document. cbn [mbind option_bind] in Hv.
  destruct (parse_value (parse_fuel raw) raw) as [[t rest]|]; cbn [mbind option_bind] in *.
  2: { destruct (walk_value _ _ _ _ _); [done|]. split; [done|]. by intros (?&?&?&?). }
  destruct (check_tree w 0 0 t) as [n|] eqn:Hc; cbn [good mbind option_bind] in Hv.
  2: { destruct (walk_value _ _ _ _ _); [done|]. split; [done|].
       intros (t' & n' & Ht & Hc'). case_bool_decide; simplify_eq. congruence. }
  destruct (walk_value _ _ _ _ _) as [[d n']|]; cbn in Hv; simplify_eq. cbn [rbind fst].
  assert (Token (decoder_at rest (value_end TopValue) []) = Err TokenEOF ↔ skip rest = []) as Hend.
  { unfold Token. cbn [token_loop unread decoder_at]. destruct (skip rest) as [|c r]; [done|]. split; [|done].
    cbn [token_state value_end value_allowed]. intros Hx. exfalso. revert Hx.
    repeat first [case_match; [done|]|done|case_match; simplify_eq]. }
  cbn [value_end token_stack NewDecoder] in *.
  case_bool_decide as Hr.
  - apply Hend in Hr. rewrite Hr. split; eauto.
  - split; [|by intros (?&?&?&?)]. destruct (Token _) as [?|[]]; [done| |done]. by intros _; destruct Hr; apply Hend.
Qed.

(** *** The fuel of the walk *)

Lemma walk_fields_S f keys depth nodes d :
  walk_fields w (S f) keys depth nodes d =
    if More d then
      let? kd := walk_key w keys d in
      let? dn := walk_value w f (depth + 1) nodes kd.2 in
      walk_fields w f (kd.1 :: keys) depth dn.2 dn.1
    else walk_end 125 (open_object w) nodes d.
Proof. done. Qed.

Lemma walk_items_S f depth nodes d :
  walk_items w (S f) depth nodes d =
    if More d then let? dn := walk_value w f (depth + 1) nodes d in walk_items w f depth dn.2 dn.1
    else walk_end 93 (open_array w) nodes d.
Proof. done. Qed.

Lemma walk_end_length close (e : E) nodes d d' n :
  walk_end close e nodes d = Ok (d', n) → length (unread d') < length (unread d).
Proof.
  unfold walk_end. destruct (Token d) as [[[c|v] d1]|] eqn:Ht; [|done|done].
  destruct (is_byte close c); [|done]. intros [= <- <-]. by apply token_length in Ht.
Qed.

Lemma walk_key_length keys d k d' :
  walk_key w keys d = Ok (k, d') → length (unread d') < length (unread d).
Proof.
  unfold walk_key. destruct (Token d) as [[[c|[]] d1]|] eqn:Ht; [done..| |done|done|done].
  destruct (negb _); [|done]. intros [= <- <-]. by apply token_length in Ht.
Qed.

Lemma walk_length f :
  (∀ depth nodes d d' n, walk_value w f depth nodes d = Ok (d', n) → length (unread d') < length (unread d)) ∧
  (∀ keys depth nodes d d' n, walk_fields w f keys depth nodes d = Ok (d', n) → length (unread d') < length (unread d)) ∧
  (∀ depth nodes d d' n, walk_items w f depth nodes d = Ok (d', n) → length (unread d') < length (unread d)).
Proof.
  induction f as [|f (IHv & IHf & IHi)]; [done|]. split_and!.
  - intros depth nodes d d' n. cbn [walk_value]. destruct (enter w depth nodes) as [n1|]; [|done]. cbn [rbind].
    destruct (Token d) as [[[c|v] d1]|] eqn:Ht; [|destruct (scalar_ok w v); [|done]; intros [= <- <-]; by apply token_length in Ht|done].
    apply token_length in Ht. destruct (is_byte 123 c); [intros H%IHf; lia|].
    destruct (is_byte 91 c); [intros H%IHi; lia|done].
  - intros keys depth nodes d d' n. rewrite !walk_fields_S. destruct (More d); [|apply walk_end_length].
    destruct (walk_key w keys d) as [[k d1]|] eqn:Hk; [|done]. apply walk_key_length in Hk. cbn [rbind fst snd].
    destruct (walk_value w f _ _ _) as [[d2 n2]|] eqn:Hv; [|done]. apply IHv in Hv. cbn [rbind fst snd].
    intros H%IHf. lia.
  - intros depth nodes d d' n. rewrite !walk_items_S. destruct (More d); [|apply walk_end_length].
    destruct (walk_value w f _ _ _) as [[d2 n2]|] eqn:Hv; [|done]. apply IHv in Hv. cbn [rbind fst snd].
    intros H%IHi. lia.
Qed.

(** With two calls per unread byte, the answer does not depend on the fuel. *)
Lemma walk_fuel_enough f :
  (∀ g depth nodes d, 2 * length (unread d) + 1 ≤ f → 2 * length (unread d) + 1 ≤ g →
     walk_value w f depth nodes d = walk_value w g depth nodes d) ∧
  (∀ g keys depth nodes d, 2 * length (unread d) + 2 ≤ f → 2 * length (unread d) + 2 ≤ g →
     walk_fields w f keys depth nodes d = walk_fields w g keys depth nodes d) ∧
  (∀ g depth nodes d, 2 * length (unread d) + 2 ≤ f → 2 * length (unread d) + 2 ≤ g →
     walk_items w f depth nodes d = walk_items w g depth nodes d).
Proof.
  induction f as [|f (IHv & IHf & IHi)]; [split_and!; intros; lia|]. split_and!.
  - intros [|g] depth nodes d Hf Hg; [lia|]. cbn [walk_value]. destruct (enter w depth nodes) as [n1|]; [|done].
    cbn [rbind]. destruct (Token d) as [[[c|v] d1]|] eqn:Ht; [|done|done]. apply token_length in Ht.
    rewrite (IHf g), (IHi g) by lia. done.
  - intros [|g] keys depth nodes d Hf Hg; [lia|]. rewrite !walk_fields_S. destruct (More d); [|done].
    destruct (walk_key w keys d) as [[k d1]|] eqn:Hk; [|done]. apply walk_key_length in Hk. cbn [rbind fst snd].
    rewrite (IHv g) by lia. destruct (walk_value w g _ _ _) as [[d2 n2]|] eqn:Hv; [|done]. apply walk_length in Hv.
    cbn [rbind fst snd]. apply IHf; lia.
  - intros [|g] depth nodes d Hf Hg; [lia|]. rewrite !walk_items_S. destruct (More d); [|done].
    rewrite (IHv g) by lia. destruct (walk_value w g _ _ _) as [[d2 n2]|] eqn:Hv; [|done]. apply walk_length in Hv.
    cbn [rbind fst snd]. apply IHi; lia.
Qed.
End walk.
