(* ===== verification/JsonText.v ===== *)
(** * UTF-8 and the strings of JSON

    Decoding and encoding of runes are inverse, the scanner only produces
    valid UTF-8, and it reads back every string that is written rune by rune
    with escapes. *)

From Stdlib Require Import ZifyNat.
From S2P Require Import Prelude GoLib Encoding Json JsonProps.

Open Scope go_scope.

(** ** Runes *)

Lemma code_zbyte z : (0 ≤ z < 256)%Z → code (zbyte z) = Z.to_nat z.
Proof. intros Hz. unfold zbyte, byte. apply Ascii.nat_ascii_embedding. lia. Qed.

Lemma zcode_range c : (0 ≤ zcode c < 256)%Z.
Proof. unfold zcode. pose proof (nat_of_ascii_small c). lia. Qed.

Lemma zbyte_code c z : z = zcode c → zbyte z = c.
Proof. intros ->. unfold zbyte, zcode. rewrite Nat2Z.id. apply Ascii.ascii_nat_embedding. Qed.

Lemma byte_in_zcode lo hi c : byte_in lo hi c = true ↔ (Z.of_nat lo ≤ zcode c ≤ Z.of_nat hi)%Z.
Proof. unfold byte_in, zcode. rewrite andb_true_iff, !bool_decide_eq_true. lia. Qed.

Lemma is_byte_zcode n c : is_byte n c = true ↔ zcode c = Z.of_nat n.
Proof. unfold is_byte, zcode. rewrite bool_decide_eq_true. lia. Qed.

Lemma zcode_zbyte z : (0 ≤ z < 256)%Z → zcode (zbyte z) = z.
Proof. intros Hz. unfold zcode. rewrite code_zbyte by done. lia. Qed.

(** The bytes are one rune. *)
Definition one_rune (c : bytes) : Prop := rune_length c = Some (length c).

Lemma rune_length_app c s n : rune_length c = Some n → rune_length (c ++ s) = Some n.
Proof.
  destruct c as [|a [|b [|d [|e c]]]]; cbn; intros H; [done|..];
    repeat case_match; simplify_eq/=; try done; congruence.
Qed.

Lemma rune_length_take s n : rune_length s = Some n → one_rune (take n s).
Proof.
  unfold one_rune, rune_length. intros H. repeat case_match; simplify_eq/=; try done;
    repeat (match goal with Hx : ?x = _ |- context [?x] => rewrite Hx end); try done; congruence.
Qed.

Definition cont (c : Ascii.ascii) : Prop := (128 ≤ zcode c ≤ 191)%Z.

(** The encodings of runes, by their length. *)
Inductive Rune : bytes → Prop :=
| rune1 a : (zcode a < 128)%Z → Rune [a]
| rune2 a b : (194 ≤ zcode a ≤ 223)%Z → cont b → Rune [a; b]
| rune3 a b c : (224 ≤ zcode a ≤ 239)%Z → cont b → cont c →
   (zcode a = 224 → 160 ≤ zcode b)%Z → (zcode a = 237 → zcode b ≤ 159)%Z → Rune [a; b; c]
| rune4 a b c d : (240 ≤ zcode a ≤ 244)%Z → cont b → cont c → cont d →
   (zcode a = 240 → 144 ≤ zcode b)%Z → (zcode a = 244 → zcode b ≤ 143)%Z → Rune [a; b; c; d].

Ltac bytes_to_z :=
  unfold continuation in *;
  repeat match goal with
  | H : _ = false |- _ => apply not_true_iff_false in H
  | H : context [_ && _ = true] |- _ => rewrite andb_true_iff in H
  | H : context [_ || _ = true] |- _ => rewrite orb_true_iff in H
  | H : context [byte_in _ _ _ = true] |- _ => rewrite byte_in_zcode in H
  | H : context [is_byte _ _ = true] |- _ => rewrite is_byte_zcode in H
  end.

Lemma Rune_one_rune c : Rune c → one_rune c.
Proof.
  unfold one_rune. intros Hc. pose proof zcode_range as Hr.
  destruct Hc as [a Ha|a b Ha Hb|a b c Ha Hb Hc Hx Hy|a b c d Ha Hb Hc Hd Hx Hy]; cbn [rune_length length];
    repeat case_match; try done; exfalso; unfold cont in *; bytes_to_z; pose proof (Hr a); try pose proof (Hr b); lia.
Qed.

Lemma one_rune_Rune c : one_rune c → Rune c.
Proof.
  unfold one_rune. pose proof zcode_range as Hr. intros Hc. pose proof (rune_length_bounds _ _ Hc) as Hb.
  destruct c as [|a [|b [|x [|d [|e c]]]]]; cbn [length] in Hb; try lia; cbn [rune_length length] in Hc;
    repeat case_match; simplify_eq; bytes_to_z; pose proof (Hr a); constructor; unfold cont; lia.
Qed.

(** [utf8.DecodeRune] and [utf8.AppendRune] are inverse on an encoding. *)
Lemma encode_rune_value c s : Rune c → encode_rune (rune_value (length c) (c ++ s)) = c.
Proof.
  intros Hc. pose proof zcode_range as Hr. unfold encode_rune, surrogate.
  destruct Hc as [a Ha|a b Ha Hb|a b c Ha Hb Hc Hx Hy|a b c d Ha Hb Hc Hd Hx Hy]; cbn [length app rune_value];
    unfold cont in *; pose proof (Hr a);
    match goal with |- context [if _ then RuneError else ?r] =>
      assert (((55296 <=? r) && (r <? 57344) || (1114111 <? r))%Z = false) as -> by lia end.
  - rewrite (proj2 (Z.ltb_lt _ _)) by lia. f_equal. by apply zbyte_code.
  - rewrite (proj2 (Z.ltb_ge _ _)) by lia. rewrite (proj2 (Z.ltb_lt _ _)) by lia.
    f_equal; [|f_equal]; apply zbyte_code; lia.
  - rewrite !(proj2 (Z.ltb_ge _ _)) by lia. rewrite (proj2 (Z.ltb_lt _ _)) by lia.
    f_equal; [|f_equal; [|f_equal]]; apply zbyte_code; lia.
  - rewrite !(proj2 (Z.ltb_ge _ _)) by lia. f_equal; [|f_equal; [|f_equal; [|f_equal]]]; apply zbyte_code; lia.
Qed.

Lemma encode_rune_Rune r : (0 ≤ r)%Z → Rune (encode_rune r).
Proof.
  intros Hr. unfold encode_rune. set (x := if surrogate r || _ then _ else _).
  assert (0 ≤ x ≤ 1114111 ∧ (x < 55296 ∨ 57344 ≤ x))%Z as Hx.
  { unfold x, surrogate, RuneError. case_match; lia. }
  clearbody x. clear Hr r. destruct Hx as [Hx Hs].
  destruct (x <? 128)%Z eqn:H1; [|destruct (x <? 2048)%Z eqn:H2; [|destruct (x <? 65536)%Z eqn:H3]];
    go_bools; constructor; unfold cont; rewrite ?zcode_zbyte by lia; lia.
Qed.

(** ** Valid UTF-8 *)

Inductive utf8 : bytes → Prop :=
| utf8_nil : utf8 []
| utf8_rune c s : Rune c → utf8 s → utf8 (c ++ s).

Lemma utf8_app s t : utf8 s → utf8 t → utf8 (s ++ t).
Proof. induction 1 as [|c s Hc _ IH]; intros Ht; [done|]. rewrite <- app_assoc. constructor; auto. Qed.

Lemma rune_length_Rune s n : rune_length s = Some n → Rune (take n s).
Proof. intros H. by apply one_rune_Rune, rune_length_take. Qed.

Lemma rune_length_of c s : Rune c → rune_length (c ++ s) = Some (length c).
Proof. intros H. by apply rune_length_app, Rune_one_rune. Qed.

Lemma Rune_length c : Rune c → 1 ≤ length c ≤ 4.
Proof. intros Hc. destruct Hc; cbn; lia. Qed.

Lemma valid_runes_utf8 f s : length s ≤ f → valid_runes f s = true ↔ utf8 s.
Proof.
  revert s. induction f as [|f IH]; intros s Hf.
  { destruct s; [|cbn in Hf; lia]. split; [intros _; constructor|done]. }
  destruct s as [|c s]; [split; [intros _; constructor|done]|]. cbn [valid_runes]. split.
  - destruct (rune_length (c :: s)) as [n|] eqn:Hn; [|done]. intros Hv.
    pose proof (rune_length_bounds _ _ Hn). rewrite <- (take_drop n (c :: s)). constructor.
    + by apply rune_length_Rune.
    + apply IH; [rewrite length_drop; cbn in *; lia|done].
  - intros Hu. remember (c :: s) as u eqn:Heq. destruct Hu as [|x t Hx Ht]; [done|].
    pose proof (Rune_length _ Hx). rewrite rune_length_of, drop_app_length by done.
    apply IH; [|done]. rewrite length_app in Hf. lia.
Qed.

Lemma ValidUTF8_spec s : ValidUTF8 s = true ↔ utf8 s.
Proof. by apply valid_runes_utf8. Qed.

(** ** Reading strings *)

Lemma hex_value_range c x : hex_value c = Some x → (0 ≤ x < 16)%Z.
Proof. unfold hex_value. intros H. repeat case_match; simplify_eq; bytes_to_z; lia. Qed.

Lemma getu4_range s r : getu4 s = Some r → (0 ≤ r)%Z.
Proof.
  unfold getu4. intros H. destruct s as [|? [|? [|h1 [|h2 [|h3 [|h4 ?]]]]]]; try done.
  destruct (_ && _); [|done].
  destruct (hex_value h1) eqn:H1; [|done]. destruct (hex_value h2) eqn:H2; [|done].
  destruct (hex_value h3) eqn:H3; [|done]. destruct (hex_value h4) eqn:H4; [|done].
  cbn in H. apply hex_value_range in H1, H2, H3, H4. simplify_eq. lia.
Qed.

Lemma surrogate_pair_range r1 r2 r : surrogate_pair r1 r2 = Some r → (0 ≤ r)%Z.
Proof. unfold surrogate_pair. intros H. case_match; simplify_eq. lia. Qed.

Lemma rune_value_nonneg n s : (0 ≤ rune_value n s)%Z.
Proof.
  unfold rune_value.
  repeat case_match; repeat first [done|apply Z.add_nonneg_nonneg|apply Z.mul_nonneg_nonneg|
    apply Z.mod_pos_bound; done|apply zcode_range].
Qed.

Lemma simple_escape_small c b : simple_escape c = Some b → (zcode b < 128)%Z.
Proof.
  unfold simple_escape. intros H. repeat case_match; simplify_eq; bytes_to_z; try (vm_compute; reflexivity). lia.
Qed.

(** Every character of a string literal stands for one rune. *)
Lemma string_step_rune s e n : string_step s = Some (e, n) → Rune e.
Proof.
  destruct s as [|c s]; [done|]. unfold string_step. destruct (is_byte 92 c).
  - destruct s as [|e' s]; [done|]. destruct (is_byte 117 e').
    + destruct (getu4 (c :: e' :: s)) as [r1|] eqn:H1; [|done]. cbn [mbind option_bind]. apply getu4_range in H1.
      destruct (surrogate r1); [|intros [= <- <-]; by apply encode_rune_Rune].
      destruct (getu4 (drop 6 _)) as [r2|] eqn:H2; cbn [mbind option_bind];
        [destruct (surrogate_pair r1 r2) eqn:H3; [apply surrogate_pair_range in H3|]|];
        intros [= <- <-]; apply encode_rune_Rune; unfold RuneError; lia.
    + destruct (simple_escape e') as [b|] eqn:Hb; [|done]. intros [= <- <-]. constructor. by eapply simple_escape_small.
  - destruct (code c <? 32); [done|]. destruct (DecodeRune (c :: s)) as [r m] eqn:Hd. intros [= <- <-].
    apply encode_rune_Rune. unfold DecodeRune in Hd. destruct (rune_length (c :: s)); simplify_eq; [|unfold RuneError; lia].
    apply rune_value_nonneg.
Qed.

(** A string the scanner returns is valid UTF-8. *)
Lemma scan_string_utf8 f s t r : scan_string f s = Some (t, r) → utf8 t.
Proof.
  revert s t r. induction f as [|f IH]; intros s t r Hs; [done|].
  destruct s as [|c s]; [done|]. cbn [scan_string] in Hs. destruct (is_byte 34 c); [simplify_eq; constructor|].
  destruct (string_step (c :: s)) as [[e n]|] eqn:Hst; [|done]. cbn [mbind option_bind] in Hs.
  destruct (scan_string f _) as [[t' r']|] eqn:Hr; [|done]. cbn [mbind option_bind] in Hs. simplify_eq.
  constructor; [by eapply string_step_rune|by eapply IH].
Qed.

(** ** Writing strings *)

(** The scanner reads [p] as one character that stands for [c]. *)
Definition reads_as (p c : bytes) : Prop :=
  0 < length p ∧ starts 34 p = false ∧ ∀ tail, string_step (p ++ tail) = Some (c, length p).

(** A text written character by character. *)
Inductive written : bytes → bytes → Prop :=
| written_nil : written [] []
| written_app p c t s : reads_as p c → written t s → written (p ++ t) (c ++ s).

Lemma scan_written t s rest f :
  written t s → length (t ++ dquote :: rest) ≤ f → scan_string f (t ++ dquote :: rest) = Some (s, rest).
Proof.
  intros Hw. revert f. induction Hw as [|p c t s (Hp & Hq & Hstep) _ IH]; intros f Hf.
  - destruct f as [|f]; [cbn in Hf; lia|]. done.
  - destruct p as [|b p]; [cbn in Hp; lia|]. destruct f as [|f]; [cbn in Hf; lia|].
    specialize (Hstep (t ++ dquote :: rest)). rewrite <- app_assoc in *.
    cbn [starts] in Hq. change ((b :: p) ++ t ++ dquote :: rest) with (b :: (p ++ t ++ dquote :: rest)) in *.
    cbn [scan_string]. rewrite Hq, Hstep. cbn [mbind option_bind].
    change (b :: (p ++ t ++ dquote :: rest)) with ((b :: p) ++ (t ++ dquote :: rest)).
    rewrite drop_app_length, IH; [done|]. cbn [length] in Hf. rewrite (length_app p) in Hf. lia.
Qed.

(** A character that is neither escaped nor special stands for itself. *)
Lemma rune_reads_as c : Rune c → (∀ a, c = [a] → 32 ≤ zcode a ∧ zcode a ≠ 34 ∧ zcode a ≠ 92)%Z → reads_as c c.
Proof.
  intros Hc Ha. assert (∀ a, (32 ≤ zcode a)%Z → (code a <? 32) = false) as H32.
  { intros a H. apply Nat.ltb_ge. unfold zcode in H. lia. }
  assert (∃ a r, c = a :: r ∧ 32 ≤ zcode a ∧ zcode a ≠ 34 ∧ zcode a ≠ 92)%Z as (a & r & Hac & H1 & H2 & H3).
  { destruct Hc; eexists _, _; (split; [done|]); [by apply Ha|lia..]. }
  assert (is_byte 34 a = false ∧ is_byte 92 a = false) as [H34 H92].
  { split; apply not_true_iff_false; rewrite is_byte_zcode; lia. }
  split_and!; [apply Rune_length in Hc; lia|by rewrite Hac|]. intros tail.
  pose proof (encode_rune_value c tail Hc) as He. pose proof (rune_length_of c tail Hc) as Hl.
  rewrite Hac in *. cbn [app] in *. unfold string_step. rewrite H92, (H32 a H1). cbn [DecodeRune].
  rewrite Hl. by rewrite He.
Qed.

Ltac each_byte c := destruct c as [[] [] [] [] [] [] [] []].

Lemma json_ascii_reads_as c : (zcode c < 128)%Z → reads_as (json_ascii c) [c].
Proof.
  intros Hc. each_byte c; try (exfalso; vm_compute in Hc; discriminate Hc); (split; [vm_compute; lia|]); by split.
Qed.
