(* ===== verification/JsonPrint.v ===== *)
(** * Printing a tree and reading it back

    [print] writes a tree without white space, with a given way to write
    strings; the parser reads the tree back from it. [json.Marshal] prints the
    tree with the fields of every object sorted. *)

From Stdlib Require Import ZifyNat.
From S2P Require Import Prelude GoLib Encoding Json JsonProps JsonText.

Open Scope go_scope.

(** ** The printer *)

Section print.
Variable quote : string → bytes.

Fixpoint print (t : JSON) : bytes :=
  match t with
  | JNull => text "null"
  | JBool b => text (if b then "true" else "false")
  | JNumber s => text s
  | JText s => quote s
  | JArray l => text "[" ++ join (text ",") (map print l) ++ text "]"
  | JObject l => text "{" ++ join (text ",") (map (λ '(k, v), quote k ++ text ":" ++ print v) l) ++ text "}"
  end.
End print.

(** Every object with its fields in the order of their names. *)
Fixpoint sort_tree (t : JSON) : JSON :=
  match t with
  | JArray l => JArray (map sort_tree l)
  | JObject l => JObject (sort_fields (map (λ '(k, v), (k, sort_tree v)) l))
  | t => t
  end.

(** The names of the fields of every object differ. *)
Fixpoint unique_keys (t : JSON) : Prop :=
  match t with
  | JArray l => foldr (λ t P, unique_keys t ∧ P) True l
  | JObject l => NoDup l.*1 ∧ foldr (λ kv P, unique_keys kv.2 ∧ P) True l
  | _ => True
  end.

Definition text_ok (s : string) : Prop := utf8 (text s).
Definition number_ok (s : string) : Prop := scan_number (text s) = Some (text s, []).

(** What the parser builds trees of: strings in UTF-8 and JSON numbers. *)
Fixpoint tree_ok (t : JSON) : Prop :=
  match t with
  | JNumber s => number_ok s
  | JText s => text_ok s
  | JArray l => foldr (λ t P, tree_ok t ∧ P) True l
  | JObject l => foldr (λ kv P, text_ok kv.1 ∧ tree_ok kv.2 ∧ P) True l
  | _ => True
  end.

Lemma foldr_and {A} (P : A → Prop) l : foldr (λ x Q, P x ∧ Q) True l ↔ Forall P l.
Proof. induction l as [|x l IH]; cbn; [done|]. by rewrite Forall_cons, IH. Qed.

Lemma foldr_and2 {A} (P Q : A → Prop) l : foldr (λ x R, P x ∧ Q x ∧ R) True l ↔ Forall (λ x, P x ∧ Q x) l.
Proof. induction l as [|x l IH]; cbn; [done|]. rewrite Forall_cons, IH. tauto. Qed.

(** ** Numbers before other bytes *)

(** Bytes that do not continue a number. *)
Definition stops (s : bytes) : Prop :=
  match s with
  | [] => True
  | c :: _ => digit c = false ∧ is_byte 46 c = false ∧ is_byte 101 c = false ∧ is_byte 69 c = false
  end.

Lemma span_digits_app s ds r rest :
  span_digits s = (ds, r) → stops rest → span_digits (s ++ rest) = (ds, r ++ rest).
Proof.
  revert ds r. induction s as [|c s IH]; intros ds r Hs Hr; cbn in *.
  - simplify_eq. destruct rest as [|c rest]; [done|]. cbn in *. by destruct Hr as [-> _].
  - destruct (digit c); [|by simplify_eq]. destruct (span_digits s) as [ds' r'] eqn:Hd. simplify_eq.
    by rewrite (IH ds' r).
Qed.

Lemma some_digits_app s ds r rest :
  some_digits s = Some (ds, r) → stops rest → some_digits (s ++ rest) = Some (ds, r ++ rest).
Proof.
  unfold some_digits. intros Hs Hr. destruct (span_digits s) as [ds' r'] eqn:Hd.
  rewrite (span_digits_app _ _ _ _ Hd Hr). by destruct ds'; simplify_eq.
Qed.

Lemma scan_fraction_app s x r rest :
  scan_fraction s = Some (x, r) → stops rest → scan_fraction (s ++ rest) = Some (x, r ++ rest).
Proof.
  intros Hs Hr. destruct s as [|c s]; cbn in *.
  - simplify_eq. destruct rest as [|c rest]; [done|]. cbn in *. by destruct Hr as (_ & -> & _).
  - destruct (is_byte 46 c); [|by simplify_eq]. destruct (some_digits s) as [[ds r']|] eqn:Hd; [|done].
    rewrite (some_digits_app _ _ _ _ Hd Hr). cbn in *. by simplify_eq.
Qed.

Lemma scan_exponent_app s x r rest :
  scan_exponent s = Some (x, r) → stops rest → scan_exponent (s ++ rest) = Some (x, r ++ rest).
Proof.
  intros Hs Hr. destruct s as [|c s]; cbn in *.
  - simplify_eq. destruct rest as [|c rest]; [done|]. cbn in *. by destruct Hr as (_ & _ & -> & ->).
  - destruct (_ || _); [|by simplify_eq]. destruct s as [|g s]; [done|]. cbn [app]. destruct (_ || _).
    + destruct (some_digits s) as [[ds r']|] eqn:Hd; [|done].
      rewrite (some_digits_app _ _ _ _ Hd Hr). cbn in *. by simplify_eq.
    + change (g :: s ++ rest) with ((g :: s) ++ rest). destruct (some_digits (g :: s)) as [[ds r']|] eqn:Hd; [|done].
      rewrite (some_digits_app _ _ _ _ Hd Hr). cbn in *. by simplify_eq.
Qed.

Lemma scan_number_app s x r rest :
  scan_number s = Some (x, r) → stops rest → scan_number (s ++ rest) = Some (x, r ++ rest).
Proof.
  unfold scan_number. intros Hs Hr.
  assert (∀ sg s1, scan_sign s = (sg, s1) → s1 ≠ [] → scan_sign (s ++ rest) = (sg, s1 ++ rest)) as Hsign.
  { intros sg s1. destruct s as [|c s]; cbn; [by intros [= <- <-]|]. by destruct (is_byte 45 c); intros [= <- <-]. }
  destruct (scan_sign s) as [sg s1]. destruct s1 as [|c s1]; [done|]. rewrite (Hsign sg (c :: s1)) by done.
  assert (∀ i s2, scan_integer (c :: s1) = Some (i, s2) → scan_integer ((c :: s1) ++ rest) = Some (i, s2 ++ rest)) as Hint.
  { intros i s2. unfold scan_integer. cbn [app]. destruct (is_byte 48 c); [by intros [= <- <-]|].
    destruct (digit c); [|done]. intros [= Hd]. f_equal. by apply (span_digits_app (c :: s1)). }
  destruct (scan_integer (c :: s1)) as [[i s2]|]; [|done]. rewrite (Hint i s2) by done. cbn [mbind option_bind] in *.
  destruct (scan_fraction s2) as [[fr s3]|] eqn:H3; [|done].
  rewrite (scan_fraction_app _ _ _ _ H3 Hr). cbn [mbind option_bind] in *.
  destruct (scan_exponent s3) as [[ex s4]|] eqn:H4; [|done].
  rewrite (scan_exponent_app _ _ _ _ H4 Hr). cbn [mbind option_bind] in *. by simplify_eq.
Qed.

(** A number starts with a sign or a digit. *)
Lemma scan_number_start c s x : scan_number (c :: s) = Some x → is_byte 45 c = true ∨ digit c = true.
Proof.
  unfold scan_number. cbn [scan_sign]. destruct (is_byte 45 c) eqn:H1; [by left|]. right.
  unfold scan_integer in *. destruct (digit c) eqn:Hd; [done|].
  destruct (is_byte 48 c) eqn:H0; [|done]. apply is_byte_true in H0. subst c. by vm_compute in Hd.
Qed.

(** ** Reading a printed tree *)

Lemma parse_fields_S f b s :
  parse_fields (S f) b s =
    if starts 125 (skip s) then Some ([], drop 1 (skip s))
    else s ← separator b s; '(k, s) ← scan_key s; '(v, s) ← parse_value f s;
         '(l, rest) ← parse_fields f false s; Some ((k, v) :: l, rest).
Proof. done. Qed.

Lemma parse_items_S f b s :
  parse_items (S f) b s =
    if starts 93 (skip s) then Some ([], drop 1 (skip s))
    else s ← separator b s; '(v, s) ← parse_value f s; '(l, rest) ← parse_items f false s; Some (v :: l, rest).
Proof. done. Qed.

Lemma parse_value_S f s :
  parse_value (S f) s =
    if starts 123 (skip s) then '(l, rest) ← parse_fields f true (drop 1 (skip s)); Some (JObject l, rest)
    else if starts 91 (skip s) then '(l, rest) ← parse_items f true (drop 1 (skip s)); Some (JArray l, rest)
    else scan_scalar (skip s).
Proof. done. Qed.

Lemma parse_mono f :
  (∀ g s x, f ≤ g → parse_value f s = Some x → parse_value g s = Some x) ∧
  (∀ g b s x, f ≤ g → parse_fields f b s = Some x → parse_fields g b s = Some x) ∧
  (∀ g b s x, f ≤ g → parse_items f b s = Some x → parse_items g b s = Some x).
Proof.
  induction f as [|f (IHv & IHf & IHi)]; [done|].
  split_and!; (intros [|g]; [intros; lia|]).
  - intros s x Hg%le_S_n. cbn [parse_value]. destruct (starts 123 _).
    { destruct (parse_fields f true _) as [[l r]|] eqn:H; [|done]. by rewrite (IHf g _ _ _ Hg H). }
    destruct (starts 91 _); [|done].
    destruct (parse_items f true _) as [[l r]|] eqn:H; [|done]. by rewrite (IHi g _ _ _ Hg H).
  - intros b s x Hg%le_S_n. cbn [parse_fields]. destruct (starts 125 _); [done|]. destruct (separator b s) as [s1|]; [|done]. cbn [mbind option_bind].
    destruct (scan_key _) as [[k s2]|]; [|done]. cbn [mbind option_bind].
    destruct (parse_value f s2) as [[v s3]|] eqn:H1; [|done]. rewrite (IHv g _ _ Hg H1). cbn [mbind option_bind].
    destruct (parse_fields f false s3) as [[l s4]|] eqn:H2; [|done]. by rewrite (IHf g _ _ _ Hg H2).
  - intros b s x Hg%le_S_n. cbn [parse_items]. destruct (starts 93 _); [done|]. destruct (separator b s) as [s2|]; [|done]. cbn [mbind option_bind].
    destruct (parse_value f s2) as [[v s3]|] eqn:H1; [|done]. rewrite (IHv g _ _ Hg H1). cbn [mbind option_bind].
    destruct (parse_items f false s3) as [[l s4]|] eqn:H2; [|done]. by rewrite (IHi g _ _ _ Hg H2).
Qed.

(** Any fuel that is enough gives the document. *)
Lemma parse_document f raw t : parse_value f raw = Some (t, []) → document raw = Some t.
Proof.
  intros Hp. apply (document_fuel (f + 2 * length raw + 1) raw t []); [lia| |done].
  eapply parse_mono; [|done]. lia.
Qed.

Lemma byte_in_is_byte lo hi n c : byte_in lo hi c = true → n < lo ∨ hi < n → is_byte n c = false.
Proof. intros H Hn. bytes_to_z. apply not_true_iff_false. rewrite is_byte_zcode. lia. Qed.

(** The first byte of a value. *)
Definition value_byte (c : Ascii.ascii) : Prop :=
  json_space c = false ∧ is_byte 93 c = false ∧ is_byte 125 c = false ∧ is_byte 44 c = false.

Lemma skip_value c s : json_space c = false → skip (c :: s) = c :: s.
Proof. cbn. by intros ->. Qed.

Lemma number_byte c : is_byte 45 c = true ∨ digit c = true →
  value_byte c ∧ is_byte 34 c = false ∧ is_byte 116 c = false ∧ is_byte 102 c = false ∧ is_byte 110 c = false ∧
  is_byte 123 c = false ∧ is_byte 91 c = false.
Proof.
  intros [H|H]; [apply is_byte_true in H; subst c; by vm_compute|].
  unfold value_byte, json_space. rewrite !orb_false_iff. split_and!; eapply byte_in_is_byte; (eassumption || lia).
Qed.

Section read_print.
Context (quote : string → bytes).
Hypothesis quote_ok : ∀ s, text_ok s → ∃ body, quote s = dquote :: body ++ [dquote] ∧ written body (text s).

Lemma of_text_text s : of_text (text s) = s.
Proof. apply String.string_of_list_ascii_of_string. Qed.

Lemma quote_head s rest : text_ok s → ∃ r, quote s ++ rest = dquote :: r.
Proof. intros (body & -> & _)%quote_ok. cbn. eauto. Qed.

Lemma scan_quoted s rest r :
  text_ok s → quote s ++ rest = dquote :: r → scan_string (length r) r = Some (text s, rest).
Proof.
  intros (body & -> & Hw)%quote_ok. cbn [app]. intros [= <-]. rewrite <- app_assoc. by apply scan_written.
Qed.

Lemma scan_key_quoted k rest : text_ok k → scan_key (quote k ++ text ":" ++ rest) = Some (k, rest).
Proof.
  intros Hk. unfold scan_key, scan_name. destruct (quote_head k (text ":" ++ rest) Hk) as [r Hr].
  pose proof (scan_quoted _ _ _ Hk Hr) as Hs. rewrite Hr. unfold dquote. rewrite skip_value by done. known_bytes.
  rewrite Hs. cbn [mbind option_bind]. by rewrite of_text_text.
Qed.

Lemma print_head t : tree_ok t → ∃ c r, print quote t = c :: r ∧ value_byte c.
Proof.
  destruct t as [|[]|s|s|l|l]; cbn [tree_ok print]; intros Ht.
  - by eexists _, _.
  - by eexists _, _.
  - by eexists _, _.
  - unfold number_ok in Ht. destruct (text s) as [|c r]; [done|]. eexists _, _. split; [done|].
    by apply scan_number_start, number_byte in Ht as [? _].
  - destruct (quote_ok s Ht) as (body & -> & _). by eexists _, _.
  - by eexists _, _.
  - by eexists _, _.
Qed.

Definition reads (t : JSON) : Prop :=
  ∀ rest, stops rest → ∃ f, parse_value f (print quote t ++ rest) = Some (t, rest).

Lemma reads_scalar t c r rest :
  print quote t ++ rest = c :: r → value_byte c → is_byte 123 c = false → is_byte 91 c = false →
  scan_scalar (c :: r) = Some (t, rest) → parse_value 1 (print quote t ++ rest) = Some (t, rest).
Proof.
  intros -> [Hc _] H1 H2 Hs. cbn [parse_value]. rewrite skip_value by done. unfold starts. by rewrite H1, H2.
Qed.

Lemma reads_number s : number_ok s → reads (JNumber s).
Proof.
  intros Hs rest Hr. exists 1. unfold number_ok in Hs. pose proof (scan_number_app _ _ _ rest Hs Hr) as Hn.
  destruct (text s) as [|c r] eqn:Ht; [done|].
  apply scan_number_start, number_byte in Hs as (Hv & H1 & H2 & H3 & H4 & H5 & H6).
  apply (reads_scalar _ c (r ++ rest)); cbn [print]; rewrite ?Ht; try done.
  unfold scan_scalar. rewrite H1, H2, H3, H4. cbn [app] in Hn. rewrite Hn. cbn [mbind option_bind]. by rewrite <- Ht, of_text_text.
Qed.

Lemma reads_text s : text_ok s → reads (JText s).
Proof.
  intros Hs rest Hr. exists 1. destruct (quote_head s rest Hs) as [r Hq].
  apply (reads_scalar _ dquote r); cbn [print]; try done.
  unfold scan_scalar. change (is_byte 34 dquote) with true. cbn match. rewrite (scan_quoted _ _ _ Hs Hq).
  cbn [mbind option_bind]. by rewrite of_text_text.
Qed.

(** The elements or fields after the first. *)
Definition tail_of (l : list bytes) : bytes := concat (map (λ x, text "," ++ x) l).

Lemma join_cons x l : join (text ",") (x :: l) = x ++ tail_of l.
Proof.
  revert x. induction l as [|y l IH]; intros x; cbn [join]; [by rewrite app_nil_r|].
  cbn [join] in IH. rewrite IH. done.
Qed.

Lemma stops_tail l close rest : (close = byte 93 ∨ close = byte 125) → stops (tail_of l ++ close :: rest).
Proof. destruct l; [|done]. by intros [-> | ->]. Qed.

Lemma separator_comma s : separator false (byte 44 :: s) = Some s.
Proof. unfold separator. by rewrite skip_value by done. Qed.

(** One more element, or the first. *)
Lemma parse_items_value b f1 f2 s t tl l rest :
  (b = true ∧ ∃ c r, s = c :: r ∧ value_byte c) ∨ b = false →
  parse_value f1 s = Some (t, tl) → parse_items f2 false tl = Some (l, rest) →
  parse_items (S (f1 + f2)) b (if b then s else byte 44 :: s) = Some (t :: l, rest).
Proof.
  intros Hb H1 H2. rewrite parse_items_S.
  assert (starts 93 (skip (if b then s else byte 44 :: s)) = false) as ->.
  { destruct Hb as [(-> & c & r & -> & Hs & H93 & _)| ->]; rewrite skip_value by done; done. }
  assert (separator b (if b then s else byte 44 :: s) = Some s) as ->.
  { destruct b; [done|apply separator_comma]. }
  cbn [mbind option_bind]. rewrite (proj1 (parse_mono f1) (f1 + f2) _ _ (Nat.le_add_r _ _) H1). cbn [mbind option_bind].
  by rewrite (proj2 (proj2 (parse_mono f2)) (f1 + f2) _ _ _ (Nat.le_add_l _ _) H2).
Qed.

Lemma tail_cons x l close rest :
  tail_of (x :: l) ++ close :: rest = byte 44 :: x ++ (tail_of l ++ close :: rest).
Proof. unfold tail_of. cbn [map concat app]. by rewrite <- !app_assoc. Qed.

Lemma reads_items l :
  Forall reads l → ∀ rest,
  ∃ f, parse_items f false (tail_of (map (print quote) l) ++ byte 93 :: rest) = Some (l, rest).
Proof.
  intros Hl rest. induction Hl as [|t l Ht _ [f2 H2]]; [by exists 1|].
  destruct (Ht (tail_of (map (print quote) l) ++ byte 93 :: rest)) as [f1 H1]; [by apply stops_tail; left|].
  exists (S (f1 + f2)). cbn [map]. rewrite tail_cons.
  by apply (parse_items_value false _ _ _ _ _ _ _ (or_intror eq_refl) H1 H2).
Qed.

Lemma reads_array l : Forall tree_ok l → Forall reads l → reads (JArray l).
Proof.
  intros Hok Hl rest _. cbn [print]. rewrite <- !app_assoc. change (text "[" ++ ?x) with (byte 91 :: x).
  change (text "]" ++ rest) with (byte 93 :: rest). destruct Hl as [|t l Ht Hl]; [by exists 2|].
  destruct (reads_items l Hl rest) as [f2 H2].
  destruct (Ht (tail_of (map (print quote) l) ++ byte 93 :: rest)) as [f1 H1]; [by apply stops_tail; left|].
  exists (S (S (f1 + f2))). rewrite parse_value_S, skip_value by done. cbn [starts]. known_bytes.
  change (drop 1 (byte 91 :: ?x)) with x. cbn [map]. rewrite join_cons, <- app_assoc.
  assert (∃ c r, print quote t ++ tail_of (map (print quote) l) ++ byte 93 :: rest = c :: r ∧ value_byte c) as Hv.
  { destruct (print_head t) as (c & r & -> & Hv); [by inversion Hok|]. cbn. eauto. }
  by rewrite (parse_items_value true f1 f2 _ t _ l rest (or_introl (conj eq_refl Hv)) H1 H2).
Qed.

Lemma parse_fields_value b f1 f2 k s t tl l rest :
  text_ok k → parse_value f1 s = Some (t, tl) → parse_fields f2 false tl = Some (l, rest) →
  parse_fields (S (f1 + f2)) b (if b then quote k ++ text ":" ++ s else byte 44 :: quote k ++ text ":" ++ s) =
    Some ((k, t) :: l, rest).
Proof.
  intros Hk H1 H2. rewrite parse_fields_S.
  assert (starts 125 (skip (if b then quote k ++ text ":" ++ s else byte 44 :: quote k ++ text ":" ++ s)) = false) as ->.
  { destruct b; [|by rewrite skip_value]. destruct (quote_head k (text ":" ++ s) Hk) as [r ->].
    unfold dquote. by rewrite skip_value by done. }
  assert (separator b (if b then quote k ++ text ":" ++ s else byte 44 :: quote k ++ text ":" ++ s) =
    Some (quote k ++ text ":" ++ s)) as ->. { destruct b; [done|apply separator_comma]. }
  cbn [mbind option_bind]. rewrite scan_key_quoted by done. cbn [mbind option_bind].
  rewrite (proj1 (parse_mono f1) (f1 + f2) _ _ (Nat.le_add_r _ _) H1). cbn [mbind option_bind].
  by rewrite (proj1 (proj2 (parse_mono f2)) (f1 + f2) _ _ _ (Nat.le_add_l _ _) H2).
Qed.

Definition print_field (kv : string * JSON) : bytes := let '(k, v) := kv in quote k ++ text ":" ++ print quote v.

Lemma reads_fields l :
  Forall (λ kv, text_ok kv.1 ∧ reads kv.2) l → ∀ rest,
  ∃ f, parse_fields f false (tail_of (map print_field l) ++ byte 125 :: rest) = Some (l, rest).
Proof.
  intros Hl rest. induction Hl as [|[k t] l [Hk Ht] _ [f2 H2]]; [by exists 1|].
  destruct (Ht (tail_of (map print_field l) ++ byte 125 :: rest)) as [f1 H1]; [by apply stops_tail; right|].
  exists (S (f1 + f2)). cbn [map]. rewrite tail_cons. cbn [print_field]. rewrite <- !app_assoc.
  by apply (parse_fields_value false _ _ _ _ _ _ _ _ Hk H1 H2).
Qed.

Lemma reads_object l : Forall (λ kv, text_ok kv.1 ∧ reads kv.2) l → reads (JObject l).
Proof.
  intros Hl rest _. cbn [print]. rewrite <- !app_assoc. change (text "{" ++ ?x) with (byte 123 :: x).
  change (text "}" ++ rest) with (byte 125 :: rest). change (λ '(k, v), quote k ++ _) with print_field.
  destruct Hl as [|[k t] l [Hk Ht] Hl]; [by exists 2|].
  destruct (reads_fields l Hl rest) as [f2 H2].
  destruct (Ht (tail_of (map print_field l) ++ byte 125 :: rest)) as [f1 H1]; [by apply stops_tail; right|].
  exists (S (S (f1 + f2))). rewrite parse_value_S, skip_value by done. cbn [starts]. known_bytes.
  change (drop 1 (byte 123 :: ?x)) with x. cbn [map]. rewrite join_cons, <- app_assoc. cbn [print_field].
  rewrite <- !app_assoc. rewrite (parse_fields_value true f1 f2 k _ t _ l rest) by done. done.
Qed.

(** The parser reads back what is printed. *)
Lemma parse_print t : tree_ok t → reads t.
Proof.
  induction t as [|b|s|s|l IH|l IH] using json_ind'; intros Ht.
  - intros rest _. by exists 1.
  - intros rest _. exists 1. by destruct b.
  - by apply reads_number.
  - by apply reads_text.
  - cbn in Ht. rewrite foldr_and in Ht. apply reads_array; [done|].
    rewrite Forall_forall in *. intros x Hx. apply IH; auto.
  - cbn in Ht. rewrite foldr_and2 in Ht. apply reads_object.
    rewrite Forall_forall in *. intros x Hx. split; [by apply Ht|]. apply IH; [done|]. by apply Ht.
Qed.

Lemma document_print t : tree_ok t → document (print quote t) = Some t.
Proof.
  intros Ht. destruct (parse_print t Ht [] I) as [f Hf]. rewrite app_nil_r in Hf. by eapply parse_document.
Qed.
End read_print.

(** ** Trees of the parser *)

Lemma text_of_text s : text (of_text s) = s.
Proof. apply list_ascii_of_list. Qed.

Lemma scan_string_text_ok f s t r : scan_string f s = Some (t, r) → text_ok (of_text t).
Proof. intros H. unfold text_ok. rewrite text_of_text. by eapply scan_string_utf8. Qed.

Lemma span_digits_again s ds r : span_digits s = (ds, r) → span_digits ds = (ds, []).
Proof.
  revert ds r. induction s as [|c s IH]; intros ds r Hs; cbn in *; [by simplify_eq|].
  destruct (digit c) eqn:Hc; [|by simplify_eq]. destruct (span_digits s) as [ds' r'] eqn:Hd. simplify_eq.
  cbn. rewrite Hc. by rewrite (IH ds' r).
Qed.

Lemma some_digits_again s ds r : some_digits s = Some (ds, r) → some_digits ds = Some (ds, []).
Proof.
  unfold some_digits. destruct (span_digits s) as [ds' r'] eqn:Hd. intros H.
  destruct ds' as [|c ds']; [done|]. simplify_eq. by rewrite (span_digits_again _ _ _ Hd).
Qed.

Lemma scan_fraction_again s x r : scan_fraction s = Some (x, r) → scan_fraction x = Some (x, []).
Proof.
  destruct s as [|c s]; cbn; [by intros [= <- <-]|]. destruct (is_byte 46 c) eqn:Hc; [|by intros [= <- <-]].
  destruct (some_digits s) as [[ds r']|] eqn:Hd; [|done]. intros [= <- <-]. cbn.
  by rewrite Hc, (some_digits_again _ _ _ Hd).
Qed.

Lemma scan_exponent_again s x r : scan_exponent s = Some (x, r) → scan_exponent x = Some (x, []).
Proof.
  destruct s as [|c s]; cbn; [by intros [= <- <-]|]. destruct (_ || _) eqn:Hc; [|by intros [= <- <-]].
  destruct s as [|g s]; [done|]. destruct (is_byte 43 g || _) eqn:Hg.
  - destruct (some_digits s) as [[ds r']|] eqn:Hd; [|done]. intros [= <- <-]. cbn.
    by rewrite Hc, Hg, (some_digits_again _ _ _ Hd).
  - destruct (some_digits (g :: s)) as [[ds r']|] eqn:Hd; [|done]. intros [= <- <-].
    pose proof (some_digits_again _ _ _ Hd) as Ha. cbn [scan_exponent]. rewrite Hc.
    destruct ds as [|d ds]; [done|]. assert (d = g) as ->.
    { unfold some_digits in Hd. cbn in Hd. destruct (digit g); [|done]. destruct (span_digits s). by simplify_eq. }
    by rewrite Hg, Ha.
Qed.

(** Fractions and exponents do not continue an integer, nor exponents a fraction. *)
Lemma fraction_stops s x r : scan_fraction s = Some (x, r) →
  x = [] ∨ ∃ c y, x = c :: y ∧ is_byte 46 c = true.
Proof.
  destruct s as [|c s]; cbn; [intros [= <- <-]; by left|]. destruct (is_byte 46 c) eqn:Hc; [|intros [= <- <-]; by left].
  destruct (some_digits s) as [[ds r']|]; [|done]. intros [= <- <-]. right. eauto.
Qed.

Lemma exponent_stops s x r : scan_exponent s = Some (x, r) →
  x = [] ∨ ∃ c y, x = c :: y ∧ (is_byte 101 c || is_byte 69 c) = true.
Proof.
  destruct s as [|c s]; cbn; [intros [= <- <-]; by left|]. destruct (_ || _) eqn:Hc; [|intros [= <- <-]; by left].
  destruct s as [|g s]; [done|]. destruct (is_byte 43 g || _);
    [destruct (some_digits s) as [[ds r']|]|destruct (some_digits (g :: s)) as [[ds r']|]]; try done;
    intros [= <- <-]; right; eauto.
Qed.

Lemma span_digits_stop s ds r x : span_digits s = (ds, r) →
  (∀ c y, x = c :: y → digit c = false) → span_digits (ds ++ x) = (ds, x).
Proof.
  intros Hs Hx. apply span_digits_again in Hs. clear r s.
  induction ds as [|d ds IH]; cbn in *.
  - destruct x as [|c x]; [done|]. cbn. by rewrite (Hx c x).
  - destruct (digit d); [|done]. destruct (span_digits ds) as [ds' r']. injection Hs as -> ->. by rewrite IH.
Qed.

Lemma some_digits_stop s ds r x : some_digits s = Some (ds, r) →
  (∀ c y, x = c :: y → digit c = false) → some_digits (ds ++ x) = Some (ds, x).
Proof.
  unfold some_digits. destruct (span_digits s) as [ds' r'] eqn:Hd. intros H Hx. destruct ds' as [|d ds']; [done|].
  simplify_eq. by rewrite (span_digits_stop _ _ _ x Hd Hx).
Qed.

(** A number the scanner returns is scanned to its end. *)
Lemma scan_number_ok s x r : scan_number s = Some (x, r) → scan_number x = Some (x, []).
Proof.
  unfold scan_number. destruct (scan_sign s) as [sg s1] eqn:Hsg.
  destruct (scan_integer s1) as [[i s2]|] eqn:Hi; [|done]. cbn [mbind option_bind].
  destruct (scan_fraction s2) as [[fr s3]|] eqn:Hf; [|done]. cbn [mbind option_bind].
  destruct (scan_exponent s3) as [[ex s4]|] eqn:He; [|done]. cbn [mbind option_bind]. intros [= <- <-].
  assert (∀ n c, digit c = true → n < 48 ∨ 57 < n → is_byte n c = false) as Hdig.
  { intros n c Hc Hn. by eapply byte_in_is_byte. }
  assert (∀ c, (is_byte 101 c || is_byte 69 c) = true → digit c = false ∧ is_byte 46 c = false) as Hexp.
  { intros c [H|H]%orb_true_iff; apply is_byte_true in H; by subst c. }
  assert (∀ c, is_byte 46 c = true → digit c = false) as Hdot.
  { intros c H. apply is_byte_true in H. by subst c. }
  assert (scan_exponent ex = Some (ex, [])) as He2 by (by eapply scan_exponent_again).
  apply exponent_stops in He.
  assert (scan_fraction (fr ++ ex) = Some (fr, ex)) as Hf2.
  { pose proof (fraction_stops _ _ _ Hf) as [-> |(c & y & -> & Hc)].
    - destruct He as [-> |(c & y & -> & Hc)]; [done|]. cbn. by destruct (Hexp c Hc) as [_ ->].
    - destruct s2 as [|c' s2]; [done|]. cbn in Hf. destruct (is_byte 46 c'); [|done].
      destruct (some_digits s2) as [[ds r']|] eqn:Hd; [|done]. injection Hf as -> -> ->. cbn. rewrite Hc.
      rewrite (some_digits_stop _ _ _ ex Hd); [done|]. intros c1 y1 ->.
      destruct He as [?|(c2 & y2 & [= <- <-] & Hc2)]; [done|]. by apply Hexp. }
  assert (∀ c y, fr ++ ex = c :: y → digit c = false) as Hstop.
  { pose proof (fraction_stops _ _ _ Hf) as [-> |(c & y & -> & Hc)]; cbn [app]; intros c1 y1.
    - destruct He as [-> |(c & y & -> & Hc)]; [done|]. intros [= <- <-]. by apply Hexp.
    - intros [= <- <-]. by apply Hdot. }
  assert (scan_integer (i ++ fr ++ ex) = Some (i, fr ++ ex) ∧ ∃ c y, i = c :: y ∧ digit c = true) as [Hi2 (c & y & Hic & Hcd)].
  { destruct s1 as [|c s1]; [done|]. unfold scan_integer in Hi. destruct (is_byte 48 c) eqn:H0.
    - injection Hi as <- <-. cbn. rewrite H0. apply is_byte_true in H0 as ->. split; [done|eauto].
    - destruct (digit c) eqn:Hc; [|done]. injection Hi as Hi.
      assert (∃ y, i = c :: y) as [y ->].
      { cbn in Hi. rewrite Hc in Hi. destruct (span_digits s1). simplify_eq. eauto. }
      split; [|eauto]. cbn [app scan_integer]. rewrite H0, Hc. f_equal. by apply (span_digits_stop (c :: s1) (c :: y) s2 (fr ++ ex) Hi). }
  assert (scan_sign (sg ++ i ++ fr ++ ex) = (sg, i ++ fr ++ ex)) as ->.
  { destruct s as [|c' s]; cbn in Hsg; [simplify_eq|destruct (is_byte 45 c') eqn:H45; simplify_eq].
    - cbn. by rewrite H45.
    - cbn. by rewrite (Hdig 45 c Hcd) by lia. }
  rewrite Hi2. cbn [mbind option_bind]. rewrite Hf2. cbn [mbind option_bind]. by rewrite He2.
Qed.

Lemma scan_scalar_ok s v r : scan_scalar s = Some (v, r) → tree_ok v.
Proof.
  destruct s as [|c s]; [done|]. unfold scan_scalar. destruct (is_byte 34 c).
  { destruct (scan_string _ s) as [[t r']|] eqn:H; [|done]. intros [= <- <-]. by eapply scan_string_text_ok. }
  destruct (is_byte 116 c); [by destruct (strip_prefix _ _); intros [= <- <-]|].
  destruct (is_byte 102 c); [by destruct (strip_prefix _ _); intros [= <- <-]|].
  destruct (is_byte 110 c); [by destruct (strip_prefix _ _); intros [= <- <-]|].
  destruct (scan_number (c :: s)) as [[t r']|] eqn:H; [|done]. intros [= <- <-]. cbn. unfold number_ok.
  rewrite text_of_text. by eapply scan_number_ok.
Qed.

(** Every tree of the parser is well formed. *)
Lemma parse_tree_ok f :
  (∀ s t r, parse_value f s = Some (t, r) → tree_ok t) ∧
  (∀ b s l r, parse_fields f b s = Some (l, r) → tree_ok (JObject l)) ∧
  (∀ b s l r, parse_items f b s = Some (l, r) → tree_ok (JArray l)).
Proof.
  induction f as [|f (IHv & IHf & IHi)]; [done|]. split_and!.
  - intros s t r. rewrite parse_value_S. destruct (starts 123 _).
    { destruct (parse_fields f _ _) as [[l r']|] eqn:Hp; [|done]. intros [= <- <-]. by eapply IHf. }
    destruct (starts 91 _); [|apply scan_scalar_ok].
    destruct (parse_items f _ _) as [[l r']|] eqn:Hp; [|done]. intros [= <- <-]. by eapply IHi.
  - intros b s l r. rewrite parse_fields_S. destruct (starts 125 _); [by intros [= <- <-]|].
    destruct (separator b s) as [s1|]; [|done]. cbn [mbind option_bind].
    destruct (scan_key s1) as [[k s2]|] eqn:Hk; [|done]. cbn [mbind option_bind].
    destruct (parse_value f s2) as [[v s3]|] eqn:H4; [|done]. cbn [mbind option_bind].
    destruct (parse_fields f false s3) as [[l' s4]|] eqn:H5; [|done]. intros [= <- <-]. cbn.
    split_and!; [|by eapply IHv|by eapply IHf]. unfold scan_key, scan_name in Hk.
    destruct (skip s1) as [|c r]; [done|]. destruct (is_byte 34 c); [|done].
    destruct (scan_string _ r) as [[t r']|] eqn:Hs; [|done]. cbn [mbind option_bind] in Hk.
    destruct (starts 58 _); simplify_eq. by eapply scan_string_text_ok.
  - intros b s l r. rewrite parse_items_S. destruct (starts 93 _); [by intros [= <- <-]|].
    destruct (separator b s) as [s1|]; [|done]. cbn [mbind option_bind].
    destruct (parse_value f s1) as [[v s3]|] eqn:H4; [|done]. cbn [mbind option_bind].
    destruct (parse_items f false s3) as [[l' s4]|] eqn:H5; [|done]. intros [= <- <-]. cbn.
    split; [by eapply IHv|by eapply IHi].
Qed.

Lemma document_ok raw t : document raw = Some t → tree_ok t.
Proof.
  unfold document. destruct (parse_value _ raw) as [[t' r]|] eqn:H; [|done]. cbn. case_bool_decide; [|done].
  intros [= <-]. by eapply parse_tree_ok.
Qed.

(** ** Sorting the fields *)

Section sorting.
Context {A B : Type}.
Implicit Types l : list (string * A).

Lemma insert_field_perm kv l : insert_field kv l ≡ₚ kv :: l.
Proof.
  induction l as [|kv' l IH]; cbn; [done|]. case_bool_decide; [done|]. rewrite IH. constructor.
Qed.

Lemma sort_fields_perm l : sort_fields l ≡ₚ l.
Proof. induction l as [|kv l IH]; cbn; [done|]. by rewrite insert_field_perm, IH. Qed.

Definition field_le (a b : string * A) : Prop := String.le a.1 b.1.

Lemma insert_field_sorted kv l : Sorted field_le l → Sorted field_le (insert_field kv l).
Proof.
  induction 1 as [|kv' l Hs IH Hhd]; cbn; [repeat constructor|]. case_bool_decide as Hle.
  - repeat constructor; auto.
  - constructor; [done|]. destruct (total String.le kv.1 kv'.1) as [|Hge]; [done|].
    destruct Hhd as [|kv'' l Hle']; cbn; [by constructor|]. case_bool_decide; by constructor.
Qed.

Lemma sort_fields_sorted l : Sorted field_le (sort_fields l).
Proof. induction l as [|kv l IH]; cbn; [constructor|]. by apply insert_field_sorted. Qed.

Lemma sort_fields_id l : Sorted field_le l → sort_fields l = l.
Proof.
  induction 1 as [|kv l Hs IH Hhd]; cbn; [done|]. rewrite IH. destruct Hhd as [|kv' l Hle]; [done|]. cbn.
  by rewrite bool_decide_eq_true_2.
Qed.

Lemma sort_fields_map (f : A → B) l :
  sort_fields (map (λ '(k, v), (k, f v)) l) = map (λ '(k, v), (k, f v)) (sort_fields l).
Proof.
  assert (∀ kv l, insert_field (kv.1, f kv.2) (map (λ '(k, v), (k, f v)) l) =
    map (λ '(k, v), (k, f v)) (insert_field kv l)) as Hins.
  { intros [k v] l'. induction l' as [|[k' v'] l' IH]; cbn; [done|]. case_bool_decide; cbn; [done|].
    f_equal. apply IH. }
  induction l as [|[k v] l IH]; cbn; [done|]. rewrite IH. apply (Hins (k, v)).
Qed.
End sorting.

(** The order of the keys is the one of [sort.Strings]. *)
Lemma sort_fields_keys {A} (l : list (string * A)) : (sort_fields l).*1 = sort_strings l.*1.
Proof.
  apply (Sorted_unique String.le).
  - pose proof (sort_fields_sorted l) as Hs. induction Hs as [|kv k Hs IH Hhd]; cbn; constructor; [done|].
    destruct Hhd; cbn; by constructor.
  - apply sort_strings_sorted.
  - rewrite sort_fields_perm. unfold sort_strings. by rewrite merge_sort_Permutation.
Qed.

Lemma sort_fields_map_sorted {A B} (f : A → B) (l : list (string * A)) :
  sort_fields (map (λ '(k, v), (k, f v)) (sort_fields l)) = map (λ '(k, v), (k, f v)) (sort_fields l).
Proof. rewrite sort_fields_map. f_equal. apply sort_fields_id, sort_fields_sorted. Qed.

Lemma map_map_field {A B C} (f : A → B) (g : B → C) (l : list (string * A)) :
  map (λ '(k, v), (k, g v)) (map (λ '(k, v), (k, f v)) l) = map (λ '(k, v), (k, g (f v))) l.
Proof. rewrite map_map. apply map_ext. by intros [k v]. Qed.

Lemma map_fields_ext {A B} (f g : A → B) (l : list (string * A)) :
  Forall (λ kv, f kv.2 = g kv.2) l → map (λ '(k, v), (k, f v)) l = map (λ '(k, v), (k, g v)) l.
Proof. induction 1 as [|[k v] l H _ IH]; cbn in *; [done|]. by rewrite H, IH. Qed.

Lemma map_list_ext {A B} (f g : A → B) (l : list A) : Forall (λ x, f x = g x) l → map f l = map g l.
Proof. induction 1 as [|x l H _ IH]; cbn; [done|]. by rewrite H, IH. Qed.

Lemma map_fields_keys {A B} (f : A → B) (l : list (string * A)) : (map (λ '(k, v), (k, f v)) l).*1 = l.*1.
Proof. induction l as [|[k v] l IH]; cbn; [done|]. by rewrite <- IH. Qed.

Lemma sort_tree_idemp t : sort_tree (sort_tree t) = sort_tree t.
Proof.
  induction t as [|b|s|s|l IH|l IH] using json_ind'; cbn; [done..| |].
  - f_equal. rewrite map_map. by apply map_list_ext.
  - f_equal. rewrite (sort_fields_map sort_tree l), map_map_field, sort_fields_map_sorted.
    apply map_fields_ext. by rewrite sort_fields_perm.
Qed.

Lemma Forall_map_field {A B} (P : string * B → Prop) (f : A → B) (l : list (string * A)) :
  Forall P (map (λ '(k, v), (k, f v)) l) ↔ Forall (λ kv, P (kv.1, f kv.2)) l.
Proof. rewrite Forall_map. apply Forall_iff. by intros [k v]. Qed.

Lemma sort_tree_ok t : tree_ok t → tree_ok (sort_tree t).
Proof.
  induction t as [|b|s|s|l IH|l IH] using json_ind'; cbn; [done..| |].
  - rewrite !foldr_and, Forall_map, !Forall_forall in *. auto.
  - rewrite !foldr_and2, sort_fields_perm, Forall_map_field, !Forall_forall in *. cbn. intros Ht kv Hkv.
    split; [by apply Ht|]. apply IH; [done|]. by apply Ht.
Qed.

Lemma sort_tree_unique t : unique_keys t → unique_keys (sort_tree t).
Proof.
  induction t as [|b|s|s|l IH|l IH] using json_ind'; cbn; [done..| |].
  - rewrite !foldr_and, Forall_map, !Forall_forall in *. auto.
  - rewrite !foldr_and. intros [Hnd Ht]. rewrite sort_fields_perm, map_fields_keys, Forall_map_field. split; [done|].
    rewrite !Forall_forall in *. cbn. auto.
Qed.

(** ** Decoding into maps *)

Lemma map_put_fresh {A} (m : list (string * A)) k v : k ∉ m.*1 → map_put m k v = m ++ [(k, v)].
Proof.
  induction m as [|[k' v'] m IH]; cbn; [done|]. intros Hk%not_elem_of_cons. destruct Hk as [Hne Hk].
  rewrite bool_decide_eq_false_2 by done. by rewrite IH.
Qed.

Lemma map_of_unique {A} (l : list (string * A)) : NoDup l.*1 → map_of l = l.
Proof.
  unfold map_of. assert (∀ m, NoDup (m ++ l).*1 → foldl (λ m kv, map_put m kv.1 kv.2) m l = m ++ l) as Hgen.
  { induction l as [|[k v] l IH]; intros m Hnd; cbn; [by rewrite app_nil_r|].
    rewrite map_put_fresh.
    - rewrite IH; rewrite <- app_assoc; [done|]. done.
    - rewrite fmap_app in Hnd. cbn in Hnd. apply NoDup_app in Hnd as (_ & Hd & _). intros Hk.
      apply (Hd k Hk). left. }
  intros Hnd. by apply Hgen.
Qed.

(** Without duplicate names the value of a document is its tree. *)
Lemma any_of_unique t : unique_keys t → any_of t = t.
Proof.
  induction t as [|b|s|s|l IH|l IH] using json_ind'; cbn; [done..| |].
  - rewrite foldr_and. intros Ht. f_equal. rewrite <- (map_id l) at 2. apply map_list_ext.
    rewrite !Forall_forall in *. auto.
  - rewrite foldr_and. intros [Hnd Ht]. rewrite map_of_unique by (by rewrite map_fields_keys). f_equal.
    transitivity (map (λ '(k, v), (k, id v)) l).
    + apply map_fields_ext. rewrite !Forall_forall in *. auto.
    + rewrite <- (map_id l) at 2. apply map_ext. by intros [].
Qed.

(** ** [json.Marshal] *)

Lemma sequence_map {A B} (f : A → option B) (g : A → B) l :
  Forall (λ x, f x = Some (g x)) l → sequence (map f l) = Some (map g l).
Proof. induction 1 as [|x l H _ IH]; cbn; [done|]. by rewrite H, IH. Qed.

Lemma marshal_print t : tree_ok t → marshal t = Some (print json_string (sort_tree t)).
Proof.
  induction t as [|b|s|s|l IH|l IH] using json_ind'; cbn [tree_ok marshal sort_tree print]; intros Ht.
  - done.
  - done.
  - unfold valid_number. unfold number_ok in Ht. case_bool_decide as Hs; [by subst s|]. by rewrite Ht.
  - done.
  - rewrite foldr_and in Ht. rewrite (sequence_map _ (λ t, print json_string (sort_tree t))).
    2: { rewrite !Forall_forall in *. auto. }
    cbn [mbind option_bind]. by rewrite map_map.
  - rewrite foldr_and2 in Ht.
    rewrite (map_fields_ext marshal (λ v, Some (print json_string (sort_tree v)))).
    2: { rewrite !Forall_forall in *. intros kv Hkv. apply IH; [done|]. by apply Ht. }
    rewrite sort_fields_map, map_map.
    rewrite (sequence_map _ (λ '(k, v), json_string k ++ text ":" ++ print json_string (sort_tree v))).
    2: { apply Forall_forall. by intros [k v]. }
    cbn [mbind option_bind]. do 4 f_equal. rewrite sort_fields_map, map_map. apply map_ext. by intros [k v].
Qed.

Lemma rune_two s c : Rune c → length c ≠ 1 → s = c → reads_as s c.
Proof.
  intros Hc Hl ->. apply rune_reads_as; [done|]. by intros a ->.
Qed.

(** What [json.Marshal] writes for the runes is read back. *)
Lemma json_runes_written f s : utf8 s → length s ≤ f → written (json_runes f s) s.
Proof.
  intros Hs. revert f. induction Hs as [|c s Hc Hs IH]; intros f Hf; [destruct f; constructor|].
  pose proof (Rune_length c Hc) as Hl. pose proof (rune_length_of c s Hc) as Hrl. rewrite length_app in Hf.
  destruct f as [|f]; [lia|]. destruct c as [|a c]; [cbn in Hl; lia|]. cbn [app] in *. cbn [json_runes]. rewrite Hrl.
  destruct c as [|b c].
  - cbn [length app]. change (a :: s) with ([a] ++ s). apply written_app; [|apply IH; cbn in Hf; lia]. apply json_ascii_reads_as. by inversion Hc.
  - pose proof (take_app_length (a :: b :: c) s) as Htake. pose proof (drop_app_length (a :: b :: c) s) as Hdrop.
    cbn [length app] in *. rewrite Htake, Hdrop. change (a :: b :: c ++ s) with ((a :: b :: c) ++ s).
    apply written_app; [|apply IH; lia].
    case_bool_decide as H1; [rewrite H1; by repeat split; cbn; lia|].
    case_bool_decide as H2; [rewrite H2; by repeat split; cbn; lia|].
    by apply rune_two.
Qed.

Lemma length_text s : length (text s) = String.length s.
Proof. unfold text. induction s as [|c s IH]; cbn; [done|]. by rewrite IH. Qed.

Lemma json_string_quotes s : text_ok s → ∃ body, json_string s = dquote :: body ++ [dquote] ∧ written body (text s).
Proof.
  intros Hs. eexists. split; [done|]. apply json_runes_written; [done|]. by rewrite length_text.
Qed.
