(* ===== verification/CanonicalJson.v ===== *)
(** * Canonical JSON documents ([internal/canonicaljson/canonical.go])

    A document is validated on its token stream, decoded, marshalled and decoded
    again, and written without white space, with sorted keys, with integers
    only and with the shortest escapes. The text is the same for two documents
    exactly when they have the same value, and it is its own canonical form. *)

From Stdlib Require Import ZifyNat.
From S2P Require Import Prelude GoLib Encoding Json JsonProps JsonText JsonPrint.

Open Scope go_scope.

(** ** The code *)

Definition maxDocumentBytes : Z := 1024 * 1024.
Definition maxJSONDepth : Z := 64.
Definition maxJSONNodes : Z := 100000.

(** [ErrInvalidDocument], by its message. *)
Inductive CanonicalError :=
| SizeOrEncoding | NestingLimit | NodeLimit | MalformedJSON | MalformedObject | MalformedKey
| DuplicateField | MalformedArray | MalformedDelimiter | TrailingValue | DecodeValue
| EncodeCanonical | DecodeCanonical | NonCanonicalNumber | InvalidString | WalkFuel.

(** [canonicalJSONIntegerPattern]: zero, or a number without leading zeros. *)
Definition canonicalJSONIntegerPattern (s : bytes) : bool :=
  match s with
  | [c] => is_byte 48 c || byte_in 49 57 c
  | c :: r =>
     if is_byte 45 c then
       match r with
       | d :: r => byte_in 49 57 d && forallb digit r
       | [] => false
       end
     else byte_in 49 57 c && forallb digit r
  | [] => false
  end.

(** The switch on a rune in [appendCanonicalJSONString]. *)
Definition canonical_rune (r : Z) : bytes :=
  (if (r =? 34) || (r =? 92) then [backslash; zbyte r]
   else if r =? 8 then text "\b"
   else if r =? 12 then text "\f"
   else if r =? 10 then text "\n"
   else if r =? 13 then text "\r"
   else if r =? 9 then text "\t"
   else if r <? 32 then text "\u00" ++ [hex_digit (Z.to_nat (r / 16)); hex_digit (Z.to_nat (r mod 16))]
   else encode_rune r)%Z.

(** Its loop; the fuel is the number of bytes. *)
Fixpoint canonical_runes (fuel : nat) (out value : bytes) : bytes :=
  match fuel, value with
  | O, _ | _, [] => out
  | S fuel, _ =>
     let '(r, size) := DecodeRune value in
     canonical_runes fuel (out ++ canonical_rune r) (drop size value)
  end.

Definition appendCanonicalJSONString (out : bytes) (value : string) : Result CanonicalError bytes :=
  guard! ValidUTF8 (text value) else InvalidString in
  Ok (canonical_runes (String.length value) (out ++ [dquote]) (text value) ++ [dquote]).

(** The elements of an array or the fields of an object, with commas between. *)
Fixpoint append_steps (first : bool) (steps : list (bytes → Result CanonicalError bytes)) (out : bytes) :
    Result CanonicalError bytes :=
  match steps with
  | [] => Ok out
  | step :: steps =>
     let? out := step (if first then out else out ++ text ",") in
     append_steps false steps out
  end.

Fixpoint appendCanonicalJSON (value : JSON) (depth : Z) (out : bytes) : Result CanonicalError bytes :=
  guard! (depth <=? maxJSONDepth)%Z else NestingLimit in
  match value with
  | JNull => Ok (out ++ text "null")
  | JBool typed => Ok (out ++ text (if typed then "true" else "false"))
  | JText typed => appendCanonicalJSONString out typed
  | JNumber typed =>
     guard! canonicalJSONIntegerPattern (text typed) else NonCanonicalNumber in Ok (out ++ text typed)
  | JArray typed =>
     let? out := append_steps true (map (λ item, appendCanonicalJSON item (depth + 1)) typed) (out ++ text "[") in
     Ok (out ++ text "]")
  | JObject typed =>
     let fields := sort_fields (map (λ '(key, item), (key, appendCanonicalJSON item (depth + 1))) typed) in
     let? out := append_steps true (map (λ '(key, step) out,
       let? out := appendCanonicalJSONString out key in step (out ++ text ":")) fields) (out ++ text "{") in
     Ok (out ++ text "}")
  end.

Definition canonicalJSON (value : JSON) : Result CanonicalError bytes :=
  match marshal value with
  | None => Err EncodeCanonical
  | Some raw =>
     match Decode raw with
     | None => Err DecodeCanonical
     | Some (decoded, _) => appendCanonicalJSON decoded 0 []
     end
  end.

(** [consumeJSONValue]: the limits on depth and nodes, and no check of a scalar. *)
Definition consumeJSONValue : Walker CanonicalError := {|
  enter depth nodes :=
    guard! (depth <=? maxJSONDepth)%Z else NestingLimit in
    let nodes := (nodes + 1)%Z in
    guard! (nodes <=? maxJSONNodes)%Z else NodeLimit in Ok nodes;
  scalar_ok _ := Ok tt;
  bad_value := MalformedJSON;
  bad_delimiter := MalformedDelimiter;
  bad_key := MalformedObject;
  key_not_text := MalformedKey;
  duplicate_key := DuplicateField;
  open_object := MalformedObject;
  open_array := MalformedArray;
  out_of_fuel := WalkFuel
|}.

Definition validateJSONStructure (raw : bytes) : Result CanonicalError unit :=
  walk_document consumeJSONValue TrailingValue raw.

Definition CanonicalJSON (raw : bytes) : Result CanonicalError bytes :=
  guard! (0 <? Z.of_nat (length raw))%Z && (Z.of_nat (length raw) <=? maxDocumentBytes)%Z && ValidUTF8 raw
    else SizeOrEncoding in
  let? _ := validateJSONStructure raw in
  match Decode raw with
  | None => Err DecodeValue
  | Some (value, _) => canonicalJSON value
  end.

(** ** What it is to do *)

(** The depth of the deepest value in a tree. *)
Fixpoint height (t : JSON) : Z :=
  match t with
  | JArray l => foldr Z.max 0%Z (map (λ t, height t + 1)%Z l)
  | JObject l => foldr Z.max 0%Z (map (λ '(_, t), height t + 1)%Z l)
  | _ => 0
  end.

Fixpoint tree_nodes (t : JSON) : Z :=
  match t with
  | JArray l => 1 + foldr Z.add 0%Z (map tree_nodes l)
  | JObject l => 1 + foldr Z.add 0%Z (map (λ '(_, t), tree_nodes t) l)
  | _ => 1
  end.

(** All numbers are canonical integers. *)
Fixpoint integers (t : JSON) : Prop :=
  match t with
  | JNumber s => canonicalJSONIntegerPattern (text s) = true
  | JArray l => foldr (λ t P, integers t ∧ P) True l
  | JObject l => foldr (λ kv P, integers kv.2 ∧ P) True l
  | _ => True
  end.

Definition canonical_string (s : string) : bytes :=
  dquote :: canonical_runes (String.length s) [] (text s) ++ [dquote].

(** The canonical text of a value. *)
Definition canonical_text (t : JSON) : bytes := print canonical_string (sort_tree t).

(** The documents that have one. *)
Definition canonicalizable (raw : bytes) (t : JSON) : Prop :=
  (0 < Z.of_nat (length raw) ≤ maxDocumentBytes)%Z ∧ utf8 raw ∧ document raw = Some t ∧
  (height t ≤ maxJSONDepth)%Z ∧ (tree_nodes t ≤ maxJSONNodes)%Z ∧ unique_keys t ∧ integers t.

(** ** Strings *)

Lemma canonical_runes_out f out s : canonical_runes f out s = out ++ canonical_runes f [] s.
Proof.
  revert out s. induction f as [|f IH]; intros out s; [by rewrite app_nil_r|].
  destruct s as [|c s]; [by rewrite app_nil_r|]. cbn [canonical_runes]. destruct (DecodeRune (c :: s)) as [r n].
  rewrite IH, (IH ([] ++ _)). by rewrite app_assoc.
Qed.

Lemma canonical_ascii_reads_as c : (zcode c < 128)%Z → reads_as (canonical_rune (zcode c)) [c].
Proof.
  intros Hc. each_byte c; try (exfalso; vm_compute in Hc; discriminate Hc);
    (split; [vm_compute; lia|]); by split.
Qed.

Lemma canonical_rune_reads_as c s : Rune c → reads_as (canonical_rune (rune_value (length c) (c ++ s))) c.
Proof.
  intros Hc. destruct (decide (length c = 1)) as [Hl|Hl].
  - destruct Hc as [a Ha|a b Ha Hb|a b d Ha Hb Hd Hx Hy|a b d e Ha Hb Hd He Hx Hy]; cbn in Hl; try lia.
    by apply canonical_ascii_reads_as.
  - pose proof (encode_rune_value c s Hc) as He. assert (128 ≤ rune_value (length c) (c ++ s))%Z as Hr.
    { destruct Hc as [a Ha|a b Ha Hb|a b d Ha Hb Hd Hx Hy|a b d e Ha Hb Hd Hee Hx Hy]; cbn in Hl |- *; unfold cont in *; lia. }
    unfold canonical_rune. set (r := rune_value _ _) in *.
    assert ((r =? 34) || (r =? 92) = false ∧ (r =? 8) = false ∧ (r =? 12) = false ∧ (r =? 10) = false ∧
      (r =? 13) = false ∧ (r =? 9) = false ∧ (r <? 32) = false)%Z as (-> & -> & -> & -> & -> & -> & ->).
    { rewrite orb_false_iff, !Z.eqb_neq, Z.ltb_ge. lia. }
    rewrite He. by apply rune_two.
Qed.

Lemma canonical_runes_written f s : utf8 s → length s ≤ f → written (canonical_runes f [] s) s.
Proof.
  intros Hs. revert f. induction Hs as [|c s Hc Hs IH]; intros f Hf; [destruct f; constructor|].
  pose proof (Rune_length c Hc) as Hl. pose proof (rune_length_of c s Hc) as Hrl. rewrite length_app in Hf.
  destruct f as [|f]; [lia|].
  assert (canonical_runes (S f) [] (c ++ s) =
    canonical_runes f (canonical_rune (rune_value (length c) (c ++ s))) s) as ->.
  { destruct c as [|a c]; [cbn in Hl; lia|]. cbn [canonical_runes app]. unfold DecodeRune.
    cbn [app] in Hrl. rewrite Hrl. f_equal. apply (drop_app_length (a :: c)). }
  rewrite canonical_runes_out. apply written_app; [by apply canonical_rune_reads_as|]. apply IH. lia.
Qed.

Lemma canonical_string_quotes s :
  text_ok s → ∃ body, canonical_string s = dquote :: body ++ [dquote] ∧ written body (text s).
Proof.
  intros Hs. eexists. split; [done|]. apply canonical_runes_written; [done|]. by rewrite length_text.
Qed.

Lemma appendCanonicalJSONString_ok out s :
  text_ok s → appendCanonicalJSONString out s = Ok (out ++ canonical_string s).
Proof.
  intros Hs. unfold appendCanonicalJSONString. rewrite (proj2 (ValidUTF8_spec _) Hs).
  rewrite canonical_runes_out, <- !app_assoc. done.
Qed.

(** ** The writer *)

(** A step appends a text exactly under a condition. *)
Definition appends (P : Prop) (p : bytes) (step : bytes → Result CanonicalError bytes) : Prop :=
  ∀ out x, step out = Ok x ↔ P ∧ x = out ++ p.

Section steps.
Context {A : Type} (st : A → bytes → Result CanonicalError bytes) (P : A → Prop) (p : A → bytes).

Lemma append_steps_tail l :
  Forall (λ a, appends (P a) (p a) (st a)) l →
  appends (Forall P l) (tail_of (map p l)) (append_steps false (map st l)).
Proof.
  induction 1 as [|a l Ha _ IH]; intros out x; cbn [map append_steps].
  - rewrite app_nil_r. split; [intros [= <-]; split; [constructor|done]|by intros [_ ->]].
  - unfold appends in *. rewrite rbind_ok. setoid_rewrite IH. setoid_rewrite Ha. rewrite Forall_cons.
    change (tail_of (p a :: map p l)) with ((text "," ++ p a) ++ tail_of (map p l)). split.
    + intros (y & [Hp ->] & Hl & ->). split; [done|]. by rewrite <- !app_assoc.
    + intros [[Hp Hl] ->]. eexists. split; [done|]. split; [done|]. by rewrite <- !app_assoc.
Qed.

Lemma append_steps_join l :
  Forall (λ a, appends (P a) (p a) (st a)) l →
  appends (Forall P l) (join (text ",") (map p l)) (append_steps true (map st l)).
Proof.
  intros Hl. destruct Hl as [|a l Ha Hl]; intros out x; cbn [map append_steps].
  - cbn. rewrite app_nil_r. split; [intros [= <-]; split; [constructor|done]|by intros [_ ->]].
  - pose proof (append_steps_tail l Hl) as Htl. unfold appends in *. rewrite rbind_ok. setoid_rewrite Htl. setoid_rewrite Ha.
    rewrite Forall_cons, join_cons. split.
    + intros (y & [Hp ->] & Hl' & ->). split; [done|]. by rewrite <- !app_assoc.
    + intros [[Hp Hl'] ->]. eexists. split; [done|]. split; [done|]. by rewrite <- !app_assoc.
Qed.
End steps.

Lemma max_le {A} (f : A → Z) l b : (0 ≤ b)%Z → (foldr Z.max 0 (map f l) ≤ b)%Z ↔ Forall (λ a, (f a ≤ b)%Z) l.
Proof.
  intros Hb. induction l as [|a l IH]; cbn; [split; [constructor|done]|]. rewrite Forall_cons, <- IH. lia.
Qed.

Lemma height_nonneg t : (0 ≤ height t)%Z.
Proof. destruct t; cbn; [done..| |]; induction l; cbn; lia. Qed.

Lemma Forall_and_iff {A} (P Q R : A → Prop) l :
  Forall (λ x, R x ↔ P x ∧ Q x) l → Forall R l ↔ Forall P l ∧ Forall Q l.
Proof.
  intros H. rewrite <- Forall_and. induction H as [|x l Hx _ IH]; [done|]. rewrite !Forall_cons, Hx, IH. done.
Qed.

(** A guard on the depth in front of the writer. *)
Lemma depth_guard (depth h : Z) (r : Result CanonicalError bytes) x (P : Prop) :
  (0 ≤ h)%Z → ((depth ≤ maxJSONDepth)%Z → r = Ok x ↔ (depth + h ≤ maxJSONDepth)%Z ∧ P) →
  (if (depth <=? maxJSONDepth)%Z then r else Err NestingLimit) = Ok x ↔ (depth + h ≤ maxJSONDepth)%Z ∧ P.
Proof.
  intros Hh Hr. destruct (depth <=? maxJSONDepth)%Z eqn:Hd; go_bools.
  - by apply Hr.
  - split; [done|]. intros [? _]. lia.
Qed.

Lemma height_cond {A} (f : A → JSON) l depth :
  (depth ≤ maxJSONDepth)%Z →
  (depth + foldr Z.max 0 (map (λ a, height (f a) + 1) l) ≤ maxJSONDepth)%Z ↔
  Forall (λ a, (depth + 1 + height (f a) ≤ maxJSONDepth)%Z) l.
Proof.
  intros Hd. transitivity (foldr Z.max 0 (map (λ a, height (f a) + 1) l) ≤ maxJSONDepth - depth)%Z; [lia|].
  rewrite (max_le (λ a, height (f a) + 1)%Z) by lia. apply Forall_iff. intros a. lia.
Qed.

(** What is written, and when: the depth and the numbers are checked. *)
Lemma appendCanonicalJSON_spec t :
  tree_ok t → ∀ depth out x, appendCanonicalJSON t depth out = Ok x ↔
    (depth + height t ≤ maxJSONDepth)%Z ∧ integers t ∧ x = out ++ canonical_text t.
Proof.
  unfold canonical_text. induction t as [|b|s|s|l IH|l IH] using json_ind'; intros Ht depth out x;
    cbn [appendCanonicalJSON integers sort_tree print]; (apply depth_guard; [apply height_nonneg|]); intros Hd.
  - split; [intros [= <-]; cbn; split_and!; (done || lia)|by intros (_ & _ & ->)].
  - split; [intros [= <-]; cbn; split_and!; (done || lia)|by intros (_ & _ & ->)].
  - rewrite guard_ok. split; [intros [? [= <-]]; cbn; split_and!; (done || lia)|by intros (_ & ? & ->)].
  - rewrite appendCanonicalJSONString_ok by done.
    split; [intros [= <-]; cbn; split_and!; (done || lia)|by intros (_ & _ & ->)].
  - cbn in Ht. rewrite !foldr_and in *. cbn [height]. rewrite (height_cond id l) by done.
    assert (appends (Forall (λ t, (depth + 1 + height t ≤ maxJSONDepth)%Z ∧ integers t) l)
      (join (text ",") (map (λ t, print canonical_string (sort_tree t)) l))
      (append_steps true (map (λ item, appendCanonicalJSON item (depth + 1)) l))) as Hs.
    { apply append_steps_join. rewrite !Forall_forall in *. intros t Hin out' x'. rewrite IH by auto. tauto. }
    rewrite rbind_ok, map_map. split.
    + intros (y & Hy & [= <-]). apply Hs in Hy as [Hc ->]. rewrite Forall_and in Hc.
      split_and!; [apply Hc..|]. by rewrite <- !app_assoc.
    + intros (H1 & H2 & ->). eexists. split; [apply Hs; split; [by apply Forall_and|done]|]. by rewrite <- !app_assoc.
  - cbn in Ht. rewrite foldr_and2 in Ht. rewrite !foldr_and. cbn [height].
    assert (map (λ '(_, t), height t + 1)%Z l = map (λ kv, height kv.2 + 1)%Z l) as ->.
    { apply map_ext. by intros []. }
    rewrite (height_cond snd l) by done. rewrite !sort_fields_map, !map_map.
    assert (appends (Forall (λ kv, (depth + 1 + height kv.2 ≤ maxJSONDepth)%Z ∧ integers kv.2) (sort_fields l))
      (join (text ",") (map (λ kv, canonical_string kv.1 ++ text ":" ++ print canonical_string (sort_tree kv.2)) (sort_fields l)))
      (append_steps true (map (λ kv out, let? out := appendCanonicalJSONString out kv.1 in
         appendCanonicalJSON kv.2 (depth + 1) (out ++ text ":")) (sort_fields l)))) as Hs.
    { apply append_steps_join. rewrite sort_fields_perm. rewrite !Forall_forall in *. intros kv Hin out' x'.
      destruct (Ht kv Hin) as [Hk Hv]. rewrite appendCanonicalJSONString_ok by done. cbn [rbind].
      rewrite IH by auto. rewrite <- !app_assoc. tauto. }
    rewrite rbind_ok.
    rewrite (map_ext _ (λ kv out, let? out := appendCanonicalJSONString out kv.1 in
         appendCanonicalJSON kv.2 (depth + 1) (out ++ text ":"))) by (by intros []).
    rewrite (map_ext (λ x, let '(k, v) := let '(k, v) := x in (k, sort_tree v) in canonical_string k ++ _)
      (λ kv, canonical_string kv.1 ++ text ":" ++ print canonical_string (sort_tree kv.2))) by (by intros []).
    split.
    + intros (y & Hy & [= <-]). apply Hs in Hy as [Hc ->]. rewrite sort_fields_perm, Forall_and in Hc.
      split_and!; [apply Hc..|]. by rewrite <- !app_assoc.
    + intros (H1 & H2 & ->). eexists.
      split; [apply Hs; split; [rewrite sort_fields_perm; by apply Forall_and|done]|]. by rewrite <- !app_assoc.
Qed.

(** ** The validator *)

Lemma tree_nodes_pos t : (1 ≤ tree_nodes t)%Z.
Proof.
  induction t as [|b|s|s|l IH|l IH] using json_ind'; cbn; [done..| |].
  - assert (0 ≤ foldr Z.add 0 (map tree_nodes l))%Z; [|lia]. induction IH; cbn; lia.
  - assert (0 ≤ foldr Z.add 0 (map (λ '(_, t), tree_nodes t) l))%Z; [|lia].
    induction IH as [|[k v] l H _ IH]; cbn in *; lia.
Qed.

(** What a walk checks on one tree. *)
Definition checked (t : JSON) : Prop :=
  ∀ depth n n', check_tree consumeJSONValue depth n t = Ok n' ↔
    (depth + height t ≤ maxJSONDepth ∧ n + tree_nodes t ≤ maxJSONNodes)%Z ∧ unique_keys t ∧ n' = (n + tree_nodes t)%Z.

Lemma check_items_spec l depth n n' :
  Forall checked l → (n ≤ maxJSONNodes)%Z →
  check_items (check_tree consumeJSONValue depth) n l = Ok n' ↔
    Forall (λ t, (depth + height t ≤ maxJSONDepth)%Z) l ∧
    (n + foldr Z.add 0 (map tree_nodes l) ≤ maxJSONNodes)%Z ∧ Forall unique_keys l ∧
    n' = (n + foldr Z.add 0 (map tree_nodes l))%Z.
Proof.
  intros Hl. revert n. induction Hl as [|t l Ht Hl IH]; intros n Hn; cbn [check_items map foldr].
  - rewrite Z.add_0_r. split; [intros [= <-]; split_and!; (done || constructor)|by intros (_ & _ & _ & ->)].
  - rewrite rbind_ok, !Forall_cons. split.
    + intros (m & Hm & Hr). apply Ht in Hm as ((H1 & H2) & H3 & ->). apply IH in Hr as (H4 & H5 & H6 & ->); [|done].
      split_and!; [done..|lia|done|done|lia].
    + intros ((H1 & H4) & H5 & (H3 & H6) & ->). exists (n + tree_nodes t)%Z.
      assert (0 ≤ foldr Z.add 0 (map tree_nodes l))%Z.
      { clear. induction l as [|t l IH]; cbn; [done|]. pose proof (tree_nodes_pos t). lia. }
      split; [apply Ht; split_and!; (done || lia)|]. apply IH; [lia|]. split_and!; (done || lia).
Qed.

Lemma check_fields_spec l depth keys n n' :
  Forall (λ kv, checked kv.2) l → (n ≤ maxJSONNodes)%Z →
  check_fields consumeJSONValue (check_tree consumeJSONValue depth) keys n l = Ok n' ↔
    Forall (λ kv, (depth + height kv.2 ≤ maxJSONDepth)%Z) l ∧
    (n + foldr Z.add 0 (map (λ '(_, t), tree_nodes t) l) ≤ maxJSONNodes)%Z ∧
    (NoDup l.*1 ∧ Forall (λ k, k ∉ keys) l.*1 ∧ Forall (λ kv, unique_keys kv.2) l) ∧
    n' = (n + foldr Z.add 0 (map (λ '(_, t), tree_nodes t) l))%Z.
Proof.
  intros Hl. revert n keys. induction Hl as [|[k t] l Ht Hl IH]; intros n keys Hn; cbn [check_fields map foldr].
  - rewrite Z.add_0_r. split; [intros [= <-]; split_and!; (done || constructor)|by intros (_ & _ & _ & ->)].
  - cbn [snd] in Ht. rewrite guard_ok, negb_true_iff, bool_decide_eq_false, rbind_ok, fmap_cons, !Forall_cons, NoDup_cons.
    cbn [fst snd]. split.
    + intros (Hk & m & Hm & Hr). apply Ht in Hm as ((H1 & H2) & H3 & ->).
      apply IH in Hr as (H4 & H5 & (H6 & H7 & H8) & ->); [|done].
      rewrite Forall_forall in H7. split_and!; try done; try lia.
      * intros Hin. apply (H7 k Hin). left.
      * apply Forall_forall. intros k' Hk' Hin. apply (H7 k' Hk'). by right.
    + intros ((H1 & H4) & H5 & ((Hk & H6) & (Hk' & H7) & (H3 & H8)) & ->). split; [done|].
      assert (0 ≤ foldr Z.add 0 (map (λ '(_, t), tree_nodes t) l))%Z.
      { clear. induction l as [|[k t] l IH]; cbn; [done|]. pose proof (tree_nodes_pos t). lia. }
      exists (n + tree_nodes t)%Z. split; [apply Ht; split_and!; (done || lia)|]. apply IH; [lia|].
      split_and!; [done|lia|done| |done|lia]. rewrite Forall_forall in *. intros k' Hin Hk2.
      apply elem_of_cons in Hk2 as [-> |Hk2]; [done|]. by apply (H7 k').
Qed.

Lemma enter_spec depth n n' :
  enter consumeJSONValue depth n = Ok n' ↔ (depth ≤ maxJSONDepth ∧ n + 1 ≤ maxJSONNodes)%Z ∧ n' = (n + 1)%Z.
Proof.
  cbn. rewrite !guard_ok, !Z.leb_le. split; [by intros (? & ? & [= <-])|by intros ([? ?] & ->)].
Qed.

Lemma check_tree_spec t : checked t.
Proof.
  induction t as [|b|s|s|l IH|l IH] using json_ind'; intros depth n n'; cbn [check_tree height tree_nodes unique_keys];
    rewrite rbind_ok; setoid_rewrite enter_spec.
  1-4: cbn; split; [intros (m & [? ->] & [= <-]); split_and!; (done || lia)|
    intros ((? & ?) & _ & ->); exists (n + 1)%Z; split_and!; (done || lia)].
  - rewrite foldr_and. split.
    + intros (m & [[H1 H2] ->] & Hc). apply check_items_spec in Hc as (H3 & H4 & H5 & ->); [|done|lia].
      rewrite (height_cond id l) by done. split_and!; [done|lia|done|lia].
    + intros ((H1 & H2) & H3 & ->). exists (n + 1)%Z.
      pose proof (height_nonneg (JArray l)) as Hh. cbn [height] in Hh.
      assert (0 ≤ foldr Z.add 0 (map tree_nodes l))%Z.
      { pose proof (tree_nodes_pos (JArray l)) as Hp. cbn in Hp. lia. }
      assert (depth ≤ maxJSONDepth)%Z by lia. rewrite (height_cond id l) in H1 by done. split; [split_and!; lia|]. apply check_items_spec; [done|lia|].
      split_and!; (done || lia).
  - rewrite foldr_and.
    assert (map (λ '(_, t), height t + 1)%Z l = map (λ kv, height kv.2 + 1)%Z l) as ->.
    { apply map_ext. by intros []. }
    split.
    + intros (m & [[H1 H2] ->] & Hc). apply check_fields_spec in Hc as (H3 & H4 & (H5 & _ & H6) & ->); [|done|lia].
      rewrite (height_cond snd l) by done. split_and!; [done|lia|done|done|lia].
    + intros ((H1 & H2) & (H3 & H4) & ->). exists (n + 1)%Z.
      assert (0 ≤ foldr Z.max 0 (map (λ kv, height kv.2 + 1) l))%Z by (clear; induction l; cbn; lia).
      assert (0 ≤ foldr Z.add 0 (map (λ '(_, t), tree_nodes t) l))%Z.
      { pose proof (tree_nodes_pos (JObject l)) as Hp. cbn in Hp. lia. }
      assert (depth ≤ maxJSONDepth)%Z by lia. rewrite (height_cond snd l) in H1 by done. split; [split_and!; lia|]. apply check_fields_spec; [done|lia|].
      split_and!; try (done || lia). apply Forall_forall. intros k _. apply not_elem_of_nil.
Qed.

Lemma validateJSONStructure_spec raw :
  validateJSONStructure raw = Ok tt ↔ ∃ t, document raw = Some t ∧
    (height t ≤ maxJSONDepth)%Z ∧ (tree_nodes t ≤ maxJSONNodes)%Z ∧ unique_keys t.
Proof.
  unfold validateJSONStructure. rewrite walk_document_spec. split.
  - intros (t & n & Ht & Hc). apply check_tree_spec in Hc as ([H1 H2] & H3 & _). exists t. split_and!; (done || lia).
  - intros (t & Ht & H1 & H2 & H3). exists t, (0 + tree_nodes t)%Z. split; [done|]. apply check_tree_spec.
    split_and!; (done || lia).
Qed.
