(* ===== verification/CanonicalSize.v ===== *)
(** * The size of a canonical text

    On valid UTF-8 the parser stays on the boundaries of runes, and the
    canonical text of what it reads is no longer than the bytes it reads. *)

From Stdlib Require Import ZifyNat.
From S2P Require Import Prelude GoLib Encoding Json JsonProps JsonText JsonPrint CanonicalJson.

Open Scope go_scope.

(** ** Positions between runes *)

Lemma utf8_ascii a s : (zcode a < 128)%Z → utf8 (a :: s) → utf8 s.
Proof.
  intros Ha Hs. remember (a :: s) as u eqn:Hu. destruct Hs as [|c t Hc Ht]; [done|].
  destruct Hc as [b Hb|b d Hb _|b d e Hb _ _ _ _|b d e g Hb _ _ _ _ _]; cbn in Hu; simplify_eq; [done|lia..].
Qed.

Definition ascii (s : bytes) : Prop := Forall (λ a, (zcode a < 128)%Z) s.

Lemma utf8_ascii_app p s : ascii p → utf8 (p ++ s) → utf8 s.
Proof. induction 1 as [|a p Ha _ IH]; [done|]. intros H. by apply IH, (utf8_ascii a). Qed.

Lemma ascii_app p q : ascii p → ascii q → ascii (p ++ q).
Proof. apply Forall_app_2. Qed.

Lemma is_byte_ascii n c : is_byte n c = true → n < 128 → (zcode c < 128)%Z.
Proof. rewrite is_byte_zcode. lia. Qed.

Lemma byte_in_ascii lo hi c : byte_in lo hi c = true → hi < 128 → (zcode c < 128)%Z.
Proof. rewrite byte_in_zcode. lia. Qed.

Lemma skip_ascii s : ∃ p, s = p ++ skip s ∧ ascii p.
Proof.
  induction s as [|c s (p & Hp & Ha)]; [exists []; split; [done|constructor]|]. cbn.
  destruct (json_space c) eqn:Hc; [|exists []; split; [done|constructor]].
  exists (c :: p). cbn. rewrite <- Hp. split; [done|]. constructor; [|done].
  unfold json_space in Hc. rewrite !orb_true_iff in Hc.
  destruct Hc as [[[H|H]|H]|H]; (eapply is_byte_ascii; [exact H|lia]).
Qed.

Lemma skip_utf8 s : utf8 s → utf8 (skip s).
Proof. intros H. destruct (skip_ascii s) as (p & Hp & Ha). apply (utf8_ascii_app p); [done|]. by rewrite <- Hp. Qed.

Lemma starts_utf8 n s : starts n s = true → n < 128 → utf8 s → utf8 (drop 1 s).
Proof.
  intros (c & r & -> & Hc)%starts_cons Hn Hs. apply (utf8_ascii c); [by eapply is_byte_ascii|done].
Qed.

Lemma strip_prefix_app_inv p s r : strip_prefix p s = Some r → s = p ++ r.
Proof.
  revert s. induction p as [|c p IH]; intros s Hs; cbn in *; [by simplify_eq|].
  destruct s as [|c' s]; [done|]. case_bool_decide; [|done]. subst. by rewrite (IH s).
Qed.

Lemma span_digits_ascii s ds r : span_digits s = (ds, r) → s = ds ++ r ∧ ascii ds.
Proof.
  revert ds r. induction s as [|c s IH]; intros ds r Hs; cbn in *; [simplify_eq; by split; [|constructor]|].
  destruct (digit c) eqn:Hc; [|simplify_eq; by split; [|constructor]].
  destruct (span_digits s) as [ds' r'] eqn:Hd. simplify_eq. destruct (IH _ _ eq_refl) as [-> Ha].
  split; [done|]. constructor; [|done]. eapply byte_in_ascii; [exact Hc|lia].
Qed.

Lemma some_digits_ascii s ds r : some_digits s = Some (ds, r) → s = ds ++ r ∧ ascii ds.
Proof.
  unfold some_digits. destruct (span_digits s) as [[|c ds'] r'] eqn:Hs; [done|]. intros [= <- <-].
  by apply span_digits_ascii.
Qed.

Lemma scan_number_ascii s x r : scan_number s = Some (x, r) → s = x ++ r ∧ ascii x.
Proof.
  unfold scan_number. intros Hs.
  assert (∀ sg s1, scan_sign s = (sg, s1) → s = sg ++ s1 ∧ ascii sg) as H1.
  { intros sg s1. destruct s as [|c s']; cbn; [intros [= <- <-]; by split; [|constructor]|].
    destruct (is_byte 45 c) eqn:Hc; intros [= <- <-]; (split; [done|]); [|constructor].
    constructor; [|constructor]. eapply is_byte_ascii; [exact Hc|lia]. }
  destruct (scan_sign s) as [sg s1]. destruct (H1 _ _ eq_refl) as [-> Hsg]. clear H1.
  destruct (scan_integer s1) as [[i s2]|] eqn:Hi; [|done]. cbn [mbind option_bind] in Hs.
  assert (s1 = i ++ s2 ∧ ascii i) as [-> Hia].
  { destruct s1 as [|c s']; [done|]. unfold scan_integer in Hi. destruct (is_byte 48 c) eqn:Hc; [simplify_eq|].
    - split; [done|]. constructor; [|constructor]. eapply is_byte_ascii; [exact Hc|lia].
    - destruct (digit c); [|done]. apply span_digits_ascii. congruence. }
  destruct (scan_fraction s2) as [[fr s3]|] eqn:Hf; [|done]. cbn [mbind option_bind] in Hs.
  assert (s2 = fr ++ s3 ∧ ascii fr) as [-> Hfa].
  { destruct s2 as [|c s']; cbn in Hf; [simplify_eq; by split; [|constructor]|].
    destruct (is_byte 46 c) eqn:Hc; [|simplify_eq; by split; [|constructor]].
    destruct (some_digits s') as [[ds r']|] eqn:Hd; [|done]. cbn in Hf. simplify_eq.
    apply some_digits_ascii in Hd as [-> Hd]. split; [done|]. constructor; [|done].
    eapply is_byte_ascii; [exact Hc|lia]. }
  destruct (scan_exponent s3) as [[ex s4]|] eqn:He; [|done]. cbn [mbind option_bind] in Hs. injection Hs as <- <-.
  assert (s3 = ex ++ s4 ∧ ascii ex) as [-> Hea].
  { destruct s3 as [|c s']; cbn in He; [simplify_eq; by split; [|constructor]|].
    destruct (is_byte 101 c || is_byte 69 c) eqn:Hc; [|simplify_eq; by split; [|constructor]].
    assert (zcode c < 128)%Z as Hca.
    { apply orb_true_iff in Hc as [H|H]; (eapply is_byte_ascii; [exact H|lia]). }
    destruct s' as [|g s']; [done|]. destruct (is_byte 43 g || is_byte 45 g) eqn:Hg.
    - destruct (some_digits s') as [[ds r']|] eqn:Hd; [|done]. cbn in He. simplify_eq.
      apply some_digits_ascii in Hd as [-> Hd]. split; [done|]. constructor; [done|]. constructor; [|done].
      apply orb_true_iff in Hg as [H|H]; (eapply is_byte_ascii; [exact H|lia]).
    - destruct (some_digits (g :: s')) as [[ds r']|] eqn:Hd; [|done]. cbn in He. simplify_eq.
      apply some_digits_ascii in Hd as [-> Hd]. split; [done|]. by constructor. }
  rewrite <- !app_assoc. split; [done|]. by repeat apply ascii_app.
Qed.

(** ** Strings *)

Lemma hex_value_ascii c x : hex_value c = Some x → (zcode c < 128)%Z.
Proof.
  unfold hex_value. intros H.
  destruct (byte_in 48 57 c) eqn:H1; [eapply byte_in_ascii; [exact H1|lia]|].
  destruct (byte_in 97 102 c) eqn:H2; [eapply byte_in_ascii; [exact H2|lia]|].
  destruct (byte_in 65 70 c) eqn:H3; [eapply byte_in_ascii; [exact H3|lia]|done].
Qed.

Lemma getu4_ascii s r : getu4 s = Some r → ascii (take 6 s).
Proof.
  unfold getu4. intros H. destruct s as [|b [|u [|h1 [|h2 [|h3 [|h4 s]]]]]]; try done.
  destruct (is_byte 92 b) eqn:Hb; [|done]. destruct (is_byte 117 u) eqn:Hu; [|done]. cbn [andb] in H.
  destruct (hex_value h1) eqn:H1; [|done]. destruct (hex_value h2) eqn:H2; [|done].
  destruct (hex_value h3) eqn:H3; [|done]. destruct (hex_value h4) eqn:H4; [|done]. cbn.
  apply hex_value_ascii in H1, H2, H3, H4. apply is_byte_ascii in Hb, Hu; [|lia..]. by repeat constructor.
Qed.

(** The canonical text of one rune. *)
Definition rune_text (c : bytes) : bytes := canonical_rune (rune_value (length c) c).

Lemma rune_text_length c : Rune c → length (rune_text c) ≤ 6.
Proof.
  intros Hc. unfold rune_text, canonical_rune. pose proof (encode_rune_value c [] Hc) as He.
  rewrite app_nil_r in He. rewrite He. apply Rune_length in Hc. repeat case_match; cbn; lia.
Qed.

Lemma rune_text_plain c :
  Rune c → (∀ a, c = [a] → 32 ≤ zcode a ∧ zcode a ≠ 34 ∧ zcode a ≠ 92)%Z → length (rune_text c) = length c.
Proof.
  intros Hc Ha. unfold rune_text, canonical_rune. pose proof (encode_rune_value c [] Hc) as He.
  rewrite app_nil_r in He. rewrite He.
  assert (32 ≤ rune_value (length c) c ∧ rune_value (length c) c ≠ 34 ∧ rune_value (length c) c ≠ 92)%Z as Hr.
  { destruct Hc as [a H1|a b H1 H2|a b d H1 H2 H3 H4 H5|a b d e H1 H2 H3 H4 H5 H6]; cbn;
      [by apply Ha|unfold cont in *; lia..]. }
  repeat case_match; try done; lia.
Qed.

(** A character of a string takes at least as many bytes as its canonical text,
    and leaves the rest between runes. *)
Lemma string_step_size s e n :
  string_step s = Some (e, n) → utf8 s → starts 34 s = false → utf8 (drop n s) ∧ length (rune_text e) ≤ n.
Proof.
  intros Hst Hu Hq. pose proof (string_step_rune _ _ _ Hst) as He. pose proof (rune_text_length _ He) as H6.
  destruct s as [|c s]; [done|]. cbn [starts] in Hq. unfold string_step in Hst. destruct (is_byte 92 c) eqn:H92.
  - destruct s as [|e' s]; [done|]. destruct (is_byte 117 e') eqn:H117.
    + destruct (getu4 (c :: e' :: s)) as [r1|] eqn:H1; [|done]. cbn [mbind option_bind] in Hst.
      apply getu4_ascii in H1. assert (utf8 (drop 6 (c :: e' :: s))) as Hd.
      { apply (utf8_ascii_app (take 6 (c :: e' :: s))); [exact H1|]. rewrite take_drop. exact Hu. }
      destruct (surrogate r1); [|injection Hst as <- <-; exact (conj Hd H6)].
      destruct (getu4 (drop 6 _)) as [r2|] eqn:H2; cbn [mbind option_bind] in Hst; [|injection Hst as <- <-; exact (conj Hd H6)].
      apply getu4_ascii in H2. destruct (surrogate_pair r1 r2); injection Hst as <- <-; [|exact (conj Hd H6)]. split; [|lia].
      change 12 with (6 + 6). rewrite <- drop_drop.
      apply (utf8_ascii_app (take 6 (drop 6 (c :: e' :: s)))); [done|]. by rewrite take_drop.
    + destruct (simple_escape e') as [b|] eqn:Hb; [|done]. injection Hst as <- <-. split.
      * cbn. apply (utf8_ascii e'); [|apply (utf8_ascii c); [|exact Hu]; eapply is_byte_ascii; [exact H92|lia]].
        unfold simple_escape in Hb. repeat (case_match; [simplify_eq; try (eapply is_byte_ascii; [eassumption|lia])|]); try done.
        match goal with H : _ || _ = true |- _ => rewrite !orb_true_iff in H; destruct H as [[H|H]|H] end;
          (eapply is_byte_ascii; [exact H|lia]).
      * unfold simple_escape in Hb. each_byte e'; vm_compute in Hb; simplify_eq; vm_compute; lia.
  - destruct (code c <? 32) eqn:H32; [done|]. apply Nat.ltb_ge in H32. remember (c :: s) as u eqn:Hcs.
    destruct Hu as [|x t Hx Ht]; [done|]. assert (∃ y, x = c :: y) as [y ->].
    { destruct Hx; cbn in Hcs; simplify_eq; eauto. }
    pose proof (rune_length_of _ t Hx) as Hl. unfold DecodeRune in Hst. cbn [app] in *. rewrite Hl in Hst.
    pose proof (encode_rune_value _ t Hx) as Hev. cbn [app] in Hev. rewrite Hev in Hst.
    assert (e = c :: y ∧ n = length (c :: y)) as [-> ->] by (split; congruence).
    pose proof (drop_app_length (c :: y) t) as Hdr. cbn [app] in Hdr. rewrite Hdr. split; [done|].
    rewrite rune_text_plain; [done|done|]. intros a [= <- ->].
    apply not_true_iff_false in Hq, H92. rewrite is_byte_zcode in Hq, H92. unfold zcode in *. lia.
Qed.

Lemma rune_value_app c s : Rune c → rune_value (length c) (c ++ s) = rune_value (length c) c.
Proof. by destruct 1. Qed.

Lemma canonical_runes_cons f c s :
  Rune c → length (c ++ s) ≤ f →
  ∃ g, length s ≤ g ∧ canonical_runes f [] (c ++ s) = rune_text c ++ canonical_runes g [] s.
Proof.
  intros Hc Hf. pose proof (Rune_length c Hc) as Hl. rewrite length_app in Hf. destruct f as [|f]; [lia|].
  exists f. split; [lia|]. pose proof (rune_length_of c s Hc) as Hrl. unfold rune_text.
  rewrite <- (rune_value_app c s Hc). destruct c as [|a c]; [cbn in Hl; lia|]. cbn [canonical_runes app]. unfold DecodeRune.
  cbn [app] in Hrl. rewrite Hrl. pose proof (drop_app_length (a :: c) s) as Hd. cbn [app] in Hd. rewrite Hd.
  by rewrite canonical_runes_out.
Qed.

(** A string literal is no shorter than its canonical text. *)
Lemma scan_string_size f s t r g :
  scan_string f s = Some (t, r) → utf8 s → length t ≤ g →
  utf8 r ∧ length (canonical_runes g [] t) + 1 + length r ≤ length s.
Proof.
  revert s t r g. induction f as [|f IH]; intros s t r g Hs Hu Hg; [done|].
  destruct s as [|c s]; [done|]. cbn [scan_string] in Hs. destruct (is_byte 34 c) eqn:Hc.
  { injection Hs as <- <-. split; [apply (utf8_ascii c); [eapply is_byte_ascii; [exact Hc|lia]|done]|].
    destruct g; cbn; lia. }
  destruct (string_step (c :: s)) as [[e n]|] eqn:Hst; [|done]. cbn [mbind option_bind] in Hs.
  destruct (scan_string f _) as [[t' r']|] eqn:Hr; [|done]. cbn [mbind option_bind] in Hs. injection Hs as <- <-.
  pose proof (string_step_rune _ _ _ Hst) as He. pose proof (string_step_length _ _ _ Hst) as Hn.
  destruct (string_step_size _ _ _ Hst Hu Hc) as [Hd Hle].
  destruct (canonical_runes_cons g e t' He Hg) as (g' & Hg' & ->).
  destruct (IH _ _ _ g' Hr Hd Hg') as [Hu' Hlen]. split; [done|]. rewrite length_app, length_drop in *. lia.
Qed.

(** Bytes [s] that hold [out] before [r], on a boundary. *)
Definition fits (s out r : bytes) : Prop := utf8 s → utf8 r ∧ length out + length r ≤ length s.

Lemma length_canonical_string t :
  length (canonical_string (of_text t)) = length (canonical_runes (length t) [] t) + 2.
Proof.
  unfold canonical_string. rewrite text_of_text, <- length_text, text_of_text. cbn. rewrite length_app. cbn. lia.
Qed.

Lemma scan_scalar_fits s v r : scan_scalar s = Some (v, r) → fits s (print canonical_string v) r.
Proof.
  destruct s as [|c s]; [done|]. unfold scan_scalar, fits. intros Hs Hu. destruct (is_byte 34 c) eqn:H1.
  { destruct (scan_string _ s) as [[t r']|] eqn:H; [|done]. injection Hs as <- <-.
    apply utf8_ascii in Hu; [|eapply is_byte_ascii; [exact H1|lia]].
    destruct (scan_string_size _ _ _ _ (length t) H Hu) as [Hr Hl]; [done|]. split; [done|]. cbn [print].
    rewrite length_canonical_string. cbn. lia. }
  assert (∀ p, ascii p → strip_prefix p (c :: s) = Some r → utf8 r ∧ length p + length r ≤ length (c :: s)) as Hlit.
  { intros p Hp Hr. apply strip_prefix_app_inv in Hr. rewrite Hr in Hu |- *.
    split; [by apply (utf8_ascii_app p)|]. rewrite length_app. lia. }
  assert (∀ t r', scan_number (c :: s) = Some (t, r') → utf8 r' ∧ length t + length r' ≤ length (c :: s)) as Hnum.
  { intros t r' (Heq & Ha)%scan_number_ascii. rewrite Heq in Hu |- *.
    split; [by apply (utf8_ascii_app t)|]. rewrite length_app. lia. }
  destruct (is_byte 116 c); [destruct (strip_prefix _ _) eqn:H; [|done]; injection Hs as <- ->;
    apply Hlit; [by repeat constructor|done]|].
  destruct (is_byte 102 c); [destruct (strip_prefix _ _) eqn:H; [|done]; injection Hs as <- ->;
    apply Hlit; [by repeat constructor|done]|].
  destruct (is_byte 110 c); [destruct (strip_prefix _ _) eqn:H; [|done]; injection Hs as <- ->;
    apply Hlit; [by repeat constructor|done]|].
  destruct (scan_number (c :: s)) as [[t r']|] eqn:H; [|done]. injection Hs as <- <-. cbn [print].
  rewrite text_of_text. by apply Hnum.
Qed.

Lemma scan_key_fits s k r : scan_key s = Some (k, r) → fits s (canonical_string k ++ text ":") r.
Proof.
  unfold scan_key, scan_name, fits. intros Hs Hu%skip_utf8. pose proof (length_skip s) as Hsk.
  destruct (skip s) as [|c s']; [done|]. destruct (is_byte 34 c) eqn:H1; [|done].
  destruct (scan_string _ s') as [[t r']|] eqn:H; [|done]. cbn [mbind option_bind] in Hs.
  destruct (starts 58 (skip r')) eqn:H58; [|done]. injection Hs as <- <-.
  apply utf8_ascii in Hu; [|eapply is_byte_ascii; [exact H1|lia]].
  destruct (scan_string_size _ _ _ _ (length t) H Hu) as [Hr Hl]; [done|].
  split; [apply (starts_utf8 58); [done|lia|by apply skip_utf8]|].
  apply length_starts in H58. pose proof (length_skip r'). rewrite length_app, length_canonical_string. cbn in *. lia.
Qed.

Lemma separator_fits b s r : separator b s = Some r → fits s (if b then [] else text ",") r.
Proof.
  unfold separator, fits. destruct b; [by intros [= <-]|]. destruct (starts 44 (skip s)) eqn:H; [|done].
  intros [= <-] Hu. split; [apply (starts_utf8 44); [done|lia|by apply skip_utf8]|].
  apply length_starts in H. pose proof (length_skip s). cbn. lia.
Qed.

Lemma fits_app s p r q t : fits s p r → fits r q t → fits s (p ++ q) t.
Proof.
  unfold fits. intros H1 H2 Hs. destruct (H1 Hs) as [Hr Hl]. destruct (H2 Hr) as [Ht Hl']. split; [done|].
  rewrite length_app. lia.
Qed.

Lemma fits_skip s p r : fits (skip s) p r → fits s p r.
Proof. unfold fits. intros H Hs. destruct (H (skip_utf8 _ Hs)) as [Hr Hl]. pose proof (length_skip s). split; [done|lia]. Qed.

Lemma fits_starts n s p r : starts n s = true → n < 128 → fits (drop 1 s) p r → fits s (byte n :: p) r.
Proof.
  unfold fits. intros H Hn Hd Hs. destruct (Hd (starts_utf8 _ _ H Hn Hs)) as [Hr Hl]. apply length_starts in H.
  split; [done|]. cbn. lia.
Qed.

(** The elements or fields, after the opening delimiter or after another one. *)
Definition listed (b : bool) (l : list bytes) (close : nat) : bytes :=
  (if b then join (text ",") l else tail_of l) ++ [byte close].

Lemma listed_cons b x l close :
  listed b (x :: l) close = ((if b then [] else text ",") ++ x) ++ listed false l close.
Proof. unfold listed. destruct b; [rewrite join_cons; cbn; by rewrite <- app_assoc|]. cbn. by rewrite <- !app_assoc. Qed.

(** What the parser reads is no shorter than its canonical text. *)
Lemma parse_fits f :
  (∀ s t r, parse_value f s = Some (t, r) → fits s (print canonical_string t) r) ∧
  (∀ b s l r, parse_fields f b s = Some (l, r) → fits s (listed b (map (print_field canonical_string) l) 125) r) ∧
  (∀ b s l r, parse_items f b s = Some (l, r) → fits s (listed b (map (print canonical_string) l) 93) r).
Proof.
  induction f as [|f (IHv & IHf & IHi)]; [done|]. split_and!.
  - intros s t r. rewrite parse_value_S. destruct (starts 123 _) eqn:H1.
    { destruct (parse_fields f _ _) as [[l r']|] eqn:Hp; [|done]. intros [= <- <-].
      apply fits_skip. apply IHf in Hp. apply (fits_starts 123); [done|lia|exact Hp]. }
    destruct (starts 91 _) eqn:H2; [|intros H; by apply fits_skip, scan_scalar_fits].
    destruct (parse_items f _ _) as [[l r']|] eqn:Hp; [|done]. intros [= <- <-].
    apply fits_skip. apply IHi in Hp. apply (fits_starts 91); [done|lia|exact Hp].
  - intros b s l r. rewrite parse_fields_S. destruct (starts 125 _) eqn:H1.
    { intros [= <- <-]. apply fits_skip. destruct b; apply (fits_starts 125); (done || lia). }
    destruct (separator b s) as [s1|] eqn:H2; [|done]. cbn [mbind option_bind].
    destruct (scan_key s1) as [[k s2]|] eqn:H3; [|done]. cbn [mbind option_bind].
    destruct (parse_value f s2) as [[v s3]|] eqn:H4; [|done]. cbn [mbind option_bind].
    destruct (parse_fields f false s3) as [[l' s4]|] eqn:H5; [|done]. intros [= <- <-].
    cbn [map]. rewrite listed_cons. apply (fits_app _ _ s3); [|by eapply IHf].
    apply (fits_app _ _ s1); [by apply separator_fits|]. cbn [print_field]. rewrite app_assoc.
    apply (fits_app _ _ s2); [by apply scan_key_fits|by apply IHv].
  - intros b s l r. rewrite parse_items_S. destruct (starts 93 _) eqn:H1.
    { intros [= <- <-]. apply fits_skip. destruct b; apply (fits_starts 93); (done || lia). }
    destruct (separator b s) as [s1|] eqn:H2; [|done]. cbn [mbind option_bind].
    destruct (parse_value f s1) as [[v s3]|] eqn:H4; [|done]. cbn [mbind option_bind].
    destruct (parse_items f false s3) as [[l' s4]|] eqn:H5; [|done]. intros [= <- <-].
    cbn [map]. rewrite listed_cons. apply (fits_app _ _ s3); [|by eapply IHi].
    apply (fits_app _ _ s1); [by apply separator_fits|by apply IHv].
Qed.

Lemma document_fits raw t :
  document raw = Some t → utf8 raw → length (print canonical_string t) ≤ length raw.
Proof.
  unfold document. destruct (parse_value _ raw) as [[t' r]|] eqn:H; [|done]. cbn. case_bool_decide; [|done].
  intros [= <-] Hu. apply parse_fits in H. destruct (H Hu) as [_ Hl]. lia.
Qed.

(** ** Sorting changes no measure *)

Lemma length_join (l : list bytes) :
  length (join (text ",") l) = foldr Nat.add 0 (map length l) + pred (length l).
Proof.
  destruct l as [|x l]; [done|]. rewrite join_cons, length_app. cbn [map foldr length pred].
  assert (length (tail_of l) = foldr Nat.add 0 (map length l) + length l) as ->; [|lia].
  induction l as [|y l IH]; [done|]. change (tail_of (y :: l)) with ((text "," ++ y) ++ tail_of l).
  rewrite !length_app, IH. cbn. lia.
Qed.

Lemma foldr_add_perm (l k : list nat) : l ≡ₚ k → foldr Nat.add 0 l = foldr Nat.add 0 k.
Proof. induction 1; cbn; lia. Qed.

Lemma length_print_sort q t : length (print q (sort_tree t)) = length (print q t).
Proof.
  induction t as [|b|s|s|l IH|l IH] using json_ind'; cbn [sort_tree print]; [done..| |].
  - rewrite !length_app, !length_join, !map_map, !length_map. do 4 f_equal. by apply map_list_ext.
  - rewrite !length_app, !length_join, !length_map. rewrite !map_map.
    rewrite (foldr_add_perm _ (map (λ x, length (let '(k, v) := x in q k ++ text ":" ++ print q v)) l)).
    + rewrite (Permutation_length (sort_fields_perm _)), length_map. done.
    + rewrite sort_fields_perm, map_map. match goal with |- ?x ≡ₚ ?y => cut (x = y); [by intros ->|] end. apply map_list_ext.
      induction IH as [|[k v] l H _ IH']; constructor; [|done]. cbn in *. rewrite !length_app. cbn. by rewrite H.
Qed.
