(* ===== verification/CanonicalTheorems.v ===== *)
(** * Theorems on canonical JSON *)

From Stdlib Require Import ZifyNat.
From S2P Require Import Prelude GoLib Encoding Json JsonProps JsonText JsonPrint CanonicalJson CanonicalSize.

Open Scope go_scope.

(** ** Sorting keeps the limits *)

Lemma foldr_max_perm (l k : list Z) : l ≡ₚ k → foldr Z.max 0%Z l = foldr Z.max 0%Z k.
Proof. induction 1; cbn; lia. Qed.

Lemma foldr_sum_perm (l k : list Z) : l ≡ₚ k → foldr Z.add 0%Z l = foldr Z.add 0%Z k.
Proof. induction 1; cbn; lia. Qed.

(** A measure of the fields that does not see their order. *)
Lemma map_sorted_fields {B} (m : JSON → B) l :
  Forall (λ kv, m (sort_tree kv.2) = m kv.2) l →
  map (λ '(_, t), m t) (sort_fields (map (λ '(k, v), (k, sort_tree v)) l)) ≡ₚ map (λ '(_, t), m t) l.
Proof.
  intros H. rewrite sort_fields_perm, map_map. match goal with |- ?x ≡ₚ ?y => cut (x = y); [by intros ->|] end.
  apply map_list_ext. eapply Forall_impl; [exact H|]. by intros [k v].
Qed.

Lemma height_sort t : height (sort_tree t) = height t.
Proof.
  induction t as [|b|s|s|l IH|l IH] using json_ind'; cbn [sort_tree height]; [done..| |].
  - f_equal. rewrite map_map. apply map_list_ext. eapply Forall_impl; [exact IH|]. by intros t ->.
  - apply foldr_max_perm, (map_sorted_fields (λ t, height t + 1)%Z). eapply Forall_impl; [exact IH|]. by intros kv ->.
Qed.

Lemma tree_nodes_sort t : tree_nodes (sort_tree t) = tree_nodes t.
Proof.
  induction t as [|b|s|s|l IH|l IH] using json_ind'; cbn [sort_tree tree_nodes]; [done..| |].
  - do 2 f_equal. rewrite map_map. by apply map_list_ext.
  - f_equal. by apply foldr_sum_perm, (map_sorted_fields tree_nodes).
Qed.

Lemma integers_sort t : integers (sort_tree t) ↔ integers t.
Proof.
  induction t as [|b|s|s|l IH|l IH] using json_ind'; cbn [sort_tree integers]; [done..| |].
  - rewrite !foldr_and, Forall_map. induction IH as [|t l H _ IH]; [by rewrite !Forall_nil|].
    by rewrite !Forall_cons, H, IH.
  - rewrite !foldr_and, sort_fields_perm, Forall_map_field. cbn [snd].
    induction IH as [|t l H _ IH]; [by rewrite !Forall_nil|]. by rewrite !Forall_cons, H, IH.
Qed.

(** ** The canonical text is UTF-8 *)

Lemma ascii_utf8 s : ascii s → utf8 s.
Proof. induction 1 as [|a s Ha _ IH]; [constructor|]. apply (utf8_rune [a]); [by constructor|done]. Qed.

Lemma rune_text_utf8 c : Rune c → utf8 (rune_text c).
Proof.
  intros Hc. destruct (decide (length c = 1)) as [Hl|Hl].
  - assert (∃ a, c = [a] ∧ (zcode a < 128)%Z) as (a & -> & Ha).
    { destruct Hc; cbn in Hl; try lia. eauto. }
    apply ascii_utf8. unfold rune_text. cbn [length rune_value].
    each_byte a; try (exfalso; vm_compute in Ha; discriminate Ha); by repeat constructor.
  - unfold rune_text, canonical_rune. pose proof (encode_rune_value c [] Hc) as He. rewrite app_nil_r in He.
    rewrite He. assert (128 ≤ rune_value (length c) c)%Z as Hr.
    { destruct Hc as [a Ha|a b Ha Hb|a b d Ha Hb Hd Hx Hy|a b d e Ha Hb Hd Hee Hx Hy]; cbn in Hl |- *; unfold cont in *; lia. }
    repeat (case_match; [lia|]). rewrite <- (app_nil_r c). by repeat constructor.
Qed.

Lemma canonical_runes_utf8 f s : utf8 s → length s ≤ f → utf8 (canonical_runes f [] s).
Proof.
  intros Hs. revert f. induction Hs as [|c s Hc Hs IH]; intros f Hf; [destruct f; constructor|].
  destruct (canonical_runes_cons f c s Hc Hf) as (g & Hg & ->). apply utf8_app; [by apply rune_text_utf8|by apply IH].
Qed.

Lemma canonical_string_utf8 s : text_ok s → utf8 (canonical_string s).
Proof.
  intros Hs. unfold canonical_string. apply (utf8_rune [dquote]); [by constructor|]. apply utf8_app.
  - apply canonical_runes_utf8; [done|]. by rewrite length_text.
  - by apply ascii_utf8; repeat constructor.
Qed.

Lemma join_utf8 l : Forall utf8 l → utf8 (join (text ",") l).
Proof.
  intros Hl. destruct Hl as [|x l Hx Hl]; [constructor|]. rewrite join_cons. apply utf8_app; [done|].
  induction Hl as [|y l Hy _ IH]; [constructor|]. change (tail_of (y :: l)) with ((text "," ++ y) ++ tail_of l).
  apply utf8_app; [|done]. apply utf8_app; [|done]. by apply ascii_utf8; repeat constructor.
Qed.

Lemma print_utf8 t : tree_ok t → utf8 (print canonical_string t).
Proof.
  assert (∀ p x q, ascii p → utf8 x → ascii q → utf8 (p ++ x ++ q)) as Hwrap.
  { intros p x q Hp Hx Hq. apply utf8_app; [by apply ascii_utf8|]. apply utf8_app; [done|by apply ascii_utf8]. }
  induction t as [|b|s|s|l IH|l IH] using json_ind'; cbn [tree_ok print]; intros Ht.
  - by apply ascii_utf8; repeat constructor.
  - by apply ascii_utf8; destruct b; repeat constructor.
  - unfold number_ok in Ht. apply scan_number_ascii in Ht as [_ Ha]. by apply ascii_utf8.
  - by apply canonical_string_utf8.
  - rewrite foldr_and in Ht. apply Hwrap; [by repeat constructor| |by repeat constructor].
    apply join_utf8. rewrite Forall_map, !Forall_forall in *. auto.
  - rewrite foldr_and2 in Ht. apply Hwrap; [by repeat constructor| |by repeat constructor].
    apply join_utf8. rewrite Forall_map, !Forall_forall in *. intros [k v] Hkv. destruct (Ht _ Hkv) as [Hk Hv].
    apply utf8_app; [by apply canonical_string_utf8|]. apply utf8_app; [by apply ascii_utf8; repeat constructor|].
    by apply (IH (k, v)).
Qed.

(** ** The functions of the package *)

(** The limit on the depth is below that of the scanner. *)
Lemma nesting_height t : (nesting t ≤ height t + 1)%Z.
Proof.
  induction t as [|b|s|s|l IH|l IH] using json_ind'; cbn [nesting height]; [lia..| |].
  - induction IH as [|t l H _ IH]; cbn; lia.
  - induction IH as [|[k t] l H _ IH]; cbn in *; lia.
Qed.

Lemma Decode_document raw t :
  document raw = Some t → (height t ≤ maxJSONDepth)%Z → ∃ rest, Decode raw = Some (any_of t, rest).
Proof.
  unfold document, Decode. destruct (parse_value _ raw) as [[t' r]|]; [|done]. cbn [mbind option_bind]. case_bool_decide; [|done].
  intros [= <-] Hh. pose proof (nesting_height t') as Hn. unfold maxJSONDepth in Hh.
  rewrite (proj2 (Z.leb_le _ _)) by (unfold maxNestingDepth; lia). eauto.
Qed.

(** Marshalling and decoding again only sorts the fields. *)
Lemma canonicalJSON_append t :
  tree_ok t → unique_keys t → (height t ≤ maxJSONDepth)%Z →
  canonicalJSON t = appendCanonicalJSON (sort_tree t) 0 [].
Proof.
  intros Ht Hu Hh. unfold canonicalJSON. rewrite marshal_print by done.
  destruct (Decode_document (print json_string (sort_tree t)) (sort_tree t)) as [rest ->].
  - apply document_print; [apply json_string_quotes|by apply sort_tree_ok].
  - by rewrite height_sort.
  - by rewrite any_of_unique by (by apply sort_tree_unique).
Qed.

Lemma CanonicalJSON_spec raw out :
  CanonicalJSON raw = Ok out ↔ ∃ t, canonicalizable raw t ∧ out = canonical_text t.
Proof.
  unfold CanonicalJSON, canonicalizable. rewrite guard_ok, !andb_true_iff, Z.ltb_lt, Z.leb_le, ValidUTF8_spec, rbind_ok.
  assert (∀ t, document raw = Some t → unique_keys t → (height t ≤ maxJSONDepth)%Z →
    (match Decode raw with None => Err DecodeValue | Some (value, _) => canonicalJSON value end) = Ok out ↔
    (height t ≤ maxJSONDepth)%Z ∧ integers t ∧ out = canonical_text t) as Hdec.
  { intros t Ht Hu Hh. destruct (Decode_document raw t Ht Hh) as [rest ->]. rewrite any_of_unique by done.
    pose proof (document_ok _ _ Ht) as Hok. rewrite canonicalJSON_append, appendCanonicalJSON_spec by (try done; by apply sort_tree_ok).
    rewrite height_sort, integers_sort, Z.add_0_l. unfold canonical_text. by rewrite sort_tree_idemp. }
  split.
  - intros ([[H1 H2] H3] & [] & Hv & Hd). apply validateJSONStructure_spec in Hv as (t & Ht & H4 & H5 & H6).
    apply (Hdec t) in Hd as (_ & Hi & ->); [|done..]. by exists t.
  - intros (t & ((H1 & H2) & H3 & Ht & H4 & H5 & H6 & H7) & ->). split; [done|]. exists tt.
    split; [apply validateJSONStructure_spec; eauto|]. by apply (Hdec t).
Qed.

Lemma canonical_text_canonicalizable raw t : canonicalizable raw t → canonicalizable (canonical_text t) (sort_tree t).
Proof.
  intros (H1 & H2 & Ht & H4 & H5 & H6 & H7). pose proof (document_ok _ _ Ht) as Hok.
  pose proof (document_fits _ _ Ht H2) as Hl. unfold canonicalizable, canonical_text.
  rewrite height_sort, tree_nodes_sort, integers_sort, length_print_sort.
  split_and!; try done; try lia.
  - destruct (print_head canonical_string canonical_string_quotes t Hok) as (c & r & -> & _). cbn. lia.
  - by apply print_utf8, sort_tree_ok.
  - apply document_print; [apply canonical_string_quotes|by apply sort_tree_ok].
  - by apply sort_tree_unique.
Qed.

(** [CanonicalJSON] answers exactly for the documents of at most a mebibyte
    of valid UTF-8 that hold one JSON value with at most 64 levels, at most
    100000 nodes, no repeated field name and only integers written without
    leading zeros; the answer is the value printed without white space, with
    the fields of every object in byte order and with the shortest escapes. *)
Theorem canonical_json_exact raw out :
  CanonicalJSON raw = Ok out ↔
  ∃ t, ((0 < Z.of_nat (length raw) ≤ maxDocumentBytes)%Z ∧ utf8 raw ∧ document raw = Some t ∧
        (height t ≤ maxJSONDepth)%Z ∧ (tree_nodes t ≤ maxJSONNodes)%Z ∧ unique_keys t ∧ integers t) ∧
       out = print canonical_string (sort_tree t).
Proof. apply CanonicalJSON_spec. Qed.

(** C34: A canonical text is its own canonical text, is no longer than the
    document it was made from, and determines the value: two documents have
    the same text exactly when their values differ in the order of fields only. *)
Theorem canonical_json_round_trip raw1 raw2 out1 out2 t1 t2 :
  CanonicalJSON raw1 = Ok out1 → CanonicalJSON raw2 = Ok out2 →
  document raw1 = Some t1 → document raw2 = Some t2 →
  CanonicalJSON out1 = Ok out1 ∧ length out1 ≤ length raw1 ∧ document out1 = Some (sort_tree t1) ∧
  (out1 = out2 ↔ sort_tree t1 = sort_tree t2).
Proof.
  rewrite !CanonicalJSON_spec. intros (u1 & Hc1 & ->) (u2 & Hc2 & ->) Ht1 Ht2.
  assert (u1 = t1) as -> by (destruct Hc1 as (_ & _ & ? & _); congruence).
  assert (u2 = t2) as -> by (destruct Hc2 as (_ & _ & ? & _); congruence).
  pose proof (canonical_text_canonicalizable _ _ Hc1) as Hcc1. pose proof (canonical_text_canonicalizable _ _ Hc2) as Hcc2.
  split_and!.
  - exists (sort_tree t1). split; [done|]. unfold canonical_text. by rewrite sort_tree_idemp.
  - unfold canonical_text. rewrite length_print_sort. destruct Hc1 as (_ & Hu & _). by apply document_fits.
  - by destruct Hcc1 as (_ & _ & ? & _).
  - split; [|unfold canonical_text; by intros ->]. intros Heq. destruct Hcc1 as (_ & _ & H1 & _), Hcc2 as (_ & _ & H2 & _).
    rewrite Heq in H1. congruence.
Qed.

Definition sample1 : bytes := text "{ " ++ json_string "b" ++ text ": [1, -20, true]," ++ json_string "a" ++ text ":null }".
Definition sample2 : bytes := text "{" ++ json_string "a" ++ text ":null," ++ json_string "b" ++ text ":[1,-20,true]}".

Lemma canonical_json_round_trip_witness :
  CanonicalJSON sample1 = Ok sample2 ∧ CanonicalJSON sample2 = Ok sample2.
Proof.
  split; [vm_compute; reflexivity|].
  eapply (canonical_json_round_trip sample1 sample1 sample2 sample2); vm_compute; reflexivity.
Defined.
