(* ===== verification/Ipc.v ===== *)
(** * Frames between the host and the runtime ([internal/runtimeclient/codec.go])

    A frame is a header of 19 bytes, the length of its metadata, the metadata
    (JSON) and a body. The writer is any [io.Writer]; the reader is the bytes
    it will deliver and the error after them. *)

From Stdlib Require Import ZifyNat.
From S2P Require Import Prelude GoLib Encoding Json JsonProps JsonText.

Open Scope go_scope.
Open Scope Z_scope.

(** ** Constants and types *)

Definition IPCFrameHeaderBytes : Z := 19.
Definition IPCFramePayloadPrefixBytes : Z := 4.
Definition IPCControlMetadataMax : Z := Z.shiftl 64 10.
Definition IPCInvokeMetadataMax : Z := Z.shiftl 1 20.
Definition IPCBodyMax : Z := Z.shiftl 64 10.
Definition IPCFrameMax : Z := IPCFrameHeaderBytes + IPCFramePayloadPrefixBytes + IPCInvokeMetadataMax + IPCBodyMax.

Definition ipcFrameMagic : bytes := text "RDPF".

(** [IPCFrameType] is a byte; the constants count from one. *)
Definition IPCFrameHello : Z := 1.
Definition IPCFrameHelloAck : Z := 2.
Definition IPCFrameHeartbeat : Z := 3.
Definition IPCFrameInvoke : Z := 4.
Definition IPCFrameInvokeResult : Z := 5.
Definition IPCFrameCancelInvoke : Z := 6.
Definition IPCFrameCancelAck : Z := 7.
Definition IPCFrameHostcall : Z := 8.
Definition IPCFrameHostcallResult : Z := 9.
Definition IPCFrameIORead : Z := 10.
Definition IPCFrameIOReadResult : Z := 11.
Definition IPCFrameIOWrite : Z := 12.
Definition IPCFrameIOWriteResult : Z := 13.
Definition IPCFrameIOSeek : Z := 14.
Definition IPCFrameIOSeekResult : Z := 15.
Definition IPCFrameIOClose : Z := 16.
Definition IPCFrameIOCloseResult : Z := 17.
Definition IPCFrameExecutionEvent : Z := 18.
Definition IPCFrameRevokePlugin : Z := 19.
Definition IPCFrameRevokeSession : Z := 20.
Definition IPCFrameDiagnostic : Z := 21.

Record IPCFrame := {
  Type_ : Z;
  Flags : Z;
  RequestID : Z;
  Metadata : bytes;
  Body : bytes
}.

(** The errors of a reader or a writer. *)
Inductive IOError := EOF | ErrUnexpectedEOF | ErrShortWrite | OtherIO (n : nat).

Inductive IPCError :=
| ErrIPCFrameInvalid
| ErrIPCFrameTooLarge
| ErrIPCProtocolViolation
| IPCIO (e : IOError).

Definition u32 (x : Z) : Z := x mod 2 ^ 32.
Definition blen (s : bytes) : Z := Z.of_nat (length s).

(** ** Validation *)

Definition validIPCFrameType (frameType : Z) : bool :=
  (IPCFrameHello <=? frameType) && (frameType <=? IPCFrameDiagnostic).

Definition ipcMetadataLimit (frameType : Z) : Z :=
  if (frameType =? IPCFrameInvoke) || (frameType =? IPCFrameInvokeResult)
  then IPCInvokeMetadataMax else IPCControlMetadataMax.

(** Any error of the metadata walk becomes [ErrIPCFrameInvalid]. *)
Inductive MetadataError :=
| StructuralLimit | MetadataToken | UnsupportedValue | KeyNotString | DuplicateKey
| ObjectNotClosed | ArrayNotClosed | NotCanonicalInteger | TrailingToken | MetadataFuel.

(** The digits of [strconv.ParseUint] in base ten: [None] when a byte is no
    digit or when there is none. *)
Definition decimal (s : bytes) : option Z :=
  match s with
  | [] => None
  | _ => if forallb digit s then Some (foldl (λ acc c, acc * 10 + (zcode c - 48)) 0 s) else None
  end.

(** [strconv.ParseInt] after its sign, and [strconv.ParseUint], on 64 bits. *)
Definition validateIPCJSONInteger (value : string) : Result MetadataError unit :=
  match text value with
  | [] => Err NotCanonicalInteger
  | c :: r =>
     if bool_decide (value = "-0"%string) then Err NotCanonicalInteger
     else if is_byte 45 c then
       match decimal r with
       | Some n => guard! n <=? 2 ^ 63 else NotCanonicalInteger in Ok tt
       | None => Err NotCanonicalInteger
       end
     else
       match decimal (c :: r) with
       | Some n => guard! n <=? uint64_max else NotCanonicalInteger in Ok tt
       | None => Err NotCanonicalInteger
       end
  end.

(** [consumeIPCJSONValue]. *)
Definition consumeIPCJSONValue : Walker MetadataError := {|
  enter depth nodes :=
    guard! negb ((64 <? depth) || (100000 <=? nodes)) else StructuralLimit in Ok (nodes + 1);
  scalar_ok v :=
    match v with
    | JNumber value => validateIPCJSONInteger value
    | _ => Ok tt
    end;
  bad_value := MetadataToken;
  bad_delimiter := UnsupportedValue;
  bad_key := MetadataToken;
  key_not_text := KeyNotString;
  duplicate_key := DuplicateKey;
  open_object := ObjectNotClosed;
  open_array := ArrayNotClosed;
  out_of_fuel := MetadataFuel
|}.

Definition validateIPCMetadata (raw : bytes) : Result MetadataError unit :=
  walk_document consumeIPCJSONValue TrailingToken raw.

Definition validateIPCFrame (frame : IPCFrame) : Result IPCError unit :=
  guard! validIPCFrameType (Type_ frame) else ErrIPCProtocolViolation in
  guard! negb (RequestID frame =? 0) else ErrIPCProtocolViolation in
  guard! (blen (Metadata frame) <=? ipcMetadataLimit (Type_ frame)) && (blen (Body frame) <=? IPCBodyMax)
    else ErrIPCFrameTooLarge in
  if 0 <? blen (Metadata frame) then
    guard! ValidUTF8 (Metadata frame) else ErrIPCFrameInvalid in
    match validateIPCMetadata (Metadata frame) with
    | Ok _ => Ok tt
    | Err _ => Err ErrIPCFrameInvalid
    end
  else Ok tt.

(** ** Big-endian integers ([encoding/binary]) *)

Fixpoint be (n : nat) (x : Z) : bytes :=
  match n with
  | O => []
  | S n => zbyte (x / 256 ^ Z.of_nat n mod 256) :: be n x
  end.

Definition unbe (s : bytes) : Z := foldl (λ acc c, acc * 256 + zcode c) 0 s.

(** ** Writing *)

(** An [io.Writer]: what it has taken so far, and [Write], which takes a prefix
    of its argument and says how long it is. *)
Class Writer (W : Type) := {
  taken : W → bytes;
  Write : W → bytes → W * Z * option IOError;
  Write_taken : ∀ w p w' n e, Write w p = (w', n, e) → taken w' = taken w ++ take (Z.to_nat n) p
}.

Section writing.
Context {W : Type} `{!Writer W}.

(** The fuel is the number of bytes: every round writes at least one. *)
Fixpoint write_loop (fuel : nat) (writer : W) (value : bytes) : W * option IOError :=
  match fuel, value with
  | _, [] => (writer, None)
  | O, _ => (writer, Some ErrShortWrite)
  | S fuel, _ =>
     match Write writer value with
     | (writer, _, Some err) => (writer, Some err)
     | (writer, written, None) =>
        if (written <=? 0) || (blen value <? written) then (writer, Some ErrShortWrite)
        else write_loop fuel writer (drop (Z.to_nat written) value)
     end
  end.

Definition writeIPCBytes (writer : W) (value : bytes) : W * option IOError :=
  write_loop (length value) writer value.

(** The header and the length of the metadata. *)
Definition frame_header (frame : IPCFrame) : bytes :=
  let payloadLength := u32 (u32 (IPCFramePayloadPrefixBytes + blen (Metadata frame)) + blen (Body frame)) in
  ipcFrameMagic ++ [zbyte (Type_ frame)] ++ be 2 (Flags frame) ++ be 8 (RequestID frame) ++ be 4 payloadLength.

Definition frame_prefix (frame : IPCFrame) : bytes := be 4 (u32 (blen (Metadata frame))).

Fixpoint write_parts (writer : W) (parts : list bytes) : W * option IPCError :=
  match parts with
  | [] => (writer, None)
  | part :: parts =>
     match writeIPCBytes writer part with
     | (writer, Some err) => (writer, Some (IPCIO err))
     | (writer, None) => write_parts writer parts
     end
  end.

Definition WriteIPCFrame (writer : W) (frame : IPCFrame) : W * option IPCError :=
  match validateIPCFrame frame with
  | Err err => (writer, Some err)
  | Ok _ => write_parts writer [frame_header frame; frame_prefix frame; Metadata frame; Body frame]
  end.
End writing.

(** ** Reading *)

(** What a reader delivers, and the error it then returns. *)
Record Stream := { contents : bytes; ending : IOError }.

(** [io.ReadFull]. *)
Definition ReadFull (n : nat) (reader : Stream) : Result IPCError (bytes * Stream) :=
  if (n <=? length (contents reader))%nat
  then Ok (take n (contents reader), {| contents := drop n (contents reader); ending := ending reader |})
  else match ending reader, contents reader with
       | EOF, _ :: _ => Err (IPCIO ErrUnexpectedEOF)
       | err, _ => Err (IPCIO err)
       end.

(** [b[i:j]]. *)
Definition slice (i j : nat) (b : bytes) : bytes := take (j - i) (drop i b).

Definition ReadIPCFrame (reader : Stream) : Result IPCError (IPCFrame * Stream) :=
  let? hr := ReadFull 19 reader in
  let header := fst hr in
  guard! bool_decide (slice 0 4 header = ipcFrameMagic) else ErrIPCProtocolViolation in
  let type_ := unbe (slice 4 5 header) in
  guard! validIPCFrameType type_ else ErrIPCProtocolViolation in
  let payloadLength := unbe (slice 15 19 header) in
  guard! negb ((payloadLength <? IPCFramePayloadPrefixBytes) || (IPCFrameMax <? IPCFrameHeaderBytes + payloadLength))
    else ErrIPCFrameTooLarge in
  let? pr := ReadFull 4 (snd hr) in
  let metadataLength := unbe (fst pr) in
  guard! negb (u32 (payloadLength - IPCFramePayloadPrefixBytes) <? metadataLength) else ErrIPCProtocolViolation in
  let bodyLength := u32 (payloadLength - IPCFramePayloadPrefixBytes - metadataLength) in
  guard! negb ((ipcMetadataLimit type_ <? metadataLength) || (IPCBodyMax <? bodyLength)) else ErrIPCFrameTooLarge in
  let? mr := ReadFull (Z.to_nat metadataLength) (snd pr) in
  let? br := ReadFull (Z.to_nat bodyLength) (snd mr) in
  let frame := {| Type_ := type_; Flags := unbe (slice 5 7 header); RequestID := unbe (slice 7 15 header);
                  Metadata := fst mr; Body := fst br |} in
  let? _ := validateIPCFrame frame in
  Ok (frame, snd br).

(** ** Requests and responses *)

Definition IPCResponseType (request : Z) : option Z :=
  if request =? IPCFrameHello then Some IPCFrameHelloAck
  else if request =? IPCFrameHeartbeat then Some IPCFrameHeartbeat
  else if request =? IPCFrameInvoke then Some IPCFrameInvokeResult
  else if request =? IPCFrameCancelInvoke then Some IPCFrameCancelAck
  else if request =? IPCFrameHostcall then Some IPCFrameHostcallResult
  else if request =? IPCFrameIORead then Some IPCFrameIOReadResult
  else if request =? IPCFrameIOWrite then Some IPCFrameIOWriteResult
  else if request =? IPCFrameIOSeek then Some IPCFrameIOSeekResult
  else if request =? IPCFrameIOClose then Some IPCFrameIOCloseResult
  else if request =? IPCFrameRevokePlugin then Some IPCFrameRevokePlugin
  else if request =? IPCFrameRevokeSession then Some IPCFrameRevokeSession
  else None.

(** ** Big-endian integers are read back *)

Lemma length_be n x : length (be n x) = n.
Proof. induction n as [|n IH]; cbn; [done|]. by rewrite IH. Qed.

Lemma unbe_app s t : unbe (s ++ t) = unbe s * 256 ^ blen t + unbe t.
Proof.
  unfold unbe, blen. revert s. induction t as [|c t IH] using rev_ind; intros s.
  - rewrite app_nil_r. cbn. lia.
  - rewrite app_assoc, (foldl_app _ (s ++ t)), (foldl_app _ t), IH, length_app. cbn [foldl length].
    rewrite Nat2Z.inj_add, Z.pow_add_r by lia. cbn. lia.
Qed.

Lemma unbe_range s : 0 ≤ unbe s < 256 ^ blen s.
Proof.
  induction s as [|c s IH] using rev_ind; [done|]. rewrite unbe_app.
  assert (256 ^ blen (s ++ [c]) = 256 ^ blen s * 256) as ->.
  { unfold blen. rewrite length_app, Nat2Z.inj_add, Z.pow_add_r by lia. done. }
  change (256 ^ blen [c]) with 256. change (unbe [c]) with (0 * 256 + zcode c). pose proof (zcode_range c). lia.
Qed.

Lemma unbe_cons c s : unbe (c :: s) = zcode c * 256 ^ blen s + unbe s.
Proof. change (c :: s) with ([c] ++ s). rewrite unbe_app. unfold unbe at 1. cbn [foldl]. lia. Qed.

Lemma unbe_be n x : 0 ≤ x < 256 ^ Z.of_nat n → unbe (be n x) = x.
Proof.
  assert (unbe (be n x) = x mod 256 ^ Z.of_nat n) as ->; [|intros; by apply Z.mod_small].
  induction n as [|n IH]; cbn [be]; [by rewrite Z.mod_1_r|].
  rewrite unbe_cons, IH. unfold blen. rewrite length_be, zcode_zbyte by (apply Z.mod_pos_bound; lia).
  rewrite Nat2Z.inj_succ, Z.pow_succ_r by lia. rewrite (Z.mul_comm 256).
  rewrite Z.rem_mul_r by lia. lia.
Qed.

(** High digits do not matter. *)
Lemma be_add_high k m x y : (k ≤ m)%nat → be k (x + y * 256 ^ Z.of_nat m) = be k x.
Proof.
  intros Hk. induction k as [|k IH]; cbn [be]; [done|]. rewrite IH by lia. f_equal. f_equal.
  replace (y * 256 ^ Z.of_nat m) with (y * 256 ^ (Z.of_nat m - Z.of_nat k - 1) * 256 * 256 ^ Z.of_nat k).
  - rewrite Z.div_add by lia. by rewrite Z.mod_add.
  - rewrite <- !Z.mul_assoc. rewrite <- (Z.pow_succ_r 256 (Z.of_nat k)) by lia. rewrite <- Z.pow_add_r by lia.
    do 2 f_equal. lia.
Qed.

Lemma be_unbe s n : length s = n → be n (unbe s) = s.
Proof.
  intros <-. induction s as [|c s IH]; [done|]. cbn [length be]. rewrite unbe_cons.
  assert (zcode c * 256 ^ blen s + unbe s = unbe s + zcode c * 256 ^ blen s) as -> by lia.
  pose proof (unbe_range s) as Hs. pose proof (zcode_range c) as Hc. change (Z.of_nat (length s)) with (blen s). f_equal.
  - apply zbyte_code. rewrite Z.div_add, Z.div_small, Z.add_0_l by lia. apply Z.mod_small. lia.
  - transitivity (be (length s) (unbe s)); [|done]. by apply be_add_high.
Qed.
