(* ===== verification/IpcProps.v ===== *)
(** * Theorems on the frames

    Reading is exact: a stream starts with a frame if and only if it starts
    with the bytes that writing the frame produces. Any writer that may take
    fewer bytes than it is given leaves those bytes or a prefix of them. *)

From Stdlib Require Import ZifyNat.
From S2P Require Import Prelude GoLib Encoding Json JsonProps JsonText Ipc.

Open Scope go_scope.
Open Scope Z_scope.

(** The widths of the fields. *)
Definition frame_wf (f : IPCFrame) : Prop :=
  0 ≤ Type_ f < 2 ^ 8 ∧ 0 ≤ Flags f < 2 ^ 16 ∧ 0 ≤ RequestID f < 2 ^ 64.

(** The bytes of a frame. *)
Definition frame_bytes (f : IPCFrame) : bytes := frame_header f ++ frame_prefix f ++ Metadata f ++ Body f.

Lemma limit_range t : IPCControlMetadataMax ≤ ipcMetadataLimit t ≤ IPCInvokeMetadataMax.
Proof. unfold ipcMetadataLimit. destruct (_ || _); vm_compute; split; discriminate. Qed.

Lemma validateIPCFrame_bounds f :
  validateIPCFrame f = Ok tt →
  validIPCFrameType (Type_ f) = true ∧ RequestID f ≠ 0 ∧
  blen (Metadata f) ≤ ipcMetadataLimit (Type_ f) ∧ blen (Body f) ≤ IPCBodyMax.
Proof.
  unfold validateIPCFrame. rewrite !guard_ok, negb_true_iff, Z.eqb_neq, andb_true_iff, !Z.leb_le. tauto.
Qed.

Lemma blen_nonneg s : 0 ≤ blen s.
Proof. unfold blen. lia. Qed.

(** The lengths in a valid frame do not wrap. *)
Lemma valid_lengths f :
  validateIPCFrame f = Ok tt →
  u32 (u32 (IPCFramePayloadPrefixBytes + blen (Metadata f)) + blen (Body f)) =
    IPCFramePayloadPrefixBytes + blen (Metadata f) + blen (Body f) ∧
  u32 (blen (Metadata f)) = blen (Metadata f) ∧
  IPCFrameHeaderBytes + (IPCFramePayloadPrefixBytes + blen (Metadata f) + blen (Body f)) ≤ IPCFrameMax.
Proof.
  intros (_ & _ & Hm & Hb)%validateIPCFrame_bounds. pose proof (limit_range (Type_ f)) as [_ Hl].
  pose proof (blen_nonneg (Metadata f)). pose proof (blen_nonneg (Body f)).
  change IPCInvokeMetadataMax with 1048576 in *. change IPCBodyMax with 65536 in *.
  change IPCFramePayloadPrefixBytes with 4. change IPCFrameHeaderBytes with 19. change IPCFrameMax with 1114135.
  unfold u32. rewrite !Z.mod_small by (rewrite ?Z.mod_small; lia). lia.
Qed.

Lemma ReadFull_ok n s x s' :
  ReadFull n s = Ok (x, s') ↔ contents s = x ++ contents s' ∧ length x = n ∧ ending s' = ending s.
Proof.
  unfold ReadFull. destruct (n <=? length (contents s))%nat eqn:Hn.
  - apply Nat.leb_le in Hn. split.
    + intros [= <- <-]. cbn. rewrite take_drop, length_take. split_and!; [done|lia|done].
    + intros (Hc & <- & He). f_equal. rewrite Hc, take_app_length, drop_app_length, <- He. by destruct s'.
  - apply Nat.leb_gt in Hn. split; [by repeat case_match|]. intros (Hc & <- & _).
    rewrite Hc, length_app in Hn. lia.
Qed.

(** A header, cut into its fields. *)
Lemma header_slices h :
  length h = 19%nat →
  h = slice 0 4 h ++ slice 4 5 h ++ slice 5 7 h ++ slice 7 15 h ++ slice 15 19 h ∧
  length (slice 0 4 h) = 4%nat ∧ length (slice 4 5 h) = 1%nat ∧ length (slice 5 7 h) = 2%nat ∧
  length (slice 7 15 h) = 8%nat ∧ length (slice 15 19 h) = 4%nat.
Proof.
  intros Hl. do 20 (destruct h as [|? h]; [try discriminate Hl; done|]). discriminate Hl.
Qed.

Lemma slices_of m t fl id pl :
  length m = 4%nat → length t = 1%nat → length fl = 2%nat → length id = 8%nat → length pl = 4%nat →
  let h := m ++ t ++ fl ++ id ++ pl in
  slice 0 4 h = m ∧ slice 4 5 h = t ∧ slice 5 7 h = fl ∧ slice 7 15 h = id ∧ slice 15 19 h = pl.
Proof.
  intros. repeat match goal with H : length ?x = S _ |- _ => destruct x; [discriminate H|]; cbn in H; injection H as H
    | H : length ?x = O |- _ => apply nil_length_inv in H; subst x end. done.
Qed.

(** A frame that is read was written on the stream. *)
Lemma ReadIPCFrame_sound s f s' :
  ReadIPCFrame s = Ok (f, s') →
  validateIPCFrame f = Ok tt ∧ frame_wf f ∧ contents s = frame_bytes f ++ contents s' ∧ ending s' = ending s.
Proof.
  unfold ReadIPCFrame.
  intros H. apply rbind_ok in H as ([h s1] & H1 & H). apply ReadFull_ok in H1 as (Hc1 & Hl1 & He1).
  cbn [fst snd] in H. apply guard_ok in H as [Hmagic H]. apply bool_decide_eq_true in Hmagic.
  apply guard_ok in H as [Htype H]. apply guard_ok in H as [Hpl H].
  apply rbind_ok in H as ([p s2] & H2 & H). apply ReadFull_ok in H2 as (Hc2 & Hl2 & He2). cbn [fst snd] in H.
  apply guard_ok in H as [Hml H]. apply guard_ok in H as [Hlim H].
  apply rbind_ok in H as ([m s3] & H3 & H). apply ReadFull_ok in H3 as (Hc3 & Hl3 & He3). cbn [fst snd] in H.
  apply rbind_ok in H as ([b s4] & H4 & H). apply ReadFull_ok in H4 as (Hc4 & Hl4 & He4). cbn [fst snd] in H.
  apply rbind_ok in H as ([] & Hv & [= <- <-]). split; [done|].
  destruct (header_slices h Hl1) as (Hh & L1 & L2 & L3 & L4 & L5).
  pose proof (unbe_range (slice 4 5 h)) as R2. pose proof (unbe_range (slice 5 7 h)) as R3.
  pose proof (unbe_range (slice 7 15 h)) as R4. pose proof (unbe_range (slice 15 19 h)) as R5.
  pose proof (unbe_range p) as Rp. unfold blen in R2, R3, R4, R5, Rp. rewrite L2 in R2. rewrite L3 in R3.
  rewrite L4 in R4. rewrite L5 in R5. rewrite Hl2 in Rp.
  split; [by unfold frame_wf|]. split; [|congruence].
  pose proof (valid_lengths _ Hv) as (Hw1 & Hw2 & _).
  unfold frame_bytes, frame_header, frame_prefix. rewrite Hw1, Hw2. cbn [Type_ Flags RequestID Metadata Body] in *.
  apply negb_true_iff in Hpl, Hml, Hlim. rewrite orb_false_iff, !Z.ltb_ge in Hpl, Hlim. rewrite Z.ltb_ge in Hml.
  change IPCFramePayloadPrefixBytes with 4 in *. change IPCFrameHeaderBytes with 19 in *. change IPCFrameMax with 1114135 in *.
  unfold u32 in Hml, Hlim, Hl4. change (2 ^ 32) with 4294967296 in *.
  rewrite Z.mod_small in Hml by lia. rewrite Z.mod_small in Hlim, Hl4 by lia.
  assert (blen m = unbe p) as -> by (unfold blen; lia).
  assert (4 + unbe p + blen b = unbe (slice 15 19 h)) as -> by (unfold blen; lia).
  rewrite !be_unbe by done.
  assert ([zbyte (unbe (slice 4 5 h))] = slice 4 5 h) as ->.
  { destruct (slice 4 5 h) as [|c [|? ?]]; [done| |done]. unfold unbe. cbn. f_equal. by apply zbyte_code. }
  rewrite <- Hmagic. cbn [contents]. rewrite Hc1, Hc2, Hc3, Hc4. rewrite Hh at 1. by rewrite <- !app_assoc.
Qed.

(** A frame that was written is read. *)
Lemma ReadIPCFrame_complete s f s' :
  validateIPCFrame f = Ok tt → frame_wf f → contents s = frame_bytes f ++ contents s' → ending s' = ending s →
  ReadIPCFrame s = Ok (f, s').
Proof.
  unfold ReadIPCFrame.
  intros Hv (W1 & W2 & W3) Hc He. pose proof (valid_lengths _ Hv) as (Hw1 & Hw2 & Hw3).
  pose proof (validateIPCFrame_bounds _ Hv) as (Ht & Hid & Hm & Hb).
  pose proof (blen_nonneg (Metadata f)). pose proof (blen_nonneg (Body f)).
  pose proof (limit_range (Type_ f)) as [_ Hlim].
  unfold frame_bytes, frame_prefix in Hc. rewrite Hw2 in Hc.
  set (h := frame_header f) in *.
  assert (length h = 19%nat) as Hlh. { unfold h, frame_header. rewrite !length_app, !length_be. done. }
  assert (ReadFull 19 s = Ok (h, {| contents := be 4 (blen (Metadata f)) ++ Metadata f ++ Body f ++ contents s';
    ending := ending s |})) as ->.
  { apply ReadFull_ok. cbn. split_and!; [|done|done]. by rewrite Hc, <- !app_assoc. }
  cbn [rbind fst snd].
  destruct (slices_of ipcFrameMagic [zbyte (Type_ f)] (be 2 (Flags f)) (be 8 (RequestID f))
    (be 4 (IPCFramePayloadPrefixBytes + blen (Metadata f) + blen (Body f)))) as (S1 & S2 & S3 & S4 & S5);
    [by rewrite ?length_be..|].
  unfold h, frame_header. rewrite Hw1. rewrite S1, S2, S3, S4, S5. rewrite bool_decide_eq_true_2 by done.
  assert (unbe [zbyte (Type_ f)] = Type_ f) as ->. { unfold unbe. cbn. rewrite zcode_zbyte by done. lia. }
  rewrite Ht. change IPCFramePayloadPrefixBytes with 4 in *. change IPCFrameHeaderBytes with 19 in *.
  change IPCFrameMax with 1114135 in *. change IPCInvokeMetadataMax with 1048576 in *. change IPCBodyMax with 65536 in *.
  rewrite (unbe_be 4 (4 + _ + _)) by (change (256 ^ Z.of_nat 4) with 4294967296; lia).
  rewrite (proj2 (Z.ltb_ge (4 + _ + _) 4)) by lia. rewrite (proj2 (Z.ltb_ge 1114135 _)) by lia. cbn [orb negb].
  assert (ReadFull 4 {| contents := be 4 (blen (Metadata f)) ++ Metadata f ++ Body f ++ contents s'; ending := ending s |} =
    Ok (be 4 (blen (Metadata f)), {| contents := Metadata f ++ Body f ++ contents s'; ending := ending s |})) as ->.
  { apply ReadFull_ok. cbn [contents ending]. by rewrite length_be. }
  cbn [rbind fst snd]. rewrite (unbe_be 4 (blen (Metadata f))) by (change (256 ^ Z.of_nat 4) with 4294967296; lia).
  assert (u32 (4 + blen (Metadata f) + blen (Body f) - 4) = blen (Metadata f) + blen (Body f)) as ->.
  { unfold u32. rewrite Z.mod_small by lia. lia. }
  assert (u32 (4 + blen (Metadata f) + blen (Body f) - 4 - blen (Metadata f)) = blen (Body f)) as ->.
  { unfold u32. rewrite Z.mod_small by lia. lia. }
  rewrite (proj2 (Z.ltb_ge (blen (Metadata f) + blen (Body f)) _)) by lia. cbn [negb].
  rewrite (proj2 (Z.ltb_ge (ipcMetadataLimit (Type_ f)) _)) by lia. rewrite (proj2 (Z.ltb_ge 65536 _)) by lia. cbn [orb negb].
  assert (ReadFull (Z.to_nat (blen (Metadata f))) {| contents := Metadata f ++ Body f ++ contents s'; ending := ending s |} =
    Ok (Metadata f, {| contents := Body f ++ contents s'; ending := ending s |})) as ->.
  { apply ReadFull_ok. cbn. split_and!; [done| |done]. unfold blen. lia. }
  cbn [rbind fst snd].
  assert (ReadFull (Z.to_nat (blen (Body f))) {| contents := Body f ++ contents s'; ending := ending s |} =
    Ok (Body f, s')) as ->.
  { apply ReadFull_ok. cbn. split_and!; [done| |done]. unfold blen. lia. }
  cbn [rbind fst snd].
  rewrite (unbe_be 2), (unbe_be 8) by done. destruct f as [ty fl id m b]. cbn in *. by rewrite Hv.
Qed.

Lemma ReadIPCFrame_spec s f s' :
  ReadIPCFrame s = Ok (f, s') ↔
  validateIPCFrame f = Ok tt ∧ frame_wf f ∧ contents s = frame_bytes f ++ contents s' ∧ ending s' = ending s.
Proof. split; [apply ReadIPCFrame_sound|]. intros (? & ? & ? & ?). by apply ReadIPCFrame_complete. Qed.

(** ** Writing *)

Section writing.
Context {W : Type} `{!Writer W}.
Implicit Types w : W.

(** The bytes taken between two states of a writer. *)
Definition wrote w (p : bytes) w' : Prop := taken w' = taken w ++ p.

Lemma wrote_app w1 w2 w3 p q : wrote w1 p w2 → wrote w2 q w3 → wrote w1 (p ++ q) w3.
Proof. unfold wrote. intros -> ->. symmetry. apply app_assoc. Qed.

Lemma wrote_nil w : wrote w [] w.
Proof. unfold wrote. by rewrite app_nil_r. Qed.

(** All of the value, or a prefix of it and an error. *)
Lemma write_loop_spec fuel w value w' e :
  (length value ≤ fuel)%nat → write_loop fuel w value = (w', e) →
  match e with
  | None => wrote w value w'
  | Some _ => ∃ p, p `prefix_of` value ∧ wrote w p w'
  end.
Proof.
  revert w value. induction fuel as [|fuel IH]; intros w value Hf.
  { destruct value; [|cbn in Hf; lia]. intros [= <- <-]. apply wrote_nil. }
  destruct value as [|c value]; [intros [= <- <-]; apply wrote_nil|]. cbn [write_loop].
  destruct (Write w (c :: value)) as [[w1 n] e1] eqn:Hw. apply Write_taken in Hw.
  destruct e1 as [err|]; [intros [= <- <-]; eexists; split; [apply prefix_take|done]|].
  destruct (_ || _) eqn:Hn; [intros [= <- <-]; eexists; split; [apply prefix_take|done]|].
  apply orb_false_iff in Hn as [Hn _]. apply Z.leb_gt in Hn.
  intros Hl. apply IH in Hl; [|rewrite length_drop; cbn in *; lia].
  destruct e as [e|].
  - destruct Hl as (p & [q Hp] & Hp'). exists (take (Z.to_nat n) (c :: value) ++ p). split.
    + exists q. by rewrite <- app_assoc, <- Hp, take_drop.
    + by eapply wrote_app.
  - rewrite <- (take_drop (Z.to_nat n) (c :: value)). by eapply wrote_app.
Qed.

(** Every round makes progress: more fuel than bytes changes nothing. *)
Lemma write_loop_fuel f g w value :
  (length value ≤ f)%nat → (length value ≤ g)%nat → write_loop f w value = write_loop g w value.
Proof.
  revert g w value. induction f as [|f IH]; intros g w value Hf Hg.
  { destruct value; [by destruct g|cbn in Hf; lia]. }
  destruct value as [|c value]; [by destruct g|]. destruct g as [|g]; [cbn in Hg; lia|]. cbn [write_loop].
  destruct (Write w (c :: value)) as [[w1 n] [err|]]; [done|]. destruct (_ || _) eqn:Hn; [done|].
  apply orb_false_iff in Hn as [Hn _]. apply Z.leb_gt in Hn. apply IH; rewrite length_drop; cbn in *; lia.
Qed.

Lemma write_parts_spec parts w w' e :
  write_parts w parts = (w', e) →
  match e with
  | None => wrote w (concat parts) w'
  | Some e => (∃ io, e = IPCIO io) ∧ ∃ p, p `prefix_of` concat parts ∧ wrote w p w'
  end.
Proof.
  revert w. induction parts as [|x parts IH]; intros w; cbn [write_parts concat].
  { intros [= <- <-]. apply wrote_nil. }
  unfold writeIPCBytes. destruct (write_loop _ w x) as [w1 [err|]] eqn:Hl; apply write_loop_spec in Hl; try done.
  - intros [= <- <-]. split; [eauto|]. destruct Hl as (p & [q ->] & Hw). exists p. split; [|done].
    exists (q ++ concat parts). by rewrite app_assoc.
  - intros Hp. apply IH in Hp. destruct e as [e|]; [|by eapply wrote_app].
    destruct Hp as [He (p & [q Hq] & Hw)]. split; [done|]. exists (x ++ p). split; [|by eapply wrote_app].
    exists q. by rewrite Hq, app_assoc.
Qed.

Lemma WriteIPCFrame_spec w f w' e :
  WriteIPCFrame w f = (w', e) →
  match e with
  | None => validateIPCFrame f = Ok tt ∧ wrote w (frame_bytes f) w'
  | Some e => validateIPCFrame f = Err e ∧ w' = w ∨
              validateIPCFrame f = Ok tt ∧ (∃ io, e = IPCIO io) ∧ ∃ p, p `prefix_of` frame_bytes f ∧ wrote w p w'
  end.
Proof.
  unfold WriteIPCFrame. destruct (validateIPCFrame f) as [[]|err]; [|intros [= <- <-]; by left].
  intros Hp. apply write_parts_spec in Hp. cbn [concat] in Hp. rewrite app_nil_r in Hp.
  destruct e as [e|]; [|done]. right. by split.
Qed.
End writing.

(** ** Streams that end in a frame *)

(** A proper prefix of a frame is no frame and starts with none. *)
Lemma truncated_frame f p q e :
  validateIPCFrame f = Ok tt → frame_wf f → frame_bytes f = p ++ q → q ≠ [] →
  ∃ err, ReadIPCFrame {| contents := p; ending := e |} = Err err.
Proof.
  intros Hv Hw Hpq Hq. destruct (ReadIPCFrame {| contents := p; ending := e |}) as [[f' s']|err] eqn:Hr; [|eauto].
  exfalso. apply ReadIPCFrame_spec in Hr as (Hv' & Hw' & Hc & _). cbn [contents] in Hc.
  assert (ReadIPCFrame {| contents := frame_bytes f; ending := e |} = Ok (f, {| contents := []; ending := e |})) as H1.
  { apply ReadIPCFrame_complete; [done|done|cbn [contents]; by rewrite app_nil_r|done]. }
  assert (ReadIPCFrame {| contents := frame_bytes f; ending := e |} =
    Ok (f', {| contents := contents s' ++ q; ending := e |})) as H2.
  { apply ReadIPCFrame_complete; [done|done|cbn [contents]; by rewrite Hpq, Hc, <- app_assoc|done]. }
  rewrite H1 in H2. injection H2 as _ Hnil. symmetry in Hnil. by apply app_nil in Hnil as [_ ->].
Qed.

(** A stream that ends after the header of a frame. *)
Lemma header_then_end f :
  validateIPCFrame f = Ok tt → 0 ≤ Type_ f < 2 ^ 8 →
  ReadIPCFrame {| contents := frame_header f; ending := EOF |} = Err (IPCIO EOF).
Proof.
  intros Hv W1. pose proof (valid_lengths _ Hv) as (Hw1 & _ & Hw3). pose proof (validateIPCFrame_bounds _ Hv) as (Ht & _).
  pose proof (blen_nonneg (Metadata f)). pose proof (blen_nonneg (Body f)). unfold ReadIPCFrame.
  assert (ReadFull 19 {| contents := frame_header f; ending := EOF |} =
    Ok (frame_header f, {| contents := []; ending := EOF |})) as ->.
  { apply ReadFull_ok. cbn [contents ending]. rewrite app_nil_r. split_and!; [done| |done].
    unfold frame_header. rewrite !length_app, !length_be. done. }
  cbn [rbind fst snd]. unfold frame_header. rewrite Hw1.
  destruct (slices_of ipcFrameMagic [zbyte (Type_ f)] (be 2 (Flags f)) (be 8 (RequestID f))
    (be 4 (IPCFramePayloadPrefixBytes + blen (Metadata f) + blen (Body f)))) as (S1 & S2 & _ & _ & S5);
    [by rewrite ?length_be..|].
  rewrite S1, S2, S5, bool_decide_eq_true_2 by done.
  assert (unbe [zbyte (Type_ f)] = Type_ f) as ->. { unfold unbe. cbn. rewrite zcode_zbyte by done. lia. }
  rewrite Ht. change IPCFramePayloadPrefixBytes with 4 in *. change IPCFrameHeaderBytes with 19 in *.
  change IPCFrameMax with 1114135 in *.
  rewrite (unbe_be 4) by (change (256 ^ Z.of_nat 4) with 4294967296; lia).
  rewrite (proj2 (Z.ltb_ge _ 4)) by lia. rewrite (proj2 (Z.ltb_ge 1114135 _)) by lia. reflexivity.
Qed.

(** The frames on a stream: reading one succeeds exactly when the stream
    starts with the bytes of a valid frame, and then gives that frame and the
    rest of the stream; the bytes of a frame are at most the 1114135 of
    [IPCFrameMax], so that no other number is ever allocated or waited for. *)
Theorem ipc_frame_exact s f s' :
  (ReadIPCFrame s = Ok (f, s') ↔
   validateIPCFrame f = Ok tt ∧ frame_wf f ∧ contents s = frame_bytes f ++ contents s' ∧ ending s' = ending s) ∧
  (validateIPCFrame f = Ok tt → blen (frame_bytes f) ≤ IPCFrameMax).
Proof.
  split; [apply ReadIPCFrame_spec|]. intros Hv. pose proof (valid_lengths _ Hv) as (_ & _ & Hl).
  unfold frame_bytes, frame_header, frame_prefix, blen in *. rewrite !length_app, !length_be.
  change (length ipcFrameMagic) with 4%nat. cbn [length]. change IPCFrameHeaderBytes with 19 in Hl.
  change IPCFramePayloadPrefixBytes with 4 in Hl. lia.
Qed.

(** A writer that takes at most seven bytes at a time. *)
#[export] Program Instance seven_writer : Writer bytes := {|
  taken w := w;
  Write w p := (w ++ take 7 p, Z.min 7 (blen p), None)
|}.
Next Obligation.
  intros w p w' n e [= <- <- <-]. f_equal. unfold blen.
  destruct (decide (length p ≤ 7)%nat).
  - rewrite !take_ge; [done|lia..].
  - f_equal. lia.
Qed.

Definition sample_frame : IPCFrame := {|
  Type_ := IPCFrameHeartbeat; Flags := 0; RequestID := 513; Metadata := text "[1,-2]"; Body := text "payload" |}.

Lemma ipc_frame_exact_witness :
  ReadIPCFrame {| contents := frame_bytes sample_frame ++ text "next"; ending := EOF |} =
    Ok (sample_frame, {| contents := text "next"; ending := EOF |}) ∧
  blen (frame_bytes sample_frame) ≤ IPCFrameMax.
Proof.
  destruct (ipc_frame_exact {| contents := frame_bytes sample_frame ++ text "next"; ending := EOF |} sample_frame
    {| contents := text "next"; ending := EOF |}) as [H1 H2].
  split; [vm_compute; reflexivity|]. apply H2. vm_compute. reflexivity.
Defined.

(** C37: A write that fails leaves nothing or a prefix of the frame on the
    stream, with an error of the writer; no proper prefix of a frame is read as
    a frame, so that the receiver of an aborted write gets an error. When the
    stream ends right after the header that error is [io.EOF], as if no frame
    had begun. *)
Theorem ipc_aborted_write {W : Type} `{!Writer W} (w w' : W) f e :
  frame_wf f → WriteIPCFrame w f = (w', Some e) →
  (validateIPCFrame f = Err e ∧ w' = w ∨
   validateIPCFrame f = Ok tt ∧ (∃ io, e = IPCIO io) ∧
   ∃ p q, frame_bytes f = p ++ q ∧ taken w' = taken w ++ p) ∧
  (validateIPCFrame f = Ok tt →
   (∀ p q ending, frame_bytes f = p ++ q → q ≠ [] → ∃ err, ReadIPCFrame {| contents := p; ending := ending |} = Err err) ∧
   ReadIPCFrame {| contents := frame_header f; ending := EOF |} = Err (IPCIO EOF)).
Proof.
  intros Hwf Hw. split.
  - apply WriteIPCFrame_spec in Hw as [?|(Hv & Hio & p & [q Hq] & Hp)]; [by left|]. right. split_and!; [done..|].
    exists p, q. by split.
  - intros Hv. split; [intros p q en Hpq Hq; by eapply truncated_frame|].
    apply header_then_end; [done|by apply Hwf].
Qed.

(** A writer that breaks when its room is used up. *)
#[local] Program Instance broken_writer : Writer (bytes * nat) := {|
  taken w := fst w;
  Write w p := ((fst w ++ take (snd w) p, snd w - length (take (snd w) p))%nat, Z.of_nat (length (take (snd w) p)),
                if (length p <=? snd w)%nat then None else Some (OtherIO 1))
|}.
Next Obligation. intros [w k] p w' n e [= <- <- <-]. cbn. f_equal. rewrite Nat2Z.id, length_take.
  destruct (decide (k ≤ length p)%nat); [by rewrite Nat.min_l|]. rewrite Nat.min_r, !take_ge; [done|lia..].
Qed.

Lemma ipc_aborted_write_witness :
  ∃ w', WriteIPCFrame (W := bytes * nat) ([], 25%nat) sample_frame = (w', Some (IPCIO (OtherIO 1))) ∧
  ReadIPCFrame {| contents := frame_header sample_frame; ending := EOF |} = Err (IPCIO EOF).
Proof.
  eexists. split; [vm_compute; reflexivity|].
  refine (proj2 (proj2 (ipc_aborted_write (W := bytes * nat) ([], 25%nat) _ sample_frame (IPCIO (OtherIO 1)) _ _) _)).
  - repeat split; vm_compute; (reflexivity || discriminate).
  - vm_compute. reflexivity.
  - vm_compute. reflexivity.
Defined.
