(* ===== verification/SemanticIpc.v ===== *)
(** * Semantic messages over frames ([internal/runtimeclient/semantic_ipc.go])

    A message is a JSON line. It is cut into chunks of at most 64 KiB, one per
    frame, and put together again by the reader, which compares the type and
    the request of the frames with those the message names. *)

From Stdlib Require Import ZifyNat.
From S2P Require Import Prelude GoLib Encoding Json JsonProps JsonText Ipc.

Open Scope go_scope.
Open Scope Z_scope.

Definition semanticIPCChunkedFlag : Z := Z.shiftl 1 15.
Definition semanticIPCMoreFlag : Z := Z.shiftl 1 14.

(** [Flags & mask != 0] on 16 bits. *)
Definition flag (flags mask : Z) : bool := negb (Z.land flags mask =? 0).

(** ** Strict decoding into structs ([decodeStrictJSON]) *)

Inductive FieldKind := FieldString | FieldUint32 | FieldRaw.

(** [validateJSONKeys]: one value, no field name twice, no limit. *)
Definition validateJSONKeys : Walker unit := {|
  enter _ nodes := Ok nodes;
  scalar_ok _ := Ok tt;
  bad_value := tt; bad_delimiter := tt; bad_key := tt; key_not_text := tt; duplicate_key := tt;
  open_object := tt; open_array := tt; out_of_fuel := tt
|}.

(** A value [Decode] stores in a field of the kind; null leaves the zero value. *)
Definition field_value_ok (kind : FieldKind) (v : JSON) : bool :=
  match kind, v with
  | FieldRaw, _ => true
  | _, JNull => true
  | FieldString, JText _ => true
  | FieldUint32, JNumber s =>
     match decimal (text s) with
     | Some n => n <? 2 ^ 32
     | None => false
     end
  | _, _ => false
  end.

Definition field_kind (fields : list (string * FieldKind)) (name : string) : option FieldKind :=
  x ← list_find (λ kv, kv.1 = name) fields; Some (x.2.2).

(** The fields a text sets. A name that is no field of the struct is refused:
    by [validateStructKeyBindings] when it differs in case only, and otherwise
    by [DisallowUnknownFields]. A null sets nothing. *)
Definition decodeStrictJSON (fields : list (string * FieldKind)) (raw : bytes) : option (list (string * JSON)) :=
  if is_ok (walk_document validateJSONKeys tt raw) then
    '(v, rest) ← Decode raw;
    if bool_decide (skip rest = []) then
      match v with
      | JNull => Some []
      | JObject l =>
         if forallb (λ kv, match field_kind fields kv.1 with
                           | Some kind => field_value_ok kind kv.2
                           | None => false
                           end) l
         then Some l else None
      | _ => None
      end
    else None
  else None.

Definition lookup_field (name : string) (l : list (string * JSON)) : option JSON :=
  x ← list_find (λ kv, kv.1 = name) l; Some (x.2.2).

Definition string_field (name : string) (l : list (string * JSON)) : string :=
  match lookup_field name l with
  | Some (JText s) => s
  | _ => ""
  end.

Definition uint_field (name : string) (l : list (string * JSON)) : Z :=
  match lookup_field name l with
  | Some (JNumber s) => default 0 (decimal (text s))
  | _ => 0
  end.

(** ** Chunks *)

Record semanticIPCChunkEnvelope := { Encoding_ : string; Index : Z }.

Definition envelope_text (e : semanticIPCChunkEnvelope) : bytes :=
  json_value (JStruct [("encoding", JString (Encoding_ e)); ("index", JInt (Index e))])%string.

Definition decode_envelope (raw : bytes) : option semanticIPCChunkEnvelope :=
  l ← decodeStrictJSON [("encoding", FieldString); ("index", FieldUint32)]%string raw;
  Some {| Encoding_ := string_field "encoding" l; Index := uint_field "index" l |}.

(** The frame of one chunk; [more] says that others follow. *)
Definition chunk_frame (frameType requestID index : Z) (more : bool) (chunk : bytes) : IPCFrame := {|
  Type_ := frameType;
  Flags := if more then Z.lor semanticIPCChunkedFlag semanticIPCMoreFlag else semanticIPCChunkedFlag;
  RequestID := requestID;
  Metadata := envelope_text {| Encoding_ := "semantic_json"; Index := index |};
  Body := chunk
|}.

Section semantic.
Context (sha256 : string → string).

Section writer.
Context {W : Type} `{!Writer W}.

(** The loop of [writeSemanticIPCFrame] on [semantic[offset:]]; the fuel is the
    number of bytes, of which every round takes one at least. *)
Fixpoint write_chunks (fuel : nat) (writer : W) (frameType requestID index : Z) (rest : bytes) : W * option IPCError :=
  match fuel, rest with
  | _, [] => (writer, None)
  | O, _ => (writer, None)
  | S fuel, _ =>
     let chunk := take (Z.to_nat IPCBodyMax) rest in
     let rest := drop (Z.to_nat IPCBodyMax) rest in
     match WriteIPCFrame writer (chunk_frame frameType requestID index (0 <? blen rest) chunk) with
     | (writer, Some err) => (writer, Some err)
     | (writer, None) => write_chunks fuel writer frameType requestID (u32 (index + 1)) rest
     end
  end.

Definition writeSemanticIPCFrame (writer : W) (frameType requestID : Z) (semantic : bytes) : W * option IPCError :=
  if (blen semantic =? 0) || (IPCInvokeMetadataMax <? blen semantic) then (writer, Some ErrIPCFrameTooLarge)
  else write_chunks (length semantic) writer frameType requestID 0 semantic.
End writer.

(** One round of [readSemanticIPCBytes]: the bytes so far with this chunk. *)
Definition take_chunk (index : Z) (result : bytes) (frame : IPCFrame) : Result IPCError bytes :=
  guard! negb (flag (Flags frame) (Z.ldiff (Z.ones 16) (Z.lor semanticIPCChunkedFlag semanticIPCMoreFlag)))
         && negb (blen (Body frame) =? 0) else ErrIPCProtocolViolation in
  match decode_envelope (Metadata frame) with
  | None => Err ErrIPCProtocolViolation
  | Some envelope =>
     guard! bool_decide (Encoding_ envelope = "semantic_json"%string) && (Index envelope =? index)
       else ErrIPCProtocolViolation in
     guard! negb (IPCInvokeMetadataMax - blen (Body frame) <? blen result) else ErrIPCFrameTooLarge in
     Ok (result ++ Body frame)
  end.

(** The loop; the fuel is the number of unread bytes, of which every further
    frame takes one at least. *)
Fixpoint read_chunks (fuel : nat) (reader : Stream) (first frame : IPCFrame) (index : Z) (result : bytes) :
    Result IPCError (bytes * Stream) :=
  let? result := take_chunk index result frame in
  if flag (Flags frame) semanticIPCMoreFlag then
    match fuel with
    | O => Err (IPCIO (ending reader))
    | S fuel =>
       let? next := ReadIPCFrame reader in
       guard! (Type_ (fst next) =? Type_ first) && (RequestID (fst next) =? RequestID first) &&
              flag (Flags (fst next)) semanticIPCChunkedFlag else ErrIPCProtocolViolation in
       read_chunks fuel (snd next) first (fst next) (u32 (index + 1)) result
    end
  else Ok (result, reader).

Definition readSemanticIPCBytes (reader : Stream) (first : IPCFrame) : Result IPCError (bytes * Stream) :=
  guard! flag (Flags first) semanticIPCChunkedFlag else ErrIPCProtocolViolation in
  read_chunks (length (contents reader)) reader first first 0 [].

(** ** Messages *)

(** [ipcFrame]; the payload is kept as a value. *)
Record ipcFrame := {
  FrameType : string;
  FrameRequestID : string;
  ParentRequestID : string;
  RuntimeGenerationID : string;
  Payload : option JSON
}.

Definition decode_ipcFrame (raw : bytes) : option ipcFrame :=
  l ← decodeStrictJSON [("frame_type", FieldString); ("request_id", FieldString); ("parent_request_id", FieldString);
                        ("runtime_generation_id", FieldString); ("payload", FieldRaw)]%string raw;
  Some {| FrameType := string_field "frame_type" l; FrameRequestID := string_field "request_id" l;
          ParentRequestID := string_field "parent_request_id" l;
          RuntimeGenerationID := string_field "runtime_generation_id" l; Payload := lookup_field "payload" l |}.

Definition semanticIPCRequestID (requestID : string) : Z :=
  let value := unbe (take 8 (text (sha256 requestID))) in
  if value =? 0 then 1 else value.

Definition hostSemanticFrameType (frameType : string) : Result IPCError Z :=
  if bool_decide (frameType = "hello"%string) then Ok IPCFrameHello
  else if bool_decide (frameType = "heartbeat"%string) then Ok IPCFrameHeartbeat
  else if bool_decide (frameType = "invoke_worker"%string) then Ok IPCFrameInvoke
  else if bool_decide (frameType = "cancel_invoke"%string) then Ok IPCFrameCancelInvoke
  else if bool_decide (frameType = "revoke_epoch"%string) then Ok IPCFrameRevokePlugin
  else if bool_decide (frameType = "session_revoke"%string) then Ok IPCFrameRevokeSession
  else if bool_decide (frameType = "open_handle"%string) then Ok IPCFrameHostcallResult
  else Err ErrIPCProtocolViolation.

Definition runtimeSemanticFrameType (frameType : string) : Result IPCError Z :=
  if bool_decide (frameType = "hello_ack"%string) then Ok IPCFrameHelloAck
  else if bool_decide (frameType = "heartbeat"%string) then Ok IPCFrameHeartbeat
  else if bool_decide (frameType = "invoke_worker_result"%string) then Ok IPCFrameInvokeResult
  else if bool_decide (frameType = "cancel_invoke_ack"%string) then Ok IPCFrameCancelAck
  else if bool_decide (frameType = "revoke_epoch_ack"%string) then Ok IPCFrameRevokePlugin
  else if bool_decide (frameType = "session_revoke_ack"%string) then Ok IPCFrameRevokeSession
  else if bool_decide (frameType = "compile_flight_register"%string ∨ frameType = "compile_flight_complete"%string ∨
                       frameType = "open_handle"%string) then Ok IPCFrameHostcall
  else Err ErrIPCProtocolViolation.

Definition readDirectionalSemanticIPCFrameDecoded (mapType : string → Result IPCError Z) (reader : Stream) (framed : IPCFrame) :
    Result IPCError (ipcFrame * Stream) :=
  let? br := readSemanticIPCBytes reader framed in
  match decode_ipcFrame (fst br) with
  | None => Err ErrIPCFrameInvalid
  | Some semantic =>
     let? wantType := mapType (FrameType semantic) in
     guard! (Type_ framed =? wantType) && (RequestID framed =? semanticIPCRequestID (FrameRequestID semantic))
       else ErrIPCProtocolViolation in
     Ok (semantic, snd br)
  end.

Definition readDirectionalSemanticIPCFrame (mapType : string → Result IPCError Z) (reader : Stream) :
    Result IPCError (ipcFrame * Stream) :=
  let? fr := ReadIPCFrame reader in
  readDirectionalSemanticIPCFrameDecoded mapType (snd fr) (fst fr).

Definition readSemanticIPCFrame : Stream → Result IPCError (ipcFrame * Stream) :=
  readDirectionalSemanticIPCFrame runtimeSemanticFrameType.

Definition readHostSemanticIPCFrame : Stream → Result IPCError (ipcFrame * Stream) :=
  readDirectionalSemanticIPCFrame hostSemanticFrameType.

(** ** The writer of lines *)

Section line_writer.
Context {W : Type} `{!Writer W} (mapType : string → Result IPCError Z).

(** [semanticIPCWriteCloser]. *)
Record LineWriter := { closer : W; pending : bytes }.

(** The bytes before the first newline and those after it. *)
Fixpoint cut_line (s : bytes) : option (bytes * bytes) :=
  match s with
  | [] => None
  | c :: s => if is_byte 10 c then Some ([], s) else '(l, r) ← cut_line s; Some (c :: l, r)
  end.

Definition trim_space (s : bytes) : bytes := trim_right (trim_left s).

(** The message of one line. *)
Definition write_line (writer : W) (line : bytes) : W * option IPCError :=
  match decode_ipcFrame line with
  | None => (writer, Some ErrIPCFrameInvalid)
  | Some semantic =>
     match mapType (FrameType semantic) with
     | Err err => (writer, Some err)
     | Ok frameType => writeSemanticIPCFrame writer frameType (semanticIPCRequestID (FrameRequestID semantic)) line
     end
  end.

(** The loop of [Write]; the fuel is the number of pending bytes. *)
Fixpoint drain (fuel : nat) (lw : LineWriter) : LineWriter * option IPCError :=
  match cut_line (pending lw), fuel with
  | None, _ | _, O => (lw, if IPCFrameMax <? blen (pending lw) then Some ErrIPCFrameTooLarge else None)
  | Some (raw, rest), S fuel =>
     let line := trim_space raw in
     if blen line =? 0 then drain fuel {| closer := closer lw; pending := rest |}
     else
       match write_line (closer lw) line with
       | (writer, Some err) => ({| closer := writer; pending := rest |}, Some err)
       | (writer, None) => drain fuel {| closer := writer; pending := rest |}
       end
  end.

(** [Write]: the number of bytes of the payload, or an error. *)
Definition WriteLines (lw : LineWriter) (payload : bytes) : LineWriter * Result IPCError Z :=
  let pend := pending lw ++ payload in
  match drain (length pend) {| closer := closer lw; pending := pend |} with
  | (lw, None) => (lw, Ok (blen payload))
  | (lw, Some err) => (lw, Err err)
  end.

(** [WriteFrame]. *)
Definition WriteFrame (lw : LineWriter) (frame : IPCFrame) : LineWriter * option IPCError :=
  let '(writer, err) := WriteIPCFrame (closer lw) frame in ({| closer := writer; pending := pending lw |}, err).

(** [Close]: whether a message was cut short; nothing stays pending. *)
Definition CloseLines (lw : LineWriter) : LineWriter * option IPCError :=
  ({| closer := closer lw; pending := [] |},
   if blen (trim_space (pending lw)) =? 0 then None else Some ErrIPCFrameInvalid).
End line_writer.
End semantic.
