(* ===== verification/SemanticIpcProps.v ===== *)
(** * Theorems on the semantic messages

    Cutting a message into frames and putting it together again gives the
    message, for any writer that may take fewer bytes than it is given, for any
    way the lines are split over the calls of [Write], and for any bytes that
    follow on the stream. *)

From Stdlib Require Import ZifyNat.
From S2P Require Import Prelude GoLib Encoding Json JsonProps JsonText Ipc IpcProps SemanticIpc.

Open Scope go_scope.
Open Scope Z_scope.

(** ** One chunk *)

Definition chunk_envelope (i : Z) : semanticIPCChunkEnvelope := {| Encoding_ := "semantic_json"; Index := i |}.

(** A message has at most 16 chunks; the envelopes of all of them are checked
    by computation. *)
Lemma envelope_index i : 0 ≤ i < 16 → i ∈ (Z.of_nat <$> seq 0 16).
Proof. intros Hi. rewrite <- (Z2Nat.id i) by lia. apply list_elem_of_fmap_2, elem_of_seq. lia. Qed.

Lemma envelope_ok i :
  0 ≤ i < 16 →
  decode_envelope (envelope_text (chunk_envelope i)) = Some (chunk_envelope i) ∧
  ValidUTF8 (envelope_text (chunk_envelope i)) = true ∧
  validateIPCMetadata (envelope_text (chunk_envelope i)) = Ok tt ∧
  blen (envelope_text (chunk_envelope i)) ≤ 64.
Proof.
  intros Hi%envelope_index. revert i Hi. apply Forall_forall.
  repeat constructor; vm_compute; (reflexivity || discriminate).
Qed.

Lemma chunk_frame_valid t id i more chunk :
  validIPCFrameType t = true → id ≠ 0 → 0 ≤ i < 16 → blen chunk ≤ IPCBodyMax →
  validateIPCFrame (chunk_frame t id i more chunk) = Ok tt.
Proof.
  intros Ht Hid Hi Hb. destruct (envelope_ok i Hi) as (_ & Hu & Hv & Hl). unfold validateIPCFrame. cbn [Type_ RequestID Metadata Body chunk_frame].
  rewrite Ht, (proj2 (Z.eqb_neq _ _) Hid). cbn [negb]. pose proof (limit_range t) as [Hlim _].
  change (envelope_text {| Encoding_ := "semantic_json"; Index := i |}) with (envelope_text (chunk_envelope i)).
  change IPCControlMetadataMax with 65536 in Hlim.
  rewrite (proj2 (Z.leb_le (blen (envelope_text _)) _)) by lia. rewrite (proj2 (Z.leb_le (blen chunk) _)) by lia. cbn [andb].
  rewrite Hu, Hv. by destruct (0 <? _).
Qed.

Lemma chunk_frame_wf t id i more chunk :
  validIPCFrameType t = true → 0 ≤ id < 2 ^ 64 → frame_wf (chunk_frame t id i more chunk).
Proof.
  intros Ht Hid. unfold validIPCFrameType in Ht. go_bools. unfold IPCFrameHello, IPCFrameDiagnostic in *.
  split_and!; cbn [Type_ RequestID Flags chunk_frame]; try lia; destruct more; vm_compute; congruence.
Qed.

Lemma take_chunk_ok t id i more chunk result :
  0 ≤ i < 16 → 0 < blen chunk → blen result + blen chunk ≤ IPCInvokeMetadataMax →
  take_chunk i result (chunk_frame t id i more chunk) = Ok (result ++ chunk).
Proof.
  intros Hi Hc Hl. destruct (envelope_ok i Hi) as (Hd & _). unfold take_chunk. cbn [Flags Body Metadata chunk_frame].
  assert (flag (if more then Z.lor semanticIPCChunkedFlag semanticIPCMoreFlag else semanticIPCChunkedFlag)
    (Z.ldiff (Z.ones 16) (Z.lor semanticIPCChunkedFlag semanticIPCMoreFlag)) = false) as -> by (by destruct more).
  rewrite (proj2 (Z.eqb_neq (blen chunk) 0)) by lia. cbn [negb andb].
  change (envelope_text {| Encoding_ := "semantic_json"; Index := i |}) with (envelope_text (chunk_envelope i)).
  rewrite Hd. cbn [Encoding_ Index chunk_envelope]. rewrite bool_decide_eq_true_2 by done. rewrite Z.eqb_refl. cbn [andb].
  rewrite (proj2 (Z.ltb_ge _ _)) by lia. done.
Qed.

(** ** The chunks of a message *)

(** The number of bytes in a full chunk, sealed so that it is not unfolded. *)
Definition chunk_size_aux : { n | n = Z.to_nat IPCBodyMax }.
Proof. eexists. reflexivity. Qed.

Definition chunk_size : nat := proj1_sig chunk_size_aux.

Lemma chunk_size_unseal : chunk_size = Z.to_nat IPCBodyMax.
Proof. exact (proj2_sig chunk_size_aux). Qed.

Fixpoint chunk_frames (fuel : nat) (t id index : Z) (rest : bytes) : list IPCFrame :=
  match fuel, rest with
  | _, [] => []
  | O, _ => []
  | S fuel, _ =>
     chunk_frame t id index (0 <? blen (drop chunk_size rest)) (take chunk_size rest) ::
     chunk_frames fuel t id (u32 (index + 1)) (drop chunk_size rest)
  end.

Definition frames_bytes (l : list IPCFrame) : bytes := concat (map frame_bytes l).

(** The chunks before [index] are full, and the message is not too long. *)
Definition chunk_inv (index : Z) (rest : bytes) : Prop := 0 ≤ index ∧ index * 65536 + blen rest ≤ 1048576.

Lemma chunk_index index rest : chunk_inv index rest → rest ≠ [] → 0 ≤ index < 16.
Proof. unfold chunk_inv, blen. intros [H1 H2] Hr. destruct rest; [done|]. cbn [length] in H2. lia. Qed.

Lemma chunk_size_eq : Z.of_nat chunk_size = 65536.
Proof. rewrite chunk_size_unseal, Z2Nat.id; [reflexivity|]. vm_compute. discriminate. Qed.

Lemma chunk_next index rest :
  chunk_inv index rest → drop chunk_size rest ≠ [] →
  u32 (index + 1) = index + 1 ∧ chunk_inv (index + 1) (drop chunk_size rest) ∧ blen (take chunk_size rest) = 65536.
Proof.
  intros Hinv Hd. pose proof chunk_size_eq as Hcs.
  assert (chunk_size < length rest)%nat as Hl.
  { destruct (decide (chunk_size < length rest)%nat) as [|Hn]; [done|]. destruct Hd. apply drop_ge. lia. }
  assert (rest ≠ []) as Hne by (intros ->; cbn in Hl; lia). pose proof (chunk_index _ _ Hinv Hne) as Hi.
  destruct Hinv as [H1 H2]. unfold u32, chunk_inv, blen in *. rewrite length_drop, length_take.
  rewrite Z.mod_small by lia. lia.
Qed.

Section round_trip.
Context {W : Type} `{!Writer W}.

Lemma write_chunks_spec fuel (w : W) t id index rest w' e :
  validIPCFrameType t = true → id ≠ 0 → chunk_inv index rest → (length rest ≤ fuel)%nat →
  write_chunks fuel w t id index rest = (w', e) →
  match e with
  | None => wrote w (frames_bytes (chunk_frames fuel t id index rest)) w'
  | Some e => ∃ io, e = IPCIO io
  end.
Proof.
  intros Ht Hid. revert w index rest. induction fuel as [|fuel IH]; intros w index rest Hinv Hf.
  { destruct rest; [|cbn in Hf; lia]. intros [= <- <-]. apply wrote_nil. }
  destruct rest as [|c rest']; [intros [= <- <-]; apply wrote_nil|].
  pose proof (chunk_index _ _ Hinv ltac:(done)) as Hi. remember (c :: rest') as rest eqn:Hrest.
  assert (rest ≠ []) as Hne by (by subst).
  assert (write_chunks (S fuel) w t id index rest =
    match WriteIPCFrame w (chunk_frame t id index (0 <? blen (drop chunk_size rest)) (take chunk_size rest)) with
    | (writer, Some err) => (writer, Some err)
    | (writer, None) => write_chunks fuel writer t id (u32 (index + 1)) (drop chunk_size rest)
    end) as -> by (rewrite chunk_size_unseal; subst rest; reflexivity).
  assert (chunk_frames (S fuel) t id index rest =
    chunk_frame t id index (0 <? blen (drop chunk_size rest)) (take chunk_size rest) ::
    chunk_frames fuel t id (u32 (index + 1)) (drop chunk_size rest)) as -> by (subst rest; reflexivity).
  pose proof chunk_size_eq as Hcs.
  destruct (WriteIPCFrame _ _) as [w1 [err|]] eqn:Hw; apply WriteIPCFrame_spec in Hw.
  - intros [= <- <-]. destruct Hw as [[Hv _]|(_ & Hio & _)]; [|done].
    assert (blen (take chunk_size rest) ≤ IPCBodyMax) as Hb.
    { unfold blen. rewrite length_take. change IPCBodyMax with 65536. lia. }
    rewrite (chunk_frame_valid _ _ _ _ _ Ht Hid Hi Hb) in Hv. discriminate Hv.
  - intros Hr. destruct Hw as [_ Hw]. destruct (decide (drop chunk_size rest = [])) as [Hd|Hd].
    + rewrite Hd in Hr |- *. assert (write_chunks fuel w1 t id (u32 (index + 1)) [] = (w1, None)) as Hx by (by destruct fuel).
      rewrite Hx in Hr. injection Hr as <- <-. unfold frames_bytes.
      replace (chunk_frames fuel t id (u32 (index + 1)) []) with (@nil IPCFrame) by (by destruct fuel).
      cbn [map concat]. rewrite app_nil_r. rewrite Hd in Hw. exact Hw.
    + destruct (chunk_next _ _ Hinv Hd) as (Hu & Hinv' & _). rewrite Hu in *.
      apply IH in Hr; [|exact Hinv'|rewrite length_drop; lia].
      destruct e as [e|]; [exact Hr|]. exact (wrote_app _ _ _ _ _ Hw Hr).
Qed.
End round_trip.

(** The first chunk and the others. *)
Lemma chunk_frames_cons fuel t id index rest :
  rest ≠ [] → (length rest ≤ fuel)%nat →
  ∃ fuel', (length (drop chunk_size rest) ≤ fuel')%nat ∧
    chunk_frames fuel t id index rest =
      chunk_frame t id index (0 <? blen (drop chunk_size rest)) (take chunk_size rest) ::
      chunk_frames fuel' t id (u32 (index + 1)) (drop chunk_size rest).
Proof.
  intros Hne Hf. pose proof chunk_size_eq. destruct rest as [|c rest]; [done|].
  destruct fuel as [|fuel]; [cbn [length] in Hf; lia|]. exists fuel. split; [|reflexivity].
  rewrite length_drop. lia.
Qed.

Lemma chunk_frames_nil fuel t id index : chunk_frames fuel t id index [] = [].
Proof. by destruct fuel. Qed.

Lemma chunk_length rest : rest ≠ [] → 0 < blen (take chunk_size rest) ∧ blen (take chunk_size rest) ≤ IPCBodyMax.
Proof.
  intros Hne. pose proof chunk_size_eq. unfold blen. rewrite length_take. change IPCBodyMax with 65536.
  destruct rest; [done|]. cbn [length]. lia.
Qed.

(** Reading the frames of a message. *)
Lemma read_frame_cons f fs tail e :
  validateIPCFrame f = Ok tt → frame_wf f →
  ReadIPCFrame {| contents := frames_bytes (f :: fs) ++ tail; ending := e |} =
    Ok (f, {| contents := frames_bytes fs ++ tail; ending := e |}).
Proof.
  intros Hv Hw. apply ReadIPCFrame_complete; [exact Hv|exact Hw| |reflexivity].
  unfold frames_bytes. cbn [map concat contents]. by rewrite <- app_assoc.
Qed.

Lemma frame_bytes_length f : (19 ≤ length (frame_bytes f))%nat.
Proof.
  unfold frame_bytes, frame_header. rewrite !length_app, !length_be.
  change (length ipcFrameMagic) with 4%nat. cbn [length]. lia.
Qed.

Lemma chunk_flag t id i more chunk : flag (Flags (chunk_frame t id i more chunk)) semanticIPCChunkedFlag = true.
Proof. destruct more; reflexivity. Qed.

Section reading.
Context (t id : Z) (Ht : validIPCFrameType t = true) (Hid : 0 < id < 2 ^ 64).

Lemma chunk_ok index more rest :
  chunk_inv index rest → rest ≠ [] →
  validateIPCFrame (chunk_frame t id index more (take chunk_size rest)) = Ok tt ∧
  frame_wf (chunk_frame t id index more (take chunk_size rest)).
Proof.
  intros Hinv Hne. split.
  - apply chunk_frame_valid; [exact Ht|lia|by eapply chunk_index|by apply chunk_length].
  - apply chunk_frame_wf; [exact Ht|lia].
Qed.

Lemma read_chunks_ok fuel first index rest result tail e k :
  Type_ first = t → RequestID first = id →
  chunk_inv index rest → rest ≠ [] → blen result = index * 65536 → (length (drop chunk_size rest) ≤ k)%nat →
  let more := frames_bytes (chunk_frames k t id (u32 (index + 1)) (drop chunk_size rest)) ++ tail in
  (length more ≤ fuel)%nat →
  read_chunks fuel {| contents := more; ending := e |} first
    (chunk_frame t id index (0 <? blen (drop chunk_size rest)) (take chunk_size rest)) index result =
  Ok (result ++ rest, {| contents := tail; ending := e |}).
Proof.
  intros Hft Hfi. revert index rest result k. induction fuel as [fuel IH] using lt_wf_ind.
  intros index rest result k Hinv Hne Hres Hk more Hfuel.
  pose proof (chunk_index _ _ Hinv Hne) as Hi. destruct (chunk_length rest Hne) as [Hc1 Hc2].
  assert (take_chunk index result (chunk_frame t id index (0 <? blen (drop chunk_size rest)) (take chunk_size rest)) =
    Ok (result ++ take chunk_size rest)) as Htake.
  { apply take_chunk_ok; [exact Hi|exact Hc1|]. destruct Hinv as [_ Hinv]. unfold blen in *. rewrite length_take in *.
    change IPCInvokeMetadataMax with 1048576. lia. }
  destruct (decide (drop chunk_size rest = [])) as [Hd|Hd].
  - assert (read_chunks fuel {| contents := more; ending := e |} first
      (chunk_frame t id index (0 <? blen (drop chunk_size rest)) (take chunk_size rest)) index result =
      Ok (result ++ take chunk_size rest, {| contents := more; ending := e |})) as ->.
    { destruct fuel; cbn [read_chunks]; rewrite Htake, Hd; reflexivity. }
    unfold more. rewrite Hd, chunk_frames_nil. rewrite <- (take_drop chunk_size rest) at 2. rewrite Hd, app_nil_r. reflexivity.
  - destruct (chunk_next _ _ Hinv Hd) as (Hu & Hinv' & Hlen).
    destruct (chunk_frames_cons k t id (index + 1) _ Hd Hk) as (k' & Hk' & Hfr).
    destruct (chunk_ok (index + 1) (0 <? blen (drop chunk_size (drop chunk_size rest))) _ Hinv' Hd) as [Hv Hw].
    set (next := chunk_frame t id (index + 1) _ _) in *.
    assert (more = frames_bytes (next :: chunk_frames k' t id (u32 (index + 1 + 1)) (drop chunk_size (drop chunk_size rest))) ++ tail) as Hm.
    { unfold more. rewrite Hu, Hfr. reflexivity. }
    assert (0 <? blen (drop chunk_size rest) = true) as Hpos.
    { apply Z.ltb_lt. unfold blen. destruct (drop chunk_size rest); [done|]. cbn [length]. lia. }
    destruct fuel as [|fuel].
    { exfalso. rewrite Hm in Hfuel. unfold frames_bytes in Hfuel. cbn [map concat] in Hfuel.
      rewrite !length_app in Hfuel. pose proof (frame_bytes_length next). lia. }
    cbn [read_chunks]. rewrite Htake. cbn [rbind]. cbn [Flags chunk_frame]. rewrite Hpos.
    change (flag (Z.lor semanticIPCChunkedFlag semanticIPCMoreFlag) semanticIPCMoreFlag) with true. cbn match.
    rewrite Hm, (read_frame_cons next _ _ _ Hv Hw). cbn [rbind fst snd].
    assert (Type_ next = t ∧ RequestID next = id ∧ flag (Flags next) semanticIPCChunkedFlag = true) as (H1 & H2 & H3).
    { split_and!; [reflexivity..|]. unfold next. apply chunk_flag. }
    rewrite H1, H2, H3, Hft, Hfi, !Z.eqb_refl. cbn [andb]. rewrite Hu.
    replace (result ++ rest) with ((result ++ take chunk_size rest) ++ drop chunk_size rest)
      by (rewrite <- app_assoc, take_drop; reflexivity).
    apply (IH fuel); [lia|exact Hinv'|exact Hd| |exact Hk'|].
    + unfold blen in *. rewrite length_app. lia.
    + rewrite Hm in Hfuel. unfold frames_bytes in *. cbn [map concat] in Hfuel. rewrite <- app_assoc, length_app in Hfuel.
      pose proof (frame_bytes_length next). lia.
Qed.

(** The frames of a message, read to its end. *)
Lemma read_message semantic tail e :
  semantic ≠ [] → blen semantic ≤ IPCInvokeMetadataMax →
  ∃ first s1,
    ReadIPCFrame {| contents := frames_bytes (chunk_frames (length semantic) t id 0 semantic) ++ tail; ending := e |} =
      Ok (first, s1) ∧ Type_ first = t ∧ RequestID first = id ∧
    readSemanticIPCBytes s1 first = Ok (semantic, {| contents := tail; ending := e |}).
Proof.
  intros Hne Hl. change IPCInvokeMetadataMax with 1048576 in Hl.
  assert (chunk_inv 0 semantic) as Hinv by (unfold chunk_inv; lia).
  destruct (chunk_frames_cons (length semantic) t id 0 semantic Hne (le_n _)) as (k & Hk & ->).
  destruct (chunk_ok 0 (0 <? blen (drop chunk_size semantic)) semantic Hinv Hne) as [Hv Hw].
  eexists _, _. split; [apply (read_frame_cons _ _ _ _ Hv Hw)|]. split_and!; [reflexivity..|].
  unfold readSemanticIPCBytes.
  assert (flag (Flags (chunk_frame t id 0 (0 <? blen (drop chunk_size semantic)) (take chunk_size semantic)))
    semanticIPCChunkedFlag = true) as -> by apply chunk_flag.
  apply (read_chunks_ok _ _ 0 semantic []); try reflexivity; assumption.
Qed.
End reading.

(** * Messages from one process to the other

    The lines a process writes, in any pieces, arrive as the messages they
    encode, in their order. *)

Section messages.
Context (sha256 : string → string) (mapType : string → Result IPCError Z).
Hypothesis mapType_valid : ∀ s t, mapType s = Ok t → validIPCFrameType t = true.

Lemma request_id_range s : 0 < semanticIPCRequestID sha256 s < 2 ^ 64.
Proof.
  unfold semanticIPCRequestID. pose proof (unbe_range (take 8 (text (sha256 s)))) as Hr.
  assert (256 ^ blen (take 8 (text (sha256 s))) ≤ 2 ^ 64) as Hle.
  { change (2 ^ 64) with (256 ^ 8). apply Z.pow_le_mono_r; [lia|]. unfold blen. rewrite length_take. lia. }
  destruct (_ =? 0) eqn:H0; [lia|]. apply Z.eqb_neq in H0. lia.
Qed.

(** The bytes that carry a line. *)
Definition line_frames (line : bytes) (m : ipcFrame) (t : Z) : bytes :=
  frames_bytes (chunk_frames (length line) t (semanticIPCRequestID sha256 (FrameRequestID m)) 0 line).

(** A line that [json.Encoder] writes for a message. *)
Definition encodes (line : bytes) (m : ipcFrame) : Prop :=
  Forall (λ c, is_byte 10 c = false) line ∧ trim_space line = line ∧ decode_ipcFrame line = Some m.

Lemma decode_nonempty line m : decode_ipcFrame line = Some m → line ≠ [].
Proof. by intros H ->. Qed.

(** A message is read back from the frames that carry it. *)
Lemma read_line line m t tail e :
  decode_ipcFrame line = Some m → mapType (FrameType m) = Ok t → blen line ≤ IPCInvokeMetadataMax →
  readDirectionalSemanticIPCFrame sha256 mapType {| contents := line_frames line m t ++ tail; ending := e |} =
    Ok (m, {| contents := tail; ending := e |}).
Proof.
  intros Hd Hm Hl. pose proof (request_id_range (FrameRequestID m)) as Hid.
  destruct (read_message t _ (mapType_valid _ _ Hm) Hid line tail e (decode_nonempty _ _ Hd) Hl)
    as (first & s1 & H1 & H2 & H3 & H4).
  unfold readDirectionalSemanticIPCFrame, line_frames. rewrite H1. cbn [rbind fst snd].
  unfold readDirectionalSemanticIPCFrameDecoded. rewrite H4. cbn [rbind fst snd]. rewrite Hd, Hm. cbn [rbind].
  rewrite H2, H3, !Z.eqb_refl. reflexivity.
Qed.

Section writer.
Context {W : Type} `{!Writer W}.

Lemma write_line_spec (w w' : W) line m e :
  decode_ipcFrame line = Some m → write_line sha256 mapType w line = (w', e) → e = None →
  ∃ t, mapType (FrameType m) = Ok t ∧ blen line ≤ IPCInvokeMetadataMax ∧ wrote w (line_frames line m t) w'.
Proof.
  intros Hd Hw ->. unfold write_line in Hw. rewrite Hd in Hw. destruct (mapType (FrameType m)) as [t|] eqn:Hm; [|done].
  exists t. split; [done|]. unfold writeSemanticIPCFrame in Hw. destruct (_ || _) eqn:Hb; [done|].
  apply orb_false_iff in Hb as [_ Hb]. apply Z.ltb_ge in Hb. split; [done|].
  pose proof (request_id_range (FrameRequestID m)) as Hid. apply write_chunks_spec in Hw; [exact Hw|by eapply mapType_valid|lia| |lia].
  split; [lia|]. change IPCInvokeMetadataMax with 1048576 in Hb. lia.
Qed.

(** ** Lines *)

Lemma cut_line_app s l r q : cut_line s = Some (l, r) → cut_line (s ++ q) = Some (l, r ++ q).
Proof.
  revert l r. induction s as [|c s IH]; intros l r; cbn; [done|]. destruct (is_byte 10 c); [by intros [= <- <-]|].
  destruct (cut_line s) as [[l' r']|]; [|done]. intros [= <- <-]. by rewrite (IH l' r').
Qed.

Lemma cut_line_length s l r : cut_line s = Some (l, r) → (length r < length s)%nat.
Proof.
  revert l r. induction s as [|c s IH]; intros l r; cbn; [done|]. destruct (is_byte 10 c); [intros [= <- <-]; lia|].
  destruct (cut_line s) as [[l' r']|]; [|done]. intros [= <- <-]. specialize (IH l' r' eq_refl). lia.
Qed.

Definition newline : bytes := [byte 10].

Lemma cut_line_newline l q : Forall (λ c, is_byte 10 c = false) l → cut_line (l ++ newline ++ q) = Some (l, q).
Proof. induction 1 as [|c l Hc _ IH]; [done|]. cbn [app cut_line]. rewrite Hc, IH. done. Qed.

Notation lines_at w p := {| closer := w; pending := p |}.

(** More fuel than pending bytes changes nothing. *)
Lemma drain_fuel f g (lw : LineWriter (W := W)) :
  (length (pending lw) ≤ f)%nat → (length (pending lw) ≤ g)%nat →
  drain sha256 mapType f lw = drain sha256 mapType g lw.
Proof.
  revert g lw. induction f as [|f IH]; intros g lw Hf Hg.
  - destruct lw as [w [|c p]]; [|cbn in Hf; lia]. by destruct g.
  - destruct lw as [w p]. cbn [pending] in *. destruct (cut_line p) as [[l r]|] eqn:Hc.
    2: { destruct g; cbn [drain pending]; by rewrite Hc. }
    pose proof (cut_line_length _ _ _ Hc). destruct g as [|g]; [lia|]. cbn [drain pending]. rewrite Hc.
    destruct (_ =? 0); [apply IH; cbn; lia|].
    destruct (write_line _ _ _ _) as [w1 [err|]]; [done|]. apply IH; cbn; lia.
Qed.

(** Bytes that come later are handled as if they had been there. *)
Lemma drain_app f g h (w : W) p q lw1 :
  drain sha256 mapType f (lines_at w p) = (lw1, None) →
  (length p ≤ f)%nat → (length (pending lw1 ++ q) ≤ g)%nat → (length (p ++ q) ≤ h)%nat →
  drain sha256 mapType h (lines_at w (p ++ q)) = drain sha256 mapType g (lines_at (closer lw1) (pending lw1 ++ q)).
Proof.
  revert g h w p lw1. induction f as [|f IH]; intros g h w p lw1 Hd Hf Hg Hh.
  - destruct p; [|cbn in Hf; lia]. cbn in Hd. injection Hd as <-. cbn [closer pending] in *. by apply drain_fuel.
  - destruct (cut_line p) as [[l r]|] eqn:Hc.
    2: { cbn [drain pending] in Hd. rewrite Hc in Hd. injection Hd as <- _. cbn [closer pending] in *. by apply drain_fuel. }
    pose proof (cut_line_length _ _ _ Hc) as Hlen. cbn [drain pending] in Hd. rewrite Hc in Hd.
    rewrite length_app in Hh. destruct h as [|h]; [lia|]. cbn [drain pending]. rewrite (cut_line_app _ _ _ q Hc).
    cbn [closer] in *. destruct (_ =? 0).
    + apply (IH g h _ _ _ Hd); [lia|done|rewrite length_app; lia].
    + destruct (write_line _ _ _ _) as [w1 [err|]]; [done|].
      apply (IH g h _ _ _ Hd); [lia|done|rewrite length_app; lia].
Qed.

(** [Write] on each of the payloads; [None] when one of the calls fails. *)
Fixpoint write_payloads (lw : LineWriter (W := W)) (payloads : list bytes) : option LineWriter :=
  match payloads with
  | [] => Some lw
  | p :: payloads =>
     match WriteLines sha256 mapType lw p with
     | (lw, Ok _) => write_payloads lw payloads
     | _ => None
     end
  end.

(** Splitting the bytes over calls makes no difference. *)
Lemma write_payloads_concat payloads lw lw' :
  write_payloads lw payloads = Some lw' → payloads ≠ [] →
  let p := pending lw ++ concat payloads in
  drain sha256 mapType (length p) (lines_at (closer lw) p) = (lw', None).
Proof.
  revert lw. induction payloads as [|p payloads IH]; intros lw Hw Hne; [done|]. cbn [write_payloads] in Hw.
  unfold WriteLines in Hw. destruct (drain _ _ _ _) as [lw1 [err|]] eqn:Hd; [done|].
  cbn [concat]. destruct (decide (payloads = [])) as [-> |Hp].
  - cbn [write_payloads] in Hw. injection Hw as <-. cbn [concat]. by rewrite app_nil_r.
  - specialize (IH lw1 Hw Hp). cbn zeta in *. rewrite app_assoc.
    rewrite (drain_app _ (length (pending lw1 ++ concat payloads)) _ _ _ _ _ Hd); [exact IH|lia..].
Qed.

(** The bytes that carry lines, one message each. *)
Inductive carried : list bytes → list ipcFrame → bytes → Prop :=
| carried_nil : carried [] [] []
| carried_cons line lines m ms t bs :
   decode_ipcFrame line = Some m → mapType (FrameType m) = Ok t → blen line ≤ IPCInvokeMetadataMax →
   carried lines ms bs → carried (line :: lines) (m :: ms) (line_frames line m t ++ bs).

Lemma drain_lines lines ms (w : W) f lw' :
  Forall2 encodes lines ms →
  let p := concat (map (λ l, l ++ newline) lines) in
  (length p ≤ f)%nat → drain sha256 mapType f (lines_at w p) = (lw', None) →
  ∃ bs, carried lines ms bs ∧ wrote w bs (closer lw') ∧ pending lw' = [].
Proof.
  intros Hl. revert w f. induction Hl as [|line m lines ms (Hn & Htr & Hd) Hl IH]; intros w f p Hf Hdr.
  - exists []. destruct f; cbn in Hdr; injection Hdr as <-; (split_and!; [constructor|apply wrote_nil|done]).
  - unfold p in *. cbn [map concat] in *. rewrite <- app_assoc in *.
    set (rest := concat (map (λ l, l ++ newline) lines)) in *.
    destruct f as [|f]; [rewrite !length_app in Hf; cbn in Hf; lia|]. cbn [drain pending] in Hdr.
    rewrite (cut_line_newline line rest Hn), Htr in Hdr.
    pose proof (decode_nonempty _ _ Hd) as Hne.
    rewrite (proj2 (Z.eqb_neq (blen line) 0)) in Hdr by (unfold blen; destruct line; [done|cbn; lia]).
    cbn [closer] in Hdr. destruct (write_line _ _ w line) as [w1 [err|]] eqn:Hw; [done|].
    destruct (write_line_spec _ _ _ _ _ Hd Hw eq_refl) as (t & Ht & Hb & Hwr).
    destruct (IH w1 f) as (bs & Hc & Hw2 & Hp); [rewrite !length_app in Hf; cbn in Hf; lia|done|].
    exists (line_frames line m t ++ bs). split_and!; [by constructor|by eapply wrote_app|done].
Qed.
End writer.

(** Reading a number of messages. *)
Fixpoint read_messages (n : nat) (reader : Stream) : Result IPCError (list ipcFrame * Stream) :=
  match n with
  | O => Ok ([], reader)
  | S n =>
     let? mr := readDirectionalSemanticIPCFrame sha256 mapType reader in
     let? msr := read_messages n (snd mr) in
     Ok (fst mr :: fst msr, snd msr)
  end.

Lemma read_carried lines ms bs tail e :
  carried lines ms bs →
  read_messages (length ms) {| contents := bs ++ tail; ending := e |} = Ok (ms, {| contents := tail; ending := e |}).
Proof.
  induction 1 as [|line lines m ms t bs Hd Hm Hl _ IH]; [done|]. cbn [read_messages length]. rewrite <- app_assoc.
  rewrite (read_line line m t _ _ Hd Hm Hl). cbn [rbind fst snd]. rewrite IH. done.
Qed.
End messages.

Lemma host_types_valid s t : hostSemanticFrameType s = Ok t → validIPCFrameType t = true.
Proof. unfold hostSemanticFrameType. intros H. by repeat case_match; simplify_eq. Qed.

Lemma runtime_types_valid s t : runtimeSemanticFrameType s = Ok t → validIPCFrameType t = true.
Proof. unfold runtimeSemanticFrameType. intros H. by repeat case_match; simplify_eq. Qed.

(** A line is at most what a message may have when its frames were written. *)
Lemma read_chunks_bound fuel reader first frame index result r s' :
  blen result ≤ IPCInvokeMetadataMax →
  read_chunks fuel reader first frame index result = Ok (r, s') → 0 < blen r ≤ IPCInvokeMetadataMax.
Proof.
  assert (∀ index result frame x, take_chunk index result frame = Ok x → 0 < blen x ≤ IPCInvokeMetadataMax) as Htake.
  { clear. intros index result frame x H. unfold take_chunk in H. apply guard_ok in H as [Hb H].
    apply andb_true_iff in Hb as [_ Hb]. apply negb_true_iff, Z.eqb_neq in Hb.
    destruct (decode_envelope _); [|done]. apply guard_ok in H as [_ H]. apply guard_ok in H as [Hl [= <-]].
    apply negb_true_iff, Z.ltb_ge in Hl. unfold blen in *. rewrite length_app. lia. }
  revert reader frame index result. induction fuel as [|fuel IH]; intros reader frame index result Hr; cbn [read_chunks];
    (destruct (take_chunk index result frame) as [x|] eqn:Hx; [|done]); cbn [rbind]; apply Htake in Hx;
    destruct (flag _ _); try done; try (by intros [= <- <-]).
  intros H. apply rbind_ok in H as ([f s] & _ & H). apply guard_ok in H as [_ H]. eapply IH; [|exact H]. lia.
Qed.

(** C35: The lines a process writes, one message each, arrive as the messages:
    whatever pieces the lines are written in, whatever the writer takes at a
    time and whatever follows on the stream, the reader of the other side gets
    the messages in their order, and nothing stays pending. A message that is
    read has at least one and at most 1048576 bytes. *)
Theorem semantic_messages_round_trip (sha256 : string → string) (mapType : string → Result IPCError Z)
    {W : Type} `{!Writer W} (w : W) lines ms payloads lw' tail ending :
  mapType = hostSemanticFrameType ∨ mapType = runtimeSemanticFrameType →
  Forall2 encodes lines ms → payloads ≠ [] → concat payloads = concat (map (λ l, l ++ newline) lines) →
  write_payloads sha256 mapType {| closer := w; pending := [] |} payloads = Some lw' →
  (∃ bs, taken (closer lw') = taken w ++ bs ∧ pending lw' = [] ∧
     read_messages sha256 mapType (length ms) {| contents := bs ++ tail; ending := ending |} =
       Ok (ms, {| contents := tail; ending := ending |})) ∧
  (∀ reader first r s', readSemanticIPCBytes reader first = Ok (r, s') → 0 < blen r ≤ IPCInvokeMetadataMax).
Proof.
  intros Hmt Hl Hne Hc Hw. split.
  - assert (∀ s t, mapType s = Ok t → validIPCFrameType t = true) as Hvalid.
    { destruct Hmt as [-> | ->]; [apply host_types_valid|apply runtime_types_valid]. }
    apply write_payloads_concat in Hw; [|done]. cbn [pending closer app] in Hw. rewrite Hc in Hw.
    eapply drain_lines in Hw as (bs & Hcar & Hwr & Hp); [|done|done|lia].
    exists bs. split_and!; [done..|]. by eapply read_carried.
  - intros reader first r s' H. unfold readSemanticIPCBytes in H. apply guard_ok in H as [_ H].
    eapply read_chunks_bound; [|exact H]. vm_compute. discriminate.
Qed.

(** Two messages, written in three pieces. *)
Definition hash0 (s : string) : string := String.append s "12345678".

Definition sample_line (ft id : string) : bytes :=
  json_value (JStruct [("frame_type", JString ft); ("request_id", JString id)])%string.

Definition sample_message (ft id : string) : ipcFrame :=
  {| FrameType := ft; FrameRequestID := id; ParentRequestID := ""; RuntimeGenerationID := ""; Payload := None |}.

Definition sample_lines : list bytes := [sample_line "hello" "a"; sample_line "heartbeat" "b"].

Definition sample_text : bytes := concat (map (λ l, l ++ newline) sample_lines).

Definition sample_payloads : list bytes := [take 5 sample_text; take 40 (drop 5 sample_text); drop 45 sample_text].

Lemma semantic_messages_round_trip_witness :
  ∃ lw', write_payloads hash0 hostSemanticFrameType {| closer := [] : bytes; pending := [] |} sample_payloads = Some lw' ∧
  ∃ bs, taken (closer lw') = bs ∧
    read_messages hash0 hostSemanticFrameType 2 {| contents := bs ++ text "rest"; ending := EOF |} =
      Ok ([sample_message "hello" "a"; sample_message "heartbeat" "b"], {| contents := text "rest"; ending := EOF |}).
Proof.
  destruct (write_payloads hash0 hostSemanticFrameType {| closer := [] : bytes; pending := [] |} sample_payloads)
    as [lw'|] eqn:Hw; [|vm_compute in Hw; discriminate Hw].
  exists lw'. split; [reflexivity|].
  destruct (semantic_messages_round_trip hash0 hostSemanticFrameType (W := bytes) [] sample_lines
    [sample_message "hello" "a"; sample_message "heartbeat" "b"] sample_payloads lw' (text "rest") EOF) as [(bs & H1 & _ & H2) _].
  - by left.
  - assert (∀ l, forallb (λ c, negb (is_byte 10 c)) l = true → Forall (λ c, is_byte 10 c = false) l) as Hnl.
    { intros l. rewrite forallb_forall, Forall_forall. intros H c Hc. apply negb_true_iff, H, list_elem_of_In. exact Hc. }
    apply Forall2_cons_2; [|apply Forall2_cons_2; [|apply Forall2_nil_2]];
      (split; [apply Hnl; vm_compute; reflexivity|split; vm_compute; reflexivity]).
  - discriminate.
  - vm_compute. reflexivity.
  - exact Hw.
  - exists bs. split; [exact H1|exact H2].
Defined.
