(* ===== verification/Secrets.v ===== *)
(** * Secret references ([pkg/secrets/secrets.go])

    Which secrets of a plugin are bound, per user or per environment. The
    memory store keeps its records in one Go map under keys joined with NUL
    bytes; every method runs under its mutex. *)

From S2P Require Import Prelude GoLib SessionCtx.

Open Scope go_scope.

(** ** The store *)

Inductive SecretError :=
| ErrInvalidSecretRef
| ErrSecretScopeMismatch
| SecretSession (e : SessErr).

#[export] Instance SecretError_eq_dec : EqDecision SecretError.
Proof. solve_decision. Defined.

Record BindRequest := mkBindRequest {
  br_PluginInstanceID : string;
  br_SecretRef : string;
  br_Scope : string;
}.

Record ListRequest := mkListRequest {
  lr_PluginInstanceID : string;
  lr_Scope : string;
  lr_BoundOnly : bool;
}.

Record SecretRecord := mkSecretRecord {
  sr_OwnerEnvHash : string;
  sr_OwnerUserHash : string;
  sr_PluginInstanceID : string;
  sr_SecretRef : string;
  sr_Scope : string;
  sr_Bound : bool;
  sr_LastTestStatus : string;
  sr_BoundAt : option time;
  sr_TestedAt : option time;
  sr_DeletedAt : option time;
  sr_UpdatedAt : time;
}.

#[export] Instance BindRequest_eq_dec : EqDecision BindRequest.
Proof. solve_decision. Defined.
#[export] Instance SecretRecord_eq_dec : EqDecision SecretRecord.
Proof. solve_decision. Defined.

(** [MemoryStore.records]. *)
Notation SecretStore := (gmap string SecretRecord).

Definition NewMemoryStore : SecretStore := ∅.

Definition normalizeRequest (req : BindRequest) : Result SecretError BindRequest :=
  let req := mkBindRequest (TrimSpace (br_PluginInstanceID req)) (TrimSpace (br_SecretRef req))
               (TrimSpace (br_Scope req)) in
  guard! negb (bool_decide (br_PluginInstanceID req = "") || bool_decide (br_SecretRef req = ""))
    else ErrInvalidSecretRef in
  guard! bool_decide (br_Scope req = ScopeUser) || bool_decide (br_Scope req = ScopeEnvironment)
    else ErrInvalidSecretRef in
  Ok req.

Definition requireSession (ctx : GoCtx) : Result SecretError Context :=
  match Require_ ctx with
  | Ok session => Ok session
  | Err e => Err (SecretSession e)
  end.

Definition ownerForScope (ctx : GoCtx) (scope : string) : Result SecretError ResourceScope :=
  let? session := requireSession ctx in
  match Context_ResourceScope session scope with
  | Ok owner => Ok owner
  | Err _ => Err ErrSecretScopeMismatch
  end.

Definition recordKey (owner : ResourceScope) (req : BindRequest) : string :=
  rs_OwnerEnvHash owner +:+ nul +:+ (rs_OwnerUserHash owner +:+ nul +:+
  (br_PluginInstanceID req +:+ nul +:+ (br_Scope req +:+ nul +:+ br_SecretRef req))).

(** The checks [BindSecretRef], [TestSecretRef] and [DeleteSecretRef] begin with. *)
Definition secretTarget (ctx : GoCtx) (req : BindRequest) : Result SecretError (ResourceScope * BindRequest) :=
  let? normalized := normalizeRequest req in
  let? owner := ownerForScope ctx (br_Scope normalized) in
  Ok (owner, normalized).

(** The records the three methods write. *)
Definition boundRecord (now : time) (owner : ResourceScope) (req : BindRequest) : SecretRecord := {|
  sr_OwnerEnvHash := rs_OwnerEnvHash owner;
  sr_OwnerUserHash := rs_OwnerUserHash owner;
  sr_PluginInstanceID := br_PluginInstanceID req;
  sr_SecretRef := br_SecretRef req;
  sr_Scope := br_Scope req;
  sr_Bound := true;
  sr_LastTestStatus := "";
  sr_BoundAt := Some now;
  sr_TestedAt := None;
  sr_DeletedAt := None;
  sr_UpdatedAt := now
|}.

Definition testedRecord (now : time) (req : BindRequest) (record : SecretRecord) : SecretRecord := {|
  sr_OwnerEnvHash := sr_OwnerEnvHash record;
  sr_OwnerUserHash := sr_OwnerUserHash record;
  sr_PluginInstanceID := br_PluginInstanceID req;
  sr_SecretRef := br_SecretRef req;
  sr_Scope := br_Scope req;
  sr_Bound := true;
  sr_LastTestStatus := "passed";
  sr_BoundAt := match sr_BoundAt record with None => Some now | Some t => Some t end;
  sr_TestedAt := Some now;
  sr_DeletedAt := None;
  sr_UpdatedAt := now
|}.

(** The zero value of a Go [Record], read for a key that is not in the map. *)
Definition zeroRecord : SecretRecord := mkSecretRecord "" "" "" "" "" false "" None None None 0%Z.

Definition deletedRecord (now : time) (owner : ResourceScope) (req : BindRequest) (record : SecretRecord) :
    SecretRecord := {|
  sr_OwnerEnvHash := rs_OwnerEnvHash owner;
  sr_OwnerUserHash := rs_OwnerUserHash owner;
  sr_PluginInstanceID := br_PluginInstanceID req;
  sr_SecretRef := br_SecretRef req;
  sr_Scope := br_Scope req;
  sr_Bound := false;
  sr_LastTestStatus := "";
  sr_BoundAt := sr_BoundAt record;
  sr_TestedAt := sr_TestedAt record;
  sr_DeletedAt := Some now;
  sr_UpdatedAt := now
|}.

Definition BindSecretRef (now : time) (ctx : GoCtx) (req : BindRequest) (s : SecretStore) :
    SecretStore * Result SecretError unit :=
  match secretTarget ctx req with
  | Err e => (s, Err e)
  | Ok (owner, normalized) => (<[recordKey owner normalized := boundRecord now owner normalized]> s, Ok tt)
  end.

Definition TestSecretRef (now : time) (ctx : GoCtx) (req : BindRequest) (s : SecretStore) :
    SecretStore * Result SecretError unit :=
  match secretTarget ctx req with
  | Err e => (s, Err e)
  | Ok (owner, normalized) =>
     let key := recordKey owner normalized in
     match s !! key with
     | Some record =>
        if sr_Bound record then (<[key := testedRecord now normalized record]> s, Ok tt)
        else (s, Err ErrInvalidSecretRef)
     | None => (s, Err ErrInvalidSecretRef)
     end
  end.

Definition DeleteSecretRef (now : time) (ctx : GoCtx) (req : BindRequest) (s : SecretStore) :
    SecretStore * Result SecretError unit :=
  match secretTarget ctx req with
  | Err e => (s, Err e)
  | Ok (owner, normalized) =>
     let key := recordKey owner normalized in
     (<[key := deletedRecord now owner normalized (default zeroRecord (s !! key))]> s, Ok tt)
  end.

Definition recordVisibleToSession (record : SecretRecord) (session : Context) : bool :=
  if negb (bool_decide (sr_OwnerEnvHash record = sc_OwnerEnvHash session)) then false
  else if bool_decide (sr_Scope record = ScopeEnvironment) then bool_decide (sr_OwnerUserHash record = "")
  else bool_decide (sr_Scope record = ScopeUser) &&
       bool_decide (sr_OwnerUserHash record = sc_OwnerUserHash session).

(** The order of [sortRecords]. *)
Definition sortKey (r : SecretRecord) : string * (string * string) :=
  (sr_PluginInstanceID r, (sr_Scope r, sr_SecretRef r)).

Definition sortRecords (records : list SecretRecord) : list SecretRecord :=
  merge_sort (λ x y, lex String.le (lex String.le String.le) (sortKey x) (sortKey y)) records.

(** The tests of the loop in [List]. *)
Definition listed (pluginInstanceID scope : string) (boundOnly : bool) (session : Context) (record : SecretRecord) :
    bool :=
  recordVisibleToSession record session &&
  negb (negb (bool_decide (pluginInstanceID = "")) && negb (bool_decide (sr_PluginInstanceID record = pluginInstanceID))) &&
  negb (negb (bool_decide (scope = "")) && negb (bool_decide (sr_Scope record = scope))) &&
  negb (boundOnly && negb (sr_Bound record)).

Definition List (ctx : GoCtx) (req : ListRequest) (s : SecretStore) : Result SecretError (list SecretRecord) :=
  let pluginInstanceID := TrimSpace (lr_PluginInstanceID req) in
  let scope := TrimSpace (lr_Scope req) in
  guard! bool_decide (scope = "") || bool_decide (scope = ScopeUser) || bool_decide (scope = ScopeEnvironment)
    else ErrInvalidSecretRef in
  let? session := requireSession ctx in
  Ok (sortRecords (List.filter (listed pluginInstanceID scope (lr_BoundOnly req) session) (map_to_list s).*2)).

Definition DeletePlugin (ctx : GoCtx) (pluginInstanceID : string) (s : SecretStore) :
    SecretStore * Result SecretError unit :=
  let pluginInstanceID := TrimSpace pluginInstanceID in
  if bool_decide (pluginInstanceID = "") then (s, Err ErrInvalidSecretRef)
  else match requireSession ctx with
  | Err e => (s, Err e)
  | Ok session =>
     (filter (λ kr, ¬ (sr_OwnerEnvHash kr.2 = sc_OwnerEnvHash session ∧
                       sr_PluginInstanceID kr.2 = pluginInstanceID)) s, Ok tt)
  end.

(** ** Histories of calls *)

Inductive SecretCall :=
| CallBind (now : time) (ctx : GoCtx) (req : BindRequest)
| CallTest (now : time) (ctx : GoCtx) (req : BindRequest)
| CallDelete (now : time) (ctx : GoCtx) (req : BindRequest)
| CallList (ctx : GoCtx) (req : ListRequest)
| CallDeletePlugin (ctx : GoCtx) (pluginInstanceID : string).

Inductive SecretAnswer :=
| AnswerUnit (r : Result SecretError unit)
| AnswerList (r : Result SecretError (list SecretRecord)).

Definition secret_call (c : SecretCall) (s : SecretStore) : SecretStore * SecretAnswer :=
  match c with
  | CallBind now ctx req => let '(s, r) := BindSecretRef now ctx req s in (s, AnswerUnit r)
  | CallTest now ctx req => let '(s, r) := TestSecretRef now ctx req s in (s, AnswerUnit r)
  | CallDelete now ctx req => let '(s, r) := DeleteSecretRef now ctx req s in (s, AnswerUnit r)
  | CallList ctx req => (s, AnswerList (List ctx req s))
  | CallDeletePlugin ctx id => let '(s, r) := DeletePlugin ctx id s in (s, AnswerUnit r)
  end.
