(* ===== verification/SecretsProps.v ===== *)
(** * Secret references: owners and names

    A secret is named by its owner, its plugin and its reference. The store is
    compared with one that keeps the records under these names, and the
    records of an owner are shown to be out of reach for everybody else. *)

From S2P Require Import Prelude GoLib SessionCtx Secrets.

Open Scope go_scope.

(** ** The specification: records by name *)

#[export] Program Instance ResourceScope_countable : Countable ResourceScope :=
  inj_countable' (λ s, (rs_Kind s, rs_OwnerEnvHash s, rs_OwnerUserHash s))
    (λ '(a, b, c), mkResourceScope a b c) _.
Next Obligation. by intros []. Qed.

Notation SecretName := (ResourceScope * (string * string))%type.
Notation Names := (gmap SecretName SecretRecord).

Definition target_name (owner : ResourceScope) (req : BindRequest) : SecretName :=
  (owner, (br_PluginInstanceID req, br_SecretRef req)).

(** A call on one secret: what it does to the record under its name. *)
Definition name_step (update : ResourceScope → BindRequest → option SecretRecord → option SecretRecord)
    (ctx : GoCtx) (req : BindRequest) (a : Names) : Names * SecretAnswer :=
  match secretTarget ctx req with
  | Err e => (a, AnswerUnit (Err e))
  | Ok (owner, req) =>
     match update owner req (a !! target_name owner req) with
     | Some r => (<[target_name owner req := r]> a, AnswerUnit (Ok tt))
     | None => (a, AnswerUnit (Err ErrInvalidSecretRef))
     end
  end.

Definition bind_update now owner req (_ : option SecretRecord) : option SecretRecord :=
  Some (boundRecord now owner req).
Definition test_update now (_ : ResourceScope) req (r : option SecretRecord) : option SecretRecord :=
  match r with
  | Some r => if sr_Bound r then Some (testedRecord now req r) else None
  | None => None
  end.
Definition delete_update now owner req (r : option SecretRecord) : option SecretRecord :=
  Some (deletedRecord now owner req (default zeroRecord r)).

(** The records of a set of names a session sees, in their order. *)
Definition names_list (ctx : GoCtx) (req : ListRequest) (a : Names) : Result SecretError (list SecretRecord) :=
  guard! bool_decide (TrimSpace (lr_Scope req) ∈ [""; ScopeUser; ScopeEnvironment]) else ErrInvalidSecretRef in
  let? session := requireSession ctx in
  Ok (sortRecords (List.filter (listed (TrimSpace (lr_PluginInstanceID req)) (TrimSpace (lr_Scope req))
        (lr_BoundOnly req) session) (map_to_list a).*2)).

Definition names_call (c : SecretCall) (a : Names) : Names * SecretAnswer :=
  match c with
  | CallBind now ctx req => name_step (bind_update now) ctx req a
  | CallTest now ctx req => name_step (test_update now) ctx req a
  | CallDelete now ctx req => name_step (delete_update now) ctx req a
  | CallList ctx req => (a, AnswerList (names_list ctx req a))
  | CallDeletePlugin ctx id =>
     match TrimSpace id, requireSession ctx with
     | "", _ => (a, AnswerUnit (Err ErrInvalidSecretRef))
     | _, Err e => (a, AnswerUnit (Err e))
     | id, Ok session =>
        (filter (λ nr, ¬ (rs_OwnerEnvHash nr.1.1 = sc_OwnerEnvHash session ∧ nr.1.2.1 = id)) a, AnswerUnit (Ok tt))
     end
  end.

(** The answers to a history of calls. *)
Fixpoint answers {S} (step : SecretCall → S → S * SecretAnswer) (calls : list SecretCall) (s : S) : S * list SecretAnswer :=
  match calls with
  | [] => (s, [])
  | c :: calls =>
     let '(s, x) := step c s in
     let '(s, xs) := answers step calls s in (s, x :: xs)
  end.

(** Names without NUL bytes. *)
Definition call_nul_free (c : SecretCall) : Prop :=
  match c with
  | CallBind _ _ req | CallTest _ _ req | CallDelete _ _ req =>
     nul_free (br_PluginInstanceID req) = true ∧ nul_free (br_SecretRef req) = true
  | _ => True
  end.

(** ** The records and their keys *)

Definition record_owner (r : SecretRecord) : ResourceScope :=
  mkResourceScope (sr_Scope r) (sr_OwnerEnvHash r) (sr_OwnerUserHash r).
Definition record_req (r : SecretRecord) : BindRequest :=
  mkBindRequest (sr_PluginInstanceID r) (sr_SecretRef r) (sr_Scope r).
Definition key_of (r : SecretRecord) : string := recordKey (record_owner r) (record_req r).
Definition name_of (r : SecretRecord) : SecretName := target_name (record_owner r) (record_req r).

(** The owners a session has: itself as a user, and its environment. *)
Definition owner_ok (o : ResourceScope) : Prop :=
  validOwnerHash (rs_OwnerEnvHash o) = true ∧
  (rs_Kind o = ScopeUser ∧ validOwnerHash (rs_OwnerUserHash o) = true ∨
   rs_Kind o = ScopeEnvironment ∧ rs_OwnerUserHash o = "").

(** Every record is stored under its own key, for one of these owners. *)
Definition secrets_wf (s : SecretStore) : Prop :=
  ∀ k r, s !! k = Some r → k = key_of r ∧ owner_ok (record_owner r).

Definition record_nul_free (r : SecretRecord) : Prop :=
  nul_free (sr_PluginInstanceID r) = true ∧ nul_free (sr_SecretRef r) = true.

Lemma owner_ok_nul_free o :
  owner_ok o → nul_free (rs_OwnerEnvHash o) = true ∧ nul_free (rs_OwnerUserHash o) = true.
Proof. intros (He & [[_ Hu]|[_ ->]]); eauto with redev. Qed.

(** The owner of a record can be read off its key, whatever the names. *)
Lemma recordKey_owner o q o' q' :
  owner_ok o → owner_ok o' → recordKey o q = recordKey o' q' → o = o'.
Proof.
  intros Ho Ho' Hk. pose proof (owner_ok_nul_free _ Ho) as [? ?]. pose proof (owner_ok_nul_free _ Ho') as [? ?].
  unfold recordKey in Hk. apply nul_join_inj in Hk as [He Hk]; [|done..].
  apply nul_join_inj in Hk as [Hu _]; [|done..].
  destruct o as [k e u], o' as [k' e' u']; unfold owner_ok in *; simpl in *.
  destruct Ho as (_ & [[-> Hv]|[-> ->]]), Ho' as (_ & [[-> Hv']|[-> ->]]); simplify_eq; done.
Qed.

Lemma recordKey_name o q o' q' :
  owner_ok o → owner_ok o' → nul_free (br_PluginInstanceID q) = true → nul_free (br_PluginInstanceID q') = true →
  rs_Kind o = br_Scope q → rs_Kind o' = br_Scope q' →
  recordKey o q = recordKey o' q' → target_name o q = target_name o' q'.
Proof.
  intros Ho Ho' Hp Hp' Hs Hs' Hk. pose proof (recordKey_owner _ _ _ _ Ho Ho' Hk) as ->.
  pose proof (owner_ok_nul_free _ Ho) as [? ?]. unfold recordKey in Hk.
  apply nul_join_inj in Hk as [_ Hk]; [|done..]. apply nul_join_inj in Hk as [_ Hk]; [|done..].
  apply nul_join_inj in Hk as [Hq Hk]; [|done..]. unfold target_name. rewrite Hq. do 2 f_equal.
  rewrite <- Hs, <- Hs' in Hk. apply nul_join_inj in Hk as [_ Hk]; [done|..];
    destruct Ho as (_ & [[-> _]|[-> _]]); done.
Qed.

Lemma secretTarget_ok ctx req o q :
  secretTarget ctx req = Ok (o, q) →
  ∃ session, requireSession ctx = Ok session ∧ owner_ok o ∧ rs_Kind o = br_Scope q ∧
    rs_OwnerEnvHash o = sc_OwnerEnvHash session ∧
    (br_Scope q = ScopeUser → rs_OwnerUserHash o = sc_OwnerUserHash session) ∧
    q = mkBindRequest (TrimSpace (br_PluginInstanceID req)) (TrimSpace (br_SecretRef req)) (TrimSpace (br_Scope req)).
Proof.
  unfold secretTarget. rewrite rbind_ok. intros (q' & Hq & Ho). rewrite rbind_ok in Ho. destruct Ho as (o' & Ho & Heq).
  simplify_eq. unfold normalizeRequest in Hq. rewrite !guard_ok in Hq. simpl in Hq. destruct Hq as (_ & Hs & [= <-]).
  unfold ownerForScope in Ho. rewrite rbind_ok in Ho. destruct Ho as (session & Hsess & Ho). simpl in Ho.
  assert (Context_Valid session = true) as Hv.
  { unfold requireSession, Require_, FromContext in Hsess. go_cases. by apply negb_false_iff. }
  exists session. unfold owner_ok. pose proof Hv as Hv'. unfold Context_Valid in Hv'. rewrite !andb_true_iff in Hv'.
  rewrite orb_true_iff, !bool_decide_eq_true in Hs. simpl. destruct Hs as [Hs|Hs]; rewrite Hs in Ho |- *.
  - rewrite Context_ResourceScope_user in Ho by done. simplify_eq/=. naive_solver.
  - rewrite Context_ResourceScope_env in Ho by done. simplify_eq/=. naive_solver.
Qed.

(** The records the calls write belong under the key they write them to. *)
Lemma written_record o q r :
  rs_Kind o = br_Scope q →
  (∃ now, r = boundRecord now o q) ∨ (∃ now r', r = deletedRecord now o q r') ∨
  (∃ now r', r = testedRecord now q r' ∧ sr_OwnerEnvHash r' = rs_OwnerEnvHash o ∧ sr_OwnerUserHash r' = rs_OwnerUserHash o) →
  record_owner r = o ∧ record_req r = q.
Proof.
  destruct o as [k e u], q as [p f s]; unfold record_owner, record_req; simpl.
  intros -> [(now & ->)|[(now & r' & ->)|(now & r' & -> & He & Hu)]]; simpl in *; by subst.
Qed.

(** ** One call on one secret

    [BindSecretRef], [TestSecretRef] and [DeleteSecretRef] are one step with
    different updates, on keys as on names. *)

Definition key_step (update : ResourceScope → BindRequest → option SecretRecord → option SecretRecord)
    (ctx : GoCtx) (req : BindRequest) (s : SecretStore) : SecretStore * SecretAnswer :=
  match secretTarget ctx req with
  | Err e => (s, AnswerUnit (Err e))
  | Ok (owner, req) =>
     match update owner req (s !! recordKey owner req) with
     | Some r => (<[recordKey owner req := r]> s, AnswerUnit (Ok tt))
     | None => (s, AnswerUnit (Err ErrInvalidSecretRef))
     end
  end.

Lemma secret_call_key_step c s :
  secret_call c s =
  match c with
  | CallBind now ctx req => key_step (bind_update now) ctx req s
  | CallTest now ctx req => key_step (test_update now) ctx req s
  | CallDelete now ctx req => key_step (delete_update now) ctx req s
  | CallList ctx req => (s, AnswerList (List ctx req s))
  | CallDeletePlugin ctx id => let '(s, r) := DeletePlugin ctx id s in (s, AnswerUnit r)
  end.
Proof.
  destruct c; simpl; unfold key_step, BindSecretRef, TestSecretRef, DeleteSecretRef;
    [..|done|done]; destruct (secretTarget _ _) as [[o q]|e]; simpl; [done..| |done|done|done].
  destruct (s !! _) as [r|]; simpl; [|done]. by destruct (sr_Bound r).
Qed.

(** An update that keeps records under their keys. *)
Definition keeps_keys (update : ResourceScope → BindRequest → option SecretRecord → option SecretRecord) : Prop :=
  ∀ o q r r', rs_Kind o = br_Scope q → (∀ r0, r = Some r0 → record_owner r0 = o) →
    update o q r = Some r' → record_owner r' = o ∧ record_req r' = q.

Lemma updates_keep_keys now :
  keeps_keys (bind_update now) ∧ keeps_keys (test_update now) ∧ keeps_keys (delete_update now).
Proof.
  split_and!; intros o q r r' Hk Hr; unfold bind_update, test_update, delete_update.
  - intros [= <-]. apply written_record; eauto.
  - destruct r as [r|]; [|done]. destruct (sr_Bound r); [|done]. intros [= <-]. apply written_record; [done|].
    right; right. exists now, r. by rewrite <- (Hr r).
  - intros [= <-]. apply written_record; eauto.
Qed.

Lemma stored_owner s o q r :
  secrets_wf s → owner_ok o → s !! recordKey o q = Some r → record_owner r = o.
Proof. intros Hwf Ho Hr. destruct (Hwf _ _ Hr) as [Hk Hok]. symmetry. by eapply recordKey_owner. Qed.

Lemma key_step_wf update ctx req s :
  keeps_keys update → secrets_wf s → secrets_wf (key_step update ctx req s).1.
Proof.
  intros Hu Hwf. unfold key_step. destruct (secretTarget ctx req) as [[o q]|e] eqn:Ht; [|done].
  apply secretTarget_ok in Ht as (session & _ & Ho & Hk & _).
  destruct (update o q _) as [r|] eqn:Hup; [|done]. intros k r'. simpl. rewrite lookup_insert_Some.
  intros [[<- <-]|[_ Hr]]; [|by apply Hwf].
  destruct (Hu _ _ _ _ Hk (λ r0 H, stored_owner _ _ _ _ Hwf Ho H) Hup) as [Hro Hrq].
  unfold key_of. by rewrite Hro, Hrq.
Qed.

Lemma secret_call_wf c s : secrets_wf s → secrets_wf (secret_call c s).1.
Proof.
  intros Hwf. rewrite secret_call_key_step. destruct c as [now ctx req|now ctx req|now ctx req|ctx req|ctx id];
    [apply key_step_wf; [apply updates_keep_keys|done]..|done|].
  unfold DeletePlugin. go_cases; try done. intros k r. rewrite map_lookup_filter_Some. intros [? _]. by apply Hwf.
Qed.

(** ** Listing *)

Definition session_records (req : ListRequest) (session : Context) (l : list SecretRecord) : list SecretRecord :=
  List.filter (listed (TrimSpace (lr_PluginInstanceID req)) (TrimSpace (lr_Scope req)) (lr_BoundOnly req) session) l.

Lemma elem_of_session_records req session l r :
  r ∈ session_records req session l ↔
  listed (TrimSpace (lr_PluginInstanceID req)) (TrimSpace (lr_Scope req)) (lr_BoundOnly req) session r = true ∧ r ∈ l.
Proof. unfold session_records. rewrite !list_elem_of_In, List.filter_In. tauto. Qed.

Lemma visible_owner r session :
  recordVisibleToSession r session = true → owner_ok (record_owner r) →
  sr_OwnerEnvHash r = sc_OwnerEnvHash session ∧
  sr_OwnerUserHash r = (if bool_decide (sr_Scope r = ScopeEnvironment) then "" else sc_OwnerUserHash session).
Proof.
  unfold recordVisibleToSession. intros Hv _. case_bool_decide as He; [|done]. simpl in Hv.
  case_bool_decide as Hs; simpl in Hv; go_bools; done.
Qed.

(** The records a session sees are told apart by plugin, scope and reference. *)
Lemma visible_sortKey r r' session :
  recordVisibleToSession r session = true → recordVisibleToSession r' session = true →
  owner_ok (record_owner r) → owner_ok (record_owner r') → sortKey r = sortKey r' → key_of r = key_of r'.
Proof.
  intros Hv Hv' Ho Ho' Hk. apply visible_owner in Hv as [He Hu], Hv' as [He' Hu']; [|done..].
  unfold sortKey in Hk. injection Hk as Hp Hs Hf. unfold key_of, recordKey, record_owner, record_req. simpl.
  rewrite Hs in Hu. congruence.
Qed.

Lemma listed_visible p sc b session r : listed p sc b session r = true → recordVisibleToSession r session = true.
Proof. unfold listed. rewrite !andb_true_iff. tauto. Qed.

Lemma sorted_listing_unique req session l l' :
  NoDup l → NoDup l' → (∀ r, r ∈ l → owner_ok (record_owner r)) →
  (∀ r r', r ∈ l → r' ∈ l → key_of r = key_of r' → r = r') →
  (∀ r, recordVisibleToSession r session = true → r ∈ l ↔ r ∈ l') →
  sortRecords (session_records req session l) = sortRecords (session_records req session l').
Proof.
  intros Hnd Hnd' Ho Hinj Heq. unfold sortRecords. apply (merge_sort_keyed sortKey (lex String.le (lex String.le String.le))).
  - apply NoDup_Permutation; [apply NoDup_ListNoDup, List.NoDup_filter, NoDup_ListNoDup; done..|].
    intros r. rewrite !elem_of_session_records. split; intros [Hl Hin]; split; try done;
      apply Heq; eauto using listed_visible.
  - apply NoDup_fmap_2_strong; [|apply NoDup_ListNoDup, List.NoDup_filter, NoDup_ListNoDup; done].
    intros r r' [Hl Hin]%elem_of_session_records [Hl' Hin']%elem_of_session_records Hk.
    apply Hinj; [done..|]. eapply visible_sortKey; eauto using listed_visible.
Qed.

Definition records (s : SecretStore) : list SecretRecord := (map_to_list s).*2.

Lemma elem_of_values {K} `{Countable K} (m : gmap K SecretRecord) r : r ∈ (map_to_list m).*2 ↔ ∃ k, m !! k = Some r.
Proof.
  rewrite list_elem_of_fmap. setoid_rewrite elem_of_map_to_list'. split.
  - intros ([k r'] & -> & Hk). eauto.
  - intros (k & Hk). by exists (k, r).
Qed.

Lemma NoDup_values {K} `{Countable K} (m : gmap K SecretRecord) (f : SecretRecord → K) :
  (∀ k r, m !! k = Some r → k = f r) → NoDup (map_to_list m).*2.
Proof.
  intros Hf. apply (NoDup_fmap_1 f). rewrite <- list_fmap_compose.
  assert ((f ∘ snd) <$> map_to_list m = (map_to_list m).*1) as ->; [|apply NoDup_fst_map_to_list].
  apply list_fmap_ext. intros i [k r] Hi. simpl. symmetry. apply Hf. apply elem_of_map_to_list.
  by eapply list_elem_of_lookup_2.
Qed.

Lemma List_spec ctx req s :
  List ctx req s =
  guard! bool_decide (TrimSpace (lr_Scope req) ∈ [""; ScopeUser; ScopeEnvironment]) else ErrInvalidSecretRef in
  let? session := requireSession ctx in Ok (sortRecords (session_records req session (records s))).
Proof.
  unfold List, records, session_records.
  assert (∀ x : string, bool_decide (x = "") || bool_decide (x = ScopeUser) || bool_decide (x = ScopeEnvironment) =
    bool_decide (x ∈ [""; ScopeUser; ScopeEnvironment])) as ->; [|done].
  intros x. apply eq_true_iff_eq. rewrite !orb_true_iff, !bool_decide_eq_true. set_solver.
Qed.

Lemma stores_list_alike {K} `{Countable K} (f : SecretRecord → K) (s : SecretStore) (m : gmap K SecretRecord) req session :
  secrets_wf s → (∀ k r, m !! k = Some r → k = f r) →
  (∀ r, recordVisibleToSession r session = true → s !! key_of r = Some r ↔ m !! f r = Some r) →
  sortRecords (session_records req session (records s)) =
  sortRecords (session_records req session (map_to_list m).*2).
Proof.
  intros Hwf Hf Heq. unfold records. apply sorted_listing_unique.
  - apply (NoDup_values s key_of). intros k r Hr. by apply Hwf.
  - by apply (NoDup_values m f).
  - intros r (k & Hk)%elem_of_values. by apply (Hwf k).
  - intros r r' (k & Hk)%elem_of_values (k' & Hk')%elem_of_values.
    destruct (Hwf _ _ Hk) as [-> _], (Hwf _ _ Hk') as [-> _]. congruence.
  - intros r Hv. rewrite !elem_of_values. split.
    + intros (k & Hk). destruct (Hwf _ _ Hk) as [-> _]. exists (f r). by apply Heq.
    + intros (k & Hk). pose proof (Hf _ _ Hk) as ->. exists (key_of r). by apply Heq.
Qed.

(** ** Isolation of owners *)

(** A call that changes one secret leaves everything alone that a session
    without the owner of that secret can see. *)
Lemma key_step_invisible update ctx req s session' :
  keeps_keys update → secrets_wf s →
  (∀ session o q, requireSession ctx = Ok session → secretTarget ctx req = Ok (o, q) →
     sc_OwnerEnvHash session ≠ sc_OwnerEnvHash session' ∨
     rs_Kind o = ScopeUser ∧ sc_OwnerUserHash session ≠ sc_OwnerUserHash session') →
  ∀ r, recordVisibleToSession r session' = true →
    s !! key_of r = Some r ↔ (key_step update ctx req s).1 !! key_of r = Some r.
Proof.
  intros Hu Hwf Hother r Hv. unfold key_step. destruct (secretTarget ctx req) as [[o q]|e] eqn:Ht; [|done].
  pose proof (secretTarget_ok _ _ _ _ Ht) as (session & Hs & Ho & Hk & He & Hus & _).
  specialize (Hother _ _ _ Hs eq_refl). destruct (update o q _) as [r'|] eqn:Hup; [|done]. simpl.
  destruct (Hu _ _ _ _ Hk (λ r0 H, stored_owner _ _ _ _ Hwf Ho H) Hup) as [Hro Hrq].
  assert (∀ x, record_owner x = o → recordVisibleToSession x session' = true → False) as Hno.
  { intros x Hx Hvx. apply visible_owner in Hvx as [Hex Hux]; [|by rewrite Hx]. destruct o as [k e u].
    injection Hx as Hx1 Hx2 Hx3. simpl in *. destruct Hother as [Hne|[Hku Hne]]; [congruence|].
    rewrite bool_decide_eq_false_2 in Hux by (rewrite Hx1, Hku; done). rewrite <- Hus in Hne by congruence. congruence. }
  destruct (decide (recordKey o q = key_of r)) as [Heq|Hne]; [|by rewrite lookup_insert_ne].
  rewrite <- Heq, lookup_insert_eq. split; intros Hr.
  - destruct (Hno r); [|done]. by eapply stored_owner.
  - simplify_eq. by destruct (Hno r).
Qed.

(** ** The store implements the names *)

Definition implements (s : SecretStore) (a : Names) : Prop :=
  secrets_wf s ∧ (∀ k r, s !! k = Some r → record_nul_free r ∧ a !! name_of r = Some r) ∧
  (∀ n r, a !! n = Some r → n = name_of r ∧ s !! key_of r = Some r).

Lemma implements_empty : implements NewMemoryStore ∅.
Proof. unfold NewMemoryStore. split_and!; intros ?? H; by simplify_map_eq. Qed.

Lemma implements_keys s a r r' :
  implements s a → owner_ok (record_owner r) → record_nul_free r → s !! key_of r' = Some r' →
  key_of r = key_of r' ↔ name_of r = name_of r'.
Proof.
  intros (Hwf & Hs & _) Ho [Hp _] Hr'. destruct (Hwf _ _ Hr') as [_ Ho']. destruct (Hs _ _ Hr') as [[Hp' _] _]. split.
  - by apply recordKey_name.
  - unfold name_of, key_of, target_name. intros [= H1 H2 H3 H4 H5]. unfold recordKey, record_owner, record_req in *. simpl in *.
    congruence.
Qed.

Lemma implements_lookup s a o q :
  implements s a → owner_ok o → rs_Kind o = br_Scope q → nul_free (br_PluginInstanceID q) = true →
  s !! recordKey o q = a !! target_name o q.
Proof.
  intros (Hwf & Hs & Ha) Ho Hk Hp. apply option_eq. intros r. split; intros Hr.
  - destruct (Hwf _ _ Hr) as [Hkey Ho']. destruct (Hs _ _ Hr) as [[Hp' _] Hn].
    by rewrite (recordKey_name o q (record_owner r) (record_req r)) by done.
  - destruct (Ha _ _ Hr) as [Hn Hkey]. unfold name_of, target_name, record_owner, record_req in Hn. simpl in Hn.
    injection Hn as -> Hq1 Hq2. simpl in *. rewrite <- Hkey. unfold key_of, recordKey, record_owner, record_req. simpl.
    by rewrite Hq1, Hq2, Hk.
Qed.

Lemma implements_insert s a r :
  implements s a → owner_ok (record_owner r) → record_nul_free r →
  implements (<[key_of r := r]> s) (<[name_of r := r]> a).
Proof.
  intros Hi Ho Hn. pose proof Hi as (Hwf & Hs & Ha). split_and!.
  - intros k x. rewrite lookup_insert_Some. intros [[<- <-]|[_ ?]]; [done|by apply Hwf].
  - intros k x. rewrite lookup_insert_Some. intros [[<- <-]|[Hne Hx]]; [by rewrite lookup_insert_eq|].
    destruct (Hs _ _ Hx) as [? ?]. destruct (Hwf _ _ Hx) as [-> _]. split; [done|].
    rewrite lookup_insert_ne; [done|]. intros Heq. apply Hne. by apply (implements_keys s a).
  - intros n x. rewrite lookup_insert_Some. intros [[<- <-]|[Hne Hx]]; [by rewrite lookup_insert_eq|].
    destruct (Ha _ _ Hx) as [-> Hk]. split; [done|]. rewrite lookup_insert_ne; [done|].
    intros Heq. apply Hne. by apply (implements_keys s a).
Qed.

Lemma implements_step update ctx req s a :
  keeps_keys update → implements s a →
  nul_free (br_PluginInstanceID req) = true → nul_free (br_SecretRef req) = true →
  implements (key_step update ctx req s).1 (name_step update ctx req a).1 ∧
  (key_step update ctx req s).2 = (name_step update ctx req a).2.
Proof.
  intros Hu Hi Hp Hf. pose proof Hi as (Hwf & _). unfold key_step, name_step.
  destruct (secretTarget ctx req) as [[o q]|e] eqn:Ht; [|done].
  apply secretTarget_ok in Ht as (session & _ & Ho & Hk & _ & _ & Hq).
  rewrite <- (implements_lookup s a) by (try done; rewrite Hq; simpl; auto with redev).
  destruct (update o q _) as [r|] eqn:Hup; [|done]. simpl. split; [|done].
  destruct (Hu _ _ _ _ Hk (λ r0 H, stored_owner _ _ _ _ Hwf Ho H) Hup) as [Hro Hrq].
  rewrite <- Hro, <- Hrq. apply implements_insert; [done|by rewrite Hro|].
  unfold record_nul_free. change (sr_PluginInstanceID r) with (br_PluginInstanceID (record_req r)).
  change (sr_SecretRef r) with (br_SecretRef (record_req r)). rewrite Hrq, Hq. simpl. auto with redev.
Qed.

Lemma implements_filter s a (P : string * SecretRecord → Prop) `{!∀ x, Decision (P x)} (Q : SecretName * SecretRecord → Prop)
    `{!∀ x, Decision (Q x)} :
  implements s a → (∀ k r, Q (name_of r, r) ↔ P (k, r)) → implements (filter P s) (filter Q a).
Proof.
  intros (Hwf & Hs & Ha) HPQ. split_and!.
  - intros k r. rewrite map_lookup_filter_Some. intros [? _]. by apply Hwf.
  - intros k r. rewrite !map_lookup_filter_Some. simpl. intros [Hr HP]. destruct (Hs _ _ Hr) as [? ?]. by rewrite (HPQ k).
  - intros n r. rewrite !map_lookup_filter_Some. simpl. intros [Hr HQ]. destruct (Ha _ _ Hr) as [-> ?]. by rewrite <- (HPQ (key_of r)).
Qed.

Lemma implements_list s a ctx req : implements s a → List ctx req s = names_list ctx req a.
Proof.
  intros (Hwf & Hs & Ha). rewrite List_spec. unfold names_list. case_bool_decide; [|done].
  destruct (requireSession ctx) as [session|e]; simpl; [|done]. f_equal.
  apply (stores_list_alike name_of); [done|intros n r Hr; by apply Ha|].
  intros r _. split; intros Hr; [by apply (Hs (key_of r))|by apply (Ha (name_of r))].
Qed.

Lemma implements_call c s a :
  implements s a → call_nul_free c →
  implements (secret_call c s).1 (names_call c a).1 ∧ (secret_call c s).2 = (names_call c a).2.
Proof.
  intros Hi Hc. rewrite secret_call_key_step.
  destruct c as [now ctx req|now ctx req|now ctx req|ctx req|ctx id]; simpl in Hc;
    [apply implements_step; [apply updates_keep_keys|tauto..]..| |]; simpl.
  - by rewrite (implements_list _ a).
  - unfold DeletePlugin. case_bool_decide as He; [by rewrite He|]. destruct (TrimSpace id) as [|ch id']; [done|].
    destruct (requireSession ctx) as [session|e]; simpl; [|done]. split; [|done].
    by apply implements_filter.
Qed.

Lemma implements_answers calls s a :
  implements s a → Forall call_nul_free calls →
  (answers secret_call calls s).2 = (answers names_call calls a).2.
Proof.
  intros Hi Hc. revert s a Hi. induction Hc as [|c calls Hc Hcs IH]; intros s a Hi; [done|]. simpl.
  destruct (implements_call c s a Hi Hc) as [Hi' Heq].
  destruct (secret_call c s) as [s' x], (names_call c a) as [a' x']. simpl in *. subst.
  specialize (IH s' a' Hi'). destruct (answers secret_call calls s'), (answers names_call calls a'). simpl in *. by subst.
Qed.

(** ** The theorems *)

(** The store after a history of calls. *)
Definition store_after (calls : list SecretCall) : SecretStore := (answers secret_call calls NewMemoryStore).1.

Lemma answers_wf calls s : secrets_wf s → secrets_wf (answers secret_call calls s).1.
Proof.
  revert s. induction calls as [|c calls IH]; intros s Hs; [done|]. simpl.
  pose proof (secret_call_wf c s Hs) as Hs'. destruct (secret_call c s) as [s' x]. simpl in Hs'.
  specialize (IH s' Hs'). by destruct (answers secret_call calls s').
Qed.

Lemma store_after_wf calls : secrets_wf (store_after calls).
Proof. apply answers_wf. intros k r Hr. unfold NewMemoryStore in Hr. by simplify_map_eq. Qed.

(** A call of a session that does not have the owner it changes in common
    with another session: their environments differ, or the call is about a
    secret of its user and the users differ. *)
Definition foreign (c : SecretCall) (session' : Context) : Prop :=
  match c with
  | CallBind _ ctx req | CallTest _ ctx req | CallDelete _ ctx req =>
     ∀ session, requireSession ctx = Ok session →
       sc_OwnerEnvHash session ≠ sc_OwnerEnvHash session' ∨
       TrimSpace (br_Scope req) = ScopeUser ∧ sc_OwnerUserHash session ≠ sc_OwnerUserHash session'
  | CallDeletePlugin ctx _ =>
     ∀ session, requireSession ctx = Ok session → sc_OwnerEnvHash session ≠ sc_OwnerEnvHash session'
  | CallList _ _ => True
  end.

Lemma foreign_invisible c s session' :
  secrets_wf s → foreign c session' →
  ∀ r, recordVisibleToSession r session' = true →
    s !! key_of r = Some r ↔ (secret_call c s).1 !! key_of r = Some r.
Proof.
  intros Hwf Hf r Hv. rewrite secret_call_key_step.
  destruct c as [now ctx req|now ctx req|now ctx req|ctx req|ctx id]; simpl in Hf;
    [eapply key_step_invisible; [apply updates_keep_keys|done| |done];
       intros session o q Hs Ht; destruct (Hf _ Hs) as [?|[Hu ?]]; [by left|]; right; split; [|done];
       apply secretTarget_ok in Ht as (? & _ & _ & -> & _ & _ & ->); done..|done|].
  unfold DeletePlugin. case_bool_decide; [done|]. destruct (requireSession ctx) as [session|e] eqn:Hs; [|done]. simpl.
  rewrite map_lookup_filter_Some. simpl. split; [|tauto]. intros Hr. split; [done|]. intros [He _].
  apply visible_owner in Hv as [Hv _]; [|by apply (Hwf (key_of r))]. by apply (Hf _ eq_refl); congruence.
Qed.

(** C17: The records of an owner are out of reach for others: whatever calls
    were made before, and whatever names they used, a call of one session
    leaves every listing of another session unchanged when the sessions belong
    to different environments, or to different users and the call is about a
    user's secret; and a listing shows only records of the session's user and
    environment. *)
Theorem secret_owner_isolation calls c ctx' session' req' :
  requireSession ctx' = Ok session' → foreign c session' →
  List ctx' req' (secret_call c (store_after calls)).1 = List ctx' req' (store_after calls) ∧
  ∀ l r, List ctx' req' (store_after calls) = Ok l → r ∈ l →
    sr_OwnerEnvHash r = sc_OwnerEnvHash session' ∧
    (sr_Scope r = ScopeEnvironment ∨ sr_Scope r = ScopeUser ∧ sr_OwnerUserHash r = sc_OwnerUserHash session').
Proof.
  intros Hs' Hf. pose proof (store_after_wf calls) as Hwf. rewrite !List_spec, Hs'. simpl. split.
  - case_bool_decide; [|done]. f_equal. symmetry. apply (stores_list_alike key_of); [done| |by apply foreign_invisible].
    intros k r Hr. by apply (secret_call_wf c _ Hwf).
  - case_bool_decide; [|done]. intros l r [= <-]. unfold sortRecords. rewrite merge_sort_elem_of, elem_of_session_records.
    intros [Hl _]. apply listed_visible in Hl. unfold recordVisibleToSession in Hl. case_bool_decide; [|done]. simpl in Hl.
    case_bool_decide; [by auto|]. go_bools. auto.
Qed.

(** For names without NUL bytes the store behaves as a table of records
    under the owner, the plugin and the reference of a secret: every history of
    calls gets the same answers, errors and listings included. *)
Theorem secret_store_refines_names calls :
  Forall call_nul_free calls →
  (answers secret_call calls NewMemoryStore).2 = (answers names_call calls ∅).2.
Proof. intros Hc. apply implements_answers; [apply implements_empty|done]. Qed.

(** With NUL bytes in the names two secrets of one owner can share a key: the
    first is bound, and a test of the second, which never was, passes. *)
Lemma nul_names_share_a_key now ctx session :
  requireSession ctx = Ok session → Context_Valid session = true →
  let one := mkBindRequest "a" ("b" +:+ nul +:+ "user" +:+ nul +:+ "c") ScopeUser in
  let two := mkBindRequest ("a" +:+ nul +:+ "user" +:+ nul +:+ "b") "c" ScopeUser in
  (TestSecretRef now ctx two (BindSecretRef now ctx one NewMemoryStore).1).2 = Ok tt.
Proof.
  intros Hs Hv one two. assert (∀ q, q = one ∨ q = two → secretTarget ctx q =
    Ok (mkResourceScope ScopeUser (sc_OwnerEnvHash session) (sc_OwnerUserHash session), q)) as Ht.
  { intros q [-> | ->]; unfold secretTarget, ownerForScope, normalizeRequest, one, two; simpl; rewrite Hs; simpl;
      rewrite Context_ResourceScope_user; done. }
  unfold TestSecretRef, BindSecretRef. rewrite !Ht by auto. cbn [fst].
  assert (∀ o, recordKey o two = recordKey o one) as -> by done. by rewrite lookup_insert_eq.
Qed.

Definition alice : GoCtx := mkGoCtx None (Some (mkContext "s1" "alice" "env1" "c1" true true)).
Definition bob : GoCtx := mkGoCtx None (Some (mkContext "s2" "bob" "env1" "c2" true true)).
Definition demo : list SecretCall :=
  [CallBind 5 alice (mkBindRequest "p1" "token" ScopeUser); CallBind 6 bob (mkBindRequest "p1" "token" ScopeUser);
   CallTest 7 alice (mkBindRequest " p1 " "token" ScopeUser); CallList alice (mkListRequest "" "" true);
   CallDelete 8 alice (mkBindRequest "p1" "token" ScopeUser); CallTest 9 alice (mkBindRequest "p1" "token" ScopeUser)].

Lemma secret_owner_isolation_witness :
  ∃ session', requireSession bob = Ok session' ∧
  foreign (CallDelete 8 alice (mkBindRequest "p1" "token" ScopeUser)) session' ∧
  List bob (mkListRequest "p1" "" true)
    (secret_call (CallDelete 8 alice (mkBindRequest "p1" "token" ScopeUser)) (store_after (take 4 demo))).1 =
  List bob (mkListRequest "p1" "" true) (store_after (take 4 demo)).
Proof.
  exists (mkContext "s2" "bob" "env1" "c2" true true).
  assert (requireSession bob = Ok (mkContext "s2" "bob" "env1" "c2" true true)) as Hb by reflexivity.
  assert (foreign (CallDelete 8 alice (mkBindRequest "p1" "token" ScopeUser)) (mkContext "s2" "bob" "env1" "c2" true true)) as Hf.
  { simpl. intros session [= <-]. right. by split. }
  split_and!; [done|done|].
  apply (secret_owner_isolation (take 4 demo) (CallDelete 8 alice (mkBindRequest "p1" "token" ScopeUser)) bob
           (mkContext "s2" "bob" "env1" "c2" true true) (mkListRequest "p1" "" true) Hb Hf).
Defined.

Lemma secret_store_refines_names_witness :
  Forall call_nul_free demo ∧
  (answers secret_call demo NewMemoryStore).2 = (answers names_call demo ∅).2 ∧
  (answers names_call demo ∅).2 !! 5 = Some (AnswerUnit (Err ErrInvalidSecretRef)).
Proof.
  assert (Forall call_nul_free demo) as Hd by (repeat constructor).
  split_and!; [done|apply (secret_store_refines_names demo Hd)|vm_compute; reflexivity].
Defined.
