(* ===== verification/Observability.v ===== *)
(** * Diagnostics ([pkg/observability/observability.go])

    The closed vocabulary of diagnostic events, the ring buffer that keeps the
    last of them, and the listing a session gets of its own. *)

From stdpp Require Import pretty.
From S2P Require Import Prelude GoLib SessionCtx Mutation.

Open Scope go_scope.

Definition defaultListLimit : Z := 100.
Definition maxListLimit : Z := 1000.
Definition defaultMaxEvents : Z := 4096.

Inductive ObsError :=
| ErrInvalidEvent
| ErrInvalidAuditDetails
| ErrInvalidDiagnosticSeverity
| ErrInvalidDiagnosticMessage
| ErrInvalidDiagnosticDetails
| ErrInvalidDiagnosticFailure
| ErrDiagnosticScopeRequired.

#[export] Instance ObsError_eq_dec : EqDecision ObsError.
Proof. solve_decision. Defined.

(** ** Stable values *)

(** [^[A-Za-z0-9][A-Za-z0-9._:-]{0,255}$] *)
Definition stableValuePattern (value : string) : bool :=
  match String.list_ascii_of_string value with
  | [] => false
  | c :: rest => isASCIIAlphaNumeric c && forallb ownerHashByte rest && (length rest <=? 255)
  end.

(** [^[A-Z][A-Z0-9_]{0,127}$] *)
Definition stableCodePattern (value : string) : bool :=
  match String.list_ascii_of_string value with
  | [] => false
  | c :: rest => byte_in 65 90 c && forallb (λ c, byte_in 65 90 c || byte_in 48 57 c || is_byte 95 c) rest &&
                 (length rest <=? 127)
  end.

Definition validStableValue (value : string) : bool :=
  bool_decide (value = TrimSpace value) && stableValuePattern value.

(** The members of an enumeration of strings. *)
Definition one_of (values : list string) (value : string) : bool := bool_decide (value ∈ values).

(** ** Failures *)

Definition FailureCode_Valid : string → bool :=
  one_of ["adapter_failure"; "owner_failure"; "scope_failure"; "action_failure"].

Definition runtimeProcessFailureCodes : list string :=
  ["RUNTIME_PROCESS_FAILED"; "RUNTIME_PROCESS_EXIT_UNEXPECTED"; "RUNTIME_PROCESS_EXIT_UNRECOGNIZED";
   "RUNTIME_PROCESS_SIGNALLED"; "IPC_WRITER_CAPACITY_OVERFLOW"; "IPC_WRITER_CAPACITY_LIMIT_EXCEEDED";
   "IPC_WRITER_START_FAILED"; "IPC_WRITER_CLOSED"; "IPC_WRITER_BATCH_SIZE_OVERFLOW"; "IPC_WRITER_WRITE_FAILED";
   "IPC_WRITER_FLUSH_FAILED"; "IPC_WRITER_PANICKED"].

Definition RuntimeProcessFailureCode_Valid : string → bool := one_of runtimeProcessFailureCodes.

Definition FailureComponent_Valid : string → bool :=
  one_of ["execution"; "http"; "lifecycle"; "runtime"; "secrets"; "security"].

Definition FailureOperation_Valid : string → bool :=
  one_of ["execution.retention_prune"; "execution.fail"; "execution.duration_persist"; "http.adapter";
          "lifecycle.operation"; "runtime.stop"; "runtime.revoke"; "runtime.process.stop"; "runtime.process.exit";
          "runtime.process.output"; "runtime.hostcall"; "runtime.ipc.invalidate"; "secrets.adapter";
          "security_event.persist"; "security_mutation.complete"; "security_audit.export"; "method.reject"].

Record Failure := mkFailure {
  fl_Code : string;
  fl_Component : string;
  fl_Operation : string;
}.

#[export] Instance Failure_eq_dec : EqDecision Failure.
Proof. solve_decision. Defined.

Definition FailureFromError (code component operation : string) (cause : option goerror) : Failure :=
  match cause with
  | None => mkFailure "" "" ""
  | Some _ => mkFailure code component operation
  end.

Definition Failure_Valid (f : Failure) : bool :=
  FailureCode_Valid (fl_Code f) && FailureComponent_Valid (fl_Component f) && FailureOperation_Valid (fl_Operation f).

Definition Failure_Empty (f : Failure) : bool := bool_decide (f = mkFailure "" "" "").

(** ** Package paths *)

(** The elements between the slashes of a path. *)
Fixpoint path_elements (s : list Ascii.ascii) : list (list Ascii.ascii) :=
  match s with
  | [] => [[]]
  | c :: s =>
     if is_byte 47 c then [] :: path_elements s
     else match path_elements s with
          | [] => [[c]]
          | e :: es => (c :: e) :: es
          end
  end.

Definition dot : list Ascii.ascii := [byte 46].
Definition dotdot : list Ascii.ascii := [byte 46; byte 46].

(** One element of a path that is not rooted; the elements kept so far are in
    reverse order. *)
Definition clean_element (out : list (list Ascii.ascii)) (e : list Ascii.ascii) : list (list Ascii.ascii) :=
  if bool_decide (e = []) || bool_decide (e = dot) then out
  else if bool_decide (e = dotdot) then
    match out with
    | e' :: out' => if bool_decide (e' = dotdot) then e :: out else out'
    | [] => [e]
    end
  else e :: out.

Fixpoint join_elements (es : list (list Ascii.ascii)) : list Ascii.ascii :=
  match es with
  | [] => []
  | [e] => e
  | e :: es => e ++ byte 47 :: join_elements es
  end.

(** [path.Clean] of a path without a leading slash. *)
Definition Clean (value : string) : string :=
  match foldl clean_element [] (path_elements (String.list_ascii_of_string value)) with
  | [] => "."
  | out => String.string_of_list_ascii (join_elements (reverse out))
  end.

Definition has_prefix (prefix s : string) : bool := String.prefix prefix s.

Definition validPackageRelativePath (value : string) : bool :=
  if bool_decide (value = "") || (512 <? len value)%Z ||
     existsb (λ c, is_byte 92 c || is_byte 63 c || is_byte 35 c) (String.list_ascii_of_string value) ||
     has_prefix "/" value
  then false
  else
    let cleaned := Clean value in
    bool_decide (cleaned = value) && negb (bool_decide (cleaned = ".")) && negb (bool_decide (cleaned = "..")) &&
    negb (has_prefix "../" cleaned).

(** ** Diagnostic events *)

Record DiagnosticDetails := mkDiagnosticDetails {
  dd_ExecutionsDeleted : Z;
  dd_InvocationID : string;
  dd_Method : string;
  dd_FailureCode : string;
  dd_RuntimeProcessFailureCode : string;
  dd_ExecutionID : string;
  dd_RuntimeInstanceID : string;
  dd_RuntimeGenerationID : string;
  dd_RuntimeVersion : string;
  dd_RuntimeTargetOS : string;
  dd_RuntimeTargetArch : string;
  dd_RuntimeBinarySHA256 : string;
  dd_OS : string;
  dd_Arch : string;
  dd_Stream : string;
  dd_PackageHash : string;
  dd_Artifact : string;
  dd_PluginInstanceID : string;
  dd_StoreID : string;
  dd_Operation : string;
  dd_Hostcall : string;
  dd_Code : string;
  dd_ConnectorID : string;
  dd_Transport : string;
  dd_RevokeEpoch : Z;
  dd_StageID : string;
  dd_Reason : string;
  dd_SurfaceInstanceID : string;
}.

#[export] Instance DiagnosticDetails_eq_dec : EqDecision DiagnosticDetails.
Proof. solve_decision. Defined.

(** [value != "" && !validStableValue(value)] for none of the values. *)
Definition stable_or_empty (values : list string) : bool :=
  forallb (λ value, bool_decide (value = "") || validStableValue value) values.

Definition DiagnosticDetails_Valid (d : DiagnosticDetails) : bool :=
  if (dd_ExecutionsDeleted d <? 0)%Z || (MaxSafeInteger <? dd_ExecutionsDeleted d)%Z ||
     (MaxSafeInteger <? dd_RevokeEpoch d)%Z then false
  else if negb (stable_or_empty
    [dd_InvocationID d; dd_Method d; dd_FailureCode d; dd_ExecutionID d; dd_RuntimeInstanceID d;
     dd_RuntimeGenerationID d; dd_RuntimeVersion d; dd_RuntimeTargetOS d; dd_RuntimeTargetArch d;
     dd_RuntimeBinarySHA256 d; dd_OS d; dd_Arch d; dd_Stream d; dd_PackageHash d; dd_PluginInstanceID d; dd_StoreID d;
     dd_Operation d; dd_Hostcall d; dd_ConnectorID d; dd_Transport d; dd_StageID d; dd_Reason d; dd_SurfaceInstanceID d])
  then false
  else if negb (bool_decide (dd_Code d = "")) && negb (stableCodePattern (dd_Code d)) then false
  else if negb (bool_decide (dd_RuntimeProcessFailureCode d = "")) &&
          negb (RuntimeProcessFailureCode_Valid (dd_RuntimeProcessFailureCode d)) then false
  else bool_decide (dd_Artifact d = "") || validPackageRelativePath (dd_Artifact d).

Definition DiagnosticSeverityInfo : string := "info".
Definition DiagnosticSeverityWarning : string := "warning".

Definition DiagnosticSeverity_Valid (severity : string) : bool :=
  bool_decide (severity = DiagnosticSeverityInfo) || bool_decide (severity = DiagnosticSeverityWarning).

Definition normalizeDiagnosticSeverity (severity : string) : Result ObsError string :=
  let normalized := TrimSpace severity in
  guard! DiagnosticSeverity_Valid normalized else ErrInvalidDiagnosticSeverity in Ok normalized.

Definition normalizeOptionalDiagnosticSeverity (severity : string) : Result ObsError string :=
  if bool_decide (TrimSpace severity = "") then Ok "" else normalizeDiagnosticSeverity severity.

(** The cases of [validDiagnosticPresentation]. *)
Definition presentations : list (string * string * string) :=
  [("plugin.csp.violation", "info", "plugin content security policy violation");
   ("plugin.execution.retention_pruned", "info", "terminal operation and stream retention was pruned");
   ("plugin.execution.retention_prune_failed", "warning", "terminal execution retention pruning failed");
   ("plugin.execution.failed", "warning", "execution failed");
   ("plugin.execution.duration_terminal_failed", "warning", "duration quota terminal state could not be persisted");
   ("plugin.install_stage.commit_failed", "warning", "plugin install stage commit failed");
   ("plugin.method.rejected", "warning", "plugin method was rejected");
   ("plugin.runtime.prewarmed", "info", "startup worker modules prepared");
   ("plugin.runtime.prewarm_failed", "warning", "startup worker catalog could not be read");
   ("plugin.runtime.prewarm_failed", "warning", "startup worker runtime could not be prepared");
   ("plugin.runtime.prewarm_failed", "warning", "startup worker module could not be prepared");
   ("plugin.runtime.stop_failed", "warning", "plugin runtime stop failed");
   ("plugin.runtime.warning", "warning", "runtime warning");
   ("plugin.runtime_capabilities.revoke_failed", "warning", "plugin runtime capability revocation failed");
   ("plugin.runtime_state.refresh_failed", "warning", "plugin runtime state refresh failed");
   ("plugin.secret.adapter_failed", "warning", "secret adapter operation failed");
   ("plugin.security_audit.export_failed", "warning", "security audit export failed");
   ("plugin.security_event.persistence_failed", "warning", "security event persistence failed");
   ("plugin.http.operation_failed", "warning", "plugin HTTP operation failed");
   ("plugin.surface.renderer_error", "warning", "plugin surface renderer failed");
   ("plugin.runtime.process.started", "info", "runtime process started");
   ("plugin.runtime.process.cleanup_timeout", "warning", "runtime process did not exit after failed handshake");
   ("plugin.runtime.ipc.handshake", "info", "runtime IPC handshake completed");
   ("plugin.runtime.lease.signature_rejected", "warning", "runtime execution lease signature was rejected");
   ("plugin.runtime.lease.replayed", "warning", "runtime execution lease was already consumed");
   ("plugin.runtime.process.stopped", "info", "runtime process stopped");
   ("plugin.runtime.process.exited", "info", "runtime process exited");
   ("plugin.runtime.process.exited", "warning", "runtime process exited with error");
   ("plugin.runtime.process.stdout", "info", "runtime process wrote to stdout");
   ("plugin.runtime.process.stderr", "warning", "runtime process wrote to stderr");
   ("plugin.runtime.process.stdout.error", "warning", "runtime process output could not be read");
   ("plugin.runtime.process.stderr.error", "warning", "runtime process output could not be read");
   ("plugin.runtime.hostcall.failed", "warning", "runtime hostcall failed");
   ("plugin.runtime.ipc.invalidated", "warning", "runtime IPC channel was invalidated");
   ("plugin.background.failed", "warning", "plugin background worker stopped unexpectedly");
   ("plugin.process.starting", "info", "plugin process is starting");
   ("plugin.process.started", "info", "plugin process started");
   ("plugin.process.exited", "info", "plugin process exited");
   ("plugin.process.stream_gap", "warning", "plugin process output buffer overflowed");
   ("plugin.process.operation_failed", "warning", "plugin process operation failed")].

Definition validDiagnosticPresentation (eventType severity message : string) : bool :=
  bool_decide ((eventType, severity, message) ∈ presentations).

Record DiagnosticEvent := mkDiagnosticEvent {
  de_EventID : string;
  de_Type : string;
  de_Severity : string;
  de_Message : string;
  de_PluginID : string;
  de_PluginInstanceID : string;
  de_SurfaceID : string;
  de_SurfaceInstanceID : string;
  de_ActiveFingerprint : string;
  de_RequestID : string;
  de_CorrelationID : string;
  de_MutationOutcome : Outcome;
  de_OwnerSessionHash : string;
  de_OwnerUserHash : string;
  de_OwnerEnvHash : string;
  de_SessionChannelIDHash : string;
  de_OccurredAt : time;
  de_Details : DiagnosticDetails;
  de_Failure : Failure;
}.

#[export] Instance DiagnosticEvent_eq_dec : EqDecision DiagnosticEvent.
Proof. solve_decision. Defined.

Definition validMutationOutcome (outcome : Outcome) : bool :=
  bool_decide (outcome = OutcomeCommitted) || bool_decide (outcome = OutcomeNotCommitted) ||
  bool_decide (outcome = OutcomeUnknown).

Definition ValidateDiagnosticEvent (event : DiagnosticEvent) : Result ObsError unit :=
  guard! negb (bool_decide (de_Type event = "")) else ErrInvalidEvent in
  guard! match normalizeDiagnosticSeverity (de_Severity event) with
         | Ok severity => bool_decide (severity = de_Severity event)
         | Err _ => false
         end else ErrInvalidDiagnosticSeverity in
  guard! validDiagnosticPresentation (de_Type event) (de_Severity event) (de_Message event)
    else ErrInvalidDiagnosticMessage in
  guard! stable_or_empty
    [de_EventID event; de_PluginID event; de_PluginInstanceID event; de_SurfaceID event; de_SurfaceInstanceID event;
     de_ActiveFingerprint event; de_RequestID event; de_CorrelationID event; de_OwnerSessionHash event;
     de_OwnerUserHash event; de_OwnerEnvHash event; de_SessionChannelIDHash event] else ErrInvalidEvent in
  guard! negb (IsZero (de_OccurredAt event)) else ErrInvalidEvent in
  guard! bool_decide (de_MutationOutcome event = "") || validMutationOutcome (de_MutationOutcome event)
    else ErrInvalidEvent in
  guard! DiagnosticDetails_Valid (de_Details event) else ErrInvalidDiagnosticDetails in
  guard! Failure_Empty (de_Failure event) || Failure_Valid (de_Failure event) else ErrInvalidDiagnosticFailure in
  Ok tt.

(** The event with its texts trimmed and its time filled in; [now] is the
    answer of the store's clock. *)
Definition trimmedDiagnosticEvent (now : time) (event : DiagnosticEvent) : DiagnosticEvent := {|
  de_EventID := TrimSpace (de_EventID event);
  de_Type := TrimSpace (de_Type event);
  de_Severity := de_Severity event;
  de_Message := TrimSpace (de_Message event);
  de_PluginID := TrimSpace (de_PluginID event);
  de_PluginInstanceID := TrimSpace (de_PluginInstanceID event);
  de_SurfaceID := TrimSpace (de_SurfaceID event);
  de_SurfaceInstanceID := TrimSpace (de_SurfaceInstanceID event);
  de_ActiveFingerprint := TrimSpace (de_ActiveFingerprint event);
  de_RequestID := TrimSpace (de_RequestID event);
  de_CorrelationID := TrimSpace (de_CorrelationID event);
  de_MutationOutcome := de_MutationOutcome event;
  de_OwnerSessionHash := TrimSpace (de_OwnerSessionHash event);
  de_OwnerUserHash := TrimSpace (de_OwnerUserHash event);
  de_OwnerEnvHash := TrimSpace (de_OwnerEnvHash event);
  de_SessionChannelIDHash := TrimSpace (de_SessionChannelIDHash event);
  de_OccurredAt := if IsZero (de_OccurredAt event) then now else de_OccurredAt event;
  de_Details := de_Details event;
  de_Failure := mkFailure (fl_Code (de_Failure event)) (fl_Component (de_Failure event))
                  (TrimSpace (fl_Operation (de_Failure event)))
|}.

Definition normalizeDiagnosticEvent (event : DiagnosticEvent) (now : time) : Result ObsError DiagnosticEvent :=
  let event := trimmedDiagnosticEvent now event in
  let? _ := ValidateDiagnosticEvent event in Ok event.

(** ** The ring of the last events *)

Section ring.
Context {T : Type}.

Record fixedRing := mkRing { fr_values : list T; fr_start : nat; fr_count : nat }.

(** [zero] is the zero value of the element type, with which [make] fills. *)
Definition newFixedRing (zero : T) (capacity : Z) : fixedRing :=
  let capacity := if (capacity <=? 0)%Z then defaultMaxEvents else capacity in
  mkRing (replicate (Z.to_nat capacity) zero) 0 0.

Definition Push (value : T) (r : fixedRing) : fixedRing :=
  let n := length (fr_values r) in
  if n =? 0 then r
  else if fr_count r <? n then
    mkRing (<[(fr_start r + fr_count r) `mod` n := value]> (fr_values r)) (fr_start r) (S (fr_count r))
  else mkRing (<[fr_start r := value]> (fr_values r)) ((fr_start r + 1) `mod` n) (fr_count r).

(** The read [values[(start+index)%len(values)]] of every index below the count. *)
Definition Snapshot (r : fixedRing) : list T :=
  omap (λ index, fr_values r !! ((fr_start r + index) `mod` length (fr_values r))) (seq 0 (fr_count r)).

Definition Len (r : fixedRing) : nat := fr_count r.
End ring.

Arguments fixedRing : clear implicits.

(** ** The store of diagnostics *)

(** [strconv.FormatUint] with zeros on the left. *)
Definition leftPadUint (value : Z) (width : nat) : string :=
  let text := pretty value in
  String.string_of_list_ascii (replicate (width - String.length text) (byte 48)) +:+ text.

Definition eventID (prefix : string) (seq : Z) : string := prefix +:+ "_" +:+ leftPadUint seq 12.

Definition normalizeLimit (limit : Z) : Z :=
  if (limit <=? 0)%Z then defaultListLimit else if (maxListLimit <? limit)%Z then maxListLimit else limit.

Record ListDiagnosticRequest := mkListDiagnosticRequest {
  ld_PluginID : string;
  ld_PluginInstanceID : string;
  ld_SurfaceInstanceID : string;
  ld_OwnerSessionHash : string;
  ld_OwnerUserHash : string;
  ld_OwnerEnvHash : string;
  ld_SessionChannelIDHash : string;
  ld_Type : string;
  ld_Severity : string;
  ld_Limit : Z;
}.

(** The diagnostic fields of [MemoryStore]. *)
Record DiagnosticStore := mkDiagnosticStore {
  ds_nextDiagnosticSeq : Z;
  ds_diagnosticEvents : fixedRing DiagnosticEvent;
}.

Definition zeroDetails : DiagnosticDetails :=
  mkDiagnosticDetails 0 "" "" "" "" "" "" "" "" "" "" "" "" "" "" "" "" "" "" "" "" "" "" "" 0 "" "" "".
Definition zeroEvent : DiagnosticEvent :=
  mkDiagnosticEvent "" "" "" "" "" "" "" "" "" "" "" "" "" "" "" "" 0 zeroDetails (mkFailure "" "" "").

Definition NewDiagnosticStore (maxDiagnosticEvents : Z) : DiagnosticStore :=
  let maxDiagnosticEvents := if (maxDiagnosticEvents <=? 0)%Z then defaultMaxEvents else maxDiagnosticEvents in
  mkDiagnosticStore 0 (newFixedRing zeroEvent maxDiagnosticEvents).

Definition set_EventID (id : string) (e : DiagnosticEvent) : DiagnosticEvent :=
  mkDiagnosticEvent id (de_Type e) (de_Severity e) (de_Message e) (de_PluginID e) (de_PluginInstanceID e)
    (de_SurfaceID e) (de_SurfaceInstanceID e) (de_ActiveFingerprint e) (de_RequestID e) (de_CorrelationID e)
    (de_MutationOutcome e) (de_OwnerSessionHash e) (de_OwnerUserHash e) (de_OwnerEnvHash e)
    (de_SessionChannelIDHash e) (de_OccurredAt e) (de_Details e) (de_Failure e).

Definition AppendPluginDiagnostic (now : time) (event : DiagnosticEvent) (s : DiagnosticStore) :
    DiagnosticStore * Result ObsError unit :=
  match normalizeDiagnosticEvent event now with
  | Err e => (s, Err e)
  | Ok event =>
     let seq := incr64 (ds_nextDiagnosticSeq s) in
     let event := if bool_decide (TrimSpace (de_EventID event) = "") then set_EventID (eventID "diagnostic" seq) event
                  else event in
     (mkDiagnosticStore seq (Push event (ds_diagnosticEvents s)), Ok tt)
  end.

(** [publicDiagnosticEvent]: the event without its failure. *)
Definition publicDiagnosticEvent (e : DiagnosticEvent) : DiagnosticEvent :=
  mkDiagnosticEvent (de_EventID e) (de_Type e) (de_Severity e) (de_Message e) (de_PluginID e) (de_PluginInstanceID e)
    (de_SurfaceID e) (de_SurfaceInstanceID e) (de_ActiveFingerprint e) (de_RequestID e) (de_CorrelationID e)
    (de_MutationOutcome e) (de_OwnerSessionHash e) (de_OwnerUserHash e) (de_OwnerEnvHash e)
    (de_SessionChannelIDHash e) (de_OccurredAt e) (de_Details e) (mkFailure "" "" "").

Definition diagnosticOwnerScope (req : ListDiagnosticRequest) : Result ObsError (string * string * string * string) :=
  let ownerSessionHash := TrimSpace (ld_OwnerSessionHash req) in
  let ownerUserHash := TrimSpace (ld_OwnerUserHash req) in
  let ownerEnvHash := TrimSpace (ld_OwnerEnvHash req) in
  let sessionChannelIDHash := TrimSpace (ld_SessionChannelIDHash req) in
  if bool_decide (ownerSessionHash = "") || bool_decide (ownerUserHash = "") || bool_decide (ownerEnvHash = "") ||
     bool_decide (sessionChannelIDHash = "")
  then Err ErrDiagnosticScopeRequired
  else Ok (ownerSessionHash, ownerUserHash, ownerEnvHash, sessionChannelIDHash).

(** The order of [sortDiagnosticEventsNewestFirst]: later first, and at one
    time the greater identifier first. [sort.Slice] leaves the order of events
    that agree in both open; here they keep theirs. *)
Definition newest_key (e : DiagnosticEvent) : Z * string := (de_OccurredAt e, de_EventID e).
Definition newer (x y : Z * string) : Prop := lex Z.le String.le y x.

#[export] Instance newer_dec : RelDecision newer.
Proof. intros x y. unfold newer. apply _. Defined.

Definition sortDiagnosticEventsNewestFirst (events : list DiagnosticEvent) : list DiagnosticEvent :=
  merge_sort (λ x y, newer (newest_key x) (newest_key y)) events.

(** The tests of the loop: an empty filter admits everything. *)
Definition admits (wanted actual : string) : bool := bool_decide (wanted = "") || bool_decide (actual = wanted).

Definition diagnosticListed (req : ListDiagnosticRequest) (scope : string * string * string * string)
    (severity : string) (event : DiagnosticEvent) : bool :=
  let '(ownerSessionHash, ownerUserHash, ownerEnvHash, sessionChannelIDHash) := scope in
  admits (TrimSpace (ld_PluginID req)) (de_PluginID event) &&
  admits (TrimSpace (ld_PluginInstanceID req)) (de_PluginInstanceID event) &&
  admits (TrimSpace (ld_SurfaceInstanceID req)) (de_SurfaceInstanceID event) &&
  bool_decide (de_OwnerSessionHash event = ownerSessionHash) &&
  bool_decide (de_OwnerUserHash event = ownerUserHash) &&
  bool_decide (de_OwnerEnvHash event = ownerEnvHash) &&
  bool_decide (de_SessionChannelIDHash event = sessionChannelIDHash) &&
  admits (TrimSpace (ld_Type req)) (de_Type event) &&
  admits severity (de_Severity event).

Definition ListPluginDiagnostics (req : ListDiagnosticRequest) (s : DiagnosticStore) :
    Result ObsError (list DiagnosticEvent) :=
  let limit := normalizeLimit (ld_Limit req) in
  let? scope := diagnosticOwnerScope req in
  let? severity := normalizeOptionalDiagnosticSeverity (ld_Severity req) in
  let events := map publicDiagnosticEvent
    (List.filter (diagnosticListed req scope severity) (Snapshot (ds_diagnosticEvents s))) in
  Ok (take (Z.to_nat limit) (sortDiagnosticEventsNewestFirst events)).
