(* ===== verification/ObservabilityProps.v ===== *)
(** * Diagnostics: the ring keeps the last events, the listing is exact *)

From S2P Require Import Prelude GoLib SessionCtx Mutation Observability.

Open Scope go_scope.

(** ** The ring *)

(** The last [n] elements of a list. *)
Definition lastn {A} (n : nat) (l : list A) : list A := drop (length l - n) l.

Lemma lastn_snoc {A} n (l : list A) x : lastn (S n) (l ++ [x]) = lastn n l ++ [x].
Proof.
  unfold lastn. rewrite length_app. simpl. replace (length l + 1 - S n) with (length l - n) by lia.
  rewrite drop_app_le by lia. done.
Qed.

Lemma lastn_lastn_app {A} n (l k : list A) : lastn n (lastn n l ++ k) = lastn n (l ++ k).
Proof.
  unfold lastn. rewrite !length_app, length_drop. destruct (decide (length l ≤ n)) as [Hle|Hgt].
  - replace (length l - n) with 0 by lia. rewrite drop_0. f_equal. lia.
  - destruct (decide (length k ≤ n)) as [Hk|Hk].
    + rewrite drop_app_le by (rewrite length_drop; lia). rewrite drop_drop.
      rewrite drop_app_le by lia. do 2 f_equal. lia.
    + rewrite !drop_app_ge by (rewrite ?length_drop; lia). f_equal. rewrite length_drop. lia.
Qed.

Lemma mod_window s i j n : i < n → j < n → (s + i) `mod` n = (s + j) `mod` n → i = j.
Proof.
  intros Hi Hj Heq. pose proof (Nat.div_mod_eq (s + i) n) as H1. pose proof (Nat.div_mod_eq (s + j) n) as H2.
  rewrite Heq in H1. assert ((s + i) / n = (s + j) / n ∨ (s + i) / n < (s + j) / n ∨ (s + j) / n < (s + i) / n) as
    [He|[Hl|Hl]] by lia; nia.
Qed.

Section ring.
Context {T : Type}.
Implicit Types (r : fixedRing T) (v : T).

Definition ring_wf r : Prop :=
  0 < length (fr_values r) ∧ fr_start r < length (fr_values r) ∧ fr_count r ≤ length (fr_values r).

Lemma lookup_omap_total {A B} (f : A → option B) (l : list A) i :
  (∀ x, x ∈ l → is_Some (f x)) → omap f l !! i = l !! i ≫= f.
Proof.
  revert i. induction l as [|x l IH]; intros i Hf; [done|]. csimpl.
  destruct (Hf x) as [y Hy]; [by left|]. rewrite Hy. destruct i as [|i]; simpl; [done|].
  apply IH. intros z Hz. apply Hf. by right.
Qed.

Lemma Snapshot_lookup r i :
  ring_wf r → Snapshot r !! i =
    if decide (i < fr_count r) then fr_values r !! ((fr_start r + i) `mod` length (fr_values r)) else None.
Proof.
  intros (Hn & Hs & Hc). unfold Snapshot. rewrite lookup_omap_total.
  - case_decide.
    + by rewrite lookup_seq_lt by lia.
    + by rewrite lookup_seq_ge by lia.
  - intros x _. apply lookup_lt_is_Some, Nat.mod_upper_bound. lia.
Qed.

Lemma Snapshot_length r : ring_wf r → length (Snapshot r) = fr_count r.
Proof.
  intros Hr. apply Nat.le_antisymm.
  - apply lookup_ge_None. rewrite Snapshot_lookup by done. case_decide; [lia|done].
  - destruct (decide (fr_count r = 0)) as [->|Hne]; [lia|]. assert (fr_count r - 1 < length (Snapshot r)); [|lia].
    apply lookup_lt_is_Some. rewrite Snapshot_lookup by done. case_decide; [|lia].
    destruct Hr as (? & ? & ?). apply lookup_lt_is_Some, Nat.mod_upper_bound. lia.
Qed.

Lemma Push_wf v r : ring_wf r → ring_wf (Push v r) ∧ length (fr_values (Push v r)) = length (fr_values r).
Proof.
  intros (Hn & Hs & Hc). unfold Push, ring_wf. destruct (Nat.eqb_spec (length (fr_values r)) 0); [lia|].
  destruct (Nat.ltb_spec (fr_count r) (length (fr_values r))); simpl; rewrite length_insert;
    pose proof (Nat.mod_upper_bound (fr_start r + 1) (length (fr_values r))); lia.
Qed.

(** A push into the ring drops the oldest element of a full ring only. *)
Lemma Push_Snapshot v r :
  ring_wf r → Snapshot (Push v r) = lastn (length (fr_values r)) (Snapshot r ++ [v]).
Proof.
  intros Hr. pose proof (Push_wf v r Hr) as [Hw Hlen]. pose proof Hr as (Hn & Hs & Hc).
  apply list_eq. intros i. rewrite Snapshot_lookup, Hlen by done. unfold lastn.
  rewrite lookup_drop, length_app, Snapshot_length by done. simpl.
  unfold Push in *. destruct (Nat.eqb_spec (length (fr_values r)) 0); [lia|].
  destruct (Nat.ltb_spec (fr_count r) (length (fr_values r))) as [Hlt|Hge]; simpl.
  - replace (fr_count r + 1 - length (fr_values r)) with 0 by lia. simpl. case_decide as Hi.
    + destruct (decide (i = fr_count r)) as [->|Hne].
      * rewrite list_lookup_insert_eq by (apply Nat.mod_upper_bound; lia).
        rewrite lookup_app_r, Snapshot_length, Nat.sub_diag by (rewrite ?Snapshot_length; done). done.
      * rewrite list_lookup_insert_ne by (intros Heq%mod_window; lia).
        rewrite lookup_app_l, Snapshot_lookup by (rewrite ?Snapshot_length; [lia|done..] || done).
        rewrite decide_True by lia. done.
    + symmetry. apply lookup_ge_None. rewrite length_app, Snapshot_length by done. simpl. lia.
  - assert (fr_count r = length (fr_values r)) as Hcn by lia. rewrite Hcn.
    replace (length (fr_values r) + 1 - length (fr_values r)) with 1 by lia. rewrite Nat.Div0.add_mod_idemp_l.
    case_decide as Hi.
    + destruct (decide (i = length (fr_values r) - 1)) as [->|Hne].
      * replace (fr_start r + 1 + (length (fr_values r) - 1)) with (fr_start r + 1 * length (fr_values r)) by lia.
        rewrite Nat.Div0.mod_add, Nat.mod_small by done. rewrite list_lookup_insert_eq by done.
        rewrite lookup_app_r by (rewrite Snapshot_length by done; lia). rewrite Snapshot_length by done.
        by replace (1 + (length (fr_values r) - 1) - fr_count r) with 0 by lia.
      * rewrite list_lookup_insert_ne.
        -- rewrite lookup_app_l by (rewrite Snapshot_length by done; lia).
           rewrite Snapshot_lookup, decide_True by (done || lia). do 2 f_equal. lia.
        -- intros Heq. assert (1 + i = 0); [|lia]. apply (mod_window (fr_start r) _ _ (length (fr_values r))); [lia..|].
           rewrite Nat.add_0_r, (Nat.mod_small (fr_start r)) by done. rewrite Heq at 2. f_equal. lia.
    + symmetry. apply lookup_ge_None. rewrite length_app, Snapshot_length by done. simpl. lia.
Qed.
End ring.

Lemma newFixedRing_wf {T} (zero : T) c :
  ring_wf (newFixedRing zero c) ∧
  length (fr_values (newFixedRing zero c)) = Z.to_nat (if (c <=? 0)%Z then defaultMaxEvents else c) ∧
  Snapshot (newFixedRing zero c) = [].
Proof.
  unfold newFixedRing, ring_wf. cbn [fr_values fr_start fr_count]. rewrite length_replicate.
  assert (0 < Z.to_nat (if (c <=? 0)%Z then defaultMaxEvents else c)).
  { unfold defaultMaxEvents. destruct (Z.leb_spec c 0); lia. }
  split_and!; [lia..|done].
Qed.

(** ** Histories of diagnostics *)

(** The events a history of appends stores, in their order: the valid ones,
    normalised and with an identifier. *)
Definition stored (seq : Z) (event : DiagnosticEvent) : DiagnosticEvent :=
  if bool_decide (TrimSpace (de_EventID event) = "") then set_EventID (eventID "diagnostic" seq) event else event.

Fixpoint accepted (seq : Z) (history : list (time * DiagnosticEvent)) : list DiagnosticEvent :=
  match history with
  | [] => []
  | (now, event) :: history =>
     match normalizeDiagnosticEvent event now with
     | Err _ => accepted seq history
     | Ok event => stored (incr64 seq) event :: accepted (incr64 seq) history
     end
  end.

Fixpoint append_all (history : list (time * DiagnosticEvent)) (s : DiagnosticStore) : DiagnosticStore :=
  match history with
  | [] => s
  | (now, event) :: history => append_all history (AppendPluginDiagnostic now event s).1
  end.

Lemma append_all_ring history s n :
  ring_wf (ds_diagnosticEvents s) → length (fr_values (ds_diagnosticEvents s)) = n →
  length (Snapshot (ds_diagnosticEvents s)) ≤ n →
  Snapshot (ds_diagnosticEvents (append_all history s)) =
  lastn n (Snapshot (ds_diagnosticEvents s) ++ accepted (ds_nextDiagnosticSeq s) history).
Proof.
  revert s. induction history as [|[now event] history IH]; intros s Hw Hn Hl; simpl.
  - rewrite app_nil_r. unfold lastn. by replace (_ - n) with 0 by lia.
  - unfold AppendPluginDiagnostic. destruct (normalizeDiagnosticEvent event now) as [event'|e]; simpl; [|by apply IH].
    fold (stored (incr64 (ds_nextDiagnosticSeq s)) event').
    destruct (Push_wf (stored (incr64 (ds_nextDiagnosticSeq s)) event') _ Hw) as [Hw' Hlen].
    rewrite IH; simpl; [|done|by rewrite Hlen|].
    + rewrite Push_Snapshot, Hn by done. rewrite lastn_lastn_app, <- app_assoc. done.
    + rewrite Snapshot_length by done. destruct Hw' as (_ & _ & ?). lia.
Qed.

(** ** The closed vocabulary *)

Definition public_ok (e : DiagnosticEvent) : Prop :=
  (de_Type e, de_Severity e, de_Message e) ∈ presentations ∧ DiagnosticDetails_Valid (de_Details e) = true ∧
  de_OccurredAt e ≠ 0%Z.

Lemma stored_ok seq history e : e ∈ accepted seq history → public_ok e.
Proof.
  revert seq. induction history as [|[now event] history IH]; intros seq; simpl; [set_solver|].
  destruct (normalizeDiagnosticEvent event now) as [event'|err] eqn:Hn; [|apply IH].
  rewrite elem_of_cons. intros [->|Hin]; [|by eapply IH].
  unfold normalizeDiagnosticEvent in Hn. rewrite rbind_ok in Hn. destruct Hn as ([] & Hv & [= <-]).
  unfold ValidateDiagnosticEvent in Hv. rewrite !guard_ok in Hv. destruct Hv as (_ & _ & Hp & _ & Hz & _ & Hd & _).
  unfold validDiagnosticPresentation in Hp. apply bool_decide_eq_true in Hp. unfold IsZero in Hz.
  apply negb_true_iff, Z.eqb_neq in Hz. unfold stored. case_bool_decide; done.
Qed.

(** ** The listing *)

Definition diagnostics_after (max : Z) (history : list (time * DiagnosticEvent)) : DiagnosticStore :=
  append_all history (NewDiagnosticStore max).

Definition capacity (max : Z) : nat := Z.to_nat (if (max <=? 0)%Z then defaultMaxEvents else max).

Lemma diagnostics_after_snapshot max history :
  Snapshot (ds_diagnosticEvents (diagnostics_after max history)) = lastn (capacity max) (accepted 0 history).
Proof.
  unfold diagnostics_after, NewDiagnosticStore.
  set (cap := if (max <=? 0)%Z then defaultMaxEvents else max).
  destruct (newFixedRing_wf zeroEvent cap) as (Hw & Hlen & Hs).
  assert ((if (cap <=? 0)%Z then defaultMaxEvents else cap) = cap) as Hcap.
  { unfold cap, defaultMaxEvents. destruct (Z.leb_spec max 0); [done|]. by destruct (Z.leb_spec max 0); [lia|]. }
  rewrite Hcap in Hlen.
  rewrite (append_all_ring history _ (capacity max)); cbn [ds_diagnosticEvents ds_nextDiagnosticSeq];
    [by rewrite Hs|done|done|rewrite Hs; simpl; lia].
Qed.

#[export] Instance newer_total : Total newer.
Proof. intros x y. unfold newer. destruct (total (lex Z.le String.le) x y); auto. Qed.

Lemma newest_first_sorted events :
  sortDiagnosticEventsNewestFirst events ≡ₚ events ∧
  Sorted (λ x y, newer (newest_key x) (newest_key y)) (sortDiagnosticEventsNewestFirst events).
Proof.
  split; [apply merge_sort_Permutation|]. apply Sorted_merge_sort. intros x y. apply total, _.
Qed.

Lemma normalizeLimit_bounds limit : (1 ≤ normalizeLimit limit ≤ maxListLimit)%Z.
Proof. unfold normalizeLimit, defaultListLimit, maxListLimit. repeat case_match; go_bools; lia. Qed.

(** A request whose four owner hashes are given and whose severity is empty or known. *)
Definition complete_request (req : ListDiagnosticRequest) (scope : string * string * string * string) (severity : string) : Prop :=
  scope = (TrimSpace (ld_OwnerSessionHash req), TrimSpace (ld_OwnerUserHash req), TrimSpace (ld_OwnerEnvHash req),
           TrimSpace (ld_SessionChannelIDHash req)) ∧
  severity = TrimSpace (ld_Severity req) ∧
  Forall (λ h, TrimSpace h ≠ "") [ld_OwnerSessionHash req; ld_OwnerUserHash req; ld_OwnerEnvHash req; ld_SessionChannelIDHash req] ∧
  severity ∈ [""; DiagnosticSeverityInfo; DiagnosticSeverityWarning].

Lemma request_checks req scope severity :
  diagnosticOwnerScope req = Ok scope ∧ normalizeOptionalDiagnosticSeverity (ld_Severity req) = Ok severity ↔
  complete_request req scope severity.
Proof.
  unfold diagnosticOwnerScope, normalizeOptionalDiagnosticSeverity, normalizeDiagnosticSeverity, DiagnosticSeverity_Valid, complete_request.
  rewrite !Forall_cons, !elem_of_cons. split.
  - intros [Hs Hv]. match type of Hs with (if ?b then _ else _) = _ => destruct b eqn:Hb; [done|] end. rewrite !orb_false_iff, !bool_decide_eq_false in Hb. simplify_eq.
    case_bool_decide as He; [by rewrite He; simplify_eq; intuition|].
    rewrite guard_ok, orb_true_iff, !bool_decide_eq_true in Hv. destruct Hv as [Hv [= <-]]. intuition.
  - intros (-> & -> & (H1 & H2 & H3 & H4 & _) & Hv). rewrite !bool_decide_eq_false_2 by done. simpl. split; [done|].
    case_bool_decide as He; [by rewrite He|]. rewrite guard_ok, orb_true_iff, !bool_decide_eq_true. split; [|done].
    destruct Hv as [?|[?|[?|?%not_elem_of_nil]]]; tauto.
Qed.

(** A listing of diagnostics is answered exactly for a complete owner scope
    and a known severity, and gives the first [1..1000] events, newest first, of
    those among the last [maxDiagnosticEvents] stored ones that belong to the
    four owner hashes and pass the filters, without their failures; every event
    shown has one of the published messages for its type and severity. *)
Theorem diagnostics_listing_exact max history req l :
  ListPluginDiagnostics req (diagnostics_after max history) = Ok l ↔
  ∃ scope severity, complete_request req scope severity ∧
    let events := map publicDiagnosticEvent
      (List.filter (diagnosticListed req scope severity) (lastn (capacity max) (accepted 0 history))) in
    l = take (Z.to_nat (normalizeLimit (ld_Limit req))) (sortDiagnosticEventsNewestFirst events) ∧
    (1 ≤ normalizeLimit (ld_Limit req) ≤ maxListLimit)%Z ∧
    sortDiagnosticEventsNewestFirst events ≡ₚ events ∧
    Sorted (λ x y, newer (newest_key x) (newest_key y)) (sortDiagnosticEventsNewestFirst events) ∧
    ∀ e, e ∈ l → public_ok e ∧ de_Failure e = mkFailure "" "" "" ∧
      (de_OwnerSessionHash e, de_OwnerUserHash e, de_OwnerEnvHash e, de_SessionChannelIDHash e) = scope.
Proof.
  unfold ListPluginDiagnostics. rewrite rbind_ok. setoid_rewrite rbind_ok. rewrite diagnostics_after_snapshot. split.
  - intros (scope & Hs & severity & Hv & [= <-]). exists scope, severity. split; [by apply request_checks|].
    set (events := map _ _). destruct (newest_first_sorted events) as [Hp Hso].
    split_and!; [done|apply normalizeLimit_bounds..|done|done|].
    intros e He. apply elem_of_take in He as (i & Hi & _). apply list_elem_of_lookup_2 in Hi. rewrite Hp in Hi.
    unfold events in Hi. apply list_elem_of_In, in_map_iff in Hi as (e' & <- & Hin).
    apply List.filter_In in Hin as [Hin Hl]. apply list_elem_of_In in Hin.
    assert (e' ∈ accepted 0 history) as Hacc.
    { unfold lastn in Hin. apply list_elem_of_lookup in Hin as [j Hj]. rewrite lookup_drop in Hj.
      by eapply list_elem_of_lookup_2. }
    pose proof (stored_ok _ _ _ Hacc) as Hok. split_and!; [exact Hok|done|].
    destruct scope as [[[a b] c] d]. unfold diagnosticListed in Hl. go_bools. simpl. congruence.
  - intros (scope & severity & Hc & -> & _). apply request_checks in Hc as [Hs Hv]. eauto.
Qed.
