(* ===== verification/AuditDetails.v ===== *)
(** * Audit events and their details ([pkg/observability])

    An audit event carries a map of details, Go values of any type under a
    closed set of keys. Before it is kept, the map is checked and copied into
    strings, booleans, numbers, lists of strings and failures, and the copy is
    checked against the limits of [internal/jsonvalue]. *)

From stdpp Require Import pretty.
From S2P Require Import Prelude GoLib SessionCtx Mutation Observability Encoding Json.

Open Scope go_scope.

(** ** The values a detail can have *)

(** A float: not a number, an infinity, or [±mantissa * 2^exponent]. *)
Inductive GoFloat :=
| FNaN
| FInf (neg : bool)
| FNum (neg : bool) (mantissa : N) (exponent : Z).

(** A value of type [any]. The integer types are one constructor, since their
    values are only compared with 0 and [maxSafeInteger], which the small ones
    cannot exceed; a float32 is the float64 it converts to. [ANamed] is a value
    of a string type other than [string]. A map is a list of entries with
    different keys. *)
Inductive Any :=
| ANil
| AString (s : string)
| ANamed (s : string)
| ABool (b : bool)
| AInt (n : Z)
| AFloat (f : GoFloat)
| AStrings (l : list string)
| AAnys (l : list Any)
| AMap (m : list (string * Any))
| AFailure (f : Failure)
| AFailurePtr (f : option Failure)
| AOther.

(** [auditString] *)
Definition auditString (value : Any) : option string :=
  match value with
  | AString s | ANamed s => Some s
  | _ => None
  end.

(** [value.(string)] *)
Definition as_string (value : Any) : option string :=
  match value with AString s => Some s | _ => None end.

(** [number >= 0 && number <= maxSafeInteger && math.Trunc(number) == number]:
    the integer, and whether it is a negative zero. *)
Definition float_integer (f : GoFloat) : option (bool * N) :=
  match f with
  | FNum neg m e =>
     let n := if (0 <=? e)%Z then (m * 2 ^ Z.to_N e)%N else (m / 2 ^ Z.to_N (- e))%N in
     if negb (neg && negb (m =? 0)%N) && ((0 <=? e)%Z || (m mod 2 ^ Z.to_N (- e) =? 0)%N) &&
        (Z.of_N n <=? MaxSafeInteger)%Z
     then Some (neg, n) else None
  | _ => None
  end.

(** [validAuditInteger] and [auditIntegerFloat64]: the float the value converts to. *)
Definition auditIntegerFloat64 (value : Any) : option (bool * N) :=
  match value with
  | AInt n => if (0 <=? n)%Z && (n <=? MaxSafeInteger)%Z then Some (false, Z.to_N n) else None
  | AFloat f => float_integer f
  | _ => None
  end.

Definition validAuditInteger (value : Any) : bool := bool_decide (is_Some (auditIntegerFloat64 value)).

Definition validSessionScopeState : string → bool := one_of ["fenced"; "draining"; "incomplete"; "complete"].

Definition validAuditReason : string → bool :=
  one_of ["adapter_panic"; "business_error"; "confirmation_invalid"; "confirmation_rejected"; "confirmation_required";
          "execution_revoked"; "lease_revoked"; "pending_reconciled"; "permission_denied"; "policy_denied";
          "quota_exceeded"; "remote_mismatch"; "request_contract"; "response_contract"; "token_invalid"; "trust_denied";
          "trust_unavailable"; "unavailable"].

(** ** The keys *)

Definition stableKeys : list string :=
  ["audit_correlation_id"; "effect"; "execution"; "execution_id"; "intent_id"; "invocation_id"; "method"; "plan_hash";
   "preflight_method"; "route_kind"; "runtime_generation_id"; "runtime_instance_id"; "source_plugin_instance_id";
   "status"; "stream_id"; "target_descriptor_sha256"].

Definition boolKeys : list string :=
  ["channel_scoped"; "delete_data"; "runtime_revoked"; "runtime_stopped"; "session_scope_fenced";
   "session_scope_complete"].

Definition integerKeys : list string :=
  ["active_network_request_count"; "asset_session_count"; "asset_ticket_count"; "closed_socket_count";
   "closed_storage_handle_count"; "closed_stream_count"; "confirmation_count"; "confirmation_token_count";
   "execution_count"; "expires_at_unix_ms"; "gateway_token_count"; "handle_grant_count"; "management_revision";
   "network_stream_count"; "operation_count"; "policy_revision"; "revoke_epoch"; "revoked_surface_count";
   "runtime_execution_count"; "socket_count"; "storage_hostcall_count"; "stream_count"; "stream_ticket_count";
   "surface_count"; "token_count"].

(** What the switches of [validAuditDetails] and [cloneAuditDetail] do with a
    key: the check of its text, or the kind of its value. *)
Inductive KeyKind :=
| KText (valid : string → bool)
| KBool
| KInteger
| KTexts
| KFailure
| KUnknown.

Definition key_kind (key : string) : KeyKind :=
  if one_of stableKeys key then KText validStableValue
  else if bool_decide (key = "session_scope_state") then KText validSessionScopeState
  else if bool_decide (key = "capability_contract_artifact") then KText validPackageRelativePath
  else if bool_decide (key = "reason") then KText validAuditReason
  else if bool_decide (key = "mutation_outcome") then KText validMutationOutcome
  else if one_of boolKeys key then KBool
  else if one_of integerKeys key then KInteger
  else if bool_decide (key = "target_descriptor_hashes") then KTexts
  else if bool_decide (key = "failure") then KFailure
  else KUnknown.

(** The failure in a value, as [validPersistedFailure] and [clonePersistedFailure] read it. *)
Definition failure_in (value : Any) : option Failure :=
  match value with
  | AFailure f => Some f
  | AFailurePtr f => f
  | AMap m =>
     if length m =? 3 then
       match (x ← list_find (λ kv, kv.1 = "code") m; as_string x.2.2),
             (x ← list_find (λ kv, kv.1 = "component") m; as_string x.2.2),
             (x ← list_find (λ kv, kv.1 = "operation") m; as_string x.2.2) with
       | Some code, Some component, Some operation => Some (mkFailure code component operation)
       | _, _, _ => None
       end
     else None
  | _ => None
  end.

Definition validPersistedFailure (value : Any) : bool :=
  match failure_in value with Some f => Failure_Valid f | None => false end.

(** The texts of a list of strings. *)
Definition texts_in (value : Any) : option (list string) :=
  match value with
  | AStrings l => Some l
  | AAnys l => mapM as_string l
  | _ => None
  end.

(** One round of [validAuditDetails]. *)
Definition validAuditDetail (key : string) (value : Any) : bool :=
  match key_kind key with
  | KText valid => match auditString value with Some text => valid text | None => false end
  | KBool => match value with ABool _ => true | _ => false end
  | KInteger => validAuditInteger value
  | KTexts => match texts_in value with Some texts => forallb validStableValue texts | None => false end
  | KFailure => validPersistedFailure value
  | KUnknown => false
  end.

Definition validAuditDetails (details : gmap string Any) : bool :=
  forallb (λ kv, validAuditDetail kv.1 kv.2) (map_to_list details).

(** ** Copies *)

(** What [cloneAuditDetail] returns. *)
Inductive Detail :=
| DText (s : string)
| DBool (b : bool)
| DNumber (negzero : bool) (n : N)
| DTexts (l : list string)
| DFailure (f : Failure).

Definition any_of_detail (d : Detail) : Any :=
  match d with
  | DText s => AString s
  | DBool b => ABool b
  | DNumber neg n => AFloat (FNum neg n 0)
  | DTexts l => AAnys (AString <$> l)
  | DFailure f => AMap [("code", AString (fl_Code f)); ("component", AString (fl_Component f));
                        ("operation", AString (fl_Operation f))]
  end.

Definition clonePersistedFailure (value : Any) : option Detail :=
  match failure_in value with
  | Some f => if Failure_Valid f then Some (DFailure f) else None
  | None => None
  end.

Definition cloneAuditDetail (key : string) (value : Any) : option Detail :=
  match key_kind key with
  | KText _ => DText <$> auditString value
  | KBool => match value with ABool flag => Some (DBool flag) | _ => None end
  | KInteger => '(neg, n) ← auditIntegerFloat64 value; Some (DNumber neg n)
  | KTexts => DTexts <$> texts_in value
  | KFailure => clonePersistedFailure value
  | KUnknown => None
  end.

(** ** The limits of a canonical JSON value ([internal/jsonvalue]) *)

Definition maxEncodedBytes : Z := 512 * 1024.
Definition MaxCanonicalNodes : Z := 32768.

(** The nodes and bytes counted so far. *)
Record canonicalState := mkCanonicalState { cs_nodes : Z; cs_bytes : Z }.

Definition addBytes (count : Z) (s : canonicalState) : option canonicalState :=
  if (count <? 0)%Z || (maxEncodedBytes - cs_bytes s <? count)%Z then None
  else Some (mkCanonicalState (cs_nodes s) (cs_bytes s + count)).

Definition countNode (s : canonicalState) : option canonicalState :=
  if (MaxCanonicalNodes <? cs_nodes s + 1)%Z then None else Some (mkCanonicalState (cs_nodes s + 1) (cs_bytes s)).

(** [jsonStringEncodedLength]: the loop, with the bytes left as fuel. *)
Fixpoint encoded_length (fuel : nat) (value : bytes) (length : Z) : Z :=
  match fuel, value with
  | O, _ | _, [] => length
  | S fuel, c :: rest =>
     let '(length', rest) :=
       if (zcode c <? 128)%Z then
         ((if is_byte 92 c || is_byte 34 c || byte_in 8 10 c || byte_in 12 13 c then length + 2
           else if is_byte 60 c || is_byte 62 c || is_byte 38 c then length + 6
           else if (zcode c <? 32) then length + 6 else length + 1)%Z, rest)
       else
         let '(r, size) := DecodeRune value in
         ((if ((r =? RuneError) && (Z.of_nat size =? 1)) || (r =? 8232) || (r =? 8233)
           then length + 6 else length + Z.of_nat size)%Z, drop size value) in
     if (maxEncodedBytes <? length')%Z then maxEncodedBytes + 1 else encoded_length fuel rest length'
  end.

Definition jsonStringEncodedLength (value : string) : Z :=
  encoded_length (String.length value) (text value) 2.

Definition isPrototypeSensitiveKey : string → bool := one_of ["__proto__"; "constructor"; "prototype"].

(** [jsonFloatEncodedLength] of an integer in the safe range: its digits, and
    the sign of a negative zero. *)
Definition jsonFloatEncodedLength (negzero : bool) (n : N) : Z :=
  (Z.of_nat (String.length (pretty n)) + (if negzero then 1 else 0))%Z.

(** The cases of [canonicalState.clone] for the copies. *)
Definition canonical_string (s : string) (st : canonicalState) : option canonicalState :=
  st ← countNode st;
  if ValidUTF8 (text s) then addBytes (jsonStringEncodedLength s) st else None.

Fixpoint canonical_items (first : bool) (items : list string) (st : canonicalState) : option canonicalState :=
  match items with
  | [] => Some st
  | item :: items =>
     st ← (if first then Some st else addBytes 1 st);
     st ← canonical_string item st;
     canonical_items false items st
  end.

Section fields.
Context {A : Type} (item : A → canonicalState → option canonicalState).

Fixpoint canonical_fields (first : bool) (fields : list (string * A)) (st : canonicalState) : option canonicalState :=
  match fields with
  | [] => Some st
  | (key, value) :: fields =>
     if negb (ValidUTF8 (text key)) || isPrototypeSensitiveKey key then None
     else
       st ← (if first then Some st else addBytes 1 st);
       st ← addBytes (jsonStringEncodedLength key + 1) st;
       st ← item value st;
       canonical_fields false fields st
  end.

Definition canonical_map (fields : list (string * A)) (st : canonicalState) : option canonicalState :=
  st ← countNode st; st ← addBytes 2 st; canonical_fields true fields st.
End fields.

Definition canonical_detail (d : Detail) (st : canonicalState) : option canonicalState :=
  match d with
  | DText s => canonical_string s st
  | DBool b => st ← countNode st; addBytes (if b then 4 else 5) st
  | DNumber neg n => st ← countNode st;
     if (MaxSafeInteger <? Z.of_N n)%Z then None else addBytes (jsonFloatEncodedLength neg n) st
  | DTexts l => st ← countNode st; st ← addBytes 2 st; canonical_items true l st
  | DFailure f => canonical_map canonical_string
      [("code", fl_Code f); ("component", fl_Component f); ("operation", fl_Operation f)] st
  end.

(** [ValidateCanonical] of the copy. The order of the fields does not matter:
    the sums are the same. *)
Definition ValidateCanonical (details : gmap string Detail) : bool :=
  bool_decide (is_Some (canonical_map canonical_detail (map_to_list details) (mkCanonicalState 0 0))).

(** ** The details of an event *)

Definition too_many_hashes (values : gmap string Any) : bool :=
  match values !! "target_descriptor_hashes" with
  | Some (AStrings l) => (MaxCanonicalNodes <? Z.of_nat (length l))%Z
  | Some (AAnys l) => (MaxCanonicalNodes <? Z.of_nat (length l))%Z
  | _ => false
  end.

Definition cloneAuditDetails (values : option (gmap string Any)) : Result ObsError (option (gmap string Any)) :=
  match values with
  | None => Ok None
  | Some values =>
     guard! negb (too_many_hashes values) else ErrInvalidAuditDetails in
     guard! validAuditDetails values else ErrInvalidAuditDetails in
     let cloned := map_imap cloneAuditDetail values in
     guard! bool_decide (dom cloned = dom values) else ErrInvalidAuditDetails in
     guard! validAuditDetails (any_of_detail <$> cloned) else ErrInvalidAuditDetails in
     guard! ValidateCanonical cloned else ErrInvalidAuditDetails in
     Ok (Some (any_of_detail <$> cloned))
  end.

Record AuditEvent := mkAuditEvent {
  ae_EventID : string;
  ae_Type : string;
  ae_PluginID : string;
  ae_PluginInstanceID : string;
  ae_SurfaceID : string;
  ae_SurfaceInstanceID : string;
  ae_RequestID : string;
  ae_Actor : string;
  ae_OccurredAt : time;
  ae_Details : option (gmap string Any);
}.

Definition ValidateAuditEvent (event : AuditEvent) : Result ObsError unit :=
  guard! negb (bool_decide (ae_Type event = "")) && negb (IsZero (ae_OccurredAt event)) else ErrInvalidEvent in
  guard! stable_or_empty
    [ae_EventID event; ae_Type event; ae_PluginID event; ae_PluginInstanceID event; ae_SurfaceID event;
     ae_SurfaceInstanceID event; ae_RequestID event; ae_Actor event] else ErrInvalidEvent in
  guard! validAuditDetails (default ∅ (ae_Details event)) else ErrInvalidAuditDetails in
  Ok tt.

Definition normalizeAuditEvent (event : AuditEvent) (now : time) : Result ObsError AuditEvent :=
  let? cloned := cloneAuditDetails (ae_Details event) in
  let event := {|
    ae_EventID := TrimSpace (ae_EventID event);
    ae_Type := TrimSpace (ae_Type event);
    ae_PluginID := TrimSpace (ae_PluginID event);
    ae_PluginInstanceID := TrimSpace (ae_PluginInstanceID event);
    ae_SurfaceID := TrimSpace (ae_SurfaceID event);
    ae_SurfaceInstanceID := TrimSpace (ae_SurfaceInstanceID event);
    ae_RequestID := TrimSpace (ae_RequestID event);
    ae_Actor := TrimSpace (ae_Actor event);
    ae_OccurredAt := if IsZero (ae_OccurredAt event) then UTC now else UTC (ae_OccurredAt event);
    ae_Details := cloned
  |} in
  let? _ := ValidateAuditEvent event in Ok event.

(** ** Copies of copies *)

Lemma float_integer_spec f neg n :
  float_integer f = Some (neg, n) → float_integer (FNum neg n 0) = Some (neg, n).
Proof.
  destruct f as [| |neg' m e]; simpl; [done..|]. rewrite N.mul_1_r. case_match eqn:Hb; [|done]. intros [= -> <-].
  rewrite !andb_true_iff in Hb. destruct Hb as [[Hneg _] Hmax]. rewrite Hmax. destruct neg; [|done].
  simpl in Hneg. apply negb_true_iff, negb_false_iff, N.eqb_eq in Hneg as ->.
  destruct (0 <=? e)%Z; [by rewrite N.mul_0_l|by rewrite N.Div0.div_0_l].
Qed.

Lemma auditIntegerFloat64_again value neg n :
  auditIntegerFloat64 value = Some (neg, n) → auditIntegerFloat64 (AFloat (FNum neg n 0)) = Some (neg, n).
Proof.
  destruct value; try done; [|apply float_integer_spec]. cbn [auditIntegerFloat64]. case_match eqn:Hb; [|done].
  intros [= <- <-]. go_bools. unfold float_integer.
  change (2 ^ Z.to_N 0)%N with 1%N. change (0 <=? 0)%Z with true. cbn [andb orb negb]. rewrite N.mul_1_r, Z2N.id by done.
  by rewrite (proj2 (Z.leb_le n0 MaxSafeInteger)).
Qed.

Lemma texts_again l : mapM as_string (AString <$> l) = Some l.
Proof. by apply mapM_fmap_Some. Qed.

(** A copied detail is copied to itself. *)
Lemma cloneAuditDetail_again key value d :
  cloneAuditDetail key value = Some d → cloneAuditDetail key (any_of_detail d) = Some d.
Proof.
  unfold cloneAuditDetail. destruct (key_kind key) as [valid| | | | |]; [..|done].
  - intros (s & _ & ->)%fmap_Some. done.
  - destruct value; try done. by intros [= <-].
  - destruct (auditIntegerFloat64 value) as [[neg n]|] eqn:Hn; [|done]. intros [= <-]. simpl.
    apply auditIntegerFloat64_again in Hn. simpl in Hn. by rewrite Hn.
  - intros (l & _ & ->)%fmap_Some. simpl. by rewrite texts_again.
  - unfold clonePersistedFailure. destruct (failure_in value) as [f|]; [|done].
    destruct (Failure_Valid f) eqn:Hf; [|done]. intros [= <-]. simpl. destruct f as [a b c]. simpl. by rewrite Hf.
Qed.

(** A copied map is copied to itself: records that were stored can always be
    read. *)
Lemma cloneAuditDetails_again values c :
  cloneAuditDetails values = Ok c → cloneAuditDetails c = Ok c.
Proof.
  destruct values as [values|]; simpl; [|by intros [= <-]]. rewrite !guard_ok.
  intros (Hh & Hv & Hd & Hv' & Hc & [= <-]). simpl.
  assert (map_imap cloneAuditDetail (any_of_detail <$> map_imap cloneAuditDetail values) =
          map_imap cloneAuditDetail values) as Himap.
  { apply map_eq. intros k. rewrite !map_lookup_imap, lookup_fmap, map_lookup_imap.
    destruct (values !! k) as [v|]; simpl; [|done]. destruct (cloneAuditDetail k v) as [d|] eqn:Hk; simpl; [|done].
    by apply cloneAuditDetail_again in Hk. }
  rewrite Himap, !guard_ok, dom_fmap_L. split_and!; [|done|by apply bool_decide_eq_true|done|done|done].
  apply negb_true_iff in Hh. apply negb_true_iff. unfold too_many_hashes in *.
  rewrite lookup_fmap, map_lookup_imap. destruct (values !! _) as [v|] eqn:Hk; simpl; [|done].
  unfold cloneAuditDetail. change (key_kind "target_descriptor_hashes") with KTexts. simpl.
  destruct v as [| | | | | |l|l| | | |]; simpl; try done; [by rewrite length_fmap|].
  destruct (mapM as_string l) as [k|] eqn:Hm; simpl; [|done]. rewrite length_fmap. by rewrite <- (length_mapM _ _ _ Hm).
Qed.

Lemma normalizeAuditEvent_details event now event' :
  normalizeAuditEvent event now = Ok event' →
  cloneAuditDetails (ae_Details event') = Ok (ae_Details event') ∧ ValidateAuditEvent event' = Ok tt.
Proof.
  unfold normalizeAuditEvent. rewrite rbind_ok. intros (c & Hc & He). rewrite rbind_ok in He.
  destruct He as ([] & Hv & [= <-]). split; [|done]. by eapply cloneAuditDetails_again.
Qed.
