(* ===== verification/AuditJournal.v ===== *)
(** * The security audit journal ([pkg/observability/audit_journal.go], [pkg/host/security_audit.go])

    A security mutation is announced in the journal before it runs and
    completed with its outcome afterwards; the exporter delivers completed
    records to the audit sink of the host. *)

From stdpp Require Import pretty.
From S2P Require Import Prelude GoLib SessionCtx Mutation Observability Encoding AuditDetails.

Open Scope go_scope.

Definition SecurityAuditPending : string := "pending".
Definition SecurityAuditCompleted : string := "completed".

Inductive JournalError :=
| JournalEvent (e : ObsError)
| ErrInvalidMutationOutcome
| ErrSecurityAuditNotFound
| ErrSecurityAuditCompleted
| ErrSecurityAuditCapacity
| SinkError (e : goerror).

Record SecurityAuditRecord := mkAuditRecord {
  ar_EventID : string;
  ar_Event : AuditEvent;
  ar_State : string;
  ar_Outcome : Outcome;
  ar_CompletionDetails : option (gmap string Any);
  ar_CreatedAt : time;
  ar_CompletedAt : option time;
  ar_ExportedAt : option time;
}.

Definition zeroAuditEvent : AuditEvent := mkAuditEvent "" "" "" "" "" "" "" "" 0 None.
Definition zeroAuditRecord : SecurityAuditRecord := mkAuditRecord "" zeroAuditEvent "" "" None 0 None None.

Definition lift_obs {A} (r : Result ObsError A) : Result JournalError A :=
  match r with Ok a => Ok a | Err e => Err (JournalEvent e) end.

Definition cloneAuditEvent (event : AuditEvent) : Result ObsError AuditEvent :=
  let? details := cloneAuditDetails (ae_Details event) in
  Ok (mkAuditEvent (ae_EventID event) (ae_Type event) (ae_PluginID event) (ae_PluginInstanceID event)
        (ae_SurfaceID event) (ae_SurfaceInstanceID event) (ae_RequestID event) (ae_Actor event)
        (ae_OccurredAt event) details).

Definition cloneSecurityAuditRecord (record : SecurityAuditRecord) : Result ObsError SecurityAuditRecord :=
  let? event := cloneAuditEvent (ar_Event record) in
  let? details := cloneAuditDetails (ar_CompletionDetails record) in
  Ok (mkAuditRecord (ar_EventID record) event (ar_State record) (ar_Outcome record) details (ar_CreatedAt record)
        (ar_CompletedAt record) (ar_ExportedAt record)).

(** ** The memory journal *)

Record MemorySecurityAuditJournal := mkJournal {
  mj_maxEntries : nat;
  mj_nextSeq : Z;
  mj_entries : list SecurityAuditRecord;
  mj_start : nat;
  mj_count : nat;
}.

Definition NewMemorySecurityAuditJournal (maxEntries : Z) : MemorySecurityAuditJournal :=
  let maxEntries := Z.to_nat (if (maxEntries <=? 0)%Z then defaultMaxEvents else maxEntries) in
  mkJournal maxEntries 0 (replicate maxEntries zeroAuditRecord) 0 0.

(** The slot [(j.start+index)%j.maxEntries] of a logical index. *)
Definition physical (j : MemorySecurityAuditJournal) (index : nat) : nat :=
  (mj_start j + index) `mod` mj_maxEntries j.

Definition entry (j : MemorySecurityAuditJournal) (index : nat) : option SecurityAuditRecord :=
  mj_entries j !! physical j index.

Definition set_entry (index : nat) (record : SecurityAuditRecord) (j : MemorySecurityAuditJournal) :
    MemorySecurityAuditJournal :=
  mkJournal (mj_maxEntries j) (mj_nextSeq j) (<[physical j index := record]> (mj_entries j)) (mj_start j) (mj_count j).

(** The first logical index from the given ones whose record passes the test. *)
Fixpoint search (test : SecurityAuditRecord → bool) (j : MemorySecurityAuditJournal) (indices : list nat) :
    option (nat * SecurityAuditRecord) :=
  match indices with
  | [] => None
  | index :: indices =>
     match entry j index with
     | Some record => if test record then Some (index, record) else search test j indices
     | None => None
     end
  end.

Definition findIndexLocked (eventID : string) (j : MemorySecurityAuditJournal) : option (nat * SecurityAuditRecord) :=
  search (λ record, bool_decide (ar_EventID record = eventID)) j (seq 0 (mj_count j)).

(** The loop of [removeLocked]: every record from the index on moves one slot down. *)
Definition shift_entry (j : MemorySecurityAuditJournal) (index : nat) : MemorySecurityAuditJournal :=
  match entry j (index + 1) with
  | Some record => set_entry index record j
  | None => j
  end.

Definition removeLocked (logicalIndex : nat) (j : MemorySecurityAuditJournal) : MemorySecurityAuditJournal :=
  let j := foldl shift_entry j (seq logicalIndex (mj_count j - 1 - logicalIndex)) in
  let j := set_entry (mj_count j - 1) zeroAuditRecord j in
  mkJournal (mj_maxEntries j) (mj_nextSeq j) (mj_entries j) (mj_start j) (mj_count j - 1).

(** What [BeginSecurityAudit] does to a full journal. *)
Definition makeRoom (j : MemorySecurityAuditJournal) : option MemorySecurityAuditJournal :=
  if mj_count j =? mj_maxEntries j then
    match search (λ record, bool_decide (is_Some (ar_ExportedAt record))) j (seq 0 (mj_count j)) with
    | Some (exportedIndex, _) => Some (removeLocked exportedIndex j)
    | None => None
    end
  else Some j.

(** The identifier and the record of a new event. *)
Definition begun_id (j : MemorySecurityAuditJournal) (event : AuditEvent) : string :=
  if bool_decide (ae_EventID event = "") then eventID "audit" (incr64 (mj_nextSeq j)) else ae_EventID event.

Definition begun (event : AuditEvent) (id : string) : SecurityAuditRecord :=
  mkAuditRecord id (mkAuditEvent id (ae_Type event) (ae_PluginID event) (ae_PluginInstanceID event)
    (ae_SurfaceID event) (ae_SurfaceInstanceID event) (ae_RequestID event) (ae_Actor event) (ae_OccurredAt event)
    (ae_Details event)) SecurityAuditPending "" None (ae_OccurredAt event) None None.

Definition BeginSecurityAudit (now : time) (event : AuditEvent) (j : MemorySecurityAuditJournal) :
    MemorySecurityAuditJournal * Result JournalError SecurityAuditRecord :=
  match normalizeAuditEvent event now with
  | Err e => (j, Err (JournalEvent e))
  | Ok event =>
     match (if bool_decide (ae_EventID event = "") then None else findIndexLocked (ae_EventID event) j) with
     | Some (_, existing) => (j, lift_obs (cloneSecurityAuditRecord existing))
     | None =>
        let nextSeq := incr64 (mj_nextSeq j) in
        let record := begun event (begun_id j event) in
        match cloneSecurityAuditRecord record with
        | Err e => (j, Err (JournalEvent e))
        | Ok snapshot =>
           match makeRoom j with
           | None => (j, Err ErrSecurityAuditCapacity)
           | Some j =>
              let j := set_entry (mj_count j) record j in
              (mkJournal (mj_maxEntries j) nextSeq (mj_entries j) (mj_start j) (S (mj_count j)), Ok snapshot)
           end
        end
     end
  end.

Definition completedRecord (now : time) (outcome : Outcome) (details : option (gmap string Any))
    (record : SecurityAuditRecord) : SecurityAuditRecord :=
  mkAuditRecord (ar_EventID record) (ar_Event record) SecurityAuditCompleted outcome details (ar_CreatedAt record)
    (Some now) (ar_ExportedAt record).

Definition CompleteSecurityAudit (now : time) (eventID : string) (outcome : Outcome)
    (details : option (gmap string Any)) (j : MemorySecurityAuditJournal) :
    MemorySecurityAuditJournal * Result JournalError unit :=
  if negb (validMutationOutcome outcome) then (j, Err ErrInvalidMutationOutcome)
  else match cloneAuditDetails details with
  | Err e => (j, Err (JournalEvent e))
  | Ok clonedDetails =>
     let eventID := TrimSpace eventID in
     if bool_decide (eventID = "") then (j, Err ErrSecurityAuditNotFound)
     else match findIndexLocked eventID j with
     | None => (j, Err ErrSecurityAuditNotFound)
     | Some (index, record) =>
        if bool_decide (ar_State record = SecurityAuditCompleted) then (j, Err ErrSecurityAuditCompleted)
        else (set_entry index (completedRecord (UTC now) outcome clonedDetails record) j, Ok tt)
     end
  end.

Definition exportedRecord (now : time) (record : SecurityAuditRecord) : SecurityAuditRecord :=
  mkAuditRecord (ar_EventID record) (ar_Event record) (ar_State record) (ar_Outcome record)
    (ar_CompletionDetails record) (ar_CreatedAt record) (ar_CompletedAt record) (Some now).

Definition MarkSecurityAuditExported (now : time) (eventID : string) (j : MemorySecurityAuditJournal) :
    MemorySecurityAuditJournal * Result JournalError unit :=
  match findIndexLocked (TrimSpace eventID) j with
  | None => (j, Err ErrSecurityAuditNotFound)
  | Some (index, record) =>
     if negb (bool_decide (ar_State record = SecurityAuditCompleted)) then (j, Err ErrSecurityAuditCompleted)
     else (set_entry index (exportedRecord (UTC now) record) j, Ok tt)
  end.

(** The loop of [ReconcilePendingSecurityAudits]. *)
Definition reconcile_entry (now : time) (j : MemorySecurityAuditJournal) (index : nat) : MemorySecurityAuditJournal :=
  match entry j index with
  | Some record =>
     if bool_decide (ar_State record = SecurityAuditPending) then
       set_entry index (completedRecord now OutcomeUnknown (Some {[ "reason" := AString "pending_reconciled" ]}) record) j
     else j
  | None => j
  end.

Definition ReconcilePendingSecurityAudits (now : time) (j : MemorySecurityAuditJournal) : MemorySecurityAuditJournal :=
  foldl (reconcile_entry (UTC now)) j (seq 0 (mj_count j)).

Fixpoint list_loop (state : string) (j : MemorySecurityAuditJournal) (indices : list nat)
    (result : list SecurityAuditRecord) : Result ObsError (list SecurityAuditRecord) :=
  match indices with
  | [] => Ok result
  | index :: indices =>
     match entry j index with
     | Some record =>
        if bool_decide (ar_State record = state) && bool_decide (ar_ExportedAt record = None) then
          let? cloned := cloneSecurityAuditRecord record in
          list_loop state j indices (result ++ [cloned])
        else list_loop state j indices result
     | None => Ok result
     end
  end.

Definition listByState (state : string) (j : MemorySecurityAuditJournal) : Result JournalError (list SecurityAuditRecord) :=
  lift_obs (list_loop state j (seq 0 (mj_count j)) []).

Definition ListPendingSecurityAudits : MemorySecurityAuditJournal → Result JournalError (list SecurityAuditRecord) :=
  listByState SecurityAuditPending.

Definition ListUnexportedSecurityAudits : MemorySecurityAuditJournal → Result JournalError (list SecurityAuditRecord) :=
  listByState SecurityAuditCompleted.

(** ** Interfaces *)

(** [SecurityAuditJournal], as far as the host and the exporter call it. *)
Class SecurityAuditJournal (J : Type) := {
  begin_audit : time → AuditEvent → J → J * Result JournalError SecurityAuditRecord;
  complete_audit : time → string → Outcome → option (gmap string Any) → J → J * Result JournalError unit;
  list_unexported : J → Result JournalError (list SecurityAuditRecord);
  mark_exported : time → string → J → J * Result JournalError unit;
}.

(** [AuditSink]: anything that takes an event or answers with an error. *)
Class AuditSink (S : Type) := append_audit : AuditEvent → S → S * option goerror.

#[export] Instance memory_journal : SecurityAuditJournal MemorySecurityAuditJournal := {|
  begin_audit := BeginSecurityAudit;
  complete_audit := CompleteSecurityAudit;
  list_unexported := ListUnexportedSecurityAudits;
  mark_exported := MarkSecurityAuditExported
|}.

(** ** The memory sink

    The audit fields of [MemoryStore]; an event it has is not stored twice. *)

Record AuditStore := mkAuditStore {
  as_nextAuditSeq : Z;
  as_auditEvents : fixedRing AuditEvent;
}.

Definition NewAuditStore (maxAuditEvents : Z) : AuditStore :=
  let maxAuditEvents := if (maxAuditEvents <=? 0)%Z then defaultMaxEvents else maxAuditEvents in
  mkAuditStore 0 (newFixedRing zeroAuditEvent maxAuditEvents).

Definition AppendPluginAudit (now : time) (event : AuditEvent) (s : AuditStore) : AuditStore * Result ObsError unit :=
  match normalizeAuditEvent event now with
  | Err e => (s, Err e)
  | Ok event =>
     if negb (bool_decide (ae_EventID event = "")) &&
        existsb (λ stored, bool_decide (ae_EventID stored = ae_EventID event)) (Snapshot (as_auditEvents s))
     then (s, Ok tt)
     else
       let seq := incr64 (as_nextAuditSeq s) in
       let id := if bool_decide (ae_EventID event = "") then eventID "audit" seq else ae_EventID event in
       let event := mkAuditEvent id (ae_Type event) (ae_PluginID event) (ae_PluginInstanceID event) (ae_SurfaceID event)
         (ae_SurfaceInstanceID event) (ae_RequestID event) (ae_Actor event) (ae_OccurredAt event) (ae_Details event) in
       (mkAuditStore seq (Push event (as_auditEvents s)), Ok tt)
  end.

(** ** The exporter *)

Section export.
Context {J S : Type} `{!SecurityAuditJournal J} `{!AuditSink S}.

(** The event the sink gets for a record. *)
Definition exportEvent (record : SecurityAuditRecord) : AuditEvent :=
  let event := ar_Event record in
  let details := default ∅ (ar_CompletionDetails record) ∪ default ∅ (ae_Details event) in
  mkAuditEvent (ae_EventID event) (ae_Type event) (ae_PluginID event) (ae_PluginInstanceID event) (ae_SurfaceID event)
    (ae_SurfaceInstanceID event) (ae_RequestID event) (ae_Actor event) (ae_OccurredAt event)
    (Some (<["mutation_outcome" := AString (ar_Outcome record)]> details)).

Definition exportable (record : SecurityAuditRecord) : bool :=
  bool_decide (ar_State record = SecurityAuditCompleted) && validMutationOutcome (ar_Outcome record) &&
  bool_decide (ar_EventID record = ae_EventID (ar_Event record)) &&
  is_ok (ValidateAuditEvent (ar_Event record)) &&
  validAuditDetails (default ∅ (ar_CompletionDetails record)).

(** The loop of [Export] over the records it listed; [clock] gives the time of
    each mark. *)
Fixpoint export_loop (clock : nat → time) (records : list SecurityAuditRecord) (j : J) (s : S) : J * S * option JournalError :=
  match records with
  | [] => (j, s, None)
  | record :: records =>
     match cloneSecurityAuditRecord record with
     | Err _ => (j, s, Some (JournalEvent ErrInvalidEvent))
     | Ok record =>
        if negb (exportable record) then (j, s, Some (JournalEvent ErrInvalidEvent))
        else match append_audit (exportEvent record) s with
        | (s, Some e) => (j, s, Some (SinkError e))
        | (s, None) =>
           match mark_exported (clock (length records)) (ar_EventID record) j with
           | (j, Err e) => (j, s, Some e)
           | (j, Ok _) => export_loop clock records j s
           end
        end
     end
  end.

Definition Export (clock : nat → time) (j : J) (s : S) : J * S * option JournalError :=
  match list_unexported j with
  | Err e => (j, s, Some e)
  | Ok records => export_loop clock records j s
  end.

(** ** Security mutations of the host *)

Definition ErrSecurityEventPersistence : goerror := Leaf "security event could not be persisted".

Definition beginSecurityMutation (now : time) (event : AuditEvent) (j : J) : J * Result goerror string :=
  match begin_audit now event j with
  | (j, Err _) => (j, Err (Wrapped "begin security audit" ErrSecurityEventPersistence))
  | (j, Ok record) =>
     if bool_decide (ar_EventID record = "") then
       (j, Err (Wrapped "begin security audit returned an empty event id" ErrSecurityEventPersistence))
     else (j, Ok (ar_EventID record))
  end.

(** The error of a mutation whose record could not be completed or exported. *)
Definition unknownOutcome (operationErr : option goerror) (persistenceErr : goerror) : option goerror :=
  match operationErr with
  | None => Unknown (Some persistenceErr)
  | Some e => Unknown (Some (Joined [e; persistenceErr]))
  end.

Definition completeWithDetails (now : time) (clock : nat → time) (eventID : string) (operationErr : option goerror)
    (details : option (gmap string Any)) (j : J) (s : S) : J * S * option goerror :=
  let outcome := match operationErr with None => OutcomeCommitted | Some _ => ForError operationErr end in
  let details := match operationErr with
    | None => details
    | Some _ => Some (<["failure" := AFailure (FailureFromError "action_failure" "security" "security_mutation.complete"
                          operationErr)]> (default ∅ details))
    end in
  match complete_audit now eventID outcome details j with
  | (j, Err _) => (j, s, unknownOutcome operationErr (Wrapped "complete security audit" ErrSecurityEventPersistence))
  | (j, Ok _) =>
     match Export clock j s with
     | (j, s, Some _) => (j, s, unknownOutcome operationErr (Wrapped "export security audit" ErrSecurityEventPersistence))
     | (j, s, None) => (j, s, operationErr)
     end
  end.

(** [mutate] is the state change, on a state of its own. *)
Definition runSecurityMutation {W} (began now : time) (clock : nat → time) (event : AuditEvent) (mutate : W → W * option goerror) (j : J) (s : S)
    (w : W) : J * S * W * option goerror :=
  match beginSecurityMutation began event j with
  | (j, Err e) => (j, s, w, Some e)
  | (j, Ok eventID) =>
     let '(w, operationErr) := mutate w in
     let '(j, s, e) := completeWithDetails now clock eventID operationErr None j s in (j, s, w, e)
  end.

Definition recordSecurityEvent (began now : time) (clock : nat → time) (event : AuditEvent) (j : J) (s : S) : J * S * option goerror :=
  match beginSecurityMutation began event j with
  | (j, Err e) => (j, s, Some e)
  | (j, Ok eventID) => completeWithDetails now clock eventID None None j s
  end.
End export.
