(* ===== verification/AuditJournalProps.v ===== *)
(** * The audit journal: a list of records

    The ring of the journal is read as the list of its records; the operations
    are described on this list, and the theorems follow from there. *)

From stdpp Require Import pretty.
From S2P Require Import Prelude GoLib SessionCtx Mutation Encoding Observability ObservabilityProps AuditDetails AuditJournal.

Open Scope go_scope.

(** ** The records of a journal *)

Definition ring_of (j : MemorySecurityAuditJournal) : fixedRing SecurityAuditRecord :=
  mkRing (mj_entries j) (mj_start j) (mj_count j).

Definition contents (j : MemorySecurityAuditJournal) : list SecurityAuditRecord := Snapshot (ring_of j).

Definition journal_wf (j : MemorySecurityAuditJournal) : Prop :=
  ring_wf (ring_of j) ∧ length (mj_entries j) = mj_maxEntries j.

Implicit Types (j : MemorySecurityAuditJournal) (r : SecurityAuditRecord).

Lemma contents_length j : journal_wf j → length (contents j) = mj_count j.
Proof. intros [Hw _]. by apply Snapshot_length. Qed.

Lemma contents_lookup j i : journal_wf j → i < mj_count j → contents j !! i = entry j i.
Proof.
  intros [Hw Hl] Hi. unfold contents. rewrite Snapshot_lookup by done. simpl. rewrite decide_True by done.
  unfold entry, physical. by rewrite Hl.
Qed.

Lemma set_entry_wf i r j : journal_wf j → journal_wf (set_entry i r j).
Proof.
  intros [(? & ? & ?) ?]. unfold journal_wf, ring_wf, set_entry. simpl in *. rewrite !length_insert. split_and!; lia.
Qed.

Lemma set_entry_entry i k r j :
  journal_wf j → i < mj_maxEntries j → k < mj_maxEntries j →
  entry (set_entry i r j) k = if decide (k = i) then Some r else entry j k.
Proof.
  intros [(Hn & Hs & Hc) Hl] Hi Hk. unfold set_entry, entry, physical. simpl in *.
  rewrite <- Hl in *. case_decide as Heq.
  - subst. apply list_lookup_insert_eq, Nat.mod_upper_bound. lia.
  - apply list_lookup_insert_ne. intros Hp%mod_window; lia.
Qed.

Lemma contents_ext j l :
  journal_wf j → mj_count j = length l → (∀ i, i < length l → entry j i = l !! i) → contents j = l.
Proof.
  intros Hw Hc He. apply list_eq. intros i. destruct (decide (i < length l)) as [Hi|Hi].
  - rewrite contents_lookup by (done || lia). by apply He.
  - rewrite !lookup_ge_None_2; [done|lia|]. rewrite contents_length by done. lia.
Qed.

Lemma count_max j : journal_wf j → mj_count j ≤ mj_maxEntries j ∧ 0 < mj_maxEntries j.
Proof. intros [(? & ? & ?) Hl]. simpl in *. lia. Qed.

Lemma set_entry_contents i r j :
  journal_wf j → i < mj_count j → contents (set_entry i r j) = <[i := r]> (contents j).
Proof.
  intros Hw Hi. pose proof (count_max j Hw). apply contents_ext; [by apply set_entry_wf| |].
  - by rewrite length_insert, contents_length.
  - intros k Hk. rewrite length_insert, contents_length in Hk by done.
    rewrite set_entry_entry by (done || lia). case_decide as Heq.
    + subst. symmetry. apply list_lookup_insert_eq. by rewrite contents_length.
    + by rewrite list_lookup_insert_ne, contents_lookup by done.
Qed.

(** A new record behind the last one. *)
Lemma append_contents r seq j :
  journal_wf j → mj_count j < mj_maxEntries j →
  let j' := set_entry (mj_count j) r j in
  let j'' := mkJournal (mj_maxEntries j') seq (mj_entries j') (mj_start j') (S (mj_count j')) in
  journal_wf j'' ∧ contents j'' = contents j ++ [r].
Proof.
  intros Hw Hlt j' j''. pose proof (set_entry_wf (mj_count j) r j Hw) as Hw'.
  assert (journal_wf j'') as Hw''.
  { destruct Hw' as [(? & ? & ?) Hl]. unfold j'', journal_wf, ring_wf, set_entry in *. simpl in *. lia. }
  split; [done|]. apply contents_ext; [done| |].
  - rewrite length_app, contents_length by done. simpl. lia.
  - intros i Hi. rewrite length_app, contents_length in Hi by done. simpl in Hi. change (entry j'' i) with (entry j' i).
    unfold j'. rewrite set_entry_entry by (done || lia). case_decide as Heq.
    + subst. rewrite lookup_app_r, contents_length, Nat.sub_diag by (rewrite ?contents_length; done || lia). done.
    + rewrite lookup_app_l, contents_lookup by (rewrite ?contents_length; done || lia). done.
Qed.

(** The search finds the first record that passes the test. *)
Lemma search_from test j k n :
  journal_wf j → k + n = mj_count j →
  search test j (seq k n) = (λ '(i, r), (k + i, r)) <$> list_find (λ r, test r = true) (drop k (contents j)).
Proof.
  intros Hw. revert k. induction n as [|n IH]; intros k Hk; simpl.
  - rewrite drop_ge by (rewrite contents_length; [lia|done]). done.
  - assert (k < mj_count j) as Hlt by lia. destruct (contents j !! k) as [r|] eqn:Hr.
    2: { apply lookup_ge_None in Hr. rewrite contents_length in Hr; [lia|done]. }
    rewrite <- contents_lookup, Hr by done. rewrite (drop_S _ _ _ Hr). simpl. destruct (test r) eqn:Ht.
    + rewrite decide_True by done. simpl. by rewrite Nat.add_0_r.
    + rewrite decide_False by done. rewrite IH by lia. destruct (list_find _ _) as [[i r']|]; simpl; [|done].
      do 2 f_equal. lia.
Qed.

Lemma search_contents test j :
  journal_wf j → search test j (seq 0 (mj_count j)) = list_find (λ r, test r = true) (contents j).
Proof.
  intros Hw. rewrite search_from by done. rewrite drop_0. by destruct (list_find _ _) as [[i r]|].
Qed.

(** [removeLocked] deletes the record. *)
Lemma shift_loop_entry k n j :
  journal_wf j → k + n < mj_count j →
  let j' := foldl shift_entry j (seq k n) in
  journal_wf j' ∧ mj_count j' = mj_count j ∧ mj_maxEntries j' = mj_maxEntries j ∧
  ∀ i, i < mj_count j → entry j' i = entry j (if decide (k ≤ i < k + n) then S i else i).
Proof.
  revert k j. induction n as [|n IH]; intros k j Hw Hk; simpl.
  - do 3 (split; [done|]). intros i Hi. by rewrite decide_False by lia.
  - pose proof (count_max j Hw).
    destruct (entry j (k + 1)) as [r|] eqn:Hr.
    2: { rewrite <- contents_lookup in Hr by (done || lia). apply lookup_ge_None in Hr. rewrite contents_length in Hr; [lia|done]. }
    assert (shift_entry j k = set_entry k r j) as -> by (unfold shift_entry; by rewrite Hr).
    destruct (IH (S k) (set_entry k r j)) as (Hw' & Hc & Hm & He); [by apply set_entry_wf|simpl; lia|].
    do 3 (split; [done|]). intros i Hi. rewrite He by done. rewrite set_entry_entry by (try case_decide; done || lia).
    repeat case_decide; try lia; try done; try (f_equal; lia). subst. by replace (S k) with (k + 1) by lia.
Qed.

Lemma removeLocked_contents i j :
  journal_wf j → i < mj_count j →
  journal_wf (removeLocked i j) ∧ contents (removeLocked i j) = delete i (contents j) ∧
  mj_count (removeLocked i j) = mj_count j - 1 ∧ mj_maxEntries (removeLocked i j) = mj_maxEntries j.
Proof.
  intros Hw Hi. pose proof (count_max j Hw).
  destruct (shift_loop_entry i (mj_count j - 1 - i) j) as (Hw' & Hc & Hm & He); [done|lia|].
  unfold removeLocked. set (j1 := foldl shift_entry j _) in *.
  pose proof (set_entry_wf (mj_count j1 - 1) zeroAuditRecord j1 Hw') as Hw2.
  set (j2 := set_entry _ _ j1) in *. set (j3 := mkJournal _ _ _ _ _).
  assert (journal_wf j3) as Hw3.
  { destruct Hw2 as [(? & ? & ?) ?]. unfold j3, journal_wf, ring_wf in *. simpl in *. lia. }
  assert (mj_count j3 = mj_count j - 1) as Hc3 by (unfold j3, j2; simpl; lia).
  split; [done|]. split; [|split; [done|by unfold j3, j2]]. apply contents_ext; [done| |].
  - rewrite length_delete, contents_length by (try apply lookup_lt_is_Some; rewrite ?contents_length; done). lia.
  - intros k Hk. rewrite length_delete, contents_length in Hk by (try apply lookup_lt_is_Some; rewrite ?contents_length; done).
    change (entry j3 k) with (entry j2 k). unfold j2. rewrite set_entry_entry by (done || lia).
    rewrite decide_False by lia. rewrite He by lia. destruct (decide (k < i)) as [Hki|Hki].
    + rewrite decide_False by lia. rewrite list_lookup_delete_lt by done. symmetry. apply contents_lookup; [done|lia].
    + rewrite decide_True by lia. rewrite list_lookup_delete_ge by lia. symmetry. apply contents_lookup; [done|lia].
Qed.

(** ** Identifiers *)

(** The number a string of digits stands for. *)
Definition number (acc : Z) (s : list Ascii.ascii) : Z :=
  foldl (λ acc c, (acc * 10 + (Z.of_nat (Ascii.nat_of_ascii c) - 48))%Z) acc s.

Lemma pretty_N_char_code x :
  (x < 10)%N → Ascii.nat_of_ascii (pretty_N_char x) = N.to_nat x + 48.
Proof.
  intros Hx. assert (x ∈ [0;1;2;3;4;5;6;7;8;9]%N) as Hin.
  { destruct x as [|p]; [set_solver|]. do 4 (destruct p as [p|p|]; try (set_solver || lia)). }
  repeat (apply elem_of_cons in Hin as [->|Hin]; [reflexivity|]). by apply elem_of_nil in Hin.
Qed.

Lemma number_go x s :
  number 0 (String.list_ascii_of_string (pretty_N_go x s)) = number (Z.of_N x) (String.list_ascii_of_string s).
Proof.
  revert s. induction (N.lt_wf_0 x) as [x _ IH]; intros s.
  assert (x = 0 ∨ 0 < x)%N as [->|Hx] by lia; [by rewrite pretty_N_go_0|].
  rewrite pretty_N_go_step by done. rewrite IH by (by apply N.div_lt). simpl. f_equal.
  rewrite pretty_N_char_code by (apply N.mod_lt; lia). pose proof (N.div_mod x 10). lia.
Qed.

Definition digit_byte (c : Ascii.ascii) : bool := byte_in 48 57 c.

Lemma digits_go x s :
  forallb digit_byte (String.list_ascii_of_string s) = true →
  forallb digit_byte (String.list_ascii_of_string (pretty_N_go x s)) = true.
Proof.
  revert s. induction (N.lt_wf_0 x) as [x _ IH]; intros s Hs.
  assert (x = 0 ∨ 0 < x)%N as [->|Hx] by lia; [by rewrite pretty_N_go_0|].
  rewrite pretty_N_go_step by done. apply IH; [by apply N.div_lt|]. simpl. rewrite Hs, andb_true_r.
  unfold digit_byte, byte_in. rewrite pretty_N_char_code by (apply N.mod_lt; lia).
  pose proof (N.mod_lt x 10). rewrite andb_true_iff, !bool_decide_eq_true. lia.
Qed.

Lemma length_go x s k :
  (x < 10 ^ N.of_nat k)%N → String.length (pretty_N_go x s) ≤ k + String.length s.
Proof.
  revert s k. induction (N.lt_wf_0 x) as [x _ IH]; intros s k Hx.
  assert (x = 0 ∨ 0 < x)%N as [->|H0] by lia; [rewrite pretty_N_go_0; lia|].
  rewrite pretty_N_go_step by done. destruct k as [|k]; [simpl in Hx; lia|].
  etrans; [apply (IH _ (N.div_lt x 10 H0 eq_refl) _ k)|simpl; lia].
  apply N.Div0.div_lt_upper_bound. rewrite Nat2N.inj_succ, N.pow_succ_r' in Hx. lia.
Qed.

Lemma pretty_positive_go n : (0 < n)%Z → pretty n = pretty_N_go (Z.to_N n) "".
Proof. destruct n as [|p|p]; [lia| |lia]. done. Qed.

Lemma number_zeros k s : number 0 (replicate k (byte 48) ++ s) = number 0 s.
Proof.
  induction k as [|k IH]; done.
Qed.

Lemma eventID_inj prefix n m : (0 < n)%Z → (0 < m)%Z → eventID prefix n = eventID prefix m → n = m.
Proof.
  intros Hn Hm. unfold eventID, leftPadUint. intros Heq. apply (f_equal String.list_ascii_of_string) in Heq.
  rewrite !list_ascii_app in Heq. apply app_inv_head, app_inv_head in Heq.
  apply (f_equal (number 0)) in Heq. rewrite !list_ascii_of_list, !number_zeros in Heq.
  rewrite !pretty_positive_go, !number_go in Heq by done. simpl in Heq. rewrite !Z2N.id in Heq by lia. done.
Qed.

Lemma string_length s : length (String.list_ascii_of_string s) = String.length s.
Proof. induction s as [|c s IH]; simpl; [done|]. by rewrite IH. Qed.

Lemma leftPad_digits n :
  (0 < n < 2 ^ 64)%Z →
  forallb digit_byte (String.list_ascii_of_string (leftPadUint n 12)) = true ∧
  length (String.list_ascii_of_string (leftPadUint n 12)) ≤ 20.
Proof.
  intros Hn. unfold leftPadUint. rewrite list_ascii_app, list_ascii_of_list, forallb_app, length_app, length_replicate, string_length.
  rewrite pretty_positive_go by lia.
  assert (String.length (pretty_N_go (Z.to_N n) "") ≤ 20 + String.length "") as Hl.
  { apply length_go. assert (2 ^ 64 < 10 ^ N.of_nat 20)%N as Hlt by reflexivity. lia. }
  split; [|simpl in Hl; lia]. apply andb_true_iff. split; [|by apply digits_go].
  generalize (12 - String.length (pretty_N_go (Z.to_N n) "")). intros k. by induction k.
Qed.

Lemma digit_owner_byte c : digit_byte c = true → ownerHashByte c = true.
Proof. unfold digit_byte, ownerHashByte, isASCIIAlphaNumeric. intros ->. by rewrite !orb_true_r. Qed.

Lemma eventID_stable n : (0 ≤ n < 2 ^ 64)%Z → validStableValue (eventID "audit" n) = true.
Proof.
  intros Hn. destruct (decide (n = 0)%Z) as [->|Hn0]; [by vm_compute|]. assert (0 < n < 2 ^ 64)%Z as Hn' by lia.
  clear Hn. rename Hn' into Hn. destruct (leftPad_digits n Hn) as [Hd Hl].
  assert (forallb ownerHashByte (String.list_ascii_of_string (leftPadUint n 12)) = true) as Ho.
  { rewrite forallb_forall in *. intros c Hc. by apply digit_owner_byte, Hd. }
  unfold validStableValue. apply andb_true_iff. split.
  - apply bool_decide_eq_true. symmetry. apply graphic_trim. unfold eventID. rewrite !list_ascii_app. simpl.
    repeat (constructor; [vm_compute; lia|]). apply Forall_forall. intros c Hc%list_elem_of_In.
    rewrite forallb_forall in Ho. by apply ownerHashByte_not_space, Ho.
  - unfold stableValuePattern, eventID. rewrite !list_ascii_app. cbn [app String.list_ascii_of_string].
    rewrite !andb_true_iff. split_and!; [done| |apply Nat.leb_le; simpl; lia].
    cbn [forallb]. by rewrite Ho.
Qed.

(** * The audit journal: nothing is lost, and mutations are on record *)

Implicit Types (l : list SecurityAuditRecord).

(** ** Records *)

Definition pending r : Prop :=
  ar_State r = SecurityAuditPending ∧ ar_CompletedAt r = None ∧ ar_ExportedAt r = None ∧ ar_CompletionDetails r = None.

Definition completed r : Prop :=
  ar_State r = SecurityAuditCompleted ∧ is_Some (ar_CompletedAt r) ∧ validMutationOutcome (ar_Outcome r) = true ∧
  validAuditDetails (default ∅ (ar_CompletionDetails r)) = true.

Definition record_ok r : Prop :=
  ar_EventID r = ae_EventID (ar_Event r) ∧ validStableValue (ar_EventID r) = true ∧
  cloneSecurityAuditRecord r = Ok r ∧ ValidateAuditEvent (ar_Event r) = Ok tt ∧ (pending r ∨ completed r).

Lemma cloneAuditEvent_details event :
  cloneAuditDetails (ae_Details event) = Ok (ae_Details event) → cloneAuditEvent event = Ok event.
Proof. intros H. unfold cloneAuditEvent. rewrite H. by destruct event. Qed.

Lemma cloneSecurityAuditRecord_same r :
  cloneSecurityAuditRecord r = Ok r ↔
  cloneAuditDetails (ae_Details (ar_Event r)) = Ok (ae_Details (ar_Event r)) ∧
  cloneAuditDetails (ar_CompletionDetails r) = Ok (ar_CompletionDetails r).
Proof.
  unfold cloneSecurityAuditRecord, cloneAuditEvent. split.
  - rewrite rbind_ok. setoid_rewrite rbind_ok. intros (e & (d & Hd & He) & d' & Hd' & Hr). simplify_eq.
    destruct r as [id [] st o c t1 t2 t3]; simpl in *. injection Hr as Hr1 Hr2. by rewrite Hd, Hd', Hr1, Hr2.
  - intros [-> ->]. simpl. by destruct r as [id [] st o c t1 t2 t3].
Qed.

Lemma cloneAuditDetails_valid d c : cloneAuditDetails d = Ok c → validAuditDetails (default ∅ c) = true.
Proof.
  destruct d as [d|]; simpl; [|by intros [= <-]]. rewrite !guard_ok. by intros (_ & _ & _ & Hv & _ & [= <-]).
Qed.

Lemma stable_nonempty s : validStableValue s = true → s ≠ "" ∧ TrimSpace s = s.
Proof.
  unfold validStableValue. rewrite andb_true_iff, bool_decide_eq_true. intros [Ht Hp]. split; [|done].
  intros ->. done.
Qed.

(** ** Single records under the operations *)

Inductive JournalOp :=
| OpBegin (now : time) (event : AuditEvent)
| OpComplete (now : time) (eventID : string) (outcome : Outcome) (details : option (gmap string Any))
| OpMark (now : time) (eventID : string)
| OpReconcile (now : time).

Definition journal_op (op : JournalOp) j : MemorySecurityAuditJournal :=
  match op with
  | OpBegin now event => (BeginSecurityAudit now event j).1
  | OpComplete now id outcome details => (CompleteSecurityAudit now id outcome details j).1
  | OpMark now id => (MarkSecurityAuditExported now id j).1
  | OpReconcile now => ReconcilePendingSecurityAudits now j
  end.

Definition reconcileDetails : option (gmap string Any) := Some {[ "reason" := AString "pending_reconciled" ]}.

(** What an operation may do to a record that stays. *)
Inductive record_step (op : JournalOp) : SecurityAuditRecord → SecurityAuditRecord → Prop :=
| step_same r : record_step op r r
| step_complete now id outcome details details' r :
    op = OpComplete now id outcome details → ar_State r = SecurityAuditPending → ar_EventID r = TrimSpace id →
    validMutationOutcome outcome = true → cloneAuditDetails details = Ok details' →
    record_step op r (completedRecord (UTC now) outcome details' r)
| step_mark now id r :
    op = OpMark now id → ar_State r = SecurityAuditCompleted → ar_EventID r = TrimSpace id →
    record_step op r (exportedRecord (UTC now) r)
| step_reconcile now r :
    op = OpReconcile now → ar_State r = SecurityAuditPending →
    record_step op r (completedRecord (UTC now) OutcomeUnknown reconcileDetails r).

Lemma reconcileDetails_valid : cloneAuditDetails reconcileDetails = Ok reconcileDetails.
Proof.
  unfold reconcileDetails, cloneAuditDetails. rewrite !guard_ok. unfold too_many_hashes, validAuditDetails.
  rewrite lookup_singleton_ne by done.
  assert (map_imap cloneAuditDetail {["reason" := AString "pending_reconciled"]} =
          ({["reason" := DText "pending_reconciled"]} : gmap string Detail)) as ->.
  { apply map_eq. intros k. rewrite map_lookup_imap. destruct (decide (k = "reason")) as [->|Hne].
    - by rewrite !lookup_singleton_eq.
    - by rewrite !lookup_singleton_ne. }
  unfold ValidateCanonical. rewrite !dom_singleton_L, map_fmap_singleton, !map_to_list_singleton.
  split_and!; [done..|]. done.
Qed.

Lemma record_step_ok op r r' : record_ok r → record_step op r r' → record_ok r'.
Proof.
  intros (Hid & Hst & Hcl & Hv & Hpc) Hs. apply cloneSecurityAuditRecord_same in Hcl as [Hc1 Hc2].
  destruct Hs as [r|now id outcome details details' r Hop Hp He Ho Hd|now id r Hop Hp He|now r Hop Hp].
  - split_and!; [done|done|by apply cloneSecurityAuditRecord_same|done|done].
  - split_and!; [done|done| |done|].
    + apply cloneSecurityAuditRecord_same. split; [done|]. simpl. by eapply cloneAuditDetails_again.
    + right. split_and!; [done|done|done|]. simpl. by eapply cloneAuditDetails_valid.
  - split_and!; [done|done| |done|].
    + apply cloneSecurityAuditRecord_same. done.
    + right. destruct Hpc as [(Hx & _)|(? & ? & ? & ?)]; [rewrite Hx in Hp; done|]. done.
  - split_and!; [done|done| |done|].
    + apply cloneSecurityAuditRecord_same. split; [done|]. apply reconcileDetails_valid.
    + right. split_and!; [done|done|done|]. apply (cloneAuditDetails_valid _ _ reconcileDetails_valid).
Qed.

(** ** The journal under the operations *)

Definition journal_inv (max : nat) j : Prop :=
  journal_wf j ∧ mj_maxEntries j = max ∧ Forall record_ok (contents j) ∧ (0 ≤ mj_nextSeq j ≤ uint64_max)%Z.

Lemma new_journal_inv n :
  let max := Z.to_nat (if (n <=? 0)%Z then defaultMaxEvents else n) in
  journal_inv max (NewMemorySecurityAuditJournal n) ∧ contents (NewMemorySecurityAuditJournal n) = [].
Proof.
  intros max. assert (0 < max) as Hm.
  { unfold max, defaultMaxEvents. destruct (Z.leb_spec n 0); lia. }
  unfold journal_inv, journal_wf, ring_wf, NewMemorySecurityAuditJournal. fold max.
  cbn [mj_maxEntries mj_entries mj_start mj_count mj_nextSeq ring_of fr_values fr_start fr_count].
  rewrite length_replicate. split_and!; try lia; [done..|by unfold uint64_max].
Qed.

Lemma find_spec id j :
  journal_wf j → findIndexLocked id j = list_find (λ r, ar_EventID r = id) (contents j).
Proof.
  intros Hw. unfold findIndexLocked. rewrite search_contents by done. apply list_find_ext.
  intros r. by rewrite bool_decide_eq_true.
Qed.

(** The records a new one is put behind: all, or all but one exported record
    of a full journal. *)
Definition room (max : nat) l old : Prop :=
  old = l ∧ length l < max ∨
  ∃ i x, l !! i = Some x ∧ is_Some (ar_ExportedAt x) ∧ length l = max ∧ old = delete i l.

Lemma makeRoom_spec max j :
  journal_inv max j →
  match makeRoom j with
  | Some j' => journal_wf j' ∧ mj_maxEntries j' = max ∧ mj_count j' < max ∧ room max (contents j) (contents j')
  | None => length (contents j) = max ∧ Forall (λ r, ar_ExportedAt r = None) (contents j)
  end.
Proof.
  intros (Hw & Hm & _). pose proof (count_max j Hw) as [Hc Hp]. unfold makeRoom.
  destruct (Nat.eqb_spec (mj_count j) (mj_maxEntries j)) as [Heq|Hne].
  - rewrite search_contents by done. destruct (list_find _ (contents j)) as [[i x]|] eqn:Hf.
    + apply list_find_Some in Hf as (Hi & Hx & _). apply bool_decide_eq_true in Hx.
      assert (i < mj_count j) as Hlt by (rewrite <- contents_length by done; by eapply lookup_lt_Some).
      destruct (removeLocked_contents i j Hw Hlt) as (Hw' & Hct & Hcn & Hmx).
      split_and!; [done|congruence|lia|]. right. exists i, x. rewrite contents_length by done. split_and!; [done..|congruence|done].
    + apply list_find_None in Hf. rewrite contents_length by done. split; [congruence|].
      eapply Forall_impl; [exact Hf|]. intros r Hr. simpl in Hr. apply eq_None_not_Some. intros Hs. apply Hr. by apply bool_decide_eq_true.
  - split_and!; [done..|lia|]. left. split; [done|]. rewrite contents_length by done. lia.
Qed.

Lemma room_forall max l old (P : SecurityAuditRecord → Prop) : room max l old → Forall P l → Forall P old.
Proof.
  intros [[-> _]|(i & x & _ & _ & _ & ->)] Hl; [done|]. by apply Forall_delete.
Qed.

Lemma begun_ok j event now event0 :
  normalizeAuditEvent event0 now = Ok event → record_ok (begun event (begun_id j event)) ∧ pending (begun event (begun_id j event)).
Proof.
  intros Hn. apply normalizeAuditEvent_details in Hn as [Hc Hv].
  assert (validStableValue (begun_id j event) = true) as Hs.
  { unfold begun_id. case_bool_decide as He.
    - apply eventID_stable. pose proof (u64_range (mj_nextSeq j + 1)). unfold incr64, uint64_max in *. lia.
    - unfold ValidateAuditEvent in Hv. rewrite !guard_ok in Hv. destruct Hv as (_ & Hv & _).
      unfold stable_or_empty in Hv. cbn [forallb] in Hv. rewrite andb_true_iff, orb_true_iff, bool_decide_eq_true in Hv. tauto. }
  split; [|done]. split_and!; [done|done| | |by left].
  - apply cloneSecurityAuditRecord_same. done.
  - unfold ValidateAuditEvent in *. rewrite !guard_ok in Hv |- *. destruct Hv as (H1 & H2 & H3 & _). split_and!; [done| |done|done].
    cbn [begun ar_Event ae_EventID ae_Type ae_PluginID ae_PluginInstanceID ae_SurfaceID ae_SurfaceInstanceID ae_RequestID ae_Actor].
    unfold stable_or_empty in *. cbn [forallb] in *. rewrite andb_true_iff in H2. destruct H2 as [_ H2]. rewrite H2, Hs.
    by rewrite orb_true_r.
Qed.

(** [BeginSecurityAudit]: an invalid event, a record that exists, a full
    journal, or a new pending record behind the others. *)
Lemma begin_spec max now event0 j :
  journal_inv max j →
  match normalizeAuditEvent event0 now with
  | Err e => BeginSecurityAudit now event0 j = (j, Err (JournalEvent e))
  | Ok event =>
     (∃ i r, BeginSecurityAudit now event0 j = (j, Ok r) ∧ ae_EventID event ≠ "" ∧ contents j !! i = Some r ∧
             ar_EventID r = ae_EventID event) ∨
     (ae_EventID event = "" ∨ Forall (λ r, ar_EventID r ≠ ae_EventID event) (contents j)) ∧
     (BeginSecurityAudit now event0 j = (j, Err ErrSecurityAuditCapacity) ∧ length (contents j) = max ∧
        Forall (λ r, ar_ExportedAt r = None) (contents j) ∨
      ∃ j' old, BeginSecurityAudit now event0 j = (j', Ok (begun event (begun_id j event))) ∧ journal_inv max j' ∧
        mj_nextSeq j' = incr64 (mj_nextSeq j) ∧ room max (contents j) old ∧
        contents j' = old ++ [begun event (begun_id j event)])
  end.
Proof.
  intros Hinv. pose proof Hinv as (Hw & Hm & Hok & Hseq). unfold BeginSecurityAudit.
  destruct (normalizeAuditEvent event0 now) as [event|e] eqn:Hn; [|done].
  destruct (begun_ok j event now event0 Hn) as [Hb Hp].
  destruct (if bool_decide (ae_EventID event = "") then None else findIndexLocked (ae_EventID event) j) as [[i r]|] eqn:Hf.
  - case_bool_decide as He; [done|]. rewrite find_spec in Hf by done. apply list_find_Some in Hf as (Hi & Hid & _).
    left. exists i, r. pose proof (Forall_lookup_1 _ _ _ _ Hok Hi) as (_ & _ & -> & _). done.
  - right. split.
    { case_bool_decide as He; [by left|right]. rewrite find_spec in Hf by done. by apply list_find_None in Hf. }
    cbn zeta.
    destruct Hb as (H1 & H2 & Hc & H3). rewrite Hc. pose proof (makeRoom_spec max j Hinv) as Hr.
    destruct (makeRoom j) as [j1|]; [|by left]. destruct Hr as (Hw1 & Hm1 & Hc1 & Hroom). right.
    destruct (append_contents (begun event (begun_id j event)) (incr64 (mj_nextSeq j)) j1 Hw1) as [Hw2 Hct]; [lia|].
    eexists _, (contents j1). split; [done|]. split; [|done]. split; [done|]. split; [done|].
    split; [|pose proof (u64_range (mj_nextSeq j + 1)); done]. rewrite Hct. apply Forall_app. split; [|constructor; done].
    by eapply room_forall.
Qed.

Lemma update_inv max i r r' op j :
  journal_inv max j → contents j !! i = Some r → record_step op r r' →
  journal_inv max (set_entry i r' j) ∧ contents (set_entry i r' j) = <[i := r']> (contents j).
Proof.
  intros (Hw & Hm & Hok & Hseq) Hi Hs.
  assert (i < mj_count j) as Hlt by (rewrite <- contents_length by done; by eapply lookup_lt_Some).
  rewrite set_entry_contents by done. split; [|done]. split; [by apply set_entry_wf|]. split; [done|]. split; [|done].
  rewrite set_entry_contents by done. apply Forall_insert; [done|].
  eapply record_step_ok; [|done]. by eapply Forall_lookup_1 in Hok.
Qed.

(** The rest of the operations change single records in place. *)
Lemma complete_spec max now id outcome details j :
  journal_inv max j →
  (CompleteSecurityAudit now id outcome details j).1 = j ∧ is_ok (CompleteSecurityAudit now id outcome details j).2 = false ∨
  ∃ i r details', contents j !! i = Some r ∧ ar_EventID r = TrimSpace id ∧ pending r ∧
    validMutationOutcome outcome = true ∧ cloneAuditDetails details = Ok details' ∧
    CompleteSecurityAudit now id outcome details j = (set_entry i (completedRecord (UTC now) outcome details' r) j, Ok tt).
Proof.
  intros (Hw & Hm & Hok & Hseq). unfold CompleteSecurityAudit.
  destruct (validMutationOutcome outcome) eqn:Ho; simpl; [|by left].
  destruct (cloneAuditDetails details) as [details'|e] eqn:Hd; [|by left]. case_bool_decide as Hid; [by left|].
  rewrite find_spec by done. destruct (list_find _ _) as [[i r]|] eqn:Hf; [|by left].
  case_bool_decide as Hs; [by left|]. right. apply list_find_Some in Hf as (Hi & He & _).
  exists i, r, details'. pose proof (Forall_lookup_1 _ _ _ _ Hok Hi) as (_ & _ & _ & _ & [Hp|[Hc _]]); [done|].
  by rewrite Hc in Hs.
Qed.

Lemma mark_spec max now id j :
  journal_inv max j →
  (MarkSecurityAuditExported now id j).1 = j ∧ is_ok (MarkSecurityAuditExported now id j).2 = false ∨
  ∃ i r, list_find (λ r, ar_EventID r = TrimSpace id) (contents j) = Some (i, r) ∧ ar_State r = SecurityAuditCompleted ∧
    MarkSecurityAuditExported now id j = (set_entry i (exportedRecord (UTC now) r) j, Ok tt).
Proof.
  intros (Hw & Hm & Hok & Hseq). unfold MarkSecurityAuditExported. rewrite find_spec by done.
  destruct (list_find _ _) as [[i r]|] eqn:Hf; [|by left]. case_bool_decide as Hs; simpl; [|by left]. right. eauto.
Qed.

(** A pending record is reconciled, any other is left. *)
Definition reconciled (now : time) r : SecurityAuditRecord :=
  if bool_decide (ar_State r = SecurityAuditPending) then completedRecord (UTC now) OutcomeUnknown reconcileDetails r else r.

Lemma reconciled_step now r : record_step (OpReconcile now) r (reconciled now r).
Proof. unfold reconciled. case_bool_decide; [by apply step_reconcile|apply step_same]. Qed.

Lemma reconcile_loop max now k n j :
  journal_inv max j → k + n ≤ mj_count j →
  let j' := foldl (reconcile_entry (UTC now)) j (seq k n) in
  journal_inv max j' ∧ mj_nextSeq j' = mj_nextSeq j ∧ mj_count j' = mj_count j ∧
  contents j' = take k (contents j) ++ (reconciled now <$> take n (drop k (contents j))) ++ drop (k + n) (contents j).
Proof.
  revert k j. induction n as [|n IH]; intros k j Hinv Hk; simpl.
  - rewrite Nat.add_0_r, take_drop. done.
  - pose proof Hinv as (Hw & _). assert (k < mj_count j) as Hlt by lia.
    destruct (contents j !! k) as [r|] eqn:Hr.
    2: { apply lookup_ge_None in Hr. rewrite contents_length in Hr; [lia|done]. }
    assert (reconcile_entry (UTC now) j k = if bool_decide (ar_State r = SecurityAuditPending)
      then set_entry k (reconciled now r) j else j) as ->.
    { unfold reconcile_entry. rewrite <- contents_lookup, Hr by done. unfold reconciled. by case_bool_decide. }
    assert (∃ j1, (if bool_decide (ar_State r = SecurityAuditPending) then set_entry k (reconciled now r) j else j) = j1 ∧
      journal_inv max j1 ∧ mj_nextSeq j1 = mj_nextSeq j ∧ mj_count j1 = mj_count j ∧
      contents j1 = <[k := reconciled now r]> (contents j)) as (j1 & -> & Hi1 & Hn1 & Hc1 & Hct1).
    { case_bool_decide as Hp.
      - destruct (update_inv max k r (reconciled now r) (OpReconcile now) j Hinv Hr (reconciled_step now r)) as [? ?].
        eexists. split_and!; [done|done|done|done|done].
      - exists j. split_and!; [done..|]. unfold reconciled. rewrite bool_decide_eq_false_2 by done.
        by rewrite list_insert_id. }
    destruct (IH (S k) j1 Hi1) as (Hi2 & Hn2 & Hc2 & ->); [lia|]. split_and!; [done|congruence|congruence|].
    rewrite Hct1. rewrite (drop_S _ _ _ Hr). simpl.
    assert (k < length (contents j)) as Hlen by (rewrite contents_length; done).
    rewrite (take_S_r _ _ (reconciled now r)) by (by apply list_lookup_insert_eq).
    rewrite take_insert_ge, !drop_insert_lt by lia. rewrite <- app_assoc. simpl.
    by replace (k + S n) with (S (k + n)) by lia.
Qed.

Lemma reconcile_spec max now j :
  journal_inv max j →
  journal_inv max (ReconcilePendingSecurityAudits now j) ∧ mj_nextSeq (ReconcilePendingSecurityAudits now j) = mj_nextSeq j ∧
  contents (ReconcilePendingSecurityAudits now j) = reconciled now <$> contents j.
Proof.
  intros Hinv. pose proof Hinv as (Hw & _). destruct (reconcile_loop max now 0 (mj_count j) j Hinv) as (Hi & Hn & _ & Hct); [lia|].
  split_and!; [done..|]. unfold ReconcilePendingSecurityAudits. rewrite Hct. simpl. rewrite drop_0.
  rewrite take_ge, drop_ge by (rewrite contents_length; done || lia). by rewrite app_nil_r.
Qed.

Definition change (op : JournalOp) (max : nat) l l' : Prop :=
  ∃ old kept new, l' = kept ++ new ∧ Forall2 (record_step op) old kept ∧ Forall pending new ∧
    (old = l ∨ room max l old).

Lemma change_refl op max l : change op max l l.
Proof. exists l, l, []. rewrite app_nil_r. split_and!; [done| |done|by left]. apply Forall_Forall2_diag, Forall_true. constructor. Qed.

Lemma change_insert op max l i r r' :
  l !! i = Some r → record_step op r r' → change op max l (<[i := r']> l).
Proof.
  intros Hi Hs. exists l, (<[i := r']> l), []. rewrite app_nil_r. split_and!; [done| |done|by left].
  rewrite <- (list_insert_id l i r) at 1 by done. apply Forall2_insert; [|done].
  apply Forall_Forall2_diag, Forall_true. constructor.
Qed.

Lemma journal_op_change op max j :
  journal_inv max j →
  journal_inv max (journal_op op j) ∧ change op max (contents j) (contents (journal_op op j)).
Proof.
  intros Hinv. destruct op as [now event|now id outcome details|now id|now]; simpl.
  - pose proof (begin_spec max now event j Hinv) as Hb. destruct (normalizeAuditEvent event now) as [e|e] eqn:Hn.
    + destruct Hb as [(i & r & -> & _)|[_ [[-> _]|(j' & old & -> & Hi & _ & Hroom & Hct)]]]; simpl; [by split; [|apply change_refl]..|].
      split; [done|]. exists old, old, [begun e (begun_id j e)]. split_and!; [done| | |by right].
      * apply Forall_Forall2_diag, Forall_true. constructor.
      * constructor; [|done]. by eapply begun_ok.
    + rewrite Hb. simpl. by split; [|apply change_refl].
  - destruct (complete_spec max now id outcome details j Hinv) as [[-> _]|(i & r & d & Hi & He & Hp & Ho & Hd & ->)].
    { by split; [|apply change_refl]. }
    assert (record_step (OpComplete now id outcome details) r (completedRecord (UTC now) outcome d r)) as Hs.
    { eapply step_complete; [done|apply Hp|done..]. }
    destruct (update_inv _ _ _ _ _ _ Hinv Hi Hs) as [? Hct]. simpl. rewrite Hct. split; [done|]. by eapply change_insert.
  - destruct (mark_spec max now id j Hinv) as [[-> _]|(i & r & Hf & Hc & ->)].
    { by split; [|apply change_refl]. }
    apply list_find_Some in Hf as (Hi & He & _).
    assert (record_step (OpMark now id) r (exportedRecord (UTC now) r)) as Hs by (by eapply step_mark).
    destruct (update_inv _ _ _ _ _ _ Hinv Hi Hs) as [? Hct]. simpl. rewrite Hct. split; [done|]. by eapply change_insert.
  - destruct (reconcile_spec max now j Hinv) as (Hi & _ & ->). split; [done|].
    exists (contents j), (reconciled now <$> contents j), []. rewrite app_nil_r. split_and!; [done| |done|by left].
    apply Forall2_fmap_r, Forall_Forall2_diag, Forall_true. intros r. apply reconciled_step.
Qed.

(** ** Histories *)

Definition run_ops (ops : list JournalOp) j : MemorySecurityAuditJournal := foldl (λ j op, journal_op op j) j ops.

Definition journal_capacity (n : Z) : nat := Z.to_nat (if (n <=? 0)%Z then defaultMaxEvents else n).

Lemma run_ops_inv max ops j : journal_inv max j → journal_inv max (run_ops ops j).
Proof. revert j. induction ops as [|op ops IH]; intros j Hj; [done|]. by apply IH, journal_op_change. Qed.

(** The journal a history of operations leaves. *)
Definition journal_after (n : Z) (ops : list JournalOp) : MemorySecurityAuditJournal :=
  run_ops ops (NewMemorySecurityAuditJournal n).

Lemma journal_after_inv n ops : journal_inv (journal_capacity n) (journal_after n ops).
Proof. apply run_ops_inv, new_journal_inv. Qed.

(** The operation that marks a record as exported. *)
Definition marks (id : string) (op : JournalOp) : Prop :=
  match op with OpMark _ id' => TrimSpace id' = id | _ => False end.

(** A later state of a record that was not exported. *)
Definition later r r' : Prop :=
  ar_EventID r' = ar_EventID r ∧ ar_Event r' = ar_Event r ∧ ar_CreatedAt r' = ar_CreatedAt r ∧
  (ar_State r = SecurityAuditCompleted → r' = r).

Lemma record_step_later op r r' :
  record_step op r r' → ar_ExportedAt r = None → ¬ marks (ar_EventID r) op → later r r' ∧ ar_ExportedAt r' = None.
Proof.
  intros Hs He Hm. destruct Hs as [r|now id outcome details details' r Hop Hp Hid|now id r Hop Hp Hid|now r Hop Hp].
  - done.
  - split; [|done]. split_and!; [done..|]. by rewrite Hp.
  - subst. by destruct Hm.
  - split; [|done]. split_and!; [done..|]. by rewrite Hp.
Qed.

Lemma change_keeps op max l l' r :
  change op max l l' → r ∈ l → ar_ExportedAt r = None → ¬ marks (ar_EventID r) op →
  ∃ r', r' ∈ l' ∧ later r r' ∧ ar_ExportedAt r' = None.
Proof.
  intros (old & kept & new & -> & Hf & _ & Hold) Hr He Hm. assert (r ∈ old) as Hin.
  { destruct Hold as [->|[[-> _]|(i & x & Hi & Hx & _ & ->)]]; [done..|].
    rewrite <- (take_drop_middle _ _ _ Hi) in Hr. rewrite delete_take_drop, elem_of_app.
    rewrite elem_of_app, elem_of_cons in Hr. destruct Hr as [?|[->|?]]; [by left| |by right].
    rewrite He in Hx. by destruct Hx. }
  apply list_elem_of_lookup in Hin as [k Hk]. destruct (Forall2_lookup_l _ _ _ _ _ Hf Hk) as (r' & Hk' & Hs).
  exists r'. split; [apply elem_of_app; left; by eapply list_elem_of_lookup_2|]. by eapply record_step_later.
Qed.

Lemma run_ops_keeps max ops j r :
  journal_inv max j → r ∈ contents j → ar_ExportedAt r = None → Forall (λ op, ¬ marks (ar_EventID r) op) ops →
  ∃ r', r' ∈ contents (run_ops ops j) ∧ later r r' ∧ ar_ExportedAt r' = None.
Proof.
  intros Hj Hr He Hm. revert j r Hj Hr He Hm. induction ops as [|op ops IH]; intros j r Hj Hr He Hm.
  - exists r. by repeat split.
  - apply Forall_cons in Hm as [Hm Hms]. destruct (journal_op_change op max j Hj) as [Hj' Hch].
    destruct (change_keeps _ _ _ _ _ Hch Hr He Hm) as (r1 & Hr1 & Hl1 & He1).
    pose proof Hl1 as (Hid & Hev & Hcr & Hst). destruct (IH (journal_op op j) r1) as (r2 & Hr2 & (? & ? & ? & Hst2) & ?);
      [done..|by rewrite Hid|]. exists r2. split; [done|]. split; [|done]. split_and!; [congruence..|].
    intros Hc. pose proof (Hst Hc) as ->. auto.
Qed.

(** The listings: the records of a state that are not exported, in their order. *)
Lemma list_loop_spec max state j k n acc :
  journal_inv max j → k + n = mj_count j →
  list_loop state j (seq k n) acc =
  Ok (acc ++ filter (λ r, ar_State r = state ∧ ar_ExportedAt r = None) (drop k (contents j))).
Proof.
  intros Hj. pose proof Hj as (Hw & _ & Hok & _). revert k acc. induction n as [|n IH]; intros k acc Hk; simpl.
  - rewrite drop_ge by (rewrite contents_length; [lia|done]). by rewrite filter_nil, app_nil_r.
  - destruct (contents j !! k) as [r|] eqn:Hr.
    2: { apply lookup_ge_None in Hr. rewrite contents_length in Hr; [lia|done]. }
    rewrite <- contents_lookup, Hr by (done || lia). rewrite (drop_S _ _ _ Hr), filter_cons.
    destruct (bool_decide (ar_State r = state)) eqn:Hb1; destruct (bool_decide (ar_ExportedAt r = None)) eqn:Hb2;
      cbn [andb]; go_bools; [|by rewrite decide_False, IH by (tauto || lia)..].
    rewrite decide_True by done. pose proof (Forall_lookup_1 _ _ _ _ Hok Hr) as (_ & _ & -> & _). simpl.
    rewrite IH by lia. by rewrite <- app_assoc.
Qed.

Lemma listByState_spec max state j :
  journal_inv max j →
  listByState state j = Ok (filter (λ r, ar_State r = state ∧ ar_ExportedAt r = None) (contents j)).
Proof. intros Hj. unfold listByState. erewrite list_loop_spec by done. by rewrite drop_0. Qed.

(** C16: No record of the journal is lost before it was exported. Whatever
    operations follow, except the one that marks it as exported, a record that
    is not exported stays in the journal with its identifier, event and time,
    keeps its outcome once it is completed, and is shown by one of the two
    listings; a full journal without exported records refuses new ones. *)
Theorem audit_record_protected n ops1 ops2 r :
  let j1 := journal_after n ops1 in let j2 := run_ops ops2 j1 in
  r ∈ contents j1 → ar_ExportedAt r = None → Forall (λ op, ¬ marks (ar_EventID r) op) ops2 →
  (∃ r', r' ∈ contents j2 ∧ later r r' ∧ ar_ExportedAt r' = None ∧
     ∃ l, (ListPendingSecurityAudits j2 = Ok l ∨ ListUnexportedSecurityAudits j2 = Ok l) ∧ r' ∈ l) ∧
  (length (contents j1) = journal_capacity n → Forall (λ r, ar_ExportedAt r = None) (contents j1) →
   ∀ now event event', normalizeAuditEvent event now = Ok event' → ae_EventID event' = "" →
     BeginSecurityAudit now event j1 = (j1, Err ErrSecurityAuditCapacity)).
Proof.
  intros j1 j2 Hr He Hm. pose proof (journal_after_inv n ops1) as Hj1. pose proof (run_ops_inv _ ops2 _ Hj1) as Hj2. split.
  - destruct (run_ops_keeps _ ops2 _ r Hj1 Hr He Hm) as (r' & Hr' & Hl & He'). exists r'. split_and!; [done..|].
    unfold ListPendingSecurityAudits, ListUnexportedSecurityAudits. rewrite !(listByState_spec _ _ _ Hj2).
    pose proof Hj2 as (_ & _ & Hok & _). rewrite Forall_forall in Hok.
    destruct (Hok _ Hr') as (_ & _ & _ & _ & [(Hs & _)|(Hs & _)]); eexists.
    + split; [by left|]. by apply list_elem_of_filter.
    + split; [by right|]. by apply list_elem_of_filter.
  - intros Hlen Hall now event event' Hn Hid. pose proof (begin_spec _ now event j1 Hj1) as Hb. rewrite Hn in Hb.
    destruct Hb as [(i & x & _ & Hne & _)|[_ [[Hb _]|(j' & old & _ & _ & _ & Hroom & _)]]]; [done|done|].
    destruct Hroom as [[_ ?]|(i & x & Hi & Hx & _)]; [lia|]. pose proof (Forall_lookup_1 _ _ _ _ Hall Hi) as Hx'.
    rewrite Hx' in Hx. by destruct Hx.
Qed.

Definition demo_event : AuditEvent := mkAuditEvent "" "plugin.installed" "p1" "" "" "" "" "alice" 0 None.
Definition demo_record : SecurityAuditRecord :=
  begun (mkAuditEvent "" "plugin.installed" "p1" "" "" "" "" "alice" 5 None) (eventID "audit" 1).

Lemma audit_record_protected_witness :
  contents (journal_after 2 [OpBegin 5 demo_event]) = [demo_record] ∧
  ∃ r', r' ∈ contents (run_ops [OpComplete 6 "audit_000000000001" "committed" None; OpReconcile 7; OpBegin 8 demo_event;
                                OpBegin 9 demo_event] (journal_after 2 [OpBegin 5 demo_event])) ∧
    later demo_record r' ∧ ar_ExportedAt r' = None.
Proof.
  assert (contents (journal_after 2 [OpBegin 5 demo_event]) = [demo_record]) as Hc by (vm_compute; reflexivity).
  split; [exact Hc|].
  assert (demo_record ∈ contents (journal_after 2 [OpBegin 5 demo_event])) as Hin by (rewrite Hc; by left).
  assert (Forall (λ op, ¬ marks (ar_EventID demo_record) op)
    [OpComplete 6 "audit_000000000001" "committed" None; OpReconcile 7; OpBegin 8 demo_event; OpBegin 9 demo_event]) as Hm.
  { repeat constructor; intros []. }
  destruct (audit_record_protected 2 [OpBegin 5 demo_event]
    [OpComplete 6 "audit_000000000001" "committed" None; OpReconcile 7; OpBegin 8 demo_event; OpBegin 9 demo_event]
    demo_record Hin eq_refl Hm) as [(r' & H1 & H2 & H3 & _) _].
  exists r'. split_and!; [exact H1|exact H2|exact H3].
Defined.
