(* ===== verification/SecurityMutation.v ===== *)
(** * Security mutations are on record ([pkg/host/security_audit.go] over the memory journal)

    The exporter and the functions of the host, on the memory journal and any
    sink: what is acknowledged is marked, what is marked was acknowledged, and
    a mutation that ran has a completed record with its outcome. *)

From S2P Require Import Prelude GoLib SessionCtx Mutation Observability ObservabilityProps Encoding AuditDetails AuditJournal.
From S2P Require Import AuditJournalProps.

Open Scope go_scope.

Implicit Types (j : MemorySecurityAuditJournal) (r : SecurityAuditRecord) (l : list SecurityAuditRecord).

(** ** Identifiers are distinct when the journal chooses them *)

Definition ids j : list string := ar_EventID <$> contents j.

Definition own_ids j : Prop :=
  NoDup (ids j) ∧ Forall (λ id, ∃ k, (0 < k ≤ mj_nextSeq j)%Z ∧ id = eventID "audit" k) (ids j).

(** An operation that leaves the choice of the identifier to the journal. *)
Definition anonymous (op : JournalOp) : Prop :=
  match op with OpBegin _ event => TrimSpace (ae_EventID event) = "" | _ => True end.

Lemma normalized_id event now event' :
  normalizeAuditEvent event now = Ok event' → ae_EventID event' = TrimSpace (ae_EventID event).
Proof.
  unfold normalizeAuditEvent. rewrite rbind_ok. intros (c & _ & He). rewrite rbind_ok in He.
  by destruct He as ([] & _ & [= <-]).
Qed.

Lemma update_ids max j i r r' :
  journal_inv max j → contents j !! i = Some r → ar_EventID r' = ar_EventID r →
  ids (set_entry i r' j) = ids j.
Proof.
  intros (Hw & _) Hi He. unfold ids. rewrite set_entry_contents; [|done|].
  - rewrite list_fmap_insert. apply list_insert_id. by rewrite list_lookup_fmap, Hi, He.
  - rewrite <- contents_length by done. by eapply lookup_lt_Some.
Qed.

Lemma begin_ids max now event j :
  journal_inv max j → own_ids j → (mj_nextSeq j < uint64_max)%Z → TrimSpace (ae_EventID event) = "" →
  own_ids (BeginSecurityAudit now event j).1 ∧
  (mj_nextSeq j ≤ mj_nextSeq (BeginSecurityAudit now event j).1 ≤ mj_nextSeq j + 1)%Z.
Proof.
  intros Hj [Hnd Hall] Hlt Hid. pose proof (begin_spec max now event j Hj) as Hb.
  destruct (normalizeAuditEvent event now) as [event'|e] eqn:Hn; [|rewrite Hb; simpl; split; [done|lia]].
  apply normalized_id in Hn. rewrite Hid in Hn.
  destruct Hb as [(i & r & _ & Hne & _)|[_ [[-> _]|(j' & old & -> & Hi & Hseq & Hroom & Hct)]]]; simpl; [done|split; [done|lia]|].
  pose proof Hj as (_ & _ & _ & Hr). rewrite incr64_small in Hseq by lia. rewrite Hseq. split; [|lia].
  assert (sublist (ar_EventID <$> old) (ids j)) as Hsub.
  { unfold ids. destruct Hroom as [[-> _]|(k & x & _ & _ & _ & ->)]; [done|]. by apply fmap_sublist, sublist_delete. }
  assert (Forall (λ id, ∃ k, (0 < k ≤ mj_nextSeq j)%Z ∧ id = eventID "audit" k) (ar_EventID <$> old)) as Hold.
  { apply Forall_forall. intros id Hin. rewrite Forall_forall in Hall. apply Hall. by eapply elem_of_sublist. }
  unfold own_ids, ids. rewrite Hct, fmap_app. simpl. unfold begun_id. rewrite bool_decide_eq_true_2 by done.
  rewrite incr64_small by lia. split.
  - apply NoDup_app. split_and!; [by eapply sublist_NoDup|..|apply NoDup_singleton].
    intros id Hin. rewrite list_elem_of_singleton. intros ->. rewrite Forall_forall in Hold.
    destruct (Hold _ Hin) as (k & Hk & He). apply eventID_inj in He; lia.
  - apply Forall_app. split.
    + eapply Forall_impl; [exact Hold|]. intros id (k & Hk & ->). exists k. rewrite Hseq. split; [lia|done].
    + constructor; [|done]. exists (mj_nextSeq j + 1)%Z. rewrite Hseq. split; [lia|done].
Qed.

Lemma journal_op_ids max op j :
  journal_inv max j → own_ids j → (mj_nextSeq j < uint64_max)%Z → anonymous op →
  own_ids (journal_op op j) ∧ (mj_nextSeq j ≤ mj_nextSeq (journal_op op j) ≤ mj_nextSeq j + 1)%Z.
Proof.
  intros Hj Hids Hlt Han. destruct op as [now event|now id outcome details|now id|now]; simpl in *.
  - by eapply begin_ids.
  - destruct (complete_spec max now id outcome details j Hj) as [[-> _]|(i & r & d & Hi & He & _ & _ & _ & ->)]; [split; [done|lia]|].
    simpl. split; [|lia]. unfold own_ids. by rewrite (update_ids max j i r).
  - destruct (mark_spec max now id j Hj) as [[-> _]|(i & r & Hf & Hc & ->)]; [split; [done|lia]|].
    simpl. split; [|lia]. apply list_find_Some in Hf as (Hi & _). unfold own_ids. by rewrite (update_ids max j i r).
  - destruct (reconcile_spec max now j Hj) as (_ & Hs & Hct). rewrite Hs. split; [|lia].
    unfold own_ids, ids. rewrite Hct, Hs, <- list_fmap_compose.
    rewrite (list_fmap_ext (ar_EventID ∘ reconciled now) ar_EventID); [done|].
    intros k r _. unfold compose, reconciled. by case_bool_decide.
Qed.

Lemma run_ops_ids max ops j :
  journal_inv max j → own_ids j → Forall anonymous ops → (mj_nextSeq j + Z.of_nat (length ops) < uint64_max)%Z →
  own_ids (run_ops ops j) ∧ (mj_nextSeq j ≤ mj_nextSeq (run_ops ops j) ≤ mj_nextSeq j + Z.of_nat (length ops))%Z.
Proof.
  intros Hj Hids Han. revert j Hj Hids. induction Han as [|op ops Hop Hops IH]; intros j Hj Hids Hlt; simpl in *; [split; [done|lia]|].
  destruct (journal_op_ids max op j) as [Hi1 Hs1]; [done|done|lia|done|].
  destruct (journal_op_change op max j Hj) as [Hj1 _].
  destruct (IH (journal_op op j)) as [Hi2 Hs2]; [done|done|lia|]. split; [done|]. unfold run_ops in *. lia.
Qed.

Lemma journal_after_ids n ops :
  Forall anonymous ops → (Z.of_nat (length ops) < uint64_max)%Z →
  own_ids (journal_after n ops) ∧ (0 ≤ mj_nextSeq (journal_after n ops) < uint64_max)%Z.
Proof.
  intros Han Hlt. destruct (new_journal_inv n) as [Hj Hct].
  destruct (run_ops_ids _ ops _ Hj) as [Hi Hs]; [|done|simpl; lia|split; [done|simpl in *; unfold journal_after; lia]].
  unfold own_ids, ids. rewrite Hct. split; constructor.
Qed.

(** ** The exporter *)

Section export.
Context {S : Type} `{!AuditSink S}.
Implicit Types (s : S) (clock : nat → time).

(** The sink acknowledged the events, one after the other. *)
Fixpoint acked (events : list AuditEvent) s s' : Prop :=
  match events with
  | [] => s' = s
  | event :: events => ∃ s1, append_audit event s = (s1, None) ∧ acked events s1 s'
  end.

(** The records of a journal after the export of some of them. *)
Definition exported_since (done : list SecurityAuditRecord) r r' : Prop :=
  if decide (ar_EventID r ∈ ar_EventID <$> done) then ∃ t, r' = exportedRecord t r else r' = r.

Lemma record_exportable r : record_ok r → ar_State r = SecurityAuditCompleted → exportable r = true.
Proof.
  intros (Hid & _ & _ & Hv & Hpc) Hs. unfold exportable. rewrite bool_decide_eq_true_2 by done.
  destruct Hpc as [(Hp & _)|(_ & _ & Ho & Hd)]; [by rewrite Hp in Hs|]. rewrite Ho, Hd, Hv, bool_decide_eq_true_2 by done. done.
Qed.

(** Marking the first record with an identifier marks the only one. *)
Lemma mark_one max t j r :
  journal_inv max j → NoDup (ids j) → r ∈ contents j → ar_State r = SecurityAuditCompleted →
  ∃ i, contents j !! i = Some r ∧
    MarkSecurityAuditExported t (ar_EventID r) j = (set_entry i (exportedRecord (UTC t) r) j, Ok tt).
Proof.
  intros Hj Hnd Hr Hs. pose proof Hj as (Hw & _ & Hok & _). apply list_elem_of_lookup in Hr as [i Hi].
  pose proof (Forall_lookup_1 _ _ _ _ Hok Hi) as (_ & Hst & _). apply stable_nonempty in Hst as [_ Htr].
  exists i. split; [done|]. unfold MarkSecurityAuditExported. rewrite Htr, find_spec by done.
  assert (list_find (λ x, ar_EventID x = ar_EventID r) (contents j) = Some (i, r)) as ->.
  { apply list_find_Some. split_and!; [done|done|]. intros k x Hk Hlt He.
    assert (k = i); [|lia]. apply (NoDup_lookup _ _ _ (ar_EventID r) Hnd); unfold ids; rewrite list_lookup_fmap, ?Hi, ?Hk; simpl; congruence. }
  by rewrite bool_decide_eq_true_2.
Qed.

Lemma exported_since_refl l : Forall2 (exported_since []) l l.
Proof. apply Forall_Forall2_diag, Forall_true. intros r. unfold exported_since. by rewrite decide_False by set_solver. Qed.

Lemma exported_since_step t i r done l l' :
  NoDup (ar_EventID <$> l) → l !! i = Some r → Forall2 (exported_since done) (<[i := exportedRecord t r]> l) l' →
  ar_EventID r ∉ (ar_EventID <$> done) → Forall2 (exported_since (r :: done)) l l'.
Proof.
  intros Hnd Hi Hf Hnin. apply Forall2_same_length_lookup. split.
  { apply Forall2_length in Hf. by rewrite length_insert in Hf. }
  intros k x x' Hx Hx'. destruct (decide (k = i)) as [->|Hne].
  - assert (x = r) as -> by congruence. pose proof (Forall2_lookup_lr _ _ _ _ _ _ Hf (list_lookup_insert_eq _ _ _ (lookup_lt_Some _ _ _ Hi)) Hx') as Hs.
    unfold exported_since in *. rewrite decide_True by (simpl; set_solver). cbn [exportedRecord ar_EventID] in Hs.
    rewrite decide_False in Hs by done. eauto.
  - assert (<[i := exportedRecord t r]> l !! k = Some x) as Hk by (by rewrite list_lookup_insert_ne).
    pose proof (Forall2_lookup_lr _ _ _ _ _ _ Hf Hk Hx') as Hs. unfold exported_since in *. simpl.
    assert (ar_EventID x ≠ ar_EventID r) as Hid.
    { intros He. apply Hne. apply (NoDup_lookup _ _ _ (ar_EventID r) Hnd); rewrite list_lookup_fmap, ?Hi, ?Hx; simpl; congruence. }
    destruct (decide (ar_EventID x ∈ ar_EventID <$> done)) as [Hd|Hd].
    + by rewrite decide_True by (apply elem_of_cons; by right).
    + rewrite decide_False; [done|]. rewrite elem_of_cons. tauto.
Qed.

(** The loop exports the records in order until the sink refuses one. *)
Lemma export_loop_spec max clock records j s :
  journal_inv max j → NoDup (ids j) → NoDup (ar_EventID <$> records) →
  Forall (λ r, r ∈ contents j ∧ ar_State r = SecurityAuditCompleted) records →
  ∃ done rest j' s', records = done ++ rest ∧ journal_inv max j' ∧
    Forall2 (exported_since done) (contents j) (contents j') ∧
    (rest = [] ∧ acked (exportEvent <$> done) s s' ∧ export_loop clock records j s = (j', s', None) ∨
     ∃ r rest' s1 e, rest = r :: rest' ∧ acked (exportEvent <$> done) s s1 ∧
       append_audit (exportEvent r) s1 = (s', Some e) ∧ export_loop clock records j s = (j', s', Some (SinkError e))).
Proof.
  revert j s. induction records as [|r records IH]; intros j s Hj Hnd Hndr Hall; simpl.
  { exists [], [], j, s. split_and!; [done|done|apply exported_since_refl|by left]. }
  apply Forall_cons in Hall as [[Hr Hs] Hall]. pose proof Hj as (_ & _ & Hok & _).
  assert (record_ok r) as Hrok by (rewrite Forall_forall in Hok; by apply Hok).
  pose proof Hrok as (_ & _ & -> & _). rewrite record_exportable by done. simpl.
  destruct (append_audit (exportEvent r) s) as [s1 [e|]] eqn:Ha.
  { exists [], (r :: records), j, s1. split_and!; [done|done|apply exported_since_refl|]. right.
    exists r, records, s, e. done. }
  destruct (mark_one max (clock (length records)) j r Hj Hnd Hr Hs) as (i & Hi & ->).
  assert (record_step (OpMark (clock (length records)) (ar_EventID r)) r (exportedRecord (UTC (clock (length records))) r)) as Hst.
  { eapply step_mark; [done..|]. symmetry. by apply stable_nonempty, Hrok. }
  destruct (update_inv _ _ _ _ _ _ Hj Hi Hst) as [Hj1 Hct]. rewrite fmap_cons in Hndr. apply NoDup_cons in Hndr as [Hnin Hndr].
  destruct (IH (set_entry i (exportedRecord (UTC (clock (length records))) r) j) s1) as (done & rest & j' & s' & -> & Hj' & Hf & Hres).
  - done.
  - by rewrite (update_ids max j i r).
  - done.
  - rewrite Forall_forall in Hall |- *. intros x Hx. destruct (Hall x Hx) as [Hin Hxs]. split; [|done]. rewrite Hct.
    apply list_elem_of_lookup in Hin as [k Hk]. apply list_elem_of_lookup. exists k. rewrite list_lookup_insert_ne; [done|].
    intros ->. assert (x = r) as -> by congruence. apply Hnin. by apply list_elem_of_fmap_2.
  - exists (r :: done), rest, j', s'. split; [done|]. split; [done|]. split.
    + rewrite Hct in Hf. eapply exported_since_step; [done|done|exact Hf|].
      intros Hin. apply Hnin. rewrite fmap_app. apply elem_of_app. by left.
    + destruct Hres as [(-> & Hack & Hex)|(r' & rest' & s2 & e & -> & Hack & Hre & Hex)].
      * left. split_and!; [done| |done]. simpl. eauto.
      * right. exists r', rest', s2, e. split_and!; [done| |done|done]. simpl. eauto.
Qed.

Lemma unexported_listed max j :
  journal_inv max j → list_unexported j = Ok (filter (λ r, ar_State r = SecurityAuditCompleted ∧ ar_ExportedAt r = None) (contents j)).
Proof. apply listByState_spec. Qed.

Lemma Export_spec max clock j s :
  journal_inv max j → NoDup (ids j) →
  ∃ done rest j' s', filter (λ r, ar_State r = SecurityAuditCompleted ∧ ar_ExportedAt r = None) (contents j) = done ++ rest ∧
    journal_inv max j' ∧ Forall2 (exported_since done) (contents j) (contents j') ∧
    (rest = [] ∧ acked (exportEvent <$> done) s s' ∧ Export clock j s = (j', s', None) ∨
     ∃ r rest' s1 e, rest = r :: rest' ∧ acked (exportEvent <$> done) s s1 ∧
       append_audit (exportEvent r) s1 = (s', Some e) ∧ Export clock j s = (j', s', Some (SinkError e))).
Proof.
  intros Hj Hnd. unfold Export. rewrite (unexported_listed max) by done. apply export_loop_spec; [done|done|..].
  - eapply sublist_NoDup; [exact Hnd|]. apply fmap_sublist, sublist_filter.
  - apply Forall_forall. intros r Hr. by apply list_elem_of_filter in Hr as [[? ?] ?].
Qed.
End export.

(** ** Security mutations *)

Lemma complete_one max t outcome details d j r :
  journal_inv max j → NoDup (ids j) → r ∈ contents j → pending r → validMutationOutcome outcome = true →
  cloneAuditDetails details = Ok d →
  ∃ i, contents j !! i = Some r ∧
    CompleteSecurityAudit t (ar_EventID r) outcome details j = (set_entry i (completedRecord (UTC t) outcome d r) j, Ok tt).
Proof.
  intros Hj Hnd Hr (Hs & _) Ho Hd. pose proof Hj as (Hw & _ & Hok & _). apply list_elem_of_lookup in Hr as [i Hi].
  pose proof (Forall_lookup_1 _ _ _ _ Hok Hi) as (_ & Hst & _). apply stable_nonempty in Hst as [Hne Htr].
  exists i. split; [done|]. unfold CompleteSecurityAudit. rewrite Ho, Hd, Htr, find_spec by done. simpl.
  rewrite bool_decide_eq_false_2 by done.
  assert (list_find (λ x, ar_EventID x = ar_EventID r) (contents j) = Some (i, r)) as ->.
  { apply list_find_Some. split_and!; [done|done|]. intros k x Hk Hlt He.
    assert (k = i); [|lia]. apply (NoDup_lookup _ _ _ (ar_EventID r) Hnd); unfold ids; rewrite list_lookup_fmap, ?Hi, ?Hk; simpl; congruence. }
  by rewrite bool_decide_eq_false_2 by (by rewrite Hs).
Qed.

Lemma ForError_valid e : validMutationOutcome (ForError (Some e)) = true.
Proof.
  unfold ForError, Explicit. destruct (Some e ≫= asMutationError) as [[o i]|]; [|done].
  destruct (bool_decide (o = OutcomeCommitted) || bool_decide (o = OutcomeNotCommitted) || bool_decide (o = OutcomeUnknown)) eqn:H; [|done].
  exact H.
Qed.

(** The outcome that is recorded for an operation. *)
Definition operation_outcome (operationErr : option goerror) : Outcome :=
  match operationErr with None => OutcomeCommitted | Some _ => ForError operationErr end.

Lemma failure_details_clone :
  ∃ d, cloneAuditDetails (Some {["failure" := AFailure (mkFailure "action_failure" "security" "security_mutation.complete")]}) = Ok d.
Proof. eexists. vm_compute. reflexivity. Qed.

(** The record of a mutation after [completeWithDetails]. *)
Definition on_record j' (event : AuditEvent) (id : string) (outcome : Outcome) : Prop :=
  ∃ r, r ∈ contents j' ∧ ar_EventID r = id ∧ ar_Event r = ar_Event (begun event id) ∧
    ar_State r = SecurityAuditCompleted ∧ ar_Outcome r = outcome.

Section mutations.
Context {S : Type} `{!AuditSink S}.
Implicit Types (s : S) (clock : nat → time).

Lemma exported_since_outcome done r r' :
  exported_since done r r' →
  ar_EventID r' = ar_EventID r ∧ ar_Event r' = ar_Event r ∧ ar_State r' = ar_State r ∧ ar_Outcome r' = ar_Outcome r.
Proof. unfold exported_since. case_decide; [intros (t & ->)|intros ->]; done. Qed.

(** Everything that was completed is exported, and the sink acknowledged it. *)
Definition all_exported j' (id : string) s s' : Prop :=
  ListUnexportedSecurityAudits j' = Ok [] ∧
  ∃ events, acked events s s' ∧ id ∈ ae_EventID <$> events.

Lemma nothing_unexported done l l' :
  filter (λ r, ar_State r = SecurityAuditCompleted ∧ ar_ExportedAt r = None) l = done →
  Forall2 (exported_since done) l l' →
  filter (λ r, ar_State r = SecurityAuditCompleted ∧ ar_ExportedAt r = None) l' = [].
Proof.
  intros Hd Hf. destruct (filter _ l') as [|x xs] eqn:Hx; [done|]. exfalso.
  assert (x ∈ filter (λ r, ar_State r = SecurityAuditCompleted ∧ ar_ExportedAt r = None) l') as Hin by (rewrite Hx; by left).
  apply list_elem_of_filter in Hin as [[Hs He] Hin]. apply list_elem_of_lookup in Hin as [k Hk].
  destruct (Forall2_lookup_r _ _ _ _ _ Hf Hk) as (r & Hr & Hes). unfold exported_since in Hes. case_decide as Hid.
  - destruct Hes as [t ->]. done.
  - subst x. apply Hid. apply list_elem_of_fmap_2. rewrite <- Hd. apply list_elem_of_filter. split; [done|].
    by eapply list_elem_of_lookup_2.
Qed.

Lemma complete_mutation max now clock event id operationErr j s :
  journal_inv max j → NoDup (ids j) → begun event id ∈ contents j →
  ∃ j' s' e, completeWithDetails now clock id operationErr None j s = (j', s', e) ∧
    on_record j' event id (operation_outcome operationErr) ∧
    (e = operationErr ∧ all_exported j' id s s' ∨
     e = unknownOutcome operationErr (Wrapped "export security audit" ErrSecurityEventPersistence) ∧
     ∃ event s1 err, append_audit event s1 = (s', Some err)).
Proof.
  intros Hj Hnd Hr. set (r0 := begun event id) in *. unfold completeWithDetails.
  assert (validMutationOutcome (operation_outcome operationErr) = true) as Ho.
  { destruct operationErr; [apply ForError_valid|done]. }
  fold (operation_outcome operationErr). set (details := match operationErr with None => None | Some _ => _ end).
  assert (∃ d, cloneAuditDetails details = Ok d) as [d Hd].
  { unfold details. destruct operationErr; [|by eexists]. simpl. rewrite insert_empty. apply failure_details_clone. }
  destruct (complete_one max now (operation_outcome operationErr) details d j r0) as (i & Hi & Hc); [done..|].
  change (complete_audit now id (operation_outcome operationErr) details j) with
    (CompleteSecurityAudit now (ar_EventID r0) (operation_outcome operationErr) details j). rewrite Hc.
  set (r1 := completedRecord (UTC now) (operation_outcome operationErr) d r0) in *.
  assert (record_step (OpComplete now id (operation_outcome operationErr) details) r0 r1) as Hst.
  { eapply step_complete; [done|done| |done|done]. pose proof Hj as (_ & _ & Hok & _).
    pose proof (Forall_lookup_1 _ _ _ _ Hok Hi) as (_ & Hsv & _). symmetry. by apply stable_nonempty in Hsv as [_ ?]. }
  destruct (update_inv _ _ _ _ _ _ Hj Hi Hst) as [Hj1 Hct].
  destruct (Export_spec max clock (set_entry i r1 j) s Hj1) as (done & rest & j' & s' & Hfl & Hj' & Hf & Hres).
  { by rewrite (update_ids max j i r0). }
  assert (contents (set_entry i r1 j) !! i = Some r1) as Hi1.
  { rewrite Hct. apply list_lookup_insert_eq. by eapply lookup_lt_Some. }
  destruct (Forall2_lookup_l _ _ _ _ _ Hf Hi1) as (r2 & Hi2 & Hs2).
  destruct (exported_since_outcome _ _ _ Hs2) as (H1 & H2 & H3 & H4).
  assert (on_record j' event id (operation_outcome operationErr)) as Hon.
  { exists r2. split_and!; [by eapply list_elem_of_lookup_2|by rewrite H1|by rewrite H2|by rewrite H3|by rewrite H4]. }
  destruct Hres as [(-> & Hack & ->)|(r & rest' & s1 & e & -> & Hack & Hre & ->)].
  - exists j', s', operationErr. split_and!; [done..|]. left. split; [done|]. rewrite app_nil_r in Hfl. split.
    + unfold ListUnexportedSecurityAudits. rewrite (listByState_spec _ _ _ Hj'). f_equal.
      by apply (nothing_unexported done (contents (set_entry i r1 j))).
    + eexists. split; [exact Hack|]. assert (r1 ∈ done) as Hin.
      { rewrite <- Hfl. apply list_elem_of_filter. split; [done|]. by eapply list_elem_of_lookup_2. }
      apply (list_elem_of_fmap_2' _ _ (exportEvent r1)); [|done]. by apply list_elem_of_fmap_2.
  - exists j', s', (unknownOutcome operationErr (Wrapped "export security audit" ErrSecurityEventPersistence)).
    split_and!; [done..|]. right. split; [done|]. eauto.
Qed.

End mutations.

(** A sink that keeps everything, and one mutation. *)
#[local] Instance list_sink : AuditSink (list AuditEvent) := λ event events, (events ++ [event], None).

Definition demo_run : MemorySecurityAuditJournal * list AuditEvent * nat * option goerror :=
  runSecurityMutation 6 7 (λ _, 8%Z) demo_event (λ w : nat, (w + 1, None))
    (journal_after 2 [OpBegin 5 demo_event]) ([] : list AuditEvent) 41.


(** The memory sink stores an event once, however often it is delivered. *)
Lemma redelivery_ignored now event s s' :
  ring_wf (as_auditEvents s) → TrimSpace (ae_EventID event) ≠ "" →
  AppendPluginAudit now event s = (s', Ok tt) → AppendPluginAudit now event s' = (s', Ok tt).
Proof.
  intros Hw Hid. unfold AppendPluginAudit. destruct (normalizeAuditEvent event now) as [event'|e] eqn:Hn; [|done].
  apply normalized_id in Hn. rewrite <- Hn in Hid. rewrite bool_decide_eq_false_2 by done. simpl.
  destruct (existsb _ (Snapshot (as_auditEvents s))) eqn:Hx; [intros [= <-]; by rewrite Hx|].
  intros [= <-]. cbn [as_auditEvents]. rewrite Push_Snapshot by done.
  destruct Hw as (Hn0 & _). destruct (length (fr_values (as_auditEvents s))) as [|k]; [lia|].
  rewrite lastn_snoc, existsb_app. cbn [existsb ae_EventID]. rewrite bool_decide_eq_true_2 by done. by rewrite !orb_true_r.
Qed.
