(* ===== verification/Manager.v ===== *)
(** * The manager of runtime shards ([internal/runtimeclient/manager.go])

    A fixed number of runtime processes, the shards, behind one manager: it
    starts and stops them together, sends the calls of a plugin to the shard
    its name hashes to, and revokes a session on all of them. The processes
    are anything that implements [processShard]. *)

From stdpp Require Import pretty.
From S2P Require Import Prelude GoLib SessionCtx Encoding Json Lease.

Open Scope go_scope.

(** ** Identities, limits and options *)

(** [pkg/runtimetarget]: a target is a number from 1 to 4. *)
Definition Target := Z.
Definition DarwinAMD64 : Target := 1%Z.
Definition LinuxARM64 : Target := 4%Z.
Definition Target_Validate (target : Target) : bool := negb ((target <? DarwinAMD64)%Z || (LinuxARM64 <? target)%Z).

Record RuntimeArtifactIdentity := mkIdentity {
  ai_platformVersion : string;
  ai_target : Target;
  ai_binarySHA256 : string;
}.

#[export] Instance RuntimeArtifactIdentity_eq_dec : EqDecision RuntimeArtifactIdentity.
Proof. solve_decision. Defined.

Definition zeroIdentity : RuntimeArtifactIdentity := mkIdentity "" 0%Z "".

(** [^[0-9a-f]{64}$] *)
Definition lowerSHA256Pattern (value : string) : bool :=
  (len value =? 64)%Z && forallb (λ c, byte_in 48 57 c || byte_in 97 102 c) (String.list_ascii_of_string value).

Record RuntimeLimits := mkLimits {
  rl_WorkerCount : Z;
  rl_QueueCapacity : Z;
  rl_PerPluginConcurrency : Z;
  rl_ModuleCacheEntries : Z;
  rl_ModuleCacheSourceBytes : Z;
}.

#[export] Instance RuntimeLimits_eq_dec : EqDecision RuntimeLimits.
Proof. solve_decision. Defined.

Definition within (lo hi x : Z) : bool := negb ((x <? lo)%Z || (hi <? x)%Z).

Definition ValidateRuntimeLimits (limits : RuntimeLimits) : bool :=
  within 1 64 (rl_WorkerCount limits) && within 1 64 (rl_QueueCapacity limits) &&
  within 1 64 (rl_PerPluginConcurrency limits) &&
  negb (rl_WorkerCount limits <? rl_PerPluginConcurrency limits)%Z &&
  within 1 1024 (rl_ModuleCacheEntries limits) && within 1 (Z.shiftl 128 20) (rl_ModuleCacheSourceBytes limits).

(** The options that are checked; the files and services are there or not. *)
Record ProcessSupervisorOptions := mkSupervisorOptions {
  so_RuntimePath : string;
  so_RuntimeExecutable : bool;
  so_RuntimeExecutionRoot : bool;
  so_ArtifactIdentity : RuntimeArtifactIdentity;
  so_StreamSink : bool;
  so_IOBroker : bool;
  so_HandshakeTimeout : Z;
  so_HeartbeatInterval : Z;
  so_MaxHeartbeatStaleness : Z;
  so_Limits : RuntimeLimits;
}.

Record ModuleCacheMetrics := mkModuleCache {
  mc_Hits : Z; mc_Misses : Z; mc_Compiles : Z; mc_Entries : Z; mc_SourceBytes : Z;
}.

Record Health := mkHealth {
  he_RuntimeInstanceID : string;
  he_RuntimeGenerationID : string;
  he_IPCChannelID : string;
  he_ConnectionNonce : string;
  he_ContainmentIdentity : string;
  he_ArtifactIdentity : RuntimeArtifactIdentity;
  he_Ready : bool;
  he_ActiveInvocations : Z;
  he_QueuedInvocations : Z;
  he_Limits : RuntimeLimits;
  he_ModuleCache : ModuleCacheMetrics;
}.

Record RuntimeBinding := mkBinding {
  rb_RuntimeShardID : string;
  rb_RuntimeInstanceID : string;
  rb_RuntimeGenerationID : string;
  rb_IPCChannelID : string;
  rb_ConnectionNonce : string;
  rb_ArtifactIdentity : RuntimeArtifactIdentity;
}.

#[export] Instance RuntimeBinding_eq_dec : EqDecision RuntimeBinding.
Proof. solve_decision. Defined.

Record ManagerHealth := mkManagerHealth {
  mh_Ready : bool;
  mh_ArtifactIdentity : RuntimeArtifactIdentity;
  mh_Shards : list (string * Health);
}.

Record PrewarmWorkerRequest := mkPrewarm {
  pw_PluginInstanceID : string;
  pw_WorkerID : string;
  pw_Artifact : string * string * string;
}.

Record RevokeRequest := mkRevokeRequest {
  rq_ResourceScope : ResourceScope;
  rq_PluginInstanceID : string;
  rq_RevokeEpoch : Z;
}.

Record RevokeResult := mkRevokeResult {
  rr_ResourceScope : ResourceScope;
  rr_PluginInstanceID : string;
  rr_RevokeEpoch : Z;
  rr_ClosedSocketCount : Z;
  rr_ClosedStreamCount : Z;
  rr_ClosedStorageHandleCount : Z;
  rr_RuntimeStopped : bool;
}.

Record SessionRevokeRequest := mkSessionRevokeRequest {
  sq_SessionScope : SessionScope;
  sq_SessionRevokeSequence : Z;
}.

Record SessionRevokeCounts := mkCounts {
  ct_QueuedInvocations : Z;
  ct_RunningInvocations : Z;
  ct_StorageHostcalls : Z;
  ct_ActiveNetworkRequests : Z;
  ct_Sockets : Z;
  ct_NetworkStreams : Z;
}.

Record SessionRevokeShardResult := mkShardResult {
  sh_RuntimeShardID : string;
  sh_RuntimeGenerationID : string;
  sh_State : string;
  sh_Counts : SessionRevokeCounts;
}.

Record SessionRevokeResult := mkSessionRevokeResult {
  sv_SessionScope : SessionScope;
  sv_SessionRevokeSequence : Z;
  sv_Shards : list SessionRevokeShardResult;
  sv_Counts : SessionRevokeCounts;
  sv_RuntimeStopped : bool;
}.

(** ** Errors *)

(** What [stopProcessShards] reports: the errors of the stops that ended in
    time, and whether its context ended first. *)
Record StopError := mkStopError { st_errors : list nat; st_deadline : bool }.

#[export] Instance StopError_eq_dec : EqDecision StopError.
Proof. solve_decision. Defined.

Inductive ManagerError :=
| ErrRuntimeShardCount
| ErrRuntimeBindingInvalid
| ErrRuntimeHostServicesInvalid
| ErrRuntimeHostServicesRequired
| ErrRuntimeHostServicesBound
| ErrRuntimePathRequired
| ErrRuntimeArtifactIdentityInvalid
| ErrRuntimeArtifactIdentityMismatch
| ErrRuntimeLimitsInvalid
| ErrRuntimeTimingInvalid
| ErrRuntimeNotReady
| ErrRuntimeRequestFailed
| ErrTargetUnsupported
| ShardError (e : nat)
| ManagerCtx (e : CtxErr)
| StopFailed (e : StopError)
| ManagerLifecycleOutcomeUnknown (cause : ManagerError) (rollback : StopError)
| ManagerJoined (errs : list ManagerError).

(** ** The interface of a process *)

(** An answer is a value or the number of an error; a call may change the process. *)
Class processShard (P : Type) := {
  ps_Preflight : Target → P → P * Result nat RuntimeArtifactIdentity;
  ps_Start : Target → P → P * option nat;
  ps_Stop : P → P * option nat;
  ps_Health : P → P * Result nat Health;
  ps_PrewarmWorker : PrewarmWorkerRequest → P → P * option nat;
  ps_InvokeWorker : Lease → string → bytes → P → P * Result nat bytes;
  ps_Revoke : RevokeRequest → P → P * Result nat RevokeResult;
  ps_RevokeSession : SessionRevokeRequest → P → P * Result nat SessionRevokeShardResult;
}.

Section manager.
Context (platform : string) (sha256 : string → string).
Context {P : Type} `{!processShard P}.

(** [RuntimeArtifactIdentity.CompatibleWithPlatform]; [platform] is the version
    this build reports. *)
Definition CompatibleWithPlatform (i : RuntimeArtifactIdentity) : bool :=
  bool_decide (ai_platformVersion i = platform) && Target_Validate (ai_target i) &&
  lowerSHA256Pattern (ai_binarySHA256 i).

Definition validateProcessSupervisorOptions (options : ProcessSupervisorOptions) (requireHostServices : bool) :
    Result ManagerError unit :=
  guard! negb (Bool.eqb (bool_decide (TrimSpace (so_RuntimePath options) = "")) (negb (so_RuntimeExecutable options)))
    else ErrRuntimePathRequired in
  guard! Bool.eqb (so_RuntimeExecutable options) (so_RuntimeExecutionRoot options) else ErrRuntimePathRequired in
  guard! negb (bool_decide (ai_platformVersion (so_ArtifactIdentity options) = ""))
    else ErrRuntimeArtifactIdentityInvalid in
  guard! CompatibleWithPlatform (so_ArtifactIdentity options) else ErrRuntimeArtifactIdentityMismatch in
  guard! ValidateRuntimeLimits (so_Limits options) else ErrRuntimeLimitsInvalid in
  guard! (0 <? so_HandshakeTimeout options)%Z else ErrRuntimeTimingInvalid in
  guard! (0 <? so_HeartbeatInterval options)%Z else ErrRuntimeTimingInvalid in
  guard! (0 <? so_MaxHeartbeatStaleness options)%Z else ErrRuntimeTimingInvalid in
  guard! negb (so_MaxHeartbeatStaleness options <? so_HeartbeatInterval options)%Z else ErrRuntimeTimingInvalid in
  guard! negb (requireHostServices && negb (so_StreamSink options)) else ErrRuntimeHostServicesInvalid in
  guard! negb (requireHostServices && negb (so_IOBroker options)) else ErrRuntimeHostServicesInvalid in
  Ok tt.

Definition minProcessManagerShards : Z := 1.
Definition maxProcessManagerShards : Z := 16.

(** A shard: its name and its process. *)
Notation Shard := (string * P)%type.

Record ProcessManager := mkManager {
  pm_shardCount : Z;
  pm_supervisor : ProcessSupervisorOptions;
  pm_bound : bool;
  pm_shards : list Shard;
}.

Definition newProcessManager (shardCount : Z) (supervisor : ProcessSupervisorOptions) : Result ManagerError ProcessManager :=
  guard! negb ((shardCount <? minProcessManagerShards)%Z || (maxProcessManagerShards <? shardCount)%Z)
    else ErrRuntimeShardCount in
  guard! negb (so_StreamSink supervisor || so_IOBroker supervisor) else ErrRuntimeHostServicesInvalid in
  let? _ := validateProcessSupervisorOptions supervisor false in
  Ok (mkManager shardCount supervisor false []).

(** [fmt.Sprintf("runtime_shard_%02d", index)] *)
Definition shardName (index : nat) : string :=
  "runtime_shard_" +:+ (if index <? 10 then "0" else "") +:+ pretty index.

(** The loop of [BindHostServices]; [factory] answers the creation of each shard. *)
Fixpoint createShards (factory : nat → Result nat P) (index n : nat) : Result ManagerError (list Shard) :=
  match n with
  | O => Ok []
  | S n =>
     match factory index with
     | Err e => Err (ShardError e)
     | Ok process =>
        let? rest := createShards factory (S index) n in Ok ((shardName index, process) :: rest)
     end
  end.

Definition BindHostServices (streamSink ioBroker : bool) (factory : nat → Result nat P) (m : ProcessManager) :
    ProcessManager * Result ManagerError unit :=
  if negb streamSink then (m, Err ErrRuntimeHostServicesInvalid)
  else if negb ioBroker then (m, Err ErrRuntimeHostServicesInvalid)
  else if pm_bound m then (m, Err ErrRuntimeHostServicesBound)
  else match createShards factory 0 (Z.to_nat (pm_shardCount m)) with
  | Err e => (m, Err e)
  | Ok shards => (mkManager (pm_shardCount m) (pm_supervisor m) true shards, Ok tt)
  end.

(** ** Stopping shards

    [stopProcessShards] stops the marked shards at the same time and waits for
    the answers; [arrived] says which of them come before its context ends. The
    stops that have not answered then go on. *)
Fixpoint stop_marked (marks : list bool) (shards : list Shard) : list Shard * list (option nat) :=
  match marks, shards with
  | mark :: marks, (id, process) :: shards =>
     let '(rest, answers) := stop_marked marks shards in
     if mark then let '(process, e) := ps_Stop process in ((id, process) :: rest, e :: answers)
     else ((id, process) :: rest, answers)
  | _, _ => (shards, [])
  end.

Definition stop_error (arrived : nat → bool) (answers : list (option nat)) : option StopError :=
  let in_time := omap (λ x, if arrived x.1 then x.2 else None) (imap pair answers) in
  let deadline := negb (forallb arrived (seq 0 (length answers))) in
  match in_time, deadline with
  | [], false => None
  | _, _ => Some (mkStopError in_time deadline)
  end.

Definition stopProcessShards (arrived : nat → bool) (marks : list bool) (shards : list Shard) :
    list Shard * option StopError :=
  let '(shards, answers) := stop_marked marks shards in (shards, stop_error arrived answers).

Definition all_shards (shards : list Shard) : list bool := replicate (length shards) true.

Definition Stop (arrived : nat → bool) (m : ProcessManager) : ProcessManager * option ManagerError :=
  if negb (pm_bound m) then (m, Some ErrRuntimeHostServicesRequired)
  else
    let '(shards, e) := stopProcessShards arrived (all_shards (pm_shards m)) (pm_shards m) in
    (mkManager (pm_shardCount m) (pm_supervisor m) (pm_bound m) shards, StopFailed <$> e).

(** ** Preflight, health and start *)

Fixpoint preflight_loop (target : Target) (expected : RuntimeArtifactIdentity) (shards : list Shard) :
    list Shard * Result ManagerError RuntimeArtifactIdentity :=
  match shards with
  | [] => ([], Ok expected)
  | (id, process) :: rest =>
     let '(process, answer) := ps_Preflight target process in
     match answer with
     | Err e => ((id, process) :: rest, Err (ShardError e))
     | Ok descriptor =>
        if negb (bool_decide (ai_target descriptor = target)) then
          ((id, process) :: rest, Err ErrRuntimeArtifactIdentityMismatch)
        else if negb (CompatibleWithPlatform descriptor) then
          ((id, process) :: rest, Err ErrRuntimeArtifactIdentityMismatch)
        else if bool_decide (ai_platformVersion expected = "") then
          let '(rest, r) := preflight_loop target descriptor rest in ((id, process) :: rest, r)
        else if negb (bool_decide (descriptor = expected)) then
          ((id, process) :: rest, Err ErrRuntimeArtifactIdentityMismatch)
        else let '(rest, r) := preflight_loop target expected rest in ((id, process) :: rest, r)
     end
  end.

Definition preflight (target : Target) (shards : list Shard) : list Shard * Result ManagerError RuntimeArtifactIdentity :=
  if negb (Target_Validate target) then (shards, Err ErrTargetUnsupported)
  else
    let '(shards, r) := preflight_loop target zeroIdentity shards in
    match r with
    | Err e => (shards, Err e)
    | Ok expected =>
       if bool_decide (ai_platformVersion expected = "") then (shards, Err ErrRuntimeNotReady) else (shards, Ok expected)
    end.

Definition Preflight (ctxErr : option CtxErr) (target : Target) (m : ProcessManager) :
    ProcessManager * Result ManagerError RuntimeArtifactIdentity :=
  match ctxErr with
  | Some e => (m, Err (ManagerCtx e))
  | None =>
     if negb (pm_bound m) then (m, Err ErrRuntimeHostServicesRequired)
     else
       let '(shards, r) := preflight target (pm_shards m) in
       (mkManager (pm_shardCount m) (pm_supervisor m) (pm_bound m) shards, r)
  end.

(** The first loop of [health]. *)
Fixpoint health_loop (shards : list Shard) : list Shard * Result ManagerError (list (string * Health)) :=
  match shards with
  | [] => ([], Ok [])
  | (id, process) :: rest =>
     let '(process, answer) := ps_Health process in
     match answer with
     | Err e => ((id, process) :: rest, Err (ShardError e))
     | Ok h =>
        let '(rest, r) := health_loop rest in
        ((id, process) :: rest, match r with Ok hs => Ok ((id, h) :: hs) | Err e => Err e end)
     end
  end.

Definition health (shards : list Shard) : list Shard * Result ManagerError ManagerHealth :=
  let '(shards', r) := health_loop shards in
  match r with
  | Err e => (shards', Err e)
  | Ok hs =>
     let ready := (0 <? length shards) && forallb (λ x, he_Ready x.2) hs in
     match hs with
     | [] => (shards', Ok (mkManagerHealth ready zeroIdentity hs))
     | (_, first) :: others =>
        if forallb (λ x, bool_decide (he_ArtifactIdentity x.2 = he_ArtifactIdentity first)) others
        then (shards', Ok (mkManagerHealth ready (he_ArtifactIdentity first) hs))
        else (shards', Err ErrRuntimeArtifactIdentityMismatch)
     end
  end.

Definition HealthOf (m : ProcessManager) : ProcessManager * Result ManagerError ManagerHealth :=
  if negb (pm_bound m) then (m, Err ErrRuntimeHostServicesRequired)
  else
    let '(shards, r) := health (pm_shards m) in
    (mkManager (pm_shardCount m) (pm_supervisor m) (pm_bound m) shards, r).

(** The loop of [Start]: the shards, which of them it started, and the error
    that ended it. *)
Fixpoint start_loop (target : Target) (descriptor : RuntimeArtifactIdentity) (shards : list Shard) :
    list Shard * list bool * option ManagerError :=
  match shards with
  | [] => ([], [], None)
  | (id, process) :: rest =>
     let unstarted := replicate (length rest) false in
     let '(process, answer) := ps_Health process in
     match answer with
     | Err e => ((id, process) :: rest, false :: unstarted, Some (ShardError e))
     | Ok h =>
        if he_Ready h then
          if negb (bool_decide (he_ArtifactIdentity h = descriptor)) then
            ((id, process) :: rest, false :: unstarted, Some ErrRuntimeArtifactIdentityMismatch)
          else
            let '(rest, started, e) := start_loop target descriptor rest in ((id, process) :: rest, false :: started, e)
        else
          match ps_Start target process with
          | (process, Some e) => ((id, process) :: rest, false :: unstarted, Some (ShardError e))
          | (process, None) =>
             let '(rest, started, e) := start_loop target descriptor rest in ((id, process) :: rest, true :: started, e)
          end
     end
  end.

Definition managerStartError (cause : ManagerError) (rollbackErr : option StopError) : ManagerError :=
  match rollbackErr with None => cause | Some e => ManagerLifecycleOutcomeUnknown cause e end.

(** [rollbackProcessShards] and the error of [Start]. *)
Definition rollback (arrived : nat → bool) (started : list bool) (cause : ManagerError) (shards : list Shard) :
    list Shard * Result ManagerError ManagerHealth :=
  let '(shards, e) := stopProcessShards arrived started shards in (shards, Err (managerStartError cause e)).

Definition startShards (arrived : nat → bool) (target : Target) (shards : list Shard) :
    list Shard * Result ManagerError ManagerHealth :=
  let '(shards, r) := preflight target shards in
  match r with
  | Err e => (shards, Err e)
  | Ok descriptor =>
     let '(shards, started, e) := start_loop target descriptor shards in
     match e with
     | Some e => rollback arrived started e shards
     | None =>
        let '(shards, r) := health shards in
        match r with
        | Err e => rollback arrived started e shards
        | Ok h =>
           if negb (mh_Ready h) then rollback arrived started ErrRuntimeNotReady shards
           else if negb (bool_decide (mh_ArtifactIdentity h = descriptor)) then
             rollback arrived started ErrRuntimeArtifactIdentityMismatch shards
           else (shards, Ok h)
        end
     end
  end.

Definition Start (arrived : nat → bool) (ctxErr : option CtxErr) (target : Target) (m : ProcessManager) :
    ProcessManager * Result ManagerError ManagerHealth :=
  match ctxErr with
  | Some e => (m, Err (ManagerCtx e))
  | None =>
     if negb (pm_bound m) then (m, Err ErrRuntimeHostServicesRequired)
     else
       let '(shards, r) := startShards arrived target (pm_shards m) in
       (mkManager (pm_shardCount m) (pm_supervisor m) (pm_bound m) shards, r)
  end.

(** ** Calls on one shard *)

Definition boundShards (m : ProcessManager) : Result ManagerError (list Shard) :=
  if negb (pm_bound m) || (length (pm_shards m) =? 0) then Err ErrRuntimeHostServicesRequired else Ok (pm_shards m).

Definition set_shards (shards : list Shard) (m : ProcessManager) : ProcessManager :=
  mkManager (pm_shardCount m) (pm_supervisor m) (pm_bound m) shards.

(** The first eight bytes of the hash as a big-endian number, modulo the count. *)
Definition processShardIndex (pluginInstanceID : string) (shardCount : nat) : nat :=
  let digest := foldl (λ acc c, (acc * 256 + zcode c)%Z) 0%Z (take 8 (text (sha256 pluginInstanceID))) in
  Z.to_nat (digest mod Z.of_nat shardCount).

Definition runtimeBinding (shardID : string) (h : Health) : RuntimeBinding :=
  mkBinding shardID (he_RuntimeInstanceID h) (he_RuntimeGenerationID h) (he_IPCChannelID h) (he_ConnectionNonce h)
    (he_ArtifactIdentity h).

Definition validateReadyHealth (h : Health) : Result ManagerError unit :=
  guard! he_Ready h else ErrRuntimeNotReady in
  guard! negb (bool_decide (TrimSpace (he_RuntimeInstanceID h) = "") || bool_decide (TrimSpace (he_RuntimeGenerationID h) = "") ||
               bool_decide (TrimSpace (he_IPCChannelID h) = "") || bool_decide (TrimSpace (he_ConnectionNonce h) = ""))
    else ErrRuntimeBindingInvalid in
  guard! negb (bool_decide (ai_platformVersion (he_ArtifactIdentity h) = "")) else ErrRuntimeBindingInvalid in
  guard! CompatibleWithPlatform (he_ArtifactIdentity h) else ErrRuntimeBindingInvalid in
  Ok tt.

(** The shard a plugin belongs to, with the calls made on it. *)
Definition on_shard {A} (pluginInstanceID : string) (m : ProcessManager)
    (call : string → P → P * Result ManagerError A) : ProcessManager * Result ManagerError A :=
  match boundShards m with
  | Err e => (m, Err e)
  | Ok shards =>
     let index := processShardIndex pluginInstanceID (length shards) in
     match shards !! index with
     | Some (id, process) =>
        let '(process, r) := call id process in (set_shards (<[index := (id, process)]> shards) m, r)
     | None => (m, Err ErrRuntimeHostServicesRequired)
     end
  end.

(** [shard.process.Health] with [validateReadyHealth]. *)
Definition readyHealth (process : P) : P * Result ManagerError Health :=
  match ps_Health process with
  | (process, Err e) => (process, Err (ShardError e))
  | (process, Ok h) => (process, let? _ := validateReadyHealth h in Ok h)
  end.

Definition BindPlugin (pluginInstanceID : string) (m : ProcessManager) : ProcessManager * Result ManagerError RuntimeBinding :=
  let pluginInstanceID := TrimSpace pluginInstanceID in
  match boundShards m with
  | Err e => (m, Err e)
  | Ok _ =>
     if bool_decide (pluginInstanceID = "") then (m, Err ErrRuntimeBindingInvalid)
     else on_shard pluginInstanceID m (λ id process,
       match readyHealth process with
       | (process, Err e) => (process, Err e)
       | (process, Ok h) => (process, Ok (runtimeBinding id h))
       end)
  end.

Definition PrewarmWorker (req : PrewarmWorkerRequest) (m : ProcessManager) : ProcessManager * Result ManagerError unit :=
  let pluginInstanceID := TrimSpace (pw_PluginInstanceID req) in
  match boundShards m with
  | Err e => (m, Err e)
  | Ok _ =>
     if bool_decide (pluginInstanceID = "") then (m, Err ErrRuntimeBindingInvalid)
     else on_shard pluginInstanceID m (λ id process,
       match ps_PrewarmWorker req process with
       | (process, Some e) => (process, Err (ShardError e))
       | (process, None) => (process, Ok tt)
       end)
  end.

(** The comparison of the lease with the binding. *)
Definition leaseMatches (lease : Lease) (binding : RuntimeBinding) : bool :=
  bool_decide (le_RuntimeShardID lease = rb_RuntimeShardID binding) &&
  bool_decide (le_RuntimeInstanceID lease = rb_RuntimeInstanceID binding) &&
  bool_decide (le_RuntimeGenerationID lease = rb_RuntimeGenerationID binding) &&
  bool_decide (le_IPCChannelID lease = rb_IPCChannelID binding) &&
  bool_decide (le_ConnectionNonce lease = rb_ConnectionNonce binding).

Definition InvokeWorker (binding : RuntimeBinding) (lease : Lease) (method : string) (payload : bytes) (m : ProcessManager) :
    ProcessManager * Result ManagerError bytes :=
  let pluginInstanceID := TrimSpace (le_PluginInstanceID lease) in
  match boundShards m with
  | Err e => (m, Err e)
  | Ok _ =>
     if bool_decide (pluginInstanceID = "") then (m, Err ErrRuntimeBindingInvalid)
     else on_shard pluginInstanceID m (λ id process,
       if negb (bool_decide (TrimSpace (rb_RuntimeShardID binding) = id)) then (process, Err ErrRuntimeBindingInvalid)
       else match readyHealth process with
       | (process, Err e) => (process, Err e)
       | (process, Ok h) =>
          if negb (bool_decide (binding = runtimeBinding id h)) then (process, Err ErrRuntimeBindingInvalid)
          else if negb (leaseMatches lease binding) then (process, Err ErrRuntimeBindingInvalid)
          else match ps_InvokeWorker lease method payload process with
          | (process, Ok result) => (process, Ok result)
          | (process, Err e) => (process, Err (ShardError e))
          end
       end)
  end.

Definition validateRevokeRequest (req : RevokeRequest) : Result ManagerError unit :=
  guard! bool_decide (rs_Kind (rq_ResourceScope req) = ScopeEnvironment) && ResourceScope_Valid (rq_ResourceScope req)
    else ErrRuntimeRequestFailed in
  guard! negb (bool_decide (TrimSpace (rq_PluginInstanceID req) = "") || (rq_RevokeEpoch req =? 0)%Z)
    else ErrRuntimeRequestFailed in
  Ok tt.

Definition Revoke (req : RevokeRequest) (m : ProcessManager) : ProcessManager * Result ManagerError RevokeResult :=
  let req := mkRevokeRequest (rq_ResourceScope req) (TrimSpace (rq_PluginInstanceID req)) (rq_RevokeEpoch req) in
  match boundShards m with
  | Err e => (m, Err e)
  | Ok _ =>
     match validateRevokeRequest req with
     | Err e => (m, Err e)
     | Ok _ => on_shard (rq_PluginInstanceID req) m (λ id process,
         let '(process, answer) :=
           match readyHealth process with
           | (process, Err e) => (process, Err e)
           | (process, Ok _) =>
              match ps_Revoke req process with
              | (process, Ok result) => (process, Ok result)
              | (process, Err e) => (process, Err (ShardError e))
              end
           end in
         match answer with
         | Ok result => (process, Ok result)
         | Err revokeErr =>
            match ps_Stop process with
            | (process, Some stopErr) => (process, Err (ManagerJoined [revokeErr; ShardError stopErr]))
            | (process, None) =>
               (process, Ok (mkRevokeResult (rq_ResourceScope req) (rq_PluginInstanceID req) (rq_RevokeEpoch req) 0 0 0 true))
            end
         end)
     end
  end.

(** ** Revoking a session on all shards *)

Definition validateSessionRevokeRequest (req : SessionRevokeRequest) : Result ManagerError unit :=
  guard! SessionScope_Valid (sq_SessionScope req) && negb (sq_SessionRevokeSequence req =? 0)%Z &&
         negb (MaxSafeInteger <? sq_SessionRevokeSequence req)%Z else ErrRuntimeRequestFailed in
  Ok tt.

Inductive ShardOutcome :=
| OutcomeResult (result : SessionRevokeShardResult)
| OutcomeStopped
| OutcomeError (e : ManagerError).

(** The goroutine of one shard, after the answer to its [Health]. *)
Definition revokeAnswered (req : SessionRevokeRequest) (answer : Result nat Health) (shard : Shard) : Shard * ShardOutcome :=
  let '(id, process) := shard in
  match answer with
  | Err e => ((id, process), OutcomeError (ShardError e))
  | Ok h =>
     match validateReadyHealth h with
     | Err ErrRuntimeNotReady =>
        match ps_Stop process with
        | (process, Some e) => ((id, process), OutcomeError (ShardError e))
        | (process, None) => ((id, process), OutcomeStopped)
        end
     | Err e => ((id, process), OutcomeError e)
     | Ok _ =>
        match ps_RevokeSession req process with
        | (process, Err e) => ((id, process), OutcomeError (ShardError e))
        | (process, Ok result) =>
           if bool_decide (sh_RuntimeGenerationID result = he_RuntimeGenerationID h) then
             ((id, process), OutcomeResult (mkShardResult id (sh_RuntimeGenerationID result) (sh_State result) (sh_Counts result)))
           else ((id, process), OutcomeError ErrRuntimeRequestFailed)
        end
     end
  end.

Definition revokeShard (req : SessionRevokeRequest) (shard : Shard) : Shard * ShardOutcome :=
  let '(id, process) := shard in
  let '(process, answer) := ps_Health process in revokeAnswered req answer (id, process).

(** The goroutine of a shard and the stop of [stopProcessShards], which comes
    after [cut] of the goroutine's calls: a goroutine whose outcome was not
    received may still be running then. The answer is that of the stop. *)
Definition stopRevoked (req : SessionRevokeRequest) (cut : nat) (shard : Shard) : Shard * option nat :=
  let '(id, process) := shard in
  match cut with
  | 0 =>
     let '(process, e) := ps_Stop process in
     let '(process, answer) := ps_Health process in
     ((revokeAnswered req answer (id, process)).1, e)
  | 1 =>
     let '(process, answer) := ps_Health process in
     let '(process, e) := ps_Stop process in
     ((revokeAnswered req answer (id, process)).1, e)
  | _ =>
     let '((id, process), _) := revokeShard req (id, process) in
     let '(process, e) := ps_Stop process in ((id, process), e)
  end.

Definition stopAllRevoked (req : SessionRevokeRequest) (cut : nat → nat) (shards : list Shard) : list Shard * list (option nat) :=
  let stops := imap (λ i shard, stopRevoked req (cut i) shard) shards in (stops.*1, stops.*2).

Fixpoint revokeShards (req : SessionRevokeRequest) (shards : list Shard) : list Shard * list ShardOutcome :=
  match shards with
  | [] => ([], [])
  | shard :: rest =>
     let '(shard, outcome) := revokeShard req shard in
     let '(rest, outcomes) := revokeShards req rest in (shard :: rest, outcome :: outcomes)
  end.

Definition add_count (left right : Z) : Result ManagerError Z :=
  if (MaxSafeInteger <? left)%Z || (MaxSafeInteger - left <? right)%Z then Err ErrRuntimeRequestFailed
  else Ok (left + right)%Z.

Definition addSessionRevokeCounts (current delta : SessionRevokeCounts) : Result ManagerError SessionRevokeCounts :=
  let? a := add_count (ct_QueuedInvocations current) (ct_QueuedInvocations delta) in
  let? b := add_count (ct_RunningInvocations current) (ct_RunningInvocations delta) in
  let? c := add_count (ct_StorageHostcalls current) (ct_StorageHostcalls delta) in
  let? d := add_count (ct_ActiveNetworkRequests current) (ct_ActiveNetworkRequests delta) in
  let? e := add_count (ct_Sockets current) (ct_Sockets delta) in
  let? f := add_count (ct_NetworkStreams current) (ct_NetworkStreams delta) in
  Ok (mkCounts a b c d e f).

Fixpoint sum_counts (current : SessionRevokeCounts) (results : list SessionRevokeShardResult) :
    Result ManagerError SessionRevokeCounts :=
  match results with
  | [] => Ok current
  | result :: results =>
     let? current := addSessionRevokeCounts current (sh_Counts result) in sum_counts current results
  end.

Definition zeroCounts : SessionRevokeCounts := mkCounts 0 0 0 0 0 0.

(** The errors of the outcomes that arrive before the context ends, and its
    error when some do not. *)
Definition outcome_errors (arrived : nat → bool) (ctxErr : CtxErr) (outcomes : list ShardOutcome) : list ManagerError :=
  omap (λ x, match x.2 with OutcomeError e => if arrived x.1 then Some e else None | _ => None end) (imap pair outcomes) ++
  (if forallb arrived (seq 0 (length outcomes)) then [] else [ManagerCtx ctxErr]).

Definition outcome_results (outcomes : list ShardOutcome) : list SessionRevokeShardResult :=
  omap (λ o, match o with OutcomeResult r => Some r | _ => None end) outcomes.

Definition some_stopped (outcomes : list ShardOutcome) : bool :=
  existsb (λ o, match o with OutcomeStopped => true | _ => false end) outcomes.

(** [arrived] says which outcomes are received before the context ends, [cut]
    where the goroutines of the others are when the shards are stopped, and
    [stopped] which stops are answered in time. The result comes with the
    error, as in the source; the errors are in the order of the shards. *)
Definition RevokeSession (arrived stopped : nat → bool) (cut : nat → nat) (ctxErr : CtxErr) (req : SessionRevokeRequest)
    (m : ProcessManager) : ProcessManager * option SessionRevokeResult * option ManagerError :=
  match boundShards m with
  | Err e => (m, None, Some e)
  | Ok shards =>
     match validateSessionRevokeRequest req with
     | Err e => (m, None, Some e)
     | Ok _ =>
        let '(revoked, outcomes) := revokeShards req shards in
        match outcome_errors arrived ctxErr outcomes with
        | _ :: _ as errs =>
           let '(shards, answers) := stopAllRevoked req (λ i, if arrived i then 2 else cut i) shards in
           let stopErr := stop_error stopped answers in
           (set_shards shards m,
            Some (mkSessionRevokeResult (sq_SessionScope req) (sq_SessionRevokeSequence req) [] zeroCounts
                    (bool_decide (stopErr = None))),
            Some (ManagerJoined (errs ++ match stopErr with Some e => [StopFailed e] | None => [] end)))
        | [] =>
           match sum_counts zeroCounts (outcome_results outcomes) with
           | Err e => (set_shards revoked m, None, Some e)
           | Ok counts =>
              (set_shards revoked m,
               Some (mkSessionRevokeResult (sq_SessionScope req) (sq_SessionRevokeSequence req) (outcome_results outcomes)
                       counts (some_stopped outcomes)), None)
           end
        end
     end
  end.
End manager.
