(* ===== verification/ManagerProps.v ===== *)
(** * The shards start together, and calls reach the bound generation *)

From stdpp Require Import pretty.
From S2P Require Import Prelude GoLib SessionCtx Encoding Json Lease Manager.

Open Scope go_scope.

(** No error is reported exactly when every stop was answered, in time and
    without an error. *)
Lemma stop_error_none (arrived : nat → bool) (answers : list (option nat)) :
  stop_error arrived answers = None ↔ ∀ i a, answers !! i = Some a → arrived i = true ∧ a = None.
Proof.
  unfold stop_error. split.
  - destruct (omap _ _) as [|x l] eqn:Ho; [|done]. destruct (forallb _ _) eqn:Hf; [|done]. intros _ i a Hi.
    rewrite forallb_forall in Hf. assert (arrived i = true) as Ha.
    { apply Hf, in_seq. apply lookup_lt_Some in Hi. lia. }
    split; [done|]. destruct a as [e|]; [|done]. exfalso. assert (e ∈ ([] : list nat)) as He; [|by apply not_elem_of_nil in He].
    rewrite <- Ho. apply list_elem_of_omap. exists (i, Some e). simpl. rewrite Ha. split; [|done].
    apply elem_of_lookup_imap. eauto.
  - intros H. destruct (omap _ _) as [|x l] eqn:Ho.
    + replace (forallb arrived (seq 0 (length answers))) with true; [done|]. symmetry. apply forallb_forall.
      intros i Hi%in_seq. destruct (lookup_lt_is_Some_2 answers i ltac:(lia)) as [a Ha]. by apply (H i a).
    + assert (x ∈ x :: l) as Hx by left. rewrite <- Ho in Hx. apply list_elem_of_omap in Hx as ([i a] & Hx & He).
      apply elem_of_lookup_imap in Hx as (j & y & [= <- <-] & Hy). destruct (H _ _ Hy) as [Ha ->]. simpl in He.
      by rewrite Ha in He.
Qed.

Section props.
Context (platform : string).
Context {P : Type} `{!processShard P}.
Notation Shard := (string * P)%type.
Implicit Types (p : P) (shards : list Shard) (target : Target).

(** ** What was done to a process *)

(** Calls that only look at a process. *)
Definition inspect_step target p p' : Prop := p' = (ps_Preflight target p).1 ∨ p' = (ps_Health p).1.
Definition inspected target : relation P := rtc (inspect_step target).

(** A process that was looked at, started, and looked at again. *)
Definition started target p p' : Prop :=
  ∃ p1 p2, inspected target p p1 ∧ ps_Start target p1 = (p2, None) ∧ inspected target p2 p'.

(** A process after a start of the manager that failed: only looked at, or
    started and then stopped, or the one whose start failed. [clean] says that
    the stop was answered without an error. *)
Definition undone (clean : bool) target p p' : Prop :=
  inspected target p p' ∨
  (∃ p1 e, started target p p1 ∧ ps_Stop p1 = (p', e) ∧ (clean = true → e = None)) ∨
  (∃ p1 e, inspected target p p1 ∧ ps_Start target p1 = (p', Some e)).

Definition shardwise (R : relation P) : relation (list Shard) := Forall2 (λ s s', s'.1 = s.1 ∧ R s.2 s'.2).

Lemma shardwise_refl (R : relation P) shards : (∀ p, R p p) → shardwise R shards shards.
Proof. intros HR. apply Forall_Forall2_diag, Forall_true. intros s. done. Qed.

Lemma shardwise_compose (R S T : relation P) shards1 shards2 shards3 :
  (∀ p q r, R p q → S q r → T p r) → shardwise R shards1 shards2 → shardwise S shards2 shards3 → shardwise T shards1 shards3.
Proof.
  intros Hc H1. revert shards3. induction H1 as [|s1 s2 l1 l2 [He HR] _ IH]; intros l3 H2; inversion H2; subst; constructor.
  - destruct_and!. split; [congruence|eauto].
  - by apply IH.
Qed.

Lemma shardwise_impl (R S : relation P) shards shards' :
  (∀ p q, R p q → S p q) → shardwise R shards shards' → shardwise S shards shards'.
Proof. intros HRS H. eapply Forall2_impl; [exact H|]. intros s s' [? ?]; auto. Qed.

Lemma inspected_refl target p : inspected target p p.
Proof. apply rtc_refl. Qed.

Lemma inspected_health target p p' a : ps_Health p = (p', a) → inspected target p p'.
Proof. intros H. apply rtc_once. right. by rewrite H. Qed.

Lemma inspected_preflight target p p' a : ps_Preflight target p = (p', a) → inspected target p p'.
Proof. intros H. apply rtc_once. left. by rewrite H. Qed.

(** ** Preflight and health *)

(** An identity every shard of a start has agreed on. *)
Definition agreed target (d : RuntimeArtifactIdentity) : Prop :=
  ai_target d = target ∧ CompatibleWithPlatform platform d = true.

Lemma preflight_loop_spec target expected shards shards' r :
  preflight_loop platform target expected shards = (shards', r) →
  shardwise (inspected target) shards shards' ∧
  ∀ d, r = Ok d → d = expected ∨ agreed target d.
Proof.
  revert expected shards' r. induction shards as [|[id p] shards IH]; intros expected shards' r; simpl.
  { intros [= <- <-]. split; [constructor|]. intros d [= <-]. by left. }
  destruct (ps_Preflight target p) as [p' a] eqn:Hp. pose proof (inspected_preflight _ _ _ _ Hp) as Hi.
  assert (∀ l, shardwise (inspected target) shards l → shardwise (inspected target) ((id, p) :: shards) ((id, p') :: l)) as Hcons.
  { intros l Hl. by constructor. }
  assert (shardwise (inspected target) ((id, p) :: shards) ((id, p') :: shards)) as Hstop.
  { apply Hcons, shardwise_refl, inspected_refl. }
  destruct a as [d|e]; [|by intros [= <- <-]].
  case_bool_decide as Ht; simpl; [|by intros [= <- <-]].
  destruct (CompatibleWithPlatform platform d) eqn:Hc; simpl; [|by intros [= <- <-]].
  case_bool_decide as He; simpl.
  - destruct (preflight_loop platform target d shards) as [l r'] eqn:Hl. intros [= <- <-].
    apply IH in Hl as [Hs Hd]. split; [auto|]. intros d' Hd'. destruct (Hd _ Hd') as [->|?]; right; [by split|done].
  - case_bool_decide as Hd; simpl; [|by intros [= <- <-]].
    destruct (preflight_loop platform target expected shards) as [l r'] eqn:Hl. intros [= <- <-].
    apply IH in Hl as [Hs Hd']. split; [auto|]. intros x Hx. destruct (Hd' _ Hx) as [->|?]; auto.
Qed.

Lemma preflight_spec target shards shards' r :
  preflight platform target shards = (shards', r) →
  shardwise (inspected target) shards shards' ∧ ∀ d, r = Ok d → agreed target d.
Proof.
  unfold preflight. destruct (Target_Validate target); simpl.
  2: { intros [= <- <-]. split; [apply shardwise_refl, inspected_refl|done]. }
  destruct (preflight_loop platform target zeroIdentity shards) as [l r'] eqn:Hl. apply preflight_loop_spec in Hl as [Hs Hd].
  destruct r' as [d|e]; [|by intros [= <- <-]]. case_bool_decide as He; intros [= <- <-]; [done|]. split; [done|].
  intros d' [= <-]. destruct (Hd d eq_refl) as [->|?]; done.
Qed.

Lemma health_loop_spec target shards shards' r :
  health_loop shards = (shards', r) →
  shardwise (inspected target) shards shards' ∧
  ∀ hs, r = Ok hs → Forall2 (λ s x, x.1 = s.1 ∧ ∃ p, ps_Health p = (s.2, Ok x.2)) shards' hs.
Proof.
  revert shards' r. induction shards as [|[id p] shards IH]; intros shards' r; simpl.
  { intros [= <- <-]. split; [constructor|]. intros hs [= <-]. constructor. }
  destruct (ps_Health p) as [p' [h|e]] eqn:Hp.
  - destruct (health_loop shards) as [l r'] eqn:Hl. intros [= <- <-]. destruct (IH l r' eq_refl) as [Hs Hh]. split.
    + constructor; [|done]. split; [done|]. by eapply inspected_health.
    + intros hs Hr. destruct r' as [hs'|]; [|done]. simplify_eq. constructor; [|by apply Hh]. eauto.
  - intros [= <- <-]. split; [|done]. constructor; [|apply shardwise_refl, inspected_refl].
    split; [done|]. by eapply inspected_health.
Qed.

(** What a health of the manager says of the shards. *)
Definition all_alike (h : ManagerHealth) shards : Prop :=
  Forall2 (λ s x, x.1 = s.1 ∧ (∃ p, ps_Health p = (s.2, Ok x.2)) ∧
                  he_ArtifactIdentity x.2 = mh_ArtifactIdentity h ∧ (mh_Ready h = true → he_Ready x.2 = true))
    shards (mh_Shards h) ∧ (mh_Ready h = true → shards ≠ []).

Lemma health_spec target shards shards' r :
  health shards = (shards', r) →
  shardwise (inspected target) shards shards' ∧ ∀ h, r = Ok h → all_alike h shards'.
Proof.
  unfold health. destruct (health_loop shards) as [l r'] eqn:Hl. apply (health_loop_spec target) in Hl as [Hs Hh].
  destruct r' as [hs|e]; [|by intros [= <- <-]]. specialize (Hh hs eq_refl).
  pose proof (Forall2_length _ _ _ Hs) as Hlen.
  destruct hs as [|[n first] others]; [|destruct (forallb _ others) eqn:Hall]; intros [= <- <-];
    (split; [done|]); intros h [= <-]; unfold all_alike; cbn [mh_Ready mh_ArtifactIdentity mh_Shards].
  - inversion Hh; subst. split; [constructor|]. simpl in Hlen. rewrite Hlen. by intros Hr.
  - split.
    + assert (∀ x, x ∈ (n, first) :: others → he_ArtifactIdentity x.2 = he_ArtifactIdentity first ∧
        ((0 <? length shards) && forallb (λ x, he_Ready x.2) ((n, first) :: others) = true → he_Ready x.2 = true)) as Hx.
      { intros x Hin. split.
        - apply elem_of_cons in Hin as [->|Hin]; [done|]. rewrite forallb_forall in Hall.
          apply list_elem_of_In, Hall in Hin. by apply bool_decide_eq_true in Hin.
        - rewrite andb_true_iff, forallb_forall. intros [_ Hr]. by apply Hr, list_elem_of_In. }
      apply Forall2_same_length_lookup. split; [by eapply Forall2_length|]. intros i s x Hs1 Hx1.
      destruct (Forall2_lookup_lr _ _ _ _ _ _ Hh Hs1 Hx1) as [? ?]. apply list_elem_of_lookup_2, Hx in Hx1 as [? ?]. done.
    + intros Hr ->. inversion Hh.
Qed.

(** ** Stopping and rolling back *)

Lemma stop_marked_spec marks shards shards' answers :
  stop_marked marks shards = (shards', answers) → length marks = length shards →
  Forall3 (λ s (mark : bool) s', s'.1 = s.1 ∧
     if mark then ∃ a, a ∈ answers ∧ ps_Stop s.2 = (s'.2, a) else s'.2 = s.2) shards marks shards'.
Proof.
  revert shards shards' answers. induction marks as [|mark marks IH]; intros [|[id p] shards] shards' answers; simpl; try done.
  { intros [= <- <-] _. constructor. }
  destruct (stop_marked marks shards) as [rest answers'] eqn:Hm. intros H [= Hlen]. specialize (IH _ _ _ Hm Hlen).
  destruct mark; [destruct (ps_Stop p) as [p' e] eqn:Hp|]; injection H as <- <-; constructor; try done.
  - split; [done|]. exists e. split; [by left|done].
  - eapply Forall3_impl; [exact IH|]. intros s [] s' [? Hs]; [|done]. split; [done|]. destruct Hs as (a & ? & ?).
    exists a. split; [by right|done].
Qed.

(** Where the loop of [Start] leaves a shard: started when it is marked; when
    it is not, looked at, or, when the loop failed, not started. *)
Definition attempted (failed mark : bool) target p p' : Prop :=
  if mark then started target p p'
  else inspected target p p' ∨ failed = true ∧ ∃ p1 e, inspected target p p1 ∧ ps_Start target p1 = (p', Some e).

Definition attempts (failed : bool) target shards (marks : list bool) shards' : Prop :=
  Forall3 (λ s mark s', s'.1 = s.1 ∧ attempted failed mark target s.2 s'.2) shards marks shards'.

Lemma attempts_none failed target shards : attempts failed target shards (replicate (length shards) false) shards.
Proof.
  induction shards as [|s shards IH]; simpl; constructor; [|done]. split; [done|]. left. apply inspected_refl.
Qed.

Lemma start_loop_spec target d shards shards' marks e :
  start_loop target d shards = (shards', marks, e) →
  attempts (bool_decide (e ≠ None)) target shards marks shards'.
Proof.
  revert shards' marks e. induction shards as [|[id p] shards IH]; intros shards' marks e; simpl.
  { intros [= <- <- <-]. constructor. }
  destruct (ps_Health p) as [p' a] eqn:Hp. pose proof (inspected_health target _ _ _ Hp) as Hi.
  assert (∀ failed, attempts failed target ((id, p) :: shards) (false :: replicate (length shards) false) ((id, p') :: shards)) as Hlook.
  { intros failed. constructor; [|apply attempts_none]. split; [done|]. by left. }
  destruct a as [h|]; [|by intros [= <- <- <-]].
  destruct (he_Ready h).
  - case_bool_decide; simpl; [|by intros [= <- <- <-]].
    destruct (start_loop target d shards) as [[l ms] e'] eqn:Hl. intros [= <- <- <-].
    constructor; [|by apply IH]. split; [done|]. by left.
  - destruct (ps_Start target p') as [p2 [x|]] eqn:Hs.
    + intros [= <- <- <-]. constructor; [|apply attempts_none]. split; [done|]. right. split; [done|]. simpl. eauto.
    + destruct (start_loop target d shards) as [[l ms] e'] eqn:Hl. intros [= <- <- <-].
      constructor; [|by apply IH]. split; [done|]. exists p', p2. split_and!; [done..|apply inspected_refl].
Qed.

(** Looking at the shards after a loop that did not fail. *)
Lemma attempts_inspected target shards marks shards' shards'' :
  attempts false target shards marks shards' → shardwise (inspected target) shards' shards'' →
  attempts false target shards marks shards''.
Proof.
  intros H. revert shards''. induction H as [|s m s' l ms l' [He Ha] _ IH]; intros l'' H2; inversion H2 as [|? s2 ? ? [He2 Hi]]; subst; constructor.
  - split; [congruence|]. destruct m; simpl in *.
    + destruct Ha as (p1 & p2 & ? & ? & ?). exists p1, p2. split_and!; [done..|]. by etrans.
    + destruct Ha as [?|[? _]]; [left; by etrans|done].
  - by apply IH.
Qed.

Lemma rollback_spec arrived target failed marks cause shards shards1 shards' r :
  attempts failed target shards marks shards1 → rollback arrived marks cause shards1 = (shards', r) →
  ∃ e, r = Err (managerStartError cause e) ∧ shardwise (undone (bool_decide (e = None)) target) shards shards'.
Proof.
  intros Ha. unfold rollback, stopProcessShards. destruct (stop_marked marks shards1) as [l answers] eqn:Hs. intros [= <- <-].
  exists (stop_error arrived answers). split; [done|].
  assert (stop_error arrived answers = None → ∀ a, a ∈ answers → a = None) as Hnone.
  { intros Hn a [i Hi]%list_elem_of_lookup. by eapply stop_error_none. }
  apply stop_marked_spec in Hs; [|by destruct (Forall3_length_lm _ _ _ _ Ha), (Forall3_length_lr _ _ _ _ Ha)].
  revert l Hs. generalize (stop_error arrived answers) as se, Hnone. intros se Hn. clear Hnone.
  induction Ha as [|s m s' l ms l' [He Hm] _ IH]; intros l2 Hs; inversion Hs as [|? ? s2 ? ? ? [He2 Hm2]]; subst; constructor.
  - split; [congruence|]. destruct m; simpl in Hm.
    + destruct Hm2 as (a & Hin & Hstop). right. left. exists s'.2, a. split_and!; [done..|].
      intros Hb%bool_decide_eq_true. auto.
    + rewrite Hm2. destruct Hm as [?|[_ ?]]; [by left|by right; right].
  - by apply IH.
Qed.

(** ** Starting *)

Definition outcome_unknown (e : ManagerError) : bool :=
  match e with ManagerLifecycleOutcomeUnknown _ _ => true | _ => false end.

Lemma undone_weaken c target p p' : undone true target p p' → undone c target p p'.
Proof. intros [?|[(p1 & e & ? & ? & He)|?]]; [by left| |by right; right]. right. left. exists p1, e. auto. Qed.

(** What [Start] leaves behind with each of its answers. *)
Definition start_outcome target shards shards' (r : Result ManagerError ManagerHealth) : Prop :=
  match r with
  | Ok h =>
     mh_Ready h = true ∧ all_alike h shards' ∧ agreed target (mh_ArtifactIdentity h) ∧
     shardwise (λ p p', inspected target p p' ∨ started target p p') shards shards'
  | Err e => shardwise (undone (negb (outcome_unknown e)) target) shards shards'
  end.

Lemma rollback_outcome arrived target failed marks cause shards shards1 shards' r :
  attempts failed target shards marks shards1 → rollback arrived marks cause shards1 = (shards', r) →
  start_outcome target shards shards' r.
Proof.
  intros Ha Hr. destruct (rollback_spec _ _ _ _ _ _ _ _ _ Ha Hr) as (e & -> & H). simpl.
  destruct e as [e|]; simpl; [exact H|]. eapply shardwise_impl; [|exact H]. intros p q. apply undone_weaken.
Qed.

Lemma attempts_shardwise (R : relation P) failed target shards marks shards' :
  (∀ mark p p', attempted failed mark target p p' → R p p') → attempts failed target shards marks shards' → shardwise R shards shards'.
Proof. intros HR H. induction H as [|s m s' l ms l' [? ?] _ IH]; constructor; [|done]. eauto. Qed.

Lemma inspected_attempts failed target marks shards shards1 shards2 :
  shardwise (inspected target) shards shards1 → attempts failed target shards1 marks shards2 → attempts failed target shards marks shards2.
Proof.
  intros H H2. revert shards H. induction H2 as [|s m s' l ms l' [He Ha] _ IH]; intros l0 H; inversion H as [|s0 ? ? ? [He2 Hi]]; subst; constructor.
  - split; [congruence|]. destruct m; simpl in *.
    + destruct Ha as (p1 & p2 & ? & ? & ?). exists p1, p2. split_and!; [by etrans|done..].
    + destruct Ha as [?|[? (p1 & e & ? & ?)]]; [left; by etrans|]. right. split; [done|]. exists p1, e. split; [by etrans|done].
  - by apply IH.
Qed.

Lemma startShards_outcome arrived target shards shards' r :
  startShards platform arrived target shards = (shards', r) → start_outcome target shards shards' r.
Proof.
  unfold startShards. destruct (preflight platform target shards) as [l0 r0] eqn:Hp. apply preflight_spec in Hp as [H0 Hagreed].
  destruct r0 as [d|e].
  2: { intros [= <- <-]. eapply shardwise_impl; [|exact H0]. intros p q ?. by left. }
  specialize (Hagreed d eq_refl).
  destruct (start_loop target d l0) as [[l1 marks] e] eqn:Hl. apply start_loop_spec in Hl.
  eapply inspected_attempts in Hl; [|exact H0].
  destruct e as [e|]; [intros Hr; by eapply rollback_outcome|]. rewrite bool_decide_eq_false_2 in Hl by auto.
  destruct (health l1) as [l2 r2] eqn:Hh. apply (health_spec target) in Hh as [H2 Halike].
  pose proof (attempts_inspected _ _ _ _ _ Hl H2) as Ha.
  destruct r2 as [h|e]; [|intros Hr; by eapply rollback_outcome]. specialize (Halike h eq_refl).
  destruct (mh_Ready h) eqn:Hready; simpl; [|intros Hr; by eapply rollback_outcome].
  case_bool_decide as Hid; simpl; [|intros Hr; by eapply rollback_outcome]. intros [= <- <-]. split_and!; [done..| |].
  - by rewrite Hid.
  - eapply attempts_shardwise; [|exact Ha]. intros [] p p'; simpl; [by right|]. intros [?|[? _]]; [by left|done].
Qed.

(** C19: Starting the manager is all or nothing. When [Start] succeeds there is
    at least one shard, and every shard's last answer is a ready health with
    the one artifact identity, for the requested target and this platform;
    each shard was started or was ready already. When it fails, each shard was
    only looked at, or was started and then stopped, or is the one whose start
    failed; and every one of those stops was answered without an error unless
    the error says that the outcome is unknown. The names of the shards and
    the binding of the manager never change. *)
Theorem manager_start_all_or_none arrived target (m m' : ProcessManager) r :
  pm_bound m = true → Start platform arrived None target m = (m', r) →
  start_outcome target (pm_shards m) (pm_shards m') r ∧ pm_bound m' = true ∧
  pm_shardCount m' = pm_shardCount m ∧ pm_supervisor m' = pm_supervisor m.
Proof.
  unfold Start. intros ->. simpl. destruct (startShards platform arrived target (pm_shards m)) as [l r'] eqn:Hs.
  intros [= <- <-]. split; [by eapply startShards_outcome|done].
Qed.
End props.

(** ** A process to try the theorems with *)

(** It is ready or not, starts and stops at once, and answers everything. *)
Definition sample_digest : string := "0123456789abcdef0123456789abcdef0123456789abcdef0123456789abcdef".
Definition sample_identity : RuntimeArtifactIdentity := mkIdentity "1.0.0" DarwinAMD64 sample_digest.

Definition sample_health (ready : bool) : Health :=
  mkHealth "instance" "generation" "channel" "nonce" "" sample_identity ready 0 0 (mkLimits 1 1 1 1 1) (mkModuleCache 0 0 0 0 0).

#[export] Instance sample_process : processShard bool := {|
  ps_Preflight target p := (p, Ok sample_identity);
  ps_Start target p := (true, None);
  ps_Stop p := (false, None);
  ps_Health p := (p, Ok (sample_health p));
  ps_PrewarmWorker request p := (p, None);
  ps_InvokeWorker lease method payload p := (p, Ok payload);
  ps_Revoke request p := (p, Err 1);
  ps_RevokeSession request p := (p, Ok (mkShardResult "" "generation" "revoked" (mkCounts 1 2 0 0 0 3)));
|}.

Definition sample_options : ProcessSupervisorOptions :=
  mkSupervisorOptions "/runtime" false false sample_identity false false 1 1 1 (mkLimits 1 1 1 1 1).

Definition sample_manager (first second : bool) : ProcessManager :=
  mkManager 2 sample_options true [(shardName 0, first); (shardName 1, second)].

Lemma manager_start_all_or_none_witness :
  let answer := Start "1.0.0" (λ _, true) None DarwinAMD64 (sample_manager false true) in
  answer.1 = sample_manager true true ∧ is_ok answer.2 = true ∧
  start_outcome "1.0.0" DarwinAMD64 (pm_shards (sample_manager false true)) (pm_shards answer.1) answer.2.
Proof.
  intros answer. split; [by vm_compute|]. split; [by vm_compute|].
  by apply (manager_start_all_or_none "1.0.0" (λ _, true) DarwinAMD64 (sample_manager false true) answer.1 answer.2);
    [|apply surjective_pairing].
Defined.
