(* ===== verification/ManagerRevoke.v ===== *)
(** * Revoking a session on every shard of the manager

    A revocation that succeeds was acknowledged by every shard in the
    generation the shard was in, or the shard was stopped; one that fails
    stops every shard. *)

From stdpp Require Import pretty.
From S2P Require Import Prelude GoLib SessionCtx Encoding Json Lease Manager ManagerProps.

Open Scope go_scope.

Section revoke.
Context (platform : string).
Context {P : Type} `{!processShard P}.
Notation Shard := (string * P)%type.
Implicit Types (p : P) (s : Shard) (shards : list Shard) (req : SessionRevokeRequest).

(** ** The outcome of one shard *)

(** The shard was ready and revoked the session in the same generation. *)
Definition acknowledged req (result : SessionRevokeShardResult) s s' : Prop :=
  ∃ p1 h answer, ps_Health s.2 = (p1, Ok h) ∧ validateReadyHealth platform h = Ok tt ∧
    ps_RevokeSession req p1 = (s'.2, Ok answer) ∧ sh_RuntimeGenerationID answer = he_RuntimeGenerationID h ∧
    result = mkShardResult s.1 (he_RuntimeGenerationID h) (sh_State answer) (sh_Counts answer).

(** The shard was not ready and its process was stopped. *)
Definition terminated s s' : Prop :=
  ∃ p1 h, ps_Health s.2 = (p1, Ok h) ∧ he_Ready h = false ∧ ps_Stop p1 = (s'.2, None).

Definition outcome_of req (o : ShardOutcome) s s' : Prop :=
  s'.1 = s.1 ∧
  match o with
  | OutcomeResult result => acknowledged req result s s'
  | OutcomeStopped => terminated s s'
  | OutcomeError _ => True
  end.

Lemma not_ready_health h : validateReadyHealth platform h = Err ErrRuntimeNotReady → he_Ready h = false.
Proof.
  unfold validateReadyHealth. destruct (he_Ready h); [|done]. intros H. repeat (case_match; try discriminate).
Qed.

Lemma revokeShard_spec req s s' o : revokeShard platform req s = (s', o) → outcome_of req o s s'.
Proof.
  destruct s as [id p]. unfold revokeShard, revokeAnswered. destruct (ps_Health p) as [p1 [h|e]] eqn:Hh; [|by intros [= <- <-]].
  destruct (validateReadyHealth platform h) as [[]|e] eqn:Hv.
  - destruct (ps_RevokeSession req p1) as [p2 [answer|e]] eqn:Hr; [|by intros [= <- <-]].
    case_bool_decide as Hg; intros [= <- <-]; [|done]. split; [done|]. exists p1, h, answer. rewrite <- Hg. done.
  - destruct e; try by intros [= <- <-]. destruct (ps_Stop p1) as [p2 [e|]] eqn:Hs; intros [= <- <-]; [done|].
    split; [done|]. exists p1, h. split_and!; [done|by apply not_ready_health|done].
Qed.

Lemma revokeShards_spec req shards shards' outcomes :
  revokeShards platform req shards = (shards', outcomes) →
  Forall3 (λ s o s', outcome_of req o s s') shards outcomes shards'.
Proof.
  revert shards' outcomes. induction shards as [|s shards IH]; intros shards' outcomes; simpl.
  { intros [= <- <-]. constructor. }
  destruct (revokeShard platform req s) as [s' o] eqn:Hs. destruct (revokeShards platform req shards) as [l os] eqn:Hl.
  intros [= <- <-]. constructor; [by apply revokeShard_spec|by apply IH].
Qed.

(** No error is collected exactly when every outcome is received and none is
    an error. *)
Lemma outcome_errors_nil arrived ctxErr outcomes :
  outcome_errors arrived ctxErr outcomes = [] →
  ∀ i o, outcomes !! i = Some o → arrived i = true ∧ ∀ e, o ≠ OutcomeError e.
Proof.
  unfold outcome_errors. intros [Ho Hf]%app_eq_nil i o Hi.
  destruct (forallb _ _) eqn:Ha; [|done]. rewrite forallb_forall in Ha. assert (arrived i = true) as Hai.
  { apply Ha, in_seq. apply lookup_lt_Some in Hi. lia. }
  split; [done|]. intros e ->. assert (e ∈ ([] : list ManagerError)) as He; [|by apply not_elem_of_nil in He].
  rewrite <- Ho. apply list_elem_of_omap. exists (i, OutcomeError e). simpl. rewrite Hai. split; [|done].
  apply elem_of_lookup_imap. eauto.
Qed.

(** ** The sums of the counts *)

Definition count_fields : list (SessionRevokeCounts → Z) :=
  [ct_QueuedInvocations; ct_RunningInvocations; ct_StorageHostcalls; ct_ActiveNetworkRequests; ct_Sockets; ct_NetworkStreams].

Definition total (f : SessionRevokeCounts → Z) (results : list SessionRevokeShardResult) : Z :=
  foldr (λ r acc, (f (sh_Counts r) + acc)%Z) 0%Z results.

Definition all_fields (Q : (SessionRevokeCounts → Z) → Prop) : Prop := Forall Q count_fields.

Lemma zero_fields f : f ∈ count_fields → f zeroCounts = 0%Z.
Proof. unfold count_fields. rewrite !elem_of_cons, elem_of_nil. naive_solver. Qed.

Lemma add_count_spec left right r :
  add_count left right = r →
  match r with
  | Ok n => (n = left + right)%Z ∧ (n ≤ MaxSafeInteger)%Z
  | Err _ => (left ≤ MaxSafeInteger)%Z → (MaxSafeInteger < left + right)%Z
  end.
Proof.
  unfold add_count. intros <-. destruct (Z.ltb_spec MaxSafeInteger left); simpl; [lia|].
  destruct (Z.ltb_spec (MaxSafeInteger - left) right); simpl; lia.
Qed.

Lemma addSessionRevokeCounts_spec c d r :
  addSessionRevokeCounts c d = r → all_fields (λ f, (f c ≤ MaxSafeInteger)%Z) →
  match r with
  | Ok c' => all_fields (λ f, (f c' = f c + f d)%Z ∧ (f c' ≤ MaxSafeInteger)%Z)
  | Err _ => Exists (λ f, (MaxSafeInteger < f c + f d)%Z) count_fields
  end.
Proof.
  intros <- Hc. unfold all_fields, count_fields in *. repeat (apply Forall_cons in Hc as [? Hc]).
  unfold addSessionRevokeCounts.
  repeat match goal with
  | |- context [add_count ?l ?r] =>
     let x := fresh "x" in let H := fresh "H" in
     destruct (add_count l r) as [x|] eqn:H; apply add_count_spec in H; cbn [rbind];
     [|repeat (first [apply Exists_cons_hd; solve [auto]|apply Exists_cons_tl])]
  end.
  repeat (constructor; [done|]). constructor.
Qed.

Lemma sum_counts_spec c results r :
  sum_counts c results = r → all_fields (λ f, (f c ≤ MaxSafeInteger)%Z) →
  match r with
  | Ok c' => all_fields (λ f, (f c' = f c + total f results)%Z ∧ (f c' ≤ MaxSafeInteger)%Z)
  | Err _ => ∃ n, Exists (λ f, (MaxSafeInteger < f c + total f (take n results))%Z) count_fields
  end.
Proof.
  revert c r. induction results as [|x results IH]; intros c r; simpl.
  { intros <- Hc. eapply Forall_impl; [exact Hc|]. simpl. lia. }
  destruct (addSessionRevokeCounts c (sh_Counts x)) as [c1|e] eqn:Ha; cbn [rbind]; intros <- Hc;
    pose proof (addSessionRevokeCounts_spec _ _ _ Ha Hc) as H1; simpl in H1.
  - specialize (IH c1 _ eq_refl). destruct (sum_counts c1 results) as [c2|e]; simpl in *.
    + eapply Forall_impl; [apply Forall_and; split; [exact H1|apply IH; eapply Forall_impl; [exact H1|simpl; lia]]|]. simpl. lia.
    + destruct IH as [n Hn]; [eapply Forall_impl; [exact H1|simpl; lia]|]. exists (S n).
      apply Exists_exists in Hn as (f & Hin & Hf). apply Exists_exists. exists f. split; [done|]. simpl.
      unfold all_fields in H1. rewrite Forall_forall in H1. specialize (H1 f Hin). lia.
  - exists 1. simpl. eapply Exists_impl; [exact H1|]. simpl. lia.
Qed.

(** ** Stopping every shard after a failure *)

(** The calls the goroutine of a shard makes. *)
Definition revoke_call req p p' : Prop :=
  p' = (ps_Health p).1 ∨ p' = (ps_Stop p).1 ∨ p' = (ps_RevokeSession req p).1.

(** The manager's stop was answered with [e]; after it the process saw at most
    calls of its own goroutine, and none when that had ended. *)
Definition stop_answered req (ended : bool) (e : option nat) s s' : Prop :=
  s'.1 = s.1 ∧ ∃ p1 p2, ps_Stop p1 = (p2, e) ∧ rtc (revoke_call req) p2 s'.2 ∧ (ended = true → s'.2 = p2).

Lemma revokeAnswered_calls req answer s :
  (revokeAnswered platform req answer s).1.1 = s.1 ∧ rtc (revoke_call req) s.2 (revokeAnswered platform req answer s).1.2.
Proof.
  destruct s as [id p]. unfold revokeAnswered. destruct answer as [h|e]; [|split; [done|apply rtc_refl]].
  destruct (validateReadyHealth platform h) as [[]|e].
  - destruct (ps_RevokeSession req p) as [p2 [answer|e]] eqn:Hr; [case_bool_decide|];
      (split; [done|]); apply rtc_once; right; right; cbn [snd]; by rewrite Hr.
  - destruct e; try (split; [done|apply rtc_refl]).
    destruct (ps_Stop p) as [p2 [e|]] eqn:Hs; (split; [done|]); apply rtc_once; right; left; cbn [snd]; by rewrite Hs.
Qed.

Lemma stopRevoked_spec req cut s s' e :
  stopRevoked platform req cut s = (s', e) → stop_answered req (2 <=? cut) e s s'.
Proof.
  destruct s as [id p]. destruct cut as [|[|cut]]; cbn [stopRevoked].
  - destruct (ps_Stop p) as [p2 e'] eqn:Hs. destruct (ps_Health p2) as [p3 a] eqn:Hh. intros [= <- <-].
    destruct (revokeAnswered_calls req a (id, p3)) as [? ?]. split; [done|]. exists p, p2. split_and!; [done| |done].
    eapply rtc_l; [|done]. left. by rewrite Hh.
  - destruct (ps_Health p) as [p2 a]. destruct (ps_Stop p2) as [p3 e'] eqn:Hs. intros [= <- <-].
    destruct (revokeAnswered_calls req a (id, p3)) as [? ?]. split; [done|]. exists p2, p3. done.
  - destruct (revokeShard platform req (id, p)) as [[id' p2] o] eqn:Hr. apply revokeShard_spec in Hr as [Hid _].
    destruct (ps_Stop p2) as [p3 e'] eqn:Hs. intros [= <- <-]. split; [exact Hid|]. exists p2, p3. split_and!; [done|apply rtc_refl|done].
Qed.

Lemma stopAllRevoked_spec req cut shards shards' answers :
  stopAllRevoked platform req cut shards = (shards', answers) →
  length shards' = length shards ∧ length answers = length shards ∧
  ∀ i s s' e, shards !! i = Some s → shards' !! i = Some s' → answers !! i = Some e → stop_answered req (2 <=? cut i) e s s'.
Proof.
  unfold stopAllRevoked. intros [= <- <-]. rewrite !length_fmap, !length_imap. split_and!; [done..|]. intros i s s' e Hs.
  rewrite !list_lookup_fmap, list_lookup_imap, Hs. cbn [fmap option_fmap option_map]. intros Hs' He.
  apply stopRevoked_spec. by destruct (stopRevoked platform req (cut i) s); simplify_eq/=.
Qed.

(** ** The revocation *)

(** A shard after a revocation that succeeded. *)
Definition shard_revoked req (r : SessionRevokeResult) s s' : Prop :=
  s'.1 = s.1 ∧ ((∃ result, result ∈ sv_Shards r ∧ acknowledged req result s s') ∨ sv_RuntimeStopped r = true ∧ terminated s s').

(** What each answer of [RevokeSession] says of the shards. *)
Definition revoke_outcome (arrived stopped : nat → bool) req shards shards' (r : option SessionRevokeResult) (e : option ManagerError) : Prop :=
  match r, e with
  | Some r, None =>
     Forall2 (shard_revoked req r) shards shards' ∧
     all_fields (λ f, (f (sv_Counts r) = total f (sv_Shards r))%Z ∧ (f (sv_Counts r) ≤ MaxSafeInteger)%Z)
  | Some r, Some _ =>
     ∃ answers, length shards' = length shards ∧ length answers = length shards ∧
       (∀ i s s' a, shards !! i = Some s → shards' !! i = Some s' → answers !! i = Some a →
          stop_answered req (arrived i) a s s') ∧
       (sv_RuntimeStopped r = true ↔ ∀ i a, answers !! i = Some a → stopped i = true ∧ a = None)
  | None, Some _ =>
     shards' = shards ∨
     ∃ results, Forall2 (λ s s', s'.1 = s.1 ∧ ((∃ result, result ∈ results ∧ acknowledged req result s s') ∨ terminated s s')) shards shards' ∧
       ∃ n, Exists (λ f, (MaxSafeInteger < total f (take n results))%Z) count_fields
  | None, None => False
  end.

Lemma outcomes_revoked arrived ctxErr req shards shards' outcomes :
  revokeShards platform req shards = (shards', outcomes) → outcome_errors arrived ctxErr outcomes = [] →
  Forall2 (λ s s', s'.1 = s.1 ∧ ((∃ result, result ∈ outcome_results outcomes ∧ acknowledged req result s s') ∨
                                  some_stopped outcomes = true ∧ terminated s s')) shards shards'.
Proof.
  intros Hr%revokeShards_spec He. pose proof (outcome_errors_nil _ _ _ He) as Hall.
  apply Forall2_same_length_lookup. split; [by eapply Forall3_length_lr|]. intros i s s' Hs Hs'.
  destruct (Forall3_lookup_l _ _ _ _ _ _ Hr Hs) as (o & z & Ho & Hz & Hid & Hout). simplify_eq. split; [done|].
  destruct o as [result| |e]; [left|right|].
  - exists result. split; [|done]. apply list_elem_of_omap. exists (OutcomeResult result). split; [|done]. by eapply list_elem_of_lookup_2.
  - split; [|done]. apply existsb_exists. exists OutcomeStopped. split; [|done]. apply list_elem_of_In. by eapply list_elem_of_lookup_2.
  - destruct (Hall _ _ Ho) as [_ Hne]. by destruct (Hne e).
Qed.

(** C18: A session is revoked on every shard or every shard is stopped. When
    [RevokeSession] succeeds, each shard was ready and acknowledged the
    revocation in the generation it was in, or it was not ready and was
    stopped, which the result then says; the counts are the sums of the shards'
    counts and stay safe integers. When some outcome fails or is late, every
    shard is stopped: nothing follows that stop on a shard whose outcome was
    received, at most the shard's own pending calls on a late one, and the
    result says that the runtime is stopped exactly when all stops were
    answered in time without an error. Otherwise nothing was done, or a sum
    exceeds the safe integers. *)
Theorem session_revoke_complete arrived stopped cut ctxErr req (m m' : ProcessManager) r e :
  RevokeSession platform arrived stopped cut ctxErr req m = (m', r, e) →
  revoke_outcome arrived stopped req (pm_shards m) (pm_shards m') r e ∧
  ∀ x, r = Some x → sv_SessionScope x = sq_SessionScope req ∧ sv_SessionRevokeSequence x = sq_SessionRevokeSequence req.
Proof.
  unfold RevokeSession. destruct (boundShards m) as [shards|] eqn:Hb.
  2: { intros [= <- <- <-]. split; [by left|done]. }
  unfold boundShards in Hb. destruct (negb _ || _); [done|]. injection Hb as <-.
  destruct (validateSessionRevokeRequest req); [|intros [= <- <- <-]; split; [by left|done]].
  destruct (revokeShards platform req (pm_shards m)) as [l outcomes] eqn:Hr.
  destruct (outcome_errors arrived ctxErr outcomes) as [|err errs] eqn:He.
  - pose proof (outcomes_revoked _ _ _ _ _ _ Hr He) as Hall.
    assert (all_fields (λ f, (f zeroCounts ≤ MaxSafeInteger)%Z)) as Hz by (repeat constructor; done).
    destruct (sum_counts zeroCounts (outcome_results outcomes)) as [counts|e'] eqn:Hsum; intros [= <- <- <-];
      pose proof (sum_counts_spec _ _ _ Hsum Hz) as Hs; simpl in Hs.
    + split; [|by intros x [= <-]]. split; [exact Hall|]. cbn [sv_Counts sv_Shards].
      unfold all_fields in *. rewrite Forall_forall in Hs |- *. intros f Hf. specialize (Hs f Hf).
      by rewrite zero_fields in Hs.
    + split; [|done]. right. exists (outcome_results outcomes). split.
      { eapply Forall2_impl; [exact Hall|]. intros s s' [? [?|[_ ?]]]; auto. }
      destruct Hs as [n (f & Hin & Hf)%Exists_exists]. exists n. apply Exists_exists. exists f.
      by rewrite zero_fields in Hf.
  - destruct (stopAllRevoked platform req _ (pm_shards m)) as [l' answers] eqn:Hstop. intros [= <- <- <-].
    split; [|by intros x [= <-]]. apply stopAllRevoked_spec in Hstop as (Hl & Hla & Hall). exists answers. do 2 (split; [done|]). split.
    + intros i s s' x Hs Hs' Ha. specialize (Hall i s s' x Hs Hs' Ha). destruct (arrived i); [done|].
      destruct Hall as (? & p1 & p2 & ? & ? & _). split; [done|]. by exists p1, p2.
    + cbn [sv_RuntimeStopped]. rewrite bool_decide_eq_true. apply stop_error_none.
Qed.
End revoke.

Lemma session_revoke_complete_witness :
  let req := mkSessionRevokeRequest (mkSessionScope "owner" "user" "env" "channel") 1 in
  let answer := RevokeSession "1.0.0" (λ _, true) (λ _, true) (λ _, 0) Canceled req (sample_manager true false) in
  option_map sv_RuntimeStopped answer.1.2 = Some true ∧
  revoke_outcome "1.0.0" (λ _, true) (λ _, true) req (pm_shards (sample_manager true false)) (pm_shards answer.1.1) answer.1.2 answer.2.
Proof.
  intros req answer. split; [by vm_compute|].
  apply (session_revoke_complete "1.0.0" (λ _, true) (λ _, true) (λ _, 0) Canceled req (sample_manager true false)
           answer.1.1 answer.1.2 answer.2).
  by rewrite <- !surjective_pairing.
Defined.
