(* ===== verification/ManagerCalls.v ===== *)
(** * Calls of a plugin reach the generation it was bound to

    The shards keep their names from their creation on, every call of a plugin
    goes to the one shard its name hashes to, and a worker is invoked exactly
    when the binding and the lease are those of the generation that is ready. *)

From stdpp Require Import pretty.
From S2P Require Import Prelude GoLib SessionCtx Encoding Json Lease Manager ManagerProps ManagerRevoke.

Open Scope go_scope.

Section calls.
Context (platform : string) (sha256 : string → string).
Context {P : Type} `{!processShard P}.
Notation Shard := (string * P)%type.
Implicit Types (p : P) (m : ProcessManager (P:=P)) (shards : list Shard).

(** ** The shards of a bound manager *)

(** A manager that is bound has its number of shards, with their names. *)
Definition wf_manager m : Prop :=
  (minProcessManagerShards ≤ pm_shardCount m ≤ maxProcessManagerShards)%Z ∧
  (pm_bound m = true → (pm_shards m).*1 = shardName <$> seq 0 (Z.to_nat (pm_shardCount m))).

Lemma wf_newProcessManager shardCount supervisor m :
  newProcessManager platform shardCount supervisor = Ok m → wf_manager m.
Proof.
  unfold newProcessManager. destruct (Z.ltb_spec shardCount minProcessManagerShards); simpl; [done|].
  destruct (Z.ltb_spec maxProcessManagerShards shardCount); simpl; [done|]. destruct (negb _); [|done].
  destruct (validateProcessSupervisorOptions _ _ _); simpl; [|done]. intros [= <-]. by split.
Qed.

Lemma createShards_names (factory : nat → Result nat P) index n shards :
  createShards factory index n = Ok shards → shards.*1 = shardName <$> seq index n.
Proof.
  revert index shards. induction n as [|n IH]; intros index shards; simpl; [by intros [= <-]|].
  destruct (factory index) as [p|]; [|done]. destruct (createShards factory (S index) n) as [rest|] eqn:Hr; simpl; [|done].
  intros [= <-]. simpl. f_equal. by apply IH.
Qed.

Lemma wf_BindHostServices streamSink ioBroker (factory : nat → Result nat P) m :
  wf_manager m → wf_manager (BindHostServices streamSink ioBroker factory m).1.
Proof.
  intros Hwf. pose proof Hwf as [Hc _]. unfold BindHostServices. destruct streamSink, ioBroker; try done. simpl. destruct (pm_bound m); [done|].
  destruct (createShards factory 0 _) as [shards|] eqn:Hs; [|done]. split; [done|]. intros _. by eapply createShards_names.
Qed.

Lemma trim_shardName i : i < 16 → TrimSpace (shardName i) = shardName i.
Proof.
  intros Hi. assert (forallb (λ i, String.eqb (TrimSpace (shardName i)) (shardName i)) (seq 0 16) = true) as H by by vm_compute.
  rewrite forallb_forall in H. apply String.eqb_eq, H, in_seq. lia.
Qed.

Lemma wf_shard m i id p : wf_manager m → pm_bound m = true → pm_shards m !! i = Some (id, p) → TrimSpace id = id.
Proof.
  intros [Hc Hn] Hb Hi. specialize (Hn Hb). assert ((pm_shards m).*1 !! i = Some id) as H by by rewrite list_lookup_fmap, Hi.
  rewrite Hn, list_lookup_fmap in H. destruct (seq _ _ !! i) as [j|] eqn:Hj; [|done]. apply lookup_seq in Hj as [-> Hlt].
  injection H as <-. apply trim_shardName. unfold maxProcessManagerShards in Hc. lia.
Qed.

Lemma processShardIndex_lt pluginInstanceID n : 0 < n → processShardIndex sha256 pluginInstanceID n < n.
Proof.
  intros Hn. unfold processShardIndex. set (d := foldl _ _ _). pose proof (Z.mod_pos_bound d (Z.of_nat n)). lia.
Qed.

Lemma boundShards_spec m shards : boundShards m = Ok shards → pm_bound m = true ∧ shards = pm_shards m ∧ 0 < length shards.
Proof.
  unfold boundShards. destruct (pm_bound m); [|done]. simpl. destruct (Nat.eqb_spec (length (pm_shards m)) 0); [done|].
  intros [= <-]. split_and!; [done..|lia].
Qed.

(** A call finds its shard and changes nothing else. *)
Lemma on_shard_spec {A} pluginInstanceID m shards (call : string → P → P * Result ManagerError A) :
  boundShards m = Ok shards →
  ∃ id p, let i := processShardIndex sha256 pluginInstanceID (length shards) in
    shards !! i = Some (id, p) ∧
    on_shard sha256 pluginInstanceID m call = (set_shards (<[i := (id, (call id p).1)]> shards) m, (call id p).2).
Proof.
  intros Hb. destruct (boundShards_spec _ _ Hb) as (_ & _ & Hn).
  destruct (lookup_lt_is_Some_2 shards _ (processShardIndex_lt pluginInstanceID _ Hn)) as [[id p] Hi].
  exists id, p. split; [done|]. unfold on_shard. rewrite Hb, Hi. by destruct (call id p).
Qed.

(** Rewrites a call with [on_shard_spec]. *)
Tactic Notation "to_shard" hyp(Hb) "as" ident(id) ident(p) ident(Hi) :=
  match goal with
  | |- context [on_shard _ ?plugin ?m ?call] => destruct (on_shard_spec plugin m _ call Hb) as (id & p & Hi & ->)
  end.

(** ** Binding and invoking *)

(** The generation that is ready on a shard is the one of the binding, and the
    lease is for it. *)
Definition current (binding : RuntimeBinding) (lease : Lease) (id : string) (answer : Result nat Health) : Prop :=
  ∃ h, answer = Ok h ∧ validateReadyHealth platform h = Ok tt ∧ binding = runtimeBinding id h ∧ leaseMatches lease binding = true.

(** The answer of a process as an answer of the manager. *)
Definition shard_answer {A} (r : P * Result nat A) : P * Result ManagerError A :=
  (r.1, match r.2 with Ok x => Ok x | Err e => Err (ShardError e) end).

Lemma readyHealth_spec p :
  readyHealth platform p =
  ((ps_Health p).1, match (ps_Health p).2 with
                    | Ok h => match validateReadyHealth platform h with Ok _ => Ok h | Err e => Err e end
                    | Err e => Err (ShardError e) end).
Proof. unfold readyHealth. destruct (ps_Health p) as [p1 [h|e]]; [|done]. simpl. by destruct (validateReadyHealth platform h). Qed.

Lemma BindPlugin_spec pluginInstanceID m m' b :
  BindPlugin platform sha256 pluginInstanceID m = (m', Ok b) →
  TrimSpace pluginInstanceID ≠ "" ∧ pm_bound m = true ∧
  ∃ i id p h, i = processShardIndex sha256 (TrimSpace pluginInstanceID) (length (pm_shards m)) ∧ pm_shards m !! i = Some (id, p) ∧
    ps_Health p = ((ps_Health p).1, Ok h) ∧ validateReadyHealth platform h = Ok tt ∧ b = runtimeBinding id h ∧
    m' = set_shards (<[i := (id, (ps_Health p).1)]> (pm_shards m)) m.
Proof.
  unfold BindPlugin. destruct (boundShards m) as [shards|] eqn:Hb; [|done]. case_bool_decide as Hp; [done|].
  destruct (boundShards_spec _ _ Hb) as (Hbound & -> & _).
  to_shard Hb as id p Hi.
  rewrite readyHealth_spec. destruct (ps_Health p) as [p1 [h|e]] eqn:Hh; [|done]. simpl.
  destruct (validateReadyHealth platform h) as [[]|] eqn:Hv; [|done]. intros [= <- <-]. split_and!; [done..|].
  eexists _, id, p, h. rewrite Hh. split_and!; done.
Qed.

(** The call of [InvokeWorker] on a shard. *)
Lemma InvokeWorker_spec binding lease method payload m shards :
  wf_manager m → boundShards m = Ok shards → TrimSpace (le_PluginInstanceID lease) ≠ "" →
  ∃ i id p p' r, i = processShardIndex sha256 (TrimSpace (le_PluginInstanceID lease)) (length shards) ∧
    shards !! i = Some (id, p) ∧
    InvokeWorker platform sha256 binding lease method payload m = (set_shards (<[i := (id, p')]> shards) m, r) ∧
    (current binding lease id (ps_Health p).2 ∧ (p', r) = shard_answer (ps_InvokeWorker lease method payload (ps_Health p).1) ∨
     ¬ current binding lease id (ps_Health p).2 ∧ (p' = p ∨ p' = (ps_Health p).1) ∧ ∃ e, r = Err e).
Proof.
  intros Hwf Hb Hp. unfold InvokeWorker. rewrite Hb, bool_decide_eq_false_2 by done.
  destruct (boundShards_spec _ _ Hb) as (Hbound & Hs & _). to_shard Hb as id p Hi.
  eexists _, id, p, _, _. split_and!; [done|exact Hi|reflexivity|]. rewrite Hs in Hi.
  pose proof (wf_shard _ _ _ _ Hwf Hbound Hi) as Hid.
  case_bool_decide as Htrim; simpl.
  2: { right. split_and!; [|by left|eauto]. intros (h & _ & _ & -> & _). by apply Htrim. }
  rewrite readyHealth_spec. destruct (ps_Health p) as [p1 [h|e]] eqn:Hh; simpl.
  2: { right. split_and!; [|by right|eauto]. by intros (h & ? & _). }
  destruct (validateReadyHealth platform h) as [[]|e] eqn:Hv.
  2: { right. split_and!; [|by right|eauto]. intros (h' & [= <-] & ? & _). congruence. }
  case_bool_decide as He; simpl.
  2: { right. split_and!; [|by right|eauto]. intros (h' & [= <-] & _ & ? & _). done. }
  destruct (leaseMatches lease binding) eqn:Hl; simpl.
  2: { right. split_and!; [|by right|eauto]. intros (h' & _ & _ & _ & ?). congruence. }
  left. split; [by exists h|]. unfold shard_answer. by destruct (ps_InvokeWorker lease method payload p1) as [p2 [x|e]].
Qed.

(** An invocation with a binding that was made earlier. *)
Lemma invoke_bound_aux pluginInstanceID m0 m1 m m' binding lease method payload r :
  wf_manager m0 → BindPlugin platform sha256 pluginInstanceID m0 = (m1, Ok binding) →
  wf_manager m → pm_bound m = true → pm_shardCount m = pm_shardCount m0 →
  TrimSpace (le_PluginInstanceID lease) = TrimSpace pluginInstanceID →
  InvokeWorker platform sha256 binding lease method payload m = (m', r) →
  ∃ i p p', pm_shards m !! i = Some (rb_RuntimeShardID binding, p) ∧
    m' = set_shards (<[i := (rb_RuntimeShardID binding, p')]> (pm_shards m)) m ∧
    (current binding lease (rb_RuntimeShardID binding) (ps_Health p).2 ∧
       (p', r) = shard_answer (ps_InvokeWorker lease method payload (ps_Health p).1) ∨
     ¬ current binding lease (rb_RuntimeShardID binding) (ps_Health p).2 ∧ (p' = p ∨ p' = (ps_Health p).1) ∧ ∃ e, r = Err e).
Proof.
  intros Hwf0 (Hp & Hb0 & i0 & id0 & p0 & h & -> & Hi0 & _ & _ & -> & _)%BindPlugin_spec Hwf Hb Hcount Hlease Hinv.
  assert ((pm_shards m).*1 = (pm_shards m0).*1) as Hnames.
  { rewrite (proj2 Hwf Hb), (proj2 Hwf0 Hb0). by rewrite Hcount. }
  assert (length (pm_shards m) = length (pm_shards m0)) as Hlen.
  { by rewrite <- (length_fmap fst (pm_shards m)), Hnames, length_fmap. }
  assert (boundShards m = Ok (pm_shards m)) as Hbs.
  { unfold boundShards. rewrite Hb. apply lookup_lt_Some in Hi0. by destruct (Nat.eqb_spec (length (pm_shards m)) 0); [lia|]. }
  destruct (InvokeWorker_spec (runtimeBinding id0 h) lease method payload m _ Hwf Hbs) as (i & id & p & p' & r' & -> & Hi & Heq & H);
    [by rewrite Hlease|].
  rewrite Hinv in Heq. injection Heq as -> ->. rewrite Hlease, Hlen in *.
  assert (Some id = Some id0) as [= ->].
  { change (Some id) with (fst <$> Some (id, p)). rewrite <- Hi. change (Some id0) with (fst <$> Some (id0, p0)). rewrite <- Hi0.
    by rewrite <- !list_lookup_fmap, Hnames. }
  eexists _, p, p'. split_and!; [exact Hi|done|exact H].
Qed.

(** ** The life of a manager *)

(** An operation of the manager, or the processes moving on their own. *)
Inductive manager_step m : ProcessManager (P:=P) → Prop :=
| step_bind streamSink ioBroker (factory : nat → Result nat P) :
    manager_step m (BindHostServices streamSink ioBroker factory m).1
| step_start arrived ctxErr target : manager_step m (Start platform arrived ctxErr target m).1
| step_stop arrived : manager_step m (Stop arrived m).1
| step_preflight ctxErr target : manager_step m (Preflight platform ctxErr target m).1
| step_health : manager_step m (HealthOf m).1
| step_bind_plugin pluginInstanceID : manager_step m (BindPlugin platform sha256 pluginInstanceID m).1
| step_prewarm request : manager_step m (PrewarmWorker sha256 request m).1
| step_invoke binding lease method payload : manager_step m (InvokeWorker platform sha256 binding lease method payload m).1
| step_revoke request : manager_step m (Revoke platform sha256 request m).1
| step_revoke_session arrived stopped cut ctxErr request :
    manager_step m (RevokeSession platform arrived stopped cut ctxErr request m).1.1
| step_processes shards : shards.*1 = (pm_shards m).*1 → manager_step m (set_shards shards m).

(** The count and the binding stay, and so do the names once there are some. *)
Definition kept m m' : Prop :=
  pm_shardCount m' = pm_shardCount m ∧ pm_bound m' = pm_bound m ∧ (pm_shards m').*1 = (pm_shards m).*1.

Lemma kept_refl m : kept m m.
Proof. done. Qed.

Lemma shardwise_names (R : relation P) shards shards' : shardwise R shards shards' → shards'.*1 = shards.*1.
Proof. induction 1 as [|s s' l l' [He _] _ IH]; [done|]. rewrite !fmap_cons. by f_equal. Qed.

Lemma Forall3_names {A} (R : Shard → A → Shard → Prop) shards (l : list A) shards' :
  (∀ s x s', R s x s' → s'.1 = s.1) → Forall3 R shards l shards' → shards'.*1 = shards.*1.
Proof. intros HR. induction 1 as [|s x s' l1 l2 l3 H _ IH]; [done|]. rewrite !fmap_cons. f_equal; eauto. Qed.

Lemma kept_start arrived ctxErr target m : kept m (Start platform arrived ctxErr target m).1.
Proof.
  unfold Start. destruct ctxErr; [done|]. destruct (pm_bound m) eqn:Hb; simpl; [|done].
  destruct (startShards platform arrived target (pm_shards m)) as [l r] eqn:Hs. apply startShards_outcome in Hs.
  split_and!; [done|by rewrite Hb|]. simpl.
  destruct r; [destruct Hs as (_ & _ & _ & Hs)|simpl in Hs]; by eapply shardwise_names.
Qed.

Lemma kept_stop arrived m : kept m (Stop arrived m).1.
Proof.
  unfold Stop, stopProcessShards. destruct (pm_bound m) eqn:Hb; simpl; [|done].
  destruct (stop_marked _ _) as [l answers] eqn:Hs. split_and!; [done|by rewrite Hb|]. simpl.
  apply stop_marked_spec in Hs; [|apply length_replicate]. eapply Forall3_names; [|exact Hs]. simpl. by intros s x s' [? _].
Qed.

Lemma kept_preflight ctxErr target m : kept m (Preflight platform ctxErr target m).1.
Proof.
  unfold Preflight. destruct ctxErr; [done|]. destruct (pm_bound m) eqn:Hb; simpl; [|done].
  destruct (preflight platform target (pm_shards m)) as [l r] eqn:Hs. apply preflight_spec in Hs as [Hs _].
  split_and!; [done|by rewrite Hb|]. by eapply shardwise_names.
Qed.

Lemma kept_health m : kept m (HealthOf m).1.
Proof.
  unfold HealthOf. destruct (pm_bound m) eqn:Hb; simpl; [|done].
  destruct (health (pm_shards m)) as [l r] eqn:Hs. apply (health_spec 0%Z) in Hs as [Hs _].
  split_and!; [done|by rewrite Hb|]. by eapply shardwise_names.
Qed.

Lemma kept_on_shard {A} pluginInstanceID m (call : string → P → P * Result ManagerError A) :
  kept m (on_shard sha256 pluginInstanceID m call).1.
Proof.
  destruct (boundShards m) as [shards|e] eqn:Hb; [|unfold on_shard; by rewrite Hb].
  to_shard Hb as id p Hi. destruct (boundShards_spec _ _ Hb) as (_ & -> & _). split_and!; [done..|]. simpl.
  rewrite list_fmap_insert. apply list_insert_id. by rewrite list_lookup_fmap, Hi.
Qed.

(** The operations on one shard check the binding and their arguments first. *)
Ltac kept_call :=
  destruct (boundShards _); [|apply kept_refl];
  first [case_bool_decide; [apply kept_refl|] | destruct (validateRevokeRequest _); [|apply kept_refl]]; apply kept_on_shard.

Lemma kept_bind_plugin pluginInstanceID m : kept m (BindPlugin platform sha256 pluginInstanceID m).1.
Proof. unfold BindPlugin. kept_call. Qed.

Lemma kept_prewarm request m : kept m (PrewarmWorker sha256 request m).1.
Proof. unfold PrewarmWorker. kept_call. Qed.

Lemma kept_invoke binding lease method payload m : kept m (InvokeWorker platform sha256 binding lease method payload m).1.
Proof. unfold InvokeWorker. kept_call. Qed.

Lemma kept_revoke request m : kept m (Revoke platform sha256 request m).1.
Proof. unfold Revoke. kept_call. Qed.

Lemma kept_revoke_session arrived stopped cut ctxErr request m :
  kept m (RevokeSession platform arrived stopped cut ctxErr request m).1.1.
Proof.
  unfold RevokeSession. destruct (boundShards m) as [shards|] eqn:Hb; [|done].
  destruct (boundShards_spec _ _ Hb) as (_ & -> & _). destruct (validateSessionRevokeRequest request); [|done].
  destruct (revokeShards platform request (pm_shards m)) as [l outcomes] eqn:Hr. apply revokeShards_spec in Hr.
  assert (l.*1 = (pm_shards m).*1) as Hl by (eapply Forall3_names; [|exact Hr]; by intros s x s' [? _]).
  destruct (outcome_errors _ _ _); [by destruct (sum_counts _ _)|].
  destruct (stopAllRevoked platform request _ _) as [l' answers] eqn:Hs. apply stopAllRevoked_spec in Hs as (Hlen & Hla & Hs).
  split_and!; [done..|]. simpl. apply list_eq_same_length with (length l'); rewrite ?length_fmap; [done..|].
  intros i x y Hi. rewrite !list_lookup_fmap. intros (s' & Hs' & ->)%fmap_Some (s & Hm & ->)%fmap_Some.
  destruct (lookup_lt_is_Some_2 answers i) as [b Ha]; [by rewrite Hla, <- Hlen|].
  by destruct (Hs i s s' b Hm Hs' Ha).
Qed.

Lemma manager_step_wf m m' :
  manager_step m m' → wf_manager m →
  wf_manager m' ∧ pm_shardCount m' = pm_shardCount m ∧ (pm_bound m = true → pm_bound m' = true).
Proof.
  intros Hstep Hwf. assert (∀ n, kept m n → wf_manager n ∧ pm_shardCount n = pm_shardCount m ∧ (pm_bound m = true → pm_bound n = true)) as Hkept.
  { intros n (Hc & Hb & Hn). unfold wf_manager. rewrite Hc, Hb, Hn. done. }
  destruct Hstep; [|apply Hkept..].
  - split; [by apply wf_BindHostServices|]. unfold BindHostServices. destruct streamSink, ioBroker, (pm_bound m) eqn:Hb; try done.
    simpl. destruct (createShards _ _ _); done.
  - apply kept_start.
  - apply kept_stop.
  - apply kept_preflight.
  - apply kept_health.
  - apply kept_bind_plugin.
  - apply kept_prewarm.
  - apply kept_invoke.
  - apply kept_revoke.
  - apply kept_revoke_session.
  - done.
Qed.

Lemma manager_steps_wf m m' :
  rtc manager_step m m' → wf_manager m →
  wf_manager m' ∧ pm_shardCount m' = pm_shardCount m ∧ (pm_bound m = true → pm_bound m' = true).
Proof.
  induction 1 as [m|m1 m2 m3 H1 _ IH]; [done|]. intros Hwf. destruct (manager_step_wf _ _ H1 Hwf) as (Hwf2 & Hc & Hb).
  destruct (IH Hwf2) as (? & ? & ?). split_and!; [done|congruence|auto].
Qed.

(** C20: A worker runs only in the generation its plugin is bound to. Take a
    plugin that was bound to a manager, and later, after any operations of the
    manager and any moves of its processes, an invocation with that binding and
    a lease of the plugin. The call goes to the shard of the binding and
    touches no other; the worker is invoked, and its answer returned, exactly
    when the health of that shard is valid, is still that of the binding, and
    the lease names the same runtime; otherwise the answer is an error and the
    process was at most looked at. *)
Theorem invoke_bound_generation shardCount supervisor m_new m0 m1 m m' pluginInstanceID binding lease method payload r :
  newProcessManager platform shardCount supervisor = Ok m_new → rtc manager_step m_new m0 →
  BindPlugin platform sha256 pluginInstanceID m0 = (m1, Ok binding) → rtc manager_step m1 m →
  TrimSpace (le_PluginInstanceID lease) = TrimSpace pluginInstanceID →
  InvokeWorker platform sha256 binding lease method payload m = (m', r) →
  ∃ i p p', pm_shards m !! i = Some (rb_RuntimeShardID binding, p) ∧
    m' = set_shards (<[i := (rb_RuntimeShardID binding, p')]> (pm_shards m)) m ∧
    (current binding lease (rb_RuntimeShardID binding) (ps_Health p).2 ∧
       (p', r) = shard_answer (ps_InvokeWorker lease method payload (ps_Health p).1) ∨
     ¬ current binding lease (rb_RuntimeShardID binding) (ps_Health p).2 ∧ (p' = p ∨ p' = (ps_Health p).1) ∧ ∃ e, r = Err e).
Proof.
  intros Hnew Hruns Hbind Hruns2 Hlease Hinv.
  destruct (manager_steps_wf _ _ Hruns (wf_newProcessManager _ _ _ Hnew)) as (Hwf0 & _ & _).
  assert (manager_step m0 m1) as Hstep.
  { replace m1 with (BindPlugin platform sha256 pluginInstanceID m0).1 by by rewrite Hbind. constructor. }
  destruct (manager_steps_wf _ _ (rtc_l _ _ _ _ Hstep Hruns2) Hwf0) as (Hwf & Hcount & Hkeep).
  pose proof (BindPlugin_spec _ _ _ _ Hbind) as (_ & Hb0 & _).
  apply (invoke_bound_aux pluginInstanceID m0 m1); auto.
Qed.
End calls.

(** ** A binding in use *)

Definition sample_lease : Lease :=
  mkLease "lease" "token" "nonce" "plugin" "1.0.0" "fp" "inv" ScopeUser "" "" "user" "env" "" "" "generation" "plugin" "run" "read"
    "sync" "" "audit" [] (mkLeaseLimits 1000 65536 0 0) 1 1 1 (shardName 0) "instance" "channel" "nonce" "key" "" 0 0.

Definition sample_new : ProcessManager (P:=bool) := mkManager 2 sample_options false [].
Definition sample_bound : ProcessManager := (BindHostServices true true (λ _, Ok true) sample_new).1.
Definition sample_binding : RuntimeBinding := runtimeBinding (shardName 0) (sample_health true).
Definition sample_stopped : ProcessManager := (Stop (λ _, true) sample_bound).1.
Definition sample_again : ProcessManager := (Start "1.0.0" (λ _, true) None DarwinAMD64 sample_stopped).1.

(** The plugin is bound, the shards stop and start again with the same
    generation, and the invocation goes through. *)
Lemma invoke_bound_generation_witness :
  let answer := InvokeWorker "1.0.0" (λ _, "") sample_binding sample_lease "run" [] sample_again in
  answer.2 = Ok [] ∧
  ∃ i p p', pm_shards sample_again !! i = Some (shardName 0, p) ∧
    answer.1 = set_shards (<[i := (shardName 0, p')]> (pm_shards sample_again)) sample_again ∧
    (current "1.0.0" sample_binding sample_lease (shardName 0) (ps_Health p).2 ∧
       (p', answer.2) = shard_answer (ps_InvokeWorker sample_lease "run" [] (ps_Health p).1) ∨
     ¬ current "1.0.0" sample_binding sample_lease (shardName 0) (ps_Health p).2 ∧ (p' = p ∨ p' = (ps_Health p).1) ∧
       ∃ e, answer.2 = Err e).
Proof.
  intros answer. split; [by vm_compute|].
  apply (invoke_bound_generation "1.0.0" (λ _, "") 2 sample_options sample_new sample_bound sample_bound sample_again
           answer.1 "plugin" sample_binding sample_lease "run" [] answer.2).
  - by vm_compute.
  - apply rtc_once. apply (step_bind "1.0.0" (λ _, "") sample_new true true (λ _, Ok true)).
  - by vm_compute.
  - eapply rtc_l; [apply (step_stop "1.0.0" (λ _, "") sample_bound (λ _, true))|].
    apply rtc_once, (step_start "1.0.0" (λ _, "") sample_stopped (λ _, true) None DarwinAMD64).
  - by vm_compute.
  - apply surjective_pairing.
Defined.
