(* ===== verification/WebSocket.v ===== *)
(** * WebSocket frames ([pkg/connectivity/connectivity.go])

    The frames a connection of a plugin sends and receives: the client masks
    its payload with four random bytes, the reader takes masked and plain
    frames up to a limit and passes over pings and pongs. The writer is any
    [io.Writer], the reader the bytes it will deliver, as for the runtime
    frames. *)

From Stdlib Require Import ZifyNat.
From S2P Require Import Prelude GoLib Encoding Json JsonProps JsonText Ipc IpcProps.

Open Scope go_scope.
Open Scope Z_scope.

(** ** Types *)

Definition WebSocketMessageText := "text"%string.
Definition WebSocketMessageBinary := "binary"%string.

Inductive WebSocketError :=
| WsInvalidConnector
| WsResponseTooLarge
| WsConnectionClosed
| WsFailed
| WsRandom
| WsIO (e : IOError)
| WsFuel.

(** ** Bytes *)

Definition byte_xor (a b : Ascii.ascii) : Ascii.ascii := zbyte (Z.lxor (zcode a) (zcode b)).

(** [for i := range p { p[i] ^= key[i%4] }] *)
Definition mask_payload (key payload : bytes) : bytes :=
  imap (λ i c, byte_xor c (default (byte 0) (key !! (i mod 4)%nat))) payload.

(** [copy(dst[at:], src)] for a [src] that fits. *)
Definition copy_at (at_ : nat) (src dst : bytes) : bytes := take at_ dst ++ src ++ drop (at_ + length src) dst.

(** ** Writing *)

Definition websocketHeaderWithMask (header : bytes) (maskOffset : nat) : bytes :=
  copy_at maskOffset (take 4 (drop 10 header)) header.

(** The header in its array of 14 bytes, and how many of them are sent. *)
Definition websocketHeader (opcode : Z) (maskKey : bytes) (payloadLen : Z) : bytes * nat :=
  let header := zbyte (Z.lor 128 opcode) :: replicate 9 (byte 0) ++ maskKey in
  if payloadLen <? 126 then
    let header := <[1%nat := zbyte (Z.lor 128 (payloadLen mod 256))]> header in
    (websocketHeaderWithMask header 2, 6%nat)
  else if payloadLen <=? 65535 then
    let header := <[1%nat := zbyte (Z.lor 128 126)]> header in
    let header := copy_at 2 (be 2 (payloadLen mod 65536)) header in
    (websocketHeaderWithMask header 4, 8%nat)
  else
    let header := <[1%nat := zbyte (Z.lor 128 127)]> header in
    let header := copy_at 2 (be 8 (u64 payloadLen)) header in
    (websocketHeaderWithMask header 10, 14%nat).

Section writing.
Context {W : Type} `{!Writer W}.

(** [rand] is what [rand.Read] puts into the mask, if it does not fail. *)
Definition writeWebSocketFrame (rand : option bytes) (writer : W) (opcode : Z) (payload : bytes) : W * option WebSocketError :=
  if 15 <? opcode then (writer, Some WsInvalidConnector)
  else match rand with
  | None => (writer, Some WsRandom)
  | Some maskKey =>
     let '(header, n) := websocketHeader opcode maskKey (blen payload) in
     match Write writer (take n header) with
     | (writer, _, Some err) => (writer, Some (WsIO err))
     | (writer, _, None) =>
        let masked := mask_payload maskKey payload in
        if blen masked =? 0 then (writer, None)
        else match Write writer masked with
        | (writer, _, err) => (writer, WsIO <$> err)
        end
     end
  end.
End writing.

(** ** Reading *)

(** [reader.ReadByte] and [io.ReadFull]. *)
Definition ws_read (n : nat) (reader : Stream) : Result WebSocketError (bytes * Stream) :=
  match ReadFull n reader with
  | Ok x => Ok x
  | Err (IPCIO e) => Err (WsIO e)
  | Err _ => Err WsFailed
  end.

(** The length after the first two bytes. *)
Definition websocketLength (second : Z) (reader : Stream) : Result WebSocketError (Z * Stream) :=
  let length := Z.land second 127 in
  if length =? 126 then
    let? ext := ws_read 2 reader in Ok (unbe ext.1, ext.2)
  else if length =? 127 then
    let? ext := ws_read 8 reader in
    guard! negb (max_int64 <? unbe ext.1) else WsResponseTooLarge in
    Ok (unbe ext.1, ext.2)
  else Ok (length, reader).

Definition readWebSocketFrame (reader : Stream) (maxBytes : Z) : Result WebSocketError (Z * bytes * Stream) :=
  let? first := ws_read 1 reader in
  let? second := ws_read 1 first.2 in
  guard! negb (Z.land (unbe first.1) 128 =? 0) else WsFailed in
  let opcode := Z.land (unbe first.1) 15 in
  let masked := negb (Z.land (unbe second.1) 128 =? 0) in
  let? length := websocketLength (unbe second.1) second.2 in
  guard! negb (u64 maxBytes <? length.1) else WsResponseTooLarge in
  let? mask := (if masked then ws_read 4 length.2 else Ok (replicate 4 (byte 0), length.2)) in
  let? payload := ws_read (Z.to_nat length.1) mask.2 in
  Ok (opcode, if masked then mask_payload mask.1 payload.1 else payload.1, payload.2).

(** The loop of [readWebSocketDataFrame]; every round reads two bytes at least. *)
Fixpoint data_frame_loop (fuel : nat) (reader : Stream) (maxBytes : Z) : Result WebSocketError (Z * bytes * Stream) :=
  match fuel with
  | O => Err WsFuel
  | S fuel =>
     let? frame := readWebSocketFrame reader maxBytes in
     let '(opcode, payload, reader) := frame in
     if (opcode =? 1) || (opcode =? 2) then Ok (opcode, payload, reader)
     else if opcode =? 8 then Err WsConnectionClosed
     else if (opcode =? 9) || (opcode =? 10) then data_frame_loop fuel reader maxBytes
     else Err WsFailed
  end.

Definition readWebSocketDataFrame (reader : Stream) (maxBytes : Z) : Result WebSocketError (Z * bytes * Stream) :=
  guard! negb (maxBytes <=? 0) else WsResponseTooLarge in
  data_frame_loop (S (length (contents reader))) reader maxBytes.

Definition websocketOpcodeForMessageType (messageType : string) : Result WebSocketError Z :=
  if bool_decide (messageType = WebSocketMessageText) then Ok 1
  else if bool_decide (messageType = WebSocketMessageBinary) then Ok 2
  else Err WsInvalidConnector.

Definition websocketMessageTypeForOpcode (opcode : Z) : Result WebSocketError string :=
  if opcode =? 1 then Ok WebSocketMessageText
  else if opcode =? 2 then Ok WebSocketMessageBinary
  else Err WsFailed.

(** * WebSocket frames are read back *)

(** ** Bytes *)

Lemma below_256 z : 0 ≤ z < 256 ↔ 0 ≤ z ∧ Z.shiftr z 8 = 0.
Proof. rewrite Z.shiftr_div_pow2 by lia. change (2 ^ 8) with 256. split; intros [? H]; (split; [lia|]); [apply Z.div_small; lia|]. pose proof (Z.div_mod z 256). pose proof (Z.mod_pos_bound z 256). lia. Qed.

Lemma lxor_byte a b : 0 ≤ a < 256 → 0 ≤ b < 256 → 0 ≤ Z.lxor a b < 256.
Proof.
  rewrite !below_256. intros [? Ha] [? Hb]. split; [apply Z.lxor_nonneg; tauto|]. by rewrite Z.shiftr_lxor, Ha, Hb.
Qed.

Lemma byte_xor_twice a b : byte_xor (byte_xor a b) b = a.
Proof.
  unfold byte_xor. rewrite zcode_zbyte by (apply lxor_byte; apply zcode_range). rewrite Z.lxor_assoc, Z.lxor_nilpotent, Z.lxor_0_r.
  by apply zbyte_code.
Qed.

Lemma mask_payload_twice key payload : mask_payload key (mask_payload key payload) = payload.
Proof.
  apply list_eq. intros i. unfold mask_payload. rewrite !list_lookup_imap. destruct (payload !! i); [|done]. cbn.
  by rewrite byte_xor_twice.
Qed.

Lemma length_mask key payload : length (mask_payload key payload) = length payload.
Proof. apply length_imap. Qed.

(** Facts on the bits of a byte, by trying all of them. *)
Lemma all_below (n : nat) (f : Z → bool) x : forallb f (Z.of_nat <$> seq 0 n) = true → 0 ≤ x < Z.of_nat n → f x = true.
Proof.
  intros Hf Hx. rewrite forallb_forall in Hf. apply Hf, list_elem_of_In, list_elem_of_fmap. exists (Z.to_nat x).
  rewrite elem_of_seq. lia.
Qed.

Definition first_ok (opcode : Z) : bool :=
  let b := Z.lor 128 opcode in (0 <=? b) && (b <? 256) && negb (Z.land b 128 =? 0) && (Z.land b 15 =? opcode).

Definition second_ok (masked : bool) (len : Z) : bool :=
  let b := Z.lor (if masked then 128 else 0) len in
  (0 <=? b) && (b <? 256) && Bool.eqb (negb (Z.land b 128 =? 0)) masked && (Z.land b 127 =? len).

Lemma first_byte opcode : 0 ≤ opcode ≤ 15 → first_ok opcode = true.
Proof. intros H. apply (all_below 16); [by vm_compute|lia]. Qed.

Lemma second_byte masked len : 0 ≤ len ≤ 127 → second_ok masked len = true.
Proof. intros H. apply (all_below 128); [by destruct masked; vm_compute|lia]. Qed.

(** ** The bytes of a frame *)

(** The second byte and the length that follows it. *)
Definition length_bytes (masked : bool) (len : Z) : bytes :=
  let flag := if masked then 128 else 0 in
  if len <? 126 then [zbyte (Z.lor flag len)]
  else if len <=? 65535 then zbyte (Z.lor flag 126) :: be 2 len
  else zbyte (Z.lor flag 127) :: be 8 len.

(** The key of a frame and its payload as it is sent; a frame may have no key. *)
Definition masked_bytes (key : option bytes) (payload : bytes) : bytes :=
  match key with Some key => key ++ mask_payload key payload | None => payload end.

Definition is_masked (key : option bytes) : bool := match key with Some _ => true | None => false end.

Definition frame_octets (opcode : Z) (key : option bytes) (payload : bytes) : bytes :=
  zbyte (Z.lor 128 opcode) :: length_bytes (is_masked key) (blen payload) ++ masked_bytes key payload.

Lemma websocketHeader_octets opcode key payload :
  length key = 4%nat → blen payload ≤ max_int64 →
  (let '(header, n) := websocketHeader opcode key (blen payload) in take n header ++ mask_payload key payload) =
  frame_octets opcode (Some key) payload.
Proof.
  intros Hk Hmax. unfold frame_octets, masked_bytes, is_masked. destruct key as [|k0 [|k1 [|k2 [|k3 [|]]]]]; try done. unfold websocketHeader, length_bytes.
  pose proof (blen_nonneg payload). unfold max_int64 in Hmax.
  destruct (Z.ltb_spec (blen payload) 126); [|destruct (Z.leb_spec (blen payload) 65535)].
  - cbn. by rewrite Z.mod_small by lia.
  - unfold websocketHeaderWithMask, copy_at. rewrite length_be. cbn [replicate app insert list_insert take drop Nat.add].
    rewrite Z.mod_small by lia. assert (length (be 2 (blen payload)) = 2%nat) as Hl by apply length_be.
    destruct (be 2 (blen payload)) as [|a [|b [|]]]; try done.
  - unfold websocketHeaderWithMask, copy_at, u64. rewrite length_be. cbn [replicate app insert list_insert take drop Nat.add].
    rewrite Z.mod_small by lia. assert (length (be 8 (blen payload)) = 8%nat) as Hl by apply length_be.
    destruct (be 8 (blen payload)) as [|a0 [|a1 [|a2 [|a3 [|a4 [|a5 [|a6 [|a7 [|]]]]]]]]]; try done.
Qed.

(** ** Writing *)

(** [io.Writer]: a write without an error has taken everything. *)
Class FullWriter (W : Type) `{!Writer W} :=
  Write_full : ∀ (w : W) p w' n, Write w p = (w', n, None) → n = blen p.

Lemma writeWebSocketFrame_spec {W : Type} `{!Writer W} `{!FullWriter W} (w w' : W) key opcode payload :
  length key = 4%nat → blen payload ≤ max_int64 →
  writeWebSocketFrame (Some key) w opcode payload = (w', None) →
  opcode ≤ 15 ∧ wrote w (frame_octets opcode (Some key) payload) w'.
Proof.
  intros Hk Hmax. unfold writeWebSocketFrame. destruct (Z.ltb_spec 15 opcode); [done|].
  pose proof (websocketHeader_octets opcode key payload Hk Hmax) as Hh.
  destruct (websocketHeader opcode key (blen payload)) as [header n]. rewrite <- Hh.
  destruct (Write w (take n header)) as [[w1 k] [err|]] eqn:Hw; [done|]. pose proof (Write_full _ _ _ _ Hw) as ->.
  apply Write_taken in Hw. unfold blen in Hw at 1. rewrite Nat2Z.id, firstn_all in Hw.
  destruct (Z.eqb_spec (blen (mask_payload key payload)) 0) as [H0|H0].
  - intros [= <-]. split; [done|]. unfold blen in H0. destruct (mask_payload key payload); [|cbn in H0; lia]. by rewrite app_nil_r.
  - destruct (Write w1 (mask_payload key payload)) as [[w2 k] [err|]] eqn:Hw2; [done|]. pose proof (Write_full _ _ _ _ Hw2) as ->.
    apply Write_taken in Hw2. unfold blen in Hw2. rewrite Nat2Z.id, firstn_all in Hw2. intros [= <-]. split; [done|].
    by eapply wrote_app.
Qed.

(** ** Reading *)

Definition stream (s : bytes) (e : IOError) : Stream := {| contents := s; ending := e |}.

Lemma ws_read_app n x rest e : length x = n → ws_read n (stream (x ++ rest) e) = Ok (x, stream rest e).
Proof.
  intros Hn. unfold ws_read. assert (ReadFull n (stream (x ++ rest) e) = Ok (x, stream rest e)) as ->; [|done].
  by apply ReadFull_ok.
Qed.

Lemma ws_read_cons c rest e : ws_read 1 (stream (c :: rest) e) = Ok ([c], stream rest e).
Proof. by apply (ws_read_app 1 [c]). Qed.

Lemma unbe_byte z : 0 ≤ z < 256 → unbe [zbyte z] = z.
Proof. intros H. unfold unbe. cbn. by rewrite zcode_zbyte by done. Qed.

Lemma second_facts (masked : bool) len b :
  0 ≤ len ≤ 127 → b = Z.lor (if masked then 128 else 0) len →
  unbe [zbyte b] = b ∧ negb (Z.land b 128 =? 0) = masked ∧ Z.land b 127 = len.
Proof.
  intros Hl ->. pose proof (second_byte masked len Hl) as H. unfold second_ok in H. rewrite !andb_true_iff in H.
  destruct H as [[[H1 H2] H3%eqb_prop] H4%Z.eqb_eq]. split_and!; [|done..]. apply unbe_byte. lia.
Qed.

(** The second byte and the length are read back. *)
Lemma length_read masked len rest e :
  0 ≤ len ≤ max_int64 →
  ∃ second s, ws_read 1 (stream (length_bytes masked len ++ rest) e) = Ok (second, s) ∧
    negb (Z.land (unbe second) 128 =? 0) = masked ∧ websocketLength (unbe second) s = Ok (len, stream rest e).
Proof.
  intros Hlen. unfold length_bytes, websocketLength.
  destruct (Z.ltb_spec len 126); [|destruct (Z.leb_spec len 65535)].
  - destruct (second_facts masked len _ ltac:(lia) eq_refl) as (Hb & Hm & Hl).
    eexists _, _. split; [apply ws_read_cons|]. rewrite Hb, Hl, Hm. split; [done|].
    by rewrite !(proj2 (Z.eqb_neq len _)) by lia.
  - destruct (second_facts masked 126 _ ltac:(lia) eq_refl) as (Hb & Hm & Hl).
    eexists _, _. split; [apply ws_read_cons|]. rewrite Hb, Hl, Hm. split; [done|]. cbn [Z.eqb Pos.eqb].
    rewrite (ws_read_app 2) by apply length_be. cbn [rbind fst snd]. rewrite unbe_be by (cbn; lia). done.
  - destruct (second_facts masked 127 _ ltac:(lia) eq_refl) as (Hb & Hm & Hl).
    eexists _, _. split; [apply ws_read_cons|]. rewrite Hb, Hl, Hm. split; [done|]. cbn [Z.eqb Pos.eqb].
    rewrite (ws_read_app 8) by apply length_be. cbn [rbind fst snd]. rewrite unbe_be by (unfold max_int64 in Hlen; cbn; lia).
    by rewrite (proj2 (Z.ltb_ge _ _)) by lia.
Qed.

Definition key_ok (key : option bytes) : Prop := match key with Some key => length key = 4%nat | None => True end.

(** A frame is read back when its payload is within the limit, and refused
    when it is not. *)
Lemma readWebSocketFrame_spec opcode key payload maxBytes rest e :
  0 ≤ opcode ≤ 15 → key_ok key → blen payload ≤ max_int64 → 0 ≤ maxBytes ≤ max_int64 →
  readWebSocketFrame (stream (frame_octets opcode key payload ++ rest) e) maxBytes =
  if maxBytes <? blen payload then Err WsResponseTooLarge else Ok (opcode, payload, stream rest e).
Proof.
  intros Hop Hk Hp Hmax. unfold readWebSocketFrame, frame_octets. rewrite <- app_comm_cons, <- !app_assoc.
  pose proof (first_byte opcode Hop) as Hf. unfold first_ok in Hf. rewrite !andb_true_iff in Hf.
  destruct Hf as [[[H1 H2] H3] H4%Z.eqb_eq]. set (b := Z.lor 128 opcode) in *.
  rewrite ws_read_cons. cbn [rbind fst snd].
  pose proof (blen_nonneg payload) as H0.
  destruct (length_read (is_masked key) (blen payload) (masked_bytes key payload ++ rest) e ltac:(lia)) as (second & s & -> & Hm & Hl).
  cbn [rbind fst snd]. rewrite unbe_byte by lia. rewrite H3, Hm, Hl, H4. cbn [rbind fst snd].
  unfold u64. rewrite Z.mod_small by (unfold max_int64 in Hmax; lia).
  destruct (Z.ltb_spec maxBytes (blen payload)); [done|]. cbn [negb].
  destruct key as [key|]; cbn [is_masked masked_bytes].
  - rewrite <- app_assoc, (ws_read_app 4) by done. cbn [rbind fst snd].
    rewrite (ws_read_app _ (mask_payload key payload)) by (rewrite length_mask; unfold blen; lia). cbn [rbind fst snd].
    by rewrite mask_payload_twice.
  - cbn [rbind fst snd]. by rewrite (ws_read_app _ payload) by (unfold blen; lia).
Qed.

(** ** Control frames before the data *)

(** A ping or a pong with its payload. *)
Record Control := mkControl { co_opcode : Z; co_key : option bytes; co_payload : bytes }.

Definition control_ok (maxBytes : Z) (c : Control) : Prop :=
  (co_opcode c = 9 ∨ co_opcode c = 10) ∧ key_ok (co_key c) ∧ blen (co_payload c) ≤ maxBytes.

Definition control_octets (c : Control) : bytes := frame_octets (co_opcode c) (co_key c) (co_payload c).

Lemma data_frame_loop_spec controls opcode key payload maxBytes rest e fuel :
  Forall (control_ok maxBytes) controls → opcode = 1 ∨ opcode = 2 ∨ opcode = 8 → key_ok key → blen payload ≤ max_int64 →
  0 ≤ maxBytes ≤ max_int64 → (length controls < fuel)%nat →
  data_frame_loop fuel (stream (concat (control_octets <$> controls) ++ frame_octets opcode key payload ++ rest) e) maxBytes =
  if maxBytes <? blen payload then Err WsResponseTooLarge
  else if opcode =? 8 then Err WsConnectionClosed else Ok (opcode, payload, stream rest e).
Proof.
  intros Hc Hop Hk Hp Hmax. revert fuel. induction Hc as [|c controls (Hco & Hck & Hcp) _ IH]; intros [|fuel] Hf; cbn in Hf; try lia.
  - cbn [concat fmap list_fmap app data_frame_loop]. rewrite readWebSocketFrame_spec by (try done; lia).
    destruct (maxBytes <? blen payload); [done|]. cbn [rbind]. by destruct Hop as [->|[->| ->]].
  - rewrite fmap_cons. cbn [concat]. rewrite <- app_assoc. cbn [data_frame_loop]. unfold control_octets at 1.
    rewrite readWebSocketFrame_spec by (try done; lia). rewrite (proj2 (Z.ltb_ge _ _)) by lia. cbn [rbind].
    assert ((co_opcode c =? 1) || (co_opcode c =? 2) = false) as -> by (destruct Hco as [-> | ->]; done).
    assert ((co_opcode c =? 8) = false) as -> by (destruct Hco as [-> | ->]; done).
    assert ((co_opcode c =? 9) || (co_opcode c =? 10) = true) as -> by (destruct Hco as [-> | ->]; done).
    apply IH. lia.
Qed.

Lemma controls_length controls : (length controls ≤ length (concat (control_octets <$> controls)))%nat.
Proof. induction controls as [|c controls IH]; [done|]. rewrite fmap_cons. cbn [concat]. rewrite length_app. cbn. lia. Qed.

(** What a connection writes is what the other side reads. A data frame
    that was written without an error, behind any pings and pongs and before
    any other bytes, is read back with its opcode and payload, and the reader
    is left at what follows; when the payload exceeds the limit the answer is
    the error, and a close frame ends the connection. The frames before it may
    be masked or not. *)
Theorem websocket_round_trip {W : Type} `{!Writer W} `{!FullWriter W} (w w' : W) key opcode payload controls maxBytes rest e :
  length key = 4%nat → opcode = 1 ∨ opcode = 2 ∨ opcode = 8 → blen payload ≤ max_int64 → 0 < maxBytes ≤ max_int64 →
  Forall (control_ok maxBytes) controls → writeWebSocketFrame (Some key) w opcode payload = (w', None) →
  ∃ octets, taken w' = taken w ++ octets ∧
    readWebSocketDataFrame {| contents := concat (control_octets <$> controls) ++ octets ++ rest; ending := e |} maxBytes =
    if maxBytes <? blen payload then Err WsResponseTooLarge
    else if opcode =? 8 then Err WsConnectionClosed else Ok (opcode, payload, {| contents := rest; ending := e |}).
Proof.
  intros Hk Hop Hp Hmax Hc Hw. destruct (writeWebSocketFrame_spec _ _ _ _ _ Hk Hp Hw) as [_ Hwrote].
  eexists. split; [exact Hwrote|]. unfold readWebSocketDataFrame. rewrite (proj2 (Z.leb_gt _ _)) by lia. cbn [negb].
  apply data_frame_loop_spec; [done..|lia|]. cbn [contents]. rewrite length_app. pose proof (controls_length controls). lia.
Qed.

(** A reader of plain frames, as the other side sends them. *)
Lemma plain_frame_read opcode payload maxBytes rest e :
  0 ≤ opcode ≤ 15 → blen payload ≤ maxBytes ≤ max_int64 →
  readWebSocketFrame {| contents := frame_octets opcode None payload ++ rest; ending := e |} maxBytes =
  Ok (opcode, payload, {| contents := rest; ending := e |}).
Proof.
  intros Hop Hp. pose proof (blen_nonneg payload). etrans; [by apply (readWebSocketFrame_spec opcode None); [|done|lia..]|].
  by rewrite (proj2 (Z.ltb_ge _ _)) by lia.
Qed.

(** The types of messages are the opcodes of the data frames. *)
Lemma message_opcode t o : websocketOpcodeForMessageType t = Ok o ↔ websocketMessageTypeForOpcode o = Ok t.
Proof.
  unfold websocketOpcodeForMessageType, websocketMessageTypeForOpcode. split.
  - case_bool_decide; [intros [= <-]; by subst|]. case_bool_decide; [intros [= <-]; by subst|done].
  - destruct (Z.eqb_spec o 1) as [->|]; [by intros [= <-]|]. destruct (Z.eqb_spec o 2) as [->|]; [by intros [= <-]|done].
Qed.

(** ** A frame in memory *)

(** [bytes.Buffer]: it takes everything. *)
#[export] Instance buffer_writer : Writer bytes.
Proof.
  refine {| taken := id; Write := λ w p, (w ++ p, blen p, None) |}. intros w p w' n e [= <- <- <-]. unfold blen.
  by rewrite Nat2Z.id, firstn_all.
Defined.

#[export] Instance buffer_full : FullWriter bytes.
Proof. intros w p w' n. by intros [= _ <-]. Qed.

Lemma websocket_round_trip_witness :
  let written := writeWebSocketFrame (Some (text "mask")) ([] : bytes) 1 (text "hello") in
  written.2 = None ∧ (64 <? blen (text "hello")) = false ∧
  ∃ octets, taken written.1 = taken ([] : bytes) ++ octets ∧
    readWebSocketDataFrame {| contents := concat (control_octets <$> [mkControl 9 None (text "ping")]) ++ octets ++ text "rest";
                              ending := EOF |} 64 =
    if 64 <? blen (text "hello") then Err WsResponseTooLarge
    else if 1 =? 8 then Err WsConnectionClosed else Ok (1, text "hello", {| contents := text "rest"; ending := EOF |}).
Proof.
  intros written. split; [done|]. split; [done|].
  apply (websocket_round_trip ([] : bytes) written.1 (text "mask") 1 (text "hello") [mkControl 9 None (text "ping")] 64
           (text "rest") EOF); [done|by left|done|done| |done].
  repeat constructor; done.
Defined.
