(* ===== verification/NetIP.v ===== *)
(** * Addresses and endpoints of Go's [net] and [net/netip]

    What the network policy uses of them: addresses with their zones, their
    text, prefixes and membership in a prefix, [host:port] endpoints, and the
    string functions of [strings] and [strconv] the policy calls. *)

From stdpp Require Import pretty.
From S2P Require Import Prelude GoLib Encoding Json JsonText Ipc.

Open Scope go_scope.
Open Scope Z_scope.

(** ** Strings *)

(** [strings.IndexByte] and [strings.LastIndexByte] as a split at the byte. *)
Fixpoint cut_first (n : nat) (s : bytes) : option (bytes * bytes) :=
  match s with
  | [] => None
  | c :: s =>
     if is_byte n c then Some ([], s)
     else match cut_first n s with Some (a, b) => Some (c :: a, b) | None => None end
  end.

Definition cut_last (n : nat) (s : bytes) : option (bytes * bytes) :=
  match cut_first n (reverse s) with Some (b, a) => Some (reverse a, reverse b) | None => None end.

Definition has_byte (n : nat) (s : bytes) : bool := existsb (is_byte n) s.

(** [strings.Contains] *)
Fixpoint contains (sub s : bytes) : bool :=
  match strip_prefix sub s with
  | Some _ => true
  | None => match s with [] => false | _ :: s => contains sub s end
  end.

(** [strings.Trim(s, cutset)] for bytes of the cutset. *)
Fixpoint trim_while (p : Ascii.ascii → bool) (s : bytes) : bytes :=
  match s with [] => [] | c :: t => if p c then trim_while p t else s end.

Definition trim_set (p : Ascii.ascii → bool) (s : bytes) : bytes := reverse (trim_while p (reverse (trim_while p s))).

Definition bracket (c : Ascii.ascii) : bool := is_byte 91 c || is_byte 93 c.

(** [strings.Split] at a byte. *)
Fixpoint split_at (n : nat) (s : bytes) : list bytes :=
  match s with
  | [] => [[]]
  | c :: s =>
     if is_byte n c then [] :: split_at n s
     else match split_at n s with part :: parts => (c :: part) :: parts | [] => [[c]] end
  end.

(** [strconv.Atoi] with 64 bits. *)
Definition digits_value (s : bytes) : option Z :=
  match s with
  | [] => None
  | _ => if forallb digit s then Some (foldl (λ acc c, acc * 10 + (zcode c - 48)) 0 s) else None
  end.

Definition Atoi (s : string) : option Z :=
  let value :=
    match text s with
    | c :: rest =>
       if is_byte 45 c then Z.opp <$> digits_value rest
       else if is_byte 43 c then digits_value rest else digits_value (c :: rest)
    | [] => None
    end in
  match value with
  | Some n => if (min_int64 <=? n) && (n <=? max_int64) then Some n else None
  | None => None
  end.

(** The runes of a string, as a [range] loop sees them. *)
Fixpoint runes_fuel (fuel : nat) (s : bytes) : list Z :=
  match fuel, s with
  | S fuel, _ :: _ => let '(r, n) := DecodeRune s in r :: runes_fuel fuel (drop n s)
  | _, _ => []
  end.

Definition runes (s : bytes) : list Z := runes_fuel (length s) s.

(** [strings.ToLower]; [unicode_lower] is the table of [unicode.ToLower]
    beyond ASCII. *)
Definition lower_rune (unicode_lower : Z → Z) (r : Z) : Z :=
  if (65 <=? r) && (r <=? 90) then r + 32 else if r <? 128 then r else unicode_lower r.

Definition ToLower (unicode_lower : Z → Z) (s : string) : string :=
  of_text (concat ((λ r, encode_rune (lower_rune unicode_lower r)) <$> runes (text s))).

(** ** Addresses *)

(** The zero [netip.Addr], an IPv4 address, and an IPv6 address with its zone. *)
Inductive Addr :=
| AddrNone
| Addr4 (v : Z)
| Addr6 (v : Z) (zone : string).

#[export] Instance Addr_eq_dec : EqDecision Addr.
Proof. solve_decision. Defined.

Definition IsValid (a : Addr) : bool := match a with AddrNone => false | _ => true end.
Definition BitLen (a : Addr) : Z := match a with AddrNone => 0 | Addr4 _ => 32 | Addr6 _ _ => 128 end.
Definition Zone (a : Addr) : string := match a with Addr6 _ zone => zone | _ => "" end.
Definition addr_value (a : Addr) : Z := match a with AddrNone => 0 | Addr4 v | Addr6 v _ => v end.

(** IPv4-mapped addresses become IPv4. *)
Definition Unmap (a : Addr) : Addr :=
  match a with
  | Addr6 v zone => if Z.shiftr v 32 =? 65535 then Addr4 (v mod 2 ^ 32) else a
  | _ => a
  end.

(** [netip.AddrFromSlice] and [AsSlice]. *)
Definition AddrFromSlice (s : bytes) : option Addr :=
  if (length s =? 4)%nat then Some (Addr4 (unbe s))
  else if (length s =? 16)%nat then Some (Addr6 (unbe s) "") else None.

Definition AsSlice (a : Addr) : bytes :=
  match a with AddrNone => [] | Addr4 v => be 4 v | Addr6 v _ => be 16 v end.

(** ** Reading addresses *)

(** [parseIPv4Fields]; [first] and [after_dot] are the checks on the bytes around a dot. *)
Fixpoint v4_loop (first after_dot : bool) (val digLen : Z) (fields : list Z) (s : bytes) : option (list Z) :=
  match s with
  | [] => if (length fields <? 3)%nat then None else Some (fields ++ [val])
  | c :: rest =>
     if digit c then
       if (digLen =? 1) && (val =? 0) then None
       else
         let val := val * 10 + (zcode c - 48) in
         if 255 <? val then None else v4_loop false false val (digLen + 1) fields rest
     else if is_byte 46 c then
       if first || match rest with [] => true | _ => false end || after_dot then None
       else if (length fields =? 3)%nat then None
       else v4_loop false true 0 0 (fields ++ [val]) rest
     else None
  end.

Definition join_groups (width : Z) (groups : list Z) : Z := foldl (λ acc g, acc * 2 ^ width + g) 0 groups.

Definition parseIPv4 (s : bytes) : option Addr := Addr4 <$> (join_groups 8 <$> v4_loop true false 0 0 [] s).

Fixpoint span_hex (s : bytes) : bytes * bytes :=
  match s with
  | c :: t => match hex_value c with Some _ => let '(a, b) := span_hex t in (c :: a, b) | None => ([], s) end
  | [] => ([], [])
  end.

Definition hex_number (s : bytes) : Z := foldl (λ acc c, acc * 16 + default 0 (hex_value c)) 0 s.

(** The loop over the groups of [parseIPv6]: the groups, where the ellipsis
    was, and what is left. There are at most eight rounds. *)
Fixpoint v6_loop (fuel : nat) (s : bytes) (groups : list Z) (ellipsis : option nat) : option (list Z * option nat * bytes) :=
  match fuel with
  | O => Some (groups, ellipsis, s)
  | S fuel =>
     let '(digits, rest) := span_hex s in
     if (length digits =? 0)%nat || (4 <? length digits)%nat then None
     else match rest with
     | [] => Some (groups ++ [hex_number digits], ellipsis, [])
     | c :: rest =>
        if is_byte 46 c then
          if bool_decide (ellipsis = None) && negb (length groups =? 6)%nat then None
          else if (8 <? length groups + 2)%nat then None
          else match v4_loop true false 0 0 [] s with
          | Some [a; b; c; d] => Some (groups ++ [a * 256 + b; c * 256 + d], ellipsis, [])
          | _ => None
          end
        else
          let groups := groups ++ [hex_number digits] in
          if negb (is_byte 58 c) then None
          else match rest with
          | [] => None
          | c :: after =>
             if is_byte 58 c then
               if bool_decide (ellipsis = None) then
                 match after with
                 | [] => Some (groups, Some (length groups), [])
                 | _ => v6_loop fuel after groups (Some (length groups))
                 end
               else None
             else v6_loop fuel rest groups ellipsis
          end
     end
  end.

(** The groups with the ellipsis expanded. *)
Definition v6_groups (groups : list Z) (ellipsis : option nat) (rest : bytes) : option (list Z) :=
  match rest with
  | _ :: _ => None
  | [] =>
     if (length groups <? 8)%nat then
       match ellipsis with
       | None => None
       | Some i => Some (take i groups ++ replicate (8 - length groups) 0 ++ drop i groups)
       end
     else match ellipsis with Some _ => None | None => Some groups end
  end.

Definition parseIPv6 (s : bytes) : option Addr :=
  let split := match cut_first 37 s with Some (a, zone) => (a, Some zone) | None => (s, None) end in
  let '(s, zone) := split in
  match zone with
  | Some [] => None
  | _ =>
     let zone := match zone with Some z => of_text z | None => "" end in
     let parsed :=
       match strip_prefix (text "::") s with
       | Some [] => Some (replicate 8 0)
       | Some rest =>
          match v6_loop 8 rest [] (Some 0%nat) with Some (g, e, r) => v6_groups g e r | None => None end
       | None => match v6_loop 8 s [] None with Some (g, e, r) => v6_groups g e r | None => None end
       end in
     (λ g, Addr6 (join_groups 16 g) zone) <$> parsed
  end.

(** [netip.ParseAddr]: the first of the three bytes decides. *)
Fixpoint addr_kind (s : bytes) : option nat :=
  match s with
  | [] => None
  | c :: s => if is_byte 46 c then Some 4%nat else if is_byte 58 c then Some 6%nat else if is_byte 37 c then None else addr_kind s
  end.

Definition ParseAddr (s : string) : option Addr :=
  match addr_kind (text s) with
  | Some 4%nat => parseIPv4 (text s)
  | Some _ => parseIPv6 (text s)
  | None => None
  end.

(** ** Writing addresses *)

Definition v4_text (v : Z) : string :=
  pretty (v / 2 ^ 24 mod 256) +:+ "." +:+ pretty (v / 2 ^ 16 mod 256) +:+ "." +:+ pretty (v / 2 ^ 8 mod 256) +:+ "." +:+ pretty (v mod 256).

(** The 16-bit groups of an address. *)
Definition groups_of (v : Z) : list Z := (λ i, v / 2 ^ (16 * (7 - Z.of_nat i)) mod 65536) <$> seq 0 8.

(** The longest run of at least two zero groups, the first of them. *)
Fixpoint zeros (l : list Z) : nat := match l with 0 :: l => S (zeros l) | _ => O end.

Definition zero_run (groups : list Z) : option (nat * nat) :=
  foldl (λ best i,
    let l := zeros (drop i groups) in
    let length_best := match best with Some (a, b) => (b - a)%nat | None => O end in
    if (2 <=? l)%nat && (length_best <? l)%nat then Some (i, (i + l)%nat) else best) None (seq 0 8).

Definition hex_text (n : Z) : string :=
  let digits := (λ i, hex_digit (Z.to_nat (n / 16 ^ (3 - Z.of_nat i) mod 16))) <$> seq 0 4 in
  of_text (match trim_while (is_byte 48) digits with [] => [byte 48] | d => d end).

Definition join_colon (groups : list Z) : string := of_text (join [byte 58] ((λ g, text (hex_text g)) <$> groups)).

Definition v6_text (v : Z) : string :=
  let groups := groups_of v in
  match zero_run groups with
  | Some (a, b) => join_colon (take a groups) +:+ "::" +:+ join_colon (drop b groups)
  | None => join_colon groups
  end.

(** [Addr.String] *)
Definition addr_String (a : Addr) : string :=
  match a with
  | AddrNone => "invalid IP"
  | Addr4 v => v4_text v
  | Addr6 v zone =>
     (if Z.shiftr v 32 =? 65535 then "::ffff:" +:+ v4_text (v mod 2 ^ 32) else v6_text v) +:+
     (if bool_decide (zone = "") then "" else "%" +:+ zone)
  end.

(** ** Prefixes *)

Record Prefix := mkPrefix { pf_addr : Addr; pf_bits : Z }.

#[export] Instance Prefix_eq_dec : EqDecision Prefix.
Proof. solve_decision. Defined.

Definition ParsePrefix (s : string) : option Prefix :=
  match cut_last 47 (text s) with
  | None => None
  | Some (addr, bits) =>
     match ParseAddr (of_text addr) with
     | None => None
     | Some ip =>
        if negb (bool_decide (Zone ip = "")) then None
        else if (1 <? length bits)%nat && negb (match bits with c :: _ => byte_in 49 57 c | [] => false end) then None
        else match digits_value bits with
        | Some n => if n <=? BitLen ip then Some (mkPrefix ip n) else None
        | None => None
        end
     end
  end.

(** The first [bits] bits agree; never for an address with a zone or of the other family. *)
Definition Contains (p : Prefix) (a : Addr) : bool :=
  bool_decide (Zone a = "") && IsValid a && IsValid (pf_addr p) && (BitLen (pf_addr p) =? BitLen a) &&
  (Z.shiftr (Z.lxor (addr_value a) (addr_value (pf_addr p))) (BitLen a - pf_bits p) =? 0).

Definition Masked (p : Prefix) : Prefix :=
  let keep v n := Z.shiftl (Z.shiftr v (n - pf_bits p)) (n - pf_bits p) in
  mkPrefix (match pf_addr p with
            | AddrNone => AddrNone | Addr4 v => Addr4 (keep v 32) | Addr6 v _ => Addr6 (keep v 128) "" end) (pf_bits p).

Definition prefix_String (p : Prefix) : string :=
  match pf_addr p with
  | Addr6 v zone => addr_String (Addr6 v "")
  | a => addr_String a
  end +:+ "/" +:+ pretty (pf_bits p).

(** ** Endpoints *)

(** [net.SplitHostPort] *)
Definition SplitHostPort (hostport : string) : option (string * string) :=
  let s := text hostport in
  match cut_last 58 s with
  | None => None
  | Some (before, port) =>
     match s with
     | c :: inside =>
        if is_byte 91 c then
          match cut_first 93 inside with
          | None => None
          | Some (host, after) =>
             if negb (bool_decide (after = byte 58 :: port)) then None
             else if has_byte 91 inside || has_byte 93 after then None
             else Some (of_text host, of_text port)
          end
        else if has_byte 58 before || has_byte 91 s || has_byte 93 s then None
        else Some (of_text before, of_text port)
     | [] => None
     end
  end.

(** [net.JoinHostPort] *)
Definition JoinHostPort (host port : string) : string :=
  if has_byte 58 (text host) then "[" +:+ host +:+ "]:" +:+ port else host +:+ ":" +:+ port.
