(* ===== verification/Connectivity.v ===== *)
(** * Network policies and grants ([pkg/connectivity])

    Destinations and the classifier of addresses, the private networks an
    approved connection may reach, the compilation of a plugin's connectors to
    a policy, the memory broker that mints grants from installed policies, the
    check of a grant before a connection, and the guard on resolved addresses.
    Parameters are [url.Parse], the table of [unicode.ToLower] beyond ASCII,
    and the resolver. *)

From stdpp Require Import pretty.
From S2P Require Import Prelude GoLib SessionCtx Encoding Json JsonText Ipc NetIP.

Open Scope go_scope.
Open Scope Z_scope.

(** ** Types *)

Definition Transport := string.
Definition TransportHTTP : Transport := "http".
Definition TransportWebSocket : Transport := "websocket".
Definition TransportTCP : Transport := "tcp".
Definition TransportUDP : Transport := "udp".

Definition DefaultGrantTTL : Z := Minute.
Definition MaxGrantTTL : Z := 5 * Minute.

Inductive NetError :=
| ErrInvalidConnector
| ErrTargetDenied
| ErrConnectorDenied
| ErrResourceScopeMismatch
| ErrGrantExpired
| NetSession (e : SessErr)
| NetRandom
| NetLookup (e : nat)
| NetAddress.

Record Destination := mkDestination {
  de_Transport : Transport;
  de_Scheme : string;
  de_Host : string;
  de_Port : Z;
}.

#[export] Instance Destination_eq_dec : EqDecision Destination.
Proof. solve_decision. Defined.

Definition Canonical (d : Destination) : string :=
  de_Transport d +:+ "://" +:+ de_Host d +:+ ":" +:+ pretty (de_Port d) +:+
  (if bool_decide (de_Scheme d = "") then "" else "#" +:+ de_Scheme d).

Record ConnectorPolicy := mkConnector {
  cp_Configurable : bool;
  cp_ConnectorID : string;
  cp_Transport : Transport;
  cp_Scope : string;
  cp_Destinations : list Destination;
  cp_SecretRef : string;
}.

Record PolicySet := mkPolicySet {
  np_PluginInstanceID : string;
  np_PluginID : string;
  np_ActiveFingerprint : string;
  np_PolicyRevision : Z;
  np_ManagementRevision : Z;
  np_RevokeEpoch : Z;
  np_TargetClassifierVersion : string;
  np_Connectors : list ConnectorPolicy;
}.

(** A connector of the manifest; of [Auth] only the text of [secret_ref] is read. *)
Record NetworkConnectorSpec := mkConnectorSpec {
  cs_Configurable : bool;
  cs_ConnectorID : string;
  cs_Transport : string;
  cs_Scope : string;
  cs_Destinations : list string;
  cs_AuthSecretRef : option string;
}.

Record CompileRequest := mkCompileRequest {
  cr_PluginInstanceID : string;
  cr_PluginID : string;
  cr_ActiveFingerprint : string;
  cr_PolicyRevision : Z;
  cr_ManagementRevision : Z;
  cr_RevokeEpoch : Z;
  cr_Connectors : list NetworkConnectorSpec;
}.

Record ApprovedBinding := mkApproved {
  ab_PrivatePrefixes : list string;
  ab_ConnectionID : string;
  ab_Revision : Z;
  ab_Destination : string;
  ab_HTTPMethods : list string;
  ab_ExpiresAt : time;
}.

Record GrantRequest := mkNetGrantRequest {
  nr_Binding : option ApprovedBinding;
  nr_HTTPMethod : string;
  nr_PluginInstanceID : string;
  nr_ActiveFingerprint : string;
  nr_ResourceScope : ResourceScope;
  nr_PolicyRevision : Z;
  nr_ManagementRevision : Z;
  nr_RevokeEpoch : Z;
  nr_ConnectorID : string;
  nr_Transport : Transport;
  nr_Destination : string;
  nr_RuntimeGenerationID : string;
  nr_Now : time;
  nr_TTL : Z;
}.

Record ConnectionGrant := mkGrant {
  cg_PrivatePrefixes : list string;
  cg_ConnectionID : string;
  cg_ConnectionRevision : Z;
  cg_HTTPMethods : list string;
  cg_GrantID : string;
  cg_PluginInstanceID : string;
  cg_ActiveFingerprint : string;
  cg_ResourceScope : ResourceScope;
  cg_PolicyRevision : Z;
  cg_ManagementRevision : Z;
  cg_RevokeEpoch : Z;
  cg_ConnectorID : string;
  cg_Transport : Transport;
  cg_Destination : Destination;
  cg_RuntimeGenerationID : string;
  cg_TargetClassifierVersion : string;
  cg_ExpiresAt : time;
}.

Definition TargetClassifierVersion : string := "target-classifier-v2".

Definition ValidTransport (transport : Transport) : bool :=
  bool_decide (transport = TransportHTTP) || bool_decide (transport = TransportWebSocket) ||
  bool_decide (transport = TransportTCP) || bool_decide (transport = TransportUDP).

Definition validStoredRevisionValues (policyRevision managementRevision revokeEpoch : Z) : bool :=
  IsSafeUnsignedInteger policyRevision && IsSafeUnsignedInteger managementRevision && IsSafeUnsignedInteger revokeEpoch.

Definition validActiveRevisionBinding (policyRevision managementRevision revokeEpoch : Z) : bool :=
  validStoredRevisionValues policyRevision managementRevision revokeEpoch && (0 <? revokeEpoch).

(** ** Blocked and private ranges *)

Definition defaultBlockedIPRanges : list string :=
  ["0.0.0.0/8"; "10.0.0.0/8"; "100.64.0.0/10"; "127.0.0.0/8"; "169.254.0.0/16"; "172.16.0.0/12"; "192.0.0.0/24";
   "192.0.2.0/24"; "192.31.196.0/24"; "192.52.193.0/24"; "192.88.99.0/24"; "192.168.0.0/16"; "192.175.48.0/24";
   "198.18.0.0/15"; "198.51.100.0/24"; "203.0.113.0/24"; "224.0.0.0/4"; "240.0.0.0/4"; "::/96"; "::1/128";
   "64:ff9b::/96"; "64:ff9b:1::/48"; "100::/64"; "2001::/23"; "2001:db8::/32"; "2002::/16"; "3fff::/20"; "5f00::/16";
   "2620:4f:8000::/48"; "fc00::/7"; "fe80::/10"; "fec0::/10"; "ff00::/8"].

Definition defaultSpecialHosts : list string :=
  ["localhost"; "metadata.google.internal"; "metadata.goog"; "instance-data"; "instance-data.ec2.internal";
   "metadata.azure.internal"; "169.254.169.254"].

(** [DefaultClassifier]: the ranges parsed; a range that does not parse would panic. *)
Definition blockedRanges : list Prefix := omap ParsePrefix defaultBlockedIPRanges.

Definition privateNetworks : list Prefix :=
  omap ParsePrefix ["10.0.0.0/8"; "172.16.0.0/12"; "192.168.0.0/16"; "127.0.0.0/8"; "fc00::/7"; "::1/128"].

(** One value of [ValidatePrivatePrefixes]. *)
Definition privatePrefix (value : string) : bool :=
  match ParsePrefix value with
  | Some prefix =>
     bool_decide (prefix = Masked prefix) && bool_decide (prefix_String prefix = value) &&
     existsb (λ parent, (BitLen (pf_addr prefix) =? BitLen (pf_addr parent)) && (pf_bits parent <=? pf_bits prefix) &&
                        Contains parent (pf_addr prefix)) privateNetworks
  | None => false
  end.

Fixpoint private_loop (seen : list string) (values : list string) : bool :=
  match values with
  | [] => true
  | value :: values => privatePrefix value && negb (bool_decide (value ∈ seen)) && private_loop (value :: seen) values
  end.

Definition ValidatePrivatePrefixes (values : list string) : Result NetError unit :=
  guard! negb ((length values =? 0)%nat || (16 <? length values)%nat) else ErrTargetDenied in
  guard! private_loop [] values else ErrTargetDenied in
  Ok tt.

Definition privateAddressAllowed (prefixes : list string) (address : Addr) : bool :=
  let address := Unmap address in
  if negb (IsValid address) || negb (bool_decide (Zone address = "")) then false
  else existsb (λ raw, match ParsePrefix raw with Some prefix => Contains prefix address | None => false end) prefixes.

Definition EvaluateResolvedAddress (addr : Addr) : Result NetError unit :=
  guard! IsValid addr else ErrInvalidConnector in
  let addr := Unmap addr in
  guard! negb (existsb (λ prefix, Contains prefix addr) blockedRanges) else ErrTargetDenied in
  Ok tt.

(** ** Guarded resolution *)

(** The approval a context carries: the endpoint and its prefixes. *)
Definition approvedPrivateContext : Type := string * list string.

Definition grantEndpoint (grant : ConnectionGrant) : string :=
  JoinHostPort (de_Host (cg_Destination grant)) (pretty (de_Port (cg_Destination grant))).

Definition grantNetworkContext (grant : ConnectionGrant) : option approvedPrivateContext :=
  if (length (cg_PrivatePrefixes grant) =? 0)%nat then None
  else Some (grantEndpoint grant, cg_PrivatePrefixes grant).

Definition evaluateResolvedTarget (approved : option approvedPrivateContext) (destination : Destination) (address : Addr) :
    Result NetError unit :=
  match approved with
  | None => EvaluateResolvedAddress address
  | Some (endpoint, prefixes) =>
     if negb (bool_decide (JoinHostPort (de_Host destination) (pretty (de_Port destination)) = endpoint)) ||
        negb (is_ok (ValidatePrivatePrefixes prefixes)) || negb (privateAddressAllowed prefixes address)
     then Err ErrTargetDenied else Ok tt
  end.

Fixpoint resolve_loop (approved : option approvedPrivateContext) (destination : Destination) (seen : list Addr) (addresses : list bytes) :
    Result NetError (list Addr) :=
  match addresses with
  | [] => Ok []
  | ip :: addresses =>
     match AddrFromSlice ip with
     | None => Err ErrInvalidConnector
     | Some addr =>
        let addr := Unmap addr in
        let? _ := evaluateResolvedTarget approved destination addr in
        if bool_decide (addr ∈ seen) then resolve_loop approved destination seen addresses
        else let? rest := resolve_loop approved destination (addr :: seen) addresses in Ok (addr :: rest)
     end
  end.

Section connectivity.
Context (unicode_lower : Z → Z).

(** [guardedResolveAddresses]: [lookup] answers with the bytes of the addresses. *)
Definition guardedResolveAddresses (lookup : string → Result nat (list bytes)) (approved : option approvedPrivateContext)
    (network address : string) : Result NetError (list Addr) :=
  match SplitHostPort address with
  | None => Err NetAddress
  | Some (host, portText) =>
     match Atoi portText with
     | None => Err ErrInvalidConnector
     | Some port =>
        let transport :=
          if bool_decide (is_Some (strip_prefix (text "udp") (text (ToLower unicode_lower network)))) then TransportUDP else TransportTCP in
        let literal := of_text (trim_set bracket (text host)) in
        let destination := mkDestination transport "" literal port in
        let? addresses :=
          match ParseAddr literal with
          | Some addr => Ok [AsSlice addr]
          | None => match lookup host with Ok l => Ok l | Err e => Err (NetLookup e) end
          end in
        guard! negb (length addresses =? 0)%nat else ErrTargetDenied in
        resolve_loop approved destination [] addresses
     end
  end.

(** ** Destinations *)

(** What [url.Parse] says of a destination. *)
Record URL := mkURL {
  u_Scheme : string;
  u_User : bool;
  u_Path : string;
  u_RawQuery : string;
  u_Fragment : string;
  u_Host : string;
  u_Hostname : string;
  u_Port : string;
}.

Context (url_Parse : string → option URL).

(** The URL is an origin. *)
Definition origin_only (u : URL) : bool :=
  negb (u_User u || (negb (bool_decide (u_Path u = "")) && negb (bool_decide (u_Path u = "/"))) ||
        negb (bool_decide (u_RawQuery u = "")) || negb (bool_decide (u_Fragment u = ""))).

Definition label_byte (r : Z) : bool :=
  ((97 <=? r) && (r <=? 122)) || ((48 <=? r) && (r <=? 57)) || (r =? 45).

Definition host_label (label : bytes) : bool :=
  negb ((length label =? 0)%nat || (63 <? length label)%nat) && forallb label_byte (runes label) &&
  negb (match label with c :: _ => is_byte 45 c | [] => false end || match reverse label with c :: _ => is_byte 45 c | [] => false end).

(** [strings.TrimSuffix(raw, ".")] *)
Definition trim_dot (s : bytes) : bytes :=
  match reverse s with c :: rest => if is_byte 46 c then reverse rest else s | [] => s end.

Definition normalizeHost (raw : string) : Result NetError string :=
  let host := TrimSpace (of_text (trim_dot (text raw))) in
  guard! negb (bool_decide (host = "")) else ErrInvalidConnector in
  guard! negb (existsb (λ c, is_byte 47 c || is_byte 63 c || is_byte 35 c || is_byte 64 c) (text host)) else ErrInvalidConnector in
  match ParseAddr (of_text (trim_set bracket (text host))) with
  | Some addr => Ok (addr_String addr)
  | None =>
     let ascii := ToLower unicode_lower host in
     guard! negb (253 <? len ascii) else ErrInvalidConnector in
     guard! forallb host_label (split_at 46 (text ascii)) else ErrInvalidConnector in
     Ok ascii
  end.

Definition normalizePort (raw : string) (defaultPort : Z) : Result NetError Z :=
  if bool_decide (raw = "") then
    guard! negb (defaultPort <=? 0) else ErrInvalidConnector in Ok defaultPort
  else
    match Atoi raw with
    | None => Err ErrInvalidConnector
    | Some port => guard! negb ((port <=? 0) || (65535 <? port)) else ErrInvalidConnector in Ok port
    end.

Definition defaultPortForScheme (scheme : string) : Z :=
  if bool_decide (scheme = "http") || bool_decide (scheme = "ws") then 80
  else if bool_decide (scheme = "https") || bool_decide (scheme = "wss") then 443 else 0.

Definition parseURLDestination (transport : Transport) (raw defaultScheme : string) (allowedSchemes : list string) :
    Result NetError Destination :=
  let value := if contains (text "://") (text raw) then raw else defaultScheme +:+ "://" +:+ raw in
  match url_Parse value with
  | None => Err ErrInvalidConnector
  | Some parsed =>
     let scheme := ToLower unicode_lower (u_Scheme parsed) in
     guard! bool_decide (scheme ∈ allowedSchemes) else ErrInvalidConnector in
     guard! origin_only parsed else ErrInvalidConnector in
     let? host := normalizeHost (u_Hostname parsed) in
     let? port := normalizePort (u_Port parsed) (defaultPortForScheme scheme) in
     Ok (mkDestination transport scheme host port)
  end.

(** [strings.EqualFold] with one of the schemes [tcp] and [udp], whose letters
    have no other forms beyond ASCII. *)
Definition equalFold (s t : string) : bool := bool_decide (ToLower id s = ToLower id t).

Definition parseEndpointDestination (transport : Transport) (raw : string) : Result NetError Destination :=
  let? value :=
    (if contains (text "://") (text raw) then
       match url_Parse raw with
       | None => Err ErrInvalidConnector
       | Some parsed =>
          guard! equalFold (u_Scheme parsed) transport else ErrInvalidConnector in
          guard! origin_only parsed else ErrInvalidConnector in
          Ok (u_Host parsed)
       end
     else Ok raw) in
  match SplitHostPort value with
  | None => Err ErrInvalidConnector
  | Some (hostPart, portPart) =>
     let? host := normalizeHost hostPart in
     let? port := normalizePort portPart 0 in
     Ok (mkDestination transport "" host port)
  end.

Definition ParseDestination (transport : Transport) (raw : string) : Result NetError Destination :=
  let raw := TrimSpace raw in
  guard! negb (bool_decide (raw = "")) else ErrInvalidConnector in
  if bool_decide (transport = TransportHTTP) then parseURLDestination transport raw "https" ["http"; "https"]
  else if bool_decide (transport = TransportWebSocket) then parseURLDestination transport raw "wss" ["ws"; "wss"]
  else if bool_decide (transport = TransportTCP) || bool_decide (transport = TransportUDP) then parseEndpointDestination transport raw
  else Err ErrInvalidConnector.

(** [Classifier.Evaluate] of the default classifier. *)
Definition Evaluate (destination : Destination) : Result NetError unit :=
  let host := ToLower unicode_lower (de_Host destination) in
  guard! negb (bool_decide (host ∈ defaultSpecialHosts)) else ErrTargetDenied in
  match ParseAddr (of_text (trim_set bracket (text host))) with
  | Some addr => EvaluateResolvedAddress addr
  | None => Ok tt
  end.

Definition ValidateApprovedDestination (destination : Destination) (prefixes : list string) : Result NetError unit :=
  if (length prefixes =? 0)%nat then Evaluate destination
  else
    let? _ := ValidatePrivatePrefixes prefixes in
    guard! match ParseAddr (de_Host destination) with Some literal => privateAddressAllowed prefixes literal | None => true end
      else ErrTargetDenied in
    guard! negb (bool_decide (ToLower unicode_lower (de_Host destination) ∈ defaultSpecialHosts) &&
                 negb (bool_decide (de_Host destination = "localhost"))) else ErrTargetDenied in
    Ok tt.

(** ** Compiling a policy *)

Fixpoint compile_destinations (transport : Transport) (seen : list string) (raws : list string) : Result NetError (list Destination) :=
  match raws with
  | [] => Ok []
  | raw :: raws =>
     let? destination := ParseDestination transport raw in
     let? _ := Evaluate destination in
     if bool_decide (Canonical destination ∈ seen) then compile_destinations transport seen raws
     else
       let? rest := compile_destinations transport (Canonical destination :: seen) raws in Ok (destination :: rest)
  end.

Definition compileConnector (connector : NetworkConnectorSpec) : Result NetError ConnectorPolicy :=
  let connectorID := TrimSpace (cs_ConnectorID connector) in
  guard! negb (bool_decide (connectorID = "")) else ErrInvalidConnector in
  let transport := TrimSpace (cs_Transport connector) in
  guard! ValidTransport transport else ErrInvalidConnector in
  let scope := TrimSpace (cs_Scope connector) in
  guard! bool_decide (scope = ScopeUser) || bool_decide (scope = ScopeEnvironment) else ErrInvalidConnector in
  guard! negb (cs_Configurable connector && negb (length (cs_Destinations connector) =? 0)%nat) else ErrInvalidConnector in
  guard! negb (negb (cs_Configurable connector) && (length (cs_Destinations connector) =? 0)%nat) else ErrInvalidConnector in
  let? destinations := compile_destinations transport [] (cs_Destinations connector) in
  Ok (mkConnector (cs_Configurable connector) connectorID transport scope
        (merge_sort (λ a b, String.le (Canonical a) (Canonical b)) destinations)
        (match cs_AuthSecretRef connector with Some ref => TrimSpace ref | None => "" end)).

Fixpoint compile_connectors (seen : list string) (connectors : list NetworkConnectorSpec) : Result NetError (list ConnectorPolicy) :=
  match connectors with
  | [] => Ok []
  | connector :: connectors =>
     let? compiled := compileConnector connector in
     guard! negb (bool_decide (cp_ConnectorID compiled ∈ seen)) else ErrInvalidConnector in
     let? rest := compile_connectors (cp_ConnectorID compiled :: seen) connectors in Ok (compiled :: rest)
  end.

Definition CompilePolicy (req : CompileRequest) : Result NetError PolicySet :=
  guard! validStoredRevisionValues (cr_PolicyRevision req) (cr_ManagementRevision req) (cr_RevokeEpoch req) else ErrInvalidConnector in
  let? connectors := compile_connectors [] (cr_Connectors req) in
  Ok (mkPolicySet (TrimSpace (cr_PluginInstanceID req)) (TrimSpace (cr_PluginID req)) (TrimSpace (cr_ActiveFingerprint req))
        (cr_PolicyRevision req) (cr_ManagementRevision req) (cr_RevokeEpoch req) TargetClassifierVersion
        (merge_sort (λ a b, String.le (cp_ConnectorID a) (cp_ConnectorID b)) connectors)).

(** ** Grants *)

Definition connector (p : PolicySet) (connectorID : string) : option ConnectorPolicy :=
  List.find (λ c, bool_decide (cp_ConnectorID c = connectorID)) (np_Connectors p).

Definition allows (c : ConnectorPolicy) (destination : Destination) : bool :=
  existsb (λ allowed, bool_decide (allowed = destination)) (cp_Destinations c).

(** Whether the connector may be used for the destination, by its list or by
    the approved binding of a configurable connector. *)
Definition authorizeDestination (connector : ConnectorPolicy) (req : GrantRequest) (now : time) (destination : Destination) :
    Result NetError unit :=
  if cp_Configurable connector then
    match nr_Binding req with
    | None => Err ErrConnectorDenied
    | Some binding =>
       guard! negb (bool_decide (ab_ConnectionID binding = "") || (ab_Revision binding =? 0) || negb (After (ab_ExpiresAt binding) now))
         else ErrConnectorDenied in
       match ParseDestination (nr_Transport req) (ab_Destination binding) with
       | Err _ => Err ErrConnectorDenied
       | Ok approved =>
          guard! bool_decide (approved = destination) else ErrConnectorDenied in
          guard! negb (bool_decide (nr_Transport req = TransportHTTP) && negb (bool_decide (nr_HTTPMethod req ∈ ab_HTTPMethods binding)))
            else ErrConnectorDenied in
          Ok tt
       end
    end
  else match nr_Binding req with
  | Some _ => Err ErrConnectorDenied
  | None => guard! allows connector destination else ErrTargetDenied in Ok tt
  end.

(** [randomGrantID]: [rand] is what [rand.Read] gives, if it does not fail. *)
Definition randomGrantID (rand : option string) : Result NetError string :=
  match rand with Some raw => Ok ("netgrant_" +:+ hex_encode raw) | None => Err NetRandom end.

Definition mintConnectionGrant (rand : option string) (wall : time) (session : Context) (policy : PolicySet) (req : GrantRequest) :
    Result NetError ConnectionGrant :=
  let now := or_wall wall (nr_Now req) in
  let ttl := if nr_TTL req <=? 0 then DefaultGrantTTL else nr_TTL req in
  let ttl := if MaxGrantTTL <? ttl then MaxGrantTTL else ttl in
  guard! negb (bool_decide (np_PluginInstanceID policy = "") || negb (bool_decide (np_PluginInstanceID policy = nr_PluginInstanceID req)))
    else ErrConnectorDenied in
  guard! negb (bool_decide (np_ActiveFingerprint policy = "") || negb (bool_decide (np_ActiveFingerprint policy = nr_ActiveFingerprint req)))
    else ErrConnectorDenied in
  guard! validActiveRevisionBinding (np_PolicyRevision policy) (np_ManagementRevision policy) (np_RevokeEpoch policy) &&
         validActiveRevisionBinding (nr_PolicyRevision req) (nr_ManagementRevision req) (nr_RevokeEpoch req) else ErrConnectorDenied in
  guard! (np_PolicyRevision policy =? nr_PolicyRevision req) && (np_ManagementRevision policy =? nr_ManagementRevision req) &&
         (np_RevokeEpoch policy =? nr_RevokeEpoch req) else ErrConnectorDenied in
  match connector policy (nr_ConnectorID req) with
  | None => Err ErrConnectorDenied
  | Some connector =>
     guard! bool_decide (cp_Transport connector = nr_Transport req) else ErrConnectorDenied in
     match Context_ResourceScope session (cp_Scope connector) with
     | Err _ => Err ErrResourceScopeMismatch
     | Ok expectedScope =>
        guard! ResourceScope_Matches (nr_ResourceScope req) expectedScope else ErrResourceScopeMismatch in
        let? destination := ParseDestination (nr_Transport req) (nr_Destination req) in
        let prefixes := match nr_Binding req with Some binding => ab_PrivatePrefixes binding | None => [] end in
        let? _ := ValidateApprovedDestination destination prefixes in
        let? _ := authorizeDestination connector req now destination in
        let? grantID := randomGrantID rand in
        let expires := now + ttl in
        Ok (mkGrant prefixes
              (match nr_Binding req with Some binding => ab_ConnectionID binding | None => "" end)
              (match nr_Binding req with Some binding => ab_Revision binding | None => 0 end)
              (match nr_Binding req with Some binding => ab_HTTPMethods binding | None => [] end)
              grantID (np_PluginInstanceID policy) (np_ActiveFingerprint policy) expectedScope
              (np_PolicyRevision policy) (np_ManagementRevision policy) (np_RevokeEpoch policy)
              (cp_ConnectorID connector) (cp_Transport connector) destination (nr_RuntimeGenerationID req)
              (np_TargetClassifierVersion policy)
              (match nr_Binding req with
               | Some binding => if Before (ab_ExpiresAt binding) expires then ab_ExpiresAt binding else expires
               | None => expires
               end))
     end
  end.

Definition validateGrantForTransport (grant : ConnectionGrant) (transport : Transport) (now : time) (nowFunc : time) : Result NetError unit :=
  guard! Bool.eqb (bool_decide (cg_ConnectionID grant = "")) (cg_ConnectionRevision grant =? 0) else ErrConnectorDenied in
  guard! negb (bool_decide (TrimSpace (cg_GrantID grant) = "") || bool_decide (TrimSpace (cg_PluginInstanceID grant) = "") ||
               bool_decide (TrimSpace (cg_ActiveFingerprint grant) = "") || bool_decide (TrimSpace (cg_ConnectorID grant) = ""))
    else ErrConnectorDenied in
  guard! ResourceScope_Valid (cg_ResourceScope grant) else ErrResourceScopeMismatch in
  guard! validActiveRevisionBinding (cg_PolicyRevision grant) (cg_ManagementRevision grant) (cg_RevokeEpoch grant) else ErrConnectorDenied in
  guard! bool_decide (TrimSpace (cg_TargetClassifierVersion grant) = TargetClassifierVersion) else ErrConnectorDenied in
  guard! bool_decide (cg_Transport grant = transport) && bool_decide (de_Transport (cg_Destination grant) = transport) else ErrConnectorDenied in
  guard! negb (bool_decide (de_Host (cg_Destination grant) = "") || (de_Port (cg_Destination grant) <=? 0)) else ErrConnectorDenied in
  let now := if IsZero now then nowFunc else now in
  guard! negb (IsZero (cg_ExpiresAt grant) || negb (After (cg_ExpiresAt grant) now)) else ErrGrantExpired in
  guard! negb ((0 <? length (cg_PrivatePrefixes grant))%nat &&
               (bool_decide (cg_ConnectionID grant = "") || (cg_ConnectionRevision grant =? 0))) else ErrConnectorDenied in
  ValidateApprovedDestination (cg_Destination grant) (cg_PrivatePrefixes grant).

(** ** The memory broker *)

(** Policies by environment and plugin. *)
Definition MemoryBroker := gmap (string * string) PolicySet.
Definition NewMemoryBroker : MemoryBroker := ∅.

Definition authenticatedPolicyOwner (ctx : GoCtx) (pluginInstanceID : string) : Result NetError (Context * (string * string)) :=
  let pluginInstanceID := TrimSpace pluginInstanceID in
  guard! negb (bool_decide (pluginInstanceID = "")) else ErrInvalidConnector in
  match Require_ ctx with
  | Err e => Err (NetSession e)
  | Ok session => Ok (session, (sc_OwnerEnvHash session, pluginInstanceID))
  end.

Definition InstallPolicy (ctx : GoCtx) (policy : PolicySet) (b : MemoryBroker) : MemoryBroker * Result NetError unit :=
  match authenticatedPolicyOwner ctx (np_PluginInstanceID policy) with
  | Err e => (b, Err e)
  | Ok (_, key) =>
     if negb (validActiveRevisionBinding (np_PolicyRevision policy) (np_ManagementRevision policy) (np_RevokeEpoch policy))
     then (b, Err ErrInvalidConnector) else (<[key := policy]> b, Ok tt)
  end.

Definition RemovePolicy (ctx : GoCtx) (pluginInstanceID : string) (b : MemoryBroker) : MemoryBroker * Result NetError unit :=
  match authenticatedPolicyOwner ctx pluginInstanceID with
  | Err e => (b, Err e)
  | Ok (_, key) => (delete key b, Ok tt)
  end.

Definition MintConnectionGrant (rand : option string) (wall : time) (ctx : GoCtx) (req : GrantRequest) (b : MemoryBroker) :
    Result NetError ConnectionGrant :=
  let? owner := authenticatedPolicyOwner ctx (nr_PluginInstanceID req) in
  match b !! owner.2 with
  | None => Err ErrConnectorDenied
  | Some policy => mintConnectionGrant rand wall owner.1 policy req
  end.
End connectivity.
