(* ===== verification/ConnectivityProps.v ===== *)
(** * Which addresses a connection can reach

    Membership in prefixes, the ranges no approval opens, and the guard on
    resolved addresses. *)

From stdpp Require Import pretty.
From S2P Require Import Prelude GoLib SessionCtx Encoding Json JsonText Ipc NetIP Connectivity.

Open Scope go_scope.
Open Scope Z_scope.

#[local] Arguments Unmap : simpl never.
#[local] Arguments Contains : simpl never.
#[local] Arguments blockedRanges : simpl never.
#[local] Arguments privateNetworks : simpl never.
#[local] Arguments ParsePrefix : simpl never.
#[local] Arguments ParseAddr : simpl never.

(** ** Membership *)

Lemma Contains_spec p a :
  Contains p a = true ↔
  Zone a = "" ∧ IsValid a = true ∧ IsValid (pf_addr p) = true ∧ BitLen (pf_addr p) = BitLen a ∧
  Z.shiftr (addr_value a) (BitLen a - pf_bits p) = Z.shiftr (addr_value (pf_addr p)) (BitLen a - pf_bits p).
Proof.
  unfold Contains. rewrite !andb_true_iff, bool_decide_eq_true, !Z.eqb_eq, Z.shiftr_lxor, Z.lxor_eq_0_iff. tauto.
Qed.

(** A prefix that lies in another one. *)
Definition within_prefix (parent p : Prefix) : Prop :=
  BitLen (pf_addr p) = BitLen (pf_addr parent) ∧ pf_bits parent ≤ pf_bits p ≤ BitLen (pf_addr p) ∧ Contains parent (pf_addr p) = true.

Lemma shiftr_more x n k : 0 ≤ n → 0 ≤ k → Z.shiftr x (n + k) = Z.shiftr (Z.shiftr x n) k.
Proof. intros Hn Hk. by rewrite Z.shiftr_shiftr. Qed.

Lemma Contains_within parent p a : within_prefix parent p → Contains p a = true → Contains parent a = true.
Proof.
  intros (Hlen & Hbits & Hp) Ha. rewrite Contains_spec in Hp, Ha |- *.
  destruct Hp as (_ & _ & Hv & _ & Hs), Ha as (Hz & Hva & _ & Hb & Hs'). split_and!; [done..|congruence|].
  rewrite <- Hb in *. rewrite <- Hs.
  replace (BitLen (pf_addr p) - pf_bits parent) with (BitLen (pf_addr p) - pf_bits p + (pf_bits p - pf_bits parent)) by lia.
  rewrite !shiftr_more by lia. by rewrite Hs'.
Qed.

(** Two prefixes without a common address. *)
Definition disjoint_prefixes (p q : Prefix) : bool :=
  negb (BitLen (pf_addr p) =? BitLen (pf_addr q)) ||
  ((pf_bits p <=? BitLen (pf_addr p)) && (pf_bits q <=? BitLen (pf_addr p)) &&
   negb (Z.shiftr (addr_value (pf_addr p)) (BitLen (pf_addr p) - Z.min (pf_bits p) (pf_bits q)) =?
         Z.shiftr (addr_value (pf_addr q)) (BitLen (pf_addr p) - Z.min (pf_bits p) (pf_bits q)))).

Lemma disjoint_contains p q a : disjoint_prefixes p q = true → Contains p a = true → Contains q a = false.
Proof.
  intros Hd Hp. apply not_true_iff_false. intros Hq. rewrite Contains_spec in Hp, Hq.
  destruct Hp as (_ & _ & _ & Hb & Hs), Hq as (_ & _ & _ & Hb' & Hs').
  unfold disjoint_prefixes in Hd. rewrite Hb, Hb', Z.eqb_refl in Hd. simpl in Hd.
  rewrite !andb_true_iff, negb_true_iff, Z.eqb_neq, !Z.leb_le in Hd. destruct Hd as [[Hpb Hqb] Hne]. apply Hne. clear Hne.
  set (n := BitLen a) in *. set (k := Z.min (pf_bits p) (pf_bits q)) in *.
  assert (∀ bits, k ≤ bits → bits ≤ n → ∀ x, Z.shiftr x (n - k) = Z.shiftr (Z.shiftr x (n - bits)) (bits - k)) as Hk.
  { intros bits ? ? x. rewrite <- shiftr_more by lia. f_equal. lia. }
  rewrite (Hk (pf_bits p)), <- Hs, <- Hk by lia. by rewrite (Hk (pf_bits q)), Hs', <- Hk by lia.
Qed.

(** ** The private networks *)

(** Every range of the default classifier parses, and so do the private
    networks: the constructor does not panic. *)
Lemma ranges_parse : length blockedRanges = length defaultBlockedIPRanges ∧ length privateNetworks = 6%nat.
Proof. by vm_compute. Qed.

(** The blocked ranges that share no address with a private network: no
    approval opens them. *)
Definition forbiddenRanges : list Prefix :=
  filter (λ r, forallb (disjoint_prefixes r) privateNetworks = true) blockedRanges.

Lemma forbidden_private r p a :
  r ∈ forbiddenRanges → p ∈ privateNetworks → Contains p a = true → Contains r a = false.
Proof.
  unfold forbiddenRanges. rewrite list_elem_of_filter. intros [Hd _] Hp Ha. apply not_true_iff_false. intros Hr.
  rewrite forallb_forall in Hd. apply list_elem_of_In, Hd in Hp. by rewrite (disjoint_contains _ _ _ Hp Hr) in Ha.
Qed.

Lemma forbidden_blocked r : r ∈ forbiddenRanges → r ∈ blockedRanges.
Proof. unfold forbiddenRanges. generalize blockedRanges privateNetworks. intros l k. by intros [_ ?]%list_elem_of_filter. Qed.

Lemma digits_value_nonneg s n : digits_value s = Some n → 0 ≤ n.
Proof.
  unfold digits_value. destruct s as [|c s]; [done|]. destruct (forallb digit (c :: s)) eqn:Hd; [|done]. intros [= <-].
  assert (∀ l acc, 0 ≤ acc → forallb digit l = true → 0 ≤ foldl (λ acc c, acc * 10 + (zcode c - 48)) acc l) as H.
  { clear. induction l as [|c l IH]; intros acc Ha Hl; [done|]. cbn in Hl |- *. apply andb_true_iff in Hl as [Hc Hl].
    apply IH; [|done]. unfold digit, byte_in in Hc. go_bools. unfold zcode, code in *. lia. }
  apply (H (c :: s)); [lia|done].
Qed.

Lemma ParsePrefix_bits s p : ParsePrefix s = Some p → 0 ≤ pf_bits p ≤ BitLen (pf_addr p).
Proof.
  unfold ParsePrefix. destruct (cut_last 47 (text s)) as [[addr bits]|]; [|done]. destruct (ParseAddr (of_text addr)) as [ip|]; [|done].
  destruct (negb _); [done|]. destruct (_ && _); [done|]. destruct (digits_value bits) as [n|] eqn:Hn; [|done].
  destruct (Z.leb_spec n (BitLen ip)); [|done]. intros [= <-]. apply digits_value_nonneg in Hn. simpl. lia.
Qed.

(** An approved prefix lies in a private network. *)
Lemma privatePrefix_spec value p :
  privatePrefix value = true → ParsePrefix value = Some p → ∃ parent, parent ∈ privateNetworks ∧ within_prefix parent p.
Proof.
  unfold privatePrefix. intros H Hp. rewrite Hp in H. rewrite !andb_true_iff, existsb_exists in H.
  destruct H as [_ (parent & Hin%list_elem_of_In & Hw)]. rewrite !andb_true_iff, Z.eqb_eq, Z.leb_le in Hw.
  exists parent. split; [done|]. pose proof (ParsePrefix_bits _ _ Hp). unfold within_prefix. intuition lia.
Qed.

Lemma private_loop_spec values seen value : private_loop seen values = true → value ∈ values → privatePrefix value = true.
Proof.
  revert seen. induction values as [|x values IH]; intros seen; simpl; [by intros _ ?%not_elem_of_nil|].
  rewrite !andb_true_iff. intros [[Hx _] Hl] [->|Hin]%elem_of_cons; [done|]. by eapply IH.
Qed.

(** ** Resolved addresses *)

Lemma Unmap_idemp a : Unmap (Unmap a) = Unmap a.
Proof.
  destruct a as [|v|v zone]; [done|done|]. unfold Unmap. destruct (Z.shiftr v 32 =? 65535) eqn:H; [done|]. by rewrite H.
Qed.

Lemma AddrFromSlice_zone s a : AddrFromSlice s = Some a → Zone a = "" ∧ IsValid a = true.
Proof. unfold AddrFromSlice. repeat case_match; intros [= <-]; done. Qed.

Lemma Unmap_zone a : Zone a = "" → Zone (Unmap a) = "".
Proof. destruct a as [|v|v zone]; [done|done|]. unfold Unmap. by case_match. Qed.

Lemma Unmap_valid a : IsValid (Unmap a) = IsValid a.
Proof. destruct a as [|v|v zone]; [done|done|]. unfold Unmap. by case_match. Qed.

(** What the guard says of an address it lets through. *)
Definition reachable_address (approved : option approvedPrivateContext) (destination : Destination) (a : Addr) : Prop :=
  Unmap a = a ∧ Zone a = "" ∧ (∀ r, r ∈ forbiddenRanges → Contains r a = false) ∧
  match approved with
  | None => ∀ r, r ∈ blockedRanges → Contains r a = false
  | Some (endpoint, prefixes) =>
     endpoint = JoinHostPort (de_Host destination) (pretty (de_Port destination)) ∧
     ∃ raw p parent, raw ∈ prefixes ∧ ParsePrefix raw = Some p ∧ Contains p a = true ∧
       parent ∈ privateNetworks ∧ Contains parent a = true
  end.

Lemma existsb_none {A} (f : A → bool) l x : existsb f l = false → x ∈ l → f x = false.
Proof.
  intros Hf Hx%list_elem_of_In. apply not_true_iff_false. intros Hc. apply not_true_iff_false in Hf. apply Hf, existsb_exists. eauto.
Qed.

Lemma EvaluateResolvedAddress_spec a r : EvaluateResolvedAddress a = Ok tt → r ∈ blockedRanges → Contains r (Unmap a) = false.
Proof.
  unfold EvaluateResolvedAddress. generalize blockedRanges. intros ranges. destruct (IsValid a); [|done].
  destruct (existsb _ ranges) eqn:Hb; [done|]. intros _ Hr. by apply (existsb_none _ _ r) in Hb.
Qed.

Lemma privateAddressAllowed_spec prefixes a :
  ValidatePrivatePrefixes prefixes = Ok tt → privateAddressAllowed prefixes a = true →
  ∃ raw p parent, raw ∈ prefixes ∧ ParsePrefix raw = Some p ∧ Contains p (Unmap a) = true ∧
    parent ∈ privateNetworks ∧ Contains parent (Unmap a) = true.
Proof.
  unfold privateAddressAllowed, ValidatePrivatePrefixes. intros Hp Ha. destruct (_ || _) in Ha; [done|].
  apply existsb_exists in Ha as (raw & Hin%list_elem_of_In & Hraw). destruct (ParsePrefix raw) as [p|] eqn:Hpp; [|done].
  destruct (negb _) in Hp; [|done]. destruct (private_loop [] prefixes) eqn:Hl; [|done].
  destruct (privatePrefix_spec raw p (private_loop_spec _ _ _ Hl Hin) Hpp) as (parent & Hparent & Hw).
  exists raw, p, parent. split_and!; [done..|]. by eapply Contains_within.
Qed.

Lemma evaluateResolvedTarget_spec approved destination ip a :
  AddrFromSlice ip = Some a → evaluateResolvedTarget approved destination (Unmap a) = Ok tt →
  reachable_address approved destination (Unmap a).
Proof.
  intros [Hz Hv]%AddrFromSlice_zone. unfold reachable_address, evaluateResolvedTarget.
  destruct approved as [[endpoint prefixes]|].
  - case_bool_decide as He; [|done]. destruct (ValidatePrivatePrefixes prefixes) as [[]|] eqn:Hp; [|done].
    destruct (privateAddressAllowed prefixes (Unmap a)) eqn:Ha; [|done]. intros _.
    destruct (privateAddressAllowed_spec _ _ Hp Ha) as (raw & p & parent & H). rewrite Unmap_idemp in H.
    split; [apply Unmap_idemp|]. split; [by apply Unmap_zone|]. split; [|by split; [|exists raw, p, parent]].
    intros r Hr. destruct H as (_ & _ & _ & Hp1 & Hp2). by eapply forbidden_private.
  - intros He. assert (∀ r, r ∈ blockedRanges → Contains r (Unmap a) = false) as Hall.
    { intros r Hr. pose proof (EvaluateResolvedAddress_spec _ _ He Hr) as H. by rewrite Unmap_idemp in H. }
    split; [apply Unmap_idemp|]. split; [by apply Unmap_zone|]. split; [|exact Hall].
    intros r Hr. by apply Hall, forbidden_blocked.
Qed.

Lemma resolve_loop_spec approved destination seen addresses addrs :
  resolve_loop approved destination seen addresses = Ok addrs →
  NoDup addrs ∧ (∀ a, a ∈ addrs → a ∉ seen ∧ reachable_address approved destination a) ∧
  (seen = [] → addresses ≠ [] → addrs ≠ []).
Proof.
  revert seen addrs. induction addresses as [|ip addresses IH]; intros seen addrs; simpl.
  { intros [= <-]. split_and!; [constructor|by intros a ?%not_elem_of_nil|done]. }
  destruct (AddrFromSlice ip) as [a|] eqn:Ha; [|done].
  destruct (evaluateResolvedTarget approved destination (Unmap a)) as [[]|] eqn:He; [|done]. simpl.
  pose proof (evaluateResolvedTarget_spec _ _ _ _ Ha He) as Hr. case_bool_decide as Hs.
  - intros (Hnd & Hall & _)%IH. split_and!; [done..|]. intros ->. by apply not_elem_of_nil in Hs.
  - destruct (resolve_loop approved destination (Unmap a :: seen) addresses) as [rest|] eqn:Hl; [|done]. intros [= <-].
    apply IH in Hl as (Hnd & Hall & _). split_and!; [| |done].
    + constructor; [|done]. intros Hin. apply Hall in Hin as [Hin _]. apply Hin. by left.
    + intros x [->|Hx]%elem_of_cons; [done|]. apply Hall in Hx as [Hx ?]. split; [|done]. intros ?. apply Hx. by right.
Qed.

Section guard.
Context (unicode_lower : Z → Z).

(** C25: The guard on resolved addresses. Whatever the resolver answers, a
    connection is only ever offered addresses without a zone, IPv4 addresses
    never in their mapped form, none twice, and none in a range that no
    approval opens (metadata and link-local, unspecified, multicast, shared
    and documentation ranges). Without an approval no address is in a blocked
    range at all; with one, the endpoint is the approved one and the address
    is in an approved prefix and in a private network. *)
Theorem resolved_target_guard lookup approved network address addrs :
  guardedResolveAddresses unicode_lower lookup approved network address = Ok addrs →
  ∃ host portText port transport, SplitHostPort address = Some (host, portText) ∧ Atoi portText = Some port ∧
    addrs ≠ [] ∧ NoDup addrs ∧
    ∀ a, a ∈ addrs →
      reachable_address approved (mkDestination transport "" (of_text (trim_set bracket (text host))) port) a.
Proof.
  unfold guardedResolveAddresses. destruct (SplitHostPort address) as [[host portText]|]; [|done].
  destruct (Atoi portText) as [port|] eqn:Hport; [|done]. intros H. exists host, portText, port. eexists. split; [done|]. split; [done|].
  revert H. generalize (ParseAddr (of_text (trim_set bracket (text host)))). intros parsed.
  destruct (match parsed with Some addr => Ok [AsSlice addr] | None => _ end) as [addresses|]; [|done]. cbn [rbind].
  destruct addresses as [|ip addresses]; [done|]. cbn [length Nat.eqb negb].
  intros (Hnd & Hall & Hne)%resolve_loop_spec. split; [by apply Hne|]. split; [done|]. intros a Ha. by apply Hall.
Qed.

(** ** Literals with a zone *)

Lemma zone_never_contained p v zone : zone ≠ "" → Contains p (Addr6 v zone) = false.
Proof. intros Hz. apply not_true_iff_false. intros (H & _)%Contains_spec. done. Qed.

Lemma zoned_evaluates v zone : zone ≠ "" → Z.shiftr v 32 ≠ 65535 → EvaluateResolvedAddress (Addr6 v zone) = Ok tt.
Proof.
  intros Hz Hm. unfold EvaluateResolvedAddress. cbn [IsValid]. generalize blockedRanges. intros ranges.
  assert (Unmap (Addr6 v zone) = Addr6 v zone) as ->. { unfold Unmap. by rewrite (proj2 (Z.eqb_neq _ _)). }
  assert (existsb (λ prefix, Contains prefix (Addr6 v zone)) ranges = false) as ->; [|done].
  apply not_true_iff_false. intros (p & _ & Hp)%existsb_exists. by rewrite zone_never_contained in Hp.
Qed.

Lemma blocked_denied a r : IsValid a = true → r ∈ blockedRanges → Contains r (Unmap a) = true → EvaluateResolvedAddress a = Err ErrTargetDenied.
Proof.
  intros Hv Hr Hc. unfold EvaluateResolvedAddress. rewrite Hv. revert Hr. generalize blockedRanges. intros ranges Hr.
  assert (existsb (λ prefix, Contains prefix (Unmap a)) ranges = true) as ->; [|done].
  apply existsb_exists. exists r. split; [by apply list_elem_of_In|done].
Qed.

(** C38: A literal IPv6 address with a zone passes the classifier that checks
    destinations when a policy is compiled and when a grant is minted, whatever
    range it is in, because a prefix never contains an address with a zone;
    the guard on resolved addresses drops the zone and refuses it. *)
Theorem zoned_literal_gap d v zone r lookup network address host portText port :
  ToLower unicode_lower (de_Host d) ∉ defaultSpecialHosts →
  ParseAddr (of_text (trim_set bracket (text (ToLower unicode_lower (de_Host d))))) = Some (Addr6 v zone) →
  zone ≠ "" → Z.shiftr v 32 ≠ 65535 → 0 ≤ v < 2 ^ 128 → r ∈ blockedRanges → Contains r (Addr6 v "") = true →
  SplitHostPort address = Some (host, portText) → Atoi portText = Some port →
  ParseAddr (of_text (trim_set bracket (text host))) = Some (Addr6 v zone) →
  Evaluate unicode_lower d = Ok tt ∧
  guardedResolveAddresses unicode_lower lookup None network address = Err ErrTargetDenied.
Proof.
  intros Hs Hp Hz Hm Hv Hr Hc Hsplit Hport Hp'. split.
  - unfold Evaluate. rewrite bool_decide_eq_false_2, Hp by done. by apply zoned_evaluates.
  - unfold guardedResolveAddresses. rewrite Hsplit, Hport. cbn zeta. rewrite Hp'. cbn [rbind length Nat.eqb negb resolve_loop AsSlice].
    assert (AddrFromSlice (be 16 v) = Some (Addr6 v "")) as ->.
    { unfold AddrFromSlice. rewrite length_be. cbn [Nat.eqb]. rewrite unbe_be; [done|]. by change (256 ^ Z.of_nat 16) with (2 ^ 128). }
    cbn [evaluateResolvedTarget]. rewrite (blocked_denied _ r); [done|by rewrite Unmap_valid|done|].
    rewrite Unmap_idemp. unfold Unmap. by rewrite (proj2 (Z.eqb_neq _ _)).
Qed.
End guard.

(** ** Examples *)

Definition no_lookup : string → Result nat (list bytes) := λ _, Err 0%nat.

Lemma resolved_target_guard_witness :
  guardedResolveAddresses id (λ _, Ok [be 4 134744072; be 16 281470816487432]) None "tcp" "dns.example:53" = Ok [Addr4 134744072] ∧
  ∃ host portText port transport, SplitHostPort "dns.example:53" = Some (host, portText) ∧ Atoi portText = Some port ∧
    [Addr4 134744072] ≠ [] ∧ NoDup [Addr4 134744072] ∧
    ∀ a, a ∈ [Addr4 134744072] → reachable_address None (mkDestination transport "" (of_text (trim_set bracket (text host))) port) a.
Proof.
  assert (guardedResolveAddresses id (λ _, Ok [be 4 134744072; be 16 281470816487432]) None "tcp" "dns.example:53" =
          Ok [Addr4 134744072]) as H by (vm_compute; reflexivity).
  split; [exact H|]. apply (resolved_target_guard _ _ _ _ _ _ H).
Defined.

Lemma zoned_literal_gap_witness :
  Evaluate id (mkDestination TransportTCP "" "fe80::1%eth0" 80) = Ok tt ∧
  guardedResolveAddresses id no_lookup None "tcp" "[fe80::1%eth0]:80" = Err ErrTargetDenied.
Proof.
  apply (zoned_literal_gap id (mkDestination TransportTCP "" "fe80::1%eth0" 80) 338288524927261089654018896841347694593 "eth0"
           (mkPrefix (Addr6 338288524927261089654018896841347694592 "") 10) no_lookup "tcp" "[fe80::1%eth0]:80" "fe80::1%eth0" "80" 80).
  - apply (bool_decide_unpack _). vm_compute. exact I.
  - vm_compute. reflexivity.
  - done.
  - vm_compute. discriminate.
  - vm_compute. split; [discriminate|reflexivity].
  - apply (bool_decide_unpack _). vm_compute. exact I.
  - vm_compute. reflexivity.
  - vm_compute. reflexivity.
  - vm_compute. reflexivity.
  - vm_compute. reflexivity.
Defined.

(** The metadata address is in a range no approval opens. *)
Lemma metadata_forbidden : mkPrefix (Addr4 2851995648) 16 ∈ forbiddenRanges ∧ Contains (mkPrefix (Addr4 2851995648) 16) (Addr4 2852039166) = true.
Proof. split; [apply (bool_decide_unpack _); vm_compute; exact I|by vm_compute]. Qed.

(** A policy with such a destination compiles. *)
Example zoned_compiles :
  compile_destinations id (λ _, None) TransportTCP [] ["[fe80::1%eth0]:80"] = Ok [mkDestination TransportTCP "" "fe80::1%eth0" 80].
Proof. vm_compute. reflexivity. Qed.
