(* ===== verification/ConnectivityGrants.v ===== *)
(** * Grants are what their policy allows, until they expire *)

From stdpp Require Import pretty.
From S2P Require Import Prelude GoLib SessionCtx Encoding Json JsonText Ipc NetIP Connectivity.

Open Scope go_scope.
Open Scope Z_scope.

#[local] Arguments blockedRanges : simpl never.
#[local] Arguments privateNetworks : simpl never.
#[local] Arguments ParsePrefix : simpl never.
#[local] Arguments ParseAddr : simpl never.
#[local] Arguments Canonical : simpl never.
#[local] Arguments TrimSpace : simpl never.

Section grants.
Context (unicode_lower : Z → Z) (url_Parse : string → option URL).
Notation ParseDestination := (ParseDestination unicode_lower url_Parse).
Notation Evaluate := (Evaluate unicode_lower).
Notation CompilePolicy := (CompilePolicy unicode_lower url_Parse).
Notation mintConnectionGrant := (mintConnectionGrant unicode_lower url_Parse).

(** ** Destinations *)

Definition wf_destination (transport : Transport) (d : Destination) : Prop :=
  de_Transport d = transport ∧ de_Host d ≠ "" ∧ 0 < de_Port d ≤ 65535.

Lemma pretty_nonempty (n : Z) s : pretty n +:+ "." +:+ s ≠ "".
Proof. by destruct (pretty n). Qed.

Lemma addr_String_nonempty a : addr_String a ≠ "".
Proof.
  destruct a as [|v|v zone]; cbn [addr_String]; [done|apply pretty_nonempty|].
  destruct (Z.shiftr v 32 =? 65535); [done|]. unfold v6_text.
  destruct (zero_run (groups_of v)) as [[x y]|].
  - by destruct (join_colon (take x (groups_of v))).
  - assert (join_colon (groups_of v) ≠ "") as H; [|by destruct (join_colon (groups_of v))].
    unfold join_colon, groups_of. cbn [seq fmap list_fmap join].
    intros H. apply (f_equal String.list_ascii_of_string) in H. unfold of_text in H. rewrite list_ascii_of_list in H.
    by apply app_nil in H as [_ ?].
Qed.

Lemma normalizeHost_nonempty raw host : normalizeHost unicode_lower raw = Ok host → host ≠ "".
Proof.
  unfold normalizeHost. destruct (bool_decide _); [done|]. destruct (existsb _ _); [done|]. cbn [negb].
  destruct (ParseAddr _) as [addr|]; [intros [= <-]; apply addr_String_nonempty|].
  destruct (_ <? _); [done|]. cbn [negb]. destruct (forallb host_label _) eqn:Hl; [|done]. intros [= <-] He. by rewrite He in Hl.
Qed.

Lemma normalizePort_range raw d port : 0 ≤ d ≤ 65535 → normalizePort raw d = Ok port → 0 < port ≤ 65535.
Proof.
  unfold normalizePort. intros Hd. case_bool_decide.
  - destruct (Z.leb_spec d 0); cbn [negb]; [done|]. intros [= <-]. lia.
  - destruct (Atoi raw) as [n|]; [|done]. destruct (Z.leb_spec n 0), (Z.ltb_spec 65535 n); cbn [orb negb]; try done. intros [= <-]. lia.
Qed.

Lemma defaultPort_range scheme : 0 ≤ defaultPortForScheme scheme ≤ 65535.
Proof. unfold defaultPortForScheme. repeat case_match; lia. Qed.

Lemma parseURLDestination_wf transport raw scheme allowed d :
  parseURLDestination unicode_lower url_Parse transport raw scheme allowed = Ok d → wf_destination transport d.
Proof.
  unfold parseURLDestination. destruct (url_Parse _) as [u|]; [|done]. case_bool_decide; [|done]. destruct (origin_only u); [|done].
  destruct (normalizeHost unicode_lower (u_Hostname u)) as [host|] eqn:Hh; [|done]. cbn [rbind].
  destruct (normalizePort (u_Port u) _) as [port|] eqn:Hp; [|done]. cbn [rbind]. intros [= <-].
  apply normalizeHost_nonempty in Hh. apply normalizePort_range in Hp; [|apply defaultPort_range]. done.
Qed.

Lemma parseEndpointDestination_wf transport raw d :
  parseEndpointDestination unicode_lower url_Parse transport raw = Ok d → wf_destination transport d.
Proof.
  unfold parseEndpointDestination. destruct (if contains _ _ then _ else _) as [value|]; [|done]. cbn [rbind].
  destruct (SplitHostPort value) as [[hostPart portPart]|]; [|done].
  destruct (normalizeHost unicode_lower hostPart) as [host|] eqn:Hh; [|done]. cbn [rbind].
  destruct (normalizePort portPart 0) as [port|] eqn:Hp; [|done]. cbn [rbind]. intros [= <-].
  apply normalizeHost_nonempty in Hh. apply normalizePort_range in Hp; [|lia]. done.
Qed.

Lemma ParseDestination_wf transport raw d : ParseDestination transport raw = Ok d → wf_destination transport d.
Proof.
  unfold Connectivity.ParseDestination. destruct (bool_decide _); [done|]. cbn [negb].
  repeat case_match; eauto using parseURLDestination_wf, parseEndpointDestination_wf. done.
Qed.

(** ** Compiled policies *)

(** A connector of a compiled policy: its destinations were classified. *)
Definition wf_connector (c : ConnectorPolicy) : Prop :=
  cp_ConnectorID c ≠ "" ∧ TrimSpace (cp_ConnectorID c) = cp_ConnectorID c ∧
  ∀ d, d ∈ cp_Destinations c → wf_destination (cp_Transport c) d ∧ Evaluate d = Ok tt.

Definition wf_policy (p : PolicySet) : Prop :=
  TrimSpace (np_PluginInstanceID p) = np_PluginInstanceID p ∧ TrimSpace (np_ActiveFingerprint p) = np_ActiveFingerprint p ∧
  np_TargetClassifierVersion p = TargetClassifierVersion ∧ NoDup (cp_ConnectorID <$> np_Connectors p) ∧ Forall wf_connector (np_Connectors p).

Lemma compile_destinations_wf transport seen raws l :
  compile_destinations unicode_lower url_Parse transport seen raws = Ok l →
  ∀ d, d ∈ l → wf_destination transport d ∧ Evaluate d = Ok tt.
Proof.
  revert seen l. induction raws as [|raw raws IH]; intros seen l; cbn [compile_destinations].
  { intros [= <-] d Hd. by apply not_elem_of_nil in Hd. }
  destruct (ParseDestination transport raw) as [x|] eqn:Hx; [|done]. cbn [rbind].
  destruct (Evaluate x) as [[]|] eqn:He; [|done]. cbn [rbind]. case_bool_decide; [apply IH|].
  destruct (compile_destinations unicode_lower url_Parse transport (Canonical x :: seen) raws) as [rest|] eqn:Hr; [|done]. cbn [rbind]. intros [= <-] d [->|Hd]%elem_of_cons.
  - split; [by eapply ParseDestination_wf|done].
  - by eapply IH.
Qed.

Lemma compileConnector_wf spec c : compileConnector unicode_lower url_Parse spec = Ok c → wf_connector c.
Proof.
  unfold compileConnector. case_bool_decide as Hid; [done|]. cbn [negb]. destruct (ValidTransport _); [|done].
  destruct (_ || _); [|done]. destruct (negb _); [|done]. destruct (negb _); [|done].
  destruct (compile_destinations _ _ _ _ _) as [l|] eqn:Hl; [|done]. cbn [rbind]. intros [= <-]. split_and!; cbn; [done|by rewrite TrimSpace_idemp|].
  intros d Hd. rewrite merge_sort_Permutation in Hd. by eapply compile_destinations_wf.
Qed.

Lemma compile_connectors_wf seen specs l :
  compile_connectors unicode_lower url_Parse seen specs = Ok l →
  Forall wf_connector l ∧ NoDup (cp_ConnectorID <$> l) ∧ ∀ c, c ∈ l → cp_ConnectorID c ∉ seen.
Proof.
  revert seen l. induction specs as [|spec specs IH]; intros seen l; cbn [compile_connectors].
  { intros [= <-]. split_and!; [constructor|constructor|by intros c ?%not_elem_of_nil]. }
  destruct (compileConnector _ _ spec) as [c|] eqn:Hc; [|done]. cbn [rbind]. case_bool_decide as Hs; [done|]. cbn [negb].
  destruct (compile_connectors _ _ (cp_ConnectorID c :: seen) specs) as [rest|] eqn:Hr; [|done]. cbn [rbind]. intros [= <-].
  apply IH in Hr as (Hf & Hnd & Hseen). split_and!.
  - constructor; [by eapply compileConnector_wf|done].
  - rewrite fmap_cons. constructor; [|done]. intros (x & Heq & Hx)%list_elem_of_fmap. apply (Hseen _ Hx). rewrite <- Heq. by left.
  - intros x [->|Hx]%elem_of_cons; [done|]. intros Hin. apply (Hseen _ Hx). by right.
Qed.

Lemma CompilePolicy_wf req p : CompilePolicy req = Ok p → wf_policy p.
Proof.
  unfold Connectivity.CompilePolicy. destruct (validStoredRevisionValues _ _ _); [|done].
  destruct (compile_connectors _ _ [] (cr_Connectors req)) as [l|] eqn:Hl; [|done]. cbn [rbind]. intros [= <-].
  apply compile_connectors_wf in Hl as (Hf & Hnd & _). unfold wf_policy; cbn. split_and!; [apply TrimSpace_idemp..|done| |].
  - by rewrite merge_sort_Permutation.
  - by rewrite merge_sort_Permutation.
Qed.

(** ** Minting *)

(** The connector allows the destination: it is one of its own, or the one of
    an approved binding that has not expired. *)
Definition destination_allowed (c : ConnectorPolicy) (req : GrantRequest) (now : time) (d : Destination) : Prop :=
  match nr_Binding req with
  | None => cp_Configurable c = false ∧ d ∈ cp_Destinations c
  | Some binding =>
     cp_Configurable c = true ∧ ab_ConnectionID binding ≠ "" ∧ ab_Revision binding ≠ 0 ∧ now < ab_ExpiresAt binding ∧
     ParseDestination (nr_Transport req) (ab_Destination binding) = Ok d ∧
     (nr_Transport req = TransportHTTP → nr_HTTPMethod req ∈ ab_HTTPMethods binding)
  end.

Lemma authorizeDestination_spec c req now d :
  authorizeDestination unicode_lower url_Parse c req now d = Ok tt → destination_allowed c req now d.
Proof.
  unfold authorizeDestination, destination_allowed. destruct (cp_Configurable c), (nr_Binding req) as [binding|]; try done.
  - case_bool_decide; [done|]. destruct (Z.eqb_spec (ab_Revision binding) 0); [done|]. unfold After.
    destruct (Z.ltb_spec now (ab_ExpiresAt binding)); [|done]. cbn [orb negb].
    destruct (ParseDestination (nr_Transport req) (ab_Destination binding)) as [approved|]; [|done].
    case_bool_decide; [|done]. subst approved. case_bool_decide; cbn [andb negb].
    + case_bool_decide; [|done]. intros _. split_and!; done.
    + intros _. split_and!; done.
  - destruct (allows c d) eqn:Ha; [|done]. intros _. split; [done|]. apply existsb_exists in Ha as (x & Hx%list_elem_of_In & Heq).
    apply bool_decide_eq_true in Heq. by subst x.
Qed.

Definition grant_ttl (req : GrantRequest) : Z :=
  let ttl := if nr_TTL req <=? 0 then DefaultGrantTTL else nr_TTL req in if MaxGrantTTL <? ttl then MaxGrantTTL else ttl.

Lemma grant_ttl_range req : 0 < grant_ttl req ≤ MaxGrantTTL.
Proof.
  unfold grant_ttl, DefaultGrantTTL, MaxGrantTTL, Minute, Second. destruct (Z.leb_spec (nr_TTL req) 0); [done|].
  destruct (Z.ltb_spec (5 * (60 * 1000000000)) (nr_TTL req)); lia.
Qed.

(** The grant of a request. *)
Definition minted (grantID : string) (session : Context) (policy : PolicySet) (c : ConnectorPolicy) (req : GrantRequest) (now : time)
    (scope : ResourceScope) (d : Destination) : ConnectionGrant :=
  let expires := now + grant_ttl req in
  mkGrant (match nr_Binding req with Some binding => ab_PrivatePrefixes binding | None => [] end)
    (match nr_Binding req with Some binding => ab_ConnectionID binding | None => "" end)
    (match nr_Binding req with Some binding => ab_Revision binding | None => 0 end)
    (match nr_Binding req with Some binding => ab_HTTPMethods binding | None => [] end)
    grantID (np_PluginInstanceID policy) (np_ActiveFingerprint policy) scope
    (np_PolicyRevision policy) (np_ManagementRevision policy) (np_RevokeEpoch policy)
    (cp_ConnectorID c) (cp_Transport c) d (nr_RuntimeGenerationID req) (np_TargetClassifierVersion policy)
    (match nr_Binding req with
     | Some binding => if Before (ab_ExpiresAt binding) expires then ab_ExpiresAt binding else expires
     | None => expires
     end).

(** What a mint has checked. *)
Record mint_checked (session : Context) (policy : PolicySet) (req : GrantRequest) (now : time) (c : ConnectorPolicy) (g : ConnectionGrant) : Prop := {
  mc_plugin : np_PluginInstanceID policy = nr_PluginInstanceID req ∧ np_PluginInstanceID policy ≠ "";
  mc_fingerprint : np_ActiveFingerprint policy = nr_ActiveFingerprint req ∧ np_ActiveFingerprint policy ≠ "";
  mc_active : validActiveRevisionBinding (np_PolicyRevision policy) (np_ManagementRevision policy) (np_RevokeEpoch policy) = true;
  mc_revisions : np_PolicyRevision policy = nr_PolicyRevision req ∧ np_ManagementRevision policy = nr_ManagementRevision req ∧
                 np_RevokeEpoch policy = nr_RevokeEpoch req;
  mc_connector : c ∈ np_Connectors policy ∧ cp_ConnectorID c = nr_ConnectorID req;
  mc_transport : cp_Transport c = nr_Transport req;
  mc_scope : Context_ResourceScope session (cp_Scope c) = Ok (nr_ResourceScope req) ∧ ResourceScope_Valid (nr_ResourceScope req) = true;
  mc_parsed : ParseDestination (nr_Transport req) (nr_Destination req) = Ok (cg_Destination g);
  mc_approved : ValidateApprovedDestination unicode_lower (cg_Destination g) (cg_PrivatePrefixes g) = Ok tt;
  mc_allowed : destination_allowed c req now (cg_Destination g);
}.

Lemma mintConnectionGrant_spec rand wall session policy req g :
  mintConnectionGrant rand wall session policy req = Ok g →
  ∃ raw c d, rand = Some raw ∧ mint_checked session policy req (or_wall wall (nr_Now req)) c g ∧
    g = minted ("netgrant_" +:+ hex_encode raw) session policy c req (or_wall wall (nr_Now req)) (nr_ResourceScope req) d.
Proof.
  unfold Connectivity.mintConnectionGrant. fold (grant_ttl req). set (now := or_wall wall (nr_Now req)).
  case_bool_decide; [done|]. case_bool_decide; [|done]. cbn [orb negb].
  case_bool_decide; [done|]. case_bool_decide; [|done]. cbn [orb negb].
  destruct (_ && validActiveRevisionBinding (nr_PolicyRevision req) _ _) eqn:Hv; [|done]. apply andb_true_iff in Hv as [Hv _].
  destruct (_ && (np_RevokeEpoch policy =? nr_RevokeEpoch req)) eqn:Hr; [|done]. rewrite !andb_true_iff, !Z.eqb_eq in Hr.
  destruct (connector policy (nr_ConnectorID req)) as [c|] eqn:Hc; [|done].
  unfold connector in Hc. apply find_some in Hc as [Hc%list_elem_of_In Hid%bool_decide_eq_true].
  case_bool_decide; [|done]. destruct (Context_ResourceScope session (cp_Scope c)) as [scope|] eqn:Hs; [|done].
  destruct (ResourceScope_Matches (nr_ResourceScope req) scope) eqn:Hm; [|done]. apply ResourceScope_Matches_spec in Hm as [Hm <-].
  destruct (ParseDestination (nr_Transport req) (nr_Destination req)) as [d|] eqn:Hd; [|done]. cbn [rbind].
  destruct (ValidateApprovedDestination unicode_lower d _) as [[]|] eqn:Ha; [|done]. cbn [rbind].
  destruct (authorizeDestination _ _ c req now d) as [[]|] eqn:Hauth; [|done]. cbn [rbind].
  destruct rand as [raw|]; [|done]. cbn [randomGrantID rbind]. intros [= <-]. exists raw, c, d. split; [done|]. split; [|done].
  apply authorizeDestination_spec in Hauth. destruct Hr as [[? ?] ?]. split; cbn; done.
Qed.

Lemma minted_expiry grantID session policy c req now scope d :
  destination_allowed c req now d →
  now < cg_ExpiresAt (minted grantID session policy c req now scope d) ≤ now + MaxGrantTTL ∧
  ∀ binding, nr_Binding req = Some binding → cg_ExpiresAt (minted grantID session policy c req now scope d) ≤ ab_ExpiresAt binding.
Proof.
  unfold destination_allowed. pose proof (grant_ttl_range req). unfold minted. cbn [cg_ExpiresAt].
  destruct (nr_Binding req) as [binding|]; [|intros _; split; [lia|done]]. intros (_ & _ & _ & He & _). unfold Before.
  destruct (Z.ltb_spec (ab_ExpiresAt binding) (now + grant_ttl req)); (split; [lia|]); intros b [= <-]; lia.
Qed.

(** ** Validating *)

Lemma hex_graphic s : Forall graphic (text (hex_encode s)).
Proof.
  unfold text, hex_encode. rewrite list_ascii_of_list. induction (String.list_ascii_of_string s) as [|c l IH]; [constructor|].
  assert (∀ n, (n < 16)%nat → graphic (hex_digit n)) as Hd.
  { intros n Hn. unfold graphic, hex_digit, byte. destruct (Nat.ltb_spec n 10); rewrite Ascii.nat_ascii_embedding; lia. }
  pose proof (Ascii.nat_ascii_bounded c). cbn [flat_map app].
  constructor; [by apply Hd, Nat.Div0.div_lt_upper_bound|]. constructor; [by apply Hd, Nat.mod_upper_bound|done].
Qed.

Lemma grant_id_trim raw : TrimSpace ("netgrant_" +:+ hex_encode raw) ≠ "".
Proof.
  rewrite graphic_trim; [done|]. rewrite list_ascii_app. apply Forall_app. split; [|apply hex_graphic].
  vm_compute. repeat constructor; lia.
Qed.

(** The checks of a grant that do not depend on the call. *)
Definition grant_in_order (g : ConnectionGrant) : Prop :=
  bool_decide (cg_ConnectionID g = "") = (cg_ConnectionRevision g =? 0) ∧
  TrimSpace (cg_GrantID g) ≠ "" ∧ TrimSpace (cg_PluginInstanceID g) ≠ "" ∧ TrimSpace (cg_ActiveFingerprint g) ≠ "" ∧
  TrimSpace (cg_ConnectorID g) ≠ "" ∧ ResourceScope_Valid (cg_ResourceScope g) = true ∧
  validActiveRevisionBinding (cg_PolicyRevision g) (cg_ManagementRevision g) (cg_RevokeEpoch g) = true ∧
  TrimSpace (cg_TargetClassifierVersion g) = TargetClassifierVersion ∧ wf_destination (cg_Transport g) (cg_Destination g) ∧
  cg_ExpiresAt g ≠ 0 ∧ (cg_PrivatePrefixes g ≠ [] → cg_ConnectionID g ≠ "" ∧ cg_ConnectionRevision g ≠ 0) ∧
  ValidateApprovedDestination unicode_lower (cg_Destination g) (cg_PrivatePrefixes g) = Ok tt.

Lemma validateGrantForTransport_spec g transport now wall :
  grant_in_order g → now ≠ 0 →
  validateGrantForTransport unicode_lower g transport now wall = Ok tt ↔ transport = cg_Transport g ∧ now < cg_ExpiresAt g.
Proof.
  intros (Hconn & Hg & Hp & Hf & Hc & Hs & Hr & Hv & (Ht & Hh & Hport) & Hz & Hpriv & Happ) Hnow. unfold validateGrantForTransport.
  rewrite Hconn, eqb_reflx, Hs, Hr, Hv, Ht. rewrite !bool_decide_eq_false_2 by done. cbn [orb negb].
  rewrite bool_decide_eq_true_2 by done. rewrite (proj2 (Z.leb_gt _ _)) by lia. cbn [orb negb].
  unfold IsZero, After. rewrite (proj2 (Z.eqb_neq now 0)), (proj2 (Z.eqb_neq (cg_ExpiresAt g) 0)) by done. cbn [orb negb].
  assert ((0 <? length (cg_PrivatePrefixes g))%nat && ((cg_ConnectionRevision g =? 0) || (cg_ConnectionRevision g =? 0)) = false) as ->.
  { destruct (cg_PrivatePrefixes g) as [|x l]; [done|]. destruct (Hpriv ltac:(done)) as [H1 H2].
    by rewrite (proj2 (Z.eqb_neq _ _)). }
  rewrite Happ, (bool_decide_eq_false_2 (de_Host (cg_Destination g) = "")) by done. clear Happ Hpriv. cbn [orb negb].
  destruct (decide (cg_Transport g = transport)) as [Heq|Hne].
  - rewrite bool_decide_eq_true_2 by done. cbn [andb]. destruct (Z.ltb_spec now (cg_ExpiresAt g)) as [Hlt|Hge]; cbn [negb]; [by split|].
    split; [done|]. intros [_ ?]. lia.
  - rewrite bool_decide_eq_false_2 by done. split; [done|]. intros [-> _]. by destruct Hne.
Qed.

Lemma minted_in_order raw session policy c req now d g :
  g = minted ("netgrant_" +:+ hex_encode raw) session policy c req now (nr_ResourceScope req) d →
  wf_policy policy → 0 < now → mint_checked session policy req now c g → grant_in_order g.
Proof.
  intros -> (Hp & Hf & Hv & _ & Hc) Hnow H. destruct (minted_expiry ("netgrant_" +:+ hex_encode raw) session policy c req now (nr_ResourceScope req) d (mc_allowed _ _ _ _ _ _ H)) as [He _].
  rewrite Forall_forall in Hc. destruct (Hc c (proj1 (mc_connector _ _ _ _ _ _ H))) as (Hid & Htrim & _).
  destruct H as [[_ Hpl] [_ Hfp] Hact _ _ Htr [_ Hscope] Hparse Happ Hallow]. unfold grant_in_order, minted in *.
  cbn [cg_ConnectionID cg_ConnectionRevision cg_GrantID cg_PluginInstanceID cg_ActiveFingerprint cg_ConnectorID cg_ResourceScope
       cg_PolicyRevision cg_ManagementRevision cg_RevokeEpoch cg_TargetClassifierVersion cg_Transport cg_Destination cg_ExpiresAt
       cg_PrivatePrefixes] in *.
  split.
  { unfold destination_allowed in Hallow. destruct (nr_Binding req) as [binding|]; [|done]. destruct Hallow as (_ & ? & ? & _).
    by rewrite bool_decide_eq_false_2, (proj2 (Z.eqb_neq _ _)). }
  split; [apply grant_id_trim|]. rewrite Hp, Hf, Htrim, Hv. do 3 (split; [done|]). do 2 (split; [done|]). split; [by vm_compute|].
  split; [rewrite Htr; by eapply ParseDestination_wf|]. split; [lia|]. split; [|done].
  unfold destination_allowed in Hallow. destruct (nr_Binding req) as [binding|]; [|done]. intros _. by destruct Hallow as (_ & ? & ? & _).
Qed.

End grants.

(** ** A policy with one TCP connector *)

Definition demo_ctx : GoCtx := mkGoCtx None (Some (mkContext "s1" "alice" "env1" "c1" true true)).

Definition demo_compile : CompileRequest :=
  mkCompileRequest "p1" "plugin" "fp" 1 2 3 [mkConnectorSpec false "db" "tcp" "environment" [" DB.example.com.:443"] None].

Definition demo_policy : PolicySet :=
  mkPolicySet "p1" "plugin" "fp" 1 2 3 TargetClassifierVersion
    [mkConnector false "db" "tcp" "environment" [mkDestination "tcp" "" "db.example.com" 443] ""].

Definition demo_request : GrantRequest :=
  mkNetGrantRequest None "" "p1" "fp" (mkResourceScope "environment" "env1" "") 1 2 3 "db" "tcp" "db.example.com:443" "gen" 1000
    (3600 * Second).

Example demo_compiles : CompilePolicy id (λ _, None) demo_compile = Ok demo_policy.
Proof. vm_compute. reflexivity. Qed.

