(* ===== verification/UdpLimiter.v ===== *)
(** * The limiter of UDP round trips ([pkg/connectivity/connectivity.go])

    [MemoryUDPRateLimiter] counts the round trips of a bucket in windows, and
    keeps a heap of expiries to forget idle buckets; entries of the heap are
    left behind when their window moves on, and the heap is rebuilt when too
    many are. The order in which [range] visits the windows is a parameter of
    every call. A limiter is not nil. *)

From S2P Require Import Prelude GoLib SessionCtx NetIP Connectivity.

(** * Go's [container/heap] on a slice

    The functions of the package as they work on the slice behind the
    interface: [Swap] and [Less] by index, [up] and [down] as loops, [Init],
    [Push] and [Pop]. [Less] is a parameter; the theorems need that its
    negation is a total preorder. *)

Section heap.
Context {A : Type} (less : A → A → bool).

Definition Swap (i j : nat) (h : list A) : list A :=
  match h !! i, h !! j with
  | Some x, Some y => <[i := y]> (<[j := x]> h)
  | _, _ => h
  end.

(** [h.Less(i, j)] *)
Definition Less (h : list A) (i j : nat) : bool :=
  match h !! i, h !! j with
  | Some x, Some y => less x y
  | _, _ => false
  end.

Definition parent (j : nat) : nat := (j - 1) `div` 2.

(** [down(h, i, n)]; every round at least doubles [i]. *)
Fixpoint down (fuel : nat) (h : list A) (i n : nat) : list A :=
  match fuel with
  | O => h
  | S fuel =>
     let j1 := (2 * i + 1)%nat in
     if (n <=? j1)%nat then h
     else
       let j2 := (j1 + 1)%nat in
       let j := if (j2 <? n)%nat && Less h j2 j1 then j2 else j1 in
       if negb (Less h j i) then h else down fuel (Swap i j h) j n
  end.

(** [up(h, j)]; every round at least halves [j]. *)
Fixpoint up (fuel : nat) (h : list A) (j : nat) : list A :=
  match fuel with
  | O => h
  | S fuel =>
     let i := parent j in
     if (i =? j)%nat || negb (Less h j i) then h else up fuel (Swap i j h) i
  end.

Definition Init (h : list A) : list A :=
  foldl (λ h i, down (length h) h i (length h)) h (reverse (seq 0 (length h `div` 2))).

Definition Push (x : A) (h : list A) : list A :=
  let h := h ++ [x] in up (length h) h (length h - 1).

(** [Pop] of an empty heap panics. *)
Definition Pop (h : list A) : option (A * list A) :=
  let n := (length h - 1)%nat in
  let h := down n (Swap 0 n h) 0 n in
  match h !! n with
  | Some x => Some (x, take n h)
  | None => None
  end.

(** ** Positions *)

Lemma parent_spec i c : (0 < c)%nat → parent c = i ↔ c = (2 * i + 1)%nat ∨ c = (2 * i + 2)%nat.
Proof.
  intros Hc. unfold parent. pose proof (Nat.div_mod (c - 1) 2 ltac:(lia)). pose proof (Nat.mod_upper_bound (c - 1) 2 ltac:(lia)). lia.
Qed.

Lemma parent_lt c : (0 < c)%nat → (parent c < c)%nat.
Proof. intros Hc. pose proof (proj1 (parent_spec (parent c) c Hc) eq_refl). lia. Qed.

(** The position that [Swap i j] moves to [k]. *)
Definition swapped (i j k : nat) : nat := if decide (k = i) then j else if decide (k = j) then i else k.

Lemma Swap_lookup i j h k : (i < length h)%nat → (j < length h)%nat → Swap i j h !! k = h !! swapped i j k.
Proof.
  intros Hi Hj. unfold Swap, swapped. destruct (lookup_lt_is_Some_2 h i Hi) as [x Hx]. destruct (lookup_lt_is_Some_2 h j Hj) as [y Hy].
  rewrite Hx, Hy. destruct (decide (k = i)) as [->|Hki].
  - rewrite list_lookup_insert_eq; [done|]. by rewrite length_insert.
  - rewrite list_lookup_insert_ne by done. destruct (decide (k = j)) as [->|Hkj].
    + by rewrite list_lookup_insert_eq.
    + by rewrite list_lookup_insert_ne.
Qed.

Lemma Swap_length i j h : length (Swap i j h) = length h.
Proof. unfold Swap. destruct (h !! i), (h !! j); by rewrite ?length_insert. Qed.

Lemma swapped_invol i j k : swapped i j (swapped i j k) = k.
Proof. unfold swapped. repeat case_decide; congruence. Qed.

Lemma Swap_Permutation i j h : Swap i j h ≡ₚ h.
Proof.
  destruct (decide (i < length h ∧ j < length h)%nat) as [[Hi Hj]|Hout].
  - apply Permutation_inj. split; [apply Swap_length|]. exists (swapped i j). split; [|intros; by apply Swap_lookup].
    intros a b Hab. rewrite <- (swapped_invol i j a), Hab. apply swapped_invol.
  - unfold Swap. destruct (h !! i) eqn:Hi, (h !! j) eqn:Hj; try done.
    apply lookup_lt_Some in Hi, Hj. lia.
Qed.

Lemma Less_Swap i j h a b : (i < length h)%nat → (j < length h)%nat →
  Less (Swap i j h) a b = Less h (swapped i j a) (swapped i j b).
Proof. intros. unfold Less. by rewrite !Swap_lookup. Qed.

Lemma down_Permutation fuel h i n : down fuel h i n ≡ₚ h.
Proof.
  revert h i. induction fuel as [|fuel IH]; intros h i; [done|]. cbn [down]. destruct (n <=? _)%nat; [done|].
  destruct (negb _); [done|]. rewrite IH. apply Swap_Permutation.
Qed.

Lemma up_Permutation fuel h j : up fuel h j ≡ₚ h.
Proof.
  revert h j. induction fuel as [|fuel IH]; intros h j; [done|]. cbn [up]. destruct (_ || _); [done|]. rewrite IH. apply Swap_Permutation.
Qed.

Lemma Init_Permutation h : Init h ≡ₚ h.
Proof.
  unfold Init. generalize (reverse (seq 0 (length h `div` 2))). intros l. revert h. induction l as [|i l IH]; intros h; [done|].
  cbn [foldl]. rewrite IH. apply down_Permutation.
Qed.

Lemma Push_Permutation x h : Push x h ≡ₚ x :: h.
Proof. unfold Push. rewrite up_Permutation, Permutation_app_comm. done. Qed.

(** [down] leaves the positions from [n] on. *)
Lemma down_lookup fuel h i n k : (n ≤ k)%nat → (n ≤ length h)%nat → (i < n)%nat → down fuel h i n !! k = h !! k.
Proof.
  intros Hk. revert h i. induction fuel as [|fuel IH]; intros h i Hn Hi; [done|]. cbn [down]. destruct (Nat.leb_spec n (2 * i + 1)); [done|].
  set (j := if _ && _ then (_ : nat) else _). assert (i < j < n)%nat as Hj.
  { unfold j. destruct (Nat.ltb_spec (2 * i + 1 + 1) n); cbn [andb]; [destruct (Less _ _ _)|]; lia. }
  destruct (negb _); [done|]. rewrite IH by (rewrite ?Swap_length; lia). rewrite Swap_lookup by lia.
  unfold swapped. by rewrite !decide_False by lia.
Qed.

(** ** Heap order *)

Context (le_trans : ∀ x y z : A, less y x = false → less z y = false → less z x = false).
Context (le_total : ∀ x y : A, less x y = true → less y x = false).

(** The element at [i] may stay above the one at [j]. *)
Notation ord h i j := (Less h j i = false).

Definition heap_from (k n : nat) (h : list A) : Prop :=
  ∀ j, (0 < j < n)%nat → (k ≤ parent j)%nat → ord h (parent j) j.

Definition heap_order (h : list A) : Prop := heap_from 0 (length h) h.

Lemma ord_trans h a b c : (b < length h)%nat → ord h a b → ord h b c → ord h a c.
Proof.
  intros [y Hy]%lookup_lt_is_Some_2. unfold Less. rewrite Hy. destruct (h !! a) as [x|], (h !! c) as [z|]; try done. apply le_trans.
Qed.

Lemma ord_total h a b : Less h a b = true → ord h a b.
Proof. unfold Less. destruct (h !! a), (h !! b); try done. apply le_total. Qed.

(** The order may fail between [i] and its children only. *)
Definition down_ok (k n : nat) (h : list A) (i : nat) : Prop :=
  (∀ j, (0 < j < n)%nat → (k ≤ parent j)%nat → parent j ≠ i → ord h (parent j) j) ∧
  (∀ c, (0 < c < n)%nat → parent c = i → (0 < i)%nat → (k ≤ parent i)%nat → ord h (parent i) c).

(** One exchange of [down] with the smaller child [j]. *)
Lemma down_step k n h i j : (n ≤ length h)%nat → (0 < j < n)%nat → parent j = i → (k ≤ i)%nat → down_ok k n h i → Less h j i = true →
  (∀ c, (0 < c < n)%nat → parent c = i → ord h j c) → down_ok k n (Swap i j h) j.
Proof.
  intros Hn Hj Hp Hk [Hord Hgrand] Hless Hmin. pose proof (parent_lt j ltac:(lia)) as Hij. split.
  - intros m Hm Hkm Hne. rewrite Less_Swap by lia. pose proof (parent_lt m ltac:(lia)). destruct (decide (parent m = i)) as [Hmi|Hmi].
    + rewrite Hmi. unfold swapped at 2. rewrite decide_True by done. unfold swapped. rewrite decide_False by lia.
      case_decide; [subst m; by apply ord_total|]. by apply Hmin.
    + unfold swapped. rewrite (decide_False (P := parent m = i)), (decide_False (P := parent m = j)) by done.
      case_decide as Hmi'; [subst m; apply Hgrand; try done; lia|]. rewrite decide_False by congruence. by apply Hord.
  - intros c Hc Hcj Hj0 Hkp. pose proof (parent_lt c ltac:(lia)). rewrite Less_Swap by lia. rewrite Hp.
    unfold swapped. rewrite (decide_False (P := c = i)), (decide_False (P := c = j)), decide_True by (done || lia).
    rewrite <- Hcj. apply Hord; [done|lia|lia].
Qed.

Lemma down_heap fuel k n h i : (n ≤ length h)%nat → (n ≤ fuel + i)%nat → (k ≤ i)%nat → down_ok k n h i → heap_from k n (down fuel h i n).
Proof.
  revert h i. induction fuel as [|fuel IH]; intros h i Hn Hf Hk Hok.
  { intros j Hj Hkj. apply Hok; [done..|]. pose proof (parent_lt j ltac:(lia)). lia. }
  cbn [down]. destruct (Nat.leb_spec n (2 * i + 1)) as [Hlast|Hin].
  { intros j Hj Hkj. apply Hok; [done..|]. intros Hji. apply parent_spec in Hji; lia. }
  set (j := if _ && _ then (_ : nat) else _).
  assert (parent j = i ∧ (0 < j < n)%nat ∧ ∀ c, (0 < c < n)%nat → parent c = i → ord h j c) as (Hp & Hj & Hmin).
  { unfold j. replace (2 * i + 1 + 1)%nat with (2 * i + 2)%nat by lia.
    assert (∀ a, ord h a a) as Hrefl by (intros a; destruct (Less h a a) eqn:E; [by apply ord_total in E as E'; congruence|done]).
    destruct (Nat.ltb_spec (2 * i + 2) n) as [H2|H2]; cbn [andb]; [destruct (Less h (2 * i + 2) (2 * i + 1)) eqn:HL|].
    all: split; [apply parent_spec; lia|]; split; [lia|]; intros c Hc [->| ->]%parent_spec; [| |lia]; try lia; try done; by apply ord_total. }
  destruct (Less h j i) eqn:HL; cbn [negb].
  - pose proof (parent_lt j ltac:(lia)). apply IH; [by rewrite Swap_length|lia|lia|]. by apply down_step.
  - intros m Hm Hkm. destruct (decide (parent m = i)) as [Hmi|Hmi]; [|by apply Hok].
    rewrite Hmi. apply (ord_trans h i j); [lia|done|]. by apply Hmin.
Qed.

(** The order may fail between [j] and its parent only. *)
Definition up_ok (h : list A) (j : nat) : Prop :=
  (∀ m, (0 < m < length h)%nat → m ≠ j → ord h (parent m) m) ∧
  (∀ c, (0 < c < length h)%nat → parent c = j → (0 < j)%nat → ord h (parent j) c).

Lemma up_step h j : (0 < j < length h)%nat → up_ok h j → Less h j (parent j) = true → up_ok (Swap (parent j) j h) (parent j).
Proof.
  intros Hj [Hord Hgrand] Hless. set (i := parent j) in *. assert (i < j)%nat as Hij by (apply parent_lt; lia).
  unfold up_ok. rewrite Swap_length. split.
  - intros m Hm Hmi. rewrite Less_Swap by lia. pose proof (parent_lt m ltac:(lia)). unfold swapped at 1. rewrite decide_False by done.
    case_decide as Hmj.
    + subst m. unfold swapped. rewrite decide_True by done. by apply ord_total.
    + unfold swapped. case_decide as Hpi.
      * apply (ord_trans h j i); [lia|by apply ord_total|]. rewrite <- Hpi. by apply Hord.
      * case_decide as Hpj; [by apply Hgrand; [|congruence|lia]|]. by apply Hord.
  - intros c Hc Hci Hi0. rewrite Less_Swap by lia. pose proof (parent_lt c ltac:(lia)). pose proof (parent_lt i ltac:(lia)).
    unfold swapped. rewrite (decide_False (P := c = i)), (decide_False (P := parent i = i)), (decide_False (P := parent i = j)) by lia.
    assert (ord h (parent i) i) as Hpi by (apply Hord; lia). case_decide as Hcj; [done|].
    apply (ord_trans h (parent i) i c); [lia|done|]. rewrite <- Hci. by apply Hord.
Qed.

Lemma up_heap fuel h j : (j < length h)%nat → (j < fuel)%nat → up_ok h j → heap_order (up fuel h j).
Proof.
  revert h j. induction fuel as [|fuel IH]; intros h j Hj Hf Hok; [lia|]. cbn [up].
  destruct (decide (j = 0)%nat) as [->|Hj0].
  { cbn. intros m Hm _. apply Hok; lia. }
  pose proof (parent_lt j ltac:(lia)). rewrite (proj2 (Nat.eqb_neq (parent j) j)) by lia. cbn [orb].
  destruct (Less h j (parent j)) eqn:HL; cbn [negb].
  - apply IH; rewrite ?Swap_length; [lia|lia|]. apply up_step; [lia|done|done].
  - intros m Hm _. destruct (decide (m = j)) as [->|]; [done|]. by apply Hok.
Qed.

(** ** The operations *)

Lemma Less_app h x a b : (a < length h)%nat → (b < length h)%nat → Less (h ++ x) a b = Less h a b.
Proof. intros. unfold Less. by rewrite !lookup_app_l. Qed.

Lemma Push_heap x h : heap_order h → heap_order (Push x h).
Proof.
  intros Hh. unfold Push. apply up_heap; rewrite ?length_app; cbn [length]; [lia..|]. split.
  - rewrite length_app. cbn [length]. intros m Hm Hne. pose proof (parent_lt m ltac:(lia)). rewrite Less_app by lia. apply Hh; lia.
  - rewrite length_app. cbn [length]. intros c Hc Hp. apply parent_spec in Hp; lia.
Qed.

Lemma Init_heap h : heap_order (Init h).
Proof.
  unfold Init. assert (∀ k h', (k ≤ length h')%nat → heap_from k (length h') h' →
    heap_order (foldl (λ h i, down (length h) h i (length h)) h' (reverse (seq 0 k)))) as Hgen.
  { induction k as [|k IH]; intros h' Hk Hh; [done|]. rewrite seq_S, reverse_snoc. cbn [foldl].
    pose proof (down_Permutation (length h') h' (0 + k) (length h')) as Hlen%Permutation_length.
    apply IH; [lia|]. rewrite Hlen. apply down_heap; [lia..|]. split.
    - intros j Hj Hkj Hne. apply Hh; [done|lia].
    - intros c Hc Hp Hk0 Hkp. pose proof (parent_lt (0 + k) ltac:(lia)). lia. }
  pose proof (Nat.div_mod (length h) 2 ltac:(lia)). pose proof (Nat.mod_upper_bound (length h) 2 ltac:(lia)).
  apply Hgen; [lia|]. intros j Hj Hp. pose proof (proj1 (parent_spec _ j ltac:(lia)) eq_refl). lia.
Qed.

(** The first element is least. *)
Lemma heap_head h x : heap_order h → head h = Some x → ∀ y, y ∈ h → less y x = false.
Proof.
  intros Hh Hx y [j Hj]%list_elem_of_lookup. revert y Hj. induction j as [j IH] using lt_wf_ind; intros y Hj.
  destruct h as [|x' h]; [done|]. injection Hx as ->. destruct (decide (j = 0)%nat) as [->|Hj0].
  { injection Hj as ->. destruct (less y y) eqn:E; [|done]. pose proof (le_total _ _ E). congruence. }
  pose proof (lookup_lt_Some _ _ _ Hj) as Hlt. pose proof (parent_lt j ltac:(lia)) as Hp.
  destruct (lookup_lt_is_Some_2 (x :: h) (parent j) ltac:(lia)) as [z Hz]. apply (le_trans x z y); [by apply (IH (parent j))|].
  specialize (Hh j ltac:(lia) ltac:(lia)). unfold Less in Hh. by rewrite Hj, Hz in Hh.
Qed.

(** [Pop] of a heap takes its first element and leaves a heap of the others. *)
Lemma Pop_spec h x : heap_order h → head h = Some x → ∃ rest, Pop h = Some (x, rest) ∧ h ≡ₚ x :: rest ∧ heap_order rest.
Proof.
  intros Hh Hx. unfold Pop. set (n := (length h - 1)%nat). destruct h as [|x' h'] eqn:E; [done|]. injection Hx as ->. rewrite <- E in *.
  assert (length h = S n) as Hlen by (unfold n; rewrite E; cbn; lia). set (s := Swap 0 n h).
  assert (length s = S n) as Hslen by (unfold s; by rewrite Swap_length).
  set (h2 := down n s 0 n). assert (length h2 = S n) as Hlen2 by (rewrite <- Hslen; apply Permutation_length, down_Permutation).
  assert (h2 !! n = Some x) as Hlast.
  { assert (s !! n = Some x) as Hs.
    { unfold s. rewrite Swap_lookup by lia. unfold swapped. case_decide as Hn0; [rewrite Hn0|rewrite decide_True by done]; by rewrite E. }
    unfold h2. destruct (decide (n = 0)%nat) as [Hn0|Hn0]; [by rewrite Hn0 in *|]. rewrite down_lookup by lia. done. }
  exists (take n h2). rewrite Hlast. split; [done|]. split.
  - trans h2; [|].
    + unfold h2. rewrite down_Permutation. unfold s. by rewrite Swap_Permutation.
    + rewrite <- (take_drop n h2) at 1. rewrite (drop_S h2 x n Hlast), drop_ge by lia. by rewrite Permutation_app_comm.
  - assert (heap_from 0 n h2) as Hheap.
    { apply down_heap; [lia..|]. split.
      - intros j Hj _ Hp. pose proof (parent_lt j ltac:(lia)). unfold s. rewrite Less_Swap by lia. unfold swapped.
        rewrite !decide_False by lia. apply Hh; lia.
      - intros c Hc _ H0. lia. }
    unfold heap_order. rewrite length_take_le by lia. intros j Hj _. pose proof (parent_lt j ltac:(lia)).
    specialize (Hheap j Hj ltac:(lia)). unfold Less in *. by rewrite !lookup_take_lt by lia.
Qed.
End heap.

Open Scope Z_scope.

Definition DefaultUDPRateLimitRoundTrips : Z := 120.
Definition DefaultUDPRateLimitWindow : Z := Second.
Definition maxMemoryUDPRateLimitBuckets : nat := Z.to_nat 65536.

Record UDPRateLimitKey := mkRateKey {
  uk_PluginInstanceID : string;
  uk_ActiveFingerprint : string;
  uk_ConnectorID : string;
  uk_GrantID : string;
  uk_Destination : Destination;
}.

Record UDPRateLimit := mkRateLimit {
  ul_MaxRoundTrips : Z;
  ul_Window : Z;
}.

Record udpRateWindow := mkRateWindow {
  uw_startedAt : time;
  uw_lastSeen : time;
  uw_count : Z;
  uw_version : Z;
}.

Record udpRateExpiry := mkRateExpiry {
  ue_expiresAt : time;
  ue_version : Z;
  ue_bucket : string;
}.

Record MemoryUDPRateLimiter := mkRateLimiter {
  ml_limit : UDPRateLimit;
  ml_maxBuckets : nat;
  ml_windows : gmap string udpRateWindow;
  ml_expirations : list udpRateExpiry;
  ml_nextVersion : Z;
}.

(** [udpRateExpiryHeap.Less] *)
Definition expiry_less (x y : udpRateExpiry) : bool :=
  if ue_expiresAt x =? ue_expiresAt y then
    if ue_version x =? ue_version y then negb (bool_decide (String.le (ue_bucket y) (ue_bucket x)))
    else ue_version x <? ue_version y
  else Before (ue_expiresAt x) (ue_expiresAt y).

(** The grant is not part of the bucket. *)
Definition udpRateBucketKey (key : UDPRateLimitKey) : string :=
  uk_PluginInstanceID key +:+ nul +:+ uk_ActiveFingerprint key +:+ nul +:+ uk_ConnectorID key +:+ nul +:+
  Canonical (uk_Destination key).

Definition udpRateLimitKey (grant : ConnectionGrant) : UDPRateLimitKey :=
  mkRateKey (cg_PluginInstanceID grant) (cg_ActiveFingerprint grant) (cg_ConnectorID grant) (cg_GrantID grant) (cg_Destination grant).

Definition normalizeUDPRateLimit (limit : UDPRateLimit) : UDPRateLimit :=
  mkRateLimit (if ul_MaxRoundTrips limit <=? 0 then DefaultUDPRateLimitRoundTrips else ul_MaxRoundTrips limit)
    (if ul_Window limit <=? 0 then DefaultUDPRateLimitWindow else ul_Window limit).

Definition NewMemoryUDPRateLimiter (limit : UDPRateLimit) : MemoryUDPRateLimiter :=
  mkRateLimiter (normalizeUDPRateLimit limit) maxMemoryUDPRateLimitBuckets ∅ [] 0.

Definition nextUDPWindowVersion (current : Z) : option Z :=
  if current =? uint64_max then None else Some (current + 1).

(** A product of [time.Duration]s wraps around as [int64] does. *)
Definition wrap_int64 (x : Z) : Z := (x + 2 ^ 63) mod 2 ^ 64 - 2 ^ 63.

(** [window.lastSeen.Add(2 * l.limit.Window)] *)
Definition window_expiry (limit : UDPRateLimit) (window : udpRateWindow) : time :=
  uw_lastSeen window + wrap_int64 (2 * ul_Window limit).

Definition expiry_of (limit : UDPRateLimit) (bucket : string) (window : udpRateWindow) : udpRateExpiry :=
  mkRateExpiry (window_expiry limit window) (uw_version window) bucket.

(** One round of [pruneLocked]: the popped entry forgets the window whose
    version it has. *)
Definition forget (expiry : udpRateExpiry) (windows : gmap string udpRateWindow) : gmap string udpRateWindow :=
  match windows !! ue_bucket expiry with
  | Some window => if uw_version window =? ue_version expiry then delete (ue_bucket expiry) windows else windows
  | None => windows
  end.

Fixpoint prune_loop (fuel : nat) (now : time) (windows : gmap string udpRateWindow) (h : list udpRateExpiry) :
    gmap string udpRateWindow * list udpRateExpiry :=
  match fuel, head h with
  | S fuel, Some first =>
     if Before (ue_expiresAt first) now then
       match Pop expiry_less h with
       | Some (expiry, h) => prune_loop fuel now (forget expiry windows) h
       | None => (windows, h)
       end
     else (windows, h)
  | _, _ => (windows, h)
  end.

Definition with_windows (windows : gmap string udpRateWindow) (h : list udpRateExpiry) (l : MemoryUDPRateLimiter) : MemoryUDPRateLimiter :=
  mkRateLimiter (ml_limit l) (ml_maxBuckets l) windows h (ml_nextVersion l).

Definition pruneLocked (now : time) (l : MemoryUDPRateLimiter) : MemoryUDPRateLimiter :=
  let '(windows, h) := prune_loop (length (ml_expirations l)) now (ml_windows l) (ml_expirations l) in with_windows windows h l.

(** What a [range] over the windows visits, in its order. *)
Definition Range := gmap string udpRateWindow → list (string * udpRateWindow).

Definition rebuild (range : Range) (limit : UDPRateLimit) (windows : gmap string udpRateWindow) : list udpRateExpiry :=
  Init expiry_less (map (λ '(bucket, window), expiry_of limit bucket window) (range windows)).

Definition pushExpiryLocked (range : Range) (bucket : string) (window : udpRateWindow) (l : MemoryUDPRateLimiter) : MemoryUDPRateLimiter :=
  let h := Push expiry_less (expiry_of (ml_limit l) bucket window) (ml_expirations l) in
  let h := if (4 * size (ml_windows l) + 64 <? length h)%nat then rebuild range (ml_limit l) (ml_windows l) else h in
  with_windows (ml_windows l) h l.

(** The write of the window of a bucket, with its version and its expiry. *)
Definition storeWindow (range : Range) (version : Z) (bucket : string) (window : udpRateWindow) (l : MemoryUDPRateLimiter) :
    MemoryUDPRateLimiter :=
  let window := mkRateWindow (uw_startedAt window) (uw_lastSeen window) (uw_count window) version in
  pushExpiryLocked range bucket window
    (mkRateLimiter (ml_limit l) (ml_maxBuckets l) (<[bucket := window]> (ml_windows l)) (ml_expirations l) version).

(** The window of a call: the old one, or a new one that starts now. *)
Definition currentWindow (limit : UDPRateLimit) (now : time) (window : udpRateWindow) : udpRateWindow :=
  let window :=
    if IsZero (uw_startedAt window) || negb (Before now (uw_startedAt window + ul_Window limit))
    then mkRateWindow now 0 0 0 else window in
  if negb (After (uw_lastSeen window) now) then mkRateWindow (uw_startedAt window) now (uw_count window) (uw_version window)
  else window.

Definition zeroWindow : udpRateWindow := mkRateWindow 0 0 0 0.

Definition AllowUDPRoundTrip (range : Range) (wall now : time) (key : UDPRateLimitKey) (l : MemoryUDPRateLimiter) :
    MemoryUDPRateLimiter * bool :=
  let now := or_wall wall now in
  let bucket := udpRateBucketKey key in
  let l := pruneLocked now l in
  let window := ml_windows l !! bucket in
  if negb (bool_decide (is_Some window)) && (ml_maxBuckets l <=? size (ml_windows l))%nat then (l, false)
  else
    let window := currentWindow (ml_limit l) now (default zeroWindow window) in
    match nextUDPWindowVersion (ml_nextVersion l) with
    | None => (l, false)
    | Some version =>
       if ul_MaxRoundTrips (ml_limit l) <=? uw_count window then (storeWindow range version bucket window l, false)
       else
         let window := mkRateWindow (uw_startedAt window) (uw_lastSeen window) (uw_count window + 1) (uw_version window) in
         (storeWindow range version bucket window l, true)
    end.

(** ** The reference: a limiter without a heap *)

(** The windows without versions, and the number of calls that stored one. *)
Record RateSpec := mkRateSpec {
  rt_windows : gmap string (time * time * Z);
  rt_stored : Z;
}.

(** A window forgets itself two lengths after it was last seen. *)
Definition spec_live (limit : UDPRateLimit) (now : time) (window : time * time * Z) : bool :=
  now <=? window.1.2 + wrap_int64 (2 * ul_Window limit).

Definition spec_prune (limit : UDPRateLimit) (now : time) (windows : gmap string (time * time * Z)) : gmap string (time * time * Z) :=
  filter (λ kw, spec_live limit now kw.2 = true) windows.

Definition spec_current (limit : UDPRateLimit) (now : time) (window : option (time * time * Z)) : time * time * Z :=
  match window with
  | Some (started, seen, count) =>
     if (started =? 0) || (started + ul_Window limit <=? now) then (now, Z.max now 0, 0) else (started, Z.max seen now, count)
  | None => (now, Z.max now 0, 0)
  end.

Definition spec_allow (limit : UDPRateLimit) (maxBuckets : nat) (now : time) (bucket : string) (s : RateSpec) : RateSpec * bool :=
  let windows := spec_prune limit now (rt_windows s) in
  if (bool_decide (windows !! bucket = None) && (maxBuckets <=? size windows)%nat) || (rt_stored s =? uint64_max)
  then (mkRateSpec windows (rt_stored s), false)
  else
    let '(started, seen, count) := spec_current limit now (windows !! bucket) in
    let allowed := count <? ul_MaxRoundTrips limit in
    (mkRateSpec (<[bucket := (started, seen, if allowed then count + 1 else count)]> windows) (rt_stored s + 1), allowed).

(** ** Runs *)

Record RateCall := mkRateCall {
  rc_range : Range;
  rc_wall : time;
  rc_now : time;
  rc_key : UDPRateLimitKey;
}.

Definition call_time (c : RateCall) : time := or_wall (rc_wall c) (rc_now c).
Definition call_bucket (c : RateCall) : string := udpRateBucketKey (rc_key c).

Fixpoint limiter_run (calls : list RateCall) (l : MemoryUDPRateLimiter) : MemoryUDPRateLimiter * list bool :=
  match calls with
  | [] => (l, [])
  | c :: calls =>
     let '(l, allowed) := AllowUDPRoundTrip (rc_range c) (rc_wall c) (rc_now c) (rc_key c) l in
     let '(l, answers) := limiter_run calls l in (l, allowed :: answers)
  end.

Fixpoint spec_run (limit : UDPRateLimit) (maxBuckets : nat) (calls : list RateCall) (s : RateSpec) : RateSpec * list bool :=
  match calls with
  | [] => (s, [])
  | c :: calls =>
     let '(s, allowed) := spec_allow limit maxBuckets (call_time c) (call_bucket c) s in
     let '(s, answers) := spec_run limit maxBuckets calls s in (s, allowed :: answers)
  end.
