(* ===== verification/UdpLimiterProps.v ===== *)
(** * The limiter of UDP round trips is a limiter without a heap, and limits *)

From S2P Require Import Prelude GoLib SessionCtx NetIP Connectivity UdpLimiter.

Open Scope Z_scope.

(** ** The order of the heap *)

Definition expiry_key (e : udpRateExpiry) : Z * (Z * string) := (ue_expiresAt e, (ue_version e, ue_bucket e)).

Definition expiry_le (x y : udpRateExpiry) : Prop := lex Z.le (lex Z.le String.le) (expiry_key x) (expiry_key y).

Lemma expiry_less_spec x y : expiry_less y x = false ↔ expiry_le x y.
Proof.
  unfold expiry_less, expiry_le, expiry_key, lex, Before. cbn [fst snd].
  destruct (Z.eqb_spec (ue_expiresAt y) (ue_expiresAt x)) as [E|E]; [|rewrite Z.ltb_ge; split; [split; [done|lia]|by intros [? _]]].
  rewrite E. destruct (Z.eqb_spec (ue_version y) (ue_version x)) as [V|V].
  - rewrite V, negb_false_iff, bool_decide_eq_true. split.
    + intros H. split; [lia|]. intros _. split; [lia|done].
    + intros [_ H]. destruct (H eq_refl) as [_ H']. by apply H'.
  - rewrite Z.ltb_ge. split.
    + intros H. split; [lia|]. intros _. split; [done|lia].
    + intros [_ H]. by destruct (H eq_refl) as [H' _].
Qed.

Lemma expiry_less_trans x y z : expiry_less y x = false → expiry_less z y = false → expiry_less z x = false.
Proof. rewrite !expiry_less_spec. unfold expiry_le. by etrans. Qed.

Lemma expiry_less_total x y : expiry_less x y = true → expiry_less y x = false.
Proof.
  rewrite expiry_less_spec. intros H. destruct (total (lex Z.le (lex Z.le String.le)) (expiry_key x) (expiry_key y)) as [|Hyx]; [done|].
  apply expiry_less_spec in Hyx. congruence.
Qed.

Lemma expiry_le_time x y : expiry_less y x = false → ue_expiresAt x ≤ ue_expiresAt y.
Proof. rewrite expiry_less_spec. by intros [? _]. Qed.

Notation expiry_heap := (heap_order expiry_less).

(** ** The invariant *)

(** A window has its entry, and no entry of its version says otherwise. *)
Record entries_ok (limit : UDPRateLimit) (windows : gmap string udpRateWindow) (h : list udpRateExpiry) : Prop := {
  en_heap : expiry_heap h;
  en_entry : ∀ bucket window, windows !! bucket = Some window → expiry_of limit bucket window ∈ h;
  en_exact : ∀ e window, e ∈ h → windows !! ue_bucket e = Some window → uw_version window = ue_version e →
    e = expiry_of limit (ue_bucket e) window;
}.

Record limiter_ok (l : MemoryUDPRateLimiter) : Prop := {
  lo_entries : entries_ok (ml_limit l) (ml_windows l) (ml_expirations l);
  lo_versions : ∀ e, e ∈ ml_expirations l → ue_version e ≤ ml_nextVersion l;
  lo_next : 0 ≤ ml_nextVersion l ≤ uint64_max;
  lo_buckets : (size (ml_windows l) ≤ ml_maxBuckets l)%nat;
  lo_heap : (length (ml_expirations l) ≤ 4 * ml_maxBuckets l + 64)%nat;
}.

Definition live (limit : UDPRateLimit) (now : time) (window : udpRateWindow) : Prop := now ≤ window_expiry limit window.

#[local] Instance live_dec limit now window : Decision (live limit now window).
Proof. unfold live. apply _. Defined.

Definition live_windows (limit : UDPRateLimit) (now : time) (windows : gmap string udpRateWindow) : gmap string udpRateWindow :=
  filter (λ kw, live limit now kw.2) windows.

Lemma forget_spec limit now windows h e rest : entries_ok limit windows h → h ≡ₚ e :: rest → expiry_heap rest → ue_expiresAt e < now →
  entries_ok limit (forget e windows) rest ∧ live_windows limit now (forget e windows) = live_windows limit now windows.
Proof.
  intros [_ Hentry Hexact] Hh Hrest Hnow. unfold forget. destruct (windows !! ue_bucket e) as [w|] eqn:Hw.
  - destruct (Z.eqb_spec (uw_version w) (ue_version e)) as [Hv|Hv].
    + assert (e = expiry_of limit (ue_bucket e) w) as He by (apply Hexact; [rewrite Hh; left|done..]).
      split; [split; [done| |]|].
      * intros b w' [Hne Hb]%lookup_delete_Some. apply Hentry in Hb. rewrite Hh in Hb. apply elem_of_cons in Hb as [<-|Hb]; [by destruct Hne|done].
      * intros e' w' He' [_ Hb]%lookup_delete_Some. apply Hexact; [rewrite Hh; by right|done].
      * unfold live_windows. apply map_eq. intros b. destruct (decide (b = ue_bucket e)) as [->|Hne].
        -- rewrite map_lookup_filter_None_2 by (left; apply lookup_delete_eq). symmetry. apply map_lookup_filter_None_2. right.
           intros w' Hw'. rewrite Hw in Hw'. injection Hw' as <-. unfold live. cbn [snd].
           assert (ue_expiresAt e = window_expiry limit w) by (by rewrite He). lia.
        -- rewrite !map_lookup_filter. by rewrite lookup_delete_ne.
    + split; [|done]. split; [done| |].
      * intros b w' Hb. apply Hentry in Hb as Hin. rewrite Hh in Hin. apply elem_of_cons in Hin as [<-|Hin]; [|done].
        cbn in Hw. rewrite Hb in Hw. injection Hw as ->. by destruct Hv.
      * intros e' w' He'. apply Hexact. rewrite Hh. by right.
  - split; [|done]. split; [done| |].
    + intros b w' Hb. apply Hentry in Hb as Hin. rewrite Hh in Hin. apply elem_of_cons in Hin as [<-|Hin]; [|done].
      cbn in Hw. congruence.
    + intros e' w' He'. apply Hexact. rewrite Hh. by right.
Qed.

(** Pruning leaves exactly the windows that are still live. *)
Lemma prune_loop_spec limit now fuel windows h : (length h ≤ fuel)%nat → entries_ok limit windows h →
  let '(windows', h') := prune_loop fuel now windows h in
  windows' = live_windows limit now windows ∧ entries_ok limit windows' h' ∧ (∀ e, e ∈ h' → e ∈ h) ∧ (length h' ≤ length h)%nat.
Proof.
  revert windows h. induction fuel as [|fuel IH]; intros windows h Hf Hok; cbn [prune_loop].
  { destruct h; [|cbn in Hf; lia]. split_and!; try done. symmetry. apply map_filter_id. intros b w Hb. apply (en_entry _ _ _ Hok) in Hb. set_solver. }
  destruct (head h) as [first|] eqn:Hhd.
  2: { destruct h; [|done]. split_and!; try done. symmetry. apply map_filter_id. intros b w Hb. apply (en_entry _ _ _ Hok) in Hb. set_solver. }
  unfold Before. destruct (Z.ltb_spec (ue_expiresAt first) now) as [Hlt|Hge].
  - destruct (Pop_spec expiry_less expiry_less_trans expiry_less_total h first (en_heap _ _ _ Hok) Hhd) as (rest & -> & Hperm & Hheap).
    destruct (forget_spec limit now windows h first rest Hok Hperm Hheap Hlt) as [Hok' Hlive].
    specialize (IH (forget first windows) rest). rewrite Hlive in IH. apply Permutation_length in Hperm as Hlen. cbn [length] in Hlen.
    destruct (prune_loop fuel now _ rest) as [windows' h']. destruct IH as (Hw & He & Hin & Hle); [lia|done|].
    split_and!; [done..| |lia]. intros e He'. rewrite Hperm. right. by apply Hin.
  - split_and!; [|done..]. symmetry. apply map_filter_id. intros b w Hb. apply (en_entry _ _ _ Hok) in Hb. unfold live. cbn [snd].
    assert (expiry_less (expiry_of limit b w) first = false) as Hle.
    { eapply heap_head; [apply expiry_less_trans|apply expiry_less_total|apply (en_heap _ _ _ Hok)|done..]. }
    apply expiry_le_time in Hle. cbn [expiry_of ue_expiresAt] in Hle. lia.
Qed.

Lemma live_windows_size limit now windows : (size (live_windows limit now windows) ≤ size windows)%nat.
Proof. apply map_subseteq_size, map_filter_subseteq. Qed.

Lemma pruneLocked_spec now l : limiter_ok l →
  limiter_ok (pruneLocked now l) ∧ ml_windows (pruneLocked now l) = live_windows (ml_limit l) now (ml_windows l) ∧
  ml_limit (pruneLocked now l) = ml_limit l ∧ ml_maxBuckets (pruneLocked now l) = ml_maxBuckets l ∧
  ml_nextVersion (pruneLocked now l) = ml_nextVersion l.
Proof.
  intros [Hen Hver Hnext Hsize Hheap]. unfold pruneLocked.
  pose proof (prune_loop_spec (ml_limit l) now (length (ml_expirations l)) (ml_windows l) (ml_expirations l) ltac:(lia) Hen) as H.
  destruct (prune_loop _ _ _ _) as [windows' h']. destruct H as (Hw & Hen' & Hin & Hle).
  split_and!; try done. split; cbn [with_windows ml_limit ml_windows ml_expirations ml_nextVersion ml_maxBuckets]; try done.
  - intros e He. by apply Hver, Hin.
  - rewrite Hw. pose proof (live_windows_size (ml_limit l) now (ml_windows l)). lia.
  - lia.
Qed.

(** What the order of a [range] may be. *)
Definition range_ok (range : Range) : Prop := ∀ windows, range windows ≡ₚ map_to_list windows.

Lemma rebuild_spec range limit windows : range_ok range →
  (∀ e, e ∈ rebuild range limit windows ↔ ∃ bucket window, windows !! bucket = Some window ∧ e = expiry_of limit bucket window) ∧
  length (rebuild range limit windows) = size windows ∧ expiry_heap (rebuild range limit windows).
Proof.
  intros Hr. unfold rebuild. split_and!.
  - intros e. rewrite Init_Permutation, (Hr windows), list_elem_of_fmap. split.
    + intros ([b w] & -> & Hb%elem_of_map_to_list). eauto.
    + intros (b & w & Hb & ->). exists (b, w). split; [done|]. by apply elem_of_map_to_list.
  - pose proof (Init_Permutation expiry_less (map (λ '(bucket, window), expiry_of limit bucket window) (range windows))) as H%Permutation_length.
    rewrite H, length_map, (Permutation_length (Hr windows)). apply length_map_to_list.
  - apply Init_heap; [apply expiry_less_trans|apply expiry_less_total].
Qed.

(** Storing a window keeps the invariant: its version is new. *)
Lemma storeWindow_spec range bucket window l : range_ok range → limiter_ok l → ml_nextVersion l < uint64_max →
  (is_Some (ml_windows l !! bucket) ∨ (size (ml_windows l) < ml_maxBuckets l)%nat) →
  limiter_ok (storeWindow range (ml_nextVersion l + 1) bucket window l).
Proof.
  intros Hr [[Hh Hentry Hexact] Hver Hnext Hsize _] Hmax Hroom. unfold storeWindow, pushExpiryLocked.
  cbn [ml_limit ml_maxBuckets ml_windows ml_expirations ml_nextVersion].
  set (w := mkRateWindow _ _ _ _). set (ws := <[bucket := w]> (ml_windows l)). set (e := expiry_of (ml_limit l) bucket w).
  assert (size ws ≤ ml_maxBuckets l)%nat as Hsize'.
  { unfold ws. destruct (ml_windows l !! bucket) as [w'|] eqn:Hw.
    - rewrite map_size_insert_Some by done. done.
    - rewrite map_size_insert_None by done. destruct Hroom as [[? ?]|]; [done|lia]. }
  destruct (Nat.ltb_spec (4 * size ws + 64) (length (Push expiry_less e (ml_expirations l)))) as [Hlong|Hshort].
  - destruct (rebuild_spec range (ml_limit l) ws Hr) as (Hin & Hlen & Hheap).
    split; cbn [with_windows ml_limit ml_maxBuckets ml_windows ml_expirations ml_nextVersion]; [split; [done| |]| | | |]; try lia.
    + intros b w' Hb. apply Hin. eauto.
    + intros e' w' (b & w'' & Hb & ->)%Hin Hw' _. cbn [expiry_of ue_bucket] in *. congruence.
    + intros e' (b & w' & Hb & ->)%Hin. cbn [expiry_of ue_version]. unfold ws in Hb. apply lookup_insert_Some in Hb as [[_ <-]|[_ Hb]]; [cbn; lia|].
      apply Hentry, Hver in Hb. cbn [expiry_of ue_version] in Hb. lia.
  - assert (∀ e', e' ∈ Push expiry_less e (ml_expirations l) ↔ e' = e ∨ e' ∈ ml_expirations l) as Hin.
    { intros e'. rewrite Push_Permutation. apply elem_of_cons. }
    split; cbn [with_windows ml_limit ml_maxBuckets ml_windows ml_expirations ml_nextVersion]; [split| | | |]; try lia.
    + apply Push_heap; [apply expiry_less_trans|apply expiry_less_total|done].
    + intros b w' Hb. apply Hin. unfold ws in Hb. apply lookup_insert_Some in Hb as [[<- <-]|[_ Hb]]; [by left|right; by apply Hentry].
    + intros e' w' [->|He']%Hin Hb Hv; [cbn [e expiry_of ue_bucket] in *; unfold ws in Hb; rewrite lookup_insert_eq in Hb; by injection Hb as <-|].
      unfold ws in Hb. apply lookup_insert_Some in Hb as [[_ <-]|[_ Hb]]; [|by apply Hexact].
      apply Hver in He'. cbn [w uw_version] in Hv. lia.
    + intros e' [->|He']%Hin; [cbn; lia|]. apply Hver in He'. lia.
Qed.

(** ** The simulation *)

Definition abs_window (w : udpRateWindow) : time * time * Z := (uw_startedAt w, uw_lastSeen w, uw_count w).

Record simulates (l : MemoryUDPRateLimiter) (s : RateSpec) : Prop := {
  sm_ok : limiter_ok l;
  sm_windows : rt_windows s = abs_window <$> ml_windows l;
  sm_stored : rt_stored s = ml_nextVersion l;
}.

Lemma abs_prune limit now windows : spec_prune limit now (abs_window <$> windows) = abs_window <$> live_windows limit now windows.
Proof.
  unfold spec_prune, live_windows. rewrite map_filter_fmap. f_equal. apply map_filter_ext. intros b w _. cbn [snd].
  unfold spec_live, live, window_expiry, abs_window. cbn [fst snd]. by rewrite Z.leb_le.
Qed.

Lemma abs_current limit now (window : option udpRateWindow) :
  abs_window (currentWindow limit now (default zeroWindow window)) = spec_current limit now (abs_window <$> window).
Proof.
  unfold currentWindow, spec_current, IsZero, Before, After. destruct window as [w|]; cbn [from_option fmap option_fmap option_map id].
  - unfold abs_window at 2. rewrite <- (Z.leb_antisym now (uw_startedAt w + _)).
    destruct (_ || _); cbn [uw_lastSeen uw_startedAt uw_count uw_version]; [destruct (Z.ltb_spec now 0)|destruct (Z.ltb_spec now (uw_lastSeen w))];
      cbn [negb]; unfold abs_window; cbn [uw_lastSeen uw_startedAt uw_count uw_version]; do 2 f_equal; lia.
  - cbn [zeroWindow uw_startedAt uw_lastSeen uw_count uw_version orb Z.eqb]. destruct (Z.ltb_spec now 0);
      cbn [negb]; unfold abs_window; cbn [uw_lastSeen uw_startedAt uw_count uw_version]; do 2 f_equal; lia.
Qed.

Lemma allow_simulates range wall now key l s : range_ok range → simulates l s →
  let '(l', allowed) := AllowUDPRoundTrip range wall now key l in
  let '(s', allowed') := spec_allow (ml_limit l) (ml_maxBuckets l) (or_wall wall now) (udpRateBucketKey key) s in
  allowed = allowed' ∧ simulates l' s' ∧ ml_limit l' = ml_limit l ∧ ml_maxBuckets l' = ml_maxBuckets l.
Proof.
  intros Hr [Hok Hw Hs]. unfold AllowUDPRoundTrip, spec_allow. set (t := or_wall wall now). set (bucket := udpRateBucketKey key).
  destruct (pruneLocked_spec t l Hok) as (Hok1 & Hw1 & Hl1 & Hb1 & Hn1). set (l1 := pruneLocked t l) in *.
  rewrite Hw, abs_prune, <- Hw1, lookup_fmap, map_size_fmap, Hs, <- Hn1, Hb1.
  assert (bool_decide (abs_window <$> ml_windows l1 !! bucket = None) = negb (bool_decide (is_Some (ml_windows l1 !! bucket)))) as ->.
  { destruct (ml_windows l1 !! bucket); [by rewrite bool_decide_eq_false_2, bool_decide_eq_true_2|].
    rewrite bool_decide_eq_true_2, bool_decide_eq_false_2; [done|by intros [? ?]|done]. }
  destruct (negb _ && _) eqn:Hfull; cbn [orb]; [by split_and!|].
  unfold nextUDPWindowVersion. destruct (Z.eqb_spec (ml_nextVersion l1) uint64_max) as [Hmax|Hmax]; [by split_and!|].
  assert (is_Some (ml_windows l1 !! bucket) ∨ (size (ml_windows l1) < ml_maxBuckets l1)%nat) as Hroom.
  { apply andb_false_iff in Hfull as [Hf|Hf]; [left; by apply negb_false_iff, bool_decide_eq_true in Hf|right; rewrite Hb1; by apply Nat.leb_gt in Hf]. }
  assert (ml_nextVersion l1 < uint64_max) as Hlt by (pose proof (lo_next _ Hok1); lia).
  rewrite <- Hl1. pose proof (abs_current (ml_limit l1) t (ml_windows l1 !! bucket)) as Hcur.
  set (w := currentWindow _ _ _) in *. rewrite <- Hcur. unfold abs_window at 1. rewrite Z.leb_antisym.
  destruct (uw_count w <? ul_MaxRoundTrips (ml_limit l1)); cbn [negb]; (split; [done|]; split; [|by split]); split.
  all: try (by apply storeWindow_spec); try done.
  all: cbn [rt_windows storeWindow pushExpiryLocked with_windows ml_windows]; rewrite fmap_insert; done.
Qed.

Lemma run_simulates calls l s : (∀ c, c ∈ calls → range_ok (rc_range c)) → simulates l s →
  let '(l', answers) := limiter_run calls l in
  let '(s', answers') := spec_run (ml_limit l) (ml_maxBuckets l) calls s in
  answers = answers' ∧ simulates l' s' ∧ ml_maxBuckets l' = ml_maxBuckets l.
Proof.
  revert l s. induction calls as [|c calls IH]; intros l s Hr Hsim; [done|]. cbn [limiter_run spec_run].
  pose proof (allow_simulates (rc_range c) (rc_wall c) (rc_now c) (rc_key c) l s (Hr c ltac:(left)) Hsim) as H.
  unfold call_time, call_bucket. destruct (AllowUDPRoundTrip _ _ _ _ l) as [l1 allowed], (spec_allow _ _ _ _ s) as [s1 allowed'].
  destruct H as (<- & Hsim1 & Hl & Hb). specialize (IH l1 s1 (λ c' Hc', Hr c' ltac:(by right)) Hsim1). rewrite Hl, Hb in IH.
  destruct (limiter_run calls l1) as [l2 answers], (spec_run _ _ calls s1) as [s2 answers']. destruct IH as (<- & ? & ?).
  by split_and!.
Qed.

Lemma new_simulates limit : simulates (NewMemoryUDPRateLimiter limit) (mkRateSpec ∅ 0).
Proof.
  split; [|symmetry; apply fmap_empty|done]. split; cbn [NewMemoryUDPRateLimiter ml_limit ml_windows ml_expirations ml_nextVersion ml_maxBuckets length].
  - split; [intros j Hj; cbn in Hj; lia|done|set_solver].
  - set_solver.
  - done.
  - rewrite map_size_empty. lia.
  - lia.
Qed.

(** ** The rate *)

Definition count {A} (f : A → bool) (l : list A) : nat := length (List.filter f l).

Lemma count_app {A} (f : A → bool) l k : count f (l ++ k) = (count f l + count f k)%nat.
Proof. unfold count. by rewrite List.filter_app, length_app. Qed.

Lemma count_split {A} (f g h : A → bool) l : (∀ t, t ∈ l → f t = true → g t = true ∨ h t = true) → (count f l ≤ count g l + count h l)%nat.
Proof.
  unfold count. induction l as [|t l IH]; intros H; [done|]. cbn. specialize (IH (λ t' Ht', H t' ltac:(by right))).
  specialize (H t ltac:(left)). destruct (f t), (g t), (h t); cbn; lia.
Qed.

Lemma count_mono {A} (f g : A → bool) l : (∀ t, t ∈ l → f t = true → g t = true) → (count f l ≤ count g l)%nat.
Proof.
  intros H. pose proof (count_split f g (λ _, false) l (λ t Ht Hf, or_introl (H t Ht Hf))) as Hs.
  assert (count (λ _ : A, false) l = 0%nat) as E; [|lia]. unfold count. clear. by induction l.
Qed.

Lemma count_none {A} (f : A → bool) l : (∀ t, t ∈ l → f t = true → False) → count f l = 0%nat.
Proof.
  unfold count. induction l as [|t l IH]; intros H; [done|]. cbn. specialize (IH (λ t' Ht', H t' ltac:(by right))).
  specialize (H t ltac:(left)). destruct (f t); [by destruct H|done].
Qed.

Section rate.
Context (limit : UDPRateLimit) (maxBuckets : nat) (bucket : string).
Notation W := (ul_Window limit).
Notation Max := (Z.to_nat (ul_MaxRoundTrips limit)).
Context (HW : 0 < W) (HWmax : 2 * W ≤ max_int64) (HMax : 0 < ul_MaxRoundTrips limit).

Definition within (lo hi t : Z) : bool := (lo <=? t) && (t <? hi).
Definition since (lo t : Z) : bool := lo <=? t.

(** What the window of the bucket says of the times [tr] of its round trips up to [T]. *)
Definition window_says (T : time) (tr : list time) (window : option (time * time * Z)) : Prop :=
  match window with
  | None => ∀ t, t ∈ tr → t + W < T
  | Some (started, seen, c) =>
     0 < started ≤ seen ∧ seen ≤ T ∧ (∀ t, t ∈ tr → t ≤ seen ∧ t < started + W) ∧
     0 ≤ c ≤ ul_MaxRoundTrips limit ∧ Z.of_nat (count (since started) tr) ≤ c ∧ (count (within (started - W) started) tr ≤ Max)%nat
  end.

Record rate_ok (T : time) (s : RateSpec) (tr : list time) : Prop := {
  ro_rate : ∀ lo, (count (within lo (lo + W)) tr ≤ 2 * Max)%nat;
  ro_window : window_says T tr (rt_windows s !! bucket);
}.

Lemma wrap_window : wrap_int64 (2 * W) = 2 * W.
Proof. unfold wrap_int64, max_int64 in *. rewrite Z.mod_small by lia. lia. Qed.

(** Pruning and the passing of time. *)
Lemma window_says_prune T now s tr : T ≤ now → window_says T tr (rt_windows s !! bucket) →
  window_says now tr (spec_prune limit now (rt_windows s) !! bucket).
Proof.
  intros HT H. unfold spec_prune. rewrite map_lookup_filter. destruct (rt_windows s !! bucket) as [[[started seen] c]|]; cbn [mbind option_bind].
  - cbn [snd]. unfold spec_live. cbn [fst snd]. destruct H as (? & ? & Ht & ?). unfold guard. case_decide as Hlive.
    + cbn. split_and!; try done; try lia.
    + cbn. intros t Hin. apply Ht in Hin as [Hin _]. rewrite wrap_window, Z.leb_le in Hlive. lia.
  - cbn in *. intros t Ht. apply H in Ht. lia.
Qed.

Lemma count_one lo hi now : count (within lo hi) [now] = if decide (lo ≤ now < hi) then 1%nat else 0%nat.
Proof.
  unfold count, within. cbn. case_decide as Hin.
  - rewrite (proj2 (Z.leb_le _ _)), (proj2 (Z.ltb_lt _ _)) by lia. done.
  - destruct (Z.leb_spec lo now), (Z.ltb_spec now hi); cbn; try done. lia.
Qed.

Lemma count_since_one lo now : lo ≤ now → count (since lo) [now] = 1%nat.
Proof. intros H. unfold count, since. cbn. by rewrite (proj2 (Z.leb_le lo now)). Qed.

(** A round trip that opens a window: those of the last length are at most [Max]. *)
Lemma window_says_new now tr : 0 < now → (∀ lo, (count (within lo (lo + W)) tr ≤ 2 * Max)%nat) →
  (count (within (now - W) now) tr ≤ Max)%nat → (∀ t, t ∈ tr → t < now) →
  (∀ lo, (count (within lo (lo + W)) (tr ++ [now]) ≤ 2 * Max)%nat) ∧ window_says now (tr ++ [now]) (Some (now, now, 0 + 1)).
Proof.
  intros Hnow Hrate Hn Hlt. split.
  - intros lo. rewrite count_app, count_one. case_decide as Hin; [|specialize (Hrate lo); lia].
    assert (count (within lo (lo + W)) tr ≤ count (within (now - W) now) tr)%nat; [|lia].
    apply count_mono. intros t Ht. specialize (Hlt t Ht). unfold within. rewrite !andb_true_iff, !Z.leb_le, !Z.ltb_lt. lia.
  - cbn. split_and!; try lia.
    + intros t [Ht|Ht%list_elem_of_singleton]%elem_of_app; [|lia]. specialize (Hlt t Ht). lia.
    + assert (count (since now) tr = 0%nat) as E; [|rewrite count_app, E, count_since_one by lia; lia].
      apply count_none. intros t Ht. specialize (Hlt t Ht). unfold since. rewrite Z.leb_le. lia.
    + rewrite count_app, count_one, decide_False by lia. lia.
Qed.

(** A round trip at [now], when the window, old or new, has room. *)
Lemma window_says_allow now tr window started seen c : 0 < now → (∀ lo, (count (within lo (lo + W)) tr ≤ 2 * Max)%nat) →
  window_says now tr window → spec_current limit now window = (started, seen, c) →
  (c < ul_MaxRoundTrips limit →
    (∀ lo, (count (within lo (lo + W)) (tr ++ [now]) ≤ 2 * Max)%nat) ∧ window_says now (tr ++ [now]) (Some (started, seen, c + 1))) ∧
  (ul_MaxRoundTrips limit ≤ c → window_says now tr (Some (started, seen, c))).
Proof.
  intros Hnow Hrate H. unfold spec_current. destruct window as [[[s0 seen0] c0]|].
  - destruct H as (Hs0 & Hseen & Ht & Hc & Hsince & Hprev). rewrite (proj2 (Z.eqb_neq s0 0)) by lia. cbn [orb].
    destruct (Z.leb_spec (s0 + W) now) as [Hover|Hin]; intros [= <- <- <-].
    + rewrite Z.max_l by lia. split; [|lia]. intros _. apply window_says_new; [done..| |].
      * assert (count (within (now - W) now) tr ≤ count (since s0) tr)%nat; [|lia].
        apply count_mono. intros t _. unfold within, since. rewrite andb_true_iff, !Z.leb_le, Z.ltb_lt. lia.
      * intros t Hin. apply Ht in Hin. lia.
    + rewrite Z.max_r by lia. split; [intros Hroom; split|].
      * intros lo. rewrite count_app, count_one. case_decide as Hlo; [|specialize (Hrate lo); lia].
        assert (count (within lo (lo + W)) tr ≤ count (within (s0 - W) s0) tr + count (since s0) tr)%nat; [|lia].
        apply count_split. intros t _. unfold within, since. rewrite !andb_true_iff, !Z.leb_le, !Z.ltb_lt. lia.
      * cbn. split_and!; try lia.
        -- intros t [Hin'|Hin'%list_elem_of_singleton]%elem_of_app; [apply Ht in Hin'|]; lia.
        -- rewrite count_app, count_since_one by lia. lia.
        -- rewrite count_app, count_one, decide_False by lia. lia.
      * intros Hfull. cbn. split_and!; try lia. intros t Hin'. apply Ht in Hin'. lia.
  - intros [= <- <- <-]. rewrite Z.max_l by lia. split; [|lia]. intros _. cbn in H. apply window_says_new; [done..| |].
    + rewrite count_none; [lia|]. intros t Hin. apply H in Hin. unfold within. rewrite andb_true_iff, Z.leb_le, Z.ltb_lt. lia.
    + intros t Hin. apply H in Hin. lia.
Qed.

(** The time of the call is added when it is one of the bucket and allowed. *)
Definition trace_after (tr : list time) (now : time) (b : string) (allowed : bool) : list time :=
  if allowed && bool_decide (b = bucket) then tr ++ [now] else tr.

Lemma rate_ok_step T now b s tr : T ≤ now → 0 < now → rate_ok T s tr →
  let '(s', allowed) := spec_allow limit maxBuckets now b s in rate_ok now s' (trace_after tr now b allowed).
Proof.
  intros HT Hnow [Hrate Hwin]. apply (window_says_prune T now) in Hwin; [|done]. unfold spec_allow.
  set (windows := spec_prune _ _ _) in *. destruct (_ || _); [done|].
  destruct (spec_current limit now (windows !! b)) as [[started seen] c] eqn:Hcur. unfold trace_after. case_bool_decide as Hb.
  - subst b. rewrite andb_true_r. destruct (window_says_allow now tr (windows !! bucket) started seen c Hnow Hrate Hwin Hcur) as [Hyes Hno].
    destruct (Z.ltb_spec c (ul_MaxRoundTrips limit)) as [Hlt|Hge]; split; cbn [rt_windows]; rewrite ?lookup_insert_eq.
    + by apply Hyes.
    + by apply Hyes.
    + done.
    + by apply Hno.
  - rewrite andb_false_r. split; [done|]. cbn [rt_windows]. by rewrite lookup_insert_ne.
Qed.

(** The times of the round trips that were allowed for the bucket. *)
Definition allowed_times (calls : list RateCall) (answers : list bool) : list time :=
  map (λ p, call_time p.1) (List.filter (λ p, p.2 && bool_decide (call_bucket p.1 = bucket)) (zip calls answers)).

Lemma rate_ok_run calls T s tr : StronglySorted Z.le (T :: map call_time calls) → (∀ c, c ∈ calls → 0 < call_time c) → rate_ok T s tr →
  ∀ lo, (count (within lo (lo + W)) (tr ++ allowed_times calls (spec_run limit maxBuckets calls s).2) ≤ 2 * Max)%nat.
Proof.
  revert T s tr. induction calls as [|c calls IH]; intros T s tr Hs Hpos Hok lo.
  { cbn. rewrite app_nil_r. apply Hok. }
  cbn [map] in Hs. apply StronglySorted_inv in Hs as [Hs HT]. rewrite Forall_cons in HT. destruct HT as [HT _].
  pose proof (rate_ok_step T (call_time c) (call_bucket c) s tr HT (Hpos c ltac:(left)) Hok) as Hstep. cbn [spec_run].
  destruct (spec_allow _ _ _ _ s) as [s' allowed]. specialize (IH (call_time c) s' _ Hs (λ c' Hc', Hpos c' ltac:(by right)) Hstep lo).
  destruct (spec_run _ _ calls s') as [s'' answers]. cbn [snd] in *. revert IH. unfold trace_after, allowed_times. cbn [zip zip_with List.filter fst snd].
  destruct (allowed && _); cbn [map fst]; [by rewrite <- app_assoc|done].
Qed.
End rate.

(** ** The theorems *)

(** C29: The limiter answers every sequence of calls as a limiter without a
    heap, which forgets a bucket exactly when its expiry has passed, whatever
    the order in which the map is visited; it never keeps more than 65536
    buckets, nor more than four times as many entries of the heap and 64. *)
Theorem udp_limiter_refines limit calls : (∀ c, c ∈ calls → range_ok (rc_range c)) →
  let '(l, answers) := limiter_run calls (NewMemoryUDPRateLimiter limit) in
  let '(s, answers') := spec_run (normalizeUDPRateLimit limit) maxMemoryUDPRateLimitBuckets calls (mkRateSpec ∅ 0) in
  answers = answers' ∧ rt_windows s = abs_window <$> ml_windows l ∧
  (size (ml_windows l) ≤ maxMemoryUDPRateLimitBuckets)%nat ∧
  (length (ml_expirations l) ≤ 4 * maxMemoryUDPRateLimitBuckets + 64)%nat.
Proof.
  intros Hr. pose proof (run_simulates calls _ _ Hr (new_simulates limit)) as H.
  change (ml_limit (NewMemoryUDPRateLimiter limit)) with (normalizeUDPRateLimit limit) in H.
  change (ml_maxBuckets (NewMemoryUDPRateLimiter limit)) with maxMemoryUDPRateLimitBuckets in H.
  destruct (limiter_run _ _) as [l answers], (spec_run _ _ _ _) as [s answers']. destruct H as (Ha & [Hok Hw _] & Hb).
  split_and!; [done..| |]; rewrite <- Hb; apply Hok.
Qed.


(** ** Two round trips in a millisecond *)

Definition demo_key (grant : string) : UDPRateLimitKey :=
  mkRateKey "p1" "fp" "dns" grant (mkDestination TransportUDP "" "dns.example" 53).

Definition demo_call (grant : string) (now : time) : RateCall := mkRateCall map_to_list 7 now (demo_key grant).

(** The third call is refused, under another grant too; one millisecond after
    the first a new window starts. *)
Definition demo_calls : list RateCall :=
  [demo_call "g1" 1000; demo_call "g1" 2000; demo_call "g1" 2500; demo_call "g2" 3000; demo_call "g2" 1001000; demo_call "g2" 9000000].

Lemma demo_ranges : ∀ c, c ∈ demo_calls → range_ok (rc_range c) ∧ 0 < call_time c.
Proof. intros c Hc. repeat (apply elem_of_cons in Hc as [->|Hc]; [by split; [intros windows|vm_compute]|]). by apply elem_of_nil in Hc. Qed.

Lemma udp_limiter_refines_witness :
  (limiter_run demo_calls (NewMemoryUDPRateLimiter (mkRateLimit 2 1000000))).2 = [true; true; false; false; true; true] ∧
  (spec_run (mkRateLimit 2 1000000) maxMemoryUDPRateLimitBuckets demo_calls (mkRateSpec ∅ 0)).2 = [true; true; false; false; true; true].
Proof.
  assert ((limiter_run demo_calls (NewMemoryUDPRateLimiter (mkRateLimit 2 1000000))).2 = [true; true; false; false; true; true]) as Hl
    by (vm_compute; reflexivity).
  pose proof (udp_limiter_refines (mkRateLimit 2 1000000) demo_calls (λ c Hc, proj1 (demo_ranges c Hc))) as H.
  change (normalizeUDPRateLimit (mkRateLimit 2 1000000)) with (mkRateLimit 2 1000000) in H.
  destruct (limiter_run demo_calls (NewMemoryUDPRateLimiter (mkRateLimit 2 1000000))) as [l answers].
  destruct (spec_run (mkRateLimit 2 1000000) maxMemoryUDPRateLimitBuckets demo_calls (mkRateSpec ∅ 0)) as [s answers'].
  cbn [snd] in *. destruct H as [Ha _]. split; [exact Hl|]. rewrite <- Ha. exact Hl.
Defined.

