(* ===== verification/JsonNumbers.v ===== *)
(** * Number literals of JSON values ([internal/jsonvalue/jsonvalue.go])

    The check of a number literal and the comparison of its magnitude with the
    largest safe integer, which works on the digits. The reference is the
    decimal value of the literal, a mantissa and an exponent of ten. *)

From S2P Require Import Prelude GoLib Encoding Json JsonProps JsonText AuditDetails.

Open Scope Z_scope.

Definition skip_digits (s : bytes) : bytes := (span_digits s).2.

Definition is_exponent (c : Ascii.ascii) : bool := is_byte 101 c || is_byte 69 c.

Definition no_bytes (s : bytes) : bool := match s with [] => true | _ => false end.

(** The fraction: a dot and digits, if there are both. *)
Definition after_fraction (value : bytes) : bytes :=
  match value with
  | d :: e :: rest => if is_byte 46 d && digit e then skip_digits rest else value
  | _ => value
  end.

(** The exponent, up to the end. *)
Definition ends_with_exponent (value : bytes) : bool :=
  match value with
  | e :: g :: rest =>
     if is_exponent e then
       if is_byte 43 g || is_byte 45 g then
         match rest with [] => false | _ => no_bytes (skip_digits rest) end
       else no_bytes (skip_digits (g :: rest))
     else no_bytes value
  | _ => no_bytes value
  end.

(** What is left after the digits before the dot. *)
Definition after_integer (value : bytes) : option bytes :=
  match value with
  | [] => None
  | c :: rest => if is_byte 48 c then Some rest else if byte_in 49 57 c then Some (skip_digits rest) else None
  end.

Definition validJSONNumber (value : bytes) : bool :=
  match value with
  | [] => false
  | c :: rest =>
     let value := if is_byte 45 c then rest else value in
     match after_integer value with
     | None => false
     | Some value => ends_with_exponent (after_fraction value)
     end
  end.

(** The loop of [boundedDecimalExponent]; [text[index]-'0'] is a byte. *)
Definition exponent_limit : Z := maxEncodedBytes + 32.

Fixpoint exponent_loop (sign value : Z) (text : bytes) : Z :=
  match text with
  | [] => sign * value
  | c :: text =>
     let d := (zcode c - 48) mod 256 in
     if (exponent_limit - d) / 10 <? value then sign * exponent_limit
     else exponent_loop sign (value * 10 + d) text
  end.

Definition boundedDecimalExponent (text : bytes) : Z :=
  match text with
  | c :: rest =>
     if is_byte 45 c then exponent_loop (-1) 0 rest
     else if is_byte 43 c then exponent_loop 1 0 rest else exponent_loop 1 0 text
  | [] => 0
  end.

(** [strings.IndexAny] and [strings.IndexByte] with the slices around the index. *)
Fixpoint cut_at (p : Ascii.ascii → bool) (s : bytes) : bytes * option bytes :=
  match s with
  | [] => ([], None)
  | c :: s => if p c then ([], Some s) else let '(before, after) := cut_at p s in (c :: before, after)
  end.

Fixpoint leading_zeros (digits : bytes) : nat :=
  match digits with
  | c :: digits => if is_byte 48 c then S (leading_zeros digits) else 0%nat
  | [] => 0%nat
  end.

Definition safeDigits : bytes := text "9007199254740991".

(** The comparison of the significant digits with the safe ones; missing
    digits are zeros. *)
Fixpoint exceeds_digits (safe significant : bytes) : bool :=
  match safe with
  | [] => existsb (λ c, negb (is_byte 48 c)) significant
  | s :: safe =>
     let d := default (byte 48) (head significant) in
     if bool_decide (d = s) then exceeds_digits safe (tail significant) else zcode s <? zcode d
  end.

Definition numberExceedsSafeMagnitude (text : bytes) : bool :=
  match text with
  | [] => false
  | c :: rest =>
     let text := if is_byte 45 c then rest else text in
     let '(mantissa, after) := cut_at is_exponent text in
     let exponent := match after with Some after => boundedDecimalExponent after | None => 0 end in
     let integerDigits := match cut_at (is_byte 46) mantissa with (before, Some _) => length before | (_, None) => length mantissa end in
     let digits := List.filter (λ c, negb (is_byte 46 c)) mantissa in
     let leadingZeros := leading_zeros digits in
     if (leadingZeros =? length digits)%nat then false
     else
       let effectiveIntegerDigits := Z.of_nat integerDigits + exponent - Z.of_nat leadingZeros in
       if effectiveIntegerDigits =? Z.of_nat (length safeDigits) then exceeds_digits safeDigits (drop leadingZeros digits)
       else Z.of_nat (length safeDigits) <? effectiveIntegerDigits
  end.

(** ** The reference *)

Definition decimal (ds : bytes) : Z := foldl (λ n c, n * 10 + (zcode c - 48)) 0 ds.

Definition exponent_value (x : bytes) : Z :=
  match x with
  | c :: rest => if is_byte 45 c then - decimal rest else if is_byte 43 c then decimal rest else decimal x
  | [] => 0
  end.

(** A literal of the grammar denotes [m * 10 ^ e], up to the sign. *)
Definition number_value (s : bytes) : option (Z * Z) :=
  let '(_, s) := scan_sign s in
  '(int, s) ← scan_integer s;
  '(frac, s) ← scan_fraction s;
  '(exp, s) ← scan_exponent s;
  match s with
  | [] => Some (decimal (int ++ drop 1 frac), exponent_value (drop 1 exp) - Z.of_nat (length (drop 1 frac)))
  | _ => None
  end.

(** [bound < m * 10 ^ e] for any exponent. *)
Definition exceeds (bound m e : Z) : Prop := bound * 10 ^ Z.max 0 (- e) < m * 10 ^ Z.max 0 e.

(** ** Digits *)

Definition digits_only (s : bytes) : Prop := Forall (λ c, digit c = true) s.

Lemma digit_range c : digit c = true → 48 ≤ zcode c ≤ 57.
Proof. unfold digit. rewrite byte_in_zcode. lia. Qed.

Lemma zcode_inj c d : zcode c = zcode d → c = d.
Proof.
  unfold zcode. intros H. apply Nat2Z.inj in H. rewrite <- (Ascii.ascii_nat_embedding c), H. apply Ascii.ascii_nat_embedding.
Qed.

Lemma is_byte_code n c : is_byte n c = bool_decide (zcode c = Z.of_nat n).
Proof. unfold is_byte, zcode. apply bool_decide_ext. lia. Qed.

Lemma digit_not n c : digit c = true → (n < 48 ∨ 57 < n)%nat → is_byte n c = false.
Proof. intros H%digit_range Hn. rewrite is_byte_code. apply bool_decide_eq_false_2. lia. Qed.

Lemma decimal_acc ds n : foldl (λ n c, n * 10 + (zcode c - 48)) n ds = n * 10 ^ Z.of_nat (length ds) + decimal ds.
Proof.
  unfold decimal. revert n. induction ds as [|c ds IH]; intros n; cbn [foldl length]; [lia|].
  rewrite IH, (IH (0 * 10 + _)), Nat2Z.inj_succ, Z.pow_succ_r by lia. lia.
Qed.

Lemma decimal_cons c ds : decimal (c :: ds) = (zcode c - 48) * 10 ^ Z.of_nat (length ds) + decimal ds.
Proof. unfold decimal at 1. cbn [foldl]. rewrite decimal_acc. lia. Qed.

Lemma decimal_bounds ds : digits_only ds → 0 ≤ decimal ds < 10 ^ Z.of_nat (length ds).
Proof.
  induction 1 as [|c ds Hc%digit_range _ IH]; [done|]. rewrite decimal_cons. cbn [length]. rewrite Nat2Z.inj_succ, Z.pow_succ_r by lia. nia.
Qed.

Lemma decimal_zeros ds : digits_only ds → existsb (λ c, negb (is_byte 48 c)) ds = true ↔ 0 < decimal ds.
Proof.
  induction 1 as [|c ds Hc%digit_range Hds IH]; [done|]. rewrite decimal_cons. cbn [existsb]. pose proof (decimal_bounds ds Hds).
  rewrite orb_true_iff, IH, is_byte_code, negb_true_iff, bool_decide_eq_false.
  assert (0 < 10 ^ Z.of_nat (length ds)) by (apply Z.pow_pos_nonneg; lia). destruct (decide (zcode c = 48)) as [->|]; [lia|].
  split; [nia|]. left. done.
Qed.

(** The comparison digit by digit is the comparison of the values. *)
Lemma exceeds_digits_spec safe sig : digits_only safe → digits_only sig →
  exceeds_digits safe sig = true ↔ exceeds (decimal safe) (decimal sig) (Z.of_nat (length safe) - Z.of_nat (length sig)).
Proof.
  intros Hsafe. revert sig. unfold exceeds. induction Hsafe as [|s safe Hs%digit_range Hsafe IH]; intros sig Hsig.
  - cbn [exceeds_digits length]. rewrite decimal_zeros by done. replace (Z.max 0 (Z.of_nat 0 - Z.of_nat (length sig))) with 0 by lia.
    change (decimal []) with 0. lia.
  - cbn [exceeds_digits]. pose proof (decimal_bounds safe Hsafe) as Hb. destruct Hsig as [|c sig Hc%digit_range Hsig].
    + specialize (IH [] ltac:(constructor)). cbn [head default from_option id tail length] in *. change (decimal []) with 0 in *.
      rewrite Z.mul_0_l in *. rewrite decimal_cons.
      assert (0 < 10 ^ Z.max 0 (- (Z.of_nat (S (length safe)) - Z.of_nat 0))) by (apply Z.pow_pos_nonneg; lia).
      assert (0 < 10 ^ Z.max 0 (- (Z.of_nat (length safe) - Z.of_nat 0))) by (apply Z.pow_pos_nonneg; lia).
      assert (0 < 10 ^ Z.of_nat (length safe)) by (apply Z.pow_pos_nonneg; lia).
      change (zcode (byte 48)) with 48. case_bool_decide as Heq.
      * rewrite IH. subst s. change (zcode (byte 48)) with 48. nia.
      * rewrite Z.ltb_lt. nia.
    + specialize (IH sig Hsig). pose proof (decimal_bounds sig Hsig) as Hb'. cbn [head default from_option id tail length].
      rewrite !decimal_cons. set (k := Z.of_nat (length safe)) in *. set (n := Z.of_nat (length sig)) in *.
      replace (Z.of_nat (S (length safe)) - Z.of_nat (S (length sig))) with (k - n) by lia.
      assert (10 ^ k * 10 ^ Z.max 0 (- (k - n)) = 10 ^ n * 10 ^ Z.max 0 (k - n)) as Hpow.
      { rewrite <- !Z.pow_add_r by lia. f_equal. lia. }
      assert (0 < 10 ^ Z.max 0 (- (k - n))) by (apply Z.pow_pos_nonneg; lia).
      assert (0 < 10 ^ Z.max 0 (k - n)) by (apply Z.pow_pos_nonneg; lia).
      set (P := 10 ^ Z.max 0 (- (k - n))) in *. set (Q := 10 ^ Z.max 0 (k - n)) in *.
      assert (decimal safe * P < 10 ^ k * P) by nia. assert (decimal sig * Q < 10 ^ n * Q) by nia.
      case_bool_decide as Heq.
      * subst c. rewrite IH, !Z.mul_add_distr_r, <- !Z.mul_assoc, Hpow. lia.
      * rewrite Z.ltb_lt, !Z.mul_add_distr_r, <- !Z.mul_assoc, Hpow. assert (zcode c ≠ zcode s) by (intros E; by apply Heq, zcode_inj).
        set (T := 10 ^ n * Q) in *. nia.
Qed.

(** * The magnitude of a number literal is compared exactly *)

(** ** The grammar *)

Lemma span_digits_spec s ds r : span_digits s = (ds, r) → s = ds ++ r ∧ digits_only ds.
Proof.
  revert ds r. induction s as [|c s IH]; intros ds r Hs; cbn in Hs; [simplify_eq; by split; [|constructor]|].
  destruct (digit c) eqn:Hc; [|simplify_eq; by split; [|constructor]].
  destruct (span_digits s) as [ds' r'] eqn:Hd. simplify_eq. destruct (IH _ _ eq_refl) as [-> Ha]. split; [done|]. by constructor.
Qed.

Lemma some_digits_spec s ds r : some_digits s = Some (ds, r) → s = ds ++ r ∧ digits_only ds ∧ ds ≠ [].
Proof.
  unfold some_digits. destruct (span_digits s) as [[|c ds'] r'] eqn:Hs; [done|]. intros [= <- <-].
  apply span_digits_spec in Hs as [-> ?]. by split_and!.
Qed.

Lemma after_integer_spec value : after_integer value = snd <$> scan_integer value.
Proof.
  destruct value as [|c rest]; [done|]. cbn [after_integer scan_integer]. destruct (is_byte 48 c) eqn:H0; [done|].
  assert (byte_in 49 57 c = digit c) as ->.
  { apply eq_bool_prop_intro. rewrite !Is_true_true. unfold digit. rewrite !byte_in_zcode.
    assert (zcode c ≠ 48) by (intros E; rewrite is_byte_code, bool_decide_eq_false in H0; lia). lia. }
  destruct (digit c) eqn:Hd; [|done]. unfold skip_digits. cbn. rewrite Hd. by destruct (span_digits rest).
Qed.

Lemma ends_with_exponent_spec value :
  ends_with_exponent value = match scan_exponent value with Some (_, []) => true | _ => false end.
Proof.
  destruct value as [|c [|g rest]]; [done| |]; cbn [ends_with_exponent scan_exponent].
  { unfold is_exponent. by destruct (_ || _). }
  unfold is_exponent. destruct (is_byte 101 c || is_byte 69 c); [|done]. unfold some_digits, skip_digits. destruct (is_byte 43 g || is_byte 45 g).
  - destruct rest as [|d rest]; [done|]. destruct (span_digits (d :: rest)) as [[|d' ds] r] eqn:Hs; cbn; [|by destruct r].
    apply span_digits_spec in Hs as [Hs _]. cbn in Hs. by subst.
  - destruct (span_digits (g :: rest)) as [[|d' ds] r] eqn:Hs; cbn; [|by destruct r].
    apply span_digits_spec in Hs as [Hs _]. cbn in Hs. by subst.
Qed.

Lemma after_fraction_spec value :
  match scan_fraction value with
  | Some (_, r) => after_fraction value = r
  | None => ends_with_exponent (after_fraction value) = false
  end.
Proof.
  destruct value as [|c rest]; [done|]. cbn [scan_fraction after_fraction]. destruct (is_byte 46 c) eqn:Hc.
  - destruct rest as [|d rest]; [done|].
    unfold some_digits, skip_digits. cbn [span_digits]. destruct (digit d); cbn [andb].
    + by destruct (span_digits rest).
    + cbn. rewrite is_byte_zcode in Hc. unfold is_exponent. rewrite !is_byte_code, Hc. done.
  - destruct rest as [|d rest]; [done|]. done.
Qed.

(** The check accepts exactly the literals of the grammar. *)
Lemma validJSONNumber_spec s : validJSONNumber s = bool_decide (is_Some (number_value s)).
Proof.
  unfold number_value. destruct s as [|c rest]; [done|]. cbn [validJSONNumber scan_sign].
  destruct (is_byte 45 c); rewrite after_integer_spec; set (value := _ : bytes).
  all: destruct (scan_integer _) as [[int s1]|]; cbn [fmap option_fmap option_map snd mbind option_bind];
    [|symmetry; apply bool_decide_eq_false_2; by intros [? ?]].
  all: pose proof (after_fraction_spec s1) as Hf; destruct (scan_fraction s1) as [[frac s2]|];
    cbn [mbind option_bind]; [rewrite Hf|rewrite Hf; symmetry; apply bool_decide_eq_false_2; by intros [? ?]].
  all: rewrite ends_with_exponent_spec; destruct (scan_exponent s2) as [[exp [|x s3]]|]; cbn [mbind option_bind]; symmetry;
    [by apply bool_decide_eq_true_2|apply bool_decide_eq_false_2; by intros [? ?]..].
Qed.

(** ** The parts of a literal *)

Definition signed_digits (x : bytes) : Prop := ∃ ds, digits_only ds ∧ (x = ds ∨ x = byte 43 :: ds ∨ x = byte 45 :: ds).

Definition dotted (frac : bytes) : Prop := frac = [] ∨ ∃ ds, frac = byte 46 :: ds ∧ digits_only ds.
Definition exponented (exp : bytes) : Prop := exp = [] ∨ ∃ c x, exp = c :: x ∧ is_exponent c = true ∧ signed_digits x.

Lemma number_value_parts s m e : number_value s = Some (m, e) → ∃ sign int frac exp,
  s = sign ++ int ++ frac ++ exp ∧ (sign = [] ∨ sign = [byte 45]) ∧ int ≠ [] ∧ digits_only int ∧ dotted frac ∧ exponented exp ∧
  m = decimal (int ++ drop 1 frac) ∧ e = exponent_value (drop 1 exp) - Z.of_nat (length (drop 1 frac)).
Proof.
  unfold number_value. destruct (scan_sign s) as [sign s0] eqn:Hsign. destruct (scan_integer s0) as [[int s1]|] eqn:Hint; [|done].
  cbn [mbind option_bind]. destruct (scan_fraction s1) as [[frac s2]|] eqn:Hfrac; [|done]. cbn [mbind option_bind].
  destruct (scan_exponent s2) as [[exp [|x s3]]|] eqn:Hexp; [|done..]. cbn [mbind option_bind]. intros [= <- <-].
  exists sign, int, frac, exp.
  assert (s = sign ++ s0 ∧ (sign = [] ∨ sign = [byte 45])) as [-> Hs].
  { destruct s as [|c r]; cbn in Hsign; [simplify_eq; auto|]. destruct (is_byte 45 c) eqn:Hc; simplify_eq; [|auto].
    apply is_byte_true in Hc as ->. auto. }
  assert (s0 = int ++ s1 ∧ int ≠ [] ∧ digits_only int) as (-> & Hi & Hid).
  { destruct s0 as [|c r]; [done|]. cbn in Hint. destruct (is_byte 48 c) eqn:Hc.
    - simplify_eq. split_and!; [done..|]. constructor; [|constructor]. apply is_byte_true in Hc as ->. done.
    - destruct (digit c) eqn:Hd; [|done]. destruct (span_digits r) as [ds r'] eqn:Hr. simplify_eq.
      apply span_digits_spec in Hr as [-> ?]. split_and!; [done..|]. by constructor. }
  assert (s1 = frac ++ s2 ∧ dotted frac) as [-> Hfr].
  { destruct s1 as [|c r]; cbn in Hfrac; [simplify_eq; by split; [|left]|]. destruct (is_byte 46 c) eqn:Hc; [|simplify_eq; by split; [|left]].
    destruct (some_digits r) as [[ds r']|] eqn:Hr; cbn in Hfrac; simplify_eq. apply some_digits_spec in Hr as (-> & ? & _).
    split; [done|]. right. apply is_byte_true in Hc as ->. eauto. }
  assert (s2 = exp ∧ exponented exp) as [-> He].
  { destruct s2 as [|c r]; cbn in Hexp; [simplify_eq; by split; [|left]|]. destruct (is_byte 101 c || is_byte 69 c) eqn:Hc; [|simplify_eq].
    destruct r as [|g r]; [done|]. destruct (is_byte 43 g || is_byte 45 g) eqn:Hg.
    - destruct (some_digits r) as [[ds r']|] eqn:Hr; cbn in Hexp; simplify_eq. apply some_digits_spec in Hr as (-> & Hds & _).
      rewrite app_nil_r. split; [done|]. right. exists c, (g :: ds). split_and!; [done..|]. exists ds. split; [done|]. right.
      apply orb_true_iff in Hg as [->%is_byte_true| ->%is_byte_true]; auto.
    - destruct (some_digits (g :: r)) as [[ds r']|] eqn:Hr; cbn in Hexp; simplify_eq. apply some_digits_spec in Hr as (Hr & Hds & _).
      rewrite Hr, app_nil_r. split; [done|]. right. exists c, ds. split_and!; [done..|]. exists ds. auto. }
  split_and!; done.
Qed.

(** ** The bounded exponent *)

Lemma exponent_loop_spec sign value ds : digits_only ds → 0 ≤ value ≤ exponent_limit →
  exponent_loop sign value ds = sign * Z.min exponent_limit (value * 10 ^ Z.of_nat (length ds) + decimal ds).
Proof.
  intros Hds. revert value. induction Hds as [|c ds Hc%digit_range Hds IH]; intros value Hv; cbn [exponent_loop length].
  { change (decimal []) with 0. f_equal. lia. }
  rewrite Z.mod_small, decimal_cons, Nat2Z.inj_succ, Z.pow_succ_r by lia. pose proof (decimal_bounds ds Hds).
  assert (0 < 10 ^ Z.of_nat (length ds)) by (apply Z.pow_pos_nonneg; lia).
  destruct (Z.ltb_spec ((exponent_limit - (zcode c - 48)) / 10) value) as [Hlt|Hge].
  - assert (exponent_limit < value * 10 + (zcode c - 48)) as Hover.
    { pose proof (Z.div_mod (exponent_limit - (zcode c - 48)) 10 ltac:(lia)). pose proof (Z.mod_pos_bound (exponent_limit - (zcode c - 48)) 10 ltac:(lia)). lia. }
    f_equal. rewrite Z.min_l; [done|]. nia.
  - assert (value * 10 + (zcode c - 48) ≤ exponent_limit) as Hin.
    { pose proof (Z.div_mod (exponent_limit - (zcode c - 48)) 10 ltac:(lia)). pose proof (Z.mod_pos_bound (exponent_limit - (zcode c - 48)) 10 ltac:(lia)). lia. }
    rewrite IH by lia. do 2 f_equal. lia.
Qed.

Lemma boundedDecimalExponent_spec x : signed_digits x →
  boundedDecimalExponent x = Z.max (- exponent_limit) (Z.min exponent_limit (exponent_value x)).
Proof.
  assert (0 < exponent_limit) as Hlim by done.
  intros (ds & Hds & [->|[->| ->]]); cbn [boundedDecimalExponent exponent_value]; pose proof (decimal_bounds ds Hds).
  - destruct ds as [|c ds]; [cbn; lia|]. cbn [boundedDecimalExponent exponent_value]. inversion Hds; subst.
    rewrite !digit_not by (done || lia). rewrite exponent_loop_spec by (done || lia). lia.
  - change (is_byte 45 (byte 43)) with false. change (is_byte 43 (byte 43)) with true. cbn iota. rewrite exponent_loop_spec by (done || lia). lia.
  - change (is_byte 45 (byte 45)) with true. cbn iota. rewrite exponent_loop_spec by (done || lia). lia.
Qed.

(** ** The digits of the mantissa *)

Lemma cut_at_app p s t : Forall (λ c, p c = false) s → cut_at p (s ++ t) = let '(b, a) := cut_at p t in (s ++ b, a).
Proof. induction 1 as [|c s Hc _ IH]; cbn; [by destruct (cut_at p t)|]. rewrite Hc, IH. by destruct (cut_at p t). Qed.

Lemma digits_not n s : digits_only s → (n < 48 ∨ 57 < n)%nat → Forall (λ c, is_byte n c = false) s.
Proof. intros H Hn. eapply Forall_impl; [exact H|]. intros c Hc. by apply digit_not. Qed.

Lemma digits_not_exponent s : digits_only s → Forall (λ c, is_exponent c = false) s.
Proof. intros H. eapply Forall_impl; [exact H|]. intros c Hc. unfold is_exponent. by rewrite !digit_not by (done || lia). Qed.

Lemma filter_dot_digits s : digits_only s → List.filter (λ c, negb (is_byte 46 c)) s = s.
Proof. induction 1 as [|c s Hc _ IH]; [done|]. cbn. rewrite digit_not by (done || lia). cbn. by rewrite IH. Qed.

Lemma cut_at_nil p s : Forall (λ c, p c = false) s → cut_at p s = (s, None).
Proof. intros H. rewrite <- (app_nil_r s) at 1. rewrite cut_at_app by exact H. cbn. by rewrite app_nil_r. Qed.

(** The parts [numberExceedsSafeMagnitude] finds in a mantissa. *)
Lemma mantissa_parts int frac : digits_only int → dotted frac →
  Forall (λ c, is_exponent c = false) (int ++ frac) ∧
  (match cut_at (is_byte 46) (int ++ frac) with (before, Some _) => length before | (_, None) => length (int ++ frac) end) = length int ∧
  List.filter (λ c, negb (is_byte 46 c)) (int ++ frac) = int ++ drop 1 frac ∧ digits_only (int ++ drop 1 frac).
Proof.
  intros Hint Hfrac. rewrite cut_at_app by (apply digits_not; [exact Hint|lia]).
  rewrite List.filter_app, filter_dot_digits by exact Hint.
  destruct Hfrac as [->|(ds & -> & Hds)].
  - cbn. rewrite !app_nil_r. split_and!; try done. by apply digits_not_exponent.
  - cbn [cut_at List.filter drop]. change (is_byte 46 (byte 46)) with true. cbn [negb]. rewrite app_nil_r, filter_dot_digits by exact Hds.
    split_and!; [|done..|].
    + apply Forall_app. split; [by apply digits_not_exponent|]. constructor; [done|]. by apply digits_not_exponent.
    + by apply Forall_app.
Qed.

Lemma leading_zeros_spec s : digits_only s →
  (leading_zeros s ≤ length s)%nat ∧ decimal s = decimal (drop (leading_zeros s) s) ∧
  ((leading_zeros s < length s)%nat → 10 ^ (Z.of_nat (length s) - Z.of_nat (leading_zeros s) - 1) ≤ decimal s).
Proof.
  induction 1 as [|c s Hc Hs (Hle & Hdec & Hlow)]; [done|]. cbn [leading_zeros length]. rewrite is_byte_code. apply digit_range in Hc.
  case_bool_decide as H0.
  - cbn [drop]. rewrite decimal_cons. split_and!; [lia|lia|]. intros Hlt. specialize (Hlow ltac:(lia)).
    replace (Z.of_nat (S (length s)) - Z.of_nat (S (leading_zeros s)) - 1) with (Z.of_nat (length s) - Z.of_nat (leading_zeros s) - 1) by lia. lia.
  - cbn [drop]. split_and!; [lia|done|]. intros _. rewrite decimal_cons.
    replace (Z.of_nat (S (length s)) - Z.of_nat 0 - 1) with (Z.of_nat (length s)) by lia.
    pose proof (decimal_bounds s Hs). nia.
Qed.

(** A mantissa of [n] significant digits decides alone, unless it has as many
    digits before the dot as the bound. *)
Lemma exceeds_by_length k n m e bound : 10 ^ (n - 1) ≤ m < 10 ^ n → 1 ≤ n → 1 ≤ k → 10 ^ (k - 1) ≤ bound < 10 ^ k → n + e ≠ k →
  exceeds bound m e ↔ k < n + e.
Proof.
  intros Hm Hn Hk Hb Hne. unfold exceeds.
  assert (0 < 10 ^ Z.max 0 (- e) ∧ 0 < 10 ^ Z.max 0 e) as [HP HQ] by (split; apply Z.pow_pos_nonneg; lia).
  destruct (decide (k < n + e)) as [Hbig|Hsmall]; (split; [intros Hlt; try lia|intros Hlt; try lia]).
  - assert (10 ^ k * 10 ^ Z.max 0 (- e) ≤ 10 ^ (n - 1) * 10 ^ Z.max 0 e) as Hpow.
    { rewrite <- !Z.pow_add_r by lia. apply Z.pow_le_mono_r; lia. }
    nia.
  - assert (10 ^ n * 10 ^ Z.max 0 e ≤ 10 ^ (k - 1) * 10 ^ Z.max 0 (- e)) as Hpow.
    { rewrite <- !Z.pow_add_r by lia. apply Z.pow_le_mono_r; lia. }
    nia.
Qed.

Lemma exceeds_zero bound e : 0 ≤ bound → ¬ exceeds bound 0 e.
Proof. unfold exceeds. intros Hb. assert (0 < 10 ^ Z.max 0 (- e)) by (apply Z.pow_pos_nonneg; lia). nia. Qed.

(** The decision from the parts, with the exponent cut off at the limit. *)
Lemma magnitude_parts int frac e : digits_only int → digits_only frac →
  Z.of_nat (length int) + Z.of_nat (length frac) ≤ maxEncodedBytes →
  let digits := int ++ frac in
  let z := leading_zeros digits in
  let effective := Z.of_nat (length int) + Z.max (- exponent_limit) (Z.min exponent_limit e) - Z.of_nat z in
  (if (z =? length digits)%nat then false
   else if effective =? Z.of_nat (length safeDigits) then exceeds_digits safeDigits (drop z digits)
   else Z.of_nat (length safeDigits) <? effective) = true ↔
  exceeds MaxSafeInteger (decimal digits) (e - Z.of_nat (length frac)).
Proof.
  intros Hint Hfrac Hlen digits z effective. assert (digits_only digits) as Hdig by (by apply Forall_app).
  destruct (leading_zeros_spec digits Hdig) as (Hz & Hdec & Hlow). fold z in Hz, Hdec, Hlow.
  assert (length digits = length int + length frac)%nat as Hdl by apply length_app.
  assert (digits_only (drop z digits)) as Hsig by (by apply Forall_drop).
  assert (exponent_limit = maxEncodedBytes + 32) as Hlim by done. assert (0 < maxEncodedBytes) as Hmax by done.
  change (Z.of_nat (length safeDigits)) with 16. destruct (Nat.eqb_spec z (length digits)) as [Hall|Hsome].
  { split; [done|]. rewrite Hdec, drop_ge by lia. intros H. by apply exceeds_zero in H. }
  specialize (Hlow ltac:(lia)). set (n := Z.of_nat (length digits) - Z.of_nat z) in *.
  assert (decimal digits < 10 ^ n) as Hhigh.
  { rewrite Hdec. replace n with (Z.of_nat (length (drop z digits))) by (rewrite length_drop; lia). by apply decimal_bounds. }
  set (x := e - Z.of_nat (length frac)). assert (10 ^ (16 - 1) ≤ MaxSafeInteger < 10 ^ 16) as Hsafe by done.
  destruct (Z.eqb_spec effective 16) as [Heff|Heff].
  - assert (n + x = 16) as Hx by lia. rewrite exceeds_digits_spec by (done || (unfold safeDigits; repeat constructor)).
    change (decimal safeDigits) with MaxSafeInteger. change (Z.of_nat (length safeDigits)) with 16.
    rewrite length_drop, <- Hdec. replace (16 - Z.of_nat (length digits - z)) with x by lia. done.
  - rewrite (exceeds_by_length 16 n) by (done || lia). rewrite Z.ltb_lt. lia.
Qed.

Lemma numberExceedsSafeMagnitude_spec s m e : Z.of_nat (length s) ≤ maxEncodedBytes → number_value s = Some (m, e) →
  numberExceedsSafeMagnitude s = true ↔ exceeds MaxSafeInteger m e.
Proof.
  intros Hlen (sign & int & frac & exp & -> & Hsign & Hint & Hid & Hfrac & Hexp & -> & ->)%number_value_parts.
  destruct (mantissa_parts int frac Hid Hfrac) as (Hne & Hcut & Hfilter & Hdig). unfold numberExceedsSafeMagnitude.
  assert (∀ A (f : bytes → A) x, match sign ++ int ++ frac ++ exp with [] => x | c :: rest =>
    f (if is_byte 45 c then rest else sign ++ int ++ frac ++ exp) end = f (int ++ frac ++ exp)) as Hstrip.
  { intros A f x. destruct Hsign as [->| ->]; [|done]. destruct int as [|c int]; [done|]. cbn. inversion Hid; subst.
    by rewrite digit_not by (done || lia). }
  rewrite (Hstrip bool (λ text, let '(mantissa, after) := cut_at is_exponent text in _)). clear Hstrip.
  rewrite app_assoc, cut_at_app by exact Hne.
  assert (cut_at is_exponent exp = ([], if bool_decide (exp = []) then None else Some (drop 1 exp)) ∧
    match (if bool_decide (exp = []) then None else Some (drop 1 exp)) with Some after => boundedDecimalExponent after | None => 0 end =
    Z.max (- exponent_limit) (Z.min exponent_limit (exponent_value (drop 1 exp)))) as [-> Hbound].
  { destruct Hexp as [->|(c & x & -> & Hc & Hx)]; [done|]. cbn [cut_at drop]. rewrite Hc, bool_decide_eq_false_2 by done.
    split; [done|]. by apply boundedDecimalExponent_spec. }
  rewrite app_nil_r, Hcut, Hfilter, Hbound. apply magnitude_parts; [done| |].
  - by apply Forall_app in Hdig as [_ ?].
  - rewrite !length_app in Hlen. rewrite length_drop. lia.
Qed.

(** C33: The safe range of numbers is decided exactly. [validJSONNumber]
    accepts exactly the number literals of the JSON grammar, and for a literal
    that fits into an encoded value [numberExceedsSafeMagnitude] holds exactly
    when the decimal value of the literal, whatever its exponent, is beyond
    2^53 - 1 in magnitude. *)
Theorem number_magnitude_exact s : Z.of_nat (length s) ≤ maxEncodedBytes →
  validJSONNumber s = bool_decide (is_Some (number_value s)) ∧
  ∀ m e, number_value s = Some (m, e) → numberExceedsSafeMagnitude s = true ↔ exceeds MaxSafeInteger m e.
Proof. intros Hs. split; [apply validJSONNumber_spec|]. intros m e. by apply numberExceedsSafeMagnitude_spec. Qed.

Lemma number_magnitude_exact_witness :
  number_value (text "-9007199254740991.0e0") = Some (90071992547409910, -1) ∧
  numberExceedsSafeMagnitude (text "-9007199254740991.0e0") = false ∧
  (numberExceedsSafeMagnitude (text "0.90071992547409910001e+16") = true ↔ exceeds MaxSafeInteger 90071992547409910001 (-4)) ∧
  numberExceedsSafeMagnitude (text "0.90071992547409910001e+16") = true.
Proof.
  split_and!; [vm_compute; reflexivity..| |vm_compute; reflexivity].
  apply number_magnitude_exact; [vm_compute; discriminate|vm_compute; reflexivity].
Defined.
