(* ===== verification/Redaction.v ===== *)
(** * Redaction of responses ([pkg/capability/redaction.go])

    The walk that replaces sensitive data in a response before it leaves an
    adapter: by the names of fields, by assignments in lists of environment
    variables and labels, and by paths in mounts. Values are the ones
    [jsonvalue.Normalize] makes; the fields of a map are listed in an order
    nothing depends on. [unicode_lower] is the table of [unicode.ToLower]
    beyond ASCII. *)

From S2P Require Import Prelude GoLib Encoding Json JsonProps JsonPrint NetIP.

Open Scope Z_scope.

Definition ResponseRedactedValue : string := "[REDACTED]".

Inductive redactionMode :=
| redactionModeDefault
| redactionModeEnv
| redactionModeLabels
| redactionModeMount.

#[export] Instance redactionMode_eq_dec : EqDecision redactionMode.
Proof. solve_decision. Defined.

(** [strings.Cut(value, "=")] *)
Fixpoint cut_equals (s : bytes) : option (bytes * bytes) :=
  match s with
  | [] => None
  | c :: s => if is_byte 61 c then Some ([], s) else (λ p, (c :: p.1, p.2)) <$> cut_equals s
  end.

Definition redactAssignmentString (value replacement : string) (sensitiveKey : string → bool) : string :=
  match cut_equals (text value) with
  | None => value
  | Some (name, _) => if sensitiveKey (of_text name) then of_text name +:+ "=" +:+ replacement else value
  end.

Section redaction.
Context (unicode_lower : Z → Z).

Definition key_rune (r : Z) : bool := ((97 <=? r) && (r <=? 122)) || ((48 <=? r) && (r <=? 57)).

Definition normalizeRedactionKey (key : string) : string :=
  of_text (map zbyte (List.filter key_rune (runes (text (ToLower unicode_lower (TrimSpace key)))))).

Definition isSafeReferenceKey (normalized : string) : bool :=
  existsb (λ suffix, bool_decide (text suffix `suffix_of` text normalized))
    ["id"; "ids"; "ref"; "refs"; "name"; "names"; "hash"; "sha256"; "digest"; "fingerprint"].

Definition sensitive_markers : list string :=
  ["password"; "passwd"; "secret"; "credential"; "credentials"; "token"; "bearer"; "authorization"; "privatekey"; "sshkey"; "apikey";
   "accesskey"; "cookie"; "sessioncookie"].

Definition isSensitiveDataKey (key : string) : bool :=
  let normalized := normalizeRedactionKey key in
  if bool_decide (normalized = "") || isSafeReferenceKey normalized then false
  else if bool_decide (normalized = "envfile") || bool_decide (normalized = "envfiles") then true
  else existsb (λ marker, contains (text marker) (text normalized)) sensitive_markers.

Definition isSensitiveEnvName (name : string) : bool := isSensitiveDataKey name.

Definition sensitive_paths : list string :=
  ["/run/secrets"; "/var/run/secrets"; "/.ssh"; "/.kube/config"; "/.docker/config.json"; "id_rsa"; "id_ed25519"; "secret"; "token";
   "credential"; "password"; "passwd"].

Definition isSensitiveMountPath (path : string) : bool :=
  let normalized := ToLower unicode_lower (TrimSpace path) in
  if bool_decide (normalized = "") then false
  else existsb (λ marker, contains (text marker) (text normalized)) sensitive_paths.

Fixpoint valueContainsSensitiveMountPath (value : JSON) : bool :=
  match value with
  | JText s => isSensitiveMountPath s
  | JArray l => existsb valueContainsSensitiveMountPath l
  | JObject l => existsb (λ kv, valueContainsSensitiveMountPath kv.2) l
  | _ => false
  end.

Definition shouldRedactMountField (key : string) (value : JSON) : bool :=
  let normalized := normalizeRedactionKey key in
  if isSensitiveDataKey key then true
  else if bool_decide (normalized ∈ ["source"; "src"; "hostpath"; "path"; "target"; "destination"; "device"; "envfile"; "envfiles"])
  then valueContainsSensitiveMountPath value
  else false.

Definition childRedactionContext (parent : redactionMode) (key : string) : redactionMode :=
  let normalized := normalizeRedactionKey key in
  if bool_decide (normalized ∈ ["env"; "envvars"; "environment"; "environmentvariables"]) then redactionModeEnv
  else if bool_decide (normalized ∈ ["label"; "labels"; "containerlabels"]) then redactionModeLabels
  else if bool_decide (normalized ∈ ["mount"; "mounts"; "volume"; "volumes"; "bind"; "binds"; "volumemounts"]) then redactionModeMount
  else parent.

Definition redactString (value : string) (ctx : redactionMode) : string :=
  match ctx with
  | redactionModeEnv => redactAssignmentString value ResponseRedactedValue isSensitiveEnvName
  | redactionModeLabels => redactAssignmentString value ResponseRedactedValue isSensitiveDataKey
  | redactionModeMount => if isSensitiveMountPath value then ResponseRedactedValue else value
  | redactionModeDefault => value
  end.

(** The cases of [redactJSONMap] that hide the whole field. *)
Definition hiddenField (ctx : redactionMode) (key : string) (value : JSON) : bool :=
  (bool_decide (ctx = redactionModeEnv) && isSensitiveEnvName key) ||
  (bool_decide (ctx = redactionModeLabels) && isSensitiveDataKey key) ||
  (bool_decide (ctx = redactionModeMount) && shouldRedactMountField key value) ||
  isSensitiveDataKey key.

Fixpoint redactJSONValue (value : JSON) (ctx : redactionMode) : JSON :=
  match value with
  | JObject l =>
     JObject (map (λ '(key, value),
       (key, if hiddenField ctx key value then JText ResponseRedactedValue
             else redactJSONValue value (childRedactionContext ctx key))) l)
  | JArray l => JArray (map (λ item, redactJSONValue item ctx) l)
  | JText s => JText (redactString s ctx)
  | value => value
  end.

(** ** What redaction is to do *)

(** Nothing sensitive is shown: a string of the mode, and a field by its name,
    at any depth. *)
Definition shown_string (ctx : redactionMode) (s : string) : Prop :=
  match ctx with
  | redactionModeDefault => True
  | redactionModeEnv | redactionModeLabels =>
     ∀ name rest, cut_equals (text s) = Some (name, rest) → isSensitiveDataKey (of_text name) = true → of_text rest = ResponseRedactedValue
  | redactionModeMount => isSensitiveMountPath s = false
  end.

Fixpoint shown (ctx : redactionMode) (v : JSON) : Prop :=
  match v with
  | JText s => shown_string ctx s
  | JArray l => foldr (λ item P, shown ctx item ∧ P) True l
  | JObject l =>
     foldr (λ kv P, match kv with (key, value) =>
       (if isSensitiveDataKey key then value = JText ResponseRedactedValue
        else value = JText ResponseRedactedValue ∨ shown (childRedactionContext ctx key) value) ∧ P end) True l
  | _ => True
  end.

(** Nothing asks for redaction. *)
Definition plain_string (ctx : redactionMode) (s : string) : Prop :=
  match ctx with
  | redactionModeDefault => True
  | redactionModeEnv | redactionModeLabels =>
     ∀ name rest, cut_equals (text s) = Some (name, rest) → isSensitiveDataKey (of_text name) = false
  | redactionModeMount => isSensitiveMountPath s = false
  end.

Fixpoint plain (ctx : redactionMode) (v : JSON) : Prop :=
  match v with
  | JText s => plain_string ctx s
  | JArray l => foldr (λ item P, plain ctx item ∧ P) True l
  | JObject l =>
     foldr (λ kv P, match kv with (key, value) =>
       (hiddenField ctx key value = false ∧ plain (childRedactionContext ctx key) value) ∧ P end) True l
  | _ => True
  end.

(** Two values that differ in what is sensitive only. *)
Definition alike_string (ctx : redactionMode) (s t : string) : Prop :=
  s = t ∨
  match ctx with
  | redactionModeDefault => False
  | redactionModeEnv | redactionModeLabels =>
     ∃ name x y, cut_equals (text s) = Some (name, x) ∧ cut_equals (text t) = Some (name, y) ∧ isSensitiveDataKey (of_text name) = true
  | redactionModeMount => isSensitiveMountPath s = true ∧ isSensitiveMountPath t = true
  end.

Fixpoint alike (ctx : redactionMode) (v w : JSON) : Prop :=
  match v, w with
  | JText s, JText t => alike_string ctx s t
  | JArray l, JArray k =>
     (fix go l k :=
        match l, k with
        | [], [] => True
        | v :: l, w :: k => alike ctx v w ∧ go l k
        | _, _ => False
        end) l k
  | JObject l, JObject k =>
     (fix go l k :=
        match l, k with
        | [], [] => True
        | (key, v) :: l, (key', w) :: k =>
           (key = key' ∧ hiddenField ctx key v = hiddenField ctx key w ∧
            (hiddenField ctx key v = true ∨ alike (childRedactionContext ctx key) v w)) ∧ go l k
        | _, _ => False
        end) l k
  | v, w => v = w
  end.
End redaction.

(** * Redaction hides what is sensitive, and nothing else *)

(** ** Assignments *)

Lemma cut_equals_spec s name rest : cut_equals s = Some (name, rest) → s = name ++ byte 61 :: rest ∧ Forall (λ c, is_byte 61 c = false) name.
Proof.
  revert name. induction s as [|c s IH]; intros name; [done|]. cbn. destruct (is_byte 61 c) eqn:Hc.
  - intros [= <- <-]. apply is_byte_true in Hc as ->. split; [done|constructor].
  - destruct (cut_equals s) as [[n r]|]; [|done]. cbn. intros [= <- <-]. destruct (IH n eq_refl) as [-> ?]. split; [done|by constructor].
Qed.

Lemma cut_equals_app name rest : Forall (λ c, is_byte 61 c = false) name → cut_equals (name ++ byte 61 :: rest) = Some (name, rest).
Proof. induction 1 as [|c name Hc _ IH]; [done|]. cbn. by rewrite Hc, IH. Qed.

Lemma text_app s t : text (s +:+ t) = text s ++ text t.
Proof. induction s as [|c s IH]; [done|]. change (c :: text (s +:+ t) = c :: (text s ++ text t)). by rewrite IH. Qed.

Section redaction.
Context (unicode_lower : Z → Z).
Notation isSensitiveDataKey := (isSensitiveDataKey unicode_lower).
Notation redactJSONValue := (redactJSONValue unicode_lower).
Notation hiddenField := (hiddenField unicode_lower).
Notation shown := (shown unicode_lower).
Notation plain := (plain unicode_lower).
Notation alike := (alike unicode_lower).

Lemma marker_not_path : isSensitiveMountPath unicode_lower ResponseRedactedValue = false.
Proof. vm_compute. reflexivity. Qed.

Lemma redactAssignmentString_spec s :
  redactAssignmentString s ResponseRedactedValue isSensitiveDataKey =
  match cut_equals (text s) with
  | Some (name, _) => if isSensitiveDataKey (of_text name) then of_text name +:+ "=" +:+ ResponseRedactedValue else s
  | None => s
  end.
Proof. reflexivity. Qed.

Lemma hidden_sensitive ctx key value : isSensitiveDataKey key = true → hiddenField ctx key value = true.
Proof. intros H. unfold Redaction.hiddenField. rewrite H. by rewrite !orb_true_r. Qed.

(** ** Strings *)

Lemma shown_assignment s name rest :
  cut_equals (text (redactAssignmentString s ResponseRedactedValue isSensitiveDataKey)) = Some (name, rest) →
  isSensitiveDataKey (of_text name) = true → of_text rest = ResponseRedactedValue.
Proof.
  rewrite redactAssignmentString_spec. destruct (cut_equals (text s)) as [[n r]|] eqn:Hs; [|by rewrite Hs].
  destruct (isSensitiveDataKey (of_text n)) eqn:Hn; [|rewrite Hs; intros [= <- <-]; congruence].
  apply cut_equals_spec in Hs as [_ Hn']. rewrite !text_app, text_of_text. change (text "=" ++ ?x) with (byte 61 :: x).
  rewrite cut_equals_app by done. by intros [= <- <-].
Qed.

Lemma shown_redactString s ctx : shown_string unicode_lower ctx (redactString unicode_lower s ctx).
Proof.
  destruct ctx; cbn [shown_string redactString]; [done|apply shown_assignment..|].
  destruct (isSensitiveMountPath unicode_lower s) eqn:Hs; [apply marker_not_path|done].
Qed.

Lemma plain_redactString s ctx : plain_string unicode_lower ctx s → redactString unicode_lower s ctx = s.
Proof.
  destruct ctx; cbn [plain_string redactString]; [done| | |by intros ->].
  all: intros H; rewrite redactAssignmentString_spec; destruct (cut_equals (text s)) as [[n r]|]; [|done]; by rewrite (H n r).
Qed.

Lemma alike_redactString s t ctx : alike_string unicode_lower ctx s t → redactString unicode_lower s ctx = redactString unicode_lower t ctx.
Proof.
  intros [->|H]; [done|]. destruct ctx; cbn [redactString] in *; [done| | |destruct H as [-> ->]; done].
  all: destruct H as (name & x & y & Hs & Ht & Hn); rewrite !redactAssignmentString_spec, Hs, Ht; by rewrite Hn.
Qed.

(** ** Values *)

Lemma shown_redact v ctx : shown ctx (redactJSONValue v ctx).
Proof.
  revert ctx. induction v as [|b|s|s|l IH|l IH] using json_ind'; intros ctx; try done.
  - apply shown_redactString.
  - cbn. induction IH as [|v l Hv _ IH]; [done|]. cbn. by split.
  - cbn. induction IH as [|[key v] l Hv _ IH]; [done|]. cbn in *. split; [|done].
    destruct (isSensitiveDataKey key) eqn:Hk; [by rewrite hidden_sensitive|].
    destruct (hiddenField ctx key v); [by left|right; apply Hv].
Qed.

Lemma plain_redact v ctx : plain ctx v → redactJSONValue v ctx = v.
Proof.
  revert ctx. induction v as [|b|s|s|l IH|l IH] using json_ind'; intros ctx H; try done.
  - cbn in *. by rewrite plain_redactString.
  - cbn in *. f_equal. induction IH as [|v l Hv _ IH]; [done|]. destruct H as [H1 H2]. cbn. by rewrite Hv, IH.
  - cbn in *. f_equal. induction IH as [|[key v] l Hv _ IH]; [done|]. destruct H as [[H0 H1] H2]. cbn in *. rewrite H0, Hv, IH by done. done.
Qed.

Lemma alike_redact v w ctx : alike ctx v w → redactJSONValue v ctx = redactJSONValue w ctx.
Proof.
  revert w ctx. induction v as [|b|s|s|l IH|l IH] using json_ind'; intros w ctx H.
  - by destruct w.
  - by destruct w.
  - by destruct w.
  - destruct w; try done. cbn in *. f_equal. by apply alike_redactString.
  - destruct w as [| | | |k|]; try done. cbn. f_equal. revert k H. induction IH as [|v l Hv _ IH]; intros [|w k] H; try done.
    destruct H as [H1 H2]. cbn. f_equal; [by apply Hv|by apply IH].
  - destruct w as [| | | | |k]; try done. cbn. f_equal. revert k H. induction IH as [|[key v] l Hv _ IH]; intros [|[key' w] k] H; try done.
    destruct H as [(<- & Hh & Hvw) H2]. cbn in *. rewrite <- Hh. f_equal; [|by apply IH]. f_equal.
    destruct (hiddenField ctx key v) eqn:Hhid; [done|]. destruct Hvw as [|Hvw]; [done|]. by apply Hv.
Qed.

End redaction.

(** ** A container *)

Definition demo_response (password key path : string) : JSON :=
  JObject [("Name", JText "web"); ("Env", JArray [JText "PATH=/bin"; JText ("API_KEY=" +:+ key)]);
           ("Auth", JObject [("db-password", JText password); ("password_ref", JText "vault")]);
           ("Mounts", JArray [JObject [("Source", JText path); ("Target", JText "/data")]])].

Example demo_redacted :
  redactJSONValue id (demo_response "hunter2" "abc" "/home/u/.ssh") redactionModeDefault =
  JObject [("Name", JText "web"); ("Env", JArray [JText "PATH=/bin"; JText "API_KEY=[REDACTED]"]);
           ("Auth", JObject [("db-password", JText "[REDACTED]"); ("password_ref", JText "vault")]);
           ("Mounts", JArray [JObject [("Source", JText "[REDACTED]"); ("Target", JText "/data")]])].
Proof. vm_compute. reflexivity. Qed.

(** * Risk plans ([pkg/capability/risk.go])

    The normal form of the plan a capability answers with before a dangerous
    call, from which the confirmation is asked. *)

Open Scope go_scope.

Definition RiskPlanSchemaVersion : string := "redevplugin.capability.risk_plan.v1".

Definition RiskSeverity := string.
Definition RiskSeverityInfo : RiskSeverity := "info".
Definition RiskSeverityLow : RiskSeverity := "low".
Definition RiskSeverityMedium : RiskSeverity := "medium".
Definition RiskSeverityHigh : RiskSeverity := "high".
Definition RiskSeverityCritical : RiskSeverity := "critical".

Definition Effect := string.
Definition effects : list Effect := ["read"; "write"; "execute"; "delete"; "admin"].

Record RiskFlag := mkRiskFlag {
  rf_ID : string;
  rf_Severity : RiskSeverity;
  rf_Summary : string;
  rf_Description : string;
  rf_RequiresConfirmation : bool;
  rf_RequiresAdmin : bool;
  rf_DataLossRisk : bool;
  rf_Destructive : bool;
}.

(** The flags and details of a plan; a nil slice of flags is the empty one
    after normalization. The details are passed on. *)
Record RiskPlan := mkRiskPlan {
  rp_SchemaVersion : string;
  rp_CapabilityID : string;
  rp_BindingID : string;
  rp_Method : string;
  rp_TargetMethod : string;
  rp_Action : string;
  rp_Effect : Effect;
  rp_ResourceRef : string;
  rp_ResourceDisplayName : string;
  rp_Summary : string;
  rp_RiskFlags : list RiskFlag;
  rp_RequiresConfirmation : bool;
  rp_RequiresAdmin : bool;
  rp_DataLossRisk : bool;
  rp_Destructive : bool;
  rp_DenyReason : string;
  rp_Details : option (list (string * JSON));
}.

Inductive RiskError :=
| SchemaVersionRequired
| SchemaVersionUnsupported
| PlanSummaryRequired
| EffectUnsupported
| FlagIDRequired
| FlagIDWhitespace
| FlagSummaryRequired
| FlagSeverityUnsupported
| FlagDuplicate.

Definition validRiskSeverity (severity : RiskSeverity) : bool :=
  bool_decide (severity ∈ [RiskSeverityInfo; RiskSeverityLow; RiskSeverityMedium; RiskSeverityHigh; RiskSeverityCritical]).

Definition validRiskEffect (effect : Effect) : bool := bool_decide (effect ∈ effects).

Section risk.
Context (unicode_lower : Z → Z).

(** [strings.ContainsAny(flag.ID, " \t\r\n")] *)
Definition has_blank (s : string) : bool := existsb (λ c, is_byte 32 c || is_byte 9 c || is_byte 13 c || is_byte 10 c) (text s).

Definition normalizeRiskFlag (flag : RiskFlag) : Result RiskError RiskFlag :=
  let id := TrimSpace (rf_ID flag) in
  let severity := ToLower unicode_lower (TrimSpace (rf_Severity flag)) in
  let summary := TrimSpace (rf_Summary flag) in
  let description := TrimSpace (rf_Description flag) in
  guard! negb (bool_decide (id = "")) else FlagIDRequired in
  guard! negb (has_blank id) else FlagIDWhitespace in
  guard! negb (bool_decide (summary = "")) else FlagSummaryRequired in
  guard! validRiskSeverity severity else FlagSeverityUnsupported in
  Ok (mkRiskFlag id severity summary description (rf_RequiresAdmin flag || rf_RequiresConfirmation flag) (rf_RequiresAdmin flag)
        (rf_DataLossRisk flag) (rf_Destructive flag)).

(** What the flags so far ask of the plan: confirmation, an administrator,
    data loss, destruction. *)
Definition raise (asks : bool * bool * bool * bool) (flag : RiskFlag) : bool * bool * bool * bool :=
  let '(confirmation, admin, dataLoss, destructive) := asks in
  (confirmation || rf_RequiresConfirmation flag || rf_RequiresAdmin flag, admin || rf_RequiresAdmin flag,
   dataLoss || rf_DataLossRisk flag, destructive || rf_Destructive flag).

(** The loop over the flags. *)
Fixpoint normalize_flags (seen : list string) (flags : list RiskFlag) (asks : bool * bool * bool * bool) :
    Result RiskError (list RiskFlag * (bool * bool * bool * bool)) :=
  match flags with
  | [] => Ok ([], asks)
  | flag :: flags =>
     let? normalized := normalizeRiskFlag flag in
     guard! negb (bool_decide (rf_ID normalized ∈ seen)) else FlagDuplicate in
     let? rest := normalize_flags (rf_ID normalized :: seen) flags (raise asks normalized) in
     Ok (normalized :: rest.1, rest.2)
  end.

Definition NormalizeRiskPlan (plan : RiskPlan) : Result RiskError RiskPlan :=
  let version := TrimSpace (rp_SchemaVersion plan) in
  guard! negb (bool_decide (version = "")) else SchemaVersionRequired in
  guard! bool_decide (version = RiskPlanSchemaVersion) else SchemaVersionUnsupported in
  let summary := TrimSpace (rp_Summary plan) in
  guard! negb (bool_decide (summary = "")) else PlanSummaryRequired in
  guard! bool_decide (rp_Effect plan = "") || validRiskEffect (rp_Effect plan) else EffectUnsupported in
  let? flags := normalize_flags [] (rp_RiskFlags plan)
    (rp_RequiresConfirmation plan, rp_RequiresAdmin plan, rp_DataLossRisk plan, rp_Destructive plan) in
  let '(flags, (confirmation, admin, dataLoss, destructive)) := flags in
  Ok (mkRiskPlan version (TrimSpace (rp_CapabilityID plan)) (TrimSpace (rp_BindingID plan)) (TrimSpace (rp_Method plan))
        (TrimSpace (rp_TargetMethod plan)) (TrimSpace (rp_Action plan)) (rp_Effect plan) (TrimSpace (rp_ResourceRef plan))
        (TrimSpace (rp_ResourceDisplayName plan)) summary flags confirmation admin dataLoss destructive
        (TrimSpace (rp_DenyReason plan)) (rp_Details plan)).

(** ** Flags *)

Lemma severity_fix severity : validRiskSeverity severity = true → ToLower unicode_lower (TrimSpace severity) = severity.
Proof.
  unfold validRiskSeverity. rewrite bool_decide_eq_true. intros H.
  repeat (apply elem_of_cons in H as [->|H]; [vm_compute; reflexivity|]). by apply elem_of_nil in H.
Qed.

Definition wf_flag (flag : RiskFlag) : Prop :=
  normalizeRiskFlag flag = Ok flag ∧ (rf_RequiresAdmin flag = true → rf_RequiresConfirmation flag = true).

Lemma normalizeRiskFlag_wf flag flag' : normalizeRiskFlag flag = Ok flag' → wf_flag flag'.
Proof.
  unfold wf_flag, normalizeRiskFlag. destruct (negb (bool_decide (TrimSpace (rf_ID flag) = ""))) eqn:Hid; [|discriminate].
  destruct (negb (has_blank _)) eqn:Hblank; [|discriminate].
  destruct (negb (bool_decide (TrimSpace (rf_Summary flag) = ""))) eqn:Hsum; [|discriminate].
  destruct (validRiskSeverity _) eqn:Hs; [|discriminate]. intros H. injection H as <-.
  cbn [rf_ID rf_Severity rf_Summary rf_Description rf_RequiresConfirmation rf_RequiresAdmin rf_DataLossRisk rf_Destructive].
  rewrite !TrimSpace_idemp, severity_fix by exact Hs. rewrite Hid, Hblank, Hsum, Hs. split.
  - by destruct (rf_RequiresAdmin flag), (rf_RequiresConfirmation flag).
  - by intros ->.
Qed.

(** The asks of a list of flags. *)
Definition asked (f : RiskFlag → bool) (flags : list RiskFlag) : bool := existsb f flags.

Lemma normalize_flags_spec seen flags asks flags' asks' : normalize_flags seen flags asks = Ok (flags', asks') →
  Forall wf_flag flags' ∧ NoDup (rf_ID <$> flags') ∧ (∀ id, id ∈ rf_ID <$> flags' → id ∉ seen) ∧ length flags' = length flags ∧
  asks' = (asks.1.1.1 || asked rf_RequiresConfirmation flags', asks.1.1.2 || asked rf_RequiresAdmin flags',
           asks.1.2 || asked rf_DataLossRisk flags', asks.2 || asked rf_Destructive flags').
Proof.
  revert seen asks flags' asks'. induction flags as [|flag flags IH]; intros seen asks flags' asks'; cbn [normalize_flags].
  { intros [= <- <-]. destruct asks as [[[a b] c] d]. split_and!; [constructor..|set_solver|done|]. cbn. by rewrite !orb_false_r. }
  destruct (normalizeRiskFlag flag) as [normalized|] eqn:Hn; [|discriminate]. cbn [rbind]. case_bool_decide as Hseen; [discriminate|]. cbn [negb].
  destruct (normalize_flags _ flags _) as [[rest asks1]|] eqn:Hr; [|discriminate]. cbn [rbind fst snd]. intros [= <- <-].
  destruct (IH _ _ _ _ Hr) as (Hwf & Hnd & Hfresh & Hlen & ->). apply normalizeRiskFlag_wf in Hn as [Hn Hadmin].
  destruct asks as [[[a b] c] d]. split_and!.
  - by constructor.
  - cbn. constructor; [|done]. intros Hin. apply Hfresh in Hin. set_solver.
  - cbn. intros id [->|Hin]%elem_of_cons; [done|]. apply Hfresh in Hin. set_solver.
  - cbn. by rewrite Hlen.
  - cbn. unfold asked. rewrite <- !orb_assoc. do 4 f_equal. destruct (rf_RequiresAdmin normalized) eqn:Ha; [|done].
    by rewrite Hadmin by done.
Qed.

Lemma normalize_flags_fix seen flags asks : Forall wf_flag flags → NoDup (rf_ID <$> flags) → (∀ id, id ∈ rf_ID <$> flags → id ∉ seen) →
  ∃ asks', normalize_flags seen flags asks = Ok (flags, asks').
Proof.
  intros Hwf. revert seen asks. induction Hwf as [|flag flags [Hf _] _ IH]; intros seen asks Hnd Hfresh; [eexists; done|].
  cbn [fmap list_fmap] in *. apply NoDup_cons in Hnd as [Hnin Hnd]. cbn [normalize_flags]. rewrite Hf. cbn [rbind].
  rewrite bool_decide_eq_false_2 by (apply Hfresh; left). cbn [negb].
  destruct (IH (rf_ID flag :: seen) (raise asks flag) Hnd) as [asks' ->]; [|eexists; done].
  intros id Hid. rewrite not_elem_of_cons. split; [by intros ->|]. apply Hfresh. by right.
Qed.

(** The plan that is built from the flags and what they ask for. *)
Definition built (plan : RiskPlan) (flags : list RiskFlag) (asks : bool * bool * bool * bool) : RiskPlan :=
  mkRiskPlan (TrimSpace (rp_SchemaVersion plan)) (TrimSpace (rp_CapabilityID plan)) (TrimSpace (rp_BindingID plan)) (TrimSpace (rp_Method plan))
    (TrimSpace (rp_TargetMethod plan)) (TrimSpace (rp_Action plan)) (rp_Effect plan) (TrimSpace (rp_ResourceRef plan))
    (TrimSpace (rp_ResourceDisplayName plan)) (TrimSpace (rp_Summary plan)) flags asks.1.1.1 asks.1.1.2 asks.1.2 asks.2
    (TrimSpace (rp_DenyReason plan)) (rp_Details plan).

Definition plan_asks (plan : RiskPlan) : bool * bool * bool * bool :=
  (rp_RequiresConfirmation plan, rp_RequiresAdmin plan, rp_DataLossRisk plan, rp_Destructive plan).

(** The checks of the plan outside its flags. *)
Definition plan_ok (plan : RiskPlan) : Prop :=
  TrimSpace (rp_SchemaVersion plan) = RiskPlanSchemaVersion ∧ TrimSpace (rp_Summary plan) ≠ "" ∧
  bool_decide (rp_Effect plan = "") || validRiskEffect (rp_Effect plan) = true.

Lemma NormalizeRiskPlan_spec plan p : NormalizeRiskPlan plan = Ok p ↔
  ∃ flags asks, plan_ok plan ∧ normalize_flags [] (rp_RiskFlags plan) (plan_asks plan) = Ok (flags, asks) ∧ p = built plan flags asks.
Proof.
  unfold NormalizeRiskPlan, plan_ok, plan_asks. split.
  - case_bool_decide as H1; [discriminate|]. cbn [negb]. case_bool_decide as H2; [|discriminate].
    case_bool_decide as H3; [discriminate|]. cbn [negb]. destruct (_ || _) eqn:H4; [|discriminate].
    destruct (normalize_flags _ _ _) as [[flags [[[a b] c] d]]|] eqn:Hf; [|discriminate]. cbn [rbind]. intros H. injection H as <-.
    exists flags, (a, b, c, d). split_and!; [exact H2|exact H3|reflexivity..].
  - intros (flags & [[[a b] c] d] & (H2 & H3 & H4) & Hf & ->). rewrite H2, H4, Hf.
    rewrite (bool_decide_eq_false_2 (TrimSpace (rp_Summary plan) = "")) by exact H3. unfold built. rewrite H2. reflexivity.
Qed.

Lemma NormalizeRiskPlan_idemp plan p : NormalizeRiskPlan plan = Ok p → NormalizeRiskPlan p = Ok p.
Proof.
  rewrite !NormalizeRiskPlan_spec. intros (flags & asks & (H1 & H2 & H3) & Hf & ->).
  apply normalize_flags_spec in Hf as (Hwf & Hnd & _ & _ & Hasks).
  destruct (normalize_flags_fix [] flags (plan_asks (built plan flags asks)) Hwf Hnd) as [asks' Hf']; [set_solver|].
  exists flags, asks'. split; [|split; [exact Hf'|]].
  - unfold plan_ok, built. cbn [rp_SchemaVersion rp_Summary rp_Effect]. rewrite !TrimSpace_idemp. split_and!; assumption.
  - apply normalize_flags_spec in Hf' as (_ & _ & _ & _ & ->). rewrite Hasks. unfold built, plan_asks.
    cbn [rp_SchemaVersion rp_CapabilityID rp_BindingID rp_Method rp_TargetMethod rp_Action rp_Effect rp_ResourceRef rp_ResourceDisplayName
         rp_Summary rp_RequiresConfirmation rp_RequiresAdmin rp_DataLossRisk rp_Destructive rp_DenyReason rp_Details fst snd].
    rewrite !TrimSpace_idemp, <- !orb_assoc, !orb_diag. reflexivity.
Qed.

(** A normalized risk plan is a fixed point of normalization, its flags
    are in normal form with distinct ids, and it asks for confirmation, an
    administrator, and warns of data loss and destruction exactly when the
    plan or one of its flags does; a flag that needs an administrator makes the
    plan ask for confirmation. *)
Theorem risk_plan_normal plan p : NormalizeRiskPlan plan = Ok p →
  NormalizeRiskPlan p = Ok p ∧ Forall wf_flag (rp_RiskFlags p) ∧ NoDup (rf_ID <$> rp_RiskFlags p) ∧
  rp_RequiresConfirmation p = rp_RequiresConfirmation plan || asked rf_RequiresConfirmation (rp_RiskFlags p) ∧
  rp_RequiresAdmin p = rp_RequiresAdmin plan || asked rf_RequiresAdmin (rp_RiskFlags p) ∧
  rp_DataLossRisk p = rp_DataLossRisk plan || asked rf_DataLossRisk (rp_RiskFlags p) ∧
  rp_Destructive p = rp_Destructive plan || asked rf_Destructive (rp_RiskFlags p) ∧
  (∀ flag, flag ∈ rp_RiskFlags p → rf_RequiresAdmin flag = true → rp_RequiresConfirmation p = true).
Proof.
  intros H. split; [by eapply NormalizeRiskPlan_idemp|]. apply NormalizeRiskPlan_spec in H as (flags & asks & _ & Hf & ->).
  apply normalize_flags_spec in Hf as (Hwf & Hnd & _ & _ & ->). unfold built, plan_asks.
  cbn [rp_RiskFlags rp_RequiresConfirmation rp_RequiresAdmin rp_DataLossRisk rp_Destructive fst snd]. split_and!; try reflexivity; try assumption.
  intros flag Hin Hadm. apply orb_true_iff. right. unfold asked. apply existsb_exists. exists flag.
  split; [by apply list_elem_of_In|]. rewrite Forall_forall in Hwf. by apply Hwf.
Qed.
End risk.

Lemma risk_plan_normal_witness : ∃ p,
  NormalizeRiskPlan id (mkRiskPlan " redevplugin.capability.risk_plan.v1" "c" "b" "m" "" "" "delete" "" "" " Delete it "
    [mkRiskFlag " wipe" "HIGH " "wipes" "" false true true false] false false false false "" None) = Ok p ∧
  NormalizeRiskPlan id p = Ok p ∧ rp_RequiresConfirmation p = true ∧ rp_Summary p = "Delete it".
Proof.
  eexists. split; [vm_compute; reflexivity|]. split; [|split; reflexivity].
  eapply (risk_plan_normal id (mkRiskPlan " redevplugin.capability.risk_plan.v1" "c" "b" "m" "" "" "delete" "" "" " Delete it "
    [mkRiskFlag " wipe" "HIGH " "wipes" "" false true true false] false false false false "" None)). vm_compute. reflexivity.
Defined.
