(* ===== verification/Admission.v ===== *)
(** * Admission of worker calls ([internal/runtimeclient/admission.go])

    The controller that bounds the calls of a shard, in total and for each
    plugin. Callers wait on a channel that every release closes and replaces;
    channels are numbered, and those before the current one are closed. Each
    critical section of the mutex is one action; what happens between them is
    the interleaving. A controller is not nil. *)

From S2P Require Import Prelude GoLib SessionCtx Manager.

Open Scope Z_scope.

Record runtimeAdmissionController := mkAdmission {
  ac_totalCapacity : Z;
  ac_pluginCapacity : Z;
  ac_active : Z;
  ac_byPlugin : gmap string Z;
  ac_notify : nat;
}.

Definition newRuntimeAdmissionController (limits : RuntimeLimits) : runtimeAdmissionController :=
  let pluginQueueCapacity := Z.min (rl_QueueCapacity limits) (rl_PerPluginConcurrency limits) in
  mkAdmission (rl_WorkerCount limits + rl_QueueCapacity limits) (rl_PerPluginConcurrency limits + pluginQueueCapacity) 0 ∅ 0.

(** [c.byPlugin[pluginInstanceID]] *)
Definition plugin_count (c : runtimeAdmissionController) (p : string) : Z := default 0 (ac_byPlugin c !! p).

Definition has_room (c : runtimeAdmissionController) (p : string) : bool :=
  (ac_active c <? ac_totalCapacity c) && (plugin_count c p <? ac_pluginCapacity c).

Definition admit_call (p : string) (c : runtimeAdmissionController) : runtimeAdmissionController :=
  mkAdmission (ac_totalCapacity c) (ac_pluginCapacity c) (ac_active c + 1) (<[p := plugin_count c p + 1]> (ac_byPlugin c)) (ac_notify c).

(** The function [acquire] returns. *)
Definition release (p : string) (c : runtimeAdmissionController) : runtimeAdmissionController :=
  let n := plugin_count c p - 1 in
  mkAdmission (ac_totalCapacity c) (ac_pluginCapacity c) (ac_active c - 1)
    (if n =? 0 then delete p (ac_byPlugin c) else <[p := n]> (ac_byPlugin c)) (S (ac_notify c)).

(** ** Callers *)

(** A caller is before the lock, in the [select], admitted, or has returned. *)
Inductive Caller :=
| Trying (p : string)
| Waiting (p : string) (channel : nat)
| Inside (p : string)
| Returned.

Inductive Action :=
| Call (t : nat) (pluginInstanceID : string)
| Attempt (t : nat)
| Wake (t : nat)
| Cancel (t : nat)
| Release (t : nat).

Record System := mkSystem {
  sy_controller : runtimeAdmissionController;
  sy_callers : gmap nat Caller;
}.

Definition new_system (limits : RuntimeLimits) : System := mkSystem (newRuntimeAdmissionController limits) ∅.

(** An action, if it can be taken now. The loop of [acquire] is [Attempt] and
    then [Wake] and [Attempt] again, or [Cancel] when the context is done. *)
Definition act (a : Action) (s : System) : option System :=
  let c := sy_controller s in
  let move t caller c := Some (mkSystem c (<[t := caller]> (sy_callers s))) in
  match a with
  | Call t pluginInstanceID =>
     let p := TrimSpace pluginInstanceID in
     match sy_callers s !! t with
     | None => move t (if bool_decide (p = "") then Returned else Trying p) c
     | Some _ => None
     end
  | Attempt t =>
     match sy_callers s !! t with
     | Some (Trying p) => if has_room c p then move t (Inside p) (admit_call p c) else move t (Waiting p (ac_notify c)) c
     | _ => None
     end
  | Wake t =>
     match sy_callers s !! t with
     | Some (Waiting p channel) => if (channel <? ac_notify c)%nat then move t (Trying p) c else None
     | _ => None
     end
  | Cancel t =>
     match sy_callers s !! t with
     | Some (Waiting p channel) => move t Returned c
     | _ => None
     end
  | Release t =>
     match sy_callers s !! t with
     | Some (Inside p) => move t Returned (release p c)
     | _ => None
     end
  end.

Fixpoint run (actions : list Action) (s : System) : option System :=
  match actions with
  | [] => Some s
  | a :: actions => match act a s with Some s => run actions s | None => None end
  end.

(** ** The invariant *)

Definition admitted (x : Caller) : bool := match x with Inside _ => true | _ => false end.
Definition admitted_for (p : string) (x : Caller) : bool := match x with Inside q => bool_decide (q = p) | _ => false end.

Record admission_ok (s : System) : Prop := {
  ad_active : ac_active (sy_controller s) = Z.of_nat (count admitted (sy_callers s));
  ad_plugin : ∀ p, plugin_count (sy_controller s) p = Z.of_nat (count (admitted_for p) (sy_callers s));
  ad_positive : ∀ p n, ac_byPlugin (sy_controller s) !! p = Some n → 0 < n;
  ad_total : ac_active (sy_controller s) ≤ ac_totalCapacity (sy_controller s);
  ad_each : ∀ p, plugin_count (sy_controller s) p ≤ ac_pluginCapacity (sy_controller s);
  ad_asleep : ∀ t p channel, sy_callers s !! t = Some (Waiting p channel) →
    (channel ≤ ac_notify (sy_controller s))%nat ∧ (channel = ac_notify (sy_controller s) → has_room (sy_controller s) p = false);
}.

Lemma plugin_count_insert c p q n a k : plugin_count (mkAdmission (ac_totalCapacity c) (ac_pluginCapacity c) a (<[p := n]> (ac_byPlugin c)) k) q =
  if decide (q = p) then n else plugin_count c q.
Proof.
  unfold plugin_count. cbn [ac_byPlugin]. case_decide as Hq; [subst q; by rewrite lookup_insert_eq|]. by rewrite lookup_insert_ne.
Qed.

Lemma plugin_count_release c p q : plugin_count (release p c) q = if decide (q = p) then plugin_count c p - 1 else plugin_count c q.
Proof.
  unfold release. destruct (Z.eqb_spec (plugin_count c p - 1) 0) as [Hz|Hz]; [|apply plugin_count_insert].
  unfold plugin_count at 1. cbn [ac_byPlugin]. case_decide as Hq; [subst q; rewrite lookup_delete_eq; cbn; lia|]. by rewrite lookup_delete_ne.
Qed.

(** A caller that neither was nor becomes admitted changes no count. *)
Lemma count_move (f : Caller → bool) (m : gmap nat Caller) t x y : (m !! t = Some y ∨ (m !! t = None ∧ f y = false)) → f x = f y → count f (<[t := x]> m) = count f m.
Proof.
  intros [Ht|[Ht Hy]] Hf.
  - pose proof (count_insert f m t x y Ht). rewrite Hf in *. lia.
  - rewrite count_insert_fresh by done. rewrite Hf, Hy. cbn. lia.
Qed.

(** Such a caller keeps the invariant, if it does not fall asleep wrongly. *)
Lemma move_ok s t x y : admission_ok s → (sy_callers s !! t = Some y ∨ (sy_callers s !! t = None ∧ y = Returned)) → admitted y = false →
  admitted x = false →
  (∀ p channel, x = Waiting p channel → channel = ac_notify (sy_controller s) ∧ has_room (sy_controller s) p = false) →
  admission_ok (mkSystem (sy_controller s) (<[t := x]> (sy_callers s))).
Proof.
  intros [Ha Hp Hpos Htot Heach Hsleep] Ht Hy Hx Hwait.
  assert (∀ f, f y = false → f x = f y → count f (<[t := x]> (sy_callers s)) = count f (sy_callers s)) as Hcount.
  { intros f Hfy Hf. apply (count_move f _ _ _ y); [|done]. destruct Ht as [|[? ->]]; auto. }
  split; cbn [sy_controller sy_callers]; try done.
  - rewrite Hcount; [done..|]. congruence.
  - intros p. rewrite Hcount; [done| |]; destruct y, x; done.
  - intros t' p channel [[_ ->]|[_ Hl]]%lookup_insert_Some; [|by eapply Hsleep]. destruct (Hwait p channel eq_refl) as [-> ?]. by split.
Qed.

Lemma admit_ok s t p : admission_ok s → sy_callers s !! t = Some (Trying p) → has_room (sy_controller s) p = true →
  admission_ok (mkSystem (admit_call p (sy_controller s)) (<[t := Inside p]> (sy_callers s))).
Proof.
  intros [Ha Hp Hpos Htot Heach Hsleep] Ht Hroom. unfold has_room in Hroom. rewrite andb_true_iff, !Z.ltb_lt in Hroom.
  set (c := sy_controller s) in *. assert (∀ q, plugin_count (admit_call p c) q = if decide (q = p) then plugin_count c p + 1 else plugin_count c q) as Hq.
  { intros q. apply plugin_count_insert. }
  split; cbn [sy_controller sy_callers].
  - pose proof (count_insert admitted _ _ (Inside p) _ Ht). cbn [admitted b2n admit_call ac_active] in *. lia.
  - intros q. rewrite Hq. pose proof (count_insert (admitted_for q) _ _ (Inside p) _ Ht) as Hc. cbn [admitted_for b2n] in Hc.
    specialize (Hp q). destruct (decide (q = p)) as [->|Hqp];
      [ rewrite bool_decide_eq_true_2 in Hc by done|rewrite bool_decide_eq_false_2 in Hc by done]; cbn [b2n] in Hc; lia.
  - intros q n. cbn [admit_call ac_byPlugin]. intros [[_ <-]|[_ Hl]]%lookup_insert_Some; [|by eapply Hpos]. rewrite Hp. lia.
  - cbn [admit_call ac_active ac_totalCapacity]. lia.
  - intros q. rewrite Hq. cbn [admit_call ac_pluginCapacity]. destruct (decide (q = p)); [lia|done].
  - intros t' q channel [[_ ?]|[_ Hl]]%lookup_insert_Some; [done|]. destruct (Hsleep _ _ _ Hl) as [Hle Hfull]. cbn [admit_call ac_notify].
    split; [done|]. intros Hch. specialize (Hfull Hch). unfold has_room in *. rewrite Hq. cbn [admit_call ac_active ac_totalCapacity ac_pluginCapacity].
    rewrite andb_false_iff, !Z.ltb_ge in *. destruct Hfull; [left; lia|right]. destruct (decide (q = p)) as [->|]; lia.
Qed.

Lemma release_ok s t p : admission_ok s → sy_callers s !! t = Some (Inside p) →
  admission_ok (mkSystem (release p (sy_controller s)) (<[t := Returned]> (sy_callers s))).
Proof.
  intros [Ha Hp Hpos Htot Heach Hsleep] Ht. set (c := sy_controller s) in *.
  pose proof (count_pos (admitted_for p) _ _ _ Ht ltac:(by cbn; rewrite bool_decide_eq_true_2)) as Hone.
  split; cbn [sy_controller sy_callers].
  - pose proof (count_insert admitted _ _ Returned _ Ht). cbn [admitted b2n release ac_active] in *. lia.
  - intros q. rewrite plugin_count_release. pose proof (count_insert (admitted_for q) _ _ Returned _ Ht) as Hc. cbn [admitted_for b2n] in Hc.
    specialize (Hp q). destruct (decide (q = p)) as [->|Hqp];
      [ rewrite bool_decide_eq_true_2 in Hc by done|rewrite bool_decide_eq_false_2 in Hc by done]; cbn [b2n] in Hc; lia.
  - intros q n. unfold release. cbn [ac_byPlugin]. specialize (Hp p). destruct (Z.eqb_spec (plugin_count c p - 1) 0).
    + intros [_ Hl]%lookup_delete_Some. by eapply Hpos.
    + intros [[_ <-]|[_ Hl]]%lookup_insert_Some; [lia|by eapply Hpos].
  - cbn [release ac_active ac_totalCapacity]. lia.
  - intros q. rewrite plugin_count_release. cbn [release ac_pluginCapacity]. specialize (Heach q). destruct (decide (q = p)) as [->|]; lia.
  - intros t' q channel [[_ ?]|[_ Hl]]%lookup_insert_Some; [done|]. destruct (Hsleep _ _ _ Hl) as [Hle _]. cbn [release ac_notify]. lia.
Qed.

Lemma act_ok a s s' : admission_ok s → act a s = Some s' → admission_ok s'.
Proof.
  intros Hok. destruct a as [t p|t|t|t|t]; cbn [act]; destruct (sy_callers s !! t) as [[q|q ch|q|]|] eqn:Ht; try done.
  - intros [= <-]. apply (move_ok s t _ Returned); [done|auto|done| |]; case_bool_decide; done.
  - destruct (has_room _ q) eqn:Hroom; intros [= <-]; [by apply admit_ok|]. apply (move_ok s t _ (Trying q)); auto. by intros p ch [= <- <-].
  - destruct (ch <? _)%nat; intros [= <-]. apply (move_ok s t _ (Waiting q ch)); auto. done.
  - intros [= <-]. apply (move_ok s t _ (Waiting q ch)); auto. done.
  - intros [= <-]. by apply release_ok.
Qed.

Lemma act_capacity a s s' : act a s = Some s' →
  ac_totalCapacity (sy_controller s') = ac_totalCapacity (sy_controller s) ∧ ac_pluginCapacity (sy_controller s') = ac_pluginCapacity (sy_controller s).
Proof.
  destruct a as [t p|t|t|t|t]; cbn [act]; destruct (sy_callers s !! t) as [[q|q ch|q|]|] eqn:Ht; try done; try (by intros [= <-]).
  - by destruct (has_room _ q); intros [= <-].
  - by destruct (ch <? _)%nat; intros [= <-].
Qed.

Lemma run_ok actions s s' : admission_ok s → run actions s = Some s' →
  admission_ok s' ∧ ac_totalCapacity (sy_controller s') = ac_totalCapacity (sy_controller s) ∧
  ac_pluginCapacity (sy_controller s') = ac_pluginCapacity (sy_controller s).
Proof.
  revert s. induction actions as [|a actions IH]; intros s Hok; cbn [run]; [by intros [= <-]|].
  destruct (act a s) as [s1|] eqn:Ha; [|done]. intros Hrun. destruct (act_capacity _ _ _ Ha) as [<- <-]. apply IH; [by eapply act_ok|done].
Qed.

Lemma new_ok limits : ValidateRuntimeLimits limits = true → admission_ok (new_system limits) ∧
  1 ≤ ac_totalCapacity (newRuntimeAdmissionController limits) ∧ 1 ≤ ac_pluginCapacity (newRuntimeAdmissionController limits).
Proof.
  unfold ValidateRuntimeLimits, within. rewrite !andb_true_iff, !negb_true_iff, !orb_false_iff, !Z.ltb_ge. intros H.
  split; [|cbn; lia]. split; cbn [new_system sy_controller sy_callers newRuntimeAdmissionController ac_active ac_totalCapacity ac_pluginCapacity ac_byPlugin].
  - assert (count admitted (∅ : gmap nat Caller) = 0%nat) as ->; [by apply count_zero|done].
  - intros p. change (plugin_count _ p) with 0.
    assert (count (admitted_for p) (∅ : gmap nat Caller) = 0%nat) as ->; [by apply count_zero|done].
  - done.
  - lia.
  - intros p. change (plugin_count _ p) with 0. lia.
  - done.
Qed.

Lemma count_some (f : Caller → bool) (m : gmap nat Caller) : (0 < count f m)%nat → ∃ t x, m !! t = Some x ∧ f x = true.
Proof.
  intros Hc. destruct (map_choose (filter (λ kv, f kv.2 = true) m)) as (t & x & [Ht Hf]%map_lookup_filter_Some).
  { intros He. unfold count in Hc. rewrite He, map_size_empty in Hc. lia. }
  by exists t, x.
Qed.

(** C31: Under any interleaving of calls the admitted calls of a shard are at
    most its workers and its queue, and those of a plugin at most its share of
    both. No wake-up is lost: a caller that waits can wake at once, or the
    shard or the plugin is full and there is an admitted call, of this plugin
    if it is the plugin that is full, whose release lets the caller wake. *)
Theorem admission_bounded_no_lost_wakeup limits actions s : ValidateRuntimeLimits limits = true → run actions (new_system limits) = Some s →
  Z.of_nat (count admitted (sy_callers s)) ≤ rl_WorkerCount limits + rl_QueueCapacity limits ∧
  (∀ p, Z.of_nat (count (admitted_for p) (sy_callers s)) ≤
     rl_PerPluginConcurrency limits + Z.min (rl_QueueCapacity limits) (rl_PerPluginConcurrency limits)) ∧
  ∀ t p channel, sy_callers s !! t = Some (Waiting p channel) →
    is_Some (act (Wake t) s) ∨
    ∃ t' q s', (Z.of_nat (count admitted (sy_callers s)) = rl_WorkerCount limits + rl_QueueCapacity limits ∨
                q = p ∧ Z.of_nat (count (admitted_for p) (sy_callers s)) =
                        rl_PerPluginConcurrency limits + Z.min (rl_QueueCapacity limits) (rl_PerPluginConcurrency limits)) ∧
      sy_callers s !! t' = Some (Inside q) ∧ act (Release t') s = Some s' ∧ is_Some (act (Wake t) s').
Proof.
  intros (Hok & Htot1 & Hplug1)%new_ok Hrun. destruct (run_ok _ _ _ Hok Hrun) as ([Ha Hp _ Htot Heach Hsleep] & Ht & Hpl). clear Hok.
  cbn [new_system sy_controller newRuntimeAdmissionController ac_totalCapacity ac_pluginCapacity] in *.
  split; [lia|]. split; [intros p; specialize (Heach p); rewrite Hp in Heach; lia|].
  intros t p channel Hw. destruct (Hsleep t p channel Hw) as [Hle Hfull]. cbn [act]. rewrite Hw.
  destruct (Nat.ltb_spec channel (ac_notify (sy_controller s))) as [|Hge]; [left; eauto|right].
  specialize (Hfull ltac:(lia)). unfold has_room in Hfull. rewrite andb_false_iff, !Z.ltb_ge in Hfull.
  assert (∃ t' q, (ac_totalCapacity (sy_controller s) ≤ ac_active (sy_controller s) ∨ q = p ∧ ac_pluginCapacity (sy_controller s) ≤ plugin_count (sy_controller s) p) ∧
    sy_callers s !! t' = Some (Inside q)) as (t' & q & Hq & Hin).
  { destruct Hfull as [Hfull|Hfull].
    - destruct (count_some admitted (sy_callers s)) as (t' & x & Hin & Hx); [lia|]. destruct x as [| |q|]; try done. eauto.
    - specialize (Hp p). destruct (count_some (admitted_for p) (sy_callers s)) as (t' & x & Hin & Hx); [lia|].
      destruct x as [| |q|]; try done. cbn in Hx. apply bool_decide_eq_true in Hx as ->. exists t', p. split; [right; by split|done]. }
  exists t', q. rewrite Hin. eexists. split; [|split; [reflexivity|split; [reflexivity|]]].
  - specialize (Hp p). specialize (Heach p). destruct Hq as [Hq|[-> Hq]]; [left; lia|right]. split; [done|lia].
  - cbn [sy_callers]. rewrite lookup_insert_ne by congruence. rewrite Hw. cbn [sy_controller release ac_notify].
    rewrite (proj2 (Nat.ltb_lt channel _)) by lia. eauto.
Qed.

(** One worker, one place in the queue, one call for each plugin and one in
    the queue: the third call waits and is woken by a release. *)
Definition demo_limits : RuntimeLimits := mkLimits 1 1 1 1 1.

Definition demo_waiting : list Action := [Call 0 "a"; Call 1 " b "; Call 2 "a"; Attempt 0; Attempt 1; Attempt 2].

Lemma admission_bounded_no_lost_wakeup_witness : ∃ s, run demo_waiting (new_system demo_limits) = Some s ∧
  sy_callers s !! 2%nat = Some (Waiting "a" 0) ∧ act (Wake 2) s = None ∧
  ∃ t' s', act (Release t') s = Some s' ∧ is_Some (act (Wake 2) s').
Proof.
  destruct (run demo_waiting (new_system demo_limits)) as [s|] eqn:Hs; [|vm_compute in Hs; discriminate].
  exists s. split; [reflexivity|].
  assert (sy_callers s !! 2%nat = Some (Waiting "a" 0) ∧ act (Wake 2) s = None) as [Hw Hno].
  { revert Hs. vm_compute. intros H. injection H as <-. split; reflexivity. }
  split; [exact Hw|]. split; [exact Hno|].
  destruct (admission_bounded_no_lost_wakeup demo_limits demo_waiting s ltac:(vm_compute; reflexivity) Hs) as (_ & _ & H).
  destruct (H 2%nat "a" 0%nat Hw) as [[x Hx]|(t' & q & s' & _ & _ & Hr & Hwake)]; [rewrite Hno in Hx; discriminate|].
  exists t', s'. split; [exact Hr|exact Hwake].
Defined.
