(* ===== verification/BoundedRead.v ===== *)
(** * Bounded reading of responses ([pkg/connectivity/connectivity.go])

    The limits of requests and responses, the reader of a whole response and
    the loop that hands a response over in chunks. A reader is any function of
    the buffer size with the contract of [io.Reader]; the calls of the handler
    are the trace of the loop. *)

From S2P Require Import Prelude GoLib Encoding Json Ipc.

Open Scope go_scope.
Open Scope Z_scope.

Definition DefaultMaxNetworkRequestBytes : Z := Z.shiftl 1 20.
Definition DefaultMaxNetworkResponseBytes : Z := Z.shiftl 1 20.
Definition DefaultHTTPStreamChunkBytes : Z := Z.shiftl 32 10.

(** [io.EOF] or another error. *)
Inductive ReadError := ReadEOF | ReadFailed (e : nat).

Inductive BoundError :=
| ErrRequestTooLarge
| ErrResponseTooLarge
| HandlerRequired
| HandlerFailed (e : nat)
| BoundRead (e : ReadError).

(** [checkSize] with the error it wraps. *)
Definition checkSize (size defaultLimit overrideLimit : Z) (err : BoundError) : Result BoundError unit :=
  let limit := if (0 <? overrideLimit) && (overrideLimit <? defaultLimit) then overrideLimit else defaultLimit in
  if (0 <? limit) && (limit <? size) then Err err else Ok tt.

Definition responseLimit (overrideLimit defaultLimit : Z) : Z :=
  if (0 <? overrideLimit) && (overrideLimit <? defaultLimit) then overrideLimit else defaultLimit.

Definition timeoutOrDefault (timeout defaultTimeout : Z) : Z := if 0 <? timeout then timeout else defaultTimeout.

Definition httpStreamChunkSize (maxChunkBytes : Z) : Z :=
  if (maxChunkBytes <=? 0) || (DefaultHTTPStreamChunkBytes <? maxChunkBytes) then DefaultHTTPStreamChunkBytes else maxChunkBytes.

Record httpStreamStats := mkStats {
  hs_bytesRead : Z;
  hs_chunkCount : Z;
}.

(** [HTTPResponseChunk] *)
Record HTTPResponseChunk := mkChunk {
  hc_Index : Z;
  hc_Data : bytes;
}.

Section reading.
Context {R : Type} (Read : nat → R → R * bytes * option ReadError).

(** The end of a round of the loop: the error of the read. *)
Definition stream_end (err : option ReadError) : option (option BoundError) :=
  match err with
  | Some ReadEOF => Some None
  | Some e => Some (Some (BoundRead e))
  | None => None
  end.

(** The loop of [streamBounded]; [None] is out of fuel. *)
Fixpoint stream_loop (fuel : nat) (maxBytes : Z) (buf : Z) (onChunk : HTTPResponseChunk → option nat) (reader : R)
    (stats : httpStreamStats) (calls : list HTTPResponseChunk) : option (httpStreamStats * list HTTPResponseChunk * option BoundError) :=
  match fuel with
  | O => None
  | S fuel =>
     let remaining := maxBytes - hs_bytesRead stats in
     let readSize := if remaining <? buf then remaining + 1 else buf in
     let '(reader, data, err) := Read (Z.to_nat readSize) reader in
     if 0 <? blen data then
       if maxBytes <? hs_bytesRead stats + blen data then Some (stats, calls, Some ErrResponseTooLarge)
       else
         let chunk := mkChunk (hs_chunkCount stats) data in
         match onChunk chunk with
         | Some e => Some (stats, calls ++ [chunk], Some (HandlerFailed e))
         | None =>
            let stats := mkStats (hs_bytesRead stats + blen data) (hs_chunkCount stats + 1) in
            match stream_end err with
            | Some result => Some (stats, calls ++ [chunk], result)
            | None => stream_loop fuel maxBytes buf onChunk reader stats (calls ++ [chunk])
            end
         end
     else
       match stream_end err with
       | Some result => Some (stats, calls, result)
       | None => stream_loop fuel maxBytes buf onChunk reader stats calls
       end
  end.

Definition streamBounded (fuel : nat) (reader : R) (maxBytes maxChunkBytes : Z) (onChunk : option (HTTPResponseChunk → option nat)) :
    option (httpStreamStats * list HTTPResponseChunk * option BoundError) :=
  if maxBytes <=? 0 then Some (mkStats 0 0, [], Some ErrResponseTooLarge)
  else match onChunk with
  | None => Some (mkStats 0 0, [], Some HandlerRequired)
  | Some onChunk => stream_loop fuel maxBytes (httpStreamChunkSize maxChunkBytes) onChunk reader (mkStats 0 0) []
  end.

(** [io.ReadAll] of an [io.LimitReader] with [n] bytes left; [spare] is the
    free capacity of the buffer at each read. *)
Fixpoint read_all_limited (fuel : nat) (spare : bytes → nat) (reader : R) (n : Z) (body : bytes) : option (Result ReadError bytes) :=
  match fuel with
  | O => None
  | S fuel =>
     if n <=? 0 then Some (Ok body)
     else
       let size := spare body in
       let size := if n <? Z.of_nat size then Z.to_nat n else size in
       let '(reader, data, err) := Read size reader in
       let body := body ++ data in
       match err with
       | Some ReadEOF => Some (Ok body)
       | Some e => Some (Err e)
       | None => read_all_limited fuel spare reader (n - blen data) body
       end
  end.

Definition readBounded (fuel : nat) (spare : bytes → nat) (reader : R) (maxBytes : Z) : option (Result BoundError bytes) :=
  if maxBytes <=? 0 then Some (Err ErrResponseTooLarge)
  else match read_all_limited fuel spare reader (maxBytes + 1) [] with
  | None => None
  | Some (Err e) => Some (Err (BoundRead e))
  | Some (Ok body) => Some (if maxBytes <? blen body then Err ErrResponseTooLarge else Ok body)
  end.

(** ** Readers *)

(** The reader gives [data] and then the error [e], in reads of any sizes; a
    read gives a byte at least, or the error. *)
Inductive yields : R → bytes → ReadError → Prop :=
| yields_reads r data e :
    (∀ k, (0 < k)%nat → ∃ r' b oe, Read k r = (r', b, oe) ∧ (length b ≤ k)%nat ∧
       ((oe = Some e ∧ b = data) ∨ (oe = None ∧ b ≠ [] ∧ ∃ rest, data = b ++ rest ∧ yields r' rest e))) →
    yields r data e.

Lemma yields_inv r data e k : yields r data e → (0 < k)%nat → ∃ r' b oe, Read k r = (r', b, oe) ∧ (length b ≤ k)%nat ∧
  ((oe = Some e ∧ b = data) ∨ (oe = None ∧ b ≠ [] ∧ ∃ rest, data = b ++ rest ∧ yields r' rest e)).
Proof. intros H. destruct H as [r data e H]. apply H. Qed.

(** What the end of a response means. *)
Definition ended (e : ReadError) : option BoundError := match e with ReadEOF => None | e => Some (BoundRead e) end.

Lemma stream_end_ended e : stream_end (Some e) = Some (ended e).
Proof. by destruct e. Qed.

Definition body_of (calls : list HTTPResponseChunk) : bytes := concat (hc_Data <$> calls).

Lemma body_of_snoc calls c : body_of (calls ++ [c]) = body_of calls ++ hc_Data c.
Proof. unfold body_of. rewrite fmap_app, concat_app. cbn. by rewrite app_nil_r. Qed.

(** The calls are numbered and hold at most a buffer each. *)
Definition calls_ok (buf : Z) (calls : list HTTPResponseChunk) : Prop :=
  ∀ i c, calls !! i = Some c → hc_Index c = Z.of_nat i ∧ 0 < blen (hc_Data c) ≤ buf.

Lemma calls_ok_snoc buf calls c : calls_ok buf calls → hc_Index c = Z.of_nat (length calls) → 0 < blen (hc_Data c) ≤ buf →
  calls_ok buf (calls ++ [c]).
Proof.
  intros Hc Hi Hd i x. rewrite lookup_app_Some. intros [Hl|[Hge Hl]]; [by apply Hc|].
  destruct (i - length calls)%nat as [|n] eqn:Hn; [|destruct n; done]. cbn in Hl. injection Hl as <-. split; [lia|done].
Qed.

Lemma stream_loop_spec fuel maxBytes buf onChunk r data e stats calls :
  yields r data e → (length data < fuel)%nat → 0 < buf → (∀ c, onChunk c = None) →
  calls_ok buf calls → hs_bytesRead stats = blen (body_of calls) → hs_chunkCount stats = Z.of_nat (length calls) →
  blen (body_of calls) ≤ maxBytes →
  ∃ stats' calls' result, stream_loop fuel maxBytes buf onChunk r stats calls = Some (stats', calls', result) ∧
    calls_ok buf calls' ∧ hs_bytesRead stats' = blen (body_of calls') ∧ hs_chunkCount stats' = Z.of_nat (length calls') ∧
    ∃ rest, body_of calls ++ data = body_of calls' ++ rest ∧ blen (body_of calls') ≤ maxBytes ∧
      if maxBytes <? blen (body_of calls ++ data) then result = Some ErrResponseTooLarge else rest = [] ∧ result = ended e.
Proof.
  revert r data stats calls. induction fuel as [|fuel IH]; intros r data stats calls Hy Hf Hbuf Hon Hok Hb Hn Hmax; [lia|]. cbn [stream_loop].
  set (size := if maxBytes - hs_bytesRead stats <? buf then maxBytes - hs_bytesRead stats + 1 else buf). assert (0 < size ≤ buf) as Hsize.
  { unfold size. destruct (Z.ltb_spec (maxBytes - hs_bytesRead stats) buf); lia. }
  destruct (yields_inv r data e (Z.to_nat size) Hy ltac:(lia)) as (r' & b & oe & -> & Hlen & Hcase).
  assert (∃ rest, data = b ++ rest) as [rest0 Hdata] by (destruct Hcase as [[_ ->]|(_ & _ & rest & -> & _)]; [by exists []; rewrite app_nil_r|eauto]).
  assert (∀ l k : bytes, blen (l ++ k) = blen l + blen k) as Happ by (intros; unfold blen; rewrite length_app; lia).
  destruct (Z.ltb_spec 0 (blen b)) as [Hpos|Hzero].
  - destruct (Z.ltb_spec maxBytes (hs_bytesRead stats + blen b)) as [Hover|Hfit].
    + eexists _, _, _. split; [reflexivity|]. split_and!; try done. exists data. split_and!; [done..|].
      rewrite Hdata, !Happ. assert (0 ≤ blen rest0) by (unfold blen; lia). by rewrite (proj2 (Z.ltb_lt _ _)) by lia.
    + rewrite Hon. set (chunk := mkChunk _ b). set (calls1 := calls ++ [chunk]).
      assert (calls_ok buf calls1) as Hok1 by (apply calls_ok_snoc; [done|done|cbn [chunk hc_Data]; unfold blen in *; lia]).
      assert (body_of calls1 = body_of calls ++ b) as Hbody by apply body_of_snoc.
      assert (Z.of_nat (length calls1) = hs_chunkCount stats + 1) as Hlen1 by (unfold calls1; rewrite length_app; cbn [length]; lia).
      destruct Hcase as [[-> Hbd]|(-> & Hne & rest & Hrest & Hy')].
      * rewrite stream_end_ended. eexists _, _, _. split; [reflexivity|]. cbn [hs_bytesRead hs_chunkCount]. rewrite Hbody, Happ.
        split_and!; [done|lia|lia|]. exists []. subst b. rewrite app_nil_r, Happ. split_and!; [done|lia|].
        by rewrite (proj2 (Z.ltb_ge _ _)) by lia.
      * cbn [stream_end]. destruct (IH r' rest (mkStats (hs_bytesRead stats + blen b) (hs_chunkCount stats + 1)) calls1 Hy')
          as (stats' & calls' & result & Hrun & H); try done; cbn [hs_bytesRead hs_chunkCount]; try lia.
        { subst data. rewrite length_app in Hf. unfold blen in Hpos. lia. }
        { rewrite Hbody, Happ. lia. }
        { rewrite Hbody, Happ. lia. }
        exists stats', calls', result. split; [done|]. rewrite Hbody, <- app_assoc, <- Hrest in H. done.
  - destruct Hcase as [[-> Hbd]|(-> & Hne & rest & Hrest & Hy')].
    + rewrite stream_end_ended. eexists _, _, _. split; [reflexivity|]. split_and!; try done. exists [].
      assert (b = []) as -> by (destruct b; [done|unfold blen in Hzero; cbn in Hzero; lia]). subst data. rewrite app_nil_r.
      split_and!; [done..|]. by rewrite (proj2 (Z.ltb_ge _ _)) by lia.
    + destruct b; [done|]. unfold blen in Hzero. cbn in Hzero. lia.
Qed.
(** [io.ReadAll] of a limited reader: everything, or the first [n] bytes. *)
Lemma read_all_limited_spec fuel spare r data e n body : yields r data e → (∀ b, (0 < spare b)%nat) → (length data < fuel)%nat → 0 < n →
  (blen data < n → read_all_limited fuel spare r n body = Some (match e with ReadEOF => Ok (body ++ data) | e => Err e end)) ∧
  (n ≤ blen data → read_all_limited fuel spare r n body = Some (Ok (body ++ take (Z.to_nat n) data)) ∨
                   (e ≠ ReadEOF ∧ read_all_limited fuel spare r n body = Some (Err e))).
Proof.
  revert r data n body. induction fuel as [|fuel IH]; intros r data n body Hy Hspare Hf Hn; [lia|]. cbn [read_all_limited].
  rewrite (proj2 (Z.leb_gt n 0)) by lia. set (size := if n <? Z.of_nat (spare body) then Z.to_nat n else spare body).
  assert ((0 < size)%nat ∧ Z.of_nat size ≤ n) as [Hs1 Hs2].
  { specialize (Hspare body). unfold size. destruct (Z.ltb_spec n (Z.of_nat (spare body))); lia. }
  destruct (yields_inv r data e size Hy ltac:(lia)) as (r' & b & oe & -> & Hlen & Hcase).
  destruct Hcase as [[-> ->]|(-> & Hne & rest & -> & Hy')].
  - split; [intros _; by destruct e|]. intros Hle. unfold blen in Hle.
    assert (Z.to_nat n = length data) as Hnd by lia. rewrite Hnd, take_ge by lia. destruct e; [by left|right; done].
  - rewrite length_app in Hf. assert (0 < length b)%nat by (destruct b; [done|cbn; lia]).
    assert (blen (b ++ rest) = blen b + blen rest) as Happ by (unfold blen; rewrite length_app; lia). rewrite Happ.
    destruct (decide (n - blen b ≤ 0)) as [Hend|Hmore].
    + assert (Z.to_nat n = length b) as Hnb by (unfold blen in *; lia).
      assert (read_all_limited fuel spare r' (n - blen b) (body ++ b) = Some (Ok (body ++ b))) as ->.
      { destruct fuel; [lia|]. cbn [read_all_limited]. by rewrite (proj2 (Z.leb_le _ _)). }
      split; [unfold blen in *; lia|]. intros _. left. by rewrite Hnb, take_app_length.
    + destruct (IH r' rest (n - blen b) (body ++ b) Hy' Hspare ltac:(lia) ltac:(lia)) as [IH1 IH2]. rewrite <- !app_assoc in *. split.
      * intros Hlt. apply IH1. lia.
      * intros Hle. destruct IH2 as [->|[He ->]]; [lia| |by right]. left. rewrite take_app_ge by (unfold blen in *; lia).
        assert (Z.to_nat n - length b = Z.to_nat (n - blen b))%nat as -> by (unfold blen; lia). done.
Qed.

Lemma readBounded_spec fuel spare r data e maxBytes : yields r data e → (∀ b, (0 < spare b)%nat) → (length data < fuel)%nat → 0 < maxBytes →
  (blen data ≤ maxBytes → readBounded fuel spare r maxBytes = Some (match e with ReadEOF => Ok data | e => Err (BoundRead e) end)) ∧
  (maxBytes < blen data → readBounded fuel spare r maxBytes = Some (Err ErrResponseTooLarge) ∨
                          (e ≠ ReadEOF ∧ readBounded fuel spare r maxBytes = Some (Err (BoundRead e)))).
Proof.
  intros Hy Hspare Hf Hmax. destruct (read_all_limited_spec fuel spare r data e (maxBytes + 1) [] Hy Hspare Hf ltac:(lia)) as [H1 H2].
  unfold readBounded. rewrite (proj2 (Z.leb_gt maxBytes 0)) by lia. split.
  - intros Hle. rewrite H1 by lia. destruct e; cbn [app]; [|done]. by rewrite (proj2 (Z.ltb_ge _ _)).
  - intros Hlt. destruct H2 as [->|[He ->]]; [lia| |by right]. left. cbn [app].
    rewrite (proj2 (Z.ltb_lt _ _)); [done|]. unfold blen in *. rewrite length_take. lia.
Qed.

(** Reading a response terminates within its limit. From any reader that
    gives [data] and then ends, in reads of any sizes, [streamBounded] returns
    after finitely many reads: it hands over the response in order, in numbered
    chunks no larger than the chunk size and never more than [maxBytes] in all,
    and it succeeds exactly when that is the whole response and the reader
    ended with EOF. [readBounded] returns exactly the responses that fit. *)
Theorem bounded_response fuel spare r data e maxBytes maxChunkBytes onChunk : yields r data e → (length data < fuel)%nat → 0 < maxBytes →
  (∀ b, (0 < spare b)%nat) → (∀ c, onChunk c = None) →
  (∃ stats calls result, streamBounded fuel r maxBytes maxChunkBytes (Some onChunk) = Some (stats, calls, result) ∧
     calls_ok (httpStreamChunkSize maxChunkBytes) calls ∧ hs_bytesRead stats = blen (body_of calls) ∧
     blen (body_of calls) ≤ maxBytes ∧ (∃ rest, data = body_of calls ++ rest) ∧
     (result = None ↔ body_of calls = data ∧ e = ReadEOF ∧ blen data ≤ maxBytes)) ∧
  (∀ body, readBounded fuel spare r maxBytes = Some (Ok body) ↔ body = data ∧ e = ReadEOF ∧ blen data ≤ maxBytes) ∧
  is_Some (readBounded fuel spare r maxBytes).
Proof.
  intros Hy Hf Hmax Hspare Hon. split.
  - unfold streamBounded. rewrite (proj2 (Z.leb_gt maxBytes 0)) by lia.
    destruct (stream_loop_spec fuel maxBytes (httpStreamChunkSize maxChunkBytes) onChunk r data e (mkStats 0 0) []) as
      (stats & calls & result & -> & Hok & Hb & _ & rest & Hrest & Hle & Hres); try done.
    { unfold httpStreamChunkSize, DefaultHTTPStreamChunkBytes. destruct (Z.leb_spec maxChunkBytes 0); [done|].
      cbn [orb]. destruct (_ <? maxChunkBytes); [done|lia]. }
    { cbn. unfold blen. cbn. lia. }
    eexists _, _, _. split; [reflexivity|]. cbn [body_of fmap list_fmap concat app] in *. split_and!; [done..|by exists rest|].
    destruct (Z.ltb_spec maxBytes (blen data)); [|destruct Hres as [-> ->]; rewrite app_nil_r in Hrest].
    + subst result. split; [done|lia].
    + subst data. unfold ended. destruct e; split; try done; by intros (_ & ? & _).
  - destruct (readBounded_spec fuel spare r data e maxBytes Hy Hspare Hf Hmax) as [H1 H2].
    destruct (decide (blen data ≤ maxBytes)) as [Hle|Hgt].
    + rewrite H1 by done. split; [|eauto]. intros body. destruct e; split; try done; [by intros [= ->]|by intros (-> & _)|by intros (_ & ? & _)].
    + destruct H2 as [->|[He ->]]; [lia| |]; (split; [|eauto]); intros body; (split; [done|]); intros (_ & _ & ?); lia.
Qed.
End reading.

(** ** A reader of three bytes at a time *)

Definition slice_read (k : nat) (r : bytes) : bytes * bytes * option ReadError :=
  let n := Nat.min k 3 in (drop n r, take n r, match r with [] => Some ReadEOF | _ => None end).

Lemma slice_yields r : yields slice_read r r ReadEOF.
Proof.
  remember (length r) as n eqn:Hn. revert r Hn. induction n as [n IH] using lt_wf_ind. intros r ->. constructor. intros k Hk.
  unfold slice_read. eexists _, _, _. split; [reflexivity|]. split; [rewrite length_take; lia|]. destruct r as [|c r]; [left|right].
  - split; [done|]. by rewrite take_nil.
  - destruct (Nat.min k 3) as [|m] eqn:Hm; [lia|]. split; [done|]. split; [done|]. exists (drop (S m) (c :: r)).
    split; [by rewrite take_drop|]. apply (IH (length (drop (S m) (c :: r)))); [|done]. rewrite length_drop. cbn. lia.
Qed.

Lemma bounded_response_witness :
  (∃ stats calls, streamBounded slice_read 100 (text "hello world") 11 4 (Some (λ _, None)) = Some (stats, calls, None) ∧
     (hc_Data <$> calls) = [text "hel"; text "lo "; text "wor"; text "ld"]) ∧
  streamBounded slice_read 100 (text "hello world") 10 4 (Some (λ _, None)) =
    Some (mkStats 9 3, [mkChunk 0 (text "hel"); mkChunk 1 (text "lo "); mkChunk 2 (text "wor")], Some ErrResponseTooLarge) ∧
  (readBounded slice_read 100 (λ _, 512%nat) (text "hello world") 11 = Some (Ok (text "hello world")) ↔
   text "hello world" = text "hello world" ∧ ReadEOF = ReadEOF ∧ blen (text "hello world") ≤ 11).
Proof.
  split; [eexists _, _; split; vm_compute; reflexivity|]. split; [vm_compute; reflexivity|].
  apply (bounded_response slice_read 100 (λ _, 512%nat) (text "hello world") (text "hello world") ReadEOF 11 4 (λ _, None)).
  - apply slice_yields.
  - cbn. lia.
  - reflexivity.
  - intros b. lia.
  - reflexivity.
Defined.
