(* ===== verification/ConnectionStore.v ===== *)
(** * Stored network connections ([internal/controlstore/connections.go])

    The table of approved connections: one row for each connector and resource
    owner, replaced with a compare-and-swap on its revision. A statement of
    SQL is its effect on the table with the primary key of the table; how the
    database answers is a parameter of every call: it may refuse before
    anything is written, or fail in the commit, written or not. The evidence is
    kept as a value; [evidence_bytes] is the length of its JSON text. *)

From S2P Require Import Prelude GoLib SessionCtx Registry Lease.

Open Scope go_scope.
Open Scope Z_scope.

Definition UnixNano (t : time) : Z := t - unix_epoch.
Definition FromUnixNano (ns : Z) : time := unix_epoch + ns.

(** The key is the one of the table. *)
Record ConnectionKey := mkConnectionKey {
  ck_OwnerEnvHash : string;
  ck_OwnerUserHash : string;
  ck_PluginInstanceID : string;
  ck_ConnectorID : string;
}.

#[export] Instance ConnectionKey_eq_dec : EqDecision ConnectionKey.
Proof. solve_decision. Defined.

#[export] Instance ConnectionKey_countable : Countable ConnectionKey.
Proof.
  refine (inj_countable' (λ k, (ck_OwnerEnvHash k, ck_OwnerUserHash k, ck_PluginInstanceID k, ck_ConnectorID k))
            (λ x, mkConnectionKey x.1.1.1 x.1.1.2 x.1.2 x.2) _).
  by intros [].
Defined.

(** [connectionEvidence] of [pkg/host/connections.go]. *)
Record connectionEvidence := mkEvidence {
  ce_PrivatePrefixes : list string;
  ce_Destination : string;
  ce_HTTPMethods : list string;
  ce_SecretRef : string;
}.

Record Connection := mkConnection {
  co_ConnectionID : string;
  co_ActiveFingerprint : string;
  co_RevokeEpoch : Z;
  co_Revision : Z;
  co_ExpiresAt : Z;
  co_RevokedAt : option Z;
  co_Evidence : connectionEvidence;
}.

Notation ConnectionTable := (gmap ConnectionKey Connection).

Inductive ConnectionStoreError :=
| ErrStateConflict
| ErrRecordNotFound
| ErrRevisionConflict
| ErrIncompatible
| DatabaseError (e : nat)
| DatabaseUnknown (e : nat).   (* wrapped by [mutation.Unknown] *)

(** What the database does with a write. *)
Inductive Database :=
| DatabaseWorks
| DatabaseRefuses (e : nat)
| CommitFails (written : bool) (e : nat).

(** The columns [PutConnection] reads of a plugin that is not deleted. *)
Record PluginRow := mkPluginRow {
  pw_ActiveFingerprint : string;
  pw_State : EnableState;
  pw_Revisions : AuthorizationRevisions;
}.

Definition bounded_key (value : string) : bool :=
  negb (bool_decide (value = "") || (256 <? len value) || negb (bool_decide (TrimSpace value = value))).

Definition key_valid (k : ConnectionKey) : bool :=
  forallb bounded_key [ck_OwnerEnvHash k; ck_PluginInstanceID k; ck_ConnectorID k] &&
  (len (ck_OwnerUserHash k) <=? 256) && bool_decide (TrimSpace (ck_OwnerUserHash k) = ck_OwnerUserHash k).

Section store.
Context (evidence_bytes : connectionEvidence → Z).

Definition connection_valid (k : ConnectionKey) (c : Connection) : bool :=
  key_valid k && negb (bool_decide (co_ConnectionID c = "")) && (len (co_ConnectionID c) <=? 128) &&
  negb (bool_decide (co_ActiveFingerprint c = "")) && (0 <? co_Revision c) && (co_Revision c <? max_int64) &&
  (co_RevokeEpoch c <? max_int64) && (0 <? co_ExpiresAt c) && (evidence_bytes (co_Evidence c) <=? 65536).

(** The write itself and its answer. *)
Definition commit (db : Database) (written table : ConnectionTable) : ConnectionTable * Result ConnectionStoreError unit :=
  match db with
  | DatabaseWorks => (written, Ok tt)
  | DatabaseRefuses e => (table, Err (DatabaseError e))
  | CommitFails done e => (if done then written else table, Err (DatabaseUnknown e))
  end.

Definition PutConnection (db : Database) (k : ConnectionKey) (c : Connection) (expected : Z) (revisions : AuthorizationRevisions)
    (now : time) (plugin : option PluginRow) (table : ConnectionTable) : ConnectionTable * Result ConnectionStoreError unit :=
  if negb (connection_valid k c) || (max_int64 <=? expected) || negb (co_Revision c =? expected + 1) ||
     bool_decide (is_Some (co_RevokedAt c)) || (co_ExpiresAt c <=? UnixNano now) || IsZero now
  then (table, Err ErrStateConflict)
  else match plugin with
  | None => (table, Err ErrRecordNotFound)
  | Some row =>
     if negb (bool_decide (pw_Revisions row = revisions)) || negb (bool_decide (pw_ActiveFingerprint row = co_ActiveFingerprint c)) ||
        negb (RevokeEpoch (pw_Revisions row) =? co_RevokeEpoch c)
     then (table, Err ErrRevisionConflict)
     else if negb (bool_decide (pw_State row = EnableEnabled)) then (table, Err ErrStateConflict)
     else
       let actual := match table !! k with Some current => co_Revision current | None => 0 end in
       if negb (actual =? expected) then (table, Err ErrRevisionConflict)
       else commit db (<[k := c]> table) table
  end.

Definition GetConnection (k : ConnectionKey) (table : ConnectionTable) : Result ConnectionStoreError Connection :=
  guard! key_valid k else ErrRecordNotFound in
  match table !! k with
  | None => Err ErrRecordNotFound
  | Some c => guard! connection_valid k c else ErrIncompatible in Ok c
  end.

Definition revoked (now : time) (c : Connection) : Connection :=
  mkConnection (co_ConnectionID c) (co_ActiveFingerprint c) (co_RevokeEpoch c) (co_Revision c + 1) (co_ExpiresAt c) (Some (UnixNano now))
    (co_Evidence c).

(** The row the [UPDATE] matches, if there is one. *)
Definition revocable (k : ConnectionKey) (expected : Z) (table : ConnectionTable) : option Connection :=
  match table !! k with
  | Some c => if (co_Revision c =? expected) && negb (bool_decide (is_Some (co_RevokedAt c))) then Some c else None
  | None => None
  end.

(** A single [UPDATE] commits by itself; any error of it is of unknown outcome. *)
Definition RevokeConnection (db : Database) (k : ConnectionKey) (expected : Z) (now : time) (table : ConnectionTable) :
    ConnectionTable * Result ConnectionStoreError unit :=
  if negb (key_valid k) || (expected =? 0) || (max_int64 <=? expected) || IsZero now then (table, Err ErrRevisionConflict)
  else
    match revocable k expected table with
    | Some c =>
       match db with
       | DatabaseWorks => (<[k := revoked now c]> table, Ok tt)
       | DatabaseRefuses e => (table, Err (DatabaseUnknown e))
       | CommitFails done e => (if done then <[k := revoked now c]> table else table, Err (DatabaseUnknown e))
       end
    | None =>
       match db with
       | DatabaseWorks =>
          match GetConnection k table with
          | Ok current =>
             if bool_decide (is_Some (co_RevokedAt current)) && (co_Revision current =? expected + 1) then (table, Ok tt)
             else (table, Err ErrRevisionConflict)
          | Err _ => (table, Err ErrRevisionConflict)
          end
       | DatabaseRefuses e | CommitFails _ e => (table, Err (DatabaseUnknown e))
       end
    end.

(** ** What a write may do *)

(** The answer is certain and the table changed, or the answer is certain and
    it did not, or nothing is certain. *)
Lemma PutConnection_spec db k c expected revisions now plugin table table' r :
  PutConnection db k c expected revisions now plugin table = (table', r) →
  (r = Ok tt ∧ table' = <[k := c]> table) ∨ (∃ e, r = Err (DatabaseUnknown e) ∧ (table' = table ∨ table' = <[k := c]> table)) ∨
  (table' = table ∧ ∃ e, r = Err e ∧ ∀ n, e ≠ DatabaseUnknown n).
Proof.
  unfold PutConnection. destruct (_ || IsZero now); [intros [= <- <-]; right; right; eauto|].
  destruct plugin as [row|]; [|intros [= <- <-]; right; right; eauto].
  destruct (_ || negb (RevokeEpoch _ =? _)); [intros [= <- <-]; right; right; eauto|].
  destruct (negb (bool_decide (pw_State row = _))); [intros [= <- <-]; right; right; eauto|].
  destruct (negb (_ =? expected)); [intros [= <- <-]; right; right; eauto|].
  destruct db as [|e|done e]; intros [= <- <-]; [by left|right; right; eauto|right; left; exists e; destruct done; auto].
Qed.

(** A write that succeeded was expected, valid and for the plugin as it is. *)
Lemma PutConnection_ok k c expected revisions now plugin table table' db :
  PutConnection db k c expected revisions now plugin table = (table', Ok tt) →
  connection_valid k c = true ∧ co_Revision c = expected + 1 ∧ co_RevokedAt c = None ∧ UnixNano now < co_ExpiresAt c ∧
  match table !! k with Some current => co_Revision current | None => 0 end = expected ∧
  ∃ row, plugin = Some row ∧ pw_Revisions row = revisions ∧ pw_ActiveFingerprint row = co_ActiveFingerprint c ∧
    RevokeEpoch revisions = co_RevokeEpoch c ∧ pw_State row = EnableEnabled.
Proof.
  unfold PutConnection. destruct (_ || IsZero now) eqn:H; [done|]. rewrite !orb_false_iff, !negb_false_iff, Z.eqb_eq, bool_decide_eq_false in H.
  destruct H as (((((Hv & _) & Hrev) & Hnr) & Hexp) & _). destruct plugin as [row|]; [|done].
  destruct (_ || negb (RevokeEpoch _ =? _)) eqn:H2; [done|]. rewrite !orb_false_iff, !negb_false_iff, Z.eqb_eq, !bool_decide_eq_true in H2.
  destruct H2 as ((Hrevs & Hfp) & Hep). destruct (negb (bool_decide (pw_State row = _))) eqn:H3; [done|].
  rewrite negb_false_iff, bool_decide_eq_true in H3. destruct (negb (_ =? expected)) eqn:H4; [done|]. rewrite negb_false_iff, Z.eqb_eq in H4.
  intros _. split; [done|]. split; [done|]. split; [destruct (co_RevokedAt c); [by destruct Hnr|done]|]. split; [by apply Z.leb_gt in Hexp|].
  split; [done|]. exists row. split_and!; try done. by rewrite <- Hrevs.
Qed.

Lemma RevokeConnection_spec db k expected now table table' r :
  RevokeConnection db k expected now table = (table', r) →
  (r = Ok tt ∧ ∃ c, table' !! k = Some c ∧ is_Some (co_RevokedAt c) ∧ ∀ k', k' ≠ k → table' !! k' = table !! k') ∨
  (∃ e, r = Err (DatabaseUnknown e) ∧ ∀ k', k' ≠ k → table' !! k' = table !! k') ∨
  (table' = table ∧ ∃ e, r = Err e ∧ ∀ n, e ≠ DatabaseUnknown n).
Proof.
  unfold RevokeConnection. destruct (_ || IsZero now); [intros [= <- <-]; right; right; eauto|].
  destruct (revocable k expected table) as [c|] eqn:Hc.
  - destruct db as [|e|done e]; intros [= <- <-].
    + left. split; [done|]. exists (revoked now c). rewrite lookup_insert_eq. split_and!; [done|by eexists|]. intros. by rewrite lookup_insert_ne.
    + right. left. eauto.
    + right. left. exists e. split; [done|]. intros. destruct done; [by rewrite lookup_insert_ne|done].
  - destruct db as [|e|done e]; [|intros [= <- <-]; right; left; eauto..].
    unfold GetConnection. destruct (key_valid k); [|intros [= <- <-]; right; right; eauto].
    destruct (table !! k) as [c|] eqn:Hk; [|intros [= <- <-]; right; right; eauto].
    destruct (connection_valid k c); [|intros [= <- <-]; right; right; eauto].
    destruct (bool_decide (is_Some (co_RevokedAt c))) eqn:Hr; cbn [andb]; [|intros [= <- <-]; right; right; eauto].
    destruct (_ =? _); intros [= <- <-]; [|right; right; eauto]. left. split; [done|]. exists c. split_and!; [done| |done].
    by apply bool_decide_eq_true in Hr.
Qed.
End store.
