(* ===== verification/ConnectionAuthority.v ===== *)
(** * Review, approval and use of connections ([pkg/host/connections.go])

    A configurable connector of a plugin may be used after a user has reviewed
    and approved a destination for it. [connectionAuthority] keeps the pending
    reviews and the leases in use; the approvals are in the table of
    [ConnectionStore]. Every critical section of its mutex is one function of
    the state, and the handlers are the checks before it and the section.
    What the handlers learn from other parts of the host (the authorization of
    the action, the ceiling of the plugin, the policy for private networks, the
    registry) is an argument. A lease is its context: cancelled or not. *)

From S2P Require Import Prelude GoLib SessionCtx Permissions Policy Registry Lease NetIP Connectivity ConnectivityProps ConnectivityGrants ConnectionStore.

Open Scope go_scope.
Open Scope Z_scope.

Inductive ConnectionError :=
| ErrConnectionUnavailable
| ConnectorDenied
| ConnectionPermissionDenied
| ConnectionNet (e : NetError)
| ConnectionSession (e : SessErr)
| ConnectionStored (e : ConnectionStoreError)
| ConnectionPermission (e : PermErr)
| ConnectionPolicy (e : PolicyErr)
| ConnectionPolicyDenied
| ConnectionHost (e : nat).

(** ** The manifest, as far as connections read it *)

(** A connector with what is read of its [Auth] and [TLS] maps besides the secret. *)
Record ConnectorView := mkConnectorView {
  cv_Spec : NetworkConnectorSpec;
  cv_AuthFields : nat;
  cv_TLS : bool;
}.

(** The connectors, the permissions, the network accesses of the methods and
    surfaces, and the scopes and references of the secret settings. *)
Record ManifestView := mkManifestView {
  mv_Connectors : list ConnectorView;
  mv_Permissions : list string;
  mv_Access : list (string * list string);
  mv_SecretSettings : list (string * string);
}.

Notation Plugin := (@PluginRecord ManifestView).

Definition PermissionNetworkClient : string := "network.client".

Definition connectorByID (m : ManifestView) (id : string) : Result ConnectionError ConnectorView :=
  match List.find (λ c, bool_decide (cs_ConnectorID (cv_Spec c) = id)) (mv_Connectors m) with
  | Some c => Ok c
  | None => Err ConnectorDenied
  end.

Definition connectionKey (session : Context) (id : string) (c : ConnectorView) : Result ConnectionError ConnectionKey :=
  match Context_ResourceScope session (cs_Scope (cv_Spec c)) with
  | Ok scope => Ok (mkConnectionKey (rs_OwnerEnvHash scope) (rs_OwnerUserHash scope) id (cs_ConnectorID (cv_Spec c)))
  | Err e => Err (ConnectionSession e)
  end.

(** [connectionCeiling] after the plugin was found to be runnable: [checkRunnable]
    belongs to the host. *)
Definition connectionCeiling (record : Plugin) (snapshot : Result ConnectionError (@AuthorizationSnapshot ManifestView)) (id : string) :
    Result ConnectionError Plugin :=
  guard! bool_decide (pr_EnableState record = EnableEnabled) && bool_decide (PermissionNetworkClient ∈ mv_Permissions (pr_Rest record))
    else ConnectionPermissionDenied in
  let? snapshot := snapshot in
  match EvaluatePermissionCeiling (sn_Policy snapshot) id [PermissionNetworkClient] with
  | Err e => Err (ConnectionPolicy e)
  | Ok answer => guard! pe_Allowed answer else ConnectionPolicyDenied in Ok record
  end.

(** The methods of every access to the connector, sorted and once each. *)
Definition connectorHTTPMethods (m : ManifestView) (id : string) : list string :=
  sort_strings (remove_dups (concat (map (λ access, if bool_decide (access.1 = id) then access.2 else []) (mv_Access m)))).

Definition manifestSecretRefs (m : ManifestView) (scope : string) : list string :=
  omap (λ setting, if bool_decide (setting.1 = scope) then Some setting.2 else None) (mv_SecretSettings m) ++
  omap (λ c, if bool_decide (cs_Scope (cv_Spec c) = scope) then cs_AuthSecretRef (cv_Spec c) else None) (mv_Connectors m).

(** ** The state *)

Record ReviewConnectionRequest := mkReviewRequest {
  rq_PrivatePrefixes : list string;
  rq_PluginInstanceID : string;
  rq_ConnectorID : string;
  rq_Destination : string;
  rq_HTTPMethods : list string;
  rq_SecretRef : string;
  rq_ExpectedRevision : Z;
}.

Record ConnectionReview := mkReview {
  rv_Request : ReviewConnectionRequest;
  rv_Scope : string;
  rv_ReviewExpiresAt : time;
  rv_ExpiresAt : time;
}.

Record pendingConnection := mkPending {
  pc_review : ConnectionReview;
  pc_owner : SessionScope;
  pc_fingerprint : string;
  pc_revisions : AuthorizationRevisions;
}.

(** [cancel] is the number of the lease whose context it cancels. *)
Record activeNetworkConnection := mkActive {
  an_session : SessionScope;
  an_cancel : nat;
}.

Record ConnectionLease := mkConnectionLease {
  cl_key : ConnectionKey;
  cl_token : string;
  cl_binding : option ApprovedBinding;
  cl_secretRef : string;
  cl_canceled : bool;
}.

(** [approving] are the approvals between their two critical sections, each
    with its caller, the plugin it read, and the review it consumed. *)
Record Authority := mkAuthority {
  ca_reviews : gmap string pendingConnection;
  ca_active : gmap ConnectionKey (gmap string activeNetworkConnection);
  ca_table : ConnectionTable;
  ca_leases : list ConnectionLease;
  ca_approving : gmap nat (Context * Plugin * pendingConnection);
}.

Definition newConnectionAuthority (table : ConnectionTable) : Authority := mkAuthority ∅ ∅ table [] ∅.

Definition cancel_lease (l : ConnectionLease) : ConnectionLease :=
  mkConnectionLease (cl_key l) (cl_token l) (cl_binding l) (cl_secretRef l) true.

Definition cancel_all (requests : gmap string activeNetworkConnection) (leases : list ConnectionLease) : list ConnectionLease :=
  map_fold (λ _ a leases, alter cancel_lease (an_cancel a) leases) leases requests.

Definition cancelLocked (key : ConnectionKey) (s : Authority) : Authority :=
  mkAuthority (ca_reviews s) (delete key (ca_active s)) (ca_table s) (cancel_all (default ∅ (ca_active s !! key)) (ca_leases s)) (ca_approving s).

Definition with_table (table : ConnectionTable) (s : Authority) : Authority :=
  mkAuthority (ca_reviews s) (ca_active s) table (ca_leases s) (ca_approving s).

Definition with_reviews (reviews : gmap string pendingConnection) (s : Authority) : Authority :=
  mkAuthority reviews (ca_active s) (ca_table s) (ca_leases s) (ca_approving s).

Definition outcome_unknown (e : ConnectionStoreError) : bool := match e with DatabaseUnknown _ => true | _ => false end.

Section authority.
Context (unicode_lower : Z → Z) (url_Parse : string → option URL) (evidence_bytes : connectionEvidence → Z).

(** [authorizePrivateConnection]; the policy is there and answers, or is nil. *)
Definition authorizePrivateConnection (policy : option (Result ConnectionError unit)) (destination : Destination) (prefixes : list string) :
    Result ConnectionError unit :=
  match ValidateApprovedDestination unicode_lower destination prefixes with
  | Err e => Err (ConnectionNet e)
  | Ok _ =>
     if (length prefixes =? 0)%nat then Ok tt
     else match policy with None => Err ConnectionPermissionDenied | Some answer => answer end
  end.

(** ** Reviewing *)

Fixpoint methods_allowed (allowed seen methods : list string) : bool :=
  match methods with
  | [] => true
  | method :: methods => bool_decide (method ∈ allowed) && negb (bool_decide (method ∈ seen)) && methods_allowed allowed (method :: seen) methods
  end.

(** The checks of the requested methods and secret. *)
Definition reviewMethods (record : Plugin) (connector : ConnectorView) (req : ReviewConnectionRequest) : Result ConnectionError unit :=
  if bool_decide (cs_Transport (cv_Spec connector) = TransportHTTP) then
    guard! negb (length (rq_HTTPMethods req) =? 0)%nat else ConnectorDenied in
    guard! methods_allowed (connectorHTTPMethods (pr_Rest record) (cs_ConnectorID (cv_Spec connector))) [] (rq_HTTPMethods req)
      else ConnectorDenied in
    Ok tt
  else guard! (length (rq_HTTPMethods req) =? 0)%nat else ConnectorDenied in Ok tt.

Definition reviewSecret (networkSecrets : bool) (record : Plugin) (connector : ConnectorView) (req : ReviewConnectionRequest) : Result ConnectionError unit :=
  if bool_decide (rq_SecretRef req = "") then Ok tt
  else
    guard! bool_decide (cs_Transport (cv_Spec connector) = TransportHTTP) || bool_decide (cs_Transport (cv_Spec connector) = TransportWebSocket)
      else ConnectorDenied in
    guard! networkSecrets && bool_decide (rq_SecretRef req ∈ manifestSecretRefs (pr_Rest record) (cs_Scope (cv_Spec connector)))
      else ConnectionPermissionDenied in
    Ok tt.

Definition liveReviews (now : time) (reviews : gmap string pendingConnection) : gmap string pendingConnection :=
  filter (λ kv, After (rv_ReviewExpiresAt (pc_review kv.2)) now = true) reviews.

(** [ReviewConnection] after the action was authorized for [session]. *)
Definition ReviewConnection (session : Context) (ceiling : Result ConnectionError Plugin) (policy : option (Result ConnectionError unit))
    (networkSecrets : bool) (rand : option string) (now : time) (req : ReviewConnectionRequest) (s : Authority) :
    Authority * Result ConnectionError (string * ConnectionReview) :=
  let checked :=
    let? record := ceiling in
    match connectorByID (pr_Rest record) (rq_ConnectorID req) with
    | Err _ => Err ConnectorDenied
    | Ok connector =>
       guard! cs_Configurable (cv_Spec connector) else ConnectorDenied in
       guard! sc_CanWrite session else ConnectionPermissionDenied in
       match ParseDestination unicode_lower url_Parse (cs_Transport (cv_Spec connector)) (rq_Destination req) with
       | Err e => Err (ConnectionNet e)
       | Ok destination =>
          let? _ := authorizePrivateConnection policy destination (rq_PrivatePrefixes req) in
          let? _ := reviewMethods record connector req in
          let? _ := reviewSecret networkSecrets record connector req in
          let? key := connectionKey session (rq_PluginInstanceID req) connector in
          let? revision :=
            match GetConnection evidence_bytes key (ca_table s) with
            | Ok c => Ok (co_Revision c)
            | Err ErrRecordNotFound => Ok 0
            | Err e => Err (ConnectionStored e)
            end in
          guard! revision =? rq_ExpectedRevision req else ConnectionStored ErrRevisionConflict in
          Ok (record, connector)
       end
    end in
  match checked, rand with
  | Err e, _ => (s, Err e)
  | Ok _, None => (s, Err (ConnectionHost 0))
  | Ok (record, connector), Some token =>
     let req := mkReviewRequest (sort_strings (rq_PrivatePrefixes req)) (rq_PluginInstanceID req) (rq_ConnectorID req) (rq_Destination req)
                  (sort_strings (rq_HTTPMethods req)) (rq_SecretRef req) (rq_ExpectedRevision req) in
     let review := mkReview req (cs_Scope (cv_Spec connector)) (now + 5 * Minute) (now + 30 * 24 * (60 * Minute)) in
     let reviews := liveReviews now (ca_reviews s) in
     if (128 <=? size reviews)%nat then (with_reviews reviews s, Err ErrConnectionUnavailable)
     else
       let scope := mkSessionScope (sc_OwnerSessionHash session) (sc_OwnerUserHash session) (sc_OwnerEnvHash session) (sc_SessionChannelIDHash session) in
       (with_reviews (<[token := mkPending review scope (pr_ActiveFingerprint record) (pr_Revisions record)]> reviews) s, Ok (token, review))
  end.

(** ** Approving *)

(** The scope of a session; the zero scope when it has none. *)
Definition sessionScope (session : Context) : SessionScope :=
  match Context_SessionScope session with Ok scope => scope | Err _ => mkSessionScope "" "" "" "" end.

(** The first half of [ApproveConnection] in thread [t], after the action was
    authorized: the check under the lock, and the review that is consumed. *)
Definition takeReview (t : nat) (session : Context) (ceiling : Result ConnectionError Plugin) (now : time) (id pluginInstanceID : string) (s : Authority) :
    Authority * Result ConnectionError pendingConnection :=
  match (guard! sc_CanWrite session else ConnectionPermissionDenied in ceiling), ca_reviews s !! id with
  | Err e, _ => (s, Err e)
  | Ok _, None => (s, Err ErrConnectionUnavailable)
  | Ok record, Some pending =>
     if negb (bool_decide (rq_PluginInstanceID (rv_Request (pc_review pending)) = pluginInstanceID)) ||
        negb (SessionScope_Matches (pc_owner pending) (sessionScope session)) || negb (After (rv_ReviewExpiresAt (pc_review pending)) now) ||
        negb (bool_decide (pc_fingerprint pending = pr_ActiveFingerprint record)) ||
        negb (bool_decide (pc_revisions pending = pr_Revisions record))
     then (s, Err ErrConnectionUnavailable)
     else (mkAuthority (delete id (ca_reviews s)) (ca_active s) (ca_table s) (ca_leases s) (<[t := (session, record, pending)]> (ca_approving s)), Ok pending)
  end.

Definition evidence_of (review : ReviewConnectionRequest) : connectionEvidence :=
  mkEvidence (rq_PrivatePrefixes review) (rq_Destination review) (rq_HTTPMethods review) (rq_SecretRef review).

(** The connection an approval writes. *)
Definition approved_connection (pending : pendingConnection) (record : Plugin) (id : string) : Connection :=
  mkConnection id (pr_ActiveFingerprint record) (RevokeEpoch (pr_Revisions record)) (rq_ExpectedRevision (rv_Request (pc_review pending)) + 1)
    (UnixNano (rv_ExpiresAt (pc_review pending))) None (evidence_of (rv_Request (pc_review pending))).

Definition drop_approval (t : nat) (s : Authority) : Authority :=
  mkAuthority (ca_reviews s) (ca_active s) (ca_table s) (ca_leases s) (delete t (ca_approving s)).

(** The rest of [ApproveConnection] in its thread, after the review was consumed;
    [audited] is whether the audit record could be begun. *)
Definition finishApproval (t : nat) (policy : option (Result ConnectionError unit)) (rand : option string)
    (audited : bool) (db : Database) (plugin : option PluginRow) (now : time) (s : Authority) : Authority * Result ConnectionError Connection :=
  match ca_approving s !! t with
  | None => (s, Err ErrConnectionUnavailable)
  | Some (session, record, pending) =>
     let review := rv_Request (pc_review pending) in
     let s := drop_approval t s in
     let checked :=
       let? connector := connectorByID (pr_Rest record) (rq_ConnectorID review) in
       match ParseDestination unicode_lower url_Parse (cs_Transport (cv_Spec connector)) (rq_Destination review) with
       | Err e => Err (ConnectionNet e)
       | Ok destination =>
          let? _ := authorizePrivateConnection policy destination (rq_PrivatePrefixes review) in
          let? key := connectionKey session (rq_PluginInstanceID review) connector in
          match rand with
          | None => Err (ConnectionHost 0)
          | Some id => guard! audited else ConnectionHost 1 in Ok (key, id)
          end
       end in
     match checked with
     | Err e => (s, Err e)
     | Ok (key, id) =>
        let connection := approved_connection pending record id in
        let '(table, r) := PutConnection evidence_bytes db key connection (rq_ExpectedRevision review) (pc_revisions pending) now plugin (ca_table s) in
        let s := with_table table s in
        match r with
        | Ok _ => (cancelLocked key s, Ok connection)
        | Err e => (if outcome_unknown e then cancelLocked key s else s, Err (ConnectionStored e))
        end
     end
  end.

Definition CancelConnectionReview (session : Context) (id pluginInstanceID : string) (s : Authority) : Authority * Result ConnectionError unit :=
  match ca_reviews s !! id with
  | Some pending =>
     if SessionScope_Matches (pc_owner pending) (sessionScope session) && bool_decide (rq_PluginInstanceID (rv_Request (pc_review pending)) = pluginInstanceID)
     then (with_reviews (delete id (ca_reviews s)) s, Ok tt) else (s, Err ErrConnectionUnavailable)
  | None => (s, Err ErrConnectionUnavailable)
  end.

(** [RevokeConnection] of the host, after the action was authorized. *)
Definition HostRevokeConnection (session : Context) (record : Result ConnectionError Plugin) (audited : bool) (db : Database) (now : time)
    (pluginInstanceID connectorID : string) (expected : Z) (s : Authority) : Authority * Result ConnectionError unit :=
  let checked :=
    guard! sc_CanWrite session else ConnectionPermissionDenied in
    let? record := record in
    let? connector := connectorByID (pr_Rest record) connectorID in
    let? key := connectionKey session pluginInstanceID connector in
    guard! audited else ConnectionHost 1 in
    Ok key in
  match checked with
  | Err e => (s, Err e)
  | Ok key =>
     let '(table, r) := RevokeConnection evidence_bytes db key expected now (ca_table s) in
     let s := with_table table s in
     match r with
     | Ok _ => (cancelLocked key s, Ok tt)
     | Err e => (if outcome_unknown e then cancelLocked key s else s, Err (ConnectionStored e))
     end
  end.
End authority.

(** * Leases of approved connections ([acquire] of [pkg/host/connections.go])

    The checks and the critical section of [acquire], the cleanup of a lease,
    the revocations of a plugin and of a session, and the runs of the whole
    authority: any sequence of its critical sections, with any answers of the
    database. A lease that is still in use is under the approval as the table
    has it, and so is the connection grant that is minted with its binding.

    The rows of a plugin also go when its record does (a foreign key of the
    table); that statement belongs to the registry and is not a step here. *)

(** What [acquire] reads of a [resourceio.Invocation]. *)
Record Invocation := mkInvocation {
  iv_InstanceID : string;
  iv_OwnerSession : SessionScope;
  iv_OwnerFingerprint : string;
  iv_Revisions : AuthorizationRevisions;   (* [PolicyRevision] and the owner's two *)
  iv_CanRead : bool;
  iv_CanWrite : bool;
}.

Definition resourceInvocationSession (inv : Invocation) : Context :=
  let s := iv_OwnerSession inv in
  mkContext (ss_OwnerSessionHash s) (ss_OwnerUserHash s) (ss_OwnerEnvHash s) (ss_SessionChannelIDHash s) (iv_CanRead inv) (iv_CanWrite inv).

Definition readMethod (method : string) : bool :=
  bool_decide (method = "GET") || bool_decide (method = "HEAD") || bool_decide (method = "OPTIONS").

Section acquire.
Context (evidence_bytes : connectionEvidence → Z).

(** The authority of the plugin, read again under the lock. *)
Definition acquirePlugin (inv : Invocation) (record : Plugin) (snapshot : Result ConnectionError (@AuthorizationSnapshot ManifestView)) (now wall : time) :
    Result ConnectionError unit :=
  guard! bool_decide (pr_EnableState record = EnableEnabled) && bool_decide (pr_ActiveFingerprint record = iv_OwnerFingerprint inv) &&
    bool_decide (pr_Revisions record = iv_Revisions inv) else ErrConnectionUnavailable in
  let? snapshot := snapshot in
  guard! bool_decide (pr_ActiveFingerprint (sn_Plugin snapshot) = pr_ActiveFingerprint record) &&
    bool_decide (pr_Revisions (sn_Plugin snapshot) = pr_Revisions record) else ErrConnectionUnavailable in
  match Permissions.Evaluate wall (sn_Grants snapshot) (mkCheckRequest (iv_InstanceID inv) [PermissionNetworkClient] now) with
  | Err e => Err (ConnectionPermission e)
  | Ok (allowed, _) => guard! allowed else ConnectionPermissionDenied in Ok tt
  end.

(** The declarations of TLS and of a secret. *)
Definition acquireDeclarations (networkTLS : bool) (c : ConnectorView) : Result ConnectionError unit :=
  guard! negb (cv_TLS c && negb networkTLS) else ErrConnectionUnavailable in
  if (cv_AuthFields c =? 0)%nat then Ok tt
  else
    guard! match cs_AuthSecretRef (cv_Spec c) with Some secret => negb (bool_decide (secret = "")) | None => false end &&
      (cv_AuthFields c =? 1)%nat &&
      (bool_decide (cs_Transport (cv_Spec c) = TransportHTTP) || bool_decide (cs_Transport (cv_Spec c) = TransportWebSocket))
      else ErrConnectionUnavailable in
    Ok tt.

Definition binding_of (c : Connection) : ApprovedBinding :=
  mkApproved (ce_PrivatePrefixes (co_Evidence c)) (co_ConnectionID c) (co_Revision c) (ce_Destination (co_Evidence c)) (ce_HTTPMethods (co_Evidence c))
    (FromUnixNano (co_ExpiresAt c)).

(** The stored approval a row must be. *)
Definition current_row (now : time) (record : Plugin) (c : Connection) : bool :=
  negb (bool_decide (is_Some (co_RevokedAt c)) || (co_ExpiresAt c <=? UnixNano now) ||
        negb (bool_decide (co_ActiveFingerprint c = pr_ActiveFingerprint record)) || negb (co_RevokeEpoch c =? RevokeEpoch (pr_Revisions record))).

(** The binding and the secret of a lease. *)
Definition acquireBinding (now : time) (record : Plugin) (connector : ConnectorView) (key : ConnectionKey) (method : string) (table : ConnectionTable) :
    Result ConnectionError (option ApprovedBinding * string) :=
  if cs_Configurable (cv_Spec connector) then
    match GetConnection evidence_bytes key table with
    | Err _ => Err ErrConnectionUnavailable
    | Ok c =>
       guard! current_row now record c else ErrConnectionUnavailable in
       guard! negb (bool_decide (ce_Destination (co_Evidence c) = "")) else ErrConnectionUnavailable in
       guard! negb (bool_decide (cs_Transport (cv_Spec connector) = TransportHTTP) && negb (bool_decide (method ∈ ce_HTTPMethods (co_Evidence c))))
         else ConnectionPermissionDenied in
       Ok (Some (binding_of c), ce_SecretRef (co_Evidence c))
    end
  else Ok (None, default "" (cs_AuthSecretRef (cv_Spec connector))).

(** Everything between the lock and the token. *)
Definition acquireLocked (inv : Invocation) (connectorID method : string) (record : Result ConnectionError Plugin) (ended : option ConnectionError)
    (snapshot : Result ConnectionError (@AuthorizationSnapshot ManifestView)) (networkTLS : bool) (now wall : time) (table : ConnectionTable) :
    Result ConnectionError (ConnectionKey * option ApprovedBinding * string) :=
  let? record := record in
  match ended with
  | Some e => Err e
  | None =>
     let? _ := acquirePlugin inv record snapshot now wall in
     let? connector := connectorByID (pr_Rest record) connectorID in
     let? key := connectionKey (resourceInvocationSession inv) (iv_InstanceID inv) connector in
     let? _ := acquireDeclarations networkTLS connector in
     let? b := acquireBinding now record connector key method table in
     Ok (key, b.1, b.2)
  end.

Definition activeCount (s : Authority) : nat := map_fold (λ _ requests n, (size requests + n)%nat) 0%nat (ca_active s).

Definition add_lease (key : ConnectionKey) (token : string) (session : SessionScope) (binding : option ApprovedBinding) (secretRef : string)
    (ended : bool) (s : Authority) : Authority :=
  let requests := default ∅ (ca_active s !! key) in
  mkAuthority (ca_reviews s) (<[key := <[token := mkActive session (length (ca_leases s))]> requests]> (ca_active s)) (ca_table s)
    (ca_leases s ++ [mkConnectionLease key token binding secretRef ended]) (ca_approving s).

(** [acquire]; the lease is the number it returns. [reserved] and [ceiling] are
    the checks before the lock, and [hostEnded] is whether the host is closing. *)
Definition acquire (inv : Invocation) (connectorID method : string) (reserved : Result ConnectionError unit) (ceiling record : Result ConnectionError Plugin)
    (ended : option ConnectionError) (snapshot : Result ConnectionError (@AuthorizationSnapshot ManifestView)) (networkTLS : bool) (rand : option string)
    (hostEnded : bool) (now wall : time) (s : Authority) : Authority * Result ConnectionError nat :=
  let checked :=
    guard! iv_CanRead inv && (iv_CanWrite inv || readMethod method) else ConnectionPermissionDenied in
    let? _ := reserved in
    let? _ := ceiling in
    let? b := acquireLocked inv connectorID method record ended snapshot networkTLS now wall (ca_table s) in
    match rand with None => Err (ConnectionHost 0) | Some token => Ok (b, token) end in
  match checked with
  | Err e => (s, Err e)
  | Ok (key, binding, secretRef, token) =>
     if (128 <=? size (default ∅ (ca_active s !! key)))%nat || (1024 <=? activeCount s)%nat then (s, Err ErrConnectionUnavailable)
     else (add_lease key token (iv_OwnerSession inv) binding secretRef hostEnded s, Ok (length (ca_leases s)))
  end.
End acquire.

(** ** Giving up a lease, and revocations *)

Definition with_active (active : gmap ConnectionKey (gmap string activeNetworkConnection)) (leases : list ConnectionLease) (s : Authority) : Authority :=
  mkAuthority (ca_reviews s) active (ca_table s) leases (ca_approving s).

(** Replace the entries of a key, which goes with its last entry. *)
Definition set_requests (key : ConnectionKey) (requests : gmap string activeNetworkConnection)
    (active : gmap ConnectionKey (gmap string activeNetworkConnection)) : gmap ConnectionKey (gmap string activeNetworkConnection) :=
  if decide (requests = ∅) then delete key active else <[key := requests]> active.

(** The context of a lease ends: its parent did, or the host is closing. *)
Definition endLease (n : nat) (s : Authority) : Authority := with_active (ca_active s) (alter cancel_lease n (ca_leases s)) s.

(** [cleanup], of [release] or of the context that ended: the second half runs
    under the lock. *)
Definition cleanup (n : nat) (s : Authority) : Authority :=
  match ca_leases s !! n with
  | None => s
  | Some l =>
     with_active (set_requests (cl_key l) (delete (cl_token l) (default ∅ (ca_active s !! cl_key l))) (ca_active s)) (alter cancel_lease n (ca_leases s)) s
  end.

(** [revokePlugin] ranges over a map it deletes from; the order does not matter. *)
Definition revokePluginKeys (env plugin : string) (s : Authority) : list ConnectionKey :=
  List.filter (λ key, bool_decide (ck_OwnerEnvHash key = env) && bool_decide (ck_PluginInstanceID key = plugin)) (map_to_list (ca_active s)).*1.

Definition revokePlugin (env plugin : string) (s : Authority) : Authority :=
  let s := foldr cancelLocked s (revokePluginKeys env plugin s) in
  with_reviews (filter (λ kv, negb (bool_decide (ss_OwnerEnvHash (pc_owner kv.2) = env) &&
    bool_decide (rq_PluginInstanceID (rv_Request (pc_review kv.2)) = plugin)) = true) (ca_reviews s)) s.

(** The entries of one key that belong to the session end and go. *)
Definition revokeSessionKey (scope : SessionScope) (key : ConnectionKey) (s : Authority) : Authority :=
  let requests := default ∅ (ca_active s !! key) in
  with_active (set_requests key (filter (λ kv, an_session kv.2 ≠ scope) requests) (ca_active s))
    (cancel_all (filter (λ kv, an_session kv.2 = scope) requests) (ca_leases s)) s.

Definition revokeSession (scope : SessionScope) (s : Authority) : Authority :=
  let s := foldr (revokeSessionKey scope) s (map_to_list (ca_active s)).*1 in
  with_reviews (filter (λ kv, pc_owner kv.2 ≠ scope) (ca_reviews s)) s.
