(* ===== verification/ConnectionRuns.v ===== *)
(** * Runs of the connection authority

    The critical sections of [ConnectionAuthority] as
    the steps of one system, its invariant, and what it means for the leases. *)

From S2P Require Import Prelude GoLib SessionCtx Permissions Policy Registry Lease NetIP Connectivity ConnectivityProps ConnectivityGrants.
From S2P Require Import ConnectionStore ConnectionAuthority.

Open Scope go_scope.
Open Scope Z_scope.

(** A step with everything it is told by the rest of the host. *)
Inductive Event :=
| Reviewing (session : Context) (ceiling : Result ConnectionError Plugin) (policy : option (Result ConnectionError unit)) (networkSecrets : bool)
    (rand : option string) (now : time) (req : ReviewConnectionRequest)
| Taking (t : nat) (session : Context) (ceiling : Result ConnectionError Plugin) (now : time) (id plugin : string)
| Finishing (t : nat) (policy : option (Result ConnectionError unit)) (rand : option string) (audited : bool)
    (db : Database) (row : option PluginRow) (now : time)
| CancellingReview (session : Context) (id plugin : string)
| Revoking (session : Context) (record : Result ConnectionError Plugin) (audited : bool) (db : Database) (now : time) (plugin connector : string) (expected : Z)
| Acquiring (inv : Invocation) (connectorID method : string) (reserved : Result ConnectionError unit) (ceiling record : Result ConnectionError Plugin)
    (ended : option ConnectionError) (snapshot : Result ConnectionError (@AuthorizationSnapshot ManifestView)) (networkTLS : bool) (rand : option string)
    (hostEnded : bool) (now wall : time)
| Ending (n : nat)
| Cleaning (n : nat)
| RevokingPlugin (env plugin : string)
| RevokingSession (scope : SessionScope).

(** The tokens the leases are given, in order. *)
Definition event_tokens (events : list Event) : list string :=
  omap (λ e, match e with Acquiring _ _ _ _ _ _ _ _ _ rand _ _ _ => rand | _ => None end) events.

Section runs.
Context (unicode_lower : Z → Z) (url_Parse : string → option URL) (evidence_bytes : connectionEvidence → Z).

Definition step (e : Event) (s : Authority) : Authority :=
  match e with
  | Reviewing session ceiling policy networkSecrets rand now req =>
     (ReviewConnection unicode_lower url_Parse evidence_bytes session ceiling policy networkSecrets rand now req s).1
  | Taking t session ceiling now id plugin =>
     match ca_approving s !! t with   (* the thread is not in another approval *)
     | None => (takeReview t session ceiling now id plugin s).1
     | Some _ => s
     end
  | Finishing t policy rand audited db row now =>
     (finishApproval unicode_lower url_Parse evidence_bytes t policy rand audited db row now s).1
  | CancellingReview session id plugin => (CancelConnectionReview session id plugin s).1
  | Revoking session record audited db now plugin connector expected =>
     (HostRevokeConnection evidence_bytes session record audited db now plugin connector expected s).1
  | Acquiring inv connectorID method reserved ceiling record ended snapshot networkTLS rand hostEnded now wall =>
     (acquire evidence_bytes inv connectorID method reserved ceiling record ended snapshot networkTLS rand hostEnded now wall s).1
  | Ending n => endLease n s
  | Cleaning n => cleanup n s
  | RevokingPlugin env plugin => revokePlugin env plugin s
  | RevokingSession scope => revokeSession scope s
  end.

Definition run (events : list Event) (s : Authority) : Authority := foldl (flip step) s events.

(** ** The invariant *)

Definition entry (s : Authority) (k : ConnectionKey) (token : string) : option activeNetworkConnection := ca_active s !! k ≫= (.!! token).

(** A lease in use is among the entries of its key, and is under the row. *)
Definition lease_current (s : Authority) (n : nat) (l : ConnectionLease) : Prop :=
  (∃ a, entry s (cl_key l) (cl_token l) = Some a ∧ an_cancel a = n) ∧
  ∀ b, cl_binding l = Some b → ∃ c, ca_table s !! cl_key l = Some c ∧ co_RevokedAt c = None ∧ b = binding_of c.

Definition count (active : gmap ConnectionKey (gmap string activeNetworkConnection)) : nat := map_fold (λ _ requests n, (size requests + n)%nat) 0%nat active.

Record authority_ok (s : Authority) : Prop := {
  ok_tokens : NoDup (map cl_token (ca_leases s));
  ok_leases : ∀ n l, ca_leases s !! n = Some l → cl_canceled l = false → lease_current s n l;
  ok_key : ∀ k requests, ca_active s !! k = Some requests → (size requests ≤ 128)%nat;
  ok_count : (count (ca_active s) ≤ 1024)%nat;
}.

(** ** Counting the entries *)

Lemma entries_delete k active : (count active = size (default ∅ (active !! k)) + count (delete k active))%nat.
Proof.
  destruct (active !! k) as [requests|] eqn:Hk; cbn [default]; [|by rewrite delete_id, map_size_empty].
  unfold count. rewrite <- (insert_delete_id active k requests Hk) at 1.
  rewrite map_fold_insert_L; [done|intros; lia|apply lookup_delete_eq].
Qed.

Lemma entries_insert k requests active : (count (<[k := requests]> active) = size requests + count (delete k active))%nat.
Proof. by rewrite (entries_delete k), lookup_insert_eq, delete_insert_eq. Qed.

(** ** Steps that only end leases *)

Lemma cancel_all_lookup requests leases n l' :
  cancel_all requests leases !! n = Some l' →
  ∃ l, leases !! n = Some l ∧ ((l' = l ∧ ∀ t a, requests !! t = Some a → an_cancel a ≠ n) ∨ l' = cancel_lease l).
Proof.
  unfold cancel_all. revert n l'. apply (map_fold_weak_ind (λ leases' requests, ∀ n l', leases' !! n = Some l' →
    ∃ l, leases !! n = Some l ∧ ((l' = l ∧ ∀ t a, requests !! t = Some a → an_cancel a ≠ n) ∨ l' = cancel_lease l))).
  - intros n l' Hl. exists l'. split; [done|]. left. split; [done|]. intros t a. by rewrite lookup_empty.
  - intros t a rest leases' Ht IH n l'. destruct (decide (an_cancel a = n)) as [<-|Hne].
    + rewrite list_lookup_alter_eq. intros (l1 & (l & Hl & Hcase)%IH & ->)%fmap_Some. exists l. split; [done|]. right.
      destruct Hcase as [[-> _]| ->]; reflexivity.
    + rewrite list_lookup_alter_ne by done. intros (l & Hl & Hcase)%IH. exists l. split; [done|]. destruct Hcase as [[-> Hn]|]; [|by right].
      left. split; [done|]. intros t' a'. destruct (decide (t' = t)) as [->|Ht'].
      * rewrite lookup_insert_eq. by intros [= <-].
      * rewrite lookup_insert_ne by done. apply Hn.
Qed.

Lemma cancel_all_tokens requests leases : map cl_token (cancel_all requests leases) = map cl_token leases.
Proof.
  unfold cancel_all. apply (map_fold_weak_ind (λ leases' _, map cl_token leases' = map cl_token leases)); [done|].
  intros t a rest leases' _ <-. apply list_eq. intros i. rewrite !list_lookup_fmap.
  destruct (decide (an_cancel a = i)) as [<-|]; [|by rewrite list_lookup_alter_ne].
  rewrite list_lookup_alter_eq. by destruct (leases' !! _).
Qed.

(** [s'] is [s] with some leases ended; a lease in use keeps its entry and row. *)
Definition settles (s s' : Authority) : Prop :=
  map cl_token (ca_leases s') = map cl_token (ca_leases s) ∧
  (∀ n l', ca_leases s' !! n = Some l' → cl_canceled l' = false →
     ca_leases s !! n = Some l' ∧ entry s' (cl_key l') (cl_token l') = entry s (cl_key l') (cl_token l') ∧ ca_table s' !! cl_key l' = ca_table s !! cl_key l') ∧
  (∀ k requests', ca_active s' !! k = Some requests' → ∃ requests, ca_active s !! k = Some requests ∧ (size requests' ≤ size requests)%nat) ∧
  (count (ca_active s') ≤ count (ca_active s))%nat.

Lemma settles_ok s s' : settles s s' → authority_ok s → authority_ok s'.
Proof.
  intros (Htok & Hl & Hk & Hc) [Hnd Hcur Hkey Hcount]. split.
  - by rewrite Htok.
  - intros n l' Hn Hlive. destruct (Hl n l' Hn Hlive) as (Hn0 & He & Ht). destruct (Hcur n l' Hn0 Hlive) as [Ha Hb].
    unfold lease_current. by rewrite He, Ht.
  - intros k requests' (requests & Hr & ?)%Hk. specialize (Hkey _ _ Hr). lia.
  - lia.
Qed.

Lemma cancelLocked_ok table key s :
  (∀ k, k ≠ key → table !! k = ca_table s !! k) → authority_ok s → authority_ok (cancelLocked key (with_table table s)).
Proof.
  intros Ht Hok. apply (settles_ok s); [|done]. unfold settles, cancelLocked, with_table. cbn [ca_leases ca_active ca_table]. split; [apply cancel_all_tokens|]. split; [|split].
  - intros n l' (l & Hl & [[-> Hne]| ->])%cancel_all_lookup Hlive; [|discriminate].
    destruct (ok_leases s Hok n l Hl Hlive) as [(a & Ha & Hn) _]. assert (cl_key l ≠ key) as Hk.
    { intros <-. unfold entry in Ha. destruct (ca_active s !! cl_key l) as [requests|]; [|discriminate]. by apply (Hne (cl_token l) a). }
    split; [done|]. unfold entry. cbn [ca_active]. rewrite lookup_delete_ne by done. auto.
  - intros k requests'. destruct (decide (k = key)) as [->|]; [by rewrite lookup_delete_eq|]. rewrite lookup_delete_ne by done. eauto.
  - pose proof (entries_delete key (ca_active s)). lia.
Qed.

Lemma with_table_id s : with_table (ca_table s) s = s.
Proof. by destruct s. Qed.

Lemma cancelLocked_keeps key s : authority_ok s → authority_ok (cancelLocked key s).
Proof. intros. rewrite <- (with_table_id s) at 1. by apply cancelLocked_ok. Qed.

(** What the reviews are does not matter to the leases. *)
Lemma reviews_ok s s' :
  ca_active s' = ca_active s → ca_table s' = ca_table s → ca_leases s' = ca_leases s → authority_ok s → authority_ok s'.
Proof.
  intros Ha Ht Hl [? Hc ??]. split; rewrite ?Ha, ?Hl; try done. intros n l Hn Hlive. unfold lease_current, entry. rewrite Ha, Ht. by apply Hc.
Qed.

Lemma set_requests_entry key requests active k token :
  set_requests key requests active !! k ≫= (.!! token) = if decide (k = key) then requests !! token else active !! k ≫= (.!! token).
Proof.
  unfold set_requests. destruct (decide (requests = ∅)) as [->|], (decide (k = key)) as [->|]; rewrite ?lookup_delete_eq, ?lookup_insert_eq, ?lookup_empty; try done.
  - by rewrite lookup_delete_ne.
  - by rewrite lookup_insert_ne.
Qed.

(** Fewer entries of one key, and fewer leases: each lease that is still in use
    was, and if it is of the key it keeps its entry. *)
Lemma fewer_requests_ok key requests leases s :
  requests ⊆ default ∅ (ca_active s !! key) → map cl_token leases = map cl_token (ca_leases s) →
  (∀ n l, leases !! n = Some l → cl_canceled l = false →
     ca_leases s !! n = Some l ∧ (cl_key l = key → requests !! cl_token l = entry s key (cl_token l))) →
  authority_ok s → authority_ok (with_active (set_requests key requests (ca_active s)) leases s).
Proof.
  intros Hsub Htok Hl Hok. apply (settles_ok s); [|done]. unfold settles, with_active. cbn [ca_leases ca_active ca_table].
  pose proof (map_subseteq_size _ _ Hsub) as Hsize. split; [done|]. split; [|split].
  - intros n l Hn Hlive. destruct (Hl n l Hn Hlive) as [Hn0 Hentry]. split; [done|]. split; [|done]. unfold entry at 1. cbn [ca_active].
    rewrite set_requests_entry. destruct (decide (cl_key l = key)) as [Hk|]; [|done]. rewrite Hk. by apply Hentry.
  - intros k requests'. unfold set_requests. destruct (decide (requests = ∅)) as [->|Hne], (decide (k = key)) as [->|Hk].
    + by rewrite lookup_delete_eq.
    + rewrite lookup_delete_ne by done. eauto.
    + rewrite lookup_insert_eq. intros [= <-]. destruct (ca_active s !! key) as [old|]; [eauto|].
      destruct Hne. apply map_size_empty_inv. cbn [default] in Hsize. rewrite map_size_empty in Hsize. lia.
    + rewrite lookup_insert_ne by done. eauto.
  - rewrite (entries_delete key (ca_active s)). unfold set_requests. destruct (decide (requests = ∅)); [lia|]. rewrite entries_insert. lia.
Qed.

Lemma alter_tokens n (leases : list ConnectionLease) : map cl_token (alter cancel_lease n leases) = map cl_token leases.
Proof.
  apply list_eq. intros i. rewrite !list_lookup_fmap. destruct (decide (n = i)) as [->|]; [|by rewrite list_lookup_alter_ne].
  rewrite list_lookup_alter_eq. by destruct (leases !! i).
Qed.

Lemma alter_live n (leases : list ConnectionLease) i l :
  alter cancel_lease n leases !! i = Some l → cl_canceled l = false → i ≠ n ∧ leases !! i = Some l.
Proof.
  destruct (decide (n = i)) as [->|Hne]; [|rewrite list_lookup_alter_ne by done; by auto].
  rewrite list_lookup_alter_eq. intros (l0 & _ & ->)%fmap_Some. discriminate.
Qed.

Lemma endLease_ok n s : authority_ok s → authority_ok (endLease n s).
Proof.
  intros Hok. apply (settles_ok s); [|done]. unfold settles, endLease, with_active, entry. cbn [ca_leases ca_active ca_table].
  split; [apply alter_tokens|]. split; [|split; [eauto|done]]. intros i l' Hi Hlive. by apply alter_live in Hi as [_ Hi].
Qed.

Lemma cleanup_ok n s : authority_ok s → authority_ok (cleanup n s).
Proof.
  intros Hok. unfold cleanup. destruct (ca_leases s !! n) as [l|] eqn:Hl; [|done].
  apply fewer_requests_ok; [apply delete_subseteq|apply alter_tokens| |done].
  intros i l' Hi Hlive. apply alter_live in Hi as [Hne Hi]; [|done]. split; [done|]. intros Hk.
  assert (cl_token l' ≠ cl_token l) as Ht.
  { intros Heq. apply Hne. pose proof (ok_tokens s Hok) as Hnd. rewrite NoDup_alt in Hnd.
    apply (Hnd i n (cl_token l)); rewrite list_lookup_fmap; [rewrite Hi|rewrite Hl; done]. cbn. by f_equal. }
  rewrite lookup_delete_ne by done. unfold entry. destruct (ca_active s !! _); [done|]. cbn [default]. by rewrite lookup_empty.
Qed.

Lemma revokeSessionKey_ok scope key s : authority_ok s → authority_ok (revokeSessionKey scope key s).
Proof.
  intros Hok. unfold revokeSessionKey. apply fewer_requests_ok; [apply map_filter_subseteq|apply cancel_all_tokens| |done].
  intros n l' (l & Hl & [[-> Hne]| ->])%cancel_all_lookup Hlive; [|discriminate]. split; [done|]. intros Hk.
  destruct (ok_leases s Hok n l Hl Hlive) as [(a & Ha & Hn) _]. rewrite Hk in Ha. rewrite Ha. unfold entry in Ha.
  destruct (ca_active s !! key) as [requests|]; [|discriminate]. cbn [default mbind option_bind] in *.
  apply map_lookup_filter_Some. split; [done|]. intros Hs. by apply (Hne (cl_token l) a); [apply map_lookup_filter_Some|].
Qed.

Lemma foldr_ok {A} (f : A → Authority → Authority) xs s :
  (∀ x s, authority_ok s → authority_ok (f x s)) → authority_ok s → authority_ok (foldr f s xs).
Proof. intros Hf Hs. induction xs; [done|]. by apply Hf. Qed.

Lemma revokePlugin_ok env plugin s : authority_ok s → authority_ok (revokePlugin env plugin s).
Proof.
  intros Hok. unfold revokePlugin. apply (reviews_ok (foldr cancelLocked s (revokePluginKeys env plugin s))); [done..|].
  apply foldr_ok; [intros; by apply cancelLocked_keeps|done].
Qed.

Lemma revokeSession_ok scope s : authority_ok s → authority_ok (revokeSession scope s).
Proof.
  intros Hok. unfold revokeSession. apply (reviews_ok (foldr (revokeSessionKey scope) s (map_to_list (ca_active s)).*1)); [done..|].
  apply foldr_ok; [intros; by apply revokeSessionKey_ok|done].
Qed.

(** ** Steps that write the table *)

Lemma finishApproval_ok t policy rand audited db row now s :
  authority_ok s → authority_ok (finishApproval unicode_lower url_Parse evidence_bytes t policy rand audited db row now s).1.
Proof.
  intros Hok. unfold finishApproval. destruct (ca_approving s !! t) as [[[session record] pending]|]; [|done].
  assert (authority_ok (drop_approval t s)) as Hok1 by by apply (reviews_ok s).
  match goal with |- context [match ?c with Ok _ => _ | Err _ => _ end] => destruct c as [[key id]|e]; [|done] end.
  destruct (PutConnection _ _ _ _ _ _ _ _ _) as [table r] eqn:Hput. cbn [fst].
  apply PutConnection_spec in Hput as [[-> ->]|[(e & -> & Ht)|(-> & e & -> & Hne)]].
  - apply cancelLocked_ok; [|done]. intros k Hk. by rewrite lookup_insert_ne.
  - cbn [outcome_unknown]. apply cancelLocked_ok; [|done]. intros k Hk. destruct Ht as [->| ->]; [done|]. by rewrite lookup_insert_ne.
  - destruct e; cbn [outcome_unknown fst]; try (by rewrite with_table_id). by destruct (Hne e).
Qed.

Lemma HostRevokeConnection_ok session record audited db now plugin connector expected s :
  authority_ok s → authority_ok (HostRevokeConnection evidence_bytes session record audited db now plugin connector expected s).1.
Proof.
  intros Hok. unfold HostRevokeConnection.
  match goal with |- context [match ?c with Ok _ => _ | Err _ => _ end] => destruct c as [key|e]; [|done] end.
  destruct (RevokeConnection _ _ _ _ _ _) as [table r] eqn:Hrev. cbn [fst].
  apply RevokeConnection_spec in Hrev as [(-> & c & _ & _ & Ht)|[(e & -> & Ht)|(-> & e & -> & Hne)]].
  - by apply cancelLocked_ok.
  - cbn [outcome_unknown]. by apply cancelLocked_ok.
  - destruct e; cbn [outcome_unknown fst]; try (by rewrite with_table_id). by destruct (Hne e).
Qed.

(** ** Steps that start a lease, or touch only the reviews *)

Lemma current_row_true now record c :
  current_row now record c = true ↔
  co_RevokedAt c = None ∧ UnixNano now < co_ExpiresAt c ∧ co_ActiveFingerprint c = pr_ActiveFingerprint record ∧
  co_RevokeEpoch c = RevokeEpoch (pr_Revisions record).
Proof.
  unfold current_row. rewrite negb_true_iff, !orb_false_iff, !negb_false_iff, bool_decide_eq_false, bool_decide_eq_true, Z.leb_gt, Z.eqb_eq.
  destruct (co_RevokedAt c); split; intros H; split_and!; try apply H; try done.
  - destruct H as [[[[] _] _] _]. by eexists.
  - by destruct H.
Qed.

Lemma acquireBinding_ok now record connector key method table b secret :
  acquireBinding evidence_bytes now record connector key method table = Ok (Some b, secret) →
  ∃ c, table !! key = Some c ∧ current_row now record c = true ∧ b = binding_of c ∧ secret = ce_SecretRef (co_Evidence c) ∧
    (cs_Transport (cv_Spec connector) = TransportHTTP → method ∈ ab_HTTPMethods b).
Proof.
  unfold acquireBinding. destruct (cs_Configurable (cv_Spec connector)); [|discriminate]. unfold GetConnection.
  destruct (key_valid key); [|discriminate]. destruct (table !! key) as [c|]; [|discriminate]. destruct (connection_valid evidence_bytes key c); [|discriminate].
  destruct (current_row now record c) eqn:Hrow; [|discriminate]. destruct (negb (bool_decide (ce_Destination _ = _))); [|discriminate].
  destruct (negb _) eqn:Hm; [|discriminate]. intros [= <- <-]. exists c. split_and!; [done..|]. intros Htr. rewrite Htr, bool_decide_eq_true_2 in Hm by done.
  by rewrite negb_true_iff, andb_true_l, negb_false_iff, bool_decide_eq_true in Hm.
Qed.

Lemma acquireLocked_ok inv connectorID method record ended snapshot networkTLS now wall table key b secret :
  acquireLocked evidence_bytes inv connectorID method record ended snapshot networkTLS now wall table = Ok (key, Some b, secret) →
  ∃ c, table !! key = Some c ∧ co_RevokedAt c = None ∧ b = binding_of c.
Proof.
  unfold acquireLocked. destruct record as [record|]; [|discriminate]. destruct ended; [discriminate|]. cbn [rbind].
  destruct (acquirePlugin inv record snapshot now wall); [|discriminate]. destruct (connectorByID _ _) as [connector|]; [|discriminate]. cbn [rbind].
  destruct (connectionKey _ _ _) as [k|]; [|discriminate]. cbn [rbind]. destruct (acquireDeclarations _ _); [|discriminate]. cbn [rbind].
  destruct (acquireBinding _ _ _ _ _ _ _) as [[binding sec]|] eqn:Hb; [|discriminate]. cbn [rbind fst snd]. intros [= -> -> ->].
  apply acquireBinding_ok in Hb as (c & Hc & Hrow%current_row_true & -> & _). exists c. split_and!; [done|apply Hrow|done].
Qed.

Lemma add_lease_ok key token session binding secret ended s :
  (size (default ∅ (ca_active s !! key)) < 128)%nat → (activeCount s < 1024)%nat → token ∉ map cl_token (ca_leases s) →
  (∀ b, binding = Some b → ∃ c, ca_table s !! key = Some c ∧ co_RevokedAt c = None ∧ b = binding_of c) →
  authority_ok s → authority_ok (add_lease key token session binding secret ended s).
Proof.
  intros Hkey Hcount Hfresh Hbind Hok. unfold add_lease. set (a := mkActive _ _). set (requests := default ∅ (ca_active s !! key)) in *.
  assert ((size (<[token := a]> requests) ≤ S (size requests))%nat) as Hsize.
  { rewrite map_size_insert. destruct (requests !! token); unfold id; lia. }
  split; cbn [ca_leases ca_active ca_table].
  - rewrite map_app. apply NoDup_app. split; [apply (ok_tokens s Hok)|]. split; [|apply NoDup_singleton].
    intros x Hx ->%list_elem_of_singleton. by apply Hfresh.
  - intros n l Hn Hlive. unfold lease_current, entry. cbn [ca_active ca_table]. apply lookup_app_Some in Hn as [Hn|[Hle Hn]].
    + destruct (ok_leases s Hok n l Hn Hlive) as [(a' & Ha' & Hid) Hb]. split; [|done]. exists a'. split; [|done].
      destruct (decide (cl_key l = key)) as [Hk|]; [|by rewrite lookup_insert_ne]. rewrite Hk, lookup_insert_eq. cbn [mbind option_bind].
      rewrite lookup_insert_ne.
      * unfold entry in Ha'. rewrite Hk in Ha'. subst requests. by destruct (ca_active s !! key).
      * intros ->. apply Hfresh. apply list_elem_of_lookup. exists n. by rewrite list_lookup_fmap, Hn.
    + apply list_lookup_singleton_Some in Hn as [Hn <-]. cbn [cl_key cl_token cl_binding]. split; [|done].
      exists a. rewrite lookup_insert_eq. cbn [mbind option_bind]. rewrite lookup_insert_eq. split; [done|]. subst a. cbn [an_cancel]. lia.
  - intros k requests'. destruct (decide (k = key)) as [->|]; [rewrite lookup_insert_eq; intros [= <-]; lia|].
    rewrite lookup_insert_ne by done. apply (ok_key s Hok).
  - rewrite entries_insert. change (activeCount s) with (count (ca_active s)) in Hcount. rewrite (entries_delete key) in Hcount. fold requests in Hcount. lia.
Qed.

Lemma acquire_ok inv connectorID method reserved ceiling record ended snapshot networkTLS rand hostEnded now wall s s' r :
  acquire evidence_bytes inv connectorID method reserved ceiling record ended snapshot networkTLS rand hostEnded now wall s = (s', r) →
  (∀ token, rand = Some token → token ∉ map cl_token (ca_leases s)) → authority_ok s →
  authority_ok s' ∧ (s' = s ∨ ∃ token, rand = Some token ∧ map cl_token (ca_leases s') = map cl_token (ca_leases s) ++ [token]).
Proof.
  unfold acquire. intros Hacq Hfresh Hok. revert Hacq. destruct (_ && _); [|intros [= <- _]; auto]. destruct reserved; [|intros [= <- _]; auto]. cbn [rbind].
  destruct ceiling; [|intros [= <- _]; auto]. cbn [rbind]. destruct (acquireLocked _ _ _ _ _ _ _ _ _ _) as [[[key b] secret]|] eqn:Hl; [|intros [= <- _]; auto].
  cbn [rbind]. destruct rand as [token|]; [|intros [= <- _]; auto]. destruct (_ || _) eqn:Hlim; [intros [= <- _]; auto|].
  apply orb_false_iff in Hlim as [Hk%Nat.leb_gt Hc%Nat.leb_gt]. intros [= <- _]. split.
  - apply add_lease_ok; [done..|by apply Hfresh| |done]. intros b' ->. by apply acquireLocked_ok in Hl.
  - right. exists token. split; [done|]. unfold add_lease. cbn [ca_leases]. by rewrite map_app.
Qed.

(** Only [acquire] gives a token. *)
Lemma finishApproval_tokens t policy rand audited db row now s :
  map cl_token (ca_leases (finishApproval unicode_lower url_Parse evidence_bytes t policy rand audited db row now s).1) = map cl_token (ca_leases s).
Proof.
  unfold finishApproval. destruct (ca_approving s !! t) as [[[session record] pending]|]; [|done].
  match goal with |- context [match ?c with Ok _ => _ | Err _ => _ end] => destruct c as [[key id]|e]; [|done] end.
  destruct (PutConnection _ _ _ _ _ _ _ _ _) as [table [|e]]; [apply cancel_all_tokens|]. cbn [fst].
  destruct (outcome_unknown e); [apply cancel_all_tokens|done].
Qed.

Lemma HostRevokeConnection_tokens session record audited db now plugin connector expected s :
  map cl_token (ca_leases (HostRevokeConnection evidence_bytes session record audited db now plugin connector expected s).1) = map cl_token (ca_leases s).
Proof.
  unfold HostRevokeConnection. match goal with |- context [match ?c with Ok _ => _ | Err _ => _ end] => destruct c as [key|e]; [|done] end.
  destruct (RevokeConnection _ _ _ _ _ _) as [table [|e]]; [apply cancel_all_tokens|]. cbn [fst].
  destruct (outcome_unknown e); [apply cancel_all_tokens|done].
Qed.

Lemma foldr_tokens {A} (f : A → Authority → Authority) xs s :
  (∀ x s, map cl_token (ca_leases (f x s)) = map cl_token (ca_leases s)) → map cl_token (ca_leases (foldr f s xs)) = map cl_token (ca_leases s).
Proof. intros Hf. induction xs as [|x xs IH]; [done|]. cbn [foldr]. by rewrite Hf. Qed.

(** ** Runs *)

Lemma step_ok e s :
  (∀ token, token ∈ event_tokens [e] → token ∉ map cl_token (ca_leases s)) → authority_ok s →
  authority_ok (step e s) ∧ map cl_token (ca_leases (step e s)) ⊆ map cl_token (ca_leases s) ++ event_tokens [e].
Proof.
  intros Hfresh Hok.
  assert (∀ s', authority_ok s' → map cl_token (ca_leases s') = map cl_token (ca_leases s) →
    authority_ok s' ∧ map cl_token (ca_leases s') ⊆ map cl_token (ca_leases s) ++ event_tokens [e]) as Hsame.
  { intros s' Hs' ->. split; [done|]. intros x Hx. apply elem_of_app. by left. }
  destruct e; cbn [step].
  - assert (∃ reviews, (ReviewConnection unicode_lower url_Parse evidence_bytes session ceiling policy networkSecrets rand now req s).1 = with_reviews reviews s)
      as [reviews ->].
    { exists (ca_reviews (ReviewConnection unicode_lower url_Parse evidence_bytes session ceiling policy networkSecrets rand now req s).1).
      unfold ReviewConnection. match goal with |- context [match ?c with Ok _ => _ | Err _ => _ end] => destruct c as [[record connector]|]; [|by destruct s] end.
      destruct rand; [|by destruct s]. by case_match. }
    apply Hsame; [by apply (reviews_ok s)|done].
  - destruct (ca_approving s !! t); [by apply Hsame|]. unfold takeReview. destruct (guard! _ else _ in _); [|by apply Hsame].
    destruct (ca_reviews s !! id); [|by apply Hsame]. case_match; apply Hsame; [done|done|by apply (reviews_ok s)|done].
  - apply Hsame; [by apply finishApproval_ok|apply finishApproval_tokens].
  - unfold CancelConnectionReview. destruct (ca_reviews s !! id); [|by apply Hsame]. case_match; apply Hsame; [by apply (reviews_ok s)|done..].
  - apply Hsame; [by apply HostRevokeConnection_ok|apply HostRevokeConnection_tokens].
  - destruct (acquire _ _ _ _ _ _ _ _ _ _ _ _ _ _ _) as [s' r] eqn:Hacq. cbn [fst].
    apply acquire_ok in Hacq as [Hok' [->|(token & -> & Htok)]]; [by apply Hsame|split; [done|]| |done].
    + rewrite Htok. by intros x.
    + intros token ->. apply Hfresh. by left.
  - apply Hsame; [by apply endLease_ok|apply alter_tokens].
  - apply Hsame; [by apply cleanup_ok|]. unfold cleanup. destruct (ca_leases s !! n); [apply alter_tokens|done].
  - apply Hsame; [by apply revokePlugin_ok|]. apply (foldr_tokens cancelLocked). intros. apply cancel_all_tokens.
  - apply Hsame; [by apply revokeSession_ok|]. apply (foldr_tokens (revokeSessionKey scope)). intros. apply cancel_all_tokens.
Qed.

Lemma event_tokens_cons e events : event_tokens (e :: events) = event_tokens [e] ++ event_tokens events.
Proof. unfold event_tokens. cbn [omap list_omap]. by case_match. Qed.

Lemma authority_run_ok events s :
  NoDup (event_tokens events) → (∀ token, token ∈ event_tokens events → token ∉ map cl_token (ca_leases s)) → authority_ok s → authority_ok (run events s).
Proof.
  revert s. induction events as [|e events IH]; intros s Hnd Hfresh Hok; [done|]. rewrite event_tokens_cons in Hnd, Hfresh.
  apply NoDup_app in Hnd as (_ & Hdisj & Hnd). destruct (step_ok e s) as [Hok' Htok]; [|done|].
  { intros token Ht. apply Hfresh. apply elem_of_app. by left. }
  apply (IH (step e s)); [done| |done]. intros token Ht Hin%Htok. apply elem_of_app in Hin as [Hin|Hin].
  - apply (Hfresh token); [apply elem_of_app; by right|done].
  - by apply (Hdisj token).
Qed.

Lemma new_authority_ok table : authority_ok (newConnectionAuthority table).
Proof. split; [apply NoDup_nil_2|by intros ?? [=]|by intros ??|vm_compute; lia]. Qed.

(** C22: Whatever reviews, approvals, revocations, leases and ends of leases
    follow one another, with whatever answers of the database, a lease that
    was not cancelled is under the approval as it is stored: the row of its
    key is not revoked, and the lease's binding is exactly that row's. A
    connection grant that is minted with the binding names the row and its
    revision, has the approved destination, and ends no later than the
    approval. No connector has more than 128 leases of one owner, and all of
    them together are at most 1024. The tokens of the leases are random in the
    code; here they are only required to be different. *)
Theorem leases_are_current events table n l b :
  let s := run events (newConnectionAuthority table) in
  NoDup (event_tokens events) →
  ca_leases s !! n = Some l → cl_canceled l = false → cl_binding l = Some b →
  (∃ c, ca_table s !! cl_key l = Some c ∧ co_RevokedAt c = None ∧ b = binding_of c ∧
     ∀ rand wall session policy req g,
       mintConnectionGrant unicode_lower url_Parse rand wall session policy req = Ok g → nr_Binding req = Some b →
       cg_ConnectionID g = co_ConnectionID c ∧ cg_ConnectionRevision g = co_Revision c ∧ cg_ExpiresAt g ≤ FromUnixNano (co_ExpiresAt c) ∧
       ParseDestination unicode_lower url_Parse (nr_Transport req) (ce_Destination (co_Evidence c)) = Ok (cg_Destination g)) ∧
  (∀ k requests, ca_active s !! k = Some requests → (size requests ≤ 128)%nat) ∧ (activeCount s ≤ 1024)%nat.
Proof.
  intros s Hnd Hn Hlive Hb. assert (authority_ok s) as Hok.
  { apply authority_run_ok; [done| |apply new_authority_ok]. intros token _. apply not_elem_of_nil. }
  split; [|split; [apply (ok_key s Hok)|apply (ok_count s Hok)]].
  destruct (ok_leases s Hok n l Hn Hlive) as [_ (c & Hc & Hr & ->)%(fun H => H b Hb)]. exists c. split_and!; [done..|].
  intros rand wall session policy req g (raw & cp & d & _ & Hm & Hg)%mintConnectionGrant_spec Hreq.
  pose proof (mc_allowed _ _ _ _ _ _ _ _ Hm) as Hallow. assert (cg_Destination g = d) as Hd by (rewrite Hg; reflexivity).
  pose proof (minted_expiry unicode_lower url_Parse ("netgrant_" +:+ hex_encode raw) session policy cp req (or_wall wall (nr_Now req)) (nr_ResourceScope req) d) as Hexp.
  rewrite <- Hg, <- Hd in Hexp. apply Hexp in Hallow as [_ He]. specialize (He _ Hreq).
  pose proof (mc_allowed _ _ _ _ _ _ _ _ Hm) as Hallow. unfold destination_allowed in Hallow. rewrite Hreq in Hallow.
  destruct Hallow as (_ & _ & _ & _ & Hparse & _). split_and!; [..|done|done].
  - rewrite Hg. cbn [minted cg_ConnectionID]. by rewrite Hreq.
  - rewrite Hg. cbn [minted cg_ConnectionRevision]. by rewrite Hreq.
Qed.
End runs.

(** ** An approval that is used *)

Definition conn_session : Context := mkContext "s1" "alice" "env1" "c1" true true.

Definition conn_view : ManifestView :=
  mkManifestView [mkConnectorView (mkConnectorSpec true "db" "tcp" "environment" [] None) 0 false] [PermissionNetworkClient] [] [].

Definition conn_plugin : Plugin :=
  mkPlugin "env1" "p1" "plugin" "1.0.0" "fp" "local" (mkApproval "" "" "" [] "" "" 0 0) EnableEnabled "" (mkRevisions 1 2 3) 0 None 0 None conn_view.

Definition conn_request : ReviewConnectionRequest := mkReviewRequest [] "p1" "db" "db.example.com:443" [] "" 0.

Definition conn_snapshot : @AuthorizationSnapshot ManifestView :=
  mkSnapshot conn_plugin [Permissions.mkGrant "p1" PermissionNetworkClient EffectGrant "alice" 1 None None "" ""] None.

Definition conn_now : time := unix_epoch + 1000.

Definition conn_approve : list Event :=
  [Reviewing conn_session (Ok conn_plugin) None false (Some "review") conn_now conn_request;
   Taking 0 conn_session (Ok conn_plugin) conn_now "review" "p1";
   Finishing 0 None (Some "conn") true DatabaseWorks (Some (mkPluginRow "fp" EnableEnabled (mkRevisions 1 2 3))) conn_now].

Definition conn_acquire (token : string) : Event :=
  Acquiring (mkInvocation "p1" (mkSessionScope "s1" "alice" "env1" "c1") "fp" (mkRevisions 1 2 3) true true) "db" "" (Ok tt) (Ok conn_plugin) (Ok conn_plugin)
    None (Ok conn_snapshot) false (Some token) false conn_now conn_now.

(** A revocation whose outcome is not known, and a lease that is asked for after. *)
Definition conn_revoke : list Event :=
  [Revoking conn_session (Ok conn_plugin) true (CommitFails true 7) conn_now "p1" "db" 1; conn_acquire "t2"].

Notation conn_run events := (run id (λ _, None) (λ _, 100) events (newConnectionAuthority ∅)).

Definition conn_lease (s : Authority) : option (bool * option (string * Z)) :=
  match ca_leases s !! 0%nat with
  | Some l => Some (cl_canceled l, match cl_binding l with Some b => Some (ab_ConnectionID b, ab_Revision b) | None => None end)
  | None => None
  end.

Example conn_used : conn_lease (conn_run (conn_approve ++ [conn_acquire "t1"])) = Some (false, Some ("conn", 1)).
Proof. vm_compute. reflexivity. Qed.

Example conn_revoked :
  conn_lease (conn_run (conn_approve ++ [conn_acquire "t1"] ++ conn_revoke)) = Some (true, Some ("conn", 1)) ∧
  length (ca_leases (conn_run (conn_approve ++ [conn_acquire "t1"] ++ conn_revoke))) = 1%nat.
Proof. vm_compute. split; reflexivity. Qed.

Lemma leases_are_current_witness :
  ∃ l b, ca_leases (conn_run (conn_approve ++ [conn_acquire "t1"])) !! 0%nat = Some l ∧ cl_canceled l = false ∧ cl_binding l = Some b ∧
  ∃ c, ca_table (conn_run (conn_approve ++ [conn_acquire "t1"])) !! cl_key l = Some c ∧ co_RevokedAt c = None ∧ b = binding_of c.
Proof.
  destruct (ca_leases (conn_run (conn_approve ++ [conn_acquire "t1"])) !! 0%nat) as [l|] eqn:Hl; [|vm_compute in Hl; discriminate].
  assert (cl_canceled l = false ∧ ∃ b, cl_binding l = Some b) as [Hlive [b Hb]].
  { revert Hl. vm_compute. intros Hl. injection Hl as <-. split; [reflexivity|]. by eexists. }
  exists l, b. split; [reflexivity|]. split; [exact Hlive|]. split; [exact Hb|].
  assert (NoDup (event_tokens (conn_approve ++ [conn_acquire "t1"]))) as Hnd by (vm_compute; apply NoDup_singleton).
  destruct (leases_are_current id (λ _, None) (λ _, 100) (conn_approve ++ [conn_acquire "t1"]) ∅ 0 l b Hnd Hl Hlive Hb)
    as [(c & Hc & Hr & Heq & _) _]. exists c. split; [exact Hc|]. split; [exact Hr|exact Heq].
Defined.
