(* ===== verification/Paths.v ===== *)
(** * Paths and texts of a manifest

    What [pkg/manifest] uses of [path], [strings], [unicode] and [utf8]: the
    extension and the normal form of a slash-separated path, parts of a string,
    case folding against an ASCII constant, the characters of a text, and the
    quoted text of [%q]. *)

From S2P Require Import Prelude GoLib SessionCtx Encoding Json NetIP.

Open Scope Z_scope.

(** [strings.Split(s, sep)] for a separator of one byte: never empty. *)
Definition Split (sep : nat) (s : string) : list string :=
  match split_at sep (text s) with [] => [""] | parts => of_text <$> parts end.

(** [strings.ContainsAny] for ASCII characters. *)
Definition ContainsAny (chars : list nat) (s : string) : bool := existsb (λ c, existsb (λ n, is_byte n c) chars) (text s).

Definition HasPrefix (s prefix : string) : bool := match strip_prefix (text prefix) (text s) with Some _ => true | None => false end.

(** [strings.EqualFold(s, ascii)] for an ASCII constant in lower case: besides
    the letters of ASCII only the long s and the Kelvin sign fold to letters. *)
Definition fold_rune (r : Z) : Z :=
  if (65 <=? r) && (r <=? 90) then r + 32 else if r =? 383 then 115 else if r =? 8490 then 107 else r.

Definition EqualFold (s ascii : string) : bool := bool_decide (map fold_rune (runes (text s)) = map zcode (text ascii)).

Definition RuneCount (s : string) : Z := Z.of_nat (length (runes (text s))).

Definition ValidString (s : string) : bool := ValidUTF8 (text s).

(** [unicode.IsControl] *)
Definition IsControl (r : Z) : bool := ((0 <=? r) && (r <=? 31)) || ((127 <=? r) && (r <=? 159)).

(** [path.Ext]: from the last dot of the last element. *)
Definition Ext (s : string) : string :=
  let element := List.last (split_at 47 (text s)) [] in
  match cut_last 46 element with Some (_, ext) => of_text (byte 46 :: ext) | None => "" end.

(** [path.Clean]: the elements without empty ones and dots, and without those
    that a double dot takes back. *)
Fixpoint clean_elements (rooted : bool) (elements done_ : list bytes) : list bytes :=
  match elements with
  | [] => rev done_
  | e :: elements =>
     if bool_decide (e = []) || bool_decide (e = text ".") then clean_elements rooted elements done_
     else if bool_decide (e = text "..") then
       match done_ with
       | d :: rest => if bool_decide (d = text "..") then clean_elements rooted elements (e :: done_) else clean_elements rooted elements rest
       | [] => clean_elements rooted elements (if rooted then [] else [e])
       end
     else clean_elements rooted elements (e :: done_)
  end.

Definition Clean (s : string) : string :=
  let rooted := HasPrefix s "/" in
  let out := join [byte 47] (clean_elements rooted (split_at 47 (text s)) []) in
  if rooted then of_text (byte 47 :: out) else if bool_decide (out = []) then "." else of_text out.

Example clean_examples :
  Clean "a//b/./../c" = "a/c" ∧ Clean "../../a" = "../../a" ∧ Clean "/../a/" = "/a" ∧ Clean "" = "." ∧ Clean "a/.." = "." ∧
  Ext "x/y.tar.PNG" = ".PNG" ∧ Ext "a.b/c" = "" ∧ Split 47 "a//b" = ["a"; ""; "b"].
Proof. vm_compute. repeat split. Qed.

(** [%q]: [strconv.Quote]; [unicode_IsPrint] is [unicode.IsPrint] beyond ASCII. *)
Fixpoint hex_digits (n : nat) (r : Z) : bytes :=
  match n with
  | O => []
  | S n => hex_digits n (r / 16) ++ [let d := Z.to_nat (r mod 16) in byte (if (d <? 10)%nat then 48 + d else 87 + d)]
  end.

Definition IsPrint (unicode_IsPrint : Z → bool) (r : Z) : bool := if r <? 128 then (32 <=? r) && (r <? 127) else unicode_IsPrint r.

Definition quote_rune (unicode_IsPrint : Z → bool) (r : Z) : bytes :=
  if (r =? 34) || (r =? 92) then [byte 92; byte (Z.to_nat r)]
  else if IsPrint unicode_IsPrint r then encode_rune r
  else match List.find (λ e, e.1 =? r) [(7, 97%nat); (8, 98%nat); (12, 102%nat); (10, 110%nat); (13, 114%nat); (9, 116%nat); (11, 118%nat)] with
  | Some (_, letter) => [byte 92; byte letter]
  | None =>
     if (r <? 32) || (r =? 127) then [byte 92; byte 120] ++ hex_digits 2 r
     else if r <? 65536 then [byte 92; byte 117] ++ hex_digits 4 r
     else [byte 92; byte 85] ++ hex_digits 8 r
  end.

Fixpoint quote_runes (unicode_IsPrint : Z → bool) (fuel : nat) (s : bytes) : bytes :=
  match fuel, s with
  | S fuel, c :: _ =>
     let (r, n) := DecodeRune s in
     (if (n =? 1)%nat && (r =? 65533) then [byte 92; byte 120] ++ hex_digits 2 (zcode c) else quote_rune unicode_IsPrint r) ++
     quote_runes unicode_IsPrint fuel (drop n s)
  | _, _ => []
  end.

Definition Quote (unicode_IsPrint : Z → bool) (s : string) : string :=
  of_text ([dquote] ++ quote_runes unicode_IsPrint (length (text s)) (text s) ++ [dquote]).

Example quote_examples :
  Quote (λ _, true) "a.b" = of_text ([dquote] ++ text "a.b" ++ [dquote]) ∧
  text (Quote (λ _, false) (of_text [byte 10; byte 1; byte 255; byte 92; byte 195; byte 169])) =
    [dquote] ++ text "\n\x01\xff\\\u00e9" ++ [dquote].
Proof. vm_compute. repeat split. Qed.

(** * Versions ([pkg/version/semver.go])

    [ParseSemVer]: the strict pattern, spelled out as a recogniser, and the
    test of [golang.org/x/mod/semver], which is a parameter. *)

(** [0|[1-9][0-9]*] *)
Definition numericID (s : string) : bool :=
  match text s with
  | [] => false
  | [c] => byte_in 48 57 c
  | c :: rest => byte_in 49 57 c && forallb (byte_in 48 57) rest
  end.

(** [[0-9A-Za-z-]+] *)
Definition buildID (s : string) : bool :=
  match text s with [] => false | l => forallb (λ c, isASCIIAlphaNumeric c || is_byte 45 c) l end.

(** [0|[1-9][0-9]*|[0-9A-Za-z-]*[A-Za-z-][0-9A-Za-z-]*]: a number without
    leading zeros, or an identifier with something that is not a digit. *)
Definition prereleaseID (s : string) : bool :=
  numericID s || (buildID s && existsb (λ c, negb (byte_in 48 57 c)) (text s)).

(** The text before the first [sep] and, when there is one, the text after. *)
Fixpoint cut (sep : nat) (l : bytes) : bytes * option bytes :=
  match l with
  | [] => ([], None)
  | c :: l => if is_byte sep c then ([], Some l) else let (before, after) := cut sep l in (c :: before, after)
  end.

Definition dotted (ok : string → bool) (l : bytes) : bool := forallb ok (Split 46 (of_text l)).

(** [StrictSemVerPattern]: the core has no [-] and nothing before the build has a [+]. *)
Definition strictSemVerPattern (value : string) : bool :=
  let (version, build) := cut 43 (text value) in
  let (core, prerelease) := cut 45 version in
  let numbers := Split 46 (of_text core) in
  (length numbers =? 3)%nat && forallb numericID numbers &&
  match prerelease with Some p => dotted prereleaseID p | None => true end &&
  match build with Some b => dotted buildID b | None => true end.

Section semver.
Context (semver_IsValid : string → bool).

(** The value of the parsed version. *)
Definition ParseSemVer (value : string) : option string :=
  if negb (strictSemVerPattern value) || negb (bool_decide (TrimSpace value = value)) || negb (semver_IsValid ("v" +:+ value))
  then None else Some value.

(** [_, err := ParseSemVer(value)] without an error. *)
Definition parses (value : string) : bool := match ParseSemVer value with Some _ => true | None => false end.
End semver.

Example strictSemVerPattern_examples :
  map strictSemVerPattern ["1.2.3"; "0.0.0-alpha.1+build.01"; "1.0.0-0a"; "10.20.30--x.-"; "1.0.0+a-b"] = [true; true; true; true; true] ∧
  map strictSemVerPattern [""; "1.2"; "01.2.3"; "1.2.3-01"; "1.2.3-"; "1.2.3+"; "v1.2.3"; "1.2.3-a..b"; "1.2.3+a+b"] =
    [false; false; false; false; false; false; false; false; false].
Proof. split; reflexivity. Qed.
