(* ===== verification/Manifest.v ===== *)
(** * The data of a manifest ([pkg/manifest])

    The records of [manifest.go], [model.go], [presentation.go] and
    [data_upgrade.go] with the source's constants. A pointer is an option; a
    slice is an option where the code tells nil from empty. A [map[string]any]
    is a list of fields with different names, in an order nothing depends on. *)

From stdpp Require Import pretty.
From S2P Require Import Prelude GoLib Encoding Json.

Open Scope Z_scope.

Notation fields := (list (string * JSON)).

(** ** Features and permissions ([model.go]) *)

Definition SchemaVersionV9 : string := "redevplugin.manifest.v9".
Definition PluginAPIMajor : Z := 1.

Definition FeatureStorageTransactions : string := "storage.transactions.v1".
Definition FeatureSurfaceResources : string := "surface.resources.v1".
Definition FeatureIOStream : string := "io.stream.v1".
Definition FeatureFSWorkspace : string := "fs.workspace.v1".
Definition FeatureFSHome : string := "fs.home.v1".
Definition FeatureFSEnvironment : string := "fs.environment.v1".
Definition FeatureFSWatch : string := "fs.watch.v1".
Definition FeatureFSSelected : string := "fs.selected.v1".
Definition FeatureNetHTTP : string := "net.http.v1".
Definition FeatureNetWebSocket : string := "net.websocket.v1".
Definition FeatureNetTCP : string := "net.tcp.v1".
Definition FeatureNetUDP : string := "net.udp.v1".
Definition FeatureProcessLocal : string := "process.local.v1".
Definition FeatureScopedAuthorization : string := "authorization.scoped.v1".
Definition FeatureDataUpgrade : string := "data.upgrade.v1".
Definition FeatureBackgroundMethod : string := "background.method.v1".
Definition FeatureBackgroundInterval : string := "background.interval.v1".

Definition knownFeature (feature : string) : bool :=
  bool_decide (feature ∈ [FeatureBackgroundInterval; FeatureSurfaceResources; FeatureStorageTransactions; FeatureIOStream; FeatureFSWorkspace;
    FeatureFSHome; FeatureFSEnvironment; FeatureFSWatch; FeatureFSSelected; FeatureNetHTTP; FeatureNetWebSocket; FeatureNetTCP; FeatureNetUDP;
    FeatureProcessLocal; FeatureScopedAuthorization; FeatureBackgroundMethod; FeatureDataUpgrade]).

Definition PermissionFSWorkspaceRead : string := "fs.workspace.read".
Definition PermissionFSWorkspaceWrite : string := "fs.workspace.write".
Definition PermissionFSHomeRead : string := "fs.home.read".
Definition PermissionFSHomeWrite : string := "fs.home.write".
Definition PermissionFSEnvironmentRead : string := "fs.environment.read".
Definition PermissionFSEnvironmentWrite : string := "fs.environment.write".
Definition PermissionFSSelectedRead : string := "fs.selected.read".
Definition PermissionFSSelectedWrite : string := "fs.selected.write".
Definition PermissionNetworkClient : string := "network.client".
Definition PermissionNetworkListen : string := "network.listen".
Definition PermissionProcessLocal : string := "process.local".

Definition knownPermission (value : string) : bool :=
  bool_decide (value ∈ [PermissionFSWorkspaceRead; PermissionFSWorkspaceWrite; PermissionFSHomeRead; PermissionFSHomeWrite;
    PermissionFSEnvironmentRead; PermissionFSEnvironmentWrite; PermissionFSSelectedRead; PermissionFSSelectedWrite; PermissionNetworkClient;
    PermissionNetworkListen; PermissionProcessLocal]).

Record PublicAPIRequirement := mkAPI {
  ap_Major : Z;
  ap_RequiredFeatures : list string;
  ap_OptionalFeatures : list string;
}.

(** ** Methods *)

Definition MethodEffectRead : string := "read".
Definition MethodEffectWrite : string := "write".
Definition MethodEffectExecute : string := "execute".
Definition MethodEffectDelete : string := "delete".
Definition MethodEffectAdmin : string := "admin".

Definition MethodExecutionSync : string := "sync".
Definition MethodExecutionOperation : string := "operation".
Definition MethodExecutionSubscription : string := "subscription".

Definition MethodRouteCapability : string := "capability".
Definition MethodRouteWorker : string := "worker".
Definition MethodRouteCoreAction : string := "core_action".
Definition MethodRouteSurface : string := "surface".

Definition ConfirmationNone : string := "none".
Definition ConfirmationRequired : string := "required".
Definition ConfirmationRiskBased : string := "risk_based".

Record MethodRouteSpec := mkRoute {
  mr_Kind : string;
  mr_BindingID : string;
  mr_TargetMethod : string;
  mr_WorkerID : string;
  mr_ActionID : string;
  mr_SurfaceID : string;
}.

Record StorageBrokerAccessSpec := mkStorageAccess {
  sa_StoreID : string;
  sa_Operations : list string;
}.

Record NetworkBrokerAccessSpec := mkNetworkAccess {
  na_ConnectorID : string;
  na_Transport : string;
  na_Scope : string;
  na_Operations : list string;
  na_HTTPMethods : list string;
}.

(** A process access is its operations. *)
Record MethodBrokerAccessSpec := mkBrokerAccess {
  ba_Storage : list StorageBrokerAccessSpec;
  ba_Network : list NetworkBrokerAccessSpec;
  ba_Process : list (list string);
}.

Record ConfirmationSpec := mkConfirmation {
  co_Mode : string;
  co_PreflightMethod : option string;
  co_RequestHashFields : list string;
  co_PlanHashRequired : bool;
}.

Record CancelPolicySpec := mkCancelPolicy {
  cp_Cancelable : bool;
  cp_DisableBehavior : string;
  cp_UninstallBehavior : string;
  cp_AckTimeoutMS : Z;
}.

Definition CancelDisableBehaviorCancel : string := "cancel".
Definition CancelDisableBehaviorOrphan : string := "orphan".
Definition CancelDisableBehaviorWait : string := "wait".
Definition CancelUninstallBehaviorCancelThenBlockDelete : string := "cancel_then_block_delete".
Definition CancelUninstallBehaviorForceCleanupAllowed : string := "force_cleanup_allowed".

Record MethodSpec := mkMethod {
  me_Permissions : option (list string);
  me_Method : string;
  me_Effect : string;
  me_Execution : string;
  me_Dangerous : bool;
  me_PreflightOnly : bool;
  me_Confirmation : option ConfirmationSpec;
  me_CancelPolicy : option CancelPolicySpec;
  me_RequestSchema : option fields;
  me_ResponseSchema : option fields;
  me_Route : MethodRouteSpec;
  me_BrokerAccess : option MethodBrokerAccessSpec;
}.

(** ** The rest of the package *)

Record Pin := mkPin {
  pi_PublisherID : string;
  pi_ContractID : string;
  pi_ContractVersion : string;
  pi_ArtifactSHA256 : string;
}.

Record CapabilityBinding := mkBinding {
  cb_BindingID : string;
  cb_Contract : Pin;
}.

Record ProcessResourceLimits := mkProcessLimits {
  pl_OutputBufferBytes : Z;
  pl_MaxRuntimeMS : Z;
}.

Definition BackgroundRuntimeStart : string := "runtime_start".
Definition BackgroundOnDemand : string := "on_demand".
Definition BackgroundInterval : string := "interval".

Record BackgroundSpec := mkBackground {
  bg_IntervalMS : Z;
  bg_MaxRuntimeMS : Z;
  bg_Method : string;
  bg_Params : option fields;
  bg_Strategy : string;
  bg_WorkerID : string;
}.

Definition SurfaceView : string := "view".
Definition SurfaceCommand : string := "command".
Definition SurfaceBackground : string := "background".
Definition SurfaceIntentPrimary : string := "primary".
Definition SurfaceIntentSecondary : string := "secondary".
Definition SurfaceIntentUtility : string := "utility".

Record SurfaceWebSpec := mkWeb {
  we_Storage : list StorageBrokerAccessSpec;
  we_Settings : list string;
  we_Network : list NetworkBrokerAccessSpec;
  we_Root : string;
  we_SPA : bool;
}.

(** The default size is its width and height. *)
Record SurfaceSpec := mkSurface {
  su_RequiredMethods : option (list string);
  su_SurfaceID : string;
  su_Kind : string;
  su_Intent : string;
  su_Label : string;
  su_Entry : string;
  su_Web : SurfaceWebSpec;
  su_Icon : string;
  su_DefaultSize : option (Z * Z);
}.

Definition WorkerModeJob : string := "job".
Definition MaxWorkerMemoryLimitBytes : Z := Z.shiftl 256 20.
Definition MaxStorageStores : nat := 16.
Definition MaxStoreQuotaBytes : Z := Z.shiftl 1 30.
Definition MaxStoreQuotaFiles : Z := 100000.

Record WorkerSpec := mkWorker {
  wo_WorkerID : string;
  wo_Artifact : string;
  wo_Mode : string;
  wo_Scope : string;
  wo_MemoryLimitBytes : Z;
  wo_IdleTimeoutMS : Z;
}.

Record StoreSpec := mkStoreSpec {
  so_StoreID : string;
  so_Kind : string;
  so_Scope : string;
  so_QuotaBytes : Z;
  so_QuotaFiles : option Z;
  so_SchemaVersion : Z;
}.

Record NetworkConnectorSpec := mkNetworkConnector {
  nc_Configurable : bool;
  nc_ConnectorID : string;
  nc_Transport : string;
  nc_Scope : string;
  nc_Destinations : list string;
  nc_Auth : fields;
  nc_TLS : fields;
}.

Record SettingOptionSpec := mkOption {
  op_Value : string;
  op_Label : string;
}.

(** The default and the validation of a setting are not read here. *)
Record SettingFieldSpec := mkSetting {
  se_Key : string;
  se_Type : string;
  se_Label : string;
  se_Scope : string;
  se_SecretRef : string;
  se_Options : list SettingOptionSpec;
}.

Record SettingsSpec := mkSettings {
  sg_SchemaVersion : Z;
  sg_Fields : list SettingFieldSpec;
}.

Record IntentSpec := mkIntent {
  in_IntentID : string;
  in_Method : string;
}.

Record DataUpgradePredecessor := mkPredecessor {
  dp_Version : string;
  dp_ShapeSHA256 : string;
}.

Record DataUpgradeSpec := mkDataUpgrade {
  du_From : list DataUpgradePredecessor;
  du_Method : string;
  du_MaxBytes : Z;
  du_MaxRuntimeMS : Z;
}.

(** ** Presentation *)

Record LocalizedSurfacePresentation := mkLocalizedSurface {
  ls_SurfaceID : string;
  ls_Label : string;
}.

Record LocalizedSettingPresentation := mkLocalizedSetting {
  lt_Key : string;
  lt_Label : string;
  lt_Options : list SettingOptionSpec;
}.

Record PresentationLocalizationSpec := mkLocalization {
  lo_Locale : string;
  lo_PluginName : string;
  lo_PublisherName : string;
  lo_Summary : string;
  lo_Description : list string;
  lo_Highlights : list string;
  lo_Keywords : list string;
  lo_Surfaces : list LocalizedSurfacePresentation;
  lo_Settings : list LocalizedSettingPresentation;
}.

(** The icon is its path. *)
Record PresentationSpec := mkPresentation {
  pp_DefaultLocale : string;
  pp_Summary : string;
  pp_Description : list string;
  pp_Highlights : list string;
  pp_Keywords : list string;
  pp_Localizations : list PresentationLocalizationSpec;
  pp_Icon : option string;
}.

Record Manifest := mkManifest {
  ma_DataUpgrade : option DataUpgradeSpec;
  ma_SchemaVersion : string;
  ma_PublisherID : string;
  ma_PublisherDisplayName : string;
  ma_PluginID : string;
  ma_DisplayName : string;
  ma_Version : string;
  ma_API : PublicAPIRequirement;
  ma_Permissions : list string;
  ma_Presentation : PresentationSpec;
  ma_Surfaces : option (list SurfaceSpec);
  ma_CapabilityBindings : list CapabilityBinding;
  ma_Methods : list MethodSpec;
  ma_Workers : list WorkerSpec;
  ma_Storage : option (list StoreSpec);
  ma_NetworkAccess : option (list NetworkConnectorSpec);
  ma_Process : option ProcessResourceLimits;
  ma_Background : option BackgroundSpec;
  ma_Settings : option SettingsSpec;
  ma_Intents : list IntentSpec;
}.

(** The surfaces as a list; nil is the empty one. *)
Definition surfaces_of (m : Manifest) : list SurfaceSpec := default [] (ma_Surfaces m).
Definition stores_of (m : Manifest) : list StoreSpec := default [] (ma_Storage m).
Definition connectors_of (m : Manifest) : list NetworkConnectorSpec := default [] (ma_NetworkAccess m).

(** ** Errors *)

(** [ValidationError], the errors of [model.go] with what they wrap, and the
    error of a schema that is not one of these. *)
Inductive ManifestError :=
| ValidationError (Field Message : string)
| ErrUnsupportedFeature (feature : string)
| ErrUnsupportedPermission (permission : string)
| SchemaFailure (e : string).

Definition ManifestError_Error (e : ManifestError) : string :=
  match e with
  | ValidationError field message => field +:+ ": " +:+ message
  | ErrUnsupportedFeature f => "UNSUPPORTED_FEATURE: " +:+ f
  | ErrUnsupportedPermission p => "UNSUPPORTED_PERMISSION: " +:+ p
  | SchemaFailure e => e
  end.

(** [fmt.Sprintf("%s[%d]", field, i)] *)
Definition at_index (field : string) (i : nat) : string := field +:+ "[" +:+ pretty i +:+ "]".
