(* ===== verification/ManifestChecks.v ===== *)
(** * The checks of a manifest ([pkg/manifest])

    [Validate] and everything it calls, in the order of the source, so that a
    manifest with several mistakes is refused with the same error. Outside of
    [src/] are the test of versions [semver_IsValid]
    ([golang.org/x/mod/semver]), the compiler and validator of JSON schemas
    [CompileSchema], the canonical form of a language tag [language_Parse], the
    test [IsNormalNFC] and the case folding [Fold] of [golang.org/x/text];
    [unicode_lower] and [unicode_IsPrint] are tables of [unicode] beyond ASCII,
    [marshal] is the text [json.Marshal] makes of a schema. *)

From stdpp Require Import pretty.
From S2P Require Import Prelude GoLib SessionCtx Encoding Json NetIP Paths Manifest.

Open Scope go_scope.
Open Scope Z_scope.

Notation "'reject!' c 'at' f 'says' m 'in' k" := (if c then Err (ValidationError f m) else k)
  (at level 200, c at level 100, f at level 100, m at level 100, k at level 200) : go_scope.

(** [for i, x := range l] with a state and an early return. *)
Fixpoint range_loop {A S E} (f : nat → A → S → Result E S) (i : nat) (l : list A) (s : S) : Result E S :=
  match l with
  | [] => Ok s
  | x :: l => let? s := f i x s in range_loop f (i + 1) l s
  end.

(** The same without a state. *)
Definition each {A E} (f : nat → A → Result E unit) (l : list A) : Result E unit := range_loop (λ i x _, f i x) 0 l tt.

Notation check := (Result ManifestError unit).

Definition blank (s : string) : bool := bool_decide (TrimSpace s = "").
Definition empty (s : string) : bool := bool_decide (s = "").
Definition featureDeclared (values : list string) (wanted : string) : bool := bool_decide (wanted ∈ values).
Definition permissionDeclared (values : list string) (wanted : string) : bool := bool_decide (wanted ∈ values).
Definition scope_ok (scope : string) : bool := bool_decide (scope = "user") || bool_decide (scope = "environment").

(** ** Enumerations *)

Definition validEffect (effect : string) : bool :=
  bool_decide (effect ∈ [MethodEffectRead; MethodEffectWrite; MethodEffectExecute; MethodEffectDelete; MethodEffectAdmin]).
Definition validExecutionMode (mode : string) : bool :=
  bool_decide (mode ∈ [MethodExecutionSync; MethodExecutionOperation; MethodExecutionSubscription]).
Definition validConfirmationMode (mode : string) : bool := bool_decide (mode ∈ [ConfirmationNone; ConfirmationRequired; ConfirmationRiskBased]).
Definition validCancelDisableBehavior (b : string) : bool :=
  bool_decide (b ∈ [CancelDisableBehaviorCancel; CancelDisableBehaviorOrphan; CancelDisableBehaviorWait]).
Definition validCancelUninstallBehavior (b : string) : bool :=
  bool_decide (b ∈ [CancelUninstallBehaviorCancelThenBlockDelete; CancelUninstallBehaviorForceCleanupAllowed]).
Definition validNetworkTransport (t : string) : bool := bool_decide (t ∈ ["http"; "websocket"; "tcp"; "udp"]).
Definition validSettingType (t : string) : bool := bool_decide (t ∈ ["string"; "boolean"; "number"; "integer"; "enum"; "select"; "secret"]).
Definition validSurfaceKind (k : string) : bool := bool_decide (k ∈ [SurfaceView; SurfaceCommand; SurfaceBackground]).
Definition validSurfaceIntent (i : string) : bool := bool_decide (i ∈ [SurfaceIntentPrimary; SurfaceIntentSecondary; SurfaceIntentUtility]).
Definition validStoreKind (k : string) : bool := bool_decide (k ∈ ["files"; "kv"; "sqlite"]).
Definition validProcessOperation (o : string) : bool :=
  bool_decide (o ∈ ["start"; "attach"; "status"; "write_stdin"; "close_stdin"; "read_stdout"; "read_stderr"; "wait"; "terminate"; "kill"; "close"]).

Definition validStorageOperation (kind operation : string) : bool :=
  if bool_decide (kind = "files") then bool_decide (operation ∈ ["read"; "write"; "delete"; "list"])
  else if bool_decide (kind = "kv") then bool_decide (operation ∈ ["get"; "put"; "delete"; "list"])
  else if bool_decide (kind = "sqlite") then bool_decide (operation ∈ ["query"; "exec"])
  else false.

Definition readOnlyStorageOperation (o : string) : bool := bool_decide (o ∈ ["read"; "list"; "get"; "query"]).

Definition validNetworkOperation (transport operation : string) : bool :=
  if bool_decide (transport = "http") then bool_decide (operation ∈ ["http"; "http_stream"])
  else if bool_decide (transport = "websocket") then bool_decide (operation = "websocket")
  else if bool_decide (transport = "tcp") then bool_decide (operation = "tcp")
  else if bool_decide (transport = "udp") then bool_decide (operation = "udp")
  else false.

Definition validHTTPMethod (m : string) : bool := bool_decide (m ∈ ["GET"; "HEAD"; "POST"; "PUT"; "PATCH"; "DELETE"; "OPTIONS"]).
Definition readOnlyHTTPMethod (m : string) : bool := bool_decide (m ∈ ["GET"; "HEAD"; "OPTIONS"]).

(** [^[a-zA-Z0-9][a-zA-Z0-9_.-]{0,127}$] *)
Definition connectorIDByte (c : Ascii.ascii) : bool := isASCIIAlphaNumeric c || is_byte 95 c || is_byte 46 c || is_byte 45 c.
Definition connectorIDPattern (s : string) : bool :=
  match text s with [] => false | c :: rest => isASCIIAlphaNumeric c && forallb connectorIDByte rest && (length rest <=? 127)%nat end.

(** ** Features and permissions ([normalize.go]) *)

Definition normalizePermissions (values : list string) : Result ManifestError (list string) :=
  let? seen := range_loop (λ _ value seen,
    if negb (knownPermission value) then Err (ErrUnsupportedPermission value)
    else reject! bool_decide (value ∈ seen) at "permissions" says "must not contain duplicates" in Ok (seen ++ [value])) 0 values [] in
  Ok (sort_strings seen).

(** [seen] are both lists of the normalized requirement. *)
Definition normalizePublicAPI (api : PublicAPIRequirement) : Result ManifestError PublicAPIRequirement :=
  reject! negb (ap_Major api =? PluginAPIMajor) at "api.major" says "must be 1" in
  let? required := range_loop (λ _ feature seen,
    if negb (knownFeature feature) then Err (ErrUnsupportedFeature feature)
    else reject! bool_decide (feature ∈ seen) at "api.required_features" says "must not contain duplicates" in Ok (seen ++ [feature]))
    0 (ap_RequiredFeatures api) [] in
  let? optional := range_loop (λ _ feature seen,
    if negb (knownFeature feature) then Ok seen
    else reject! bool_decide (feature ∈ required ++ seen) at "api.optional_features" says "must not duplicate required or optional features" in
      Ok (seen ++ [feature])) 0 (ap_OptionalFeatures api) [] in
  Ok (mkAPI (ap_Major api) (sort_strings required) (sort_strings optional)).

Definition PermissionIDs (m : Manifest) : list string := ma_Permissions m.

Definition WorkerPermissionIDs (m : Manifest) (method : MethodSpec) : list string :=
  match me_Permissions method with Some permissions => permissions | None => PermissionIDs m end.

(** ** Scoped authorization ([scoped_authorization.go]) *)

Definition methodScope (m : Manifest) (i : nat) (method : MethodSpec) : check :=
  match me_Permissions method with
  | None => Ok tt
  | Some permissions =>
     let field := at_index "methods" i +:+ ".permissions" in
     reject! negb (featureDeclared (ap_RequiredFeatures (ma_API m)) FeatureScopedAuthorization) at field says "requires authorization.scoped.v1" in
     reject! negb (bool_decide (mr_Kind (me_Route method) = MethodRouteWorker)) at field says "is only allowed for worker routes" in
     match normalizePermissions permissions with
     | Err e => Err (ValidationError field (ManifestError_Error e))
     | Ok _ =>
        reject! negb (forallb (permissionDeclared (ma_Permissions m)) permissions) at field says "must be a subset of package permissions" in
        match me_BrokerAccess method with
        | None => Ok tt
        | Some access =>
           reject! negb (length (ba_Process access) =? 0)%nat && negb (permissionDeclared permissions PermissionProcessLocal)
             at field says "must include process.local for process broker access" in
           reject! negb (length (ba_Network access) =? 0)%nat && negb (permissionDeclared permissions PermissionNetworkClient)
             at field says "must include network.client for connector broker access" in
           Ok tt
        end
     end
  end.

Definition surfaceScope (m : Manifest) (i : nat) (surface : SurfaceSpec) : check :=
  match su_RequiredMethods surface with
  | None => Ok tt
  | Some names =>
     let field := at_index "surfaces" i +:+ ".required_methods" in
     reject! negb (featureDeclared (ap_RequiredFeatures (ma_API m)) FeatureScopedAuthorization) at field says "requires authorization.scoped.v1" in
     let? _ := range_loop (λ _ method seen,
       reject! negb (bool_decide (method ∈ map me_Method (ma_Methods m))) || bool_decide (method ∈ seen)
         at field says "must contain unique declared methods" in Ok (method :: seen)) 0 names [] in
     Ok tt
  end.

Definition validateScopedAuthorization (m : Manifest) : check :=
  let? _ := each (methodScope m) (ma_Methods m) in
  each (surfaceScope m) (surfaces_of m).

(** ** Routes, confirmations and cancellation of a method *)

Definition validateMethodRoute (field : string) (route : MethodRouteSpec) (bindings workers : list string) : check :=
  reject! negb (bool_decide (mr_Kind route = MethodRouteSurface)) && negb (empty (mr_SurfaceID route))
    at field +:+ ".surface_id" says "is only allowed for surface routes" in
  if bool_decide (mr_Kind route = MethodRouteSurface) then
    reject! blank (mr_SurfaceID route) at field +:+ ".surface_id" says "is required for surface routes" in
    reject! negb (empty (mr_BindingID route)) || negb (empty (mr_TargetMethod route)) || negb (empty (mr_WorkerID route)) ||
      negb (empty (mr_ActionID route)) at field says "surface routes accept only kind and surface_id" in
    Ok tt
  else if bool_decide (mr_Kind route = MethodRouteCapability) then
    reject! negb (bool_decide (mr_BindingID route ∈ bindings)) at field +:+ ".binding_id" says "must reference a declared capability binding" in
    reject! blank (mr_TargetMethod route) at field +:+ ".target_method" says "is required for capability routes" in
    reject! negb (blank (mr_WorkerID route)) at field +:+ ".worker_id" says "is only allowed for worker routes" in
    reject! negb (blank (mr_ActionID route)) at field +:+ ".action_id" says "is only allowed for core_action routes" in
    Ok tt
  else if bool_decide (mr_Kind route = MethodRouteWorker) then
    reject! negb (bool_decide (mr_WorkerID route ∈ workers)) at field +:+ ".worker_id" says "must reference a declared worker" in
    reject! negb (blank (mr_BindingID route)) at field +:+ ".binding_id" says "is only allowed for capability routes" in
    reject! negb (blank (mr_TargetMethod route)) at field +:+ ".target_method" says "is only allowed for capability routes" in
    reject! negb (blank (mr_ActionID route)) at field +:+ ".action_id" says "is only allowed for core_action routes" in
    Ok tt
  else if bool_decide (mr_Kind route = MethodRouteCoreAction) then
    reject! blank (mr_ActionID route) at field +:+ ".action_id" says "is required for core_action routes" in
    reject! negb (blank (mr_BindingID route)) at field +:+ ".binding_id" says "is only allowed for capability routes" in
    reject! negb (blank (mr_TargetMethod route)) at field +:+ ".target_method" says "is only allowed for capability routes" in
    reject! negb (blank (mr_WorkerID route)) at field +:+ ".worker_id" says "is only allowed for worker routes" in
    Ok tt
  else Err (ValidationError (field +:+ ".kind") "must be capability, worker, core_action, or surface").

Definition validateConfirmationSpec (field : string) (method : MethodSpec) (c : ConfirmationSpec) : check :=
  reject! negb (validConfirmationMode (co_Mode c)) at field +:+ ".confirmation.mode" says "must be none, required, or risk_based" in
  reject! me_Dangerous method && bool_decide (co_Mode c = ConfirmationNone)
    at field +:+ ".confirmation.mode" says "must be required or risk_based for dangerous methods" in
  reject! me_PreflightOnly method && negb (bool_decide (co_Mode c = ConfirmationNone))
    at field +:+ ".confirmation.mode" says "must be none for preflight_only methods" in
  let? _ := match co_PreflightMethod c with
    | None => Ok tt
    | Some name =>
       reject! blank name at field +:+ ".confirmation.preflight_method" says "must not be empty" in
       reject! bool_decide (co_Mode c = ConfirmationNone)
         at field +:+ ".confirmation.preflight_method" says "is only allowed when confirmation mode is required or risk_based" in
       reject! negb (co_PlanHashRequired c)
         at field +:+ ".confirmation.plan_hash_required" says "must be true when preflight_method is set" in
       Ok tt
    end in
  let? _ := range_loop (λ i hashField seen,
    reject! blank hashField at at_index (field +:+ ".confirmation.request_hash_fields") i says "must not be empty" in
    reject! bool_decide (hashField ∈ seen) at at_index (field +:+ ".confirmation.request_hash_fields") i says "must be unique" in
    Ok (hashField :: seen)) 0 (co_RequestHashFields c) [] in
  Ok tt.

Definition validateMethodConfirmation (field : string) (method : MethodSpec) : check :=
  let? _ :=
    if me_PreflightOnly method then
      reject! negb (bool_decide (me_Effect method = MethodEffectRead)) at field +:+ ".effect" says "must be read for preflight_only methods" in
      reject! negb (bool_decide (me_Execution method = MethodExecutionSync))
        at field +:+ ".execution" says "must be sync for preflight_only methods" in
      reject! me_Dangerous method at field +:+ ".dangerous" says "must be false for preflight_only methods" in
      Ok tt
    else Ok tt in
  match me_Confirmation method with
  | None => reject! me_Dangerous method at field +:+ ".confirmation" says "is required for dangerous methods" in Ok tt
  | Some c => validateConfirmationSpec field method c
  end.

Definition validateMethodCancelPolicy (field : string) (method : MethodSpec) : check :=
  if bool_decide (me_Execution method = MethodExecutionSync) then
    match me_CancelPolicy method with
    | None => Ok tt
    | Some p =>
       reject! cp_Cancelable p at field +:+ ".cancel_policy.cancelable" says "must be false for sync methods" in
       reject! negb (blank (cp_DisableBehavior p))
         at field +:+ ".cancel_policy.disable_behavior" says "is only allowed for operation and subscription methods" in
       reject! negb (blank (cp_UninstallBehavior p))
         at field +:+ ".cancel_policy.uninstall_behavior" says "is only allowed for operation and subscription methods" in
       reject! negb (cp_AckTimeoutMS p =? 0)
         at field +:+ ".cancel_policy.ack_timeout_ms" says "is only allowed for operation and subscription methods" in
       Ok tt
    end
  else match me_CancelPolicy method with
  | None => Err (ValidationError (field +:+ ".cancel_policy") "is required for operation and subscription methods")
  | Some p =>
     reject! negb (validCancelDisableBehavior (cp_DisableBehavior p))
       at field +:+ ".cancel_policy.disable_behavior" says "must be cancel, orphan, or wait" in
     reject! negb (validCancelUninstallBehavior (cp_UninstallBehavior p))
       at field +:+ ".cancel_policy.uninstall_behavior" says "must be cancel_then_block_delete or force_cleanup_allowed" in
     reject! cp_AckTimeoutMS p <? 0 at field +:+ ".cancel_policy.ack_timeout_ms" says "must be zero or positive" in
     reject! cp_Cancelable p && (cp_AckTimeoutMS p =? 0)
       at field +:+ ".cancel_policy.ack_timeout_ms" says "must be positive for cancelable methods" in
     reject! negb (cp_Cancelable p) && negb (cp_AckTimeoutMS p =? 0)
       at field +:+ ".cancel_policy.ack_timeout_ms" says "must be zero for non-cancelable methods" in
     Ok tt
  end.

Definition capabilityMethodDeclaresUnsignedPolicy (method : MethodSpec) : bool :=
  negb (empty (me_Effect method)) || negb (empty (me_Execution method)) || me_Dangerous method || me_PreflightOnly method ||
  bool_decide (is_Some (me_Confirmation method)) || bool_decide (is_Some (me_CancelPolicy method)) ||
  match me_RequestSchema method with Some _ => true | None => false end || match me_ResponseSchema method with Some _ => true | None => false end ||
  bool_decide (is_Some (me_BrokerAccess method)).

(** * Schemas of methods ([pkg/manifest/method_schema.go])

    The closed subset of JSON Schema that a method may declare, and its
    compilation. The list of the fields of a schema is in the order in which Go
    visits them; the error that is found first depends on it. *)

Definition maxMethodSchemaBytes : Z := Z.shiftl 256 10.
Definition maxMethodSchemaDepth : nat := 64.
Definition maxMethodSchemaNodes : Z := 4096.

Definition allowedMethodSchemaKeywords : list string :=
  ["$comment"; "title"; "description"; "readOnly"; "writeOnly"; "$ref"; "$defs"; "type"; "properties"; "patternProperties"; "required";
   "additionalProperties"; "items"; "allOf"; "anyOf"; "oneOf"; "enum"; "const"; "default"; "examples"; "minimum"; "maximum"; "exclusiveMinimum";
   "exclusiveMaximum"; "multipleOf"; "minLength"; "maxLength"; "pattern"; "format"; "minItems"; "maxItems"; "uniqueItems"; "minProperties";
   "maxProperties"].

(** [methodSchemaError] *)
Record methodSchemaError := mkSchemaError {
  ms_path : string;
  ms_message : string;
}.

Definition methodSchemaError_Error (e : methodSchemaError) : string :=
  if bool_decide (ms_path e = "") then ms_message e else ms_path e +:+ ": " +:+ ms_message e.

(** [node[keyword]] *)
Definition keyword (node : fields) (name : string) : option JSON := snd <$> List.find (λ kv, bool_decide (kv.1 = name)) node.

Definition declares (node : fields) (name : string) : bool := match keyword node name with Some _ => true | None => false end.

Definition object_keywords : list string := ["properties"; "patternProperties"; "additionalProperties"; "required"; "minProperties"; "maxProperties"].

Definition schemaDeclaresValueDomain (node : fields) : bool :=
  declares node "type" || declares node "$ref" || existsb (declares node) (object_keywords ++ ["allOf"; "anyOf"; "oneOf"; "const"; "enum"]).

Definition is_text (s : string) (v : JSON) : bool := match v with JText t => bool_decide (t = s) | _ => false end.

Definition schemaCanMatchObject (node : fields) : bool :=
  match keyword node "type" with
  | Some (JText t) => bool_decide (t = "object")
  | Some (JArray candidates) => existsb (is_text "object") candidates
  | _ => false
  end || existsb (declares node) object_keywords.

Definition is_false (v : option JSON) : bool := match v with Some (JBool false) => true | _ => false end.

Section closed.
Context (unicode_IsPrint : Z → bool).

(** The checks of one node, before its children. *)
Definition closedNode (node : fields) (path : string) : Result methodSchemaError unit :=
  match List.find (λ kv, negb (bool_decide (kv.1 ∈ allowedMethodSchemaKeywords))) node with
  | Some (name, _) => Err (mkSchemaError path ("keyword " +:+ Quote unicode_IsPrint name +:+ " is not supported by the closed method-schema subset"))
  | None =>
     guard! schemaDeclaresValueDomain node
       else mkSchemaError path "must declare an explicit type, object contract, finite value, or composition" in
     guard! match keyword node "$ref" with Some (JText ref) => HasPrefix ref "#/$defs/" | _ => true end
       else mkSchemaError (path +:+ ".$ref") "must reference a local $defs schema" in
     guard! negb (schemaCanMatchObject node && negb (is_false (keyword node "additionalProperties")))
       else mkSchemaError (path +:+ ".additionalProperties") "must be false for object schemas" in
     Ok tt
  end.

(** The children of a node with their paths, in the order of the visit. *)
Definition map_children (node : fields) (path name : string) : list (string * JSON) :=
  match keyword node name with
  | Some (JObject children) => map (λ kv, (path +:+ "." +:+ name +:+ "." +:+ kv.1, kv.2)) children
  | _ => []
  end.

Definition array_children (node : fields) (path name : string) : list (string * JSON) :=
  match keyword node name with
  | Some (JArray children) => imap (λ i child, (at_index (path +:+ "." +:+ name) i, child)) children
  | _ => []
  end.

Definition single_children (node : fields) (path name : string) : list (string * JSON) :=
  match keyword node name with
  | Some (JObject child) => [(path +:+ "." +:+ name, JObject child)]
  | Some (JBool child) => [(path +:+ "." +:+ name, JBool child)]
  | _ => []
  end.

Definition schema_children (node : fields) (path : string) : list (string * JSON) :=
  concat (map (map_children node path) ["$defs"; "properties"; "patternProperties"]) ++
  concat (map (array_children node path) ["allOf"; "anyOf"; "oneOf"]) ++
  single_children node path "items".

(** [fuel] is what is left of the depth; without any it is exceeded. *)
Fixpoint validateClosedSchemaNode (fuel : nat) (value : JSON) (path : string) (nodes : Z) : Result methodSchemaError Z :=
  match fuel with
  | O => Err (mkSchemaError path "exceeds maximum depth 64")
  | S fuel =>
     let nodes := nodes + 1 in
     if maxMethodSchemaNodes <? nodes then Err (mkSchemaError path "exceeds maximum node count 4096")
     else match value with
     | JBool true => Err (mkSchemaError path "unconstrained true schemas are forbidden")
     | JObject node =>
        let? _ := closedNode node path in
        range_loop (λ _ child nodes, validateClosedSchemaNode fuel child.2 child.1 nodes) 0 (schema_children node path) nodes
     | _ => Ok nodes
     end
  end.
End closed.

Section compile.
Context (unicode_IsPrint : Z → bool) {Schema : Type} (marshal : fields → Result string bytes) (CompileSchema : string → bytes → Result string Schema)
  (Validate : Schema → fields → bool).

Definition compileClosedObjectSchema (name : string) (schema : option fields) : Result methodSchemaError Schema :=
  match schema with
  | None => Err (mkSchemaError name "is required")
  | Some schema =>
     guard! match keyword schema "type" with Some t => is_text "object" t | None => false end
       else mkSchemaError (name +:+ ".type") "must be object" in
     let? _ := validateClosedSchemaNode unicode_IsPrint (maxMethodSchemaDepth + 1) (JObject schema) name 0 in
     match marshal schema with
     | Err e => Err (mkSchemaError name ("must be valid JSON: " +:+ e))
     | Ok raw =>
        guard! Z.of_nat (length raw) <=? maxMethodSchemaBytes else mkSchemaError name "exceeds 262144 bytes" in
        match CompileSchema name raw with
        | Err e => Err (mkSchemaError name ("is invalid: " +:+ e))
        | Ok compiled => Ok compiled
        end
     end
  end.

Record CompiledMethodSchemas := mkSchemas {
  cs_request : Schema;
  cs_response : Schema;
}.

Definition CompileMethodSchemas (method : MethodSpec) : Result methodSchemaError CompiledMethodSchemas :=
  let? request := compileClosedObjectSchema "request_schema" (me_RequestSchema method) in
  let? response := compileClosedObjectSchema "response_schema" (me_ResponseSchema method) in
  Ok (mkSchemas request response).

(** A nil map is the empty object. *)
Definition ValidateRequest (s : CompiledMethodSchemas) (value : option fields) : bool := Validate (cs_request s) (default [] value).
End compile.

Arguments CompiledMethodSchemas : clear implicits.
