(* ===== verification/Presentation.v ===== *)
(** * Presentation of a plugin ([pkg/manifest/presentation.go])

    The checks of the texts a plugin shows, the catalog of its locales, and
    the choice of the locale for a request. *)

From stdpp Require Import pretty.
From S2P Require Import Prelude GoLib SessionCtx Encoding Json NetIP Paths Manifest ManifestChecks.

Open Scope go_scope.
Open Scope Z_scope.

Definition maxPresentationLocales : nat := 16.
Definition maxPresentationDescription : Z := 8000.

Section presentation.
Context (unicode_lower : Z → Z) (IsNormalNFC : string → bool) (Fold : string → string) (language_Parse : string → option string).

Definition validatePresentationText (field value : string) (maxRunes : Z) : check :=
  reject! empty value || negb (bool_decide (TrimSpace value = value))
    at field says "must be non-empty without leading or trailing whitespace" in
  reject! negb (ValidString value) || negb (IsNormalNFC value) at field says "must be valid NFC-normalized UTF-8" in
  reject! maxRunes <? RuneCount value at field says "must contain at most " +:+ pretty maxRunes +:+ " characters" in
  reject! existsb IsControl (runes (text value)) at field says "must not contain control characters" in
  Ok tt.

(** [language.Parse] with the undetermined language as an error. *)
Definition canonicalLocale (value : string) : option string :=
  if empty value || negb (bool_decide (TrimSpace value = value)) || contains (text "_") (text value) then None
  else language_Parse value.

Definition canonical (value : string) : bool := bool_decide (canonicalLocale value = Some value).

(** [validatePresentationIconPath]; the message of its error. *)
Definition relative_path (icon : string) : bool :=
  bool_decide (TrimSpace icon = icon) && negb (empty icon) && negb (HasPrefix icon "/") && negb (ContainsAny [92; 63; 35; 58; 13; 10; 9; 0]%nat icon) &&
  forallb (λ part, negb (empty part || HasPrefix part ".")) (Split 47 icon).

Definition validatePresentationIconPath (icon : string) : bool :=
  relative_path icon && bool_decide (ToLower unicode_lower (Ext icon) ∈ [".png"; ".webp"]).

Definition validatePresentationBody (field summary : string) (description highlights keywords : list string) : check :=
  let? _ := validatePresentationText (field +:+ ".summary") summary 240 in
  reject! (length description <? 1)%nat || (12 <? length description)%nat at field +:+ ".description" says "must contain between 1 and 12 paragraphs" in
  let? _ := each (λ i paragraph, validatePresentationText (at_index (field +:+ ".description") i) paragraph 1000) description in
  reject! maxPresentationDescription <? foldr Z.add 0 (map RuneCount description)
    at field +:+ ".description" says "must contain at most 8000 characters" in
  reject! (8 <? length highlights)%nat at field +:+ ".highlights" says "must contain at most 8 entries" in
  let? _ := each (λ i highlight, validatePresentationText (at_index (field +:+ ".highlights") i) highlight 240) highlights in
  reject! (length keywords <? 1)%nat || (12 <? length keywords)%nat at field +:+ ".keywords" says "must contain between 1 and 12 entries" in
  let? _ := range_loop (λ i keyword seen,
    let? _ := validatePresentationText (at_index (field +:+ ".keywords") i) keyword 64 in
    reject! bool_decide (Fold keyword ∈ seen) at at_index (field +:+ ".keywords") i says "must be unique ignoring case" in
    Ok (Fold keyword :: seen)) 0 keywords [] in
  Ok tt.

Definition validateLocalizedSurfaces (field : string) (defaults : list SurfaceSpec) (localized : list LocalizedSurfacePresentation) : check :=
  reject! negb (length localized =? length defaults)%nat at field says "must contain exactly one label for every surface" in
  let? _ := range_loop (λ i surface seen,
    reject! negb (bool_decide (ls_SurfaceID surface ∈ map su_SurfaceID defaults))
      at at_index field i +:+ ".surface_id" says "must reference a declared surface" in
    reject! bool_decide (ls_SurfaceID surface ∈ seen) at at_index field i +:+ ".surface_id" says "must be unique" in
    let? _ := validatePresentationText (at_index field i +:+ ".label") (ls_Label surface) 128 in
    Ok (ls_SurfaceID surface :: seen)) 0 localized [] in
  Ok tt.

(** The options of one localized setting. *)
Definition validateLocalizedOptions (field : string) (defaults localized : list SettingOptionSpec) : check :=
  let? _ := range_loop (λ i option seen,
    reject! negb (bool_decide (op_Value option ∈ map op_Value defaults))
      at at_index (field +:+ ".options") i +:+ ".value" says "must reference a declared setting option" in
    reject! bool_decide (op_Value option ∈ seen) at at_index (field +:+ ".options") i +:+ ".value" says "must be unique" in
    let? _ := validatePresentationText (at_index (field +:+ ".options") i +:+ ".label") (op_Label option) 128 in
    Ok (op_Value option :: seen)) 0 localized [] in
  Ok tt.

(** [wanted[key]]: a later field of the same key replaces an earlier one. *)
Definition wanted_setting (defaults : SettingsSpec) (key : string) : option SettingFieldSpec :=
  List.find (λ f, bool_decide (se_Key f = key)) (rev (sg_Fields defaults)).

Definition validateLocalizedSettings (field : string) (defaults : option SettingsSpec) (localized : list LocalizedSettingPresentation) : check :=
  match defaults with
  | None => reject! negb (length localized =? 0)%nat at field says "must be empty when settings are absent" in Ok tt
  | Some defaults =>
     reject! negb (length localized =? length (sg_Fields defaults))%nat at field says "must contain exactly one label for every setting" in
     let? _ := range_loop (λ i setting seen,
       match wanted_setting defaults (lt_Key setting) with
       | None => Err (ValidationError (at_index field i +:+ ".key") "must reference a declared setting")
       | Some defaultSetting =>
          reject! bool_decide (lt_Key setting ∈ seen) at at_index field i +:+ ".key" says "must be unique" in
          let? _ := validatePresentationText (at_index field i +:+ ".label") (lt_Label setting) 128 in
          reject! negb (length (lt_Options setting) =? length (se_Options defaultSetting))%nat
            at at_index field i +:+ ".options" says "must contain exactly one label for every setting option" in
          let? _ := validateLocalizedOptions (at_index field i) (se_Options defaultSetting) (lt_Options setting) in
          Ok (lt_Key setting :: seen)
       end) 0 localized [] in
     Ok tt
  end.

(** One localization; [seen] are the locales so far. *)
Definition validateLocalization (m : Manifest) (i : nat) (l : PresentationLocalizationSpec) (seen : list string) : Result ManifestError (list string) :=
  let field := at_index "presentation.localizations" i in
  reject! negb (canonical (lo_Locale l)) at field +:+ ".locale" says "must be a canonical BCP 47 language tag" in
  reject! bool_decide (lo_Locale l ∈ seen) at field +:+ ".locale" says "must be unique and different from default_locale" in
  let? _ := validatePresentationText (field +:+ ".plugin_name") (lo_PluginName l) 128 in
  let? _ :=
    if empty (ma_PublisherDisplayName m) then
      reject! negb (empty (lo_PublisherName l))
        at field +:+ ".publisher_name" says "is not allowed when publisher.display_name is absent" in Ok tt
    else validatePresentationText (field +:+ ".publisher_name") (lo_PublisherName l) 128 in
  let? _ := validatePresentationBody field (lo_Summary l) (lo_Description l) (lo_Highlights l) (lo_Keywords l) in
  let? _ := validateLocalizedSurfaces (field +:+ ".surfaces") (surfaces_of m) (lo_Surfaces l) in
  let? _ := validateLocalizedSettings (field +:+ ".settings") (ma_Settings m) (lo_Settings l) in
  Ok (lo_Locale l :: seen).

Definition validatePresentation (m : Manifest) : check :=
  let p := ma_Presentation m in
  reject! match pp_Icon p with Some icon => negb (validatePresentationIconPath icon) | None => false end
    at "presentation.icon.path" says "must reference a package-local relative PNG or WebP image" in
  reject! (maxPresentationLocales <? length (pp_Localizations p) + 1)%nat at "presentation.localizations" says "must contain at most 15 entries" in
  reject! negb (canonical (pp_DefaultLocale p)) at "presentation.default_locale" says "must be a canonical BCP 47 language tag" in
  let? _ := validatePresentationText "plugin.display_name" (ma_DisplayName m) 128 in
  let? _ := if empty (ma_PublisherDisplayName m) then Ok tt else validatePresentationText "publisher.display_name" (ma_PublisherDisplayName m) 128 in
  let? _ := validatePresentationBody "presentation" (pp_Summary p) (pp_Description p) (pp_Highlights p) (pp_Keywords p) in
  let? _ := each (λ i surface, validatePresentationText (at_index "surfaces" i +:+ ".label") (su_Label surface) 128) (surfaces_of m) in
  let? _ := match ma_Settings m with
    | None => Ok tt
    | Some settings => each (λ i setting, validatePresentationText (at_index "settings.fields" i +:+ ".label") (se_Label setting) 128) (sg_Fields settings)
    end in
  let? _ := range_loop (validateLocalization m) 0 (pp_Localizations p) [pp_DefaultLocale p] in
  Ok tt.

(** ** The catalog *)

Record PresentationLocale := mkLocale {
  pl_Locale : string;
  pl_PluginName : string;
  pl_PublisherName : string;
  pl_Summary : string;
  pl_Description : list string;
  pl_Highlights : list string;
  pl_Keywords : list string;
  pl_Surfaces : list LocalizedSurfacePresentation;
  pl_Settings : list LocalizedSettingPresentation;
}.

Record PresentationCatalog := mkCatalog {
  ct_DefaultLocale : string;
  ct_Locales : list PresentationLocale;
  ct_Icon : option string;
}.

Definition settings_fields (m : Manifest) : list SettingFieldSpec := match ma_Settings m with Some s => sg_Fields s | None => [] end.

Definition defaultLocale (m : Manifest) : PresentationLocale :=
  let p := ma_Presentation m in
  mkLocale (pp_DefaultLocale p) (ma_DisplayName m) (ma_PublisherDisplayName m) (pp_Summary p) (pp_Description p) (pp_Highlights p) (pp_Keywords p)
    (map (λ s, mkLocalizedSurface (su_SurfaceID s) (su_Label s)) (surfaces_of m))
    (map (λ f, mkLocalizedSetting (se_Key f) (se_Label f) (se_Options f)) (settings_fields m)).

(** A map built by a loop over a list, read at a key: the last entry wins, and
    the zero value is read when there is none. *)
Definition label_of {A} (key : A → string) (label : A → string) (l : list A) (k : string) : string :=
  match List.find (λ x, bool_decide (key x = k)) (rev l) with Some x => label x | None => "" end.

Definition options_of (settings : list LocalizedSettingPresentation) (k : string) : list SettingOptionSpec :=
  match List.find (λ x, bool_decide (lt_Key x = k)) (rev settings) with Some x => lt_Options x | None => [] end.

Definition localizedLocale (m : Manifest) (l : PresentationLocalizationSpec) : PresentationLocale :=
  mkLocale (lo_Locale l) (lo_PluginName l) (lo_PublisherName l) (lo_Summary l) (lo_Description l) (lo_Highlights l) (lo_Keywords l)
    (map (λ s, mkLocalizedSurface (su_SurfaceID s) (label_of ls_SurfaceID ls_Label (lo_Surfaces l) (su_SurfaceID s))) (surfaces_of m))
    (map (λ f, mkLocalizedSetting (se_Key f) (label_of lt_Key lt_Label (lo_Settings l) (se_Key f))
       (map (λ o, mkOption (op_Value o) (label_of op_Value op_Label (options_of (lo_Settings l) (se_Key f)) (op_Value o))) (se_Options f)))
       (settings_fields m)).

(** [sort.Slice] by the locale; validated locales are different. *)
Definition locale_le (a b : PresentationLocalizationSpec) : Prop := String.le (lo_Locale a) (lo_Locale b).

Definition PresentationCatalog_of (m : Manifest) : PresentationCatalog :=
  mkCatalog (pp_DefaultLocale (ma_Presentation m))
    (defaultLocale m :: map (localizedLocale m) (merge_sort locale_le (pp_Localizations (ma_Presentation m)))) (pp_Icon (ma_Presentation m)).

(** ** Resolving *)

(** The parts of a tag without the last one, and without a single character
    that would then be last: fuel is the number of parts. *)
Fixpoint candidates (fuel : nat) (parts : list string) : list string :=
  match fuel, parts with
  | S fuel, _ :: _ =>
     let shorter := removelast parts in
     let shorter := match last shorter with Some part => if (len part =? 1) then removelast shorter else shorter | None => shorter end in
     of_text (join [byte 45] (map text parts)) :: candidates fuel shorter
  | _, _ => []
  end.

Definition localeLookupCandidates (locale : string) : list string := let parts := Split 45 locale in candidates (length parts) parts.

(** [byLocale[name]] *)
Definition by_locale (c : PresentationCatalog) (name : string) : option PresentationLocale :=
  List.find (λ l, bool_decide (pl_Locale l = name)) (rev (ct_Locales c)).

Definition zeroLocale : PresentationLocale := mkLocale "" "" "" "" [] [] [] [] [].

Fixpoint first_locale (c : PresentationCatalog) (names : list string) : option PresentationLocale :=
  match names with
  | [] => None
  | name :: names => match by_locale c name with Some l => Some l | None => first_locale c names end
  end.

(** The resolved presentation: the requested locale in canonical form and the
    locale with its texts; the slices are copies. *)
Record ResolvedPresentation := mkResolved {
  rs_RequestedLocale : string;
  rs_DefaultLocale : string;
  rs_Resolved : PresentationLocale;
  rs_Icon : option string;
}.

Definition ResolvePresentation (c : PresentationCatalog) (requestedLocale : string) : ResolvedPresentation :=
  let fallback := default zeroLocale (by_locale c (ct_DefaultLocale c)) in
  match canonicalLocale requestedLocale with
  | None => mkResolved "" (ct_DefaultLocale c) fallback (ct_Icon c)
  | Some requested => mkResolved requested (ct_DefaultLocale c) (default fallback (first_locale c (localeLookupCandidates requested))) (ct_Icon c)
  end.
End presentation.
