(* ===== verification/ManifestValidate.v ===== *)
(** * Validation of a manifest ([Validate] of [pkg/manifest/manifest.go])

    The parts of [validate] in its order; each part is one loop or one block of
    the function, with what it hands to the parts after it. *)

From stdpp Require Import pretty.
From S2P Require Import Prelude GoLib SessionCtx Encoding Json NetIP Paths Manifest ManifestChecks Presentation.

Open Scope go_scope.
Open Scope Z_scope.

(** ** Parts that need nothing from outside *)

Definition validateProcess (m : Manifest) : check :=
  match ma_Process m with
  | None => Ok tt
  | Some limits =>
     reject! (pl_OutputBufferBytes limits <? 0) || (Z.shiftl 16 20 <? pl_OutputBufferBytes limits)
       at "process.resource_limits.output_buffer_bytes" says "must be between 0 and 16777216" in
     reject! (pl_MaxRuntimeMS limits <? 0) || (24 * 60 * 60 * 1000 <? pl_MaxRuntimeMS limits)
       at "process.resource_limits.max_runtime_ms" says "is out of range" in
     reject! negb (featureDeclared (ap_RequiredFeatures (ma_API m)) FeatureProcessLocal)
       at "api.required_features" says "must require process.local.v1 when process is declared" in
     reject! negb (permissionDeclared (ma_Permissions m) PermissionProcessLocal)
       at "permissions" says "must include process.local when process is declared" in
     Ok tt
  end.

Definition validateBackground (m : Manifest) : check :=
  match ma_Background m with
  | None => Ok tt
  | Some b =>
     reject! negb (bool_decide (bg_Strategy b ∈ [BackgroundRuntimeStart; BackgroundOnDemand; BackgroundInterval]))
       at "background.strategy" says "must be runtime_start, on_demand or interval" in
     reject! blank (bg_WorkerID b) at "background.worker_id" says "is required" in
     reject! negb (bool_decide (bg_WorkerID b ∈ map wo_WorkerID (ma_Workers m))) at "background.worker_id" says "must reference a declared worker" in
     Ok tt
  end.

(** The worker ids, last first. *)
Definition validateWorkers (workers : list WorkerSpec) : Result ManifestError (list string) :=
  range_loop (λ i worker seen,
    let f := at_index "workers" i in
    reject! blank (wo_WorkerID worker) at f +:+ ".worker_id" says "is required" in
    reject! bool_decide (wo_WorkerID worker ∈ seen) at f +:+ ".worker_id" says "must be unique" in
    reject! blank (wo_Artifact worker) at f +:+ ".artifact" says "is required" in
    reject! negb (bool_decide (wo_Mode worker = WorkerModeJob)) at f +:+ ".mode" says "must be job" in
    reject! negb (scope_ok (wo_Scope worker)) at f +:+ ".scope" says "must be user or environment" in
    reject! wo_MemoryLimitBytes worker <=? 0 at f +:+ ".memory_limit_bytes" says "must be positive" in
    reject! MaxWorkerMemoryLimitBytes <? wo_MemoryLimitBytes worker at f +:+ ".memory_limit_bytes" says "must not exceed 268435456" in
    reject! wo_IdleTimeoutMS worker <? 0 at f +:+ ".idle_timeout_ms" says "must not be negative" in
    Ok (wo_WorkerID worker :: seen)) 0 workers [].

Notation methods_map := (gmap string MethodSpec).

Definition validatePreflight (methods : methods_map) (i : nat) (method : MethodSpec) : check :=
  let f := at_index "methods" i +:+ ".confirmation.preflight_method" in
  match me_Confirmation method with
  | None => Ok tt
  | Some c =>
     match co_PreflightMethod c with
     | None => Ok tt
     | Some name =>
        if bool_decide (mr_Kind (me_Route method) = MethodRouteCapability) then Ok tt
        else match methods !! TrimSpace name with
        | None => Err (ValidationError f "must reference a declared method")
        | Some preflight =>
           reject! bool_decide (me_Method preflight = me_Method method) at f says "must not reference the same method" in
           reject! negb (me_PreflightOnly preflight) at f says "must reference a preflight_only method" in
           reject! negb (bool_decide (me_Effect preflight = MethodEffectRead)) at f says "must reference a read-only method" in
           reject! negb (bool_decide (me_Execution preflight = MethodExecutionSync)) at f says "must reference a sync method" in
           Ok tt
        end
     end
  end.

Definition validateSurfaceRoute (m : Manifest) (i : nat) (method : MethodSpec) : check :=
  let f := at_index "methods" i in
  if negb (bool_decide (mr_Kind (me_Route method) = MethodRouteSurface)) then Ok tt
  else
    reject! negb (bool_decide (mr_SurfaceID (me_Route method) ∈ map su_SurfaceID (surfaces_of m)))
      at f +:+ ".route.surface_id" says "must reference a declared surface" in
    reject! bool_decide (me_Execution method = MethodExecutionSubscription)
      at f +:+ ".execution" says "surface methods support only sync or operation" in
    each (λ _ surface,
      reject! bool_decide (su_SurfaceID surface = mr_SurfaceID (me_Route method)) && negb (bool_decide (su_Kind surface = SurfaceView))
        at f +:+ ".route.surface_id" says "must reference a view surface" in Ok tt) (surfaces_of m).

Definition validateIntents (m : Manifest) (methods : methods_map) : check :=
  each (λ i intent,
    reject! blank (in_IntentID intent) at at_index "intents" i +:+ ".intent_id" says "is required" in
    reject! match methods !! in_Method intent with Some _ => false | None => true end
      at at_index "intents" i +:+ ".method" says "must reference a declared method" in
    Ok tt) (ma_Intents m).

Definition validateStorage (m : Manifest) : check :=
  reject! (MaxStorageStores <? length (stores_of m))%nat at "storage.stores" says "must contain at most 16 stores" in
  let? _ := range_loop (λ i store seen,
    let f := at_index "storage.stores" i in
    reject! blank (so_StoreID store) at f +:+ ".store_id" says "is required" in
    reject! bool_decide (so_StoreID store ∈ seen) at f +:+ ".store_id" says "must be unique" in
    reject! negb (validStoreKind (so_Kind store)) at f +:+ ".kind" says "must be files, kv, or sqlite" in
    reject! negb (scope_ok (so_Scope store)) at f +:+ ".scope" says "must be user or environment" in
    reject! so_QuotaBytes store <=? 0 at f +:+ ".quota_bytes" says "must be positive" in
    reject! MaxStoreQuotaBytes <? so_QuotaBytes store at f +:+ ".quota_bytes" says "must not exceed 1073741824" in
    reject! match so_QuotaFiles store with Some n => n <=? 0 | None => false end at f +:+ ".quota_files" says "must be positive" in
    reject! match so_QuotaFiles store with Some n => MaxStoreQuotaFiles <? n | None => false end
      at f +:+ ".quota_files" says "must not exceed 100000" in
    reject! so_SchemaVersion store <=? 0 at f +:+ ".schema_version" says "must be positive" in
    Ok (so_StoreID store :: seen)) 0 (stores_of m) [] in
  Ok tt.

Definition validateConnectors (m : Manifest) : check :=
  let? _ := range_loop (λ i connector seen,
    let f := at_index "network_access.connectors" i in
    reject! negb (connectorIDPattern (nc_ConnectorID connector)) at f +:+ ".connector_id"
      says "must contain 1-128 ASCII letters, digits, dots, underscores or hyphens, starting with a letter or digit" in
    reject! bool_decide (nc_ConnectorID connector ∈ seen) at f +:+ ".connector_id" says "must be unique" in
    reject! negb (validNetworkTransport (nc_Transport connector)) at f +:+ ".transport" says "must be http, websocket, tcp, or udp" in
    reject! negb (scope_ok (nc_Scope connector)) at f +:+ ".scope" says "must be user or environment" in
    reject! nc_Configurable connector && negb (length (nc_Destinations connector) =? 0)%nat
      at f +:+ ".destinations" says "must be empty for a configurable connector" in
    reject! negb (nc_Configurable connector) && (length (nc_Destinations connector) =? 0)%nat at f +:+ ".destinations" says "must not be empty" in
    let? _ := each (λ j destination,
      reject! blank destination at at_index (f +:+ ".destinations") j says "must not be empty" in Ok tt) (nc_Destinations connector) in
    Ok (nc_ConnectorID connector :: seen)) 0 (connectors_of m) [] in
  Ok tt.

(** ** Secret references *)

(** [visit]: the trimmed references of the fields with the name, at any depth. *)
Fixpoint visit_refs (value : JSON) : list string :=
  match value with
  | JObject l =>
     concat (map (λ kv, match kv with (key, nested) =>
       (if EqualFold key "secret_ref" then match nested with JText s => if blank s then [] else [TrimSpace s] | _ => [] end else []) ++
       visit_refs nested end) l)
  | JArray l => concat (map visit_refs l)
  | _ => []
  end.

Definition declaredSecretRefs (values : fields) : list string := sort_strings (visit_refs (JObject values)).

(** The declarations in the order they are registered: reference, scope, field. *)
Definition secret_declarations (m : Manifest) : list (string * string * string) :=
  concat (imap (λ i field, if bool_decide (se_Type field = "secret")
      then [(TrimSpace (se_SecretRef field), se_Scope field, at_index "settings.fields" i +:+ ".secret_ref")] else [])
    (settings_fields m)) ++
  concat (imap (λ i c,
    map (λ ref, (ref, nc_Scope c, at_index "network_access.connectors" i +:+ ".auth")) (declaredSecretRefs (nc_Auth c)) ++
    map (λ ref, (ref, nc_Scope c, at_index "network_access.connectors" i +:+ ".tls")) (declaredSecretRefs (nc_TLS c))) (connectors_of m)).

Section refs.
Context (unicode_IsPrint : Z → bool).

(** [register]; the references that are declared with their scopes and fields. *)
Definition register (declaration : string * string * string) (declared : gmap string (string * string)) :
    Result ManifestError (gmap string (string * string)) :=
  let '(secretRef, scope, field) := declaration in
  if empty secretRef then Ok declared
  else
    let other := match declared !! secretRef with Some existing => if bool_decide (existing.1 = scope) then None else Some existing | None => None end in
    match other with
    | Some existing => Err (ValidationError field ("secret_ref " +:+ Quote unicode_IsPrint secretRef +:+ " is already declared with " +:+ existing.1 +:+
        " scope at " +:+ existing.2))
    | None => Ok (<[secretRef := (scope, field)]> declared)
    end.

Definition validateSecretRefScopes (m : Manifest) : check :=
  let? _ := range_loop (λ _ d declared, register d declared) 0 (secret_declarations m) ∅ in Ok tt.
End refs.

(** ** Broker access *)

(** [stores] gives the kind of a store; operations are checked against it. *)
Definition validateStorageBrokerAccess (field : string) (access : list StorageBrokerAccessSpec) (stores : gmap string string) (readOnly : bool) : check :=
  let? _ := range_loop (λ i item seen,
    let f := at_index (field +:+ ".storage") i in
    match stores !! sa_StoreID item with
    | None => Err (ValidationError (f +:+ ".store_id") "must reference a declared store")
    | Some kind =>
       reject! blank (sa_StoreID item) at f +:+ ".store_id" says "must reference a declared store" in
       reject! bool_decide (sa_StoreID item ∈ seen) at f +:+ ".store_id" says "must be unique" in
       reject! (length (sa_Operations item) =? 0)%nat at f +:+ ".operations" says "must not be empty" in
       let? _ := range_loop (λ j operation seen,
         let o := at_index (f +:+ ".operations") j in
         reject! negb (validStorageOperation kind operation) at o says "is not valid for the declared store kind" in
         reject! readOnly && negb (readOnlyStorageOperation operation) at o says "must be read-only for a read effect method" in
         reject! bool_decide (operation ∈ seen) at o says "must be unique" in
         Ok (operation :: seen)) 0 (sa_Operations item) [] in
       Ok (sa_StoreID item :: seen)
    end) 0 access [] in
  Ok tt.

Definition validateNetworkItem (f : string) (item : NetworkBrokerAccessSpec) (readOnly : bool) : check :=
  reject! (length (na_Operations item) =? 0)%nat at f +:+ ".operations" says "must not be empty" in
  let? _ := range_loop (λ j operation seen,
    let o := at_index (f +:+ ".operations") j in
    reject! negb (validNetworkOperation (na_Transport item) operation) at o says "is not valid for the declared transport" in
    reject! readOnly && negb (bool_decide (na_Transport item = "http")) at o says "requires a write, execute, delete, or admin effect" in
    reject! bool_decide (operation ∈ seen) at o says "must be unique" in
    Ok (operation :: seen)) 0 (na_Operations item) [] in
  reject! negb (bool_decide (na_Transport item = "http")) && negb (length (na_HTTPMethods item) =? 0)%nat
    at f +:+ ".http_methods" says "is only allowed for http connectors" in
  reject! bool_decide (na_Transport item = "http") && (length (na_HTTPMethods item) =? 0)%nat
    at f +:+ ".http_methods" says "must not be empty for http connectors" in
  let? _ := range_loop (λ j httpMethod seen,
    let o := at_index (f +:+ ".http_methods") j in
    reject! negb (validHTTPMethod httpMethod) at o says "must be an uppercase supported HTTP method" in
    reject! readOnly && negb (readOnlyHTTPMethod httpMethod) at o says "must be GET, HEAD, or OPTIONS for a read effect method" in
    reject! bool_decide (httpMethod ∈ seen) at o says "must be unique" in
    Ok (httpMethod :: seen)) 0 (na_HTTPMethods item) [] in
  Ok tt.

Definition validateNetworkBrokerAccess (field : string) (access : list NetworkBrokerAccessSpec) (connectors : gmap string string) (readOnly : bool) : check :=
  let? _ := range_loop (λ i item seen,
    let f := at_index (field +:+ ".network") i in
    reject! negb (blank (na_Scope item)) at f +:+ ".scope" says "is host-derived and must not be declared" in
    match connectors !! na_ConnectorID item with
    | None => Err (ValidationError (f +:+ ".connector_id") "must reference a declared connector")
    | Some transport =>
       reject! blank (na_ConnectorID item) at f +:+ ".connector_id" says "must reference a declared connector" in
       reject! bool_decide (na_ConnectorID item ∈ seen) at f +:+ ".connector_id" says "must be unique" in
       reject! negb (bool_decide (na_Transport item = transport)) at f +:+ ".transport" says "must match the declared connector transport" in
       let? _ := validateNetworkItem f item readOnly in
       Ok (na_ConnectorID item :: seen)
    end) 0 access [] in
  Ok tt.

Definition validateMethodBrokerAccess (field : string) (method : MethodSpec) (stores connectors : gmap string string) : check :=
  match me_BrokerAccess method with
  | None => Ok tt
  | Some access =>
     reject! negb (bool_decide (mr_Kind (me_Route method) = MethodRouteWorker)) at field says "is only allowed for worker routes" in
     let? _ := range_loop (λ i operations seen,
       let f := at_index (field +:+ ".process") i in
       reject! (length operations =? 0)%nat at f +:+ ".operations" says "must not be empty" in
       range_loop (λ j operation seen,
         reject! negb (validProcessOperation operation) at at_index (f +:+ ".operations") j says "is not a supported process operation" in
         reject! bool_decide (operation ∈ seen) at at_index (f +:+ ".operations") j says "must be unique" in
         Ok (operation :: seen)) 0 operations seen) 0 (ba_Process access) [] in
     let readOnly := bool_decide (me_Effect method = MethodEffectRead) in
     let? _ := validateStorageBrokerAccess field (ba_Storage access) stores readOnly in
     validateNetworkBrokerAccess field (ba_Network access) connectors readOnly
  end.

Definition storeKinds (m : Manifest) : gmap string string := foldl (λ kinds s, <[so_StoreID s := so_Kind s]> kinds) ∅ (stores_of m).
Definition connectorTransports (m : Manifest) : gmap string string := foldl (λ ts c, <[nc_ConnectorID c := nc_Transport c]> ts) ∅ (connectors_of m).

Definition validateSurfaceAccess (m : Manifest) (i : nat) (surface : SurfaceSpec) : check :=
  let f := at_index "surfaces" i +:+ ".web" in
  let web := su_Web surface in
  let resources := featureDeclared (ap_RequiredFeatures (ma_API m)) FeatureSurfaceResources in
  reject! (negb (length (we_Storage web) =? 0)%nat || negb (length (we_Settings web) =? 0)%nat) && negb resources
    at f says "requires surface.resources.v1" in
  let? _ := validateStorageBrokerAccess f (we_Storage web) (storeKinds m) false in
  let? _ := range_loop (λ _ operation seen,
    reject! match ma_Settings m with None => true | Some _ => false end || negb (bool_decide (operation ∈ ["get"; "patch"])) ||
      bool_decide (operation ∈ seen) at f +:+ ".settings" says "requires unique get/patch operations and declared settings" in
    Ok (operation :: seen)) 0 (we_Settings web) [] in
  reject! negb (length (we_Network web) =? 0)%nat && negb (permissionDeclared (ma_Permissions m) PermissionNetworkClient)
    at f +:+ ".network" says "requires network.client" in
  let? _ := each (λ _ access,
    reject! negb (bool_decide (na_Transport access ∈ ["http"; "websocket"]))
      at f +:+ ".network" says "Web applications support HTTP and WebSocket connections" in
    reject! bool_decide (na_Transport access = "websocket") && negb resources
      at f +:+ ".network" says "WebSocket surfaces require surface.resources.v1" in
    Ok tt) (we_Network web) in
  validateNetworkBrokerAccess f (we_Network web) (connectorTransports m) false.

Definition validateMethodAccess (m : Manifest) (i : nat) (method : MethodSpec) : check :=
  let f := at_index "methods" i +:+ ".broker_access" in
  let? _ := validateMethodBrokerAccess f method (storeKinds m) (connectorTransports m) in
  reject! match me_BrokerAccess method with Some access => negb (length (ba_Process access) =? 0)%nat | None => false end &&
    match ma_Process m with None => true | Some _ => false end at f +:+ ".process" says "requires a process declaration" in
  Ok tt.

(** ** The whole of [validate] *)

Section validate.
Context (unicode_lower : Z → Z) (IsNormalNFC : string → bool) (Fold : string → string) (language_Parse : string → option string).
Context (semver_IsValid : string → bool).
Context (unicode_IsPrint : Z → bool) {Schema : Type} (marshal : fields → Result string bytes) (CompileSchema : string → bytes → Result string Schema)
  (ValidateSchema : Schema → fields → bool).

(** [ValidatePin]; its two ids are visited in an order that is not fixed. *)
Definition idPattern (s : string) : bool :=
  match text s with
  | [] => false
  | c :: rest => isASCIIAlphaNumeric c && forallb (λ c, isASCIIAlphaNumeric c || is_byte 46 c || is_byte 95 c || is_byte 45 c) rest
  end.

Definition sha256HexPattern (s : string) : bool :=
  (length (text s) =? 64)%nat && forallb (λ c, byte_in 48 57 c || byte_in 97 102 c) (text s).

(** An error that wraps [ErrIdentityMismatch]. *)
Definition identity_mismatch (detail : string) : string := "host capability contract identity mismatch: " +:+ detail.

Definition ValidatePin (pin : Pin) : option string :=
  if negb (idPattern (pi_PublisherID pin) && bool_decide (TrimSpace (pi_PublisherID pin) = pi_PublisherID pin)) then Some (identity_mismatch "publisher_id is invalid")
  else if negb (idPattern (pi_ContractID pin) && bool_decide (TrimSpace (pi_ContractID pin) = pi_ContractID pin)) then Some (identity_mismatch "contract_id is invalid")
  else if negb (parses semver_IsValid (pi_ContractVersion pin)) then Some (identity_mismatch "contract_version is invalid")
  else if negb (sha256HexPattern (pi_ArtifactSHA256 pin)) then Some (identity_mismatch "artifact_sha256 is invalid")
  else None.

Definition validateBindings (m : Manifest) : Result ManifestError (list string) :=
  range_loop (λ i binding seen,
    let f := at_index "capability_bindings" i in
    reject! empty (cb_BindingID binding) at f +:+ ".binding_id" says "is required" in
    reject! bool_decide (cb_BindingID binding ∈ seen) at f +:+ ".binding_id" says "must be unique" in
    match ValidatePin (cb_Contract binding) with
    | Some e => Err (ValidationError (f +:+ ".contract") e)
    | None => Ok (cb_BindingID binding :: seen)
    end) 0 (ma_CapabilityBindings m) [].

(** Every error of [CompileMethodSchemas] is a [methodSchemaError]. *)
Definition compileMethod (method : MethodSpec) : Result methodSchemaError (CompiledMethodSchemas Schema) :=
  CompileMethodSchemas unicode_IsPrint marshal CompileSchema method.

(** The body of the loop over the methods. *)
Definition validateMethod (bindings workers : list string) (i : nat) (method : MethodSpec) (methods : methods_map) : Result ManifestError methods_map :=
  let f := at_index "methods" i in
  reject! empty (me_Method method) at f +:+ ".method" says "is required" in
  reject! match methods !! me_Method method with Some _ => true | None => false end at f +:+ ".method" says "must be unique" in
  let? _ := validateMethodRoute (f +:+ ".route") (me_Route method) bindings workers in
  if bool_decide (mr_Kind (me_Route method) = MethodRouteCapability) then
    reject! negb (bool_decide (me_Method method = mr_TargetMethod (me_Route method)))
      at f +:+ ".method" says "must match route.target_method for capability routes" in
    reject! capabilityMethodDeclaresUnsignedPolicy method
      at f says "capability routes must derive policy and schemas from the signed capability contract" in
    Ok (<[me_Method method := method]> methods)
  else
    reject! negb (validEffect (me_Effect method)) at f +:+ ".effect" says "is invalid" in
    reject! negb (validExecutionMode (me_Execution method)) at f +:+ ".execution" says "is invalid" in
    let? _ := validateMethodConfirmation f method in
    let? _ := validateMethodCancelPolicy f method in
    match compileMethod method with
    | Err e => Err (ValidationError (f +:+ "." +:+ ms_path e) (ms_message e))
    | Ok _ => Ok (<[me_Method method := method]> methods)
    end.

Definition validateMethods (m : Manifest) (bindings workers : list string) : Result ManifestError methods_map :=
  range_loop (validateMethod bindings workers) 0 (ma_Methods m) ∅.

Definition validateSurfaceWeb (surface : SurfaceSpec) : option string :=
  let root := we_Root (su_Web surface) in
  let special := [92; 63; 35; 58; 37; 0; 13; 10; 9]%nat in
  if empty root || (512 <? RuneCount root) || negb (bool_decide (root = Clean root)) || HasPrefix root "/" || ContainsAny special root
  then Some "root must be a canonical package directory"
  else if existsb (λ part, empty part || HasPrefix part ".") (Split 47 root) then Some "root contains a forbidden path segment"
  else if negb (bool_decide (su_Entry surface = Clean (su_Entry surface))) || negb (HasPrefix (su_Entry surface) (root +:+ "/")) ||
          ContainsAny special (su_Entry surface)
  then Some "entry must be a canonical file inside the Web root"
  else if negb (bool_decide (ToLower unicode_lower (Ext (su_Entry surface)) ∈ [".html"; ".htm"])) then Some "entry must be HTML"
  else None.

Definition validateSurfaceIcon (icon : string) : option string :=
  if empty icon then None
  else if EqualFold (Ext icon) ".svg" then Some "SVG icons are not allowed"
  else if negb (relative_path icon) then Some "must reference a package-local relative raster image asset"
  else if bool_decide (ToLower unicode_lower (Ext icon) ∈ [".png"; ".jpg"; ".jpeg"; ".gif"; ".webp"; ".ico"]) then None
  else Some "must reference a package-local relative raster image asset".

Definition validateSurfaces (retainedPreWeb : bool) (m : Manifest) : check :=
  let? _ := range_loop (λ i surface seen,
    let f := at_index "surfaces" i in
    reject! blank (su_SurfaceID surface) at f +:+ ".surface_id" says "is required" in
    reject! bool_decide (su_SurfaceID surface ∈ seen) at f +:+ ".surface_id" says "must be globally unique" in
    reject! negb (validSurfaceKind (su_Kind surface)) at f +:+ ".kind" says "must be view, command, or background" in
    reject! negb (empty (su_Intent surface)) && negb (validSurfaceIntent (su_Intent surface))
      at f +:+ ".intent" says "must be primary, secondary, or utility" in
    reject! blank (su_Label surface) at f +:+ ".label" says "is required" in
    reject! blank (su_Entry surface) at f +:+ ".entry" says "is required" in
    let? _ := if retainedPreWeb then Ok tt
      else match validateSurfaceWeb surface with Some e => Err (ValidationError (f +:+ ".web") e) | None => Ok tt end in
    let? _ := match validateSurfaceIcon (su_Icon surface) with Some e => Err (ValidationError (f +:+ ".icon") e) | None => Ok tt end in
    reject! match su_DefaultSize surface with Some (width, _) => width <=? 0 | None => false end at f +:+ ".default_size.width" says "must be positive" in
    reject! match su_DefaultSize surface with Some (_, height) => height <=? 0 | None => false end at f +:+ ".default_size.height" says "must be positive" in
    Ok (su_SurfaceID surface :: seen)) 0 (surfaces_of m) [] in
  Ok tt.

Definition validateSettings (m : Manifest) : check :=
  match ma_Settings m with
  | None => Ok tt
  | Some settings =>
     reject! sg_SchemaVersion settings <=? 0 at "settings.schema_version" says "must be positive" in
     let? _ := range_loop (λ i field seen,
       let f := at_index "settings.fields" i in
       reject! blank (se_Key field) at f +:+ ".key" says "is required" in
       reject! bool_decide (se_Key field ∈ seen) at f +:+ ".key" says "must be unique" in
       reject! negb (scope_ok (se_Scope field)) at f +:+ ".scope" says "must be user or environment" in
       reject! negb (validSettingType (se_Type field)) at f +:+ ".type"
         says "must be string, boolean, number, integer, enum, select, or secret" in
       reject! blank (se_Label field) at f +:+ ".label" says "is required" in
       reject! bool_decide (se_Type field ∈ ["enum"; "select"]) && (length (se_Options field) =? 0)%nat
         at f +:+ ".options" says "is required for option settings" in
       let? _ := range_loop (λ j option seen,
         let o := at_index (f +:+ ".options") j in
         let? _ := validatePresentationText IsNormalNFC (o +:+ ".value") (op_Value option) 128 in
         let? _ := validatePresentationText IsNormalNFC (o +:+ ".label") (op_Label option) 128 in
         reject! bool_decide (op_Value option ∈ seen) at o +:+ ".value" says "must be unique" in
         Ok (op_Value option :: seen)) 0 (se_Options field) [] in
       reject! bool_decide (se_Type field = "secret") && blank (se_SecretRef field) at f +:+ ".secret_ref" says "is required for secret settings" in
       reject! negb (bool_decide (se_Type field = "secret")) && negb (blank (se_SecretRef field))
         at f +:+ ".secret_ref" says "is only allowed for secret settings" in
       Ok (se_Key field :: seen)) 0 (sg_Fields settings) [] in
     Ok tt
  end.

(** Confirmation that a call without a user cannot give. *)
Definition interactive (method : MethodSpec) : bool :=
  me_PreflightOnly method || me_Dangerous method ||
  match me_Confirmation method with Some c => negb (bool_decide (co_Mode c = ConfirmationNone)) | None => false end.

Definition backgroundInterval (m : Manifest) (entry : BackgroundSpec) : check :=
  if bool_decide (bg_Strategy entry = BackgroundInterval) then
    reject! negb (featureDeclared (ap_RequiredFeatures (ma_API m)) FeatureBackgroundInterval) || empty (bg_Method entry)
      at "background" says "interval requires background.interval.v1 and an explicit method" in
    reject! (bg_IntervalMS entry <? 1000) || (86400000 <? bg_IntervalMS entry) at "background.interval_ms" says "must be between 1000 and 86400000" in
    reject! (bg_MaxRuntimeMS entry <? 1) || (300000 <? bg_MaxRuntimeMS entry) || (bg_IntervalMS entry <? bg_MaxRuntimeMS entry)
      at "background.max_runtime_ms" says "must be between 1 and 300000 and not exceed interval_ms" in
    Ok tt
  else
    reject! negb (bg_IntervalMS entry =? 0) || negb (bg_MaxRuntimeMS entry =? 0)
      at "background" says "interval limits require the interval strategy" in
    Ok tt.

Definition validateBackgroundMethod (m : Manifest) (methods : methods_map) : check :=
  match ma_Background m with
  | None => Ok tt
  | Some entry =>
     let? _ := backgroundInterval m entry in
     if empty (bg_Method entry) then
       reject! match bg_Params entry with Some _ => true | None => false end at "background.params" says "requires an explicit method" in Ok tt
     else
       reject! negb (featureDeclared (ap_RequiredFeatures (ma_API m)) FeatureBackgroundMethod)
         at "background.method" says "requires background.method.v1" in
       match methods !! bg_Method entry with
       | None => Err (ValidationError "background.method" "must reference a method on the declared background worker")
       | Some method =>
          reject! negb (bool_decide (mr_Kind (me_Route method) = MethodRouteWorker)) ||
            negb (bool_decide (mr_WorkerID (me_Route method) = bg_WorkerID entry))
            at "background.method" says "must reference a method on the declared background worker" in
          reject! bool_decide (bg_Strategy entry = BackgroundInterval) && negb (bool_decide (me_Execution method = MethodExecutionSync))
            at "background.method" says "interval requires synchronous execution" in
          let? _ := each (λ _ worker,
            reject! bool_decide (wo_WorkerID worker = bg_WorkerID entry) && bool_decide (bg_Strategy entry = BackgroundInterval) &&
              negb (bool_decide (wo_Mode worker = WorkerModeJob)) at "background.worker_id" says "interval requires a job worker" in
            reject! bool_decide (wo_WorkerID worker = bg_WorkerID entry) && negb (bool_decide (wo_Scope worker = "environment"))
              at "background.worker_id" says "must use environment scope" in
            Ok tt) (ma_Workers m) in
          reject! interactive method at "background.method" says "must not require interactive confirmation or be preflight-only" in
          match compileMethod method with
          | Err e => Err (SchemaFailure (methodSchemaError_Error e))
          | Ok schemas =>
             reject! negb (ValidateRequest ValidateSchema schemas (bg_Params entry))
               at "background.params" says "must satisfy the declared method request schema" in
             Ok tt
          end
       end
  end.

Definition upgrade_request (m : Manifest) (scope version : string) : fields :=
  [("from_version", JText version); ("to_version", JText (ma_Version m)); ("scope", JText scope)].

(** [hex.DecodeString] gives 32 bytes and the digits are in lower case. *)
Definition shape_ok (s : string) : bool :=
  (length (text s) =? 64)%nat && forallb (λ c, byte_in 48 57 c || byte_in 97 102 c || byte_in 65 70 c) (text s) &&
  bool_decide (ToLower unicode_lower s = s).

(** The method of the upgrade and its worker. *)
Definition upgradeMethod (m : Manifest) (method : MethodSpec) : check :=
  let f := "data_upgrade.method" in
  reject! negb (bool_decide (mr_Kind (me_Route method) = MethodRouteWorker)) || negb (bool_decide (me_Effect method = MethodEffectWrite)) ||
    negb (bool_decide (me_Execution method = MethodExecutionSync)) at f says "must reference a synchronous write Worker method" in
  reject! interactive method at f says "must not require a separate interactive confirmation" in
  reject! match me_BrokerAccess method with
      | Some access => negb (length (ba_Storage access) + length (ba_Network access) + length (ba_Process access) =? 0)%nat
      | None => false
      end || negb (length (WorkerPermissionIDs m method) =? 0)%nat
    at f says "uses only the isolated upgrade data API without ordinary broker access or permissions" in
  each (λ _ worker,
    reject! bool_decide (wo_WorkerID worker = mr_WorkerID (me_Route method)) &&
      (negb (bool_decide (wo_Mode worker = WorkerModeJob)) || negb (bool_decide (wo_Scope worker = "environment")))
      at f says "requires an environment-scoped job Worker" in Ok tt) (ma_Workers m).

Definition upgradeUnused (m : Manifest) (name : string) : check :=
  let f := "data_upgrade.method" in
  reject! match ma_Background m with Some b => bool_decide (bg_Method b = name) | None => false end at f says "must not be a background entry" in
  reject! existsb (λ i, bool_decide (in_Method i = name)) (ma_Intents m) at f says "must not be a user intent" in
  reject! existsb (λ s, bool_decide (name ∈ default [] (su_RequiredMethods s))) (surfaces_of m)
    at f says "must not be a surface startup requirement" in
  Ok tt.

Definition upgradeRequests (m : Manifest) (entry : DataUpgradeSpec) (schemas : CompiledMethodSchemas Schema) : check :=
  reject! negb (forallb (λ scope, forallb (λ p, ValidateRequest ValidateSchema schemas (Some (upgrade_request m scope (dp_Version p)))) (du_From entry))
      ["environment"; "user"]) at "data_upgrade.method" says "request schema must accept from_version, to_version and scope" in
  Ok tt.

Definition validateDataUpgrade (m : Manifest) (methods : methods_map) : check :=
  match ma_DataUpgrade m with
  | None => Ok tt
  | Some entry =>
     reject! negb (featureDeclared (ap_RequiredFeatures (ma_API m)) FeatureDataUpgrade) at "data_upgrade.method" says "requires data.upgrade.v1" in
     reject! (length (du_From entry) =? 0)%nat || (32 <? length (du_From entry))%nat
       at "data_upgrade.from" says "must contain 1-32 exact predecessors" in
     let? _ := range_loop (λ i previous seen,
       let f := at_index "data_upgrade.from" i in
       reject! negb (parses semver_IsValid (dp_Version previous)) || bool_decide (dp_Version previous = ma_Version m) ||
         bool_decide (dp_Version previous ∈ seen) at f +:+ ".version" says "must be a unique, different semantic version" in
       reject! negb (shape_ok (dp_ShapeSHA256 previous)) at f +:+ ".shape_sha256" says "must be a lowercase SHA-256 digest" in
       Ok (dp_Version previous :: seen)) 0 (du_From entry) [] in
     reject! (du_MaxBytes entry <=? 0) || (Z.shiftl 4 30 <? du_MaxBytes entry) at "data_upgrade.max_bytes" says "must be between 1 and 4294967296" in
     reject! (du_MaxRuntimeMS entry <=? 0) || (300000 <? du_MaxRuntimeMS entry) at "data_upgrade.max_runtime_ms" says "must be between 1 and 300000" in
     match methods !! du_Method entry with
     | None => Err (ValidationError "data_upgrade.method" "must reference a synchronous write Worker method")
     | Some method =>
        let? _ := upgradeMethod m method in
        let? _ := upgradeUnused m (du_Method entry) in
        match compileMethod method with
        | Err e => Err (SchemaFailure (methodSchemaError_Error e))
        | Ok schemas => upgradeRequests m entry schemas
        end
     end
  end.

(** The header: versions, names, features, permissions and scopes. *)
Definition validateHeader (m : Manifest) : check :=
  reject! negb (bool_decide (ma_SchemaVersion m = SchemaVersionV9)) at "schema_version" says "must be redevplugin.manifest.v9" in
  reject! blank (ma_PublisherID m) at "publisher.publisher_id" says "is required" in
  reject! blank (ma_PluginID m) at "plugin.plugin_id" says "is required" in
  reject! blank (ma_DisplayName m) at "plugin.display_name" says "is required" in
  reject! negb (parses semver_IsValid (ma_Version m)) at "plugin.version" says "must be a strict semantic version" in
  let? _ := normalizePublicAPI (ma_API m) in
  let? _ := normalizePermissions (ma_Permissions m) in
  let? _ := validateScopedAuthorization m in
  let? _ := validateProcess m in
  let? _ := validateBackground m in
  reject! match ma_Surfaces m with None => true | Some _ => false end at "surfaces" says "is required" in
  Ok tt.

Definition validate (m : Manifest) (retainedPreWeb : bool) : check :=
  let? _ := validateHeader m in
  let? bindings := validateBindings m in
  let? workers := validateWorkers (ma_Workers m) in
  let? methods := validateMethods m bindings workers in
  let? _ := each (validatePreflight methods) (ma_Methods m) in
  let? _ := validateSurfaces retainedPreWeb m in
  let? _ := each (validateSurfaceRoute m) (ma_Methods m) in
  let? _ := validateIntents m methods in
  let? _ := validateSettings m in
  let? _ := validateBackgroundMethod m methods in
  let? _ := validateStorage m in
  let? _ := validateConnectors m in
  let? _ := validateSecretRefScopes unicode_IsPrint m in
  let? _ := each (validateSurfaceAccess m) (surfaces_of m) in
  let? _ := each (validateMethodAccess m) (ma_Methods m) in
  let? _ := validateDataUpgrade m methods in
  validatePresentation unicode_lower IsNormalNFC Fold language_Parse m.

Definition Validate (m : Manifest) : check := validate m false.
End validate.
