(* ===== verification/ManifestProps.v ===== *)
(** * What a validated manifest guarantees

    Loops with a set of what was seen, and from them: ids are unique and
    references resolve, a method has no more authority than its effect and the
    package say, and secrets have one scope. *)

From stdpp Require Import pretty.
From S2P Require Import Prelude GoLib SessionCtx Encoding Json NetIP Paths Manifest ManifestChecks Presentation ManifestValidate.

Open Scope go_scope.
Open Scope Z_scope.

(** ** Loops *)

Section loops.
Context {A S E : Type} (f : nat → A → S → Result E S).

Lemma range_loop_forall (P : A → Prop) i l s s' :
  (∀ i x s s', f i x s = Ok s' → P x) → range_loop f i l s = Ok s' → Forall P l.
Proof.
  intros Hf. revert i s. induction l as [|x l IH]; intros i s; [constructor|]. cbn [range_loop].
  destruct (f i x s) as [s1|] eqn:Hx; [|discriminate]. cbn [rbind]. intros H. constructor; [by eapply Hf|by eapply IH].
Qed.

(** The state only grows, and what an element needs of it may be read of a later one. *)
Lemma range_loop_keeps (R : S → S → Prop) i l s s' :
  (∀ s, R s s) → (∀ a b c, R a b → R b c → R a c) → (∀ i x s s', f i x s = Ok s' → R s s') → range_loop f i l s = Ok s' → R s s'.
Proof.
  intros Hr Ht Hf. revert i s. induction l as [|x l IH]; intros i s; cbn [range_loop]; [by intros [= <-]|].
  destruct (f i x s) as [s1|] eqn:Hx; [|discriminate]. cbn [rbind]. intros H. eapply Ht; [by eapply Hf|by eapply IH].
Qed.
End loops.

(** Each element adds its key, which was not there. *)
Lemma range_loop_seen {A E} (f : nat → A → list string → Result E (list string)) (key : A → string) i l s s' :
  (∀ i x s s', f i x s = Ok s' → key x ∉ s ∧ s' = key x :: s) → range_loop f i l s = Ok s' →
  NoDup (map key l) ∧ (∀ k, k ∈ s' ↔ k ∈ s ∨ k ∈ map key l) ∧ (∀ x, x ∈ l → key x ∉ s).
Proof.
  intros Hf. revert i s. induction l as [|x l IH]; intros i s; cbn [range_loop map].
  - intros [= <-]. split; [constructor|]. split; [|by intros x ?%elem_of_nil]. intros k. rewrite elem_of_nil. tauto.
  - destruct (f i x s) as [s1|] eqn:Hx; [|discriminate]. cbn [rbind]. apply Hf in Hx as [Hnew ->]. intros (Hnd & Hin & Hout)%IH.
    split; [|split].
    + constructor; [|done]. intros (y & Hy & Hyl)%list_elem_of_fmap. apply (Hout y Hyl). rewrite <- Hy. by left.
    + intros k. rewrite Hin, !elem_of_cons. tauto.
    + intros y [->|Hy]%elem_of_cons; [done|]. intros Hs. apply (Hout y Hy). by right.
Qed.

Lemma each_forall {A E} (f : nat → A → Result E unit) (P : A → Prop) l r :
  (∀ i x, f i x = Ok tt → P x) → each f l = Ok r → Forall P l.
Proof. intros Hf. unfold each. apply range_loop_forall. intros i x [] [] H. by eapply Hf. Qed.

Lemma NoDup_key_inj {A} (key : A → string) l x y : NoDup (map key l) → x ∈ l → y ∈ l → key x = key y → x = y.
Proof.
  induction l as [|z l IH]; [by intros _ ?%elem_of_nil|]. cbn [map]. intros [Hz Hnd]%NoDup_cons [->|Hx]%elem_of_cons [->|Hy]%elem_of_cons Hk; [done| | |by apply IH].
  - destruct Hz. rewrite Hk. by apply list_elem_of_fmap_2.
  - destruct Hz. rewrite <- Hk. by apply list_elem_of_fmap_2.
Qed.

(** Take a check apart: the conditions that were not rejected. *)
Ltac peel H :=
  lazymatch type of H with
  | (if ?c then Err _ else _) = Ok _ => let E := fresh "E" in destruct c eqn:E; [discriminate H|]
  | (if ?c then _ else Err _) = Ok _ => let E := fresh "E" in destruct c eqn:E; [|discriminate H]
  | rbind ?x _ = Ok _ => let r := fresh "r" in let E := fresh "E" in destruct x as [r|] eqn:E; [cbn [rbind] in H|discriminate H]
  | match ?x with Some _ => Err _ | None => _ end = Ok _ => let E := fresh "E" in destruct x eqn:E; [discriminate H|]
  | match ?x with Some _ => _ | None => Err _ end = Ok _ => let E := fresh "E" in destruct x eqn:E; [|discriminate H]
  | match ?x with Ok _ => _ | Err _ => Err _ end = Ok _ => let E := fresh "E" in destruct x eqn:E; [|discriminate H]
  end.
Ltac peels H := cbv beta zeta in H; repeat (peel H; cbv beta zeta in H).

(** Booleans as propositions. *)
Ltac booly :=
  repeat match goal with
  | H : true && _ = false |- _ => cbn [andb] in H
  | H : negb _ = false |- _ => apply negb_false_iff in H
  | H : negb _ = true |- _ => apply negb_true_iff in H
  | H : _ || _ = false |- _ => apply orb_false_iff in H as []
  | H : _ && _ = true |- _ => apply andb_true_iff in H as []
  | H : bool_decide _ = true |- _ => apply bool_decide_eq_true in H
  | H : bool_decide _ = false |- _ => apply bool_decide_eq_false in H
  | H : (_ <? _)%Z = false |- _ => apply Z.ltb_ge in H
  | H : (_ <=? _)%Z = false |- _ => apply Z.leb_gt in H
  | H : (_ =? _)%Z = true |- _ => apply Z.eqb_eq in H
  | H : (_ <? _)%nat = false |- _ => apply Nat.ltb_ge in H
  | H : (_ =? _)%nat = true |- _ => apply Nat.eqb_eq in H
  | H : (_ =? _)%nat = false |- _ => apply Nat.eqb_neq in H
  end.

(** ** Unique ids *)

Lemma validateWorkers_ok workers seen :
  validateWorkers workers = Ok seen →
  NoDup (map wo_WorkerID workers) ∧ (∀ k, k ∈ seen ↔ k ∈ map wo_WorkerID workers) ∧
  Forall (λ w, wo_Mode w = WorkerModeJob ∧ 0 < wo_MemoryLimitBytes w ≤ MaxWorkerMemoryLimitBytes) workers.
Proof.
  unfold validateWorkers. intros H. split; [|split].
  - eapply range_loop_seen; [|exact H]. intros i x s s' Hx. peels Hx. injection Hx as <-. booly. done.
  - intros k. eapply (range_loop_seen _ wo_WorkerID) in H as (_ & Hin & _).
    + rewrite Hin, elem_of_nil. tauto.
    + intros i x s s' Hx. peels Hx. injection Hx as <-. booly. done.
  - eapply range_loop_forall; [|exact H]. intros i x s s' Hx. peels Hx. booly. lia || (split; [done|lia]).
Qed.

(** ** What is guaranteed *)

Definition route_resolved (m : Manifest) (method : MethodSpec) : Prop :=
  let route := me_Route method in
  (mr_Kind route = MethodRouteCapability ∧ me_Method method = mr_TargetMethod route ∧ capabilityMethodDeclaresUnsignedPolicy method = false ∧
     ∃ b, b ∈ ma_CapabilityBindings m ∧ cb_BindingID b = mr_BindingID route) ∨
  (mr_Kind route = MethodRouteWorker ∧ ∃ w, w ∈ ma_Workers m ∧ wo_WorkerID w = mr_WorkerID route) ∨
  (mr_Kind route = MethodRouteSurface ∧ me_Execution method ≠ MethodExecutionSubscription ∧
     ∃ s, s ∈ surfaces_of m ∧ su_SurfaceID s = mr_SurfaceID route ∧ su_Kind s = SurfaceView) ∨
  (mr_Kind route = MethodRouteCoreAction ∧ mr_ActionID route ≠ "").

(** A dangerous method is confirmed, and a preflight only reads. *)
Definition confirmation_sound (m : Manifest) (method : MethodSpec) : Prop :=
  mr_Kind (me_Route method) ≠ MethodRouteCapability →
  (me_Dangerous method = true → ∃ c, me_Confirmation method = Some c ∧ co_Mode c ∈ [ConfirmationRequired; ConfirmationRiskBased]) ∧
  (me_PreflightOnly method = true → me_Effect method = MethodEffectRead ∧ me_Execution method = MethodExecutionSync ∧ me_Dangerous method = false) ∧
  (∀ c name, me_Confirmation method = Some c → co_PreflightMethod c = Some name → co_PlanHashRequired c = true ∧
     ∃ p, p ∈ ma_Methods m ∧ me_Method p = TrimSpace name ∧ me_Method p ≠ me_Method method ∧ me_PreflightOnly p = true ∧ me_Effect p = MethodEffectRead).

Definition storage_sound (m : Manifest) (readOnly : Prop) (access : list StorageBrokerAccessSpec) : Prop :=
  ∀ item, item ∈ access → ∃ store, store ∈ stores_of m ∧ so_StoreID store = sa_StoreID item ∧
    ∀ o, o ∈ sa_Operations item → validStorageOperation (so_Kind store) o = true ∧ (readOnly → readOnlyStorageOperation o = true).

Definition network_sound (m : Manifest) (readOnly : Prop) (access : list NetworkBrokerAccessSpec) : Prop :=
  ∀ item, item ∈ access → ∃ c, c ∈ connectors_of m ∧ nc_ConnectorID c = na_ConnectorID item ∧ nc_Transport c = na_Transport item ∧
    (readOnly → na_Transport item = "http" ∧ ∀ h, h ∈ na_HTTPMethods item → readOnlyHTTPMethod h = true).

(** Broker access belongs to workers, is declared, and of a method that reads
    only reads; explicit permissions are permissions of the package, and cover
    the processes and connections of the method. *)
Definition authority_sound (m : Manifest) (method : MethodSpec) : Prop :=
  (∀ access, me_BrokerAccess method = Some access → mr_Kind (me_Route method) = MethodRouteWorker ∧
     storage_sound m (me_Effect method = MethodEffectRead) (ba_Storage access) ∧
     network_sound m (me_Effect method = MethodEffectRead) (ba_Network access) ∧
     (ba_Process access ≠ [] → is_Some (ma_Process m) ∧ PermissionProcessLocal ∈ WorkerPermissionIDs m method) ∧
     (ba_Network access ≠ [] → is_Some (me_Permissions method) → PermissionNetworkClient ∈ WorkerPermissionIDs m method)) ∧
  (∀ ps, me_Permissions method = Some ps → mr_Kind (me_Route method) = MethodRouteWorker ∧ NoDup ps ∧
     ∀ p, p ∈ ps → knownPermission p = true ∧ p ∈ ma_Permissions m).

Definition surface_sound (m : Manifest) (s : SurfaceSpec) : Prop :=
  let web := su_Web s in
  storage_sound m False (we_Storage web) ∧ network_sound m False (we_Network web) ∧
  (we_Network web ≠ [] → PermissionNetworkClient ∈ ma_Permissions m) ∧ (∀ a, a ∈ we_Network web → na_Transport a ∈ ["http"; "websocket"]) ∧
  (we_Settings web ≠ [] → is_Some (ma_Settings m)) ∧
  ∀ names name, su_RequiredMethods s = Some names → name ∈ names → ∃ method, method ∈ ma_Methods m ∧ me_Method method = name.

Definition secrets_sound (m : Manifest) : Prop :=
  ∀ d e, d ∈ secret_declarations m → e ∈ secret_declarations m → d.1.1 = e.1.1 → d.1.1 ≠ "" → d.1.2 = e.1.2.

(** A method that runs without a user: of a worker, and never interactive. *)
Definition unattended (m : Manifest) (name : string) (P : MethodSpec → WorkerSpec → Prop) : Prop :=
  ∃ method w, method ∈ ma_Methods m ∧ me_Method method = name ∧ w ∈ ma_Workers m ∧
    mr_Kind (me_Route method) = MethodRouteWorker ∧ mr_WorkerID (me_Route method) = wo_WorkerID w ∧
    wo_Scope w = "environment" ∧ interactive method = false ∧ P method w.

Definition background_sound (m : Manifest) : Prop :=
  ∀ b, ma_Background m = Some b →
    (∃ w, w ∈ ma_Workers m ∧ wo_WorkerID w = bg_WorkerID b) ∧
    (bg_Strategy b = BackgroundInterval → bg_Method b ≠ "" ∧ 1000 ≤ bg_IntervalMS b ≤ 86400000 ∧ 1 ≤ bg_MaxRuntimeMS b ≤ bg_IntervalMS b) ∧
    (bg_Method b ≠ "" → unattended m (bg_Method b) (λ _ w, wo_WorkerID w = bg_WorkerID b)).

Definition upgrade_sound (m : Manifest) : Prop :=
  ∀ u, ma_DataUpgrade m = Some u →
    (0 < length (du_From u) ≤ 32)%nat ∧ NoDup (map dp_Version (du_From u)) ∧ ma_Version m ∉ map dp_Version (du_From u) ∧
    unattended m (du_Method u) (λ method _, me_Effect method = MethodEffectWrite ∧ WorkerPermissionIDs m method = [] ∧
      ∀ access, me_BrokerAccess method = Some access → ba_Storage access = [] ∧ ba_Network access = [] ∧ ba_Process access = []).

(** ** Methods *)

Section props.
Context (unicode_lower : Z → Z) (IsNormalNFC : string → bool) (Fold : string → string) (language_Parse : string → option string).
Context (semver_IsValid : string → bool).
Context (unicode_IsPrint : Z → bool) {Schema : Type} (marshal : fields → Result string bytes) (CompileSchema : string → bytes → Result string Schema)
  (ValidateSchema : Schema → fields → bool).

Lemma validateBindings_ok m seen :
  validateBindings semver_IsValid m = Ok seen → NoDup (map cb_BindingID (ma_CapabilityBindings m)) ∧ ∀ k, k ∈ seen ↔ k ∈ map cb_BindingID (ma_CapabilityBindings m).
Proof.
  intros H. eapply (range_loop_seen _ cb_BindingID) in H as (Hnd & Hin & _).
  - split; [done|]. intros k. rewrite Hin, elem_of_nil. tauto.
  - intros i x s s' Hx. peels Hx. injection Hx as <-. booly. done.
Qed.

Lemma route_worker field route bindings workers :
  validateMethodRoute field route bindings workers = Ok tt →
  (mr_Kind route = MethodRouteSurface) ∨ (mr_Kind route = MethodRouteCapability ∧ mr_BindingID route ∈ bindings) ∨
  (mr_Kind route = MethodRouteWorker ∧ mr_WorkerID route ∈ workers) ∨ (mr_Kind route = MethodRouteCoreAction ∧ mr_ActionID route ≠ "").
Proof.
  unfold validateMethodRoute. intros H. peels H. destruct (bool_decide (mr_Kind route = MethodRouteSurface)) eqn:Hs; [booly; auto|].
  destruct (bool_decide (mr_Kind route = MethodRouteCapability)) eqn:Hc; [peels H; booly; auto|].
  destruct (bool_decide (mr_Kind route = MethodRouteWorker)) eqn:Hw; [peels H; booly; auto|]. peels H. booly. right. right. right.
  split; [done|]. intros He. match goal with H : blank _ = false |- _ => rewrite He in H; vm_compute in H; discriminate end.
Qed.

(** What the loop checks of one method. *)
Definition method_checked (bindings workers : list string) (method : MethodSpec) : Prop :=
  (∃ field, validateMethodRoute field (me_Route method) bindings workers = Ok tt) ∧
  if bool_decide (mr_Kind (me_Route method) = MethodRouteCapability)
  then me_Method method = mr_TargetMethod (me_Route method) ∧ capabilityMethodDeclaresUnsignedPolicy method = false
  else ∃ field, validateMethodConfirmation field method = Ok tt.

Lemma validateMethods_ok m bindings workers methods :
  validateMethods unicode_IsPrint marshal CompileSchema m bindings workers = Ok methods →
  NoDup (map me_Method (ma_Methods m)) ∧ Forall (method_checked bindings workers) (ma_Methods m) ∧
  ∀ k method, methods !! k = Some method → method ∈ ma_Methods m ∧ me_Method method = k.
Proof.
  unfold validateMethods. generalize 0%nat.
  assert (∀ i x s s', validateMethod unicode_IsPrint marshal CompileSchema bindings workers i x s = Ok s' →
    s !! me_Method x = None ∧ s' = <[me_Method x := x]> s ∧ method_checked bindings workers x) as Hf.
  { intros i x s s' H. unfold validateMethod in H. peels H.
    destruct r. destruct (bool_decide (mr_Kind (me_Route x) = MethodRouteCapability)) eqn:Hk.
    - peels H. injection H as <-. split_and!; [by destruct (s !! _)|done|]. split; [by eexists|]. rewrite Hk. booly. done.
    - peels H. injection H as <-. split_and!; [by destruct (s !! _)|done|]. split; [by eexists|]. rewrite Hk. destruct r. by eexists. }
  assert (∀ l i s s', range_loop (validateMethod unicode_IsPrint marshal CompileSchema bindings workers) i l s = Ok s' →
    NoDup (map me_Method l) ∧ Forall (method_checked bindings workers) l ∧ (∀ x, x ∈ l → s !! me_Method x = None) ∧
    ∀ k y, s' !! k = Some y → s !! k = Some y ∨ y ∈ l ∧ me_Method y = k) as Hl.
  { induction l as [|x l IH]; intros i s s'; cbn [range_loop map].
    - intros [= <-]. split_and!; [constructor|constructor|by intros ? ?%elem_of_nil|by left].
    - destruct (validateMethod _ _ _ _ _ _ _) as [s1|] eqn:Hx; [|discriminate]. cbn [rbind]. apply Hf in Hx as (Hnew & -> & Hc).
      intros (Hnd & Hall & Hout & Hin)%IH. split_and!.
      + constructor; [|done]. intros (y & Hy & Hyl)%list_elem_of_fmap. specialize (Hout y Hyl). rewrite <- Hy, lookup_insert_eq in Hout. done.
      + by constructor.
      + intros y [->|Hy]%elem_of_cons; [done|]. specialize (Hout y Hy). apply lookup_insert_None in Hout as [? _]. done.
      + intros k y Hk. apply Hin in Hk as [Hk|[? ?]]; [|right; split; [by right|done]]. apply lookup_insert_Some in Hk as [[<- <-]|[_ ?]]; [|by left].
        right. split; [by left|done]. }
  intros i H. apply Hl in H as (? & ? & _ & Hin). split_and!; [done..|]. intros k method Hk. apply Hin in Hk as [Hk|?]; [|done].
  by rewrite lookup_empty in Hk.
Qed.

Lemma confirmation_ok field method :
  validateMethodConfirmation field method = Ok tt →
  (me_Dangerous method = true → ∃ c, me_Confirmation method = Some c ∧ co_Mode c ∈ [ConfirmationRequired; ConfirmationRiskBased]) ∧
  (me_PreflightOnly method = true → me_Effect method = MethodEffectRead ∧ me_Execution method = MethodExecutionSync ∧ me_Dangerous method = false) ∧
  (∀ c name, me_Confirmation method = Some c → co_PreflightMethod c = Some name → co_PlanHashRequired c = true).
Proof.
  unfold validateMethodConfirmation. intros H. peel H. destruct (me_Confirmation method) as [c|] eqn:Hc.
  - unfold validateConfirmationSpec in H. peels H. split_and!.
    + intros Hd. exists c. split; [done|]. rewrite Hd in E1. cbn [andb] in E1. unfold validConfirmationMode in E0. booly. set_solver.
    + intros Hp. rewrite Hp in E. peels E. booly. done.
    + intros c' name [= <-] Hn. rewrite Hn in E3. peels E3. by booly.
  - peels H. split_and!; [intros Hd; rewrite Hd in E0; discriminate| |done]. intros Hp. rewrite Hp in E. peels E. booly. done.
Qed.

Lemma preflight_ok methods i method :
  validatePreflight methods i method = Ok tt → mr_Kind (me_Route method) ≠ MethodRouteCapability →
  ∀ c name, me_Confirmation method = Some c → co_PreflightMethod c = Some name →
  ∃ p, methods !! TrimSpace name = Some p ∧ me_Method p ≠ me_Method method ∧ me_PreflightOnly p = true ∧ me_Effect p = MethodEffectRead.
Proof.
  unfold validatePreflight. intros H Hk c name Hc Hn. rewrite Hc, Hn in H. rewrite bool_decide_eq_false_2 in H by done. peels H. booly. eauto.
Qed.

(** ** Permissions *)

Lemma range_loop_append (err : string → ManifestError) (known : string → bool) values seen seen' i :
  range_loop (λ _ value seen, if negb (known value) then Err (err value)
    else if bool_decide (value ∈ seen) then Err (ValidationError "permissions" "must not contain duplicates") else Ok (seen ++ [value])) i values seen = Ok seen' →
  seen' = seen ++ values ∧ (NoDup seen → NoDup seen') ∧ Forall (λ v, known v = true) values.
Proof.
  revert i seen. induction values as [|v values IH]; intros i seen; cbn [range_loop].
  - intros [= <-]. rewrite app_nil_r. by split_and!.
  - destruct (known v) eqn:Hv; cbn [negb]; [|discriminate]. case_bool_decide as Hin; [discriminate|]. cbn [rbind]. intros (-> & Hnd & Hall)%IH.
    rewrite <- app_assoc in *. split; [done|]. split; [|by constructor]. intros Hs. apply Hnd. apply NoDup_app. split; [done|].
    split; [|apply NoDup_singleton]. by intros x Hx ->%list_elem_of_singleton.
Qed.

Lemma normalizePermissions_ok values r : normalizePermissions values = Ok r → NoDup values ∧ Forall (λ v, knownPermission v = true) values.
Proof.
  unfold normalizePermissions. intros H. destruct (range_loop _ _ _ _) as [seen|] eqn:Hl; [|discriminate].
  apply range_loop_append in Hl as (-> & Hnd & Hall). split; [|done]. apply Hnd. constructor.
Qed.

Lemma methodScope_ok m i method :
  methodScope m i method = Ok tt → ∀ ps, me_Permissions method = Some ps →
  mr_Kind (me_Route method) = MethodRouteWorker ∧ NoDup ps ∧ (∀ p, p ∈ ps → knownPermission p = true ∧ p ∈ ma_Permissions m) ∧
  ∀ access, me_BrokerAccess method = Some access →
    (ba_Process access ≠ [] → PermissionProcessLocal ∈ ps) ∧ (ba_Network access ≠ [] → PermissionNetworkClient ∈ ps).
Proof.
  unfold methodScope. intros H ps Hps. rewrite Hps in H. peels H. unfold permissionDeclared in *. booly.
  match goal with H : normalizePermissions _ = Ok _ |- _ => apply normalizePermissions_ok in H as [Hnd Hknown] end.
  match goal with H : forallb _ _ = true |- _ => rewrite forallb_forall in H; rename H into Hsub end.
  split_and!; [done|done| |].
  - intros p Hp. rewrite Forall_forall in Hknown. split; [by apply Hknown|]. apply list_elem_of_In in Hp. apply Hsub in Hp. by booly.
  - intros access Ha. rewrite Ha in H. peels H.
    assert (∀ (l : list NetworkBrokerAccessSpec), l ≠ [] → negb (length l =? 0)%nat = true) as Hlen by by intros [].
    assert (∀ (l : list (list string)), l ≠ [] → negb (length l =? 0)%nat = true) as Hlen2 by by intros [].
    split; intros Hne; match goal with
    | H : negb (length (ba_Process access) =? 0)%nat && _ = false, Hne : ba_Process access ≠ [] |- _ => rewrite (Hlen2 _ Hne) in H; cbn [andb] in H; by booly
    | H : negb (length (ba_Network access) =? 0)%nat && _ = false, Hne : ba_Network access ≠ [] |- _ => rewrite (Hlen _ Hne) in H; cbn [andb] in H; by booly
    end.
Qed.

(** ** Broker access *)

Lemma storeKinds_spec m id kind : storeKinds m !! id = Some kind → ∃ s, s ∈ stores_of m ∧ so_StoreID s = id ∧ so_Kind s = kind.
Proof.
  unfold storeKinds. assert (∀ l (kinds : gmap string string), foldl (λ kinds s, <[so_StoreID s := so_Kind s]> kinds) kinds l !! id = Some kind →
    kinds !! id = Some kind ∨ ∃ s, s ∈ l ∧ so_StoreID s = id ∧ so_Kind s = kind) as Hl.
  { induction l as [|s l IH]; intros kinds; cbn [foldl]; [by left|]. intros [Hk|(s' & ? & ?)]%IH; [|right; exists s'; split; [by right|done]].
    apply lookup_insert_Some in Hk as [[<- <-]|[_ ?]]; [|by left]. right. exists s. split; [by left|done]. }
  intros [H|?]%Hl; [by rewrite lookup_empty in H|done].
Qed.

Lemma connectorTransports_spec m id transport :
  connectorTransports m !! id = Some transport → ∃ c, c ∈ connectors_of m ∧ nc_ConnectorID c = id ∧ nc_Transport c = transport.
Proof.
  unfold connectorTransports. assert (∀ l (ts : gmap string string), foldl (λ ts c, <[nc_ConnectorID c := nc_Transport c]> ts) ts l !! id = Some transport →
    ts !! id = Some transport ∨ ∃ c, c ∈ l ∧ nc_ConnectorID c = id ∧ nc_Transport c = transport) as Hl.
  { induction l as [|c l IH]; intros ts; cbn [foldl]; [by left|]. intros [Hk|(c' & ? & ?)]%IH; [|right; exists c'; split; [by right|done]].
    apply lookup_insert_Some in Hk as [[<- <-]|[_ ?]]; [|by left]. right. exists c. split; [by left|done]. }
  intros [H|?]%Hl; [by rewrite lookup_empty in H|done].
Qed.

Lemma storage_access_ok m field access (readOnly : bool) (R : Prop) :
  (R → readOnly = true) → validateStorageBrokerAccess field access (storeKinds m) readOnly = Ok tt → storage_sound m R access.
Proof.
  intros HR H. unfold validateStorageBrokerAccess in H. peels H. intros item Hitem.
  assert (Forall (λ item, ∃ kind, storeKinds m !! sa_StoreID item = Some kind ∧
    Forall (λ o, validStorageOperation kind o = true ∧ (readOnly = true → readOnlyStorageOperation o = true)) (sa_Operations item)) access) as Hall.
  { eapply range_loop_forall; [|exact E]. intros i x s s' Hx. peels Hx. eexists. split; [done|].
    eapply range_loop_forall; [|match goal with H : range_loop _ _ (sa_Operations x) _ = _ |- _ => exact H end].
    intros j o s1 s1' Ho. peels Ho. booly. split; [done|]. intros ->. by booly. }
  rewrite Forall_forall in Hall. destruct (Hall item Hitem) as (kind & Hk & Hops). apply storeKinds_spec in Hk as (store & Hs & Hid & <-).
  exists store. split_and!; [done..|]. intros o Ho. rewrite Forall_forall in Hops. destruct (Hops o Ho) as [? Hro]. split; [done|]. intros. by apply Hro, HR.
Qed.

Lemma network_access_ok m field access (readOnly : bool) (R : Prop) :
  (R → readOnly = true) → validateNetworkBrokerAccess field access (connectorTransports m) readOnly = Ok tt → network_sound m R access.
Proof.
  intros HR H. unfold validateNetworkBrokerAccess in H. peels H. intros item Hitem.
  assert (Forall (λ item, connectorTransports m !! na_ConnectorID item = Some (na_Transport item) ∧
    (readOnly = true → na_Transport item = "http" ∧ Forall (λ h, readOnlyHTTPMethod h = true) (na_HTTPMethods item))) access) as Hall.
  { eapply range_loop_forall; [|exact E]. intros i x s s' Hx. peels Hx. booly. subst. split; [done|]. intros ->.
    match goal with H : validateNetworkItem _ _ _ = _ |- _ => unfold validateNetworkItem in H; peels H end. booly. split.
    - assert (Forall (λ _, na_Transport x = "http") (na_Operations x)) as Hops.
      { eapply range_loop_forall; [|match goal with H : range_loop _ _ (na_Operations x) _ = _ |- _ => exact H end].
        intros j o s1 s1' Ho. peels Ho. by booly. }
      destruct (na_Operations x); [by cbn in *|]. by apply Forall_cons in Hops as [? _].
    - eapply range_loop_forall; [|match goal with H : range_loop _ _ (na_HTTPMethods x) _ = _ |- _ => exact H end].
      intros j h s1 s1' Hh. peels Hh. by booly. }
  rewrite Forall_forall in Hall. destruct (Hall item Hitem) as (Hk & Hro). apply connectorTransports_spec in Hk as (c & Hc & Hid & Ht).
  exists c. split_and!; [done..|]. intros Hr. destruct (Hro (HR Hr)) as [? Hh]. split; [done|]. by rewrite Forall_forall in Hh.
Qed.

Lemma method_access_ok m i method access :
  validateMethodAccess m i method = Ok tt → me_BrokerAccess method = Some access →
  mr_Kind (me_Route method) = MethodRouteWorker ∧ storage_sound m (me_Effect method = MethodEffectRead) (ba_Storage access) ∧
  network_sound m (me_Effect method = MethodEffectRead) (ba_Network access) ∧ (ba_Process access ≠ [] → is_Some (ma_Process m)).
Proof.
  unfold validateMethodAccess. intros H Ha. peel H. destruct r. unfold validateMethodBrokerAccess in E. rewrite Ha in E, H. peels E. booly.
  match goal with H : validateStorageBrokerAccess _ _ _ _ = Ok ?r |- _ => destruct r end.
  split_and!; [done| | |].
  - eapply storage_access_ok; [|done]. intros ->. by apply bool_decide_eq_true_2.
  - eapply network_access_ok; [|done]. intros ->. by apply bool_decide_eq_true_2.
  - intros Hne. peels H. destruct (ba_Process access); [done|]. cbn [length Nat.eqb negb] in *. booly. by destruct (ma_Process m).
Qed.

(** ** Surfaces *)

Lemma surface_access_ok m i s :
  validateSurfaceAccess m i s = Ok tt →
  storage_sound m False (we_Storage (su_Web s)) ∧ network_sound m False (we_Network (su_Web s)) ∧
  (we_Network (su_Web s) ≠ [] → PermissionNetworkClient ∈ ma_Permissions m) ∧
  (∀ a, a ∈ we_Network (su_Web s) → na_Transport a ∈ ["http"; "websocket"]) ∧ (we_Settings (su_Web s) ≠ [] → is_Some (ma_Settings m)).
Proof.
  unfold validateSurfaceAccess. intros H. peels H.
  match goal with H : validateStorageBrokerAccess _ _ _ _ = Ok ?r |- _ => destruct r end. split_and!.
  - eapply (storage_access_ok _ _ _ false); [intros []|done].
  - eapply (network_access_ok _ _ _ false); [intros []|done].
  - intros Hne. unfold permissionDeclared in *. destruct (we_Network (su_Web s)); [done|]. cbn [length Nat.eqb negb] in *. by booly.
  - match goal with H : each _ (we_Network _) = Ok _ |- _ => rename H into Hnet end. apply Forall_forall. eapply each_forall; [|exact Hnet].
    intros j a Hj. peels Hj. by booly.
  - intros Hne. match goal with H : range_loop _ _ (we_Settings _) _ = Ok _ |- _ => rename H into Hset end.
    assert (Forall (λ _, is_Some (ma_Settings m)) (we_Settings (su_Web s))) as Hall.
    { eapply range_loop_forall; [|exact Hset]. intros j o s1 s1' Hj. peels Hj. booly. by destruct (ma_Settings m). }
    destruct (we_Settings (su_Web s)); [done|]. by apply Forall_cons in Hall as [? _].
Qed.

Lemma surface_scope_ok m i s names name :
  surfaceScope m i s = Ok tt → su_RequiredMethods s = Some names → name ∈ names → ∃ method, method ∈ ma_Methods m ∧ me_Method method = name.
Proof.
  unfold surfaceScope. intros H Hn Hin. rewrite Hn in H. peels H.
  assert (Forall (λ name, name ∈ map me_Method (ma_Methods m)) names) as Hall.
  { eapply range_loop_forall; [|exact E0]. intros j x s1 s1' Hj. peels Hj. by booly. }
  rewrite Forall_forall in Hall. apply Hall in Hin. apply list_elem_of_fmap in Hin as (method & -> & ?). eauto.
Qed.

Lemma surface_route_ok m i method :
  validateSurfaceRoute m i method = Ok tt → mr_Kind (me_Route method) = MethodRouteSurface →
  me_Execution method ≠ MethodExecutionSubscription ∧
  ∃ s, s ∈ surfaces_of m ∧ su_SurfaceID s = mr_SurfaceID (me_Route method) ∧ su_Kind s = SurfaceView.
Proof.
  unfold validateSurfaceRoute. intros H Hk. rewrite bool_decide_eq_true_2 in H by done. cbn [negb] in H. peels H. booly. split; [done|].
  match goal with H : _ ∈ map su_SurfaceID _ |- _ => apply list_elem_of_fmap in H as (s & Hs & Hin) end. exists s. split; [done|]. split; [done|].
  apply (each_forall _ (λ s, su_SurfaceID s = mr_SurfaceID (me_Route method) → su_Kind s = SurfaceView)) in H.
  - rewrite Forall_forall in H. by apply H.
  - intros j x Hx Hid. rewrite bool_decide_eq_true_2 in Hx by done. peels Hx. by booly.
Qed.

Lemma validateSurfaces_ok retained m :
  validateSurfaces unicode_lower retained m = Ok tt → NoDup (map su_SurfaceID (surfaces_of m)).
Proof.
  unfold validateSurfaces. intros H. peels H. eapply range_loop_seen; [|exact E].
  intros i x s s' Hx. peels Hx. injection Hx as <-. booly. done.
Qed.

Lemma validateStorage_ok m : validateStorage m = Ok tt →
  NoDup (map so_StoreID (stores_of m)) ∧ (length (stores_of m) ≤ 16)%nat ∧ Forall (λ s, 0 < so_QuotaBytes s ≤ MaxStoreQuotaBytes) (stores_of m).
Proof.
  unfold validateStorage. intros H. peels H. split_and!.
  - eapply range_loop_seen; [|exact E0]. intros i x s s' Hx. peels Hx. injection Hx as <-. booly. done.
  - by booly.
  - eapply range_loop_forall; [|exact E0]. intros i x s s' Hx. peels Hx. booly. done.
Qed.

Lemma validateConnectors_ok m : validateConnectors m = Ok tt → NoDup (map nc_ConnectorID (connectors_of m)).
Proof.
  unfold validateConnectors. intros H. peels H. eapply range_loop_seen; [|exact E].
  intros i x s s' Hx. peels Hx. injection Hx as <-. booly. done.
Qed.

Lemma validateSettings_ok m : validateSettings IsNormalNFC m = Ok tt → NoDup (map se_Key (settings_fields m)).
Proof.
  unfold validateSettings, settings_fields. destruct (ma_Settings m) as [settings|]; [|constructor]. intros H. peels H.
  eapply range_loop_seen; [|exact E0]. intros i x s s' Hx. peels Hx. injection Hx as <-. booly. done.
Qed.

(** ** Secrets *)

Lemma secret_scopes_ok m : validateSecretRefScopes unicode_IsPrint m = Ok tt → secrets_sound m.
Proof.
  unfold validateSecretRefScopes, secrets_sound. intros H. peel H.
  assert (∀ l i s s', range_loop (λ _ d declared, register unicode_IsPrint d declared) i l s = Ok s' →
    (∀ k x, s !! k = Some x → ∃ y, s' !! k = Some y ∧ y.1 = x.1) ∧
    ∀ d, d ∈ l → d.1.1 ≠ "" → ∃ y, s' !! d.1.1 = Some y ∧ y.1 = d.1.2) as Hl.
  { induction l as [|[[ref scope] f] l IH]; intros i s s'; cbn [range_loop].
    - intros [= <-]. split; [eauto|]. by intros d ?%elem_of_nil.
    - destruct (register _ _ _) as [s1|] eqn:Hr; [|discriminate]. cbn [rbind]. intros [Hk Hd]%IH. unfold register in Hr.
      destruct (empty ref) eqn:He.
      + injection Hr as <-. split; [done|]. intros d [->|Hin]%elem_of_cons Hne; [|by apply Hd]. unfold empty in He. booly. done.
      + peels Hr. injection Hr as <-. split.
        * intros k x Hx. destruct (decide (k = ref)) as [->|Hne]; [|apply Hk; by rewrite lookup_insert_ne].
          destruct (Hk ref (scope, f)) as (y & Hy & Hs); [by rewrite lookup_insert_eq|]. exists y. split; [done|]. rewrite Hs.
          rewrite Hx in *. by destruct (bool_decide (x.1 = scope)) eqn:Hscope; booly.
        * intros d [->|Hin]%elem_of_cons Hne; [|by apply Hd]. destruct (Hk ref (scope, f)) as (y & Hy & Hs); [by rewrite lookup_insert_eq|]. eauto. }
  apply Hl in E as [_ Hd]. intros d e Hdin Hein Href Hne. destruct (Hd d Hdin Hne) as (y & Hy & <-).
  destruct (Hd e Hein) as (y' & Hy' & <-); [by rewrite <- Href|]. rewrite Href in Hy. rewrite Hy in Hy'. by injection Hy' as ->.
Qed.

(** ** Methods that run without a user *)

Lemma background_ok m methods :
  validateBackground m = Ok tt → validateBackgroundMethod unicode_IsPrint marshal CompileSchema ValidateSchema m methods = Ok tt →
  (∀ k method, methods !! k = Some method → method ∈ ma_Methods m ∧ me_Method method = k) → background_sound m.
Proof.
  unfold validateBackground, validateBackgroundMethod. intros Hb Hm Hin b Hbg. rewrite Hbg in Hb, Hm. peels Hb. booly.
  match goal with H : _ ∈ map wo_WorkerID _ |- _ => apply list_elem_of_fmap in H as (w & Hw & Hwin) end.
  split; [eauto|]. peel Hm. unfold backgroundInterval in *. match goal with H : (if bool_decide (bg_Strategy b = _) then _ else _) = Ok _ |- _ => rename H into Hint end.
  split.
  - intros Hs. rewrite bool_decide_eq_true_2 in Hint by done. peels Hint. booly. unfold empty in *. booly. split_and!; done || lia.
  - intros Hne. unfold empty in Hm. rewrite bool_decide_eq_false_2 in Hm by done. peel Hm.
    destruct (methods !! bg_Method b) as [method|] eqn:Hk; [|discriminate]. destruct (Hin _ _ Hk) as [Hmin Hname]. peels Hm. booly.
    exists method, w. split_and!; try done; [congruence|].
    match goal with H : each _ (ma_Workers m) = Ok _ |- _ => rename H into Hworkers end.
    apply (each_forall _ (λ w, wo_WorkerID w = bg_WorkerID b → wo_Scope w = "environment")) in Hworkers.
    + rewrite Forall_forall in Hworkers. by apply Hworkers.
    + intros j x Hx Hid. peels Hx. rewrite (bool_decide_eq_true_2 _ Hid) in *. booly. done.
Qed.

Lemma upgrade_ok m methods :
  validateDataUpgrade unicode_lower semver_IsValid unicode_IsPrint marshal CompileSchema ValidateSchema m methods = Ok tt →
  (∀ k method, methods !! k = Some method → method ∈ ma_Methods m ∧ me_Method method = k) →
  (∀ method, method ∈ ma_Methods m → mr_Kind (me_Route method) = MethodRouteWorker → ∃ w, w ∈ ma_Workers m ∧ wo_WorkerID w = mr_WorkerID (me_Route method)) →
  upgrade_sound m.
Proof.
  unfold validateDataUpgrade. intros H Hin Hroute u Hu. rewrite Hu in H. peels H.
  match goal with H : range_loop _ _ (du_From u) _ = Ok _ |- _ => rename H into Hfrom end.
  match goal with H : upgradeMethod m ?x = Ok ?r |- _ => rename x into method; destruct r; rename H into Hmethod end.
  match goal with H : methods !! _ = Some method |- _ => destruct (Hin _ _ H) as [Hmin Hname] end. booly.
  split; [lia|]. split; [|split].
  - eapply range_loop_seen; [|exact Hfrom]. intros i x s s' Hx. peels Hx. injection Hx as <-. booly. done.
  - assert (Forall (λ p, dp_Version p ≠ ma_Version m) (du_From u)) as Hall.
    { eapply range_loop_forall; [|exact Hfrom]. intros i x s s' Hx. peels Hx. booly. done. }
    rewrite Forall_forall in Hall. intros (p & Hp & Hpin)%list_elem_of_fmap. by apply (Hall p Hpin).
  - unfold upgradeMethod in Hmethod. peels Hmethod. booly. destruct (Hroute method Hmin) as (w & Hwin & Hw); [done|].
    exists method, w. split_and!; try done.
    + apply (each_forall _ (λ w, wo_WorkerID w = mr_WorkerID (me_Route method) → wo_Scope w = "environment")) in Hmethod.
      * rewrite Forall_forall in Hmethod. by apply Hmethod.
      * intros j x Hx Hid. peels Hx. rewrite (bool_decide_eq_true_2 _ Hid) in *. cbn [andb] in *. booly. done.
    + by apply nil_length_inv.
    + intros access Ha. rewrite Ha in *. booly. split_and!; apply nil_length_inv; lia.
Qed.

(** ** All of it *)

Lemma validateHeader_ok m :
  validateHeader semver_IsValid m = Ok tt →
  NoDup (ma_Permissions m) ∧
  ((∀ method, method ∈ ma_Methods m → ∃ i, methodScope m i method = Ok tt) ∧
   ∀ s, s ∈ surfaces_of m → ∀ names name, su_RequiredMethods s = Some names → name ∈ names → ∃ method, method ∈ ma_Methods m ∧ me_Method method = name) ∧
  (is_Some (ma_Process m) → PermissionProcessLocal ∈ ma_Permissions m) ∧ validateBackground m = Ok tt.
Proof.
  unfold validateHeader. intros H. peels H. repeat match goal with r : unit |- _ => destruct r end.
  match goal with H : normalizePermissions _ = Ok _ |- _ => apply normalizePermissions_ok in H as [Hnd _] end.
  match goal with H : validateScopedAuthorization m = _ |- _ => unfold validateScopedAuthorization in H; peel H; rename H into Hs end.
  match goal with H : each (methodScope m) _ = _ |- _ => rename H into Hm end. split_and!; [done| | | |done].
  - eapply each_forall in Hm; [|intros i x Hx; exact (ex_intro _ i Hx)]. by rewrite Forall_forall in Hm.
  - intros s Hin. eapply each_forall in Hs; [|intros i x Hx; exact (λ names name, surface_scope_ok m i x names name Hx)]. rewrite Forall_forall in Hs. by apply Hs.
  - intros [limits Hl]. match goal with H : validateProcess m = _ |- _ => unfold validateProcess in H; rewrite Hl in H; peels H end.
    unfold permissionDeclared in *. by booly.
Qed.

Lemma method_resolved m bindings workers method :
  method ∈ ma_Methods m → (∀ k, k ∈ bindings → k ∈ map cb_BindingID (ma_CapabilityBindings m)) → (∀ k, k ∈ workers → k ∈ map wo_WorkerID (ma_Workers m)) →
  method_checked bindings workers method →
  (mr_Kind (me_Route method) = MethodRouteSurface → me_Execution method ≠ MethodExecutionSubscription ∧
     ∃ s, s ∈ surfaces_of m ∧ su_SurfaceID s = mr_SurfaceID (me_Route method) ∧ su_Kind s = SurfaceView) →
  route_resolved m method.
Proof.
  intros Hm Hb Hw [[field Hroute] Hc] Hsurface. unfold route_resolved. apply route_worker in Hroute as [Hk|[[Hk Hin]|[[Hk Hin]|?]]].
  - right. right. left. split; [done|]. by apply Hsurface.
  - left. rewrite bool_decide_eq_true_2 in Hc by done. destruct Hc as [? ?]. split_and!; [done..|].
    apply Hb, list_elem_of_fmap in Hin as (b & -> & ?). eauto.
  - right. left. split; [done|]. apply Hw, list_elem_of_fmap in Hin as (w & -> & ?). eauto.
  - by right; right; right.
Qed.

Lemma method_authority m method :
  (∃ i, methodScope m i method = Ok tt) →
  (∀ access, me_BrokerAccess method = Some access →
    mr_Kind (me_Route method) = MethodRouteWorker ∧ storage_sound m (me_Effect method = MethodEffectRead) (ba_Storage access) ∧
    network_sound m (me_Effect method = MethodEffectRead) (ba_Network access) ∧ (ba_Process access ≠ [] → is_Some (ma_Process m))) →
  (is_Some (ma_Process m) → PermissionProcessLocal ∈ ma_Permissions m) → authority_sound m method.
Proof.
  intros [i Hscope] Haccess Hprocess. split.
  - intros access Ha. destruct (Haccess access Ha) as (? & ? & ? & Hp). split_and!; [done..| |].
    + intros Hne. split; [by apply Hp|]. unfold WorkerPermissionIDs. destruct (me_Permissions method) as [ps|] eqn:Hps; [|by apply Hprocess, Hp].
      destruct (methodScope_ok m i method Hscope ps Hps) as (_ & _ & _ & Hacc). by apply (Hacc access Ha).
    + intros Hne [ps Hps]. unfold WorkerPermissionIDs. rewrite Hps.
      destruct (methodScope_ok m i method Hscope ps Hps) as (_ & _ & _ & Hacc). by apply (Hacc access Ha).
  - intros ps Hps. destruct (methodScope_ok m i method Hscope ps Hps) as (? & ? & ? & _). done.
Qed.

Definition manifest_sound (m : Manifest) : Prop :=
  (NoDup (map me_Method (ma_Methods m)) ∧ NoDup (map wo_WorkerID (ma_Workers m)) ∧ NoDup (map cb_BindingID (ma_CapabilityBindings m)) ∧
   NoDup (map su_SurfaceID (surfaces_of m)) ∧ NoDup (map so_StoreID (stores_of m)) ∧ NoDup (map nc_ConnectorID (connectors_of m)) ∧
   NoDup (map se_Key (settings_fields m)) ∧ NoDup (ma_Permissions m)) ∧
  (∀ method, method ∈ ma_Methods m → route_resolved m method ∧ confirmation_sound m method ∧ authority_sound m method) ∧
  (∀ s, s ∈ surfaces_of m → surface_sound m s) ∧
  secrets_sound m ∧ background_sound m ∧ upgrade_sound m.

End props.

(** ** A concrete package *)

Section demo.
Definition demo_schema : option fields := Some [("type", JText "object"); ("additionalProperties", JBool false)].
Definition demo_route (worker : string) : MethodRouteSpec := mkRoute MethodRouteWorker "" "" worker "" "".

Definition demo_method (name effect : string) (confirmation : option ConfirmationSpec) (access : option MethodBrokerAccessSpec) : MethodSpec :=
  mkMethod None name effect MethodExecutionSync (bool_decide (effect = MethodEffectDelete)) false confirmation None demo_schema demo_schema
    (demo_route "main") access.

Definition demo_manifest : Manifest :=
  mkManifest
    (Some (mkDataUpgrade [mkPredecessor "1.0.0" (of_text (repeat (byte 97) 64))] "upgrade" 1024 1000))
    SchemaVersionV9 "acme" "" "notes" "Notes" "1.1.0"
    (mkAPI 1 [FeatureDataUpgrade; FeatureBackgroundMethod; FeatureBackgroundInterval; FeatureScopedAuthorization; FeatureProcessLocal] [])
    [PermissionProcessLocal; PermissionNetworkClient]
    (mkPresentation "en" "Notes for all" ["Keeps notes"] [] ["notes"]
       [mkLocalization "fr" "Notes" "" "Des notes" ["Garde des notes"] [] ["notes"] [mkLocalizedSurface "board" "Tableau"]
          [mkLocalizedSetting "token" "Jeton" []]] None)
    (Some [mkSurface (Some ["list"]) "board" SurfaceView SurfaceIntentPrimary "Board" "web/index.html"
       (mkWeb [] [] [mkNetworkAccess "api" "http" "" ["http"] ["GET"; "POST"]] "web" true) "" (Some (400, 300))])
    [mkBinding "clock" (mkPin "acme" "clock" "1.0.0" (of_text (repeat (byte 48) 64)))]
    [demo_method "list" MethodEffectRead None
       (Some (mkBrokerAccess [mkStorageAccess "notes" ["get"; "list"]] [mkNetworkAccess "api" "http" "" ["http"] ["GET"]] []));
     mkMethod None "plan" MethodEffectRead MethodExecutionSync false true None None demo_schema demo_schema (demo_route "main") None;
     demo_method "purge" MethodEffectDelete (Some (mkConfirmation ConfirmationRequired (Some "plan") ["id"] true))
       (Some (mkBrokerAccess [mkStorageAccess "notes" ["delete"]] [] [["start"]]));
     mkMethod (Some []) "upgrade" MethodEffectWrite MethodExecutionSync false false None None demo_schema demo_schema (demo_route "main") None;
     mkMethod (Some [PermissionNetworkClient]) "sync" MethodEffectWrite MethodExecutionSync false false None None demo_schema demo_schema
       (demo_route "main") (Some (mkBrokerAccess [] [mkNetworkAccess "api" "http" "" ["http"] ["POST"]] []));
     mkMethod None "now" "" "" false false None None None None (mkRoute MethodRouteCapability "clock" "now" "" "" "") None]
    [mkWorker "main" "main.wasm" WorkerModeJob "environment" 1048576 0]
    (Some [mkStoreSpec "notes" "kv" "user" 1048576 None 1])
    (Some [mkNetworkConnector false "api" "http" "user" ["https://api.example"] [("secret_ref", JText "token")] []])
    (Some (mkProcessLimits 4096 0))
    (Some (mkBackground 60000 1000 "sync" None BackgroundInterval "main"))
    (Some (mkSettings 1 [mkSetting "token" "secret" "Token" "user" "token" []]))
    [mkIntent "show" "list"].

(** The parameters instantiated: a parser of tags that knows the two of the
    package, and a compiler that keeps the name of the schema. *)
Definition demo_Parse (tag : string) : option string := if bool_decide (tag ∈ ["en"; "fr"]) then Some tag else None.
Definition demo_Validate (m : Manifest) : check :=
  Validate (λ r, r) (λ _, true) (λ s, s) demo_Parse (λ _, true) (λ _, true) (λ _, Ok []) (λ name _, Ok name) (λ _ _, true) m.


(** The same package is refused when the method that reads may also write. *)
Example demo_refused :
  demo_Validate (mkManifest (ma_DataUpgrade demo_manifest) SchemaVersionV9 "acme" "" "notes" "Notes" "1.1.0" (ma_API demo_manifest)
    (ma_Permissions demo_manifest) (ma_Presentation demo_manifest) (ma_Surfaces demo_manifest) (ma_CapabilityBindings demo_manifest)
    [demo_method "list" MethodEffectRead None (Some (mkBrokerAccess [mkStorageAccess "notes" ["put"]] [] []));
     demo_method "upgrade" MethodEffectWrite None None; demo_method "sync" MethodEffectWrite None None]
    (ma_Workers demo_manifest) (ma_Storage demo_manifest) (ma_NetworkAccess demo_manifest) (ma_Process demo_manifest) (ma_Background demo_manifest)
    (ma_Settings demo_manifest) []) =
  Err (ValidationError "methods[0].broker_access.storage[0].operations[0]" "must be read-only for a read effect method").
Proof. vm_compute. reflexivity. Qed.
End demo.
