(* ===== verification/PresentationProps.v ===== *)
(** * The catalog of a validated manifest

    Every locale has exactly the labels of the default one, and a request is
    answered with a locale of the catalog. *)

From stdpp Require Import pretty.
From S2P Require Import Prelude GoLib SessionCtx Encoding Json JsonProps NetIP Paths Manifest ManifestChecks Presentation ManifestValidate ManifestProps.

Open Scope go_scope.
Open Scope Z_scope.

(** ** Maps built by a loop *)

Lemma find_last {A} (key : A → string) (l : list A) k :
  k ∈ map key l → ∃ x, x ∈ l ∧ key x = k ∧ List.find (λ x, bool_decide (key x = k)) (rev l) = Some x.
Proof.
  intros (x & -> & Hx)%list_elem_of_fmap. destruct (List.find _ (rev l)) as [y|] eqn:Hf.
  - apply List.find_some in Hf as [Hy Hk]. apply bool_decide_eq_true in Hk. apply List.in_rev in Hy. exists y.
    split; [by apply list_elem_of_In|]. done.
  - assert (List.In x (rev l)) as Hr by (apply (proj1 (List.in_rev l x)); by apply list_elem_of_In). apply (List.find_none _ _ Hf) in Hr.
    by rewrite bool_decide_eq_true_2 in Hr.
Qed.

Lemma label_of_in {A} (key label : A → string) (l : list A) (P : string → Prop) k :
  k ∈ map key l → (∀ x, x ∈ l → P (label x)) → P (label_of key label l k).
Proof. intros (x & Hx & _ & Hf)%find_last HP. unfold label_of. rewrite Hf. by apply HP. Qed.

(** As many different keys, all of them wanted, are all the keys that are wanted. *)
Lemma all_wanted (l k : list string) : NoDup l → (∀ x, x ∈ l → x ∈ k) → length l = length k → ∀ x, x ∈ k → x ∈ l.
Proof.
  intros Hnd Hin Hlen x Hx. assert (l ≡ₚ k) as Hp; [|by rewrite Hp].
  apply submseteq_length_Permutation; [by apply NoDup_submseteq|lia].
Qed.

(** The loops that look a key up in what is wanted. *)
Lemma range_loop_wanted {A E} (f : nat → A → list string → Result E (list string)) (key : A → string) (wanted : list string) (P : A → Prop) l s' :
  (∀ i x s s', f i x s = Ok s' → key x ∈ wanted ∧ key x ∉ s ∧ P x ∧ s' = key x :: s) → range_loop f 0 l [] = Ok s' →
  length l = length wanted → (∀ k, k ∈ wanted → k ∈ map key l) ∧ ∀ x, x ∈ l → P x.
Proof.
  intros Hf H Hlen.
  assert (NoDup (map key l)) as Hnd by (eapply range_loop_seen; [|exact H]; intros i x s s1 Hx; by destruct (Hf _ _ _ _ Hx) as (_ & ? & _ & ?)).
  assert (Forall (λ x, key x ∈ wanted ∧ P x) l) as Hall.
  { eapply range_loop_forall; [|exact H]. intros i x s s1 Hx. by destruct (Hf _ _ _ _ Hx) as (? & _ & ? & _). }
  rewrite Forall_forall in Hall. split.
  - apply all_wanted; [done| |by rewrite length_map]. intros k (x & -> & Hx)%list_elem_of_fmap. by apply Hall.
  - intros x Hx. by apply Hall.
Qed.

Lemma split_at_ne n s : split_at n s ≠ [].
Proof. destruct s as [|c s]; [done|]. cbn [split_at]. destruct (is_byte n c); [done|]. by destruct (split_at n s). Qed.

Lemma join_split n s : join [byte n] (split_at n s) = s.
Proof.
  induction s as [|c s IH]; [done|]. cbn [split_at]. pose proof (split_at_ne n s) as Hne.
  destruct (split_at n s) as [|p ps]; [done|]. destruct (is_byte n c) eqn:Hc.
  - apply is_byte_true in Hc as ->. rewrite <- IH. reflexivity.
  - rewrite <- IH. by destruct ps.
Qed.

Lemma candidates_head s : ∃ rest, localeLookupCandidates s = s :: rest.
Proof.
  unfold localeLookupCandidates, Split. pose proof (split_at_ne 45 (text s)) as Hne.
  assert (∀ parts : list bytes, map text (of_text <$> parts) = parts) as Hmap.
  { intros parts. induction parts as [|p parts IH]; [done|]. cbn. f_equal; [apply list_ascii_of_list|exact IH]. }
  destruct (split_at 45 (text s)) as [|p ps] eqn:Hs; [done|].
  assert (of_text (join [byte 45] (map text (of_text <$> (p :: ps)))) = s) as Hj.
  { rewrite Hmap, <- Hs, join_split. apply String.string_of_list_ascii_of_string. }
  cbn [fmap list_fmap length candidates] in Hj |- *. eexists. by f_equal.
Qed.

(** ** Completeness of a locale *)

(** A text that is shown: not empty and of at most 128 characters. *)
Definition shown (v : string) : Prop := v ≠ "" ∧ RuneCount v ≤ 128.

(** The labels of a setting of the package: its own, and one for each of its options. *)
Definition setting_complete (s : LocalizedSettingPresentation) (f : SettingFieldSpec) : Prop :=
  lt_Key s = se_Key f ∧ shown (lt_Label s) ∧ map op_Value (lt_Options s) = map op_Value (se_Options f) ∧
  Forall (λ o, shown (op_Label o)) (lt_Options s).

Definition locale_complete (m : Manifest) (l : PresentationLocale) : Prop :=
  shown (pl_PluginName l) ∧ (pl_PublisherName l = "" ↔ ma_PublisherDisplayName m = "") ∧
  map ls_SurfaceID (pl_Surfaces l) = map su_SurfaceID (surfaces_of m) ∧ Forall (λ s, shown (ls_Label s)) (pl_Surfaces l) ∧
  Forall2 setting_complete (pl_Settings l) (settings_fields m).

Section props.
Context (unicode_lower : Z → Z) (IsNormalNFC : string → bool) (Fold : string → string) (language_Parse : string → option string).
Context (semver_IsValid : string → bool).
Context (unicode_IsPrint : Z → bool) {Schema : Type} (marshal : fields → Result string bytes) (CompileSchema : string → bytes → Result string Schema)
  (ValidateSchema : Schema → fields → bool).

Lemma text_shown field v : validatePresentationText IsNormalNFC field v 128 = Ok tt → shown v.
Proof. unfold validatePresentationText, empty. intros H. peels H. booly. done. Qed.

Lemma localized_surfaces field defaults localized :
  validateLocalizedSurfaces IsNormalNFC field defaults localized = Ok tt →
  (∀ k, k ∈ map su_SurfaceID defaults → k ∈ map ls_SurfaceID localized) ∧ ∀ s, s ∈ localized → shown (ls_Label s).
Proof.
  unfold validateLocalizedSurfaces. intros H. peels H. booly.
  eapply (range_loop_wanted _ ls_SurfaceID (map su_SurfaceID defaults) (λ s, shown (ls_Label s))); [|done|by rewrite length_map].
  intros i x s s' Hx. peels Hx. injection Hx as <-. booly. split_and!; [done|done| |done].
  match goal with H : validatePresentationText _ _ _ _ = Ok ?r |- _ => destruct r; by apply text_shown in H end.
Qed.

Lemma localized_options field defaults localized :
  validateLocalizedOptions IsNormalNFC field defaults localized = Ok tt → length localized = length defaults →
  (∀ k, k ∈ map op_Value defaults → k ∈ map op_Value localized) ∧ ∀ o, o ∈ localized → shown (op_Label o).
Proof.
  unfold validateLocalizedOptions. intros H Hlen. peels H.
  eapply (range_loop_wanted _ op_Value (map op_Value defaults) (λ o, shown (op_Label o))); [|done|by rewrite length_map].
  intros i x s s' Hx. peels Hx. injection Hx as <-. booly. split_and!; [done|done| |done].
  match goal with H : validatePresentationText _ _ _ _ = Ok ?r |- _ => destruct r; by apply text_shown in H end.
Qed.

(** What is checked of a localized setting, for the field of its key. *)
Definition setting_localized (fields : list SettingFieldSpec) (s : LocalizedSettingPresentation) : Prop :=
  shown (lt_Label s) ∧ ∃ f, f ∈ fields ∧ se_Key f = lt_Key s ∧
    (∀ k, k ∈ map op_Value (se_Options f) → k ∈ map op_Value (lt_Options s)) ∧ ∀ o, o ∈ lt_Options s → shown (op_Label o).

Lemma localized_settings field m localized :
  validateLocalizedSettings IsNormalNFC field (ma_Settings m) localized = Ok tt →
  (∀ k, k ∈ map se_Key (settings_fields m) → k ∈ map lt_Key localized) ∧ ∀ s, s ∈ localized → setting_localized (settings_fields m) s.
Proof.
  unfold validateLocalizedSettings, settings_fields. destruct (ma_Settings m) as [defaults|]; intros H; peels H; booly.
  - eapply (range_loop_wanted _ lt_Key (map se_Key (sg_Fields defaults))); [|done|by rewrite length_map].
    intros i x s s' Hx. peels Hx. injection Hx as <-. booly.
    match goal with H : wanted_setting _ _ = Some ?f |- _ => apply List.find_some in H as [Hf%List.in_rev Hk]; apply list_elem_of_In in Hf end. booly.
    repeat match goal with r : unit |- _ => destruct r end.
    match goal with H : validateLocalizedOptions _ _ _ _ = _ |- _ => apply localized_options in H as [? ?]; [|done] end.
    match goal with H : validatePresentationText _ _ _ _ = _ |- _ => apply text_shown in H end.
    split_and!; [rewrite <- Hk; by apply list_elem_of_fmap_2|done| |done]. split; [done|]. eauto.
  - destruct localized; [|done]. split; [done|]. by intros s ?%elem_of_nil.
Qed.

(** The fields of the package: different keys, different values of the options, and labels for these. *)
Lemma settings_options m :
  validateSettings IsNormalNFC m = Ok tt →
  Forall (λ f, NoDup (map op_Value (se_Options f)) ∧ Forall (λ o, shown (op_Label o)) (se_Options f)) (settings_fields m).
Proof.
  unfold validateSettings, settings_fields. destruct (ma_Settings m) as [settings|]; [|constructor]. intros H. peels H.
  eapply range_loop_forall; [|exact E0]. intros i f s s' Hf. peels Hf.
  match goal with H : range_loop _ _ (se_Options f) _ = Ok _ |- _ => rename H into Ho end. split.
  - eapply range_loop_seen; [|exact Ho]. intros j x t t' Hx. peels Hx. injection Hx as <-. booly. done.
  - eapply range_loop_forall; [|exact Ho]. intros j x t t' Hx. peels Hx. repeat match goal with r : unit |- _ => destruct r end.
    by eapply text_shown.
Qed.

(** ** The catalog *)

Lemma default_complete m :
  validateSettings IsNormalNFC m = Ok tt → validatePresentation unicode_lower IsNormalNFC Fold language_Parse m = Ok tt → locale_complete m (defaultLocale m).
Proof.
  intros Hsettings%settings_options H. unfold validatePresentation in H. peels H. repeat match goal with r : unit |- _ => destruct r end.
  unfold locale_complete, defaultLocale. cbn [pl_PluginName pl_PublisherName pl_Surfaces pl_Settings]. rewrite map_map. cbn [ls_SurfaceID].
  match goal with H : each _ (surfaces_of m) = _ |- _ => eapply each_forall in H; [|intros i x Hx; exact (text_shown _ _ Hx)]; rename H into Hs end.
  match goal with H : match ma_Settings m with Some _ => _ | None => _ end = _ |- _ => rename H into Hl end.
  assert (Forall (λ f, shown (se_Label f)) (settings_fields m)) as Hlabels.
  { unfold settings_fields. destruct (ma_Settings m); [|constructor]. by eapply each_forall in Hl; [|intros i x Hx; exact (text_shown _ _ Hx)]. }
  split_and!; [by eapply text_shown|done|done| |].
  - apply Forall_map. exact Hs.
  - rewrite Forall_forall in Hsettings. rewrite Forall_forall in Hlabels. clear -Hsettings Hlabels. revert Hsettings Hlabels.
    induction (settings_fields m) as [|f fs IH]; intros Hs Hl; [constructor|]. constructor.
    + split_and!; [done|by apply Hl; left|done|by apply Hs; left].
    + apply IH; intros x Hx; [by apply Hs; right|by apply Hl; right].
Qed.

Lemma localized_complete m i l s s' :
  validateLocalization IsNormalNFC Fold language_Parse m i l s = Ok s' → NoDup (map se_Key (settings_fields m)) →
  (canonical language_Parse (lo_Locale l) = true ∧ lo_Locale l ∉ s ∧ s' = lo_Locale l :: s) ∧ locale_complete m (localizedLocale m l).
Proof.
  unfold validateLocalization. intros H Hnd. peels H. injection H as <-. booly. repeat match goal with r : unit |- _ => destruct r end. split; [done|].
  unfold locale_complete, localizedLocale. cbn [pl_PluginName pl_PublisherName pl_Surfaces pl_Settings]. rewrite map_map. cbn [ls_SurfaceID].
  match goal with H : validateLocalizedSurfaces _ _ _ _ = _ |- _ => apply localized_surfaces in H as [Hsin Hsl] end.
  match goal with H : validateLocalizedSettings _ _ _ _ = _ |- _ => apply localized_settings in H as [Htin Htl] end.
  match goal with H : (if empty _ then _ else _) = Ok tt |- _ => rename H into Hpub end.
  split_and!; [by eapply text_shown| |done| |].
  - unfold empty in Hpub. destruct (bool_decide (ma_PublisherDisplayName m = "")) eqn:Hd; booly.
    + peels Hpub. by booly.
    + apply text_shown in Hpub as [? _]. done.
  - apply Forall_map, Forall_forall. intros x Hx. apply (label_of_in ls_SurfaceID ls_Label (lo_Surfaces l) shown); [|done].
    by apply Hsin, list_elem_of_fmap_2.
  - assert (∀ fs, (∀ f, f ∈ fs → f ∈ settings_fields m) → Forall2 setting_complete
      (map (λ f, mkLocalizedSetting (se_Key f) (label_of lt_Key lt_Label (lo_Settings l) (se_Key f))
        (map (λ o, mkOption (op_Value o) (label_of op_Value op_Label (options_of (lo_Settings l) (se_Key f)) (op_Value o))) (se_Options f))) fs) fs) as Hall; [|by apply Hall].
    induction fs as [|f fs IH]; intros Hfs; [constructor|]. constructor; [|apply IH; intros; apply Hfs; by right].
    assert (f ∈ settings_fields m) as Hf by (apply Hfs; by left).
    assert (se_Key f ∈ map lt_Key (lo_Settings l)) as Hk by by apply Htin, list_elem_of_fmap_2.
    unfold setting_complete. cbn [lt_Key lt_Label lt_Options]. rewrite map_map. cbn [op_Value]. split_and!; [done| |done|].
    + apply (label_of_in lt_Key lt_Label (lo_Settings l) shown); [done|]. intros x Hx. by destruct (Htl x Hx).
    + apply Forall_map, Forall_forall. intros o Ho. unfold options_of. destruct (find_last _ _ _ Hk) as (x & Hx & Hkx & ->).
      destruct (Htl x Hx) as (_ & f' & Hf' & Hk' & Hoin & Hol).
      assert (f' = f) as -> by (eapply (NoDup_key_inj se_Key); [done|done|done|congruence]).
      apply (label_of_in op_Value op_Label (lt_Options x) shown); [|done]. by apply Hoin, list_elem_of_fmap_2.
Qed.

Definition presentation_complete (m : Manifest) : Prop :=
  let c := PresentationCatalog_of m in
  NoDup (map pl_Locale (ct_Locales c)) ∧ (length (ct_Locales c) ≤ maxPresentationLocales)%nat ∧ Forall (locale_complete m) (ct_Locales c) ∧
  ∀ requested, let l := rs_Resolved (ResolvePresentation language_Parse c requested) in
    l ∈ ct_Locales c ∧ (requested ∈ map pl_Locale (ct_Locales c) → pl_Locale l = requested).

Lemma by_locale_in c name l : by_locale c name = Some l → l ∈ ct_Locales c ∧ pl_Locale l = name.
Proof. intros [H Hn]%List.find_some. apply List.in_rev in H. apply bool_decide_eq_true in Hn. split; [by apply list_elem_of_In|done]. Qed.

Lemma by_locale_some c name : name ∈ map pl_Locale (ct_Locales c) → ∃ l, by_locale c name = Some l ∧ l ∈ ct_Locales c ∧ pl_Locale l = name.
Proof. intros (l & Hin & Hn & Hf)%find_last. exists l. done. Qed.

Lemma first_locale_in c names l : first_locale c names = Some l → l ∈ ct_Locales c.
Proof.
  induction names as [|n names IH]; [done|]. cbn [first_locale]. destruct (by_locale c n) as [l'|] eqn:H; [|done].
  intros [= <-]. by apply by_locale_in in H as [? _].
Qed.

(** The answer to a request, in a catalog with its default locale. *)
Lemma resolved_in c requested :
  ct_DefaultLocale c ∈ map pl_Locale (ct_Locales c) → (∀ k, k ∈ map pl_Locale (ct_Locales c) → canonical language_Parse k = true) →
  let l := rs_Resolved (ResolvePresentation language_Parse c requested) in
  l ∈ ct_Locales c ∧ (requested ∈ map pl_Locale (ct_Locales c) → pl_Locale l = requested).
Proof.
  intros (d & Hd & Hdin & _)%by_locale_some Hcan. unfold ResolvePresentation. rewrite Hd. cbn [default id]. split.
  - destruct (canonicalLocale _ _) as [r|]; cbn [rs_Resolved]; [|done].
    destruct (first_locale c _) as [l|] eqn:Hf; cbn [default id]; [by eapply first_locale_in|done].
  - intros Hr. specialize (Hcan _ Hr). unfold canonical in Hcan. apply bool_decide_eq_true in Hcan. rewrite Hcan. cbn [rs_Resolved].
    destruct (candidates_head requested) as [rest ->]. cbn [first_locale]. by destruct (by_locale_some _ _ Hr) as (l & -> & _ & ?).
Qed.

(** C32: For a validated manifest the catalog of its presentation is complete:
    its locales are different and at most 16, and each of them has a label for
    every surface, every setting and every option of the package and no other,
    none empty and none of more than 128 characters, and a publisher exactly
    when the package has one. A request is answered with a locale of the
    catalog, and a locale of the catalog is answered with itself. *)
Theorem validated_presentation_complete m :
  Validate unicode_lower IsNormalNFC Fold language_Parse semver_IsValid unicode_IsPrint marshal CompileSchema ValidateSchema m = Ok tt → presentation_complete m.
Proof.
  unfold Validate, validate. intros H.
  apply rbind_ok in H as ([] & _ & H). do 3 apply rbind_ok in H as (? & _ & H). do 3 apply rbind_ok in H as ([] & _ & H). apply rbind_ok in H as (? & _ & H).
  apply rbind_ok in H as ([] & Hsettings & H). do 7 apply rbind_ok in H as ([] & _ & H).
  pose proof (validateSettings_ok _ _ Hsettings) as Hnd. pose proof (default_complete _ Hsettings H) as Hdefault.
  unfold validatePresentation in H. peels H. booly.
  match goal with H : range_loop _ _ (pp_Localizations _) _ = Ok _ |- _ => rename H into Hl end.
  unfold presentation_complete. set (p := ma_Presentation m) in *.
  assert (∀ l, l ∈ pp_Localizations p → canonical language_Parse (lo_Locale l) = true ∧ locale_complete m (localizedLocale m l)) as Hall.
  { apply Forall_forall. eapply range_loop_forall; [|exact Hl]. intros i l s s' Hx. by apply localized_complete in Hx as [(? & _ & _) ?]. }
  eapply (range_loop_seen _ lo_Locale) in Hl as (Hnodup & _ & Hnew); [|intros i l s s' Hx; by apply localized_complete in Hx as [(_ & ? & ?) _]].
  assert (merge_sort locale_le (pp_Localizations p) ≡ₚ pp_Localizations p) as Hperm by apply merge_sort_Permutation.
  assert (map pl_Locale (ct_Locales (PresentationCatalog_of m)) ≡ₚ pp_DefaultLocale p :: map lo_Locale (pp_Localizations p)) as Hlocales.
  { unfold PresentationCatalog_of. cbn [ct_Locales map]. rewrite map_map. cbn [pl_Locale localizedLocale defaultLocale]. constructor.
    apply (fmap_Permutation lo_Locale). exact Hperm. }
  split; [|split; [|split]].
  - rewrite Hlocales. constructor; [|done]. intros (l & Heq & Hin)%list_elem_of_fmap. apply (Hnew l Hin). rewrite <- Heq. by left.
  - unfold PresentationCatalog_of. cbn [ct_Locales length]. rewrite length_map. fold p. rewrite Hperm. lia.
  - unfold PresentationCatalog_of. cbn [ct_Locales]. constructor; [done|]. apply Forall_map, Forall_forall. fold p. intros l Hin. apply Hall.
    by rewrite Hperm in Hin.
  - intros requested. apply resolved_in.
    + rewrite Hlocales. by left.
    + intros k. rewrite Hlocales. intros [->|(l & -> & Hin)%list_elem_of_fmap]%elem_of_cons; [done|]. by apply Hall.
Qed.
End props.

Lemma validated_presentation_complete_witness : demo_Validate demo_manifest = Ok tt ∧ presentation_complete demo_Parse demo_manifest.
Proof.
  assert (demo_Validate demo_manifest = Ok tt) as H by (vm_compute; reflexivity). split; [exact H|].
  exact (validated_presentation_complete (λ r, r) (λ _, true) (λ s, s) demo_Parse (λ _, true) (λ _, true) (λ _, Ok []) (λ name _, Ok name) (λ _ _, true) demo_manifest H).
Defined.

Example resolve_fr :
  map (λ l, rs_Resolved (ResolvePresentation (λ tag, if bool_decide (tag = "") then None else Some tag) (PresentationCatalog_of demo_manifest) l))
    ["fr-CA-x-old"; "de"; "en-GB"] =
  [localizedLocale demo_manifest (List.hd (mkLocalization "" "" "" "" [] [] [] [] []) (pp_Localizations (ma_Presentation demo_manifest)));
   defaultLocale demo_manifest; defaultLocale demo_manifest].
Proof. vm_compute. reflexivity. Qed.
