(* ===== verification/IntervalStore.v ===== *)
(** * Plans of periodic workers ([internal/controlstore/background_interval.go])

    A package with an interval has one row in [background_intervals], which
    says when its method is due and who has claimed it. [ReconcileIntervals]
    derives the rows from the installed packages, [ClaimInterval] takes a due
    row for the package it was made for, [FinishInterval] and
    [RecoverIntervalClaims] give it back for its next period. A statement of SQL
    is its effect on the two tables with their keys, checks and cascade; how the
    database answers a write is a parameter of the call. The record of a package
    is kept as what decoding its JSON gives. The joined keys of the maps are the
    pairs of the tables, as the ids have no NUL byte. *)

From S2P Require Import Prelude GoLib SessionCtx Registry Lease Encoding Json NetIP ConnectionStore Manifest ManifestChecks.

Open Scope go_scope.
Open Scope Z_scope.

(** ** Packages *)

Record PackageSourceProvenance := mkProvenance {
  pv_Kind : PackageSourceKind;
  pv_UploadID : string;
  pv_SourceOrigin : string;
  pv_SourceURL : string;
  pv_FinalURL : string;
  pv_RedirectChain : list (string * string);
  pv_RepositoryURL : string;
  pv_GitHubRepositoryID : string;
  pv_GitHubReleaseID : string;
  pv_GitHubAssetID : string;
  pv_GitHubOwner : string;
  pv_GitHubRepository : string;
  pv_ReleaseTag : string;
  pv_AssetName : string;
  pv_PackageSHA256 : string;
  pv_SourceReference : string;
  pv_SourcePath : string;
  pv_ResolvedRevision : string;
  pv_CatalogEntryID : string;
  pv_RetrievedAt : time;
}.

(** [hex.DecodeString] gives [n] bytes. *)
Definition hex_of (n : nat) (s : string) : bool :=
  (length (text s) =? 2 * n)%nat && forallb (λ c, byte_in 48 57 c || byte_in 97 102 c || byte_in 65 70 c) (text s).

Definition upper_ASCII (c : Ascii.ascii) : bool := byte_in 65 90 c.

(** The id of an upload is ASCII when its digits are, so that [strings.ToLower]
    keeps it exactly when it has no letter in upper case. *)
Definition validPackageSourceProvenance (v : PackageSourceProvenance) : bool :=
  if negb (validPackageSourceKind (pv_Kind v)) then false
  else if negb (bool_decide (pv_Kind v = "package_upload")) then empty (pv_UploadID v)
  else match strip_prefix (text "upload_") (text (pv_UploadID v)) with
  | None => false
  | Some id =>
     (length id =? 32)%nat && hex_of 16 (of_text id) && negb (existsb upper_ASCII (text (pv_UploadID v))) &&
     negb (blank (pv_PackageSHA256 v)) && (0 <? UnixNano (pv_RetrievedAt v)) &&
     forallb empty [pv_SourceOrigin v; pv_SourceURL v; pv_FinalURL v; pv_RepositoryURL v; pv_GitHubRepositoryID v; pv_GitHubReleaseID v;
       pv_GitHubAssetID v; pv_GitHubOwner v; pv_GitHubRepository v; pv_ReleaseTag v; pv_AssetName v; pv_SourceReference v; pv_SourcePath v;
       pv_ResolvedRevision v; pv_CatalogEntryID v] &&
     (length (pv_RedirectChain v) =? 0)%nat
  end.

(** What is read of the record of a plugin; its owner is a column of its row. *)
Record PackageRecord := mkPackageRecord {
  pk_OwnerEnvHash : string;
  pk_PluginInstanceID : string;
  pk_ActiveFingerprint : string;
  pk_Revisions : AuthorizationRevisions;
  pk_EnableState : EnableState;
  pk_DeletedAt : option time;
  pk_PackageSourceProvenance : PackageSourceProvenance;
  pk_ApprovalStatus : ExecutionApprovalStatus;
  pk_Manifest : Manifest;
}.

Definition RunnablePluginRecord (r : PackageRecord) : bool :=
  if existsb (λ s, empty (we_Root (su_Web s))) (surfaces_of (pk_Manifest r)) then false
  else if negb (validPackageSourceProvenance (pk_PackageSourceProvenance r)) || negb (validExecutionApprovalStatus (pk_ApprovalStatus r)) then false
  else bool_decide (pk_ApprovalStatus r = ExecutionApprovalUserApproved) || bool_decide (pk_ApprovalStatus r = ExecutionApprovalPolicyApproved).

(** ** The two tables *)

(** The primary key of both: the environment and the plugin instance. *)
Notation package_key := (string * string)%type.

(** A row of [plugin_records]: [rw_Strategy] is the text [json_extract] finds. *)
Record PackageRow := mkPackageRow {
  rw_ActiveFingerprint : string;
  rw_Revisions : AuthorizationRevisions;
  rw_State : EnableState;
  rw_Deleted : bool;
  rw_Strategy : option string;
  rw_Record : Result nat PackageRecord;
}.

(** A row of [background_intervals]; times are in milliseconds. *)
Record IntervalRow := mkIntervalRow {
  ir_ActiveFingerprint : string;
  ir_Revisions : AuthorizationRevisions;
  ir_IntervalMS : Z;
  ir_MaxRuntimeMS : Z;
  ir_NextRun : Z;
  ir_ClaimID : string;
  ir_ClaimedAt : Z;
  ir_FinishedAt : Z;
  ir_Outcome : string;
}.

Record IntervalDB := mkIntervalDB {
  db_packages : gmap package_key PackageRow;
  db_intervals : gmap package_key IntervalRow;
}.

Definition with_intervals (s : IntervalDB) (rows : gmap package_key IntervalRow) : IntervalDB := mkIntervalDB (db_packages s) rows.

Record IntervalPlan := mkPlan {
  pl_OwnerEnvHash : string;
  pl_PluginInstanceID : string;
  pl_ActiveFingerprint : string;
  pl_Revisions : AuthorizationRevisions;
  pl_IntervalMS : Z;
  pl_MaxRuntimeMS : Z;
  pl_NextRun : time;
  pl_ClaimID : string;
  pl_ClaimedAt : time;
  pl_FinishedAt : time;
  pl_Outcome : string;
}.

#[export] Instance IntervalPlan_eq_dec : EqDecision IntervalPlan.
Proof. solve_decision. Defined.

Definition plan_key (p : IntervalPlan) : package_key := (pl_OwnerEnvHash p, pl_PluginInstanceID p).

Inductive IntervalError :=
| IntervalsBlocked                    (* [ErrRequestsBlocked] *)
| IntervalConflict                    (* [ErrRevisionConflict] *)
| IntervalIncompatible (what : string)  (* wraps [ErrIncompatible] *)
| IntervalRequires (what : string)
| IntervalConstraint                  (* a check of the table *)
| IntervalDatabase (e : nat)
| IntervalDecode (e : nat)
| IntervalRandom (e : nat).

(** A write of the database, and the answer when it works. *)
Definition write {A} (db : Database) (written current : IntervalDB) (answer : A) : IntervalDB * Result IntervalError A :=
  match db with
  | DatabaseWorks => (written, Ok answer)
  | DatabaseRefuses e => (current, Err (IntervalDatabase e))
  | CommitFails done e => (if done then written else current, Err (IntervalDatabase e))
  end.

(** ** Reading plans *)

Definition plan_of (k : package_key) (row : IntervalRow) : IntervalPlan :=
  mkPlan k.1 k.2 (ir_ActiveFingerprint row) (ir_Revisions row) (ir_IntervalMS row) (ir_MaxRuntimeMS row) (UnixMilli (ir_NextRun row))
    (ir_ClaimID row) (if ir_ClaimedAt row =? 0 then 0 else UnixMilli (ir_ClaimedAt row))
    (if ir_FinishedAt row =? 0 then 0 else UnixMilli (ir_FinishedAt row)) (ir_Outcome row).

Definition interval_outcomes : list string := [""; "success"; "failed"; "unknown"; "blocked"; "canceled"].

Definition limits_ok (interval maxRuntime : Z) : bool :=
  (1000 <=? interval) && (interval <=? 86400000) && (1 <=? maxRuntime) && (maxRuntime <=? 300000) && (maxRuntime <=? interval).

Definition validateIntervalPlan (p : IntervalPlan) : bool :=
  negb (empty (pl_OwnerEnvHash p) || empty (pl_PluginInstanceID p) || empty (pl_ActiveFingerprint p) || (ManagementRevision (pl_Revisions p) =? 0) ||
    negb (limits_ok (pl_IntervalMS p) (pl_MaxRuntimeMS p)) || (to_UnixMilli (pl_NextRun p) <=? 0)) &&
  (empty (pl_ClaimID p) || (hex_of 24 (pl_ClaimID p) && negb (IsZero (pl_ClaimedAt p)))) &&
  bool_decide (pl_Outcome p ∈ interval_outcomes).

(** [ORDER BY owner_env_hash,plugin_instance_id] *)
Definition key_le (a b : package_key * IntervalRow) : Prop := String.le a.1.1 b.1.1 ∧ (a.1.1 = b.1.1 → String.le a.1.2 b.1.2).

#[export] Instance key_le_dec : RelDecision key_le.
Proof. intros a b. unfold key_le. apply _. Defined.

(** [fails] is the error of the query, if it has one. *)
Definition readIntervalPlans (fails : option nat) (where_ : package_key → bool) (s : IntervalDB) : Result IntervalError (list IntervalPlan) :=
  match fails with
  | Some e => Err (IntervalDatabase e)
  | None =>
     let plans := map (λ kv, plan_of kv.1 kv.2) (List.filter (λ kv, where_ kv.1) (merge_sort key_le (map_to_list (db_intervals s)))) in
     if forallb validateIntervalPlan plans then Ok plans else Err (IntervalIncompatible "invalid durable interval state")
  end.

Definition IntervalPlans (ready : bool) (fails : option nat) (s : IntervalDB) : Result IntervalError (list IntervalPlan) :=
  guard! ready else IntervalsBlocked in readIntervalPlans fails (λ _, true) s.

Definition OwnerIntervalPlans (ready : bool) (fails : option nat) (owner : string) (s : IntervalDB) : Result IntervalError (list IntervalPlan) :=
  guard! ready else IntervalsBlocked in
  guard! negb (empty owner) else IntervalRequires "interval owner is required" in
  readIntervalPlans fails (λ k, bool_decide (k.1 = owner)) s.

(** ** Deriving plans from packages *)

Definition entry_of (r : PackageRecord) : option BackgroundSpec :=
  match ma_Background (pk_Manifest r) with
  | Some entry => if bool_decide (bg_Strategy entry = BackgroundInterval) then Some entry else None
  | None => None
  end.

(** The rows the query finds. *)
Definition interval_package (row : PackageRow) : bool :=
  bool_decide (rw_State row = EnableEnabled) && negb (rw_Deleted row) && bool_decide (rw_Strategy row = Some BackgroundInterval).

(** The records of these rows that are to run, with their entries. The order of
    the rows decides which of two errors is returned, and nothing else. *)
Fixpoint interval_records (rows : list (package_key * PackageRow)) : Result IntervalError (list (package_key * PackageRecord * BackgroundSpec)) :=
  match rows with
  | [] => Ok []
  | (k, row) :: rows =>
     if negb (interval_package row) then interval_records rows
     else match rw_Record row with
     | Err e => Err (IntervalDecode e)
     | Ok r =>
        if negb (bool_decide (pk_PluginInstanceID r = k.2)) || negb (bool_decide (pk_ActiveFingerprint r = rw_ActiveFingerprint row)) ||
           negb (bool_decide (pk_Revisions r = rw_Revisions row)) || negb (bool_decide (pk_EnableState r = EnableEnabled)) ||
           bool_decide (is_Some (pk_DeletedAt r))
        then Err (IntervalIncompatible "interval package binding is inconsistent")
        else
          let? rest := interval_records rows in
          match entry_of r with
          | Some entry => if RunnablePluginRecord r then Ok ((k, r, entry) :: rest) else Ok rest
          | None => Ok rest
          end
     end
  end.

Definition same_binding (row : IntervalRow) (r : PackageRecord) : bool :=
  bool_decide (ir_ActiveFingerprint row = pk_ActiveFingerprint r) && bool_decide (ir_Revisions row = pk_Revisions r).

(** [time.Duration(ms)*time.Millisecond] later. *)
Definition after_ms (now : time) (ms : Z) : time := now + ms * 1000000.

(** The row that is inserted, or replaces one of another binding. *)
Definition fresh_row (now : time) (r : PackageRecord) (entry : BackgroundSpec) : IntervalRow :=
  mkIntervalRow (pk_ActiveFingerprint r) (pk_Revisions r) (bg_IntervalMS entry) (bg_MaxRuntimeMS entry)
    (to_UnixMilli (after_ms now (bg_IntervalMS entry))) "" 0 0 "".

(** One record of the loop. *)
Definition upsert (now : time) (record : package_key * PackageRecord * BackgroundSpec) (rows : gmap package_key IntervalRow) :
    Result IntervalError (gmap package_key IntervalRow) :=
  let '(k, r, entry) := record in
  let insert := guard! limits_ok (bg_IntervalMS entry) (bg_MaxRuntimeMS entry) else IntervalConstraint in Ok (<[k := fresh_row now r entry]> rows) in
  match rows !! k with
  | None => insert
  | Some row =>
     if same_binding row r then
       guard! bool_decide (ir_IntervalMS row = bg_IntervalMS entry) && bool_decide (ir_MaxRuntimeMS row = bg_MaxRuntimeMS entry)
         else IntervalIncompatible "interval limits differ from installed package" in
       Ok rows
     else insert
  end.

Fixpoint upsert_all (now : time) (records : list (package_key * PackageRecord * BackgroundSpec)) (rows : gmap package_key IntervalRow) :
    Result IntervalError (gmap package_key IntervalRow) :=
  match records with
  | [] => Ok rows
  | record :: records => let? rows := upsert now record rows in upsert_all now records rows
  end.

Definition ReconcileIntervals (ready : bool) (now : time) (fails : option nat) (db : Database) (s : IntervalDB) : IntervalDB * Result IntervalError unit :=
  let result :=
    guard! ready else IntervalsBlocked in
    guard! negb (IsZero now) else IntervalRequires "interval reconciliation requires time" in
    let? records := match fails with Some e => Err (IntervalDatabase e) | None => interval_records (map_to_list (db_packages s)) end in
    let? plans := readIntervalPlans None (λ _, true) s in
    let? rows := upsert_all now records (db_intervals s) in
    Ok (foldl (λ rows p, if bool_decide (plan_key p ∈ map (λ r, r.1.1) records) then rows else delete (plan_key p) rows) rows plans) in
  match result with
  | Err e => (s, Err e)
  | Ok rows => write db (with_intervals s rows) s tt
  end.

(** ** Claims *)

(** The columns of a plan that a statement compares. *)
Definition plan_matches (p : IntervalPlan) (row : IntervalRow) : bool :=
  bool_decide (ir_ActiveFingerprint row = pl_ActiveFingerprint p) && bool_decide (ir_Revisions row = pl_Revisions p) &&
  (ir_IntervalMS row =? pl_IntervalMS p) && (ir_MaxRuntimeMS row =? pl_MaxRuntimeMS p).

(** The package the row was made for is still installed and enabled. *)
Definition package_current (row : IntervalRow) (package : option PackageRow) : bool :=
  match package with
  | Some p =>
     bool_decide (rw_ActiveFingerprint p = ir_ActiveFingerprint row) && bool_decide (rw_Revisions p = ir_Revisions row) &&
     bool_decide (rw_State p = EnableEnabled) && negb (rw_Deleted p)
  | None => false
  end.

Definition ValidateIntervalClaim (ready : bool) (fails : option nat) (p : IntervalPlan) (s : IntervalDB) : Result IntervalError unit :=
  guard! ready else IntervalsBlocked in
  guard! negb (empty (pl_ClaimID p)) else IntervalConflict in
  match fails with
  | Some e => Err (IntervalDatabase e)
  | None =>
     match db_intervals s !! plan_key p with
     | Some row => guard! plan_matches p row && bool_decide (ir_ClaimID row = pl_ClaimID p) else IntervalConflict in Ok tt
     | None => Err IntervalConflict
     end
  end.

Definition claimed (row : IntervalRow) (id : string) (at_ : Z) : IntervalRow :=
  mkIntervalRow (ir_ActiveFingerprint row) (ir_Revisions row) (ir_IntervalMS row) (ir_MaxRuntimeMS row) (ir_NextRun row) id at_ (ir_FinishedAt row)
    (ir_Outcome row).

Definition with_claim (p : IntervalPlan) (id : string) (now : time) : IntervalPlan :=
  mkPlan (pl_OwnerEnvHash p) (pl_PluginInstanceID p) (pl_ActiveFingerprint p) (pl_Revisions p) (pl_IntervalMS p) (pl_MaxRuntimeMS p) (pl_NextRun p)
    id now (pl_FinishedAt p) (pl_Outcome p).

(** The row may be claimed for the plan. *)
Definition claimable (p : IntervalPlan) (now : time) (row : IntervalRow) (package : option PackageRow) : bool :=
  plan_matches p row && (ir_NextRun row =? to_UnixMilli (pl_NextRun p)) && empty (ir_ClaimID row) && (ir_NextRun row <=? to_UnixMilli now) &&
  package_current row package.

(** [nonce] are the 24 bytes [rand.Read] gives. *)
Definition ClaimInterval (ready : bool) (nonce : Result nat string) (p : IntervalPlan) (now : time) (db : Database) (s : IntervalDB) :
    IntervalDB * Result IntervalError (IntervalPlan * bool) :=
  if negb ready then (s, Err IntervalsBlocked)
  else if IsZero now then (s, Err (IntervalRequires "interval claim requires time"))
  else match nonce with
  | Err e => (s, Err (IntervalRandom e))
  | Ok nonce =>
     let p := with_claim p (hex_encode nonce) now in
     let k := plan_key p in
     match db_intervals s !! k with
     | Some row =>
        if claimable p now row (db_packages s !! k)
        then write db (with_intervals s (<[k := claimed row (pl_ClaimID p) (to_UnixMilli now)]> (db_intervals s))) s (p, true)
        else write db s s (p, false)
     | None => write db s s (p, false)
     end
  end.

Definition finished (row : IntervalRow) (now : time) (interval : Z) (outcome : string) : IntervalRow :=
  mkIntervalRow (ir_ActiveFingerprint row) (ir_Revisions row) (ir_IntervalMS row) (ir_MaxRuntimeMS row) (to_UnixMilli (after_ms now interval)) ""
    (ir_ClaimedAt row) (to_UnixMilli now) outcome.

Definition FinishInterval (ready : bool) (p : IntervalPlan) (now : time) (outcome : string) (db : Database) (s : IntervalDB) :
    IntervalDB * Result IntervalError bool :=
  if negb ready then (s, Err IntervalsBlocked)
  else if empty (pl_ClaimID p) || IsZero now then (s, Err (IntervalRequires "interval completion requires claim and time"))
  else match db_intervals s !! plan_key p with
  | Some row =>
     if plan_matches p row && bool_decide (ir_ClaimID row = pl_ClaimID p) then
       if bool_decide (outcome ∈ interval_outcomes)
       then write db (with_intervals s (<[plan_key p := finished row now (pl_IntervalMS p) outcome]> (db_intervals s))) s true
       else (s, Err IntervalConstraint)
     else write db s s false
  | None => write db s s false
  end.

(** [?+interval_ms]: the recovered row. *)
Definition recovered (now : time) (row : IntervalRow) : IntervalRow :=
  if empty (ir_ClaimID row) then row
  else mkIntervalRow (ir_ActiveFingerprint row) (ir_Revisions row) (ir_IntervalMS row) (ir_MaxRuntimeMS row) (to_UnixMilli now + ir_IntervalMS row) ""
    (ir_ClaimedAt row) (to_UnixMilli now) "unknown".

Definition RecoverIntervalClaims (ready : bool) (now : time) (fails : option nat) (db : Database) (s : IntervalDB) : IntervalDB * Result IntervalError unit :=
  if negb ready then (s, Err IntervalsBlocked)
  else if IsZero now then (s, Err (IntervalRequires "interval recovery requires time"))
  else match readIntervalPlans fails (λ _, true) s with
  | Err e => (s, Err e)
  | Ok _ => write db (with_intervals s (recovered now <$> db_intervals s)) s tt
  end.

(** ** Runs *)

(** The calls on the store, and what the registry does to the packages: rows
    are written, and removed with the plans of their packages. *)
Inductive IntervalOp :=
| OpReconcile (now : time) (fails : option nat) (db : Database)
| OpClaim (nonce : Result nat string) (p : IntervalPlan) (now : time) (db : Database)
| OpFinish (p : IntervalPlan) (now : time) (outcome : string) (db : Database)
| OpRecover (now : time) (fails : option nat) (db : Database)
| OpInstall (k : package_key) (row : PackageRow)
| OpRemove (k : package_key).

(** What the caller of an operation learns and acts on. *)
Inductive IntervalEvent :=
| Granted (p : IntervalPlan) (at_ : Z)
| Finished (p : IntervalPlan) (at_ : Z).

Definition interval_step (op : IntervalOp) (s : IntervalDB) : IntervalDB * list IntervalEvent :=
  match op with
  | OpReconcile now fails db => ((ReconcileIntervals true now fails db s).1, [])
  | OpClaim nonce p now db =>
     match ClaimInterval true nonce p now db s with
     | (s, Ok (p, true)) => (s, [Granted p (to_UnixMilli now)])
     | (s, _) => (s, [])
     end
  | OpFinish p now outcome db =>
     match FinishInterval true p now outcome db s with
     | (s, Ok true) => (s, [Finished p (to_UnixMilli now)])
     | (s, _) => (s, [])
     end
  | OpRecover now fails db => ((RecoverIntervalClaims true now fails db s).1, [])
  | OpInstall k row => (mkIntervalDB (<[k := row]> (db_packages s)) (db_intervals s), [])
  | OpRemove k => (mkIntervalDB (delete k (db_packages s)) (delete k (db_intervals s)), [])
  end.

(** The events are the latest first. *)
Fixpoint interval_run (ops : list IntervalOp) (s : IntervalDB) (events : list IntervalEvent) : IntervalDB * list IntervalEvent :=
  match ops with
  | [] => (s, events)
  | op :: ops => let (s, new) := interval_step op s in interval_run ops s (new ++ events)
  end.

Definition op_time (op : IntervalOp) : option time :=
  match op with
  | OpReconcile now _ _ | OpClaim _ _ now _ | OpFinish _ now _ _ | OpRecover now _ _ => Some now
  | _ => None
  end.

Definition op_claim (op : IntervalOp) : option string := match op with OpClaim (Ok nonce) _ _ _ => Some (hex_encode nonce) | _ => None end.

(** The clock does not go back. *)
Fixpoint clock_from (t : Z) (ops : list IntervalOp) : Prop :=
  match ops with
  | [] => True
  | op :: ops => match op_time op with Some now => t ≤ to_UnixMilli now ∧ clock_from (to_UnixMilli now) ops | None => clock_from t ops end
  end.

Definition claim_ids (ops : list IntervalOp) : list string := omap op_claim ops.

Definition NewIntervalDB : IntervalDB := mkIntervalDB ∅ ∅.

Definition granted_of (e : IntervalEvent) : option (IntervalPlan * Z) := match e with Granted p t => Some (p, t) | _ => None end.
Definition finished_of (e : IntervalEvent) : option string := match e with Finished p _ => Some (pl_ClaimID p) | _ => None end.

(** ** The invariant *)

(** Between a claim and the next one of the same package lies the interval of the next one. *)
Definition apart (later earlier : IntervalPlan * Z) : Prop :=
  plan_key later.1 = plan_key earlier.1 → earlier.2 + pl_IntervalMS later.1 ≤ later.2.

(** A row that is free is not due before its interval has passed since the claim. *)
Definition row_after (row : IntervalRow) (t : Z) : Prop := ir_ClaimID row ≠ "" ∨ t + ir_IntervalMS row ≤ ir_NextRun row.

Record interval_inv (used : list string) (clock : Z) (s : IntervalDB) (events : list IntervalEvent) : Prop := {
  inv_limits : ∀ k row, db_intervals s !! k = Some row → limits_ok (ir_IntervalMS row) (ir_MaxRuntimeMS row) = true;
  inv_used : ∀ k row, db_intervals s !! k = Some row → ir_ClaimID row ≠ "" → ir_ClaimID row ∈ used;
  inv_clock : ∀ g, g ∈ omap granted_of events → g.2 ≤ clock;
  inv_row : ∀ g row, g ∈ omap granted_of events → db_intervals s !! plan_key g.1 = Some row → row_after row g.2;
  inv_apart : ForallOrdPairs apart (omap granted_of events);
  inv_limits_granted : ∀ g, g ∈ omap granted_of events → limits_ok (pl_IntervalMS g.1) (pl_MaxRuntimeMS g.1) = true;
  inv_ended_used : ∀ id, id ∈ omap finished_of events → id ∈ used ∧ id ≠ "";
  inv_ended : ∀ id k row, id ∈ omap finished_of events → db_intervals s !! k = Some row → ir_ClaimID row ≠ id;
  inv_once : NoDup (omap finished_of events);
  inv_unique : ∀ k1 k2 row1 row2, db_intervals s !! k1 = Some row1 → db_intervals s !! k2 = Some row2 →
    ir_ClaimID row1 ≠ "" → ir_ClaimID row1 = ir_ClaimID row2 → k1 = k2;
}.

(** ** What an operation does to the rows *)

Lemma to_UnixMilli_after now ms : to_UnixMilli (after_ms now ms) = to_UnixMilli now + ms.
Proof. unfold to_UnixMilli, after_ms. replace (now + ms * 1000000 - unix_epoch) with (now - unix_epoch + ms * 1000000) by lia. by rewrite Z.div_add. Qed.

(** A row stays as it is, or is free and due one interval from now. *)
Definition rows_evolve (now : time) (rows rows' : gmap package_key IntervalRow) : Prop :=
  ∀ k row, rows' !! k = Some row → rows !! k = Some row ∨
    (ir_ClaimID row = "" ∧ limits_ok (ir_IntervalMS row) (ir_MaxRuntimeMS row) = true ∧ ir_NextRun row = to_UnixMilli now + ir_IntervalMS row).

Definition evolves (now : time) (s s' : IntervalDB) : Prop := rows_evolve now (db_intervals s) (db_intervals s').

Lemma rows_evolve_refl now rows : rows_evolve now rows rows.
Proof. intros k row Hk. by left. Qed.

Lemma rows_evolve_trans now a b c : rows_evolve now a b → rows_evolve now b c → rows_evolve now a c.
Proof. intros Hab Hbc k row [H|H]%Hbc; [by apply Hab|by right]. Qed.

Lemma rows_evolve_delete now k rows : rows_evolve now rows (delete k rows).
Proof. intros k' row [_ ?]%lookup_delete_Some. by left. Qed.

Lemma write_evolves {A} now db s' s (a : A) : evolves now s s' → evolves now s (write db s' s a).1.
Proof. intros H. destruct db as [|e|[] e]; cbn [write fst]; try done; apply rows_evolve_refl. Qed.

Lemma write_ok {A} db s' s (a b : A) : (write db s' s a).2 = Ok b → (write db s' s a).1 = s' ∧ a = b.
Proof. destruct db; cbn [write fst snd]; [|done..]. by intros [= <-]. Qed.

Lemma upsert_evolves now record rows rows' : upsert now record rows = Ok rows' → rows_evolve now rows rows'.
Proof.
  destruct record as [[k r] entry]. unfold upsert. intros H.
  assert (∀ rows', (guard! limits_ok (bg_IntervalMS entry) (bg_MaxRuntimeMS entry) else IntervalConstraint in Ok (<[k := fresh_row now r entry]> rows)) = Ok rows' →
    rows_evolve now rows rows') as Hinsert.
  { intros rows1 H1. destruct (limits_ok _ _) eqn:Hl; [|done]. injection H1 as <-. intros k' row [[<- <-]|[_ ?]]%lookup_insert_Some; [|by left].
    right. split_and!; [done|exact Hl|]. cbn [fresh_row ir_NextRun ir_IntervalMS]. apply to_UnixMilli_after. }
  destruct (rows !! k) as [row|]; [|by apply Hinsert]. destruct (same_binding row r); [|by apply Hinsert].
  destruct (_ && _); [|done]. injection H as <-. apply rows_evolve_refl.
Qed.

Lemma upsert_all_evolves now records rows rows' : upsert_all now records rows = Ok rows' → rows_evolve now rows rows'.
Proof.
  revert rows. induction records as [|record records IH]; intros rows; cbn [upsert_all]; [intros [= <-]; apply rows_evolve_refl|].
  intros (rows1 & H1 & H)%rbind_ok. eapply rows_evolve_trans; [by eapply upsert_evolves|by eapply IH].
Qed.

Lemma reconcile_evolves ready now fails db s : evolves now s (ReconcileIntervals ready now fails db s).1.
Proof.
  unfold ReconcileIntervals. destruct ready; [|apply rows_evolve_refl]. destruct (negb (IsZero now)); [|apply rows_evolve_refl]. cbn [rbind].
  destruct (match fails with Some e => _ | None => _ end) as [records|]; [|apply rows_evolve_refl]. cbn [rbind].
  destruct (readIntervalPlans _ _ s) as [plans|]; [|apply rows_evolve_refl]. cbn [rbind].
  destruct (upsert_all now records (db_intervals s)) as [rows|] eqn:Hu; [|apply rows_evolve_refl]. cbn [rbind].
  apply write_evolves. unfold evolves. cbn [with_intervals db_intervals]. apply upsert_all_evolves in Hu. revert rows Hu.
  induction plans as [|p plans IH]; intros rows Hu; cbn [foldl]; [done|]. apply IH.
  destruct (bool_decide _); [done|]. eapply rows_evolve_trans; [exact Hu|apply rows_evolve_delete].
Qed.

Section inv.
Context (used : list string) (clock : Z) (s : IntervalDB) (events : list IntervalEvent) (Hinv : interval_inv used clock s events).

Lemma recover_evolves ready now fails db : evolves now s (RecoverIntervalClaims ready now fails db s).1.
Proof.
  unfold RecoverIntervalClaims. destruct ready; [|apply rows_evolve_refl]. cbn [negb]. destruct (IsZero now); [apply rows_evolve_refl|].
  destruct (readIntervalPlans _ _ s); [|apply rows_evolve_refl]. apply write_evolves. unfold evolves. cbn [with_intervals db_intervals].
  intros k row. rewrite lookup_fmap, fmap_Some. intros (row0 & Hk & ->). unfold recovered. destruct (empty (ir_ClaimID row0)); [by left|].
  right. split_and!; [done|exact (inv_limits _ _ _ _ Hinv k row0 Hk)|done].
Qed.

Lemma inv_evolves now s' : evolves now s s' → clock ≤ to_UnixMilli now → interval_inv used (to_UnixMilli now) s' events.
Proof.
  intros He Hc. split.
  - intros k row [H|(_ & H & _)]%He; [by eapply inv_limits|done].
  - intros k row [H|(H & _)]%He Hne; [by eapply inv_used|done].
  - intros g Hg. pose proof (inv_clock _ _ _ _ Hinv g Hg). lia.
  - intros g row Hg [H|(_ & _ & H)]%He; [by eapply inv_row|]. right. pose proof (inv_clock _ _ _ _ Hinv g Hg). lia.
  - by eapply inv_apart.
  - by eapply inv_limits_granted.
  - by eapply inv_ended_used.
  - intros id k row Hid [H|(H & _)]%He; [by eapply inv_ended|]. apply (inv_ended_used _ _ _ _ Hinv) in Hid as [_ ?]. congruence.
  - by eapply inv_once.
  - intros k1 k2 row1 row2 [H1|(H1 & _)]%He [H2|(H2 & _)]%He Hne Heq; [by eapply inv_unique|congruence|congruence|congruence].
Qed.
End inv.

Lemma inv_more used used' clock clock' s events :
  interval_inv used clock s events → (∀ id, id ∈ used → id ∈ used') → clock ≤ clock' → interval_inv used' clock' s events.
Proof.
  intros [] Hu Hc. split; try done.
  - intros k row Hk Hne. apply Hu. eauto.
  - intros g Hg. specialize (inv_clock0 g Hg). lia.
  - intros id [? ?]%inv_ended_used0. split; [by apply Hu|done].
Qed.

Lemma claimable_spec p now row package :
  claimable p now row package = true →
  pl_IntervalMS p = ir_IntervalMS row ∧ pl_MaxRuntimeMS p = ir_MaxRuntimeMS row ∧ ir_ClaimID row = "" ∧ ir_NextRun row ≤ to_UnixMilli now.
Proof.
  unfold claimable, plan_matches, empty. intros H. repeat (apply andb_true_iff in H as [H ?]).
  repeat match goal with
  | H : bool_decide _ = true |- _ => apply bool_decide_eq_true in H
  | H : (_ =? _) = true |- _ => apply Z.eqb_eq in H
  | H : (_ <=? _) = true |- _ => apply Z.leb_le in H
  end. split_and!; try done; congruence.
Qed.

(** A row that is claimed with an id that was never drawn before. *)
Lemma inv_claimed used clock s events p now row :
  interval_inv used clock s events → pl_ClaimID p ∉ used → pl_ClaimID p ≠ "" → clock ≤ to_UnixMilli now →
  db_intervals s !! plan_key p = Some row → claimable p now row (db_packages s !! plan_key p) = true →
  let s' := with_intervals s (<[plan_key p := claimed row (pl_ClaimID p) (to_UnixMilli now)]> (db_intervals s)) in
  interval_inv (pl_ClaimID p :: used) (to_UnixMilli now) s' events ∧
  interval_inv (pl_ClaimID p :: used) (to_UnixMilli now) s' (Granted p (to_UnixMilli now) :: events).
Proof.
  intros Hinv Hfresh Hne Hc Hrow (Hint & Hmax & Hfree & Hdue)%claimable_spec s'.
  pose proof (inv_limits _ _ _ _ Hinv _ _ Hrow) as Hlimits.
  assert (interval_inv (pl_ClaimID p :: used) (to_UnixMilli now) s' events) as Hinv'.
  { unfold s'. split; cbn [with_intervals db_intervals].
    - intros k row' [[<- <-]|[_ ?]]%lookup_insert_Some; [exact Hlimits|by eapply inv_limits].
    - intros k row' [[<- <-]|[_ Hk]]%lookup_insert_Some Hid; [by left|]. right. by eapply inv_used.
    - intros g Hg. pose proof (inv_clock _ _ _ _ Hinv g Hg). lia.
    - intros g row' Hg [[Heq <-]|[_ ?]]%lookup_insert_Some; [by left|by eapply inv_row].
    - by eapply inv_apart.
    - by eapply inv_limits_granted.
    - intros id [? ?]%(inv_ended_used _ _ _ _ Hinv). split; [by right|done].
    - intros id k row' Hid [[<- <-]|[_ Hk]]%lookup_insert_Some; [|by eapply inv_ended].
      cbn [claimed ir_ClaimID]. intros <-. by apply (inv_ended_used _ _ _ _ Hinv) in Hid as [? _].
    - by eapply inv_once.
    - intros k1 k2 row1 row2 [[<- <-]|[_ H1]]%lookup_insert_Some [[<- <-]|[_ H2]]%lookup_insert_Some Hn Heq; cbn [claimed ir_ClaimID] in *.
      + done.
      + destruct Hfresh. rewrite Heq. eapply inv_used; [done|done|congruence].
      + destruct Hfresh. rewrite <- Heq. by eapply inv_used.
      + by eapply inv_unique. }
  split; [exact Hinv'|]. destruct Hinv'. split; try done; cbn [omap list_omap granted_of finished_of option_bind].
  - intros g [->|Hg]%elem_of_cons; [cbn; lia|by apply inv_clock0].
  - intros g row' [->|Hg]%elem_of_cons Hk; [|by apply inv_row0]. unfold s' in Hk. cbn [with_intervals db_intervals fst] in Hk.
    rewrite lookup_insert_eq in Hk. injection Hk as <-. by left.
  - constructor; [|done]. apply Forall_forall. intros g Hg Hkey. cbn [fst snd] in *. rewrite Hint.
    assert (db_intervals s !! plan_key g.1 = Some row) as Hrow' by by rewrite <- Hkey.
    destruct (inv_row _ _ _ _ Hinv g row Hg Hrow') as [?|?]; [done|lia].
  - intros g [->|Hg]%elem_of_cons; [|by apply inv_limits_granted0]. cbn [fst]. by rewrite Hint, Hmax.
Qed.

Lemma inv_claim used clock s events nonce p now db :
  interval_inv used clock s events → hex_encode nonce ∉ used → hex_encode nonce ≠ "" → clock ≤ to_UnixMilli now →
  let (s', new) := interval_step (OpClaim (Ok nonce) p now db) s in
  interval_inv (hex_encode nonce :: used) (to_UnixMilli now) s' (new ++ events).
Proof.
  intros Hinv Hfresh Hne Hc. unfold interval_step, ClaimInterval. cbn [negb].
  assert (interval_inv (hex_encode nonce :: used) (to_UnixMilli now) s events) as Hsame by (eapply inv_more; [done|by right|done]).
  destruct (IsZero now); [done|]. set (q := with_claim p (hex_encode nonce) now).
  assert (∀ a, let (s', new) := (match write db s s (a, false) with (s, Ok (p, true)) => (s, [Granted p (to_UnixMilli now)]) | (s, _) => (s, []) end) in
    interval_inv (hex_encode nonce :: used) (to_UnixMilli now) s' (new ++ events)) as Hno.
  { intros a. destruct db as [|e|[] e]; exact Hsame. }
  destruct (db_intervals s !! plan_key q) as [row|] eqn:Hrow; [|apply Hno].
  destruct (claimable q now row _) eqn:Hcl; [|apply Hno].
  destruct (inv_claimed used clock s events q now row Hinv Hfresh Hne Hc Hrow Hcl) as [H1 H2].
  destruct db as [|e|[] e]; cbn [write]; [exact H2|exact Hsame|exact H1|exact Hsame].
Qed.

(** A row whose claim ends. *)
Lemma inv_finish used clock s events p now outcome db :
  interval_inv used clock s events → clock ≤ to_UnixMilli now →
  let (s', new) := interval_step (OpFinish p now outcome db) s in interval_inv used (to_UnixMilli now) s' (new ++ events).
Proof.
  intros Hinv Hc. unfold interval_step, FinishInterval. cbn [negb].
  assert (interval_inv used (to_UnixMilli now) s events) as Hsame by (eapply inv_more; [done|done|done]).
  destruct (empty (pl_ClaimID p) || IsZero now) eqn:Hid; [done|]. apply orb_false_iff in Hid as [Hid _]. apply bool_decide_eq_false in Hid.
  assert (let (s', new) := (match write db s s false with (s, Ok true) => (s, [Finished p (to_UnixMilli now)]) | (s, _) => (s, []) end) in
    interval_inv used (to_UnixMilli now) s' (new ++ events)) as Hno by (destruct db as [|e|[] e]; exact Hsame).
  destruct (db_intervals s !! plan_key p) as [row|] eqn:Hrow; [|exact Hno].
  destruct (plan_matches p row && bool_decide (ir_ClaimID row = pl_ClaimID p)) eqn:Hm; [|exact Hno].
  destruct (bool_decide (outcome ∈ interval_outcomes)); [|exact Hsame]. apply andb_true_iff in Hm as [Hm Hcl]. apply bool_decide_eq_true in Hcl.
  set (s1 := with_intervals s (<[plan_key p := finished row now (pl_IntervalMS p) outcome]> (db_intervals s))).
  assert (evolves now s s1) as He.
  { unfold s1. intros k row' Hk. cbn [with_intervals db_intervals] in Hk. apply lookup_insert_Some in Hk as [[<- <-]|[_ ?]]; [|by left].
    right. split_and!; [done|exact (inv_limits _ _ _ _ Hinv _ _ Hrow)|]. cbn [finished ir_NextRun ir_IntervalMS]. rewrite to_UnixMilli_after.
    unfold plan_matches in Hm. repeat (apply andb_true_iff in Hm as [Hm ?]). f_equal. symmetry. by apply Z.eqb_eq. }
  assert (interval_inv used (to_UnixMilli now) s1 events) as H1 by by eapply inv_evolves.
  destruct db as [|e|[] e]; cbn [write]; [|exact Hsame|exact H1|exact Hsame].
  assert (pl_ClaimID p ∈ used) as Hused by (rewrite <- Hcl; apply (inv_used _ _ _ _ Hinv _ _ Hrow); congruence).
  assert (∀ k row', db_intervals s1 !! k = Some row' → ir_ClaimID row' ≠ pl_ClaimID p) as Hgone.
  { intros k row' Hk. unfold s1 in Hk. cbn [with_intervals db_intervals] in Hk. apply lookup_insert_Some in Hk as [[<- <-]|[Hk' Hk]]; [cbn; congruence|].
    intros Heq. apply Hk'. symmetry. eapply (inv_unique _ _ _ _ Hinv k (plan_key p)); [done|done|congruence|congruence]. }
  assert (pl_ClaimID p ∉ omap finished_of events) as Hnew.
  { intros Hin. exact (inv_ended _ _ _ _ Hinv _ _ _ Hin Hrow Hcl). }
  destruct H1. split; try done; cbn [app omap list_omap granted_of finished_of option_bind].
  - intros id [->|Hin]%elem_of_cons; [done|by apply inv_ended_used0].
  - intros id k row' [->|Hin]%elem_of_cons; [by apply Hgone|by apply inv_ended0].
  - by constructor.
Qed.

(** ** Every run *)

Lemma interval_step_inv used clock s events op :
  interval_inv used clock s events → match op_time op with Some now => clock ≤ to_UnixMilli now | None => True end →
  (∀ id, op_claim op = Some id → id ∉ used ∧ id ≠ "") →
  let (s', new) := interval_step op s in
  interval_inv (option_list (op_claim op) ++ used) (match op_time op with Some now => to_UnixMilli now | None => clock end) s' (new ++ events).
Proof.
  intros Hinv Hc Hid. destruct op as [now fails db|nonce p now db|p now outcome db|now fails db|k row|k]; cbn [op_time op_claim option_list app] in *.
  - eapply inv_evolves; [done|apply reconcile_evolves|done].
  - destruct nonce as [nonce|e].
    + destruct (Hid _ eq_refl) as [Hf Hn]. exact (inv_claim used clock s events nonce p now db Hinv Hf Hn Hc).
    + unfold interval_step, ClaimInterval. cbn [negb]. destruct (IsZero now); (eapply inv_more; [done|done|done]).
  - exact (inv_finish used clock s events p now outcome db Hinv Hc).
  - eapply inv_evolves; [done|by eapply recover_evolves|done].
  - destruct Hinv. by split.
  - destruct Hinv. split; try done; cbn [db_intervals].
    + intros k' row [_ ?]%lookup_delete_Some. eauto.
    + intros k' row [_ ?]%lookup_delete_Some. eauto.
    + intros g row Hg [_ ?]%lookup_delete_Some. eauto.
    + intros id k' row Hin [_ ?]%lookup_delete_Some. eauto.
    + intros k1 k2 row1 row2 [_ ?]%lookup_delete_Some [_ ?]%lookup_delete_Some. eauto.
Qed.

Lemma interval_run_inv ops used clock s events :
  interval_inv used clock s events → clock_from clock ops → NoDup (claim_ids ops) → (∀ id, id ∈ claim_ids ops → id ∉ used ∧ id ≠ "") →
  let (s', events') := interval_run ops s events in ∃ used' clock', interval_inv used' clock' s' events'.
Proof.
  revert used clock s events. induction ops as [|op ops IH]; intros used clock s events Hinv Hclock Hnd Hids; cbn [interval_run]; [eauto|].
  cbn [clock_from] in Hclock. unfold claim_ids in Hnd, Hids. cbn [omap list_omap] in Hnd, Hids.
  pose proof (interval_step_inv used clock s events op Hinv) as Hstep.
  destruct (interval_step op s) as [s' new]. eapply IH; [apply Hstep| | |].
  - by destruct (op_time op) as [now|]; [destruct Hclock|].
  - intros id Heq. rewrite Heq in Hids. apply Hids. by left.
  - by destruct (op_time op) as [now|]; [destruct Hclock|].
  - destruct (op_claim op); [by apply NoDup_cons in Hnd as [_ ?]|done].
  - intros id Hid. destruct (op_claim op) as [id'|]; cbn [option_list app].
    + apply NoDup_cons in Hnd as [Hnew _]. destruct (Hids id) as [? ?]; [by right|]. split; [|done]. intros [->|?]%elem_of_cons; done.
    + by apply Hids.
Qed.

(** Two claims are [apart] in the order in which they were granted. *)
Definition claims_of (events : list IntervalEvent) : list (IntervalPlan * Z) := omap granted_of events.
Definition ended_claims (events : list IntervalEvent) : list string := omap finished_of events.

(** C24: Whatever reconciliations, claims, completions and recoveries follow one
    another on an empty database, whatever packages are installed, changed and
    removed meanwhile, with any plans passed in and however the database
    answers: as long as the clock does not go back and no claim id is drawn
    twice, two claims of one package lie apart by at least the interval of the
    later one, which is at least a second; every claim ends at most once, and
    one that has ended is never validated again. *)
Theorem interval_claims_apart ops :
  clock_from 0 ops → NoDup (claim_ids ops) → (∀ id, id ∈ claim_ids ops → id ≠ "") →
  let (s, events) := interval_run ops NewIntervalDB [] in
  ForallOrdPairs apart (claims_of events) ∧
  (∀ g, g ∈ claims_of events → 1000 ≤ pl_IntervalMS g.1 ≤ 86400000 ∧ 1 ≤ pl_MaxRuntimeMS g.1 ≤ pl_IntervalMS g.1) ∧
  NoDup (ended_claims events) ∧
  ∀ p fails, pl_ClaimID p ∈ ended_claims events → ValidateIntervalClaim true fails p s ≠ Ok tt.
Proof.
  intros Hclock Hnd Hne. pose proof (interval_run_inv ops [] 0 NewIntervalDB []) as H. destruct (interval_run ops NewIntervalDB []) as [s events].
  destruct H as (used & clock & Hinv); [|done|done| |].
  - split; cbn; try (by intros; set_solver); try (by intros; rewrite lookup_empty in *); try constructor.
    all: intros; rewrite lookup_empty in *; done.
  - intros id Hid. split; [apply not_elem_of_nil|by apply Hne].
  - destruct Hinv. split_and!; [done| |done|].
    + intros g Hg. specialize (inv_limits_granted0 g Hg). unfold limits_ok in inv_limits_granted0. lia.
    + intros p fails Hp. unfold ValidateIntervalClaim. cbn [guard]. destruct (negb (empty (pl_ClaimID p))); [|done]. cbn [guard].
      destruct fails; [done|]. destruct (db_intervals s !! plan_key p) as [row|] eqn:Hrow; [|done].
      rewrite (bool_decide_eq_false_2 (ir_ClaimID row = pl_ClaimID p)) by by eapply inv_ended0. by rewrite andb_false_r.
Qed.

(** ** A concrete run *)

Section demo.
Definition iv_background : BackgroundSpec := mkBackground 60000 1000 "sync" None BackgroundInterval "main".
Definition iv_manifest : Manifest :=
  mkManifest None SchemaVersionV9 "acme" "" "notes" "Notes" "1.0.0" (mkAPI 1 [] []) [] (mkPresentation "en" "" [] [] [] [] None) (Some []) [] [] []
    None None None (Some iv_background) None [].
Definition iv_record : PackageRecord :=
  mkPackageRecord "env" "inst" "fp" (mkRevisions 1 1 0) EnableEnabled None
    (mkProvenance "local_package" "" "" "" "" [] "" "" "" "" "" "" "" "" "" "" "" "" "" 0) ExecutionApprovalUserApproved iv_manifest.
Definition iv_row : PackageRow := mkPackageRow "fp" (mkRevisions 1 1 0) EnableEnabled false (Some BackgroundInterval) (Ok iv_record).

Definition iv_time (ms : Z) : time := UnixMilli ms.
Definition iv_nonce (n : nat) : Result nat string := Ok (of_text (repeat (byte n) 24)).
Definition iv_plan (next : Z) : IntervalPlan := mkPlan "env" "inst" "fp" (mkRevisions 1 1 0) 60000 1000 (iv_time next) "" 0 0 "".
Definition iv_claim (n : nat) (next at_ : Z) : IntervalPlan := with_claim (iv_plan next) (hex_encode (of_text (repeat (byte n) 24))) (iv_time at_).

(** A claim that is not due, one that is granted, a second while it is held, the
    end of the first, one that is too early,
    and one a minute after the end. *)
Definition iv_ops : list IntervalOp :=
  [OpInstall ("env", "inst") iv_row; OpReconcile (iv_time 1000) None DatabaseWorks;
   OpClaim (iv_nonce 1) (iv_plan 61000) (iv_time 60999) DatabaseWorks; OpClaim (iv_nonce 2) (iv_plan 61000) (iv_time 61000) DatabaseWorks;
   OpClaim (iv_nonce 3) (iv_plan 61000) (iv_time 61500) DatabaseWorks; OpFinish (iv_claim 2 61000 61000) (iv_time 62000) "success" DatabaseWorks;
   OpClaim (iv_nonce 4) (iv_plan 122000) (iv_time 121999) DatabaseWorks; OpClaim (iv_nonce 5) (iv_plan 122000) (iv_time 122000) DatabaseWorks].

Lemma interval_claims_apart_witness :
  (map snd (claims_of (interval_run iv_ops NewIntervalDB []).2) = [122000; 61000] ∧ length (ended_claims (interval_run iv_ops NewIntervalDB []).2) = 1%nat) ∧
  let (s, events) := interval_run iv_ops NewIntervalDB [] in
  ForallOrdPairs apart (claims_of events) ∧
  (∀ g, g ∈ claims_of events → 1000 ≤ pl_IntervalMS g.1 ≤ 86400000 ∧ 1 ≤ pl_MaxRuntimeMS g.1 ≤ pl_IntervalMS g.1) ∧
  NoDup (ended_claims events) ∧
  ∀ p fails, pl_ClaimID p ∈ ended_claims events → ValidateIntervalClaim true fails p s ≠ Ok tt.
Proof.
  split; [vm_compute; split; reflexivity|]. apply (interval_claims_apart iv_ops).
  - vm_compute. repeat split; discriminate.
  - apply (bool_decide_unpack _). vm_compute. exact I.
  - intros id Hid. apply list_elem_of_In in Hid. vm_compute in Hid. intuition congruence.
Defined.
End demo.
