(* ===== verification/IntervalHost.v ===== *)
(** * The scheduler of periodic workers ([pkg/host/background_interval.go])

    [tick] claims the plans that are due and starts a job for each, and
    [runBackgroundInterval] is what a job does with its claim: it takes no
    authority from it, but checks the claim, the package, its manifest, the
    method and the policy again before anything of the plugin runs. The answers
    of the other parts of the host are parameters; each of them may panic. *)

From S2P Require Import Prelude GoLib SessionCtx Registry Lease Encoding Json NetIP ConnectionStore Paths Manifest ManifestChecks Presentation ManifestValidate ManifestProps IntervalStore.

Open Scope go_scope.
Open Scope Z_scope.

(** ** Jobs *)

Definition intervalKey (owner instance : string) : string := owner +:+ nul +:+ instance.

(** The keys of [running], and the claims of the jobs that were started and
    have not ended. *)
Record Scheduler := mkScheduler {
  sd_running : gset string;
  sd_jobs : list IntervalPlan;
  sd_store : IntervalDB;
}.

Definition job_key (p : IntervalPlan) : string := intervalKey (pl_OwnerEnvHash p) (pl_PluginInstanceID p).

(** What is answered for one plan: the random bytes, the database, and whether
    the host still starts jobs. *)
Record TickAnswer := mkTickAnswer {
  ta_nonce : Result nat string;
  ta_db : Database;
  ta_started : bool;
}.

Inductive TickError := TickStore (e : IntervalError) | TickClosed.

(** The body of the loop of [tick]. The mutex is held from the test of
    [running] until the job is started. *)
Definition tick_plan (ready : bool) (now : time) (answer : TickAnswer) (plan : IntervalPlan) (s : Scheduler) : Scheduler * Result TickError unit :=
  if After (pl_NextRun plan) now || negb (empty (pl_ClaimID plan)) then (s, Ok tt)
  else if bool_decide (job_key plan ∈ sd_running s) then (s, Ok tt)
  else match ClaimInterval ready (ta_nonce answer) plan now (ta_db answer) (sd_store s) with
  | (store, Err e) => (mkScheduler (sd_running s) (sd_jobs s) store, Err (TickStore e))
  | (store, Ok (claim, false)) => (mkScheduler (sd_running s) (sd_jobs s) store, Ok tt)
  | (store, Ok (claim, true)) =>
     if ta_started answer then (mkScheduler ({[job_key plan]} ∪ sd_running s) (claim :: sd_jobs s) store, Ok tt)
     else (mkScheduler (sd_running s ∖ {[job_key plan]}) (sd_jobs s) store, Err TickClosed)
  end.

Fixpoint tick_plans (ready : bool) (now : time) (answers : nat → TickAnswer) (i : nat) (plans : list IntervalPlan) (s : Scheduler) :
    Scheduler * Result TickError unit :=
  match plans with
  | [] => (s, Ok tt)
  | plan :: plans =>
     match tick_plan ready now (answers i) plan s with
     | (s, Err e) => (s, Err e)
     | (s, Ok _) => tick_plans ready now answers (i + 1) plans s
     end
  end.

Definition tick (ready : bool) (now : time) (fails plansFail : option nat) (db : Database) (answers : nat → TickAnswer) (s : Scheduler) :
    Scheduler * Result TickError unit :=
  match ReconcileIntervals ready now fails db (sd_store s) with
  | (store, Err e) => (mkScheduler (sd_running s) (sd_jobs s) store, Err (TickStore e))
  | (store, Ok _) =>
     let s := mkScheduler (sd_running s) (sd_jobs s) store in
     match IntervalPlans ready plansFail store with
     | Err e => (s, Err (TickStore e))
     | Ok plans => tick_plans ready now answers 0 plans s
     end
  end.

(** The end of a job: its outcome is stored, whatever the answer, and its key is
    free again. *)
Definition end_job (ready : bool) (now : time) (outcome : string) (db : Database) (job : IntervalPlan) (s : Scheduler) : Scheduler :=
  mkScheduler (sd_running s ∖ {[job_key job]}) (List.filter (λ p, negb (bool_decide (p = job))) (sd_jobs s))
    (FinishInterval ready job now outcome db (sd_store s)).1.

(** ** A job *)

Definition intervalRecordMatches (plan : IntervalPlan) (r : PackageRecord) : bool :=
  bool_decide (pk_OwnerEnvHash r = pl_OwnerEnvHash plan) && bool_decide (pk_PluginInstanceID r = pl_PluginInstanceID plan) &&
  bool_decide (pk_ActiveFingerprint r = pl_ActiveFingerprint plan) && bool_decide (pk_Revisions r = pl_Revisions plan) &&
  bool_decide (pk_EnableState r = EnableEnabled) && negb (bool_decide (is_Some (pk_DeletedAt r))) &&
  match entry_of r with Some _ => true | None => false end.

Definition backgroundWorkerMethod (m : Manifest) (workerID : string) : option MethodSpec :=
  List.find (λ method,
    bool_decide (mr_Kind (me_Route method) = MethodRouteWorker) && bool_decide (mr_WorkerID (me_Route method) = workerID) &&
    match ma_Background m with Some b => empty (bg_Method b) || bool_decide (bg_Method b = me_Method method) | None => true end) (ma_Methods m).

Definition methodRequiresConfirmation (method : MethodSpec) : bool :=
  me_Dangerous method ||
  match me_Confirmation method with Some c => bool_decide (co_Mode c ∈ [ConfirmationRequired; ConfirmationRiskBased]) | None => false end.

(** The answer of a call: it returns, or it panics. *)
Inductive Call (A : Type) := Returns (r : Result nat A) | Panics.
Arguments Returns {A}.
Arguments Panics {A}.

(** How [dispatchMethod] ended: [lost] when the error is of a context, of a
    panic of the adapter, or says that the outcome is unknown. *)
Inductive Dispatch := DispatchOk | DispatchFails (lost : bool) (e : nat) | DispatchPanics.

Record JobAnswers := mkJobAnswers {
  ja_canceled : bool;                       (* [ctx.Err()] at the start *)
  ja_ready : bool;
  ja_query : option nat;
  ja_record : Call PackageRecord;
  ja_policy : option (Call bool);           (* [EvaluateBackgroundPolicy]: allow *)
  ja_authorize : Call unit;                 (* [authorizeDeclaredMethod] *)
  ja_params : Call (option fields);         (* [deepCloneParams] *)
  ja_request : Call unit;                   (* [validateMethodRequest] *)
  ja_bind : Call unit;                      (* [bindPreparedWorkerRuntime] *)
  ja_canceled_bind : bool;
  ja_dispatch : Dispatch;
  ja_canceled_dispatch : bool;
}.

Inductive JobError :=
| JobCanceled
| JobStore (e : IntervalError)
| JobDenied                     (* [security.ErrPolicyDenied] *)
| JobIncompatible (e : ManifestError)
| JobPanic                      (* [ErrMethodAdapterPanic] *)
| JobFails (e : nat).

(** The outcome, the error, and the method that was dispatched, if any. *)
Record JobResult := mkJobResult {
  jr_outcome : string;
  jr_err : option JobError;
  jr_dispatched : option MethodSpec;
}.

Definition stops (outcome : string) (e : JobError) : JobResult := mkJobResult outcome (Some e) None.

(** [if err != nil { return outcome, err }] after a call that may panic. *)
Definition called {A} (c : Call A) (outcome : string) (k : A → JobResult) : JobResult :=
  match c with
  | Panics => stops "unknown" JobPanic
  | Returns (Err e) => stops outcome (JobFails e)
  | Returns (Ok a) => k a
  end.

Notation "'call!' x := c 'or' outcome 'in' k" := (called c outcome (λ x, k))
  (at level 200, x pattern, c at level 100, outcome at level 100, k at level 200) : go_scope.

Section job.
Context (unicode_lower : Z → Z) (IsNormalNFC : string → bool) (Fold : string → string) (language_Parse : string → option string).
Context (semver_IsValid : string → bool).
Context (unicode_IsPrint : Z → bool) {Schema : Type} (marshal : fields → Result string bytes) (CompileSchema : string → bytes → Result string Schema)
  (ValidateSchema : Schema → fields → bool).

Notation validManifest := (Validate unicode_lower IsNormalNFC Fold language_Parse semver_IsValid unicode_IsPrint marshal CompileSchema ValidateSchema).

(** [checkRunnable] *)
Definition checkRunnable (r : PackageRecord) : Result JobError unit :=
  match validManifest (pk_Manifest r) with
  | Err e => Err (JobIncompatible e)
  | Ok _ => guard! RunnablePluginRecord r else JobDenied in Ok tt
  end.

(** [authorizeBackgroundInterval] *)
Definition authorizeBackgroundInterval (answers : JobAnswers) (k : JobResult) : JobResult :=
  match ja_policy answers with
  | None => stops "blocked" JobDenied
  | Some policy =>
     call! allowed := policy or "blocked" in
     if negb allowed then stops "blocked" JobDenied
     else call! _ := ja_authorize answers or "blocked" in k
  end.

Definition dispatched (answers : JobAnswers) (method : MethodSpec) : JobResult :=
  match ja_dispatch answers with
  | DispatchPanics => mkJobResult "unknown" (Some JobPanic) (Some method)
  | DispatchOk => if ja_canceled_dispatch answers then mkJobResult "unknown" (Some JobCanceled) (Some method) else mkJobResult "success" None (Some method)
  | DispatchFails lost e => mkJobResult (if lost || ja_canceled_dispatch answers then "unknown" else "failed") (Some (JobFails e)) (Some method)
  end.

Definition runBackgroundInterval (answers : JobAnswers) (plan : IntervalPlan) (store : IntervalDB) : JobResult :=
  if ja_canceled answers then stops "canceled" JobCanceled
  else match ValidateIntervalClaim (ja_ready answers) (ja_query answers) plan store with
  | Err e => stops "blocked" (JobStore e)
  | Ok _ =>
     match ja_record answers with
     | Panics => stops "unknown" JobPanic
     | Returns (Err _) => stops "blocked" JobDenied
     | Returns (Ok record) =>
        if negb (intervalRecordMatches plan record) then stops "blocked" JobDenied
        else match checkRunnable record with
        | Err e => stops "blocked" e
        | Ok _ =>
           match ma_Background (pk_Manifest record) with
           | None => stops "unknown" JobPanic
           | Some entry =>
              match backgroundWorkerMethod (pk_Manifest record) (bg_WorkerID entry) with
              | None => stops "blocked" JobDenied
              | Some method =>
                 if negb (bool_decide (me_Execution method = MethodExecutionSync)) || methodRequiresConfirmation method || me_PreflightOnly method
                 then stops "blocked" JobDenied
                 else authorizeBackgroundInterval answers
                   (call! _ := ja_params answers or "failed" in
                    call! _ := ja_request answers or "failed" in
                    call! _ := ja_bind answers or "failed" in
                    if ja_canceled_bind answers then stops "canceled" JobCanceled else dispatched answers method)
              end
           end
        end
     end
  end.
End job.

(** ** One job of a package at a time *)

(** The keys that run are those of the jobs, each once. *)
Definition jobs_exclusive (s : Scheduler) : Prop := NoDup (map job_key (sd_jobs s)) ∧ sd_running s = list_to_set (map job_key (sd_jobs s)).

Lemma job_key_claim id now p : job_key (with_claim p id now) = job_key p.
Proof. done. Qed.

Lemma claimed_key ready nonce p now db s s' claim :
  ClaimInterval ready nonce p now db s = (s', Ok (claim, true)) → job_key claim = job_key p.
Proof.
  unfold ClaimInterval. destruct (negb ready); [done|]. destruct (IsZero now); [done|]. destruct nonce as [nonce|]; [|done].
  set (q := with_claim p (hex_encode nonce) now).
  assert (∀ (a b : IntervalDB) (x : bool), write db a b (q, x) = (s', Ok (claim, true)) → job_key claim = job_key p) as Hw.
  { intros a b x. destruct db as [|e|[] e]; cbn [write]; [|done..]. by intros [= _ <- _]. }
  destruct (db_intervals s !! plan_key q) as [row|]; [destruct (claimable q now row _)|]; apply Hw.
Qed.

Lemma tick_plan_exclusive ready now answer plan s : jobs_exclusive s → jobs_exclusive (tick_plan ready now answer plan s).1.
Proof.
  intros [Hnd Hrun]. unfold tick_plan. destruct (After _ _ || _); [done|]. destruct (bool_decide (job_key plan ∈ sd_running s)) eqn:Hk; [done|].
  apply bool_decide_eq_false in Hk. destruct (ClaimInterval _ _ _ _ _ _) as [store [[claim []]|e]] eqn:Hc; [|done|done].
  apply claimed_key in Hc. destruct (ta_started answer); split; cbn [fst sd_running sd_jobs map list_to_set]; try done.
  - rewrite Hc. constructor; [|done]. by rewrite Hrun, elem_of_list_to_set in Hk.
  - by rewrite Hc, Hrun.
  - rewrite Hrun in Hk |- *. set_solver.
Qed.

Lemma tick_exclusive ready now fails plansFail db answers s : jobs_exclusive s → jobs_exclusive (tick ready now fails plansFail db answers s).1.
Proof.
  intros Hs. unfold tick. destruct (ReconcileIntervals _ _ _ _ _) as [store [|]]; [|done].
  destruct (IntervalPlans _ _ _) as [plans|]; [|done].
  assert (∀ i s, jobs_exclusive s → jobs_exclusive (tick_plans ready now answers i plans s).1) as Hl; [|by apply Hl].
  induction plans as [|plan plans IH]; intros i s' Hs'; cbn [tick_plans]; [done|].
  pose proof (tick_plan_exclusive ready now (answers i) plan s' Hs') as Hp. destruct (tick_plan _ _ _ _ _) as [s1 [|]]; [by apply IH|done].
Qed.

Lemma end_job_exclusive ready now outcome db job s : job ∈ sd_jobs s → jobs_exclusive s → jobs_exclusive (end_job ready now outcome db job s).
Proof.
  intros Hjob [Hnd Hrun]. unfold jobs_exclusive, end_job. cbn [sd_running sd_jobs]. rewrite Hrun. clear Hrun.
  induction (sd_jobs s) as [|p jobs IH]; [by apply elem_of_nil in Hjob|]. cbn [map List.filter list_to_set] in *. apply NoDup_cons in Hnd as [Hp Hnd].
  destruct (bool_decide (p = job)) eqn:Hpj; cbn [negb].
  - apply bool_decide_eq_true in Hpj as ->.
    assert (List.filter (λ p, negb (bool_decide (p = job))) jobs = jobs) as ->.
    { clear -Hp. induction jobs as [|q jobs IH]; [done|]. cbn [map List.filter] in *. apply not_elem_of_cons in Hp as [Hq Hp].
      rewrite bool_decide_eq_false_2 by congruence. cbn [negb]. by rewrite IH. }
    assert (job_key job ∉ (list_to_set (map job_key jobs) : gset string)) as Hp' by (by rewrite elem_of_list_to_set). split; [done|]. set_solver.
  - apply bool_decide_eq_false in Hpj. apply elem_of_cons in Hjob as [?|Hjob]; [congruence|]. destruct (IH Hjob Hnd) as [IHnd IHrun]. cbn [map list_to_set].
    split.
    + constructor; [|done]. intros (q & Hq & Hin)%list_elem_of_fmap. apply Hp. rewrite Hq. apply list_elem_of_fmap_2.
      apply list_elem_of_In in Hin. apply List.filter_In in Hin as [Hin _]. by apply list_elem_of_In.
    + rewrite <- IHrun. assert (job_key p ≠ job_key job) as Hne by (intros Heq; apply Hp; rewrite Heq; by apply list_elem_of_fmap_2). set_solver.
Qed.

(** ** What a job may run *)

Section props.
Context (unicode_lower : Z → Z) (IsNormalNFC : string → bool) (Fold : string → string) (language_Parse : string → option string).
Context (semver_IsValid : string → bool).
Context (unicode_IsPrint : Z → bool) {Schema : Type} (marshal : fields → Result string bytes) (CompileSchema : string → bytes → Result string Schema)
  (ValidateSchema : Schema → fields → bool).

Notation validManifest := (Validate unicode_lower IsNormalNFC Fold language_Parse semver_IsValid unicode_IsPrint marshal CompileSchema ValidateSchema).
Notation runJob := (runBackgroundInterval unicode_lower IsNormalNFC Fold language_Parse semver_IsValid unicode_IsPrint marshal CompileSchema ValidateSchema).

Lemma Validate_background m : validManifest m = Ok tt → background_sound m ∧ NoDup (map me_Method (ma_Methods m)).
Proof.
  unfold Validate, validate. intros H. apply rbind_ok in H as ([] & Hheader & H). do 2 apply rbind_ok in H as (? & _ & H).
  apply rbind_ok in H as (methods & Hmethods & H). do 5 apply rbind_ok in H as (? & _ & H). apply rbind_ok in H as ([] & Hbgm & _).
  apply validateHeader_ok in Hheader as (_ & _ & _ & Hbg). apply validateMethods_ok in Hmethods as (Hnd & _ & Hmin).
  split; [by eapply background_ok|done].
Qed.

(** The method a validated package with an interval runs. *)
Lemma interval_method m entry method :
  validManifest m = Ok tt → ma_Background m = Some entry → bg_Strategy entry = BackgroundInterval →
  backgroundWorkerMethod m (bg_WorkerID entry) = Some method →
  method ∈ ma_Methods m ∧ me_Method method = bg_Method entry ∧ interactive method = false ∧
  ∃ w, w ∈ ma_Workers m ∧ wo_WorkerID w = mr_WorkerID (me_Route method) ∧ wo_Scope w = "environment".
Proof.
  intros [Hbg Hnd]%Validate_background Hentry Hs Hfind. apply List.find_some in Hfind as [Hin Hf]. apply list_elem_of_In in Hin.
  destruct (Hbg entry Hentry) as (_ & Hint & Hun). destruct (Hint Hs) as (Hne & _). destruct (Hun Hne) as (d & w & Hd & Hname & Hw & _ & Hr & Hscope & Hi & _).
  rewrite Hentry in Hf. apply andb_true_iff in Hf as [_ Hf]. unfold empty in Hf. rewrite bool_decide_eq_false_2 in Hf by done. cbn [orb] in Hf.
  apply bool_decide_eq_true in Hf. assert (method = d) as -> by (eapply (NoDup_key_inj me_Method); [done|done|done|congruence]).
  split_and!; [done|done|done|]. eauto.
Qed.

(** What must hold for the method to run. *)
Definition job_authorized (answers : JobAnswers) (plan : IntervalPlan) (store : IntervalDB) (method : MethodSpec) : Prop :=
  ValidateIntervalClaim (ja_ready answers) (ja_query answers) plan store = Ok tt ∧
  ja_canceled answers = false ∧ ja_canceled_bind answers = false ∧
  ja_policy answers = Some (Returns (Ok true)) ∧ ja_authorize answers = Returns (Ok tt) ∧ ja_request answers = Returns (Ok tt) ∧
  ∃ record entry w,
    ja_record answers = Returns (Ok record) ∧ intervalRecordMatches plan record = true ∧ RunnablePluginRecord record = true ∧
    validManifest (pk_Manifest record) = Ok tt ∧ ma_Background (pk_Manifest record) = Some entry ∧
    method ∈ ma_Methods (pk_Manifest record) ∧ me_Method method = bg_Method entry ∧ me_Execution method = MethodExecutionSync ∧
    interactive method = false ∧ w ∈ ma_Workers (pk_Manifest record) ∧ wo_WorkerID w = mr_WorkerID (me_Route method) ∧ wo_Scope w = "environment".

(** C23: A periodic job runs a method of a package only when its claim is the one
    that is stored, the package is enabled, unchanged since the claim, approved
    and has a valid manifest, the policy and the grants allow the call, and
    nothing was cancelled; the method is then the one the background entry of
    the manifest names, synchronous, never interactive, and on a worker of the
    environment. The outcome is success exactly when there is no error, and then
    the method ran; it is never reported as blocked or canceled when it ran. *)
Theorem background_job_authorized answers plan store :
  let r := runJob answers plan store in
  (∀ method, jr_dispatched r = Some method → job_authorized answers plan store method) ∧
  (jr_outcome r = "success" ↔ jr_err r = None) ∧
  (jr_outcome r = "success" → is_Some (jr_dispatched r) ∧ ja_dispatch answers = DispatchOk ∧ ja_canceled_dispatch answers = false) ∧
  (is_Some (jr_dispatched r) → jr_outcome r ∈ ["success"; "failed"; "unknown"]).
Proof.
  assert (∀ outcome e, outcome ≠ "success" → let r := stops outcome e in
    (∀ method, jr_dispatched r = Some method → job_authorized answers plan store method) ∧ (jr_outcome r = "success" ↔ jr_err r = None) ∧
    (jr_outcome r = "success" → is_Some (jr_dispatched r) ∧ ja_dispatch answers = DispatchOk ∧ ja_canceled_dispatch answers = false) ∧
    (is_Some (jr_dispatched r) → jr_outcome r ∈ ["success"; "failed"; "unknown"])) as Hstop.
  { intros outcome e Hne. cbn [stops jr_dispatched jr_outcome jr_err]. by split_and!. }
  unfold runBackgroundInterval. destruct (ja_canceled answers) eqn:Hcan; [by apply Hstop|].
  destruct (ValidateIntervalClaim _ _ plan store) as [[]|] eqn:Hclaim; [|by apply Hstop].
  destruct (ja_record answers) as [[record|]|] eqn:Hrec; [|by apply Hstop..].
  destruct (intervalRecordMatches plan record) eqn:Hmatch; [cbn [negb]|by apply Hstop].
  unfold checkRunnable. destruct (validManifest (pk_Manifest record)) as [[]|] eqn:Hvalid; [|by apply Hstop].
  destruct (RunnablePluginRecord record) eqn:Hrunnable; [|by apply Hstop].
  destruct (ma_Background (pk_Manifest record)) as [entry|] eqn:Hentry; [|by apply Hstop].
  destruct (backgroundWorkerMethod _ _) as [method|] eqn:Hmethod; [|by apply Hstop].
  destruct (negb _ || _ || _) eqn:Hsync; [by apply Hstop|]. apply orb_false_iff in Hsync as [[Hsync _]%orb_false_iff _].
  apply negb_false_iff, bool_decide_eq_true in Hsync. unfold authorizeBackgroundInterval.
  destruct (ja_policy answers) as [[[[]|]|]|] eqn:Hpolicy; cbn [called negb]; [|by apply Hstop..].
  destruct (ja_authorize answers) as [[[]|]|] eqn:Hauth; cbn [called]; [|by apply Hstop..].
  destruct (ja_params answers) as [[params|]|]; cbn [called]; [|by apply Hstop..].
  destruct (ja_request answers) as [[[]|]|] eqn:Hreq; cbn [called]; [|by apply Hstop..].
  destruct (ja_bind answers) as [[[]|]|]; cbn [called]; [|by apply Hstop..].
  destruct (ja_canceled_bind answers) eqn:Hbind; [by apply Hstop|].
  assert (job_authorized answers plan store method) as Hok.
  { assert (bg_Strategy entry = BackgroundInterval) as Hs.
    { unfold intervalRecordMatches, entry_of in Hmatch. rewrite Hentry in Hmatch. apply andb_true_iff in Hmatch as [_ Hmatch].
      by destruct (bool_decide (bg_Strategy entry = BackgroundInterval)) eqn:Hb; [apply bool_decide_eq_true in Hb|]. }
    destruct (interval_method _ _ _ Hvalid Hentry Hs Hmethod) as (? & ? & ? & w & ? & ? & ?). unfold job_authorized. do 6 (split; [done|]). exists record, entry, w. by split_and!. }
  unfold dispatched. destruct (ja_dispatch answers) as [|lost e|]; [destruct (ja_canceled_dispatch answers)|destruct (lost || _)|];
    cbn [jr_dispatched jr_outcome jr_err];
    (split; [by intros ? [= <-]|split; [done|split; [by eauto|intros _; set_solver]]]).
Qed.
End props.

(** ** A concrete job *)

Section demo.
Definition ih_record (manifest : Manifest) : PackageRecord :=
  mkPackageRecord "env" "inst" "fp" (mkRevisions 1 1 0) EnableEnabled None
    (mkProvenance "local_package" "" "" "" "" [] "" "" "" "" "" "" "" "" "" "" "" "" "" 0) ExecutionApprovalPolicyApproved manifest.
Definition ih_row : PackageRow := mkPackageRow "fp" (mkRevisions 1 1 0) EnableEnabled false (Some BackgroundInterval) (Ok (ih_record demo_manifest)).

(** The package is installed, and its plan is claimed in the first tick that finds it due. *)
Definition ih_start : Scheduler := mkScheduler ∅ [] (mkIntervalDB {[("env", "inst") := ih_row]} ∅).
Definition ih_answer (_ : nat) : TickAnswer := mkTickAnswer (iv_nonce 7) DatabaseWorks true.
Definition ih_tick (ms : Z) (s : Scheduler) : Scheduler := (tick true (iv_time ms) None None DatabaseWorks ih_answer s).1.
Definition ih_claimed : Scheduler := ih_tick 61000 (ih_tick 60999 (ih_tick 1000 ih_start)).

Definition ih_plan : IntervalPlan := iv_claim 7 61000 61000.
Definition ih_answers (record : PackageRecord) : JobAnswers :=
  mkJobAnswers false true None (Returns (Ok record)) (Some (Returns (Ok true))) (Returns (Ok tt)) (Returns (Ok None)) (Returns (Ok tt)) (Returns (Ok tt))
    false DispatchOk false.
Definition ih_run (answers : JobAnswers) (s : Scheduler) : JobResult :=
  runBackgroundInterval (λ r, r) (λ _, true) (λ s, s) demo_Parse (λ _, true) (λ _, true) (λ _, Ok []) (λ name _, Ok name) (λ _ _, true) answers ih_plan
    (sd_store s).

Lemma background_job_authorized_witness :
  sd_jobs ih_claimed = [ih_plan] ∧ (me_Method <$> jr_dispatched (ih_run (ih_answers (ih_record demo_manifest)) ih_claimed)) = Some "sync" ∧
  (jr_outcome (ih_run (ih_answers (ih_record demo_manifest)) ih_claimed) = "success" ↔
   jr_err (ih_run (ih_answers (ih_record demo_manifest)) ih_claimed) = None).
Proof.
  split; [vm_compute; reflexivity|]. split; [vm_compute; reflexivity|].
  exact (proj1 (proj2 (background_job_authorized (λ r, r) (λ _, true) (λ s, s) demo_Parse (λ _, true) (λ _, true) (λ _, Ok []) (λ name _, Ok name)
    (λ _ _, true) (ih_answers (ih_record demo_manifest)) ih_plan (sd_store ih_claimed)))).
Defined.

(** After a revision of the package the claim is void, whatever the row says. *)
Example job_blocked :
  jr_outcome (ih_run (ih_answers (ih_record demo_manifest)) (ih_tick 61001 (mkScheduler ∅ [] (mkIntervalDB
    {[("env", "inst") := mkPackageRow "fp" (mkRevisions 2 1 0) EnableEnabled false (Some BackgroundInterval)
        (Ok (mkPackageRecord "env" "inst" "fp" (mkRevisions 2 1 0) EnableEnabled None (pk_PackageSourceProvenance (ih_record demo_manifest))
          ExecutionApprovalPolicyApproved demo_manifest))]} (db_intervals (sd_store ih_claimed)))))) = "blocked".
Proof. vm_compute. reflexivity. Qed.
End demo.
